(* ===== verification/_CoqProject ===== *)
-Q . S2P
Prelude.v
DataIO.v
DataIOFacts.v
Numeric.v
NumericFacts.v
Float32.v
DocIter.v
BitSets.v
BitSetsFacts.v
SparseBitsFacts.v
PackedBulk.v
PackedBulkFacts.v
PackedSingleFacts.v
PackedMutable.v
PackedArrayFacts.v
Packed64Facts.v
PackedSBFacts.v
PackedCopyFacts.v
GrowableFacts.v
Heap.v
HeapFacts.v
Sorter.v
SorterFacts.v
SorterTheorems.v
RadixSortFacts.v
Lru.v
LruFacts.v
FlushQueue.v
FlushQueueFacts.v
Mmap.v
Direct.v
DirectFacts.v
DirectMonotonic.v
DirectMonotonicFacts.v
Lz4.v
Lz4Facts.v
ForUtil.v
ForUtilFacts.v
DocIds.v
DocIdsFacts.v
BytePool.v
BytePoolFacts.v
PoolFacts.v
TermsHashFacts.v
MsbSorter.v
BytesRefHash.v
HashTableFacts.v
MsbSorterFacts.v
BytesRefHashFacts.v
BytesRefSortFacts.v
BytesRefHashTheorems.v
FreqProx.v
PostingsSpec.v
FreqProxFacts.v
FreqProxIndex.v
FreqProxReadFacts.v
InvertedIndex.v
InvertedIndexRead.v
InvertedIndexTheorems.v
ApplyDeletes.v
ApplyDeletesFacts.v
Search.v
SearchFacts.v
SearchTheorems.v
