(* ===== verification/Prelude.v ===== *)
(** * A verification development of Rucene, a search engine library in Rust

    Rucene is a port of Lucene.  An index writer turns documents into immutable
    segments through codecs (postings, stored fields, doc values, points, term
    vectors); a searcher opens the segments and runs queries, which build trees
    of scorers over document iterators.  Underneath lie the byte streams, the bit
    sets, the packed integer arrays, the heaps and the numeric encodings that all
    of it is made of.  This development models that base, bottom up, the inverted index the
    writer builds in memory, the scorers, and the queue that orders concurrent flushes, and
    proves what the code above relies on.

    ** Conventions

    The model is a shallow embedding.  A method of the source is a function that
    takes the state of its object and returns the new state; a function that can
    fail returns a [result]: [Ok], [Err] with the kind of the error, [Panic] (an
    index out of range, an unwrap, an assert, a division by zero) or [Diverge] (a
    loop ran out of the fuel the model gives it).  A theorem that a call succeeds
    states [Ok], so that it excludes panics and non-termination.  The program is
    modelled as its release profile builds it: [debug_assert!] is off and integer
    arithmetic wraps.  A machine integer is a [Z] with its width: [as_u w] and
    [as_i w] are the casts, written where an operation of the source can leave the
    range; [usize] is 64 bits wide.  An access through a raw pointer is the
    checked access [vget] or [vset]: the theorems that return [Ok] show it in
    range.  A slice the source mutates is taken and returned; [while] loops run on
    fuel, which the definition computes from its input or receives, with a theorem
    that it is enough.  A trait is a class: [Write], [DataInput], [DocIterator],
    [Scorer], [Mutable]; what its implementations promise is a class over it
    ([LawfulOutput], [LawfulInput], the iterator laws, [Packs]), against which the
    clients are proved.

    ** The files

    - [Prelude]: results, machine integers, vectors, loops, bit lemmas, tactics.
    - [DataIO], [DataIOFacts]: store/io.  The codecs of data_input.rs and
      data_output.rs over any stream, ByteArrayDataInput, slices,
      GrowableByteArrayOutput.  Any record of values is read back as written,
      [copy_bytes] copies, a variable-length integer is read or refused.
    - [Numeric], [NumericFacts], [Float32]: bit_util.rs, math.rs, numeric.rs,
      small_float.rs.  Sortable encodings keep the order, gcd, base 36, SmallFloat.
    - [DocIter]: the DocIterator trait of search/mod.rs and its contract: the
      documents a state has left.  [slow_advance] meets it.
    - [BitSets], [BitSetsFacts], [SparseBitsFacts]: bit_set.rs and bits.rs.
      FixedBitSet refines a finite set; scanning, counting, union and intersection;
      SparseBits finds the stored word of a document.
    - [PackedBulk], [PackedBulkFacts], [PackedSingleFacts]: the bulk codecs of
      util/packed/packed_misc.rs.  Packing is regrouping the digits of one big
      number; every codec round trip is an instance of it.
    - [PackedMutable]: the mutable packed arrays of the same file.
      [PackedArrayFacts] states the promise [Packs] (an array of integers of a
      fixed width) and proves it for the direct and three-block arrays,
      [Packed64Facts] and [PackedSBFacts] for the two block layouts,
      [PackedCopyFacts] for the enum, with the factory and the copy,
      [GrowableFacts] for GrowableWriter, which refines a plain array of [i64]: the
      counts its bulk writes answer say what the plain array is to store.  The promise says
      which offsets into its source a bulk write can serve; the single-block layout
      misplaces the values for others, which is proved too, as is the wrap of the
      block count of [Packed64] beyond 2^32 bits.
    - [Heap], [HeapFacts]: BinaryHeapPub of util/external/binary_heap.rs.  It
      refines a priority queue: pushes and pops keep the heap order and the bag of
      elements, and a pop returns a largest element.
    - [Mmap]: mmap_index_input.rs.  The memory-mapped input as a stream and as a
      random-access input, with the laws of both.
    - [Direct], [DirectFacts]: direct_writer.rs and direct_reader.rs.  A reader of
      each of the fourteen widths returns the value that was added at its index.
    - [DirectMonotonic], [DirectMonotonicFacts]: direct_monotonic_writer.rs and
      direct_monotonic_reader.rs.  Non-decreasing values stored as deviations from
      lines are read back, whatever the slopes round to.
    - [Sorter], [SorterFacts], [SorterTheorems], [RadixSortFacts]: sorter.rs and the
      quick select of selector.rs.  The algorithms see a state through [compare],
      [swap] and the pivot; for every state that keeps their laws they return, permute
      the range only, and leave it in order.  The radix sort is a sequence of stable
      passes.
    - [Lru], [LruFacts]: search/cache/lru_cache.rs.  The linked entries, the hash map
      and the free indexes refine a list of keys and values in order of use.
    - [FlushQueue], [FlushQueueFacts]: index/writer/doc_writer_flush_queue.rs and the
      part of [flush_dwpt] of doc_writer.rs that takes and settles a ticket.  Runs are
      sequences of atomic steps of any number of flushes.  A ledger computed from the
      events alone says what was asked and how it ended: the index writer is told of
      exactly a part of it from the front, in order, and the queue holds the rest; the
      queue drains, and a flush without a segment blocks everything behind it.
    - [Lz4], [Lz4Facts]: the LZ4 part of util/compression.rs and its byte ring.  What
      is compressed is decompressed again.
    - [ForUtil], [ForUtilFacts]: codec/postings/for_util.rs.  A block of 128 values is
      read back and skipped, also by an instance rebuilt from the header.
    - [DocIds], [DocIdsFacts]: util/bkd/doc_ids_writer.rs.  The doc ids of a leaf of a
      points tree are read back in each of the three formats, into a buffer or by a
      visitor; a visitor misreads those of 32 bits.
    - [BytePool], [BytePoolFacts], [PoolFacts], [TermsHashFacts]: byte_block_pool.rs,
      int_block_pool.rs, byte_slice_reader.rs and the streams of terms_hash_per_field.rs.
      The streams of all terms of all fields are chains of slices in one pool; each is
      read back as written, whatever the order of the writes.  Values stored in a pool
      are read back unless they cross a buffer, which panics.
    - [BytesRefHash], [HashTableFacts], [BytesRefHashFacts], [BytesRefSortFacts],
      [BytesRefHashTheorems]: bytes_ref_hash.rs and bytes_ref.rs.  The strings of a hash
      lie in a byte pool; open addressing gives each an id, in the order of their first
      addition, and the hash refines the list of its distinct strings.  The hash function
      is a parameter: any function will do.
    - [FreqProx]: the in-memory inverted index of terms_hash_per_field.rs and
      terms_hash.rs, and the part of doc_consumer.rs that inverts documents into it:
      fields with any index options over the hash, the parallel arrays and the streams,
      and the iterators over terms, documents and positions.  [PostingsSpec] says what the
      two streams of a term hold for its postings; [FreqProxFacts] proves the writes of one
      term, [FreqProxIndex] the invariant of any number of fields over the shared pools,
      [FreqProxReadFacts] the iterators.  [InvertedIndex] has the abstract index, the terms
      of each field with their postings, and the simulation: tokens, fields, documents are
      accepted and rejected alike.  [InvertedIndexRead] states what a sorted field promises
      its readers ([serves]); [InvertedIndexTheorems] puts it together: what the documents
      held is read back in order, bad documents are rejected, and [seek_ceil] finds the
      first term that is not smaller.
    - [ApplyDeletes], [ApplyDeletesFacts]: the flush of terms_hash.rs up to the codec.  The
      buffered deletions by term clear exactly the documents of the deleted terms below
      their limits.
    - [MsbSorter], [MsbSorterFacts]: the most-significant-byte radix sort of sorter.rs,
      for every sorter that shows the bytes of its strings and falls back on a lawful
      one.  The sort of the hash is an instance of it.
    - [Search], [SearchFacts], [SearchTheorems]: the scorers of search/scorer and
      filter_query.rs over any iterators.  The conjunction iterates the
      intersection of its children and the disjunction their union, whatever the
      second phases of the children say; the bulk scorer collects exactly the accepted
      documents of its range.

    ** Fuel and bounds

    [while_fuel] and the fixpoints on fuel get the number of rounds the loop can
    make: the words of a bit set, the values of a copy, the documents a conjunction
    has left, nine groups of a variable-length integer.  Packed arrays are taken
    small enough for the [i32] block counts ([n * 64 + 7 < 2^31]); a theorem shows
    what happens beyond.  Ranges to sort are below [2^30] positions, so that the sums
    and doublings of [i32] positions do not wrap.  The flush queue is taken below the
    10000 tickets its deque is built for: beyond, the deque may move and the pointers
    to tickets dangle, which the model answers with [Panic].  The runs over the block
    pools are those whose charge is at most 1.4 billion, so that positions fit the
    [i32] slots.  The charge is an upper bound of the bytes taken from the pools, and a
    generous one: 5000 for a term, 120 for a written byte and 600 for a variable-length
    integer, which covers some 11 million written bytes; a token of a document is charged
    9000, twice its text and 120 for a byte of its payload, which covers some 150 thousand tokens.  Document ids and positions of an index are below [2^30],
    since both are written doubled; an example shows what happens beyond.  The histories of
    a hash take at most [2^30] bytes.  The radix sort
    gets the size of a block as fuel, which bounds the length of a string.

    ** Not modelled

    Operating-system files, the mapping of a file and threads; the crates outside the
    repository (flate2, crc, unicode_reader); the deeper layers of the index
    (writer, merging, codecs of the segments, FST, BKD, queries and highlighting); of the
    indexing chain, term vectors, norms, stored fields, doc values and points, and the
    state of a document that was rejected half-way, which the source marks deleted.
    The flushes write to their tickets without the lock of the queue; the model takes
    such a write as one step.
    Next to the parts modelled here lie the doc id sets of the query cache, the
    block-packed streams, the codec headers, the delete queue and the file deleter, the
    radix selector and the FST. *)

From Stdlib Require Import Btauto.
From Stdlib Require Export ZArith Lia.
From stdpp Require Export base tactics list numbers option.

#[export] Set Default Proof Using "Type".
Open Scope Z_scope.

(** * Outcomes of a computation

    Rust code of the library returns [Result<T>]; a call may also panic (an
    index out of bounds, a failed [assert!], [unwrap] of [None], and, for the
    [unsafe] pointer accesses, an access outside the allocation).  A loop that
    is written with fuel answers [Diverge] when the fuel runs out. *)

(** [ErrorKind] of error.rs, without the messages; [IoError] and [FromUtf8Err]
    are the foreign errors the modelled code raises. *)
Inductive ErrorKind : Type :=
  | Poisoned
  | IllegalState
  | IllegalArgument
  | UnexpectedEOF
  | CorruptIndex
  | UnsupportedOperation
  | AlreadyClosed
  | IOError
  | RuntimeError
  | IoError
  | FromUtf8Err.

Inductive result (A : Type) : Type :=
  | Ok (a : A)
  | Err (e : ErrorKind)
  | Panic
  | Diverge.
Arguments Ok {A} a.
Arguments Err {A} e.
Arguments Panic {A}.
Arguments Diverge {A}.

#[global] Instance ErrorKind_eq_dec : EqDecision ErrorKind.
Proof. solve_decision. Defined.

#[global] Instance result_eq_dec {A} `{EqDecision A} : EqDecision (result A).
Proof. solve_decision. Defined.

#[global] Instance result_ret : MRet result := fun A a => Ok a.
#[global] Instance result_bind : MBind result := fun A B f m =>
  match m with
  | Ok a => f a
  | Err e => Err e
  | Panic => Panic
  | Diverge => Diverge
  end.
#[global] Instance result_fmap : FMap result := fun A B f m =>
  match m with
  | Ok a => Ok (f a)
  | Err e => Err e
  | Panic => Panic
  | Diverge => Diverge
  end.

Definition is_ok {A} (m : result A) : bool :=
  match m with Ok _ => true | _ => false end.

Lemma bind_Ok {A B} (f : A → result B) (m : result A) b :
  m ≫= f = Ok b ↔ ∃ a, m = Ok a ∧ f a = Ok b.
Proof. destruct m; naive_solver. Qed.

Lemma bind_Ok_l {A B} (f : A → result B) (a : A) : Ok a ≫= f = f a.
Proof. done. Qed.

Lemma bind_assoc {A B C} (m : result A) (f : A → result B) (g : B → result C) :
  (m ≫= f) ≫= g = m ≫= (fun a => f a ≫= g).
Proof. by destruct m. Qed.

(** Failing a run-time check of the source ([assert!], slice bounds). *)
Definition check (b : bool) : result unit := if b then Ok tt else Panic.

(** [bail!] *)
Definition bail {A} (e : ErrorKind) : result A := Err e.

(** * Vectors and slices

    [Vec<T>] and slices are lists; an index is a [usize], kept as a
    non-negative [Z].  Reading or writing out of range panics. *)

Definition vget {A} (l : list A) (i : Z) : result A :=
  if decide (0 ≤ i)
  then match l !! Z.to_nat i with Some x => Ok x | None => Panic end
  else Panic.

Definition vset {A} (l : list A) (i : Z) (x : A) : result (list A) :=
  if decide (0 ≤ i < Z.of_nat (length l))
  then Ok (<[Z.to_nat i := x]> l)
  else Panic.

Definition vlen {A} (l : list A) : Z := Z.of_nat (length l).
#[global] Arguments vlen : simpl never.

(** [&l[from..to]] *)
Definition vslice {A} (l : list A) (from to : Z) : result (list A) :=
  if decide (0 ≤ from ∧ from ≤ to ∧ to ≤ vlen l)
  then Ok (take (Z.to_nat (to - from)) (drop (Z.to_nat from) l))
  else Panic.

(** [l[off..off + src.len()].copy_from_slice(src)] *)
Definition vblit {A} (l : list A) (off : Z) (src : list A) : result (list A) :=
  if decide (0 ≤ off ∧ off + vlen src ≤ vlen l)
  then Ok (take (Z.to_nat off) l ++ src ++ drop (Z.to_nat off + length src) l)
  else Panic.

Lemma vget_Ok {A} (l : list A) i x :
  vget l i = Ok x ↔ 0 ≤ i ∧ l !! Z.to_nat i = Some x.
Proof. unfold vget. case_decide; [destruct (l !! _)|]; naive_solver. Qed.

Lemma vget_lookup {A} (l : list A) (i : nat) x :
  l !! i = Some x → vget l (Z.of_nat i) = Ok x.
Proof. intros H. apply vget_Ok. rewrite Nat2Z.id. split; [lia|done]. Qed.

Lemma vget_app_here {A} (pre : list A) x post i :
  i = vlen pre → vget (pre ++ x :: post) i = Ok x.
Proof.
  intros ->. apply vget_lookup. by rewrite list_lookup_middle.
Qed.

Lemma vset_Ok {A} (l l' : list A) i x :
  vset l i x = Ok l' ↔ 0 ≤ i < vlen l ∧ l' = <[Z.to_nat i := x]> l.
Proof. unfold vset, vlen. case_decide; naive_solver. Qed.

Lemma vset_in {A} (l : list A) i x :
  0 ≤ i < vlen l → vset l i x = Ok (<[Z.to_nat i := x]> l).
Proof. intros H. by apply vset_Ok. Qed.

Lemma vget_in {A} (l : list A) i :
  0 ≤ i < vlen l → ∃ x, vget l i = Ok x ∧ l !! Z.to_nat i = Some x.
Proof.
  intros H. unfold vlen in H.
  destruct (lookup_lt_is_Some_2 l (Z.to_nat i)) as [x Hx]; [lia|].
  exists x. split; [apply vget_Ok; split; [lia|done]|done].
Qed.

Lemma vlen_nonneg {A} (l : list A) : 0 ≤ vlen l.
Proof. unfold vlen. lia. Qed.

Lemma vlen_app {A} (l k : list A) : vlen (l ++ k) = vlen l + vlen k.
Proof. unfold vlen. rewrite length_app. lia. Qed.

Lemma vlen_cons {A} (x : A) l : vlen (x :: l) = vlen l + 1.
Proof. unfold vlen. simpl. lia. Qed.

Lemma vlen_nil {A} : vlen (@nil A) = 0.
Proof. done. Qed.

Lemma vlen_insert {A} (l : list A) i x : vlen (<[i := x]> l) = vlen l.
Proof. unfold vlen. by rewrite length_insert. Qed.

(** * Loops *)

(** [for i in from..to { s = body(i, s)?; }] *)
Fixpoint for_n {St} (n : nat) (i : Z) (body : Z → St → result St) (s : St) : result St :=
  match n with
  | O => Ok s
  | S n' => body i s ≫= for_n n' (i + 1) body
  end.

Definition for_range {St} (from to : Z) (body : Z → St → result St) (s : St) : result St :=
  for_n (Z.to_nat (to - from)) from body s.

(** [for x in l { s = body(x, s)?; }] *)
Fixpoint for_each {A St} (l : list A) (body : A → St → result St) (s : St) : result St :=
  match l with
  | [] => Ok s
  | x :: l' => body x s ≫= for_each l' body
  end.

(** [while cond(s) { s = body(s)?; }] with a bound on the iterations. *)
Fixpoint while_fuel {St} (fuel : nat) (cond : St → bool) (body : St → result St) (s : St) : result St :=
  if cond s then
    match fuel with
    | O => Diverge
    | S f => body s ≫= while_fuel f cond body
    end
  else Ok s.

(** The Hoare rule of [for_range]: an invariant indexed by the counter. *)
Lemma for_n_inv {St} (P : Z → St → Prop) (body : Z → St → result St) n : ∀ i s,
  P i s →
  (∀ j t, i ≤ j < i + Z.of_nat n → P j t → ∃ t', body j t = Ok t' ∧ P (j + 1) t') →
  ∃ s', for_n n i body s = Ok s' ∧ P (i + Z.of_nat n) s'.
Proof.
  induction n as [|n IH]; intros i s HP Hb.
  - exists s. split; [done|]. by replace (i + Z.of_nat 0) with i by lia.
  - destruct (Hb i s) as (t & Ht & HPt); [lia|done|].
    destruct (IH (i + 1) t) as (s' & Hs' & HP'); [done| |].
    { intros j u Hj. apply Hb. lia. }
    exists s'. simpl. rewrite Ht. simpl. split; [done|].
    by replace (i + Z.of_nat (S n)) with (i + 1 + Z.of_nat n) by lia.
Qed.

Lemma for_range_inv {St} (P : Z → St → Prop) (body : Z → St → result St) from to s :
  from ≤ to →
  P from s →
  (∀ j t, from ≤ j < to → P j t → ∃ t', body j t = Ok t' ∧ P (j + 1) t') →
  ∃ s', for_range from to body s = Ok s' ∧ P to s'.
Proof.
  intros Hle HP Hb. unfold for_range.
  destruct (for_n_inv P body (Z.to_nat (to - from)) from s) as (s' & H1 & H2); [done| |].
  { intros j t Hj. apply Hb. lia. }
  exists s'. split; [done|]. by replace to with (from + Z.of_nat (Z.to_nat (to - from))) by lia.
Qed.

Lemma for_range_empty {St} from to (body : Z → St → result St) s :
  to ≤ from → for_range from to body s = Ok s.
Proof. intros H. unfold for_range. by replace (Z.to_nat (to - from)) with O by lia. Qed.

Lemma for_range_step {St} from to (body : Z → St → result St) s :
  from < to → for_range from to body s = body from s ≫= for_range (from + 1) to body.
Proof.
  intros H. unfold for_range.
  replace (Z.to_nat (to - from)) with (S (Z.to_nat (to - (from + 1)))) by lia.
  done.
Qed.

(** The total-correctness rule of [while_fuel]: an invariant and a measure. *)
Lemma while_fuel_inv {St} (P : St → Prop) (m : St → nat) cond (body : St → result St) :
  (∀ s, P s → cond s = true → ∃ s', body s = Ok s' ∧ P s' ∧ (m s' < m s)%nat) →
  ∀ fuel s, P s → (m s ≤ fuel)%nat →
  ∃ s', while_fuel fuel cond body s = Ok s' ∧ P s' ∧ cond s' = false.
Proof.
  intros Hb fuel. induction fuel as [|f IH]; intros s HP Hm; simpl.
  - destruct (cond s) eqn:Hc; [|by exists s].
    destruct (Hb s HP Hc) as (s' & _ & _ & Hlt). lia.
  - destruct (cond s) eqn:Hc; [|by exists s].
    destruct (Hb s HP Hc) as (s' & Hs' & HP' & Hlt). rewrite Hs'. simpl.
    apply IH; [done|lia].
Qed.

Lemma while_fuel_ext {St} cond (b b' : St → result St) : (∀ s, b s = b' s) → ∀ fuel s, while_fuel fuel cond b s = while_fuel fuel cond b' s.
Proof.
  intros Hb fuel. induction fuel as [|f IH]; intros s; simpl; [done|]. destruct (cond s); [|done].
  rewrite Hb. destruct (b' s); [apply IH|done..].
Qed.

(** * Machine integers

    An integer of the source is a [Z] in the range of its type.  [as_u w] and
    [as_i w] are the casts to the unsigned and the signed type of width [w];
    they are also the wrap-around of an arithmetic operation. *)

Definition as_u (w z : Z) : Z := z mod 2 ^ w.
Definition as_i (w z : Z) : Z := (z + 2 ^ (w - 1)) mod 2 ^ w - 2 ^ (w - 1).

Abbreviation as_u8 := (as_u 8).
Abbreviation as_u16 := (as_u 16).
Abbreviation as_u32 := (as_u 32).
Abbreviation as_u64 := (as_u 64).
Abbreviation as_i8 := (as_i 8).
Abbreviation as_i16 := (as_i 16).
Abbreviation as_i32 := (as_i 32).
Abbreviation as_i64 := (as_i 64).

Definition is_u (w z : Z) : Prop := 0 ≤ z < 2 ^ w.
Definition is_i (w z : Z) : Prop := - 2 ^ (w - 1) ≤ z < 2 ^ (w - 1).

#[global] Instance is_u_dec w z : Decision (is_u w z).
Proof. unfold is_u. apply _. Defined.
#[global] Instance is_i_dec w z : Decision (is_i w z).
Proof. unfold is_i. apply _. Defined.

(** Shifts of a [w]-bit signed integer: [<<] wraps, [>>] is arithmetic and
    [unsigned_shift] ([UnsignedShift] of bit_util.rs) is logical. *)
Definition shl_i (w a n : Z) : Z := as_i w (Z.shiftl a n).
Definition shr_i (a n : Z) : Z := Z.shiftr a n.
Definition unsigned_shift (w a n : Z) : Z := as_i w (Z.shiftr (as_u w a) n).

Definition NO_MORE_DOCS : Z := 2147483647.

Lemma pow2_pos w : 0 ≤ w → 0 < 2 ^ w.
Proof. intros. by apply Z.pow_pos_nonneg. Qed.

Lemma pow2_split w : 1 ≤ w → 2 ^ w = 2 * 2 ^ (w - 1).
Proof. intros. rewrite <- Z.pow_succ_r by lia. f_equal; lia. Qed.

Lemma as_u_range w z : 0 ≤ w → is_u w (as_u w z).
Proof. intros. apply Z.mod_pos_bound, pow2_pos. done. Qed.

Lemma as_i_range w z : 1 ≤ w → is_i w (as_i w z).
Proof.
  intros. unfold is_i, as_i. pose proof (pow2_split w ltac:(lia)).
  pose proof (Z.mod_pos_bound (z + 2 ^ (w - 1)) (2 ^ w) ltac:(apply pow2_pos; lia)). lia.
Qed.

Lemma as_u_id w z : is_u w z → as_u w z = z.
Proof. apply Z.mod_small. Qed.

Lemma as_i_id w z : 1 ≤ w → is_i w z → as_i w z = z.
Proof.
  unfold is_i, as_i. intros Hw H. pose proof (pow2_split w Hw).
  rewrite Z.mod_small; lia.
Qed.

Lemma as_i_mod w z : 1 ≤ w → as_i w z mod 2 ^ w = z mod 2 ^ w.
Proof.
  intros Hw. unfold as_i.
  rewrite Zminus_mod_idemp_l. f_equal. lia.
Qed.

Lemma as_u_as_i w z : 1 ≤ w → as_u w (as_i w z) = as_u w z.
Proof. apply as_i_mod. Qed.

Lemma as_i_congr w a b : a mod 2 ^ w = b mod 2 ^ w → as_i w a = as_i w b.
Proof.
  intros H. unfold as_i. rewrite <- (Zplus_mod_idemp_l a), <- (Zplus_mod_idemp_l b). by rewrite H.
Qed.

Lemma as_i_as_u w z : 1 ≤ w → as_i w (as_u w z) = as_i w z.
Proof. intros. apply as_i_congr. unfold as_u. by rewrite Zmod_mod. Qed.

(** ** Bits *)

Lemma tb_neg a i : i < 0 → Z.testbit a i = false.
Proof. apply Z.testbit_neg_r. Qed.

Lemma tb_high a w i : is_u w a → w ≤ i → Z.testbit a i = false.
Proof.
  intros [H0 H1] Hi. destruct (decide (0 ≤ w)).
  - rewrite <- (Z.mod_small a (2 ^ w)) by lia. by apply Z.mod_pow2_bits_high.
  - rewrite Z.pow_neg_r in H1 by lia. lia.
Qed.

Lemma tb_as_u w a i : 0 ≤ w → Z.testbit (as_u w a) i = (i <? w) && Z.testbit a i.
Proof.
  intros Hw. unfold as_u. destruct (Z.ltb_spec i w); simpl.
  - by apply Z.mod_pow2_bits_low.
  - by apply Z.mod_pow2_bits_high.
Qed.

Lemma is_i_sign w a : 1 ≤ w → is_i w a → Z.testbit a (w - 1) = (a <? 0).
Proof.
  intros Hw [H1 H2]. destruct (Z.ltb_spec a 0).
  - destruct (Z.testbit a (w - 1)) eqn:E; [done|].
    assert (Hlow : Z.lnot a mod 2 ^ (w - 1) = Z.lnot a).
    { apply Z.mod_small. unfold Z.lnot. lia. }
    assert (Z.testbit (Z.lnot a) (w - 1) = true) as Hn.
    { rewrite Z.lnot_spec by lia. by rewrite E. }
    rewrite <- Hlow, Z.mod_pow2_bits_high in Hn by lia. done.
  - apply (tb_high a (w - 1)); [|lia]. split; lia.
Qed.

Lemma tb_is_i w a i : 1 ≤ w → is_i w a → w - 1 ≤ i → Z.testbit a i = (a <? 0).
Proof.
  intros Hw [H1 H2] Hi.
  rewrite <- (is_i_sign (i + 1) a); [f_equal; lia|lia|].
  unfold is_i. replace (i + 1 - 1) with i by lia.
  pose proof (Z.pow_le_mono_r 2 (w - 1) i ltac:(lia) ltac:(lia)). lia.
Qed.

Lemma tb_as_i w a i :
  1 ≤ w → 0 ≤ i → Z.testbit (as_i w a) i = if i <? w then Z.testbit a i else Z.testbit a (w - 1).
Proof.
  intros Hw Hi.
  assert (Hlow : ∀ j, 0 ≤ j < w → Z.testbit (as_i w a) j = Z.testbit a j).
  { intros j Hj. rewrite <- (Z.mod_pow2_bits_low _ w) by lia.
    rewrite as_i_mod by lia. by rewrite Z.mod_pow2_bits_low by lia. }
  destruct (Z.ltb_spec i w); [apply Hlow; lia|].
  rewrite <- (Hlow (w - 1)) by lia.
  rewrite (tb_is_i w _ i), (tb_is_i w _ (w - 1)); try done; try lia; by apply as_i_range.
Qed.

Lemma tb_shiftl a n i : 0 ≤ i → Z.testbit (Z.shiftl a n) i = Z.testbit a (i - n).
Proof. apply Z.shiftl_spec. Qed.

Lemma tb_shiftr a n i : 0 ≤ i → Z.testbit (Z.shiftr a n) i = Z.testbit a (i + n).
Proof. apply Z.shiftr_spec. Qed.

Lemma tb_shl_i w a n i :
  1 ≤ w → 0 ≤ i → Z.testbit (shl_i w a n) i =
    if i <? w then Z.testbit a (i - n) else Z.testbit a (w - 1 - n).
Proof.
  intros. unfold shl_i. rewrite tb_as_i by lia. case_match; by rewrite tb_shiftl by lia.
Qed.

Lemma tb_unsigned_shift w a n i :
  1 ≤ w → 1 ≤ n → 0 ≤ i → Z.testbit (unsigned_shift w a n) i = (i + n <? w) && Z.testbit a (i + n).
Proof.
  intros. unfold unsigned_shift. rewrite tb_as_i by lia.
  destruct (Z.ltb_spec i w); rewrite tb_shiftr, tb_as_u by lia; [done|].
  destruct (Z.ltb_spec (w - 1 + n) w), (Z.ltb_spec (i + n) w); by try lia.
Qed.

Lemma unsigned_shift_0 w a : 1 ≤ w → is_i w a → unsigned_shift w a 0 = a.
Proof.
  intros. unfold unsigned_shift. rewrite Z.shiftr_0_r, as_i_as_u by lia. by apply as_i_id.
Qed.

(** For a non-negative value the logical shift is the plain one. *)
Lemma unsigned_shift_nonneg w a n :
  1 ≤ w → 0 ≤ n → is_i w a → 0 ≤ a → unsigned_shift w a n = Z.shiftr a n.
Proof.
  intros Hw Hn [H1 H2] Ha. unfold unsigned_shift.
  pose proof (pow2_split w Hw).
  rewrite as_u_id by (unfold is_u; lia). apply as_i_id; [done|].
  rewrite Z.shiftr_div_pow2 by done. pose proof (pow2_pos n Hn).
  split; [|].
  - pose proof (Z.div_pos a (2 ^ n) ltac:(lia) ltac:(lia)). lia.
  - apply Z.le_lt_trans with a; [|done]. apply Z.div_le_upper_bound; [lia|]. nia.
Qed.

Lemma tb_lnot a i : 0 ≤ i → Z.testbit (Z.lnot a) i = negb (Z.testbit a i).
Proof. apply Z.lnot_spec. Qed.

Lemma tb_ones n i : 0 ≤ n → 0 ≤ i → Z.testbit (Z.ones n) i = (i <? n).
Proof.
  intros. destruct (Z.ltb_spec i n); [by apply Z.ones_spec_low|by apply Z.ones_spec_high].
Qed.

Lemma tb_m1 i : 0 ≤ i → Z.testbit (-1) i = true.
Proof. apply Z.bits_m1. Qed.

Lemma tb_pow2 n i : 0 ≤ n → 0 ≤ i → Z.testbit (2 ^ n) i = (i =? n).
Proof.
  intros. rewrite Z.pow2_bits_eqb by done. apply Z.eqb_sym.
Qed.

Lemma tb_1 i : 0 ≤ i → Z.testbit 1 i = (i =? 0).
Proof. intros. change 1 with (2 ^ 0). by apply tb_pow2. Qed.

Lemma ones_minus n : 0 ≤ n → Z.shiftl 1 n - 1 = Z.ones n.
Proof. intros. rewrite Z.ones_equiv, Z.shiftl_1_l. lia. Qed.

Create Rewrite HintDb bits.
#[export] Hint Rewrite Z.lor_spec Z.land_spec Z.lxor_spec Z.ldiff_spec Z.bits_0 : bits.
#[export] Hint Rewrite tb_lnot tb_ones tb_m1 tb_pow2 tb_1 tb_shiftl tb_shiftr tb_as_u tb_as_i
  tb_shl_i tb_unsigned_shift using lia : bits.
#[export] Hint Rewrite andb_true_l andb_true_r andb_false_l andb_false_r orb_true_l orb_true_r
  orb_false_l orb_false_r xorb_false_l xorb_false_r negb_involutive : bits.

(** Decide the comparisons in the goal. *)
Ltac split_cmp :=
  repeat match goal with
  | |- context [?a <? ?b] => destruct (Z.ltb_spec a b); [try lia|try lia]; cbv beta iota
  | |- context [?a <=? ?b] => destruct (Z.leb_spec a b); [try lia|try lia]; cbv beta iota
  | |- context [?a =? ?b] => destruct (Z.eqb_spec a b); [try lia|try lia]; cbv beta iota
  end.

(** Turn an equation of integers into one of bits and compute both sides. *)
Ltac bits_side :=
  repeat (progress (autorewrite with bits) || (rewrite tb_neg by lia)).

Ltac bitwise :=
  apply Z.bits_inj'; intros ? ?; bits_side; split_cmp; bits_side; try done;
  try (repeat f_equal; lia); try btauto.

Lemma lor_as_i w v y : 1 ≤ w → is_u (w - 1) v → Z.lor v (as_i w y) = as_i w (Z.lor v y).
Proof.
  intros Hw Hv. bitwise. by rewrite !(tb_high v (w - 1)) by (done || lia).
Qed.

(** Disjoint [lor] is addition. *)
Lemma lor_add_disjoint a b n :
  0 ≤ n → is_u n b → Z.lor (Z.shiftl a n) b = a * 2 ^ n + b.
Proof.
  intros Hn Hb. rewrite <- Z.shiftl_mul_pow2 by done.
  symmetry. rewrite <- Z.lxor_lor.
  - apply Z.add_nocarry_lxor. apply Z.bits_inj'. intros i Hi. autorewrite with bits.
    destruct (decide (i < n)); [by rewrite tb_neg by lia|].
    rewrite (tb_high b n) by (done || lia). by rewrite andb_false_r.
  - apply Z.bits_inj'. intros i Hi. autorewrite with bits.
    destruct (decide (i < n)); [by rewrite tb_neg by lia|].
    rewrite (tb_high b n) by (done || lia). by rewrite andb_false_r.
Qed.

(** ** Big-endian numerals

    [be_value w l] reads the digits [l], each of [w] bits, the most significant
    one first; [be_digits w n z] writes the [n] lowest digits of [z]. *)

Definition be_value (w : Z) (l : list Z) : Z := foldl (fun acc x => acc * 2 ^ w + x) 0 l.

Fixpoint be_digits (w : Z) (n : nat) (z : Z) : list Z :=
  match n with
  | O => []
  | S m => as_u w (Z.shiftr z (w * Z.of_nat m)) :: be_digits w m z
  end.

Lemma be_value_snoc w l x : be_value w (l ++ [x]) = be_value w l * 2 ^ w + x.
Proof. unfold be_value. by rewrite foldl_app. Qed.

Lemma be_value_app w l k : 0 ≤ w →
  be_value w (l ++ k) = be_value w l * 2 ^ (w * vlen k) + be_value w k.
Proof.
  intros Hw. induction k as [|x k IH] using rev_ind.
  - rewrite app_nil_r, vlen_nil, Z.mul_0_r. unfold be_value at 3. simpl. lia.
  - rewrite app_assoc, !be_value_snoc, IH, vlen_app, vlen_cons, vlen_nil.
    replace (w * (vlen k + (0 + 1))) with (w * vlen k + w) by lia.
    rewrite Z.pow_add_r by (pose proof (vlen_nonneg k); nia). lia.
Qed.

Lemma be_value_cons w x l : 0 ≤ w → be_value w (x :: l) = x * 2 ^ (w * vlen l) + be_value w l.
Proof. intros. change (x :: l) with ([x] ++ l). rewrite be_value_app by done. f_equal. Qed.

Lemma digit_bound a x P Q : 0 ≤ a < Q → 0 ≤ x < P → 0 ≤ a * P + x < Q * P.
Proof. intros Ha Hx. assert (a * P ≤ (Q - 1) * P) by nia. nia. Qed.

Lemma be_value_bound w l : 0 ≤ w → Forall (is_u w) l → is_u (w * vlen l) (be_value w l).
Proof.
  intros Hw. induction l as [|x l IH] using rev_ind; intros Hl.
  - rewrite vlen_nil, Z.mul_0_r. unfold is_u, be_value. simpl. lia.
  - apply Forall_app in Hl as [Hl Hx]. rewrite Forall_singleton in Hx.
    rewrite be_value_snoc, vlen_app, vlen_cons, vlen_nil.
    replace (w * (vlen l + (0 + 1))) with (w * vlen l + w) by lia.
    pose proof (vlen_nonneg l). unfold is_u. rewrite Z.pow_add_r by nia.
    apply digit_bound; [apply IH, Hl|apply Hx].
Qed.

(** The digits of a numeral are determined by its value and its length. *)
Lemma be_value_inj w l : 0 ≤ w → ∀ k,
  Forall (is_u w) l → Forall (is_u w) k → length l = length k →
  be_value w l = be_value w k → l = k.
Proof.
  intros Hw. induction l as [|x l IH] using rev_ind; intros k Hl Hk Hlen He.
  { symmetry. apply nil_length_inv. simpl in Hlen. done. }
  destruct (decide (k = [])) as [->|Hne].
  { rewrite length_app in Hlen. simpl in Hlen. lia. }
  destruct (@exists_last _ k Hne) as (k' & y & ->).
  rewrite !be_value_snoc in He. rewrite !length_app in Hlen. simpl in Hlen.
  apply Forall_app in Hl as [Hl Hx]. apply Forall_app in Hk as [Hk Hy].
  rewrite Forall_singleton in Hx, Hy.
  pose proof (pow2_pos w Hw).
  assert (be_value w l = be_value w k' ∧ x = y) as [He' ->].
  { destruct Hx, Hy. apply (Z.div_mod_unique (2 ^ w)); lia. }
  f_equal. apply IH; try done. lia.
Qed.

Lemma length_be_digits w n z : length (be_digits w n z) = n.
Proof. induction n; simpl; by f_equal. Qed.

Lemma be_digits_range w n z : 0 ≤ w → Forall (is_u w) (be_digits w n z).
Proof. intros. induction n; simpl; constructor; [by apply as_u_range|done]. Qed.

Lemma be_value_digits w n z : 0 ≤ w → be_value w (be_digits w n z) = as_u (w * Z.of_nat n) z.
Proof.
  intros Hw. induction n as [|n IH]; [by rewrite Z.mul_0_r; unfold as_u; rewrite Z.mod_1_r|].
  cbn [be_digits]. rewrite be_value_cons, IH by done. unfold vlen. rewrite length_be_digits.
  replace (w * Z.of_nat (S n)) with (w * Z.of_nat n + w) by lia.
  unfold as_u. rewrite Z.pow_add_r, Z.rem_mul_r by (try apply pow2_pos; lia || nia).
  rewrite Z.shiftr_div_pow2 by lia. lia.
Qed.

(** ** Slices *)

Lemma vslice_in {A} (l : list A) a b :
  0 ≤ a → a ≤ b → b ≤ vlen l → vslice l a b = Ok (take (Z.to_nat (b - a)) (drop (Z.to_nat a) l)).
Proof. intros. unfold vslice. by rewrite decide_True. Qed.

Lemma vblit_in {A} (l src : list A) off :
  0 ≤ off → off + vlen src ≤ vlen l →
  vblit l off src = Ok (take (Z.to_nat off) l ++ src ++ drop (Z.to_nat off + length src) l).
Proof. intros. unfold vblit. by rewrite decide_True. Qed.

Lemma vlen_take {A} (l : list A) n : 0 ≤ n ≤ vlen l → vlen (take (Z.to_nat n) l) = n.
Proof. unfold vlen. intros. rewrite length_take. lia. Qed.

Lemma vlen_drop {A} (l : list A) n : 0 ≤ n ≤ vlen l → vlen (drop (Z.to_nat n) l) = vlen l - n.
Proof. unfold vlen. intros. rewrite length_drop. lia. Qed.

Lemma vlen_replicate {A} (x : A) n : 0 ≤ n → vlen (replicate (Z.to_nat n) x) = n.
Proof. unfold vlen. intros. rewrite length_replicate. lia. Qed.

Lemma to_nat_vlen {A} (l : list A) : Z.to_nat (vlen l) = length l.
Proof. unfold vlen. lia. Qed.

Lemma vslice_0 {A} (l : list A) n :
  0 ≤ n ≤ vlen l → vslice l 0 n = Ok (take (Z.to_nat n) l).
Proof. intros. rewrite vslice_in by lia. by rewrite Z.sub_0_r. Qed.

Lemma vslice_full {A} (l : list A) : vslice l 0 (vlen l) = Ok l.
Proof.
  rewrite vslice_0 by (pose proof (vlen_nonneg l); lia). by rewrite to_nat_vlen, firstn_all.
Qed.

Lemma as_i_lor w a b : 1 ≤ w → as_i w (Z.lor a b) = Z.lor (as_i w a) (as_i w b).
Proof. intros. bitwise. Qed.

Lemma is_i_as_i w a : 1 ≤ w → is_i w a ↔ as_i w a = a.
Proof.
  intros Hw. split; [by apply as_i_id|]. intros <-. by apply as_i_range.
Qed.

Lemma is_i_lor w a b : 1 ≤ w → is_i w a → is_i w b → is_i w (Z.lor a b).
Proof.
  intros Hw Ha Hb. apply is_i_as_i; [done|].
  by rewrite as_i_lor, (as_i_id w a), (as_i_id w b).
Qed.

Lemma as_u_lor w a b : 0 ≤ w → as_u w (Z.lor a b) = Z.lor (as_u w a) (as_u w b).
Proof. intros. bitwise. Qed.

Lemma is_u_as_u w a : 0 ≤ w → is_u w a ↔ as_u w a = a.
Proof. intros Hw. split; [by apply as_u_id|]. intros <-. by apply as_u_range. Qed.

Lemma is_u_lor w a b : 0 ≤ w → is_u w a → is_u w b → is_u w (Z.lor a b).
Proof.
  intros Hw Ha Hb. apply is_u_as_u; [done|].
  by rewrite as_u_lor, (as_u_id w a), (as_u_id w b).
Qed.

Lemma is_u_land w a b : 0 ≤ w → is_u w b → is_u w (Z.land a b).
Proof.
  intros Hw Hb. apply is_u_as_u; [done|].
  bitwise. by rewrite (tb_high b w), andb_false_r by (done || lia).
Qed.

Lemma is_i_land w a b : 1 ≤ w → is_i w a → is_i w b → is_i w (Z.land a b).
Proof.
  intros Hw Ha Hb. apply is_i_as_i; [done|].
  assert (as_i w (Z.land a b) = Z.land (as_i w a) (as_i w b)) as -> by bitwise.
  by rewrite (as_i_id w a), (as_i_id w b).
Qed.

Lemma is_i_lxor w a b : 1 ≤ w → is_i w a → is_i w b → is_i w (Z.lxor a b).
Proof.
  intros Hw Ha Hb. apply is_i_as_i; [done|].
  assert (as_i w (Z.lxor a b) = Z.lxor (as_i w a) (as_i w b)) as -> by bitwise.
  by rewrite (as_i_id w a), (as_i_id w b).
Qed.

Lemma is_i_lnot w a : 1 ≤ w → is_i w a → is_i w (Z.lnot a).
Proof. unfold is_i, Z.lnot. lia. Qed.

Lemma is_i_shl_i w a n : 1 ≤ w → is_i w (shl_i w a n).
Proof. intros. by apply as_i_range. Qed.

Lemma is_i_unsigned_shift w a n : 1 ≤ w → is_i w (unsigned_shift w a n).
Proof. intros. by apply as_i_range. Qed.

Lemma is_i_shr_i w a n : 1 ≤ w → 0 ≤ n → is_i w a → is_i w (shr_i a n).
Proof.
  intros Hw Hn [H1 H2]. unfold shr_i. rewrite Z.shiftr_div_pow2 by done.
  pose proof (pow2_pos n Hn). pose proof (pow2_pos (w - 1) ltac:(lia)). split.
  - apply Z.div_le_lower_bound; [lia|]. nia.
  - apply Z.div_lt_upper_bound; [lia|]. nia.
Qed.

Lemma is_i_const w : 1 ≤ w → is_i w 0 ∧ is_i w (-1).
Proof. intros. pose proof (pow2_pos (w - 1) ltac:(lia)). unfold is_i. lia. Qed.

Create HintDb ranges.
#[export] Hint Resolve is_i_lor is_i_land is_i_lxor is_i_lnot is_i_shl_i is_i_unsigned_shift
  as_i_range as_u_range is_u_lor is_u_land : ranges.

(** Two words with the same bits are equal. *)
Lemma is_i_inj w a b : 1 ≤ w → is_i w a → is_i w b →
  (∀ i, 0 ≤ i < w → Z.testbit a i = Z.testbit b i) → a = b.
Proof.
  intros Hw Ha Hb Hi. rewrite <- (as_i_id w a), <- (as_i_id w b) by done.
  apply Z.bits_inj'. intros i H0. rewrite !tb_as_i by lia. case_match eqn:E.
  - apply Hi. apply Z.ltb_lt in E. lia.
  - apply Hi. lia.
Qed.

(** A loop over the elements of a list is a loop over its indices. *)
Lemma for_each_inv {A St} (P : Z → St → Prop) (body : A → St → result St) (l : list A) s :
  P 0 s →
  (∀ i x t, 0 ≤ i → l !! Z.to_nat i = Some x → P i t → ∃ t', body x t = Ok t' ∧ P (i + 1) t') →
  ∃ s', for_each l body s = Ok s' ∧ P (vlen l) s'.
Proof.
  assert (Hgen : ∀ k l' s, (∀ j : nat, l' !! j = l !! (k + j)%nat) → P (Z.of_nat k) s →
    (∀ i x t, 0 ≤ i → l !! Z.to_nat i = Some x → P i t → ∃ t', body x t = Ok t' ∧ P (i + 1) t') →
    ∃ s', for_each l' body s = Ok s' ∧ P (Z.of_nat k + vlen l') s').
  { intros k l'. revert k. induction l' as [|x l' IH]; intros k t Hl HP Hb.
    - exists t. split; [done|]. unfold vlen. simpl. by rewrite Z.add_0_r.
    - destruct (Hb (Z.of_nat k) x t) as (t1 & Ht1 & HP1); [lia| |done|].
      { rewrite Nat2Z.id. specialize (Hl 0%nat). rewrite Nat.add_0_r in Hl. by rewrite <- Hl. }
      simpl. rewrite Ht1. simpl. destruct (IH (S k) t1) as (t2 & Ht2 & HP2).
      + intros j. specialize (Hl (S j)). simpl in Hl. rewrite Hl. f_equal. lia.
      + by replace (Z.of_nat (S k)) with (Z.of_nat k + 1) by lia.
      + done.
      + exists t2. split; [done|]. rewrite vlen_cons.
        by replace (Z.of_nat k + (vlen l' + 1)) with (Z.of_nat (S k) + vlen l') by lia. }
  intros H0 Hb. by apply (Hgen O l s).
Qed.

Lemma land_255 b : is_u 8 b → Z.land b 0xff = b.
Proof. intros Hb. change 0xff with (Z.ones 8). rewrite Z.land_ones by lia. by apply Z.mod_small. Qed.

(** Run the loop of the goal under an invariant (and a measure). *)
Tactic Notation "loop_inv" uconstr(P) uconstr(m) :=
  match goal with
  | |- context [while_fuel ?n ?c ?b ?st] =>
    assert (∃ st', while_fuel n c b st = Ok st' ∧ P st' ∧ c st' = false) as Hloop; [apply (while_fuel_inv P m)|]
  end.
Tactic Notation "each_inv" uconstr(P) :=
  match goal with
  | |- context [for_each ?l ?b ?st] =>
    assert (∃ st', for_each l b st = Ok st' ∧ P (vlen l) st') as Hloop; [apply (for_each_inv P)|]
  end.

(** * Elements by position *)

Section elements.
Context {T : Type} `{Inhabited T}.
Implicit Types l : list T.

Definition elem (l : list T) (i : Z) : T := l !!! Z.to_nat i.

Lemma elem_lookup l i x : l !! Z.to_nat i = Some x → elem l i = x.
Proof. intros E. unfold elem. by apply list_lookup_total_correct. Qed.
Lemma vget_elem l i : 0 ≤ i < vlen l → vget l i = Ok (elem l i).
Proof. intros Hi. destruct (vget_in l i Hi) as (x & -> & Hx). by rewrite (elem_lookup l i x). Qed.
Lemma elem_insert l i x k : 0 ≤ i < vlen l → 0 ≤ k → elem (<[Z.to_nat i := x]> l) k = if k =? i then x else elem l k.
Proof.
  intros Hi Hk. unfold elem, vlen in *. destruct (Z.eqb_spec k i) as [->|]; [apply list_lookup_total_insert_eq; lia|].
  apply list_lookup_total_insert_ne. lia.
Qed.
Lemma lookup_elem l i : 0 ≤ i < vlen l → l !! Z.to_nat i = Some (elem l i).
Proof. intros Hi. destruct (vget_in l i Hi) as (x & _ & Hx). by rewrite (elem_lookup l i x). Qed.

Lemma insert_bag (l : list T) i x y : l !! i = Some x → x :: <[i := y]> l ≡ₚ y :: l.
Proof.
  intros Hx. rewrite <- (take_drop_middle l i x Hx) at 2. rewrite insert_take_drop by (by eapply lookup_lt_Some).
  rewrite <- !Permutation_middle. apply Permutation_swap.
Qed.
End elements.
