(* ===== verification/DataIO.v ===== *)
(** Byte streams: [DataOutput] and [DataInput] of src/core/store/io, the
    in-memory streams that implement them, and the zig-zag encoding of
    src/core/util/bit_util.rs.

    A byte is a [Z] in [0, 256).  A stream is a state threaded through the
    calls; the trait objects are the type classes [Write] and [DataInput], and
    what a caller may rely on are the classes [LawfulOutput] and
    [LawfulInput]. *)

From stdpp Require Import gmap sorting.
From S2P Require Import Prelude.

(** * Zig-zag encoding *)

Module ZigZag.

(** [ZigZagEncoding::encode] at width [w]: [(x >> (w - 1)) ^ (x << 1)]. *)
Definition encode (w x : Z) : Z := Z.lxor (shr_i x (w - 1)) (shl_i w x 1).

(** [ZigZagEncoding::decode]: [(x as u >> 1) as i ^ -(x & 1)]. *)
Definition decode (w x : Z) : Z := Z.lxor (as_i w (Z.shiftr (as_u w x) 1)) (- Z.land x 1).

End ZigZag.

(** * Output streams *)

Class Write (O : Type) : Type := write : O → list Z → result (Z * O).

Section data_output.
Context {O : Type} `{Write O}.

(** [std::io::Write::write_all]; every round writes at least one byte, so the
    length of the buffer bounds the rounds. *)
Fixpoint write_all_fuel (fuel : nat) (o : O) (buf : list Z) : result O :=
  match buf with
  | [] => Ok o
  | _ =>
    match fuel with
    | 0%nat => Diverge
    | S f =>
      '(n, o') ← write o buf;
      if n =? 0 then Err IoError else write_all_fuel f o' (drop (Z.to_nat n) buf)
    end
  end.
Definition write_all (o : O) (buf : list Z) : result O := write_all_fuel (length buf) o buf.

Definition write_byte (o : O) (b : Z) : result O := write_all o [b].

Definition write_bytes (o : O) (b : list Z) (offset len : Z) : result O :=
  s ← vslice b offset (offset + len); write_all o s.

(** [mem::transmute] of [i.to_be()]: the bytes of [i], most significant first. *)
Definition be_bytes (n : nat) (i : Z) : list Z := be_digits 8 n i.

Definition write_short (o : O) (i : Z) : result O := write_all o (be_bytes 2 i).
Definition write_int (o : O) (i : Z) : result O := write_all o (be_bytes 4 i).
Definition write_long (o : O) (i : Z) : result O := write_all o (be_bytes 8 i).

(** The loop shared by [write_vint] and [_write_signed_vlong], on a [u32] or
    [u64] value; [fuel] bounds the groups of seven bits. *)
Fixpoint write_vloop (fuel : nat) (o : O) (i : Z) : result O :=
  if Z.ldiff i 127 =? 0 then write_byte o (as_u8 i)
  else match fuel with
       | 0%nat => Diverge
       | S f =>
         o' ← write_byte o (as_u8 (Z.lor (Z.land i 127) 128));
         write_vloop f o' (Z.shiftr i 7)
       end.

Definition write_vint (o : O) (i : Z) : result O := write_vloop 4 o (as_u32 i).
Definition write_zint (o : O) (i : Z) : result O := write_vint o (ZigZag.encode 32 i).
Definition write_signed_vlong (o : O) (i : Z) : result O := write_vloop 9 o (as_u64 i).
Definition write_vlong (o : O) (i : Z) : result O :=
  if i <? 0 then bail IllegalArgument else write_signed_vlong o i.
Definition write_zlong (o : O) (i : Z) : result O := write_signed_vlong o (ZigZag.encode 64 i).

(** A [String] is the list of its UTF-8 bytes. *)
Definition write_string (o : O) (s : list Z) : result O :=
  o' ← write_vint o (as_i32 (vlen s)); write_all o' s.

End data_output.

(** The order of [String]: lexicographic on the bytes. *)
Fixpoint str_leb (s t : list Z) : bool :=
  match s, t with
  | [], _ => true
  | _ :: _, [] => false
  | a :: s', b :: t' => (a <? b) || ((a =? b) && str_leb s' t')
  end.
Definition str_le (s t : list Z) : Prop := str_leb s t = true.
#[global] Instance str_le_dec : RelDecision str_le.
Proof. intros s t. unfold str_le. apply _. Defined.

Section data_output_maps.
Context {O : Type} `{Write O}.

Definition sorted_keys (s : gset (list Z)) : list (list Z) := merge_sort str_le (elements s).

Definition write_map_of_strings (o : O) (m : gmap (list Z) (list Z)) : result O :=
  o ← write_vint o (as_i32 (Z.of_nat (size m)));
  for_each (sorted_keys (dom m)) (fun k o =>
    o ← write_string o k;
    match m !! k with
    | Some v => write_string o v
    | None => Panic
    end) o.

Definition write_set_of_strings (o : O) (s : gset (list Z)) : result O :=
  o ← write_vint o (as_i32 (Z.of_nat (size s)));
  for_each (sorted_keys s) (fun k o => write_string o k) o.

End data_output_maps.

(** * Input streams *)

(** [Read::read] returns the bytes it copied into the buffer of the given
    length; [read_byte], [read_bytes] and [skip_bytes] are the methods of
    [DataInput] that implementations override. *)
Class DataInput (I : Type) : Type := {
  read : I → Z → result (list Z * I);
  read_byte : I → result (Z * I);
  read_bytes : I → list Z → Z → Z → result (list Z * I);
  skip_bytes : I → Z → result I;
}.

Section data_input_defaults.
Context {I : Type} (rd : I → Z → result (list Z * I)).

Definition default_read_byte (i : I) : result (Z * I) :=
  '(bs, i') ← rd i 1;
  match bs with
  | [b] => Ok (b, i')
  | _ => bail UnexpectedEOF
  end.

(** The buffer is returned with the bytes stored at [offset]. *)
Definition default_read_bytes (i : I) (b : list Z) (offset len : Z) : result (list Z * I) :=
  let end_ := offset + len in
  if vlen b <? end_ then bail IllegalArgument
  else
    '(bs, i') ← rd i len;
    if negb (vlen bs =? len) then bail UnexpectedEOF
    else b' ← vblit b offset bs; Ok (b', i').

Definition SKIP_BUFFER_SIZE : Z := 1024.

(** Every round skips at least one byte. *)
Definition default_skip_bytes (rb : I → list Z → Z → Z → result (list Z * I)) (i : I) (count : Z)
    : result I :=
  '(_, i') ← while_fuel (Z.to_nat count)
    (fun '(skipped, _) => skipped <? count)
    (fun '(skipped, i) =>
       let step := Z.min SKIP_BUFFER_SIZE (count - skipped) in
       '(_, i') ← rb i (replicate (Z.to_nat SKIP_BUFFER_SIZE) 0) 0 step;
       Ok (skipped + step, i')) (0, i);
  Ok i'.
End data_input_defaults.

Section data_input.
Context {I : Type} `{DataInput I}.

(** [std::io::Read::read_exact]: keeps reading until the buffer is full; a read
    of no byte is the error [UnexpectedEof]. *)
Fixpoint read_exact_fuel (fuel : nat) (i : I) (n : Z) : result (list Z * I) :=
  if n <=? 0 then Ok ([], i)
  else match fuel with
       | 0%nat => Diverge
       | S f =>
         '(bs, i') ← read i n;
         match bs with
         | [] => bail IoError
         | _ => '(bs', i'') ← read_exact_fuel f i' (n - vlen bs); Ok (bs ++ bs', i'')
         end
       end.
Definition read_exact (i : I) (n : Z) : result (list Z * I) := read_exact_fuel (Z.to_nat n) i n.

Definition read_short (i : I) : result (Z * I) :=
  '(bs, i') ← read_exact i 2; Ok (as_i16 (be_value 8 bs), i').
Definition read_int (i : I) : result (Z * I) :=
  '(bs, i') ← read_exact i 4; Ok (as_i32 (be_value 8 bs), i').
Definition read_long (i : I) : result (Z * I) :=
  '(bs, i') ← read_exact i 8; Ok (as_i64 (be_value 8 bs), i').

(** The step the source unrolls: one byte, its seven low bits merged at
    [shift]; the flag tells that the byte had no continuation bit. *)
Fixpoint read_groups (w : Z) (shifts : list Z) (v : Z) (i : I) : result (Z * bool * I) :=
  match shifts with
  | [] => Ok (v, false, i)
  | s :: shifts' =>
    '(b, i') ← read_byte i;
    let b := as_i8 b in
    let v := Z.lor v (shl_i w (Z.land b 127) s) in
    if 0 <=? b then Ok (v, true, i') else read_groups w shifts' v i'
  end.

Definition read_vint (i : I) : result (Z * I) :=
  '(b, i) ← read_byte i;
  let b := as_i8 b in
  if 0 <=? b then Ok (b, i)
  else
    '(v, stop, i) ← read_groups 32 [7; 14; 21] (Z.land b 127) i;
    if (stop : bool) then Ok (v, i)
    else
      '(b, i) ← read_byte i;
      let b := as_i8 b in
      let v := Z.lor v (shl_i 32 (Z.land b 15) 28) in
      if negb (Z.land (as_u8 b) 240 =? 0) then bail IllegalState else Ok (v, i).

Definition read_zint (i : I) : result (Z * I) :=
  '(v, i) ← read_vint i; Ok (ZigZag.decode 32 v, i).

Definition read_vlong_ex (i : I) (negative_allowed : bool) : result (Z * I) :=
  '(b, i) ← read_byte i;
  let b := as_i8 b in
  if 0 <=? b then Ok (b, i)
  else
    '(v, stop, i) ← read_groups 64 [7; 14; 21; 28; 35; 42; 49; 56] (Z.land b 127) i;
    if (stop : bool) then Ok (v, i)
    else if negative_allowed then
      '(b, i) ← read_byte i;
      let b := as_i8 b in
      if (b =? 0) || (b =? 1)
      then Ok (Z.lor v (shl_i 64 (Z.land b 127) 63), i)
      else bail IllegalState
    else bail IllegalState.

Definition read_vlong (i : I) : result (Z * I) := read_vlong_ex i false.
Definition read_zlong (i : I) : result (Z * I) :=
  '(v, i) ← read_vlong_ex i true; Ok (ZigZag.decode 64 v, i).

End data_input.

(** [String::from_utf8]: well-formed UTF-8 as the standard library checks it. *)
Definition in_range (lo hi b : Z) : bool := (lo <=? b) && (b <=? hi).
Fixpoint utf8_valid (s : list Z) : bool :=
  match s with
  | [] => true
  | b :: t =>
    if in_range 0 0x7f b then utf8_valid t
    else if in_range 0xc2 0xdf b then
      match t with
      | c1 :: t1 => in_range 0x80 0xbf c1 && utf8_valid t1
      | _ => false
      end
    else if in_range 0xe0 0xef b then
      match t with
      | c1 :: c2 :: t2 =>
        in_range (if b =? 0xe0 then 0xa0 else 0x80) (if b =? 0xed then 0x9f else 0xbf) c1
        && in_range 0x80 0xbf c2 && utf8_valid t2
      | _ => false
      end
    else if in_range 0xf0 0xf4 b then
      match t with
      | c1 :: c2 :: c3 :: t3 =>
        in_range (if b =? 0xf0 then 0x90 else 0x80) (if b =? 0xf4 then 0x8f else 0xbf) c1
        && in_range 0x80 0xbf c2 && in_range 0x80 0xbf c3 && utf8_valid t3
      | _ => false
      end
    else false
  end.

Section data_input_strings.
Context {I : Type} `{DataInput I}.

Definition read_string (i : I) : result (list Z * I) :=
  '(len, i) ← read_vint i;
  if len <? 0 then bail IllegalState
  else
    '(buffer, i) ← read_exact i len;
    if utf8_valid buffer then Ok (buffer, i) else bail FromUtf8Err.

Definition read_map_of_strings (i : I) : result (gmap (list Z) (list Z) * I) :=
  '(count, i) ← read_vint i;
  if count <? 0 then bail IllegalState
  else for_range 0 count (fun _ '(m, i) =>
         '(k, i) ← read_string i;
         '(v, i) ← read_string i;
         Ok (<[k := v]> m, i)) (∅, i).

Definition read_set_of_strings (i : I) : result (gset (list Z) * I) :=
  '(count, i) ← read_vint i;
  if count <? 0 then bail IllegalState
  else for_range 0 count (fun _ '(s, i) =>
         '(k, i) ← read_string i; Ok ({[k]} ∪ s, i)) (∅, i).

(** [DataOutput::copy_bytes]. *)
Definition COPY_BUFFER_SIZE : Z := 16384.

Definition copy_bytes {O} `{Write O} (o : O) (from : I) (len : Z) : result (O * I) :=
  '(_, _, o, from) ← while_fuel (Z.to_nat len)
    (fun '(left_, _, _, _) => 0 <? left_)
    (fun '(left_, buf, o, from) =>
       let to_copy := if left_ >? COPY_BUFFER_SIZE then COPY_BUFFER_SIZE else left_ in
       '(buf, from) ← read_bytes from buf 0 to_copy;
       s ← vslice buf 0 to_copy;
       o ← write_all o s;
       Ok (left_ - to_copy, buf, o, from))
    (as_i64 len, replicate (Z.to_nat COPY_BUFFER_SIZE) 0, o, from);
  Ok (o, from).

End data_input_strings.

(** * What a stream promises *)

(** An output has a log of the bytes accepted so far; [accepts o n] says that
    [n] more bytes fit. *)
Class LawfulOutput (O : Type) `{Write O} : Type := {
  written : O → list Z;
  accepts : O → Z → Prop;
  write_law : ∀ o bs n, accepts o (vlen bs + n) → 0 ≤ n →
    ∃ o', write o bs = Ok (vlen bs, o') ∧ written o' = written o ++ bs ∧ accepts o' n;
}.

(** [remains i l]: the input [i] is well formed and [l] are the bytes still to
    be read. *)
Class LawfulInput (I : Type) `{DataInput I} : Type := {
  remains : I → list Z → Prop;
  read_law : ∀ i l n, remains i l → 0 ≤ n ≤ vlen l →
    ∃ i', read i n = Ok (take (Z.to_nat n) l, i') ∧ remains i' (drop (Z.to_nat n) l);
  read_byte_law : ∀ i b l, remains i (b :: l) →
    ∃ i', read_byte i = Ok (b, i') ∧ remains i' l;
  read_bytes_law : ∀ i l buf off n, remains i l → 0 ≤ off → 0 ≤ n ≤ vlen l → off + n ≤ vlen buf →
    ∃ i', read_bytes i buf off n =
            Ok (take (Z.to_nat off) buf ++ take (Z.to_nat n) l
                  ++ drop (Z.to_nat off + Z.to_nat n) buf, i')
          ∧ remains i' (drop (Z.to_nat n) l);
  skip_bytes_law : ∀ i l n, remains i l → 0 ≤ n ≤ vlen l →
    ∃ i', skip_bytes i n = Ok i' ∧ remains i' (drop (Z.to_nat n) l);
}.

(** [emits f bs]: [f] appends exactly [bs].  [parses f bs a]: on an input that
    starts with [bs], [f] consumes exactly [bs] and answers [a]. *)
Definition emits {O} `{LawfulOutput O} (f : O → result O) (bs : list Z) : Prop :=
  ∀ o n, accepts o (vlen bs + n) → 0 ≤ n →
  ∃ o', f o = Ok o' ∧ written o' = written o ++ bs ∧ accepts o' n.

Definition parses {I A} `{LawfulInput I} (f : I → result (A * I)) (bs : list Z) (a : A) : Prop :=
  ∀ i r, remains i (bs ++ r) → ∃ i', f i = Ok (a, i') ∧ remains i' r.

(** * The in-memory streams *)

(** [impl Write for Vec<u8>] *)
#[global] Instance vec_write : Write (list Z) := fun o bs => Ok (vlen bs, o ++ bs).

#[global, refine] Instance vec_lawful : LawfulOutput (list Z) := {|
  written o := o; accepts _ _ := True |}.
Proof. intros o bs n _ _. by exists (o ++ bs). Defined.

Module GrowableByteArrayDataOutput.

Record t : Type := mk { bytes : list Z; length : Z }.

Definition MIN_UTF8_SIZE_TO_ENABLE_DOUBLE_PASS_ENCODING : Z := 65536.

Definition new (cp : Z) : t :=
  mk (replicate (Z.to_nat (cp + MIN_UTF8_SIZE_TO_ENABLE_DOUBLE_PASS_ENCODING)) 0) 0.
Definition position (o : t) : Z := length o.
Definition reset (o : t) : t := mk (bytes o) 0.

Definition write_impl (o : t) (buf : list Z) : result (Z * t) :=
  let buf_len := vlen buf in
  let new_len := length o + buf_len in
  let bs := if vlen (bytes o) <? new_len
            then bytes o ++ replicate (Z.to_nat (new_len - vlen (bytes o))) 0
            else bytes o in
  bs ← vblit bs (length o) buf;
  Ok (buf_len, mk bs (length o + buf_len)).

#[global] Instance growable_write : Write t := write_impl.

(** The stream is well formed when [length] is inside the buffer; only the
    bytes below [length] are output. *)
Definition wf (o : t) : Prop := 0 ≤ length o ≤ vlen (bytes o).

End GrowableByteArrayDataOutput.

(** [ByteArrayDataOutput]: writes between [pos] and [limit] of a fixed slice. *)
Module ByteArrayDataOutput.

Record t : Type := mk { bytes : list Z; pos : Z; limit : Z }.

Definition new (bytes : list Z) (offset len : Z) : t := mk bytes offset (offset + len).

Definition write_impl (o : t) (buf : list Z) : result (Z * t) :=
  let len := Z.min (limit o - pos o) (vlen buf) in
  s ← vslice buf 0 len;
  bs ← vblit (bytes o) (pos o) s;
  Ok (len, mk bs (pos o + len) (limit o)).

#[global] Instance byte_array_write : Write t := write_impl.

Definition wf (o : t) : Prop := 0 ≤ pos o ≤ limit o ∧ limit o ≤ vlen (bytes o).

End ByteArrayDataOutput.

(** [impl DataInput for &[u8]]: the slice is the rest of the input. *)
Module SliceInput.

Definition read_impl (s : list Z) (n : Z) : result (list Z * list Z) :=
  Ok (take (Z.to_nat n) s, drop (Z.to_nat n) s).
Definition read_byte_impl (s : list Z) : result (Z * list Z) :=
  match s with
  | [] => bail IoError
  | b :: s' => Ok (b, s')
  end.
Definition skip_bytes_impl (s : list Z) (count : Z) : result (list Z) :=
  if vlen s <? count then bail IoError else Ok (drop (Z.to_nat count) s).

#[global] Instance slice_input : DataInput (list Z) := {|
  read := read_impl;
  read_byte := read_byte_impl;
  read_bytes := default_read_bytes read_impl;
  skip_bytes := skip_bytes_impl |}.

End SliceInput.

(** [ByteArrayDataInput]: a byte array and a position. *)
Module ByteArrayDataInput.

Record t : Type := mk { bytes : list Z; pos : Z }.

Definition new (bytes : list Z) : t := mk bytes 0.
Definition rewind (i : t) : t := mk (bytes i) 0.
Definition position (i : t) : Z := pos i.
Definition set_position (i : t) (p : Z) : t := mk (bytes i) p.
Definition length (i : t) : Z := vlen (bytes i).
Definition eof (i : t) : bool := pos i =? length i.
Definition reset (i : t) (bs : list Z) : t := mk bs 0.

(** [bail!] of a plain message is an error of kind [Msg]; it is the only one
    raised here and is recorded as [RuntimeError]. *)
Definition get_slice (i : t) (p len : Z) : result (list Z) :=
  let limit := length i in
  if (p <? pos i) || (limit <? p) || (limit <? p + len) then bail RuntimeError
  else vslice (bytes i) p (p + len).

Definition read_byte_impl (i : t) : result (Z * t) :=
  b ← vget (bytes i) (pos i); Ok (b, mk (bytes i) (pos i + 1)).
Definition read_bytes_impl (i : t) (b : list Z) (offset len : Z) : result (list Z * t) :=
  s ← vslice (bytes i) (pos i) (pos i + len);
  b' ← vblit b offset s;
  Ok (b', mk (bytes i) (pos i + len)).
Definition skip_bytes_impl (i : t) (count : Z) : result t := Ok (mk (bytes i) (pos i + count)).
Definition read_impl (i : t) (n : Z) : result (list Z * t) :=
  if length i <? pos i then Panic else
  let size := Z.min n (length i - pos i) in
  s ← vslice (bytes i) (pos i) (pos i + size);
  Ok (s, mk (bytes i) (pos i + size)).

#[global] Instance byte_array_input : DataInput t := {|
  read := read_impl;
  read_byte := read_byte_impl;
  read_bytes := read_bytes_impl;
  skip_bytes := skip_bytes_impl |}.

End ByteArrayDataInput.
