(* ===== verification/DataIOFacts.v ===== *)
(** Correctness of the byte streams: the in-memory streams keep the promises of
    [LawfulOutput] and [LawfulInput], and on any pair of lawful streams every
    reader of [DataInput] inverts the writer of [DataOutput]. *)

From stdpp Require Import gmap sorting.
From S2P Require Import Prelude DataIO.

(** * The streams are lawful *)

Section growable.
Import GrowableByteArrayDataOutput.

#[global, refine] Instance growable_lawful : LawfulOutput t := {|
  written o := take (Z.to_nat (length o)) (bytes o); accepts o _ := wf o |}.
Proof.
  intros o bs n Hwf Hn. destruct o as [b len]. unfold wf in *. simpl in *.
  pose proof (vlen_nonneg bs). unfold write, growable_write, write_impl. simpl.
  set (b' := if vlen b <? len + vlen bs then _ else b).
  assert (Hb' : len + vlen bs ≤ vlen b' ∧ take (Z.to_nat len) b' = take (Z.to_nat len) b).
  { unfold b'. destruct (Z.ltb_spec (vlen b) (len + vlen bs)); [|done].
    rewrite vlen_app, vlen_replicate by lia. split; [lia|].
    apply take_app_le. unfold vlen in *. lia. }
  destruct Hb' as [Hlen Htake]. rewrite vblit_in by lia. simpl.
  eexists. split; [done|]. simpl. split.
  - rewrite Htake, app_assoc.
    apply take_app_length'. rewrite length_app, length_take. unfold vlen in *. lia.
  - rewrite vlen_app, vlen_app, vlen_take by lia. pose proof (vlen_nonneg (drop (Z.to_nat len + Datatypes.length bs) b')). lia.
Defined.
End growable.

Section byte_array_output.
Import ByteArrayDataOutput.

#[global, refine] Instance byte_array_output_lawful : LawfulOutput t := {|
  written o := take (Z.to_nat (pos o)) (bytes o); accepts o n := wf o ∧ n ≤ limit o - pos o |}.
Proof.
  intros o bs n [Hwf Hacc] Hn. destruct o as [b p lim]. unfold wf in *. simpl in *.
  pose proof (vlen_nonneg bs). unfold write, byte_array_write, write_impl. simpl.
  rewrite Z.min_r by lia. rewrite vslice_full. simpl.
  rewrite vblit_in by lia. simpl. eexists. split; [done|]. simpl. split; [|split].
  - rewrite app_assoc. apply take_app_length'. rewrite length_app, length_take. unfold vlen in *. lia.
  - rewrite !vlen_app, vlen_take by lia. unfold vlen in *. rewrite length_drop. lia.
  - lia.
Defined.
End byte_array_output.

Section slice_input.
Import SliceInput.

#[global, refine] Instance slice_lawful : LawfulInput (list Z) := {| remains i l := i = l |}.
Proof.
  - intros i l n -> Hn. by eexists.
  - intros i b l ->. by eexists.
  - intros i l buf off n -> Hoff Hn Hbuf. simpl. unfold default_read_bytes, read_impl.
    rewrite (proj2 (Z.ltb_ge _ _)) by lia. simpl. rewrite vlen_take, Z.eqb_refl by done. simpl.
    rewrite vblit_in by (rewrite ?vlen_take by done; lia). simpl. eexists. split; [|done].
    do 4 f_equal. rewrite length_take. unfold vlen in *. f_equal. lia.
  - intros i l n -> Hn. simpl. unfold skip_bytes_impl. rewrite (proj2 (Z.ltb_ge _ _)) by lia.
    by eexists.
Defined.
End slice_input.

Section byte_array_input.
Import ByteArrayDataInput.

#[global, refine] Instance byte_array_lawful : LawfulInput t := {|
  remains i l := 0 ≤ pos i ≤ vlen (bytes i) ∧ l = drop (Z.to_nat (pos i)) (bytes i) |}.
Proof.
  - intros [bs p] l n [Hp ->] Hn. simpl in *. unfold read_impl, length. simpl.
    rewrite vlen_drop in Hn by lia. rewrite (proj2 (Z.ltb_ge _ _)) by lia.
    rewrite Z.min_l by lia. rewrite vslice_in by lia. simpl.
    replace (p + n - p) with n by lia. eexists. split; [done|]. simpl. split; [lia|].
    rewrite drop_drop. f_equal. lia.
  - intros [bs p] b l [Hp Hl]. simpl in *. unfold read_byte_impl. simpl.
    assert (bs !! Z.to_nat p = Some b) as Hb.
    { rewrite <- (Nat.add_0_r (Z.to_nat p)), <- lookup_drop, <- Hl. done. }
    assert (vget bs p = Ok b) as -> by (apply vget_Ok; split; [lia|done]).
    apply lookup_lt_Some in Hb. simpl. eexists. split; [done|]. simpl. unfold vlen in *.
    split; [lia|]. replace (Z.to_nat (p + 1)) with (Z.to_nat p + 1)%nat by lia.
    by rewrite <- drop_drop, <- Hl.
  - intros [bs p] l buf off n [Hp ->] Hoff Hn Hbuf. simpl in *. unfold read_bytes_impl. simpl.
    rewrite vlen_drop in Hn by lia. rewrite vslice_in by lia. simpl.
    replace (p + n - p) with n by lia.
    assert (vlen (take (Z.to_nat n) (drop (Z.to_nat p) bs)) = n) as Hlen.
    { apply vlen_take. rewrite vlen_drop by lia. lia. }
    rewrite vblit_in by lia. rewrite <- to_nat_vlen, Hlen. simpl. eexists. split; [done|].
    simpl. split; [lia|]. rewrite drop_drop. f_equal. lia.
  - intros [bs p] l n [Hp ->] Hn. simpl in *. rewrite vlen_drop in Hn by lia.
    eexists. split; [done|]. simpl. split; [lia|]. rewrite drop_drop. f_equal. lia.
Defined.
End byte_array_input.

(** * Composing writers and readers *)

Section combinators.
Context {Out In : Type} `{HO : LawfulOutput Out} `{HI : LawfulInput In}.

Lemma emits_write_all bs : emits (fun o => write_all o bs) bs.
Proof.
  intros o n Hacc Hn. destruct bs as [|b bs].
  - exists o. rewrite app_nil_r. rewrite vlen_nil, Z.add_0_l in Hacc. done.
  - destruct (write_law o (b :: bs) n Hacc Hn) as (o' & Hw & Hlog & Hacc').
    exists o'. unfold write_all. simpl. rewrite Hw. simpl.
    rewrite to_nat_vlen, drop_all. by destruct (length bs).
Qed.

Lemma emits_bind f g bs1 bs2 :
  emits f bs1 → emits g bs2 → emits (fun o => f o ≫= g) (bs1 ++ bs2).
Proof.
  intros Hf Hg o n Hacc Hn. rewrite vlen_app, <- Z.add_assoc in Hacc.
  destruct (Hf o (vlen bs2 + n) Hacc) as (o1 & -> & Hl1 & Ha1);
    [pose proof (vlen_nonneg bs2); lia|].
  destruct (Hg o1 n Ha1 Hn) as (o2 & Hg2 & Hl2 & Ha2). exists o2. simpl.
  by rewrite Hg2, Hl2, Hl1, app_assoc.
Qed.

Lemma emits_for_each {A} (l : list A) (f : A → Out → result Out) (enc : A → list Z) :
  (∀ x, x ∈ l → emits (f x) (enc x)) → emits (for_each l f) (concat (map enc l)).
Proof.
  induction l as [|x l IH]; intros Hf.
  - intros o n Hacc Hn. exists o. simpl in *. by rewrite app_nil_r, <- (Z.add_0_l n).
  - simpl. apply (emits_bind (f x)); [apply Hf; left|]. apply IH. intros y Hy. apply Hf. by right.
Qed.

Lemma parses_bind {A B} (f : In → result (A * In)) (g : A → In → result (B * In)) bs1 bs2 a b :
  parses f bs1 a → parses (g a) bs2 b →
  parses (fun i => '(x, i') ← f i; g x i') (bs1 ++ bs2) b.
Proof.
  intros Hf Hg i r Hr. rewrite <- app_assoc in Hr.
  destruct (Hf i _ Hr) as (i1 & -> & Hr1). simpl. by apply Hg.
Qed.

Lemma parses_ret {A B} (f : In → result (A * In)) (g : A → B) bs a :
  parses f bs a → parses (fun i => '(x, i') ← f i; Ok (g x, i')) bs (g a).
Proof. intros Hf i r Hr. destruct (Hf i r Hr) as (i' & -> & Hr'). by exists i'. Qed.

Lemma parses_byte b : parses read_byte [b] b.
Proof. intros i r Hr. by apply read_byte_law. Qed.

Lemma parses_read_exact bs : parses (fun i => read_exact i (vlen bs)) bs bs.
Proof.
  intros i r Hr. unfold read_exact. rewrite to_nat_vlen. destruct bs as [|b bs].
  { by exists i. }
  pose proof (vlen_nonneg bs). pose proof (vlen_nonneg r).
  destruct (read_law i _ (vlen (b :: bs)) Hr) as (i' & Hrd & Hr').
  { rewrite vlen_app, !vlen_cons. lia. }
  rewrite to_nat_vlen, take_app_length in Hrd. rewrite to_nat_vlen, drop_app_length in Hr'.
  exists i'. split; [|done]. simpl.
  rewrite Hrd. simpl. rewrite Z.sub_diag. destruct (length bs); simpl; by rewrite app_nil_r.
Qed.

End combinators.

(** An output without a limit. *)
Definition roomy {Out} `{LawfulOutput Out} (o : Out) : Prop := ∀ n, 0 ≤ n → accepts o n.

Lemma roomy_emits {Out} `{LawfulOutput Out} (f : Out → result Out) bs o : emits f bs → roomy o →
  ∃ o', f o = Ok o' ∧ written o' = written o ++ bs ∧ roomy o'.
Proof.
  intros Hf Ho. pose proof (vlen_nonneg bs). destruct (Hf o 0 (Ho (vlen bs + 0) ltac:(lia)) ltac:(lia)) as (o' & E & Hlog & _).
  exists o'. split; [done|]. split; [done|]. intros n Hn. destruct (Hf o n (Ho (vlen bs + n) ltac:(lia)) Hn) as (o'' & E' & _ & Hacc).
  rewrite E in E'. by injection E' as ->.
Qed.

(** * Variable-length integers *)

(** The groups of seven bits of [u], the least significant first. *)
Fixpoint vbytes (fuel : nat) (u : Z) : list Z :=
  if u <? 128 then [u]
  else match fuel with
       | 0%nat => [u mod 128]
       | S f => (u mod 128 + 128) :: vbytes f (u / 128)
       end.

Lemma ldiff_127 u : 0 ≤ u → (Z.ldiff u 127 =? 0) = (u <? 128).
Proof.
  intros. change 127 with (Z.ones 7). rewrite Z.ldiff_ones_r by lia.
  rewrite Z.shiftl_mul_pow2, Z.shiftr_div_pow2 by lia. change (2 ^ 7) with 128.
  destruct (Z.ltb_spec u 128).
  - by rewrite Z.div_small.
  - apply Z.eqb_neq. pose proof (Z.div_le_mono 128 u 128 ltac:(lia) ltac:(lia)).
    change (128 / 128) with 1 in *. lia.
Qed.

Lemma cont_byte u : as_u8 (Z.lor (Z.land u 127) 128) = u mod 128 + 128.
Proof.
  change 127 with (Z.ones 7). rewrite Z.land_ones by lia. change (2 ^ 7) with 128.
  pose proof (Z.mod_pos_bound u 128 ltac:(lia)).
  rewrite Z.lor_comm.
  pose proof (lor_add_disjoint 1 (u mod 128) 7 ltac:(lia) ltac:(unfold is_u; lia)) as Hl.
  change (Z.shiftl 1 7) with 128 in Hl. rewrite Hl.
  rewrite as_u_id by (unfold is_u; lia). lia.
Qed.

(** A byte with the continuation bit is negative as [i8], and its payload is
    the seven low bits. *)
Lemma as_i8_cont x : 0 ≤ x < 128 → as_i8 (x + 128) = x - 128.
Proof. intros. unfold as_i. change (2 ^ (8 - 1)) with 128. change (2 ^ 8) with 256.
  replace (x + 128 + 128) with (x + 1 * 256) by lia. rewrite Z_mod_plus_full, Z.mod_small; lia. Qed.

Lemma as_i8_small x : 0 ≤ x < 128 → as_i8 x = x.
Proof. intros. apply as_i_id; [lia|]. unfold is_i. lia. Qed.

Lemma land_127 x : Z.land x 127 = x mod 128.
Proof. change 127 with (Z.ones 7). by rewrite Z.land_ones. Qed.

Lemma payload_cont x : 0 ≤ x < 128 → Z.land (x - 128) 127 = x.
Proof.
  intros. rewrite land_127. replace (x - 128) with (x + (-1) * 128) by lia.
  rewrite Z_mod_plus_full. apply Z.mod_small. lia.
Qed.

(** Merging a group at an untouched position adds it. *)
Lemma merge_group w v x s : 0 ≤ s → s + 7 < w → is_u s v → 0 ≤ x < 128 →
  Z.lor v (shl_i w x s) = v + x * 2 ^ s.
Proof.
  intros Hs Hw Hv Hx. unfold shl_i.
  assert (Hb : 0 ≤ x * 2 ^ s < 2 ^ (w - 1)).
  { pose proof (Z.pow_le_mono_r 2 (s + 7) (w - 1) ltac:(lia) ltac:(lia)) as Hm.
    rewrite Z.pow_add_r in Hm by lia. change (2 ^ 7) with 128 in Hm. nia. }
  rewrite as_i_id by (unfold is_i; rewrite ?Z.shiftl_mul_pow2 by lia; lia).
  rewrite Z.lor_comm, lor_add_disjoint by done. lia.
Qed.

Lemma vbytes_length f u : (1 ≤ length (vbytes f u) ≤ S f)%nat.
Proof.
  revert u. induction f as [|f IH]; intros u; simpl; case_match; simpl; try lia.
  specialize (IH (u / 128)). lia.
Qed.

Section vint.
Context {Out In : Type} `{HO : LawfulOutput Out} `{HI : LawfulInput In}.

Lemma emits_vloop f u :
  0 ≤ u < 2 ^ (7 * Z.of_nat (S f)) → emits (fun o => write_vloop f o u) (vbytes f u).
Proof.
  revert u. induction f as [|f IH]; intros u Hu; simpl; rewrite ldiff_127 by lia.
  - change (2 ^ (7 * Z.of_nat 1)) with 128 in Hu. rewrite (proj2 (Z.ltb_lt _ _)) by lia.
    rewrite as_u_id by (unfold is_u; lia). apply emits_write_all.
  - destruct (Z.ltb_spec u 128).
    + rewrite as_u_id by (unfold is_u; lia). apply emits_write_all.
    + rewrite cont_byte, Z.shiftr_div_pow2 by lia. change (2 ^ 7) with 128.
      apply (emits_bind (fun o => write_byte o _) (fun o => write_vloop f o _) [_]);
        [apply emits_write_all|]. apply IH.
      split; [apply Z.div_pos; lia|]. apply Z.div_lt_upper_bound; [lia|].
      change 128 with (2 ^ 7). rewrite <- Z.pow_add_r by lia.
      replace (7 + 7 * Z.of_nat (S f)) with (7 * Z.of_nat (S (S f))) by lia. lia.
Qed.

(** [shifts_from s k] are the [k] consecutive shifts the source unrolls. *)
Fixpoint shifts_from (s : Z) (k : nat) : list Z :=
  match k with 0%nat => [] | S k' => s :: shifts_from (s + 7) k' end.

(** Reading the next byte of a numeral with at least two groups left. *)
Lemma read_cont_byte f u i r : 128 ≤ u → remains i (vbytes (S f) u ++ r) →
  ∃ i', read_byte i = Ok (u mod 128 + 128, i') ∧ remains i' (vbytes f (u / 128) ++ r).
Proof.
  intros Hu Hr. simpl in Hr. rewrite (proj2 (Z.ltb_ge _ _)) in Hr by lia.
  by apply read_byte_law in Hr.
Qed.

Lemma read_last_byte f u i r : u < 128 → remains i (vbytes f u ++ r) →
  ∃ i', read_byte i = Ok (u, i') ∧ remains i' r.
Proof.
  intros Hu Hr. destruct f; simpl in Hr; rewrite (proj2 (Z.ltb_lt _ _)) in Hr by lia;
    by apply read_byte_law in Hr.
Qed.

(** The numeral ends within the [k] unrolled steps. *)
Lemma read_groups_stop w k : ∀ f s v u i r,
  0 ≤ s → s + 7 * Z.of_nat k < w → is_u s v → 0 ≤ u < 2 ^ (7 * Z.of_nat k) →
  (k ≤ S f)%nat → (k ≠ 0)%nat → remains i (vbytes f u ++ r) →
  ∃ i', read_groups w (shifts_from s k) v i = Ok (v + u * 2 ^ s, true, i') ∧ remains i' r.
Proof.
  induction k as [|k IH]; intros f s v u i r Hs Hw Hv Hu Hkf Hk Hr; [done|].
  cbn [shifts_from read_groups]. destruct (decide (u < 128)) as [Hlt|Hge].
  - destruct (read_last_byte _ _ _ _ Hlt Hr) as (i' & -> & Hr'). simpl.
    rewrite as_i8_small by lia. rewrite (proj2 (Z.leb_le _ _)) by lia.
    rewrite land_127, Z.mod_small by lia. rewrite merge_group by (done || lia). by exists i'.
  - pose proof (Z.mod_pos_bound u 128 ltac:(lia)) as Hm.
    replace (7 * Z.of_nat (S k)) with (7 + 7 * Z.of_nat k) in Hu by lia.
    rewrite Z.pow_add_r in Hu by lia. change (2 ^ 7) with 128 in Hu.
    assert (k ≠ 0)%nat by (intros ->; change (2 ^ (7 * Z.of_nat 0)) with 1 in Hu; lia).
    destruct f as [|f]; [lia|].
    destruct (read_cont_byte f u i r ltac:(lia) Hr) as (i1 & -> & Hr1). simpl.
    rewrite as_i8_cont by lia. rewrite (proj2 (Z.leb_gt _ _)) by lia.
    rewrite payload_cont by lia. rewrite merge_group by (done || lia).
    pose proof (pow2_pos s Hs). unfold is_u in Hv.
    destruct (IH f (s + 7) (v + u mod 128 * 2 ^ s) (u / 128) i1 r) as (i' & -> & Hr');
      [lia|lia| | |lia|done|done|].
    { unfold is_u. rewrite Z.pow_add_r by lia. change (2 ^ 7) with 128. nia. }
    { split; [apply Z.div_pos; lia|]. apply Z.div_lt_upper_bound; lia. }
    exists i'. split; [|done]. do 3 f_equal. rewrite Z.pow_add_r by lia. change (2 ^ 7) with 128.
    pose proof (Z.div_mod u 128 ltac:(lia)). nia.
Qed.

(** The numeral goes on after the [k] unrolled steps. *)
Lemma read_groups_go w k : ∀ f s v u i r,
  0 ≤ s → s + 7 * Z.of_nat k < w → is_u s v → 2 ^ (7 * Z.of_nat k) ≤ u →
  (k ≤ f)%nat → remains i (vbytes f u ++ r) →
  ∃ i', read_groups w (shifts_from s k) v i
          = Ok (v + (u mod 2 ^ (7 * Z.of_nat k)) * 2 ^ s, false, i')
        ∧ is_u (s + 7 * Z.of_nat k) (v + (u mod 2 ^ (7 * Z.of_nat k)) * 2 ^ s)
        ∧ remains i' (vbytes (f - k) (u / 2 ^ (7 * Z.of_nat k)) ++ r).
Proof.
  induction k as [|k IH]; intros f s v u i r Hs Hw Hv Hu Hkf Hr.
  { exists i. change (2 ^ (7 * Z.of_nat 0)) with 1. rewrite Z.mod_1_r, Z.div_1_r, Nat.sub_0_r.
    rewrite Z.mul_0_r, !Z.add_0_r. done. }
  cbn [shifts_from read_groups].
  pose proof (Z.mod_pos_bound u 128 ltac:(lia)) as Hm.
  replace (7 * Z.of_nat (S k)) with (7 + 7 * Z.of_nat k) in * by lia.
  pose proof (pow2_pos (7 * Z.of_nat k) ltac:(lia)).
  rewrite Z.pow_add_r in * by lia. change (2 ^ 7) with 128 in *.
  assert (Hdiv : 2 ^ (7 * Z.of_nat k) ≤ u / 128) by (apply Z.div_le_lower_bound; lia).
  destruct f as [|f]; [lia|].
  destruct (read_cont_byte f u i r ltac:(lia) Hr) as (i1 & -> & Hr1). simpl.
  rewrite as_i8_cont by lia. rewrite (proj2 (Z.leb_gt _ _)) by lia.
  rewrite payload_cont by lia. rewrite merge_group by (done || lia).
  pose proof (pow2_pos s Hs). unfold is_u in Hv.
  destruct (IH f (s + 7) (v + u mod 128 * 2 ^ s) (u / 128) i1 r) as (i' & -> & Hv' & Hr');
    [lia|lia| |done|lia|done|].
  { unfold is_u. rewrite Z.pow_add_r by lia. change (2 ^ 7) with 128. nia. }
  rewrite Z.rem_mul_r by lia. rewrite Z.div_div in Hr' by lia.
  replace (v + (u mod 128 + 128 * ((u / 128) mod 2 ^ (7 * Z.of_nat k))) * 2 ^ s)
    with (v + u mod 128 * 2 ^ s + (u / 128) mod 2 ^ (7 * Z.of_nat k) * 2 ^ (s + 7)).
  2:{ rewrite Z.pow_add_r by lia. change (2 ^ 7) with 128. lia. }
  exists i'. split; [done|]. split; [|done].
  by replace (s + (7 + 7 * Z.of_nat k)) with (s + 7 + 7 * Z.of_nat k) by lia.
Qed.

#[local] Arguments read_groups : simpl never.

(** The first byte, shared by [read_vint] and [read_vlong_ex]. *)
Lemma read_first f u i r : 0 ≤ u → remains i (vbytes (S f) u ++ r) →
  ∃ i', read_byte i = Ok (if decide (u < 128) then u else u mod 128 + 128, i') ∧
        remains i' (if decide (u < 128) then r else vbytes f (u / 128) ++ r).
Proof.
  intros Hu Hr. case_decide.
  - by apply (read_last_byte (S f)).
  - apply read_cont_byte; [lia|done].
Qed.

Lemma parses_vint u : is_u 32 u → parses read_vint (vbytes 4 u) (as_i32 u).
Proof.
  intros Hu i r Hr. unfold is_u in Hu.
  destruct (read_first 3 u i r ltac:(lia) Hr) as (i1 & Hb & Hr1).
  unfold read_vint. rewrite Hb. simpl. case_decide as Hsmall.
  { rewrite as_i8_small by lia. rewrite (proj2 (Z.leb_le _ _)) by lia.
    exists i1. split; [|done]. rewrite as_i_id; [done|lia|unfold is_i; lia]. }
  pose proof (Z.mod_pos_bound u 128 ltac:(lia)) as Hm.
  pose proof (Z.div_mod u 128 ltac:(lia)) as Hd.
  rewrite as_i8_cont by lia. rewrite (proj2 (Z.leb_gt _ _)) by lia. rewrite payload_cont by lia.
  assert (H7 : is_u 7 (u mod 128)) by (unfold is_u; lia).
  change [7; 14; 21] with (shifts_from 7 3).
  assert (Hq : 0 ≤ u / 128) by (apply Z.div_pos; lia).
  destruct (decide (u / 128 < 2 ^ (7 * Z.of_nat 3))) as [Hlt|Hge].
  - destruct (read_groups_stop 32 3 3 7 (u mod 128) (u / 128) i1 r) as (i2 & -> & Hr2);
      [lia|lia|done|lia|lia|done|done|].
    exists i2. split; [|done]. simpl. do 2 f_equal. rewrite as_i_id; [lia|lia|].
    change (2 ^ (7 * Z.of_nat 3)) with 2097152 in Hlt. unfold is_i. lia.
  - destruct (read_groups_go 32 3 3 7 (u mod 128) (u / 128) i1 r) as (i2 & -> & Hv2 & Hr2);
      [lia|lia|done|lia|lia|done|].
    rewrite Nat.sub_diag in Hr2. change (7 * Z.of_nat 3) with 21 in *.
    rewrite Z.div_div in Hr2 by lia. change (128 * 2 ^ 21) with (2 ^ 28) in Hr2.
    assert (Hhi : 0 ≤ u / 2 ^ 28 < 16).
    { split; [apply Z.div_pos; lia|]. apply Z.div_lt_upper_bound; lia. }
    destruct (read_last_byte 0 (u / 2 ^ 28) i2 r ltac:(lia) Hr2) as (i3 & Hb3 & Hr3).
    exists i3. simpl. rewrite Hb3. simpl. rewrite as_i8_small by lia.
    rewrite (as_u_id 8) by (unfold is_u; lia).
    assert (Hland : Z.land (u / 2 ^ 28) 240 = 0).
    { change 240 with (Z.shiftl 15 4). apply Z.bits_inj'. intros j Hj. autorewrite with bits.
      destruct (decide (j < 4)); [by rewrite (tb_neg 15), andb_false_r by lia|].
      by rewrite (tb_high (u / 2 ^ 28) 4) by (unfold is_u; lia). }
    rewrite Hland. simpl. split; [|done]. do 2 f_equal.
    change 15 with (Z.ones 4). rewrite Z.land_ones, (Z.mod_small (u / 2 ^ 28)) by lia.
    assert (Hval : u mod 128 + (u / 128) mod 2 ^ 21 * 2 ^ 7 = u mod 2 ^ 28).
    { change (2 ^ 28) with (2 ^ 7 * 2 ^ 21). rewrite Z.rem_mul_r by lia. change (2 ^ 7) with 128. lia. }
    assert (Hlo : is_u 28 (u mod 2 ^ 28)) by (unfold is_u; apply Z.mod_pos_bound; lia).
    rewrite Hval. unfold shl_i. rewrite lor_as_i by (unfold is_u in *; lia).
    rewrite Z.lor_comm, lor_add_disjoint by (done || lia).
    pose proof (Z.div_mod u (2 ^ 28) ltac:(lia)). f_equal. lia.
Qed.

(** The nine groups [read_vlong_ex] reads before it looks at the sign. *)
Lemma read_vlong_groups u i r : is_u 64 u → 128 ≤ u → remains i (vbytes 9 u ++ r) →
  ∃ i1 i2, read_byte i = Ok (u mod 128 + 128, i1) ∧
    read_groups 64 [7; 14; 21; 28; 35; 42; 49; 56] (u mod 128) i1
      = Ok (u mod 2 ^ 63, bool_decide (u < 2 ^ 63), i2) ∧
    remains i2 (if decide (u < 2 ^ 63) then r else 1 :: r).
Proof.
  intros Hu Hge Hr. unfold is_u in Hu.
  destruct (read_cont_byte 8 u i r ltac:(lia) Hr) as (i1 & Hb & Hr1).
  pose proof (Z.mod_pos_bound u 128 ltac:(lia)) as Hm.
  pose proof (Z.div_mod u 128 ltac:(lia)) as Hd.
  assert (H7 : is_u 7 (u mod 128)) by (unfold is_u; lia).
  assert (Hq : 0 ≤ u / 128) by (apply Z.div_pos; lia).
  change [7; 14; 21; 28; 35; 42; 49; 56] with (shifts_from 7 8).
  destruct (decide (u < 2 ^ 63)) as [Hlt|Hnlt].
  - destruct (read_groups_stop 64 8 8 7 (u mod 128) (u / 128) i1 r) as (i2 & Hg & Hr2);
      [lia|lia|done| |lia|done|done|].
    { split; [lia|]. apply Z.div_lt_upper_bound; [lia|]. change (128 * 2 ^ (7 * Z.of_nat 8)) with (2 ^ 63). lia. }
    exists i1, i2. split; [done|]. rewrite bool_decide_true, (Z.mod_small u (2 ^ 63)) by lia.
    split; [|done]. rewrite Hg. do 3 f_equal. lia.
  - destruct (read_groups_go 64 8 8 7 (u mod 128) (u / 128) i1 r) as (i2 & Hg & _ & Hr2);
      [lia|lia|done| |lia|done|].
    { apply Z.div_le_lower_bound; [lia|]. change (128 * 2 ^ (7 * Z.of_nat 8)) with (2 ^ 63). lia. }
    change (7 * Z.of_nat 8) with 56 in *. rewrite Z.div_div in Hr2 by lia.
    change (128 * 2 ^ 56) with (2 ^ 63) in Hr2. rewrite Nat.sub_diag in Hr2.
    assert (u / 2 ^ 63 = 1) as Hone.
    { symmetry. apply (Z.div_unique u (2 ^ 63) 1 (u - 2 ^ 63)); lia. }
    rewrite Hone in Hr2. exists i1, i2. split; [done|]. rewrite bool_decide_false by lia.
    split; [|done]. rewrite Hg. do 3 f_equal.
    change (2 ^ 63) with (2 ^ 7 * 2 ^ 56). rewrite (Z.rem_mul_r u) by lia.
    change (2 ^ 7) with 128. lia.
Qed.

Lemma parses_vlong u : is_u 63 u → parses read_vlong (vbytes 9 u) u.
Proof.
  intros Hu i r Hr. unfold is_u in Hu. unfold read_vlong, read_vlong_ex.
  destruct (decide (u < 128)) as [Hs|Hs].
  - destruct (read_last_byte 9 u i r Hs Hr) as (i1 & -> & Hr1). exists i1. simpl.
    rewrite as_i8_small by lia. by rewrite (proj2 (Z.leb_le _ _)) by lia.
  - destruct (read_vlong_groups u i r) as (i1 & i2 & -> & Hg & Hr2); [unfold is_u; lia|lia|done|].
    pose proof (Z.mod_pos_bound u 128 ltac:(lia)) as Hm. simpl.
    rewrite as_i8_cont by lia. rewrite (proj2 (Z.leb_gt _ _)) by lia.
    rewrite payload_cont by lia. rewrite Hg. simpl.
    rewrite decide_True in Hr2 by lia. rewrite bool_decide_true by lia.
    exists i2. by rewrite Z.mod_small by lia.
Qed.

Lemma parses_signed_vlong u :
  is_u 64 u → parses (fun i => read_vlong_ex i true) (vbytes 9 u) (as_i64 u).
Proof.
  intros Hu i r Hr. unfold is_u in Hu. unfold read_vlong_ex.
  destruct (decide (u < 128)) as [Hs|Hs].
  - destruct (read_last_byte 9 u i r Hs Hr) as (i1 & -> & Hr1). exists i1. simpl.
    rewrite as_i8_small by lia. rewrite (proj2 (Z.leb_le _ _)) by lia.
    by rewrite (as_i_id 64) by (unfold is_i; lia).
  - destruct (read_vlong_groups u i r) as (i1 & i2 & -> & Hg & Hr2); [unfold is_u; lia|lia|done|].
    pose proof (Z.mod_pos_bound u 128 ltac:(lia)) as Hm. simpl.
    rewrite as_i8_cont by lia. rewrite (proj2 (Z.leb_gt _ _)) by lia.
    rewrite payload_cont by lia. rewrite Hg. simpl.
    destruct (decide (u < 2 ^ 63)) as [Hlt|Hge].
    + rewrite bool_decide_true by lia. exists i2. split; [|done].
      rewrite Z.mod_small, (as_i_id 64) by (unfold is_i; lia). done.
    + rewrite bool_decide_false by lia.
      destruct (read_byte_law i2 1 r Hr2) as (i3 & -> & Hr3). exists i3. split; [|done].
      simpl. do 2 f_equal. unfold shl_i. change (Z.land (as_i8 1) 127) with 1.
      assert (Hlo : is_u 63 (u mod 2 ^ 63)) by (unfold is_u; apply Z.mod_pos_bound; lia).
      rewrite lor_as_i by (done || lia). rewrite Z.lor_comm, lor_add_disjoint by (done || lia).
      f_equal. rewrite (Z.mod_eq u) by lia.
      assert (u / 2 ^ 63 = 1) as ->; [|lia].
      symmetry. apply (Z.div_unique u (2 ^ 63) 1 (u - 2 ^ 63)); lia.
Qed.

End vint.

(** * Zig-zag *)

Lemma lnot_sub y : Z.lnot y = -1 - y.
Proof. unfold Z.lnot. lia. Qed.

Lemma sub_as_i_mod w a y : 1 ≤ w → as_u w (a - as_i w y) = as_u w (a - y).
Proof. intros. unfold as_u. by rewrite Zminus_mod, as_i_mod, <- Zminus_mod. Qed.

Lemma shr_sign w x : 1 ≤ w → is_i w x → shr_i x (w - 1) = if x <? 0 then -1 else 0.
Proof.
  intros Hw [H1 H2]. unfold shr_i. rewrite Z.shiftr_div_pow2 by lia.
  pose proof (pow2_pos (w - 1) ltac:(lia)). destruct (Z.ltb_spec x 0).
  - symmetry. apply (Z.div_unique x (2 ^ (w - 1)) (-1) (x + 2 ^ (w - 1))); lia.
  - apply Z.div_small. lia.
Qed.

(** Small magnitudes get small codes: [x >= 0] becomes [2x], [x < 0] becomes
    [-2x - 1], as an unsigned number. *)
Lemma zigzag_encode_u w x :
  1 ≤ w → is_i w x → as_u w (ZigZag.encode w x) = if x <? 0 then - (2 * x) - 1 else 2 * x.
Proof.
  intros Hw Hx. unfold ZigZag.encode. rewrite shr_sign by done. unfold shl_i.
  pose proof (pow2_split w Hw) as Hp. destruct Hx as [H1 H2].
  rewrite Z.shiftl_mul_pow2 by lia. change (2 ^ 1) with 2.
  destruct (Z.ltb_spec x 0).
  - rewrite Z.lxor_m1_l, lnot_sub, sub_as_i_mod by lia. unfold as_u. rewrite Z.mod_small; lia.
  - rewrite Z.lxor_0_l, as_u_as_i by lia. rewrite as_u_id; [lia|]. unfold is_u. lia.
Qed.

Lemma zigzag_decode_u w y u :
  1 ≤ w → as_u w y = u → ZigZag.decode w y = if Z.odd u then as_i w (- (u / 2) - 1) else as_i w (u / 2).
Proof.
  intros Hw Hu. unfold ZigZag.decode. rewrite Hu, Z.shiftr_div_pow2 by lia. change (2 ^ 1) with 2.
  assert (Z.odd y = Z.odd u) as Hodd.
  { rewrite <- !Z.bit0_odd, <- Hu, tb_as_u by lia. rewrite (proj2 (Z.ltb_lt _ _)) by lia. done. }
  assert (Z.land y 1 = y mod 2) as -> by (change 1 with (Z.ones 1); by rewrite Z.land_ones).
  rewrite Zmod_odd, Hodd. destruct (Z.odd u).
  - change (- (1)) with (-1). rewrite Z.lxor_m1_r, lnot_sub.
    assert (Hr := as_i_range w (u / 2) Hw).
    rewrite <- (as_i_id w (-1 - as_i w (u / 2))) by (unfold is_i in *; lia).
    replace (- (u / 2) - 1) with (-1 - u / 2) by lia.
    apply as_i_congr. by apply sub_as_i_mod.
  - apply Z.lxor_0_r.
Qed.

Lemma zigzag_decode_encode w x : 1 ≤ w → is_i w x → ZigZag.decode w (ZigZag.encode w x) = x.
Proof.
  intros Hw Hx. rewrite (zigzag_decode_u w _ _ Hw (zigzag_encode_u w x Hw Hx)).
  destruct (Z.ltb_spec x 0).
  - replace (- (2 * x) - 1) with (1 + 2 * (- x - 1)) by lia.
    rewrite Z.odd_add_mul_2. simpl. rewrite Z.mul_comm, Z.div_add by lia. change (1 / 2) with 0.
    rewrite as_i_id by (done || unfold is_i in *; lia). lia.
  - rewrite Z.odd_mul. simpl. rewrite Z.mul_comm, Z.div_mul by lia. by apply as_i_id.
Qed.

Lemma zigzag_encode_range w x : 1 ≤ w → is_i w x → is_i w (ZigZag.encode w x).
Proof.
  intros Hw Hx. unfold ZigZag.encode. rewrite shr_sign by done.
  pose proof (as_i_range w (Z.shiftl x 1) Hw) as Hs. unfold shl_i.
  destruct (Z.ltb_spec x 0); [rewrite Z.lxor_m1_l; unfold Z.lnot, is_i in *; lia|].
  by rewrite Z.lxor_0_l.
Qed.

(** * Round trips *)

Section round_trips.
Context {Out In : Type} `{HO : LawfulOutput Out} `{HI : LawfulInput In}.

Lemma emits_vint i : emits (fun o => write_vint o i) (vbytes 4 (as_u32 i)).
Proof.
  unfold write_vint. apply emits_vloop. pose proof (as_u_range 32 i ltac:(lia)) as Hr.
  unfold is_u in Hr. change (2 ^ (7 * Z.of_nat 5)) with 34359738368. lia.
Qed.

Lemma emits_signed_vlong i : emits (fun o => write_signed_vlong o i) (vbytes 9 (as_u64 i)).
Proof.
  unfold write_signed_vlong. apply emits_vloop. pose proof (as_u_range 64 i ltac:(lia)) as Hr.
  unfold is_u in Hr. change (2 ^ (7 * Z.of_nat 10)) with (2 ^ 70). lia.
Qed.

Lemma parses_vint_of i : is_i 32 i → parses read_vint (vbytes 4 (as_u32 i)) i.
Proof.
  intros Hi. rewrite <- (as_i_id 32 i) at 2 by (done || lia).
  rewrite <- (as_i_as_u 32 i) by lia. apply parses_vint, as_u_range. lia.
Qed.

Lemma emits_string s : emits (fun o => write_string o s) (vbytes 4 (as_u32 (vlen s)) ++ s).
Proof.
  unfold write_string. apply (emits_bind (fun o => write_vint o _) (fun o => write_all o s)).
  - rewrite <- (as_u_as_i 32) by lia. apply emits_vint.
  - apply emits_write_all.
Qed.

Lemma parses_string s :
  vlen s < 2 ^ 31 → utf8_valid s = true → parses read_string (vbytes 4 (as_u32 (vlen s)) ++ s) s.
Proof.
  intros Hlen Hv. pose proof (vlen_nonneg s). unfold read_string.
  apply (parses_bind _ (fun len i => if len <? 0 then _ else _) _ _ (vlen s)).
  { apply parses_vint_of. unfold is_i. lia. }
  cbv beta. rewrite (proj2 (Z.ltb_ge _ _)) by lia.
  intros i r Hr. destruct (parses_read_exact s i r Hr) as (i' & -> & Hr'). exists i'.
  simpl. by rewrite Hv.
Qed.

Lemma emits_fixed n i : emits (fun o => write_all o (be_bytes n i)) (be_bytes n i).
Proof. apply emits_write_all. Qed.

(** Reading back the big-endian bytes of an [8n]-bit integer. *)
Lemma parses_fixed (n : nat) v : (1 ≤ n)%nat → is_i (8 * Z.of_nat n) v →
  parses (fun i => '(bs, i') ← read_exact i (Z.of_nat n);
                   Ok (as_i (8 * Z.of_nat n) (be_value 8 bs), i')) (be_bytes n v) v.
Proof.
  intros Hn Hv. unfold be_bytes.
  rewrite <- (as_i_id (8 * Z.of_nat n) v) at 2 by (done || lia).
  rewrite <- as_i_as_u by lia. rewrite <- (be_value_digits 8 n v) by lia.
  apply (parses_ret (fun i => read_exact i (Z.of_nat n)) (fun bs => as_i _ (be_value 8 bs))).
  pose proof (parses_read_exact (be_digits 8 n v)) as Hp. unfold vlen in Hp.
  by rewrite length_be_digits in Hp.
Qed.

End round_trips.

(** ** Records

    A value written by one of the methods of [DataOutput]; a record is a list
    of them, written one after the other. *)
Inductive datum : Type :=
  | DShort (v : Z)
  | DInt (v : Z)
  | DLong (v : Z)
  | DVInt (v : Z)
  | DZInt (v : Z)
  | DVLong (v : Z)
  | DZLong (v : Z)
  | DString (s : list Z).

Definition datum_wf (d : datum) : Prop :=
  match d with
  | DShort v => is_i 16 v
  | DInt v | DVInt v | DZInt v => is_i 32 v
  | DLong v | DZLong v => is_i 64 v
  | DVLong v => is_u 63 v
  | DString s => vlen s < 2 ^ 31 ∧ utf8_valid s = true
  end.

Definition write_datum {Out} `{Write Out} (d : datum) (o : Out) : result Out :=
  match d with
  | DShort v => write_short o v
  | DInt v => write_int o v
  | DLong v => write_long o v
  | DVInt v => write_vint o v
  | DZInt v => write_zint o v
  | DVLong v => write_vlong o v
  | DZLong v => write_zlong o v
  | DString s => write_string o s
  end.

(** Reads a value of the same shape as [d]; the payload of [d] is not used. *)
Definition read_datum {In} `{DataInput In} (d : datum) (i : In) : result (datum * In) :=
  match d with
  | DShort _ => '(v, i) ← read_short i; Ok (DShort v, i)
  | DInt _ => '(v, i) ← read_int i; Ok (DInt v, i)
  | DLong _ => '(v, i) ← read_long i; Ok (DLong v, i)
  | DVInt _ => '(v, i) ← read_vint i; Ok (DVInt v, i)
  | DZInt _ => '(v, i) ← read_zint i; Ok (DZInt v, i)
  | DVLong _ => '(v, i) ← read_vlong i; Ok (DVLong v, i)
  | DZLong _ => '(v, i) ← read_zlong i; Ok (DZLong v, i)
  | DString _ => '(s, i) ← read_string i; Ok (DString s, i)
  end.

Fixpoint read_record {In} `{DataInput In} (ds : list datum) (i : In) : result (list datum * In) :=
  match ds with
  | [] => Ok ([], i)
  | d :: ds' => '(x, i) ← read_datum d i; '(xs, i) ← read_record ds' i; Ok (x :: xs, i)
  end.

Definition datum_bytes (d : datum) : list Z :=
  match d with
  | DShort v => be_bytes 2 v
  | DInt v => be_bytes 4 v
  | DLong v => be_bytes 8 v
  | DVInt v => vbytes 4 (as_u32 v)
  | DZInt v => vbytes 4 (as_u32 (ZigZag.encode 32 v))
  | DVLong v => vbytes 9 v
  | DZLong v => vbytes 9 (as_u64 (ZigZag.encode 64 v))
  | DString s => vbytes 4 (as_u32 (vlen s)) ++ s
  end.

Section records.
Context {Out In : Type} `{HO : LawfulOutput Out} `{HI : LawfulInput In}.

Lemma emits_datum d : datum_wf d → emits (write_datum d) (datum_bytes d).
Proof.
  destruct d as [v|v|v|v|v|v|v|s]; intros Hwf; cbn [datum_wf write_datum datum_bytes] in *.
  1-3: apply emits_fixed.
  1-2: apply emits_vint.
  - unfold is_u in Hwf. change (emits (fun o => write_vlong o v) (vbytes 9 v)).
    unfold write_vlong. rewrite (proj2 (Z.ltb_ge _ _)) by lia.
    pose proof (emits_signed_vlong v) as He. rewrite as_u_id in He by (unfold is_u; lia). exact He.
  - apply emits_signed_vlong.
  - apply emits_string.
Qed.

Lemma parses_datum d : datum_wf d → parses (read_datum d) (datum_bytes d) d.
Proof.
  destruct d as [v|v|v|v|v|v|v|s]; intros Hwf; cbn [datum_wf read_datum datum_bytes] in *.
  - apply (parses_ret read_short DShort). apply (parses_fixed 2 v ltac:(lia) Hwf).
  - apply (parses_ret read_int DInt). apply (parses_fixed 4 v ltac:(lia) Hwf).
  - apply (parses_ret read_long DLong). apply (parses_fixed 8 v ltac:(lia) Hwf).
  - apply (parses_ret read_vint DVInt). by apply parses_vint_of.
  - apply (parses_ret read_zint DZInt). rewrite <- (zigzag_decode_encode 32 v) at 2 by (done || lia).
    apply (parses_ret read_vint (ZigZag.decode 32)), parses_vint_of. by apply zigzag_encode_range.
  - apply (parses_ret read_vlong DVLong). by apply parses_vlong.
  - apply (parses_ret read_zlong DZLong). rewrite <- (zigzag_decode_encode 64 v) at 2 by (done || lia).
    apply (parses_ret (fun i => read_vlong_ex i true) (ZigZag.decode 64)).
    rewrite <- (as_i_id 64 (ZigZag.encode 64 v)) at 2
      by (by apply zigzag_encode_range || lia).
    rewrite <- (as_i_as_u 64) by lia. apply parses_signed_vlong, as_u_range. lia.
  - apply (parses_ret read_string DString). destruct Hwf. by apply parses_string.
Qed.

Lemma parses_record ds :
  Forall datum_wf ds → parses (read_record ds) (concat (map datum_bytes ds)) ds.
Proof.
  induction 1 as [|d ds Hd Hds IH]; simpl.
  - intros i r Hr. by exists i.
  - apply (parses_bind (read_datum d) (fun x i => '(xs, i) ← read_record ds i; Ok (x :: xs, i)) _ _ d);
      [by apply parses_datum|]. by apply (parses_ret (read_record ds) (fun xs => d :: xs)).
Qed.

(** C5. Whatever is written to a [DataOutput] with enough room by a sequence of
    [write_short], [write_int], [write_long], [write_vint], [write_zint],
    [write_vlong], [write_zlong] and [write_string] is read back, value by
    value and to the last byte, by the corresponding methods of a [DataInput]
    positioned on those bytes. *)
Theorem record_roundtrip (ds : list datum) :
  Forall datum_wf ds →
  ∃ bs, emits (for_each ds write_datum) bs ∧ parses (read_record ds) bs ds.
Proof.
  intros Hds. exists (concat (map datum_bytes ds)). split; [|by apply parses_record].
  apply emits_for_each. intros d Hd. apply emits_datum.
  rewrite Forall_forall in Hds. by apply Hds, list_elem_of_In.
Qed.

End records.

Lemma record_roundtrip_witness :
  Forall datum_wf [DVInt 300; DZLong (-7); DString [104; 105]] ∧
  ∃ bs, emits (O := list Z) (for_each [DVInt 300; DZLong (-7); DString [104; 105]] write_datum) bs ∧
        parses (I := ByteArrayDataInput.t)
          (read_record [DVInt 300; DZLong (-7); DString [104; 105]]) bs
          [DVInt 300; DZLong (-7); DString [104; 105]].
Proof.
  assert (H : Forall datum_wf [DVInt 300; DZLong (-7); DString [104; 105]]).
  { repeat constructor; simpl; try done. }
  split; [exact H|]. exact (record_roundtrip _ H).
Defined.

(** ** Maps and sets of strings *)

Section string_maps.
Context {Out In : Type} `{HO : LawfulOutput Out} `{HI : LawfulInput In}.

Definition string_bytes (s : list Z) : list Z := vbytes 4 (as_u32 (vlen s)) ++ s.
Definition string_wf (s : list Z) : Prop := vlen s < 2 ^ 31 ∧ utf8_valid s = true.

(** A counted loop that reads one item per round. *)
Lemma parses_loop {K St} (body : Z → St * In → result (St * In)) (enc : K → list Z)
    (upd : K → St → St) ks : ∀ j st,
  (∀ k j st, k ∈ ks → parses (fun i => body j (st, i)) (enc k) (upd k st)) →
  parses (fun i => for_n (length ks) j body (st, i)) (concat (map enc ks))
    (foldl (fun st k => upd k st) st ks).
Proof.
  induction ks as [|k ks IH]; intros j st Hb; simpl; [intros i r Hr; by exists i|].
  intros i r Hr. rewrite <- app_assoc in Hr.
  destruct (Hb k j st ltac:(left) i _ Hr) as (i1 & Hb1 & Hr1). rewrite Hb1. simpl.
  apply IH; [|done]. intros k' j' st' Hk. apply Hb. by right.
Qed.

Lemma foldl_insert_lookup (m : gmap (list Z) (list Z)) ks : ∀ (acc : gmap (list Z) (list Z)) k,
  (∀ x, x ∈ ks → is_Some (m !! x)) →
  foldl (fun acc k => <[k := default [] (m !! k)]> acc) acc ks !! k =
    if decide (k ∈ ks) then m !! k else acc !! k.
Proof.
  induction ks as [|x ks IH]; intros acc k Hks; simpl; [done|].
  rewrite IH by (intros y Hy; apply Hks; by right).
  destruct (decide (k ∈ ks)) as [Hin|Hnin].
  - by rewrite decide_True by (by right).
  - destruct (decide (k = x)) as [->|Hne].
    + rewrite decide_True by left. rewrite lookup_insert_eq.
      by destruct (Hks x ltac:(left)) as [v ->].
    + rewrite decide_False by (intros [?|?]%elem_of_cons; done). by rewrite lookup_insert_ne.
Qed.

Lemma sorted_keys_elem s k : k ∈ sorted_keys s ↔ k ∈ s.
Proof. unfold sorted_keys. by rewrite merge_sort_Permutation, elem_of_elements. Qed.

Lemma length_sorted_keys s : length (sorted_keys s) = size s.
Proof. unfold sorted_keys. by rewrite merge_sort_Permutation. Qed.

Lemma parses_count (n : nat) : Z.of_nat n < 2 ^ 31 →
  parses read_vint (vbytes 4 (as_u32 (as_i32 (Z.of_nat n)))) (Z.of_nat n).
Proof.
  intros Hn. rewrite as_u_as_i by lia. apply parses_vint_of. unfold is_i. lia.
Qed.

(** A map of strings written by [write_map_of_strings] is read back as the
    same map by [read_map_of_strings], whatever the order in which the hash map
    yields its keys; likewise a set of strings. *)
Theorem string_map_roundtrip (m : gmap (list Z) (list Z)) (s : gset (list Z)) :
  Z.of_nat (size m) < 2 ^ 31 → map_Forall (fun k v => string_wf k ∧ string_wf v) m →
  Z.of_nat (size s) < 2 ^ 31 → set_Forall string_wf s →
  (∃ bs, emits (fun o => write_map_of_strings o m) bs ∧ parses read_map_of_strings bs m) ∧
  (∃ bs, emits (fun o => write_set_of_strings o s) bs ∧ parses read_set_of_strings bs s).
Proof.
  intros Hm Hwm Hs Hws. split.
  - set (enc := fun k => string_bytes k ++ string_bytes (default [] (m !! k))).
    exists (vbytes 4 (as_u32 (as_i32 (Z.of_nat (size m)))) ++ concat (map enc (sorted_keys (dom m)))).
    split.
    + apply (emits_bind (fun o => write_vint o _)); [apply emits_vint|].
      apply emits_for_each. intros k Hk.
      apply sorted_keys_elem, elem_of_dom in Hk as [v Hv]. unfold enc. rewrite Hv.
      apply (emits_bind (fun o => write_string o k) (fun o => write_string o v)); apply emits_string.
    + unfold read_map_of_strings.
      apply (parses_bind _ (fun count i => if count <? 0 then _ else _) _ _ (Z.of_nat (size m)));
        [by apply parses_count|].
      cbv beta. rewrite (proj2 (Z.ltb_ge _ _)) by lia. unfold for_range.
      rewrite Z.sub_0_r, Nat2Z.id, <- size_dom, <- length_sorted_keys.
      assert (foldl (fun st k => <[k := default [] (m !! k)]> st) ∅ (sorted_keys (dom m)) = m) as Hfold.
      { apply map_eq. intros k. rewrite foldl_insert_lookup.
        - destruct (decide (k ∈ sorted_keys (dom m))) as [|Hn]; [done|].
          rewrite sorted_keys_elem, not_elem_of_dom in Hn. by rewrite Hn, lookup_empty.
        - intros x Hx. by apply elem_of_dom, sorted_keys_elem. }
      rewrite <- Hfold at 2.
      apply (parses_loop _ enc (fun k st => <[k := default [] (m !! k)]> st)).
      intros k j st Hk. apply sorted_keys_elem, elem_of_dom in Hk as [v Hv].
      destruct (Hwm k v Hv) as [[? ?] [? ?]]. unfold enc. rewrite Hv. simpl.
      apply (parses_bind read_string (fun k i => '(v, i) ← read_string i; Ok (<[k := v]> st, i)) _ _ k);
        [by apply parses_string|].
      apply (parses_ret read_string (fun v => <[k := v]> st)). by apply parses_string.
  - exists (vbytes 4 (as_u32 (as_i32 (Z.of_nat (size s)))) ++ concat (map string_bytes (sorted_keys s))).
    split.
    + apply (emits_bind (fun o => write_vint o _)); [apply emits_vint|].
      apply emits_for_each. intros k Hk. apply emits_string.
    + unfold read_set_of_strings.
      apply (parses_bind _ (fun count i => if count <? 0 then _ else _) _ _ (Z.of_nat (size s)));
        [by apply parses_count|].
      cbv beta. rewrite (proj2 (Z.ltb_ge _ _)) by lia. unfold for_range.
      rewrite Z.sub_0_r, Nat2Z.id, <- length_sorted_keys.
      assert (∀ ks (acc : gset (list Z)), foldl (fun st k => {[k]} ∪ st) acc ks = list_to_set ks ∪ acc) as Hf.
      { intros ks. induction ks as [|k ks IH]; intros acc; simpl; [set_solver|]. rewrite IH. set_solver. }
      assert (foldl (fun st k => {[k]} ∪ st) ∅ (sorted_keys s) = s) as Hfold.
      { rewrite Hf. apply set_eq. intros k. rewrite elem_of_union, elem_of_list_to_set, sorted_keys_elem. set_solver. }
      rewrite <- Hfold at 2.
      apply (parses_loop _ string_bytes (fun k st => {[k]} ∪ st)).
      intros k j st Hk. apply sorted_keys_elem in Hk. destruct (Hws k Hk).
      apply (parses_ret read_string (fun k => {[k]} ∪ st)). by apply parses_string.
Qed.

End string_maps.

Lemma string_map_roundtrip_witness :
  Z.of_nat (size ({[ [107] := [118; 49] ]} : gmap (list Z) (list Z))) < 2 ^ 31 ∧
  ∃ bs, emits (O := list Z) (fun o => write_map_of_strings o {[ [107] := [118; 49] ]}) bs ∧
        parses (I := list Z) read_map_of_strings bs {[ [107] := [118; 49] ]}.
Proof.
  split; [vm_compute; reflexivity|].
  refine (proj1 (string_map_roundtrip (Out := list Z) (In := list Z)
                   {[ [107] := [118; 49] ]} ∅ _ _ _ _)).
  - vm_compute. reflexivity.
  - apply map_Forall_singleton. by repeat split.
  - vm_compute. reflexivity.
  - apply set_Forall_empty.
Defined.

(** * Copying *)

Section copying.
Context {Out In : Type} `{HO : LawfulOutput Out} `{HI : LawfulInput In}.

(** [copy_bytes] moves exactly the requested bytes from the input to the
    output, in chunks of at most [COPY_BUFFER_SIZE] bytes, and leaves the input
    just after them. *)
Theorem copy_bytes_spec (o : Out) (from : In) bs r n :
  remains from (bs ++ r) → accepts o (vlen bs + n) → 0 ≤ n → vlen bs < 2 ^ 63 →
  ∃ o' from', copy_bytes o from (vlen bs) = Ok (o', from') ∧
    written o' = written o ++ bs ∧ remains from' r ∧ accepts o' n.
Proof.
  intros Hr Hacc Hn Hlen. pose proof (vlen_nonneg bs). unfold copy_bytes.
  set (P := fun '(l, buf, o', i') => ∃ pre post, bs = pre ++ post ∧ l = vlen post ∧
    vlen (buf : list Z) = COPY_BUFFER_SIZE ∧ written (o' : Out) = written o ++ pre ∧
    remains (i' : In) (post ++ r) ∧ accepts o' (vlen post + n)).
  edestruct (while_fuel_inv P (fun '(l, _, _, _) => Z.to_nat l))
    as ([[[l buf] o'] i'] & Hw & HP & Hc); [| | |].
  4:{ rewrite Hw, bind_Ok_l. unfold P in HP. cbn beta iota in HP, Hc |- *. destruct HP as (pre & post & -> & -> & _ & Hlog & Hr' & Hacc').
      pose proof (vlen_nonneg post) as Hp. apply Z.ltb_ge in Hc.
      destruct post; [|rewrite vlen_cons in Hc; pose proof (vlen_nonneg post); lia].
      exists o', i'. by rewrite app_nil_r in *. }
  - intros [[[l buf] o'] i'] (pre & post & Hbs & -> & Hbuf & Hlog & Hr' & Hacc') Hc.
    apply Z.ltb_lt in Hc. simpl.
    set (k := if vlen post >? COPY_BUFFER_SIZE then COPY_BUFFER_SIZE else vlen post).
    assert (Hk : 0 < k ≤ vlen post ∧ k ≤ COPY_BUFFER_SIZE).
    { unfold k. rewrite Z.gtb_ltb. destruct (Z.ltb_spec COPY_BUFFER_SIZE (vlen post));
        unfold COPY_BUFFER_SIZE in *; lia. }
    pose proof (vlen_nonneg r).
    destruct (read_bytes_law i' _ buf 0 k Hr' ltac:(lia) ltac:(rewrite vlen_app; lia) ltac:(lia))
      as (i2 & -> & Hr2). simpl.
    rewrite take_app_le in * by (unfold vlen in *; lia).
    assert (Hkl : length (take (Z.to_nat k) post) = Z.to_nat k) by (rewrite length_take; unfold vlen in *; lia).
    rewrite vslice_0 by (rewrite vlen_app, vlen_take by lia;
      pose proof (vlen_nonneg (drop (Z.to_nat k) buf)); lia). simpl.
    rewrite take_app_length' by done.
    destruct (emits_write_all (take (Z.to_nat k) post) o' (vlen (drop (Z.to_nat k) post) + n))
      as (o2 & -> & Hlog2 & Hacc2).
    { rewrite vlen_take, vlen_drop by lia. by replace (k + (vlen post - k + n)) with (vlen post + n) by lia. }
    { pose proof (vlen_nonneg (drop (Z.to_nat k) post)). lia. }
    simpl. eexists. split; [done|]. split; [|lia].
    exists (pre ++ take (Z.to_nat k) post), (drop (Z.to_nat k) post).
    rewrite <- app_assoc, take_drop. split; [done|]. rewrite vlen_drop by lia. split; [done|].
    split.
    { rewrite vlen_app, vlen_take, vlen_drop by lia. lia. }
    split; [by rewrite Hlog2, Hlog, app_assoc|].
    rewrite drop_app_le in Hr2 by (unfold vlen in *; lia). by rewrite vlen_drop in Hacc2 by lia.
  - exists [], bs. rewrite (as_i_id 64) by (unfold is_i; lia). rewrite vlen_replicate by done.
    by rewrite app_nil_r.
  - simpl. rewrite (as_i_id 64) by (unfold is_i; lia). lia.
Qed.

End copying.

Lemma copy_bytes_witness :
  remains (ByteArrayDataInput.new [1; 2; 3; 4]) ([1; 2; 3] ++ [4]) ∧
  ∃ (o' : list Z) from', copy_bytes [9] (ByteArrayDataInput.new [1; 2; 3; 4]) (vlen [1; 2; 3]) = Ok (o', from') ∧
    written o' = written [9] ++ [1; 2; 3] ∧ remains from' [4] ∧ accepts o' 0.
Proof.
  assert (H : remains (ByteArrayDataInput.new [1; 2; 3; 4]) ([1; 2; 3] ++ [4])).
  { split; [vm_compute; split; discriminate|reflexivity]. }
  split; [exact H|].
  refine (copy_bytes_spec [9] (ByteArrayDataInput.new [1; 2; 3; 4]) [1; 2; 3] [4] 0 H _ _ _);
    [exact Logic.I|done|done].
Defined.

(** * Malformed input *)

Lemma take_byte s : Forall (is_u 8) s →
  (∃ b s', s = b :: s' ∧ read_byte s = Ok (b, drop 1 s) ∧ is_u 8 b) ∨
  (s = [] ∧ read_byte (s : list Z) = Err IoError).
Proof.
  destruct s as [|b s]; [by right|]. intros [Hb _]%Forall_cons_iff. left. by exists b, s.
Qed.

Lemma land_mask_range x n w : 0 ≤ n → n < w → is_i w (Z.land x (Z.ones n)).
Proof.
  intros. rewrite Z.land_ones by done. pose proof (Z.mod_pos_bound x (2 ^ n) (pow2_pos n ltac:(lia))).
  pose proof (Z.pow_le_mono_r 2 n (w - 1) ltac:(lia) ltac:(lia)). unfold is_i. lia.
Qed.

Lemma read_groups_total w shifts : 1 ≤ w → ∀ v (s : list Z),
  Forall (is_u 8) s → is_i w v →
  (∃ v' stop k, read_groups w shifts v s = Ok (v', stop, drop k s) ∧ is_i w v' ∧ (k ≤ length shifts)%nat) ∨
  read_groups w shifts v s = Err IoError.
Proof.
  intros Hw. induction shifts as [|sh shifts IH]; intros v s Hs Hv; cbn [read_groups].
  { left. exists v, false, 0%nat. by rewrite drop_0. }
  destruct (take_byte s Hs) as [(b & s' & -> & -> & Hb)|[-> ->]]; [|by right]. simpl.
  set (v1 := Z.lor v _).
  assert (is_i w v1) by (apply is_i_lor; [done|done|by apply as_i_range]).
  destruct (0 <=? as_i8 b).
  - left. exists v1, true, 1%nat. split; [done|]. split; [done|lia].
  - apply Forall_cons_iff in Hs as [_ Hs]. rewrite drop_0.
    destruct (IH v1 s' Hs H) as [(v' & stop & k & -> & Hv' & Hk)| ->]; [|by right].
    left. exists v', stop, (S k). split; [done|]. split; [done|lia].
Qed.

#[local] Arguments read_groups : simpl never.

(** On any byte slice [read_vint] terminates without a panic: it answers an
    [i32] after consuming at most five bytes, or the slice ended
    ([UnexpectedEof]), or the fifth byte has bits outside the low nibble
    ([IllegalState]). *)
Theorem read_vint_total (s : list Z) :
  Forall (is_u 8) s →
  (∃ v k, read_vint s = Ok (v, drop k s) ∧ is_i 32 v ∧ (k ≤ 5)%nat) ∨
  read_vint s = Err IoError ∨ read_vint s = Err IllegalState.
Proof.
  intros Hs. unfold read_vint.
  destruct (take_byte s Hs) as [(b & s1 & -> & -> & Hb)|[-> ->]]; [|by right; left]. simpl.
  destruct (Z.leb_spec 0 (as_i8 b)).
  { left. exists (as_i8 b), 1%nat. split; [done|]. split; [|lia].
    pose proof (as_i_range 8 b ltac:(lia)). unfold is_i in *. lia. }
  apply Forall_cons_iff in Hs as [_ Hs]. rewrite drop_0.
  destruct (read_groups_total 32 [7; 14; 21] ltac:(lia) (Z.land (as_i8 b) 127) s1 Hs)
    as [(v & stop & k & -> & Hv & Hk)| ->]; [by apply (land_mask_range _ 7)| |by right; left].
  simpl in Hk. cbn [mbind result_bind]. destruct stop; [left; exists v, (S k); split; [done|split; [done|lia]]|].
  change (SliceInput.read_byte_impl (drop k s1)) with (read_byte (drop k s1)).
  destruct (take_byte (drop k s1)) as [(b5 & s5 & _ & -> & Hb5)|[-> ->]];
    [by apply Forall_drop| |by right; left]. simpl.
  case_match; [by right; right|]. left. eexists _, (S (k + 1)). split; [by rewrite drop_drop|].
  split; [|lia]. apply is_i_lor; [lia|done|by apply as_i_range].
Qed.

Lemma read_vint_total_witness :
  Forall (is_u 8) [255; 255; 255; 255; 31] ∧ read_vint [255; 255; 255; 255; 31] = Err IllegalState.
Proof.
  assert (H : Forall (is_u 8) [255; 255; 255; 255; 31]) by (repeat constructor; vm_compute; congruence).
  split; [exact H|].
  destruct (read_vint_total _ H) as [(v & k & Hc & _)|[Hc|Hc]];
    [vm_compute in Hc; discriminate|vm_compute in Hc; discriminate|exact Hc].
Defined.
