(* ===== verification/Numeric.v ===== *)
(** Integer and floating-point bit tricks: src/core/util/bit_util.rs,
    numeric.rs, math.rs and small_float.rs.

    A float is represented by its bit pattern ([to_bits]); the source only
    looks at the pattern in the functions modelled here. *)

From S2P Require Import Prelude DataIO.

(** * Counting bits (the integer methods of the standard library) *)

Fixpoint pos_ctz (p : positive) : Z :=
  match p with
  | xO q => 1 + pos_ctz q
  | _ => 0
  end.

(** [x.trailing_zeros()] at width [w]. *)
Definition trailing_zeros (w x : Z) : Z :=
  match as_u w x with
  | Zpos p => pos_ctz p
  | _ => w
  end.

(** [x.leading_zeros()] at width [w]. *)
Definition leading_zeros (w x : Z) : Z :=
  if as_u w x =? 0 then w else w - 1 - Z.log2 (as_u w x).

Fixpoint pos_ones (p : positive) : Z :=
  match p with
  | xH => 1
  | xO q => pos_ones q
  | xI q => 1 + pos_ones q
  end.

(** [x.count_ones()] at width [w]. *)
Definition count_ones (w x : Z) : Z :=
  match as_u w x with
  | Zpos p => pos_ones p
  | _ => 0
  end.

(** * bit_util.rs *)

Definition bits_required (w x : Z) : Z := Z.max 1 (w - leading_zeros w x).

Definition pop_array (arr : list Z) (word_offset num_words : Z) : Z :=
  foldl (fun c a => c + count_ones 64 a) 0
    (take (Z.to_nat num_words) (drop (Z.to_nat word_offset) arr)).

(** * math.rs *)

(** [base >= 2] makes [x] at least halve: 63 rounds are enough. *)
Definition log (x base : Z) : result Z :=
  '(_, ret) ← while_fuel 63 (fun '(x, _) => base <=? x)
                (fun '(x, ret) => if base =? 0 then Panic else Ok (Z.quot x base, ret + 1)) (x, 0);
  Ok ret.

Definition long_to_int_exact (val : Z) : result Z :=
  let ans := as_i32 val in
  if negb (ans =? val) then bail IllegalState else Ok ans.

(** The loop of [gcd]; every round at least halves [a * b], so 128 rounds are
    enough for 64-bit arguments. *)
Fixpoint gcd_loop (fuel : nat) (a b : Z) : result Z :=
  match fuel with
  | O => Diverge
  | S f =>
    let b := unsigned_shift 64 b (trailing_zeros 64 b) in
    if a =? b then Ok a
    else
      let '(a, b) := if (b <? a) || (a =? - 2 ^ 63) then (b, a) else (a, b) in
      if a =? 1 then Ok a else gcd_loop f a (as_i64 (b - a))
  end.

Definition gcd (a b : Z) : result Z :=
  let a := as_i64 (Z.abs a) in
  let b := as_i64 (Z.abs b) in
  if a =? 0 then Ok b
  else if b =? 0 then Ok a
  else
    let common_trailing_zeros := trailing_zeros 64 (Z.lor a b) in
    let a := unsigned_shift 64 a (trailing_zeros 64 a) in
    a ← gcd_loop 128 a b;
    Ok (shl_i 64 a common_trailing_zeros).

(** * numeric.rs *)

Definition base36_digits : list Z :=
  [48; 49; 50; 51; 52; 53; 54; 55; 56; 57; 97; 98; 99; 100; 101; 102; 103; 104; 105; 106; 107; 108;
   109; 110; 111; 112; 113; 114; 115; 116; 117; 118; 119; 120; 121; 122].

(** The loop pushes the digits, least significant first; a [u64] has at most
    thirteen of them. *)
Fixpoint to_base36_loop (fuel : nat) (val : Z) (acc : list Z) : result (list Z) :=
  match fuel with
  | O => Diverge
  | S f =>
    d ← vget base36_digits (val mod 36);
    let acc := acc ++ [d] in
    let val := val / 36 in
    if val =? 0 then Ok (reverse acc) else to_base36_loop f val acc
  end.
Definition to_base36 (val : Z) : result (list Z) := to_base36_loop 13 val [].

Definition sortable_double_bits (bits : Z) : Z :=
  Z.lxor bits (Z.land (shr_i bits 63) 0x7fffffffffffffff).
Definition sortable_float_bits (bits : Z) : Z :=
  Z.lxor bits (Z.land (shr_i bits 31) 0x7fffffff).

Definition double2sortable_long (bits : Z) : Z := sortable_double_bits (as_i64 bits).
Definition sortable_long2double (value : Z) : Z := as_u64 (sortable_double_bits value).
Definition float2sortable_int (bits : Z) : Z := sortable_float_bits (as_i32 bits).
Definition sortable_int2float (value : Z) : Z := as_u32 (sortable_float_bits value).

Definition int2sortable_bytes (value : Z) (res : list Z) : result (list Z) :=
  let value := as_i32 (Z.lxor (as_u32 value) 0x80000000) in
  res ← vset res 0 (as_u8 (shr_i value 24));
  res ← vset res 1 (as_u8 (shr_i value 16));
  res ← vset res 2 (as_u8 (shr_i value 8));
  vset res 3 (as_u8 value).

Definition sortable_bytes2int (encoded : list Z) : result Z :=
  b0 ← vget encoded 0; b1 ← vget encoded 1; b2 ← vget encoded 2; b3 ← vget encoded 3;
  let x := Z.lor (Z.lor (Z.lor (shl_i 32 (Z.land b0 0xff) 24) (shl_i 32 (Z.land b1 0xff) 16))
                        (shl_i 32 (Z.land b2 0xff) 8)) (Z.land b3 0xff) in
  Ok (as_i32 (Z.lxor (as_u32 x) 0x80000000)).

Definition long2sortable_bytes (value : Z) (res : list Z) : result (list Z) :=
  let value := as_i64 (Z.lxor (as_u64 value) 0x8000000000000000) in
  res ← vset res 0 (as_u8 (shr_i value 56));
  res ← vset res 1 (as_u8 (shr_i value 48));
  res ← vset res 2 (as_u8 (shr_i value 40));
  res ← vset res 3 (as_u8 (shr_i value 32));
  res ← vset res 4 (as_u8 (shr_i value 24));
  res ← vset res 5 (as_u8 (shr_i value 16));
  res ← vset res 6 (as_u8 (shr_i value 8));
  vset res 7 (as_u8 value).

Definition sortable_bytes2long (encoded : list Z) : result Z :=
  b0 ← vget encoded 0; b1 ← vget encoded 1; b2 ← vget encoded 2; b3 ← vget encoded 3;
  b4 ← vget encoded 4; b5 ← vget encoded 5; b6 ← vget encoded 6; b7 ← vget encoded 7;
  let v := Z.lor (Z.lor (Z.lor (Z.lor (Z.lor (Z.lor (Z.lor
             (shl_i 64 (Z.land b0 0xff) 56) (shl_i 64 (Z.land b1 0xff) 48))
             (shl_i 64 (Z.land b2 0xff) 40)) (shl_i 64 (Z.land b3 0xff) 32))
             (shl_i 64 (Z.land b4 0xff) 24)) (shl_i 64 (Z.land b5 0xff) 16))
             (shl_i 64 (Z.land b6 0xff) 8)) (Z.land b7 0xff) in
  Ok (as_i64 (Z.lxor (as_u64 v) 0x8000000000000000)).

(** * small_float.rs *)

Module SmallFloat.

(** [f] is the bit pattern of the [f32]. *)
Definition float_to_byte315 (f : Z) : Z :=
  let bits := as_i32 f in
  let small_float := shr_i bits (24 - 3) in
  if small_float <=? shl_i 32 (63 - 15) 3 then
    if bits <=? 0 then 0 else 1
  else if shl_i 32 (63 - 15) 3 + 0x100 <=? small_float then 255
  else as_u8 (small_float - shl_i 32 (63 - 15) 3).

Definition byte315_to_float (b : Z) : Z :=
  if b =? 0 then 0
  else
    let bits := as_u32 (Z.shiftl b (24 - 3)) in
    as_u32 (bits + Z.shiftl (63 - 15) 24).

End SmallFloat.
