(* ===== verification/NumericFacts.v ===== *)
(** Correctness of the integer and floating-point bit tricks of Numeric.v. *)

From S2P Require Import Prelude DataIO Numeric.

(** * Sortable bytes *)

Lemma as_u_shl_i w a n : 1 ≤ w → as_u w (shl_i w a n) = as_u w (Z.shiftl a n).
Proof. intros. unfold shl_i. by rewrite as_u_as_i. Qed.

(** Flipping the sign bit of a [w]-bit signed integer shifts its range to the
    unsigned one. *)
Lemma flip_sign w v : 1 ≤ w → is_i w v → Z.lxor (as_u w v) (2 ^ (w - 1)) = v + 2 ^ (w - 1).
Proof.
  intros Hw [H1 H2]. pose proof (pow2_split w Hw).
  assert (Hx : ∀ t, is_u (w - 1) t → Z.lxor t (2 ^ (w - 1)) = t + 2 ^ (w - 1) ∧
                                   Z.lxor (t + 2 ^ (w - 1)) (2 ^ (w - 1)) = t).
  { intros t Ht. pose proof (lor_add_disjoint 1 t (w - 1) ltac:(lia) Ht) as Hl.
    rewrite Z.mul_1_l, Z.shiftl_1_l, Z.lor_comm in Hl. rewrite (Z.add_comm t), <- Hl.
    split; bitwise; subst; by rewrite (tb_high t (w - 1)) by (done || lia). }
  destruct (decide (0 ≤ v)).
  - rewrite as_u_id by (unfold is_u; lia). apply Hx. unfold is_u. lia.
  - unfold as_u. rewrite <- (Z_mod_plus_full v 1), Z.mod_small by lia.
    replace (v + 1 * 2 ^ w) with ((v + 2 ^ (w - 1)) + 2 ^ (w - 1)) by lia.
    apply Hx. unfold is_u. lia.
Qed.

Lemma byte_of_cast w x s : 0 ≤ s → s + 8 ≤ w → as_u8 (shr_i (as_i w x) s) = as_u8 (Z.shiftr x s).
Proof. intros. unfold shr_i. bitwise. Qed.

(** Overwriting the elements at consecutive positions, as an indexed assignment
    each. *)
Lemma vset_at {A} (pre : list A) x y post i :
  i = vlen pre → vset (pre ++ x :: post) i y = Ok (pre ++ y :: post).
Proof.
  intros ->. rewrite vset_in by (rewrite vlen_app, vlen_cons; pose proof (vlen_nonneg pre);
    pose proof (vlen_nonneg post); lia).
  rewrite to_nat_vlen, <- (Nat.add_0_r (length pre)). by rewrite insert_app_r.
Qed.

(** Run the assignments to constant indices of a list given by its first
    elements. *)
Ltac run_vset :=
  repeat match goal with
  | |- context [vset ?l ?i ?y] =>
    let n := eval compute in (Z.to_nat i) in
    let pre := eval cbn [firstn take] in (firstn n l) in
    let post := eval cbn [skipn drop] in (skipn n l) in
    match post with
    | ?x :: ?tl => rewrite (vset_at pre x y tl i eq_refl : vset l i y = _)
    end; cbn [app mbind result_bind]
  end.

(** The bytes are the big-endian digits of the shifted value. *)
Lemma int2sortable_bytes_eq v res : is_i 32 v → 4 ≤ vlen res →
  int2sortable_bytes v res = Ok (be_digits 8 4 (v + 2 ^ 31) ++ drop 4 res).
Proof.
  intros Hv Hr. unfold int2sortable_bytes.
  rewrite (flip_sign 32 v ltac:(lia) Hv : Z.lxor (as_u32 v) 0x80000000 = v + 2 ^ 31).
  destruct res as [|r0 [|r1 [|r2 [|r3 res]]]]; try (vm_compute in Hr; done).
  rewrite !byte_of_cast by lia.
  assert (as_u8 (as_i32 (v + 2 ^ 31)) = as_u8 (Z.shiftr (v + 2 ^ 31) 0)) as ->.
  { rewrite <- (byte_of_cast 32) by lia. unfold shr_i. by rewrite Z.shiftr_0_r. }
  run_vset. reflexivity.
Qed.

Lemma long2sortable_bytes_eq v res : is_i 64 v → 8 ≤ vlen res →
  long2sortable_bytes v res = Ok (be_digits 8 8 (v + 2 ^ 63) ++ drop 8 res).
Proof.
  intros Hv Hr. unfold long2sortable_bytes.
  rewrite (flip_sign 64 v ltac:(lia) Hv : Z.lxor (as_u64 v) 0x8000000000000000 = v + 2 ^ 63).
  destruct res as [|r0 [|r1 [|r2 [|r3 [|r4 [|r5 [|r6 [|r7 res]]]]]]]]; try (vm_compute in Hr; done).
  rewrite !byte_of_cast by lia.
  assert (as_u8 (as_i64 (v + 2 ^ 63)) = as_u8 (Z.shiftr (v + 2 ^ 63) 0)) as ->.
  { rewrite <- (byte_of_cast 64) by lia. unfold shr_i. by rewrite Z.shiftr_0_r. }
  run_vset. reflexivity.
Qed.

(** [be_value] as the source writes it, with shifts and [|]. *)
Lemma be_value_lor l : Forall (is_u 8) l →
  be_value 8 l = foldl (fun acc x => Z.lor (Z.shiftl acc 8) x) 0 l.
Proof.
  unfold be_value. generalize 0 as acc. induction l as [|x l IH]; intros acc Hl; simpl; [done|].
  apply Forall_cons_iff in Hl as [Hx Hl]. rewrite IH by done. by rewrite lor_add_disjoint.
Qed.

Lemma sortable_bytes2int_eq b0 b1 b2 b3 tl : Forall (is_u 8) [b0; b1; b2; b3] →
  sortable_bytes2int (b0 :: b1 :: b2 :: b3 :: tl)
  = Ok (as_i32 (Z.lxor (be_value 8 [b0; b1; b2; b3]) (2 ^ 31))).
Proof.
  intros Hb. pose proof (be_value_bound 8 _ ltac:(lia) Hb) as Hr. rewrite be_value_lor by done.
  rewrite be_value_lor in Hr by done. rewrite <- (as_u_id 32 _ Hr).
  repeat (apply Forall_cons_iff in Hb as [? Hb]). unfold sortable_bytes2int. simpl.
  rewrite !land_255 by done. do 3 f_equal.
  rewrite !as_u_lor, !as_u_shl_i by lia. rewrite <- !as_u_lor by lia. f_equal.
  by rewrite !Z.shiftl_lor, !Z.shiftl_shiftl, !Z.lor_0_l by lia.
Qed.

Lemma sortable_bytes2long_eq b0 b1 b2 b3 b4 b5 b6 b7 tl :
  Forall (is_u 8) [b0; b1; b2; b3; b4; b5; b6; b7] →
  sortable_bytes2long (b0 :: b1 :: b2 :: b3 :: b4 :: b5 :: b6 :: b7 :: tl)
  = Ok (as_i64 (Z.lxor (be_value 8 [b0; b1; b2; b3; b4; b5; b6; b7]) (2 ^ 63))).
Proof.
  intros Hb. pose proof (be_value_bound 8 _ ltac:(lia) Hb) as Hr. rewrite be_value_lor by done.
  rewrite be_value_lor in Hr by done. rewrite <- (as_u_id 64 _ Hr).
  repeat (apply Forall_cons_iff in Hb as [? Hb]). unfold sortable_bytes2long. simpl.
  rewrite !land_255 by done. do 3 f_equal.
  rewrite !as_u_lor, !as_u_shl_i by lia. rewrite <- !as_u_lor by lia. f_equal.
  by rewrite !Z.shiftl_lor, !Z.shiftl_shiftl, !Z.lor_0_l by lia.
Qed.

(** On numerals of one length the byte-wise order is the order of the values. *)
Lemma str_leb_be_value k : ∀ l, length l = length k → Forall (is_u 8) l → Forall (is_u 8) k →
  str_leb l k = (be_value 8 l <=? be_value 8 k).
Proof.
  induction k as [|y k IH]; intros [|x l] Hlen Hl Hk; try done.
  apply Forall_cons_iff in Hl as [Hx Hl], Hk as [Hy Hk].
  simpl in Hlen. injection Hlen as Hlen.
  cbn [str_leb]. rewrite !be_value_cons by lia. rewrite IH by done.
  pose proof (be_value_bound 8 l ltac:(lia) Hl) as [Hl0 Hl1].
  pose proof (be_value_bound 8 k ltac:(lia) Hk) as [Hk0 Hk1].
  assert (vlen l = vlen k) as -> by (unfold vlen; lia).
  set (P := 2 ^ (8 * vlen k)) in *.
  assert (vlen l = vlen k) as Hv by (unfold vlen; lia). rewrite Hv in Hl1. fold P in Hl1.
  destruct (Z.ltb_spec x y), (Z.eqb_spec x y); cbn [orb andb]; try lia; symmetry.
  - apply Z.leb_le. nia.
  - apply Z.leb_gt. nia.
Qed.

Lemma unflip_sign w v : 1 ≤ w → is_i w v → as_i w (Z.lxor (v + 2 ^ (w - 1)) (2 ^ (w - 1))) = v.
Proof.
  intros Hw Hv. rewrite <- flip_sign by done.
  rewrite Z.lxor_assoc, Z.lxor_nilpotent, Z.lxor_0_r, as_i_as_u by done. by apply as_i_id.
Qed.

Lemma shifted_digits w n v : 1 ≤ w → w = 8 * Z.of_nat n → is_i w v →
  be_value 8 (be_digits 8 n (v + 2 ^ (w - 1))) = v + 2 ^ (w - 1).
Proof.
  intros Hw Hn [H1 H2]. rewrite be_value_digits by lia. rewrite <- Hn.
  pose proof (pow2_split w Hw). apply as_u_id. unfold is_u. lia.
Qed.

(** C40. The sortable encodings of an [i32] and of an [i64] write exactly their
    four or eight bytes, decode to the integer they came from, and compare
    byte-wise exactly as the integers compare, negative ones included. *)
Theorem sortable_bytes_roundtrip_and_order (v1 v2 w1 w2 : Z) (res : list Z) :
  is_i 32 v1 → is_i 32 v2 → is_i 64 w1 → is_i 64 w2 → 8 ≤ vlen res →
  (∃ e1 e2, int2sortable_bytes v1 res = Ok (e1 ++ drop 4 res) ∧
            int2sortable_bytes v2 res = Ok (e2 ++ drop 4 res) ∧
            length e1 = 4%nat ∧ sortable_bytes2int e1 = Ok v1 ∧
            str_leb e1 e2 = (v1 <=? v2)) ∧
  (∃ e1 e2, long2sortable_bytes w1 res = Ok (e1 ++ drop 8 res) ∧
            long2sortable_bytes w2 res = Ok (e2 ++ drop 8 res) ∧
            length e1 = 8%nat ∧ sortable_bytes2long e1 = Ok w1 ∧
            str_leb e1 e2 = (w1 <=? w2)).
Proof.
  intros Hv1 Hv2 Hw1 Hw2 Hr. split.
  - exists (be_digits 8 4 (v1 + 2 ^ 31)), (be_digits 8 4 (v2 + 2 ^ 31)).
    rewrite !int2sortable_bytes_eq by (done || lia).
    split_and!; try done.
    + cbn [be_digits]. rewrite sortable_bytes2int_eq by (apply (be_digits_range 8 4); lia).
      pose proof (shifted_digits 32 4 v1 ltac:(lia) eq_refl Hv1) as He. cbn [be_digits] in He.
      change (2 ^ (32 - 1)) with (2 ^ 31) in He. rewrite He. f_equal. by apply (unflip_sign 32 v1).
    + rewrite str_leb_be_value by (done || by apply be_digits_range).
      rewrite !(shifted_digits 32 4) by (done || lia). split_cmp; done.
  - exists (be_digits 8 8 (w1 + 2 ^ 63)), (be_digits 8 8 (w2 + 2 ^ 63)).
    rewrite !long2sortable_bytes_eq by (done || lia).
    split_and!; try done.
    + cbn [be_digits]. rewrite sortable_bytes2long_eq by (apply (be_digits_range 8 8); lia).
      pose proof (shifted_digits 64 8 w1 ltac:(lia) eq_refl Hw1) as He. cbn [be_digits] in He.
      change (2 ^ (64 - 1)) with (2 ^ 63) in He. rewrite He. f_equal. by apply (unflip_sign 64 w1).
    + rewrite str_leb_be_value by (done || by apply be_digits_range).
      rewrite !(shifted_digits 64 8) by (done || lia). split_cmp; done.
Qed.

Lemma sortable_bytes_witness :
  let res := [9; 9; 9; 9; 9; 9; 9; 9; 7] in
  (∃ e1 e2, int2sortable_bytes (-5) res = Ok (e1 ++ drop 4 res) ∧
            int2sortable_bytes 3 res = Ok (e2 ++ drop 4 res) ∧
            length e1 = 4%nat ∧ sortable_bytes2int e1 = Ok (-5) ∧
            str_leb e1 e2 = (-5 <=? 3)) ∧
  (∃ e1 e2, long2sortable_bytes (2 ^ 40) res = Ok (e1 ++ drop 8 res) ∧
            long2sortable_bytes (- 2 ^ 63) res = Ok (e2 ++ drop 8 res) ∧
            length e1 = 8%nat ∧ sortable_bytes2long e1 = Ok (2 ^ 40) ∧
            str_leb e1 e2 = (2 ^ 40 <=? - 2 ^ 63)).
Proof.
  intros res. apply sortable_bytes_roundtrip_and_order; unfold is_i, vlen; simpl; lia.
Defined.

(** * Greatest common divisor *)

(** [x] is the odd number [q] followed by [k] zero bits. *)
Definition odd_part (x q k : Z) : Prop := 0 ≤ k ∧ 0 < q ∧ Z.Odd q ∧ x = q * 2 ^ k.

Lemma pos_ctz_spec p : ∃ q, odd_part (Z.pos p) q (pos_ctz p).
Proof.
  induction p as [p _|p (q & Hk & Hq & Ho & He)|]; cbn [pos_ctz].
  - exists (Z.pos p~1). repeat split; try lia. exists (Z.pos p). lia.
  - exists q. repeat split; try lia; [done|].
    rewrite Z.pow_add_r by lia. lia.
  - exists 1. repeat split; try lia. by exists 0.
Qed.

Lemma trailing_zeros_spec w x : is_u w x → 0 < x → ∃ q, odd_part x q (trailing_zeros w x).
Proof.
  intros Hx Hp. unfold trailing_zeros. rewrite as_u_id by done.
  destruct x as [|p|p]; [lia| |lia]. apply pos_ctz_spec.
Qed.

Lemma odd_part_unique x q k q' k' : odd_part x q k → odd_part x q' k' → q = q' ∧ k = k'.
Proof.
  assert (Haux : ∀ q k q' k', odd_part x q k → odd_part x q' k' → k ≤ k' → q = q' ∧ k = k').
  { intros q0 k0 q0' k0' (Hk & Hq & [m Ho] & He) (Hk' & Hq' & Ho' & He') Hle.
    rewrite He in He'. replace k0' with (k0 + (k0' - k0)) in He' by lia.
    rewrite Z.pow_add_r in He' by lia. pose proof (pow2_pos k0 Hk).
    assert (q0 = q0' * 2 ^ (k0' - k0)) as Hqq by nia.
    destruct (decide (k0' = k0)) as [->|Hne].
    - rewrite Z.sub_diag in Hqq. lia.
    - replace (k0' - k0) with (Z.succ (k0' - k0 - 1)) in Hqq by lia.
      rewrite Z.pow_succ_r in Hqq by lia. lia. }
  intros H1 H2. destruct (Z.le_ge_cases k k'); [by apply Haux|].
  destruct (Haux q' k' q k) as [-> ->]; done.
Qed.

Lemma odd_part_lor a b qa ka qb kb :
  odd_part a qa ka → odd_part b qb kb → ∃ q, odd_part (Z.lor a b) q (Z.min ka kb).
Proof.
  assert (Haux : ∀ a b qa ka qb kb, odd_part a qa ka → odd_part b qb kb → ka ≤ kb →
    ∃ q, odd_part (Z.lor a b) q (Z.min ka kb)).
  { intros ? ? qa0 ka0 qb0 kb0 (Hk & Hq & Ho & ->) (Hk' & Hq' & Ho' & ->) Hle.
    exists (Z.lor qa0 (Z.shiftl qb0 (kb0 - ka0))). rewrite Z.min_l by done.
    repeat split; [done| | |].
    - assert (Z.lor qa0 (Z.shiftl qb0 (kb0 - ka0)) ≠ 0) by (rewrite Z.lor_eq_0_iff; lia).
      assert (0 ≤ Z.lor qa0 (Z.shiftl qb0 (kb0 - ka0)))
        by (apply Z.lor_nonneg; rewrite Z.shiftl_nonneg; lia). lia.
    - apply Z.odd_spec. apply Z.odd_spec in Ho.
      rewrite <- Z.bit0_odd in *. rewrite Z.lor_spec, Ho. done.
    - rewrite <- !Z.shiftl_mul_pow2 by lia. rewrite Z.shiftl_lor, Z.shiftl_shiftl by lia.
      do 2 f_equal. lia. }
  intros Ha Hb. destruct (Z.le_ge_cases ka kb); [by eapply Haux|].
  rewrite Z.lor_comm, Z.min_comm. by eapply Haux.
Qed.

Lemma gcd_odd_double a q : Z.Odd a → Z.gcd a (2 * q) = Z.gcd a q.
Proof.
  intros Ho. apply Z.divide_antisym_nonneg; try apply Z.gcd_nonneg.
  - apply Z.gcd_greatest; [apply Z.gcd_divide_l|].
    apply Z.gauss with 2; [apply Z.gcd_divide_r|].
    set (d := Z.gcd a (2 * q)). pose proof (Z.gcd_nonneg d 2).
    assert (Z.gcd d 2 ≤ 2) by (apply Z.divide_pos_le; [lia|apply Z.gcd_divide_r]).
    assert (Z.gcd d 2 ≠ 0) by (rewrite Z.gcd_eq_0; lia).
    assert (Z.gcd d 2 ≠ 2); [|lia]. intros E.
    assert ((2 | a)) as [z Hz]; [|destruct Ho; lia].
    transitivity d; [rewrite <- E; apply Z.gcd_divide_l|apply Z.gcd_divide_l].
  - apply Z.gcd_greatest; [apply Z.gcd_divide_l|].
    transitivity q; [apply Z.gcd_divide_r|apply Z.divide_factor_r].
Qed.

Lemma gcd_odd_pow2 a q k : 0 ≤ k → Z.Odd a → Z.gcd a (q * 2 ^ k) = Z.gcd a q.
Proof.
  intros Hk Ho. pattern k. apply natlike_ind; [by rewrite Z.pow_0_r, Z.mul_1_r| |done].
  intros n Hn IH. rewrite Z.pow_succ_r by done.
  replace (q * (2 * 2 ^ n)) with (2 * (q * 2 ^ n)) by lia. by rewrite gcd_odd_double.
Qed.

(** Shifting out the trailing zeros leaves the odd part. *)
Lemma shift_odd_part x : 0 < x → is_i 64 x →
  odd_part x (unsigned_shift 64 x (trailing_zeros 64 x)) (trailing_zeros 64 x).
Proof.
  intros Hp Hx. destruct (trailing_zeros_spec 64 x) as [q Hq]; [|done|].
  { destruct Hx. unfold is_u. lia. }
  assert (unsigned_shift 64 x (trailing_zeros 64 x) = q) as ->; [|done].
  destruct Hq as (Hk & Hq & _ & He).
  rewrite unsigned_shift_nonneg by (done || lia). rewrite Z.shiftr_div_pow2 by done.
  rewrite He at 1. apply Z.div_mul. pose proof (pow2_pos _ Hk). lia.
Qed.

Lemma odd_part_le x q k : odd_part x q k → q ≤ x.
Proof. intros (Hk & Hq & _ & ->). pose proof (pow2_pos k Hk). nia. Qed.

Lemma odd_part_even x q k : odd_part x q k → Z.Even x → 2 * q ≤ x.
Proof.
  intros (Hk & Hq & Ho & ->) He. destruct (decide (k = 0)) as [->|].
  - rewrite Z.pow_0_r, Z.mul_1_r in He. destruct (Z.Even_Odd_False q); done.
  - pose proof (pow2_pos (k - 1) ltac:(lia)). rewrite (pow2_split k) by lia. nia.
Qed.

(** One round halves the product of the odd parts at least, so the loop ends. *)
Lemma gcd_loop_spec f : ∀ a b qb kb,
  0 < a < 2 ^ 63 → 0 < b < 2 ^ 63 → Z.Odd a → odd_part b qb kb → a * qb < 2 ^ Z.of_nat (S f) →
  gcd_loop (S f) a b = Ok (Z.gcd a b).
Proof.
  induction f as [|f IH]; intros a b qb kb Ha Hb Ho Hq Hp.
  all: cbn [gcd_loop].
  all: pose proof (shift_odd_part b ltac:(lia) ltac:(unfold is_i; simpl; lia)) as Hs.
  all: destruct (odd_part_unique _ _ _ _ _ Hs Hq) as [-> _]; clear Hs.
  all: assert (Z.gcd a b = Z.gcd a qb) as -> by
      (destruct Hq as (? & ? & ? & ->); by apply gcd_odd_pow2).
  all: pose proof (odd_part_le _ _ _ Hq); destruct Hq as (_ & Hqb & Hoq & _).
  all: replace (a =? - 2 ^ 63) with false by (symmetry; apply Z.eqb_neq; lia); rewrite orb_false_r.
  all: destruct (Z.eqb_spec a qb) as [->|Hne]; [by rewrite Z.gcd_diag, Z.abs_eq by lia|].
  { change (2 ^ Z.of_nat 1) with 2 in Hp. nia. }
  set (lo := Z.min a qb). set (hi := Z.max a qb).
  assert ((if qb <? a then (qb, a) else (a, qb)) = (lo, hi)) as ->.
  { unfold lo, hi. split_cmp; f_equal; lia. }
  assert (Z.gcd a qb = Z.gcd lo (hi - lo)) as ->.
  { rewrite Z.gcd_sub_diag_r. unfold lo, hi.
    destruct (Z.le_ge_cases a qb); [by rewrite Z.min_l, Z.max_r|].
    rewrite Z.min_r, Z.max_l by done. apply Z.gcd_comm. }
  destruct (Z.eqb_spec lo 1) as [->|Hlo]; [by rewrite Z.gcd_1_l|].
  assert (Z.Odd lo ∧ Z.Odd hi) as [Hol [h Hoh]] by
    (unfold lo, hi; destruct (Z.le_ge_cases a qb);
     rewrite ?Z.min_l, ?Z.max_r, ?Z.min_r, ?Z.max_l by done; done).
  assert (lo * hi = a * qb) as Hlh by (unfold lo, hi; destruct (Z.le_ge_cases a qb); nia).
  assert (0 < lo < 2 ^ 63 ∧ 0 < hi - lo < 2 ^ 63) as [? ?] by (unfold lo, hi; lia).
  rewrite as_i_id by (unfold is_i; lia).
  destruct (trailing_zeros_spec 64 (hi - lo)) as [q Hq]; [unfold is_u; lia|lia|].
  eapply IH; [done|done|done|exact Hq|].
  assert (Z.Even (hi - lo)) as He by (destruct Hol as [l ->]; exists (h - l); lia).
  pose proof (odd_part_even _ _ _ Hq He).
  rewrite (Nat2Z.inj_succ (S f)), Z.pow_succ_r in Hp by lia. nia.
Qed.

Lemma gcd_factor qa ka qb kb : 0 ≤ ka → 0 ≤ kb → Z.Odd qa → Z.Odd qb →
  Z.gcd (qa * 2 ^ ka) (qb * 2 ^ kb) = Z.gcd qa qb * 2 ^ Z.min ka kb.
Proof.
  assert (Haux : ∀ qa ka qb kb, 0 ≤ ka → ka ≤ kb → Z.Odd qa →
    Z.gcd (qa * 2 ^ ka) (qb * 2 ^ kb) = Z.gcd qa qb * 2 ^ Z.min ka kb).
  { intros qa0 ka0 qb0 kb0 Hk Hle Ho. rewrite Z.min_l by done.
    replace kb0 with ((kb0 - ka0) + ka0) by lia. rewrite Z.pow_add_r by lia.
    rewrite Z.mul_assoc, Z.gcd_mul_mono_r. rewrite Z.abs_eq by (apply Z.pow_nonneg; lia).
    by rewrite gcd_odd_pow2 by (done || lia). }
  intros. destruct (Z.le_ge_cases ka kb); [by apply Haux|].
  rewrite Z.gcd_comm, Z.min_comm, (Z.gcd_comm qa). by apply Haux.
Qed.

(** [gcd] ends within its fuel for every pair of [i64] other than
    [i64::MIN] and answers the greatest common divisor, also for zero and for
    negative arguments. *)
Theorem gcd_correct (a b : Z) :
  - 2 ^ 63 < a < 2 ^ 63 → - 2 ^ 63 < b < 2 ^ 63 → gcd a b = Ok (Z.gcd a b).
Proof.
  intros Ha Hb. rewrite <- (Z.gcd_abs_l a b), <- (Z.gcd_abs_r _ b). unfold gcd.
  rewrite !as_i_id by (unfold is_i; lia).
  assert (Hx : 0 ≤ Z.abs a < 2 ^ 63) by lia. assert (Hy : 0 ≤ Z.abs b < 2 ^ 63) by lia.
  generalize dependent (Z.abs a). generalize dependent (Z.abs b). clear. intros y Hy x Hx.
  destruct (Z.eqb_spec x 0) as [->|]; [by rewrite Z.gcd_0_l, Z.abs_eq by lia|].
  destruct (Z.eqb_spec y 0) as [->|]; [by rewrite Z.gcd_0_r, Z.abs_eq by lia|].
  pose proof (shift_odd_part x ltac:(lia) ltac:(unfold is_i; lia)) as Hox.
  set (qx := unsigned_shift 64 x _) in *. set (kx := trailing_zeros 64 x) in *.
  destruct (trailing_zeros_spec 64 y) as [qy Hoy]; [unfold is_u; lia|lia|].
  set (ky := trailing_zeros 64 y) in *.
  destruct (odd_part_lor _ _ _ _ _ _ Hox Hoy) as [q Hlor].
  pose proof (odd_part_le _ _ _ Hox). pose proof (odd_part_le _ _ _ Hoy).
  destruct (trailing_zeros_spec 64 (Z.lor x y)) as [q' Hlor'];
    [apply (is_u_lor 64); unfold is_u; lia|destruct Hlor as (? & ? & _ & ->); nia|].
  destruct (odd_part_unique _ _ _ _ _ Hlor Hlor') as [_ <-].
  clearbody qx kx ky. destruct Hox as (? & ? & Ho & ->). pose proof Hoy as (? & ? & Ho' & ->).
  change 128%nat with (S 127).
  rewrite (gcd_loop_spec 127 qx (qy * 2 ^ ky) qy ky) by
    (done || lia || (change (2 ^ Z.of_nat 128) with (2 ^ 64 * 2 ^ 64); nia)).
  cbn [mbind result_bind]. f_equal.
  rewrite gcd_odd_pow2, gcd_factor by done. unfold shl_i. rewrite Z.shiftl_mul_pow2 by lia.
  apply as_i_id; [lia|]. rewrite <- gcd_factor by done.
  assert (Z.gcd (qx * 2 ^ kx) (qy * 2 ^ ky) ≤ qx * 2 ^ kx)
    by (apply Z.divide_pos_le; [lia|apply Z.gcd_divide_l]).
  pose proof (Z.gcd_nonneg (qx * 2 ^ kx) (qy * 2 ^ ky)). unfold is_i. lia.
Qed.

Lemma gcd_witness : gcd (-(2 ^ 62)) (3 * 2 ^ 40) = Ok (Z.gcd (-(2 ^ 62)) (3 * 2 ^ 40)).
Proof. apply gcd_correct; lia. Defined.

(** * Base 36 *)

(** The digit of a character, and the number a string of digits denotes. *)
Definition digit36 (c : Z) : Z := if c <? 58 then c - 48 else c - 87.
Definition value36 (s : list Z) : Z := foldl (fun acc c => acc * 36 + digit36 c) 0 s.

Lemma base36_digit d : 0 ≤ d < 36 →
  ∃ c, vget base36_digits d = Ok c ∧ digit36 c = d ∧ (c = 48 ↔ d = 0).
Proof.
  intros Hd.
  assert (Hall : Forall (fun d => ∃ c, vget base36_digits d = Ok c ∧ digit36 c = d ∧ (c = 48 ↔ d = 0))
    (seqZ 0 36)).
  { repeat (apply Forall_cons; [eexists; split; [reflexivity|split; [reflexivity|lia]]|]).
    apply Forall_nil. }
  rewrite List.Forall_forall in Hall. apply Hall. apply list_elem_of_In, elem_of_seqZ. lia.
Qed.

(** [acc] holds the low digits, least significant first. *)
Lemma to_base36_loop_spec f : ∀ v acc, 0 ≤ v < 36 ^ Z.of_nat f → (0 < f)%nat →
  ∃ s, to_base36_loop f v acc = Ok (s ++ reverse acc) ∧ value36 s = v ∧
       0 < vlen s ≤ Z.of_nat f ∧ (v ≠ 0 → head s ≠ Some 48).
Proof.
  induction f as [|f IH]; intros v acc Hv Hf; [lia|].
  rewrite Nat2Z.inj_succ, Z.pow_succ_r in Hv by lia.
  cbn [to_base36_loop].
  destruct (base36_digit (v mod 36)) as (c & -> & Hc & Hc0); [apply Z.mod_pos_bound; lia|].
  cbn [mbind result_bind]. pose proof (Z.div_mod v 36 ltac:(lia)) as Hdm.
  pose proof (Z.mod_pos_bound v 36 ltac:(lia)).
  destruct (Z.eqb_spec (v / 36) 0) as [Hz|Hnz].
  - exists [c]. rewrite reverse_snoc. split_and!; try done.
    + unfold value36. simpl. lia.
    + rewrite vlen_cons, vlen_nil. lia.
    + simpl. intros Hv0 [= ->]. lia.
  - destruct (IH (v / 36) (acc ++ [c])) as (s & -> & Hs & Hl & Hh).
    { split; [apply Z.div_pos; lia|]. apply Z.div_lt_upper_bound; lia. }
    { destruct f; [simpl in Hv|]; lia. }
    exists (s ++ [c]). rewrite reverse_snoc, <- app_assoc. split_and!; try done.
    + unfold value36 in *. rewrite foldl_app, Hs. simpl. lia.
    + unfold vlen in *. rewrite length_app. simpl. lia.
    + unfold vlen in *. rewrite length_app. simpl. lia.
    + intros _. destruct s; [unfold vlen in Hl; simpl in Hl; lia|]. apply Hh. lia.
Qed.

(** Every [u64] has a base-36 text of one to thirteen digits that denotes
    it and has no leading zero; so two different numbers (the generations in
    the names of segment files) never share a text. *)
Theorem to_base36_correct (v : Z) :
  is_u 64 v →
  ∃ s, to_base36 v = Ok s ∧ value36 s = v ∧ 1 ≤ vlen s ≤ 13 ∧ (v ≠ 0 → head s ≠ Some 48) ∧
       (∀ v', is_u 64 v' → to_base36 v' = Ok s → v' = v).
Proof.
  assert (Hspec : ∀ u, is_u 64 u → ∃ s, to_base36 u = Ok s ∧ value36 s = u ∧ 0 < vlen s ≤ 13 ∧
    (u ≠ 0 → head s ≠ Some 48)).
  { intros u Hu. destruct (to_base36_loop_spec 13 u []) as (s & Hs & ?).
    { unfold is_u in Hu. change (36 ^ Z.of_nat 13) with 170581728179578208256.
      change (2 ^ 64) with 18446744073709551616 in Hu. lia. }
    { lia. }
    exists s. rewrite reverse_nil, app_nil_r in Hs. done. }
  intros Hv. destruct (Hspec v Hv) as (s & Hs & Hval & Hl & Hh).
  exists s. split_and!; try done; try lia.
  intros v' Hv' Hs'. destruct (Hspec v' Hv') as (s' & Hs2 & Hval' & _).
  rewrite Hs' in Hs2. injection Hs2 as <-. congruence.
Qed.

Lemma to_base36_witness :
  ∃ s, to_base36 1295 = Ok s ∧ value36 s = 1295 ∧ 1 ≤ vlen s ≤ 13 ∧ (1295 ≠ 0 → head s ≠ Some 48) ∧
       (∀ v', is_u 64 v' → to_base36 v' = Ok s → v' = 1295).
Proof. apply to_base36_correct. unfold is_u. lia. Defined.

(** * Floats *)

Lemma sortable_bits_neg w x : 1 ≤ w → is_i w x → x < 0 →
  Z.lxor x (Z.land (shr_i x (w - 1)) (Z.ones (w - 1))) = - 2 ^ (w - 1) - 1 - x.
Proof.
  intros Hw Hx Hn. assert (Hm1 : shr_i x (w - 1) = -1).
  { unfold shr_i. rewrite Z.shiftr_div_pow2 by lia. destruct Hx.
    symmetry. apply Z.div_unique with (x + 2 ^ (w - 1)); lia. }
  rewrite Hm1, Z.land_m1_l. unfold is_i in Hx.
  replace (- 2 ^ (w - 1) - 1 - x) with (Z.lnot (x + 2 ^ (w - 1))) by (unfold Z.lnot; lia).
  apply Z.bits_inj'. intros i Hi. rewrite Z.lxor_spec, tb_ones, tb_lnot by lia.
  rewrite <- (flip_sign w x) by (done || lia).
  rewrite Z.lxor_spec, tb_as_u, tb_pow2 by lia.
  split_cmp; rewrite ?xorb_false_r, ?xorb_true_r; try done.
  - subst i. rewrite is_i_sign by done. simpl. destruct (Z.ltb_spec x 0); [done|lia].
  - simpl. rewrite (tb_is_i w x i) by (done || lia). destruct (Z.ltb_spec x 0); [done|lia].
Qed.

(** The total order of IEEE 754 on bit patterns of [w] bits: negative patterns
    (sign bit set) come first, by decreasing magnitude, then the others. *)
Definition ieee_neg (w x : Z) : bool := 2 ^ (w - 1) <=? x.
Definition ieee_mag (w x : Z) : Z := x mod 2 ^ (w - 1).
Definition ieee_ltb (w x y : Z) : bool :=
  match ieee_neg w x, ieee_neg w y with
  | true, false => true
  | false, true => false
  | false, false => ieee_mag w x <? ieee_mag w y
  | true, true => ieee_mag w y <? ieee_mag w x
  end.

(** The key the source computes, at either width. *)
Definition sortable_bits (w x : Z) : Z :=
  Z.lxor (as_i w x) (Z.land (shr_i (as_i w x) (w - 1)) (Z.ones (w - 1))).

Lemma sortable_bits_val w x : 1 ≤ w → is_u w x →
  sortable_bits w x = if ieee_neg w x then - ieee_mag w x - 1 else ieee_mag w x.
Proof.
  intros Hw [H1 H2]. pose proof (pow2_split w Hw). unfold sortable_bits, ieee_neg, ieee_mag.
  destruct (Z.leb_spec (2 ^ (w - 1)) x).
  - assert (as_i w x = x - 2 ^ w) as ->.
    { rewrite <- (as_i_id w (x - 2 ^ w)) by (unfold is_i; lia). apply as_i_congr.
      replace x with (x - 2 ^ w + 1 * 2 ^ w) at 1 by lia. apply Z_mod_plus_full. }
    rewrite sortable_bits_neg by (unfold is_i; lia).
    replace (x mod 2 ^ (w - 1)) with (x - 2 ^ (w - 1)); [lia|].
    apply (Z.mod_unique _ _ 1); lia.
  - rewrite as_i_id by (unfold is_i; lia). unfold shr_i.
    rewrite Z.shiftr_div_pow2, Z.div_small, Z.land_0_l, Z.lxor_0_r by lia.
    by rewrite Z.mod_small.
Qed.

Lemma sortable_bits_order w x y : 1 ≤ w → is_u w x → is_u w y →
  (sortable_bits w x <? sortable_bits w y) = ieee_ltb w x y.
Proof.
  intros Hw Hx Hy. rewrite !sortable_bits_val by done. unfold ieee_ltb, ieee_mag.
  pose proof (Z.mod_pos_bound x (2 ^ (w - 1)) ltac:(apply pow2_pos; lia)).
  pose proof (Z.mod_pos_bound y (2 ^ (w - 1)) ltac:(apply pow2_pos; lia)).
  destruct (ieee_neg w x), (ieee_neg w y); split_cmp; done.
Qed.

(** The key of a key is the original, as the shifted sign is unchanged. *)
Lemma sortable_bits_involutive w x : 1 ≤ w → is_u w x →
  as_u w (Z.lxor (sortable_bits w x) (Z.land (shr_i (sortable_bits w x) (w - 1)) (Z.ones (w - 1)))) = x.
Proof.
  intros Hw [H1 H2]. pose proof (pow2_split w Hw).
  pose proof (sortable_bits_val w x Hw ltac:(done)) as Hs.
  unfold ieee_neg, ieee_mag in Hs.
  pose proof (Z.mod_pos_bound x (2 ^ (w - 1)) ltac:(apply pow2_pos; lia)).
  destruct (Z.leb_spec (2 ^ (w - 1)) x).
  - rewrite sortable_bits_neg by (rewrite ?Hs; unfold is_i; lia).
    replace (x mod 2 ^ (w - 1)) with (x - 2 ^ (w - 1)) in * by (apply (Z.mod_unique _ _ 1); lia).
    rewrite Hs. unfold as_u. symmetry. apply (Z.mod_unique _ _ (-1)); lia.
  - rewrite Z.mod_small in Hs by lia. rewrite Hs. unfold shr_i.
    rewrite Z.shiftr_div_pow2, Z.div_small, Z.land_0_l, Z.lxor_0_r by lia.
    by apply as_u_id.
Qed.

(** The sortable integers of [f64] and [f32] bit patterns are ordered as
    IEEE 754 orders the floats (so [-0.0] before [+0.0], negative values by
    decreasing magnitude), and the inverse functions give the pattern back. *)
Theorem sortable_floats_order_and_roundtrip (x y a b : Z) :
  is_u 64 x → is_u 64 y → is_u 32 a → is_u 32 b →
  (double2sortable_long x <? double2sortable_long y) = ieee_ltb 64 x y ∧
  sortable_long2double (double2sortable_long x) = x ∧
  (float2sortable_int a <? float2sortable_int b) = ieee_ltb 32 a b ∧
  sortable_int2float (float2sortable_int a) = a.
Proof.
  intros Hx Hy Ha Hb. split_and!.
  - by apply (sortable_bits_order 64).
  - by apply (sortable_bits_involutive 64).
  - by apply (sortable_bits_order 32).
  - by apply (sortable_bits_involutive 32).
Qed.

Lemma sortable_floats_witness :
  (double2sortable_long 0xC000000000000000 <? double2sortable_long 0xBFF0000000000000) =
    ieee_ltb 64 0xC000000000000000 0xBFF0000000000000 ∧
  sortable_long2double (double2sortable_long 0xC000000000000000) = 0xC000000000000000 ∧
  (float2sortable_int 0x80000000 <? float2sortable_int 0) = ieee_ltb 32 0x80000000 0 ∧
  sortable_int2float (float2sortable_int 0x80000000) = 0x80000000.
Proof. apply sortable_floats_order_and_roundtrip; vm_compute; split; congruence. Defined.

(** ** Norms in one byte *)

Lemma float_to_byte315_nonneg f : 0 ≤ f < 2 ^ 31 →
  SmallFloat.float_to_byte315 f =
    if f =? 0 then 0 else Z.max 1 (Z.min 255 (f / 2 ^ 21 - 384)).
Proof.
  intros Hf. unfold SmallFloat.float_to_byte315, shr_i.
  rewrite as_i_id by (unfold is_i; lia).
  change (shl_i 32 (63 - 15) 3) with 384. rewrite Z.shiftr_div_pow2 by lia.
  change (24 - 3) with 21.
  pose proof (Z.div_le_mono 0 f (2 ^ 21) ltac:(lia) ltac:(lia)).
  split_cmp; rewrite ?as_u_id; try unfold is_u; try subst f; rewrite ?Z.div_0_l in * by lia; lia.
Qed.

Lemma byte315_to_float_pos b : 1 ≤ b < 256 →
  SmallFloat.byte315_to_float b = (b + 384) * 2 ^ 21.
Proof.
  intros Hb. unfold SmallFloat.byte315_to_float. destruct (Z.eqb_spec b 0); [lia|].
  change (24 - 3) with 21. change (Z.shiftl (63 - 15) 24) with (384 * 2 ^ 21).
  rewrite Z.shiftl_mul_pow2 by lia. rewrite (as_u_id 32 (b * 2 ^ 21)), as_u_id; unfold is_u; lia.
Qed.

(** The one-byte norm encoding: every byte decodes to a float that encodes
    back to it; on non-negative floats the encoding never decreases; and a
    float above the smallest norm is rounded down, to the largest norm that
    does not exceed it. *)
Theorem small_float_roundtrip_and_rounding (b f g : Z) :
  is_u 8 b → 0 ≤ f ≤ g → g < 2 ^ 31 →
  SmallFloat.float_to_byte315 (SmallFloat.byte315_to_float b) = b ∧
  SmallFloat.float_to_byte315 f ≤ SmallFloat.float_to_byte315 g ∧
  (SmallFloat.byte315_to_float 1 ≤ f →
   SmallFloat.byte315_to_float (SmallFloat.float_to_byte315 f) ≤ f ∧
   (SmallFloat.byte315_to_float b ≤ f →
    SmallFloat.byte315_to_float b ≤ SmallFloat.byte315_to_float (SmallFloat.float_to_byte315 f))).
Proof.
  unfold is_u. intros Hb Hf Hg. split_and!.
  - destruct (decide (b = 0)) as [->|]; [done|].
    rewrite byte315_to_float_pos, float_to_byte315_nonneg by lia.
    rewrite Z.div_mul by lia. split_cmp.
  - rewrite !float_to_byte315_nonneg by lia.
    pose proof (Z.div_le_mono f g (2 ^ 21) ltac:(lia) ltac:(lia)). split_cmp.
  - rewrite byte315_to_float_pos by lia. intros H1.
    rewrite float_to_byte315_nonneg by lia. destruct (Z.eqb_spec f 0); [lia|].
    pose proof (Z.div_mod f (2 ^ 21) ltac:(lia)).
    pose proof (Z.mod_pos_bound f (2 ^ 21) ltac:(lia)).
    rewrite byte315_to_float_pos by lia. split; [lia|]. intros H3.
    destruct (decide (b = 0)) as [->|]; [change (SmallFloat.byte315_to_float 0) with 0; lia|].
    rewrite byte315_to_float_pos in * by lia. lia.
Qed.

Lemma small_float_witness :
  SmallFloat.float_to_byte315 (SmallFloat.byte315_to_float 124) = 124 ∧
  SmallFloat.float_to_byte315 0x3F800000 ≤ SmallFloat.float_to_byte315 0x40000000 ∧
  (SmallFloat.byte315_to_float 1 ≤ 0x3F800000 →
   SmallFloat.byte315_to_float (SmallFloat.float_to_byte315 0x3F800000) ≤ 0x3F800000 ∧
   (SmallFloat.byte315_to_float 124 ≤ 0x3F800000 →
    SmallFloat.byte315_to_float 124
      ≤ SmallFloat.byte315_to_float (SmallFloat.float_to_byte315 0x3F800000))).
Proof. apply small_float_roundtrip_and_rounding; unfold is_u; lia. Defined.
