(* ===== verification/Float32.v ===== *)
(** The [f32] arithmetic of the source: a value is a [spec_float] of 24 bits of
    precision, with the IEEE 754 operations of the Standard Library's
    specification. *)

From S2P Require Import Prelude.
From Stdlib Require Import Floats.SpecFloat.
Open Scope Z_scope.

Definition f32 : Type := spec_float.
Definition f32_add : f32 → f32 → f32 := SFadd 24 128.
Definition f32_sub : f32 → f32 → f32 := SFsub 24 128.
Definition f32_mul : f32 → f32 → f32 := SFmul 24 128.
Definition f32_div : f32 → f32 → f32 := SFdiv 24 128.
Definition f32_lt : f32 → f32 → bool := SFltb.
Definition f32_of_Z (z : Z) : f32 := binary_normalize 24 128 z 0 false.
Definition f32_0 : f32 := S754_zero false.
Definition f32_1 : f32 := f32_of_Z 1.
Definition f32_neg_infinity : f32 := S754_infinity true.
(** [f32::max]: the other operand when one is a NaN. *)
Definition f32_max (x y : f32) : f32 :=
  match x, y with
  | S754_nan, _ => y
  | _, S754_nan => x
  | _, _ => if SFltb x y then y else x
  end.
(** [f32::min]: likewise. *)
Definition f32_min (x y : f32) : f32 :=
  match x, y with
  | S754_nan, _ => y
  | _, S754_nan => x
  | _, _ => if SFltb y x then y else x
  end.
Definition f32_le : f32 → f32 → bool := SFleb.

(** [x as i32]: towards zero, saturating, and 0 for a NaN. *)
Definition f32_as_i32 (x : f32) : Z :=
  let clamp z := Z.max (- 2 ^ 31) (Z.min (2 ^ 31 - 1) z) in
  match x with
  | S754_zero _ | S754_nan => 0
  | S754_infinity s => if s then - 2 ^ 31 else 2 ^ 31 - 1
  | S754_finite s m e =>
    let z := if 0 <=? e then Zpos m * 2 ^ e else Zpos m / 2 ^ (- e) in
    clamp (if s then - z else z)
  end.

(** [x.ceil()] *)
Definition f32_ceil (x : f32) : f32 :=
  match x with
  | S754_finite s m e =>
    if 0 <=? e then x
    else binary_normalize 24 128 (if s then - (Zpos m / 2 ^ (- e)) else - (Zneg m / 2 ^ (- e))) 0 s
  | _ => x
  end.

(** [x as i64]: towards zero, saturating, and 0 for a NaN. *)
Definition f32_as_i64 (x : f32) : Z :=
  match x with
  | S754_zero _ | S754_nan => 0
  | S754_infinity s => if s then - 2 ^ 63 else 2 ^ 63 - 1
  | S754_finite s m e =>
    let z := if 0 <=? e then Zpos m * 2 ^ e else Zpos m / 2 ^ (- e) in
    Z.max (- 2 ^ 63) (Z.min (2 ^ 63 - 1) (if s then - z else z))
  end.

(** * Bit patterns *)

(** [f32::to_bits]: sign, eight bits of exponent, 23 of fraction. *)
Definition f32_to_bits (x : f32) : Z :=
  let sign (s : bool) := if s then 2 ^ 31 else 0 in
  as_u32 match x with
         | S754_zero s => sign s
         | S754_infinity s => sign s + 255 * 2 ^ 23
         | S754_nan => 0x7fc00000
         | S754_finite s m e =>
           if Zpos m <? 2 ^ 23 then sign s + Zpos m
           else sign s + (e + 150) * 2 ^ 23 + (Zpos m - 2 ^ 23)
         end.

(** [f32::from_bits] *)
Definition f32_from_bits (b : Z) : f32 :=
  let s := Z.testbit b 31 in
  let e := Z.land (Z.shiftr b 23) 255 in
  let m := Z.land b (2 ^ 23 - 1) in
  if e =? 255 then if m =? 0 then S754_infinity s else S754_nan
  else if e =? 0 then match m with Zpos m => S754_finite s m (-149) | _ => S754_zero s end
  else match m + 2 ^ 23 with Zpos m => S754_finite s m (e - 150) | _ => S754_nan end.

(** * The [f64] arithmetic *)

Definition f64 : Type := spec_float.
Definition f64_of_Z (z : Z) : f64 := binary_normalize 53 1024 z 0 false.
Definition f64_div : f64 → f64 → f64 := SFdiv 53 1024.
(** [x as f32] *)
Definition f64_as_f32 (x : f64) : f32 :=
  match x with
  | S754_finite s m e => binary_normalize 24 128 (if s then Zneg m else Zpos m) e s
  | _ => x
  end.

Example bits_of_numbers :
  map (fun x => f32_to_bits (f32_div (f32_of_Z x) (f32_of_Z 10))) [1; 15; -20] = [0x3dcccccd; 0x3fc00000; 0xc0000000] ∧
  map (fun x => f32_as_i64 (f32_from_bits x)) [0x3dcccccd; 0x42c80000; 0xc0e80000; 0x7f800000] = [0; 100; -7; 2 ^ 63 - 1] ∧
  map (fun x => f32_as_i32 (f32_ceil (f32_div (f32_of_Z x) (f32_of_Z 8)))) [0; 1; 8; 9; -9] = [0; 1; 1; 2; -1].
Proof. vm_compute. auto. Qed.
