(* ===== verification/DocIter.v ===== *)
(** Document iterators: the trait [DocIterator] of src/core/search/mod.rs, what
    it promises to its clients, and its simplest implementations. *)

From S2P Require Import Prelude.
From Stdlib Require Import Sorting.Sorted.

(** * The trait *)

(** [cost] is an estimate that only decides the order of the sub-iterators;
    [match_cost], an [f32], is left out. *)
Class DocIterator (It : Type) : Type := {
  doc_id : It → Z;
  next : It → result (Z * It);
  advance : It → Z → result (Z * It);
  cost : It → Z;
  matches : It → result (bool * It);
  support_two_phase : It → bool;
  approximate_next : It → result (Z * It);
  approximate_advance : It → Z → result (Z * It);
}.
#[global] Hint Mode DocIterator ! : typeclass_instances.

(** The trait's default methods. *)
Definition default_matches {It} (it : It) : result (bool * It) := Ok (true, it).

Section slow_advance.
Context {It : Type} `{DocIterator It}.

Fixpoint slow_advance_loop (fuel : nat) (doc target : Z) (it : It) : result (Z * It) :=
  if doc <? target then
    match fuel with
    | O => Diverge
    | S f => '(doc, it) ← next it; slow_advance_loop f doc target it
    end
  else Ok (doc, it).

Definition slow_advance (fuel : nat) (it : It) (target : Z) : result (Z * It) :=
  slow_advance_loop fuel (doc_id it) target it.
End slow_advance.

(** * What an iterator promises

    An iterator over a sorted list of documents is at [doc_id] and has
    [remaining] left.  The contract is stated once for a pair of stepping
    operations; the exact pair ([next], [advance]) and the approximate pair are
    its two uses. *)

Definition hd_doc (l : list Z) : Z := match l with [] => NO_MORE_DOCS | d :: _ => d end.

(** The documents from [target] on. *)
Definition docs_from (target : Z) (l : list Z) : list Z := filter (fun d => target ≤ d) l.

Class Steps {It : Type} (docid : It → Z) (nxt : It → result (Z * It))
    (adv : It → Z → result (Z * It)) : Type := {
  remaining : It → list Z;
  sound : It → Prop;
  sound_sorted it : sound it → StronglySorted Z.lt (docid it :: remaining it);
  sound_range it : sound it → Forall (fun d => d < NO_MORE_DOCS) (remaining it);
  step_next it : sound it → docid it ≠ NO_MORE_DOCS →
    ∃ it', nxt it = Ok (hd_doc (remaining it), it') ∧ sound it' ∧
           docid it' = hd_doc (remaining it) ∧ remaining it' = tail (remaining it);
  step_advance it target : sound it → docid it < target ≤ NO_MORE_DOCS →
    let rest := docs_from target (remaining it) in
    ∃ it', adv it target = Ok (hd_doc rest, it') ∧ sound it' ∧
           docid it' = hd_doc rest ∧ remaining it' = tail rest;
}.

Abbreviation Docs It := (Steps (It := It) doc_id next advance).
Abbreviation ApproxDocs It := (Steps (It := It) doc_id approximate_next approximate_advance).

(** ** Sequences of calls *)

Inductive call : Type := Next | Advance (target : Z).

(** The reference: a cursor on [cur] with the documents [rest] after it.  A call
    that the contract forbids has no answer. *)
Fixpoint replay (calls : list call) (cur : Z) (rest : list Z) : option (list Z) :=
  match calls with
  | [] => Some []
  | c :: calls =>
    let legal := match c with
                 | Next => negb (cur =? NO_MORE_DOCS)
                 | Advance t => (cur <? t) && (t <=? NO_MORE_DOCS)
                 end in
    let rest := match c with Next => rest | Advance t => docs_from t rest end in
    if legal then
      ds ← replay calls (hd_doc rest) (tail rest); Some (hd_doc rest :: ds)
    else None
  end.

(** The same calls on an iterator. *)
Fixpoint perform {It} (nxt : It → result (Z * It)) (adv : It → Z → result (Z * It))
    (calls : list call) (it : It) : result (list Z) :=
  match calls with
  | [] => Ok []
  | c :: calls =>
    '(d, it) ← match c with Next => nxt it | Advance t => adv it t end;
    ds ← perform nxt adv calls it; Ok (d :: ds)
  end.

Lemma steps_simulate {It docid nxt adv} `{HS : !@Steps It docid nxt adv} calls : ∀ it ds,
  sound it → replay calls (docid it) (remaining it) = Some ds → perform nxt adv calls it = Ok ds.
Proof.
  induction calls as [|c calls IH]; intros it ds Hs; cbn [replay perform]; [by intros [= <-]|].
  match goal with |- (if ?b then _ else _) = _ → _ => destruct b eqn:El end; [|done]. intros H.
  assert (∃ it', match c with Next => nxt it | Advance t => adv it t end
      = Ok (hd_doc (match c with Next => remaining it | Advance t => docs_from t (remaining it) end), it')
      ∧ sound it' ∧
      docid it' = hd_doc (match c with Next => remaining it | Advance t => docs_from t (remaining it) end) ∧
      remaining it' = tail (match c with Next => remaining it | Advance t => docs_from t (remaining it) end))
    as (it' & -> & Hs' & Hd & Hr).
  { destruct c as [|t].
    - apply step_next; [done|]. by apply negb_true_iff, Z.eqb_neq in El.
    - apply andb_true_iff in El as [H1%Z.ltb_lt H2%Z.leb_le]. by apply step_advance. }
  cbn [mbind result_bind]. rewrite <- Hd, <- Hr in H.
  destruct (replay calls (docid it') (remaining it')) as [ds'|] eqn:E; [|done].
  injection H as <-. by rewrite (IH it' ds' Hs' E), Hd.
Qed.

(** ** Sorted lists of documents *)

Lemma sorted_docs_from t x l :
  StronglySorted Z.lt (x :: l) → StronglySorted Z.lt (x :: docs_from t l).
Proof.
  intros Hs. apply StronglySorted_inv in Hs as [Hl Hx]. unfold docs_from.
  induction l as [|y l IH]; [by repeat constructor|].
  apply StronglySorted_inv in Hl as [Hl Hy]. apply Forall_cons_iff in Hx as [Hxy Hx].
  rewrite filter_cons. case_decide; [|by apply IH].
  specialize (IH Hl Hx). apply StronglySorted_inv in IH as [IH1 IH2].
  constructor; [constructor; [done|]|by constructor].
  apply List.Forall_forall. intros z Hz.
  apply list_elem_of_In, list_elem_of_filter in Hz as [_ Hz].
  rewrite List.Forall_forall in Hy. by apply Hy, list_elem_of_In.
Qed.

Lemma docs_from_all t l : Forall (fun d => t ≤ d) l → docs_from t l = l.
Proof.
  unfold docs_from. induction 1 as [|x l Hx Hl IH]; [done|].
  rewrite filter_cons, decide_True by done. by rewrite IH.
Qed.

Lemma docs_from_cons_lt t x l : x < t → docs_from t (x :: l) = docs_from t l.
Proof. intros. unfold docs_from. by rewrite filter_cons, decide_False by lia. Qed.

Lemma sorted_tail_gt x l : StronglySorted Z.lt (x :: l) → Forall (fun d => x + 1 ≤ d) l.
Proof.
  intros [_ Hx]%StronglySorted_inv. eapply Forall_impl; [|exact Hx]. simpl. intros. lia.
Qed.

Lemma hd_doc_sorted x l : StronglySorted Z.lt (x :: l) → x < NO_MORE_DOCS →
  x < hd_doc l ∧ StronglySorted Z.lt (hd_doc l :: tail l).
Proof.
  intros Hs Hx. destruct l as [|y l]; simpl; [split; [done|by repeat constructor]|].
  apply StronglySorted_inv in Hs as [Hs Hf]. apply Forall_cons_iff in Hf as [Hf _].
  split; [done|]. exact Hs.
Qed.

Lemma hd_doc_le l : Forall (fun d => d < NO_MORE_DOCS) l → hd_doc l ≤ NO_MORE_DOCS.
Proof. destruct 1; simpl; lia. Qed.

(** * EmptyDocIterator *)

Module EmptyDocIterator.
Record t : Type := mk { cur : Z }.
Definition default : t := mk (-1).
Definition next_impl (it : t) : result (Z * t) := Ok (NO_MORE_DOCS, mk NO_MORE_DOCS).
Definition advance_impl (it : t) (target : Z) : result (Z * t) := Ok (NO_MORE_DOCS, mk NO_MORE_DOCS).

#[global] Instance iterator : DocIterator t := {|
  doc_id := cur; next := next_impl; advance := advance_impl; cost _ := 0;
  matches := default_matches; support_two_phase _ := false;
  approximate_next := next_impl; approximate_advance := advance_impl;
|}.

#[global] Program Instance docs : Docs t := {| remaining _ := []; sound _ := True |}.
Next Obligation. by repeat constructor. Qed.
Next Obligation. constructor. Qed.
Next Obligation. eauto 10. Qed.
Next Obligation. eauto 10. Qed.
End EmptyDocIterator.

(** * AllDocsIterator (query/match_all_query.rs) *)

Module AllDocsIterator.
Record t : Type := mk { doc : Z; max_doc : Z }.

Definition new (max_doc : Z) : result t := _ ← check (0 <=? max_doc); Ok (mk (-1) max_doc).

Definition advance_impl (it : t) (target : Z) : result (Z * t) :=
  let d := if max_doc it <=? target then NO_MORE_DOCS else target in
  Ok (d, mk d (max_doc it)).
Definition next_impl (it : t) : result (Z * t) :=
  let target := as_i32 (doc it + 1) in advance_impl it target.

#[global] Instance iterator : DocIterator t := {|
  doc_id := doc; next := next_impl; advance := advance_impl; cost it := Z.max 1 (max_doc it);
  matches := default_matches; support_two_phase _ := false;
  approximate_next := next_impl; approximate_advance := advance_impl;
|}.
End AllDocsIterator.

(** * The iterator over a vector of documents ([MockDocIterator] of the tests of
    search/mod.rs) *)

Module VecDocIterator.
Record t : Type := mk { doc_ids : list Z; current_doc_id : Z; offset : Z }.

Definition new (ids : list Z) : t := mk ids (-1) (-1).

Definition next_impl (it : t) : result (Z * t) :=
  let offset := offset it + 1 in
  d ← (if vlen (doc_ids it) <=? as_u64 offset then Ok NO_MORE_DOCS
       else vget (doc_ids it) (as_u64 offset));
  Ok (d, mk (doc_ids it) d offset).

Fixpoint advance_loop (fuel : nat) (it : t) (target : Z) : result (Z * t) :=
  match fuel with
  | O => Diverge
  | S f =>
    '(doc_id, it) ← next_impl it;
    if target <=? doc_id then Ok (doc_id, it) else advance_loop f it target
  end.
(** One round per document and one for the end. *)
Definition advance_impl (it : t) (target : Z) : result (Z * t) :=
  advance_loop (S (length (doc_ids it))) it target.

#[global] Instance iterator : DocIterator t := {|
  doc_id := current_doc_id; next := next_impl; advance := advance_impl;
  cost it := vlen (doc_ids it);
  matches := default_matches; support_two_phase _ := false;
  approximate_next := next_impl; approximate_advance := advance_impl;
|}.
End VecDocIterator.

(** * The implementations keep the promise *)

Lemma docs_from_none t l : Forall (fun d => d < t) l → docs_from t l = [].
Proof.
  unfold docs_from. induction 1; [done|]. by rewrite filter_cons, decide_False by lia.
Qed.

Lemma docs_from_app t l k : docs_from t (l ++ k) = docs_from t l ++ docs_from t k.
Proof. apply list.filter_app. Qed.

Lemma Forall_seqZ (P : Z → Prop) a n : (∀ d, a ≤ d < a + n → P d) → Forall P (seqZ a n).
Proof.
  intros HP. apply List.Forall_forall. intros d Hd. apply HP.
  by apply list_elem_of_In, elem_of_seqZ in Hd.
Qed.

Lemma docs_from_seqZ t a n : a ≤ t → docs_from t (seqZ a n) = seqZ t (a + n - t).
Proof.
  intros Hat. destruct (decide (a + n ≤ t)) as [Hle|Hgt].
  - rewrite (seqZ_nil t) by lia. apply docs_from_none, Forall_seqZ. lia.
  - replace n with ((t - a) + (a + n - t)) at 1 by lia. rewrite seqZ_app by lia.
    replace (a + (t - a)) with t by lia.
    rewrite docs_from_app, docs_from_none, (docs_from_all t (seqZ t _)); try done;
      apply Forall_seqZ; lia.
Qed.

Lemma sorted_seqZ x a n : x < a → StronglySorted Z.lt (x :: seqZ a n).
Proof.
  intros Hx. constructor; [|apply Forall_seqZ; lia].
  destruct (decide (n ≤ 0)) as [Hn|Hn]; [rewrite seqZ_nil by lia; constructor|].
  assert (0 ≤ n) as H0 by lia. clear Hn. revert a x Hx. pattern n. apply natlike_ind; [constructor| |done].
  intros m Hm IH a x Hx. rewrite seqZ_cons by lia. constructor.
  - replace (Z.pred (Z.succ m)) with m by lia. apply (IH (Z.succ a) a). lia.
  - apply Forall_seqZ. lia.
Qed.

#[global] Program Instance all_docs_lawful : Docs AllDocsIterator.t := {|
  remaining it := if decide (AllDocsIterator.doc it = NO_MORE_DOCS) then []
    else seqZ (AllDocsIterator.doc it + 1) (AllDocsIterator.max_doc it - (AllDocsIterator.doc it + 1));
  sound it := -1 ≤ AllDocsIterator.doc it ≤ NO_MORE_DOCS ∧ AllDocsIterator.max_doc it ≤ NO_MORE_DOCS;
|}.
Next Obligation.
  intros [d m] [Hd Hm]. simpl in *. case_decide; [by repeat constructor|apply sorted_seqZ; lia].
Qed.
Next Obligation.
  intros [d m] [Hd Hm]. simpl in *. case_decide; [constructor|apply Forall_seqZ; lia].
Qed.
Next Obligation.
  intros [d m] [Hd Hm] Hne. simpl in *. rewrite decide_False by done.
  unfold AllDocsIterator.next_impl, AllDocsIterator.advance_impl. simpl.
  unfold NO_MORE_DOCS in *. rewrite as_i_id by (unfold is_i; lia).
  destruct (Z.leb_spec m (d + 1)).
  - rewrite seqZ_nil by lia. eexists. split; [reflexivity|]. simpl. split_and!; try done; try lia.
  - rewrite seqZ_cons by lia. eexists. split; [reflexivity|]. simpl.
    rewrite decide_False by lia. split_and!; try done; try lia. f_equal; lia.
Qed.
Next Obligation.
  intros [d m] target [Hd Hm] Ht. simpl in *.
  unfold AllDocsIterator.advance_impl. simpl. unfold NO_MORE_DOCS in *.
  rewrite decide_False by lia. rewrite docs_from_seqZ by lia.
  destruct (Z.leb_spec m target).
  - rewrite seqZ_nil by lia. eexists. split; [reflexivity|]. simpl. split_and!; try done; try lia.
  - rewrite seqZ_cons by lia. eexists. split; [reflexivity|]. simpl.
    rewrite decide_False by lia. split_and!; try done; try lia. f_equal; lia.
Qed.

(** ** The vector iterator *)

Definition vec_sound (it : VecDocIterator.t) : Prop :=
  let '(VecDocIterator.mk ids cur off) := it in
  StronglySorted Z.lt (cur :: drop (Z.to_nat (off + 1)) ids) ∧
  Forall (fun d => d < NO_MORE_DOCS) (drop (Z.to_nat (off + 1)) ids) ∧
  -1 ≤ off ∧ vlen ids < 2 ^ 63 ∧ (cur ≠ NO_MORE_DOCS → off < vlen ids).
Definition vec_remaining (it : VecDocIterator.t) : list Z :=
  drop (Z.to_nat (VecDocIterator.offset it + 1)) (VecDocIterator.doc_ids it).

Lemma vec_next it : vec_sound it → VecDocIterator.current_doc_id it ≠ NO_MORE_DOCS →
  ∃ it', VecDocIterator.next_impl it = Ok (hd_doc (vec_remaining it), it') ∧ vec_sound it' ∧
         VecDocIterator.current_doc_id it' = hd_doc (vec_remaining it) ∧
         vec_remaining it' = tail (vec_remaining it) ∧
         VecDocIterator.doc_ids it' = VecDocIterator.doc_ids it.
Proof.
  destruct it as [ids cur off]. unfold vec_remaining, VecDocIterator.next_impl. simpl.
  intros (Hs & Hr & Ho & Hl & Hc) Hne. specialize (Hc Hne).
  rewrite as_u_id by (unfold is_u; lia).
  assert (Hd : drop (Z.to_nat (off + 1 + 1)) ids = tail (drop (Z.to_nat (off + 1)) ids)).
  { replace (Z.to_nat (off + 1 + 1)) with (Z.to_nat (off + 1) + 1)%nat by lia.
    rewrite <- drop_drop. by destruct (drop (Z.to_nat (off + 1)) ids). }
  destruct (Z.leb_spec (vlen ids) (off + 1)).
  - rewrite (drop_ge ids (Z.to_nat (off + 1))) by (unfold vlen in *; lia).
    eexists. split; [reflexivity|]. simpl.
    rewrite (drop_ge ids (Z.to_nat (off + 1 + 1))) by (unfold vlen in *; lia).
    split_and!; try done; try lia; repeat constructor.
  - destruct (vget_in ids (off + 1)) as (x & -> & Hx); [lia|]. simpl.
    assert (Hdx : drop (Z.to_nat (off + 1)) ids = x :: drop (Z.to_nat (off + 1 + 1)) ids).
    { rewrite (drop_S _ _ _ Hx). do 2 f_equal. lia. }
    rewrite Hdx in Hs, Hr. rewrite Hdx. eexists. split; [reflexivity|]. simpl.
    apply StronglySorted_inv in Hs as [Hs _]. apply Forall_cons_iff in Hr as [_ Hr].
    split_and!; try done; lia.
Qed.

Lemma vec_sorted it : vec_sound it →
  StronglySorted Z.lt (VecDocIterator.current_doc_id it :: vec_remaining it) ∧
  Forall (fun d => d < NO_MORE_DOCS) (vec_remaining it).
Proof. destruct it. unfold vec_sound. naive_solver. Qed.

Lemma vec_advance_loop fuel target : target ≤ NO_MORE_DOCS → ∀ it,
  vec_sound it → VecDocIterator.current_doc_id it < target →
  (length (vec_remaining it) < fuel)%nat →
  let rest := docs_from target (vec_remaining it) in
  ∃ it', VecDocIterator.advance_loop fuel it target = Ok (hd_doc rest, it') ∧ vec_sound it' ∧
         VecDocIterator.current_doc_id it' = hd_doc rest ∧ vec_remaining it' = tail rest.
Proof.
  intros Ht. induction fuel as [|f IH]; intros it Hs Hc Hf rest; [lia|].
  destruct (vec_next it Hs) as (it1 & Hn & Hs1 & Hc1 & Hr1 & _); [lia|].
  destruct (vec_sorted it Hs) as [Hsort Hrange]. cbn [VecDocIterator.advance_loop]. rewrite Hn.
  cbn [mbind result_bind]. destruct (Z.leb_spec target (hd_doc (vec_remaining it))).
  - exists it1. assert (rest = vec_remaining it) as ->; [|done].
    destruct (vec_remaining it) as [|y l] eqn:E; [done|]. simpl in *.
    apply docs_from_all. apply StronglySorted_inv in Hsort as [Hsort _].
    apply sorted_tail_gt in Hsort. constructor; [done|].
    eapply Forall_impl; [|exact Hsort]. simpl. lia.
  - destruct (vec_remaining it) as [|y l] eqn:E; simpl in *; [lia|].
    destruct (IH it1) as (it2 & H1 & H2 & H3 & H4); [done|lia|rewrite Hr1; lia|].
    rewrite Hr1 in *. exists it2. unfold rest. by rewrite docs_from_cons_lt.
Qed.

#[global] Program Instance vec_docs_lawful : Docs VecDocIterator.t := {|
  remaining := vec_remaining; sound := vec_sound;
|}.
Next Obligation. intros it H. by apply vec_sorted. Qed.
Next Obligation. intros it H. by apply vec_sorted. Qed.
Next Obligation.
  intros it H Hne. destruct (vec_next it H Hne) as (it' & ? & ? & ? & ? & _). by exists it'.
Qed.
Next Obligation.
  intros it target H Ht. apply vec_advance_loop; [lia|done|by apply Ht|].
  unfold vec_remaining. rewrite length_drop. lia.
Qed.

Lemma vec_new_sound ids : StronglySorted Z.lt (-1 :: ids) → Forall (fun d => d < NO_MORE_DOCS) ids →
  vlen ids < 2 ^ 63 → vec_sound (VecDocIterator.new ids).
Proof.
  intros. unfold VecDocIterator.new. simpl. rewrite drop_0.
  split_and!; try done; pose proof (vlen_nonneg ids); lia.
Qed.

(** ** The default [slow_advance] *)

Section slow_advance_spec.
Context {It : Type} `{HIt : DocIterator It} `{HD : !Docs It}.

Lemma slow_advance_loop_spec fuel target : target ≤ NO_MORE_DOCS → ∀ it,
  sound it → doc_id it < target → (length (remaining it) < fuel)%nat →
  let rest := docs_from target (remaining it) in
  ∃ it', slow_advance_loop fuel (doc_id it) target it = Ok (hd_doc rest, it') ∧ sound it' ∧
         doc_id it' = hd_doc rest ∧ remaining it' = tail rest.
Proof.
  intros Ht. induction fuel as [|f IH]; intros it Hs Hlt Hf rest; [lia|].
  cbn [slow_advance_loop]. rewrite (proj2 (Z.ltb_lt _ _) Hlt).
  destruct (step_next it Hs) as (it1 & Hn & Hs1 & Hc1 & Hr1); [lia|].
  rewrite Hn. cbn [mbind result_bind]. pose proof (sound_sorted it Hs) as Hsort.
  destruct (decide (target ≤ hd_doc (remaining it))) as [Hge|Hlt1].
  - assert (rest = remaining it) as ->.
    { unfold rest. destruct (remaining it) as [|y l]; [done|]. simpl in Hge.
      apply docs_from_all. apply StronglySorted_inv in Hsort as [Hsort _].
      apply sorted_tail_gt in Hsort. constructor; [done|].
      eapply Forall_impl; [|exact Hsort]. simpl. lia. }
    exists it1. destruct f; simpl; rewrite (proj2 (Z.ltb_ge _ _) Hge); done.
  - rewrite <- Hc1. destruct (remaining it) as [|y l] eqn:E; simpl in *; [lia|].
    destruct (IH it1) as (it2 & H1 & H2 & H3 & H4); [done|lia|rewrite Hr1; lia|].
    rewrite Hr1 in *. exists it2. unfold rest. by rewrite docs_from_cons_lt by lia.
Qed.
End slow_advance_spec.

(** The default [slow_advance], which only calls [next], is a correct
    [advance] over any iterator that keeps the [next] contract: it stops on the
    first remaining document at or after the target (or exhausts), leaves
    exactly the later ones, and ends after at most one call per document. *)
Theorem slow_advance_correct {It : Type} `{HIt : DocIterator It} `{HD : !Docs It}
    (it : It) (target : Z) :
  sound it → doc_id it < target ≤ NO_MORE_DOCS →
  let rest := docs_from target (remaining it) in
  ∃ it', slow_advance (S (length (remaining it))) it target = Ok (hd_doc rest, it') ∧
         sound it' ∧ doc_id it' = hd_doc rest ∧ remaining it' = tail rest.
Proof.
  intros Hs Ht. unfold slow_advance. apply slow_advance_loop_spec; [lia|done|by apply Ht|lia].
Qed.

Lemma slow_advance_witness :
  let it := VecDocIterator.new [2; 5; 9] in
  let rest := docs_from 6 (remaining it) in
  ∃ it', slow_advance (S (length (remaining it))) it 6 = Ok (hd_doc rest, it') ∧
         sound it' ∧ doc_id it' = hd_doc rest ∧ remaining it' = tail rest.
Proof.
  apply (slow_advance_correct (VecDocIterator.new [2; 5; 9]) 6).
  - apply vec_new_sound; [repeat constructor; lia|repeat constructor; reflexivity|reflexivity].
  - split; [reflexivity|discriminate].
Defined.
