(* ===== verification/BitSets.v ===== *)
(** Bit sets: src/core/util/bit_set.rs and src/core/util/bits.rs.

    A bit set is a vector of [i64] words; [usize] indices are non-negative
    integers.  The accesses through raw pointers are modelled as indexed ones,
    so that leaving the allocation is a panic. *)

From S2P Require Import Prelude DataIO Numeric DocIter.

(** [l[i] = f(l[i])], for the assignment operators of the source. *)
Definition vupd {A} (l : list A) (i : Z) (f : A → A) : result (list A) :=
  w ← vget l i; vset l i (f w).

(** * FixedBitSet *)

Definition bits2words (num_bits : Z) : Z :=
  let num_bits := as_i32 num_bits in
  as_u64 (as_i32 (shr_i (as_i32 (num_bits - 1)) 6 + 1)).

Module FixedBitSet.

Record t : Type := mk {
  bits : list Z;
  num_bits : Z;
  num_words : Z;
}.

Definition with_bits (s : t) (b : list Z) : t := mk b (num_bits s) (num_words s).

Definition new (num_bits : Z) : t :=
  let num_words := bits2words num_bits in
  mk (replicate (Z.to_nat num_words) 0) num_bits num_words.

Definition verify_ghost_bits_clear (s : t) : result bool :=
  if forallb (fun w => w =? 0) (drop (Z.to_nat (num_words s)) (bits s)) then
    if 6 <=? trailing_zeros 64 (num_bits s) then Ok true
    else
      let mask := shl_i 64 (-1) (Z.land (num_bits s) 0x3f) in
      w ← vget (bits s) (num_words s - 1);
      Ok (Z.land w mask =? 0)
  else Ok false.

Definition copy_from (stored_bits : list Z) (num_bits : Z) : result t :=
  let num_words := bits2words num_bits in
  if vlen stored_bits <? num_words then bail IllegalArgument
  else
    let bits := mk stored_bits num_bits num_words in
    ok ← verify_ghost_bits_clear bits;
    _ ← check ok;
    Ok bits.

(** [Vec::resize] with zeros. *)
Definition vresize (l : list Z) (n : Z) : list Z :=
  take (Z.to_nat n) l ++ replicate (Z.to_nat n - length l) 0.

Definition ensure_capacity (s : t) (n : Z) : t :=
  if num_bits s <=? n then
    let num_words := bits2words n in
    if vlen (bits s) <=? num_words then
      mk (vresize (bits s) (num_words + 1)) (Z.shiftl (num_words + 1) 6) (num_words + 1)
    else s
  else s.

Definition flip (s : t) (start_index end_index : Z) : result t :=
  if end_index <=? start_index then Ok s
  else
    let start_word := Z.shiftr start_index 6 in
    let end_word := Z.shiftr (end_index - 1) 6 in
    let start_mask := Z.lnot (shl_i 64 (-1) (Z.land start_index 0x3f)) in
    let end_mask := Z.lnot (unsigned_shift 64 (-1) (Z.land (64 - Z.land end_index 0x3f) 0x3f)) in
    if start_word =? end_word then
      b ← vupd (bits s) start_word (fun w => Z.lxor w (Z.lor start_mask end_mask));
      Ok (with_bits s b)
    else
      b ← vupd (bits s) start_word (fun w => Z.lxor w start_mask);
      b ← for_range (start_word + 1) end_word (fun i b => vupd b i Z.lnot) b;
      b ← vupd b end_word (fun w => Z.lxor w end_mask);
      Ok (with_bits s b).

(** The loop of [intersects] from word [i]. *)
Fixpoint intersects_loop (n : nat) (i : Z) (a b : list Z) : result bool :=
  match n with
  | O => Ok false
  | S m =>
    x ← vget a i; y ← vget b i;
    if negb (Z.land x y =? 0) then Ok true else intersects_loop m (i + 1) a b
  end.
Definition intersects (s other : t) : result bool :=
  let pos := Z.min (num_words s) (num_words other) in
  intersects_loop (Z.to_nat pos) 0 (bits s) (bits other).

Definition do_or (s : t) (other_arr : list Z) (other_num_words : Z) : result t :=
  _ ← check (other_num_words <=? num_words s);
  b ← for_range 0 other_num_words (fun i b => o ← vget other_arr i; vupd b i (fun w => Z.lor w o))
        (bits s);
  Ok (with_bits s b).

Definition set_or (s other : t) : result t := do_or s (bits other) (num_words other).

Definition cardinality (s : t) : Z := pop_array (bits s) 0 (num_words s).

(** The loop over the words after the one of [index]. *)
Fixpoint next_word_loop (n : nat) (i : Z) (s : t) : result Z :=
  match n with
  | O => Ok NO_MORE_DOCS
  | S m =>
    word ← vget (bits s) i;
    if negb (word =? 0)
    then Ok (as_i32 (as_u32 (as_u32 (Z.shiftl i 6) + trailing_zeros 64 word)))
    else next_word_loop m (i + 1) s
  end.

Definition next_set_bit (s : t) (index : Z) : result Z :=
  let i := Z.shiftr index 6 in
  w ← vget (bits s) i;
  let word := shr_i w (Z.land index 0x3f) in
  if negb (word =? 0) then Ok (as_i32 (as_u32 (as_u32 index + trailing_zeros 64 word)))
  else next_word_loop (Z.to_nat (num_words s - (i + 1))) (i + 1) s.

Definition set (s : t) (index : Z) : result t :=
  let word_num := Z.shiftr index 6 in
  let mask := shl_i 64 1 (Z.land index 0x3f) in
  b ← vupd (bits s) word_num (fun w => Z.lor w mask);
  Ok (with_bits s b).

Definition batch_set (s : t) (start_index end_index : Z) : result t :=
  if end_index <=? start_index then Ok s
  else
    let start_word := Z.shiftr start_index 6 in
    let end_word := Z.shiftr (end_index - 1) 6 in
    let start_mask := shl_i 64 (-1) (Z.land start_index 0x3f) in
    let end_mask := unsigned_shift 64 (-1) (Z.land (64 - Z.land end_index 0x3f) 0x3f) in
    if start_word =? end_word then
      b ← vupd (bits s) start_word (fun w => Z.lor w (Z.land start_mask end_mask));
      Ok (with_bits s b)
    else
      b ← vupd (bits s) start_word (fun w => Z.lor w start_mask);
      b ← for_range (start_word + 1) end_word (fun i b => vset b i (-1)) b;
      b ← vupd b end_word (fun w => Z.lor w end_mask);
      Ok (with_bits s b).

Definition clear (s : t) (index : Z) : result t :=
  let word := Z.shiftr index 6 in
  let mask := Z.lnot (shl_i 64 1 (Z.land index 0x3f)) in
  b ← vupd (bits s) word (fun w => Z.land w mask);
  Ok (with_bits s b).

Definition clear_batch (s : t) (start_index end_index : Z) : result t :=
  if end_index <=? start_index then Ok s
  else
    let start_word := Z.shiftr start_index 6 in
    let end_word := Z.shiftr (end_index - 1) 6 in
    let start_mask := Z.lnot (shl_i 64 (-1) (Z.land start_index 0x3f)) in
    let end_mask := Z.lnot (unsigned_shift 64 (-1) (Z.land (64 - Z.land end_index 0x3f) 0x3f)) in
    if start_word =? end_word then
      b ← vupd (bits s) start_word (fun w => Z.land w (Z.lor start_mask end_mask));
      Ok (with_bits s b)
    else
      b ← vupd (bits s) start_word (fun w => Z.land w start_mask);
      b ← for_range (start_word + 1) end_word (fun i b => vset b i 0) b;
      b ← vupd b end_word (fun w => Z.land w end_mask);
      Ok (with_bits s b).

Definition get (s : t) (index : Z) : result bool :=
  let i := Z.shiftr index 6 in
  let mask := shl_i 64 1 (Z.land index 0x3f) in
  w ← vget (bits s) i;
  Ok (negb (Z.land w mask =? 0)).

Definition len (s : t) : Z := num_bits s.

(** The trait's [or]: the documents of an iterator are added. *)
Section or.
Context {It : Type} `{DocIterator It}.

Fixpoint or_loop (fuel : nat) (s : t) (it : It) : result (t * It) :=
  match fuel with
  | O => Diverge
  | S f =>
    '(doc, it) ← next it;
    if doc =? NO_MORE_DOCS then Ok (s, it)
    else s ← set s (as_u64 doc); or_loop f s it
  end.

Definition assert_unpositioned (it : It) : result unit :=
  if negb (doc_id it =? -1) then bail IllegalState else Ok tt.

Definition or (fuel : nat) (s : t) (it : It) : result (t * It) :=
  _ ← assert_unpositioned it;
  or_loop fuel s it.
End or.

End FixedBitSet.

(** * BitSetIterator *)

Module BitSetIterator.
Import FixedBitSet.

Record t : Type := mk { bit_set : FixedBitSet.t; current : Z }.

Definition new (s : FixedBitSet.t) : t := mk s (-1).

Definition next (it : t) : result (option Z * t) :=
  if as_i32 (len (bit_set it)) <=? as_i32 (current it + 1) then Ok (None, it)
  else
    c ← next_set_bit (bit_set it) (as_u64 (as_i32 (current it + 1)));
    let it := mk (bit_set it) c in
    if c =? NO_MORE_DOCS then Ok (None, it) else Ok (Some c, it).

(** All the items, as a [for] loop over the iterator sees them. *)
Fixpoint collect (fuel : nat) (it : t) : result (list Z) :=
  match fuel with
  | O => Diverge
  | S f =>
    '(o, it) ← next it;
    match o with
    | None => Ok []
    | Some d => l ← collect f it; Ok (d :: l)
    end
  end.
End BitSetIterator.

(** * Bits of bits.rs *)

Module FixedBits.

Record t : Type := mk { num_bits : Z; num_words : Z; bits : list Z }.

Definition bits_2_words (num_bits : Z) : Z :=
  if num_bits =? 0 then 0 else Z.shiftr (num_bits - 1) 6 + 1.

Definition new (bits : list Z) (num_bits : Z) : t := mk num_bits (bits_2_words num_bits) bits.

Definition cardinality (s : t) : result Z :=
  for_range 0 (num_words s) (fun i set_bits => w ← vget (bits s) i; Ok (set_bits + count_ones 64 w)) 0.

Definition length (s : t) : Z := num_bits s.

Definition get (s : t) (index : Z) : result bool :=
  _ ← check (index <? num_bits s);
  let i := Z.shiftr index 6 in
  let bit_mask := shl_i 64 1 (index mod 64) in
  w ← vget (bits s) i;
  Ok (negb (Z.land w bit_mask =? 0)).

End FixedBits.

(** [LiveBits] reads the bits of a file through an [IndexInput], of which it
    uses a random-access slice and the byte at a position of it. *)
Module LiveBits.
Section live_bits.
Context {Input Slice : Type}.
Context (random_access_slice : Input → Z → Z → result Slice) (read_byte : Slice → Z → result Z).

Record t : Type := mk { input : Slice; count : Z }.

Definition new (data : Input) (offset count : Z) : result t :=
  let length := Z.shiftr (count + 7) 3 in
  input ← random_access_slice data offset length;
  Ok (mk input count).

Definition get (s : t) (index : Z) : result bool :=
  bitset ← read_byte (input s) (Z.shiftr index 3);
  Ok (negb (Z.land bitset (as_u8 (Z.shiftl 1 (Z.land index 0x7))) =? 0)).
End live_bits.
End LiveBits.

(** The trivial sets. *)
Module MatchAllBits.
Record t : Type := mk { len : Z }.
Definition get (s : t) (index : Z) : result bool := Ok true.
End MatchAllBits.

Module MatchNoBits.
Record t : Type := mk { len : Z }.
Definition get (s : t) (index : Z) : result bool := Ok false.
End MatchNoBits.

(** * SparseBits

    The document ids are a [LongValues]: a function that may fail. *)

Module SparseBits.

Section sparse_bits.
Context (doc_ids : Z → result Z).

Record ctx : Type := mk_ctx { index : Z; doc_id : Z; next_doc_id : Z }.

Definition ctx_new (first_doc_id : Z) : ctx := mk_ctx (-1) (-1) first_doc_id.
Definition ctx_reset (c : ctx) (first_doc_id : Z) : ctx := mk_ctx (-1) (-1) first_doc_id.

Record t : Type := mk {
  max_doc : Z;
  doc_ids_length : Z;
  first_doc_id : Z;
}.

Definition new (max_doc doc_ids_length : Z) : result t :=
  too_small ← (if 0 <? doc_ids_length
               then last ← doc_ids (doc_ids_length - 1); Ok (max_doc <=? last)
               else Ok false);
  if (too_small : bool) then bail IllegalArgument
  else
    first_doc_id ← (if doc_ids_length =? 0 then Ok max_doc else doc_ids 0);
    Ok (mk max_doc doc_ids_length first_doc_id).

(** The loop of [gallop]: [hi_index] at least doubles its distance from the
    start, so 64 rounds are enough for 64-bit lengths. *)
Fixpoint gallop_loop (fuel : nat) (s : t) (c : ctx) (hi_index target : Z) : result (Z * ctx) :=
  match fuel with
  | O => Diverge
  | S f =>
    if doc_ids_length s <=? hi_index then
      Ok (doc_ids_length s, mk_ctx (index c) (doc_id c) (max_doc s))
    else
      hi_doc_id ← doc_ids hi_index;
      if target <? hi_doc_id then Ok (hi_index, mk_ctx (index c) (doc_id c) hi_doc_id)
      else
        let delta := hi_index - index c in
        gallop_loop f s (mk_ctx hi_index hi_doc_id (next_doc_id c))
          (as_i64 (hi_index + shl_i 64 delta 1)) target
  end.

Definition gallop (s : t) (c : ctx) (target : Z) : result (Z * ctx) :=
  let c := mk_ctx (index c + 1) (next_doc_id c) (next_doc_id c) in
  gallop_loop 64 s c (index c + 1) target.

Fixpoint binary_search (fuel : nat) (c : ctx) (hi_index target : Z) : result ctx :=
  if index c + 1 <? hi_index then
    match fuel with
    | O => Diverge
    | S f =>
      let mid_index := index c + Z.quot (hi_index - index c) 2 in
      mid_doc_id ← doc_ids mid_index;
      if target <? mid_doc_id
      then binary_search f (mk_ctx (index c) (doc_id c) mid_doc_id) mid_index target
      else binary_search f (mk_ctx mid_index mid_doc_id (next_doc_id c)) hi_index target
    end
  else Ok c.

Definition check_invariants (s : t) (c : ctx) (next_index target : Z) : result unit :=
  if (target <? doc_id c) || (next_doc_id c <=? target) then bail IllegalState
  else
    ok ← (if (index c =? -1) && (doc_id c =? -1) then Ok true
          else v ← doc_ids (index c); Ok (doc_id c =? v));
    if negb ok then (_ ← doc_ids (index c); bail IllegalState)
    else
      ok ← (if (next_index =? doc_ids_length s) && (next_doc_id c =? max_doc s) then Ok true
            else v ← doc_ids next_index; Ok (next_doc_id c =? v));
      if negb ok then (_ ← doc_ids next_index; bail IllegalState) else Ok tt.

Definition exponential_search (s : t) (c : ctx) (target : Z) : result ctx :=
  '(hi_index, c) ← gallop s c target;
  _ ← check_invariants s c hi_index target;
  binary_search 64 c hi_index target.

Definition get64 (s : t) (c : ctx) (target : Z) : result (bool * ctx) :=
  let c := if target <? doc_id c then ctx_reset c (first_doc_id s) else c in
  c ← (if next_doc_id c <=? target then exponential_search s c target else Ok c);
  let next_index := index c + 1 in
  _ ← check_invariants s c next_index target;
  Ok (target =? doc_id c, c).

Definition len (s : t) : result Z :=
  match long_to_int_exact (max_doc s) with
  | Ok _ => Ok (as_u64 (max_doc s))
  | Err _ => Panic
  | Panic => Panic
  | Diverge => Diverge
  end.

Definition context (s : t) : ctx := ctx_new (first_doc_id s).

Definition get (s : t) (i : Z) : result bool :=
  '(b, _) ← get64 s (context s) (as_i64 i); Ok b.

End sparse_bits.
End SparseBits.
