(* ===== verification/BitSetsFacts.v ===== *)
(** Correctness of the bit sets of BitSets.v: every operation is an operation
    on the set of the indices of the bits. *)

From S2P Require Import Prelude DataIO Numeric NumericFacts DocIter BitSets.
From stdpp Require Import sets.
Open Scope Z_scope.
Import FixedBitSet.

(** The quotients and remainders by 64 in the goal, as linear facts. *)
Lemma div_mod_64 x : x = 64 * (x / 64) + x mod 64 ∧ 0 ≤ x mod 64 < 64.
Proof. pose proof (Z.div_mod x 64). pose proof (Z.mod_pos_bound x 64). lia. Qed.

Ltac know64 x :=
  lazymatch goal with
  | _ : x = 64 * (x / 64) + x mod 64 ∧ _ |- _ => fail
  | _ => pose proof (div_mod_64 x)
  end.
Ltac div64 :=
  repeat match goal with
  | |- context [?x / 64] => know64 x
  | |- context [?x mod 64] => know64 x
  | _ : context [?x / 64] |- _ => know64 x
  | _ : context [?x mod 64] |- _ => know64 x
  end.
Ltac lia64 := div64; lia.

(** * Words and bits *)

(** The bit [i] of a vector of 64-bit words; bits outside it are clear. *)
Definition bit (l : list Z) (i : Z) : bool :=
  match l !! Z.to_nat (i / 64) with
  | Some w => Z.testbit w (i mod 64)
  | None => false
  end.

Lemma bit_lookup l i w : l !! Z.to_nat (i / 64) = Some w → bit l i = Z.testbit w (i mod 64).
Proof. intros H. unfold bit. by rewrite H. Qed.

Lemma bit_outside l i : 64 * vlen l ≤ i → bit l i = false.
Proof.
  intros H. unfold bit. rewrite lookup_ge_None_2; [done|]. unfold vlen in H. lia64.
Qed.

Lemma bit_insert l k v i : 0 ≤ k < vlen l → 0 ≤ i →
  bit (<[Z.to_nat k := v]> l) i = if i / 64 =? k then Z.testbit v (i mod 64) else bit l i.
Proof.
  intros Hk Hi. unfold bit, vlen in *. destruct (Z.eqb_spec (i / 64) k) as [->|Hne].
  - rewrite list_lookup_insert_eq by lia64. done.
  - rewrite list_lookup_insert_ne by lia64. done.
Qed.

(** [f] changes the bits of a word as [g] says. *)
Definition word_op (f : Z → Z) (g : Z → bool → bool) : Prop :=
  ∀ w, is_i 64 w → is_i 64 (f w) ∧ ∀ m, 0 ≤ m < 64 → Z.testbit (f w) m = g m (Z.testbit w m).

Abbreviation words := (Forall (is_i 64)).

Lemma vupd_bits l k f g : word_op f g → words l → 0 ≤ k < vlen l →
  ∃ l', vupd l k f = Ok l' ∧ words l' ∧ vlen l' = vlen l ∧
        ∀ i, 0 ≤ i → bit l' i = if i / 64 =? k then g (i mod 64) (bit l i) else bit l i.
Proof.
  intros Hf Hl Hk. destruct (vget_in l k Hk) as (w & Hw & Hlk).
  assert (is_i 64 w) as Hwi by (eapply Forall_lookup_1; eassumption).
  destruct (Hf w Hwi) as [Hfi Hfb].
  exists (<[Z.to_nat k := f w]> l). unfold vupd. rewrite Hw. simpl. rewrite vset_in by done.
  split_and!; [done|by apply Forall_insert|apply vlen_insert|].
  intros i Hi. rewrite bit_insert by done. destruct (Z.eqb_spec (i / 64) k) as [<-|]; [|done].
  rewrite Hfb by lia64. f_equal. symmetry. by apply bit_lookup.
Qed.

(** A loop that changes the words of a range. *)
Lemma for_vupd_bits l a b f g : word_op f g → words l → 0 ≤ a → a ≤ b → b ≤ vlen l →
  ∃ l', for_range a b (fun i l => vupd l i f) l = Ok l' ∧ words l' ∧ vlen l' = vlen l ∧
        ∀ i, 0 ≤ i → bit l' i =
          if (a <=? i / 64) && (i / 64 <? b) then g (i mod 64) (bit l i) else bit l i.
Proof.
  intros Hf Hl Ha Hab Hb.
  destruct (for_range_inv (fun k l' => words l' ∧ vlen l' = vlen l ∧ ∀ i, 0 ≤ i →
      bit l' i = if (a <=? i / 64) && (i / 64 <? k) then g (i mod 64) (bit l i) else bit l i)
    (fun i l => vupd l i f) a b l Hab) as (l' & H1 & H2 & H3 & H4).
  - split_and!; try done. intros i Hi. div64; split_cmp; done.
  - intros k t Hk (Ht & Hlen & Hbit).
    destruct (vupd_bits t k f g Hf Ht) as (t' & -> & Ht' & Hlen' & Hbit'); [lia|].
    exists t'. split_and!; try done; [lia|]. intros i Hi. rewrite Hbit' by done.
    rewrite Hbit by done. destruct (Z.eqb_spec (i / 64) k); div64; split_cmp; done.
  - by exists l'.
Qed.

Lemma for_vset_vupd (l : list Z) a b (v : Z) : 0 ≤ a → b ≤ vlen l →
  for_range a b (fun i l => vset l i v) l = for_range a b (fun i (l : list Z) => vupd l i (fun _ => v)) l.
Proof.
  intros Ha Hb. unfold for_range. assert (Hk : a + Z.of_nat (Z.to_nat (b - a)) ≤ vlen l ∨ b ≤ a) by lia.
  destruct Hk as [Hk|Hk]; [|by replace (Z.to_nat (b - a)) with O by lia].
  clear Hb. generalize dependent (Z.to_nat (b - a)). intros n Hk. clear b. revert a l Ha Hk.
  induction n as [|n IH]; intros a l Ha Hk; [done|].
  cbn [for_n]. destruct (vget_in l a) as (w & Hw & _); [lia|].
  assert (vupd l a (fun _ => v) = vset l a v) as -> by (unfold vupd; by rewrite Hw).
  rewrite vset_in by lia. simpl. apply IH; rewrite ?vlen_insert; lia.
Qed.

(** The three-part update of a range of bits: the first word, the words in
    between, the last word. *)
Lemma range_update_bits body l sw ew f0 g0 fm gm f1 g1 :
  word_op f0 g0 → word_op fm gm → word_op f1 g1 → words l → 0 ≤ sw → sw < ew → ew < vlen l →
  (∀ b, vlen b = vlen l →
    for_range (sw + 1) ew body b = for_range (sw + 1) ew (fun i b => vupd b i fm) b) →
  ∃ l', (∀ (k : list Z → result t),
          (b ← vupd l sw f0; b ← for_range (sw + 1) ew body b; b ← vupd b ew f1; k b) = k l') ∧
        words l' ∧ vlen l' = vlen l ∧
        ∀ i, 0 ≤ i → bit l' i =
          if i / 64 =? sw then g0 (i mod 64) (bit l i)
          else if i / 64 =? ew then g1 (i mod 64) (bit l i)
          else if (sw <? i / 64) && (i / 64 <? ew) then gm (i mod 64) (bit l i)
          else bit l i.
Proof.
  intros H0 Hm H1 Hl Hsw Hlt Hew Hbody.
  destruct (vupd_bits l sw f0 g0 H0 Hl) as (l0 & E0 & Hl0 & Hn0 & Hb0); [lia|].
  destruct (for_vupd_bits l0 (sw + 1) ew fm gm Hm Hl0) as (l1 & E1 & Hl1 & Hn1 & Hb1); [lia..|].
  destruct (vupd_bits l1 ew f1 g1 H1 Hl1) as (l2 & E2 & Hl2 & Hn2 & Hb2); [lia|].
  exists l2. split_and!; [|done|lia|].
  { intros k. rewrite E0. cbn [mbind result_bind]. rewrite Hbody, E1 by done.
    cbn [mbind result_bind]. by rewrite E2. } intros i Hi. rewrite Hb2, Hb1, Hb0 by done.
  div64; split_cmp; done.
Qed.

(** * FixedBitSet as a set of indices *)

Definition member (s : t) (i : Z) : bool := bit (bits s) i.

(** The invariant: enough words for the bits, and the ghost bits clear. *)
Record wf (s : t) : Prop := {
  wf_num_bits : 0 ≤ num_bits s < 2 ^ 31;
  wf_num_words : num_words s = (num_bits s + 63) / 64;
  wf_len : num_words s ≤ vlen (bits s);
  wf_words : words (bits s);
  wf_ghost : ∀ i, num_bits s ≤ i → member s i = false;
}.

(** [s'] is [s] with the set of members [P]. *)
Definition becomes (s s' : t) (P : Z → bool) : Prop :=
  wf s' ∧ num_bits s' = num_bits s ∧ num_words s' = num_words s ∧
  ∀ i, 0 ≤ i → member s' i = P i.

(** Updating the words of a well-formed set without touching the ghost bits. *)
Lemma becomes_with_bits s l P : wf s → words l → vlen l = vlen (bits s) →
  (∀ i, 0 ≤ i → bit l i = P i) → (∀ i, num_bits s ≤ i → P i = false) →
  becomes s (with_bits s l) P.
Proof.
  intros [H1 H2 H3 H4 H5] Hw Hl HP Hg. split_and!; try done.
  constructor; unfold with_bits; cbn [bits num_bits num_words]; try done; [lia|].
  intros i Hi. unfold member. cbn [bits]. rewrite HP by lia. by apply Hg.
Qed.

Lemma bits2words_spec n : 0 ≤ n < 2 ^ 31 → bits2words n = (n + 63) / 64.
Proof.
  intros Hn. unfold bits2words, shr_i. rewrite (as_i_id 32 n) by (unfold is_i; lia).
  rewrite (as_i_id 32 (n - 1)) by (unfold is_i; lia64).
  rewrite Z.shiftr_div_pow2 by lia64. change (2 ^ 6) with 64.
  rewrite as_i_id by (unfold is_i; lia64). rewrite as_u_id; unfold is_u; lia64.
Qed.

Lemma land_63 i : 0 ≤ i → Z.land i 0x3f = i mod 64.
Proof. intros. change 0x3f with (Z.ones 6). by rewrite Z.land_ones by lia64. Qed.

Lemma shiftr_6 i : Z.shiftr i 6 = i / 64.
Proof. by rewrite Z.shiftr_div_pow2 by lia64. Qed.

(** ** The masks *)

Lemma one_mask i m : 0 ≤ i → 0 ≤ m < 64 →
  Z.testbit (shl_i 64 1 (Z.land i 0x3f)) m = (m =? i mod 64).
Proof.
  intros. rewrite land_63 by done. rewrite tb_shl_i by lia64. rewrite (proj2 (Z.ltb_lt m 64)) by lia64.
  destruct (decide (m < i mod 64)); [rewrite tb_neg by lia64|rewrite tb_1 by lia64]; div64; split_cmp; done.
Qed.

Lemma start_mask_bits i m : 0 ≤ i → 0 ≤ m < 64 →
  Z.testbit (shl_i 64 (-1) (Z.land i 0x3f)) m = (i mod 64 <=? m).
Proof.
  intros. rewrite land_63 by done. rewrite tb_shl_i by lia64. split_cmp.
  - rewrite tb_m1 by lia64. done.
  - by rewrite tb_neg by lia64.
Qed.

Lemma end_mask_bits e m : 0 < e → 0 ≤ m < 64 →
  Z.testbit (unsigned_shift 64 (-1) (Z.land (64 - Z.land e 0x3f) 0x3f)) m = (m <=? (e - 1) mod 64).
Proof.
  intros He Hm. rewrite (land_63 e) by lia64. rewrite land_63 by lia64.
  destruct (decide (e mod 64 = 0)) as [E|E].
  - assert (((64 - e mod 64) mod 64) = 0) as -> by lia64.
    rewrite unsigned_shift_0 by (unfold is_i; lia64). rewrite tb_m1 by lia64. div64; split_cmp; done.
  - rewrite tb_unsigned_shift by lia64. rewrite tb_m1, andb_true_r by lia64. div64; split_cmp; done.
Qed.

Lemma lor_op mask p : is_i 64 mask → (∀ m, 0 ≤ m < 64 → Z.testbit mask m = p m) →
  word_op (fun w => Z.lor w mask) (fun m b => b || p m).
Proof.
  intros Hi Hp w Hw. split; [by apply is_i_lor|]. intros m Hm. by rewrite Z.lor_spec, Hp.
Qed.

Lemma land_op mask p : is_i 64 mask → (∀ m, 0 ≤ m < 64 → Z.testbit mask m = p m) →
  word_op (fun w => Z.land w mask) (fun m b => b && p m).
Proof.
  intros Hi Hp w Hw. split; [by apply is_i_land|]. intros m Hm. by rewrite Z.land_spec, Hp.
Qed.

Lemma lxor_op mask p : is_i 64 mask → (∀ m, 0 ≤ m < 64 → Z.testbit mask m = p m) →
  word_op (fun w => Z.lxor w mask) (fun m b => xorb b (p m)).
Proof.
  intros Hi Hp w Hw. split; [by apply is_i_lxor|]. intros m Hm. by rewrite Z.lxor_spec, Hp.
Qed.

Lemma const_op c p : is_i 64 c → (∀ m, 0 ≤ m < 64 → Z.testbit c m = p m) →
  word_op (fun _ => c) (fun m _ => p m).
Proof. intros Hi Hp w Hw. by split. Qed.

(** ** The operations *)

Lemma word_in_range s i : wf s → 0 ≤ i < num_bits s → 0 ≤ i / 64 < vlen (bits s).
Proof. intros [] Hi. lia64. Qed.

Lemma set_becomes s i : wf s → 0 ≤ i < num_bits s →
  ∃ s', set s i = Ok s' ∧ becomes s s' (fun j => (j =? i) || member s j).
Proof.
  intros Hwf Hi. pose proof (word_in_range s i Hwf Hi). pose proof Hwf as [].
  unfold set. rewrite shiftr_6.
  destruct (vupd_bits (bits s) (i / 64) _ _ (lor_op _ _ (is_i_shl_i 64 1 _ ltac:(lia64))
    (fun m Hm => one_mask i m (proj1 Hi) Hm))) as (l & -> & Hl & Hn & Hb); [done..|].
  simpl. eexists. split; [done|]. apply becomes_with_bits; try done.
  - intros j Hj. rewrite Hb by done. unfold member.
    destruct (Z.eqb_spec j i) as [->|]; [rewrite !Z.eqb_refl; by rewrite orb_true_r|].
    div64; split_cmp; rewrite ?orb_false_r; done.
  - intros j Hj. simpl. rewrite wf_ghost0 by done. div64; split_cmp; done.
Qed.

Lemma clear_becomes s i : wf s → 0 ≤ i < num_bits s →
  ∃ s', clear s i = Ok s' ∧ becomes s s' (fun j => negb (j =? i) && member s j).
Proof.
  intros Hwf Hi. pose proof (word_in_range s i Hwf Hi). pose proof Hwf as [].
  unfold clear. rewrite shiftr_6.
  destruct (vupd_bits (bits s) (i / 64) _ (fun m b => b && negb (m =? i mod 64))
    (land_op (Z.lnot (shl_i 64 1 (Z.land i 63))) (fun m => negb (m =? i mod 64))
      ltac:(apply is_i_lnot, as_i_range; lia)
      ltac:(intros; rewrite tb_lnot by lia64; rewrite one_mask by lia64; done)))
    as (l & -> & Hl & Hn & Hb); [done..|].
  simpl. eexists. split; [done|]. apply becomes_with_bits; try done.
  - intros j Hj. rewrite Hb by done. unfold member.
    destruct (Z.eqb_spec j i) as [->|]; [rewrite !Z.eqb_refl; by rewrite andb_false_r|].
    div64; split_cmp; rewrite ?andb_true_r; done.
  - intros j Hj. simpl. rewrite wf_ghost0 by done. by rewrite andb_false_r.
Qed.

(** The range operations: the bits of [start, end) get the value [v], by an
    update [op] with the masks (or the update [mid] of a whole word). *)
Lemma range_masks s a b : wf s → 0 ≤ a → a < b → b ≤ num_bits s →
  0 ≤ a / 64 ∧ a / 64 ≤ (b - 1) / 64 ∧ (b - 1) / 64 < vlen (bits s).
Proof. intros []. lia64. Qed.

Lemma batch_set_becomes s a b : wf s → 0 ≤ a → b ≤ num_bits s →
  ∃ s', batch_set s a b = Ok s' ∧ becomes s s' (fun j => ((a <=? j) && (j <? b)) || member s j).
Proof.
  intros Hwf Ha Hb. pose proof Hwf as []. unfold batch_set. destruct (Z.leb_spec b a).
  { exists s. split; [done|]. split_and!; try done. intros j Hj. div64; split_cmp; done. }
  destruct (range_masks s a b Hwf) as (? & ? & ?); [lia64..|]. rewrite !shiftr_6.
  assert (Hm0 := fun m => start_mask_bits a m Ha). assert (Hm1 := fun m => end_mask_bits b m ltac:(lia64)).
  set (sm := shl_i 64 (-1) _) in *. set (em := unsigned_shift 64 (-1) _) in *.
  assert (is_i 64 sm ∧ is_i 64 em) as [Hsm Hem] by (split; apply as_i_range; lia64).
  assert (Hghost : ∀ i, num_bits s ≤ i → ((a <=? i) && (i <? b)) || member s i = false).
  { intros i Hi. rewrite wf_ghost0 by done. div64; split_cmp; done. }
  destruct (Z.eqb_spec (a / 64) ((b - 1) / 64)) as [E|E].
  - destruct (vupd_bits (bits s) (a / 64) _ _ (lor_op (Z.land sm em)
      (fun m => (a mod 64 <=? m) && (m <=? (b - 1) mod 64)) ltac:(by apply is_i_land)
      ltac:(intros; by rewrite Z.land_spec, Hm0, Hm1))) as (l & -> & Hl & Hn & Hbit); [done|lia64|].
    simpl. eexists. split; [done|]. apply becomes_with_bits; try done.
    intros j Hj. rewrite Hbit by done. unfold member. rewrite (orb_comm (bit _ _)).
    div64; split_cmp; done.
  - destruct (range_update_bits (fun i b => vset b i (-1)) (bits s) (a / 64) ((b - 1) / 64)
      _ _ _ _ _ _ (lor_op _ _ Hsm Hm0)
      (const_op (-1) (fun _ => true) ltac:(by apply is_i_const) ltac:(intros; by apply tb_m1; lia64))
      (lor_op _ _ Hem Hm1)) as (l & Hk & Hl & Hn & Hbit); [done|lia64..| |].
    { intros l Hl. apply for_vset_vupd; lia64. }
    rewrite Hk. eexists. split; [done|]. apply becomes_with_bits; try done.
    intros j Hj. rewrite Hbit by done. unfold member.
    destruct (bit (bits s) j); div64; split_cmp; done.
Qed.

Lemma clear_batch_becomes s a b : wf s → 0 ≤ a → b ≤ num_bits s →
  ∃ s', clear_batch s a b = Ok s' ∧
        becomes s s' (fun j => negb ((a <=? j) && (j <? b)) && member s j).
Proof.
  intros Hwf Ha Hb. pose proof Hwf as []. unfold clear_batch. destruct (Z.leb_spec b a).
  { exists s. split; [done|]. split_and!; try done. intros j Hj. div64; split_cmp; done. }
  destruct (range_masks s a b Hwf) as (? & ? & ?); [lia64..|]. rewrite !shiftr_6.
  assert (Hm0 := fun m => start_mask_bits a m Ha). assert (Hm1 := fun m => end_mask_bits b m ltac:(lia64)).
  set (sm := shl_i 64 (-1) _) in *. set (em := unsigned_shift 64 (-1) _) in *.
  assert (is_i 64 (Z.lnot sm) ∧ is_i 64 (Z.lnot em)) as [Hsm Hem]
    by (split; apply is_i_lnot; try apply as_i_range; lia64).
  assert (Hghost : ∀ i, num_bits s ≤ i → negb ((a <=? i) && (i <? b)) && member s i = false).
  { intros i Hi. rewrite wf_ghost0 by done. by rewrite andb_false_r. }
  destruct (Z.eqb_spec (a / 64) ((b - 1) / 64)) as [E|E].
  - destruct (vupd_bits (bits s) (a / 64) _ _ (land_op (Z.lor (Z.lnot sm) (Z.lnot em))
      (fun m => negb ((a mod 64 <=? m) && (m <=? (b - 1) mod 64))) ltac:(by apply is_i_lor)
      ltac:(intros; by rewrite Z.lor_spec, !tb_lnot, Hm0, Hm1, negb_andb by lia64)))
      as (l & -> & Hl & Hn & Hbit); [done|lia64|].
    simpl. eexists. split; [done|]. apply becomes_with_bits; try done.
    intros j Hj. rewrite Hbit by done. unfold member. rewrite (andb_comm (bit _ _)).
    div64; split_cmp; done.
  - destruct (range_update_bits (fun i b => vset b i 0) (bits s) (a / 64) ((b - 1) / 64)
      _ (fun m w => w && negb (a mod 64 <=? m)) _ _ _ (fun m w => w && negb (m <=? (b - 1) mod 64))
      (land_op _ _ Hsm ltac:(intros; by rewrite tb_lnot, Hm0 by lia64))
      (const_op 0 (fun _ => false) ltac:(by apply is_i_const) ltac:(intros; by apply Z.bits_0))
      (land_op _ _ Hem ltac:(intros; by rewrite tb_lnot, Hm1 by lia64)))
      as (l & Hk & Hl & Hn & Hbit); [done|lia64..| |].
    { intros l Hl. apply for_vset_vupd; lia64. }
    rewrite Hk. eexists. split; [done|]. apply becomes_with_bits; try done.
    intros j Hj. rewrite Hbit by done. unfold member.
    destruct (bit (bits s) j); div64; split_cmp; done.
Qed.

Lemma get_member s i : wf s → 0 ≤ i < num_bits s → get s i = Ok (member s i).
Proof.
  intros Hwf Hi. pose proof (word_in_range s i Hwf Hi). pose proof Hwf as [].
  unfold get. rewrite shiftr_6. destruct (vget_in (bits s) (i / 64)) as (w & -> & Hw); [lia64|].
  simpl. f_equal. unfold member. rewrite (bit_lookup _ _ _ Hw).
  assert (Hone := fun m => one_mask i m (proj1 Hi)). set (mask := shl_i 64 1 _) in *.
  destruct (Z.eqb_spec (Z.land w mask) 0) as [E|E]; simpl.
  - assert (Z.testbit (Z.land w mask) (i mod 64) = false) as Hf by (rewrite E; apply Z.bits_0).
    rewrite Z.land_spec, Hone, Z.eqb_refl, andb_true_r in Hf by lia64. by rewrite Hf.
  - destruct (Z.testbit w (i mod 64)) eqn:Ht; [done|]. exfalso. apply E.
    apply (is_i_inj 64); [lia64|apply is_i_land; [lia64|by eapply Forall_lookup_1|apply as_i_range; lia64]
      |by apply is_i_const|].
    intros m Hm. rewrite Z.land_spec, Hone, Z.bits_0 by lia64.
    destruct (Z.eqb_spec m (i mod 64)) as [->|]; [by rewrite Ht|by rewrite andb_false_r].
Qed.

(** C32. [FixedBitSet] implements a set of indices below its length: [set],
    [clear], [batch_set] and [clear_batch] (with their word masks, aligned or
    not, within one word or across many) change the members exactly as the set
    operations do, [get] tests membership, no access leaves the allocation, and
    the ghost bits stay clear. *)
Theorem fixed_bit_set_refines_set (s : t) (i a b : Z) :
  wf s → 0 ≤ i < num_bits s → 0 ≤ a → b ≤ num_bits s →
  (∃ s', set s i = Ok s' ∧ becomes s s' (fun j => (j =? i) || member s j)) ∧
  (∃ s', clear s i = Ok s' ∧ becomes s s' (fun j => negb (j =? i) && member s j)) ∧
  (∃ s', batch_set s a b = Ok s' ∧
         becomes s s' (fun j => ((a <=? j) && (j <? b)) || member s j)) ∧
  (∃ s', clear_batch s a b = Ok s' ∧
         becomes s s' (fun j => negb ((a <=? j) && (j <? b)) && member s j)) ∧
  get s i = Ok (member s i).
Proof.
  intros Hwf Hi Ha Hb. split_and!.
  - by apply set_becomes.
  - by apply clear_becomes.
  - by apply batch_set_becomes.
  - by apply clear_batch_becomes.
  - by apply get_member.
Qed.

Lemma new_wf n : 0 ≤ n < 2 ^ 31 → wf (new n) ∧ ∀ i, member (new n) i = false.
Proof.
  intros Hn. assert (Hm : ∀ i, member (new n) i = false).
  { intros i. unfold member, new, bit. cbn [bits].
    destruct (lookup _ _) as [w|] eqn:E; [|done].
    apply lookup_replicate in E as [-> _]. apply Z.bits_0. }
  split; [|done]. constructor; unfold new; cbn [bits num_bits num_words]; try done.
  - by apply bits2words_spec.
  - rewrite bits2words_spec by done. rewrite vlen_replicate; lia64.
  - apply Forall_replicate. by apply is_i_const.
Qed.

Lemma fixed_bit_set_witness :
  (∃ s', set (new 200) 70 = Ok s' ∧ becomes (new 200) s' (fun j => (j =? 70) || member (new 200) j)) ∧
  (∃ s', clear (new 200) 70 = Ok s' ∧
         becomes (new 200) s' (fun j => negb (j =? 70) && member (new 200) j)) ∧
  (∃ s', batch_set (new 200) 3 130 = Ok s' ∧
         becomes (new 200) s' (fun j => ((3 <=? j) && (j <? 130)) || member (new 200) j)) ∧
  (∃ s', clear_batch (new 200) 3 130 = Ok s' ∧
         becomes (new 200) s' (fun j => negb ((3 <=? j) && (j <? 130)) && member (new 200) j)) ∧
  get (new 200) 70 = Ok (member (new 200) 70).
Proof.
  apply fixed_bit_set_refines_set; [apply new_wf; lia64|simpl; lia64|lia64|simpl; lia64].
Defined.

(** ** Flipping *)

(** C39. What [flip] does to the bits of a non-empty range: in the two words
    that hold the ends of the range it flips the bits *outside* the range and
    leaves those inside alone; only the whole words in between are flipped. *)
Theorem flip_actual (s : t) (a b : Z) :
  wf s → 0 ≤ a → a < b → b ≤ num_bits s →
  ∃ s', flip s a b = Ok s' ∧ num_bits s' = num_bits s ∧ ∀ j, 0 ≤ j →
    let inside := (a <=? j) && (j <? b) in
    member s' j =
      if (j / 64 =? a / 64) || (j / 64 =? (b - 1) / 64) then xorb (member s j) (negb inside)
      else xorb (member s j) inside.
Proof.
  intros Hwf Ha Hab Hb. pose proof Hwf as []. unfold flip. destruct (Z.leb_spec b a); [lia|].
  destruct (range_masks s a b Hwf) as (? & ? & ?); [lia..|]. rewrite !shiftr_6.
  assert (Hm0 := fun m => start_mask_bits a m Ha). assert (Hm1 := fun m => end_mask_bits b m ltac:(lia)).
  set (sm := shl_i 64 (-1) _) in *. set (em := unsigned_shift 64 (-1) _) in *.
  assert (is_i 64 (Z.lnot sm) ∧ is_i 64 (Z.lnot em)) as [Hsm Hem]
    by (split; apply is_i_lnot; try apply as_i_range; lia).
  destruct (Z.eqb_spec (a / 64) ((b - 1) / 64)) as [E|E].
  - destruct (vupd_bits (bits s) (a / 64) _ _ (lxor_op (Z.lor (Z.lnot sm) (Z.lnot em))
      (fun m => negb ((a mod 64 <=? m) && (m <=? (b - 1) mod 64))) ltac:(by apply is_i_lor)
      ltac:(intros; by rewrite Z.lor_spec, !tb_lnot, Hm0, Hm1, negb_andb by lia)))
      as (l & -> & Hl & Hn & Hbit); [done|lia|].
    simpl. eexists. split; [done|]. split; [done|]. intros j Hj. unfold member at 1. simpl.
    rewrite Hbit by done. unfold member. rewrite <- E, orb_diag.
    div64; split_cmp; rewrite ?xorb_false_r; done.
  - destruct (range_update_bits (fun i b => vupd b i Z.lnot) (bits s) (a / 64) ((b - 1) / 64)
      _ (fun m w => xorb w (negb (a mod 64 <=? m))) _ (fun _ w => negb w)
      _ (fun m w => xorb w (negb (m <=? (b - 1) mod 64)))
      (lxor_op _ _ Hsm ltac:(intros; by rewrite tb_lnot, Hm0 by lia))
      ltac:(intros w Hw; split; [by apply is_i_lnot|intros; by rewrite tb_lnot by lia])
      (lxor_op _ _ Hem ltac:(intros; by rewrite tb_lnot, Hm1 by lia)))
      as (l & Hk & Hl & Hn & Hbit); [done|lia..|done|].
    rewrite Hk. eexists. split; [done|]. split; [done|]. intros j Hj. unfold member at 1. cbn [bits with_bits].
    rewrite Hbit by done. unfold member.
    destruct (bit (bits s) j); div64; split_cmp; done.
Qed.

Lemma flip_actual_witness :
  ∃ s', flip (new 256) 0 256 = Ok s' ∧ num_bits s' = 256 ∧ ∀ j, 0 ≤ j →
    let inside := (0 <=? j) && (j <? 256) in
    member s' j =
      if (j / 64 =? 0 / 64) || (j / 64 =? (256 - 1) / 64) then xorb (member (new 256) j) (negb inside)
      else xorb (member (new 256) j) inside.
Proof. apply (flip_actual (new 256) 0 256); [apply new_wf; lia|lia|lia|simpl; lia]. Defined.

(** ** The lowest set bit of a word *)

Lemma trailing_zeros_bits w x : 1 ≤ w → is_i w x → x ≠ 0 →
  0 ≤ trailing_zeros w x < w ∧ Z.testbit x (trailing_zeros w x) = true ∧
  ∀ m, 0 ≤ m < trailing_zeros w x → Z.testbit x m = false.
Proof.
  intros Hw Hx Hne. assert (Hu : as_u w x ≠ 0).
  { intros E. apply Hne. rewrite <- (as_i_id w x), <- as_i_as_u, E by done.
    apply as_i_id; [done|]. by apply is_i_const. }
  pose proof (as_u_range w x ltac:(lia)) as Hr.
  destruct (trailing_zeros_spec w (as_u w x)) as (q & Hk & Hq & Ho & He); [done|destruct Hr; lia|].
  assert (Hsame : trailing_zeros w (as_u w x) = trailing_zeros w x).
  { unfold trailing_zeros. by rewrite (as_u_id w (as_u w x)). }
  rewrite Hsame in *. set (k := trailing_zeros w x) in *.
  assert (Hlow : ∀ m, m < w → Z.testbit x m = Z.testbit (as_u w x) m).
  { intros m Hm. rewrite tb_as_u by lia. split_cmp. done. }
  assert (Hkw : k < w).
  { apply (Z.pow_lt_mono_r_iff 2); [lia|lia|]. destruct Hr as [_ Hr]. rewrite He in Hr.
    pose proof (pow2_pos k Hk). nia. }
  split; [done|]. rewrite Hlow by done. split.
  - rewrite He, <- Z.shiftl_mul_pow2, tb_shiftl, Z.sub_diag, Z.bit0_odd by lia.
    by apply Z.odd_spec.
  - intros m Hm. rewrite Hlow by lia. rewrite He, <- Z.shiftl_mul_pow2, tb_shiftl by lia.
    by rewrite tb_neg by lia.
Qed.

(** ** Union and intersection *)

Lemma do_or_bits l o n : words l → words o → 0 ≤ n → n ≤ vlen l → n ≤ vlen o →
  ∃ l', for_range 0 n (fun i b => x ← vget o i; vupd b i (fun w => Z.lor w x)) l = Ok l' ∧
        words l' ∧ vlen l' = vlen l ∧
        ∀ i, 0 ≤ i → bit l' i = bit l i || ((i / 64 <? n) && bit o i).
Proof.
  intros Hl Ho Hn Hnl Hno.
  destruct (for_range_inv (fun k l' => words l' ∧ vlen l' = vlen l ∧ ∀ i, 0 ≤ i →
      bit l' i = bit l i || ((i / 64 <? k) && bit o i))
    (fun i b => x ← vget o i; vupd b i (fun w => Z.lor w x)) 0 n l Hn) as (l' & H1 & H2).
  - split_and!; try done. intros i Hi. div64. split_cmp. by rewrite orb_false_r.
  - intros k b Hk (Hb & Hlen & Hbit). destruct (vget_in o k) as (x & -> & Hx); [lia|].
    assert (is_i 64 x) as Hxi by exact (Forall_lookup_1 _ _ _ _ Ho Hx).
    simpl. destruct (vupd_bits b k _ _ (lor_op x (Z.testbit x) Hxi (fun _ _ => eq_refl)) Hb)
      as (b' & -> & Hb' & Hlen' & Hbit'); [lia|].
    exists b'. split_and!; try done; [lia|]. intros i Hi. rewrite Hbit', Hbit by done.
    destruct (Z.eqb_spec (i / 64) k) as [<-|].
    + rewrite (bit_lookup o i x Hx). split_cmp. by rewrite orb_false_r.
    + split_cmp; done.
  - by exists l'.
Qed.

Lemma intersects_loop_spec n : ∀ i a b,
  0 ≤ i → i + Z.of_nat n ≤ vlen a → i + Z.of_nat n ≤ vlen b → words a → words b →
  ∃ r, intersects_loop n i a b = Ok r ∧
       (r = true ↔ ∃ j, 64 * i ≤ j < 64 * (i + Z.of_nat n) ∧ bit a j = true ∧ bit b j = true).
Proof.
  induction n as [|n IH]; intros i a b Hi Ha Hb Hwa Hwb.
  { exists false. split; [done|]. split; [done|]. intros (j & Hj & _). lia. }
  destruct (vget_in a i) as (x & Hx & Hlx); [lia|]. destruct (vget_in b i) as (y & Hy & Hly); [lia|].
  cbn [intersects_loop]. rewrite Hx, Hy. cbn [mbind result_bind].
  assert (Hword : ∀ j, j / 64 = i → bit a j = Z.testbit x (j mod 64) ∧ bit b j = Z.testbit y (j mod 64)).
  { intros j <-. split; by apply bit_lookup. }
  assert (is_i 64 x ∧ is_i 64 y) as [Hxi Hyi]
    by (split; [exact (Forall_lookup_1 _ _ _ _ Hwa Hlx)|exact (Forall_lookup_1 _ _ _ _ Hwb Hly)]).
  destruct (Z.eqb_spec (Z.land x y) 0) as [E|E]; cbn [negb].
  - destruct (IH (i + 1) a b) as (r & -> & Hr); [lia|lia|lia|done|done|].
    exists r. split; [done|]. rewrite Hr. split; intros (j & Hj & Hja & Hjb); exists j; [split; [lia|done]|].
    destruct (decide (j / 64 = i)) as [Hji|Hji].
    + destruct (Hword j Hji) as [E1 E2]. rewrite E1 in Hja. rewrite E2 in Hjb.
      assert (Z.testbit (Z.land x y) (j mod 64) = true) as Ht by (by rewrite Z.land_spec, Hja, Hjb).
      by rewrite E, Z.bits_0 in Ht.
    + split; [lia64|done].
  - exists true. split; [done|]. split; [intros _|done].
    destruct (trailing_zeros_bits 64 (Z.land x y)) as (Hm & Ht & _);
      [lia|by apply is_i_land|done|].
    set (m := trailing_zeros 64 (Z.land x y)) in *. rewrite Z.land_spec, andb_true_iff in Ht.
    destruct Ht. exists (64 * i + m). assert (Hq : (64 * i + m) / 64 = i) by lia64.
    assert (Hr : (64 * i + m) mod 64 = m) by lia64.
    destruct (Hword _ Hq) as [-> ->]. rewrite Hr. split; [lia|done].
Qed.

(** [set_or] is set union and [intersects] decides whether two sets share
    a member, for sets of different capacities too. *)
Theorem union_and_intersects (s o : t) :
  wf s → wf o →
  (num_bits o ≤ num_bits s →
   ∃ s', set_or s o = Ok s' ∧ becomes s s' (fun i => member s i || member o i)) ∧
  (∃ r, intersects s o = Ok r ∧ (r = true ↔ ∃ i, 0 ≤ i ∧ member s i = true ∧ member o i = true)).
Proof.
  intros Hs Ho. pose proof Hs as [Hs1 Hs2 Hs3 Hs4 Hs5]. pose proof Ho as [Ho1 Ho2 Ho3 Ho4 Ho5]. split.
  - intros Hle. unfold set_or, do_or. rewrite (proj2 (Z.leb_le _ _)) by lia64.
    cbn [check mbind result_bind].
    destruct (do_or_bits (bits s) (bits o) (num_words o)) as (l & -> & Hl & Hn & Hb); [done|done|lia64..|].
    simpl. eexists. split; [done|]. apply becomes_with_bits; try done.
    + intros i Hi. rewrite Hb by done. unfold member. f_equal.
      destruct (Z.ltb_spec (i / 64) (num_words o)); [done|]. symmetry. apply Ho5. lia64.
    + intros i Hi. rewrite Hs5, Ho5 by lia. done.
  - unfold intersects.
    destruct (intersects_loop_spec (Z.to_nat (Z.min (num_words s) (num_words o))) 0 (bits s) (bits o))
      as (r & -> & Hr); [lia|lia64..|done|done|].
    exists r. split; [done|]. rewrite Hr. split; intros (j & Hj & H1 & H2); exists j; [by split; [lia|]|].
    split; [|done]. assert (j < num_bits s ∧ j < num_bits o); [|lia64].
    split; apply Z.nle_gt; intros Hge; [by rewrite Hs5 in H1|by rewrite Ho5 in H2].
Qed.

Lemma union_and_intersects_witness :
  (num_bits (new 70) ≤ num_bits (new 200) →
   ∃ s', set_or (new 200) (new 70) = Ok s' ∧
         becomes (new 200) s' (fun i => member (new 200) i || member (new 70) i)) ∧
  (∃ r, intersects (new 200) (new 70) = Ok r ∧
        (r = true ↔ ∃ i, 0 ≤ i ∧ member (new 200) i = true ∧ member (new 70) i = true)).
Proof. apply union_and_intersects; apply new_wf; lia. Defined.

(** ** Scanning *)

(** [r] is the first member from [i] on, or the end marker. *)
Definition first_from (s : t) (i r : Z) : Prop :=
  (i ≤ r < num_bits s ∧ member s r = true ∧ ∀ j, i ≤ j < r → member s j = false) ∨
  (r = NO_MORE_DOCS ∧ ∀ j, i ≤ j → member s j = false).

Lemma first_from_skip s i j r : i ≤ j → (∀ k, i ≤ k < j → member s k = false) →
  first_from s j r → first_from s i r.
Proof.
  intros Hij Hzero [(Hr & Hrm & Hno)|[-> Hno]]; [left; split_and!; [lia|lia|done|]|right; split; [done|]];
    intros k Hk; (destruct (decide (k < j)); [apply Hzero; lia|apply Hno; lia]).
Qed.

Lemma member_below s r : wf s → member s r = true → r < num_bits s.
Proof. intros [] Hr. apply Z.nle_gt. intros Hge. by rewrite wf_ghost0 in Hr. Qed.

Lemma member_word s k w : bits s !! Z.to_nat k = Some w →
  ∀ j, j / 64 = k → member s j = Z.testbit w (j mod 64).
Proof. intros Hw j <-. by apply bit_lookup. Qed.

Lemma next_word_loop_spec s n : wf s → ∀ i, 0 ≤ i → i + Z.of_nat n = Z.max i (num_words s) →
  ∃ r, next_word_loop n i s = Ok r ∧ first_from s (64 * i) r.
Proof.
  intros Hwf. pose proof Hwf as [H1 H2 H3 H4 H5].
  induction n as [|n IH]; intros i Hi Hn.
  { exists NO_MORE_DOCS. split; [done|]. right. split; [done|]. intros j Hj. apply H5. lia64. }
  destruct (vget_in (bits s) i) as (w & Hw & Hlk); [lia|]. cbn [next_word_loop]. rewrite Hw.
  cbn [mbind result_bind]. assert (is_i 64 w) as Hwi by exact (Forall_lookup_1 _ _ _ _ H4 Hlk).
  pose proof (member_word s i w Hlk) as Hm. destruct (Z.eqb_spec w 0) as [E|E]; cbn [negb].
  - destruct (IH (i + 1)) as (r & -> & Hr); [lia|lia|]. exists r. split; [done|].
    apply (first_from_skip s (64 * i) (64 * (i + 1))); [lia| |done].
    intros j Hj. rewrite Hm by lia64. subst w. apply Z.bits_0.
  - destruct (trailing_zeros_bits 64 w) as (Hk & Ht & Hlow); [lia|done|done|].
    set (k := trailing_zeros 64 w) in *.
    assert (Hmem : member s (64 * i + k) = true) by (rewrite Hm by lia64; rewrite <- Ht; f_equal; lia64).
    pose proof (member_below s _ Hwf Hmem).
    rewrite Z.shiftl_mul_pow2 by lia. rewrite !as_u_id by (unfold is_u; rewrite ?as_u_id; unfold is_u; lia).
    rewrite as_i_id by (unfold is_i; lia). eexists. split; [done|]. left.
    replace (i * 2 ^ 6 + k) with (64 * i + k) by lia. split_and!; [lia|lia|done|].
    intros j Hj. rewrite Hm by lia64. apply Hlow. lia64.
Qed.

Lemma next_set_bit_spec s index : wf s → 0 ≤ index < num_bits s →
  ∃ r, next_set_bit s index = Ok r ∧ first_from s index r.
Proof.
  intros Hwf Hi. pose proof (word_in_range s index Hwf Hi). pose proof Hwf as [H1 H2 H3 H4 H5].
  unfold next_set_bit. rewrite shiftr_6, land_63 by lia.
  destruct (vget_in (bits s) (index / 64)) as (w & -> & Hlk); [lia|]. cbn [mbind result_bind].
  assert (is_i 64 w) as Hwi by exact (Forall_lookup_1 _ _ _ _ H4 Hlk).
  pose proof (member_word s _ w Hlk) as Hm.
  set (word := shr_i w (index mod 64)).
  assert (is_i 64 word) as Hwd by (apply is_i_shr_i; [lia|lia64|done]).
  assert (Hbit : ∀ m, 0 ≤ m → Z.testbit word m = Z.testbit w (m + index mod 64)).
  { intros m Hm0. unfold word, shr_i. by rewrite tb_shiftr. }
  destruct (Z.eqb_spec word 0) as [E|E]; cbn [negb].
  - destruct (next_word_loop_spec s (Z.to_nat (num_words s - (index / 64 + 1))) Hwf (index / 64 + 1))
      as (r & -> & Hr); [lia|lia|]. exists r. split; [done|].
    apply (first_from_skip s index (64 * (index / 64 + 1))); [lia64| |done].
    intros j Hj. rewrite Hm by lia64.
    replace (j mod 64) with ((j - index) + index mod 64) by lia64.
    rewrite <- Hbit by lia. rewrite E. apply Z.bits_0.
  - destruct (trailing_zeros_bits 64 word) as (Hk & Ht & Hlow); [lia|done|done|].
    set (k := trailing_zeros 64 word) in *. pose proof (div_mod_64 index).
    assert (Hkin : k + index mod 64 < 64).
    { apply Z.nle_gt. intros Hge. rewrite Hbit in Ht by lia.
      rewrite (tb_is_i 64), <- (tb_is_i 64 w 63) in Ht by (done || lia).
      replace 63 with ((63 - index mod 64) + index mod 64) in Ht by lia.
      rewrite <- Hbit, Hlow in Ht by lia. done. }
    assert (Hmem : member s (index + k) = true).
    { rewrite Hm by lia64. rewrite <- Ht, Hbit by lia. f_equal. lia64. }
    pose proof (member_below s _ Hwf Hmem).
    rewrite !as_u_id by (unfold is_u; rewrite ?as_u_id; unfold is_u; lia).
    rewrite as_i_id by (unfold is_i; lia). eexists. split; [done|]. left.
    split_and!; [lia|lia|done|]. intros j Hj. rewrite Hm by lia64.
    replace (j mod 64) with ((j - index) + index mod 64) by lia64.
    rewrite <- Hbit by lia. apply Hlow. lia.
Qed.

(** ** Enumeration and counting *)

(** The members from [i] on, in order. *)
Definition members_from (s : t) (i : Z) : list Z :=
  filter (fun j => member s j = true) (seqZ i (num_bits s - i)).
Definition members (s : t) : list Z := members_from s 0.

Lemma filter_none (P : Z → Prop) `{∀ x, Decision (P x)} l : Forall (fun x => ¬ P x) l → filter P l = [].
Proof. induction 1; [done|]. by rewrite filter_cons, decide_False. Qed.

Lemma members_from_none s i : (∀ j, i ≤ j → member s j = false) → members_from s i = [].
Proof.
  intros Hno. apply filter_none, Forall_seqZ. intros d Hd. rewrite Hno by lia. done.
Qed.

Lemma members_from_first s i r : i ≤ r < num_bits s → member s r = true →
  (∀ j, i ≤ j < r → member s j = false) → members_from s i = r :: members_from s (r + 1).
Proof.
  intros Hr Hm Hno. unfold members_from.
  replace (num_bits s - i) with ((r - i) + (num_bits s - r)) by lia. rewrite seqZ_app by lia.
  rewrite list.filter_app, filter_none; [|apply Forall_seqZ; intros d Hd; rewrite Hno by lia; done].
  replace (i + (r - i)) with r by lia. rewrite seqZ_cons by lia.
  simpl. rewrite filter_cons, decide_True by done. do 3 f_equal; lia.
Qed.

Lemma iterator_next_spec s c : wf s → -1 ≤ c < num_bits s →
  (members_from s (c + 1) = [] ∧ ∃ it, BitSetIterator.next (BitSetIterator.mk s c) = Ok (None, it)) ∨
  (∃ r, c < r < num_bits s ∧ members_from s (c + 1) = r :: members_from s (r + 1) ∧
        BitSetIterator.next (BitSetIterator.mk s c) = Ok (Some r, BitSetIterator.mk s r)).
Proof.
  intros Hwf Hc. pose proof Hwf as [H1 _ _ _ _]. unfold BitSetIterator.next, len.
  cbn [BitSetIterator.bit_set BitSetIterator.current].
  rewrite (as_i_id 32 (num_bits s)), (as_i_id 32 (c + 1)) by (unfold is_i; lia).
  destruct (Z.leb_spec (num_bits s) (c + 1)).
  { left. split; [|by eexists]. unfold members_from. by rewrite seqZ_nil by lia. }
  rewrite as_u_id by (unfold is_u; lia).
  destruct (next_set_bit_spec s (c + 1) Hwf) as (r & -> & [(Hr & Hm & Hno)|[-> Hno]]); [lia|right|left].
  - exists r. cbn [mbind result_bind]. split_and!; [lia|lia|by apply members_from_first|].
    destruct (Z.eqb_spec r NO_MORE_DOCS); [unfold NO_MORE_DOCS in *; lia|done].
  - split; [by apply members_from_none|]. cbn [mbind result_bind]. by eexists.
Qed.

Lemma collect_spec s fuel : wf s → ∀ c, -1 ≤ c < num_bits s → num_bits s - c ≤ Z.of_nat fuel →
  BitSetIterator.collect fuel (BitSetIterator.mk s c) = Ok (members_from s (c + 1)).
Proof.
  intros Hwf. induction fuel as [|f IH]; intros c Hc Hf; [lia|].
  cbn [BitSetIterator.collect].
  destruct (iterator_next_spec s c Hwf Hc) as [(-> & it & ->)|(r & Hr & -> & ->)]; [done|].
  cbn [mbind result_bind]. by rewrite IH by lia.
Qed.

(** The number of [j] in [i, i + n) with [f j]. *)
Fixpoint cnt (f : Z → bool) (i : Z) (n : nat) : Z :=
  match n with
  | O => 0
  | S m => Z.b2z (f i) + cnt f (i + 1) m
  end.

Lemma cnt_app f n m : ∀ i, cnt f i (n + m) = cnt f i n + cnt f (i + Z.of_nat n) m.
Proof.
  induction n as [|n IH]; intros i; [cbn [cnt Nat.add]; rewrite Z.add_0_r, Z.add_0_l; done|].
  cbn [cnt Nat.add]. rewrite IH. replace (i + Z.of_nat (S n)) with (i + 1 + Z.of_nat n) by lia. lia.
Qed.

Lemma cnt_ext f g n : ∀ i j, (∀ k, 0 ≤ k < Z.of_nat n → f (i + k) = g (j + k)) → cnt f i n = cnt g j n.
Proof.
  induction n as [|n IH]; intros i j H; [done|]. cbn [cnt]. f_equal.
  - specialize (H 0). rewrite !Z.add_0_r in H. rewrite H by lia. done.
  - apply IH. intros k Hk. replace (i + 1 + k) with (i + (k + 1)) by lia.
    replace (j + 1 + k) with (j + (k + 1)) by lia. apply H. lia.
Qed.

Lemma cnt_false f n i : (∀ k, 0 ≤ k < Z.of_nat n → f (i + k) = false) → cnt f i n = 0.
Proof.
  intros H. rewrite (cnt_ext f (fun _ => false) n i 0) by done.
  clear. assert (∀ j, cnt (fun _ => false) j n = 0) as Hz; [|done].
  induction n as [|n IH]; intros j; [done|]. cbn [cnt]. by rewrite IH.
Qed.

Lemma cnt_filter f n : ∀ i, cnt f i n = vlen (filter (fun j => f j = true) (seqZ i (Z.of_nat n))).
Proof.
  induction n as [|n IH]; intros i; [done|]. rewrite seqZ_cons by lia. rewrite filter_cons.
  replace (Z.pred (Z.of_nat (S n))) with (Z.of_nat n) by lia. cbn [cnt]. rewrite IH.
  replace (Z.succ i) with (i + 1) by lia.
  destruct (f i); [rewrite decide_True by done; rewrite vlen_cons; simpl; lia|
    rewrite decide_False by done; simpl; lia].
Qed.

Lemma pos_ones_cnt p : ∀ n, Z.pos p < 2 ^ Z.of_nat n → pos_ones p = cnt (Z.testbit (Z.pos p)) 0 n.
Proof.
  induction p as [p IH|p IH|]; intros n Hn; (destruct n as [|n]; [simpl in Hn; lia|]);
    rewrite Nat2Z.inj_succ, Z.pow_succ_r in Hn by lia; cbn [pos_ones cnt].
  - rewrite (IH n) by lia. change (Z.b2z (Z.testbit (Z.pos p~1) 0)) with 1. f_equal.
    apply cnt_ext. intros k Hk. change (Z.pos p~1) with (2 * Z.pos p + 1).
    replace (0 + 1 + k) with (Z.succ k) by lia. by rewrite Z.testbit_odd_succ by lia.
  - rewrite (IH n) by lia. change (Z.b2z (Z.testbit (Z.pos p~0) 0)) with 0. rewrite Z.add_0_l.
    apply cnt_ext. intros k Hk. change (Z.pos p~0) with (2 * Z.pos p).
    replace (0 + 1 + k) with (Z.succ k) by lia. by rewrite Z.testbit_even_succ by lia.
  - rewrite cnt_false; [done|]. intros k Hk. replace (0 + 1 + k) with (Z.succ k) by lia.
    change 1 with (2 * 0 + 1). rewrite Z.testbit_odd_succ by lia. apply Z.bits_0.
Qed.

Lemma count_ones_cnt w : count_ones 64 w = cnt (Z.testbit w) 0 64.
Proof.
  transitivity (cnt (Z.testbit (as_u64 w)) 0 64).
  - unfold count_ones. pose proof (as_u_range 64 w ltac:(lia)) as [H1 H2].
    destruct (as_u64 w) as [|p|p] eqn:E; [|by apply pos_ones_cnt|lia].
    symmetry. apply cnt_false. intros. apply Z.bits_0.
  - apply cnt_ext. intros k Hk. rewrite tb_as_u by lia. split_cmp. done.
Qed.

Lemma pop_words l : ∀ acc,
  foldl (fun c a => c + count_ones 64 a) acc l = acc + cnt (bit l) 0 (length l * 64).
Proof.
  induction l as [|w l IH] using rev_ind; intros acc; [simpl; lia|].
  rewrite foldl_app, IH. simpl foldl. rewrite length_app. simpl length.
  replace ((length l + 1) * 64)%nat with (length l * 64 + 64)%nat by lia.
  rewrite (cnt_app (bit (l ++ [w])) (length l * 64) 64), <- Z.add_assoc. do 2 f_equal.
  - apply cnt_ext. intros k Hk. unfold bit. rewrite lookup_app_l; [done|]. lia64.
  - rewrite count_ones_cnt. apply cnt_ext. intros k Hk.
    assert (Z.to_nat ((0 + Z.of_nat (length l * 64) + k) / 64) = length l) as E by lia64.
    unfold bit. rewrite E, list_lookup_middle by done. f_equal. lia64.
Qed.

Lemma cardinality_members s : wf s → cardinality s = vlen (members s).
Proof.
  intros [H1 H2 H3 H4 H5]. unfold cardinality, pop_array. rewrite drop_0.
  rewrite pop_words, Z.add_0_l, length_take, min_l by (unfold vlen in *; lia).
  unfold members, members_from. rewrite Z.sub_0_r.
  replace (num_bits s) with (Z.of_nat (Z.to_nat (num_bits s))) by lia. rewrite <- cnt_filter.
  replace (Z.to_nat (num_words s) * 64)%nat with
    (Z.to_nat (num_bits s) + (Z.to_nat (num_words s) * 64 - Z.to_nat (num_bits s)))%nat by lia64.
  rewrite cnt_app, (cnt_false _ (_ * 64 - _)), Z.add_0_r; [apply cnt_ext|];
    intros k Hk; rewrite ?Z.add_0_l.
  - unfold member, bit. rewrite lookup_take_lt; [done|]. lia64.
  - rewrite <- (H5 (Z.of_nat (Z.to_nat (num_bits s)) + k)) by lia.
    unfold member, bit. rewrite lookup_take_lt; [done|]. lia64.
Qed.

(** C33. Scanning a bit set: [next_set_bit] finds the first member from an
    index on (or the end marker), the iterator lists exactly the members in
    increasing order and ends, and [cardinality] counts them. *)
Theorem scanning (s : t) (index : Z) :
  wf s → 0 ≤ index < num_bits s →
  (∃ r, next_set_bit s index = Ok r ∧ first_from s index r) ∧
  BitSetIterator.collect (S (Z.to_nat (num_bits s))) (BitSetIterator.new s) = Ok (members s) ∧
  cardinality s = vlen (members s).
Proof.
  intros Hwf Hi. split_and!.
  - by apply next_set_bit_spec.
  - unfold BitSetIterator.new. rewrite collect_spec by (done || lia). done.
  - by apply cardinality_members.
Qed.

Lemma scanning_witness :
  (∃ r, next_set_bit (new 200) 65 = Ok r ∧ first_from (new 200) 65 r) ∧
  BitSetIterator.collect (S (Z.to_nat (num_bits (new 200)))) (BitSetIterator.new (new 200))
    = Ok (members (new 200)) ∧
  cardinality (new 200) = vlen (members (new 200)).
Proof. apply scanning; [apply new_wf; lia|simpl; lia]. Defined.

(** ** Adding the documents of an iterator *)

Section or_iterator.
Context {It : Type} `{HIt : DocIterator It} `{HD : !Docs It}.

Lemma becomes_trans s1 s2 s3 P Q : becomes s1 s2 P → becomes s2 s3 Q → becomes s1 s3 Q.
Proof. intros (_ & H2 & H3 & _) (H4 & H5 & H6 & H7). split_and!; [done|congruence|congruence|done]. Qed.

Lemma becomes_ext s s' P Q : becomes s s' P → (∀ i, 0 ≤ i → P i = Q i) → becomes s s' Q.
Proof. intros (H1 & H2 & H3 & H4) HPQ. split_and!; try done. intros i Hi. rewrite H4 by done. by apply HPQ. Qed.

Lemma or_loop_spec fuel : ∀ s (it : It), wf s → sound it → doc_id it ≠ NO_MORE_DOCS → -1 ≤ doc_id it →
  Forall (fun d => d < num_bits s) (remaining it) → (length (remaining it) < fuel)%nat →
  ∃ s' it', or_loop fuel s it = Ok (s', it') ∧
            becomes s s' (fun i => bool_decide (i ∈ remaining it) || member s i).
Proof.
  induction fuel as [|f IH]; intros s it Hwf Hs Hne Hge Hall Hf; [lia|].
  destruct (step_next it Hs Hne) as (it1 & Hn & Hs1 & Hd1 & Hr1).
  pose proof (sound_sorted it Hs) as Hsort. cbn [or_loop]. rewrite Hn. cbn [mbind result_bind].
  destruct (remaining it) as [|d l] eqn:El; cbn [hd_doc tail] in *.
  { exists s, it1. split; [done|]. split_and!; try done. }
  apply Forall_cons_iff in Hall as [Hd Hall]. pose proof Hwf as [Hb _ _ _ _].
  apply Sorted.StronglySorted_inv in Hsort.
  destruct Hsort as [_ Hgt]. apply Forall_cons_iff in Hgt as [Hgt _].
  destruct (Z.eqb_spec d NO_MORE_DOCS); [unfold NO_MORE_DOCS in *; lia|].
  rewrite as_u_id by (unfold is_u; lia).
  destruct (set_becomes s d Hwf) as (s1 & -> & Hb1); [lia|]. cbn [mbind result_bind].
  pose proof Hb1 as (Hwf1 & Hn1 & _ & Hm1).
  destruct (IH s1 it1) as (s2 & it2 & -> & Hb2); [done|done|lia|lia| | |].
  { rewrite Hr1, Hn1. done. }
  { rewrite Hr1. simpl in Hf. lia. }
  exists s2, it2. split; [done|].
  apply (becomes_ext s s2 _ _ (becomes_trans _ _ _ _ _ Hb1 Hb2)). intros i Hi. rewrite Hm1, Hr1 by done.
  destruct (Z.eqb_spec i d) as [->|Hne']; cbn [orb].
  - rewrite orb_true_r. symmetry. apply orb_true_iff. left. apply bool_decide_eq_true. set_solver.
  - f_equal. apply bool_decide_ext. set_solver.
Qed.
End or_iterator.

(** [or] adds exactly the documents an unpositioned iterator has to give
    and ends with it, for any iterator that keeps the contract of
    [DocIterator]; a positioned iterator is refused with [IllegalState]. *)
Theorem or_adds_iterator {It : Type} `{HIt : DocIterator It} `{HD : !Docs It} (s : t) (it : It) :
  wf s → sound it → Forall (fun d => d < num_bits s) (remaining it) →
  (doc_id it = -1 →
   ∃ s' it', or (S (length (remaining it))) s it = Ok (s', it') ∧
             becomes s s' (fun i => bool_decide (i ∈ remaining it) || member s i)) ∧
  (doc_id it ≠ -1 → or (S (length (remaining it))) s it = Err IllegalState).
Proof.
  intros Hwf Hs Hall. unfold or, assert_unpositioned. split; intros Hd.
  - rewrite Hd. cbn [Z.eqb negb Pos.eqb mbind result_bind]. apply or_loop_spec; try done; lia || (rewrite Hd; done).
  - by rewrite (proj2 (Z.eqb_neq _ _) Hd).
Qed.

Lemma or_adds_iterator_witness :
  let s := new 200 in let it := VecDocIterator.new [3; 70; 199] in
  (doc_id it = -1 →
   ∃ s' it', or (S (length (remaining it))) s it = Ok (s', it') ∧
             becomes s s' (fun i => bool_decide (i ∈ remaining it) || member s i)) ∧
  (doc_id it ≠ -1 → or (S (length (remaining it))) s it = Err IllegalState).
Proof.
  intros s it. apply or_adds_iterator.
  - apply new_wf. lia.
  - apply vec_new_sound; [repeat constructor; lia|repeat constructor; reflexivity|reflexivity].
  - repeat constructor; reflexivity.
Defined.

(** ** Construction and growth *)

Lemma mask_clear w n : is_i 64 w → 0 ≤ n → n mod 64 ≠ 0 →
  (Z.land w (shl_i 64 (-1) (Z.land n 0x3f)) =? 0) = true ↔
  ∀ m, n mod 64 ≤ m < 64 → Z.testbit w m = false.
Proof.
  intros Hw Hn Hne. assert (Hm := fun m => start_mask_bits n m Hn). set (mask := shl_i 64 _ _) in *.
  rewrite Z.eqb_eq. split.
  - intros E m Hlt. assert (Z.testbit (Z.land w mask) m = false) as Ht by (rewrite E; apply Z.bits_0).
    rewrite Z.land_spec, Hm in Ht by lia64. revert Ht. split_cmp. by rewrite andb_true_r.
  - intros Hz. apply (is_i_inj 64); [lia|apply is_i_land; [lia|done|apply as_i_range; lia]|by apply is_i_const|].
    intros m Hlt. rewrite Z.land_spec, Hm, Z.bits_0 by lia.
    destruct (Z.leb_spec (n mod 64) m); [rewrite Hz by lia; done|by rewrite andb_false_r].
Qed.

Lemma trailing_zeros_6 n : 0 ≤ n < 2 ^ 31 → (6 <=? trailing_zeros 64 n) = (n mod 64 =? 0).
Proof.
  intros Hn. destruct (decide (n = 0)) as [->|Hne]; [done|].
  destruct (trailing_zeros_bits 64 n) as (Hk & Ht & Hlow); [lia|unfold is_i; lia|done|].
  set (k := trailing_zeros 64 n) in *. assert (n mod 64 = 0 ↔ 6 ≤ k) as Hiff.
  { split.
    - intros E. apply Z.nlt_ge. intros Hlt.
      rewrite <- (Z.mod_pow2_bits_low n 6) in Ht by lia. change (2 ^ 6) with 64 in Ht.
      by rewrite E, Z.bits_0 in Ht.
    - intros Hge. apply Z.bits_inj'. intros m Hm. rewrite Z.bits_0. change 64 with (2 ^ 6).
      destruct (decide (m < 6)); [rewrite Z.mod_pow2_bits_low by lia; apply Hlow; lia|].
      apply Z.mod_pow2_bits_high. lia. }
  destruct (Z.leb_spec 6 k), (Z.eqb_spec (n mod 64) 0); try done; lia.
Qed.

Lemma forallb_zero l : words l → forallb (fun w => w =? 0) l = true ↔ ∀ i, 0 ≤ i → bit l i = false.
Proof.
  intros Hl. rewrite forallb_forall. split.
  - intros Hz i Hi. unfold bit. destruct (l !! Z.to_nat (i / 64)) as [w|] eqn:E; [|done].
    apply list_elem_of_lookup_2 in E. specialize (Hz w (proj1 (list_elem_of_In _ _) E)).
    apply Z.eqb_eq in Hz as ->. apply Z.bits_0.
  - intros Hz w Hw. apply list_elem_of_In, list_elem_of_lookup in Hw as [k Hk]. apply Z.eqb_eq.
    apply (is_i_inj 64); [lia|exact (Forall_lookup_1 _ _ _ _ Hl Hk)|by apply is_i_const|].
    intros m Hm. rewrite Z.bits_0, <- (Hz (64 * Z.of_nat k + m)) by lia.
    assert (Z.to_nat ((64 * Z.of_nat k + m) / 64) = k) as E by lia64.
    rewrite (bit_lookup l _ w) by (by rewrite E). f_equal. lia64.
Qed.

Lemma bit_drop l k i : 0 ≤ k → 0 ≤ i → bit (drop (Z.to_nat k) l) i = bit l (64 * k + i).
Proof.
  intros Hk Hi. unfold bit. rewrite lookup_drop.
  assert ((64 * k + i) / 64 = k + i / 64) as -> by lia64.
  assert ((64 * k + i) mod 64 = i mod 64) as -> by lia64.
  rewrite Z2Nat.inj_add by lia64. done.
Qed.

Lemma verify_ghost_bits_clear_spec l n : words l → 0 ≤ n < 2 ^ 31 → (n + 63) / 64 ≤ vlen l →
  ∃ r, verify_ghost_bits_clear (mk l n ((n + 63) / 64)) = Ok r ∧
       (r = true ↔ ∀ i, n ≤ i → bit l i = false).
Proof.
  intros Hl Hn Hlen. unfold verify_ghost_bits_clear. cbn [bits num_bits num_words].
  set (nw := (n + 63) / 64) in *. assert (0 ≤ nw) by (unfold nw; lia64).
  pose proof (forallb_zero (drop (Z.to_nat nw) l) (Forall_drop _ _ _ Hl)) as Hdrop.
  assert (Hhigh : (∀ i, 0 ≤ i → bit (drop (Z.to_nat nw) l) i = false) ↔ ∀ i, 64 * nw ≤ i → bit l i = false).
  { split; intros Hz i Hi; [|rewrite bit_drop by done; apply Hz; lia].
    specialize (Hz (i - 64 * nw)). rewrite bit_drop in Hz by lia.
    replace (64 * nw + (i - 64 * nw)) with i in Hz by lia. apply Hz. lia. }
  rewrite Hhigh in Hdrop. clear Hhigh.
  destruct (forallb _ _).
  2: { exists false. split; [done|]. split; [done|]. intros Hz.
       apply Hdrop. intros i Hi. apply Hz. unfold nw in Hi. lia64. }
  assert (Hz64 : ∀ i, 64 * nw ≤ i → bit l i = false) by (by apply Hdrop). clear Hdrop.
  rewrite trailing_zeros_6 by done. destruct (Z.eqb_spec (n mod 64) 0) as [E|E].
  { exists true. split; [done|]. split; [intros _|done]. intros i Hi. apply Hz64. unfold nw. lia64. }
  assert (Hw1 : 64 * (nw - 1) = n - n mod 64) by (unfold nw; lia64).
  pose proof (div_mod_64 n). destruct (vget_in l (nw - 1)) as (w & -> & Hw); [lia|].
  cbn [mbind result_bind]. eexists. split; [done|].
  rewrite mask_clear by (done || lia || exact (Forall_lookup_1 _ _ _ _ Hl Hw)).
  assert (Hword : ∀ i, i / 64 = nw - 1 → bit l i = Z.testbit w (i mod 64)).
  { intros i Hi. apply bit_lookup. by rewrite Hi. }
  split; intros Hz i Hi.
  - destruct (decide (64 * nw ≤ i)); [by apply Hz64|]. rewrite Hword by lia64. apply Hz. lia64.
  - specialize (Hz (64 * (nw - 1) + i) ltac:(lia)). rewrite Hword in Hz by lia64.
    rewrite <- Hz. f_equal. lia64.
Qed.

Lemma bit_resize l k i : 0 ≤ i → vlen l ≤ k → bit (vresize l k) i = bit l i.
Proof.
  intros Hi Hk. unfold vresize, bit, vlen in *. rewrite take_ge by lia.
  destruct (decide (Z.to_nat (i / 64) < length l)%nat).
  - by rewrite lookup_app_l by done.
  - rewrite lookup_app_r, (lookup_ge_None_2 l) by lia.
    destruct (replicate _ _ !! _) eqn:E; [|done]. apply lookup_replicate in E as [-> _]. apply Z.bits_0.
Qed.

(** A bit set is built from stored words only when they are enough
    ([IllegalArgument] otherwise) and the bits past the end are clear (a panic
    otherwise); the result is well formed. *)
Theorem copy_from_checks (l : list Z) (n : Z) :
  words l → 0 ≤ n < 2 ^ 31 →
  (vlen l < (n + 63) / 64 → copy_from l n = Err IllegalArgument) ∧
  ((n + 63) / 64 ≤ vlen l → (∀ i, n ≤ i → bit l i = false) →
   ∃ s, copy_from l n = Ok s ∧ wf s ∧ num_bits s = n ∧ ∀ i, member s i = bit l i) ∧
  ((n + 63) / 64 ≤ vlen l → (∃ i, n ≤ i ∧ bit l i = true) → copy_from l n = Panic).
Proof.
  intros Hl Hn. unfold copy_from. rewrite bits2words_spec by done. split_and!.
  - intros Hlt. by rewrite (proj2 (Z.ltb_lt _ _) Hlt).
  - intros Hge Hz. rewrite (proj2 (Z.ltb_ge _ _) Hge).
    destruct (verify_ghost_bits_clear_spec l n Hl Hn Hge) as (r & -> & Hr).
    rewrite (proj2 Hr Hz). cbn [mbind result_bind check]. eexists. split; [done|].
    split_and!; done.
  - intros Hge (i & Hi & Ht). rewrite (proj2 (Z.ltb_ge _ _) Hge).
    destruct (verify_ghost_bits_clear_spec l n Hl Hn Hge) as (r & -> & Hr).
    destruct r; [|done]. by rewrite (proj1 Hr eq_refl i Hi) in Ht.
Qed.

Lemma copy_from_checks_witness :
  let l := [5; 0] in
  (vlen l < (65 + 63) / 64 → copy_from l 65 = Err IllegalArgument) ∧
  ((65 + 63) / 64 ≤ vlen l → (∀ i, 65 ≤ i → bit l i = false) →
   ∃ s, copy_from l 65 = Ok s ∧ wf s ∧ num_bits s = 65 ∧ ∀ i, member s i = bit l i) ∧
  ((65 + 63) / 64 ≤ vlen l → (∃ i, 65 ≤ i ∧ bit l i = true) → copy_from l 65 = Panic).
Proof.
  intros l. apply copy_from_checks; [|lia].
  unfold l. constructor; [unfold is_i; lia|constructor; [unfold is_i; lia|constructor]].
Defined.

(** Growing a bit set whose words are all in use makes index [n] valid and
    changes no member. *)
Theorem ensure_capacity_grows (s : t) (n : Z) :
  wf s → vlen (bits s) = num_words s → 0 ≤ n < 2 ^ 31 - 128 →
  let s' := ensure_capacity s n in
  wf s' ∧ vlen (bits s') = num_words s' ∧ n < num_bits s' ∧ num_bits s ≤ num_bits s' ∧
  ∀ i, 0 ≤ i → member s' i = member s i.
Proof.
  intros Hwf Hlen Hn s'. pose proof Hwf as [H1 H2 H3 H4 H5]. unfold s', ensure_capacity.
  destruct (Z.leb_spec (num_bits s) n); [|split_and!; done || lia].
  rewrite bits2words_spec by lia. rewrite (proj2 (Z.leb_le _ _)) by lia64.
  set (w := (n + 63) / 64). rewrite Z.shiftl_mul_pow2 by lia. change (2 ^ 6) with 64.
  assert (Hbits : ∀ i, 0 ≤ i → bit (vresize (bits s) (w + 1)) i = bit (bits s) i).
  { intros i Hi. apply bit_resize; [done|]. unfold w. lia64. }
  assert (Hl : vlen (vresize (bits s) (w + 1)) = w + 1).
  { unfold vresize, vlen in *. rewrite length_app, length_take, length_replicate. unfold w. lia64. }
  unfold member. cbn [bits num_bits num_words].
  split_and!; try done; try (unfold w; lia64).
  constructor; unfold member; cbn [bits num_bits num_words].
  - unfold w. lia64.
  - unfold w. lia64.
  - lia.
  - unfold vresize. apply Forall_app. split; [by apply Forall_take|].
    apply Forall_replicate. by apply is_i_const.
  - intros i Hi. rewrite Hbits by (unfold w in Hi; lia64). apply H5. unfold w in Hi. lia64.
Qed.

Lemma ensure_capacity_witness :
  let s' := ensure_capacity (new 70) 128 in
  wf s' ∧ vlen (bits s') = num_words s' ∧ 128 < num_bits s' ∧ num_bits (new 70) ≤ num_bits s' ∧
  ∀ i, 0 ≤ i → member s' i = member (new 70) i.
Proof. apply ensure_capacity_grows; [apply new_wf; lia|reflexivity|lia]. Defined.
