(* ===== verification/SparseBitsFacts.v ===== *)
(** Correctness of the searching [SparseBits] of bits.rs. *)

From S2P Require Import Prelude DataIO Numeric BitSets.
Import SparseBits.

Section sparse_bits.
(** The ids are a strictly increasing sequence below [max_doc s]. *)
Context (doc_ids : Z → result Z) (ids : Z → Z) (s : SparseBits.t).
Abbreviation n := (doc_ids_length s).

Record ids_ok : Prop := {
  ids_len : 0 ≤ n < 2 ^ 31;
  ids_max : 0 ≤ max_doc s;
  ids_get : ∀ i, 0 ≤ i < n → doc_ids i = Ok (ids i);
  ids_mono : ∀ i j, 0 ≤ i < j → j < n → ids i < ids j;
  ids_range : ∀ i, 0 ≤ i < n → 0 ≤ ids i < max_doc s;
  ids_first : first_doc_id s = if decide (n = 0) then max_doc s else ids 0;
}.

(** The document at position [i] of the sequence extended with [-1] before it
    and [max_doc] after it. *)
Definition at_pos (i : Z) : Z :=
  if decide (i < 0) then -1 else if decide (i < n) then ids i else max_doc s.

(** A context is consistent: it names a position and the documents around it. *)
Definition consistent (c : ctx) : Prop :=
  -1 ≤ index c < Z.max 0 n ∧ doc_id c = at_pos (index c) ∧ next_doc_id c = at_pos (index c + 1).

Context (Hok : ids_ok).

Lemma at_pos_mono i j : -1 ≤ i < j → j ≤ n → at_pos i < at_pos j.
Proof using Hok.
  intros Hi Hj. destruct Hok as [Hl H0 _ Hm Hr _]. unfold at_pos.
  repeat case_decide; try lia.
  - pose proof (Hr j). lia.
  - apply Hm; lia.
  - pose proof (Hr i). lia.
Qed.

Lemma at_pos_le i j : -1 ≤ i ≤ j → j ≤ n → at_pos i ≤ at_pos j.
Proof using Hok.
  intros Hi Hj. destruct (decide (i = j)) as [->|]; [lia|].
  pose proof (at_pos_mono i j). lia.
Qed.

Lemma at_pos_in i : 0 ≤ i < n → at_pos i = ids i ∧ doc_ids i = Ok (at_pos i).
Proof using Hok.
  intros Hi. unfold at_pos. rewrite decide_False, decide_True by lia.
  split; [done|]. by apply ids_get.
Qed.

Lemma gallop_loop_spec fuel target : target < max_doc s → ∀ c hi,
  0 ≤ index c < n → doc_id c = at_pos (index c) → at_pos (index c) ≤ target →
  index c < hi → hi - index c ≤ 2 ^ 33 → n < (hi - index c) * 2 ^ Z.of_nat fuel →
  ∃ hi' c', gallop_loop doc_ids (S fuel) s c hi target = Ok (hi', c') ∧
    0 ≤ index c' < hi' ∧ hi' ≤ n ∧ doc_id c' = at_pos (index c') ∧ next_doc_id c' = at_pos hi' ∧
    at_pos (index c') ≤ target < at_pos hi'.
Proof using Hok.
  intros Ht. pose proof (ids_len Hok) as Hl.
  induction fuel as [|f IH]; intros c hi Hc Hd Hle Hlt Hdelta Hf; cbn [gallop_loop].
  all: destruct (Z.leb_spec n hi) as [Hend|Hin];
    [exists n, (mk_ctx (index c) (doc_id c) (max_doc s)); cbn [index doc_id next_doc_id];
     assert (at_pos n = max_doc s) as -> by (unfold at_pos; by rewrite !decide_False by lia);
     split_and!; done || lia|].
  { simpl in Hf. lia. }
  destruct (at_pos_in hi) as [_ ->]; [lia|]. cbn [mbind result_bind].
  destruct (Z.ltb_spec target (at_pos hi)).
  { exists hi, (mk_ctx (index c) (doc_id c) (at_pos hi)). cbn [index doc_id next_doc_id].
    split_and!; done || lia. }
  rewrite Nat2Z.inj_succ, Z.pow_succ_r in Hf by lia.
  assert (hi + 2 * (hi - index c) < 2 ^ 63) by lia.
  unfold shl_i. rewrite Z.shiftl_mul_pow2 by lia. rewrite (as_i_id 64 (_ * _)) by (unfold is_i; lia).
  rewrite as_i_id by (unfold is_i; lia).
  apply IH; cbn [index doc_id next_doc_id]; done || lia.
Qed.

Lemma binary_search_spec fuel target : ∀ c hi,
  0 ≤ index c < hi → hi ≤ n → hi - index c ≤ 2 ^ Z.of_nat fuel →
  doc_id c = at_pos (index c) → next_doc_id c = at_pos hi → at_pos (index c) ≤ target < at_pos hi →
  ∃ c', binary_search doc_ids fuel c hi target = Ok c' ∧ consistent c' ∧
        doc_id c' ≤ target < next_doc_id c'.
Proof using Hok.
  induction fuel as [|f IH]; intros c hi Hc Hhi Hf Hd Hn Hb; cbn [binary_search];
    destruct (Z.ltb_spec (index c + 1) hi).
  - simpl in Hf. lia.
  - exists c. split; [done|]. replace hi with (index c + 1) in * by lia.
    unfold consistent. split_and!; done || lia.
  - rewrite Nat2Z.inj_succ, Z.pow_succ_r in Hf by lia.
    pose proof (Z.quot_rem' (hi - index c) 2).
    pose proof (Z.rem_bound_pos (hi - index c) 2 ltac:(lia) ltac:(lia)).
    set (mid := index c + Z.quot (hi - index c) 2).
    destruct (at_pos_in mid) as [_ ->]; [lia|]. cbn [mbind result_bind].
    destruct (Z.ltb_spec target (at_pos mid)); apply IH; cbn [index doc_id next_doc_id];
      try done; lia.
  - exists c. split; [done|]. replace hi with (index c + 1) in * by lia.
    unfold consistent. split_and!; done || lia.
Qed.

Lemma check_invariants_spec c hi target :
  -1 ≤ index c < hi → hi ≤ n → doc_id c = at_pos (index c) → next_doc_id c = at_pos hi →
  at_pos (index c) ≤ target < at_pos hi → check_invariants doc_ids s c hi target = Ok tt.
Proof using Hok.
  intros Hc Hhi Hd Hn [Hb1 Hb2]. unfold check_invariants. rewrite Hd, Hn.
  rewrite (proj2 (Z.ltb_ge _ _) Hb1), (proj2 (Z.leb_gt _ _) Hb2). cbn [orb].
  assert ((if (index c =? -1) && (at_pos (index c) =? -1) then Ok true
           else v ← doc_ids (index c); Ok (at_pos (index c) =? v)) = Ok true) as ->.
  { destruct (Z.eqb_spec (index c) (-1)) as [->|]; [done|]. cbn [andb].
    destruct (at_pos_in (index c)) as [_ ->]; [lia|]. cbn. by rewrite Z.eqb_refl. }
  cbn [mbind result_bind negb].
  assert ((if (hi =? n) && (at_pos hi =? max_doc s) then Ok true
           else v ← doc_ids hi; Ok (at_pos hi =? v)) = Ok true) as ->; [|done].
  destruct (Z.eqb_spec hi n) as [->|]; cbn [andb].
  - assert (at_pos n = max_doc s) as -> by (unfold at_pos; by rewrite !decide_False by lia).
    by rewrite Z.eqb_refl.
  - destruct (at_pos_in hi) as [_ ->]; [lia|]. cbn. by rewrite Z.eqb_refl.
Qed.

(** The answer is right when the target lies between two neighbours. *)
Lemma neighbours_decide c target : consistent c → 0 ≤ target →
  doc_id c ≤ target < next_doc_id c →
  (target =? doc_id c) = true ↔ ∃ i, 0 ≤ i < n ∧ ids i = target.
Proof using Hok.
  intros (Hi & Hd & Hn) H0 Ht. rewrite Z.eqb_eq. pose proof (ids_len Hok). split.
  - intros E. exists (index c). assert (0 ≤ index c).
    { apply Z.nlt_ge. intros Hneg. unfold at_pos in Hd. rewrite decide_True in Hd by lia. lia. }
    split; [lia|]. destruct (at_pos_in (index c)) as [<- _]; lia.
  - intros (i & Hin & <-). destruct (at_pos_in i Hin) as [Hai _]. rewrite <- Hai in *.
    rewrite Hd in *. rewrite Hn in Ht.
    destruct (Z.lt_trichotomy i (index c)) as [Hlt|[->|Hgt]]; [|done|].
    + pose proof (at_pos_mono i (index c)). lia.
    + pose proof (at_pos_le (index c + 1) i). lia.
Qed.

Lemma get64_spec c target : consistent c → 0 ≤ target < max_doc s →
  ∃ b c', get64 doc_ids s c target = Ok (b, c') ∧ consistent c' ∧
          (b = true ↔ ∃ i, 0 ≤ i < n ∧ ids i = target).
Proof using Hok.
  intros Hc Ht. pose proof (ids_len Hok) as Hl. unfold get64.
  set (c0 := if target <? doc_id c then _ else c).
  assert (consistent c0 ∧ doc_id c0 ≤ target) as [Hc0 Hle].
  { unfold c0. destruct (Z.ltb_spec target (doc_id c)); [|done]. unfold ctx_reset, consistent.
    cbn [index doc_id next_doc_id]. rewrite (ids_first Hok).
    split; [|lia]. split; [lia|]. split; [done|]. unfold at_pos.
    repeat case_decide; done || lia. }
  assert (∃ c1, (if next_doc_id c0 <=? target then exponential_search doc_ids s c0 target else Ok c0) = Ok c1 ∧
    consistent c1 ∧ doc_id c1 ≤ target < next_doc_id c1) as (c1 & -> & Hc1 & Hb1).
  { destruct (Z.leb_spec (next_doc_id c0) target) as [Hge|Hlt]; [|exists c0; split_and!; done].
    destruct Hc0 as (Hi & Hd & Hn). assert (index c0 + 1 < n).
    { apply Z.nle_gt. intros Hge'. unfold at_pos in Hn. rewrite !decide_False in Hn by lia. lia. }
    unfold exponential_search, gallop. cbn [index doc_id next_doc_id].
    destruct (gallop_loop_spec 63 target (proj2 Ht) (mk_ctx (index c0 + 1) (next_doc_id c0) (next_doc_id c0))
      (index c0 + 1 + 1)) as (hi & c1 & -> & Hi1 & Hhi & Hd1 & Hn1 & Hb1);
      cbn [index doc_id next_doc_id]; try done; try lia.
    cbn [mbind result_bind]. rewrite check_invariants_spec by (done || lia). cbn [mbind result_bind].
    apply binary_search_spec; done || (simpl; lia). }
  cbn [mbind result_bind]. pose proof Hc1 as (Hi1 & Hd1 & Hn1).
  rewrite check_invariants_spec by (done || lia || (split; lia)). cbn [mbind result_bind].
  eexists _, c1. split; [done|]. split; [done|]. apply neighbours_decide; done || lia.
Qed.

End sparse_bits.

(** Looking up a document in [SparseBits], from any position an earlier
    lookup left the context in, answers whether the document is one of the ids:
    the galloping and the binary search end within their bounds, never trip the
    internal checks, and leave the context consistent for the next lookup. *)
Theorem sparse_bits_get64 (doc_ids : Z → result Z) (ids : Z → Z) (s : SparseBits.t) (c : ctx)
    (target : Z) :
  ids_ok doc_ids ids s → consistent ids s c → 0 ≤ target < max_doc s →
  ∃ b c', get64 doc_ids s c target = Ok (b, c') ∧ consistent ids s c' ∧
          (b = true ↔ ∃ i, 0 ≤ i < doc_ids_length s ∧ ids i = target).
Proof. intros Hok. by apply get64_spec. Qed.

Lemma sparse_bits_get64_witness :
  let s := SparseBits.mk 100 20 1 in
  ∃ b c', get64 (fun i => Ok (4 * i + 1)) s (context s) 33 = Ok (b, c') ∧
          consistent (fun i => 4 * i + 1) s c' ∧
          (b = true ↔ ∃ i, 0 ≤ i < doc_ids_length s ∧ 4 * i + 1 = 33).
Proof.
  intros s. apply (sparse_bits_get64 _ (fun i => 4 * i + 1)); cbn [max_doc doc_ids_length s].
  - constructor; cbn [max_doc doc_ids_length first_doc_id s]; try done; intros; try lia.
  - unfold consistent. cbn. split_and!; done || lia.
  - lia.
Defined.
