(* ===== verification/PackedBulk.v ===== *)
(** Bulk encoding of packed integers: [BulkOperationPacked],
    [BulkOperationPackedSingleBlock] and their sum of
    src/core/util/packed/packed_misc.rs.

    [values] and [blocks] are slices updated in place: an encoder takes the
    blocks and returns them, a decoder the values.  A loop state keeps the
    mutable locals of the source in the order of their declarations. *)

From S2P Require Import Prelude DataIO Numeric.

(** [x & 0xffff_ffff] of an [i32] widened to [i64]. *)
Definition low32 (v : Z) : Z := Z.land v 0xffffffff.

(** * BulkOperationPacked *)

Module BulkOperationPacked.

Record t : Type := mk {
  bits_per_value : Z;
  long_block_count : Z;
  long_value_count : Z;
  byte_block_count : Z;
  byte_value_count : Z;
  mask : Z;
  int_mask : Z;
}.

(** [bits_per_value] is positive, so halving it ends after at most six rounds;
    the second loop halves the byte counts at most three times. *)
Definition new (bits_per_value : Z) : result t :=
  blocks ← while_fuel 64 (fun b => Z.land b 1 =? 0) (fun b => Ok (Z.shiftr b 1)) bits_per_value;
  let long_block_count := blocks in
  let long_value_count := 64 * long_block_count / bits_per_value in
  '(byte_block_count, byte_value_count) ←
    while_fuel 64 (fun '(bb, bv) => (Z.land bb 1 =? 0) && (Z.land bv 1 =? 0))
      (fun '(bb, bv) => Ok (Z.shiftr bb 1, Z.shiftr bv 1)) (8 * blocks, long_value_count);
  let mask := if bits_per_value =? 64 then -1 else as_i64 (shl_i 64 1 bits_per_value - 1) in
  Ok (mk (as_i32 bits_per_value) long_block_count long_value_count byte_block_count
         byte_value_count mask (as_i32 mask)).

(** ** Encoding *)

Record enc : Type := mk_enc {
  next_block : Z;
  bits_left : Z;
  values_offset : Z;
  blocks_offset : Z;
  out : list Z;
}.

Section op.
Context (op : t).
Abbreviation bpv := (bits_per_value op).

Definition encode_long_to_long_step (values : list Z) (s : enc) : result enc :=
  let '(mk_enc next_block bits_left voff boff blocks) := s in
  let bits_left := bits_left - bpv in
  v ← vget values voff;
  if 0 <? bits_left then
    Ok (mk_enc (Z.lor next_block (shl_i 64 v bits_left)) bits_left (voff + 1) boff blocks)
  else if bits_left =? 0 then
    blocks ← vset blocks boff (Z.lor next_block v);
    Ok (mk_enc 0 64 (voff + 1) (boff + 1) blocks)
  else
    blocks ← vset blocks boff
      (Z.lor next_block (as_i64 (Z.shiftr (as_u64 v) (- bits_left))));
    Ok (mk_enc (shl_i 64 (Z.land v (as_i64 (shl_i 64 1 (- bits_left) - 1))) (64 + bits_left))
          (bits_left + 64) (voff + 1) (boff + 1) blocks).

Definition encode_long_to_long (values blocks : list Z) (iterations : Z) : result (list Z) :=
  s ← for_range 0 (long_value_count op * iterations) (fun _ => encode_long_to_long_step values)
        (mk_enc 0 64 0 0 blocks);
  Ok (out s).

(** The inner loops: emit the whole digits of width [w] that are left of a
    value or a byte, at most seven of them. *)
Fixpoint emit (fuel : nat) (w : Z) (digit : Z → Z) (bits off : Z) (l : list Z)
  : result (Z * Z * list Z) :=
  if w <=? bits then
    match fuel with
    | O => Diverge
    | S f =>
      let bits := bits - w in
      l ← vset l off (digit bits);
      emit f w digit bits (off + 1) l
    end
  else Ok (bits, off, l).

Definition encode_long_to_byte_step (values : list Z) (s : enc) : result enc :=
  let '(mk_enc next_block bits_left voff boff blocks) := s in
  v ← vget values voff;
  if bpv <? bits_left then
    Ok (mk_enc (Z.lor next_block (as_i32 (shl_i 64 v (bits_left - bpv)))) (bits_left - bpv)
          (voff + 1) boff blocks)
  else
    let bits := bpv - bits_left in
    blocks ← vset blocks boff (as_u8 (Z.lor next_block (as_i32 (unsigned_shift 64 v bits))));
    '(bits, boff, blocks) ← emit 8 8 (fun bits => as_u8 (unsigned_shift 64 v bits)) bits (boff + 1) blocks;
    let bits_left := 8 - bits in
    Ok (mk_enc (as_i32 (shl_i 64 (Z.land v (as_i64 (shl_i 64 1 bits - 1))) bits_left)) bits_left
          (voff + 1) boff blocks).

Definition encode_long_to_byte (values blocks : list Z) (iterations : Z) : result (list Z) :=
  s ← for_range 0 (byte_value_count op * iterations) (fun _ => encode_long_to_byte_step values)
        (mk_enc 0 8 0 0 blocks);
  Ok (out s).

Definition encode_int_to_long_step (values : list Z) (s : enc) : result enc :=
  let '(mk_enc next_block bits_left voff boff blocks) := s in
  let bits_left := bits_left - bpv in
  v ← vget values voff;
  if 0 <? bits_left then
    Ok (mk_enc (Z.lor next_block (shl_i 64 (low32 v) bits_left)) bits_left (voff + 1) boff blocks)
  else if bits_left =? 0 then
    blocks ← vset blocks boff (Z.lor next_block (low32 v));
    Ok (mk_enc 0 64 (voff + 1) (boff + 1) blocks)
  else
    blocks ← vset blocks boff (Z.lor next_block (unsigned_shift 64 (low32 v) (- bits_left)));
    Ok (mk_enc (shl_i 64 (Z.land v (as_i64 (shl_i 64 1 (- bits_left) - 1))) (64 + bits_left))
          (bits_left + 64) (voff + 1) (boff + 1) blocks).

Definition encode_int_to_long (values blocks : list Z) (iterations : Z) : result (list Z) :=
  s ← for_range 0 (long_value_count op * iterations) (fun _ => encode_int_to_long_step values)
        (mk_enc 0 64 0 0 blocks);
  Ok (out s).

Definition encode_int_to_byte_step (values : list Z) (s : enc) : result enc :=
  let '(mk_enc next_block bits_left voff boff blocks) := s in
  v ← vget values voff;
  if bpv <? bits_left then
    Ok (mk_enc (Z.lor next_block (shl_i 32 v (bits_left - bpv))) (bits_left - bpv)
          (voff + 1) boff blocks)
  else
    let bits := bpv - bits_left in
    blocks ← vset blocks boff (as_u8 (Z.lor next_block (unsigned_shift 32 v bits)));
    '(bits, boff, blocks) ← emit 8 8 (fun bits => as_u8 (unsigned_shift 32 v bits)) bits (boff + 1) blocks;
    let bits_left := 8 - bits in
    Ok (mk_enc (shl_i 32 (Z.land v (as_i32 (shl_i 32 1 bits - 1))) bits_left) bits_left
          (voff + 1) boff blocks).

Definition encode_int_to_byte (values blocks : list Z) (iterations : Z) : result (list Z) :=
  s ← for_range 0 (byte_value_count op * iterations) (fun _ => encode_int_to_byte_step values)
        (mk_enc 0 8 0 0 blocks);
  Ok (out s).

(** ** Decoding *)

(** Locals of the decoders from longs: [bits_left], [block_offset] and the
    values. *)
Record dec : Type := mk_dec { d_bits_left : Z; d_block_offset : Z; d_values : list Z }.

Definition decode_long_to_long_step (blocks : list Z) (i : Z) (s : dec) : result dec :=
  let '(mk_dec bits_left boff values) := s in
  let bits_left := bits_left - bpv in
  if bits_left <? 0 then
    b0 ← vget blocks boff; b1 ← vget blocks (boff + 1);
    values ← vset values i
      (Z.lor (shl_i 64 (Z.land b0 (as_i64 (shl_i 64 1 (bpv + bits_left) - 1))) (- bits_left))
             (unsigned_shift 64 b1 (64 + bits_left)));
    Ok (mk_dec (bits_left + 64) (boff + 1) values)
  else
    b0 ← vget blocks boff;
    values ← vset values i (Z.land (shr_i b0 bits_left) (mask op));
    Ok (mk_dec bits_left boff values).

Definition decode_long_to_long (blocks values : list Z) (iterations : Z) : result (list Z) :=
  s ← for_range 0 (Z.min (long_value_count op * iterations) (vlen values))
        (decode_long_to_long_step blocks) (mk_dec 64 0 values);
  Ok (d_values s).

Definition decode_long_to_int_step (blocks : list Z) (i : Z) (s : dec) : result dec :=
  let '(mk_dec bits_left boff values) := s in
  let bits_left := bits_left - bpv in
  if bits_left <? 0 then
    b0 ← vget blocks boff; b1 ← vget blocks (boff + 1);
    values ← vset values i
      (as_i32 (Z.lor
        (shl_i 64 (Z.land b0 (as_i64 (shl_i 64 1 (bpv + bits_left) - 1))) (- bits_left))
        (unsigned_shift 64 b1 (64 + bits_left))));
    Ok (mk_dec (bits_left + 64) (boff + 1) values)
  else
    b0 ← vget blocks boff;
    values ← vset values i (as_i32 (Z.land (unsigned_shift 64 b0 bits_left) (mask op)));
    Ok (mk_dec bits_left boff values).

Definition decode_long_to_int (blocks values : list Z) (iterations : Z) : result (list Z) :=
  if 32 <? bpv then Panic
  else
    s ← for_range 0 (Z.min (long_value_count op * iterations) (vlen values))
          (decode_long_to_int_step blocks) (mk_dec 64 0 values);
    Ok (d_values s).

(** The locals are those of an encoder, with the roles of values and blocks
    swapped. *)
Definition decode_byte_to_long_step (blocks : list Z) (s : enc) : result enc :=
  let '(mk_enc next_value bits_left boff voff values) := s in
  bytes ← vget blocks boff;
  if 8 <? bits_left then
    let bits_left := bits_left - 8 in
    Ok (mk_enc (Z.lor next_value (shl_i 64 bytes bits_left)) bits_left (boff + 1) voff values)
  else
    let bits := 8 - bits_left in
    values ← vset values voff (Z.lor next_value (unsigned_shift 64 bytes bits));
    '(bits, voff, values) ←
      emit 8 bpv (fun bits => Z.land (unsigned_shift 64 bytes bits) (mask op)) bits (voff + 1) values;
    let bits_left := bpv - bits in
    Ok (mk_enc (shl_i 64 (Z.land bytes (as_i64 (shl_i 64 1 bits - 1))) bits_left) bits_left
          (boff + 1) voff values).

Definition decode_byte_to_long (blocks values : list Z) (iterations : Z) : result (list Z) :=
  s ← for_range 0 (iterations * byte_block_count op) (fun _ => decode_byte_to_long_step blocks)
        (mk_enc 0 bpv 0 0 values);
  Ok (out s).

Definition decode_byte_to_int_step (blocks : list Z) (s : enc) : result enc :=
  let '(mk_enc next_value bits_left boff voff values) := s in
  bytes ← vget blocks boff;
  if 8 <? bits_left then
    let bits_left := bits_left - 8 in
    Ok (mk_enc (Z.lor next_value (shl_i 32 bytes bits_left)) bits_left (boff + 1) voff values)
  else
    let bits := 8 - bits_left in
    values ← vset values voff (Z.lor next_value (shr_i bytes bits));
    '(bits, voff, values) ←
      emit 8 bpv (fun bits => Z.land (shr_i bytes bits) (int_mask op)) bits (voff + 1) values;
    let bits_left := bpv - bits in
    Ok (mk_enc (shl_i 32 (Z.land bytes (as_i32 (shl_i 32 1 bits - 1))) bits_left) bits_left
          (boff + 1) voff values).

Definition decode_byte_to_int (blocks values : list Z) (iterations : Z) : result (list Z) :=
  s ← for_range 0 (iterations * byte_block_count op) (fun _ => decode_byte_to_int_step blocks)
        (mk_enc 0 bpv 0 0 values);
  Ok (out s).

End op.
End BulkOperationPacked.

(** * BulkOperationPackedSingleBlock *)

Module BulkOperationPackedSingleBlock.

Record t : Type := mk { bits_per_value : Z; value_count : Z; mask : Z }.

Definition new (bits_per_value : Z) : t :=
  mk bits_per_value (64 / bits_per_value) (as_i64 (shl_i 64 1 bits_per_value - 1)).

Definition read_long (blocks : list Z) (offset : Z) : result Z :=
  b0 ← vget blocks offset; b1 ← vget blocks (offset + 1);
  b2 ← vget blocks (offset + 2); b3 ← vget blocks (offset + 3);
  b4 ← vget blocks (offset + 4); b5 ← vget blocks (offset + 5);
  b6 ← vget blocks (offset + 6); b7 ← vget blocks (offset + 7);
  Ok (Z.lor (Z.lor (Z.lor (Z.lor (Z.lor (Z.lor (Z.lor
        (shl_i 64 b0 56) (shl_i 64 b1 48)) (shl_i 64 b2 40)) (shl_i 64 b3 32))
        (shl_i 64 b4 24)) (shl_i 64 b5 16)) (shl_i 64 b6 8)) b7).

Definition write_long (block : Z) (blocks : list Z) (blocks_offset : Z) : result (Z * list Z) :=
  for_range 1 9 (fun i '(offset, blocks) =>
    blocks ← vset blocks offset (as_u8 (unsigned_shift 64 block (64 - Z.shiftl i 3)));
    Ok (offset + 1, blocks)) (blocks_offset, blocks).

Section op.
Context (op : t).
Abbreviation bpv := (bits_per_value op).

(** The two decoders of a block differ in the cast [cut] of the value. *)
Definition decode_long_value (cut : Z → Z) (block_value : Z) (values : list Z) (offset : Z)
  : result (Z * list Z) :=
  values ← vset values offset (cut (Z.land block_value (mask op)));
  '(values_offset, _, values) ←
    for_range 1 (value_count op) (fun _ '(values_offset, block, values) =>
      let block := unsigned_shift 64 block bpv in
      values ← vset values values_offset (cut (Z.land block (mask op)));
      Ok (values_offset + 1, block, values)) (offset + 1, block_value, values);
  Ok (values_offset, values).

Definition decode_long_value_to_long := decode_long_value (fun v => v).
Definition decode_long_value_to_int := decode_long_value (fun v => as_i32 v).

(** The two encoders of a block differ in the widening [wide] of a value. *)
Definition encode_value (wide : Z → Z) (values : list Z) (values_offset : Z) : result Z :=
  v0 ← vget values values_offset;
  '(_, block) ←
    for_range 1 (value_count op) (fun i '(offset, block) =>
      v ← vget values offset;
      Ok (offset + 1, Z.lor block (shl_i 64 (wide v) (i * bpv)))) (values_offset + 1, wide v0);
  Ok block.

Definition encode_long := encode_value (fun v => v).
Definition encode_int := encode_value (fun v => as_u32 v).

Definition decode_longs (decode : Z → list Z → Z → result (Z * list Z))
    (blocks values : list Z) (iterations : Z) : result (list Z) :=
  '(_, values) ← for_each (take (Z.to_nat iterations) blocks) (fun b '(values_offset, values) =>
    decode b values values_offset) (0, values);
  Ok values.

Definition decode_long_to_long := decode_longs decode_long_value_to_long.
Definition decode_long_to_int (blocks values : list Z) (iterations : Z) : result (list Z) :=
  if 32 <? bpv then Panic else decode_longs decode_long_value_to_int blocks values iterations.

Definition decode_bytes (decode : Z → list Z → Z → result (Z * list Z))
    (blocks values : list Z) (iterations : Z) : result (list Z) :=
  '(_, values) ← for_range 0 iterations (fun i '(values_offset, values) =>
    block ← read_long blocks (i * 8);
    decode block values values_offset) (0, values);
  Ok values.

Definition decode_byte_to_long := decode_bytes decode_long_value_to_long.
Definition decode_byte_to_int (blocks values : list Z) (iterations : Z) : result (list Z) :=
  if 32 <? bpv then Panic else decode_bytes decode_long_value_to_int blocks values iterations.

Definition encode_to_long (encode : list Z → Z → result Z)
    (values blocks : list Z) (iterations : Z) : result (list Z) :=
  '(_, blocks) ← for_range 0 (Z.min iterations (vlen blocks)) (fun i '(values_offset, blocks) =>
    b ← encode values values_offset;
    blocks ← vset blocks i b;
    Ok (values_offset + value_count op, blocks)) (0, blocks);
  Ok blocks.

Definition encode_long_to_long := encode_to_long encode_long.
Definition encode_int_to_long := encode_to_long encode_int.

Definition encode_to_byte (encode : list Z → Z → result Z)
    (values blocks : list Z) (iterations : Z) : result (list Z) :=
  '(_, blocks) ← for_range 0 iterations (fun i '(blocks_offset, blocks) =>
    block ← encode values (i * value_count op);
    write_long block blocks blocks_offset) (0, blocks);
  Ok blocks.

Definition encode_long_to_byte := encode_to_byte encode_long.
Definition encode_int_to_byte := encode_to_byte encode_int.
End op.
End BulkOperationPackedSingleBlock.

(** * The two bulk operations behind one interface *)

Inductive Format : Type := Packed | PackedSingleBlock.

#[global] Instance Format_eq_dec : EqDecision Format.
Proof. solve_decision. Defined.

Module BulkOperation.
Module P := BulkOperationPacked.
Module SB := BulkOperationPackedSingleBlock.

Inductive t : Type :=
  | OpPacked (b : P.t)
  | OpPackedSB (b : SB.t).

Definition bulk_operation_of (format : Format) (bits_per_value : Z) : result t :=
  match format with
  | Packed => b ← P.new bits_per_value; Ok (OpPacked b)
  | PackedSingleBlock => Ok (OpPackedSB (SB.new bits_per_value))
  end.

Definition long_block_count (op : t) : Z :=
  match op with OpPacked b => P.long_block_count b | OpPackedSB _ => 1 end.
Definition long_value_count (op : t) : Z :=
  match op with OpPacked b => P.long_value_count b | OpPackedSB b => SB.value_count b end.
Definition byte_block_count (op : t) : Z :=
  match op with OpPacked b => P.byte_block_count b | OpPackedSB _ => 8 end.
Definition byte_value_count (op : t) : Z :=
  match op with OpPacked b => P.byte_value_count b | OpPackedSB b => SB.value_count b end.

Definition encode_long_to_long (op : t) :=
  match op with OpPacked b => P.encode_long_to_long b | OpPackedSB b => SB.encode_long_to_long b end.
Definition encode_long_to_byte (op : t) :=
  match op with OpPacked b => P.encode_long_to_byte b | OpPackedSB b => SB.encode_long_to_byte b end.
Definition encode_int_to_long (op : t) :=
  match op with OpPacked b => P.encode_int_to_long b | OpPackedSB b => SB.encode_int_to_long b end.
Definition encode_int_to_byte (op : t) :=
  match op with OpPacked b => P.encode_int_to_byte b | OpPackedSB b => SB.encode_int_to_byte b end.
Definition decode_long_to_long (op : t) :=
  match op with OpPacked b => P.decode_long_to_long b | OpPackedSB b => SB.decode_long_to_long b end.
Definition decode_byte_to_long (op : t) :=
  match op with OpPacked b => P.decode_byte_to_long b | OpPackedSB b => SB.decode_byte_to_long b end.
Definition decode_long_to_int (op : t) :=
  match op with OpPacked b => P.decode_long_to_int b | OpPackedSB b => SB.decode_long_to_int b end.
Definition decode_byte_to_int (op : t) :=
  match op with OpPacked b => P.decode_byte_to_int b | OpPackedSB b => SB.decode_byte_to_int b end.
End BulkOperation.
