(* ===== verification/PackedBulkFacts.v ===== *)
(** Correctness of the bulk encoders and decoders of PackedBulk.v: they regroup
    the digits of one number, so that decoding inverts encoding and the byte
    and the long formats denote the same number. *)

From S2P Require Import Prelude DataIO Numeric NumericFacts PackedBulk.
Import BulkOperationPacked.

(** * Regrouping digits

    Digits of width [iw] come in, digits of width [ow] go out, most significant
    first.  Between two inputs, [p] bits of the number are pending; the source
    keeps them at the top of the next output ([next]) and counts the [left]
    bits still free there. *)
Section regroup.
Context (iw ow : Z) (Hiw : 1 ≤ iw) (How : 1 ≤ ow).

Record emitted (ins outs : list Z) (bits : Z) : Prop := {
  em_bits : 0 ≤ bits;
  em_count : iw * vlen ins = ow * vlen outs + bits;
  em_outs : Forall (is_u ow) outs;
  em_value : be_value ow outs = be_value iw ins / 2 ^ bits;
}.

Record pending (ins outs : list Z) (next left : Z) : Prop := {
  pe_left : 1 ≤ left ≤ ow;
  pe_emitted : emitted ins outs (ow - left);
  pe_next : next = (be_value iw ins mod 2 ^ (ow - left)) * 2 ^ left;
}.

Lemma pending_start : pending [] [] 0 ow.
Proof using How.
  constructor; [lia| |].
  - constructor; [lia|unfold vlen; simpl; lia|constructor|].
    unfold be_value. simpl. by rewrite Z.div_0_l by (apply Z.pow_nonzero; lia).
  - unfold be_value. simpl. by rewrite Z.mod_0_l by (apply Z.pow_nonzero; lia).
Qed.

Lemma pending_accumulate ins outs next left d :
  pending ins outs next left → is_u iw d → iw < left →
  pending (ins ++ [d]) outs (next + d * 2 ^ (left - iw)) (left - iw).
Proof using Hiw How.
  intros [Hl [H0 H1 H2 H3] Hn] [Hd0 Hd1] Hlt. set (p := ow - left) in *.
  assert (Hp : ow - (left - iw) = p + iw) by lia.
  assert (Hpow : 2 ^ (p + iw) = 2 ^ p * 2 ^ iw) by (apply Z.pow_add_r; lia).
  pose proof (pow2_pos p ltac:(lia)). pose proof (pow2_pos iw ltac:(lia)).
  constructor; [lia| |].
  - constructor; rewrite ?Hp; [lia|rewrite vlen_app, vlen_cons, vlen_nil; lia|done|].
    rewrite be_value_snoc, Hpow, (Z.mul_comm (2 ^ p)), <- Z.div_div by lia.
    rewrite Z.div_add_l, (Z.div_small d (2 ^ iw)), Z.add_0_r by lia. done.
  - rewrite Hp, Hn, be_value_snoc, Hpow.
    assert ((be_value iw ins * 2 ^ iw + d) mod (2 ^ p * 2 ^ iw)
            = (be_value iw ins mod 2 ^ p) * 2 ^ iw + d) as ->.
    { symmetry. apply (Z.mod_unique _ _ (be_value iw ins / 2 ^ p)).
      - left. pose proof (Z.mod_pos_bound (be_value iw ins) (2 ^ p)).
        apply digit_bound; lia.
      - pose proof (Z.div_mod (be_value iw ins) (2 ^ p)). nia. }
    replace (2 ^ left) with (2 ^ iw * 2 ^ (left - iw)) by
      (rewrite <- Z.pow_add_r by lia; f_equal; lia). lia.
Qed.

(** The first output a new digit completes. *)
Lemma pending_emit ins outs next left d :
  pending ins outs next left → is_u iw d → left ≤ iw →
  emitted (ins ++ [d]) (outs ++ [next + d / 2 ^ (iw - left)]) (iw - left) ∧
  d / 2 ^ (iw - left) < 2 ^ left.
Proof using Hiw How.
  intros [Hl [H0 H1 H2 H3] Hn] [Hd0 Hd1] Hge. set (p := ow - left) in *.
  pose proof (pow2_pos p ltac:(lia)). pose proof (pow2_pos left ltac:(lia)).
  pose proof (pow2_pos (iw - left) ltac:(lia)).
  assert (Hiwp : 2 ^ iw = 2 ^ left * 2 ^ (iw - left)) by (rewrite <- Z.pow_add_r by lia; f_equal; lia).
  assert (Howp : 2 ^ ow = 2 ^ p * 2 ^ left) by (rewrite <- Z.pow_add_r by lia; f_equal; lia).
  assert (Hdh : 0 ≤ d / 2 ^ (iw - left) < 2 ^ left).
  { split; [apply Z.div_pos; lia|apply Z.div_lt_upper_bound; lia]. }
  pose proof (Z.mod_pos_bound (be_value iw ins) (2 ^ p) ltac:(lia)).
  split; [|lia]. constructor; [lia|rewrite !vlen_app, !vlen_cons, !vlen_nil; lia| |].
  - apply Forall_app. split; [done|]. apply Forall_singleton. unfold is_u. rewrite Hn, Howp.
    apply digit_bound; lia.
  - rewrite !be_value_snoc, H3, Hn, Hiwp, Howp.
    replace (be_value iw ins * (2 ^ left * 2 ^ (iw - left)) + d)
      with (be_value iw ins * 2 ^ left * 2 ^ (iw - left) + d) by lia.
    rewrite Z.div_add_l by lia.
    pose proof (Z.div_mod (be_value iw ins) (2 ^ p) ltac:(lia)). nia.
Qed.

(** The further outputs of the same digit. *)
Lemma emitted_more ins d outs bits :
  emitted (ins ++ [d]) outs bits → ow ≤ bits → bits ≤ iw →
  emitted (ins ++ [d]) (outs ++ [(d / 2 ^ (bits - ow)) mod 2 ^ ow]) (bits - ow).
Proof using Hiw How.
  intros [H0 H1 H2 H3] Hge Hle. set (X := be_value iw (ins ++ [d])) in *.
  pose proof (pow2_pos ow ltac:(lia)). pose proof (pow2_pos (bits - ow) ltac:(lia)).
  assert (Hb : 2 ^ bits = 2 ^ (bits - ow) * 2 ^ ow) by (rewrite <- Z.pow_add_r by lia; f_equal; lia).
  constructor; [lia|rewrite (vlen_app outs), vlen_cons, vlen_nil; lia| |].
  - apply Forall_app. split; [done|]. apply Forall_singleton. apply Z.mod_pos_bound. lia.
  - rewrite be_value_snoc, H3, Hb, <- Z.div_div by lia.
    assert ((d / 2 ^ (bits - ow)) mod 2 ^ ow = (X / 2 ^ (bits - ow)) mod 2 ^ ow) as ->.
    { unfold X. rewrite be_value_snoc.
      replace (2 ^ iw) with (2 ^ (iw - bits) * 2 ^ ow * 2 ^ (bits - ow)) by
        (rewrite <- !Z.pow_add_r by lia; f_equal; lia).
      rewrite !Z.mul_assoc, Z.div_add_l by lia. rewrite Z.add_comm, Z_mod_plus_full. done. }
    fold X. pose proof (Z.div_mod (X / 2 ^ (bits - ow)) (2 ^ ow) ltac:(lia)). lia.
Qed.

(** When less than an output is left, it becomes the pending part. *)
Lemma emitted_pending ins d outs bits :
  emitted (ins ++ [d]) outs bits → bits < ow → bits ≤ iw →
  pending (ins ++ [d]) outs ((d mod 2 ^ bits) * 2 ^ (ow - bits)) (ow - bits).
Proof using Hiw How.
  intros Hem Hlt Hle. pose proof Hem as [H0 H1 H2 H3].
  constructor; [lia|by replace (ow - (ow - bits)) with bits by lia|].
  replace (ow - (ow - bits)) with bits by lia. f_equal.
  rewrite be_value_snoc. replace (2 ^ iw) with (2 ^ (iw - bits) * 2 ^ bits) by
    (rewrite <- Z.pow_add_r by lia; f_equal; lia).
  by rewrite Z.mul_assoc, Z.add_comm, Z_mod_plus_full.
Qed.

(** When the bits come out even, the outputs denote the number. *)
Lemma pending_even ins outs next left :
  pending ins outs next left → (ow | iw * vlen ins) →
  Forall (is_u ow) outs ∧ iw * vlen ins = ow * vlen outs ∧ be_value ow outs = be_value iw ins.
Proof using Hiw How.
  intros [Hl [H0 H1 H2 H3] Hn] [k Hk].
  assert (k - vlen outs = 0) by nia. assert (ow - left = 0) as E by nia. rewrite E in *. rewrite Z.pow_0_r, Z.div_1_r in H3.
  split_and!; [done|lia|done].
Qed.
End regroup.

(** * The operations of the machine on unsigned values *)

Lemma as_u_shl w v s : 1 ≤ w → 0 ≤ s → s ≤ w → as_u w v < 2 ^ (w - s) →
  as_u w (shl_i w v s) = as_u w v * 2 ^ s.
Proof.
  intros Hw Hs Hsw Hv. rewrite as_u_shl_i by done. rewrite Z.shiftl_mul_pow2 by done.
  unfold as_u in *. rewrite <- Z.mul_mod_idemp_l by (apply Z.pow_nonzero; lia).
  apply Z.mod_small. pose proof (Z.mod_pos_bound v (2 ^ w) ltac:(apply pow2_pos; lia)).
  pose proof (pow2_pos s Hs).
  assert (2 ^ w = 2 ^ (w - s) * 2 ^ s) as Hp by (rewrite <- Z.pow_add_r by lia; f_equal; lia).
  set (m := v mod 2 ^ w) in *. rewrite Hp. nia.
Qed.

Lemma as_u_unsigned_shift w v r : 1 ≤ w → 0 ≤ r → as_u w (unsigned_shift w v r) = as_u w v / 2 ^ r.
Proof.
  intros Hw Hr. unfold unsigned_shift. rewrite as_u_as_i, Z.shiftr_div_pow2 by done.
  pose proof (as_u_range w v ltac:(lia)) as [H0 H1]. pose proof (pow2_pos r Hr).
  apply as_u_id. split; [apply Z.div_pos; lia|].
  apply Z.le_lt_trans with (as_u w v); [|done]. apply Z.div_le_upper_bound; [lia|]. nia.
Qed.

Lemma mask_ones w r : 1 ≤ w → 0 ≤ r < w → as_i w (shl_i w 1 r - 1) = Z.ones r.
Proof.
  intros Hw Hr. rewrite Z.ones_equiv, <- Z.sub_1_r.
  pose proof (Z.pow_lt_mono_r 2 r w ltac:(lia) ltac:(lia) ltac:(lia)).
  rewrite <- (as_i_id w (2 ^ r - 1)).
  - apply as_i_congr. unfold shl_i. rewrite Z.shiftl_1_l.
    rewrite <- Zminus_mod_idemp_l, as_i_mod, Zminus_mod_idemp_l by done. done.
  - done.
  - pose proof (Z.pow_le_mono_r 2 r (w - 1) ltac:(lia) ltac:(lia)).
    pose proof (pow2_pos r ltac:(lia)). unfold is_i. lia.
Qed.

Lemma land_mask w v r : 1 ≤ w → 0 ≤ r ≤ w → Z.land v (Z.ones r) = as_u w v mod 2 ^ r.
Proof.
  intros Hw Hr. rewrite Z.land_ones by lia. unfold as_u.
  replace (2 ^ w) with (2 ^ r * 2 ^ (w - r)) by (rewrite <- Z.pow_add_r by lia; f_equal; lia).
  rewrite Z.rem_mul_r by (apply pow2_pos || apply Z.pow_nonzero; lia).
  rewrite (Z.mul_comm (2 ^ r)), Z_mod_plus_full, Zmod_mod. done.
Qed.

(** Or-ing below the pending bits is adding. *)
Lemma lor_add a b n : 0 ≤ n → (∃ m, a = m * 2 ^ n) → is_u n b → Z.lor a b = a + b.
Proof.
  intros Hn [m ->] Hb. rewrite <- Z.shiftl_mul_pow2 by done. rewrite lor_add_disjoint by done.
  by rewrite Z.shiftl_mul_pow2.
Qed.

Lemma as_u_lor_add w a b n : 1 ≤ w → 0 ≤ n → (∃ m, as_u w a = m * 2 ^ n) → is_u n (as_u w b) →
  as_u w (Z.lor a b) = as_u w a + as_u w b.
Proof. intros. rewrite as_u_lor by lia. by apply (lor_add _ _ n). Qed.

(** A value with small unsigned part is not negative. *)
Lemma small_as_u w v : 1 ≤ w → is_i w v → as_u w v < 2 ^ (w - 1) → v = as_u w v.
Proof.
  intros Hw [H1 H2] Hs. pose proof (pow2_split w Hw). destruct (decide (0 ≤ v)).
  - symmetry. apply as_u_id. unfold is_u. lia.
  - unfold as_u in Hs. rewrite <- (Z_mod_plus_full v 1), Z.mod_small in Hs by lia. lia.
Qed.

Lemma as_u_cast_down w v x : 0 ≤ x ≤ w → as_u x (as_i w v) = as_u x v.
Proof.
  intros Hx. destruct (decide (w = 0)) as [->|]; [replace x with 0 by lia; unfold as_u; by rewrite !Z.mod_1_r|].
  bitwise.
Qed.

Lemma low32_as_u v : low32 v = as_u32 v.
Proof. unfold low32. change 0xffffffff with (Z.ones 32). by rewrite Z.land_ones by lia. Qed.

(** * Slices that fill up from the left *)

Definition filled {A} (W l0 : list A) : list A := W ++ drop (length W) l0.

Lemma filled_nil {A} (l0 : list A) : filled [] l0 = l0.
Proof. unfold filled. simpl. by rewrite drop_0. Qed.

Lemma vset_filled {A} (W l0 : list A) y off : off = vlen W → vlen W < vlen l0 →
  vset (filled W l0) off y = Ok (filled (W ++ [y]) l0).
Proof.
  intros -> Hlt. unfold filled. destruct (lookup_lt_is_Some_2 l0 (length W)) as [x Hx];
    [unfold vlen in Hlt; lia|].
  rewrite (drop_S _ _ _ Hx), vset_at by done.
  rewrite length_app, <- app_assoc. simpl. do 3 f_equal. f_equal. lia.
Qed.

Lemma vlen_snoc {A} (l : list A) x : vlen (l ++ [x]) = vlen l + 1.
Proof. unfold vlen. rewrite length_app. simpl. lia. Qed.

Lemma vlen_map {A B} (f : A → B) l : vlen (map f l) = vlen l.
Proof. unfold vlen. by rewrite length_map. Qed.

Lemma take_snoc {A} (l : list A) k x : 0 ≤ k → l !! Z.to_nat k = Some x →
  take (Z.to_nat (k + 1)) l = take (Z.to_nat k) l ++ [x].
Proof.
  intros Hk Hx. replace (Z.to_nat (k + 1)) with (S (Z.to_nat k)) by lia. by apply take_S_r.
Qed.

(** The inner loop: it emits digits as long as a whole one is left. *)
Section emit.
Context (iw ow : Z) (Hiw : 1 ≤ iw) (How : 1 ≤ ow) (U : Z → Z) (good : Z → Prop).

Lemma emit_spec digit d ins l0 fuel : ∀ W bits,
  (∀ b, 0 ≤ b → b + ow ≤ iw → good (digit b) ∧ U (digit b) = (d / 2 ^ b) mod 2 ^ ow) →
  emitted iw ow (ins ++ [d]) (map U W) bits → Forall good W → bits ≤ iw →
  iw * vlen (ins ++ [d]) ≤ ow * vlen l0 → bits < ow * (Z.of_nat fuel + 1) →
  ∃ W' bits', emit fuel ow digit bits (vlen W) (filled W l0) = Ok (bits', vlen W', filled W' l0) ∧
    emitted iw ow (ins ++ [d]) (map U W') bits' ∧ Forall good W' ∧ bits' < ow ∧ bits' ≤ bits.
Proof using Hiw How.
  induction fuel as [|f IH]; intros W bits Hdig Hem HW Hb Hroom Hfuel; cbn [emit];
    destruct (Z.leb_spec ow bits) as [Hge|Hlt]; [lia|exists W, bits; split_and!; done || lia| |
      exists W, bits; split_and!; done || lia].
  pose proof Hem as [H0 H1 _ _]. rewrite vlen_map in H1.
  rewrite vset_filled by (done || nia). cbn [mbind result_bind].
  destruct (Hdig (bits - ow)) as [Hg HU]; [lia|lia|].
  rewrite <- vlen_snoc with (x := digit (bits - ow)).
  destruct (IH (W ++ [digit (bits - ow)]) (bits - ow)) as (W' & bits' & -> & H2 & H3 & H4 & H5);
    try done; try lia.
  - rewrite map_app. cbn [map]. rewrite HU. by apply emitted_more.
  - apply Forall_app. split; [done|]. by apply Forall_singleton.
  - exists W', bits'. split_and!; done || lia.
Qed.
End emit.

(** * One input digit *)

Section push.
Context (iw ow : Z) (Hiw : 1 ≤ iw) (How : 1 ≤ ow).
(** The unsigned readings of an input, an output and the pending word, and what
    outputs and pending words look like. *)
Context (Uin Uout NU : Z → Z) (good goodnext : Z → Prop) (ins0 l0 : list Z) (n : Z).
Context (Hin : Forall (fun x => is_u iw (Uin x)) (take (Z.to_nat n) ins0)).
Context (Hn : 0 ≤ n ≤ vlen ins0) (Hroom : iw * n ≤ ow * vlen l0).

Definition stage (k : Z) (s : enc) : Prop :=
  ∃ W, values_offset s = k ∧ blocks_offset s = vlen W ∧ out s = filled W l0 ∧ Forall good W ∧
       goodnext (next_block s) ∧
       pending iw ow (map Uin (take (Z.to_nat k) ins0)) (map Uout W) (NU (next_block s)) (bits_left s).

(** The step of the source, for the expressions it computes. *)
Definition push (fuel : nat) (acc first : Z) (digit rest : Z → Z) (s : enc) : result enc :=
  let '(mk_enc _ free ioff ooff l) := s in
  if iw <? free then Ok (mk_enc acc (free - iw) (ioff + 1) ooff l)
  else
    l ← vset l ooff first;
    '(bits, ooff, l) ← emit fuel ow digit (iw - free) (ooff + 1) l;
    Ok (mk_enc (rest bits) (ow - bits) (ioff + 1) ooff l).

(** What these expressions must be worth. *)
Record push_ok (acc first : Z) (digit rest : Z → Z) (next left d : Z) : Prop := {
  ok_acc : iw < left → goodnext acc ∧ NU acc = NU next + d * 2 ^ (left - iw);
  ok_first : left ≤ iw → d / 2 ^ (iw - left) < 2 ^ left →
    good first ∧ Uout first = NU next + d / 2 ^ (iw - left);
  ok_digit : ∀ b, 0 ≤ b → b + ow ≤ iw → good (digit b) ∧ Uout (digit b) = (d / 2 ^ b) mod 2 ^ ow;
  ok_rest : ∀ b, 0 ≤ b → b < ow → b ≤ iw →
    goodnext (rest b) ∧ NU (rest b) = (d mod 2 ^ b) * 2 ^ (ow - b);
}.

Lemma stage_input k s : 0 ≤ k < n → stage k s →
  ∃ x, vget ins0 (values_offset s) = Ok x ∧ ins0 !! Z.to_nat k = Some x ∧ is_u iw (Uin x).
Proof using Hn Hin Hiw How.
  intros Hk (W & -> & _). destruct (vget_in ins0 k) as (x & Hx & Hlk); [lia|].
  exists x. split_and!; try done.
  rewrite List.Forall_forall in Hin. apply Hin. apply list_elem_of_In, list_elem_of_lookup.
  exists (Z.to_nat k). by rewrite lookup_take_lt by lia.
Qed.

Lemma stage_next k s : stage k s → 1 ≤ bits_left s ≤ ow ∧
  is_u ow (NU (next_block s)) ∧ (∃ m, NU (next_block s) = m * 2 ^ bits_left s) ∧ goodnext (next_block s).
Proof using Hiw How.
  intros (W & _ & _ & _ & _ & Hg & [Hl [H0 _ _ _] Hnx]). split_and!; try done; try lia.
  - rewrite Hnx. pose proof (Z.mod_pos_bound (be_value iw (map Uin (take (Z.to_nat k) ins0)))
      (2 ^ (ow - bits_left s)) ltac:(apply pow2_pos; lia)).
    pose proof (pow2_pos (bits_left s) ltac:(lia)). unfold is_u.
    replace (2 ^ ow) with (2 ^ (ow - bits_left s) * 2 ^ bits_left s) by
      (rewrite <- Z.pow_add_r by lia; f_equal; lia). nia.
  - by eexists.
Qed.

Lemma push_stage fuel acc first digit rest k s x :
  0 ≤ k < n → stage k s → ins0 !! Z.to_nat k = Some x → is_u iw (Uin x) →
  iw ≤ ow * (Z.of_nat fuel + 1) →
  push_ok acc first digit rest (next_block s) (bits_left s) (Uin x) →
  ∃ s', push fuel acc first digit rest s = Ok s' ∧ stage (k + 1) s'.
Proof using Hiw How Hroom Hn.
  intros Hk (W & Hv & Hb & Ho & HW & Hg & Hpe) Hx Hd Hfuel [Hacc Hfirst Hdig Hrest].
  destruct s as [next left ioff ooff l]. cbn [next_block bits_left values_offset blocks_offset out] in *.
  subst ioff ooff l. unfold push. set (ins := map Uin (take (Z.to_nat k) ins0)) in *.
  assert (Htake : map Uin (take (Z.to_nat (k + 1)) ins0) = ins ++ [Uin x]).
  { rewrite (take_snoc _ _ x) by (done || lia). by rewrite map_app. }
  assert (Hvl : vlen (ins ++ [Uin x]) = k + 1).
  { rewrite <- Htake, vlen_map. apply vlen_take.
    apply lookup_lt_Some in Hx. unfold vlen. lia. }
  assert (Hpos : iw * vlen (ins ++ [Uin x]) ≤ ow * vlen l0) by (rewrite Hvl; nia).
  destruct (Z.ltb_spec iw left) as [Hlt|Hge].
  - eexists. split; [done|]. exists W. destruct (Hacc Hlt) as [Hga Hva].
    cbn [next_block bits_left values_offset blocks_offset out]. split_and!; try done.
    rewrite Htake, Hva. by apply pending_accumulate.
  - destruct (pending_emit iw ow Hiw How _ _ _ _ _ Hpe Hd Hge) as [Hem Hsmall].
    destruct (Hfirst Hge Hsmall) as [Hgf Hvf]. rewrite <- Hvf in Hem.
    pose proof Hem as [E0 E1 _ _]. rewrite vlen_snoc in E1 at 1. rewrite vlen_snoc, vlen_map in E1.
    rewrite vlen_snoc in Hvl. rewrite vset_filled by (done || rewrite vlen_snoc in Hpos; nia).
    cbn [mbind result_bind]. rewrite <- (vlen_snoc W first).
    destruct (emit_spec iw ow Hiw How Uout good digit (Uin x) ins l0 fuel (W ++ [first]) (iw - left))
      as (W' & bits & -> & Hem' & HW' & Hb' & Hle'); try done.
    + by rewrite map_app.
    + apply Forall_app. split; [done|]. by apply Forall_singleton.
    + destruct Hpe. lia.
    + destruct Hpe. lia.
    + cbn [mbind result_bind]. eexists. split; [done|]. exists W'.
      destruct Hpe as [Hl _ _]. pose proof (em_bits _ _ _ _ _ Hem').
      destruct (Hrest bits) as [Hgr Hvr]; [lia|lia|lia|].
      cbn [next_block bits_left values_offset blocks_offset out]. split_and!; try done.
      rewrite Htake, Hvr. apply emitted_pending; done || lia.
Qed.

(** The loop over all inputs. *)
Lemma regroup_loop step :
  (∀ k s, 0 ≤ k < n → stage k s → ∃ s', step s = Ok s' ∧ stage (k + 1) s') →
  goodnext 0 → NU 0 = 0 → (ow | iw * n) →
  ∃ W, (s ← for_range 0 n (fun _ => step) (mk_enc 0 ow 0 0 l0); Ok (out s)) = Ok (filled W l0) ∧
       Forall good W ∧ Forall (is_u ow) (map Uout W) ∧ iw * n = ow * vlen W ∧
       be_value ow (map Uout W) = be_value iw (map Uin (take (Z.to_nat n) ins0)).
Proof using Hiw How Hn.
  intros Hstep Hg0 HN0 Hdiv.
  destruct (for_range_inv stage (fun _ => step) 0 n (mk_enc 0 ow 0 0 l0)) as (s & -> & W & _ & _ & Ho & HW & _ & Hpe);
    [lia| |by intros; apply Hstep|].
  - exists []. cbn [next_block bits_left values_offset blocks_offset out].
    rewrite filled_nil, HN0. split_and!; try done. simpl. by apply pending_start.
  - exists W. cbn [mbind result_bind]. rewrite Ho.
    assert (Hvl : vlen (map Uin (take (Z.to_nat n) ins0)) = n) by (rewrite vlen_map; by apply vlen_take).
    destruct (pending_even iw ow Hiw How _ _ _ _ Hpe) as (Hr & Hc & Hval); [by rewrite Hvl|].
    rewrite Hvl, vlen_map in Hc. split_and!; done.
Qed.

(** It is enough that the step of the source computes, for the state and the
    input at hand, the expressions of [push]. *)
Lemma regroup_spec step :
  (∀ s x, vget ins0 (values_offset s) = Ok x → List.In x (take (Z.to_nat n) ins0) →
     1 ≤ bits_left s ≤ ow → is_u ow (NU (next_block s)) →
     (∃ m, NU (next_block s) = m * 2 ^ bits_left s) → goodnext (next_block s) →
     ∃ fuel acc first digit rest, iw ≤ ow * (Z.of_nat fuel + 1) ∧
       step s = push fuel acc first digit rest s ∧
       push_ok acc first digit rest (next_block s) (bits_left s) (Uin x)) →
  goodnext 0 → NU 0 = 0 → (ow | iw * n) →
  ∃ W, (s ← for_range 0 n (fun _ => step) (mk_enc 0 ow 0 0 l0); Ok (out s)) = Ok (filled W l0) ∧
       Forall good W ∧ Forall (is_u ow) (map Uout W) ∧ iw * n = ow * vlen W ∧
       be_value ow (map Uout W) = be_value iw (map Uin (take (Z.to_nat n) ins0)).
Proof using Hiw How Hn Hin Hroom.
  intros Hstep Hg0 HN0 Hdiv. apply regroup_loop; try done. intros k s Hk Hst.
  destruct (stage_input k s Hk Hst) as (x & Hx & Hlk & Hu).
  destruct (stage_next k s Hst) as (Hf & Hnx & Hm & Hg).
  assert (List.In x (take (Z.to_nat n) ins0)) as Hin'.
  { apply list_elem_of_In, list_elem_of_lookup. exists (Z.to_nat k). by rewrite lookup_take_lt by lia. }
  destruct (Hstep s x Hx Hin' Hf Hnx Hm Hg) as (fuel & acc & first & digit & rest & Hfuel & -> & Hok).
  by apply (push_stage fuel acc first digit rest k s x).
Qed.
End push.

(** * The six regrouping loops of the source *)

(** What [new] computes: the counts are whole numbers of digits. *)
Record op_ok (B : Z) (op : t) : Prop := {
  op_bpv : bits_per_value op = B;
  op_long : B * long_value_count op = 64 * long_block_count op;
  op_byte : B * byte_value_count op = 8 * byte_block_count op;
  op_counts : 0 < long_value_count op ∧ 0 < long_block_count op ∧
              0 < byte_value_count op ∧ 0 < byte_block_count op;
  op_mask : as_u64 (mask op) = Z.ones B ∧ is_i 64 (mask op);
  op_int_mask : int_mask op = as_i32 (mask op);
}.

(** The counts [new] computes, checked for each of the 64 widths. *)
Definition counts_ok (B : Z) (r : result (Z * Z * Z * Z)) : bool :=
  match r with
  | Ok (lb, lv, bb, bv) =>
    (B * lv =? 64 * lb) && (B * bv =? 8 * bb) && (0 <? lv) && (0 <? lb) && (0 <? bv) && (0 <? bb)
    && (64 mod lv =? 0) && (64 mod bv =? 0)
  | _ => false
  end.

Definition counts (r : result t) : result (Z * Z * Z * Z) :=
  op ← r; Ok (long_block_count op, long_value_count op, byte_block_count op, byte_value_count op).

Lemma new_counts B : 1 ≤ B ≤ 64 → counts_ok B (counts (new B)) = true.
Proof.
  intros HB. assert (Hall : forallb (fun B => counts_ok B (counts (new B))) (seqZ 1 64) = true)
    by (vm_compute; reflexivity).
  rewrite forallb_forall in Hall. apply Hall. apply list_elem_of_In, elem_of_seqZ. lia.
Qed.

Lemma new_fields B op : 1 ≤ B ≤ 64 → new B = Ok op →
  bits_per_value op = B ∧ mask op = (if B =? 64 then -1 else Z.ones B) ∧ int_mask op = as_i32 (mask op).
Proof.
  intros HB. unfold new. destruct (while_fuel _ _ _ B) as [blocks| | |]; [|done..].
  cbn [mbind result_bind]. destruct (while_fuel _ _ _ (_, _)) as [[bb bv]| | |]; [|done..].
  cbn [mbind result_bind]. intros [= <-]. cbn [bits_per_value mask int_mask].
  split; [apply as_i_id; unfold is_i; lia|]. split; [|done].
  destruct (Z.eqb_spec B 64); [done|]. apply mask_ones; lia.
Qed.

Lemma new_ok B : 1 ≤ B ≤ 64 → ∃ op, new B = Ok op ∧ op_ok B op.
Proof.
  intros HB. pose proof (new_counts B HB) as Hc. pose proof (new_fields B) as Hf.
  destruct (new B) as [op| | |]; try discriminate Hc. exists op. split; [done|].
  destruct (Hf op HB eq_refl) as (H1 & H2 & H3). cbn in Hc.
  rewrite !andb_true_iff, !Z.eqb_eq, !Z.ltb_lt in Hc.
  destruct Hc as (((((((? & ?) & ?) & ?) & ?) & ?) & _) & _).
  constructor; try done. rewrite H2. pose proof (pow2_pos B ltac:(lia)).
  pose proof (Z.pow_le_mono_r 2 B 64 ltac:(lia) ltac:(lia)).
  destruct (Z.eqb_spec B 64) as [->|]; [split; [done|unfold is_i; lia]|].
  pose proof (Z.pow_le_mono_r 2 B 63 ltac:(lia) ltac:(lia)).
  rewrite Z.ones_equiv. split; [apply as_u_id; unfold is_u; lia|unfold is_i; lia].
Qed.

(** The counts of values divide 64. *)
Lemma new_divides B op : 1 ≤ B ≤ 64 → new B = Ok op →
  (long_value_count op | 64) ∧ (byte_value_count op | 64).
Proof.
  intros HB Hop. pose proof (new_counts B HB) as Hc. rewrite Hop in Hc. cbn in Hc.
  rewrite !andb_true_iff, !Z.eqb_eq, !Z.ltb_lt in Hc.
  destruct Hc as (((((((? & ?) & ?) & ?) & ?) & ?) & ?) & ?).
  split; apply Z.mod_divide; lia.
Qed.

(** A digit of [B] bits moved up to the top of [free] bits. *)
Lemma digit_shift B free u : 0 ≤ B → B < free → is_u B u → is_u free (u * 2 ^ (free - B)).
Proof.
  intros HB Hlt [H0 H1]. pose proof (pow2_pos (free - B) ltac:(lia)). unfold is_u.
  replace (2 ^ free) with (2 ^ B * 2 ^ (free - B)) by (rewrite <- Z.pow_add_r by lia; f_equal; lia). nia.
Qed.

Section loops.
Context (B : Z) (op : t) (Hop : op_ok B op) (HB : 1 ≤ B ≤ 64).

(** ** Longs to longs *)

(** The expressions of a step whose pending word has 64 bits. *)
Lemma push_ok_64 v next free u :
  is_i 64 v → u = as_u64 v → is_u B u →
  is_i 64 next → 1 ≤ free ≤ 64 → (∃ m, as_u64 next = m * 2 ^ free) →
  push_ok B 64 as_u64 as_u64 (is_i 64) (is_i 64)
    (Z.lor next (shl_i 64 v (free - B)))
    (Z.lor next (unsigned_shift 64 v (B - free)))
    (fun _ => v)
    (fun b => shl_i 64 (Z.land v (as_i64 (shl_i 64 1 b - 1))) (64 - b))
    next free u.
Proof using HB.
  intros Hv -> Hu Hnx Hf Hm. constructor.
  - intros Hlt. split; [apply is_i_lor; [lia|done|apply as_i_range; lia]|].
    destruct Hu as [Hu0 Hu1].
    assert (as_u64 (shl_i 64 v (free - B)) = as_u64 v * 2 ^ (free - B)) as E.
    { apply as_u_shl; [lia|lia|lia|].
      pose proof (Z.pow_le_mono_r 2 B (64 - (free - B)) ltac:(lia) ltac:(lia)). lia. }
    rewrite (as_u_lor_add 64 _ _ free), E; try done; try lia.
    rewrite E. apply digit_shift; unfold is_u; lia.
  - intros Hge Hsmall. split; [apply is_i_lor; [lia|done|apply as_i_range; lia]|].
    rewrite (as_u_lor_add 64 _ _ free), as_u_unsigned_shift; try done; try lia.
    rewrite as_u_unsigned_shift by lia. split; [|done].
    apply Z.div_pos; [apply Hu|apply pow2_pos; lia].
  - intros b Hb Hbw. assert (b = 0) as -> by lia. split; [done|].
    rewrite Z.pow_0_r, Z.div_1_r, Z.mod_small; [done|]. apply as_u_range. lia.
  - intros b Hb Hb1 Hb2. split; [apply as_i_range; lia|].
    rewrite mask_ones, (land_mask 64) by lia.
    pose proof (Z.mod_pos_bound (as_u64 v) (2 ^ b) ltac:(apply pow2_pos; lia)).
    assert (2 ^ b ≤ 2 ^ 63) by (apply Z.pow_le_mono_r; lia).
    rewrite as_u_shl; rewrite ?(as_u_id 64 (as_u64 v mod 2 ^ b)) by (unfold is_u; lia);
      try lia. replace (64 - (64 - b)) with b by lia. lia.
Qed.

Lemma emit_0 fuel ow digit bits off l : bits < ow → emit fuel ow digit bits off l = Ok (bits, off, l).
Proof. intros H. destruct fuel; cbn [emit]; by rewrite (proj2 (Z.leb_gt _ _) H). Qed.

Lemma emit_ext fuel ow f g : (∀ b, 0 ≤ b → f b = g b) → ∀ bits off l,
  emit fuel ow f bits off l = emit fuel ow g bits off l.
Proof.
  intros Hfg. induction fuel as [|n IH]; intros bits off l; cbn [emit]; [done|].
  destruct (Z.leb_spec ow bits); [|done]. rewrite Hfg by lia.
  destruct (vset l off _); [|done..]. apply IH.
Qed.

(** The three cases of the 64-bit step are the generic one. *)
Lemma step_64_push v next free voff boff l : is_i 64 v → 1 ≤ free ≤ 64 →
  (if 0 <? free - B then Ok (mk_enc (Z.lor next (shl_i 64 v (free - B))) (free - B) (voff + 1) boff l)
   else if free - B =? 0 then
     l ← vset l boff (Z.lor next v); Ok (mk_enc 0 64 (voff + 1) (boff + 1) l)
   else
     l ← vset l boff (Z.lor next (unsigned_shift 64 v (- (free - B))));
     Ok (mk_enc (shl_i 64 (Z.land v (as_i64 (shl_i 64 1 (- (free - B)) - 1))) (64 + (free - B)))
           (free - B + 64) (voff + 1) (boff + 1) l))
  = push B 64 0 (Z.lor next (shl_i 64 v (free - B))) (Z.lor next (unsigned_shift 64 v (B - free)))
      (fun _ => v) (fun b => shl_i 64 (Z.land v (as_i64 (shl_i 64 1 b - 1))) (64 - b))
      (mk_enc next free voff boff l).
Proof using HB.
  intros Hv Hf. unfold push. destruct (Z.ltb_spec 0 (free - B)), (Z.ltb_spec B free); try lia; [done|].
  destruct (Z.eqb_spec (free - B) 0) as [E|E].
  - replace (B - free) with 0 by lia. rewrite unsigned_shift_0 by (done || lia).
    destruct (vset l boff (Z.lor next v)); [|done..]. cbn [mbind result_bind].
    rewrite emit_0 by lia. cbn [mbind result_bind].
    rewrite mask_ones by lia. change (Z.ones 0) with 0. by rewrite Z.land_0_r.
  - replace (- (free - B)) with (B - free) by lia.
    destruct (vset l boff _); [|done..]. cbn [mbind result_bind].
    rewrite emit_0 by lia. cbn [mbind result_bind]. do 2 f_equal; [f_equal|]; lia.
Qed.

(** The result of a loop: the outputs, and that they denote the same number. *)
Definition regrouped (iw ow n count : Z) (Uin Uout : Z → Z) (good : Z → Prop) (ins l0 : list Z)
    (r : result (list Z)) : Prop :=
  ∃ W, r = Ok (filled W l0) ∧ Forall good W ∧ Forall (is_u ow) (map Uout W) ∧ vlen W = count ∧
       be_value ow (map Uout W) = be_value iw (map Uin (take (Z.to_nat n) ins)).

Definition inputs (w : Z) (n : Z) (l : list Z) : Prop :=
  Forall (fun v => is_i w v ∧ is_u B (as_u w v)) (take (Z.to_nat n) l).

Lemma encode_long_to_long_spec values blocks it :
  0 ≤ it → long_value_count op * it ≤ vlen values → long_block_count op * it ≤ vlen blocks →
  inputs 64 (long_value_count op * it) values →
  regrouped B 64 (long_value_count op * it) (long_block_count op * it) as_u64 as_u64 (is_i 64)
    values blocks (encode_long_to_long op values blocks it).
Proof using Hop HB.
  intros Hit Hv Hb Hin. pose proof Hop as [Hbpv Hlong _ (Hc1 & Hc2 & _ & _) _ _].
  unfold encode_long_to_long. set (n := long_value_count op * it) in *.
  assert (Hn : 0 ≤ n) by (unfold n; nia).
  assert (Hbits : B * n = 64 * (long_block_count op * it)) by (unfold n; rewrite Z.mul_assoc, Hlong; lia).
  destruct (regroup_spec B 64 ltac:(lia) ltac:(lia) as_u64 as_u64 as_u64 (is_i 64) (is_i 64) values blocks n)
    with (step := encode_long_to_long_step op values) as (W & H1 & H2 & H2' & H3 & H4); try done; try lia.
  - eapply Forall_impl; [|exact Hin]. simpl. tauto.
  - intros s x Hx Hxin Hf Hnx Hm Hg. unfold inputs in Hin. rewrite List.Forall_forall in Hin.
    destruct (Hin x Hxin) as [Hxi Hu]. eexists O, _, _, _, _. split; [lia|].
    split; [|exact (push_ok_64 x _ _ _ Hxi eq_refl Hu Hg Hf Hm)].
    destruct s as [next free voff boff l]. cbn [values_offset next_block bits_left] in *.
    unfold encode_long_to_long_step. rewrite Hx, Hbpv. by apply step_64_push.
  - exists (long_block_count op * it). lia.
  - exists W. split_and!; done || lia.
Qed.

(** ** Ints to longs *)

Lemma low32_i64 v : is_i 64 (low32 v) ∧ as_u64 (low32 v) = as_u32 v.
Proof.
  rewrite low32_as_u. pose proof (as_u_range 32 v ltac:(lia)) as [H0 H1].
  split; [unfold is_i; lia|]. apply as_u_id. unfold is_u. lia.
Qed.

Lemma encode_int_to_long_spec values blocks it : B ≤ 32 →
  0 ≤ it → long_value_count op * it ≤ vlen values → long_block_count op * it ≤ vlen blocks →
  inputs 32 (long_value_count op * it) values →
  regrouped B 64 (long_value_count op * it) (long_block_count op * it) as_u32 as_u64 (is_i 64)
    values blocks (encode_int_to_long op values blocks it).
Proof using Hop HB.
  intros HB32 Hit Hv Hb Hin. pose proof Hop as [Hbpv Hlong _ (Hc1 & Hc2 & _ & _) _ _].
  unfold encode_int_to_long. set (n := long_value_count op * it) in *.
  assert (Hn : 0 ≤ n) by (unfold n; nia).
  assert (Hbits : B * n = 64 * (long_block_count op * it)) by (unfold n; rewrite Z.mul_assoc, Hlong; lia).
  destruct (regroup_spec B 64 ltac:(lia) ltac:(lia) as_u32 as_u64 as_u64 (is_i 64) (is_i 64) values blocks n)
    with (step := encode_int_to_long_step op values) as (W & H1 & H2 & H2' & H3 & H4); try done; try lia.
  - eapply Forall_impl; [|exact Hin]. simpl. tauto.
  - intros s x Hx Hxin Hf Hnx Hm Hg. unfold inputs in Hin. rewrite List.Forall_forall in Hin.
    destruct (Hin x Hxin) as [Hxi Hu]. destruct (low32_i64 x) as [Hli Hlu].
    eexists O, _, _, _, _. split; [lia|].
    split; [|exact (push_ok_64 (low32 x) _ _ (as_u32 x) Hli (eq_sym Hlu) Hu Hg Hf Hm)].
    destruct s as [next free voff boff l]. cbn [values_offset next_block bits_left] in *.
    unfold encode_int_to_long_step. rewrite Hx, Hbpv. cbn [mbind result_bind].
    rewrite <- step_64_push by done.
    destruct (Z.ltb_spec 0 (free - B)), (Z.eqb_spec (free - B) 0); try done.
    rewrite mask_ones, (land_mask 32 x), (land_mask 64 (low32 x)), Hlu by lia. done.
  - exists (long_block_count op * it). lia.
  - exists W. split_and!; done || lia.
Qed.

(** ** Longs and ints to bytes *)

(** A register of [w] bits that holds a value; the bytes leave through it. *)
Lemma push_ok_8 w v next free u : 32 ≤ w →
  is_i w v → u = as_u w v → is_u B u → is_u 8 next → 1 ≤ free ≤ 8 → B ≤ w →
  (∃ m, next = m * 2 ^ free) →
  push_ok B 8 (fun x => x) (fun x => x) (is_u 8) (is_u 8)
    (Z.lor next (as_i32 (shl_i w v (free - B))))
    (as_u8 (Z.lor next (as_i32 (unsigned_shift w v (B - free)))))
    (fun b => as_u8 (unsigned_shift w v b))
    (fun b => as_i32 (shl_i w (Z.land v (as_i w (shl_i w 1 b - 1))) (8 - b)))
    next free u.
Proof using HB.
  intros Hw Hv -> Hu Hnx Hf HBw [m Hm].
  assert (Hfree : 2 ^ free ≤ 2 ^ 8) by (apply Z.pow_le_mono_r; lia).
  assert (Hsum : ∀ y, is_u free y → Z.lor next y = next + y ∧ is_u 8 (Z.lor next y)).
  { intros y [Hy0 Hy1]. split; [apply (lor_add _ _ free); [lia|by exists m|done]|].
    apply is_u_lor; [lia|done|]. unfold is_u. lia. }
  assert (Hsmall : ∀ y, is_u free y → is_i 32 y) by (intros y [? ?]; unfold is_i; lia).
  constructor.
  - intros Hlt. assert (shl_i w v (free - B) = as_u w v * 2 ^ (free - B)) as ->.
    { assert (as_u w (shl_i w v (free - B)) = as_u w v * 2 ^ (free - B)) as E.
      { apply as_u_shl; [lia..|]. destruct Hu as [_ Hu].
        pose proof (Z.pow_le_mono_r 2 B (w - (free - B)) ltac:(lia) ltac:(lia)). lia. }
      rewrite <- E. apply small_as_u; [lia|apply as_i_range; lia|]. rewrite E.
      destruct (digit_shift B free (as_u w v)) as [_ ?]; [lia|lia|done|].
      pose proof (Z.pow_le_mono_r 2 free (w - 1) ltac:(lia) ltac:(lia)). lia. }
    pose proof (digit_shift B free (as_u w v) ltac:(lia) Hlt Hu) as Hd.
    rewrite as_i_id by (lia || by apply Hsmall). destruct (Hsum _ Hd) as [E Hr]. by split.
  - intros Hge Hs. assert (is_u free (as_u w v / 2 ^ (B - free))) as Hd.
    { split; [apply Z.div_pos; [apply Hu|apply pow2_pos; lia]|done]. }
    assert (unsigned_shift w v (B - free) = as_u w v / 2 ^ (B - free)) as ->.
    { rewrite <- as_u_unsigned_shift by lia. apply small_as_u; [lia|apply as_i_range; lia|].
      rewrite as_u_unsigned_shift by lia. destruct Hd.
      pose proof (Z.pow_le_mono_r 2 free (w - 1) ltac:(lia) ltac:(lia)). lia. }
    rewrite as_i_id by (lia || by apply Hsmall). destruct (Hsum _ Hd) as [E Hr].
    rewrite as_u_id by done. by split.
  - intros b Hb Hbw. split; [apply as_u_range; lia|]. unfold unsigned_shift.
    rewrite as_u_cast_down, Z.shiftr_div_pow2 by lia. done.
  - intros b Hb Hb8 HbB. rewrite mask_ones, (land_mask w) by lia.
    pose proof (Z.mod_pos_bound (as_u w v) (2 ^ b) ltac:(apply pow2_pos; lia)).
    set (y := as_u w v mod 2 ^ b) in *. pose proof (pow2_pos (8 - b) ltac:(lia)).
    assert (2 ^ 8 = 2 ^ b * 2 ^ (8 - b)) as E8 by (rewrite <- Z.pow_add_r by lia; f_equal; lia).
    assert (2 ^ 31 ≤ 2 ^ (w - 1)) by (apply Z.pow_le_mono_r; lia).
    assert (is_u 8 (y * 2 ^ (8 - b))) as Hy by (unfold is_u; nia).
    assert (shl_i w y (8 - b) = y * 2 ^ (8 - b)) as ->.
    { unfold shl_i. rewrite Z.shiftl_mul_pow2 by lia. apply as_i_id; [lia|]. destruct Hy. unfold is_i. lia. }
    rewrite as_i_id by (lia || (destruct Hy; unfold is_i; lia)). done.
Qed.

(** The byte encoders, for either width of the values. *)
Lemma encode_to_byte_spec w step values blocks it : 32 ≤ w → B ≤ w →
  (∀ v next free voff boff l, is_i w v → vget values voff = Ok v →
     step (mk_enc next free voff boff l) =
     push B 8 8 (Z.lor next (as_i32 (shl_i w v (free - B))))
       (as_u8 (Z.lor next (as_i32 (unsigned_shift w v (B - free)))))
       (fun b => as_u8 (unsigned_shift w v b))
       (fun b => as_i32 (shl_i w (Z.land v (as_i w (shl_i w 1 b - 1))) (8 - b)))
       (mk_enc next free voff boff l)) →
  0 ≤ it → byte_value_count op * it ≤ vlen values → byte_block_count op * it ≤ vlen blocks →
  inputs w (byte_value_count op * it) values →
  regrouped B 8 (byte_value_count op * it) (byte_block_count op * it) (as_u w) (fun x => x) (is_u 8)
    values blocks
    (s ← for_range 0 (byte_value_count op * it) (fun _ => step) (mk_enc 0 8 0 0 blocks); Ok (out s)).
Proof using Hop HB.
  intros Hw HBw Hstep Hit Hv Hb Hin. pose proof Hop as [Hbpv _ Hbyte (_ & _ & Hc1 & Hc2) _ _].
  set (n := byte_value_count op * it) in *. assert (Hn : 0 ≤ n) by (unfold n; nia).
  assert (Hbits : B * n = 8 * (byte_block_count op * it)) by (unfold n; rewrite Z.mul_assoc, Hbyte; lia).
  destruct (regroup_spec B 8 ltac:(lia) ltac:(lia) (as_u w) (fun x => x) (fun x => x) (is_u 8) (is_u 8)
    values blocks n) with (step := step) as (W & H1 & H2 & H2' & H3 & H4); try done; try lia.
  - eapply Forall_impl; [|exact Hin]. simpl. tauto.
  - intros s x Hx Hxin Hf Hnx Hm Hg. unfold inputs in Hin. rewrite List.Forall_forall in Hin.
    destruct (Hin x Hxin) as [Hxi Hu]. eexists 8%nat, _, _, _, _. split; [lia|].
    split; [|exact (push_ok_8 w x _ _ _ Hw Hxi eq_refl Hu Hg Hf HBw Hm)].
    destruct s as [next free voff boff l]. by apply Hstep.
  - exists (byte_block_count op * it). lia.
  - exists W. split_and!; done || lia.
Qed.

Lemma encode_long_to_byte_spec values blocks it :
  0 ≤ it → byte_value_count op * it ≤ vlen values → byte_block_count op * it ≤ vlen blocks →
  inputs 64 (byte_value_count op * it) values →
  regrouped B 8 (byte_value_count op * it) (byte_block_count op * it) as_u64 (fun x => x) (is_u 8)
    values blocks (encode_long_to_byte op values blocks it).
Proof using Hop HB.
  apply encode_to_byte_spec; [lia|lia|]. intros v next free voff boff l Hv Hx.
  unfold encode_long_to_byte_step, push. rewrite Hx, (op_bpv _ _ Hop). done.
Qed.

Lemma encode_int_to_byte_spec values blocks it : B ≤ 32 →
  0 ≤ it → byte_value_count op * it ≤ vlen values → byte_block_count op * it ≤ vlen blocks →
  inputs 32 (byte_value_count op * it) values →
  regrouped B 8 (byte_value_count op * it) (byte_block_count op * it) as_u32 (fun x => x) (is_u 8)
    values blocks (encode_int_to_byte op values blocks it).
Proof using Hop HB.
  intros HB32. apply encode_to_byte_spec; [lia|lia|]. intros v next free voff boff l Hv Hx.
  unfold encode_int_to_byte_step, push. rewrite Hx, (op_bpv _ _ Hop). cbn [mbind result_bind].
  rewrite !(as_i_id 32 (shl_i _ _ _)), (as_i_id 32 (unsigned_shift _ _ _)) by
    (lia || apply as_i_range; lia).
  destruct (B <? free); [done|]. destruct (vset l boff _); [|done..]. cbn [mbind result_bind].
  destruct (emit 8 8 _ _ _ _) as [[[bits off] l']| | |]; [|done..]. cbn [mbind result_bind].
  by rewrite !(as_i_id 32 (shl_i _ _ _)) by (lia || apply as_i_range; lia).
Qed.

(** ** Bytes to longs and ints *)

Lemma push_ok_B w v next free vmask : 32 ≤ w → B ≤ w →
  is_u 8 v → is_i w next → 1 ≤ free ≤ B → (∃ m, as_u w next = m * 2 ^ free) →
  as_u w vmask = Z.ones B → is_i w vmask →
  push_ok 8 B (as_u w) (as_u w) (is_i w) (is_i w)
    (Z.lor next (shl_i w v (free - 8)))
    (Z.lor next (unsigned_shift w v (8 - free)))
    (fun b => Z.land (unsigned_shift w v b) vmask)
    (fun b => shl_i w (Z.land v (as_i w (shl_i w 1 b - 1))) (B - b))
    next free v.
Proof using HB.
  intros Hw HBw Hu Hnx Hf Hm Hmask Hmi.
  assert (Hpw : 2 ^ 8 ≤ 2 ^ (w - 1)) by (apply Z.pow_le_mono_r; lia).
  pose proof (pow2_split w ltac:(lia)) as Hsplit.
  assert (Hv : as_u w v = v) by (apply as_u_id; destruct Hu; unfold is_u; lia).
  constructor.
  - intros Hlt. split; [apply is_i_lor; [lia|done|apply as_i_range; lia]|].
    assert (as_u w (shl_i w v (free - 8)) = v * 2 ^ (free - 8)) as E.
    { rewrite as_u_shl, Hv by (try lia; rewrite Hv; destruct Hu;
        pose proof (Z.pow_le_mono_r 2 8 (w - (free - 8)) ltac:(lia) ltac:(lia)); lia). done. }
    rewrite (as_u_lor_add w _ _ free), E; try done; try lia.
    rewrite E. apply digit_shift; done || lia.
  - intros Hge Hsmall. split; [apply is_i_lor; [lia|done|apply as_i_range; lia]|].
    rewrite (as_u_lor_add w _ _ free), as_u_unsigned_shift, Hv; try done; try lia.
    rewrite as_u_unsigned_shift, Hv by lia. split; [|done].
    apply Z.div_pos; [apply Hu|apply pow2_pos; lia].
  - intros b Hb Hbw. split; [apply is_i_land; [lia|apply as_i_range; lia|done]|].
    assert (as_u w (Z.land (unsigned_shift w v b) vmask)
            = Z.land (as_u w (unsigned_shift w v b)) (as_u w vmask)) as -> by bitwise.
    by rewrite Hmask, as_u_unsigned_shift, Hv, Z.land_ones by lia.
  - intros b Hb HbB Hb8. split; [apply as_i_range; lia|].
    rewrite mask_ones, (land_mask w), Hv by lia.
    pose proof (Z.mod_pos_bound v (2 ^ b) ltac:(apply pow2_pos; lia)).
    assert (2 ^ b ≤ 2 ^ (w - 1)) by (apply Z.pow_le_mono_r; lia).
    assert (as_u w (v mod 2 ^ b) = v mod 2 ^ b) as E by (apply as_u_id; unfold is_u; lia).
    rewrite as_u_shl, E; try lia. rewrite E.
    apply Z.lt_le_trans with (2 ^ b); [lia|]. apply Z.pow_le_mono_r; lia.
Qed.

(** The byte decoders, for either width of the values. *)
Lemma decode_byte_spec w vmask step blocks values it : 32 ≤ w → B ≤ w →
  as_u w vmask = Z.ones B → is_i w vmask →
  (∀ v next free boff voff l, is_u 8 v → vget blocks boff = Ok v →
     step (mk_enc next free boff voff l) =
     push 8 B 8 (Z.lor next (shl_i w v (free - 8)))
       (Z.lor next (unsigned_shift w v (8 - free)))
       (fun b => Z.land (unsigned_shift w v b) vmask)
       (fun b => shl_i w (Z.land v (as_i w (shl_i w 1 b - 1))) (B - b))
       (mk_enc next free boff voff l)) →
  0 ≤ it → it * byte_block_count op ≤ vlen blocks → byte_value_count op * it ≤ vlen values →
  Forall (is_u 8) (take (Z.to_nat (it * byte_block_count op)) blocks) →
  regrouped 8 B (it * byte_block_count op) (byte_value_count op * it) (as_u w) (as_u w) (is_i w)
    blocks values
    (s ← for_range 0 (it * byte_block_count op) (fun _ => step) (mk_enc 0 B 0 0 values); Ok (out s)).
Proof using Hop HB.
  intros Hw HBw Hmask Hmi Hstep Hit Hb Hv Hin. pose proof Hop as [_ _ Hbyte (_ & _ & Hc1 & Hc2) _ _].
  set (n := it * byte_block_count op) in *. assert (Hn : 0 ≤ n) by (unfold n; nia).
  assert (Hbits : 8 * n = B * (byte_value_count op * it)) by
    (transitivity (B * byte_value_count op * it); [rewrite Hbyte; unfold n|]; lia).
  assert (Hu8 : ∀ v, is_u 8 v → as_u w v = v).
  { intros v [? ?]. apply as_u_id. pose proof (Z.pow_le_mono_r 2 8 w ltac:(lia) ltac:(lia)). unfold is_u. lia. }
  destruct (regroup_spec 8 B ltac:(lia) ltac:(lia) (as_u w) (as_u w) (as_u w) (is_i w) (is_i w)
    blocks values n) with (step := step) as (W & H1 & H2 & H2' & H3 & H4); try done; try lia.
  - eapply Forall_impl; [|exact Hin]. simpl. intros v Hu. by rewrite Hu8.
  - rewrite Hbits. apply Z.mul_le_mono_nonneg_l; lia.
  - intros s x Hx Hxin Hf Hnx Hm Hg. rewrite List.Forall_forall in Hin.
    specialize (Hin x Hxin). eexists 8%nat, _, _, _, _. split; [lia|].
    rewrite (Hu8 x Hin). split; [|exact (push_ok_B w x _ _ vmask Hw HBw Hin Hg Hf Hm Hmask Hmi)].
    destruct s as [next free boff voff l]. by apply Hstep.
  - apply is_i_const. lia.
  - exists (byte_value_count op * it). lia.
  - exists W. split_and!; try done. nia.
Qed.

Lemma decode_byte_to_long_spec blocks values it :
  0 ≤ it → it * byte_block_count op ≤ vlen blocks → byte_value_count op * it ≤ vlen values →
  Forall (is_u 8) (take (Z.to_nat (it * byte_block_count op)) blocks) →
  regrouped 8 B (it * byte_block_count op) (byte_value_count op * it) as_u64 as_u64 (is_i 64)
    blocks values (decode_byte_to_long op blocks values it).
Proof using Hop HB.
  unfold decode_byte_to_long. rewrite (op_bpv _ _ Hop).
  apply (decode_byte_spec 64 (mask op)); [lia|lia|apply (op_mask _ _ Hop)..|].
  intros v next free boff voff l Hv Hx. unfold decode_byte_to_long_step, push.
  rewrite Hx, (op_bpv _ _ Hop). done.
Qed.

Lemma decode_byte_to_int_spec blocks values it : B ≤ 32 →
  0 ≤ it → it * byte_block_count op ≤ vlen blocks → byte_value_count op * it ≤ vlen values →
  Forall (is_u 8) (take (Z.to_nat (it * byte_block_count op)) blocks) →
  regrouped 8 B (it * byte_block_count op) (byte_value_count op * it) as_u32 as_u32 (is_i 32)
    blocks values (decode_byte_to_int op blocks values it).
Proof using Hop HB.
  intros HB32. unfold decode_byte_to_int. rewrite (op_bpv _ _ Hop).
  destruct (op_mask _ _ Hop) as [Hm _].
  apply (decode_byte_spec 32 (int_mask op)); [lia|lia| | |].
  - rewrite (op_int_mask _ _ Hop), as_u_as_i by lia.
    assert (as_u32 (mask op) = as_u32 (as_u64 (mask op))) as -> by bitwise.
    rewrite Hm. apply as_u_id. rewrite Z.ones_equiv. pose proof (pow2_pos B ltac:(lia)).
    pose proof (Z.pow_le_mono_r 2 B 32 ltac:(lia) ltac:(lia)). unfold is_u. lia.
  - rewrite (op_int_mask _ _ Hop). apply as_i_range. lia.
  - intros v next free boff voff l [Hv0 Hv1] Hx. unfold decode_byte_to_int_step, push.
    rewrite Hx, (op_bpv _ _ Hop). cbn [mbind result_bind].
    assert (Hsh : ∀ b, 0 ≤ b → unsigned_shift 32 v b = shr_i v b).
    { intros b Hb. apply unsigned_shift_nonneg; [lia|done|unfold is_i; lia|lia]. }
    destruct (Z.ltb_spec 8 free); [done|]. rewrite Hsh by lia.
    destruct (vset l voff _) as [l1| | |]; cbn [mbind result_bind]; [|reflexivity..].
    rewrite (emit_ext 8 B (fun b => Z.land (shr_i v b) (int_mask op))
      (fun b => Z.land (unsigned_shift 32 v b) (int_mask op))); [done|].
    intros b Hb. by rewrite Hsh.
Qed.

(** ** Longs to longs and ints: the decoder pulls its values *)

Lemma cross_value b0 b1 f : - B ≤ f < 0 →
  as_u64 (Z.lor (shl_i 64 (Z.land b0 (as_i64 (shl_i 64 1 (B + f) - 1))) (- f))
                (unsigned_shift 64 b1 (64 + f)))
  = (as_u64 b0 mod 2 ^ (B + f)) * 2 ^ (- f) + as_u64 b1 / 2 ^ (64 + f).
Proof using HB.
  intros Hf. rewrite mask_ones, (land_mask 64) by lia.
  set (y := as_u64 b0 mod 2 ^ (B + f)).
  assert (0 ≤ y < 2 ^ (B + f)) as Hy by (apply Z.mod_pos_bound, pow2_pos; lia).
  assert (2 ^ (B + f) ≤ 2 ^ 63) by (apply Z.pow_le_mono_r; lia).
  assert (as_u64 y = y) as Ey by (apply as_u_id; unfold is_u; lia).
  assert (as_u64 (shl_i 64 y (- f)) = y * 2 ^ (- f)) as E.
  { rewrite as_u_shl, Ey; try lia. rewrite Ey.
    apply Z.lt_le_trans with (2 ^ (B + f)); [lia|]. apply Z.pow_le_mono_r; lia. }
  rewrite (as_u_lor_add 64 _ _ (- f)), E, as_u_unsigned_shift; try done; try lia; [by exists y|].
  rewrite as_u_unsigned_shift by lia. pose proof (as_u_range 64 b1 ltac:(lia)) as [? ?].
  split; [apply Z.div_pos; [lia|apply pow2_pos; lia]|].
  apply Z.div_lt_upper_bound; [apply pow2_pos; lia|]. rewrite <- Z.pow_add_r by lia.
  by replace (64 + f + - f) with 64 by lia.
Qed.

Lemma cross_range b0 b1 f : - B ≤ f < 0 →
  is_u B ((as_u64 b0 mod 2 ^ (B + f)) * 2 ^ (- f) + as_u64 b1 / 2 ^ (64 + f)).
Proof using HB.
  intros Hf. pose proof (Z.mod_pos_bound (as_u64 b0) (2 ^ (B + f)) ltac:(apply pow2_pos; lia)).
  assert (2 ^ B = 2 ^ (B + f) * 2 ^ (- f)) as E by (rewrite <- Z.pow_add_r by lia; f_equal; lia).
  unfold is_u. rewrite E. apply digit_bound; [lia|]. pose proof (as_u_range 64 b1 ltac:(lia)) as [? ?].
  split; [apply Z.div_pos; [lia|apply pow2_pos; lia]|]. apply Z.div_lt_upper_bound; [apply pow2_pos; lia|].
  rewrite <- Z.pow_add_r by lia. by replace (64 + f + - f) with 64 by lia.
Qed.

Lemma direct_value b0 f : 0 ≤ f ≤ 64 - B →
  as_u64 (Z.land (shr_i b0 f) (mask op)) = (as_u64 b0 / 2 ^ f) mod 2 ^ B.
Proof using HB Hop.
  intros Hf. destruct (op_mask _ _ Hop) as [Hm _].
  assert (as_u64 (Z.land (shr_i b0 f) (mask op)) = Z.land (as_u64 (shr_i b0 f)) (as_u64 (mask op)))
    as -> by bitwise.
  rewrite Hm. rewrite <- Z.shiftr_div_pow2, <- Z.land_ones by lia. unfold shr_i. bitwise.
Qed.

Section pull.
Context (U : Z → Z) (good : Z → Prop) (cross : Z → Z → Z → Z) (direct : Z → Z → Z).
Context (blocks values0 : list Z) (n : Z) (Hblocks : Forall (is_i 64) blocks).
Context (Hn : 0 ≤ n ≤ vlen values0) (Hroom : B * n ≤ 64 * vlen blocks).
Context (Hcross : ∀ b0 b1 f, is_i 64 b0 → is_i 64 b1 → - B ≤ f < 0 →
  good (cross b0 b1 f) ∧
  U (cross b0 b1 f) = (as_u64 b0 mod 2 ^ (B + f)) * 2 ^ (- f) + as_u64 b1 / 2 ^ (64 + f)).
Context (Hdirect : ∀ b0 f, is_i 64 b0 → 0 ≤ f ≤ 64 - B →
  good (direct b0 f) ∧ U (direct b0 f) = (as_u64 b0 / 2 ^ f) mod 2 ^ B).

Definition pull (i : Z) (s : dec) : result dec :=
  let '(mk_dec free boff values) := s in
  let free := free - B in
  if free <? 0 then
    b0 ← vget blocks boff; b1 ← vget blocks (boff + 1);
    values ← vset values i (cross b0 b1 free);
    Ok (mk_dec (free + 64) (boff + 1) values)
  else
    b0 ← vget blocks boff;
    values ← vset values i (direct b0 free);
    Ok (mk_dec free boff values).

Definition prefix (boff : Z) : Z := be_value 64 (map as_u64 (take (Z.to_nat (boff + 1)) blocks)).

Definition pulled (i : Z) (s : dec) : Prop :=
  ∃ W, vlen W = i ∧ d_values s = filled W values0 ∧ Forall good W ∧ Forall (is_u B) (map U W) ∧
       0 ≤ d_bits_left s ≤ 64 ∧ 0 ≤ d_block_offset s ∧
       B * i + d_bits_left s = 64 * (d_block_offset s + 1) ∧ (0 < i → d_bits_left s < 64) ∧
       be_value B (map U W) = prefix (d_block_offset s) / 2 ^ d_bits_left s.

Lemma prefix_next k b : 0 ≤ k → blocks !! Z.to_nat k = Some b →
  prefix k = prefix (k - 1) * 2 ^ 64 + as_u64 b.
Proof.
  intros Hk Hb. unfold prefix. rewrite (take_snoc _ _ b) by (done || lia).
  rewrite map_app. cbn [map]. rewrite be_value_snoc. do 5 f_equal. lia.
Qed.

(** Pulling a value from one word, or from two. *)
Lemma pull_direct X b f : 0 ≤ f ≤ 64 - B →
  ((X * 2 ^ 64 + b) / 2 ^ (f + B)) * 2 ^ B + (b / 2 ^ f) mod 2 ^ B = (X * 2 ^ 64 + b) / 2 ^ f.
Proof using HB.
  intros Hf. pose proof (pow2_pos f ltac:(lia)). pose proof (pow2_pos B ltac:(lia)).
  rewrite Z.pow_add_r, <- Z.div_div by lia.
  replace (2 ^ 64) with (2 ^ (64 - B - f) * 2 ^ B * 2 ^ f) by (rewrite <- !Z.pow_add_r by lia; f_equal; lia).
  rewrite !Z.mul_assoc, Z.div_add_l by lia. rewrite Z.div_add_l by lia.
  pose proof (Z.div_mod (b / 2 ^ f) (2 ^ B) ltac:(lia)). lia.
Qed.

Lemma pull_cross X b0 b1 f : - B ≤ f < 0 → B + f ≤ 64 → is_u 64 b1 →
  ((X * 2 ^ 64 + b0) / 2 ^ (B + f)) * 2 ^ B + ((b0 mod 2 ^ (B + f)) * 2 ^ (- f) + b1 / 2 ^ (64 + f))
  = ((X * 2 ^ 64 + b0) * 2 ^ 64 + b1) / 2 ^ (64 + f).
Proof using HB.
  intros Hf Hle [Hb0 Hb1]. pose proof (pow2_pos (B + f) ltac:(lia)). pose proof (pow2_pos (- f) ltac:(lia)).
  pose proof (pow2_pos (64 + f) ltac:(lia)).
  assert (2 ^ B = 2 ^ (B + f) * 2 ^ (- f)) as -> by (rewrite <- Z.pow_add_r by lia; f_equal; lia).
  assert (b0 mod 2 ^ (B + f) = (X * 2 ^ 64 + b0) mod 2 ^ (B + f)) as ->.
  { assert (2 ^ 64 = 2 ^ (64 - (B + f)) * 2 ^ (B + f)) as E by (rewrite <- Z.pow_add_r by lia; f_equal; lia).
    replace (X * 2 ^ 64 + b0) with (b0 + X * 2 ^ (64 - (B + f)) * 2 ^ (B + f)) by (rewrite E; lia).
    by rewrite Z_mod_plus_full. }
  set (Y := X * 2 ^ 64 + b0).
  replace (Y * 2 ^ 64) with (Y * 2 ^ (- f) * 2 ^ (64 + f)) by
    (rewrite <- Z.mul_assoc, <- Z.pow_add_r by lia; do 2 f_equal; lia).
  rewrite Z.div_add_l by lia. pose proof (Z.div_mod Y (2 ^ (B + f)) ltac:(lia)). nia.
Qed.

Lemma pull_step i s : 0 ≤ i < n → pulled i s → ∃ s', pull i s = Ok s' ∧ pulled (i + 1) s'.
Proof using HB Hblocks Hn Hroom Hcross Hdirect.
  intros Hi (W & HW & Hv & Hgood & Hu & Hf & Hb & Hbits & _ & Hval).
  destruct s as [free boff values]. cbn [d_bits_left d_block_offset d_values] in *. subst values.
  assert (B * (i + 1) ≤ 64 * vlen blocks) by (transitivity (B * n); [apply Z.mul_le_mono_nonneg_l; lia|done]).
  unfold pull. destruct (vget_in blocks boff) as (b0 & -> & Hb0); [lia|].
  assert (is_i 64 b0) as Hi0 by exact (Forall_lookup_1 _ _ _ _ Hblocks Hb0).
  pose proof (prefix_next boff b0 Hb Hb0) as Hpre. cbn [mbind result_bind].
  destruct (Z.ltb_spec (free - B) 0) as [Hneg|Hpos].
  - destruct (vget_in blocks (boff + 1)) as (b1 & -> & Hb1); [lia|].
    assert (is_i 64 b1) as Hi1 by exact (Forall_lookup_1 _ _ _ _ Hblocks Hb1).
    pose proof (prefix_next (boff + 1) b1 ltac:(lia) Hb1) as Hpre1.
    replace (boff + 1 - 1) with boff in Hpre1 by lia.
    destruct (Hcross b0 b1 (free - B) Hi0 Hi1) as [Hg HU]; [lia|].
    cbn [mbind result_bind]. rewrite vset_filled by (done || lia). cbn [mbind result_bind].
    eexists. split; [done|]. exists (W ++ [cross b0 b1 (free - B)]).
    cbn [d_bits_left d_block_offset d_values]. rewrite vlen_snoc, map_app. cbn [map].
    split_and!; try done; try lia.
    + apply Forall_app. split; [done|]. by apply Forall_singleton.
    + apply Forall_app. split; [done|]. apply Forall_singleton. rewrite HU.
      apply cross_range. lia.
    + rewrite be_value_snoc, Hval, HU, Hpre1, Hpre.
      replace (free - B + 64) with (64 + (free - B)) by lia.
      replace free with (B + (free - B)) at 1 by lia. apply pull_cross; [lia|lia|apply as_u_range; lia].
  - destruct (Hdirect b0 (free - B) Hi0) as [Hg HU]; [lia|].
    rewrite vset_filled by (done || lia). cbn [mbind result_bind].
    eexists. split; [done|]. exists (W ++ [direct b0 (free - B)]).
    cbn [d_bits_left d_block_offset d_values]. rewrite vlen_snoc, map_app. cbn [map].
    split_and!; try done; try lia.
    + apply Forall_app. split; [done|]. by apply Forall_singleton.
    + apply Forall_app. split; [done|]. apply Forall_singleton. rewrite HU.
      apply Z.mod_pos_bound, pow2_pos. lia.
    + rewrite be_value_snoc, Hval, HU, Hpre. replace free with ((free - B) + B) at 1 by lia.
      apply pull_direct. lia.
Qed.

Lemma pull_loop k : B * n = 64 * k →
  ∃ W, (s ← for_range 0 n pull (mk_dec 64 0 values0); Ok (d_values s)) = Ok (filled W values0) ∧
       Forall good W ∧ Forall (is_u B) (map U W) ∧ vlen W = n ∧
       be_value B (map U W) = be_value 64 (map as_u64 (take (Z.to_nat k) blocks)).
Proof using HB Hblocks Hn Hroom Hcross Hdirect.
  intros Hk.
  destruct (for_range_inv pulled pull 0 n (mk_dec 64 0 values0)) as (s & -> & W & HW & Hv & Hg & Hu & Hf & Hb & Hbits & H64 & Hval);
    [lia| |by intros; apply pull_step|].
  - exists []. cbn [d_bits_left d_block_offset d_values map]. rewrite filled_nil.
    split_and!; try done; try lia. unfold prefix. symmetry. apply Z.div_small.
    pose proof (be_value_bound 64 (map as_u64 (take (Z.to_nat (0 + 1)) blocks)) ltac:(lia)) as Hr.
    destruct Hr as [Hr0 Hr1].
    { apply List.Forall_forall. intros x (y & <- & _)%in_map_iff. apply as_u_range. lia. }
    split; [done|]. apply Z.lt_le_trans with (1 := Hr1). apply Z.pow_le_mono_r; [lia|].
    rewrite vlen_map. assert (vlen (take (Z.to_nat (0 + 1)) blocks) ≤ 1); [|lia].
    unfold vlen. rewrite length_take. lia.
  - exists W. cbn [mbind result_bind]. rewrite Hv. split_and!; try done. rewrite Hval. unfold prefix.
    destruct (decide (n = 0)) as [En|].
    + assert (k = 0) as -> by lia. fold (prefix (d_block_offset s)). rewrite <- Hval. rewrite En in HW.
      destruct W; [done|rewrite vlen_cons in HW; pose proof (vlen_nonneg W); lia].
    + specialize (H64 ltac:(lia)). assert (d_bits_left s = 0) as -> by lia.
      rewrite Z.pow_0_r, Z.div_1_r. do 4 f_equal. lia.
Qed.
End pull.

Lemma decode_long_to_long_spec blocks values it :
  0 ≤ it → long_block_count op * it ≤ vlen blocks → long_value_count op * it ≤ vlen values →
  Forall (is_i 64) blocks →
  regrouped 64 B (long_block_count op * it) (long_value_count op * it) as_u64 as_u64 (is_i 64)
    blocks values (decode_long_to_long op blocks values it).
Proof using Hop HB.
  intros Hit Hb Hv Hbl. pose proof Hop as [Hbpv Hlong _ (Hc1 & Hc2 & _ & _) [Hm Hmi] _].
  unfold decode_long_to_long. rewrite Z.min_l by done. set (n := long_value_count op * it) in *.
  assert (Hn : 0 ≤ n) by (unfold n; nia).
  assert (Hbits : B * n = 64 * (long_block_count op * it)) by (unfold n; rewrite Z.mul_assoc, Hlong; lia).
  destruct (pull_loop as_u64 (is_i 64)
    (fun b0 b1 f => Z.lor (shl_i 64 (Z.land b0 (as_i64 (shl_i 64 1 (B + f) - 1))) (- f))
                          (unsigned_shift 64 b1 (64 + f)))
    (fun b0 f => Z.land (shr_i b0 f) (mask op)) blocks values n) with (k := long_block_count op * it)
    as (W & H1 & H2 & H2' & H3 & H4); try done; try lia.
  - intros b0 b1 f H0 H1 Hf. split; [apply is_i_lor; [lia|apply as_i_range; lia..]|]. by apply cross_value.
  - intros b0 f H0 Hf. split; [apply is_i_land; [lia|apply is_i_shr_i; done || lia|done]|].
    by apply direct_value.
  - exists W. split_and!; try done. rewrite <- H1. unfold decode_long_to_long_step, pull. by rewrite Hbpv.
Qed.

Lemma decode_long_to_int_spec blocks values it : B ≤ 32 →
  0 ≤ it → long_block_count op * it ≤ vlen blocks → long_value_count op * it ≤ vlen values →
  Forall (is_i 64) blocks →
  regrouped 64 B (long_block_count op * it) (long_value_count op * it) as_u64 as_u32 (is_i 32)
    blocks values (decode_long_to_int op blocks values it).
Proof using Hop HB.
  intros HB32 Hit Hb Hv Hbl. pose proof Hop as [Hbpv Hlong _ (Hc1 & Hc2 & _ & _) [Hm Hmi] _].
  unfold decode_long_to_int. rewrite Z.min_l by done. set (n := long_value_count op * it) in *.
  assert (Hn : 0 ≤ n) by (unfold n; nia).
  assert (Hbits : B * n = 64 * (long_block_count op * it)) by (unfold n; rewrite Z.mul_assoc, Hlong; lia).
  assert (Hcut : ∀ y, is_u B (as_u64 y) → as_u32 (as_i32 y) = as_u64 y).
  { intros y [? ?]. rewrite as_u_as_i by lia.
    assert (as_u32 y = as_u32 (as_u64 y)) as -> by bitwise.
    apply as_u_id. pose proof (Z.pow_le_mono_r 2 B 32 ltac:(lia) ltac:(lia)). unfold is_u. lia. }
  destruct (pull_loop as_u32 (is_i 32)
    (fun b0 b1 f => as_i32 (Z.lor (shl_i 64 (Z.land b0 (as_i64 (shl_i 64 1 (B + f) - 1))) (- f))
                          (unsigned_shift 64 b1 (64 + f))))
    (fun b0 f => as_i32 (Z.land (unsigned_shift 64 b0 f) (mask op))) blocks values n)
    with (k := long_block_count op * it)
    as (W & H1 & H2 & H2' & H3 & H4); try done; try lia.
  - intros b0 b1 f H0 H1 Hf. split; [apply as_i_range; lia|].
    rewrite Hcut by (rewrite cross_value by done; apply cross_range; lia). by apply cross_value.
  - intros b0 f H0 Hf. split; [apply as_i_range; lia|].
    assert (as_u64 (Z.land (unsigned_shift 64 b0 f) (mask op)) = (as_u64 b0 / 2 ^ f) mod 2 ^ B) as E.
    { assert (as_u64 (Z.land (unsigned_shift 64 b0 f) (mask op))
        = Z.land (as_u64 (unsigned_shift 64 b0 f)) (as_u64 (mask op))) as -> by bitwise.
      by rewrite Hm, as_u_unsigned_shift, Z.land_ones by lia. }
    rewrite Hcut, E; [done|]. rewrite E. apply Z.mod_pos_bound, pow2_pos. lia.
  - exists W. split_and!; try done. rewrite <- H1. unfold decode_long_to_int_step, pull. rewrite Hbpv.
    by rewrite (proj2 (Z.ltb_ge _ _) HB32).
Qed.
End loops.

(** * Round trips *)

Lemma take_filled {A} (W l0 : list A) n : vlen W = n → take (Z.to_nat n) (filled W l0) = W.
Proof. intros <-. unfold filled. by rewrite to_nat_vlen, take_app_length. Qed.

Lemma filled_all {A} (W l0 : list A) : filled W l0 = W ++ drop (length W) l0.
Proof. done. Qed.

Lemma Forall_filled {A} (P : A → Prop) W l0 : Forall P W → Forall P l0 → Forall P (filled W l0).
Proof. intros. unfold filled. apply Forall_app. split; [done|]. by apply Forall_drop. Qed.

Lemma vlen_filled {A} (W l0 : list A) : vlen W ≤ vlen l0 → vlen (filled W l0) = vlen l0.
Proof. unfold vlen, filled. intros. rewrite length_app, length_drop. lia. Qed.

Lemma as_u_inj w l k : 1 ≤ w → Forall (is_i w) l → Forall (is_i w) k →
  map (as_u w) l = map (as_u w) k → l = k.
Proof.
  intros Hw Hl. revert k. induction Hl as [|x l Hx Hl IH]; intros [|y k] Hk; try done.
  simpl. intros [= E1 E2]. apply Forall_cons_iff in Hk as [Hy Hk]. f_equal; [|by apply IH].
  rewrite <- (as_i_id w x), <- (as_i_id w y), <- (as_i_as_u w x), <- (as_i_as_u w y), E1 by done. done.
Qed.

(** Regrouping there and back gives the values again. *)
Lemma regroup_back B w ow n cnt U W blocks values dst r :
  1 ≤ w → 0 ≤ B → 0 ≤ n ≤ vlen values → inputs B w n values → vlen W = cnt →
  be_value ow (map U W) = be_value B (map (as_u w) (take (Z.to_nat n) values)) →
  regrouped ow B cnt n U (as_u w) (is_i w) (filled W blocks) dst r →
  r = Ok (take (Z.to_nat n) values ++ drop (Z.to_nat n) dst).
Proof.
  intros Hw HB Hn Hin HW Hval (W' & -> & Hg & Hu & Hc & Hval'). rewrite take_filled in Hval' by done.
  rewrite Hval in Hval'. unfold inputs in Hin.
  assert (W' = take (Z.to_nat n) values) as ->.
  { apply (as_u_inj w); [done|done| |].
    - eapply Forall_impl; [|exact Hin]. simpl. tauto.
    - apply (be_value_inj B); [done|done| | |done].
      + apply List.Forall_forall. intros x (y & <- & Hy)%in_map_iff.
        rewrite List.Forall_forall in Hin. by apply Hin.
      + rewrite !length_map, length_take. unfold vlen in *. lia. }
  rewrite filled_all, length_take. do 2 f_equal. unfold vlen in *. do 2 f_equal. lia.
Qed.

Section roundtrips.
Context (B : Z) (op : t) (Hop : op_ok B op) (HB : 1 ≤ B ≤ 64).

Lemma long_roundtrips values blocks bytes dst it :
  0 ≤ it → inputs B 64 (long_value_count op * it) values →
  inputs B 64 (byte_value_count op * it) values →
  long_value_count op * it ≤ vlen values → byte_value_count op * it ≤ vlen values →
  long_block_count op * it ≤ vlen blocks → byte_block_count op * it ≤ vlen bytes →
  long_value_count op * it ≤ vlen dst → byte_value_count op * it ≤ vlen dst →
  Forall (is_i 64) blocks →
  (∃ blocks', encode_long_to_long op values blocks it = Ok blocks' ∧
     decode_long_to_long op blocks' dst it =
       Ok (take (Z.to_nat (long_value_count op * it)) values
           ++ drop (Z.to_nat (long_value_count op * it)) dst)) ∧
  (∃ bytes', encode_long_to_byte op values bytes it = Ok bytes' ∧
     decode_byte_to_long op bytes' dst it =
       Ok (take (Z.to_nat (byte_value_count op * it)) values
           ++ drop (Z.to_nat (byte_value_count op * it)) dst)).
Proof using Hop HB.
  intros Hit Hin Hin' Hv Hv' Hb Hb' Hd Hd' Hbl.
  pose proof (op_counts _ _ Hop) as (Hc1 & Hc2 & Hc3 & Hc4). split.
  - destruct (encode_long_to_long_spec B op Hop HB values blocks it) as (W & -> & Hg & Hu & Hc & Hval);
      try done. eexists. split; [done|].
    apply (regroup_back B 64 64 _ (long_block_count op * it) as_u64 W blocks); try done; try lia; try nia.
    apply decode_long_to_long_spec; try done; [rewrite vlen_filled; lia|]. by apply Forall_filled.
  - destruct (encode_long_to_byte_spec B op Hop HB values bytes it) as (W & -> & Hg & Hu & Hc & Hval);
      try done. eexists. split; [done|].
    apply (regroup_back B 64 8 _ (it * byte_block_count op) as_u64 W bytes); try done; try lia; try nia.
    + rewrite <- Hval. f_equal. apply map_ext_Forall. eapply Forall_impl; [|exact Hg].
      intros x [? ?]. apply as_u_id. unfold is_u. lia.
    + apply decode_byte_to_long_spec; try done; [rewrite vlen_filled; lia|].
      rewrite take_filled by lia. done.
Qed.

Lemma int_roundtrips values blocks bytes dst it : B ≤ 32 →
  0 ≤ it → inputs B 32 (long_value_count op * it) values →
  inputs B 32 (byte_value_count op * it) values →
  long_value_count op * it ≤ vlen values → byte_value_count op * it ≤ vlen values →
  long_block_count op * it ≤ vlen blocks → byte_block_count op * it ≤ vlen bytes →
  long_value_count op * it ≤ vlen dst → byte_value_count op * it ≤ vlen dst →
  Forall (is_i 64) blocks →
  (∃ blocks', encode_int_to_long op values blocks it = Ok blocks' ∧
     decode_long_to_int op blocks' dst it =
       Ok (take (Z.to_nat (long_value_count op * it)) values
           ++ drop (Z.to_nat (long_value_count op * it)) dst)) ∧
  (∃ bytes', encode_int_to_byte op values bytes it = Ok bytes' ∧
     decode_byte_to_int op bytes' dst it =
       Ok (take (Z.to_nat (byte_value_count op * it)) values
           ++ drop (Z.to_nat (byte_value_count op * it)) dst)).
Proof using Hop HB.
  intros HB32 Hit Hin Hin' Hv Hv' Hb Hb' Hd Hd' Hbl.
  pose proof (op_counts _ _ Hop) as (Hc1 & Hc2 & Hc3 & Hc4). split.
  - destruct (encode_int_to_long_spec B op Hop HB values blocks it) as (W & -> & Hg & Hu & Hc & Hval);
      try done. eexists. split; [done|].
    apply (regroup_back B 32 64 _ (long_block_count op * it) as_u64 W blocks); try done; try lia; try nia.
    apply decode_long_to_int_spec; try done; [rewrite vlen_filled; lia|]. by apply Forall_filled.
  - destruct (encode_int_to_byte_spec B op Hop HB values bytes it) as (W & -> & Hg & Hu & Hc & Hval);
      try done. eexists. split; [done|].
    apply (regroup_back B 32 8 _ (it * byte_block_count op) as_u32 W bytes); try done; try lia; try nia.
    + rewrite <- Hval. f_equal. apply map_ext_Forall. eapply Forall_impl; [|exact Hg].
      intros x [? ?]. apply as_u_id. unfold is_u. lia.
    + apply decode_byte_to_int_spec; try done; [rewrite vlen_filled; lia|].
      rewrite take_filled by lia. done.
Qed.
End roundtrips.
