(* ===== verification/PackedSingleFacts.v ===== *)
(** Correctness of the single-block bulk format of PackedBulk.v: a block holds
    [64 / bits_per_value] values, the first in the lowest bits. *)

From S2P Require Import Prelude DataIO Numeric NumericFacts PackedBulk PackedBulkFacts.
Import BulkOperationPackedSingleBlock.

(** The number whose digits of width [w], the least significant first, are [l]. *)
Definition le_value (w : Z) (l : list Z) : Z := foldr (fun x acc => x + 2 ^ w * acc) 0 l.

Lemma le_value_snoc w l x : 0 ≤ w → le_value w (l ++ [x]) = le_value w l + x * 2 ^ (w * vlen l).
Proof.
  intros Hw. unfold le_value. induction l as [|y l IH].
  { change (vlen []) with 0. rewrite Z.mul_0_r, Z.pow_0_r. cbn [app foldr]. lia. }
  cbn [app foldr]. rewrite IH, vlen_cons. replace (w * (vlen l + 1)) with (w * vlen l + w) by lia.
  rewrite Z.pow_add_r by (pose proof (vlen_nonneg l); nia). lia.
Qed.

Lemma le_value_bound w l : 0 ≤ w → Forall (is_u w) l → is_u (w * vlen l) (le_value w l).
Proof.
  intros Hw. induction l as [|x l IH] using rev_ind; intros Hl.
  - change (vlen []) with 0. rewrite Z.mul_0_r. unfold is_u. cbn [le_value foldr]. lia.
  - apply Forall_app in Hl as [Hl Hx]. rewrite Forall_singleton in Hx. specialize (IH Hl).
    rewrite le_value_snoc, vlen_snoc by done. destruct IH as [I0 I1], Hx as [X0 X1].
    replace (w * (vlen l + 1)) with (w + w * vlen l) by lia.
    pose proof (vlen_nonneg l). unfold is_u. rewrite Z.pow_add_r by nia.
    rewrite Z.add_comm. apply digit_bound; lia.
Qed.

Lemma le_value_head w x l : 0 ≤ w → is_u w x →
  le_value w (x :: l) mod 2 ^ w = x ∧ le_value w (x :: l) / 2 ^ w = le_value w l.
Proof.
  intros Hw [H0 H1]. pose proof (pow2_pos w Hw). cbn [le_value foldr]. fold (le_value w l).
  rewrite (Z.mul_comm (2 ^ w)), Z_mod_plus_full, Z.div_add by lia.
  rewrite Z.mod_small, Z.div_small by lia. split; lia.
Qed.

(** ** A block as bytes *)

Lemma write_long_spec b W l0 : vlen W + 8 ≤ vlen l0 →
  write_long b (filled W l0) (vlen W) = Ok (vlen W + 8, filled (W ++ be_digits 8 8 (as_u64 b)) l0).
Proof.
  intros Hroom. unfold write_long.
  assert (Hd : ∀ r, 0 ≤ r → r ≤ 56 → as_u8 (unsigned_shift 64 b r) = as_u 8 (Z.shiftr (as_u64 b) r)).
  { intros r Hr Hr'. unfold unsigned_shift. by rewrite as_u_cast_down by lia. }
  destruct (for_range_inv (fun i '(off, l) => off = vlen W + (i - 1) ∧
     l = filled (W ++ take (Z.to_nat (i - 1)) (be_digits 8 8 (as_u64 b))) l0)
   (fun i '(offset, blocks) => blocks ← vset blocks offset (as_u8 (unsigned_shift 64 b (64 - Z.shiftl i 3)));
    Ok (offset + 1, blocks)) 1 9 (vlen W, filled W l0)) as ([off l] & -> & -> & ->).
  - lia.
  - split; [lia|]. by rewrite app_nil_r.
  - intros i [off l] Hi (-> & ->).
    assert (Hlk : be_digits 8 8 (as_u64 b) !! Z.to_nat (i - 1) = Some (as_u8 (unsigned_shift 64 b (64 - Z.shiftl i 3)))).
    { rewrite Z.shiftl_mul_pow2, Hd by lia.
      assert (i = 1 ∨ i = 2 ∨ i = 3 ∨ i = 4 ∨ i = 5 ∨ i = 6 ∨ i = 7 ∨ i = 8) as Hc by lia.
      destruct_or! Hc; subst i; reflexivity. }
    assert (Hl : vlen (take (Z.to_nat (i - 1)) (be_digits 8 8 (as_u64 b))) = i - 1).
    { apply vlen_take. unfold vlen. rewrite length_be_digits. lia. }
    rewrite vset_filled by (rewrite vlen_app, Hl; lia). cbn [mbind result_bind].
    eexists. split; [done|]. split; [lia|].
    replace (i + 1 - 1) with (i - 1 + 1) by lia. erewrite (take_snoc (be_digits 8 8 (as_u64 b)) (i - 1)) by (lia || exact Hlk). by rewrite app_assoc.
  - done.
Qed.

(** Read the [k]-th byte of a block through the lookup fact [Hget]. *)
Ltac read_digit Hget k :=
  let x := fresh in let H1 := fresh in let H2 := fresh in
  destruct (Hget k ltac:(lia)) as (x & H1 & H2); simpl in H1; injection H1 as <-;
  let z := eval compute in (Z.of_nat k) in change (Z.of_nat k) with z in H2;
  rewrite H2; clear H2; cbn [mbind result_bind].

Lemma read_long_spec b pre post : is_i 64 b →
  read_long (pre ++ be_digits 8 8 (as_u64 b) ++ post) (vlen pre) = Ok b.
Proof.
  intros Hb. unfold read_long.
  assert (Hget : ∀ k, (k < 8)%nat → ∃ x, be_digits 8 8 (as_u64 b) !! k = Some x ∧
    vget (pre ++ be_digits 8 8 (as_u64 b) ++ post) (vlen pre + Z.of_nat k) = Ok x).
  { intros k Hk. destruct (lookup_lt_is_Some_2 (be_digits 8 8 (as_u64 b)) k) as [x Hx]; [by rewrite length_be_digits|].
    exists x. split; [done|]. unfold vlen. rewrite <- Nat2Z.inj_add. apply vget_lookup.
    rewrite lookup_app_r by lia. replace (length pre + k - length pre)%nat with k by lia.
    by apply lookup_app_l_Some. }
  pose proof (be_digits_range 8 8 (as_u64 b) ltac:(lia)) as Hr.
  pose proof (be_value_digits 8 8 (as_u64 b) ltac:(lia)) as Hval.
  destruct (be_digits 8 8 (as_u64 b)) as [|b0 [|b1 [|b2 [|b3 [|b4 [|b5 [|b6 [|b7 [|? ?]]]]]]]]] eqn:E;
    try (apply (f_equal length) in E; rewrite length_be_digits in E; discriminate E).
  rewrite <- (Z.add_0_r (vlen pre)) at 1.
  read_digit Hget 0%nat. read_digit Hget 1%nat. read_digit Hget 2%nat. read_digit Hget 3%nat.
  read_digit Hget 4%nat. read_digit Hget 5%nat. read_digit Hget 6%nat. read_digit Hget 7%nat.
  f_equal. rewrite as_u_id in Hval by (apply as_u_range; lia).
  match goal with |- ?x = b => assert (is_i 64 x) as Hx end.
  { repeat (apply is_i_lor; [lia| |]); try (apply as_i_range; lia).
    repeat (apply Forall_cons_iff in Hr as [? Hr]). unfold is_u, is_i in *. lia. }
  rewrite <- (as_i_id 64 _ ltac:(lia) Hx), <- (as_i_id 64 b ltac:(lia) Hb).
  rewrite <- as_i_as_u, <- (as_i_as_u 64 b) by lia. f_equal. rewrite <- Hval.
  rewrite be_value_lor by done. pose proof (be_value_bound 8 _ ltac:(lia) Hr) as Hbd.
  rewrite be_value_lor in Hbd by done. rewrite <- (as_u_id 64 (foldl _ _ _)) by exact Hbd.
  rewrite !as_u_lor, !as_u_shl_i by lia. rewrite <- !as_u_lor by lia. f_equal. simpl.
  by rewrite !Z.shiftl_lor, !Z.shiftl_shiftl, !Z.lor_0_l by lia.
Qed.

Section single.
Context (B : Z) (HB : 1 ≤ B ≤ 32).
Let op := new B.
Abbreviation vc := (64 / B).

(** How a value is widened and cut, and its unsigned reading. *)
Context (wide cut U : Z → Z) (value : Z → Prop).
Context (Hwide : ∀ v, value v → is_i 64 (wide v) ∧ as_u64 (wide v) = U v ∧ is_u B (U v)).
Context (Hcut : ∀ v, value v → cut (U v) = v).

Lemma vc_bounds : 2 ≤ vc ∧ B * vc ≤ 64.
Proof using HB.
  pose proof (Z.mul_div_le 64 B ltac:(lia)). split; [|done].
  apply Z.div_le_lower_bound; lia.
Qed.

Lemma mask_value y : Z.land y (mask op) = as_u64 y mod 2 ^ B.
Proof using HB. unfold op, new. cbn [mask]. rewrite mask_ones by lia. apply land_mask; lia. Qed.

Lemma encode_value_spec values pre chunk post :
  values = pre ++ chunk ++ post → vlen chunk = vc → Forall value chunk →
  ∃ b, encode_value op wide values (vlen pre) = Ok b ∧ is_i 64 b ∧
       as_u64 b = le_value B (map U chunk).
Proof using HB Hwide.
  intros Hval Hlen Hch. destruct vc_bounds as [Hvc Hvc64].
  assert (Hget : ∀ i, 0 ≤ i < vc → ∃ v, vget values (vlen pre + i) = Ok v ∧ chunk !! Z.to_nat i = Some v ∧ value v).
  { intros i Hi. destruct (vget_in chunk i) as (v & _ & Hv); [lia|]. exists v. split_and!; [|done|].
    - replace (vlen pre + i) with (Z.of_nat (length pre + Z.to_nat i)) by (unfold vlen; lia).
      apply vget_lookup. rewrite Hval, lookup_app_r by lia.
      replace (length pre + Z.to_nat i - length pre)%nat with (Z.to_nat i) by lia.
      apply lookup_app_l_Some. done.
    - exact (Forall_lookup_1 _ _ _ _ Hch Hv). }
  unfold encode_value. destruct (Hget 0) as (v0 & Hg0 & Hl0 & Hv0); [lia|].
  rewrite Z.add_0_r in Hg0. rewrite Hg0. cbn [mbind result_bind].
  destruct (for_range_inv (fun i '(off, block) => off = vlen pre + i ∧ is_i 64 block ∧
      as_u64 block = le_value B (map U (take (Z.to_nat i) chunk)))
    (fun i '(offset, block) => v ← vget values offset;
       Ok (offset + 1, Z.lor block (shl_i 64 (wide v) (i * bits_per_value op)))) 1 vc
    (vlen pre + 1, wide v0)) as ([off block] & Hrun & _ & Hb & Hu).
  - lia.
  - destruct (Hwide v0 Hv0) as (H1 & H2 & _). split_and!; try done.
    assert (take (Z.to_nat 1) chunk = [v0]) as -> by
      (destruct chunk; [done|]; injection Hl0 as ->; done).
    rewrite H2. cbn [map le_value foldr]. lia.
  - intros i [off block] Hi (-> & Hbi & Hbu). destruct (Hget i) as (v & -> & Hlk & Hv); [lia|].
    destruct (Hwide v Hv) as (H1 & H2 & H3). cbn [mbind result_bind]. eexists. split; [done|].
    split_and!; [lia|apply is_i_lor; [lia|done|apply as_i_range; lia]|].
    rewrite (take_snoc chunk i v) by (done || lia). rewrite map_app. cbn [map].
    assert (Hlt : vlen (map U (take (Z.to_nat i) chunk)) = i) by (rewrite vlen_map; apply vlen_take; lia).
    rewrite le_value_snoc, Hlt, <- Hbu by lia. cbn [bits_per_value op new].
    assert (B * i + B ≤ 64) by nia. replace (i * B) with (B * i) by lia.
    assert (as_u64 (shl_i 64 (wide v) (B * i)) = U v * 2 ^ (B * i)) as E.
    { rewrite as_u_shl, H2; try lia. rewrite H2. destruct H3.
      apply Z.lt_le_trans with (2 ^ B); [lia|]. apply Z.pow_le_mono_r; lia. }
    rewrite Z.lor_comm, (as_u_lor_add 64 _ _ (B * i)), E; try lia; [by exists (U v)|].
    rewrite Hbu. rewrite <- Hlt at 1. apply le_value_bound; [lia|].
    apply List.Forall_forall. intros x (y & <- & Hy)%in_map_iff. apply Hwide.
    rewrite List.Forall_forall in Hch. apply Hch. apply list_elem_of_In.
    apply list_elem_of_In in Hy. eapply subseteq_take. exact Hy.
  - change (value_count op) with vc. rewrite Hrun. cbn [mbind result_bind]. exists block.
    split_and!; try done. rewrite Hu. rewrite <- Hlen, to_nat_vlen, firstn_all. done.
Qed.

Lemma decode_value_spec block chunk pre values :
  is_i 64 block → as_u64 block = le_value B (map U chunk) → vlen chunk = vc → Forall value chunk →
  vlen pre + vc ≤ vlen values →
  decode_long_value op cut block (filled pre values) (vlen pre)
  = Ok (vlen pre + vc, filled (pre ++ chunk) values).
Proof using HB Hwide Hcut.
  intros Hb Hu Hlen Hch Hroom. destruct vc_bounds as [Hvc Hvc64].
  unfold decode_long_value.
  assert (Hval : ∀ y i v, chunk !! Z.to_nat i = Some v → 0 ≤ i →
    as_u64 y = le_value B (map U (drop (Z.to_nat i) chunk)) →
    cut (Z.land y (mask op)) = v ∧ as_u64 y / 2 ^ B = le_value B (map U (drop (Z.to_nat (i + 1)) chunk))).
  { intros y i v Hv Hi Hy. rewrite mask_value, Hy. rewrite (drop_S _ _ _ Hv). cbn [map].
    assert (value v) as Hvv by exact (Forall_lookup_1 _ _ _ _ Hch Hv).
    destruct (Hwide v Hvv) as (_ & _ & Hr).
    destruct (le_value_head B (U v) (map U (drop (S (Z.to_nat i)) chunk)) ltac:(lia) Hr) as [-> ->].
    split; [by apply Hcut|]. replace (Z.to_nat (i + 1)) with (S (Z.to_nat i)) by lia. done. }
  destruct (vget_in chunk 0) as (v0 & _ & Hv0); [lia|].
  destruct (Hval block 0 v0 Hv0 ltac:(lia)) as [-> _]; [by rewrite drop_0|].
  rewrite vset_filled by (done || lia). cbn [mbind result_bind].
  match goal with |- context [for_range _ _ ?body ?start] => 
    destruct (for_range_inv (fun i '(off, b, vs) => off = vlen pre + i ∧
      vs = filled (pre ++ take (Z.to_nat i) chunk) values ∧
      as_u64 b = le_value B (map U (drop (Z.to_nat (i - 1)) chunk))) body 1 (value_count op) start)
      as ([[off b] vs] & Hrun & -> & -> & _) end.
  - change (value_count op) with vc. lia.
  - split_and!; [done| |by rewrite Z.sub_diag, drop_0].
    change (Z.to_nat 1) with (Z.to_nat (0 + 1)). by rewrite (take_snoc chunk 0 v0) by (done || lia).
  - change (value_count op) with vc. intros i [[off b] vs] Hi (-> & -> & Hbu). destruct (vget_in chunk i) as (v & _ & Hv); [lia|].
    destruct (vget_in chunk (i - 1)) as (v' & _ & Hv'); [lia|].
    destruct (Hval b (i - 1) v' Hv' ltac:(lia) Hbu) as [_ Hdiv].
    replace (i - 1 + 1) with i in Hdiv by lia.
    assert (as_u64 (unsigned_shift 64 b B) = le_value B (map U (drop (Z.to_nat i) chunk))) as Hnew.
    { by rewrite as_u_unsigned_shift by lia. }
    destruct (Hval _ i v Hv ltac:(lia) Hnew) as [Hc _]. cbv zeta.
    change (bits_per_value op) with B. rewrite Hc.
    rewrite vset_filled by (rewrite vlen_app, vlen_take by lia; lia).
    cbn [mbind result_bind]. eexists. split; [done|]. split_and!; [lia| |].
    + rewrite (take_snoc chunk i v) by (done || lia). by rewrite app_assoc.
    + by replace (i + 1 - 1) with i by lia.
  - rewrite Hrun. cbn [mbind result_bind]. change (value_count op) with vc.
    rewrite <- Hlen, to_nat_vlen, firstn_all. done.
Qed.

(** ** The loops over blocks *)

Definition chunk (values : list Z) (i : Z) : list Z :=
  take (Z.to_nat vc) (drop (Z.to_nat (i * vc)) values).

(** [b] is the block of the [i]-th chunk. *)
Definition codes (values : list Z) (i b : Z) : Prop :=
  is_i 64 b ∧ as_u64 b = le_value B (map U (chunk values i)).

Lemma chunk_split values i it : 0 ≤ i < it → it * vc ≤ vlen values →
  values = take (Z.to_nat (i * vc)) values ++ chunk values i ++ drop (Z.to_nat ((i + 1) * vc)) values ∧
  vlen (chunk values i) = vc ∧ vlen (take (Z.to_nat (i * vc)) values) = i * vc.
Proof using HB.
  intros Hi Hv. destruct vc_bounds as [Hvc _]. assert ((i + 1) * vc ≤ vlen values) by nia. split_and!.
  - unfold chunk. replace (Z.to_nat ((i + 1) * vc)) with (Z.to_nat (i * vc) + Z.to_nat vc)%nat by nia.
    rewrite <- drop_drop, take_drop, take_drop. done.
  - unfold chunk. apply vlen_take. rewrite vlen_drop by nia. nia.
  - apply vlen_take. nia.
Qed.

Lemma take_next values i it : 0 ≤ i < it → it * vc ≤ vlen values →
  take (Z.to_nat ((i + 1) * vc)) values = take (Z.to_nat (i * vc)) values ++ chunk values i.
Proof using HB.
  intros Hi Hv. destruct vc_bounds as [Hvc _]. unfold chunk.
  replace (Z.to_nat ((i + 1) * vc)) with (Z.to_nat (i * vc) + Z.to_nat vc)%nat by nia.
  by rewrite take_take_drop.
Qed.

Lemma chunk_values values i it : Forall value (take (Z.to_nat (it * vc)) values) → 0 ≤ i < it →
  it * vc ≤ vlen values → Forall value (chunk values i).
Proof using HB.
  intros Hall Hi Hv. destruct vc_bounds as [Hvc _].
  apply List.Forall_forall. intros x Hx. rewrite List.Forall_forall in Hall. apply Hall.
  apply list_elem_of_In in Hx. apply list_elem_of_In.
  apply list_elem_of_lookup in Hx as [j Hj]. unfold chunk in Hj.
  apply lookup_take_Some in Hj as [Hj Hlt]. rewrite lookup_drop in Hj.
  apply list_elem_of_lookup. exists (Z.to_nat (i * vc) + j)%nat. apply lookup_take_Some. split; [done|]. nia.
Qed.

Lemma encode_at values i it : 0 ≤ i < it → it * vc ≤ vlen values →
  Forall value (take (Z.to_nat (it * vc)) values) →
  ∃ b, encode_value op wide values (i * vc) = Ok b ∧ codes values i b.
Proof using HB Hwide.
  intros Hi Hv Hall. destruct (chunk_split values i it Hi Hv) as (Hs & Hl & Hp).
  destruct (encode_value_spec values _ _ _ Hs Hl) as (b & Hb & H1 & H2).
  { by apply (chunk_values values i it). }
  rewrite Hp in Hb. by exists b.
Qed.

Lemma decode_at values dst i it b : 0 ≤ i < it → it * vc ≤ vlen values → it * vc ≤ vlen dst →
  Forall value (take (Z.to_nat (it * vc)) values) → codes values i b →
  decode_long_value op cut b (filled (take (Z.to_nat (i * vc)) values) dst) (i * vc)
  = Ok ((i + 1) * vc, filled (take (Z.to_nat ((i + 1) * vc)) values) dst).
Proof using HB Hwide Hcut.
  intros Hi Hv Hd Hall [Hb1 Hb2]. destruct vc_bounds as [Hvc _].
  destruct (chunk_split values i it Hi Hv) as (_ & Hl & Hp).
  rewrite <- Hp at 2. rewrite (decode_value_spec b (chunk values i)); try done.
  - rewrite Hp, (take_next values i it) by done. do 2 f_equal. lia.
  - by apply (chunk_values values i it).
  - rewrite Hp. nia.
Qed.

Lemma encode_to_long_spec values blocks it : 0 ≤ it → it * vc ≤ vlen values → it ≤ vlen blocks →
  Forall value (take (Z.to_nat (it * vc)) values) →
  ∃ W, encode_to_long op (encode_value op wide) values blocks it = Ok (filled W blocks) ∧ vlen W = it ∧
       ∀ i b, 0 ≤ i → W !! Z.to_nat i = Some b → codes values i b.
Proof using HB Hwide.
  intros Hit Hv Hb Hall. unfold encode_to_long. rewrite Z.min_l by done.
  match goal with |- context [for_range _ _ ?body ?start] =>
    destruct (for_range_inv (fun i '(off, bl) => off = i * vc ∧ ∃ W, bl = filled W blocks ∧ vlen W = i ∧
      ∀ j b, 0 ≤ j → W !! Z.to_nat j = Some b → codes values j b) body 0 it start)
      as ([off bl] & -> & _ & W & -> & HW & Hc) end; [done| | |cbn [mbind result_bind]; by exists W].
  - split; [done|]. exists []. rewrite filled_nil. split_and!; try done.
  - intros i [off bl] Hi (-> & W & -> & HW & Hc).
    destruct (encode_at values i it Hi Hv Hall) as (b & -> & Hbc). cbn [mbind result_bind].
    rewrite vset_filled by (done || lia). cbn [mbind result_bind]. eexists. split; [done|].
    split; [change (value_count op) with vc; lia|]. exists (W ++ [b]). split_and!; [done|rewrite vlen_snoc; lia|].
    intros j b' Hj Hlk. destruct (decide (j = i)) as [->|Hne].
    + rewrite <- HW, to_nat_vlen, list_lookup_middle in Hlk by done. by injection Hlk as <-.
    + apply Hc; [done|]. rewrite lookup_app_l in Hlk; [done|]. apply lookup_lt_Some in Hlk.
      rewrite length_app in Hlk. simpl in Hlk. unfold vlen in HW. lia.
Qed.

Lemma decode_longs_spec values blocks W dst it :
  0 ≤ it → it * vc ≤ vlen values → it * vc ≤ vlen dst →
  Forall value (take (Z.to_nat (it * vc)) values) → vlen W = it →
  (∀ i b, 0 ≤ i → W !! Z.to_nat i = Some b → codes values i b) →
  decode_longs (decode_long_value op cut) (filled W blocks) dst it
  = Ok (filled (take (Z.to_nat (it * vc)) values) dst).
Proof using HB Hwide Hcut.
  intros Hit Hv Hd Hall HW Hc. unfold decode_longs. rewrite take_filled by done.
  destruct (for_each_inv (fun i '(off, vs) => off = i * vc ∧ vs = filled (take (Z.to_nat (i * vc)) values) dst)
    (fun b '(values_offset, vs) => decode_long_value op cut b vs values_offset) W (0, dst))
    as ([off vs] & -> & -> & ->).
  - split; [done|]. by rewrite Z.mul_0_l, take_0, filled_nil.
  - intros i b [off vs] Hi Hlk (-> & ->). pose proof (lookup_lt_Some _ _ _ Hlk) as Hlt.
    rewrite (decode_at values dst i it) by (done || (unfold vlen in HW; lia) || by apply Hc).
    eexists. split; [done|]. split; done.
  - cbn [mbind result_bind]. by rewrite HW.
Qed.

(** ** Blocks as bytes *)

Definition block_bytes (W : list Z) : list Z := flat_map (fun b => be_digits 8 8 (as_u64 b)) W.

Lemma block_bytes_snoc W b : block_bytes (W ++ [b]) = block_bytes W ++ be_digits 8 8 (as_u64 b).
Proof. unfold block_bytes. rewrite flat_map_app. cbn [flat_map]. by rewrite app_nil_r. Qed.

Lemma vlen_block_bytes W : vlen (block_bytes W) = 8 * vlen W.
Proof.
  induction W as [|b W IH] using rev_ind; [done|].
  rewrite block_bytes_snoc, vlen_app, vlen_snoc, IH. unfold vlen. rewrite length_be_digits. lia.
Qed.

Lemma encode_to_byte_single values bytes it : 0 ≤ it → it * vc ≤ vlen values → 8 * it ≤ vlen bytes →
  Forall value (take (Z.to_nat (it * vc)) values) →
  ∃ W, encode_to_byte op (encode_value op wide) values bytes it = Ok (filled (block_bytes W) bytes) ∧
       vlen W = it ∧ ∀ i b, 0 ≤ i → W !! Z.to_nat i = Some b → codes values i b.
Proof using HB Hwide.
  intros Hit Hv Hb Hall. unfold encode_to_byte.
  match goal with |- context [for_range _ _ ?body ?start] =>
    destruct (for_range_inv (fun i '(off, bl) => off = 8 * i ∧ ∃ W, bl = filled (block_bytes W) bytes ∧
      vlen W = i ∧ ∀ j b, 0 ≤ j → W !! Z.to_nat j = Some b → codes values j b) body 0 it start)
      as ([off bl] & -> & _ & W & -> & HW & Hc) end; [done| | |cbn [mbind result_bind]; by exists W].
  - split; [done|]. exists []. change (block_bytes []) with (@nil Z). rewrite filled_nil. split_and!; try done.
  - intros i [off bl] Hi (-> & W & -> & HW & Hc). change (value_count op) with vc.
    destruct (encode_at values i it Hi Hv Hall) as (b & -> & Hbc). cbn [mbind result_bind].
    rewrite <- HW, <- vlen_block_bytes. rewrite write_long_spec by (rewrite vlen_block_bytes; lia).
    eexists. split; [done|]. split; [rewrite vlen_block_bytes; lia|].
    exists (W ++ [b]). rewrite block_bytes_snoc. split_and!; [done|by rewrite vlen_snoc|].
    intros j b' Hj Hlk. destruct (decide (j = vlen W)) as [->|Hne].
    + rewrite to_nat_vlen, list_lookup_middle in Hlk by done. injection Hlk as <-. by rewrite HW.
    + apply Hc; [done|]. rewrite lookup_app_l in Hlk; [done|]. apply lookup_lt_Some in Hlk.
      rewrite length_app in Hlk. simpl in Hlk. unfold vlen in *. lia.
Qed.

Lemma decode_bytes_spec values bytes W dst it :
  0 ≤ it → it * vc ≤ vlen values → it * vc ≤ vlen dst →
  Forall value (take (Z.to_nat (it * vc)) values) → vlen W = it →
  (∀ i b, 0 ≤ i → W !! Z.to_nat i = Some b → codes values i b) →
  decode_bytes (decode_long_value op cut) (filled (block_bytes W) bytes) dst it
  = Ok (filled (take (Z.to_nat (it * vc)) values) dst).
Proof using HB Hwide Hcut.
  intros Hit Hv Hd Hall HW Hc. unfold decode_bytes.
  match goal with |- context [for_range _ _ ?body ?start] =>
    destruct (for_range_inv (fun i '(off, vs) => off = i * vc ∧
      vs = filled (take (Z.to_nat (i * vc)) values) dst) body 0 it start)
      as ([off vs] & -> & -> & ->) end; [done| | |done].
  - split; [done|]. by rewrite Z.mul_0_l, take_0, filled_nil.
  - intros i [off vs] Hi (-> & ->). destruct (vget_in W i) as (b & _ & Hlk); [lia|].
    assert (HWs : W = take (Z.to_nat i) W ++ b :: drop (Z.to_nat (i + 1)) W).
    { rewrite <- (take_drop (Z.to_nat i) W) at 1. f_equal. rewrite (drop_S _ _ _ Hlk).
      do 2 f_equal. lia. }
    assert (Hread : read_long (filled (block_bytes W) bytes) (i * 8) = Ok b).
    { rewrite HWs. unfold filled, block_bytes. rewrite flat_map_app. cbn [flat_map].
      fold (block_bytes (take (Z.to_nat i) W)). rewrite <- !app_assoc.
      replace (i * 8) with (vlen (block_bytes (take (Z.to_nat i) W))).
      - apply read_long_spec. by destruct (Hc i b ltac:(lia) Hlk).
      - rewrite vlen_block_bytes, vlen_take by lia. lia. }
    rewrite Hread. cbn [mbind result_bind].
    rewrite (decode_at values dst i it) by (done || (apply Hc; done || lia)). eexists. split; [done|]. done.
Qed.

(** Encoding and decoding, through longs or through bytes. *)
Lemma single_roundtrips values blocks bytes dst it :
  0 ≤ it → it * vc ≤ vlen values → it ≤ vlen blocks → 8 * it ≤ vlen bytes → it * vc ≤ vlen dst →
  Forall value (take (Z.to_nat (it * vc)) values) →
  let back := take (Z.to_nat (it * vc)) values ++ drop (Z.to_nat (it * vc)) dst in
  (∃ blocks', encode_to_long op (encode_value op wide) values blocks it = Ok blocks' ∧
     decode_longs (decode_long_value op cut) blocks' dst it = Ok back) ∧
  (∃ bytes', encode_to_byte op (encode_value op wide) values bytes it = Ok bytes' ∧
     decode_bytes (decode_long_value op cut) bytes' dst it = Ok back).
Proof using HB Hwide Hcut.
  intros Hit Hv Hb Hby Hd Hall back. destruct vc_bounds as [Hvc _].
  assert (Hback : filled (take (Z.to_nat (it * vc)) values) dst = back).
  { unfold filled, back. do 2 f_equal. rewrite length_take. unfold vlen in *. nia. }
  rewrite <- Hback. split.
  - destruct (encode_to_long_spec values blocks it Hit Hv Hb Hall) as (W & -> & HW & Hc).
    eexists. split; [done|]. by apply decode_longs_spec.
  - destruct (encode_to_byte_single values bytes it Hit Hv Hby Hall) as (W & -> & HW & Hc).
    eexists. split; [done|]. by apply decode_bytes_spec.
Qed.
End single.

(** * Both formats *)

(** The widths a format can hold. *)
Definition format_holds (f : Format) (B : Z) : Prop :=
  match f with Packed => 1 ≤ B ≤ 64 | PackedSingleBlock => 1 ≤ B ≤ 32 end.

(** Slices large enough for [it] iterations of the operation. *)
Record slices_fit (op : BulkOperation.t) (it : Z) (values blocks bytes dst : list Z) : Prop := {
  fit_it : 0 ≤ it;
  fit_values : BulkOperation.long_value_count op * it ≤ vlen values;
  fit_byte_values : BulkOperation.byte_value_count op * it ≤ vlen values;
  fit_blocks : BulkOperation.long_block_count op * it ≤ vlen blocks;
  fit_bytes : BulkOperation.byte_block_count op * it ≤ vlen bytes;
  fit_dst : BulkOperation.long_value_count op * it ≤ vlen dst;
  fit_byte_dst : BulkOperation.byte_value_count op * it ≤ vlen dst;
  fit_words : Forall (is_i 64) blocks;
}.

Lemma bulk_operation_packed B : 1 ≤ B ≤ 64 →
  ∃ b, BulkOperation.bulk_operation_of Packed B = Ok (BulkOperation.OpPacked b) ∧ op_ok B b.
Proof.
  intros HB. destruct (new_ok B HB) as (b & Hb & Hok). exists b. split; [|done].
  unfold BulkOperation.bulk_operation_of. by rewrite Hb.
Qed.

Lemma inputs_take B w n m values : m ≤ n → inputs B w n values → inputs B w m values.
Proof.
  unfold inputs. intros Hle Hin. apply List.Forall_forall. intros x Hx.
  rewrite List.Forall_forall in Hin. apply Hin. apply list_elem_of_In, list_elem_of_lookup in Hx as [j Hj].
  apply lookup_take_Some in Hj as [Hj Hlt]. apply list_elem_of_In, list_elem_of_lookup.
  exists j. apply lookup_take_Some. split; [done|lia].
Qed.

(** C6. Packing longs and unpacking them gives them back, in both formats and
    at every width they hold, through longs and through bytes; the rest of the
    destination is untouched.  The number of values is the operation's own
    count times the iterations. *)
Theorem bulk_long_roundtrip (f : Format) (B : Z) :
  format_holds f B →
  ∃ op, BulkOperation.bulk_operation_of f B = Ok op ∧
  ∀ it values blocks bytes dst, slices_fit op it values blocks bytes dst →
  Forall (fun v => is_i 64 v ∧ is_u B (as_u64 v)) values →
  (∃ blocks', BulkOperation.encode_long_to_long op values blocks it = Ok blocks' ∧
     BulkOperation.decode_long_to_long op blocks' dst it =
       Ok (take (Z.to_nat (BulkOperation.long_value_count op * it)) values
           ++ drop (Z.to_nat (BulkOperation.long_value_count op * it)) dst)) ∧
  (∃ bytes', BulkOperation.encode_long_to_byte op values bytes it = Ok bytes' ∧
     BulkOperation.decode_byte_to_long op bytes' dst it =
       Ok (take (Z.to_nat (BulkOperation.byte_value_count op * it)) values
           ++ drop (Z.to_nat (BulkOperation.byte_value_count op * it)) dst)).
Proof.
  destruct f; intros HB; cbn [format_holds] in HB.
  - destruct (bulk_operation_packed B HB) as (b & -> & Hok). eexists. split; [done|].
    intros it values blocks bytes dst [] Hval.
    apply (long_roundtrips B b Hok HB); try done; unfold inputs; by apply Forall_take.
  - eexists. split; [reflexivity|]. intros it values blocks bytes dst [] Hval.
    cbn [BulkOperation.long_value_count BulkOperation.byte_value_count BulkOperation.long_block_count
      BulkOperation.byte_block_count BulkOperation.SB.value_count BulkOperation.SB.new] in *.
    replace (64 / B * it) with (it * (64 / B)) in * by lia.
    apply (single_roundtrips B HB (fun v => v) (fun v => v) as_u64
      (fun v => is_i 64 v ∧ is_u B (as_u64 v))); try done; try lia.
    + intros v [H1 H2]. done.
    + intros v [H1 [H2 H3]]. symmetry. apply small_as_u; [lia|done|].
      pose proof (Z.pow_le_mono_r 2 B (64 - 1) ltac:(lia) ltac:(lia)). lia.
    + by apply Forall_take.
Qed.

Lemma bulk_long_roundtrip_witness :
  let values := replicate 64 7 ++ replicate 64 (2 ^ 33 - 1) in
  let dst := replicate 130 0 in
  ∃ op, BulkOperation.bulk_operation_of Packed 33 = Ok op ∧
    ∃ blocks', BulkOperation.encode_long_to_long op values (replicate 66 0) 2 = Ok blocks' ∧
      BulkOperation.decode_long_to_long op blocks' dst 2 = Ok (values ++ drop 128 dst).
Proof.
  intros values dst. destruct (bulk_long_roundtrip Packed 33) as (op & Hop & H); [cbn; lia|].
  exists op. split; [done|]. vm_compute in Hop. injection Hop as <-.
  apply (H 2 values (replicate 66 0) (replicate 600 0) dst).
  - constructor; [lia|vm_compute; congruence..|].
    apply Forall_replicate. unfold is_i. lia.
  - apply Forall_app. split; apply Forall_replicate; (split; [unfold is_i; lia|]);
      rewrite as_u_id; unfold is_u; lia.
Defined.

(** The same for [i32] values, at widths up to 32; a decoder of longs into
    [i32] refuses (panics on) any larger width. *)
Theorem bulk_int_roundtrip (f : Format) (B : Z) :
  1 ≤ B ≤ 32 →
  ∃ op, BulkOperation.bulk_operation_of f B = Ok op ∧
  ∀ it values blocks bytes dst, slices_fit op it values blocks bytes dst →
  Forall (fun v => is_i 32 v ∧ is_u B (as_u32 v)) values →
  (∃ blocks', BulkOperation.encode_int_to_long op values blocks it = Ok blocks' ∧
     BulkOperation.decode_long_to_int op blocks' dst it =
       Ok (take (Z.to_nat (BulkOperation.long_value_count op * it)) values
           ++ drop (Z.to_nat (BulkOperation.long_value_count op * it)) dst)) ∧
  (∃ bytes', BulkOperation.encode_int_to_byte op values bytes it = Ok bytes' ∧
     BulkOperation.decode_byte_to_int op bytes' dst it =
       Ok (take (Z.to_nat (BulkOperation.byte_value_count op * it)) values
           ++ drop (Z.to_nat (BulkOperation.byte_value_count op * it)) dst)).
Proof.
  intros HB. destruct f.
  - assert (HB64 : 1 ≤ B ≤ 64) by lia.
    destruct (bulk_operation_packed B HB64) as (b & -> & Hok). eexists. split; [done|].
    intros it values blocks bytes dst [] Hval.
    apply (int_roundtrips B b Hok HB64); try done; try lia; unfold inputs; by apply Forall_take.
  - eexists. split; [reflexivity|]. intros it values blocks bytes dst [] Hval.
    cbn [BulkOperation.long_value_count BulkOperation.byte_value_count BulkOperation.long_block_count
      BulkOperation.byte_block_count BulkOperation.SB.value_count BulkOperation.SB.new] in *.
    replace (64 / B * it) with (it * (64 / B)) in * by lia.
    unfold BulkOperation.decode_long_to_int, BulkOperation.decode_byte_to_int, decode_long_to_int,
      decode_byte_to_int. cbn [bits_per_value new BulkOperation.SB.new BulkOperation.SB.bits_per_value].
    rewrite (proj2 (Z.ltb_ge 32 B)) by lia.
    apply (single_roundtrips B HB (fun v => as_u32 v) (fun v => as_i32 v) as_u32
      (fun v => is_i 32 v ∧ is_u B (as_u32 v))); try done; try lia.
    + intros v [H1 H2]. pose proof (as_u_range 32 v ltac:(lia)) as [? ?].
      split_and!; [unfold is_i; lia|apply as_u_id; unfold is_u; lia|done].
    + intros v [H1 _]. rewrite as_i_as_u by lia. apply as_i_id; [lia|done].
    + by apply Forall_take.
Qed.

Lemma bulk_int_roundtrip_witness :
  let values := [1; 2; 3; 4; 4095] in
  let dst := replicate 6 0 in
  ∃ op, BulkOperation.bulk_operation_of PackedSingleBlock 12 = Ok op ∧
    ∃ bytes', BulkOperation.encode_int_to_byte op values (replicate 8 0) 1 = Ok bytes' ∧
      BulkOperation.decode_byte_to_int op bytes' dst 1 = Ok (values ++ drop 5 dst).
Proof.
  intros values dst. destruct (bulk_int_roundtrip PackedSingleBlock 12) as (op & Hop & H); [lia|].
  exists op. split; [done|]. vm_compute in Hop. injection Hop as <-.
  apply (H 1 values (replicate 1 0) (replicate 8 0) dst).
  - constructor; [lia|vm_compute; congruence..|].
    apply Forall_replicate. unfold is_i. lia.
  - unfold values. repeat (constructor; [split; [unfold is_i; lia|rewrite as_u_id; unfold is_u; lia]|]).
    constructor.
Defined.

(** C7. In the packed format the longs and the bytes an encoder produces are
    digits of one and the same number, the one the values denote: the byte
    stream is the big-endian form of the longs. *)
Theorem packed_long_and_byte_formats_agree (B it : Z) (values blocks bytes : list Z) :
  1 ≤ B ≤ 64 → 0 ≤ it → vlen values = 64 * it → Forall (fun v => is_i 64 v ∧ is_u B (as_u64 v)) values →
  B * it ≤ vlen blocks → 8 * (B * it) ≤ vlen bytes →
  ∃ op its itb L Y,
    BulkOperationPacked.new B = Ok op ∧
    BulkOperationPacked.encode_long_to_long op values blocks its = Ok (L ++ drop (length L) blocks) ∧
    BulkOperationPacked.encode_long_to_byte op values bytes itb = Ok (Y ++ drop (length Y) bytes) ∧
    vlen L = B * it ∧ vlen Y = 8 * (B * it) ∧
    be_value 64 (map as_u64 L) = be_value B (map as_u64 values) ∧
    be_value 8 Y = be_value B (map as_u64 values).
Proof.
  intros HB Hit Hlen Hval Hb Hby. destruct (new_ok B HB) as (op & Hnew & Hok).
  pose proof Hok as [_ Hlong Hbyte (Hc1 & Hc2 & Hc3 & Hc4) _ _].
  assert (HdL : (BulkOperationPacked.long_value_count op | 64)).
  { by apply (new_divides B op). }
  assert (HdB : (BulkOperationPacked.byte_value_count op | 64)).
  { by apply (new_divides B op). }
  destruct HdL as [qL HqL], HdB as [qB HqB].
  exists op, (qL * it), (qB * it).
  assert (BulkOperationPacked.long_value_count op * (qL * it) = 64 * it) as EL by (rewrite HqL; lia).
  assert (BulkOperationPacked.byte_value_count op * (qB * it) = 64 * it) as EB by (rewrite HqB; lia).
  assert (BulkOperationPacked.long_block_count op * (qL * it) = B * it) as EL'.
  { assert (64 * (BulkOperationPacked.long_block_count op * (qL * it)) = 64 * (B * it)); [|lia].
    rewrite Z.mul_assoc, <- Hlong, <- Z.mul_assoc, EL. lia. }
  assert (BulkOperationPacked.byte_block_count op * (qB * it) = 8 * (B * it)) as EB'.
  { assert (8 * (BulkOperationPacked.byte_block_count op * (qB * it)) = 8 * (8 * (B * it))); [|lia].
    rewrite Z.mul_assoc, <- Hbyte, <- Z.mul_assoc, EB. lia. }
  assert (0 ≤ qL * it ∧ 0 ≤ qB * it) as [HL0 HB0] by nia.
  destruct (encode_long_to_long_spec B op Hok HB values blocks (qL * it)) as (L & HLr & _ & _ & HLl & HLv);
    [done|lia|lia|unfold inputs; by apply Forall_take|].
  destruct (encode_long_to_byte_spec B op Hok HB values bytes (qB * it)) as (Y & HYr & _ & _ & HYl & HYv);
    [done|lia|lia|unfold inputs; by apply Forall_take|].
  exists L, Y. rewrite EL, <- Hlen, to_nat_vlen, firstn_all in HLv.
  rewrite EB, <- Hlen, to_nat_vlen, firstn_all, map_id in HYv.
  split_and!; try done; lia.
Qed.

Lemma packed_long_and_byte_formats_agree_witness :
  let values := replicate 64 19 in
  ∃ op its itb L Y,
    BulkOperationPacked.new 5 = Ok op ∧
    BulkOperationPacked.encode_long_to_long op values (replicate 5 0) its
      = Ok (L ++ drop (length L) (replicate 5 0)) ∧
    BulkOperationPacked.encode_long_to_byte op values (replicate 40 0) itb
      = Ok (Y ++ drop (length Y) (replicate 40 0)) ∧
    vlen L = 5 * 1 ∧ vlen Y = 8 * (5 * 1) ∧
    be_value 64 (map as_u64 L) = be_value 5 (map as_u64 values) ∧
    be_value 8 Y = be_value 5 (map as_u64 values).
Proof.
  intros values. apply (packed_long_and_byte_formats_agree 5 1 values (replicate 5 0) (replicate 40 0));
    [lia|lia|reflexivity| |vm_compute; congruence|vm_compute; congruence].
  apply Forall_replicate. split; [unfold is_i; lia|]. rewrite as_u_id; unfold is_u; lia.
Defined.
