(* ===== verification/PackedMutable.v ===== *)
(** Random-access packed integer arrays: the implementations of [Mutable] of
    src/core/util/packed/packed_misc.rs, the choice between them, the copy between
    two of them and [GrowableWriter].

    Indexes and lengths are [usize]; the subtractions of the source that can
    wrap are written out.  A value is an [i64].  A method that writes into a
    slice takes it and returns it. *)

From S2P Require Import Prelude Float32 DataIO Numeric PackedBulk.
Open Scope Z_scope.

(** [&l[off..]], and the slice put back after a call changed it. *)
Definition vfrom {A} (l : list A) (off : Z) : result (list A) := vslice l off (vlen l).
Definition vback {A} (l : list A) (off : Z) (tl : list A) : list A := take (Z.to_nat off) l ++ tl.

(** * Format *)

Definition VERSION_CURRENT : Z := 2.

Module Formats.
Definition with_id (id : Z) : result Format :=
  if id =? 0 then Ok Packed else if id =? 1 then Ok PackedSingleBlock else Panic.
Definition get_id (f : Format) : Z := match f with Packed => 0 | PackedSingleBlock => 1 end.

(** The [i32] operations wrap. *)
Definition byte_count (f : Format) (value_count bits_per_value : Z) : Z :=
  match f with
  | Packed => Z.quot (as_i32 (as_i32 (value_count * bits_per_value) + 7)) 8
  | PackedSingleBlock =>
    let values_per_block := Z.quot 64 bits_per_value in
    Z.quot (as_i32 (as_i32 (value_count + values_per_block) - 1)) values_per_block * 8
  end.
Definition long_count (f : Format) (value_count bits_per_value : Z) : Z :=
  match f with
  | Packed => as_i32 (Z.quot (byte_count f value_count bits_per_value + 7) 8)
  | PackedSingleBlock =>
    let values_per_block := Z.quot 64 bits_per_value in
    Z.quot (as_i32 (as_i32 (value_count + values_per_block) - 1)) values_per_block
  end.

Definition SUPPORTED_BITS_PER_VALUE : list Z := [1; 2; 3; 4; 5; 6; 7; 8; 9; 10; 12; 16; 21; 32].
Definition single_block_supported (bits_per_value : Z) : bool :=
  existsb (Z.eqb bits_per_value) SUPPORTED_BITS_PER_VALUE.
Definition is_supported (f : Format) (bits_per_value : Z) : bool :=
  match f with
  | Packed => (1 <=? bits_per_value) && (bits_per_value <=? 64)
  | PackedSingleBlock => single_block_supported (as_u64 bits_per_value)
  end.

Definition overhead_per_value (f : Format) (bits_per_value : Z) : f32 :=
  match f with
  | Packed => f32_0
  | PackedSingleBlock =>
    f32_div (f32_of_Z (Z.rem 64 bits_per_value)) (f32_of_Z (Z.quot 64 bits_per_value))
  end.

Definition COMPACT : f32 := f32_0.
Definition FASTEST : f32 := f32_of_Z 7.
Definition PACKED8_THREE_BLOCKS_MAX_SIZE : Z := 715827882.
Definition PACKED16_THREE_BLOCKS_MAX_SIZE : Z := 715827882.

(** The search of [fastest] for a single-block width, from [bpv] on. *)
Fixpoint find_single_block (fuel : nat) (bpv mx bits_per_value : Z) (acceptable : f32) : option Z :=
  match fuel with
  | O => None
  | S f =>
    if mx <? bpv then None
    else if is_supported PackedSingleBlock bpv
            && f32_le (overhead_per_value PackedSingleBlock bpv)
                 (f32_sub (f32_add acceptable (f32_of_Z bits_per_value)) (f32_of_Z bpv))
    then Some bpv
    else find_single_block f (bpv + 1) mx bits_per_value acceptable
  end.

Definition fastest (value_count bits_per_value : Z) (acceptable_overhead_ratio : f32) : Format * Z :=
  let value_count := if value_count =? -1 then 2147483647 else value_count in
  let ratio := f32_min FASTEST (f32_max COMPACT acceptable_overhead_ratio) in
  let acceptable := f32_mul ratio (f32_of_Z bits_per_value) in
  let mx := as_i32 (bits_per_value + f32_as_i32 acceptable) in
  if (bits_per_value <=? 8) && (8 <=? mx) then (Packed, 8)
  else if (bits_per_value <=? 16) && (16 <=? mx) then (Packed, 16)
  else if (bits_per_value <=? 32) && (32 <=? mx) then (Packed, 32)
  else if (bits_per_value <=? 64) && (64 <=? mx) then (Packed, 64)
  else if (value_count <=? PACKED8_THREE_BLOCKS_MAX_SIZE) && (bits_per_value <=? 24) && (24 <=? mx)
  then (Packed, 24)
  else if (value_count <=? PACKED16_THREE_BLOCKS_MAX_SIZE) && (bits_per_value <=? 48) && (48 <=? mx)
  then (Packed, 48)
  else match find_single_block (Z.to_nat (mx - bits_per_value + 1)) bits_per_value mx bits_per_value acceptable with
       | Some bpv => (PackedSingleBlock, bpv)
       | None => (Packed, bits_per_value)
       end.
End Formats.

(** * The traits [Reader] and [Mutable] *)

Class Mutable (M : Type) : Type := {
  size : M → Z;
  get_bits_per_value : M → Z;
  get_format : M → Format;
  get : M → Z → result Z;
  bulk_get : M → Z → list Z → Z → result (Z * list Z);
  set : M → Z → Z → result M;
  bulk_set : M → Z → list Z → Z → Z → result (Z * M);
  fill : M → Z → Z → Z → result M;
  clear : M → result M;
}.
#[global] Hint Mode Mutable ! : typeclass_instances.

(** ** The loops over single values *)

Section single_values.
Context {M : Type} (size : M → Z) (get : M → Z → result Z) (set : M → Z → Z → result M).

Definition reader_bulk_get (m : M) (index : Z) (output : list Z) (len : Z) : result (Z * list Z) :=
  let gets := Z.min (as_u64 (size m - index)) len in
  output ← for_range index (index + gets) (fun i output =>
    v ← get m i; vset output (i - index) v) output;
  Ok (gets, output).

(** The [bulk_get] of the direct arrays: the iteration also ends with [output]. *)
Definition direct_bulk_get (m : M) (index : Z) (output : list Z) (len : Z) : result (Z * list Z) :=
  let gets := Z.min len (as_u64 (size m - index)) in
  output ← for_range 0 (Z.min gets (vlen output)) (fun i output =>
    v ← get m (index + i); vset output i v) output;
  Ok (gets, output).

Definition mutable_bulk_set (m : M) (index : Z) (arr : list Z) (off len : Z) : result (Z * M) :=
  let len := Z.min len (as_u64 (size m - index)) in
  '(_, m) ← for_range index (index + len) (fun i '(o, m) =>
    v ← vget arr o; m ← set m i v; Ok (o + 1, m)) (off, m);
  Ok (len, m).

Definition mutable_fill (m : M) (from to val : Z) : result M :=
  for_range from to (fun i m => set m i val) m.
End single_values.

(** * PackedIntsNullMutable *)

Module PackedIntsNullMutable.
Record t : Type := mk { value_count : Z }.
Definition new := mk.
Definition bulk_get_impl (m : t) (index : Z) (output : list Z) (len : Z) : result (Z * list Z) :=
  _ ← check (index <? value_count m);
  let len := Z.min len (value_count m - index) in
  output ← vblit output 0 (replicate (Z.to_nat len) 0);
  Ok (len, output).
#[global] Instance mutable : Mutable t := {|
  size := value_count; get_bits_per_value _ := 0; get_format _ := Packed;
  get _ _ := Ok 0; bulk_get := bulk_get_impl;
  set _ _ _ := Panic; bulk_set _ _ _ _ _ := Panic;
  fill m from to val := mutable_fill (fun _ _ _ => Panic) m from to val;
  clear m := mutable_fill (fun _ _ _ => Panic) m 0 (value_count m) 0;
|}.
End PackedIntsNullMutable.

(** * Direct8, Direct16, Direct32, Direct64

    The four are the same code at four widths: an array of machine integers,
    the cast [store] of a value and the widening [load] of an element. *)

Record direct : Type := mk_direct { value_count : Z; bits_per_value : Z; values : list Z }.

Definition direct_new (bits value_count : Z) : direct :=
  mk_direct value_count bits (replicate (Z.to_nat value_count) 0).
Definition direct_get (load : Z → Z) (m : direct) (doc_id : Z) : result Z :=
  v ← vget (values m) doc_id; Ok (load v).
Definition direct_set (store : Z → Z) (m : direct) (index value : Z) : result direct :=
  vs ← vset (values m) index (store value); Ok (mk_direct (value_count m) (bits_per_value m) vs).

Definition direct_ops (load store : Z → Z) : Mutable direct := {|
  size := value_count; get_bits_per_value := bits_per_value; get_format _ := Packed;
  get := direct_get load;
  bulk_get := direct_bulk_get value_count (direct_get load);
  set := direct_set store;
  bulk_set := mutable_bulk_set value_count (direct_set store);
  fill := mutable_fill (direct_set store);
  clear m := mutable_fill (direct_set store) m 0 (vlen (values m)) 0;
|}.

Module Direct8.
Definition new (value_count : Z) : direct := direct_new 8 value_count.
Definition ops : Mutable direct := direct_ops (fun v => v) as_u8.
End Direct8.
Module Direct16.
Definition new (value_count : Z) : direct := direct_new 16 value_count.
Definition ops : Mutable direct := direct_ops as_u16 as_i16.
End Direct16.
Module Direct32.
Definition new (value_count : Z) : direct := direct_new 32 value_count.
Definition ops : Mutable direct := direct_ops as_u32 as_i32.
End Direct32.
Module Direct64.
Definition new (value_count : Z) : direct := direct_new 64 value_count.
Definition ops : Mutable direct := direct_ops (fun v => v) (fun v => v).
End Direct64.

(** * Packed8ThreeBlocks and Packed16ThreeBlocks *)

Record three_blocks : Type := mk_three { tb_value_count : Z; tb_bits_per_value : Z; tb_blocks : list Z }.

(** [w] is the width of a block; a value is three of them, the high one first. *)
Definition three_new (w value_count : Z) : result three_blocks :=
  _ ← check (value_count <=? Formats.PACKED8_THREE_BLOCKS_MAX_SIZE);
  Ok (mk_three value_count (3 * w) (replicate (Z.to_nat (3 * value_count)) 0)).
Definition three_get (w : Z) (load : Z → Z) (m : three_blocks) (doc_id : Z) : result Z :=
  let o := doc_id * 3 in
  b0 ← vget (tb_blocks m) o; b1 ← vget (tb_blocks m) (o + 1); b2 ← vget (tb_blocks m) (o + 2);
  Ok (Z.lor (Z.lor (shl_i 64 (load b0) (2 * w)) (shl_i 64 (load b1) w)) (load b2)).
Definition three_set (w : Z) (store : Z → Z) (m : three_blocks) (index value : Z) : result three_blocks :=
  let o := index * 3 in
  bs ← vset (tb_blocks m) o (store (shr_i value (2 * w)));
  bs ← vset bs (o + 1) (store (shr_i value w));
  bs ← vset bs (o + 2) (store value);
  Ok (mk_three (tb_value_count m) (tb_bits_per_value m) bs).

Definition three_ops (w : Z) (load store : Z → Z) : Mutable three_blocks := {|
  size := tb_value_count; get_bits_per_value := tb_bits_per_value; get_format _ := Packed;
  get := three_get w load;
  bulk_get := direct_bulk_get tb_value_count (three_get w load);
  set := three_set w store;
  bulk_set := mutable_bulk_set tb_value_count (three_set w store);
  fill := mutable_fill (three_set w store);
  clear m := mutable_fill (three_set w store) m 0 (tb_value_count m) 0;
|}.

Module Packed8ThreeBlocks.
Definition new : Z → result three_blocks := three_new 8.
Definition ops : Mutable three_blocks := three_ops 8 (fun v => v) as_u8.
End Packed8ThreeBlocks.
Module Packed16ThreeBlocks.
Definition new : Z → result three_blocks := three_new 16.
Definition ops : Mutable three_blocks := three_ops 16 as_u16 as_i16.
End Packed16ThreeBlocks.

(** * Packed64 *)

Module Packed64.
Record t : Type := mk {
  value_count : Z;
  bits_per_value : Z;
  blocks : list Z;
  mask_right : Z;
  bpv_minus_block_size : Z;
}.

Definition the_mask_right (bits_per_value : Z) : Z :=
  as_i64 (Z.shiftr (as_u64 (Z.shiftl (2 ^ 64 - 1) (64 - bits_per_value))) (64 - bits_per_value)).

Definition new (value_count bits_per_value : Z) : t :=
  let long_count := as_u64 (Formats.long_count Packed (as_i32 value_count) (as_i32 bits_per_value)) in
  mk value_count bits_per_value (replicate (Z.to_nat long_count) 0)
    (the_mask_right bits_per_value) (bits_per_value - 64).

Definition with_blocks (m : t) (bs : list Z) : t :=
  mk (value_count m) (bits_per_value m) bs (mask_right m) (bpv_minus_block_size m).

(** The position of a value: its first block and the number of its bits in the
    next one. *)
Definition locate (m : t) (index : Z) : Z * Z :=
  let major_bit_pos := as_u64 (index * bits_per_value m) in
  (Z.shiftr major_bit_pos 6, Z.land (as_i64 major_bit_pos) 63 + bpv_minus_block_size m).

Definition get_impl (m : t) (doc_id : Z) : result Z :=
  let '(element_pos, end_bits) := locate m doc_id in
  if end_bits <=? 0 then
    b ← vget (blocks m) element_pos;
    Ok (Z.land (unsigned_shift 64 b (- end_bits)) (mask_right m))
  else
    b0 ← vget (blocks m) element_pos;
    b1 ← vget (blocks m) (element_pos + 1);
    Ok (Z.land (Z.lor (shl_i 64 b0 end_bits) (unsigned_shift 64 b1 (64 - end_bits))) (mask_right m)).

Definition set_impl (m : t) (index value : Z) : result t :=
  let '(element_pos, end_bits) := locate m index in
  if end_bits <=? 0 then
    b ← vget (blocks m) element_pos;
    bs ← vset (blocks m) element_pos
      (Z.lor (Z.land b (as_i64 (Z.lxor (as_u64 (shl_i 64 (mask_right m) (- end_bits))) (2 ^ 64 - 1))))
             (shl_i 64 value (- end_bits)));
    Ok (with_blocks m bs)
  else
    b0 ← vget (blocks m) element_pos;
    bs ← vset (blocks m) element_pos
      (Z.lor (Z.land b0 (as_i64 (Z.lxor (Z.shiftr (as_u64 (mask_right m)) end_bits) (2 ^ 64 - 1))))
             (unsigned_shift 64 value end_bits));
    b1 ← vget bs (element_pos + 1);
    bs ← vset bs (element_pos + 1)
      (Z.lor (Z.land b1 (as_i64 (Z.shiftr (2 ^ 64 - 1) end_bits))) (shl_i 64 value (64 - end_bits)));
    Ok (with_blocks m bs).

(** The values up to the next boundary of the bulk operation, one by one: the
    state is [(i, len, index, off, output)]. *)
Definition get_head (m : t) (long_value_count i len index off : Z) (output : list Z)
  : result (Z * Z * Z * Z * list Z) :=
  while_fuel (Z.to_nat len) (fun '(i, len, _, _, _) => (i <? long_value_count) && (0 <? len))
    (fun '(i, len, index, off, output) =>
      v ← get_impl m index; output ← vset output off v;
      Ok (i + 1, len - 1, index + 1, off + 1, output)) (i, len, index, off, output).

Definition bulk_get_impl (m : t) (index : Z) (output : list Z) (len : Z) : result (Z * list Z) :=
  let len := Z.min len (as_u64 (value_count m - index)) in
  let original_index := index in
  decoder ← BulkOperation.bulk_operation_of Packed (bits_per_value m);
  let long_value_count := BulkOperation.long_value_count decoder in
  let offset_in_blocks := index mod long_value_count in
  '(_, len, index, off, output) ←
    (if offset_in_blocks =? 0 then Ok (0, len, index, 0, output)
     else get_head m long_value_count offset_in_blocks len index 0 output);
  if negb (offset_in_blocks =? 0) && (len =? 0) then Ok (index - original_index, output)
  else
    let block_index := Z.shiftr (index * bits_per_value m) 6 in
    let iterations := len / long_value_count in
    bs ← vfrom (blocks m) block_index;
    os ← vfrom output off;
    os ← BulkOperation.decode_long_to_long decoder bs os iterations;
    let output := vback output off os in
    let got_values := iterations * long_value_count in
    let index := index + got_values in
    let len := len - got_values in
    if original_index <? index then Ok (index - original_index, output)
    else
      os ← vfrom output off;
      '(n, os) ← reader_bulk_get value_count get_impl m index os len;
      Ok (n, vback output off os).

(** Likewise; the state is [(i, len, index, off, m)]. *)
Definition set_head (m : t) (arr : list Z) (long_value_count i len index off : Z)
  : result (Z * Z * Z * Z * t) :=
  while_fuel (Z.to_nat len) (fun '(i, len, _, _, _) => (i <? long_value_count) && (0 <? len))
    (fun '(i, len, index, off, m) =>
      v ← vget arr off; m ← set_impl m index v;
      Ok (i + 1, len - 1, index + 1, off + 1, m)) (i, len, index, off, m).

Definition bulk_set_impl (m : t) (index : Z) (arr : list Z) (off len : Z) : result (Z * t) :=
  let len := Z.min len (as_u64 (value_count m - index)) in
  let original_index := index in
  encoder ← BulkOperation.bulk_operation_of Packed (bits_per_value m);
  let long_value_count := BulkOperation.long_value_count encoder in
  let offset_in_blocks := index mod long_value_count in
  '(_, len, index, off, m) ←
    (if offset_in_blocks =? 0 then Ok (0, len, index, off, m)
     else set_head m arr long_value_count offset_in_blocks len index off);
  if negb (offset_in_blocks =? 0) && (len =? 0) then Ok (index - original_index, m)
  else
    let block_index := Z.shiftr (index * bits_per_value m) 6 in
    let iterations := len / long_value_count in
    vs ← vfrom arr off;
    bs ← vfrom (blocks m) block_index;
    bs ← BulkOperation.encode_long_to_long encoder vs bs iterations;
    let m := with_blocks m (vback (blocks m) block_index bs) in
    let set_values := iterations * long_value_count in
    let index := index + set_values in
    let len := len - set_values in
    if original_index <? index then Ok (index - original_index, m)
    else mutable_bulk_set value_count set_impl m index arr off len.

(** [Packed64::gcd], called on positive numbers. *)
Fixpoint gcd (fuel : nat) (a b : Z) : result Z :=
  match fuel with
  | O => Diverge
  | S f => if a <? b then gcd f b a else if b =? 0 then Ok a else gcd f b (Z.rem a b)
  end.

Definition fill_impl (m : t) (from to val : Z) : result t :=
  g ← gcd 100 64 (as_i32 (bits_per_value m));
  let n_aligned_values := 64 / g in
  let span := as_u64 (to - from) in
  if span <=? 3 * n_aligned_values then mutable_fill set_impl m from to val
  else
    let from_mod := from mod n_aligned_values in
    '(from_index, m) ←
      (if from_mod =? 0 then Ok (from, m)
       else for_range from_mod n_aligned_values (fun _ '(from_index, m) =>
              m ← set_impl m from_index val; Ok (from_index + 1, m)) (from, m));
    let aligned_blocks := Z.shiftr (n_aligned_values * bits_per_value m) 6 in
    vs ← for_range 0 n_aligned_values (fun i vs => set_impl vs i val)
           (new n_aligned_values (bits_per_value m));
    let start_block := Z.shiftr (from_index * bits_per_value m) 6 in
    let end_block := Z.shiftr (to * bits_per_value m) 6 in
    bs ← for_range start_block end_block (fun block bs =>
           b ← vget (blocks vs) (block mod aligned_blocks); vset bs block b) (blocks m);
    let m := with_blocks m bs in
    for_range (Z.shiftl end_block 6 / bits_per_value m) to (fun i m => set_impl m i val) m.

Definition clear_impl (m : t) : result t :=
  bs ← for_range 0 (vlen (blocks m)) (fun i bs => vset bs i 0) (blocks m);
  Ok (with_blocks m bs).

#[global] Instance mutable : Mutable t := {|
  size := value_count; get_bits_per_value m := as_i32 (bits_per_value m); get_format _ := Packed;
  get := get_impl; bulk_get := bulk_get_impl; set := set_impl; bulk_set := bulk_set_impl;
  fill := fill_impl; clear := clear_impl;
|}.
End Packed64.

(** * Packed64SingleBlock *)

Module Packed64SingleBlock.
Record t : Type := mk {
  value_count : Z;
  bits_per_value : Z;
  value_per_block : Z;
  blocks : list Z;
}.

Definition required_capacity (value_count value_per_block : Z) : Z :=
  let extra := if value_count mod value_per_block =? 0 then 0 else 1 in
  value_count / value_per_block + extra.
Definition new (value_count bits_per_value : Z) : t :=
  let value_per_block := 64 / bits_per_value in
  mk value_count bits_per_value value_per_block
    (replicate (Z.to_nat (required_capacity value_count value_per_block)) 0).
Definition with_blocks (m : t) (bs : list Z) : t :=
  mk (value_count m) (bits_per_value m) (value_per_block m) bs.

Definition the_mask (m : t) : Z := as_i64 (shl_i 64 1 (bits_per_value m) - 1).

Definition get_impl (m : t) (doc_id : Z) : result Z :=
  let o := doc_id / value_per_block m in
  let b := doc_id mod value_per_block m in
  let shift := b * bits_per_value m in
  block ← vget (blocks m) o;
  Ok (Z.land (unsigned_shift 64 block shift) (the_mask m)).

Definition set_impl (m : t) (index value : Z) : result t :=
  let o := index / value_per_block m in
  let b := index mod value_per_block m in
  let shift := Z.land (b * bits_per_value m) 63 in
  block ← vget (blocks m) o;
  bs ← vset (blocks m) o
    (Z.lor (Z.land block (Z.lnot (shl_i 64 (the_mask m) shift))) (shl_i 64 value shift));
  Ok (with_blocks m bs).

Definition get_head (m : t) (offset_in_block len value_index off : Z) (output : list Z)
  : result (Z * Z * Z * list Z) :=
  while_fuel (Z.to_nat len) (fun '(len, _, off, _) => (off + offset_in_block <? value_per_block m) && (0 <? len))
    (fun '(len, value_index, off, output) =>
      v ← get_impl m value_index; output ← vset output off v;
      Ok (len - 1, value_index + 1, off + 1, output)) (len, value_index, off, output).

Definition bulk_get_impl (m : t) (index : Z) (output : list Z) (len : Z) : result (Z * list Z) :=
  let len := Z.min len (as_u64 (value_count m - index)) in
  let offset_in_block := index mod value_per_block m in
  '(len, value_index, off, output) ←
    (if offset_in_block =? 0 then Ok (len, index, 0, output)
     else get_head m offset_in_block len index 0 output);
  if negb (offset_in_block =? 0) && (len =? 0) then Ok (value_index - index, output)
  else
    decoder ← BulkOperation.bulk_operation_of PackedSingleBlock (bits_per_value m);
    let block_index := value_index / value_per_block m in
    let nblocks := (value_index + len) / value_per_block m - block_index in
    bs ← vfrom (blocks m) block_index;
    os ← vfrom output off;
    os ← BulkOperation.decode_long_to_long decoder bs os nblocks;
    let output := vback output off os in
    let diff := nblocks * value_per_block m in
    let value_index := value_index + diff in
    let len := as_u64 (len - diff) in
    if index <? value_index then Ok (value_index - index, output)
    else
      os ← vfrom output off;
      '(n, os) ← reader_bulk_get value_count get_impl m value_index os len;
      Ok (n, vback output off os).

Definition set_head (m : t) (arr : list Z) (offset_in_block len value_index off : Z)
  : result (Z * Z * Z * t) :=
  while_fuel (Z.to_nat len) (fun '(len, _, off, m) => (off + offset_in_block <? value_per_block m) && (0 <? len))
    (fun '(len, value_index, off, m) =>
      v ← vget arr off; m ← set_impl m value_index v;
      Ok (len - 1, value_index + 1, off + 1, m)) (len, value_index, off, m).

Definition bulk_set_impl (m : t) (index : Z) (arr : list Z) (off len : Z) : result (Z * t) :=
  let len := Z.min len (as_u64 (value_count m - index)) in
  let offset_in_block := index mod value_per_block m in
  '(len, value_index, off, m) ←
    (if offset_in_block =? 0 then Ok (len, index, off, m)
     else set_head m arr offset_in_block len index off);
  if negb (offset_in_block =? 0) && (len =? 0) then Ok (value_index - index, m)
  else
    op ← BulkOperation.bulk_operation_of PackedSingleBlock (bits_per_value m);
    let block_index := value_index / value_per_block m in
    let nblocks := (value_index + len) / value_per_block m - block_index in
    vs ← vfrom arr off;
    bs ← vfrom (blocks m) block_index;
    bs ← BulkOperation.encode_long_to_long op vs bs nblocks;
    let m := with_blocks m (vback (blocks m) block_index bs) in
    let diff := nblocks * value_per_block m in
    let value_index := value_index + diff in
    let len := as_u64 (len - diff) in
    if index <? value_index then Ok (value_index - index, m)
    else mutable_bulk_set value_count set_impl m value_index arr off len.

Definition fill_impl (m : t) (from to val : Z) : result t :=
  if as_u64 (to - from) <? Z.shiftl (value_per_block m) 1 then mutable_fill set_impl m from to val
  else
    let from_offset_in_block := from mod value_per_block m in
    '(from_index, m) ←
      (if from_offset_in_block =? 0 then Ok (from, m)
       else for_range from_offset_in_block (value_per_block m) (fun _ '(from_index, m) =>
              m ← set_impl m from_index val; Ok (from_index + 1, m)) (from, m));
    let from_block := from_index / value_per_block m in
    let to_block := to / value_per_block m in
    block_value ← for_range 0 (value_per_block m) (fun i b =>
                    Ok (Z.lor b (shl_i 64 val (i * bits_per_value m)))) 0;
    bs ← for_range from_block to_block (fun i bs => vset bs i block_value) (blocks m);
    let m := with_blocks m bs in
    for_range (value_per_block m * to_block) to (fun i m => set_impl m i val) m.

Definition clear_impl (m : t) : result t :=
  bs ← for_range 0 (vlen (blocks m)) (fun i bs => vset bs i 0) (blocks m);
  Ok (with_blocks m bs).

#[global] Instance mutable : Mutable t := {|
  size := value_count; get_bits_per_value m := as_i32 (bits_per_value m); get_format _ := PackedSingleBlock;
  get := get_impl; bulk_get := bulk_get_impl; set := set_impl; bulk_set := bulk_set_impl;
  fill := fill_impl; clear := clear_impl;
|}.
End Packed64SingleBlock.

(** * MutableEnum *)

Module MutableEnum.
Inductive t : Type :=
  | MDirect8 (m : direct)
  | MDirect16 (m : direct)
  | MDirect32 (m : direct)
  | MDirect64 (m : direct)
  | MPacked8TB (m : three_blocks)
  | MPacked16TB (m : three_blocks)
  | MPacked64 (m : Packed64.t)
  | MPacked64SB (m : Packed64SingleBlock.t)
  | MPackedIntsNull (m : PackedIntsNullMutable.t).

(** Every method of the enum calls the method of the array it holds: [read]
    for the methods that only look at it, [write] for those that change it. *)
Definition read {A} (f : ∀ M, Mutable M → M → A) (m : t) : A :=
  match m with
  | MDirect8 m => f _ Direct8.ops m
  | MDirect16 m => f _ Direct16.ops m
  | MDirect32 m => f _ Direct32.ops m
  | MDirect64 m => f _ Direct64.ops m
  | MPacked8TB m => f _ Packed8ThreeBlocks.ops m
  | MPacked16TB m => f _ Packed16ThreeBlocks.ops m
  | MPacked64 m => f _ Packed64.mutable m
  | MPacked64SB m => f _ Packed64SingleBlock.mutable m
  | MPackedIntsNull m => f _ PackedIntsNullMutable.mutable m
  end.

Definition write {A} (f : ∀ M, Mutable M → M → result (A * M)) (m : t) : result (A * t) :=
  match m with
  | MDirect8 m => '(a, m) ← f _ Direct8.ops m; Ok (a, MDirect8 m)
  | MDirect16 m => '(a, m) ← f _ Direct16.ops m; Ok (a, MDirect16 m)
  | MDirect32 m => '(a, m) ← f _ Direct32.ops m; Ok (a, MDirect32 m)
  | MDirect64 m => '(a, m) ← f _ Direct64.ops m; Ok (a, MDirect64 m)
  | MPacked8TB m => '(a, m) ← f _ Packed8ThreeBlocks.ops m; Ok (a, MPacked8TB m)
  | MPacked16TB m => '(a, m) ← f _ Packed16ThreeBlocks.ops m; Ok (a, MPacked16TB m)
  | MPacked64 m => '(a, m) ← f _ Packed64.mutable m; Ok (a, MPacked64 m)
  | MPacked64SB m => '(a, m) ← f _ Packed64SingleBlock.mutable m; Ok (a, MPacked64SB m)
  | MPackedIntsNull m => '(a, m) ← f _ PackedIntsNullMutable.mutable m; Ok (a, MPackedIntsNull m)
  end.

Definition unit_write (f : ∀ M, Mutable M → M → result M) (m : t) : result t :=
  '(_, m) ← write (fun M H m => m ← f M H m; Ok (tt, m)) m; Ok m.

#[global] Instance mutable : Mutable t := {|
  size := read (fun _ _ m => size m);
  get_bits_per_value := read (fun _ _ m => get_bits_per_value m);
  get_format := read (fun _ _ m => get_format m);
  get m i := read (fun _ _ m => get m i) m;
  bulk_get m i output len := read (fun _ _ m => bulk_get m i output len) m;
  set m i v := unit_write (fun _ _ m => set m i v) m;
  bulk_set m i arr off len := write (fun _ _ m => bulk_set m i arr off len) m;
  fill m from to v := unit_write (fun _ _ m => fill m from to v) m;
  clear := unit_write (fun _ _ m => clear m);
|}.
End MutableEnum.

Definition get_mutable_by_format (value_count bits_per_value : Z) (format : Format) : result MutableEnum.t :=
  match format with
  | PackedSingleBlock =>
    Ok (MutableEnum.MPacked64SB (Packed64SingleBlock.new value_count (as_u64 bits_per_value)))
  | Packed =>
    if bits_per_value =? 8 then Ok (MutableEnum.MDirect8 (Direct8.new value_count))
    else if bits_per_value =? 16 then Ok (MutableEnum.MDirect16 (Direct16.new value_count))
    else if bits_per_value =? 32 then Ok (MutableEnum.MDirect32 (Direct32.new value_count))
    else if bits_per_value =? 64 then Ok (MutableEnum.MDirect64 (Direct64.new value_count))
    else if (bits_per_value =? 24) && (value_count <=? Formats.PACKED8_THREE_BLOCKS_MAX_SIZE) then
      m ← Packed8ThreeBlocks.new value_count; Ok (MutableEnum.MPacked8TB m)
    else if (bits_per_value =? 48) && (value_count <=? Formats.PACKED16_THREE_BLOCKS_MAX_SIZE) then
      m ← Packed16ThreeBlocks.new value_count; Ok (MutableEnum.MPacked16TB m)
    else Ok (MutableEnum.MPacked64 (Packed64.new value_count (as_u64 bits_per_value)))
  end.

Definition get_mutable_by_ratio (value_count bits_per_value : Z) (ratio : f32) : result MutableEnum.t :=
  let '(format, bits) := Formats.fastest (as_i32 value_count) bits_per_value ratio in
  get_mutable_by_format value_count bits format.

(** * Copying *)

Definition DEFAULT_BUFFER_SIZE : Z := 1024.

Section copy.
Context {S D : Type} `{Mutable S} `{Mutable D}.

(** [buf[i] = buf[i + written]] for [i] below [n]. *)
Definition shift_down (buf : list Z) (written n : Z) : result (list Z) :=
  for_range 0 n (fun i buf => v ← vget buf (i + written); vset buf i v) buf.

(** The second loop of [copy_by_buf]: what is left in the buffer. *)
Fixpoint drain_buf (fuel : nat) (dest : D) (dest_pos remain : Z) (buf : list Z) : result D :=
  if 0 <? remain then
    match fuel with
    | O => Diverge
    | Datatypes.S f =>
      '(written, dest) ← bulk_set dest dest_pos buf 0 remain;
      let remain := as_u64 (remain - written) in
      buf ← shift_down buf written remain;
      drain_buf f dest (dest_pos + written) remain buf
    end
  else Ok dest.

Fixpoint copy_loop (fuel : nat) (src : S) (dest : D) (src_pos dest_pos cur_len remain : Z) (buf : list Z)
  : result D :=
  match fuel with
  | O => Diverge
  | Datatypes.S f =>
    if 0 <? cur_len then
      let get_len := Z.min cur_len (as_u64 (vlen buf - remain)) in
      os ← vfrom buf remain;
      '(got, os) ← bulk_get src src_pos os get_len;
      let buf := vback buf remain os in
      let src_pos := src_pos + got in
      let cur_len := as_u64 (cur_len - got) in
      let remain := remain + got in
      '(written, dest) ← bulk_set dest dest_pos buf 0 remain;
      let dest_pos := dest_pos + written in
      buf ← (if written <? remain then shift_down buf written (remain - written) else Ok buf);
      copy_loop f src dest src_pos dest_pos cur_len (as_u64 (remain - written)) buf
    else drain_buf f dest dest_pos remain buf
  end.

(** Every round of either loop writes at least one value. *)
Definition copy_by_buf (src : S) (src_pos : Z) (dest : D) (dest_pos len : Z) (buf : list Z) : result D :=
  copy_loop (Datatypes.S (Datatypes.S (Z.to_nat len))) src dest src_pos dest_pos len 0 buf.

Definition packed_ints_copy (src : S) (src_pos : Z) (dest : D) (dest_pos len mem : Z) : result D :=
  let capacity := Z.shiftr mem 3 in
  if capacity =? 0 then
    '(_, _, dest) ← for_range 0 len (fun _ '(d, s, dest) =>
      v ← get src s; dest ← set dest d v; Ok (d + 1, s + 1, dest)) (dest_pos, src_pos, dest);
    Ok dest
  else if 0 <? len then
    copy_by_buf src src_pos dest dest_pos len (replicate (Z.to_nat (Z.min len capacity)) 0)
  else Ok dest.
End copy.

(** * GrowableWriter *)

Definition max_value (bits_per_value : Z) : Z :=
  if bits_per_value =? 64 then 2 ^ 63 - 1 else Z.lnot (shl_i 64 (-1) bits_per_value).

Module GrowableWriter.
Record t : Type := mk {
  current_mark : Z;
  current : MutableEnum.t;
  acceptable_overhead_ratio : f32;
}.

Definition mask (bits_per_value : Z) : Z :=
  if bits_per_value =? 64 then -1 else max_value bits_per_value.

Definition new (start_bits_per_value value_count : Z) (ratio : f32) : result t :=
  current ← get_mutable_by_ratio value_count start_bits_per_value ratio;
  Ok (mk (mask (get_bits_per_value current)) current ratio).

Definition ensure_capacity (w : t) (value : Z) : result t :=
  if Z.land value (current_mark w) =? value then Ok w
  else
    let bits_required := as_i32 (bits_required 64 value) in
    let value_count := size (current w) in
    next ← get_mutable_by_ratio value_count bits_required (acceptable_overhead_ratio w);
    next ← packed_ints_copy (current w) 0 next 0 value_count DEFAULT_BUFFER_SIZE;
    Ok (mk (mask (get_bits_per_value next)) next (acceptable_overhead_ratio w)).

Definition on_current (f : MutableEnum.t → result MutableEnum.t) (w : t) : result t :=
  m ← f (current w); Ok (mk (current_mark w) m (acceptable_overhead_ratio w)).

Definition set_impl (w : t) (index value : Z) : result t :=
  w ← ensure_capacity w value; on_current (fun m => set m index value) w.
Definition bulk_set_impl (w : t) (index : Z) (arr : list Z) (off len : Z) : result (Z * t) :=
  let mx := foldl Z.lor 0 (take (Z.to_nat len) (drop (Z.to_nat off) arr)) in
  w ← ensure_capacity w mx;
  '(n, m) ← bulk_set (current w) index arr off len;
  Ok (n, mk (current_mark w) m (acceptable_overhead_ratio w)).
Definition fill_impl (w : t) (from to val : Z) : result t :=
  w ← ensure_capacity w val; on_current (fun m => fill m from to val) w.
Definition clear_impl (w : t) : result t := on_current clear w.

#[global] Instance mutable : Mutable t := {|
  size w := size (current w); get_bits_per_value w := get_bits_per_value (current w);
  get_format _ := Packed;
  get w i := get (current w) i; bulk_get w i output len := bulk_get (current w) i output len;
  set := set_impl; bulk_set := bulk_set_impl; fill := fill_impl; clear := clear_impl;
|}.

Definition resize (w : t) (new_size : Z) : result t :=
  next ← new (get_bits_per_value w) new_size (acceptable_overhead_ratio w);
  let limit := Z.min new_size (size w) in
  packed_ints_copy (current w) 0 next 0 limit DEFAULT_BUFFER_SIZE.
End GrowableWriter.

(** A run through several representations. *)
Example growable_run :
  (w ← GrowableWriter.new 3 70 (f32_of_Z 0);
   w ← set w 5 7; w ← set w 6 200; w ← fill w 10 69 1000000; w ← set w 69 (-3);
   w ← GrowableWriter.resize w 100;
   a ← get w 5; b ← get w 6; c ← get w 68; d ← get w 69; e ← get w 99;
   Ok (a, b, c, d, e)) = Ok (7, 200, 1000000, -3, 0).
Proof. vm_compute. reflexivity. Qed.
