(* ===== verification/PackedArrayFacts.v ===== *)
(** What a packed array promises, whatever its layout: it behaves as an array of
    integers of a fixed width.  The promise is derived here for every array whose
    bulk methods are loops over single values, and proved for the direct and the
    three-block arrays. *)

From S2P Require Import Prelude Float32 DataIO Numeric PackedBulk PackedBulkFacts PackedMutable.
Open Scope Z_scope.

(** * Elements of a vector *)

Definition nthz (l : list Z) (k : Z) : Z := default 0 (l !! Z.to_nat k).

Lemma vget_nthz (l : list Z) k : 0 ≤ k < vlen l → vget l k = Ok (nthz l k).
Proof. intros Hk. destruct (vget_in l k Hk) as (x & -> & Hx). unfold nthz. by rewrite Hx. Qed.

Lemma vset_nthz (l : list Z) k x : 0 ≤ k < vlen l →
  ∃ l', vset l k x = Ok l' ∧ vlen l' = vlen l ∧ ∀ j, 0 ≤ j → nthz l' j = if j =? k then x else nthz l j.
Proof.
  intros Hk. exists (<[Z.to_nat k := x]> l). rewrite vset_in by done. split; [done|]. split; [apply vlen_insert|].
  intros j Hj. unfold nthz. destruct (Z.eqb_spec j k) as [->|Hne].
  - rewrite list_lookup_insert_eq; [done|]. unfold vlen in Hk. lia.
  - rewrite list_lookup_insert_ne; [done|lia].
Qed.

Lemma vset_Forall (P : Z → Prop) (l l' : list Z) k x : vset l k x = Ok l' → Forall P l → P x → Forall P l'.
Proof.
  intros [_ ->]%vset_Ok Hl Hx. by apply Forall_insert.
Qed.

Lemma nthz_Forall (P : Z → Prop) (l : list Z) k : Forall P l → 0 ≤ k < vlen l → P (nthz l k).
Proof.
  intros Hl Hk. destruct (vget_in l k Hk) as (x & _ & Hx). unfold nthz. rewrite Hx.
  by eapply Forall_lookup_1 in Hx.
Qed.

Lemma nthz_app (l k : list Z) j : 0 ≤ j → nthz (l ++ k) j = if j <? vlen l then nthz l j else nthz k (j - vlen l).
Proof.
  intros Hj. unfold nthz, vlen. destruct (Z.ltb_spec j (Z.of_nat (length l))).
  - by rewrite lookup_app_l by lia.
  - rewrite lookup_app_r by lia. do 2 f_equal. lia.
Qed.

Lemma nthz_drop (l : list Z) n j : 0 ≤ n → 0 ≤ j → nthz (drop (Z.to_nat n) l) j = nthz l (n + j).
Proof. intros. unfold nthz. rewrite lookup_drop. do 2 f_equal. lia. Qed.

Lemma nthz_take (l : list Z) n j : 0 ≤ j < n → nthz (take (Z.to_nat n) l) j = nthz l j.
Proof. intros. unfold nthz. by rewrite lookup_take_lt by lia. Qed.

Lemma nthz_ext (l k : list Z) : vlen l = vlen k → (∀ j, 0 ≤ j < vlen l → nthz l j = nthz k j) → l = k.
Proof.
  intros Hlen Heq. apply list_eq. intros i. destruct (decide (i < length l)%nat) as [Hi|Hi].
  - specialize (Heq (Z.of_nat i) ltac:(unfold vlen; lia)). unfold nthz in Heq. rewrite Nat2Z.id in Heq.
    destruct (lookup_lt_is_Some_2 l i Hi) as [x Hx]. destruct (lookup_lt_is_Some_2 k i) as [y Hy]; [unfold vlen in Hlen; lia|].
    rewrite Hx, Hy in Heq |- *. cbn in Heq. congruence.
  - rewrite !lookup_ge_None_2; [done|unfold vlen in Hlen; lia|lia].
Qed.

Lemma nthz_replicate n x j : 0 ≤ j < n → nthz (replicate (Z.to_nat n) x) j = x.
Proof. intros. unfold nthz. by rewrite lookup_replicate_2 by lia. Qed.

Lemma nthz_map (f : Z → Z) (l : list Z) j : 0 ≤ j < vlen l → nthz (map f l) j = f (nthz l j).
Proof.
  intros Hj. destruct (vget_in l j Hj) as (x & _ & Hx). unfold nthz. by rewrite list_lookup_fmap, Hx.
Qed.

Lemma nthz_filled (W l : list Z) j : 0 ≤ j → nthz (filled W l) j = if j <? vlen W then nthz W j else nthz l j.
Proof.
  intros Hj. unfold filled. rewrite nthz_app by done. destruct (Z.ltb_spec j (vlen W)); [done|].
  rewrite <- to_nat_vlen, nthz_drop by (pose proof (vlen_nonneg W); lia). f_equal. lia.
Qed.

(** The slices of the bulk methods. *)
Lemma vfrom_in {A} (l : list A) off : 0 ≤ off ≤ vlen l → vfrom l off = Ok (drop (Z.to_nat off) l).
Proof.
  intros Ho. unfold vfrom. rewrite vslice_in by lia. f_equal. apply take_ge.
  rewrite length_drop. unfold vlen in *. lia.
Qed.

Lemma vback_nthz (l tl : list Z) off j : 0 ≤ off ≤ vlen l → 0 ≤ j →
  nthz (vback l off tl) j = if j <? off then nthz l j else nthz tl (j - off).
Proof.
  intros Ho Hj. unfold vback. rewrite nthz_app, vlen_take by done.
  destruct (Z.ltb_spec j off); [|done]. by rewrite nthz_take by lia.
Qed.
Lemma vback_vlen {A} (l tl : list A) off : 0 ≤ off ≤ vlen l → vlen tl = vlen l - off → vlen (vback l off tl) = vlen l.
Proof. intros Ho Ht. unfold vback. rewrite vlen_app, vlen_take by done. lia. Qed.

(** * The promise *)

(** An [i64] that needs at most [B] bits. *)
Definition fits (B v : Z) : Prop := is_i 64 v ∧ as_u64 v < 2 ^ B.

Lemma fits_nonneg B v : 0 ≤ B < 64 → fits B v → 0 ≤ v < 2 ^ B.
Proof.
  intros HB [Hv Hu]. pose proof (Z.pow_le_mono_r 2 B 63 ltac:(lia) ltac:(lia)).
  rewrite (small_as_u 64 v) by (done || lia). pose proof (as_u_range 64 v ltac:(lia)) as [? _]. lia.
Qed.
Lemma fits_0 B : 0 ≤ B → fits B 0.
Proof. intros. split; [done|]. change (as_u64 0) with 0. by apply pow2_pos. Qed.
Lemma fits_testbit B v j : 0 ≤ B → fits B v → B ≤ j < 64 → Z.testbit v j = false.
Proof.
  intros HB [Hv Hu] Hj. assert (Z.testbit (as_u64 v) j = false) as E.
  { apply (tb_high _ B); [|lia]. pose proof (as_u_range 64 v ltac:(lia)) as [? _]. split; done. }
  rewrite tb_as_u in E by lia. by rewrite (proj2 (Z.ltb_lt j 64)) in E by lia.
Qed.
Lemma fits_bits B v : 0 ≤ B ≤ 64 → is_i 64 v → (∀ j, B ≤ j < 64 → Z.testbit v j = false) → fits B v.
Proof.
  intros HB Hv Hz. split; [done|]. enough (as_u64 v = as_u B v) as -> by (apply as_u_range; lia).
  apply Z.bits_inj'. intros j Hj. rewrite !tb_as_u by lia.
  destruct (Z.ltb_spec j 64), (Z.ltb_spec j B); try done; try lia. cbn. apply Hz. lia.
Qed.
Lemma fits_mono B C v : 0 ≤ B ≤ C → fits B v → fits C v.
Proof. intros HBC [Hv Hu]. split; [done|]. pose proof (Z.pow_le_mono_r 2 B C). lia. Qed.
Lemma fits_inj B v w : 0 ≤ B ≤ 64 → fits B v → fits B w →
  (∀ j, 0 ≤ j < B → Z.testbit v j = Z.testbit w j) → v = w.
Proof.
  intros HB Hv Hw Heq. apply (is_i_inj 64); [lia|apply Hv|apply Hw|]. intros j Hj.
  destruct (decide (j < B)); [by apply Heq; lia|]. by rewrite !(fits_testbit B) by (done || lia).
Qed.

Section packs.
Context {M : Type} `{HM : Mutable M}.

(** [m'] is [m] with the values [f]. *)
Record updated (wf : M → Prop) (val : M → Z → Z) (m m' : M) (f : Z → Z) : Prop := {
  up_wf : wf m';
  up_size : size m' = size m;
  up_bits : get_bits_per_value m' = get_bits_per_value m;
  up_val : ∀ j, 0 ≤ j < size m → val m' j = f j;
}.

Lemma updated_ext wf val m m' f g : updated wf val m m' f → (∀ j, 0 ≤ j < size m → f j = g j) → updated wf val m m' g.
Proof using. intros [H1 H2 H3 H4] Hfg. constructor; try done. intros j Hj. rewrite H4 by done. by apply Hfg. Qed.

Lemma updated_trans wf val m m1 m2 f g : updated wf val m m1 f → updated wf val m1 m2 g → updated wf val m m2 g.
Proof using.
  intros [H1 H2 H3 H4] [K1 K2 K3 K4]. constructor; try done; try congruence.
  intros j Hj. apply K4. by rewrite H2.
Qed.

Lemma updated_refl (wf : M → Prop) val m : wf m → updated wf val m m (val m).
Proof using. by constructor. Qed.

(** The output of a bulk read of [n] values from [index] on. *)
Definition bulk_read (val : Z → Z) (index n : Z) (output output' : list Z) : Prop :=
  vlen output' = vlen output ∧
  ∀ k, 0 ≤ k < vlen output → nthz output' k = if k <? n then val (index + k) else nthz output k.
End packs.

Class Packs (M : Type) `{HM : Mutable M} : Type := {
  val : M → Z → Z;
  wf : M → Prop;
  wf_size m : wf m → 0 ≤ size m < 2 ^ 31;
  wf_bits m : wf m → 1 ≤ get_bits_per_value m ≤ 64;
  val_fits m i : wf m → 0 ≤ i < size m → fits (get_bits_per_value m) (val m i);
  get_law m i : wf m → 0 ≤ i < size m → get m i = Ok (val m i);
  set_law m i v : wf m → 0 ≤ i < size m → fits (get_bits_per_value m) v →
    ∃ m', set m i v = Ok m' ∧ updated wf val m m' (fun j => if j =? i then v else val m j);
  bulk_get_law m i output len : wf m → 0 ≤ i < size m → 1 ≤ len ≤ vlen output →
    ∃ n output', bulk_get m i output len = Ok (n, output') ∧ 1 ≤ n ≤ len ∧ i + n ≤ size m ∧
      bulk_read (val m) i n output output';
  (** The offsets into the source array that a bulk write at an index can serve. *)
  bulk_off : M → Z → Z → Prop;
  bulk_off_0 m i : bulk_off m i 0;
  bulk_set_law m i arr off len : wf m → 0 ≤ i < size m → 0 ≤ off → 1 ≤ len → off + len ≤ vlen arr → bulk_off m i off →
    (∀ k, 0 ≤ k < len → fits (get_bits_per_value m) (nthz arr (off + k))) →
    ∃ n m', bulk_set m i arr off len = Ok (n, m') ∧ 1 ≤ n ≤ len ∧ i + n ≤ size m ∧
      updated wf val m m' (fun j => if (i <=? j) && (j <? i + n) then nthz arr (off + (j - i)) else val m j);
  fill_law m from to v : wf m → 0 ≤ from ≤ to → to ≤ size m → fits (get_bits_per_value m) v →
    ∃ m', fill m from to v = Ok m' ∧
      updated wf val m m' (fun j => if (from <=? j) && (j <? to) then v else val m j);
  clear_law m : wf m → ∃ m', clear m = Ok m' ∧ updated wf val m m' (fun _ => 0);
}.
#[global] Hint Mode Packs ! - : typeclass_instances.

(** * Loops over single values *)

Section from_single.
Context {M : Type} `{HM : Mutable M} (wf : M → Prop) (val : M → Z → Z).
Context (gt : M → Z → result Z) (st : M → Z → Z → result M).
Hypothesis small : ∀ m, wf m → 0 ≤ size m < 2 ^ 31.
Hypothesis gets : ∀ m i, wf m → 0 ≤ i < size m → gt m i = Ok (val m i).
Hypothesis sets : ∀ m i v, wf m → 0 ≤ i < size m → fits (get_bits_per_value m) v →
  ∃ m', st m i v = Ok m' ∧ updated wf val m m' (fun j => if j =? i then v else val m j).

Lemma room m i : wf m → 0 ≤ i ≤ size m → as_u64 (size m - i) = size m - i.
Proof using small. intros Hm Hi. pose proof (small m Hm). apply as_u_id. unfold is_u. lia. Qed.

Lemma read_loop m i n output body : wf m → 0 ≤ i → i + n ≤ size m → 0 ≤ n ≤ vlen output →
  (∀ k out, 0 ≤ k < n → body k out = (v ← gt m (i + k); vset out k v)) →
  ∃ output', for_range 0 n body output = Ok output' ∧ bulk_read (val m) i n output output'.
Proof using gets.
  intros Hm Hi Hn Hlen Hbody.
  destruct (for_range_inv (fun k out => bulk_read (val m) i k output out) body 0 n output) as (out & -> & Hout);
    [lia| | |by exists out].
  - split; [done|]. intros k Hk. by rewrite (proj2 (Z.ltb_ge k 0)) by lia.
  - intros k out Hk [Hl Hv]. rewrite Hbody, gets by (done || lia). cbn [mbind result_bind].
    destruct (vset_nthz out k (val m (i + k))) as (out' & -> & Hl' & Hv'); [lia|]. exists out'. split; [done|].
    split; [congruence|]. intros j Hj. rewrite Hv', Hv by lia.
    destruct (Z.eqb_spec j k) as [->|]; [by rewrite (proj2 (Z.ltb_lt k (k + 1))) by lia|].
    destruct (Z.ltb_spec j k), (Z.ltb_spec j (k + 1)); done || lia.
Qed.

Lemma for_range_shift {St} a n (body body' : Z → St → result St) s : 0 ≤ n →
  (∀ k t, 0 ≤ k < n → body (a + k) t = body' k t) → for_range a (a + n) body s = for_range 0 n body' s.
Proof using.
  intros Hn Heq. unfold for_range. replace (a + n - a) with n by lia. rewrite Z.sub_0_r.
  assert (∀ c i s, 0 ≤ i → i + Z.of_nat c = n → for_n c (a + i) body s = for_n c i body' s) as H.
  { induction c as [|c IH]; intros i t Hi Hc; [done|]. cbn [for_n]. rewrite Heq by lia.
    destruct (body' i t); cbn [mbind result_bind]; [|done..]. rewrite <- Z.add_assoc. apply IH; lia. }
  specialize (H (Z.to_nat n) 0 s ltac:(lia) ltac:(lia)). by rewrite Z.add_0_r in H.
Qed.

Lemma direct_bulk_get_spec m i output len : wf m → 0 ≤ i < size m → 1 ≤ len ≤ vlen output →
  ∃ n output', direct_bulk_get size gt m i output len = Ok (n, output') ∧ 1 ≤ n ≤ len ∧ i + n ≤ size m ∧
    bulk_read (val m) i n output output'.
Proof using small gets.
  intros Hm Hi Hlen. unfold direct_bulk_get. rewrite room by (done || lia).
  set (n := Z.min len (size m - i)). replace (Z.min n (vlen output)) with n by lia.
  destruct (read_loop m i n output (fun k out => v ← gt m (i + k); vset out k v)) as (out & -> & Hout); try done; try lia.
  exists n, out. split; [done|]. split_and!; try lia; apply Hout.
Qed.

Lemma reader_bulk_get_spec m i output len : wf m → 0 ≤ i < size m → 1 ≤ len ≤ vlen output →
  ∃ n output', reader_bulk_get size gt m i output len = Ok (n, output') ∧ 1 ≤ n ≤ len ∧ i + n ≤ size m ∧
    bulk_read (val m) i n output output'.
Proof using small gets.
  intros Hm Hi Hlen. unfold reader_bulk_get. rewrite room by (done || lia). set (n := Z.min (size m - i) len).
  destruct (read_loop m i n output (fun k out => v ← gt m (i + k); vset out k v)) as (out & Hrun & Hout); try done; try lia.
  rewrite (for_range_shift i n _ (fun k out => v ← gt m (i + k); vset out k v)), Hrun; [|lia|].
  - exists n, out. split; [done|]. split_and!; try lia; apply Hout.
  - intros k t Hk. by replace (i + k - i) with k by lia.
Qed.

Lemma fits_updated m m' f : updated wf val m m' f → ∀ v, fits (get_bits_per_value m) v → fits (get_bits_per_value m') v.
Proof using. intros [] v. congruence. Qed.

(** A run of [st] over [from .. to] with the values [f]. *)
Lemma write_loop {X} (sel : X → M) (P : Z → X → Prop) m from to (f : Z → Z) (body : Z → X → result X) x0 :
  wf m → 0 ≤ from ≤ to → to ≤ size m → (∀ j, from ≤ j < to → fits (get_bits_per_value m) (f j)) →
  sel x0 = m → P from x0 →
  (∀ j x m', from ≤ j < to → P j x → st (sel x) j (f j) = Ok m' →
     ∃ x', body j x = Ok x' ∧ sel x' = m' ∧ P (j + 1) x') →
  ∃ x', for_range from to body x0 = Ok x' ∧ P to x' ∧
    updated wf val m (sel x') (fun j => if (from <=? j) && (j <? to) then f j else val m j).
Proof using sets.
  intros Hm Hf Ht Hfit <- HP Hbody.
  destruct (for_range_inv (fun i x => P i x ∧ updated wf val (sel x0) (sel x)
     (fun j => if (from <=? j) && (j <? i) then f j else val (sel x0) j)) body from to x0) as (x & -> & HPx & Hup);
    [lia| | |by exists x].
  - split; [done|]. eapply updated_ext; [by apply updated_refl|]. intros j Hj. cbn beta.
    destruct (Z.leb_spec from j), (Z.ltb_spec j from); done || lia.
  - intros i x Hi [HPx Hup]. pose proof Hup as [Hw Hs Hb Hv].
    destruct (sets (sel x) i (f i) Hw) as (m' & Hst & Hup'); [lia|rewrite Hb; by apply Hfit; lia|].
    destruct (Hbody i x m' Hi HPx Hst) as (x' & -> & <- & HPx'). exists x'. split; [done|]. split; [done|].
    eapply updated_ext; [by eapply updated_trans|]. intros j Hj. cbn beta. rewrite Hv by done.
    destruct (Z.eqb_spec j i) as [->|]; [by rewrite (proj2 (Z.leb_le from i)), (proj2 (Z.ltb_lt i (i + 1))) by lia|].
    destruct (Z.leb_spec from j), (Z.ltb_spec j i), (Z.ltb_spec j (i + 1)); done || lia.
Qed.

Lemma mutable_fill_spec m from to v : wf m → 0 ≤ from ≤ to → to ≤ size m → fits (get_bits_per_value m) v →
  ∃ m', mutable_fill st m from to v = Ok m' ∧
    updated wf val m m' (fun j => if (from <=? j) && (j <? to) then v else val m j).
Proof using sets.
  intros Hm Hf Ht Hv. unfold mutable_fill.
  destruct (write_loop (fun x => x) (fun _ _ => True) m from to (fun _ => v) (fun i m => st m i v) m) as (m' & H1 & _ & H2);
    try done; [|by exists m'].
  intros j x m' _ _ Hst. by exists m'.
Qed.

Lemma mutable_bulk_set_spec m i arr off len : wf m → 0 ≤ i < size m → 0 ≤ off → 1 ≤ len → off + len ≤ vlen arr →
  (∀ k, 0 ≤ k < len → fits (get_bits_per_value m) (nthz arr (off + k))) →
  ∃ n m', mutable_bulk_set size st m i arr off len = Ok (n, m') ∧ 1 ≤ n ≤ len ∧ i + n ≤ size m ∧
    updated wf val m m' (fun j => if (i <=? j) && (j <? i + n) then nthz arr (off + (j - i)) else val m j).
Proof using small sets.
  intros Hm Hi Ho Hlen Hall Hfit. unfold mutable_bulk_set. rewrite room by (done || lia).
  set (n := Z.min len (size m - i)).
  destruct (write_loop snd (fun j x => fst x = off + (j - i)) m i (i + n) (fun j => nthz arr (off + (j - i)))
    (fun i '(o, m) => v ← vget arr o; m ← st m i v; Ok (o + 1, m)) (off, m)) as ([o m'] & -> & _ & Hup); try done; try lia.
  - intros j Hj. apply Hfit. lia.
  - simpl. lia.
  - intros j [o x] m' Hj Ho' Hst. simpl in Ho', Hst. subst o. rewrite vget_nthz by lia. cbn [mbind result_bind].
    rewrite Hst. cbn [mbind result_bind]. eexists. split; [done|]. simpl. split; [done|lia].
  - cbn [mbind result_bind]. exists n, m'. split; [done|]. split_and!; try lia. exact Hup.
Qed.

(** The first loop of the block-wise [fill]s: up to the next boundary. *)
Lemma fill_head_spec m a n from v : wf m → 0 ≤ a ≤ n → 0 ≤ from → from + (n - a) ≤ size m → fits (get_bits_per_value m) v →
  ∃ m', for_range a n (fun _ '(fi, m) => m ← st m fi v; Ok (fi + 1, m)) (from, m) = Ok (from + (n - a), m') ∧
    updated wf val m m' (fun j => if (from <=? j) && (j <? from + (n - a)) then v else val m j).
Proof using sets.
  intros Hm Ha Hf Hs Hv. replace (@for_range (Z * M) a n) with (@for_range (Z * M) a (a + (n - a))) by (f_equal; lia).
  rewrite (for_range_shift a (n - a) _ (fun _ '(fi, m) => m ← st m fi v; Ok (fi + 1, m))) by (done || lia).
  rewrite <- (for_range_shift from (n - a) (fun _ '(fi, m) => m ← st m fi v; Ok (fi + 1, m))) by (done || lia).
  destruct (write_loop snd (fun j x => fst x = j) m from (from + (n - a)) (fun _ => v)
    (fun _ '(fi, m) => m ← st m fi v; Ok (fi + 1, m)) (from, m)) as ([fi m'] & -> & Hfi & Hup); try done; try lia.
  - intros j [fi x] m' Hj Hfi Hst. simpl in Hfi, Hst. subst fi. rewrite Hst. cbn [mbind result_bind]. eexists. split; done.
  - simpl in Hfi. subst fi. by exists m'.
Qed.
End from_single.

(** * The direct arrays *)

Section direct.
Context (B : Z) (load store : Z → Z) (elem : Z → Prop).
Hypothesis width : 1 ≤ B ≤ 64.
Hypothesis stored : ∀ v, fits B v → elem (store v) ∧ load (store v) = v.
Hypothesis loaded : ∀ x, elem x → fits B (load x).
Hypothesis zero : elem 0 ∧ load 0 = 0.

Let ops : Mutable direct := direct_ops load store.

Definition direct_val (m : direct) (i : Z) : Z := load (nthz (values m) i).
Definition direct_wf (m : direct) : Prop :=
  0 ≤ value_count m < 2 ^ 31 ∧ vlen (values m) = value_count m ∧ bits_per_value m = B ∧ Forall elem (values m).

Lemma direct_bits m : direct_wf m → @get_bits_per_value _ ops m = B.
Proof using. by intros (_ & _ & Hb & _). Qed.

Lemma direct_gets m i : direct_wf m → 0 ≤ i < value_count m → direct_get load m i = Ok (direct_val m i).
Proof using. intros (_ & Hl & _) Hi. unfold direct_get. by rewrite vget_nthz by lia. Qed.

Lemma direct_sets m i v : direct_wf m → 0 ≤ i < value_count m → fits B v →
  ∃ m', direct_set store m i v = Ok m' ∧
    @updated _ ops direct_wf direct_val m m' (fun j => if j =? i then v else direct_val m j).
Proof using stored.
  intros (Hs & Hl & Hb & He) Hi Hv. destruct (stored v Hv) as [He' Hls]. unfold direct_set.
  destruct (vset_nthz (values m) i (store v)) as (vs & E & Hvl & Hvn); [lia|]. rewrite E. cbn [mbind result_bind].
  eexists. split; [done|]. constructor; cbn; try done.
  - split_and!; cbn; try done; try lia. by eapply vset_Forall.
  - intros j Hj. unfold direct_val. cbn. rewrite Hvn by lia. by destruct (j =? i).
Qed.

Program Definition direct_packs : @Packs direct ops :=
  {| val := direct_val; wf := direct_wf; bulk_off _ _ _ := True |}.
Next Obligation. intros m (? & _). done. Qed.
Next Obligation. intros m (_ & _ & Hb & _). cbn in *. by rewrite Hb. Qed.
Next Obligation. intros m i (_ & Hl & Hb & He) Hi. cbn in *. rewrite Hb. apply loaded. apply nthz_Forall; [done|]. by rewrite Hl. Qed.
Next Obligation. intros m i Hm Hi. by apply direct_gets. Qed.
Next Obligation.
  intros m i v Hm Hi Hv. apply direct_sets; try done. by rewrite <- (direct_bits m Hm).
Qed.
Next Obligation.
  intros m i output len Hm Hi Hlen. apply (@direct_bulk_get_spec _ ops direct_wf); try done.
  - by intros m' (? & _).
  - apply direct_gets.
Qed.
Next Obligation. done. Qed.
Next Obligation.
  intros m i arr off len Hm Hi Hoff Hlen Harr _ Hfit.
  apply (@mutable_bulk_set_spec _ ops direct_wf direct_val); try done; try lia.
  - by intros m' (? & _).
  - intros m' j v Hm' Hj Hv. apply direct_sets; try done. by rewrite <- (direct_bits m' Hm').
Qed.
Next Obligation.
  intros m from to v Hm Hf Ht Hv. apply (@mutable_fill_spec _ ops direct_wf direct_val); try done.
  intros m' j x Hm' Hj Hx. apply direct_sets; try done. by rewrite <- (direct_bits m' Hm').
Qed.
Next Obligation.
  intros m Hm. pose proof Hm as (Hs & Hl & Hb & He).
  destruct (@mutable_fill_spec _ ops direct_wf direct_val (direct_set store)) with (m := m) (from := 0)
    (to := vlen (values m)) (v := 0) as (m' & Hrun & Hup); try done; try (cbn; lia).
  - intros m' j x Hm' Hj Hx. apply direct_sets; try done. by rewrite <- (direct_bits m' Hm').
  - apply fits_0. cbn. lia.
  - exists m'. split; [done|]. eapply updated_ext; [exact Hup|]. cbn. intros j Hj.
    rewrite (proj2 (Z.leb_le 0 j)), (proj2 (Z.ltb_lt j _)) by lia. done.
Qed.

Lemma direct_new_wf n : 0 ≤ n < 2 ^ 31 → direct_wf (direct_new B n) ∧ ∀ j, 0 ≤ j < n → direct_val (direct_new B n) j = 0.
Proof using zero.
  intros Hn. destruct zero as [He Hl]. split.
  - split_and!; cbn; try lia; [apply vlen_replicate; lia|]. by apply Forall_replicate.
  - intros j Hj. unfold direct_val. cbn. by rewrite nthz_replicate.
Qed.
End direct.

Lemma as_u_stored w v : 1 ≤ w ≤ 64 → fits w v → w < 64 → as_u w v = v.
Proof. intros Hw Hv Hlt. apply as_u_id. by apply fits_nonneg; [lia|]. Qed.

Lemma is_u_fits w x : 0 ≤ w < 64 → is_u w x → fits w x.
Proof.
  intros Hw [H0 H1]. pose proof (Z.pow_le_mono_r 2 w 63 ltac:(lia) ltac:(lia)).
  split; [unfold is_i; lia|]. rewrite as_u_id by (unfold is_u; lia). done.
Qed.

Section widths.
Context (w : Z) (Hw : 1 ≤ w < 64).
Lemma unsigned_stored v : fits w v → is_u w (as_u w v) ∧ as_u w v = v.
Proof using Hw. intros Hv. split; [apply as_u_range; lia|]. apply as_u_stored; done || lia. Qed.
Lemma signed_stored v : fits w v → is_i w (as_i w v) ∧ as_u w (as_i w v) = v.
Proof using Hw. intros Hv. split; [apply as_i_range; lia|]. rewrite as_u_as_i by lia. apply as_u_stored; done || lia. Qed.
Lemma signed_loaded x : is_i w x → fits w (as_u w x).
Proof using Hw. intros _. apply is_u_fits; [lia|apply as_u_range; lia]. Qed.
Lemma signed_zero : is_i w 0 ∧ as_u w 0 = 0.
Proof using Hw. split; [apply is_i_const; lia|]. apply as_u_id. split; [lia|apply pow2_pos; lia]. Qed.
End widths.

Lemma full_stored v : fits 64 v → is_i 64 v ∧ v = v.
Proof. by intros []. Qed.
Lemma full_loaded v : is_i 64 v → fits 64 v.
Proof. intros Hv. split; [done|]. apply as_u_range. lia. Qed.

Definition direct8_packs : @Packs direct Direct8.ops :=
  direct_packs 8 (fun v => v) as_u8 (is_u 8) ltac:(lia) (unsigned_stored 8 ltac:(lia)) (fun x => is_u_fits 8 x ltac:(lia)).
Definition direct16_packs : @Packs direct Direct16.ops :=
  direct_packs 16 as_u16 as_i16 (is_i 16) ltac:(lia) (signed_stored 16 ltac:(lia)) (signed_loaded 16 ltac:(lia)).
Definition direct32_packs : @Packs direct Direct32.ops :=
  direct_packs 32 as_u32 as_i32 (is_i 32) ltac:(lia) (signed_stored 32 ltac:(lia)) (signed_loaded 32 ltac:(lia)).
Definition direct64_packs : @Packs direct Direct64.ops :=
  direct_packs 64 (fun v => v) (fun v => v) (is_i 64) ltac:(lia) full_stored full_loaded.

(** * The three-block arrays *)

Section three.
Context (w : Z) (load store : Z → Z) (elem : Z → Prop).
Hypothesis width : 1 ≤ w ≤ 16.
Hypothesis stored : ∀ v, elem (store v) ∧ load (store v) = as_u w v.
Hypothesis loaded : ∀ x, elem x → is_u w (load x).
Hypothesis zero : elem 0 ∧ load 0 = 0.

Let ops : Mutable three_blocks := three_ops w load store.

Definition three_val (m : three_blocks) (i : Z) : Z :=
  Z.lor (Z.lor (shl_i 64 (load (nthz (tb_blocks m) (i * 3))) (2 * w)) (shl_i 64 (load (nthz (tb_blocks m) (i * 3 + 1))) w))
    (load (nthz (tb_blocks m) (i * 3 + 2))).
Definition three_wf (m : three_blocks) : Prop :=
  0 ≤ tb_value_count m < 2 ^ 31 ∧ vlen (tb_blocks m) = 3 * tb_value_count m ∧
  tb_bits_per_value m = 3 * w ∧ Forall elem (tb_blocks m).

Lemma three_bits m : three_wf m → @get_bits_per_value _ ops m = 3 * w.
Proof using. by intros (_ & _ & Hb & _). Qed.

Lemma three_gets m i : three_wf m → 0 ≤ i < tb_value_count m → three_get w load m i = Ok (three_val m i).
Proof using. intros (_ & Hl & _) Hi. unfold three_get. by rewrite !vget_nthz by lia. Qed.

(** Three digits of [w] bits. *)
Lemma three_join b0 b1 b2 : is_u w b0 → is_u w b1 → is_u w b2 →
  fits (3 * w) (Z.lor (Z.lor (shl_i 64 b0 (2 * w)) (shl_i 64 b1 w)) b2).
Proof using width.
  intros H0 H1 H2. apply fits_bits; [lia| |].
  - apply is_i_lor; [lia|auto with ranges lia|]. apply (is_u_fits w b2 ltac:(lia) H2).
  - intros j Hj. bits_side. split_cmp. rewrite (tb_high b0 w), (tb_high b1 w), (tb_high b2 w) by (done || lia). done.
Qed.

Lemma three_split v : fits (3 * w) v →
  Z.lor (Z.lor (shl_i 64 (as_u w (shr_i v (2 * w))) (2 * w)) (shl_i 64 (as_u w (shr_i v w)) w)) (as_u w v) = v.
Proof using width.
  intros Hv. apply (fits_inj (3 * w)); [lia| |done|].
  - apply three_join; apply as_u_range; lia.
  - intros j Hj. unfold shr_i. bits_side. split_cmp; bits_side; try done; f_equal; lia.
Qed.

Lemma three_sets m i v : three_wf m → 0 ≤ i < tb_value_count m → fits (3 * w) v →
  ∃ m', three_set w store m i v = Ok m' ∧
    @updated _ ops three_wf three_val m m' (fun j => if j =? i then v else three_val m j).
Proof using stored width.
  intros (Hs & Hl & Hb & He) Hi Hv. unfold three_set.
  destruct (vset_nthz (tb_blocks m) (i * 3) (store (shr_i v (2 * w)))) as (b0 & E0 & L0 & N0); [lia|].
  rewrite E0. cbn [mbind result_bind].
  destruct (vset_nthz b0 (i * 3 + 1) (store (shr_i v w))) as (b1 & E1 & L1 & N1); [lia|]. rewrite E1. cbn [mbind result_bind].
  destruct (vset_nthz b1 (i * 3 + 2) (store v)) as (b2 & E2 & L2 & N2); [lia|]. rewrite E2. cbn [mbind result_bind].
  eexists. split; [done|]. constructor; cbn; try done.
  - split_and!; cbn; try done; try lia. eapply vset_Forall; [exact E2| |apply stored].
    eapply vset_Forall; [exact E1| |apply stored]. eapply vset_Forall; [exact E0|done|apply stored].
  - intros j Hj. unfold three_val. cbn. rewrite !N2, !N1, !N0 by lia. destruct (Z.eqb_spec j i) as [->|Hne].
    + rewrite !Z.eqb_refl. repeat match goal with |- context [?a =? ?b] => rewrite (proj2 (Z.eqb_neq a b)) by lia end.
      rewrite !(proj2 (stored _)). by apply three_split.
    + repeat match goal with |- context [?a =? ?b] => rewrite (proj2 (Z.eqb_neq a b)) by lia end. done.
Qed.

Program Definition three_packs : @Packs three_blocks ops :=
  {| val := three_val; wf := three_wf; bulk_off _ _ _ := True |}.
Next Obligation. intros m (? & _). done. Qed.
Next Obligation. intros m Hm. rewrite (three_bits m Hm). lia. Qed.
Next Obligation.
  intros m i Hm Hi. rewrite (three_bits m Hm). destruct Hm as (_ & Hl & _ & He). cbn in Hi.
  apply three_join; apply loaded; apply nthz_Forall; done || lia.
Qed.
Next Obligation. intros m i Hm Hi. by apply three_gets. Qed.
Next Obligation. intros m i v Hm Hi Hv. apply three_sets; try done. by rewrite <- (three_bits m Hm). Qed.
Next Obligation.
  intros m i output len Hm Hi Hlen. apply (@direct_bulk_get_spec _ ops three_wf); try done.
  - by intros m' (? & _).
  - apply three_gets.
Qed.
Next Obligation. done. Qed.
Next Obligation.
  intros m i arr off len Hm Hi Hoff Hlen Harr _ Hfit.
  apply (@mutable_bulk_set_spec _ ops three_wf three_val); try done; try lia.
  - by intros m' (? & _).
  - intros m' j v Hm' Hj Hv. apply three_sets; try done. by rewrite <- (three_bits m' Hm').
Qed.
Next Obligation.
  intros m from to v Hm Hf Ht Hv. apply (@mutable_fill_spec _ ops three_wf three_val); try done.
  intros m' j x Hm' Hj Hx. apply three_sets; try done. by rewrite <- (three_bits m' Hm').
Qed.
Next Obligation.
  intros m Hm. pose proof Hm as (Hs & Hl & Hb & He).
  destruct (@mutable_fill_spec _ ops three_wf three_val (three_set w store)) with (m := m) (from := 0)
    (to := tb_value_count m) (v := 0) as (m' & Hrun & Hup); try done; try (cbn; lia).
  - intros m' j x Hm' Hj Hx. apply three_sets; try done. by rewrite <- (three_bits m' Hm').
  - apply fits_0. cbn. lia.
  - exists m'. split; [done|]. eapply updated_ext; [exact Hup|]. cbn. intros j Hj.
    rewrite (proj2 (Z.leb_le 0 j)), (proj2 (Z.ltb_lt j _)) by lia. done.
Qed.

Lemma three_new_wf n : 0 ≤ n ≤ Formats.PACKED8_THREE_BLOCKS_MAX_SIZE →
  ∃ m, three_new w n = Ok m ∧ three_wf m ∧ tb_value_count m = n ∧ ∀ j, 0 ≤ j < n → three_val m j = 0.
Proof using zero width.
  intros Hn. unfold Formats.PACKED8_THREE_BLOCKS_MAX_SIZE in *. destruct zero as [He Hl]. unfold three_new.
  rewrite (proj2 (Z.leb_le _ _)) by (unfold Formats.PACKED8_THREE_BLOCKS_MAX_SIZE; lia). cbn [check mbind result_bind].
  eexists. split; [done|]. split; [|split; [done|]].
  - split_and!; cbn; try lia; [apply vlen_replicate; lia|]. by apply Forall_replicate.
  - intros j Hj. unfold three_val. cbn [tb_blocks]. rewrite !nthz_replicate by lia. rewrite Hl.
    unfold shl_i. by rewrite !Z.shiftl_0_l.
Qed.
End three.

Definition packed8_packs : @Packs three_blocks Packed8ThreeBlocks.ops :=
  three_packs 8 (fun v => v) as_u8 (is_u 8) ltac:(lia)
    (fun v => conj (as_u_range 8 v ltac:(lia)) eq_refl) (fun x H => H).
Definition packed16_packs : @Packs three_blocks Packed16ThreeBlocks.ops :=
  three_packs 16 as_u16 as_i16 (is_i 16) ltac:(lia)
    (fun v => conj (as_i_range 16 v ltac:(lia)) (as_u_as_i 16 v ltac:(lia))) (fun x _ => as_u_range 16 x ltac:(lia)).

(** * Composing bulk reads and writes *)

Lemma bulk_read_0 val i output : bulk_read val i 0 output output.
Proof. split; [done|]. intros k Hk. by rewrite (proj2 (Z.ltb_ge k 0)) by lia. Qed.

Lemma bulk_read_one val i n output out1 out2 : 0 ≤ n < vlen output → bulk_read val i n output out1 →
  vset out1 n (val (i + n)) = Ok out2 → bulk_read val i (n + 1) output out2.
Proof.
  intros Hn [Hl Hv] Hset. destruct (vset_nthz out1 n (val (i + n))) as (out & E & Hl' & Hv'); [lia|].
  rewrite E in Hset. injection Hset as <-. split; [lia|]. intros k Hk. rewrite Hv', Hv by lia.
  destruct (Z.eqb_spec k n) as [->|]; [by rewrite (proj2 (Z.ltb_lt n (n + 1))) by lia|].
  destruct (Z.ltb_spec k n), (Z.ltb_spec k (n + 1)); done || lia.
Qed.

Lemma bulk_read_append val i n n' output out1 os : 0 ≤ n ≤ vlen output →
  bulk_read val i n output out1 → bulk_read val (i + n) n' (drop (Z.to_nat n) out1) os → 0 ≤ n' →
  bulk_read val i (n + n') output (vback out1 n os).
Proof.
  intros Hn [Hl Hv] [Hl' Hv'] Hn'. rewrite vlen_drop in * by lia. split; [rewrite vback_vlen; lia|].
  intros k Hk. rewrite vback_nthz by lia. destruct (Z.ltb_spec k n).
  - rewrite Hv by lia. rewrite (proj2 (Z.ltb_lt k n)), (proj2 (Z.ltb_lt k (n + n'))) by lia. done.
  - rewrite Hv' by lia. rewrite nthz_drop by lia. replace (n + (k - n)) with k by lia. rewrite Hv by lia.
    rewrite (proj2 (Z.ltb_ge k n)) by lia.
    destruct (Z.ltb_spec (k - n) n'), (Z.ltb_spec k (n + n')); try done; try lia. f_equal. lia.
Qed.

Lemma bulk_read_ext val val' i i' n output out : (∀ k, 0 ≤ k < n → val (i + k) = val' (i' + k)) →
  bulk_read val i n output out → bulk_read val' i' n output out.
Proof.
  intros Heq [Hl Hv]. split; [done|]. intros k Hk. rewrite Hv by done.
  destruct (Z.ltb_spec k n); [|done]. apply Heq. lia.
Qed.

(** The values [nthz arr] from [index] on. *)
Definition written_from (arr : list Z) (off i n : Z) (f : Z → Z) (j : Z) : Z :=
  if (i <=? j) && (j <? i + n) then nthz arr (off + (j - i)) else f j.

Lemma written_append arr off i n n' f j : 0 ≤ n → 0 ≤ n' →
  written_from arr (off + n) (i + n) n' (written_from arr off i n f) j = written_from arr off i (n + n') f j.
Proof.
  intros Hn Hn'. unfold written_from.
  destruct (Z.leb_spec (i + n) j), (Z.ltb_spec j (i + n + n')), (Z.leb_spec i j), (Z.ltb_spec j (i + n)),
    (Z.ltb_spec j (i + (n + n'))); cbn [andb]; try done; try lia. f_equal. lia.
Qed.

Lemma written_0 arr off i f j : written_from arr off i 0 f j = f j.
Proof. unfold written_from. destruct (Z.leb_spec i j), (Z.ltb_spec j (i + 0)); cbn; done || lia. Qed.

Lemma written_cong arr off i n f g j : f j = g j → written_from arr off i n f j = written_from arr off i n g j.
Proof. intros H. unfold written_from. by rewrite H. Qed.

Lemma written_drop arr off i n f j : 0 ≤ off →
  written_from (drop (Z.to_nat off) arr) 0 i n f j = written_from arr off i n f j.
Proof.
  intros Ho. unfold written_from. destruct (Z.leb_spec i j); cbn [andb]; [|done].
  destruct (j <? i + n); [|done]. by rewrite nthz_drop by lia.
Qed.
