(* ===== verification/Packed64Facts.v ===== *)
(** [Packed64] keeps the promise of a packed array.  The blocks are read as one
    stream of bits, the most significant bit of a block first; a value is [B]
    consecutive bits of it. *)

From S2P Require Import Prelude Float32 DataIO Numeric NumericFacts PackedBulk PackedBulkFacts PackedSingleFacts PackedMutable PackedArrayFacts.
Open Scope Z_scope.

(** A logical shift, below the width. *)
Lemma tb_ushift w a n i : 0 ≤ n → 0 ≤ i < w →
  Z.testbit (unsigned_shift w a n) i = (i + n <? w) && Z.testbit a (i + n).
Proof.
  intros Hn Hi. unfold unsigned_shift. rewrite tb_as_i by lia. rewrite (proj2 (Z.ltb_lt i w)) by lia.
  by rewrite tb_shiftr, tb_as_u by lia.
Qed.

(** * The stream *)

Definition sbit (blocks : list Z) (p : Z) : bool := Z.testbit (nthz blocks (p / 64)) (63 - p mod 64).

(** [sbit] at a known place. *)
Lemma sbit_at blocks k b : 0 ≤ b < 64 → sbit blocks (64 * k + (63 - b)) = Z.testbit (nthz blocks k) b.
Proof.
  intros Hb. unfold sbit. rewrite <- (Z.div_unique (64 * k + (63 - b)) 64 k (63 - b)) by lia.
  rewrite <- (Z.mod_unique (64 * k + (63 - b)) 64 k (63 - b)) by lia. f_equal. lia.
Qed.

Lemma sbit_as blocks p k b : p = 64 * k + (63 - b) → 0 ≤ b < 64 → sbit blocks p = Z.testbit (nthz blocks k) b.
Proof. intros ->. apply sbit_at. Qed.

(** Blocks with the same stream are equal. *)
Lemma be_value_testbit w l : 0 ≤ w → Forall (is_u w) l → ∀ q r, 0 ≤ q < vlen l → 0 ≤ r < w →
  Z.testbit (be_value w l) (w * vlen l - 1 - (w * q + r)) = Z.testbit (nthz l q) (w - 1 - r).
Proof.
  intros Hw. induction l as [|x l IH]; intros Hl q r Hq Hr; [unfold vlen in Hq; simpl in Hq; lia|].
  apply Forall_cons_iff in Hl as [Hx Hl]. rewrite be_value_cons by done. rewrite vlen_cons in *.
  pose proof (be_value_bound w l Hw Hl) as Hb. pose proof (vlen_nonneg l).
  assert (Hn : 0 ≤ w * vlen l) by nia.
  rewrite <- lor_add_disjoint by done. rewrite Z.lor_spec, tb_shiftl by nia.
  destruct (decide (q = 0)) as [->|Hq0].
  - rewrite (tb_high (be_value w l) (w * vlen l)) by (done || nia). rewrite orb_false_r.
    unfold nthz. simpl. f_equal. nia.
  - rewrite tb_neg by nia. cbn [orb]. specialize (IH Hl (q - 1) r ltac:(lia) Hr).
    replace (w * (vlen l + 1) - 1 - (w * q + r)) with (w * vlen l - 1 - (w * (q - 1) + r)) by lia. rewrite IH.
    unfold nthz. replace (Z.to_nat q) with (S (Z.to_nat (q - 1))) by lia. done.
Qed.

(** * Values *)

Section values.
Context (B : Z) (HB : 1 ≤ B ≤ 64).

Definition the_mask : Z := if B =? 64 then -1 else Z.ones B.

Lemma mask_testbit j : 0 ≤ j < 64 → Z.testbit the_mask j = (j <? B).
Proof using HB.
  intros Hj. unfold the_mask. destruct (Z.eqb_spec B 64) as [->|].
  - rewrite tb_m1 by lia. symmetry. apply Z.ltb_lt. lia.
  - apply tb_ones; lia.
Qed.

Lemma mask_is_i : is_i 64 the_mask.
Proof using HB.
  unfold the_mask. destruct (Z.eqb_spec B 64); [apply is_i_const; lia|]. rewrite Z.ones_equiv.
  pose proof (Z.pow_le_mono_r 2 B 63 ltac:(lia) ltac:(lia)). pose proof (pow2_pos B ltac:(lia)). unfold is_i. lia.
Qed.

Lemma mask_right_eq : Packed64.the_mask_right B = the_mask.
Proof using HB.
  apply (is_i_inj 64); [lia|apply as_i_range; lia|apply mask_is_i|]. intros j Hj. rewrite mask_testbit by done.
  unfold Packed64.the_mask_right. change (2 ^ 64 - 1) with (Z.ones 64). bits_side. split_cmp; bits_side; split_cmp; done.
Qed.

(** The expression of [get]. *)
Definition pget (blocks : list Z) (i : Z) : Z :=
  let k := i * B / 64 in
  let e := (i * B) mod 64 + (B - 64) in
  if e <=? 0 then Z.land (unsigned_shift 64 (nthz blocks k) (- e)) the_mask
  else Z.land (Z.lor (shl_i 64 (nthz blocks k) e) (unsigned_shift 64 (nthz blocks (k + 1)) (64 - e))) the_mask.

Lemma pget_is_i blocks i : is_i 64 (pget blocks i).
Proof using HB.
  unfold pget. pose proof mask_is_i. case_match; apply is_i_land; try done; try lia; auto with ranges lia.
Qed.

(** Its bits are the bits [i * B .. i * B + B] of the stream. *)
Lemma pget_testbit blocks i j : 0 ≤ i → 0 ≤ j < 64 →
  Z.testbit (pget blocks i) j = (j <? B) && sbit blocks (i * B + (B - 1 - j)).
Proof using HB.
  intros Hi Hj. unfold pget. assert (Hp : 0 ≤ i * B) by nia.
  pose proof (Z.div_mod (i * B) 64 ltac:(lia)) as Hdm. pose proof (Z.mod_pos_bound (i * B) 64 ltac:(lia)) as Hr.
  set (k := i * B / 64) in *. set (r := (i * B) mod 64) in *. set (p := i * B) in *.
  destruct (Z.leb_spec (r + (B - 64)) 0) as [He|He]; rewrite Z.land_spec, (mask_testbit j Hj), andb_comm;
    destruct (Z.ltb_spec j B) as [HjB|]; cbn [andb]; try done.
  - rewrite (sbit_as blocks _ k (j - (r + (B - 64)))) by lia. rewrite tb_ushift by lia.
    split_cmp; bits_side; split_cmp; try done; f_equal; lia.
  - rewrite Z.lor_spec, tb_ushift, tb_shl_i by lia.
    destruct (decide (j < r + (B - 64))).
    + rewrite (sbit_as blocks _ (k + 1) (64 - (r + (B - 64)) + j)) by lia.
      rewrite (tb_neg _ (j - _)) by lia. split_cmp; bits_side; split_cmp; try done; f_equal; lia.
    + rewrite (sbit_as blocks _ k (j - (r + (B - 64)))) by lia.
      split_cmp; bits_side; split_cmp; try done; rewrite ?orb_false_r; f_equal; lia.
Qed.

Lemma pget_fits blocks i : 0 ≤ i → fits B (pget blocks i).
Proof using HB.
  intros Hi. apply fits_bits; [lia|apply pget_is_i|]. intros j Hj.
  rewrite pget_testbit by lia. by rewrite (proj2 (Z.ltb_ge j B)) by lia.
Qed.

Lemma pget_ext blocks i v : 0 ≤ i → fits B v →
  (∀ j, 0 ≤ j < B → sbit blocks (i * B + (B - 1 - j)) = Z.testbit v j) → pget blocks i = v.
Proof using HB.
  intros Hi Hv Hbits. apply (fits_inj B); [lia|by apply pget_fits|done|].
  intros j Hj. rewrite pget_testbit by lia. rewrite (proj2 (Z.ltb_lt j B)) by lia. by apply Hbits.
Qed.

(** If a stream changed only in the bits of the values from [a] to [b], to the
    bits of [f], then so did the values. *)
Lemma pget_update blocks blocks' a b (f : Z → Z) :
  (∀ i, a ≤ i < b → fits B (f i)) →
  (∀ i j, 0 ≤ i → 0 ≤ j < B → sbit blocks' (i * B + (B - 1 - j)) =
     if (a <=? i) && (i <? b) then Z.testbit (f i) j else sbit blocks (i * B + (B - 1 - j))) →
  ∀ i, 0 ≤ i → pget blocks' i = if (a <=? i) && (i <? b) then f i else pget blocks i.
Proof using HB.
  intros Hf Hbits i Hi. apply pget_ext; [done| |].
  - destruct (Z.leb_spec a i), (Z.ltb_spec i b); try by apply pget_fits. apply Hf. lia.
  - intros j Hj. rewrite Hbits by done. destruct ((a <=? i) && (i <? b)); [done|].
    rewrite pget_testbit by lia. by rewrite (proj2 (Z.ltb_lt j B)) by lia.
Qed.
End values.

(** * [get] and [set] *)

Import Packed64.

Definition p64_wf (m : t) : Prop :=
  1 ≤ bits_per_value m ≤ 64 ∧ 0 ≤ value_count m < 2 ^ 31 ∧
  value_count m * bits_per_value m ≤ 64 * vlen (blocks m) ∧ Forall (is_i 64) (blocks m) ∧
  mask_right m = the_mask (bits_per_value m) ∧ bpv_minus_block_size m = bits_per_value m - 64.
Definition p64_val (m : t) (i : Z) : Z := pget (bits_per_value m) (blocks m) i.

Lemma locate_eq m i : p64_wf m → 0 ≤ i < value_count m →
  locate m i = (i * bits_per_value m / 64, (i * bits_per_value m) mod 64 + (bits_per_value m - 64)).
Proof.
  intros (HB & Hvc & _ & _ & _ & Hm) Hi. unfold locate. rewrite Hm.
  assert (0 ≤ i * bits_per_value m < 2 ^ 62) by nia.
  rewrite as_u_id by (unfold is_u; lia). rewrite as_i_id by (unfold is_i; lia).
  rewrite Z.shiftr_div_pow2 by lia. change 63 with (Z.ones 6). rewrite Z.land_ones by lia. done.
Qed.

(** Where a value lies. *)
Lemma place m i : p64_wf m → 0 ≤ i < value_count m →
  let p := i * bits_per_value m in let k := p / 64 in let e := p mod 64 + (bits_per_value m - 64) in
  p = 64 * k + (e + 64 - bits_per_value m) ∧ 0 ≤ e + 64 - bits_per_value m < 64 ∧ 0 ≤ k < vlen (blocks m) ∧
  (0 < e → k + 1 < vlen (blocks m)).
Proof.
  intros (HB & Hvc & Hl & _ & _ & Hm) Hi p k e. assert (p + bits_per_value m ≤ 64 * vlen (blocks m)) by (unfold p; nia).
  assert (0 ≤ p) by (unfold p; nia).
  pose proof (Z.div_mod p 64 ltac:(lia)) as Hdm. pose proof (Z.mod_pos_bound p 64 ltac:(lia)) as Hr.
  fold k in Hdm. unfold e. lia.
Qed.

Lemma p64_gets m i : p64_wf m → 0 ≤ i < value_count m → get_impl m i = Ok (p64_val m i).
Proof.
  intros Hm Hi. unfold get_impl. rewrite locate_eq by done.
  destruct (place m i Hm Hi) as (_ & _ & Hk & Hk1). destruct Hm as (HB & Hvc & Hl & He & Hmask & _).
  unfold p64_val, pget. rewrite Hmask. destruct (Z.leb_spec ((i * bits_per_value m) mod 64 + (bits_per_value m - 64)) 0).
  - by rewrite vget_nthz by lia.
  - rewrite !vget_nthz by lia. done.
Qed.

(** The bits of the words [set] writes. *)
Lemma set_single_word B b v e j : 1 ≤ B ≤ 64 → e ≤ 0 → - e ≤ 64 - B → fits B v → 0 ≤ j < 64 →
  Z.testbit (Z.lor (Z.land b (as_i64 (Z.lxor (as_u64 (shl_i 64 (the_mask B) (- e))) (2 ^ 64 - 1)))) (shl_i 64 v (- e))) j
  = if (0 <=? j + e) && (j + e <? B) then Z.testbit v (j + e) else Z.testbit b j.
Proof.
  intros HB He Hs Hv Hj. change (2 ^ 64 - 1) with (Z.ones 64).
  rewrite Z.lor_spec, Z.land_spec, tb_shl_i, tb_as_i, Z.lxor_spec, tb_as_u, tb_ones, tb_shl_i by lia.
  rewrite (proj2 (Z.ltb_lt j 64)) by lia. cbn [andb xorb]. replace (j - - e) with (j + e) by lia.
  destruct (Z.leb_spec 0 (j + e)); cbn [andb].
  - rewrite mask_testbit by lia. destruct (Z.ltb_spec (j + e) B); cbn.
    + by rewrite andb_false_r.
    + rewrite andb_true_r, (fits_testbit B v) by (done || lia). apply orb_false_r.
  - rewrite !(tb_neg _ (j + e)) by lia. cbn. by rewrite andb_true_r, orb_false_r.
Qed.

Lemma set_first_word B b v e j : 1 ≤ B ≤ 64 → 0 < e < B → fits B v → 0 ≤ j < 64 →
  Z.testbit (Z.lor (Z.land b (as_i64 (Z.lxor (Z.shiftr (as_u64 (the_mask B)) e) (2 ^ 64 - 1)))) (unsigned_shift 64 v e)) j
  = if j + e <? B then Z.testbit v (j + e) else Z.testbit b j.
Proof.
  intros HB He Hv Hj. change (2 ^ 64 - 1) with (Z.ones 64).
  rewrite Z.lor_spec, Z.land_spec, tb_ushift, tb_as_i, Z.lxor_spec, tb_shiftr, tb_as_u, tb_ones by lia.
  rewrite (proj2 (Z.ltb_lt j 64)) by lia.
  destruct (Z.ltb_spec (j + e) 64) as [H64|]; cbn [andb xorb].
  - rewrite mask_testbit by lia. destruct (Z.ltb_spec (j + e) B); cbn.
    + by rewrite andb_false_r.
    + rewrite andb_true_r, (fits_testbit B v) by (done || lia). apply orb_false_r.
  - destruct (Z.ltb_spec (j + e) B); [lia|]. by rewrite andb_true_r, orb_false_r.
Qed.

Lemma set_second_word b v e j : 0 < e < 64 → 0 ≤ j < 64 →
  Z.testbit (Z.lor (Z.land b (as_i64 (Z.shiftr (2 ^ 64 - 1) e))) (shl_i 64 v (64 - e))) j
  = if 64 - e <=? j then Z.testbit v (j + e - 64) else Z.testbit b j.
Proof.
  intros He Hj. change (2 ^ 64 - 1) with (Z.ones 64).
  rewrite Z.lor_spec, Z.land_spec, tb_shl_i, tb_as_i, tb_shiftr, tb_ones by lia.
  rewrite (proj2 (Z.ltb_lt j 64)) by lia. destruct (Z.leb_spec (64 - e) j).
  - rewrite (proj2 (Z.ltb_ge (j + e) 64)) by lia. rewrite andb_false_r. cbn. f_equal. lia.
  - rewrite (proj2 (Z.ltb_lt (j + e) 64)), (tb_neg v) by lia. by rewrite andb_true_r, orb_false_r.
Qed.

(** [set] on the stream: the bits of the value, and nothing else. *)
Lemma set_stream m i v : p64_wf m → 0 ≤ i < value_count m → fits (bits_per_value m) v →
  let p0 := i * bits_per_value m in
  ∃ bs, set_impl m i v = Ok (with_blocks m bs) ∧ vlen bs = vlen (blocks m) ∧ Forall (is_i 64) bs ∧
    ∀ p, 0 ≤ p → sbit bs p =
      if (p0 <=? p) && (p <? p0 + bits_per_value m) then Z.testbit v (p0 + bits_per_value m - 1 - p)
      else sbit (blocks m) p.
Proof.
  intros Hm Hi Hv p0. unfold set_impl. rewrite locate_eq by done.
  destruct (place m i Hm Hi) as (Hp & Hr & Hk & Hk1). destruct Hm as (HB & Hvc & Hl & He & Hmask & _). fold p0 in Hp, Hr, Hk, Hk1 |- *.
  set (B := bits_per_value m) in *. set (k := p0 / 64) in *. set (e := p0 mod 64 + (B - 64)) in *. rewrite Hmask.
  assert (Hvi : is_i 64 v) by apply Hv. assert (Hwi : ∀ k, 0 ≤ k < vlen (blocks m) → is_i 64 (nthz (blocks m) k))
    by (intros; by apply nthz_Forall).
  destruct (Z.leb_spec e 0) as [Hle|Hgt].
  - rewrite vget_nthz by lia. cbn [mbind result_bind]. match goal with |- context [vset (blocks m) k ?x] => set (wd := x) end.
    destruct (vset_nthz (blocks m) k wd) as (bs & E & Hbl & Hbn); [lia|]. rewrite E. cbn [mbind result_bind].
    exists bs. split; [done|]. split; [done|]. split.
    { eapply vset_Forall; [exact E|done|]. unfold wd. auto 8 with ranges lia. }
    intros p Hpp. unfold sbit. rewrite Hbn by (apply Z.div_pos; lia).
    pose proof (Z.div_mod p 64 ltac:(lia)). pose proof (Z.mod_pos_bound p 64 ltac:(lia)).
    destruct (Z.eqb_spec (p / 64) k) as [Ek|Ek].
    + unfold wd. rewrite set_single_word by (done || lia). rewrite Ek.
      split_cmp; cbn [andb]; try done; try lia; f_equal; lia.
    + split_cmp; cbn [andb]; try done; lia.
  - specialize (Hk1 ltac:(lia)). rewrite vget_nthz by lia. cbn [mbind result_bind].
    match goal with |- context [vset (blocks m) k ?x] => set (w0 := x) end.
    destruct (vset_nthz (blocks m) k w0) as (b0 & E0 & Hbl0 & Hbn0); [lia|]. rewrite E0. cbn [mbind result_bind].
    rewrite vget_nthz by lia. cbn [mbind result_bind]. rewrite Hbn0 by lia.
    rewrite (proj2 (Z.eqb_neq (k + 1) k)) by lia. match goal with |- context [vset b0 (k + 1) ?x] => set (w1 := x) end.
    destruct (vset_nthz b0 (k + 1) w1) as (b1 & E1 & Hbl1 & Hbn1); [lia|]. rewrite E1. cbn [mbind result_bind].
    exists b1. split; [done|]. split; [lia|]. split.
    { eapply vset_Forall; [exact E1| |unfold w1; auto 8 with ranges lia].
      eapply vset_Forall; [exact E0|done|unfold w0; auto 8 with ranges lia]. }
    intros p Hpp. unfold sbit. assert (0 ≤ p / 64) by (apply Z.div_pos; lia). rewrite Hbn1, Hbn0 by done.
    pose proof (Z.div_mod p 64 ltac:(lia)). pose proof (Z.mod_pos_bound p 64 ltac:(lia)).
    destruct (Z.eqb_spec (p / 64) (k + 1)) as [Ek|Ek]; [|destruct (Z.eqb_spec (p / 64) k) as [Ek'|Ek']].
    + unfold w1. rewrite set_second_word by lia. rewrite Ek. split_cmp; cbn [andb]; try done; try lia; f_equal; lia.
    + unfold w0. rewrite (set_first_word B) by (done || lia). rewrite Ek'. split_cmp; cbn [andb]; try done; try lia; f_equal; lia.
    + split_cmp; cbn [andb]; try done; lia.
Qed.

Lemma p64_bits m : p64_wf m → get_bits_per_value m = bits_per_value m.
Proof. intros (HB & _). cbn. apply as_i_id; [lia|]. unfold is_i. lia. Qed.

Lemma p64_small m : p64_wf m → 0 ≤ size m < 2 ^ 31.
Proof. by intros (_ & ? & _). Qed.

Lemma p64_with_blocks m bs : p64_wf m → vlen bs = vlen (blocks m) → Forall (is_i 64) bs → p64_wf (with_blocks m bs).
Proof. intros (H1 & H2 & H3 & H4 & H5 & H6) Hl Hb. split_and!; cbn; try done; try lia. Qed.

(** New blocks whose stream differs in the values from [a] to [b]. *)
Lemma p64_updated m bs a b f : p64_wf m → vlen bs = vlen (blocks m) → Forall (is_i 64) bs →
  (∀ i, a ≤ i < b → fits (bits_per_value m) (f i)) →
  (∀ i j, 0 ≤ i → 0 ≤ j < bits_per_value m →
     sbit bs (i * bits_per_value m + (bits_per_value m - 1 - j)) =
     if (a <=? i) && (i <? b) then Z.testbit (f i) j
     else sbit (blocks m) (i * bits_per_value m + (bits_per_value m - 1 - j))) →
  updated p64_wf p64_val m (with_blocks m bs) (fun j => if (a <=? j) && (j <? b) then f j else p64_val m j).
Proof.
  intros Hm Hl Hb Hf Hbits. constructor; try done; [by apply p64_with_blocks|].
  intros i Hi. unfold p64_val. cbn [bits_per_value with_blocks blocks]. apply pget_update; try done; [|lia]. apply Hm.
Qed.

Lemma p64_sets m i v : p64_wf m → 0 ≤ i < value_count m → fits (bits_per_value m) v →
  ∃ m', set_impl m i v = Ok m' ∧ updated p64_wf p64_val m m' (fun j => if j =? i then v else p64_val m j).
Proof.
  intros Hm Hi Hv. destruct (set_stream m i v Hm Hi Hv) as (bs & -> & Hl & Hb & Hs).
  exists (with_blocks m bs). split; [done|].
  eapply updated_ext; [apply (p64_updated m bs i (i + 1) (fun _ => v)); try done|].
  - intros i' j Hi' Hj. destruct Hm as (HB & _). rewrite Hs by nia.
    destruct (Z.leb_spec i i'), (Z.ltb_spec i' (i + 1)); cbn [andb]; try lia.
    + assert (i' = i) as -> by lia. rewrite (proj2 (Z.leb_le _ _)), (proj2 (Z.ltb_lt _ _)) by lia. cbn. f_equal. lia.
    + rewrite (proj2 (Z.ltb_ge _ (i * bits_per_value m + bits_per_value m))) by nia. by rewrite andb_false_r.
    + rewrite (proj2 (Z.leb_gt (i * bits_per_value m) _)) by nia. done.
  - intros j Hj. cbn beta. destruct (Z.leb_spec i j), (Z.ltb_spec j (i + 1)), (Z.eqb_spec j i); done || lia.
Qed.

(** * The bulk operations *)

Lemma sbit_drop bs n p : 0 ≤ n → 0 ≤ p → sbit (drop (Z.to_nat n) bs) p = sbit bs (64 * n + p).
Proof.
  intros Hn Hp. pose proof (Z.div_mod p 64 ltac:(lia)). pose proof (Z.mod_pos_bound p 64 ltac:(lia)).
  rewrite (sbit_as bs _ (n + p / 64) (63 - p mod 64)) by lia. unfold sbit.
  by rewrite nthz_drop by (done || apply Z.div_pos; lia).
Qed.

Lemma sbit_vback bs n tl p : 0 ≤ n ≤ vlen bs → 0 ≤ p →
  sbit (vback bs n tl) p = if p <? 64 * n then sbit bs p else sbit tl (p - 64 * n).
Proof.
  intros Hn Hp. pose proof (Z.div_mod p 64 ltac:(lia)). pose proof (Z.mod_pos_bound p 64 ltac:(lia)).
  unfold sbit at 1. rewrite vback_nthz by (done || apply Z.div_pos; lia).
  destruct (Z.ltb_spec (p / 64) n), (Z.ltb_spec p (64 * n)); try lia; [done|].
  by rewrite (sbit_as tl _ (p / 64 - n) (63 - p mod 64)) by lia.
Qed.

Section bulk.
Context (B : Z) (op : BulkOperationPacked.t) (Hop : op_ok B op) (HB : 1 ≤ B ≤ 64).
Abbreviation lvc := (BulkOperationPacked.long_value_count op).
Abbreviation lbc := (BulkOperationPacked.long_block_count op).

(** Equal numbers have equal streams. *)
Lemma regrouped_bits n cnt (W ins : list Z) :
  Forall (is_u B) (map as_u64 W) → vlen W = cnt → vlen ins = n → B * cnt = 64 * n →
  be_value B (map as_u64 W) = be_value 64 (map as_u64 ins) →
  ∀ k j, 0 ≤ k < cnt → 0 ≤ j < B → Z.testbit (nthz W k) j = sbit ins (k * B + (B - 1 - j)).
Proof using HB.
  intros Hu HW Hins Hbits Hval k j Hk Hj. set (p := k * B + (B - 1 - j)).
  assert (Hp : 0 ≤ p < 64 * n) by (unfold p; nia).
  assert (H64 : Forall (is_u 64) (map as_u64 ins)).
  { apply List.Forall_forall. intros x Hx. apply in_map_iff in Hx as (y & <- & _). apply as_u_range. lia. }
  pose proof (be_value_testbit B (map as_u64 W) ltac:(lia) Hu k (B - 1 - j)) as H1.
  rewrite vlen_map, nthz_map, HW in H1 by lia.
  pose proof (be_value_testbit 64 (map as_u64 ins) ltac:(lia) H64 (p / 64) (p mod 64)) as H2.
  pose proof (Z.div_mod p 64 ltac:(lia)) as Hdm. pose proof (Z.mod_pos_bound p 64 ltac:(lia)) as Hmd.
  assert (0 ≤ p / 64 < n) by (split; [apply Z.div_pos; lia|apply Z.div_lt_upper_bound; lia]).
  rewrite vlen_map, nthz_map, Hins in H2 by lia. specialize (H1 ltac:(lia) ltac:(lia)). specialize (H2 ltac:(lia) Hmd).
  rewrite !tb_as_u in H1, H2 by lia. rewrite <- Hdm in H2.
  replace (B * cnt - 1 - (B * k + (B - 1 - j))) with (64 * n - 1 - p) in H1 by (unfold p; lia).
  rewrite Hval, H2 in H1. replace (B - 1 - (B - 1 - j)) with j in H1 by lia.
  rewrite (proj2 (Z.ltb_lt j 64)) in H1 by lia. rewrite (proj2 (Z.ltb_lt (64 - 1 - _) 64)) in H1 by lia.
  cbn [andb] in H1. symmetry. exact H1.
Qed.

Lemma sbit_take bs n p : 0 ≤ p < 64 * n → sbit (take (Z.to_nat n) bs) p = sbit bs p.
Proof using.
  intros Hp. unfold sbit. rewrite nthz_take; [done|].
  split; [apply Z.div_pos; lia|apply Z.div_lt_upper_bound; lia].
Qed.

Lemma bulk_decode bs os it : Forall (is_i 64) bs → 0 ≤ it → lbc * it ≤ vlen bs → lvc * it ≤ vlen os →
  ∃ os', BulkOperationPacked.decode_long_to_long op bs os it = Ok os' ∧
    bulk_read (pget B bs) 0 (lvc * it) os os'.
Proof using Hop HB.
  intros Hbs Hit Hlb Hlv. pose proof Hop as [_ Hlong _ (Hc1 & Hc2 & _ & _) _ _].
  destruct (decode_long_to_long_spec B op Hop HB bs os it Hit Hlb Hlv Hbs) as (W & -> & Hg & Hu & Hc & Hval).
  eexists. split; [done|]. split; [apply vlen_filled; lia|]. intros k Hk. rewrite nthz_filled, Hc by lia.
  destruct (Z.ltb_spec k (lvc * it)); [|done]. rewrite Z.add_0_l. symmetry. apply (pget_ext B HB); [lia| |].
  - pose proof (nthz_Forall _ _ k Hg ltac:(lia)) as Hi. split; [done|].
    pose proof (nthz_Forall _ _ k Hu ltac:(rewrite vlen_map; lia)) as [_ Hi2]. by rewrite nthz_map in Hi2 by lia.
  - intros j Hj. assert (0 ≤ k * B + (B - 1 - j) < 64 * (lbc * it)) by nia.
    rewrite <- (sbit_take bs (lbc * it)) by done. symmetry.
    apply (regrouped_bits (lbc * it) (lvc * it)); try done; try lia. apply vlen_take. nia.
Qed.

Lemma Forall_nthz (P : Z → Prop) (l : list Z) : (∀ k, 0 ≤ k < vlen l → P (nthz l k)) → Forall P l.
Proof using.
  intros Hall. apply Forall_lookup_2. intros q x Hq. pose proof (lookup_lt_Some _ _ _ Hq) as Hlt.
  specialize (Hall (Z.of_nat q)). unfold nthz, vlen in Hall. rewrite Nat2Z.id, Hq in Hall. apply Hall. lia.
Qed.

Lemma bulk_encode vs bs it : Forall (is_i 64) bs → 0 ≤ it → lbc * it ≤ vlen bs → lvc * it ≤ vlen vs →
  (∀ k, 0 ≤ k < lvc * it → fits B (nthz vs k)) →
  ∃ bs', BulkOperationPacked.encode_long_to_long op vs bs it = Ok bs' ∧ vlen bs' = vlen bs ∧ Forall (is_i 64) bs' ∧
    ∀ i j, 0 ≤ i → 0 ≤ j < B → sbit bs' (i * B + (B - 1 - j)) =
      if i <? lvc * it then Z.testbit (nthz vs i) j else sbit bs (i * B + (B - 1 - j)).
Proof using Hop HB.
  intros Hbs Hit Hlb Hlv Hfit. pose proof Hop as [_ Hlong _ (Hc1 & Hc2 & _ & _) _ _].
  assert (Hvl : vlen (take (Z.to_nat (lvc * it)) vs) = lvc * it) by (apply vlen_take; nia).
  assert (Hin : Forall (fits B) (take (Z.to_nat (lvc * it)) vs)).
  { apply Forall_nthz. intros k Hk. rewrite Hvl in Hk. rewrite nthz_take by done. by apply Hfit. }
  destruct (encode_long_to_long_spec B op Hop HB vs bs it Hit Hlv Hlb) as (W & -> & Hg & _ & Hc & Hval).
  { unfold inputs. eapply Forall_impl; [|exact Hin]. intros x [? ?]. split; [done|]. split; [apply as_u_range; lia|done]. }
  eexists. split; [done|]. split; [apply vlen_filled; lia|]. split; [by apply Forall_filled|].
  intros i j Hi Hj. assert (0 ≤ i * B + (B - 1 - j)) by nia.
  pose proof (Z.div_mod (i * B + (B - 1 - j)) 64 ltac:(lia)). pose proof (Z.mod_pos_bound (i * B + (B - 1 - j)) 64 ltac:(lia)).
  unfold sbit at 1. rewrite nthz_filled by (apply Z.div_pos; lia). rewrite Hc.
  destruct (Z.ltb_spec i (lvc * it)).
  - rewrite (proj2 (Z.ltb_lt _ _)) by (apply Z.div_lt_upper_bound; nia). fold (sbit W (i * B + (B - 1 - j))).
    rewrite <- (nthz_take vs (lvc * it) i) by lia. symmetry.
    apply (regrouped_bits (lbc * it) (lvc * it)); try done; try lia.
    apply List.Forall_forall. intros x Hx. apply in_map_iff in Hx as (y & <- & Hy). rewrite List.Forall_forall in Hin.
    split; [apply as_u_range; lia|]. by apply (Hin y).
  - rewrite (proj2 (Z.ltb_ge _ _)); [done|]. apply Z.div_le_lower_bound; nia.
Qed.
End bulk.

(** Where the bulk operation starts: at a whole number of blocks. *)
Lemma block_start B op idx : op_ok B op → 1 ≤ B ≤ 64 → 0 ≤ idx → idx mod BulkOperationPacked.long_value_count op = 0 →
  idx * B = 64 * Z.shiftr (idx * B) 6.
Proof.
  intros Hop HB Hi Hmod. pose proof Hop as [_ Hlong _ (Hc1 & Hc2 & _ & _) _ _].
  rewrite Z.shiftr_div_pow2 by lia. change (2 ^ 6) with 64. apply Z.div_exact; [lia|].
  apply Z.div_exact in Hmod; [|lia]. rewrite Hmod.
  replace (BulkOperationPacked.long_value_count op * (idx / BulkOperationPacked.long_value_count op) * B)
    with ((B * BulkOperationPacked.long_value_count op) * (idx / BulkOperationPacked.long_value_count op)) by lia.
  rewrite Hlong. rewrite <- Z.mul_assoc, Z.mul_comm. apply Z.mod_mul. lia.
Qed.

Lemma pget_drop B bs n idx k : 1 ≤ B ≤ 64 → 0 ≤ n → 0 ≤ idx → 0 ≤ k → idx * B = 64 * n →
  pget B (drop (Z.to_nat n) bs) k = pget B bs (idx + k).
Proof.
  intros HB Hn Hi Hk Hidx. apply pget_ext; [done|done|by apply pget_fits; lia|].
  intros j Hj. rewrite sbit_drop by nia. rewrite pget_testbit by lia. rewrite (proj2 (Z.ltb_lt j B)) by lia.
  cbn [andb]. f_equal. lia.
Qed.

Lemma p64_get_head m lvc i0 len idx output : p64_wf m → 0 < i0 < lvc → 0 ≤ len ≤ vlen output →
  0 ≤ idx → idx + len ≤ value_count m →
  ∃ n output', get_head m lvc i0 len idx 0 output = Ok (i0 + n, len - n, idx + n, n, output') ∧
    0 ≤ n ≤ len ∧ bulk_read (p64_val m) idx n output output' ∧ (i0 + n = lvc ∨ n = len) ∧ (0 < len → 0 < n).
Proof.
  intros Hm Hi0 Hlen Hidx Hvc. unfold get_head.
  destruct (while_fuel_inv (fun '(i, l, ix, o, out) => ∃ n, i = i0 + n ∧ l = len - n ∧ ix = idx + n ∧ o = n ∧
      0 ≤ n ≤ len ∧ i0 + n ≤ lvc ∧ bulk_read (p64_val m) idx n output out)
    (fun '(_, l, _, _, _) => Z.to_nat l) (fun '(i, l, _, _, _) => (i <? lvc) && (0 <? l))
    (fun '(i, len, index, off, output) =>
      v ← get_impl m index; output ← vset output off v; Ok (i + 1, len - 1, index + 1, off + 1, output)))
    with (fuel := Z.to_nat len) (s := (i0, len, idx, 0, output))
    as ([[[[i l] ix] o] out] & -> & (n & -> & -> & -> & -> & Hn & Hlvc & Hr) & Hc).
  - intros [[[[i l] ix] o] out] (n & -> & -> & -> & -> & Hn & Hlvc & Hr) [H1%Z.ltb_lt H2%Z.ltb_lt]%andb_true_iff.
    rewrite p64_gets by (done || lia). cbn [mbind result_bind]. pose proof (proj1 Hr).
    destruct (vset_nthz out n (p64_val m (idx + n))) as (out' & E & _); [lia|]. rewrite E. cbn [mbind result_bind].
    eexists. split; [done|]. split; [|lia]. exists (n + 1). split_and!; try lia. by apply (bulk_read_one _ _ _ _ out); [lia|..].
  - exists 0. split_and!; try lia. apply bulk_read_0.
  - lia.
  - exists n, out. split; [done|]. split; [lia|]. split; [done|].
    apply andb_false_iff in Hc as [Hc%Z.ltb_ge|Hc%Z.ltb_ge]; lia.
Qed.

Lemma bulk_op B : 1 ≤ B ≤ 64 → ∃ op, BulkOperation.bulk_operation_of Packed B = Ok (BulkOperation.OpPacked op) ∧ op_ok B op.
Proof.
  intros HB. destruct (new_ok B HB) as (op & Hnew & Hop). exists op. split; [|done].
  unfold BulkOperation.bulk_operation_of. by rewrite Hnew.
Qed.

(** The second part of [bulk_get], from a boundary on. *)
Lemma p64_get_blocks m op idx len os : p64_wf m → op_ok (bits_per_value m) op →
  0 ≤ idx → idx + len ≤ value_count m → 0 ≤ len ≤ vlen os → idx mod BulkOperationPacked.long_value_count op = 0 →
  let it := len / BulkOperationPacked.long_value_count op in
  let bi := Z.shiftr (idx * bits_per_value m) 6 in
  0 ≤ bi ≤ vlen (blocks m) ∧ 0 ≤ it * BulkOperationPacked.long_value_count op ≤ len ∧
  ∃ os', BulkOperationPacked.decode_long_to_long op (drop (Z.to_nat bi) (blocks m)) os it = Ok os' ∧
    bulk_read (p64_val m) idx (it * BulkOperationPacked.long_value_count op) os os'.
Proof.
  intros Hm Hop Hidx Hvc Hlen Hmod it bi. pose proof Hop as [_ Hlong _ (Hc1 & Hc2 & _ & _) _ _].
  pose proof Hm as (HB & Hs & Hbl & He & _). pose proof (block_start _ op idx Hop HB Hidx Hmod) as Hbi. fold bi in Hbi.
  set (lvc := BulkOperationPacked.long_value_count op) in *. set (lbc := BulkOperationPacked.long_block_count op) in *.
  assert (Hit : 0 ≤ it) by (apply Z.div_pos; lia). assert (Hgot : it * lvc ≤ len) by (unfold it; rewrite Z.mul_comm; apply Z.mul_div_le; lia).
  assert (Hb2 : 64 * (bi + lbc * it) ≤ 64 * vlen (blocks m)).
  { replace (64 * (bi + lbc * it)) with (idx * bits_per_value m + bits_per_value m * lvc * it) by lia. nia. }
  assert (0 ≤ bi) by nia. split; [nia|]. split; [nia|].
  destruct (bulk_decode (bits_per_value m) op Hop HB (drop (Z.to_nat bi) (blocks m)) os it) as (os' & -> & Hr).
  - by apply Forall_drop.
  - done.
  - rewrite vlen_drop by nia. fold lbc. nia.
  - fold lvc. lia.
  - exists os'. split; [done|]. fold lvc in Hr. replace (it * lvc) with (lvc * it) by lia.
    eapply bulk_read_ext; [|exact Hr]. intros k Hk. rewrite Z.add_0_l. apply pget_drop; done || lia.
Qed.

Lemma p64_bulk_get m i output len : p64_wf m → 0 ≤ i < value_count m → 1 ≤ len ≤ vlen output →
  ∃ n output', bulk_get_impl m i output len = Ok (n, output') ∧ 1 ≤ n ≤ len ∧ i + n ≤ value_count m ∧
    bulk_read (p64_val m) i n output output'.
Proof.
  intros Hm Hi Hlen. pose proof Hm as (HB & Hs & _). unfold bulk_get_impl.
  rewrite as_u_id by (unfold is_u; lia). set (l0 := Z.min len (value_count m - i)).
  destruct (bulk_op _ HB) as (op & -> & Hop). cbn [mbind result_bind BulkOperation.long_value_count].
  pose proof Hop as [_ _ _ (Hc1 & _) _ _]. set (lvc := BulkOperationPacked.long_value_count op) in *.
  assert (Hhead : ∃ ii n out1, (if i mod lvc =? 0 then Ok (0, l0, i, 0, output)
      else get_head m lvc (i mod lvc) l0 i 0 output) = Ok (ii, l0 - n, i + n, n, out1) ∧ 0 ≤ n ≤ l0 ∧
      bulk_read (p64_val m) i n output out1 ∧ ((i + n) mod lvc = 0 ∨ n = l0) ∧ (i mod lvc ≠ 0 → 0 < n) ∧ (i mod lvc = 0 → n = 0)).
  { pose proof (Z.mod_pos_bound i lvc Hc1). destruct (Z.eqb_spec (i mod lvc) 0) as [E|E].
    - exists 0, 0, output. rewrite Z.sub_0_r, Z.add_0_r. split_and!; try done; try lia. apply bulk_read_0.
    - destruct (p64_get_head m lvc (i mod lvc) l0 i output) as (n & out & -> & Hn & Hr & Hor & Hpos); try done; try lia.
      exists (i mod lvc + n), n, out. split_and!; try done; try lia. destruct Hor as [Hor|Hor]; [|by right]. left.
      replace (i + n) with ((i / lvc + 1) * lvc) by (pose proof (Z.div_mod i lvc ltac:(lia)); lia). apply Z.mod_mul. lia. }
  destruct Hhead as (ii & n & out1 & -> & Hn & Hr & Hal & Hpos & Hz). cbn [mbind result_bind].
  destruct (negb (i mod lvc =? 0) && (l0 - n =? 0)) eqn:Eend.
  { apply andb_true_iff in Eend as [_ Eend%Z.eqb_eq]. replace (i + n - i) with n by lia. exists n, out1.
    split; [done|]. split_and!; try lia; apply Hr. }
  assert (Hmore : n < l0).
  { apply andb_false_iff in Eend as [Eend%negb_false_iff%Z.eqb_eq|Eend%Z.eqb_neq]; [rewrite Hz by done|]; lia. }
  assert (Hal' : (i + n) mod lvc = 0) by (destruct Hal; [done|lia]).
  assert (Hl1 : vlen out1 = vlen output) by apply Hr.
  destruct (p64_get_blocks m op (i + n) (l0 - n) (drop (Z.to_nat n) out1) Hm Hop) as (Hbi & Hgot & os & Hdec & Hros);
    try done; try lia.
  { rewrite vlen_drop by lia. lia. }
  fold lvc in Hgot, Hdec, Hros. set (it := (l0 - n) / lvc) in *.
  rewrite (vfrom_in (blocks m)), (vfrom_in out1) by lia. cbn [mbind result_bind BulkOperation.decode_long_to_long].
  rewrite Hdec. cbn [mbind result_bind].
  assert (Hn2 : 0 ≤ n ≤ vlen output) by lia.
  pose proof (bulk_read_append _ _ _ _ _ _ _ Hn2 Hr Hros (proj1 Hgot)) as Hr2.
  destruct (Z.ltb_spec i (i + n + it * lvc)).
  - replace (i + n + it * lvc - i) with (n + it * lvc) by lia. eexists _, _. split; [reflexivity|]. split_and!; try lia; apply Hr2.
  - assert (n = 0) as -> by lia. assert (it * lvc = 0) as E0 by lia. rewrite E0, !Z.add_0_r, !Z.sub_0_r in *.
    rewrite vfrom_in by (split; [lia|apply vlen_nonneg]). cbn [mbind result_bind]. change (Z.to_nat 0) with 0%nat.
    rewrite drop_0. pose proof (proj1 Hr2).
    destruct (reader_bulk_get_spec p64_wf p64_val get_impl p64_small p64_gets m i (vback out1 0 os) l0)
      as (n' & out' & Hrun & Hn' & Hsz & Hr'); try done; try lia. cbn in Hrun. rewrite Hrun. cbn [mbind result_bind].
    exists n', out'. split; [done|]. pose proof (proj1 Hr'). cbn in Hsz. split_and!; try lia. split; [lia|].
    intros k Hk. rewrite (proj2 Hr') by lia. destruct (k <? n'); [done|]. rewrite (proj2 Hr2) by lia.
    by rewrite (proj2 (Z.ltb_ge k 0)) by lia.
Qed.

(** * Bulk writes *)

Lemma p64_fits m v : p64_wf m → fits (get_bits_per_value m) v ↔ fits (bits_per_value m) v.
Proof. intros Hm. by rewrite p64_bits. Qed.

Lemma p64_sets_law m i v : p64_wf m → 0 ≤ i < size m → fits (get_bits_per_value m) v →
  ∃ m', set_impl m i v = Ok m' ∧ updated p64_wf p64_val m m' (fun j => if j =? i then v else p64_val m j).
Proof. intros Hm Hi Hv%p64_fits; [|done]. by apply p64_sets. Qed.

Lemma up_bpv m m' f : updated p64_wf p64_val m m' f → p64_wf m → bits_per_value m' = bits_per_value m.
Proof. intros [H1 _ H2 _] Hm. rewrite <- !p64_bits by done. done. Qed.

Lemma p64_set_head m arr lvc i0 len idx off : p64_wf m → 0 < i0 < lvc → 0 ≤ len → 0 ≤ off → off + len ≤ vlen arr →
  0 ≤ idx → idx + len ≤ value_count m → (∀ k, 0 ≤ k < len → fits (bits_per_value m) (nthz arr (off + k))) →
  ∃ n m', set_head m arr lvc i0 len idx off = Ok (i0 + n, len - n, idx + n, off + n, m') ∧
    0 ≤ n ≤ len ∧ updated p64_wf p64_val m m' (written_from arr off idx n (p64_val m)) ∧
    (i0 + n = lvc ∨ n = len) ∧ (0 < len → 0 < n).
Proof.
  intros Hm Hi0 Hlen Hoff Harr Hidx Hvc Hfit. unfold set_head.
  destruct (while_fuel_inv (fun '(i, l, ix, o, m') => ∃ n, i = i0 + n ∧ l = len - n ∧ ix = idx + n ∧ o = off + n ∧
      0 ≤ n ≤ len ∧ i0 + n ≤ lvc ∧ updated p64_wf p64_val m m' (written_from arr off idx n (p64_val m)))
    (fun '(_, l, _, _, _) => Z.to_nat l) (fun '(i, l, _, _, _) => (i <? lvc) && (0 <? l))
    (fun '(i, len, index, off, m) =>
      v ← vget arr off; m ← set_impl m index v; Ok (i + 1, len - 1, index + 1, off + 1, m)))
    with (fuel := Z.to_nat len) (s := (i0, len, idx, off, m))
    as ([[[[i l] ix] o] m'] & -> & (n & -> & -> & -> & -> & Hn & Hlvc & Hup) & Hc).
  - intros [[[[i l] ix] o] m'] (n & -> & -> & -> & -> & Hn & Hlvc & Hup) [H1%Z.ltb_lt H2%Z.ltb_lt]%andb_true_iff.
    rewrite vget_nthz by lia. cbn [mbind result_bind]. pose proof Hup as [Hw Hsz Hb Hv]. cbn in Hsz.
    destruct (p64_sets m' (idx + n) (nthz arr (off + n))) as (m2 & -> & Hup2); [done|lia| |].
    { rewrite (up_bpv m m' _ Hup Hm). apply Hfit. lia. }
    cbn [mbind result_bind]. eexists. split; [done|]. split; [|lia]. exists (n + 1). split_and!; try lia.
    eapply updated_ext; [by eapply updated_trans|]. intros j Hj. cbn beta. rewrite Hv by done.
    rewrite <- (written_append arr off idx n 1) by lia. unfold written_from at 2.
    destruct (Z.eqb_spec j (idx + n)) as [->|].
    + rewrite (proj2 (Z.leb_le _ _)), (proj2 (Z.ltb_lt _ _)) by lia. cbn. f_equal. lia.
    + destruct (Z.leb_spec (idx + n) j), (Z.ltb_spec j (idx + n + 1)); cbn; done || lia.
  - exists 0. split_and!; try lia. eapply updated_ext; [by apply updated_refl|]. intros j _. by rewrite written_0.
  - lia.
  - exists n, m'. split; [done|]. split; [lia|]. split; [done|].
    apply andb_false_iff in Hc as [Hc%Z.ltb_ge|Hc%Z.ltb_ge]; lia.
Qed.

Lemma p64_set_blocks m op idx len vs : p64_wf m → op_ok (bits_per_value m) op →
  0 ≤ idx → idx + len ≤ value_count m → 0 ≤ len ≤ vlen vs → idx mod BulkOperationPacked.long_value_count op = 0 →
  (∀ k, 0 ≤ k < len → fits (bits_per_value m) (nthz vs k)) →
  let it := len / BulkOperationPacked.long_value_count op in
  let bi := Z.shiftr (idx * bits_per_value m) 6 in
  0 ≤ bi ≤ vlen (blocks m) ∧ 0 ≤ it * BulkOperationPacked.long_value_count op ≤ len ∧
  ∃ bs, BulkOperationPacked.encode_long_to_long op vs (drop (Z.to_nat bi) (blocks m)) it = Ok bs ∧
    updated p64_wf p64_val m (with_blocks m (vback (blocks m) bi bs))
      (written_from vs 0 idx (it * BulkOperationPacked.long_value_count op) (p64_val m)).
Proof.
  intros Hm Hop Hidx Hvc Hlen Hmod Hfit it bi. pose proof Hop as [_ Hlong _ (Hc1 & Hc2 & _ & _) _ _].
  pose proof Hm as (HB & Hs & Hbl & He & _). pose proof (block_start _ op idx Hop HB Hidx Hmod) as Hbi. fold bi in Hbi.
  set (lvc := BulkOperationPacked.long_value_count op) in *. set (lbc := BulkOperationPacked.long_block_count op) in *.
  assert (Hit : 0 ≤ it) by (apply Z.div_pos; lia). assert (Hgot : it * lvc ≤ len) by (unfold it; rewrite Z.mul_comm; apply Z.mul_div_le; lia).
  assert (Hb2 : 64 * (bi + lbc * it) ≤ 64 * vlen (blocks m)).
  { replace (64 * (bi + lbc * it)) with (idx * bits_per_value m + bits_per_value m * lvc * it) by lia. nia. }
  assert (0 ≤ bi) by nia. assert (bi ≤ vlen (blocks m)) by nia. split; [lia|]. split; [nia|].
  destruct (bulk_encode (bits_per_value m) op Hop HB vs (drop (Z.to_nat bi) (blocks m)) it) as (bs & -> & Hl & Hb & Hbits).
  - by apply Forall_drop.
  - done.
  - rewrite vlen_drop by lia. fold lbc. nia.
  - fold lvc. lia.
  - fold lvc. intros k Hk. apply Hfit. lia.
  - exists bs. split; [done|]. rewrite vlen_drop in Hl by lia.
    apply (updated_ext _ _ _ _ (fun j => if (idx <=? j) && (j <? idx + it * lvc) then nthz vs (j - idx) else p64_val m j)).
    2:{ intros j _. unfold written_from. by rewrite Z.add_0_l. }
    apply p64_updated; [done|apply vback_vlen; lia| | |].
    + unfold vback. apply Forall_app. split; [by apply Forall_take|done].
    + intros i Hi. apply Hfit. lia.
    + intros i j Hi Hj. rewrite sbit_vback by nia. destruct (Z.leb_spec idx i); cbn [andb].
      * rewrite (proj2 (Z.ltb_ge _ _)) by nia.
        replace (i * bits_per_value m + (bits_per_value m - 1 - j) - 64 * bi)
          with ((i - idx) * bits_per_value m + (bits_per_value m - 1 - j)) by lia.
        rewrite Hbits by lia. fold lvc. destruct (Z.ltb_spec (i - idx) (lvc * it)), (Z.ltb_spec i (idx + it * lvc)); try lia; [done|].
        rewrite sbit_drop by nia. f_equal. lia.
      * by rewrite (proj2 (Z.ltb_lt _ _)) by nia.
Qed.

Lemma p64_bulk_set m i arr off len : p64_wf m → 0 ≤ i < value_count m → 0 ≤ off → 1 ≤ len → off + len ≤ vlen arr →
  (∀ k, 0 ≤ k < len → fits (bits_per_value m) (nthz arr (off + k))) →
  ∃ n m', bulk_set_impl m i arr off len = Ok (n, m') ∧ 1 ≤ n ≤ len ∧ i + n ≤ value_count m ∧
    updated p64_wf p64_val m m' (written_from arr off i n (p64_val m)).
Proof.
  intros Hm Hi Hoff Hlen Harr Hfit. pose proof Hm as (HB & Hs & _). unfold bulk_set_impl.
  rewrite as_u_id by (unfold is_u; lia). set (l0 := Z.min len (value_count m - i)).
  destruct (bulk_op _ HB) as (op & -> & Hop). cbn [mbind result_bind BulkOperation.long_value_count].
  pose proof Hop as [_ _ _ (Hc1 & _) _ _]. set (lvc := BulkOperationPacked.long_value_count op) in *.
  assert (Hhead : ∃ ii n m1, (if i mod lvc =? 0 then Ok (0, l0, i, off, m)
      else set_head m arr lvc (i mod lvc) l0 i off) = Ok (ii, l0 - n, i + n, off + n, m1) ∧ 0 ≤ n ≤ l0 ∧
      updated p64_wf p64_val m m1 (written_from arr off i n (p64_val m)) ∧
      ((i + n) mod lvc = 0 ∨ n = l0) ∧ (i mod lvc ≠ 0 → 0 < n) ∧ (i mod lvc = 0 → n = 0)).
  { pose proof (Z.mod_pos_bound i lvc Hc1). destruct (Z.eqb_spec (i mod lvc) 0) as [E|E].
    - exists 0, 0, m. rewrite Z.sub_0_r, !Z.add_0_r. split_and!; try done; try lia.
      eapply updated_ext; [by apply updated_refl|]. intros j _. by rewrite written_0.
    - destruct (p64_set_head m arr lvc (i mod lvc) l0 i off) as (n & m1 & -> & Hn & Hup & Hor & Hpos); try done; try lia.
      { intros k Hk. apply Hfit. lia. }
      exists (i mod lvc + n), n, m1. split_and!; try done; try lia. destruct Hor as [Hor|Hor]; [|by right]. left.
      replace (i + n) with ((i / lvc + 1) * lvc) by (pose proof (Z.div_mod i lvc ltac:(lia)); lia). apply Z.mod_mul. lia. }
  destruct Hhead as (ii & n & m1 & -> & Hn & Hup & Hal & Hpos & Hz). cbn [mbind result_bind].
  destruct (negb (i mod lvc =? 0) && (l0 - n =? 0)) eqn:Eend.
  { apply andb_true_iff in Eend as [_ Eend%Z.eqb_eq]. replace (i + n - i) with n by lia. exists n, m1.
    split; [done|]. split_and!; try lia. done. }
  assert (Hmore : n < l0).
  { apply andb_false_iff in Eend as [Eend%negb_false_iff%Z.eqb_eq|Eend%Z.eqb_neq]; [rewrite Hz by done|]; lia. }
  assert (Hal' : (i + n) mod lvc = 0) by (destruct Hal; [done|lia]).
  pose proof (up_bpv _ _ _ Hup Hm) as Hbpv. pose proof Hup as [Hm1 Hsz1 _ Hv1]. cbn in Hsz1. rewrite <- Hbpv in Hfit, Hop.
  destruct (p64_set_blocks m1 op (i + n) (l0 - n) (drop (Z.to_nat (off + n)) arr) Hm1 Hop) as (Hbi & Hgot & bs & Henc & Hup2);
    try done; try lia.
  { rewrite vlen_drop by lia. lia. }
  { intros k Hk. rewrite nthz_drop by lia. rewrite <- Z.add_assoc. apply Hfit. lia. }
  fold lvc in Hgot, Henc, Hup2. set (it := (l0 - n) / lvc) in *.
  rewrite (vfrom_in arr), (vfrom_in (blocks m1)) by lia. cbn [mbind result_bind BulkOperation.encode_long_to_long].
  rewrite Henc. cbn [mbind result_bind]. set (m2 := with_blocks m1 _) in *.
  assert (Hup3 : updated p64_wf p64_val m m2 (written_from arr off i (n + it * lvc) (p64_val m))).
  { eapply updated_ext; [by eapply updated_trans|]. intros j Hj. rewrite <- written_append by lia.
    transitivity (written_from arr (off + n) (i + n) (it * lvc) (p64_val m1) j); [|by apply written_cong, Hv1].
    apply written_drop; lia. }
  destruct (Z.ltb_spec i (i + n + it * lvc)).
  - replace (i + n + it * lvc - i) with (n + it * lvc) by lia. eexists _, _. split; [reflexivity|]. split_and!; try lia. done.
  - assert (n = 0) as -> by lia. assert (it * lvc = 0) as E0 by lia. rewrite E0, !Z.add_0_r, !Z.sub_0_r in *.
    pose proof Hup3 as [Hm2 Hsz2 Hb2 Hv2]. cbn in Hsz2.
    destruct (mutable_bulk_set_spec p64_wf p64_val set_impl p64_small p64_sets_law m2 i arr off l0)
      as (n' & m' & Hrun & Hn' & Hsz & Hup'); try done; try (cbn; lia).
    { intros k Hk. rewrite p64_bits by done. change (bits_per_value m2) with (bits_per_value m1). apply Hfit. lia. }
    exists n', m'. cbn in Hsz. rewrite Hsz2 in Hsz. split; [exact Hrun|]. split_and!; try lia.
    eapply updated_ext; [by eapply updated_trans|]. intros j Hj. fold (written_from arr off i n' (p64_val m2) j).
    apply written_cong. rewrite Hv2 by done. by rewrite written_0.
Qed.

(** * [new], [clear] and [fill] *)

Lemma long_count_eq n B : 0 ≤ n → 1 ≤ B ≤ 64 → n * B + 7 < 2 ^ 31 →
  Formats.long_count Packed (as_i32 n) (as_i32 B) = ((n * B + 7) / 8 + 7) / 8.
Proof.
  intros Hn HB Hs. unfold Formats.long_count, Formats.byte_count.
  rewrite !(as_i_id 32 n), !(as_i_id 32 B) by (unfold is_i; nia). rewrite (as_i_id 32 (n * B)) by (unfold is_i; nia).
  rewrite (as_i_id 32 (n * B + 7)) by (unfold is_i; nia).
  rewrite (Z.quot_div_nonneg (n * B + 7) 8) by nia. assert (0 ≤ (n * B + 7) / 8) by (apply Z.div_pos; nia).
  rewrite (Z.quot_div_nonneg ((n * B + 7) / 8 + 7) 8) by lia.
  apply as_i_id; [lia|]. assert (0 ≤ (n * B + 7) / 8 < 2 ^ 30) by (split; [apply Z.div_pos; nia|apply Z.div_lt_upper_bound; nia]).
  assert (0 ≤ ((n * B + 7) / 8 + 7) / 8 < 2 ^ 30) by (split; [apply Z.div_pos; lia|apply Z.div_lt_upper_bound; lia]).
  unfold is_i. lia.
Qed.

Lemma long_count_bound n B : 0 ≤ n → 1 ≤ B ≤ 64 → n * B + 7 < 2 ^ 31 →
  let c := as_u64 (Formats.long_count Packed (as_i32 n) (as_i32 B)) in
  c = ((n * B + 7) / 8 + 7) / 8 ∧ n * B ≤ 64 * c < n * B + 64 ∧ 0 ≤ c.
Proof.
  intros Hn HB Hs c. unfold c. rewrite long_count_eq by done. assert (0 ≤ n * B) by nia. set (q := n * B) in *.
  assert (0 ≤ ((q + 7) / 8 + 7) / 8 < 2 ^ 30).
  { split; [apply Z.div_pos; [|lia]; apply Z.add_nonneg_nonneg; [apply Z.div_pos|]; lia|].
    apply Z.div_lt_upper_bound; [lia|]. assert ((q + 7) / 8 < 2 ^ 30) by (apply Z.div_lt_upper_bound; lia). lia. }
  rewrite as_u_id by (unfold is_u; lia). split; [done|]. split; [|lia].
  pose proof (Z.div_mod (q + 7) 8 ltac:(lia)). pose proof (Z.mod_pos_bound (q + 7) 8 ltac:(lia)).
  pose proof (Z.div_mod ((q + 7) / 8 + 7) 8 ltac:(lia)). pose proof (Z.mod_pos_bound ((q + 7) / 8 + 7) 8 ltac:(lia)). lia.
Qed.

(** Beyond 2^32 bits the count is that of the bits above. *)
Lemma wrapped_blocks n B : 1 ≤ B ≤ 64 → 0 ≤ n < 2 ^ 31 → 2 ^ 32 ≤ n * B → n * B + 7 < 2 ^ 32 + 2 ^ 31 →
  vlen (blocks (new n B)) = (n * B - 2 ^ 32 + 63) / 64.
Proof.
  intros HB Hn Hlo Hhi. unfold new. cbn [blocks]. unfold Formats.long_count, Formats.byte_count.
  rewrite !(as_i_id 32 n), !(as_i_id 32 B) by (unfold is_i; lia).
  assert (as_i32 (n * B) = n * B - 2 ^ 32) as E.
  { rewrite <- (as_i_id 32 (n * B - 2 ^ 32)) by (unfold is_i; lia). apply as_i_congr. replace (n * B) with (n * B - 2 ^ 32 + 1 * 2 ^ 32) at 1 by lia. apply Z.mod_add. lia. }
  rewrite E. set (q := n * B - 2 ^ 32) in *. rewrite (as_i_id 32 (q + 7)) by (unfold is_i; lia).
  rewrite (Z.quot_div_nonneg (q + 7) 8) by lia. assert (0 ≤ (q + 7) / 8 < 2 ^ 28) by (split; [apply Z.div_pos|apply Z.div_lt_upper_bound]; lia).
  rewrite (Z.quot_div_nonneg ((q + 7) / 8 + 7) 8) by lia. assert (((q + 7) / 8 + 7) / 8 = (q + 63) / 64) as ->.
  { replace ((q + 7) / 8 + 7) with ((q + 7 + 7 * 8) / 8) by (rewrite Z.div_add; lia). rewrite Z.div_div by lia. f_equal; lia. }
  assert (0 ≤ (q + 63) / 64 < 2 ^ 30) by (split; [apply Z.div_pos|apply Z.div_lt_upper_bound]; lia).
  rewrite as_i_id, as_u_id by (unfold is_i, is_u; lia). by rewrite vlen_replicate by lia.
Qed.

Lemma vget_beyond {A} (l : list A) i : vlen l ≤ i → vget l i = Panic.
Proof.
  intros Hi. unfold vget. case_decide; [|done]. destruct (l !! _) eqn:E; [|done]. apply lookup_lt_Some in E. unfold vlen in Hi. lia.
Qed.

(** A value that does not end within the blocks. *)
Lemma p64_beyond m j v : bits_per_value m ≤ 64 → bpv_minus_block_size m = bits_per_value m - 64 → 0 ≤ j * bits_per_value m < 2 ^ 63 →
  64 * vlen (blocks m) < (j + 1) * bits_per_value m → get_impl m j = Panic ∧ set_impl m j v = Panic.
Proof.
  intros HB Hbs Hj Hb. unfold get_impl, set_impl, locate. rewrite (as_u_id 64 (j * bits_per_value m)) by (unfold is_u; lia).
  rewrite (as_i_id 64 (j * bits_per_value m)) by (unfold is_i; lia). rewrite Z.shiftr_div_pow2, Hbs by lia. change (2 ^ 6) with 64.
  change 63 with (Z.ones 6). rewrite Z.land_ones by lia. change (2 ^ 6) with 64. set (p := j * bits_per_value m) in *.
  pose proof (Z.div_mod p 64 ltac:(lia)). pose proof (Z.mod_pos_bound p 64 ltac:(lia)). assert (0 ≤ p / 64) by (apply Z.div_pos; lia).
  assert (64 * vlen (blocks m) < p + bits_per_value m) as Hb' by (unfold p; lia).
  destruct (Z.le_gt_cases (vlen (blocks m)) (p / 64)); [rewrite vget_beyond by done; by destruct (_ <=? 0)|].
  rewrite (proj2 (Z.leb_gt _ 0)) by lia. rewrite (vget_nthz (blocks m) (p / 64)) by lia. cbn [mbind result_bind]. rewrite (vget_beyond (blocks m) (p / 64 + 1)) by lia. split; [done|].
  destruct (vset_nthz (blocks m) (p / 64) (Z.lor (Z.land (nthz (blocks m) (p / 64)) (as_i64 (Z.lxor (Z.shiftr (as_u64 (mask_right m)) (p mod 64 + (bits_per_value m - 64))) (2 ^ 64 - 1)))) (unsigned_shift 64 v (p mod 64 + (bits_per_value m - 64))))) as (bs & -> & Hl & _); [lia|].
  cbn [mbind result_bind]. by rewrite vget_beyond by lia.
Qed.

Lemma pget_zeros B n i : 1 ≤ B ≤ 64 → 0 ≤ i → pget B (replicate n 0) i = 0.
Proof.
  intros HB Hi. apply pget_ext; [done|done|apply fits_0; lia|]. intros j Hj. rewrite Z.bits_0.
  unfold sbit. assert (nthz (replicate n 0) ((i * B + (B - 1 - j)) / 64) = 0) as ->; [|by rewrite Z.bits_0].
  unfold nthz. destruct (replicate n 0 !! _) as [x|] eqn:E; [|done]. by apply lookup_replicate in E as [-> _].
Qed.

Lemma p64_new n B : 0 ≤ n → 1 ≤ B ≤ 64 → n * B + 7 < 2 ^ 31 →
  p64_wf (new n B) ∧ ∀ j, 0 ≤ j → p64_val (new n B) j = 0.
Proof.
  intros Hn HB Hs. destruct (long_count_bound n B Hn HB Hs) as (_ & Hc & Hc0). split.
  - split_and!; unfold new; cbn [value_count bits_per_value blocks mask_right bpv_minus_block_size]; try lia; try done; try nia.
    + rewrite vlen_replicate by done. lia.
    + apply Forall_replicate. done.
    + by apply mask_right_eq.
  - intros j Hj. unfold p64_val. cbn. by apply pget_zeros.
Qed.

Lemma p64_clear m : p64_wf m → ∃ m', clear_impl m = Ok m' ∧ updated p64_wf p64_val m m' (fun _ => 0).
Proof.
  intros Hm. unfold clear_impl.
  destruct (for_range_inv (fun i bs => vlen bs = vlen (blocks m) ∧ Forall (is_i 64) bs ∧
     ∀ k, 0 ≤ k < i → nthz bs k = 0) (fun i bs => vset bs i 0) 0 (vlen (blocks m)) (blocks m)) as (bs & -> & Hl & Hb & Hz).
  - apply vlen_nonneg.
  - split_and!; try done; try (intros; lia). apply Hm.
  - intros i bs Hi (Hl & Hb & Hz). destruct (vset_nthz bs i 0) as (bs' & E & Hl' & Hn'); [lia|].
    exists bs'. split; [done|]. split_and!; [lia|by eapply vset_Forall|]. intros k Hk. rewrite Hn' by lia.
    destruct (Z.eqb_spec k i); [done|]. apply Hz. lia.
  - cbn [mbind result_bind]. exists (with_blocks m bs). split; [done|]. constructor; try done; [by apply p64_with_blocks|].
    intros j Hj. destruct Hm as (HB & Hvc & Hbl & _). unfold p64_val. cbn in *. apply pget_ext; [done|lia|apply fits_0; lia|].
    intros b Hbb. unfold sbit. rewrite Z.bits_0, Hz; [by rewrite Z.bits_0|].
    split; [apply Z.div_pos; nia|apply Z.div_lt_upper_bound; nia].
Qed.

(** The number of values that fill whole blocks. *)
Lemma gcd_64 B : 1 ≤ B ≤ 64 → ∃ g, gcd 100 64 (as_i32 B) = Ok g ∧ 1 ≤ g ∧ 64 = 64 / g * g ∧ 64 / g * B = 64 * (B / g) ∧ 1 ≤ B / g.
Proof.
  intros HB. rewrite as_i_id by (unfold is_i; lia).
  assert (Hall : forallb (fun B => match gcd 100 64 B with
      | Ok g => (1 <=? g) && (64 =? 64 / g * g) && (64 / g * B =? 64 * (B / g)) && (1 <=? B / g) | _ => false end) (seqZ 1 64) = true)
    by (vm_compute; reflexivity).
  rewrite forallb_forall in Hall. specialize (Hall B ltac:(apply list_elem_of_In, elem_of_seqZ; lia)).
  destruct (gcd 100 64 B) as [g| | |]; try discriminate Hall. exists g. split; [done|].
  rewrite !andb_true_iff, !Z.eqb_eq, !Z.leb_le in Hall. tauto.
Qed.

(** A stream filled with one value, in the blocks from [sb] to [eb]. *)
Lemma fill_blocks_bits B n ab (pat bs bs' : list Z) v sb eb :
  1 ≤ B ≤ 64 → 0 < n → n * B = 64 * ab → fits B v → 0 ≤ sb →
  (∀ i, 0 ≤ i < n → pget B pat i = v) →
  (∀ k, 0 ≤ k → nthz bs' k = if (sb <=? k) && (k <? eb) then nthz pat (k mod ab) else nthz bs k) →
  ∀ i j, 0 ≤ i → 0 ≤ j < B → let p := i * B + (B - 1 - j) in
  sbit bs' p = if (64 * sb <=? p) && (p <? 64 * eb) then Z.testbit v j else sbit bs p.
Proof.
  intros HB Hn Hab Hv Hsb Hpat Hbs i j Hi Hj p. assert (Hp : 0 ≤ p) by (unfold p; nia). assert (0 < ab) by nia.
  pose proof (Z.div_mod p 64 ltac:(lia)) as Hdm. pose proof (Z.mod_pos_bound p 64 ltac:(lia)) as Hmd.
  unfold sbit at 1. rewrite Hbs by (apply Z.div_pos; lia).
  assert (Hc : (sb <=? p / 64) && (p / 64 <? eb) = (64 * sb <=? p) && (p <? 64 * eb)).
  { destruct (Z.leb_spec sb (p / 64)), (Z.leb_spec (64 * sb) p), (Z.ltb_spec (p / 64) eb), (Z.ltb_spec p (64 * eb)); done || lia. }
  rewrite Hc. destruct ((64 * sb <=? p) && (p <? 64 * eb)); [|done].
  pose proof (Z.div_mod i n ltac:(lia)) as Hin. pose proof (Z.mod_pos_bound i n Hn) as Himod.
  pose proof (Z.div_mod (p / 64) ab ltac:(lia)) as Hkm. pose proof (Z.mod_pos_bound (p / 64) ab ltac:(lia)) as Hkmod.
  set (q := i mod n * B + (B - 1 - j)).
  assert (Hq : q = 64 * ((p / 64) mod ab) + (63 - (63 - p mod 64))).
  { assert (p = 64 * ab * (i / n) + q) as Hpq by (unfold p, q; rewrite Hin at 1; nia).
    assert (0 ≤ q < 64 * ab) by (unfold q; nia).
    assert (p / 64 = ab * (i / n) + q / 64) as E1.
    { rewrite Hpq. replace (64 * ab * (i / n) + q) with (q + ab * (i / n) * 64) by lia. rewrite Z.div_add by lia. lia. }
    assert (p mod 64 = q mod 64) as E2.
    { rewrite Hpq. replace (64 * ab * (i / n) + q) with (q + ab * (i / n) * 64) by lia. apply Z.mod_add. lia. }
    assert (0 ≤ q / 64 < ab) by (split; [apply Z.div_pos; lia|apply Z.div_lt_upper_bound; lia]).
    rewrite E1, E2. rewrite (Z.add_comm (ab * (i / n))), (Z.mul_comm ab), Z.mod_add by lia. rewrite Z.mod_small by lia.
    pose proof (Z.div_mod q 64 ltac:(lia)). lia. }
  rewrite <- (sbit_as pat q) by (done || lia). pose proof (pget_testbit B HB pat (i mod n) j ltac:(lia) ltac:(lia)) as Ht.
  rewrite Hpat in Ht by lia. rewrite (proj2 (Z.ltb_lt j B)) in Ht by lia. cbn [andb] in Ht. symmetry. exact Ht.
Qed.

(** The pattern blocks: [n] values that fill [n * B / 64] blocks. *)
Lemma fill_pattern B n ab v : 1 ≤ B ≤ 64 → 0 < n ≤ 64 → n * B = 64 * ab → fits B v →
  ∃ vs, for_range 0 n (fun i vs => set_impl vs i v) (new n B) = Ok vs ∧ vlen (blocks vs) = ab ∧
    Forall (is_i 64) (blocks vs) ∧ ∀ i, 0 ≤ i < n → pget B (blocks vs) i = v.
Proof.
  intros HB Hn Hab Hv. destruct (p64_new n B) as [Hw _]; [lia|done|nia|].
  destruct (long_count_bound n B) as (Hc & Hcb & _); [lia|done|nia|].
  assert (Hv' : fits (get_bits_per_value (new n B)) v) by by apply p64_fits.
  destruct (for_range_inv (fun i vs => updated p64_wf p64_val (new n B) vs
      (fun j => if (0 <=? j) && (j <? i) then v else p64_val (new n B) j) ∧ vlen (blocks vs) = vlen (blocks (new n B)))
    (fun i vs => set_impl vs i v) 0 n (new n B)) as (vs & -> & Hup & Hl).
  - lia.
  - split; [|done]. eapply updated_ext; [by apply updated_refl|]. intros j Hj.
    destruct (Z.leb_spec 0 j), (Z.ltb_spec j 0); done || lia.
  - intros i vs Hi [Hup Hl]. pose proof Hup as [Hw' Hs Hb Hvv]. cbn in Hs.
    assert (Hi' : 0 ≤ i < value_count vs) by (rewrite Hs; cbn; lia).
    assert (Hf : fits (bits_per_value vs) v) by (rewrite (up_bpv _ _ _ Hup Hw); done).
    destruct (set_stream vs i v Hw' Hi' Hf) as (bs & Hset & Hbl & _). destruct (p64_sets vs i v Hw' Hi' Hf) as (m' & Hset' & Hup').
    rewrite Hset in Hset'. injection Hset' as <-. rewrite Hset. eexists. split; [done|]. split; [|change (vlen bs = vlen (blocks (new n B))); lia].
    eapply updated_ext; [by eapply updated_trans|]. intros j Hj. cbn beta. rewrite Hvv by done.
    destruct (Z.eqb_spec j i), (Z.leb_spec 0 j), (Z.ltb_spec j i), (Z.ltb_spec j (i + 1)); done || lia.
  - pose proof Hup as [Hw' Hs Hb Hvv]. exists vs. split; [done|]. split.
    { rewrite Hl. unfold new. cbn [blocks]. rewrite vlen_replicate by lia. lia. }
    split; [apply Hw'|]. intros i Hi. specialize (Hvv i ltac:(cbn; lia)). cbn beta in Hvv. unfold p64_val in Hvv at 1.
    rewrite (up_bpv _ _ _ Hup Hw) in Hvv. cbn [bits_per_value new] in Hvv. rewrite Hvv.
    by rewrite (proj2 (Z.leb_le 0 i)), (proj2 (Z.ltb_lt i n)) by lia.
Qed.

(** The loop over whole blocks. *)
Lemma fill_blocks_loop bs pat ab sb eb : 0 < ab → vlen pat = ab → 0 ≤ sb ≤ eb → eb ≤ vlen bs →
  Forall (is_i 64) bs → Forall (is_i 64) pat →
  ∃ bs', for_range sb eb (fun k bs => b ← vget pat (k mod ab); vset bs k b) bs = Ok bs' ∧ vlen bs' = vlen bs ∧
    Forall (is_i 64) bs' ∧ ∀ k, 0 ≤ k → nthz bs' k = if (sb <=? k) && (k <? eb) then nthz pat (k mod ab) else nthz bs k.
Proof.
  intros Hab Hpl Hsb Heb Hb Hp.
  destruct (for_range_inv (fun i bs' => vlen bs' = vlen bs ∧ Forall (is_i 64) bs' ∧
     ∀ k, 0 ≤ k → nthz bs' k = if (sb <=? k) && (k <? i) then nthz pat (k mod ab) else nthz bs k)
    (fun k bs => b ← vget pat (k mod ab); vset bs k b) sb eb bs) as (bs' & -> & H1 & H2 & H3); [lia| | |by exists bs'].
  - split_and!; try done. intros k Hk. destruct (Z.leb_spec sb k), (Z.ltb_spec k sb); done || lia.
  - intros i bs1 Hi (Hl & Hf & Hn). pose proof (Z.mod_pos_bound i ab Hab). rewrite vget_nthz by lia. cbn [mbind result_bind].
    destruct (vset_nthz bs1 i (nthz pat (i mod ab))) as (bs2 & E & Hl2 & Hn2); [lia|]. exists bs2. split; [done|].
    split_and!; [lia|eapply vset_Forall; [exact E|done|apply nthz_Forall; done || lia]|].
    intros k Hk. rewrite Hn2, Hn by done. destruct (Z.eqb_spec k i) as [->|].
    + by rewrite (proj2 (Z.leb_le sb i)), (proj2 (Z.ltb_lt i (i + 1))) by lia.
    + destruct (Z.leb_spec sb k), (Z.ltb_spec k i), (Z.ltb_spec k (i + 1)); done || lia.
Qed.

Lemma p64_fill m from to v : p64_wf m → 0 ≤ from ≤ to → to ≤ value_count m → fits (bits_per_value m) v →
  ∃ m', fill_impl m from to v = Ok m' ∧
    updated p64_wf p64_val m m' (fun j => if (from <=? j) && (j <? to) then v else p64_val m j).
Proof.
  intros Hm Hf Ht Hv. pose proof Hm as (HB & Hs & _). unfold fill_impl. set (B := bits_per_value m) in *.
  destruct (gcd_64 B HB) as (g & -> & Hg & H64 & Hal & Hbg). cbn [mbind result_bind].
  set (n := 64 / g) in *. assert (Hn : 0 < n ≤ 64) by nia. rewrite as_u_id by (unfold is_u; lia).
  assert (Hv' : fits (get_bits_per_value m) v) by by apply p64_fits.
  destruct (Z.leb_spec (to - from) (3 * n)) as [|Hspan].
  { by apply (mutable_fill_spec p64_wf p64_val set_impl p64_sets_law). }
  assert (Hhead : ∃ fi m1, (if from mod n =? 0 then Ok (from, m)
      else for_range (from mod n) n (fun _ '(fi, m) => m ← set_impl m fi v; Ok (fi + 1, m)) (from, m)) = Ok (fi, m1) ∧
      from ≤ fi < to ∧ fi mod n = 0 ∧
      updated p64_wf p64_val m m1 (fun j => if (from <=? j) && (j <? fi) then v else p64_val m j)).
  { pose proof (Z.mod_pos_bound from n ltac:(lia)). destruct (Z.eqb_spec (from mod n) 0) as [E|E].
    - exists from, m. split_and!; try done; try lia. eapply updated_ext; [by apply updated_refl|]. intros j Hj. cbn beta.
      destruct (Z.leb_spec from j), (Z.ltb_spec j from); done || lia.
    - destruct (fill_head_spec p64_wf p64_val set_impl p64_sets_law m (from mod n) n from v) as (m1 & -> & Hup); try done; try (cbn; lia).
      exists (from + (n - from mod n)), m1. split_and!; try done; try lia.
      replace (from + (n - from mod n)) with ((from / n + 1) * n) by (pose proof (Z.div_mod from n ltac:(lia)); lia). apply Z.mod_mul. lia. }
  destruct Hhead as (fi & m1 & -> & Hfi & Hfin & Hup1). cbn [mbind result_bind].
  pose proof (up_bpv _ _ _ Hup1 Hm) as Hbpv. pose proof Hup1 as [Hm1 Hsz1 _ Hv1]. cbn in Hsz1. rewrite Hbpv. fold B.
  replace (Z.shiftr (n * B) 6) with (B / g) by (rewrite Hal, Z.shiftr_div_pow2 by lia; change (2 ^ 6) with 64; rewrite Z.mul_comm, Z.div_mul; lia).
  destruct (fill_pattern B n (B / g) v HB Hn Hal Hv) as (vs & -> & Hpl & Hpi & Hpat). cbn [mbind result_bind].
  assert (Hsb : fi * B = 64 * Z.shiftr (fi * B) 6).
  { rewrite Z.shiftr_div_pow2 by lia. change (2 ^ 6) with 64. apply Z.div_exact; [lia|].
    apply Z.div_exact in Hfin; [|lia]. rewrite Hfin. replace (n * (fi / n) * B) with ((fi / n * (B / g)) * 64) by nia. apply Z.mod_mul. lia. }
  set (sb := Z.shiftr (fi * B) 6) in *.
  assert (Heb : 64 * Z.shiftr (to * B) 6 ≤ to * B < 64 * Z.shiftr (to * B) 6 + 64).
  { rewrite Z.shiftr_div_pow2 by lia. change (2 ^ 6) with 64. pose proof (Z.div_mod (to * B) 64 ltac:(lia)).
    pose proof (Z.mod_pos_bound (to * B) 64 ltac:(lia)). lia. }
  set (eb := Z.shiftr (to * B) 6) in *. pose proof Hm1 as (_ & _ & Hbl1 & Hbi1 & _). rewrite Hbpv, Hsz1 in Hbl1. fold B in Hbl1.
  destruct (fill_blocks_loop (blocks m1) (blocks vs) (B / g) sb eb) as (bs & -> & Hbl & Hbi & Hbn); try done; try lia; try nia.
  cbn [mbind result_bind]. set (m2 := with_blocks m1 bs).
  assert (Hm2 : p64_wf m2) by by apply p64_with_blocks.
  rewrite Z.shiftl_mul_pow2 by lia. change (bits_per_value m2) with (bits_per_value m1). rewrite Hbpv. fold B.
  set (gap := eb * 2 ^ 6 / B). assert (Hgap : gap * B ≤ 64 * eb < (gap + 1) * B).
  { unfold gap. change (2 ^ 6) with 64. pose proof (Z.div_mod (eb * 64) B ltac:(lia)). pose proof (Z.mod_pos_bound (eb * 64) B ltac:(lia)). lia. }
  assert (Hbits := fill_blocks_bits B n (B / g) (blocks vs) (blocks m1) bs v sb eb HB ltac:(lia) Hal Hv ltac:(nia) Hpat Hbn).
  assert (Hval2 : ∀ j, 0 ≤ j → j < gap ∨ to ≤ j → p64_val m2 j = if (fi <=? j) && (j <? to) then v else p64_val m1 j).
  { intros j Hj Hor. unfold p64_val. change (bits_per_value m2) with (bits_per_value m1). rewrite Hbpv. fold B.
    change (blocks m2) with bs. apply pget_ext; [done|done| |].
    - destruct ((fi <=? j) && (j <? to)); [done|]. by apply pget_fits.
    - intros b Hb. rewrite Hbits by done. destruct (Z.leb_spec fi j) as [Hle|Hgt]; cbn [andb].
      + rewrite (proj2 (Z.leb_le (64 * sb) _)) by nia. cbn [andb]. destruct (Z.ltb_spec j to).
        * by rewrite (proj2 (Z.ltb_lt _ (64 * eb))) by nia.
        * rewrite (proj2 (Z.ltb_ge _ (64 * eb))) by nia. rewrite pget_testbit by lia. by rewrite (proj2 (Z.ltb_lt b B)) by lia.
      + rewrite (proj2 (Z.leb_gt (64 * sb) _)) by nia. cbn [andb]. rewrite pget_testbit by lia. by rewrite (proj2 (Z.ltb_lt b B)) by lia. }
  assert (Hgt : 0 ≤ gap ≤ to) by nia.
  destruct (mutable_fill_spec p64_wf p64_val set_impl p64_sets_law m2 gap to v) as (m' & Hrun & Hup'); try done.
  { change (size m2) with (value_count m1). lia. }
  { rewrite p64_bits by done. change (bits_per_value m2) with (bits_per_value m1). by rewrite Hbpv. }
  exists m'. split; [exact Hrun|]. pose proof Hup' as [Hw' Hs' Hb' Hv2].
  constructor; [done|rewrite Hs'; exact Hsz1|rewrite Hb', !p64_bits by done; exact Hbpv|].
  intros j Hj. cbn in Hj. rewrite Hv2 by (change (size m2) with (value_count m1); lia).
  destruct (Z.leb_spec gap j) as [Hle|Hlt]; cbn [andb].
  - destruct (Z.ltb_spec j to); [|rewrite Hval2, Hv1 by (cbn; lia)].
    + assert (from ≤ j) by nia. by rewrite (proj2 (Z.leb_le from j)) by lia.
    + rewrite (proj2 (Z.ltb_ge j to)), (proj2 (Z.ltb_ge j fi)) by lia. by rewrite !andb_false_r.
  - rewrite Hval2, Hv1 by (cbn; lia).
    destruct (Z.leb_spec from j), (Z.leb_spec fi j), (Z.ltb_spec j fi), (Z.ltb_spec j to); cbn; done || lia.
Qed.

#[global] Program Instance p64_packs : Packs t := {| val := p64_val; wf := p64_wf; bulk_off _ _ _ := True |}.
Next Obligation. apply p64_small. Qed.
Next Obligation. intros m Hm. rewrite p64_bits by done. apply Hm. Qed.
Next Obligation. intros m i Hm Hi. rewrite p64_bits by done. apply pget_fits; [apply Hm|lia]. Qed.
Next Obligation. apply p64_gets. Qed.
Next Obligation. apply p64_sets_law. Qed.
Next Obligation. apply p64_bulk_get. Qed.
Next Obligation. done. Qed.
Next Obligation.
  intros m i arr off len Hm Hi Hoff Hlen Harr _ Hfit. destruct (p64_bulk_set m i arr off len) as (n & m' & H1 & H2 & H3 & H4); try done; try lia.
  - intros k Hk. rewrite <- p64_bits by done. by apply Hfit.
  - by exists n, m'.
Qed.
Next Obligation. intros m from to v Hm Hf Ht Hv%p64_fits; [|done]. by apply p64_fill. Qed.
Next Obligation. apply p64_clear. Qed.
