(* ===== verification/PackedSBFacts.v ===== *)
(** [Packed64SingleBlock] keeps the promise of a packed array: a value is [B]
    consecutive bits of one block, the first value of a block in its low bits. *)

From S2P Require Import Prelude Float32 DataIO Numeric NumericFacts PackedBulk PackedBulkFacts PackedSingleFacts PackedMutable PackedArrayFacts Packed64Facts.
Import Packed64SingleBlock.
Open Scope Z_scope.

(** The bits of a single-block value. *)
Definition sb_pick (B block b : Z) : Z := Z.land (unsigned_shift 64 block (b * B)) (Z.ones B).

Lemma sb_pick_testbit B block b j : 1 ≤ B ≤ 32 → 0 ≤ b → 0 ≤ j < 64 →
  Z.testbit (sb_pick B block b) j = (j <? B) && ((b * B + j <? 64) && Z.testbit block (b * B + j)).
Proof.
  intros HB Hb Hj. unfold sb_pick. rewrite Z.land_spec, tb_ushift, tb_ones by nia.
  rewrite andb_comm. by rewrite (Z.add_comm j).
Qed.

Lemma sb_pick_fits B block b : 1 ≤ B ≤ 32 → 0 ≤ b → fits B (sb_pick B block b).
Proof.
  intros HB Hb. apply fits_bits; [lia| |].
  - apply is_i_land; [lia|apply is_i_unsigned_shift; lia|]. rewrite Z.ones_equiv.
    pose proof (Z.pow_le_mono_r 2 B 32 ltac:(lia) ltac:(lia)). pose proof (pow2_pos B ltac:(lia)). unfold is_i. lia.
  - intros j Hj. rewrite sb_pick_testbit by lia. by rewrite (proj2 (Z.ltb_ge j B)) by lia.
Qed.

Lemma sb_pick_ext B block b v : 1 ≤ B ≤ 32 → 0 ≤ b → b * B + B ≤ 64 → fits B v →
  (∀ j, 0 ≤ j < B → Z.testbit block (b * B + j) = Z.testbit v j) → sb_pick B block b = v.
Proof.
  intros HB Hb Hbb Hv Hbits. apply (fits_inj B); [lia|by apply sb_pick_fits|done|]. intros j Hj.
  rewrite sb_pick_testbit by lia. rewrite (proj2 (Z.ltb_lt j B)), (proj2 (Z.ltb_lt _ 64)) by lia. by apply Hbits.
Qed.

Definition sb_val (m : t) (i : Z) : Z :=
  sb_pick (bits_per_value m) (nthz (blocks m) (i / value_per_block m)) (i mod value_per_block m).
Definition sb_wf (m : t) : Prop :=
  1 ≤ bits_per_value m ≤ 32 ∧ value_per_block m = 64 / bits_per_value m ∧ 0 ≤ value_count m < 2 ^ 31 ∧
  value_count m ≤ value_per_block m * vlen (blocks m) ∧ Forall (is_i 64) (blocks m).

Lemma sb_vpb m : sb_wf m → 2 ≤ value_per_block m ≤ 64 ∧ value_per_block m * bits_per_value m ≤ 64.
Proof.
  intros (HB & -> & _). pose proof (Z.mul_div_le 64 (bits_per_value m) ltac:(lia)). split; [split|lia].
  - apply Z.div_le_lower_bound; lia.
  - apply Z.div_le_upper_bound; nia.
Qed.

Lemma sb_mask m : sb_wf m → the_mask m = Z.ones (bits_per_value m).
Proof. intros (HB & _). unfold the_mask. apply mask_ones; lia. Qed.

(** Where a value lies. *)
Lemma sb_place m i : sb_wf m → 0 ≤ i < value_count m →
  let o := i / value_per_block m in let b := i mod value_per_block m in
  i = value_per_block m * o + b ∧ 0 ≤ b < value_per_block m ∧ 0 ≤ o < vlen (blocks m) ∧
  0 ≤ b * bits_per_value m ∧ b * bits_per_value m + bits_per_value m ≤ 64.
Proof.
  intros Hm Hi o b. pose proof (sb_vpb m Hm) as [Hv Hvb]. destruct Hm as (HB & _ & _ & Hl & _).
  pose proof (Z.div_mod i (value_per_block m) ltac:(lia)) as Hdm. pose proof (Z.mod_pos_bound i (value_per_block m) ltac:(lia)).
  assert (0 ≤ o) by (apply Z.div_pos; lia). assert (o < vlen (blocks m)) by (apply Z.div_lt_upper_bound; lia).
  fold o b in Hdm. fold b in H. split_and!; try lia; nia.
Qed.

Lemma sb_gets m i : sb_wf m → 0 ≤ i < value_count m → get_impl m i = Ok (sb_val m i).
Proof.
  intros Hm Hi. destruct (sb_place m i Hm Hi) as (_ & _ & Ho & _). unfold get_impl. rewrite sb_mask by done.
  by rewrite vget_nthz by done.
Qed.

Lemma sb_bits m : sb_wf m → get_bits_per_value m = bits_per_value m.
Proof. intros (HB & _). cbn. apply as_i_id; [lia|]. unfold is_i. lia. Qed.
Lemma sb_small m : sb_wf m → 0 ≤ size m < 2 ^ 31.
Proof. by intros (_ & _ & ? & _). Qed.
Lemma sb_fits m v : sb_wf m → fits (get_bits_per_value m) v ↔ fits (bits_per_value m) v.
Proof. intros Hm. by rewrite sb_bits. Qed.
Lemma sb_with_blocks m bs : sb_wf m → vlen bs = vlen (blocks m) → Forall (is_i 64) bs → sb_wf (with_blocks m bs).
Proof. intros (H1 & H2 & H3 & H4 & H5) Hl Hb. split_and!; cbn; try done; try lia. Qed.
Lemma sb_bpv m m' f : updated sb_wf sb_val m m' f → sb_wf m → bits_per_value m' = bits_per_value m ∧ value_per_block m' = value_per_block m.
Proof.
  intros [H1 _ H2 _] Hm. rewrite !sb_bits in H2 by done. split; [done|].
  destruct H1 as (_ & -> & _), Hm as (_ & -> & _). by rewrite H2.
Qed.

Lemma digits_apart B b b' x : 0 ≤ x < B → b' ≠ b → b * B ≤ b' * B + x < b * B + B → False.
Proof. intros. assert (b' + 1 ≤ b ∨ b + 1 ≤ b') as [|] by lia; nia. Qed.

(** The word [set] writes. *)
Lemma sb_set_word B b v s j : 1 ≤ B ≤ 32 → 0 ≤ s → s + B ≤ 64 → fits B v → 0 ≤ j < 64 →
  Z.testbit (Z.lor (Z.land b (Z.lnot (shl_i 64 (Z.ones B) s))) (shl_i 64 v s)) j
  = if (s <=? j) && (j <? s + B) then Z.testbit v (j - s) else Z.testbit b j.
Proof.
  intros HB Hs HsB Hv Hj. rewrite Z.lor_spec, Z.land_spec, tb_lnot, !tb_shl_i by lia.
  rewrite (proj2 (Z.ltb_lt j 64)) by lia. destruct (Z.leb_spec s j); cbn [andb].
  - rewrite tb_ones by lia. destruct (Z.ltb_spec (j - s) B), (Z.ltb_spec j (s + B)); try lia; cbn.
    + by rewrite andb_false_r.
    + rewrite andb_true_r, (fits_testbit B v) by (done || lia). apply orb_false_r.
  - rewrite !(tb_neg _ (j - s)) by lia. cbn. by rewrite andb_true_r, orb_false_r.
Qed.

Lemma sb_sets m i v : sb_wf m → 0 ≤ i < value_count m → fits (bits_per_value m) v →
  ∃ m', set_impl m i v = Ok m' ∧ updated sb_wf sb_val m m' (fun j => if j =? i then v else sb_val m j).
Proof.
  intros Hm Hi Hv. pose proof (sb_place m i Hm Hi) as (Ei & Hb & Ho & Hs0 & Hs1). pose proof (sb_vpb m Hm) as [Hvpb Hvb].
  pose proof Hm as (HB & Evpb & Hvc & Hl & He). unfold set_impl. rewrite sb_mask by done.
  set (o := i / value_per_block m) in *. set (b := i mod value_per_block m) in *. set (B := bits_per_value m) in *.
  assert (Z.land (b * B) 63 = b * B) as -> by (change 63 with (Z.ones 6); rewrite Z.land_ones by lia; apply Z.mod_small; lia).
  rewrite vget_nthz by done. cbn [mbind result_bind]. match goal with |- context [vset (blocks m) o ?x] => set (wd := x) end.
  destruct (vset_nthz (blocks m) o wd) as (bs & E & Hbl & Hbn); [done|]. rewrite E. cbn [mbind result_bind].
  exists (with_blocks m bs). split; [done|]. constructor; try done.
  { apply sb_with_blocks; [done|lia|]. eapply vset_Forall; [exact E|done|].
    assert (is_i 64 (nthz (blocks m) o)) by by apply nthz_Forall. unfold wd. auto 8 with ranges lia. }
  intros j Hj. pose proof (sb_place m j Hm Hj) as (Ej & Hjb & Hjo & Hj0 & Hj1). unfold sb_val.
  cbn [bits_per_value value_per_block blocks with_blocks]. fold B in Hj0, Hj1 |- *.
  set (o' := j / value_per_block m) in *. set (b' := j mod value_per_block m) in *. rewrite Hbn by lia.
  destruct (Z.eqb_spec o' o) as [Eo|Eo].
  - destruct (Z.eqb_spec j i) as [->|Hne].
    + change b' with b. apply sb_pick_ext; [lia|lia|lia|exact Hv|]. intros x Hx. unfold wd. rewrite (sb_set_word B) by (lia || exact Hv).
      rewrite (proj2 (Z.leb_le _ _)), (proj2 (Z.ltb_lt _ _)) by lia. cbn [andb]. f_equal. lia.
    + rewrite Eo. apply sb_pick_ext; [lia|lia|lia|apply sb_pick_fits; lia|]. intros x Hx.
      unfold wd. rewrite (sb_set_word B) by (lia || exact Hv). rewrite sb_pick_testbit by lia.
      rewrite (proj2 (Z.ltb_lt x B)), (proj2 (Z.ltb_lt _ 64)) by lia. cbn [andb].
      assert (b' ≠ b) by (intros E'; apply Hne; rewrite Ej, Ei, Eo, E'; done).
      destruct (Z.leb_spec (b * B) (b' * B + x)), (Z.ltb_spec (b' * B + x) (b * B + B)); cbn [andb]; [|reflexivity..].
      destruct (digits_apart B b b' x); done || lia.
  - rewrite (proj2 (Z.eqb_neq j i)); [done|]. intros ->. done.
Qed.

Lemma sb_sets_law m i v : sb_wf m → 0 ≤ i < size m → fits (get_bits_per_value m) v →
  ∃ m', set_impl m i v = Ok m' ∧ updated sb_wf sb_val m m' (fun j => if j =? i then v else sb_val m j).
Proof. intros Hm Hi Hv%sb_fits; [|done]. by apply sb_sets. Qed.

(** * Bulk reads *)

Section decode.
Context (B : Z) (HB : 1 ≤ B ≤ 32).
Abbreviation vc := (64 / B).
Let op := BulkOperationPackedSingleBlock.new B.

Lemma vc_range : 2 ≤ vc ∧ vc * B ≤ 64.
Proof using HB. pose proof (vc_bounds B HB). lia. Qed.

Lemma sb_mask_bits y j : 0 ≤ j < 64 → Z.testbit (Z.land y (BulkOperationPackedSingleBlock.mask op)) j = (j <? B) && Z.testbit y j.
Proof using HB.
  intros Hj. unfold op. cbn [BulkOperationPackedSingleBlock.mask BulkOperationPackedSingleBlock.new].
  rewrite mask_ones, Z.land_spec, tb_ones by lia. apply andb_comm.
Qed.

Lemma sb_pick_mask b y k : is_i 64 y → 0 ≤ k < vc → (∀ x, 0 ≤ x < 64 → Z.testbit y x = (x + k * B <? 64) && Z.testbit b (x + k * B)) →
  Z.land y (BulkOperationPackedSingleBlock.mask op) = sb_pick B b k.
Proof using HB.
  intros Hy Hk Hbits. apply (is_i_inj 64); [lia| |apply sb_pick_fits; lia|].
  - apply is_i_land; [lia|done|]. unfold op. cbn [BulkOperationPackedSingleBlock.mask BulkOperationPackedSingleBlock.new]. apply as_i_range. lia.
  - intros j Hj. rewrite sb_mask_bits, sb_pick_testbit, Hbits by lia. by rewrite (Z.add_comm j).
Qed.

Lemma sb_decode_value b vs off : is_i 64 b → 0 ≤ off → off + vc ≤ vlen vs →
  ∃ vs', BulkOperationPackedSingleBlock.decode_long_value op (fun v => v) b vs off = Ok (off + vc, vs') ∧ vlen vs' = vlen vs ∧
    ∀ k, 0 ≤ k → nthz vs' k = if (off <=? k) && (k <? off + vc) then sb_pick B b (k - off) else nthz vs k.
Proof using HB.
  intros Hb Hoff Hlen. destruct vc_range as [Hvc Hvb]. unfold BulkOperationPackedSingleBlock.decode_long_value.
  destruct (vset_nthz vs off (Z.land b (BulkOperationPackedSingleBlock.mask op))) as (v1 & -> & Hl1 & Hn1); [lia|].
  cbn [mbind result_bind]. rewrite (sb_pick_mask b b 0) in Hn1 by (try done; try lia; intros x Hx; rewrite Z.mul_0_l, Z.add_0_r, (proj2 (Z.ltb_lt x 64)) by lia; done).
  change (BulkOperationPackedSingleBlock.value_count op) with vc. change (BulkOperationPackedSingleBlock.bits_per_value op) with B.
  match goal with |- context [for_range 1 vc ?body ?start] =>
    destruct (for_range_inv (fun i '(vo, block, v) => vo = off + i ∧ is_i 64 block ∧ vlen v = vlen vs ∧
       (∀ x, 0 ≤ x < 64 → Z.testbit block x = (x + (i - 1) * B <? 64) && Z.testbit b (x + (i - 1) * B)) ∧
       ∀ k, 0 ≤ k → nthz v k = if (off <=? k) && (k <? off + i) then sb_pick B b (k - off) else nthz vs k) body 1 vc start)
      as ([[vo blk] v] & -> & -> & _ & Hl & _ & Hn) end.
  - lia.
  - split_and!; try done.
    + intros x Hx. rewrite Z.mul_0_l, Z.add_0_r, (proj2 (Z.ltb_lt x 64)) by lia. done.
    + intros k Hk. rewrite Hn1 by done. destruct (Z.eqb_spec k off) as [->|].
      * rewrite (proj2 (Z.leb_le off off)), (proj2 (Z.ltb_lt off (off + 1))) by lia. cbn. f_equal. lia.
      * destruct (Z.leb_spec off k), (Z.ltb_spec k (off + 1)); cbn; done || lia.
  - intros i [[vo blk] v] Hi (-> & Hbi & Hl & Hbb & Hn).
    assert (Hbits : ∀ x, 0 ≤ x < 64 → Z.testbit (unsigned_shift 64 blk B) x = (x + i * B <? 64) && Z.testbit b (x + i * B)).
    { intros x Hx. rewrite tb_ushift by lia. destruct (Z.ltb_spec (x + B) 64).
      - rewrite Hbb by lia. cbn [andb]. by replace (x + B + (i - 1) * B) with (x + i * B) by lia.
      - by rewrite (proj2 (Z.ltb_ge (x + i * B) 64)) by nia. }
    destruct (vset_nthz v (off + i) (Z.land (unsigned_shift 64 blk B) (BulkOperationPackedSingleBlock.mask op))) as (v' & -> & Hl' & Hn'); [lia|].
    cbn [mbind result_bind]. eexists. split; [done|]. rewrite (sb_pick_mask b _ i) in Hn' by (done || lia || apply is_i_unsigned_shift; lia).
    split_and!; [lia|apply is_i_unsigned_shift; lia|lia| |].
    + intros x Hx. rewrite Hbits by done. by replace (i + 1 - 1) with i by lia.
    + intros k Hk. rewrite Hn', Hn by done. destruct (Z.eqb_spec k (off + i)) as [->|].
      * rewrite (proj2 (Z.leb_le off _)), (proj2 (Z.ltb_lt (off + i) (off + (i + 1)))) by lia. cbn. f_equal. lia.
      * destruct (Z.leb_spec off k), (Z.ltb_spec k (off + i)), (Z.ltb_spec k (off + (i + 1))); cbn; done || lia.
  - cbn [mbind result_bind]. by exists v.
Qed.

Lemma sb_decode bs os it : Forall (is_i 64) bs → 0 ≤ it ≤ vlen bs → it * vc ≤ vlen os →
  ∃ os', BulkOperationPackedSingleBlock.decode_long_to_long op bs os it = Ok os' ∧
    bulk_read (fun k => sb_pick B (nthz bs (k / vc)) (k mod vc)) 0 (it * vc) os os'.
Proof using HB.
  intros Hbs Hit Hos. destruct vc_range as [Hvc Hvb].
  unfold BulkOperationPackedSingleBlock.decode_long_to_long, BulkOperationPackedSingleBlock.decode_longs,
    BulkOperationPackedSingleBlock.decode_long_value_to_long.
  destruct (for_each_inv (fun i '(off, vs) => off = i * vc ∧
      bulk_read (fun k => sb_pick B (nthz bs (k / vc)) (k mod vc)) 0 (i * vc) os vs)
    (fun b '(off, vs) => BulkOperationPackedSingleBlock.decode_long_value op (fun v => v) b vs off)
    (take (Z.to_nat it) bs) (0, os)) as ([off vs] & -> & -> & Hr).
  - split; [done|]. apply bulk_read_0.
  - intros i b [off vs] Hi Hb (-> & Hl & Hv). apply lookup_take_Some in Hb as [Hb Hlt].
    assert (nthz bs i = b) as Ei by (unfold nthz; by rewrite Hb).
    assert (is_i 64 b) by (by eapply Forall_lookup_1 in Hb). assert ((i + 1) * vc ≤ it * vc) by nia.
    destruct (sb_decode_value b vs (i * vc)) as (vs' & -> & Hl' & Hv'); [done|nia|lia|].
    eexists. split; [done|]. split; [lia|]. split; [lia|]. intros k Hk. rewrite Hv', Hv by lia. rewrite !Z.add_0_l.
    destruct (Z.leb_spec (i * vc) k) as [Hle|]; cbn [andb].
    + destruct (Z.ltb_spec k (i * vc + vc)), (Z.ltb_spec k ((i + 1) * vc)), (Z.ltb_spec k (i * vc)); try lia.
      rewrite <- (Z.div_unique k vc i (k - i * vc)), <- (Z.mod_unique k vc i (k - i * vc)) by lia. by rewrite Ei.
    + by rewrite (proj2 (Z.ltb_lt k (i * vc))), (proj2 (Z.ltb_lt k ((i + 1) * vc))) by nia.
  - cbn [mbind result_bind]. exists vs. rewrite vlen_take in Hr by done. done.
Qed.
End decode.

(** * Bulk writes *)

Lemma le_value_testbit w l : 0 ≤ w → Forall (is_u w) l → ∀ k j, 0 ≤ k < vlen l → 0 ≤ j < w →
  Z.testbit (le_value w l) (k * w + j) = Z.testbit (nthz l k) j.
Proof.
  intros Hw. induction l as [|x l IH]; intros Hl k j Hk Hj; [unfold vlen in Hk; simpl in Hk; lia|].
  apply Forall_cons_iff in Hl as [Hx Hl]. rewrite vlen_cons in Hk. unfold le_value. cbn [foldr]. fold (le_value w l).
  rewrite (Z.add_comm x), (Z.mul_comm (2 ^ w)), <- lor_add_disjoint by done. rewrite Z.lor_spec, tb_shiftl by nia.
  destruct (decide (k = 0)) as [->|Hk0].
  - rewrite tb_neg by lia. cbn [orb]. rewrite Z.mul_0_l, Z.add_0_l. reflexivity.
  - rewrite (tb_high x w) by (done || nia). rewrite orb_false_r. replace (k * w + j - w) with ((k - 1) * w + j) by lia.
    rewrite IH by (done || lia). unfold nthz. replace (Z.to_nat k) with (S (Z.to_nat (k - 1))) by lia. reflexivity.
Qed.

Lemma sb_encode B vs bs it : 1 ≤ B ≤ 32 → Forall (is_i 64) bs → 0 ≤ it ≤ vlen bs → it * (64 / B) ≤ vlen vs →
  (∀ k, 0 ≤ k < it * (64 / B) → fits B (nthz vs k)) →
  ∃ bs', BulkOperationPackedSingleBlock.encode_long_to_long (BulkOperationPackedSingleBlock.new B) vs bs it = Ok bs' ∧
    vlen bs' = vlen bs ∧ Forall (is_i 64) bs' ∧
    (∀ k b, 0 ≤ k < it → 0 ≤ b < 64 / B → sb_pick B (nthz bs' k) b = nthz vs (k * (64 / B) + b)) ∧
    (∀ k, it ≤ k → nthz bs' k = nthz bs k).
Proof.
  intros HB Hbs Hit Hvs Hfit. destruct (vc_range B HB) as [Hvc Hvb]. set (vc := 64 / B) in *.
  assert (Hin : Forall (fits B) (take (Z.to_nat (it * vc)) vs)).
  { apply Forall_nthz. intros k Hk. rewrite vlen_take in Hk by nia. rewrite nthz_take by done. by apply Hfit. }
  destruct (encode_to_long_spec B HB (fun v => v) as_u64 (fits B)
     (fun v H => conj (proj1 H) (conj eq_refl (conj (proj1 (as_u_range 64 v ltac:(lia))) (proj2 H)))) vs bs it)
    as (W & Henc & HW & Hc); try done; try lia.
  assert (HWk : ∀ k, 0 ≤ k < it → codes B as_u64 vs k (nthz W k)).
  { intros k Hk. apply Hc; [lia|]. unfold nthz. destruct (vget_in W k) as (x & _ & ->); [lia|done]. }
  exists (filled W bs). split; [exact Henc|]. split; [apply vlen_filled; lia|]. split.
  { apply Forall_filled; [|done]. apply Forall_nthz. intros k Hk. apply HWk. lia. }
  split.
  - intros k b Hk Hb. rewrite nthz_filled, HW, (proj2 (Z.ltb_lt k it)) by lia. destruct (HWk k Hk) as [Hi Hval].
    assert (Hlc : vlen (chunk B vs k) = vc) by (unfold chunk; apply vlen_take; rewrite vlen_drop; fold vc; nia).
    assert (Hch : ∀ x, 0 ≤ x < vc → nthz (chunk B vs k) x = nthz vs (k * vc + x)).
    { intros x Hx. unfold chunk. fold vc. rewrite nthz_take by lia. rewrite nthz_drop by nia. done. }
    apply sb_pick_ext; [done|lia|nia|apply Hfit; nia|]. intros j Hj.
    assert (Ht : Z.testbit (as_u64 (nthz W k)) (b * B + j) = Z.testbit (nthz W k) (b * B + j)).
    { rewrite tb_as_u by lia. by rewrite (proj2 (Z.ltb_lt _ 64)) by nia. }
    rewrite <- Ht, Hval, le_value_testbit; [|lia| |rewrite vlen_map; lia|done].
    + rewrite nthz_map, Hch, tb_as_u by lia. by rewrite (proj2 (Z.ltb_lt j 64)) by lia.
    + apply Forall_nthz. intros x Hx. rewrite vlen_map in Hx. rewrite nthz_map, Hch by lia.
      split; [apply as_u_range; lia|]. apply Hfit. nia.
  - intros k Hk. rewrite nthz_filled, HW by lia. by rewrite (proj2 (Z.ltb_ge k it)) by lia.
Qed.

(** The values of new blocks, given as what each block holds. *)
Lemma sb_updated m bs f : sb_wf m → vlen bs = vlen (blocks m) → Forall (is_i 64) bs →
  (∀ k b, 0 ≤ k → 0 ≤ b < value_per_block m → k * value_per_block m + b < value_count m →
     sb_pick (bits_per_value m) (nthz bs k) b = f (k * value_per_block m + b)) →
  updated sb_wf sb_val m (with_blocks m bs) f.
Proof.
  intros Hm Hl Hb Hf. constructor; try done; [by apply sb_with_blocks|].
  intros j Hj. destruct (sb_place m j Hm Hj) as (Ej & Hjb & Hjo & _). unfold sb_val.
  cbn [bits_per_value value_per_block blocks with_blocks]. rewrite Hf by (cbn in Hj; lia). f_equal. lia.
Qed.

(** A value of [m] by its block. *)
Lemma sb_val_at m k b : sb_wf m → 0 ≤ k → 0 ≤ b < value_per_block m →
  sb_val m (k * value_per_block m + b) = sb_pick (bits_per_value m) (nthz (blocks m) k) b.
Proof.
  intros Hm Hk Hb. unfold sb_val.
  rewrite <- (Z.div_unique (k * value_per_block m + b) (value_per_block m) k b), <- (Z.mod_unique (k * value_per_block m + b) (value_per_block m) k b) by lia. done.
Qed.

Lemma sb_get_head m ob len idx output : sb_wf m → 0 < ob < value_per_block m → 0 ≤ len ≤ vlen output →
  0 ≤ idx → idx + len ≤ value_count m →
  ∃ n output', get_head m ob len idx 0 output = Ok (len - n, idx + n, n, output') ∧
    0 ≤ n ≤ len ∧ bulk_read (sb_val m) idx n output output' ∧ (ob + n = value_per_block m ∨ n = len) ∧ (0 < len → 0 < n).
Proof.
  intros Hm Hob Hlen Hidx Hvc. unfold get_head.
  destruct (while_fuel_inv (fun '(l, ix, o, out) => l = len - o ∧ ix = idx + o ∧
      0 ≤ o ≤ len ∧ ob + o ≤ value_per_block m ∧ bulk_read (sb_val m) idx o output out)
    (fun '(l, _, _, _) => Z.to_nat l) (fun '(l, _, off, _) => (off + ob <? value_per_block m) && (0 <? l))
    (fun '(len, index, off, output) =>
      v ← get_impl m index; output ← vset output off v; Ok (len - 1, index + 1, off + 1, output)))
    with (fuel := Z.to_nat len) (s := (len, idx, 0, output))
    as ([[[l ix] n] out] & -> & (-> & -> & Hn & Hvpb & Hr) & Hc).
  - intros [[[l ix] n] out] (-> & -> & Hn & Hvpb & Hr) [H1%Z.ltb_lt H2%Z.ltb_lt]%andb_true_iff.
    rewrite sb_gets by (done || lia). cbn [mbind result_bind]. pose proof (proj1 Hr).
    destruct (vset_nthz out n (sb_val m (idx + n))) as (out' & E & _); [lia|]. rewrite E. cbn [mbind result_bind].
    eexists. split; [done|]. split; [|lia]. split_and!; try lia. by apply (bulk_read_one _ _ _ _ out); [lia|..].
  - split_and!; try lia. apply bulk_read_0.
  - lia.
  - exists n, out. split; [done|]. split; [lia|]. split; [done|].
    apply andb_false_iff in Hc as [Hc%Z.ltb_ge|Hc%Z.ltb_ge]; lia.
Qed.

(** The whole blocks between two positions, the first on a boundary. *)
Lemma whole_blocks m idx len : sb_wf m → 0 ≤ idx → 0 ≤ len → idx + len ≤ value_count m → idx mod value_per_block m = 0 →
  let bi := idx / value_per_block m in let nb := (idx + len) / value_per_block m - bi in
  idx = bi * value_per_block m ∧ 0 ≤ bi ∧ 0 ≤ nb ∧ bi + nb ≤ vlen (blocks m) ∧ nb * value_per_block m ≤ len.
Proof.
  intros Hm Hidx Hlen Hvc Hmod bi nb. pose proof (sb_vpb m Hm) as [Hvpb _]. destruct Hm as (_ & _ & _ & Hl & _).
  set (c := value_per_block m) in *. apply Z.div_exact in Hmod; [|lia]. fold bi in Hmod.
  assert (0 ≤ bi) by (apply Z.div_pos; lia). assert (bi ≤ (idx + len) / c) by (apply Z.div_le_mono; lia).
  assert (c * ((idx + len) / c) ≤ idx + len) by (apply Z.mul_div_le; lia).
  assert ((idx + len) / c ≤ vlen (blocks m)) by (apply Z.div_le_upper_bound; lia).
  unfold nb. split_and!; try lia; nia.
Qed.

Lemma sb_bulk_get m i output len : sb_wf m → 0 ≤ i < value_count m → 1 ≤ len ≤ vlen output →
  ∃ n output', bulk_get_impl m i output len = Ok (n, output') ∧ 1 ≤ n ≤ len ∧ i + n ≤ value_count m ∧
    bulk_read (sb_val m) i n output output'.
Proof.
  intros Hm Hi Hlen. pose proof Hm as (HB & Evpb & Hs & Hl & He). pose proof (sb_vpb m Hm) as [Hvpb Hvb]. unfold bulk_get_impl.
  rewrite as_u_id by (unfold is_u; lia). set (l0 := Z.min len (value_count m - i)). set (c := value_per_block m) in *.
  assert (Hhead : ∃ n out1, (if i mod c =? 0 then Ok (l0, i, 0, output)
      else get_head m (i mod c) l0 i 0 output) = Ok (l0 - n, i + n, n, out1) ∧ 0 ≤ n ≤ l0 ∧
      bulk_read (sb_val m) i n output out1 ∧ ((i + n) mod c = 0 ∨ n = l0) ∧ (i mod c = 0 → n = 0)).
  { pose proof (Z.mod_pos_bound i c ltac:(lia)). destruct (Z.eqb_spec (i mod c) 0) as [E|E].
    - exists 0, output. rewrite Z.sub_0_r, Z.add_0_r. split_and!; try done; try lia. apply bulk_read_0.
    - destruct (sb_get_head m (i mod c) l0 i output) as (n & out & -> & Hn & Hr & Hor & Hpos); try done; try lia.
      exists n, out. split_and!; try done; try lia. destruct Hor as [Hor|Hor]; [|by right]. left. fold c in Hor.
      replace (i + n) with ((i / c + 1) * c) by (pose proof (Z.div_mod i c ltac:(lia)); lia). apply Z.mod_mul. lia. }
  destruct Hhead as (n & out1 & -> & Hn & Hr & Hal & Hz). cbn [mbind result_bind].
  destruct (negb (i mod c =? 0) && (l0 - n =? 0)) eqn:Eend.
  { apply andb_true_iff in Eend as [_ Eend%Z.eqb_eq]. replace (i + n - i) with n by lia. exists n, out1.
    split; [done|]. split_and!; try lia; apply Hr. }
  assert (Hmore : n < l0).
  { apply andb_false_iff in Eend as [Eend%negb_false_iff%Z.eqb_eq|Eend%Z.eqb_neq]; [rewrite Hz by done|]; lia. }
  assert (Hal' : (i + n) mod c = 0) by (destruct Hal; [done|lia]). assert (Hl1 : vlen out1 = vlen output) by apply Hr.
  destruct (whole_blocks m (i + n) (l0 - n) Hm) as (Hidx & Hbi & Hnb & Hbl & Hgot); try done; try lia. fold c in Hidx, Hbi, Hnb, Hbl, Hgot.
  cbn [BulkOperation.bulk_operation_of mbind result_bind]. set (bi := (i + n) / c) in *. set (nb := (i + n + (l0 - n)) / c - bi) in *.
  rewrite (vfrom_in (blocks m)), (vfrom_in out1) by lia. cbn [mbind result_bind BulkOperation.decode_long_to_long].
  destruct (sb_decode (bits_per_value m) HB (drop (Z.to_nat bi) (blocks m)) (drop (Z.to_nat n) out1) nb) as (os & -> & Hros).
  { by apply Forall_drop. } { rewrite vlen_drop by lia. lia. } { rewrite vlen_drop by lia. rewrite <- Evpb. fold c. lia. }
  cbn [mbind result_bind]. rewrite <- Evpb in Hros. fold c in Hros.
  assert (Hros' : bulk_read (sb_val m) (i + n) (nb * c) (drop (Z.to_nat n) out1) os).
  { eapply bulk_read_ext; [|exact Hros]. cbn beta. intros k Hk. rewrite Z.add_0_l.
    pose proof (Z.div_mod k c ltac:(lia)). pose proof (Z.mod_pos_bound k c ltac:(lia)). assert (0 ≤ k / c) by (apply Z.div_pos; lia).
    replace (i + n + k) with ((bi + k / c) * value_per_block m + k mod c) by (fold c; lia).
    rewrite sb_val_at by (done || lia). by rewrite nthz_drop by lia. }
  assert (Hn2 : 0 ≤ n ≤ vlen output) by lia. assert (Hnn : 0 ≤ nb * c) by nia.
  pose proof (bulk_read_append _ _ _ _ _ _ _ Hn2 Hr Hros' Hnn) as Hr2.
  destruct (Z.ltb_spec i (i + n + nb * c)).
  - replace (i + n + nb * c - i) with (n + nb * c) by lia. eexists _, _. split; [reflexivity|]. split_and!; try lia; apply Hr2.
  - assert (n = 0) as -> by lia. assert (nb * c = 0) as E0 by lia. rewrite E0, !Z.add_0_r, !Z.sub_0_r in *.
    rewrite vfrom_in by (split; [lia|apply vlen_nonneg]). cbn [mbind result_bind]. change (Z.to_nat 0) with 0%nat.
    rewrite drop_0. pose proof (proj1 Hr2). rewrite as_u_id by (unfold is_u; lia).
    destruct (reader_bulk_get_spec sb_wf sb_val get_impl sb_small sb_gets m i (vback out1 0 os) l0)
      as (n' & out' & Hrun & Hn' & Hsz & Hr'); try done; try lia. cbn in Hrun. rewrite Hrun. cbn [mbind result_bind].
    exists n', out'. split; [done|]. pose proof (proj1 Hr'). cbn in Hsz. split_and!; try lia. split; [lia|].
    intros k Hk. rewrite (proj2 Hr') by lia. destruct (k <? n'); [done|]. rewrite (proj2 Hr2) by lia.
    by rewrite (proj2 (Z.ltb_ge k 0)) by lia.
Qed.

(** The head of [bulk_set]: the loop compares the position in [arr], not the number
    of values written, with the space left in the block. *)
Definition head_count (m : t) (ob off len : Z) : Z := Z.max 0 (Z.min len (value_per_block m - ob - off)).

Lemma sb_set_head m arr ob len idx off : sb_wf m → 0 ≤ off → 0 ≤ len → off + len ≤ vlen arr →
  0 ≤ idx → idx + len ≤ value_count m → (∀ k, 0 ≤ k < len → fits (bits_per_value m) (nthz arr (off + k))) →
  let n := head_count m ob off len in
  ∃ m', set_head m arr ob len idx off = Ok (len - n, idx + n, off + n, m') ∧
    updated sb_wf sb_val m m' (written_from arr off idx n (sb_val m)).
Proof.
  intros Hm Hoff Hlen Harr Hidx Hvc Hfit. unfold set_head.
  destruct (while_fuel_inv (fun '(l, ix, o, m') => ∃ n, o = off + n ∧ l = len - n ∧ ix = idx + n ∧ 0 ≤ n ≤ head_count m ob off len ∧
      updated sb_wf sb_val m m' (written_from arr off idx n (sb_val m)))
    (fun '(l, _, _, _) => Z.to_nat l) (fun '(l, _, off, m) => (off + ob <? value_per_block m) && (0 <? l))
    (fun '(len, index, off, m) =>
      v ← vget arr off; m ← set_impl m index v; Ok (len - 1, index + 1, off + 1, m)))
    with (fuel := Z.to_nat len) (s := (len, idx, off, m))
    as ([[[l ix] o] m'] & -> & (n & -> & -> & -> & Hn & Hup) & Hc).
  - intros [[[l ix] o] m'] (n & -> & -> & -> & Hn & Hup) [H1%Z.ltb_lt H2%Z.ltb_lt]%andb_true_iff. unfold head_count in *.
    destruct (sb_bpv _ _ _ Hup Hm) as [Eb Ev].
    rewrite vget_nthz by lia. cbn [mbind result_bind]. pose proof Hup as [Hw Hsz _ Hv]. cbn in Hsz.
    destruct (sb_sets m' (idx + n) (nthz arr (off + n))) as (m2 & -> & Hup2); [done|lia|rewrite Eb; apply Hfit; lia|].
    cbn [mbind result_bind]. eexists. split; [done|]. split; [|lia]. exists (n + 1). split_and!; try lia.
    eapply updated_ext; [by eapply updated_trans|]. intros j Hj. cbn beta. rewrite Hv by done.
    rewrite <- (written_append arr off idx n 1) by lia. unfold written_from at 2.
    destruct (Z.eqb_spec j (idx + n)) as [->|].
    + rewrite (proj2 (Z.leb_le _ _)), (proj2 (Z.ltb_lt _ _)) by lia. cbn. f_equal. lia.
    + destruct (Z.leb_spec (idx + n) j), (Z.ltb_spec j (idx + n + 1)); cbn; done || lia.
  - exists 0. unfold head_count. split_and!; try lia. eapply updated_ext; [by apply updated_refl|]. intros j _. by rewrite written_0.
  - lia.
  - destruct (sb_bpv _ _ _ Hup Hm) as [_ Ev]. assert (n = head_count m ob off len) as ->.
    { unfold head_count in *. apply andb_false_iff in Hc as [Hc%Z.ltb_ge|Hc%Z.ltb_ge]; lia. }
    by exists m'.
Qed.

Lemma sb_set_blocks m idx len vs : sb_wf m → 0 ≤ idx → 0 ≤ len ≤ vlen vs → idx + len ≤ value_count m →
  idx mod value_per_block m = 0 → (∀ k, 0 ≤ k < len → fits (bits_per_value m) (nthz vs k)) →
  let bi := idx / value_per_block m in let nb := (idx + len) / value_per_block m - bi in
  ∃ bs, BulkOperationPackedSingleBlock.encode_long_to_long (BulkOperationPackedSingleBlock.new (bits_per_value m)) vs
          (drop (Z.to_nat bi) (blocks m)) nb = Ok bs ∧
    updated sb_wf sb_val m (with_blocks m (vback (blocks m) bi bs)) (written_from vs 0 idx (nb * value_per_block m) (sb_val m)).
Proof.
  intros Hm Hidx Hlen Hvc Hmod Hfit bi nb. pose proof Hm as (HB & Evpb & Hs & Hl & He). pose proof (sb_vpb m Hm) as [Hvpb Hvb].
  destruct (whole_blocks m idx len Hm) as (Hix & Hbi & Hnb & Hbl & Hgot); try done; try lia. fold bi in Hix, Hbi, Hnb, Hbl, Hgot. fold nb in Hnb, Hbl, Hgot.
  set (c := value_per_block m) in *.
  destruct (sb_encode (bits_per_value m) vs (drop (Z.to_nat bi) (blocks m)) nb) as (bs & -> & Hbsl & Hbsi & Hin & Hout).
  { done. } { by apply Forall_drop. } { rewrite vlen_drop by lia. lia. } { rewrite <- Evpb. lia. }
  { rewrite <- Evpb. intros k Hk. apply Hfit. lia. }
  rewrite <- Evpb in Hin. rewrite vlen_drop in Hbsl by lia. exists bs. split; [done|].
  apply sb_updated; [done|apply vback_vlen; lia| |].
  { unfold vback. apply Forall_app. split; [by apply Forall_take|done]. }
  fold c. intros k b Hk Hb Hkb. rewrite vback_nthz by lia. unfold written_from.
  destruct (Z.ltb_spec k bi).
  - rewrite <- (sb_val_at m) by (done || lia). fold c. by rewrite (proj2 (Z.leb_gt idx (k * c + b))) by nia.
  - rewrite (proj2 (Z.leb_le idx (k * c + b))) by nia. cbn [andb]. destruct (Z.ltb_spec (k * c + b) (idx + nb * c)).
    + rewrite Hin by nia. f_equal. lia.
    + rewrite Hout by nia. rewrite nthz_drop by lia. replace (bi + (k - bi)) with k by lia. by rewrite <- (sb_val_at m) by (done || lia).
Qed.

(** The source starts at its front, or the target at a block. *)
Definition sb_off (m : t) (i off : Z) : Prop := off = 0 ∨ i mod value_per_block m = 0.

Lemma sb_bulk_set m i arr off len : sb_wf m → 0 ≤ i < value_count m → 0 ≤ off → 1 ≤ len → off + len ≤ vlen arr → sb_off m i off →
  (∀ k, 0 ≤ k < len → fits (bits_per_value m) (nthz arr (off + k))) →
  ∃ n m', bulk_set_impl m i arr off len = Ok (n, m') ∧ 1 ≤ n ≤ len ∧ i + n ≤ value_count m ∧
    updated sb_wf sb_val m m' (written_from arr off i n (sb_val m)).
Proof.
  intros Hm Hi Hoff Hlen Harr Hok Hfit. pose proof Hm as (HB & Evpb & Hs & Hl & He). pose proof (sb_vpb m Hm) as [Hvpb Hvb]. unfold bulk_set_impl.
  rewrite as_u_id by (unfold is_u; lia). set (l0 := Z.min len (value_count m - i)). set (c := value_per_block m) in *.
  assert (Hhead : ∃ n m1, (if i mod c =? 0 then Ok (l0, i, off, m) else set_head m arr (i mod c) l0 i off)
        = Ok (l0 - n, i + n, off + n, m1) ∧ 0 ≤ n ≤ l0 ∧ updated sb_wf sb_val m m1 (written_from arr off i n (sb_val m)) ∧
      ((i + n) mod c = 0 ∨ n = l0) ∧ (i mod c = 0 → n = 0)).
  { pose proof (Z.mod_pos_bound i c ltac:(lia)). destruct (Z.eqb_spec (i mod c) 0) as [E|E].
    - exists 0, m. rewrite Z.sub_0_r, !Z.add_0_r. split_and!; try done; try lia.
      eapply updated_ext; [by apply updated_refl|]. intros j _. by rewrite written_0.
    - destruct Hok as [-> | ?]; [|done]. destruct (sb_set_head m arr (i mod c) l0 i 0) as (m1 & -> & Hr); try done; try lia.
      { intros k Hk. apply Hfit. lia. }
      unfold head_count in *. fold c in Hr |- *. set (n := Z.max 0 _) in *. exists n, m1. split_and!; try done; try lia. destruct (decide (n = l0)); [by right|left].
      replace (i + n) with ((i / c + 1) * c) by (pose proof (Z.div_mod i c ltac:(lia)); lia). apply Z.mod_mul. lia. }
  destruct Hhead as (n & m1 & -> & Hn & Hup & Hal & Hz). cbn [mbind result_bind].
  destruct (negb (i mod c =? 0) && (l0 - n =? 0)) eqn:Eend.
  { apply andb_true_iff in Eend as [_ Eend%Z.eqb_eq]. replace (i + n - i) with n by lia. exists n, m1.
    split; [done|]. split_and!; try lia. done. }
  assert (Hmore : n < l0).
  { apply andb_false_iff in Eend as [Eend%negb_false_iff%Z.eqb_eq|Eend%Z.eqb_neq]; [rewrite Hz by done|]; lia. }
  assert (Hal' : (i + n) mod c = 0) by (destruct Hal; [done|lia]).
  destruct (sb_bpv _ _ _ Hup Hm) as [Eb Ev]. fold c in Ev. pose proof Hup as [Hm1 Hsz1 _ Hv1]. cbn in Hsz1. rewrite Ev.
  cbn [BulkOperation.bulk_operation_of mbind result_bind].
  destruct (whole_blocks m1 (i + n) (l0 - n) Hm1) as (Hidx & Hbi & Hnb & Hbl & Hgot); try lia; [by rewrite Ev|]. rewrite Ev in Hidx, Hbi, Hnb, Hbl, Hgot.
  destruct (sb_set_blocks m1 (i + n) (l0 - n) (drop (Z.to_nat (off + n)) arr)) as (bs & Henc & Hup2); try done; try lia; [rewrite vlen_drop; lia|by rewrite Ev| |].
  { intros k Hk. rewrite nthz_drop by lia. rewrite Eb, <- Z.add_assoc. apply Hfit. lia. }
  rewrite Ev in Henc, Hup2. set (bi := (i + n) / c) in *. set (nb := (i + n + (l0 - n)) / c - bi) in *.
  rewrite (vfrom_in arr), (vfrom_in (blocks m1)) by lia. cbn [mbind result_bind BulkOperation.encode_long_to_long].
  rewrite Henc. cbn [mbind result_bind]. set (m2 := with_blocks m1 _) in *. change (value_per_block m2) with (value_per_block m1). rewrite Ev.
  assert (Hnn : 0 ≤ nb * c) by nia.
  assert (Hup3 : updated sb_wf sb_val m m2 (written_from arr off i (n + nb * c) (sb_val m))).
  { eapply updated_ext; [by eapply updated_trans|]. intros j Hj. rewrite <- written_append by lia. rewrite written_drop by lia.
    by apply written_cong, Hv1. }
  destruct (Z.ltb_spec i (i + n + nb * c)).
  - replace (i + n + nb * c - i) with (n + nb * c) by lia. eexists _, _. split; [reflexivity|]. split_and!; try lia. done.
  - assert (n = 0) as -> by lia. assert (nb * c = 0) as E0 by lia. rewrite E0, !Z.add_0_r, !Z.sub_0_r in *.
    pose proof Hup3 as [Hm2 Hsz2 Hb2 Hv2]. cbn in Hsz2. rewrite as_u_id by (unfold is_u; lia).
    destruct (mutable_bulk_set_spec sb_wf sb_val set_impl sb_small sb_sets_law m2 i arr off l0)
      as (n' & m' & Hrun & Hn' & Hsz & Hup'); try done; try (cbn; lia); try lia.
    { intros k Hk. rewrite sb_bits by done. change (bits_per_value m2) with (bits_per_value m1). rewrite Eb. apply Hfit. lia. }
    exists n', m'. cbn in Hsz. rewrite Hsz2 in Hsz. split; [exact Hrun|]. split_and!; try lia.
    eapply updated_ext; [by eapply updated_trans|]. intros j Hj. fold (written_from arr off i n' (sb_val m2) j).
    apply written_cong. rewrite Hv2 by done. by rewrite written_0.
Qed.

(** Elsewhere the head stops short of the block's end, and the blocks of the rest
    are written over the block the call started in. *)
Lemma sb_bulk_set_misplaced m i arr off len : let c := value_per_block m in let l0 := Z.min len (value_count m - i) in
  let n := head_count m (i mod c) off l0 in let nb := (i + l0) / c - i / c in
  sb_wf m → 0 ≤ i < value_count m → i mod c ≠ 0 → 1 ≤ off → 1 ≤ len → off + len ≤ vlen arr → 1 ≤ nb → off + n + nb * c ≤ vlen arr →
  Forall (fits (bits_per_value m)) arr →
  ∃ m', bulk_set_impl m i arr off len = Ok (n + nb * c, m') ∧
    updated sb_wf sb_val m m' (written_from arr (off + n) (i - i mod c) (nb * c) (sb_val m)).
Proof.
  intros c l0 n nb Hm Hi Hmod Hoff Hlen Harr Hnb Hroom Hfit. pose proof Hm as (HB & Evpb & Hs & Hl & He). pose proof (sb_vpb m Hm) as [Hvpb Hvb].
  pose proof (Z.div_mod i c ltac:(lia)) as Ei. pose proof (Z.mod_pos_bound i c ltac:(lia)) as Hob. pose proof (Z.mul_div_le (i + l0) c ltac:(lia)) as Hend.
  assert (∀ k, 0 ≤ k < vlen arr → fits (bits_per_value m) (nthz arr k)) as Hall by (intros; by apply nthz_Forall).
  assert (nb * c = c * ((i + l0) / c) - c * (i / c) ∧ c ≤ nb * c) as [Enb Hnbc] by (unfold nb in *; split; [ring|nia]).
  unfold bulk_set_impl. rewrite as_u_id by (unfold is_u; lia). fold l0. fold c. rewrite (proj2 (Z.eqb_neq (i mod c) 0)) by done.
  destruct (sb_set_head m arr (i mod c) l0 i off) as (m1 & -> & Hup); try done; try lia. { intros k Hk. apply Hall. lia. } fold n in Hup |- *.
  assert (0 ≤ n ∧ n < c - i mod c ∧ n ≤ l0) as Hn by (unfold n, head_count; fold c; lia).
  assert ((i + n) / c = i / c) as Ebi by (symmetry; apply (Z.div_unique _ _ _ (i mod c + n)); lia).
  cbn [mbind result_bind negb andb]. rewrite (proj2 (Z.eqb_neq (l0 - n) 0)) by lia.
  destruct (sb_bpv _ _ _ Hup Hm) as [Eb Ev]. fold c in Ev. pose proof Hup as [Hm1 Hsz1 _ Hv1]. cbn in Hsz1. rewrite Ev, Ebi.
  replace (i + n + (l0 - n)) with (i + l0) by lia. fold nb. assert (0 ≤ i / c) by (apply Z.div_pos; lia).
  cbn [BulkOperation.bulk_operation_of mbind result_bind]. pose proof Hm1 as (_ & _ & _ & Hl1 & _). rewrite Ev, Hsz1 in Hl1.
  destruct (sb_set_blocks m1 (i - i mod c) (nb * c) (drop (Z.to_nat (off + n)) arr)) as (bs & Henc & Hup2);
    [done|lia|rewrite vlen_drop; lia|rewrite Hsz1; lia| | |].
  { rewrite Ev. replace (i - i mod c) with (i / c * c) by lia. apply Z.mod_mul. lia. }
  { intros k Hk. rewrite nthz_drop by lia. rewrite Eb. apply Hall. lia. }
  rewrite Ev in Henc, Hup2. assert ((i - i mod c) / c = i / c) as E1 by (replace (i - i mod c) with (i / c * c) by lia; apply Z.div_mul; lia).
  assert ((i - i mod c + nb * c) / c - i / c = nb) as E2 by (rewrite Z.div_add, E1 by lia; lia). rewrite E1, E2 in Henc, Hup2.
  rewrite (vfrom_in arr), (vfrom_in (blocks m1)) by nia. cbn [mbind result_bind BulkOperation.encode_long_to_long].
  rewrite Henc. cbn [mbind result_bind]. set (m2 := with_blocks m1 _) in *. change (value_per_block m2) with (value_per_block m1). rewrite Ev.
  rewrite (proj2 (Z.ltb_lt i (i + n + nb * c))) by lia. replace (i + n + nb * c - i) with (n + nb * c) by lia. exists m2. split; [done|].
  eapply updated_ext; [by eapply updated_trans|]. intros j Hj. rewrite written_drop by lia. unfold written_from at 1 2. cbn in Hj.
  destruct ((i - i mod c <=? j) && (j <? i - i mod c + nb * c)) eqn:Ej; [done|]. rewrite Hv1 by done. unfold written_from.
  apply andb_false_iff in Ej. destruct (Z.leb_spec i j), (Z.ltb_spec j (i + n)); cbn [andb]; try done.
  destruct Ej as [Ej%Z.leb_gt|Ej%Z.ltb_ge]; lia.
Qed.

(** * [fill], [clear] and [new] *)

Lemma sb_block_value B v : 1 ≤ B ≤ 32 → fits B v →
  ∃ bv, for_range 0 (64 / B) (fun i b => Ok (Z.lor b (shl_i 64 v (i * B)))) 0 = Ok bv ∧ is_i 64 bv ∧
    ∀ b, 0 ≤ b < 64 / B → sb_pick B bv b = v.
Proof.
  intros HB Hv. destruct (vc_range B HB) as [Hvc Hvb].
  destruct (for_range_inv (fun i bv => is_i 64 bv ∧ ∀ x, 0 ≤ x < 64 → Z.testbit bv x = (x <? i * B) && Z.testbit v (x mod B))
    (fun i b => Ok (Z.lor b (shl_i 64 v (i * B)))) 0 (64 / B) 0) as (bv & -> & Hi & Hbits).
  - lia.
  - split; [apply is_i_const; lia|]. intros x Hx. rewrite Z.bits_0. by rewrite (proj2 (Z.ltb_ge x (0 * B))) by lia.
  - intros i b Hi [Hb Hbits]. eexists. split; [done|]. split; [apply is_i_lor; [lia|done|apply is_i_shl_i; lia]|].
    intros x Hx. rewrite Z.lor_spec, Hbits, tb_shl_i by lia. rewrite (proj2 (Z.ltb_lt x 64)) by lia.
    destruct (Z.ltb_spec x (i * B)).
    + rewrite (tb_neg v (x - i * B)), (proj2 (Z.ltb_lt x ((i + 1) * B))) by nia. apply orb_false_r.
    + cbn [andb orb]. destruct (Z.ltb_spec x ((i + 1) * B)); cbn [andb].
      * f_equal. apply (Z.mod_unique x B i); lia.
      * apply (fits_testbit B); [lia|done|lia].
  - exists bv. split; [done|]. split; [done|]. intros b Hb. apply sb_pick_ext; [done|lia|nia|done|].
    intros j Hj. rewrite Hbits by nia. rewrite (proj2 (Z.ltb_lt _ (64 / B * B))) by nia. cbn [andb]. f_equal.
    symmetry. apply (Z.mod_unique _ B b); lia.
Qed.

Lemma const_blocks_loop bs x a b : 0 ≤ a ≤ b → b ≤ vlen bs → Forall (is_i 64) bs → is_i 64 x →
  ∃ bs', for_range a b (fun i bs => vset bs i x) bs = Ok bs' ∧ vlen bs' = vlen bs ∧ Forall (is_i 64) bs' ∧
    ∀ k, 0 ≤ k → nthz bs' k = if (a <=? k) && (k <? b) then x else nthz bs k.
Proof.
  intros Ha Hb Hbs Hx.
  destruct (for_range_inv (fun i bs' => vlen bs' = vlen bs ∧ Forall (is_i 64) bs' ∧
     ∀ k, 0 ≤ k → nthz bs' k = if (a <=? k) && (k <? i) then x else nthz bs k)
    (fun i bs => vset bs i x) a b bs) as (bs' & -> & H); [lia| | |by exists bs'].
  - split_and!; try done. intros k Hk. destruct (Z.leb_spec a k), (Z.ltb_spec k a); done || lia.
  - intros i bs1 Hi (Hl & Hf & Hn). destruct (vset_nthz bs1 i x) as (bs2 & E & Hl2 & Hn2); [lia|]. exists bs2. split; [done|].
    split_and!; [lia|by eapply vset_Forall|]. intros k Hk. rewrite Hn2, Hn by done. destruct (Z.eqb_spec k i) as [->|].
    + by rewrite (proj2 (Z.leb_le a i)), (proj2 (Z.ltb_lt i (i + 1))) by lia.
    + destruct (Z.leb_spec a k), (Z.ltb_spec k i), (Z.ltb_spec k (i + 1)); done || lia.
Qed.

Lemma sb_fill m from to v : sb_wf m → 0 ≤ from ≤ to → to ≤ value_count m → fits (bits_per_value m) v →
  ∃ m', fill_impl m from to v = Ok m' ∧
    updated sb_wf sb_val m m' (fun j => if (from <=? j) && (j <? to) then v else sb_val m j).
Proof.
  intros Hm Hf Ht Hv. pose proof Hm as (HB & Evpb & Hs & Hl & He). pose proof (sb_vpb m Hm) as [Hvpb Hvb]. unfold fill_impl.
  rewrite as_u_id by (unfold is_u; lia). rewrite Z.shiftl_mul_pow2 by lia. change (2 ^ 1) with 2. set (c := value_per_block m) in *.
  assert (Hv' : fits (get_bits_per_value m) v) by by apply sb_fits.
  destruct (Z.ltb_spec (to - from) (c * 2)); [by apply (mutable_fill_spec sb_wf sb_val set_impl sb_sets_law)|].
  assert (Hhead : ∃ fi m1, (if from mod c =? 0 then Ok (from, m)
      else for_range (from mod c) c (fun _ '(fi, m) => m ← set_impl m fi v; Ok (fi + 1, m)) (from, m)) = Ok (fi, m1) ∧
      from ≤ fi < to ∧ fi mod c = 0 ∧
      updated sb_wf sb_val m m1 (fun j => if (from <=? j) && (j <? fi) then v else sb_val m j)).
  { pose proof (Z.mod_pos_bound from c ltac:(lia)). destruct (Z.eqb_spec (from mod c) 0) as [E|E].
    - exists from, m. split_and!; try done; try lia. eapply updated_ext; [by apply updated_refl|]. intros j Hj. cbn beta.
      destruct (Z.leb_spec from j), (Z.ltb_spec j from); done || lia.
    - destruct (fill_head_spec sb_wf sb_val set_impl sb_sets_law m (from mod c) c from v) as (m1 & -> & Hup); try done; try (cbn; lia).
      exists (from + (c - from mod c)), m1. split_and!; try done; try lia.
      replace (from + (c - from mod c)) with ((from / c + 1) * c) by (pose proof (Z.div_mod from c ltac:(lia)); lia). apply Z.mod_mul. lia. }
  destruct Hhead as (fi & m1 & -> & Hfi & Hfin & Hup1). cbn [mbind result_bind].
  destruct (sb_bpv _ _ _ Hup1 Hm) as [Eb Ev]. fold c in Ev. pose proof Hup1 as [Hm1 Hsz1 _ Hv1]. cbn in Hsz1. rewrite Ev, Eb.
  destruct (sb_block_value (bits_per_value m) v HB Hv) as (bv & Hbv & Hbvi & Hpick). rewrite <- Evpb in Hbv, Hpick. fold c in Hbv, Hpick.
  rewrite Hbv. cbn [mbind result_bind]. apply Z.div_exact in Hfin; [|lia].
  set (fb := fi / c) in *. assert (Htb : c * (to / c) ≤ to < c * (to / c) + c).
  { pose proof (Z.div_mod to c ltac:(lia)). pose proof (Z.mod_pos_bound to c ltac:(lia)). lia. }
  set (tb := to / c) in *. pose proof Hm1 as (_ & _ & _ & Hl1 & Hi1). rewrite Ev, Hsz1 in Hl1. fold c in Hl1.
  destruct (const_blocks_loop (blocks m1) bv fb tb) as (bs & -> & Hbl & Hbi & Hbn); try done; try nia.
  cbn [mbind result_bind]. set (m2 := with_blocks m1 bs). change (value_per_block m2) with (value_per_block m1). rewrite Ev.
  assert (Hup2 : updated sb_wf sb_val m1 m2 (fun j => if (fi <=? j) && (j <? c * tb) then v else sb_val m1 j)).
  { apply sb_updated; try done. rewrite Ev, Eb. fold c. intros k b Hk Hb Hkb. rewrite Hbn by done.
    destruct (Z.leb_spec fb k) as [Hle|Hgt]; cbn [andb].
    - rewrite (proj2 (Z.leb_le fi (k * c + b))) by nia. cbn [andb]. destruct (Z.ltb_spec k tb).
      + rewrite (proj2 (Z.ltb_lt (k * c + b) (c * tb))) by nia. by apply Hpick.
      + rewrite (proj2 (Z.ltb_ge (k * c + b) (c * tb))) by nia. rewrite <- Ev, (sb_val_at m1) by (done || lia). by rewrite Eb.
    - rewrite (proj2 (Z.leb_gt fi (k * c + b))) by nia. cbn [andb]. rewrite <- Ev, (sb_val_at m1) by (done || lia). by rewrite Eb. }
  pose proof (updated_trans _ _ _ _ _ _ _ Hup1 Hup2) as [Hm2 Hsz2 Hb2 _]. pose proof Hup2 as [_ _ _ Hv2].
  destruct (mutable_fill_spec sb_wf sb_val set_impl sb_sets_law m2 (c * tb) to v) as (m' & Hrun & Hup'); try done; try nia.
  { rewrite Hsz2. exact Ht. } { by rewrite Hb2. }
  exists m'. split; [exact Hrun|]. eapply updated_ext; [exact (updated_trans _ _ _ _ _ _ _ (updated_trans _ _ _ _ _ _ _ Hup1 Hup2) Hup')|].
  intros j Hj. cbn in Hj. cbn beta. rewrite Hv2, Hv1 by (cbn; lia).
  assert (fb ≤ tb) by (apply Z.div_le_mono; lia). assert (fi ≤ c * tb ≤ to) as Htb' by nia. clear - Hfi Htb'. set (q := c * tb) in *. clearbody q.
  destruct (Z.leb_spec q j), (Z.leb_spec fi j), (Z.leb_spec from j), (Z.ltb_spec j to), (Z.ltb_spec j fi), (Z.ltb_spec j q);
    try reflexivity; lia.
Qed.

Lemma sb_pick_0 B b : 1 ≤ B ≤ 32 → 0 ≤ b → sb_pick B 0 b = 0.
Proof.
  intros HB Hb. apply (fits_inj B); [lia|by apply sb_pick_fits|apply fits_0; lia|]. intros j Hj.
  rewrite sb_pick_testbit by lia. by rewrite !Z.bits_0, !andb_false_r.
Qed.

Lemma sb_clear m : sb_wf m → ∃ m', clear_impl m = Ok m' ∧ updated sb_wf sb_val m m' (fun _ => 0).
Proof.
  intros Hm. unfold clear_impl. pose proof Hm as (HB & Evpb & Hs & Hl & He).
  destruct (const_blocks_loop (blocks m) 0 0 (vlen (blocks m))) as (bs & -> & Hbl & Hbi & Hbn); try done.
  { pose proof (vlen_nonneg (blocks m)). lia. }
  cbn [mbind result_bind]. exists (with_blocks m bs). split; [done|]. apply sb_updated; try done.
  intros k b Hk Hb Hkb. rewrite Hbn, (proj2 (Z.leb_le 0 k)), (proj2 (Z.ltb_lt k _)) by nia. cbn [andb]. apply sb_pick_0; lia.
Qed.

Lemma sb_new n B : 0 ≤ n < 2 ^ 31 → 1 ≤ B ≤ 32 → sb_wf (new n B) ∧ ∀ j, 0 ≤ j → sb_val (new n B) j = 0.
Proof.
  intros Hn HB. destruct (vc_range B HB) as [Hvc Hvb].
  pose proof (Z.div_mod n (64 / B) ltac:(lia)). pose proof (Z.mod_pos_bound n (64 / B) ltac:(lia)). assert (0 ≤ n / (64 / B)) by (apply Z.div_pos; lia).
  assert (Hcap : n ≤ 64 / B * required_capacity n (64 / B) ∧ 0 ≤ required_capacity n (64 / B)).
  { unfold required_capacity. destruct (Z.eqb_spec (n mod (64 / B)) 0); nia. }
  split.
  - split_and!; unfold new; cbn [bits_per_value value_per_block value_count blocks]; try lia; [|by apply Forall_replicate].
    rewrite vlen_replicate; lia.
  - intros j Hj. unfold sb_val, new. cbn [bits_per_value value_per_block blocks].
    pose proof (Z.mod_pos_bound j (64 / B) ltac:(lia)).
    assert (nthz (replicate (Z.to_nat (required_capacity n (64 / B))) 0) (j / (64 / B)) = 0) as ->; [|apply sb_pick_0; lia].
    unfold nthz. destruct (replicate _ 0 !! _) as [x|] eqn:E; [|done]. by apply lookup_replicate in E as [-> _].
Qed.

#[global] Program Instance sb_packs : Packs t := {| val := sb_val; wf := sb_wf; bulk_off := sb_off |}.
Next Obligation. apply sb_small. Qed.
Next Obligation. intros m Hm. rewrite sb_bits by done. destruct Hm. lia. Qed.
Next Obligation.
  intros m i Hm Hi. rewrite sb_bits by done. destruct (sb_place m i Hm Hi) as (_ & ? & _). apply sb_pick_fits; [apply Hm|lia].
Qed.
Next Obligation. apply sb_gets. Qed.
Next Obligation. apply sb_sets_law. Qed.
Next Obligation. apply sb_bulk_get. Qed.
Next Obligation. by left. Qed.
Next Obligation.
  intros m i arr off len Hm Hi Hoff Hlen Harr Hok Hfit. destruct (sb_bulk_set m i arr off len) as (n & m' & H1 & H2 & H3 & H4); try done.
  - intros k Hk. rewrite <- sb_bits by done. by apply Hfit.
  - exists n, m'. split_and!; try done; try lia.
Qed.
Next Obligation. intros m from to v Hm Hf Ht Hv%sb_fits; [|done]. by apply sb_fill. Qed.
Next Obligation. apply sb_clear. Qed.
