(* ===== verification/PackedCopyFacts.v ===== *)
(** Clients of the packed arrays, proved against their promise: the enum that
    dispatches between them, the copy from one to another, and [GrowableWriter],
    which moves its values to a wider array when one does not fit. *)

From S2P Require Import Prelude Float32 DataIO Numeric NumericFacts PackedBulk PackedBulkFacts PackedSingleFacts PackedMutable PackedArrayFacts Packed64Facts PackedSBFacts.
Open Scope Z_scope.

(** * MutableEnum *)

Section enum.
Import MutableEnum.

Definition enum_val (m : t) : Z → Z :=
  match m with
  | MDirect8 m => @val _ _ direct8_packs m
  | MDirect16 m => @val _ _ direct16_packs m
  | MDirect32 m => @val _ _ direct32_packs m
  | MDirect64 m => @val _ _ direct64_packs m
  | MPacked8TB m => @val _ _ packed8_packs m
  | MPacked16TB m => @val _ _ packed16_packs m
  | MPacked64 m => val m
  | MPacked64SB m => val m
  | MPackedIntsNull _ => fun _ => 0
  end.

(** The array without bits is never built by the factory. *)
Definition enum_wf (m : t) : Prop :=
  match m with
  | MDirect8 m => @wf _ _ direct8_packs m
  | MDirect16 m => @wf _ _ direct16_packs m
  | MDirect32 m => @wf _ _ direct32_packs m
  | MDirect64 m => @wf _ _ direct64_packs m
  | MPacked8TB m => @wf _ _ packed8_packs m
  | MPacked16TB m => @wf _ _ packed16_packs m
  | MPacked64 m => wf m
  | MPacked64SB m => wf m
  | MPackedIntsNull _ => False
  end.

(** [Packed64SingleBlock] mistakes the offset for a position in the block. *)
Definition enum_off (m : t) (i off : Z) : Prop :=
  match m with MPacked64SB m => bulk_off m i off | _ => True end.

(** A law of the array inside is a law of the enum. *)
Ltac each m := destruct m as [m|m|m|m|m|m|m|m|m];
  [pose direct8_packs as P|pose direct16_packs as P|pose direct32_packs as P|pose direct64_packs as P
  |pose packed8_packs as P|pose packed16_packs as P|pose p64_packs as P|pose sb_packs as P|intros []].
Ltac wrap := cbn [mutable set bulk_set fill clear unit_write write mbind result_bind];
  match goal with H : _ = Ok _ |- _ => rewrite H end; cbn [mbind result_bind].
Ltac lift := match goal with H : updated _ _ _ _ _ |- _ => destruct H; constructor; assumption end.

#[global] Program Instance enum_packs : Packs t := {| val := enum_val; wf := enum_wf; bulk_off := enum_off |}.
Next Obligation. intros m. each m; apply (wf_size (Packs := P) m). Qed.
Next Obligation. intros m. each m; apply (wf_bits (Packs := P) m). Qed.
Next Obligation. intros m i. each m; apply (val_fits (Packs := P) m i). Qed.
Next Obligation. intros m i. each m; apply (get_law (Packs := P) m i). Qed.
Next Obligation.
  intros m i v. each m; intros Hm Hi Hv; destruct (set_law (Packs := P) m i v Hm Hi Hv) as (m' & Hrun & Hup); wrap;
    eexists; (split; [reflexivity|]); lift.
Qed.
Next Obligation. intros m i output len. each m; apply (bulk_get_law (Packs := P) m i output len). Qed.
Next Obligation. intros m i. destruct m; try done. by left. Qed.
Next Obligation.
  intros m i arr off len. each m; intros Hm Hi Hoff Hlen Harr Hok Hfit;
    destruct (bulk_set_law (Packs := P) m i arr off len Hm Hi Hoff Hlen Harr Hok Hfit) as (n & m' & Hrun & Hn & Hsz & Hup); wrap;
    eexists _, _; (split; [reflexivity|]); (split; [exact Hn|]); (split; [exact Hsz|]); lift.
Qed.
Next Obligation.
  intros m from to v. each m; intros Hm Hf Ht Hv;
    destruct (fill_law (Packs := P) m from to v Hm Hf Ht Hv) as (m' & Hrun & Hup); wrap;
    eexists; (split; [reflexivity|]); lift.
Qed.
Next Obligation.
  intros m. each m; intros Hm; destruct (clear_law (Packs := P) m Hm) as (m' & Hrun & Hup); wrap;
    eexists; (split; [reflexivity|]); lift.
Qed.
End enum.

(** * The factory *)

Lemma supported_bits B : Formats.single_block_supported B = true → 1 ≤ B ≤ 32.
Proof.
  unfold Formats.single_block_supported. rewrite existsb_exists. intros (x & Hx & ->%Z.eqb_eq).
  repeat (destruct Hx as [<-|Hx]; [lia|]). done.
Qed.

(** [m] is a fresh array of [n] zeros of at least [B] bits. *)
Definition fresh (n B : Z) (m : MutableEnum.t) : Prop :=
  wf m ∧ size m = n ∧ B ≤ get_bits_per_value m ∧ ∀ j, 0 ≤ j < n → val m j = 0.

Lemma by_format_fresh n B f : 0 ≤ n → n * 64 + 7 < 2 ^ 31 →
  match f with Packed => 1 ≤ B ≤ 64 | PackedSingleBlock => Formats.single_block_supported B = true end →
  ∃ m, get_mutable_by_format n B f = Ok m ∧ fresh n B m.
Proof.
  intros Hn Hs Hf. unfold get_mutable_by_format. destruct f.
  - assert (Hd : ∀ w (load : Z → Z) (elem : Z → Prop), (elem 0 ∧ load 0 = 0) → direct_wf w elem (direct_new w n) ∧
       ∀ j, 0 ≤ j < n → direct_val load (direct_new w n) j = 0) by (intros; apply direct_new_wf; done || lia).
    destruct (Z.eqb_spec B 8) as [->|]; [|destruct (Z.eqb_spec B 16) as [->|]; [|destruct (Z.eqb_spec B 32) as [->|];
      [|destruct (Z.eqb_spec B 64) as [->|]]]].
    + eexists. split; [reflexivity|]. destruct (Hd 8 (fun v => v) (is_u 8)) as [H1 H2]; [done|]. by split_and!.
    + eexists. split; [reflexivity|]. destruct (Hd 16 as_u16 (is_i 16)) as [H1 H2]; [apply signed_zero; lia|]. by split_and!.
    + eexists. split; [reflexivity|]. destruct (Hd 32 as_u32 (is_i 32)) as [H1 H2]; [apply signed_zero; lia|]. by split_and!.
    + eexists. split; [reflexivity|]. destruct (Hd 64 (fun v => v) (is_i 64)) as [H1 H2]; [done|]. by split_and!.
    + destruct ((B =? 24) && (n <=? Formats.PACKED8_THREE_BLOCKS_MAX_SIZE)) eqn:E24.
      { apply andb_true_iff in E24 as [->%Z.eqb_eq Hmx%Z.leb_le].
        destruct (three_new_wf 8 (fun v => v) (is_u 8) ltac:(lia) ltac:(done) n ltac:(lia)) as (m & Hnew & Hw & Hsz & Hz).
        unfold Packed8ThreeBlocks.new. rewrite Hnew. eexists. split; [reflexivity|]. split_and!; try done.
        destruct Hw as (_ & _ & Hb & _). cbn. lia. }
      destruct ((B =? 48) && (n <=? Formats.PACKED16_THREE_BLOCKS_MAX_SIZE)) eqn:E48.
      { apply andb_true_iff in E48 as [->%Z.eqb_eq Hmx%Z.leb_le].
        destruct (three_new_wf 16 as_u16 (is_i 16) ltac:(lia) ltac:(apply signed_zero; lia) n ltac:(split; [lia|exact Hmx]))
          as (m & Hnew & Hw & Hsz & Hz).
        unfold Packed16ThreeBlocks.new. rewrite Hnew. eexists. split; [reflexivity|]. split_and!; try done.
        destruct Hw as (_ & _ & Hb & _). cbn. lia. }
      rewrite as_u_id by (unfold is_u; lia). destruct (p64_new n B) as [Hw Hz]; [lia|lia|nia|].
      eexists. split; [reflexivity|]. split; [exact Hw|]. split; [done|]. split; [|intros j Hj; apply Hz; lia].
      pose proof (p64_bits _ Hw) as Hb. cbn in Hb |- *. lia.
  - pose proof (supported_bits B Hf). rewrite as_u_id by (unfold is_u; lia). destruct (sb_new n B) as [Hw Hz]; [lia|lia|].
    eexists. split; [reflexivity|]. split; [exact Hw|]. split; [done|]. split; [|intros j Hj; apply Hz; lia].
    pose proof (sb_bits _ Hw) as Hb. cbn in Hb |- *. lia.
Qed.

Lemma find_single_block_spec fuel mx b acc : ∀ bpv B, Formats.find_single_block fuel bpv mx b acc = Some B →
  bpv ≤ B ≤ mx ∧ Formats.is_supported PackedSingleBlock B = true.
Proof.
  induction fuel as [|f IH]; intros bpv B; cbn [Formats.find_single_block]; [done|].
  destruct (Z.ltb_spec mx bpv); [done|]. destruct (_ && _) eqn:E.
  - intros [= <-]. apply andb_true_iff in E as [E _]. split; [lia|done].
  - intros HB. destruct (IH _ _ HB). split; [lia|done].
Qed.

(** The chosen width is at least the one asked for, and the format supports it. *)
Lemma fastest_spec n b r : 1 ≤ b ≤ 64 →
  let '(f, B) := Formats.fastest n b r in
  b ≤ B ∧ match f with Packed => 1 ≤ B ≤ 64 | PackedSingleBlock => Formats.single_block_supported B = true end.
Proof.
  intros Hb. unfold Formats.fastest. cbv zeta. set (mx := as_i32 _).
  pose proof (as_i_range 32 (b + f32_as_i32 (f32_mul (f32_min Formats.FASTEST (f32_max Formats.COMPACT r)) (f32_of_Z b))) ltac:(lia)) as [_ Hmx].
  fold mx in Hmx.
  repeat match goal with |- context [if ?c then _ else _] =>
    lazymatch c with _ && _ => destruct c eqn:?; [cbn; rewrite !andb_true_iff, ?Z.leb_le in *; split; lia|] end end.
  destruct (Formats.find_single_block _ _ _ _ _) as [B|] eqn:E; [|lia].
  apply find_single_block_spec in E as [HB Hs]. cbn [Formats.is_supported] in Hs.
  rewrite as_u_id in Hs by (unfold is_u; lia). split; [lia|done].
Qed.

Lemma by_ratio_fresh n b r : 0 ≤ n → n * 64 + 7 < 2 ^ 31 → 1 ≤ b ≤ 64 →
  ∃ m, get_mutable_by_ratio n b r = Ok m ∧ fresh n b m.
Proof.
  intros Hn Hs Hb. unfold get_mutable_by_ratio. pose proof (fastest_spec (as_i32 n) b r Hb) as Hf.
  destruct (Formats.fastest _ _ _) as [f B]. destruct Hf as [HB Hf].
  destruct (by_format_fresh n B f Hn Hs) as (m & -> & Hw & Hsz & Hbm & Hz); [by destruct f|].
  exists m. split; [done|]. split_and!; try done. lia.
Qed.

(** * Copying *)

Lemma shift_down_spec buf w n : 0 ≤ w → 0 ≤ n → w + n ≤ vlen buf →
  ∃ buf', shift_down buf w n = Ok buf' ∧ vlen buf' = vlen buf ∧ ∀ k, 0 ≤ k < n → nthz buf' k = nthz buf (w + k).
Proof.
  intros Hw Hn Hl. unfold shift_down.
  destruct (for_range_inv (fun i b => vlen b = vlen buf ∧
     (∀ k, 0 ≤ k < i → nthz b k = nthz buf (w + k)) ∧ ∀ k, i ≤ k → nthz b k = nthz buf k)
    (fun i buf => v ← vget buf (i + w); vset buf i v) 0 n buf) as (b & -> & Hb & Hv & _);
    [lia|split_and!; intros; done || lia| |by exists b].
  intros i b Hi (Hb & Hlo & Hhi). rewrite vget_nthz by lia. cbn [mbind result_bind].
  destruct (vset_nthz b i (nthz b (i + w))) as (b' & -> & Hb' & Hv); [lia|]. exists b'. split; [done|].
  split; [congruence|]. split; intros k Hk; rewrite Hv by lia.
  - destruct (Z.eqb_spec k i) as [->|]; [|apply Hlo; lia]. rewrite Hhi by lia. f_equal. lia.
  - destruct (Z.eqb_spec k i); [lia|]. apply Hhi. lia.
Qed.

Section copy.
Context {S D : Type} `{HPS : Packs S} `{HPD : Packs D}.
Context (dest0 : D) (d0 : Z) (g : Z → Z).

(** [dest] is [dest0] with the first [n] values of [g] written from [d0] on. *)
Definition copied (dest : D) (n : Z) : Prop :=
  updated wf val dest0 dest (fun j => if (d0 <=? j) && (j <? d0 + n) then g (j - d0) else val dest0 j).

Lemma copied_0 : wf dest0 → copied dest0 0.
Proof using.
  intros Hw. eapply updated_ext; [by apply updated_refl|]. intros j Hj. cbn beta.
  destruct (Z.leb_spec d0 j), (Z.ltb_spec j (d0 + 0)); done || lia.
Qed.

Lemma copied_more dest dest' n w (h : Z → Z) : copied dest n → 0 ≤ n → 0 ≤ w →
  updated wf val dest dest' (fun j => if (d0 + n <=? j) && (j <? d0 + n + w) then h (j - (d0 + n)) else val dest j) →
  (∀ k, 0 ≤ k < w → h k = g (n + k)) → copied dest' (n + w).
Proof using.
  intros Hc Hn Hw Hup Hh. eapply updated_ext; [by eapply updated_trans|]. intros j Hj. cbn beta.
  rewrite (up_val _ _ _ _ _ Hc) by done.
  destruct (Z.leb_spec (d0 + n) j), (Z.ltb_spec j (d0 + n + w)), (Z.leb_spec d0 j), (Z.ltb_spec j (d0 + (n + w))),
    (Z.ltb_spec j (d0 + n)); cbn; try lia; try done.
  rewrite Hh by lia. f_equal. lia.
Qed.

Hypothesis at_least_0 : 0 ≤ d0.

(** One write of the first [r] values of the buffer. *)
Lemma write_buf dest n r buf : copied dest n → 0 ≤ n → 1 ≤ r ≤ vlen buf → d0 + n + r ≤ size dest0 →
  (∀ k, 0 ≤ k < r → nthz buf k = g (n + k) ∧ fits (get_bits_per_value dest0) (g (n + k))) →
  ∃ w dest', bulk_set dest (d0 + n) buf 0 r = Ok (w, dest') ∧ 1 ≤ w ≤ r ∧ copied dest' (n + w).
Proof using at_least_0.
  intros Hc Hn Hr Hroom Hbuf.
  destruct (bulk_set_law dest (d0 + n) buf 0 r) as (w & dest' & Hrun & Hw & Hsz & Hup).
  - apply (up_wf _ _ _ _ _ Hc).
  - rewrite (up_size _ _ _ _ _ Hc). lia.
  - done.
  - lia.
  - lia.
  - apply bulk_off_0.
  - intros k Hk. rewrite (up_bits _ _ _ _ _ Hc), Z.add_0_l. destruct (Hbuf k Hk) as [-> ?]. done.
  - exists w, dest'. split_and!; try done; try lia. apply (copied_more dest dest' n w (nthz buf)); try done; try lia.
    intros k Hk. apply Hbuf. lia.
Qed.

Lemma drain_spec fuel : ∀ dest n r buf, copied dest n → 0 ≤ n → 0 ≤ r ≤ vlen buf → r < 2 ^ 64 → r ≤ Z.of_nat fuel →
  d0 + n + r ≤ size dest0 →
  (∀ k, 0 ≤ k < r → nthz buf k = g (n + k) ∧ fits (get_bits_per_value dest0) (g (n + k))) →
  ∃ dest', drain_buf fuel dest (d0 + n) r buf = Ok dest' ∧ copied dest' (n + r).
Proof using at_least_0.
  induction fuel as [|fuel IH]; intros dest n r buf Hc Hn Hr H64 Hfuel Hroom Hbuf; cbn [drain_buf];
    (destruct (Z.ltb_spec 0 r); [|assert (r = 0) as -> by lia; exists dest; by rewrite Z.add_0_r]); [lia|].
  destruct (write_buf dest n r buf) as (w & dest' & -> & Hw & Hc'); try done; try lia. cbn [mbind result_bind].
  rewrite as_u_id by (unfold is_u; lia).
  destruct (shift_down_spec buf w (r - w)) as (buf' & -> & Hl' & Hv'); [lia..|]. cbn [mbind result_bind].
  rewrite <- Z.add_assoc. destruct (IH dest' (n + w) (r - w) buf') as (dest'' & Hrun & Hc''); try done; try lia.
  - intros k Hk. rewrite Hv' by lia. rewrite <- Z.add_assoc. apply Hbuf. lia.
  - exists dest''. split; [done|]. by replace (n + r) with (n + w + (r - w)) by lia.
Qed.

Context (src : S) (s0 len : Z).
Hypothesis src_wf : wf src.
Hypothesis dest_wf : wf dest0.
Hypothesis src_room : 0 ≤ s0 ∧ 0 ≤ len ∧ s0 + len ≤ size src.
Hypothesis dest_room : d0 + len ≤ size dest0.
Hypothesis source : ∀ k, 0 ≤ k < len → g k = val src (s0 + k) ∧ fits (get_bits_per_value dest0) (g k).

(** The reading half of a round: [remain] values are in the buffer, and more
    are read behind them. *)
Lemma read_buf n remain buf : 0 ≤ n → 0 ≤ remain < vlen buf → n + remain < len →
  (∀ k, 0 ≤ k < remain → nthz buf k = g (n + k)) →
  ∃ got os, bulk_get src (s0 + n + remain) (drop (Z.to_nat remain) buf) (Z.min (len - n - remain) (vlen buf - remain))
      = Ok (got, os) ∧ 1 ≤ got ≤ Z.min (len - n - remain) (vlen buf - remain) ∧
    vlen (vback buf remain os) = vlen buf ∧
    ∀ k, 0 ≤ k < remain + got → nthz (vback buf remain os) k = g (n + k).
Proof using src_wf src_room source.
  intros Hn Hr Hlen Hbuf.
  assert (vlen (drop (Z.to_nat remain) buf) = vlen buf - remain) as Hd by (apply vlen_drop; lia).
  destruct (bulk_get_law src (s0 + n + remain) (drop (Z.to_nat remain) buf) (Z.min (len - n - remain) (vlen buf - remain)))
    as (got & os & Hrun & Hgot & Hsz & Hos & Hv); [done|lia|lia|].
  exists got, os. split_and!; try done; try lia.
  - apply vback_vlen; lia.
  - intros k Hk. rewrite vback_nthz by lia. destruct (Z.ltb_spec k remain); [apply Hbuf; lia|].
    rewrite Hv, (proj2 (Z.ltb_lt (k - remain) got)) by lia. destruct (source (n + k)) as [-> _]; [lia|]. f_equal. lia.
Qed.

Lemma copy_loop_spec fuel : ∀ dest n remain buf, copied dest n → 0 ≤ n → 0 ≤ remain < vlen buf → n + remain ≤ len →
  (∀ k, 0 ≤ k < remain → nthz buf k = g (n + k)) → len - n < Z.of_nat fuel → vlen buf < 2 ^ 31 →
  ∃ dest', copy_loop fuel src dest (s0 + n + remain) (d0 + n) (len - n - remain) remain buf = Ok dest' ∧ copied dest' len.
Proof using All.
  pose proof (wf_size src src_wf) as Hsrc.
  induction fuel as [|fuel IH]; intros dest n remain buf Hc Hn Hr Hlen Hbuf Hfuel Hsmall; [lia|]. cbn [copy_loop].
  destruct (Z.ltb_spec 0 (len - n - remain)).
  - rewrite as_u_id by (unfold is_u; lia). rewrite vfrom_in by lia. cbn [mbind result_bind].
    destruct (read_buf n remain buf) as (got & os & -> & Hgot & Hl & Hv); try done; try lia. cbn [mbind result_bind].
    set (buf1 := vback buf remain os) in *. rewrite as_u_id by (unfold is_u; lia).
    destruct (write_buf dest n (remain + got) buf1) as (w & dest' & -> & Hw & Hc'); try done; try lia.
    { intros k Hk. split; [by apply Hv|]. apply source. lia. }
    cbn [mbind result_bind]. rewrite as_u_id by (unfold is_u; lia).
    assert (∃ buf2, (if w <? remain + got then shift_down buf1 w (remain + got - w) else Ok buf1) = Ok buf2 ∧
      vlen buf2 = vlen buf ∧ ∀ k, 0 ≤ k < remain + got - w → nthz buf2 k = g (n + w + k)) as (buf2 & -> & Hl2 & Hv2).
    { destruct (Z.ltb_spec w (remain + got)); [|exists buf1; split_and!; intros; done || lia].
      destruct (shift_down_spec buf1 w (remain + got - w)) as (b & -> & Hb & Hbv); [lia..|].
      exists b. split_and!; [done|lia|]. intros k Hk. rewrite Hbv, Hv by lia. f_equal. lia. }
    cbn [mbind result_bind].
    destruct (IH dest' (n + w) (remain + got - w) buf2) as (dest'' & Hrun & Hc''); try done; try lia.
    exists dest''. split; [|done]. rewrite <- Hrun. f_equal; lia.
  - replace len with (n + remain) by lia. apply drain_spec; try done; try lia.
    intros k Hk. split; [by apply Hbuf|]. apply source. lia.
Qed.

(** The copy moves [len] values, whatever the size of its buffer. *)
Lemma packed_ints_copy_spec mem : 0 ≤ mem →
  ∃ dest', packed_ints_copy src s0 dest0 d0 len mem = Ok dest' ∧ copied dest' len.
Proof using All.
  intros Hmem. pose proof (wf_size src src_wf) as Hsrc. unfold packed_ints_copy.
  rewrite Z.shiftr_div_pow2 by lia. pose proof (Z.div_pos mem (2 ^ 3) Hmem ltac:(lia)) as Hcap.
  set (cap := mem / 2 ^ 3) in *. destruct (Z.eqb_spec cap 0).
  - destruct (for_range_inv (fun i x => x.1.1 = d0 + i ∧ x.1.2 = s0 + i ∧ copied x.2 i)
      (fun _ '(d, s, dest) => v ← get src s; dest ← set dest d v; Ok (d + 1, s + 1, dest)) 0 len (d0, s0, dest0))
      as ([[d s] dest] & -> & _ & _ & Hc); [lia| | |by exists dest].
    { cbn. split_and!; try lia. by apply copied_0. }
    intros i [[d s] dest] Hi (Hd & Hs & Hc). cbn in Hd, Hs, Hc. subst d s. destruct (source i Hi) as [Hg Hfit].
    rewrite get_law by (done || lia). cbn [mbind result_bind]. rewrite <- Hg.
    destruct (set_law dest (d0 + i) (g i)) as (dest' & -> & Hup);
      [apply (up_wf _ _ _ _ _ Hc)|rewrite (up_size _ _ _ _ _ Hc); lia|by rewrite (up_bits _ _ _ _ _ Hc)|].
    cbn [mbind result_bind]. eexists. split; [done|]. cbn. split_and!; try lia.
    apply (copied_more dest dest' i 1 (fun _ => g i)); try done; try lia; [|intros k Hk; f_equal; lia].
    eapply updated_ext; [exact Hup|]. intros j Hj. cbn beta.
    destruct (Z.eqb_spec j (d0 + i)), (Z.leb_spec (d0 + i) j), (Z.ltb_spec j (d0 + i + 1)); done || lia.
  - destruct (Z.ltb_spec 0 len).
    + unfold copy_by_buf. set (buf := replicate _ 0).
      assert (vlen buf = Z.min len cap) as Hb by (apply vlen_replicate; lia).
      destruct (copy_loop_spec (Datatypes.S (Datatypes.S (Z.to_nat len))) dest0 0 0 buf) as (dest' & Hrun & Hc);
        try lia; [by apply copied_0|]. exists dest'. split; [|done]. by rewrite !Z.add_0_r, !Z.sub_0_r in Hrun.
    + exists dest0. split; [done|]. replace len with 0 by lia. by apply copied_0.
Qed.
End copy.
