(* ===== verification/GrowableFacts.v ===== *)
(** [GrowableWriter]: the writer widens itself so that every [i64] fits, and
    behaves as a plain array of [i64] through any sequence of its operations. *)

From S2P Require Import Prelude Float32 DataIO Numeric NumericFacts PackedBulk PackedBulkFacts PackedSingleFacts PackedMutable PackedArrayFacts Packed64Facts PackedSBFacts PackedCopyFacts.
Open Scope Z_scope.

(** * Widths *)

Lemma fits_bits_required B v : 1 ≤ B → is_i 64 v → fits B v ↔ bits_required 64 v ≤ B.
Proof.
  intros HB Hv. unfold fits, bits_required, leading_zeros. pose proof (as_u_range 64 v ltac:(lia)) as [Hu _].
  destruct (Z.eqb_spec (as_u 64 v) 0) as [E|].
  - fold as_u64 in E |- *. rewrite E. pose proof (pow2_pos B ltac:(lia)). split; [lia|done].
  - rewrite Z.log2_lt_pow2 by lia. split; [lia|]. split; [done|lia].
Qed.

Lemma bits_required_range v : is_i 64 v → 1 ≤ bits_required 64 v ≤ 64.
Proof.
  intros Hv. split; [unfold bits_required; lia|]. apply fits_bits_required; [lia|done|].
  split; [done|]. apply as_u_range. lia.
Qed.

Lemma tb_max_value B j : 1 ≤ B < 64 → 0 ≤ j < 64 → Z.testbit (max_value B) j = (j <? B).
Proof.
  intros HB Hj. unfold max_value. destruct (Z.eqb_spec B 64); [lia|].
  rewrite tb_lnot, tb_shl_i by lia. rewrite (proj2 (Z.ltb_lt j 64)) by lia.
  destruct (Z.ltb_spec j B); [by rewrite tb_neg by lia|by rewrite tb_m1 by lia].
Qed.

Lemma is_i_max_value B : is_i 64 (max_value B).
Proof. unfold max_value. destruct (B =? 64); [done|]. apply is_i_lnot; [lia|]. apply is_i_shl_i. lia. Qed.

(** The test of [ensure_capacity]. *)
Lemma mask_fits B v : 1 ≤ B ≤ 64 → is_i 64 v → Z.land v (GrowableWriter.mask B) = v ↔ fits B v.
Proof.
  intros HB Hv. unfold GrowableWriter.mask. destruct (Z.eqb_spec B 64) as [->|].
  - rewrite Z.land_m1_r. split; [|done]. intros _. split; [done|]. apply as_u_range. lia.
  - split.
    + intros E. apply fits_bits; [lia|done|]. intros j Hj. rewrite <- E, Z.land_spec, tb_max_value by lia.
      rewrite (proj2 (Z.ltb_ge j B)) by lia. by rewrite andb_false_r.
    + intros Hf. apply (is_i_inj 64); [lia|apply is_i_land; [lia|done|apply is_i_max_value]|done|].
      intros j Hj. rewrite Z.land_spec, tb_max_value by lia. destruct (Z.ltb_spec j B); [by rewrite andb_true_r|].
      by rewrite (fits_testbit B v) by (done || lia).
Qed.

(** [max |= v] over the values bounds every one of them. *)
Lemma fits_lor B v w : 0 ≤ B ≤ 64 → is_i 64 v → is_i 64 w → fits B (Z.lor v w) ↔ fits B v ∧ fits B w.
Proof.
  intros HB Hv Hw. split.
  - intros Hf. split; (apply fits_bits; [done|done|]); intros j Hj;
      pose proof (fits_testbit B _ j ltac:(lia) Hf Hj) as E; rewrite Z.lor_spec in E; by destruct (orb_false_elim _ _ E).
  - intros [Hfv Hfw]. apply fits_bits; [done|by apply is_i_lor; [lia| |]|]. intros j Hj.
    by rewrite Z.lor_spec, !(fits_testbit B) by (done || lia).
Qed.

Lemma is_i_foldl_lor vs : ∀ a, is_i 64 a → Forall (is_i 64) vs → is_i 64 (foldl Z.lor a vs).
Proof.
  induction vs as [|v vs IH]; intros a Ha Hvs; [done|]. apply Forall_cons_iff in Hvs as [Hv Hvs].
  cbn. apply IH; [by apply is_i_lor; [lia| |]|done].
Qed.

Lemma fits_foldl_lor B vs : 0 ≤ B ≤ 64 → ∀ a, is_i 64 a → Forall (is_i 64) vs →
  fits B (foldl Z.lor a vs) ↔ fits B a ∧ Forall (fits B) vs.
Proof.
  intros HB. induction vs as [|v vs IH]; intros a Ha Hvs; cbn; [by split; [|intros []]|].
  apply Forall_cons_iff in Hvs as [Hv Hvs]. rewrite IH, fits_lor, Forall_cons_iff by (done || apply is_i_lor; done || lia). tauto.
Qed.

(** * The plain array *)

(** [l] with [vs] written from [i] on. *)
Definition overwrite (l : list Z) (i : Z) (vs : list Z) : list Z :=
  take (Z.to_nat i) l ++ vs ++ drop (Z.to_nat (i + vlen vs)) l.

Lemma overwrite_vlen l i vs : 0 ≤ i → i + vlen vs ≤ vlen l → vlen (overwrite l i vs) = vlen l.
Proof.
  intros Hi Hl. pose proof (vlen_nonneg vs). unfold overwrite. rewrite !vlen_app, vlen_take, vlen_drop by lia. lia.
Qed.
Lemma nthz_overwrite l i vs j : 0 ≤ i → i + vlen vs ≤ vlen l → 0 ≤ j →
  nthz (overwrite l i vs) j = if (i <=? j) && (j <? i + vlen vs) then nthz vs (j - i) else nthz l j.
Proof.
  intros Hi Hl Hj. pose proof (vlen_nonneg vs). unfold overwrite. rewrite nthz_app, vlen_take by lia.
  destruct (Z.ltb_spec j i), (Z.leb_spec i j); try lia; cbn [andb]; [by rewrite nthz_take by lia|].
  rewrite nthz_app by lia. destruct (Z.ltb_spec (j - i) (vlen vs)), (Z.ltb_spec j (i + vlen vs)); try lia.
  rewrite nthz_drop by lia. f_equal. lia.
Qed.

(** The calls a client makes. *)
Inductive call : Type :=
  | Cset (index value : Z)
  | Cfill (from to value : Z)
  | Cbulk_set (index : Z) (arr : list Z) (off len : Z)
  | Cclear
  | Cresize (new_size : Z).

(** [c] is allowed on an array of [n] values, and leaves one of the returned size. *)
Definition allowed (n : Z) (c : call) : Prop :=
  match c with
  | Cset i v => 0 ≤ i < n ∧ is_i 64 v
  | Cfill from to v => 0 ≤ from ≤ to ∧ to ≤ n ∧ is_i 64 v
  | Cbulk_set i arr off len => 0 ≤ i < n ∧ 0 ≤ off ∧ 1 ≤ len ∧ off + len ≤ vlen arr ∧ Forall (is_i 64) arr
  | Cclear => True
  | Cresize m => 0 ≤ m ∧ m * 64 + 7 < 2 ^ 31
  end.
Definition size_after (n : Z) (c : call) : Z := match c with Cresize m => m | _ => n end.

(** [len] values of the source array. *)
Definition slice (arr : list Z) (off len : Z) : list Z := take (Z.to_nat len) (drop (Z.to_nat off) arr).

Lemma slice_vlen arr off len : 0 ≤ off → 0 ≤ len → off + len ≤ vlen arr → vlen (slice arr off len) = len.
Proof. intros Ho Hl Ha. unfold slice. rewrite vlen_take; [done|]. rewrite vlen_drop by lia. lia. Qed.
Lemma nthz_slice arr off len k : 0 ≤ off → 0 ≤ k < len → nthz (slice arr off len) k = nthz arr (off + k).
Proof. intros Ho Hk. unfold slice. rewrite nthz_take by lia. by apply nthz_drop; lia. Qed.

(** What a call does to a plain array, given what it answers: [bulk_set] answers how
    many values it has stored, at least one, and those are stored; the others answer nothing. *)
Inductive array_step : list Z → call → option Z → list Z → Prop :=
  | step_set l i v : array_step l (Cset i v) None (overwrite l i [v])
  | step_fill l from to v : array_step l (Cfill from to v) None (overwrite l from (replicate (Z.to_nat (to - from)) v))
  | step_bulk l i arr off len n : 1 ≤ n ≤ len → i + n ≤ vlen l →
      array_step l (Cbulk_set i arr off len) (Some n) (overwrite l i (slice arr off n))
  | step_clear l : array_step l Cclear None (replicate (length l) 0)
  | step_resize l n : array_step l (Cresize n) None (take (Z.to_nat n) l ++ replicate (Z.to_nat (n - vlen l)) 0).
Inductive array_run : list Z → list call → list (option Z) → list Z → Prop :=
  | run_nil l : array_run l [] [] l
  | run_cons l c a l1 cs rs l2 : array_step l c a l1 → array_run l1 cs rs l2 → array_run l (c :: cs) (a :: rs) l2.

(** The answers leave the plain array no choice. *)
Lemma array_run_functional l cs rs l1 l2 : array_run l cs rs l1 → array_run l cs rs l2 → l1 = l2.
Proof.
  intros H1. revert l2. induction H1 as [l|l c a l1 cs rs l2 Hs H1 IH]; intros l2' H2; inversion H2 as [|? ? ? l1' ? ? ? Hs' H2']; subst; [done|].
  apply IH. assert (l1 = l1') as ->; [|done]. by inversion Hs; subst; inversion Hs'; subst.
Qed.

(** * An array of a fixed width *)

Section fixed_width.
Context {M : Type} `{HP : Packs M}.

(** The packed array holds the values of [l]. *)
Definition keeps (m : M) (l : list Z) : Prop :=
  wf m ∧ size m = vlen l ∧ ∀ j, 0 ≤ j < vlen l → val m j = nthz l j.

Lemma keeps_overwrite m l m' i vs f : keeps m l → updated wf val m m' f → 0 ≤ i → i + vlen vs ≤ vlen l →
  (∀ j, 0 ≤ j < vlen l → f j = if (i <=? j) && (j <? i + vlen vs) then nthz vs (j - i) else val m j) →
  keeps m' (overwrite l i vs) ∧ get_bits_per_value m' = get_bits_per_value m.
Proof.
  intros (Hw & Hs & Hv) [H1 H2 H3 H4] Hi Hr Hf. split; [|done]. unfold keeps. rewrite overwrite_vlen by done.
  split_and!; try done; [lia|]. intros j Hj. rewrite H4, Hf, nthz_overwrite, Hv by lia. done.
Qed.

Lemma set_keeps m l i v : keeps m l → 0 ≤ i < vlen l → fits (get_bits_per_value m) v →
  ∃ m', set m i v = Ok m' ∧ keeps m' (overwrite l i [v]) ∧ get_bits_per_value m' = get_bits_per_value m.
Proof.
  intros Hk Hi Hv. destruct (set_law m i v) as (m' & -> & Hup); [apply Hk|destruct Hk as (_ & -> & _); done|done|].
  exists m'. split; [done|]. eapply keeps_overwrite; [exact Hk|exact Hup|lia|change (vlen [v]) with 1; lia|].
  intros j Hj. cbn beta. change (vlen [v]) with 1.
  destruct (Z.eqb_spec j i) as [->|]; [|destruct (Z.leb_spec i j), (Z.ltb_spec j (i + 1)); done || lia].
  rewrite Z.leb_refl, (proj2 (Z.ltb_lt i (i + 1))), Z.sub_diag by lia. done.
Qed.

Lemma fill_keeps m l from to v : keeps m l → 0 ≤ from ≤ to → to ≤ vlen l → fits (get_bits_per_value m) v →
  ∃ m', fill m from to v = Ok m' ∧ keeps m' (overwrite l from (replicate (Z.to_nat (to - from)) v)) ∧
    get_bits_per_value m' = get_bits_per_value m.
Proof.
  intros Hk Hf Ht Hv. destruct (fill_law m from to v) as (m' & -> & Hup);
    [apply Hk|done|destruct Hk as (_ & -> & _); done|done|].
  exists m'. split; [done|]. eapply keeps_overwrite; [exact Hk|exact Hup|lia|rewrite vlen_replicate; lia|].
  intros j Hj. cbn beta. rewrite vlen_replicate by lia. replace (from + (to - from)) with to by lia.
  destruct (Z.leb_spec from j), (Z.ltb_spec j to); try done. cbn. by rewrite nthz_replicate by lia.
Qed.

Lemma bulk_set_keeps m l i arr off len : keeps m l → 0 ≤ i < vlen l → 0 ≤ off → 1 ≤ len → off + len ≤ vlen arr → bulk_off m i off →
  Forall (fits (get_bits_per_value m)) (slice arr off len) →
  ∃ n m', bulk_set m i arr off len = Ok (n, m') ∧ 1 ≤ n ≤ len ∧ i + n ≤ vlen l ∧
    keeps m' (overwrite l i (slice arr off n)) ∧ get_bits_per_value m' = get_bits_per_value m.
Proof.
  intros Hk Hi Hoff Hlen Harr Hok Hall. destruct (bulk_set_law m i arr off len) as (n & m' & -> & Hn & Hsz & Hup);
    [apply Hk|destruct Hk as (_ & -> & _); done|done|done|done|done| |].
  { intros k Hk'. rewrite <- (nthz_slice arr off len k) by lia. apply nthz_Forall; [exact Hall|]. rewrite slice_vlen; lia. }
  rewrite (proj1 (proj2 Hk)) in Hsz. exists n, m'. do 3 (split; [done || lia|]).
  eapply keeps_overwrite; [exact Hk|exact Hup|lia|rewrite slice_vlen; lia|]. intros j Hj. cbn beta.
  rewrite slice_vlen by lia. destruct (Z.leb_spec i j), (Z.ltb_spec j (i + n)); try done. cbn. by rewrite nthz_slice by lia.
Qed.

Lemma clear_keeps m l : keeps m l →
  ∃ m', clear m = Ok m' ∧ keeps m' (replicate (length l) 0) ∧ get_bits_per_value m' = get_bits_per_value m.
Proof.
  intros (Hw & Hs & Hv). destruct (clear_law m Hw) as (m' & -> & [H1 H2 H3 H4]). exists m'. split; [done|]. split; [|done].
  rewrite <- to_nat_vlen. pose proof (vlen_nonneg l). unfold keeps. rewrite vlen_replicate by done.
  split_and!; try done; [lia|]. intros j Hj. rewrite nthz_replicate by done. apply H4. lia.
Qed.

(** Reading gives the values of [l]. *)
Definition reads (m : M) (l : list Z) : Prop :=
  size m = vlen l ∧ (∀ i, 0 ≤ i < vlen l → get m i = Ok (nthz l i)) ∧
  ∀ i output len, 0 ≤ i < vlen l → 1 ≤ len ≤ vlen output → ∃ k output',
    bulk_get m i output len = Ok (k, output') ∧ 1 ≤ k ≤ len ∧ i + k ≤ vlen l ∧ bulk_read (nthz l) i k output output'.

Lemma keeps_reads m l : keeps m l → reads m l.
Proof.
  intros (Hw & Hs & Hv). split_and!; [done| |].
  - intros i Hi. rewrite get_law by (done || lia). f_equal. by apply Hv.
  - intros i output len Hi Hlen. destruct (bulk_get_law m i output len) as (k & out & Hg & Hk & Hr & Ho & Hov); [done|lia|done|].
    exists k, out. split_and!; try done; try lia. split; [done|]. intros j Hj. rewrite Hov by done.
    destruct (Z.ltb_spec j k); [|done]. apply Hv. lia.
Qed.

(** One call on the array, with its answer; [resize] is not among its methods. *)
Definition call_on (m : M) (c : call) : result (option Z * M) :=
  match c with
  | Cset i v => m ← set m i v; Ok (None, m)
  | Cfill from to v => m ← fill m from to v; Ok (None, m)
  | Cbulk_set i arr off len => '(n, m) ← bulk_set m i arr off len; Ok (Some n, m)
  | Cclear => m ← clear m; Ok (None, m)
  | Cresize _ => Panic
  end.
Fixpoint calls_on (m : M) (cs : list call) : result (list (option Z) * M) :=
  match cs with [] => Ok ([], m) | c :: cs => '(a, m) ← call_on m c; '(rs, m) ← calls_on m cs; Ok (a :: rs, m) end.

(** The calls that fit the array: indices within it, values of its width, and
    an offset its [bulk_set] can serve. *)
Definition within (m : M) (c : call) : Prop :=
  allowed (size m) c ∧
  match c with
  | Cset _ v | Cfill _ _ v => fits (get_bits_per_value m) v
  | Cbulk_set i arr off len => Forall (fits (get_bits_per_value m)) (slice arr off len) ∧ bulk_off m i off
  | Cclear => True
  | Cresize _ => False
  end.
Fixpoint within_all (m : M) (cs : list call) : Prop :=
  match cs with [] => True | c :: cs => within m c ∧ match call_on m c with Ok (_, m) => within_all m cs | _ => True end end.

Lemma call_keeps m l c : keeps m l → within m c →
  ∃ a m' l', call_on m c = Ok (a, m') ∧ array_step l c a l' ∧ keeps m' l' ∧ vlen l' = vlen l.
Proof.
  intros Hk [Ha Hc]. rewrite (proj1 (proj2 Hk)) in Ha. destruct c as [i v|from to v|i arr off len| |n]; cbn [allowed call_on] in *.
  - destruct Ha as [Hi _]. destruct (set_keeps m l i v Hk Hi Hc) as (m' & -> & Hk' & Hb). eexists _, _, _.
    split_and!; [done|constructor|done|]. apply overwrite_vlen; [lia|]. change (vlen [v]) with 1. lia.
  - destruct Ha as (Hf & Ht & _). destruct (fill_keeps m l from to v Hk Hf Ht Hc) as (m' & -> & Hk' & Hb). eexists _, _, _.
    split_and!; [done|constructor|done|]. apply overwrite_vlen; [lia|]. rewrite vlen_replicate; lia.
  - destruct Ha as (Hi & Hoff & Hlen & Harr & _), Hc as [Hc Hok].
    destruct (bulk_set_keeps m l i arr off len Hk Hi Hoff Hlen Harr Hok Hc) as (n & m' & -> & Hn & Hr & Hk' & Hb).
    eexists _, _, _. split_and!; [done|by apply (step_bulk l i arr off len n)|done|].
    apply overwrite_vlen; [lia|]. rewrite slice_vlen; lia.
  - destruct (clear_keeps m l Hk) as (m' & -> & Hk' & Hb). eexists _, _, _. split_and!; [done|constructor|done|].
    unfold vlen. by rewrite length_replicate.
  - done.
Qed.

Lemma calls_keep cs : ∀ m l, keeps m l → within_all m cs →
  ∃ rs m' l', calls_on m cs = Ok (rs, m') ∧ array_run l cs rs l' ∧ keeps m' l'.
Proof.
  induction cs as [|c cs IH]; intros m l Hk Hall; [by exists [], m, l; split_and!; [|constructor|]|].
  cbn in Hall. destruct Hall as [Hc Hcs]. destruct (call_keeps m l c Hk Hc) as (a & m1 & l1 & E & Hstep & Hk1 & Hlen).
  rewrite E in Hcs. destruct (IH m1 l1 Hk1 Hcs) as (rs & m2 & l2 & Hrun & Hsteps & Hk2).
  exists (a :: rs), m2, l2. cbn. rewrite E. cbn. rewrite Hrun. split_and!; [done|by econstructor|done].
Qed.
End fixed_width.

(** * The writer *)

Section writer.
Import GrowableWriter.

Definition gw_val (w : t) : Z → Z := val (current w).
Definition gw_wf (w : t) : Prop := wf (current w) ∧ current_mark w = mask (get_bits_per_value (current w)).

Lemma ensure_fits w v : gw_wf w → fits (get_bits_per_value w) v → ensure_capacity w v = Ok w.
Proof.
  intros [Hw Hm] Hf. unfold ensure_capacity. rewrite Hm. pose proof (wf_bits _ Hw).
  rewrite (proj2 (Z.eqb_eq _ _)); [done|]. apply mask_fits; [done|apply Hf|done].
Qed.

Lemma gw_lift w m f : gw_wf w → updated wf val (current w) m f →
  updated gw_wf gw_val w (mk (current_mark w) m (acceptable_overhead_ratio w)) f.
Proof.
  intros [Hw Hm] [H1 H2 H3 H4]. constructor; try done. split; [done|]. cbn. cbn in H3. by rewrite H3.
Qed.

Lemma on_current_law f w g : gw_wf w → (∃ m, f (current w) = Ok m ∧ updated wf val (current w) m g) →
  ∃ w', on_current f w = Ok w' ∧ updated gw_wf gw_val w w' g.
Proof.
  intros Hw (m & E & Hup). unfold on_current. rewrite E. eexists. split; [done|]. by apply gw_lift.
Qed.

(** As long as the values fit, the writer is the array it holds. *)
#[global] Program Instance gw_packs : Packs t := {| val := gw_val; wf := gw_wf; bulk_off w := bulk_off (current w) |}.
Next Obligation. intros w [Hw _]. exact (wf_size _ Hw). Qed.
Next Obligation. intros w [Hw _]. exact (wf_bits _ Hw). Qed.
Next Obligation. intros w i [Hw _] Hi. exact (val_fits _ i Hw Hi). Qed.
Next Obligation. intros w i [Hw _] Hi. exact (get_law _ i Hw Hi). Qed.
Next Obligation.
  intros w i v Hw Hi Hv. cbn. unfold set_impl. rewrite ensure_fits by done.
  apply on_current_law; [done|]. exact (set_law (current w) i v (proj1 Hw) Hi Hv).
Qed.
Next Obligation. intros w i output len [Hw _] Hi Hl. exact (bulk_get_law _ i output len Hw Hi Hl). Qed.
Next Obligation. intros w i. apply bulk_off_0. Qed.
Next Obligation.
  intros w i arr off len Hw Hi Hoff Hlen Harr Hok Hfit. cbn. unfold bulk_set_impl.
  assert (Forall (fits (get_bits_per_value w)) (slice arr off len)) as Hall.
  { apply Forall_lookup_2. intros k x [Hx Hk]%lookup_take_Some. rewrite lookup_drop in Hx.
    specialize (Hfit (Z.of_nat k) ltac:(lia)). unfold nthz in Hfit. by rewrite Z2Nat.inj_add, Nat2Z.id, Hx in Hfit by lia. }
  rewrite ensure_fits; [|done|].
  - cbn [mbind result_bind]. destruct (bulk_set_law (current w) i arr off len) as (n & m & E & Hn & Hs & Hup);
      [apply Hw|done..|]. rewrite E. eexists _, _. split; [done|]. split_and!; try done; try lia. by apply gw_lift.
  - apply fits_foldl_lor; [|done| |].
    + pose proof (wf_bits _ (proj1 Hw)) as HB. change (0 ≤ get_bits_per_value (current w) ≤ 64). lia.
    + eapply Forall_impl; [|exact Hall]. by intros v [].
    + split; [|done]. apply fits_0. pose proof (wf_bits _ (proj1 Hw)) as HB. change (0 ≤ get_bits_per_value (current w)). lia.
Qed.
Next Obligation.
  intros w from to v Hw Hf Ht Hv. cbn. unfold fill_impl. rewrite ensure_fits by done.
  apply on_current_law; [done|]. exact (fill_law (current w) from to v (proj1 Hw) Hf Ht Hv).
Qed.
Next Obligation. intros w Hw. apply on_current_law; [done|]. exact (clear_law (current w) (proj1 Hw)). Qed.

(** Widening keeps the values. *)
Lemma ensure_law w v : gw_wf w → size w * 64 + 7 < 2 ^ 31 → is_i 64 v →
  ∃ w', ensure_capacity w v = Ok w' ∧ gw_wf w' ∧ size w' = size w ∧ get_bits_per_value w ≤ get_bits_per_value w' ∧
    fits (get_bits_per_value w') v ∧ ∀ j, 0 ≤ j < size w → gw_val w' j = gw_val w j.
Proof.
  intros Hw Hs Hv. destruct (Z.eq_dec (Z.land v (current_mark w)) v) as [E|E].
  - exists w. assert (fits (get_bits_per_value w) v).
    { rewrite (proj2 Hw) in E. apply mask_fits in E; [done|apply (wf_bits _ (proj1 Hw))|done]. }
    rewrite ensure_fits by done. by split_and!.
  - unfold ensure_capacity. rewrite (proj2 (Z.eqb_neq _ _) E). destruct Hw as [Hw Hm].
    pose proof (wf_bits _ Hw) as HB. pose proof (wf_size _ Hw) as Hsz. pose proof (bits_required_range v Hv) as Hr.
    rewrite as_i_id by (try done; unfold is_i; lia).
    assert (get_bits_per_value (current w) < bits_required 64 v) as Hlt.
    { apply Z.nle_gt. intros Hle. apply E. rewrite Hm. apply mask_fits; [done|done|]. by apply fits_bits_required; [lia| |]. }
    destruct (by_ratio_fresh (size (current w)) (bits_required 64 v) (acceptable_overhead_ratio w))
      as (next & -> & Hnw & Hns & Hnb & Hnz); [apply Hsz|exact Hs|done|]. cbn [mbind result_bind].
    destruct (packed_ints_copy_spec next 0 (val (current w)) ltac:(lia) (current w) 0 (size (current w)) Hw Hnw)
      with (mem := DEFAULT_BUFFER_SIZE) as (next' & -> & [H1 H2 H3 H4]); [lia|lia| |done|].
    { intros k Hk. split; [done|]. eapply fits_mono; [|by apply val_fits]. lia. }
    eexists. split; [done|]. split; [by split|].
    change (size next' = size (current w) ∧ get_bits_per_value (current w) ≤ get_bits_per_value next' ∧
      fits (get_bits_per_value next') v ∧ ∀ j, 0 ≤ j < size (current w) → val next' j = val (current w) j).
    rewrite H2, H3, Hns. split_and!; try done; try lia.
    + apply fits_bits_required; [lia|done|lia].
    + intros j Hj. rewrite H4 by lia.
      rewrite (proj2 (Z.leb_le 0 j)), (proj2 (Z.ltb_lt j _)) by lia. cbn. f_equal. lia.
Qed.

(** A call on the writer. *)
Definition do_call (w : t) (c : call) : result (option Z * t) :=
  match c with Cresize n => w ← resize w n; Ok (None, w) | _ => call_on w c end.
Fixpoint do_calls (w : t) (cs : list call) : result (list (option Z) * t) :=
  match cs with [] => Ok ([], w) | c :: cs => '(a, w) ← do_call w c; '(rs, w) ← do_calls w cs; Ok (a :: rs, w) end.

(** The writer holds the array [l], which is small enough for the block counts. *)
Definition holds (w : t) (l : list Z) : Prop := keeps w l ∧ vlen l * 64 + 7 < 2 ^ 31.

(** The value that decides the width of the array before a call. *)
Definition widest (c : call) : Z :=
  match c with
  | Cset _ v | Cfill _ _ v => v
  | Cbulk_set _ arr off len => foldl Z.lor 0 (slice arr off len)
  | Cclear | Cresize _ => 0
  end.

(** The calls the writer can take: indices within it, any [i64], and an offset that
    the array it holds, widened for the values, can serve. *)
Definition possible (w : t) (c : call) : Prop :=
  allowed (size w) c ∧
  match c with
  | Cbulk_set i _ off _ => match ensure_capacity w (widest c) with Ok w => bulk_off w i off | _ => True end
  | _ => True
  end.
Fixpoint possible_all (w : t) (cs : list call) : Prop :=
  match cs with [] => True | c :: cs => possible w c ∧ match do_call w c with Ok (_, w) => possible_all w cs | _ => True end end.

Lemma ensured w l v : holds w l → is_i 64 v →
  ∃ w1, ensure_capacity w v = Ok w1 ∧ holds w1 l ∧ fits (get_bits_per_value w1) v.
Proof.
  intros ((Hw & Hs & Hv) & Hl) Hi. destruct (ensure_law w v Hw) as (w1 & -> & Hw1 & Hs1 & _ & Hf & Hval); [lia|done|].
  exists w1. split; [done|]. split; [|done]. split; [|done]. split_and!; try done; [lia|].
  intros j Hj. change (gw_val w1 j = nthz l j). rewrite Hval by lia. by apply Hv.
Qed.

(** Widening first makes no difference to a call. *)
Lemma call_ensured w w1 c : (∀ n, c ≠ Cresize n) → c ≠ Cclear →
  ensure_capacity w (widest c) = Ok w1 → ensure_capacity w1 (widest c) = Ok w1 → call_on w c = call_on w1 c.
Proof.
  intros Hr Hc E E1. destruct c as [i v|from to v|i arr off len| |n]; try done; cbn [widest] in *;
    unfold call_on; cbn; unfold set_impl, fill_impl, bulk_set_impl; cbv zeta; change (take (Z.to_nat ?n) (drop (Z.to_nat ?o) ?a)) with (slice a o n); by rewrite E, E1.
Qed.

Lemma widest_fits w w1 c : gw_wf w1 → size w1 = size w → possible w c → (∀ m, c ≠ Cresize m) →
  ensure_capacity w (widest c) = Ok w1 → fits (get_bits_per_value w1) (widest c) → within w1 c.
Proof.
  intros Hw Hs [Ha Hok] Hr E Hf. pose proof (wf_bits w1 Hw). unfold within. rewrite Hs. split; [done|].
  destruct c as [i v|from to v|i arr off len| |m]; try done; [|by specialize (Hr m)].
  rewrite E in Hok. cbn [allowed widest] in Ha, Hf. split; [|done]. apply fits_foldl_lor in Hf; [apply Hf|lia|done|]. apply Forall_take, Forall_drop. apply Ha.
Qed.

Lemma is_i_widest n c : allowed n c → is_i 64 (widest c).
Proof.
  destruct c as [i v|from to v|i arr off len| |m]; cbn; try (intros; done); [by intros [_ ?]|by intros (_ & _ & ?)|].
  intros (_ & _ & _ & _ & Harr). apply is_i_foldl_lor; [done|]. by apply Forall_take, Forall_drop.
Qed.

(** * Simulation *)

Lemma new_holds b n r : 1 ≤ b ≤ 64 → 0 ≤ n → n * 64 + 7 < 2 ^ 31 →
  ∃ w, new b n r = Ok w ∧ holds w (replicate (Z.to_nat n) 0) ∧ b ≤ get_bits_per_value w.
Proof.
  intros Hb Hn Hs. unfold new. destruct (by_ratio_fresh n b r Hn Hs Hb) as (m & -> & Hw & Hsz & Hbits & Hz).
  cbn [mbind result_bind]. eexists. split; [done|]. unfold holds, keeps. rewrite vlen_replicate by done.
  split; [|done]. split; [|done]. split_and!; try done. intros j Hj. rewrite nthz_replicate by done. by apply Hz.
Qed.

Lemma resize_holds w l n : holds w l → 0 ≤ n → n * 64 + 7 < 2 ^ 31 →
  ∃ w', resize w n = Ok w' ∧ holds w' (take (Z.to_nat n) l ++ replicate (Z.to_nat (n - vlen l)) 0).
Proof.
  intros ((Hw & Hs & Hv) & Hl) Hn Hsmall. unfold resize. pose proof (wf_bits w Hw) as HB.
  destruct (new_holds (get_bits_per_value w) n (acceptable_overhead_ratio w) HB Hn Hsmall)
    as (next & -> & ((Hnw & Hns & Hnv) & _) & Hnb). cbn [mbind result_bind]. rewrite vlen_replicate in Hns, Hnv by done.
  set (limit := Z.min n (size w)). pose proof (wf_size w Hw).
  destruct (packed_ints_copy_spec next 0 (val w) ltac:(lia) (current w) 0 limit (proj1 Hw) Hnw)
    with (mem := DEFAULT_BUFFER_SIZE) as (w' & Hrun & [H1 H2 H3 H4]); [change (size (current w)) with (size w); lia|lia| |done|].
  { intros k Hk. split; [done|]. eapply fits_mono; [|apply (val_fits w); [done|lia]]. lia. }
  exists w'. split; [exact Hrun|]. pose proof (vlen_nonneg l).
  assert (vlen (take (Z.to_nat n) l) = limit) as Ht by (unfold vlen, limit in *; rewrite length_take; lia).
  assert (vlen (take (Z.to_nat n) l ++ replicate (Z.to_nat (n - vlen l)) 0) = n) as Hlen.
  { rewrite vlen_app, Ht. unfold vlen at 1. rewrite length_replicate. lia. }
  unfold holds, keeps. rewrite Hlen. split; [|done]. split_and!; try done; [lia|]. intros j Hj. rewrite H4 by lia.
  rewrite nthz_app, Ht, (proj2 (Z.leb_le 0 j)), Z.add_0_l, Z.sub_0_r by lia. cbn [andb].
  destruct (Z.ltb_spec j limit).
  - rewrite nthz_take by lia. apply Hv. lia.
  - rewrite Hnv, !nthz_replicate by lia. done.
Qed.

Lemma step_holds w l c : holds w l → possible w c →
  ∃ a w' l', do_call w c = Ok (a, w') ∧ array_step l c a l' ∧ holds w' l'.
Proof.
  intros Hh Hc. pose proof (proj1 (proj2 (proj1 Hh))) as Hsz. assert ((∃ n, c = Cresize n) ∨ ∀ n, c ≠ Cresize n) as [[n ->]|Hr]
    by (destruct c; [by right..|left; by eexists]).
  - destruct Hc as [[Hn Hs] _]. destruct (resize_holds w l n Hh Hn Hs) as (w' & E & Hh'). eexists _, _, _.
    split; [cbn; by rewrite E|]. by split; [constructor|].
  - destruct (ensured w l (widest c) Hh (is_i_widest _ _ (proj1 Hc))) as (w1 & E & [Hk1 Hl] & Hf).
    assert (∃ w2, holds w2 l ∧ within w2 c ∧ call_on w c = call_on w2 c) as (w2 & Hh2 & Hin & Heq).
    { assert (c = Cclear ∨ c ≠ Cclear) as [->|Hcl] by (destruct c; (by right) || by left); [by exists w|].
      exists w1. split_and!; [done| |].
      - apply (widest_fits w); try done; [apply Hk1|]. by rewrite Hsz, (proj1 (proj2 Hk1)).
      - apply call_ensured; try done. apply ensure_fits; [apply Hk1|done]. }
    destruct (call_keeps w2 l c (proj1 Hh2) Hin) as (a & w' & l' & Hrun & Hstep & Hk' & Hlen). exists a, w', l'.
    assert (do_call w c = call_on w c) as -> by (destruct c; try done; by specialize (Hr new_size)).
    rewrite Heq. split_and!; try done. split; [done|]. by rewrite Hlen.
Qed.

Lemma calls_hold cs : ∀ w l, holds w l → possible_all w cs →
  ∃ rs w' l', do_calls w cs = Ok (rs, w') ∧ array_run l cs rs l' ∧ holds w' l'.
Proof.
  induction cs as [|c cs IH]; intros w l Hh Hall; [by exists [], w, l; split_and!; [|constructor|]|].
  cbn in Hall. destruct Hall as [Hc Hcs]. destruct (step_holds w l c Hh Hc) as (a & w1 & l1 & E & Hstep & Hh1).
  rewrite E in Hcs. destruct (IH w1 l1 Hh1 Hcs) as (rs & w2 & l2 & Hrun & Hsteps & Hh2).
  exists (a :: rs), w2, l2. cbn. rewrite E. cbn. rewrite Hrun. split_and!; [done|by econstructor|done].
Qed.

(** C8. [GrowableWriter] refines a plain array of [i64]: created with any starting width, any sequence of [set], [fill],
    [bulk_set], [clear] and [resize] within the bounds of the array succeeds, whatever the representations the writer
    moves through.  Every [bulk_set] answers a count of at least one and at most what it was asked for, and afterwards
    [get] at every index, and a [bulk_get] from it, read what the same calls leave in a plain array when each [bulk_set]
    stores exactly as many values, from its offset in the source on, as it answered.  An offset into the source other
    than 0 is allowed unless the writer holds, widened for the values, a [Packed64SingleBlock] and the index is not at
    the start of a block.  The arrays have fewer than 2^25 values or so (64 n + 7 < 2^31), for the [i32] block counts. *)
Theorem growable_refines_array b n r : 1 ≤ b ≤ 64 → 0 ≤ n → n * 64 + 7 < 2 ^ 31 →
  ∃ w, new b n r = Ok w ∧ ∀ cs, possible_all w cs →
    ∃ answers w' l, do_calls w cs = Ok (answers, w') ∧ array_run (replicate (Z.to_nat n) 0) cs answers l ∧ reads w' l.
Proof.
  intros Hb Hn Hs. destruct (new_holds b n r Hb Hn Hs) as (w & Hnew & Hh & _). exists w. split; [done|]. intros cs Hall.
  destruct (calls_hold cs w (replicate (Z.to_nat n) 0) Hh Hall) as (rs & w' & l & Hrun & Hsteps & Hk & _).
  exists rs, w', l. split_and!; try done. by apply keeps_reads.
Qed.

End writer.

(** One call of a concrete sequence: it is in range, and its result is computed. *)
Ltac in_range := repeat match goal with
  | |- _ ∧ _ => split
  | |- Forall ?P ?l => let l' := eval vm_compute in l in change (Forall P l'); repeat (apply List.Forall_cons || apply List.Forall_nil)
  | |- possible _ _ => unfold possible; cbn [allowed]
  | |- within _ _ => unfold within; cbn [allowed]
  | |- True => exact I
  | |- _ <= _ => by vm_compute
  | |- _ < _ => by vm_compute
  | |- fits _ _ => by vm_compute
  | |- is_i _ _ => by vm_compute
  | |- _ => vm_compute; exact I
  end.
Ltac next_call := match goal with
  | |- _ ∧ match ?r with _ => _ end => split; [in_range|let r' := eval vm_compute in r in change r with r'; cbv beta iota]
  end.

(** The second bulk write starts in the middle of its source. *)
Definition example_calls : list call :=
  [Cset 3 7; Cfill 1 4 300; Cbulk_set 2 [5; 6; 7] 0 3; Cset 0 (-1); Cbulk_set 1 [5; 6; 7; 8] 2 2; Cresize 9; Cclear].
Lemma growable_refines_array_witness :
  ∃ w answers w' l, GrowableWriter.new 2 6 f32_0 = Ok w ∧ do_calls w example_calls = Ok (answers, w') ∧ array_run (replicate 6 0) example_calls answers l ∧
    reads w' l.
Proof.
  destruct (growable_refines_array 2 6 f32_0) as (w & Hw & Hall); [lia|lia|lia|].
  destruct (Hall example_calls) as (rs & w' & l & H1 & H2 & H3); [|exists w, rs, w', l; auto].
  clear Hall. vm_compute in Hw. injection Hw as <-. unfold example_calls. by repeat (cbn [possible_all]; next_call).
Defined.

(** * The arrays of the factory *)

(** C9. Every array [get_mutable_by_ratio] may choose (direct, three-block, [Packed64], [Packed64SingleBlock]) refines a
    plain array: it has the size and at least the width asked for, starts with zeros, and any sequence of [set], [fill],
    [bulk_set] and [clear] within its bounds and with values of its width succeeds.  Every [bulk_set] answers a count of
    at least one and at most what it was asked for, and afterwards [get] and [bulk_get] read what the same calls leave
    in a plain array when each [bulk_set] stores exactly as many values, from its offset in the source on, as it
    answered, whether or not the values straddle blocks.  The one exception among the arguments: on a
    [Packed64SingleBlock] a [bulk_set] at an index inside a block must have the offset 0.  Sizes are those with
    64 n + 7 < 2^31. *)
Theorem factory_refines_array n b r : 0 ≤ n → n * 64 + 7 < 2 ^ 31 → 1 ≤ b ≤ 64 →
  ∃ m, get_mutable_by_ratio n b r = Ok m ∧ size m = n ∧ b ≤ get_bits_per_value m ≤ 64 ∧
    ∀ cs, within_all m cs →
      ∃ answers m' l, calls_on m cs = Ok (answers, m') ∧ array_run (replicate (Z.to_nat n) 0) cs answers l ∧ reads m' l.
Proof.
  intros Hn Hs Hb. destruct (by_ratio_fresh n b r Hn Hs Hb) as (m & Hm & Hw & Hsz & HB & Hz).
  pose proof (wf_bits m Hw). exists m. split_and!; try done; try lia. intros cs Hcs.
  destruct (calls_keep cs m (replicate (Z.to_nat n) 0)) as (rs & m' & l & Hrun & Hsteps & Hk); [|done|].
  - unfold keeps. rewrite vlen_replicate by done. split_and!; try done. intros j Hj. rewrite nthz_replicate by done. by apply Hz.
  - exists rs, m', l. split_and!; try done. by apply keeps_reads.
Qed.

Definition factory_calls : list call := [Cset 9 8191; Cbulk_set 5 [1; 2; 3; 4] 1 3; Cfill 3 80 77; Cclear].
Lemma factory_refines_array_witness :
  ∃ m answers m' l, get_mutable_by_ratio 100 13 f32_0 = Ok m ∧ calls_on m factory_calls = Ok (answers, m') ∧
    array_run (replicate 100 0) factory_calls answers l ∧ reads m' l.
Proof.
  destruct (factory_refines_array 100 13 f32_0) as (m & Hm & Hsz & HB & Hall); [lia|lia|lia|].
  destruct (Hall factory_calls) as (rs & m' & l & H1 & H2 & H3); [|exists m, rs, m', l; auto].
  clear Hall HB Hsz. vm_compute in Hm. injection Hm as <-. unfold factory_calls. by repeat (cbn [within_all]; next_call).
Defined.

(** C10. [packed_ints_copy] between two arrays of the kinds the factory builds (all but the array without bits), whose
    destination is at least as wide as the source, copies the values it is asked to and touches no other, for any ranges
    within the two arrays and any size of its buffer, down to none: it terminates although [bulk_get] and [bulk_set] may
    transfer fewer values than asked, and the values still in the buffer survive the rounds. *)
Theorem packed_ints_copy_copies (src dest : MutableEnum.t) s d len mem :
  wf src → wf dest → 0 ≤ s → 0 ≤ d → 0 ≤ len → 0 ≤ mem → s + len ≤ size src → d + len ≤ size dest →
  get_bits_per_value src ≤ get_bits_per_value dest →
  ∃ dest', packed_ints_copy src s dest d len mem = Ok dest' ∧ wf dest' ∧ size dest' = size dest ∧
    ∀ j, 0 ≤ j < size dest → get dest' j = if (d <=? j) && (j <? d + len) then get src (s + (j - d)) else get dest j.
Proof.
  intros Hsrc Hdest Hs Hd Hlen Hmem Hrs Hrd HB. pose proof (wf_bits src Hsrc).
  destruct (packed_ints_copy_spec dest d (fun k => val src (s + k)) Hd src s len Hsrc Hdest)
    with (mem := mem) as (dest' & Hrun & [H1 H2 H3 H4]); [lia|lia| |done|].
  { intros k Hk. split; [done|]. eapply fits_mono; [|apply (val_fits src); [done|lia]]. lia. }
  exists dest'. split_and!; try done. intros j Hj. rewrite get_law, H4 by (done || lia).
  destruct (Z.leb_spec d j), (Z.ltb_spec j (d + len)); cbn [andb]; by rewrite get_law by (done || lia).
Qed.
Lemma packed_ints_copy_copies_witness :
  ∃ src dest dest', get_mutable_by_format 70 5 Packed = Ok src ∧ get_mutable_by_format 80 7 PackedSingleBlock = Ok dest ∧
    packed_ints_copy src 3 dest 9 60 100 = Ok dest' ∧ get dest' 10 = get src 4.
Proof.
  destruct (by_format_fresh 70 5 Packed) as (src & Hs & Hsw & Hss & HsB & _); [lia|lia|lia|].
  destruct (by_format_fresh 80 7 PackedSingleBlock) as (dest & Hd & Hdw & Hds & HdB & _); [lia|lia|done|].
  assert (get_bits_per_value src = 5) as HB by (injection Hs as <-; reflexivity).
  destruct (packed_ints_copy_copies src dest 3 9 60 100 Hsw Hdw) as (dest' & Hrun & _ & _ & Hv);
    [lia|lia|lia|lia|lia|lia|lia|].
  exists src, dest, dest'. split; [exact Hs|]. split; [exact Hd|]. split; [exact Hrun|].
  apply (Hv 10). lia.
Defined.

(** C11. [Packed64SingleBlock::bulk_set] takes the caller's offset into the source array for a position in the block.
    Asked to write from an index inside a block ([index mod value_per_block] is not 0), out of the source from an
    offset other than 0, values that reach the next block, it answers [n + k] values written, where [k] is a whole
    number of blocks and [n] is the space left in the block less the offset (0 if that is negative); but then the [k] values
    from [off + n] in the source stand from the start of the block on, before the index, and overwrite what
    was there, and no other place changes.  (The source has the values the blocks are filled from, all of the width of the array.) *)
Theorem single_block_bulk_set_offset (m : Packed64SingleBlock.t) (index off len : Z) (arr : list Z) :
  let c := Packed64SingleBlock.value_per_block m in let len' := Z.min len (size m - index) in
  let n := Z.max 0 (Z.min len' (c - index mod c - off)) in let k := ((index + len') / c - index / c) * c in
  let start := index - index mod c in
  wf m → 0 ≤ index < size m → index mod c ≠ 0 → 1 ≤ off → 1 ≤ len → off + len ≤ vlen arr → 1 ≤ k → off + n + k ≤ vlen arr →
  Forall (fits (get_bits_per_value m)) arr →
  ∃ m', bulk_set m index arr off len = Ok (n + k, m') ∧ size m' = size m ∧
    ∀ j, 0 ≤ j < size m → get m' j = if (start <=? j) && (j <? start + k) then Ok (nthz arr (off + n + (j - start))) else get m j.
Proof.
  intros c len' n k start Hm Hi Hmod Hoff Hlen Harr Hk Hroom Hfit. rewrite sb_bits in Hfit by done.
  destruct (sb_bulk_set_misplaced m index arr off len) as (m' & Hrun & [H1 H2 H3 H4]); try done.
  { change (1 ≤ (index + len') / c - index / c). pose proof (sb_vpb m Hm) as [Hvpb _]. fold c in Hvpb. unfold k in Hk. nia. }
  exists m'. split; [exact Hrun|]. split; [done|]. intros j Hj. rewrite get_law by (done || (rewrite H2; done)). rewrite H4 by done.
  change (Ok (if (start <=? j) && (j <? start + k) then nthz arr (off + n + (j - start)) else val m j) =
    if (start <=? j) && (j <? start + k) then Ok (nthz arr (off + n + (j - start))) else get m j).
  destruct ((start <=? j) && (j <? start + k)); [done|]. by rewrite get_law.
Qed.
Lemma single_block_bulk_set_offset_witness :
  ∃ m', bulk_set (Packed64SingleBlock.new 16 8) 1 [0; 0; 0; 0; 0; 0; 0; 0; 11; 12; 13; 14; 15; 16; 17; 18] 8 8 = Ok (8, m') ∧ get m' 1 = Ok 12.
Proof.
  destruct (single_block_bulk_set_offset (Packed64SingleBlock.new 16 8) 1 8 8 [0; 0; 0; 0; 0; 0; 0; 0; 11; 12; 13; 14; 15; 16; 17; 18])
    as (m' & Hrun & _ & Hget); [apply sb_new; lia|by vm_compute|by vm_compute|lia|lia|by vm_compute|by vm_compute|by vm_compute|in_range|].
  exists m'. split; [exact Hrun|]. exact (Hget 1 ltac:(by vm_compute)).
Defined.

(** C12. The block count of a [Packed64] is computed in [i32].  For fewer than 2^31 values [n] of [B] bits, 1 to 64, with n B of 2^32 or more
    and n B + 7 below 2^32 + 2^31, the array is created with the blocks for n B - 2^32 bits only, although it claims
    all [n] values: [get] and [set] of every value that does not lie within these blocks, the last value among them, panic. *)
Theorem packed64_block_count_wraps (n B : Z) : 1 ≤ B ≤ 64 → 0 ≤ n < 2 ^ 31 → 2 ^ 32 ≤ n * B → n * B + 7 < 2 ^ 32 + 2 ^ 31 →
  let m := Packed64.new n B in let blocks := (n * B - 2 ^ 32 + 63) / 64 in
  size m = n ∧ vlen (Packed64.blocks m) = blocks ∧ 64 * blocks < n * B ∧
  ∀ j v, 0 ≤ j < n → 64 * blocks < (j + 1) * B → get m j = Panic ∧ set m j v = Panic.
Proof.
  intros HB Hn Hlo Hhi m blocks. pose proof (wrapped_blocks n B HB Hn Hlo Hhi) as Hlen. fold m in Hlen. fold blocks in Hlen.
  assert (64 * blocks ≤ n * B - 2 ^ 32 + 63) by (apply Z.mul_div_le; lia).
  split; [done|]. split; [done|]. split; [lia|]. intros j v Hj Hbeyond.
  apply (p64_beyond m); change (Packed64.bits_per_value m) with B; [lia|done|nia|]. by rewrite Hlen.
Qed.
Lemma packed64_block_count_wraps_witness : get (Packed64.new 214748365 20) 3 = Panic.
Proof.
  destruct (packed64_block_count_wraps 214748365 20) as (_ & _ & _ & Hall); [lia|lia|lia|lia|].
  refine (proj1 (Hall 3 0 _ _)); [lia|]. vm_compute. reflexivity.
Defined.
