(* ===== verification/Heap.v ===== *)
(** [BinaryHeapPub] of src/core/util/external/binary_heap.rs: a max-heap in a
    vector.  A sift moves a hole through the vector: the element is taken out, the
    slot keeps a stale copy, and dropping the hole writes the element back. *)

From S2P Require Import Prelude.
Open Scope Z_scope.

(** [Vec::pop] *)
Definition vec_pop {A} (l : list A) : option (A * list A) :=
  match rev l with [] => None | x :: r => Some (x, rev r) end.

(** * Hole *)

Module Hole.
Record t (T : Type) : Type := mk { data : list T; elt : T; pos : Z }.
Arguments mk {T}.
Arguments data {T}.
Arguments elt {T}.
Arguments pos {T}.

Section hole.
Context {T : Type}.

Definition new (data : list T) (pos : Z) : result (t T) :=
  e ← vget data pos; Ok (mk data e pos).
Definition get (h : t T) (index : Z) : result T := vget (data h) index.
Definition move_to (h : t T) (index : Z) : result (t T) :=
  x ← vget (data h) index;
  d ← vset (data h) (pos h) x;
  Ok (mk d (elt h) index).
Definition drop (h : t T) : result (list T) := vset (data h) (pos h) (elt h).
End hole.
End Hole.

(** * BinaryHeapPub *)

Module BinaryHeapPub.
Record t (T : Type) : Type := mk { data : list T }.
Arguments mk {T}.
Arguments data {T}.

Section heap.
(** [le a b] is [a <= b] of the [Ord] instance. *)
Context {T : Type} (le : T → T → bool).

Definition new : t T := mk [].
Definition len (h : t T) : Z := vlen (data h).
Definition is_empty (h : t T) : bool := len h =? 0.
Definition peek (h : t T) : option T := head (data h).
Definition clear (h : t T) : t T := mk [].
Definition into_vec (h : t T) : list T := data h.

(** Positions halve on the way up: the position itself is enough fuel. *)
Definition sift_up (d : list T) (start pos : Z) : result (Z * list T) :=
  hole ← Hole.new d pos;
  '(_, hole) ← while_fuel (S (Z.to_nat pos)) (fun '(go, hole) => (go : bool) && (start <? Hole.pos hole))
    (fun '(_, hole) =>
      let parent := (Hole.pos hole - 1) / 2 in
      x ← Hole.get hole parent;
      if le (Hole.elt hole) x then Ok (false, hole)
      else hole ← Hole.move_to hole parent; Ok (true, hole)) (true, hole);
  d ← Hole.drop hole;
  Ok (Hole.pos hole, d).

(** The greater of the two children of the hole. *)
Definition greater_child (hole : Hole.t T) (child end_ : Z) : result Z :=
  let right := child + 1 in
  if right <? end_ then
    l ← Hole.get hole child; r ← Hole.get hole right;
    Ok (if le l r then right else child)
  else Ok child.

(** Positions grow on the way down: [end_] is enough fuel. *)
Definition sift_down_range (d : list T) (pos end_ : Z) : result (list T) :=
  hole ← Hole.new d pos;
  '(_, _, hole) ← while_fuel (S (Z.to_nat end_)) (fun '(go, child, _) => (go : bool) && (child <? end_))
    (fun '(_, child, hole) =>
      child ← greater_child hole child end_;
      x ← Hole.get hole child;
      if le x (Hole.elt hole) then Ok (false, child, hole)
      else hole ← Hole.move_to hole child; Ok (true, 2 * Hole.pos hole + 1, hole))
    (true, 2 * pos + 1, hole);
  Hole.drop hole.

Definition sift_down (h : t T) (pos : Z) : result (t T) :=
  d ← sift_down_range (data h) pos (len h); Ok (mk d).

Definition sift_down_to_bottom (h : t T) (pos : Z) : result (t T) :=
  let end_ := len h in
  let start := pos in
  hole ← Hole.new (data h) pos;
  '(_, hole) ← while_fuel (S (Z.to_nat end_)) (fun '(child, _) => child <? end_)
    (fun '(child, hole) =>
      child ← greater_child hole child end_;
      hole ← Hole.move_to hole child;
      Ok (2 * Hole.pos hole + 1, hole)) (2 * pos + 1, hole);
  d ← Hole.drop hole;
  '(_, d) ← sift_up d start (Hole.pos hole);
  Ok (mk d).

Definition push (h : t T) (item : T) : result (t T) :=
  let old_len := len h in
  '(_, d) ← sift_up (data h ++ [item]) 0 old_len;
  Ok (mk d).

(** Unless the last element was the only one it changes places with the first. *)
Definition pop (h : t T) : result (option T * t T) :=
  match vec_pop (data h) with
  | None => Ok (None, h)
  | Some (item, d) =>
    if vlen d =? 0 then Ok (Some item, mk d)
    else
      top ← vget d 0;
      d ← vset d 0 item;
      h ← sift_down_to_bottom (mk d) 0;
      Ok (Some top, h)
  end.

End heap.
End BinaryHeapPub.

(** * PeekMut

    The guard gives access to the top element; dropping it restores the heap
    unless the element was popped through it. *)

Module PeekMut.
Record t (T : Type) : Type := mk { heap : BinaryHeapPub.t T; sift : bool }.
Arguments mk {T}.
Arguments heap {T}.
Arguments sift {T}.

Section peek_mut.
Context {T : Type} (le : T → T → bool).

Definition peek_mut (h : BinaryHeapPub.t T) : option (t T) :=
  if BinaryHeapPub.is_empty h then None else Some (mk h true).
Definition deref (g : t T) : result T := vget (BinaryHeapPub.data (heap g)) 0.
(** A write through [deref_mut]. *)
Definition deref_mut (g : t T) (x : T) : result (t T) :=
  d ← vset (BinaryHeapPub.data (heap g)) 0 x; Ok (mk (BinaryHeapPub.mk d) (sift g)).
Definition drop (g : t T) : result (BinaryHeapPub.t T) :=
  if sift g then BinaryHeapPub.sift_down le (heap g) 0 else Ok (heap g).
(** [value] is unwrapped; the guard is dropped on return. *)
Definition pop (g : t T) : result (T * BinaryHeapPub.t T) :=
  '(v, h) ← BinaryHeapPub.pop le (heap g);
  match v with
  | Some v => h ← drop (mk h false); Ok (v, h)
  | None => Panic
  end.
End peek_mut.
End PeekMut.

(** A run: six pushes, a change of the top, and the pops in order. *)
Example heap_run :
  (let le := Z.leb in
   h ← BinaryHeapPub.push le BinaryHeapPub.new 3; h ← BinaryHeapPub.push le h 9; h ← BinaryHeapPub.push le h 4;
   h ← BinaryHeapPub.push le h 1; h ← BinaryHeapPub.push le h 7; h ← BinaryHeapPub.push le h 9;
   h ← (match PeekMut.peek_mut h with Some g => g ← PeekMut.deref_mut g 5; PeekMut.drop le g | None => Panic end);
   '(a, h) ← BinaryHeapPub.pop le h; '(b, h) ← BinaryHeapPub.pop le h; '(c, h) ← BinaryHeapPub.pop le h;
   '(d, h) ← BinaryHeapPub.pop le h; '(e, h) ← BinaryHeapPub.pop le h; '(f, h) ← BinaryHeapPub.pop le h;
   '(g, h) ← BinaryHeapPub.pop le h;
   Ok [a; b; c; d; e; f; g]) = Ok [Some 9; Some 7; Some 5; Some 4; Some 3; Some 1; None].
Proof. reflexivity. Qed.
