(* ===== verification/HeapFacts.v ===== *)
(** The binary heap refines a priority queue.

    While a hole is open the array a reader should think of is the one with the
    element back in its slot, the [view]; a move of the hole is then an exchange
    of two elements. *)

From S2P Require Import Prelude Heap.
Open Scope Z_scope.

Section heap.
Context {T : Type} {HT : Inhabited T} (le : T → T → bool).
Hypothesis le_total : ∀ a b, le a b = true ∨ le b a = true.
Hypothesis le_trans : ∀ a b c, le a b = true → le b c = true → le a c = true.

(** * Exchanges *)

(** [l'] is [l] with the elements at [i] and [j] exchanged. *)
Definition swapped (l l' : list T) (i j : Z) : Prop :=
  l' ≡ₚ l ∧ vlen l' = vlen l ∧
  ∀ k, 0 ≤ k → elem l' k = if k =? i then elem l j else if k =? j then elem l i else elem l k.

(** * The hole *)

Definition view (h : Hole.t T) : list T := <[Z.to_nat (Hole.pos h) := Hole.elt h]> (Hole.data h).
Definition hole_in (h : Hole.t T) : Prop := 0 ≤ Hole.pos h < vlen (view h).

Lemma view_len h : vlen (Hole.data h) = vlen (view h).
Proof using. symmetry. apply vlen_insert. Qed.
Lemma drop_view h : hole_in h → Hole.drop h = Ok (view h).
Proof using. intros Hh. unfold Hole.drop. apply vset_in. by rewrite view_len. Qed.
Lemma elt_view h : hole_in h → Hole.elt h = elem (view h) (Hole.pos h).
Proof using.
  intros Hh. unfold hole_in in Hh. rewrite <- view_len in Hh. unfold view. by rewrite elem_insert, Z.eqb_refl by (done || lia).
Qed.
Lemma new_view d p : 0 ≤ p < vlen d → ∃ h, Hole.new d p = Ok h ∧ view h = d ∧ Hole.pos h = p.
Proof using HT.
  intros Hp. unfold Hole.new. rewrite vget_elem by done. eexists. split; [done|]. split; [|done].
  apply list_insert_id. by apply lookup_elem.
Qed.
Lemma get_view h i : hole_in h → 0 ≤ i < vlen (view h) → i ≠ Hole.pos h → Hole.get h i = Ok (elem (view h) i).
Proof using.
  intros Hh Hi Hne. unfold Hole.get, hole_in in *. rewrite <- view_len in *. rewrite vget_elem by done. f_equal. unfold view.
  rewrite elem_insert by (done || lia). by rewrite (proj2 (Z.eqb_neq i _)).
Qed.

Lemma move_view h j : hole_in h → 0 ≤ j < vlen (view h) → j ≠ Hole.pos h →
  ∃ h', Hole.move_to h j = Ok h' ∧ Hole.pos h' = j ∧ hole_in h' ∧ swapped (view h) (view h') (Hole.pos h) j.
Proof using.
  destruct h as [d e p]. unfold hole_in, Hole.move_to, swapped, view. cbn [Hole.data Hole.elt Hole.pos].
  rewrite !vlen_insert. intros Hp Hj Hne. rewrite vget_elem by done. cbn [mbind result_bind]. rewrite vset_in by done.
  eexists. split; [done|]. cbn [Hole.data Hole.elt Hole.pos]. rewrite !vlen_insert. split; [done|]. split; [done|].
  split; [|split; [done|]].
  - assert (<[Z.to_nat p := elem d j]> d !! Z.to_nat j = Some (elem d j)) as Hlj.
    { rewrite list_lookup_insert_ne by lia. by apply lookup_elem. }
    pose proof (insert_bag _ _ _ e Hlj) as H1. pose proof (insert_bag d _ _ (elem d j) (lookup_elem d p Hp)) as H2.
    pose proof (insert_bag d _ _ e (lookup_elem d p Hp)) as H3.
    apply (Permutation_cons_inv (a := elem d j)), (Permutation_cons_inv (a := elem d p)).
    etransitivity; [by apply Permutation_skip, H1|]. etransitivity; [apply Permutation_swap|].
    etransitivity; [by apply Permutation_skip, H2|]. etransitivity; [apply Permutation_swap|].
    etransitivity; [by apply Permutation_skip; symmetry; exact H3|]. apply Permutation_swap.
  - intros k Hk. rewrite !elem_insert by (rewrite ?vlen_insert; done || lia).
    rewrite Z.eqb_refl, (proj2 (Z.eqb_neq j p)) by done.
    destruct (Z.eqb_spec k j), (Z.eqb_spec k p); subst; done || lia.
Qed.

(** * The order *)

Definition parent (i : Z) : Z := (i - 1) / 2.

Lemma parent_spec i : 0 < i → 0 ≤ parent i < i.
Proof using. intros. unfold parent. split; [apply Z.div_pos; lia|]. apply Z.div_lt_upper_bound; lia. Qed.
Lemma parent_child i p : 0 < i → 0 ≤ p → parent i = p ↔ i = 2 * p + 1 ∨ i = 2 * p + 2.
Proof using.
  intros Hi Hp. unfold parent. pose proof (Z.div_mod (i - 1) 2 ltac:(lia)). pose proof (Z.mod_pos_bound (i - 1) 2 ltac:(lia)). lia.
Qed.

Definition above (l : list T) (i j : Z) : Prop := le (elem l j) (elem l i) = true.
Definition heap_ordered (l : list T) : Prop := ∀ i, 0 < i < vlen l → above l (parent i) i.

(** The heap order holds but at [p] and its children, which the parent of [p]
    is above. *)
Definition except (l : list T) (p : Z) : Prop :=
  (∀ i, 0 < i < vlen l → i ≠ p → parent i ≠ p → above l (parent i) i) ∧
  (∀ c, 0 < p → 0 < c < vlen l → parent c = p → above l (parent p) c).
(** [p] is above its children. *)
Definition over_children (l : list T) (p : Z) : Prop := ∀ c, 0 < c < vlen l → parent c = p → above l p c.
(** The parent of [p] is above it. *)
Definition under_parent (l : list T) (p : Z) : Prop := 0 < p → above l (parent p) p.

Lemma except_heap l p : 0 ≤ p → except l p → over_children l p → under_parent l p → heap_ordered l.
Proof using.
  intros Hp [HE HG] Hc Hu i Hi. destruct (Z.eq_dec i p) as [->|]; [apply Hu; lia|].
  destruct (Z.eq_dec (parent i) p) as [E|]; [rewrite E; by apply Hc|by apply HE].
Qed.
(** What an exchange does to one comparison. *)
Lemma above_swapped l l' p q i j : swapped l l' p q → 0 ≤ i → 0 ≤ j →
  above l' i j ↔ above l (if i =? p then q else if i =? q then p else i) (if j =? p then q else if j =? q then p else j).
Proof using.
  intros (_ & _ & Hs) Hi Hj. unfold above. rewrite !Hs by done.
  by destruct (i =? p), (i =? q), (j =? p), (j =? q).
Qed.

Ltac compare_at Hs := rewrite (above_swapped _ _ _ _ _ _ Hs) by lia; 
  repeat match goal with |- context [?a =? ?b] => destruct (Z.eqb_spec a b); try (exfalso; congruence || lia) end.

Lemma swap_up l l' p : 0 < p < vlen l → except l p → over_children l p → above l p (parent p) →
  swapped l l' p (parent p) → except l' (parent p) ∧ over_children l' (parent p).
Proof using le_trans.
  intros Hp [HE HG] Hc Hlt Hs. pose proof Hs as (_ & Hlen & _). pose proof (parent_spec p ltac:(lia)) as Hpp.
  unfold except, over_children. rewrite Hlen. split; [split|].
  - intros i Hi Hne Hpi. pose proof (parent_spec i ltac:(lia)). compare_at Hs.
    + apply HG; [lia|done|done].
    + by apply HE.
  - intros c Hpp' Hc' E. pose proof (parent_spec (parent p) ltac:(lia)). pose proof (parent_spec c ltac:(lia)).
    assert (above l (parent (parent p)) (parent p)) as Hup by (apply HE; lia). compare_at Hs.
    + done.
    + unfold above in *. apply (le_trans _ (elem l (parent p))); [|done]. rewrite <- E. apply HE; lia.
  - intros c Hc' E. pose proof (parent_spec c ltac:(lia)). compare_at Hs.
    + done.
    + unfold above in *. apply (le_trans _ (elem l (parent p))); [|done]. rewrite <- E. apply HE; lia.
Qed.

Lemma swap_down l l' p c : 0 ≤ p → 0 < c < vlen l → parent c = p → except l p →
  (∀ s, 0 < s < vlen l → parent s = p → above l c s) → swapped l l' p c →
  except l' c ∧ (above l c p → under_parent l' c).
Proof using.
  intros Hp Hc Epc [HE HG] Hgr Hs. pose proof Hs as (_ & Hlen & _). pose proof (parent_spec c ltac:(lia)) as Hpc.
  unfold except, under_parent. rewrite Hlen. split; [split|].
  - intros i Hi Hne Hpi. pose proof (parent_spec i ltac:(lia)). compare_at Hs.
    + apply Hgr; [done|lia].
    + subst i. apply HG; [lia|done|done].
    + apply HE; [done|lia|lia].
  - intros g _ Hg Eg. pose proof (parent_spec g ltac:(lia)). compare_at Hs.
    rewrite <- Eg. apply HE; lia.
  - intros Hlt _. compare_at Hs. done.
Qed.

(** * Sifting *)

Import BinaryHeapPub.

(** The array behind the hole is [d], rearranged, of [n] elements. *)
Definition sifting (d : list T) (hole : Hole.t T) : Prop :=
  hole_in hole ∧ view hole ≡ₚ d ∧ vlen (view hole) = vlen d ∧ except (view hole) (Hole.pos hole).

Lemma sifting_move d hole j : sifting d hole → 0 ≤ j < vlen d → j ≠ Hole.pos hole →
  ∃ hole', Hole.move_to hole j = Ok hole' ∧ Hole.pos hole' = j ∧ hole_in hole' ∧ view hole' ≡ₚ d ∧
    vlen (view hole') = vlen d ∧ swapped (view hole) (view hole') (Hole.pos hole) j.
Proof using.
  intros (Hin & Hperm & Hlen & _) Hj Hne. destruct (move_view hole j Hin) as (h' & -> & Hpos & Hin' & Hs); [lia|done|].
  exists h'. split_and!; try done; [|destruct Hs as (_ & E & _); lia]. destruct Hs as [Hp _]. by rewrite Hp.
Qed.

Lemma sift_up_spec d pos : 0 ≤ pos < vlen d → except d pos → over_children d pos →
  ∃ p d', sift_up le d 0 pos = Ok (p, d') ∧ d' ≡ₚ d ∧ heap_ordered d'.
Proof using le_total le_trans.
  intros Hpos He Hc. unfold sift_up. destruct (new_view d pos Hpos) as (hole & -> & Hv & Hp). cbn [mbind result_bind].
  edestruct (while_fuel_inv (fun '(go, hole) => sifting d hole ∧ over_children (view hole) (Hole.pos hole) ∧
      ((go : bool) = false → under_parent (view hole) (Hole.pos hole)))
    (fun '(go, hole) => (Z.to_nat (Hole.pos hole) + if (go : bool) then 1 else 0)%nat)) as ([go h'] & -> & (Hsift & Hover & Hgo) & Hcond).
  4: { cbn [mbind result_bind]. destruct Hsift as (Hin & Hperm & Hlen & Hex). rewrite drop_view by done. cbn [mbind result_bind].
    eexists _, _. split; [done|]. split; [done|]. apply (except_heap _ (Hole.pos h')); try done; [unfold hole_in in Hin; lia|].
    destruct go; [|by apply Hgo]. cbn in Hcond. intros ?. apply Z.ltb_ge in Hcond. lia. }
  - intros [go h] (Hsift & Hover & Hgo) Hcond. apply andb_true_iff in Hcond as [-> Hpos0%Z.ltb_lt].
    pose proof Hsift as (Hin & Hperm & Hlen & Hex). pose proof (parent_spec (Hole.pos h) Hpos0) as Hpar. fold (parent (Hole.pos h)).
    unfold hole_in in Hin. rewrite get_view by (done || lia). cbn [mbind result_bind]. rewrite elt_view by done.
    destruct (le (elem (view h) (Hole.pos h)) _) eqn:Hle.
    + eexists. split; [done|]. split; [|lia]. split; [done|]. split; [done|]. intros _ _. exact Hle.
    + destruct (sifting_move d h (parent (Hole.pos h)) Hsift) as (h' & -> & Hpos' & Hin' & Hperm' & Hlen' & Hs); [lia|lia|].
      eexists. split; [done|]. split; [|lia].
      assert (above (view h) (Hole.pos h) (parent (Hole.pos h))) as Habove.
      { unfold above. destruct (le_total (elem (view h) (parent (Hole.pos h))) (elem (view h) (Hole.pos h))); congruence. }
      destruct (swap_up (view h) (view h') (Hole.pos h)) as [Hex' Hov']; try done; [lia|]. rewrite <- Hpos' in Hex', Hov'.
      split; [|done]. by split_and!.
  - split; [|split; [by rewrite Hv, Hp|done]]. unfold sifting, hole_in. rewrite Hv, Hp. split_and!; try done; lia.
  - cbn beta iota. rewrite Hp. lia.
Qed.

Lemma above_refl l i : above l i i.
Proof using le_total. unfold above. by destruct (le_total (elem l i) (elem l i)). Qed.

Lemma greater_child_spec d hole : sifting d hole → 2 * Hole.pos hole + 1 < vlen d →
  ∃ c, greater_child le hole (2 * Hole.pos hole + 1) (vlen d) = Ok c ∧ Hole.pos hole < c < vlen d ∧ parent c = Hole.pos hole ∧
    ∀ s, 0 < s < vlen d → parent s = Hole.pos hole → above (view hole) c s.
Proof using le_total.
  intros (Hin & _ & Hlen & _) Hc. unfold hole_in in Hin. set (p := Hole.pos hole) in *.
  assert (∀ c, c = 2 * p + 1 ∨ c = 2 * p + 2 → parent c = p) as Hpar by (intros c Hcc; apply parent_child; lia).
  assert (∀ s, 0 < s → parent s = p → s = 2 * p + 1 ∨ s = 2 * p + 2) as Hkids by (intros s Hs E; apply parent_child; lia || done).
  unfold greater_child. destruct (Z.ltb_spec (2 * p + 1 + 1) (vlen d)).
  - rewrite !get_view by (unfold hole_in; fold p; lia). cbn [mbind result_bind].
    destruct (le (elem (view hole) (2 * p + 1)) _) eqn:E.
    + eexists. split; [done|]. split; [lia|]. split; [apply Hpar; lia|]. intros s Hs Es.
      destruct (Hkids s) as [->| ->]; [lia|done|exact E|]. replace (2 * p + 1 + 1) with (2 * p + 2) by lia. apply above_refl.
    + eexists. split; [done|]. split; [lia|]. split; [apply Hpar; lia|]. intros s Hs Es.
      destruct (Hkids s) as [->| ->]; [lia|done|apply above_refl|]. unfold above. replace (2 * p + 2) with (2 * p + 1 + 1) by lia.
      destruct (le_total (elem (view hole) (2 * p + 1)) (elem (view hole) (2 * p + 1 + 1))); congruence.
  - eexists. split; [done|]. split; [lia|]. split; [apply Hpar; lia|]. intros s Hs Es.
    destruct (Hkids s) as [->| ->]; [lia|done|apply above_refl|lia].
Qed.

(** One move down, to the greater child. *)
Lemma step_down d hole c : sifting d hole → Hole.pos hole < c < vlen d → parent c = Hole.pos hole →
  (∀ s, 0 < s < vlen d → parent s = Hole.pos hole → above (view hole) c s) →
  ∃ hole', Hole.move_to hole c = Ok hole' ∧ Hole.pos hole' = c ∧ sifting d hole' ∧
    (above (view hole) c (Hole.pos hole) → under_parent (view hole') c).
Proof using.
  intros Hsift Hc Hpar Hgr. pose proof Hsift as (Hin & Hperm & Hlen & Hex). unfold hole_in in Hin.
  destruct (sifting_move d hole c Hsift) as (h' & -> & Hpos' & Hin' & Hperm' & Hlen' & Hs); [lia|lia|].
  destruct (swap_down (view hole) (view h') (Hole.pos hole) c) as [Hex' Hu]; try done; [lia|lia|by rewrite Hlen|].
  exists h'. split; [done|]. split; [done|]. split; [|done]. split_and!; try done; try lia. by rewrite Hpos'.
Qed.

(** At the bottom there are no children left. *)
Lemma no_children l p : 0 ≤ p → vlen l ≤ 2 * p + 1 → over_children l p.
Proof using. intros Hp Hl c Hc E. apply parent_child in E; lia. Qed.

Lemma sift_down_spec h : 0 < len h → except (data h) 0 → ∃ h', sift_down le h 0 = Ok h' ∧ data h' ≡ₚ data h ∧ heap_ordered (data h').
Proof using le_total le_trans.
  intros Hlen He. unfold sift_down, sift_down_range, len in *. set (d := data h) in *.
  destruct (new_view d 0) as (hole & -> & Hv & Hp); [lia|]. cbn [mbind result_bind].
  edestruct (while_fuel_inv (fun '(go, child, hole) => sifting d hole ∧ under_parent (view hole) (Hole.pos hole) ∧
      if (go : bool) then child = 2 * Hole.pos hole + 1 else over_children (view hole) (Hole.pos hole))
    (fun '(go, child, hole) => (Z.to_nat (vlen d - Hole.pos hole) + if (go : bool) then 1 else 0)%nat))
    as ([[go child] h'] & -> & (Hsift & Hunder & Hgo) & Hcond).
  4: { cbn [mbind result_bind]. destruct Hsift as (Hin & Hperm & Hl & Hex). rewrite drop_view by done. cbn [mbind result_bind].
    eexists. split; [done|]. split; [done|]. unfold hole_in in Hin. apply (except_heap _ (Hole.pos h')); try done; [lia|].
    destruct go; [|done]. subst child. cbn in Hcond. apply Z.ltb_ge in Hcond. change (vlen (data h)) with (vlen d) in Hcond. apply no_children; cbn [data]; lia. }
  - intros [[go child] h0] (Hsift & Hunder & Hgo) Hcond. apply andb_true_iff in Hcond as [-> Hc%Z.ltb_lt]. subst child.
    pose proof Hsift as (Hin & Hperm & Hl & Hex). unfold hole_in in Hin.
    destruct (greater_child_spec d h0 Hsift Hc) as (c & -> & Hcr & Hpar & Hgr). cbn [mbind result_bind].
    rewrite get_view by (unfold hole_in; lia). cbn [mbind result_bind]. rewrite elt_view by done.
    destruct (le (elem (view h0) c) _) eqn:E.
    + eexists. split; [done|]. split; [|cbn beta iota; lia]. split; [done|]. split; [done|]. intros s Hs Es. rewrite Hl in Hs.
      apply (le_trans _ (elem (view h0) c)); [by apply Hgr|done].
    + destruct (step_down d h0 c Hsift Hcr Hpar Hgr) as (h' & -> & Hpos' & Hsift' & Hu). cbn [mbind result_bind].
      eexists. split; [done|]. split; [|cbn beta iota; lia]. rewrite Hpos'. split; [done|]. split; [|done]. apply Hu.
      unfold above. destruct (le_total (elem (view h0) (Hole.pos h0)) (elem (view h0) c)); congruence.
  - split; [unfold sifting, hole_in; rewrite Hv, Hp; split_and!; done || lia|]. rewrite Hv, Hp. by split.
  - cbn beta iota. rewrite Hp. lia.
Qed.

Lemma sift_down_to_bottom_spec h : 0 < len h → except (data h) 0 →
  ∃ h', sift_down_to_bottom le h 0 = Ok h' ∧ data h' ≡ₚ data h ∧ heap_ordered (data h').
Proof using le_total le_trans.
  intros Hlen He. unfold sift_down_to_bottom, len in *. set (d := data h) in *.
  destruct (new_view d 0) as (hole & -> & Hv & Hp); [lia|]. cbn [mbind result_bind].
  edestruct (while_fuel_inv (fun '(child, hole) => sifting d hole ∧ child = 2 * Hole.pos hole + 1)
    (fun '(child, hole) => Z.to_nat (vlen d - Hole.pos hole))) as ([child h'] & -> & (Hsift & ->) & Hcond).
  4: { cbn [mbind result_bind]. destruct Hsift as (Hin & Hperm & Hl & Hex). rewrite drop_view by done. cbn [mbind result_bind].
    unfold hole_in in Hin. apply Z.ltb_ge in Hcond.
    destruct (sift_up_spec (view h') (Hole.pos h')) as (p & d' & -> & Hperm' & Hheap); [lia|done|apply no_children; lia|].
    eexists. split; [done|]. split; [|done]. cbn. by rewrite Hperm'. }
  - intros [child h0] (Hsift & ->) Hc%Z.ltb_lt. pose proof Hsift as (Hin & _). unfold hole_in in Hin.
    destruct (greater_child_spec d h0 Hsift Hc) as (c & -> & Hcr & Hpar & Hgr). cbn [mbind result_bind].
    destruct (step_down d h0 c Hsift Hcr Hpar Hgr) as (h' & -> & Hpos' & Hsift' & _). cbn [mbind result_bind].
    eexists. split; [done|]. split; [by rewrite Hpos'|]. cbn beta iota. lia.
  - split; [|by rewrite Hp]. unfold sifting, hole_in. rewrite Hv, Hp. split_and!; done || lia.
  - cbn beta iota. rewrite Hp. lia.
Qed.

(** * The operations *)

Lemma heap_top l : heap_ordered l → ∀ i, 0 ≤ i < vlen l → above l 0 i.
Proof using le_total le_trans.
  intros Hh i Hi. induction i as [i IH] using (well_founded_induction (Z.lt_wf 0)).
  destruct (Z.eq_dec i 0) as [->|]; [apply above_refl|]. pose proof (parent_spec i ltac:(lia)).
  apply (le_trans _ (elem l (parent i))); [by apply Hh; lia|]. apply IH; lia.
Qed.

(** An array that agrees with a heap but at the top. *)
Lemma except_top l l' : heap_ordered l → vlen l' ≤ vlen l → (∀ i, 0 < i < vlen l' → elem l' i = elem l i) → except l' 0.
Proof using.
  intros Hh Hlen Heq. split; [|intros; lia]. intros i Hi Hne Hp. pose proof (parent_spec i ltac:(lia)).
  unfold above. rewrite !Heq by lia. apply Hh. lia.
Qed.

Lemma elem_app_l (l k : list T) i : 0 ≤ i < vlen l → elem (l ++ k) i = elem l i.
Proof using. intros Hi. unfold elem, vlen in *. apply lookup_total_app_l. lia. Qed.

Lemma push_spec h x : heap_ordered (data h) →
  ∃ h', push le h x = Ok h' ∧ data h' ≡ₚ x :: data h ∧ heap_ordered (data h').
Proof using le_total le_trans.
  intros Hh. unfold push, len. pose proof (vlen_nonneg (data h)) as Hn.
  assert (vlen (data h ++ [x]) = vlen (data h) + 1) as Hl by (rewrite vlen_app, vlen_cons, vlen_nil; lia).
  destruct (sift_up_spec (data h ++ [x]) (vlen (data h))) as (p & d & -> & Hperm & Hheap); [lia|split| |].
  - intros i Hi Hne Hp. rewrite Hl in Hi. pose proof (parent_spec i ltac:(lia)). unfold above.
    rewrite !elem_app_l by lia. apply Hh. lia.
  - intros c Hp Hc E. pose proof (parent_spec c ltac:(lia)). lia.
  - apply no_children; lia.
  - cbn [mbind result_bind]. eexists. split; [done|]. split; [|done]. cbn [data]. rewrite Hperm. symmetry. apply Permutation_cons_append.
Qed.

Lemma vec_pop_snoc (l : list T) x : vec_pop (l ++ [x]) = Some (x, l).
Proof using. unfold vec_pop. rewrite rev_app_distr. cbn. by rewrite rev_involutive. Qed.

(** [x] is a largest element of [x :: b]. *)
Definition largest (x : T) (b : list T) : Prop := ∀ y, y ∈ b → le y x = true.

Lemma top_largest l b : heap_ordered l → 0 < vlen l → l ≡ₚ elem l 0 :: b → largest (elem l 0) b.
Proof using le_total le_trans.
  intros Hh Hl Hp y Hy. assert (y ∈ l) as (k & Hk)%list_elem_of_lookup by (rewrite Hp; by right).
  pose proof (lookup_lt_Some _ _ _ Hk). pose proof (heap_top l Hh (Z.of_nat k) ltac:(unfold vlen; lia)) as Hab.
  unfold above in Hab. rewrite (elem_lookup l (Z.of_nat k) y) in Hab by (by rewrite Nat2Z.id). done.
Qed.

Lemma pop_spec h : heap_ordered (data h) →
  match data h with
  | [] => pop le h = Ok (None, h)
  | _ => ∃ x h', pop le h = Ok (Some x, h') ∧ data h ≡ₚ x :: data h' ∧ largest x (data h') ∧ heap_ordered (data h')
  end.
Proof using le_total le_trans.
  intros Hh. destruct (data h) as [|y r] eqn:E; [unfold pop; by rewrite E|]. rewrite <- E in Hh |- *.
  destruct (exists_last (l := data h)) as (d & x & Hd); [by rewrite E|]. unfold pop. rewrite Hd, vec_pop_snoc.
  rewrite Hd in Hh. destruct d as [|z d]; cbn [vlen].
  - cbn. eexists _, _. split; [done|]. cbn. split; [done|]. split; [intros ? []%not_elem_of_nil|]. intros i Hi. change (0 < i < 0) in Hi. lia.
  - set (l := z :: d) in *. assert (0 < vlen l) as Hl by (unfold l; rewrite vlen_cons; pose proof (vlen_nonneg d); lia).
    rewrite (proj2 (Z.eqb_neq _ 0)), vget_elem by lia. cbn [mbind result_bind]. rewrite vset_in by lia. cbn [mbind result_bind].
    destruct (sift_down_to_bottom_spec (mk (<[Z.to_nat 0 := x]> l))) as (h' & -> & Hperm & Hheap).
    { unfold len. cbn [data]. by rewrite vlen_insert. }
    { cbn [data]. apply (except_top (l ++ [x])); [done|rewrite vlen_insert, vlen_app; pose proof (vlen_nonneg [x]); lia|].
      intros i Hi. rewrite vlen_insert in Hi. rewrite elem_insert, (proj2 (Z.eqb_neq i 0)) by lia. by rewrite elem_app_l by lia. }
    cbn [mbind result_bind data] in *. assert (l ++ [x] ≡ₚ elem l 0 :: data h') as Hbag.
    { rewrite Hperm, (insert_bag l 0 (elem l 0) x) by (apply (lookup_elem l 0); lia). symmetry. apply Permutation_cons_append. }
    assert (elem (l ++ [x]) 0 = elem l 0) as Htop by (apply elem_app_l; lia).
    eexists _, _. split; [done|]. split; [done|]. split; [|done]. rewrite <- Htop.
    apply (top_largest (l ++ [x])); [done|rewrite vlen_app; pose proof (vlen_nonneg [x]); lia|by rewrite Htop].
Qed.

(** * The priority queue *)

(** The calls of a client; [Update f] changes the top element through [peek_mut],
    [Peek_pop] pops it through the guard. *)
Inductive op : Type :=
  | Push (x : T)
  | Pop
  | Peek
  | Update (f : T → T)
  | Peek_pop
  | Clear.

Definition call (h : t T) (o : op) : result (option T * t T) :=
  match o with
  | Push x => h ← push le h x; Ok (None, h)
  | Pop => pop le h
  | Peek => Ok (peek h, h)
  | Update f =>
    match PeekMut.peek_mut h with
    | None => Ok (None, h)
    | Some g =>
      x ← PeekMut.deref g; g ← PeekMut.deref_mut g (f x); h ← PeekMut.drop le g; Ok (Some x, h)
    end
  | Peek_pop =>
    match PeekMut.peek_mut h with
    | None => Ok (None, h)
    | Some g => '(x, h) ← PeekMut.pop le g; Ok (Some x, h)
    end
  | Clear => Ok (None, clear h)
  end.
Fixpoint calls (h : t T) (os : list op) : result (list (option T) * t T) :=
  match os with
  | [] => Ok ([], h)
  | o :: os => '(r, h) ← call h o; '(rs, h) ← calls h os; Ok (r :: rs, h)
  end.

(** What a call does to a bag of elements, with what it returns. *)
Inductive queue_step : list T → op → option T → list T → Prop :=
  | q_push b x : queue_step b (Push x) None (x :: b)
  | q_pop b x b' o : o = Pop ∨ o = Peek_pop → b ≡ₚ x :: b' → largest x b' → queue_step b o (Some x) b'
  | q_peek b x b' : b ≡ₚ x :: b' → largest x b' → queue_step b Peek (Some x) b
  | q_update b x b' f : b ≡ₚ x :: b' → largest x b' → queue_step b (Update f) (Some x) (f x :: b')
  | q_empty o : o ≠ Clear → (∀ x, o ≠ Push x) → queue_step [] o None []
  | q_clear b : queue_step b Clear None [].
Inductive queue_run : list T → list op → list (option T) → list T → Prop :=
  | q_done b : queue_run b [] [] b
  | q_next b o r b1 os rs b2 : queue_step b o r b1 → queue_run b1 os rs b2 → queue_run b (o :: os) (r :: rs) b2.

Lemma heap_nil : heap_ordered [].
Proof using. intros i Hi. change (0 < i < 0) in Hi. lia. Qed.

Lemma peek_mut_spec (h : t T) : data h ≠ [] → PeekMut.peek_mut h = Some (PeekMut.mk h true).
Proof using.
  intros Hne. unfold PeekMut.peek_mut, is_empty, len. destruct (data h) as [|x l]; [done|].
  rewrite vlen_cons, (proj2 (Z.eqb_neq _ 0)); [done|]. pose proof (vlen_nonneg l). lia.
Qed.

Lemma update_spec h f x l : heap_ordered (data h) → data h = x :: l →
  ∃ h', call h (Update f) = Ok (Some x, h') ∧ data h' ≡ₚ f x :: l ∧ heap_ordered (data h').
Proof using le_total le_trans.
  intros Hh E. pose proof (vlen_nonneg l). unfold call. rewrite peek_mut_spec by (by rewrite E).
  unfold PeekMut.deref, PeekMut.deref_mut, PeekMut.drop. cbn [PeekMut.heap PeekMut.sift]. rewrite E.
  change (vget (x :: l) 0) with (Ok x). cbn [mbind result_bind].
  rewrite vset_in by (rewrite vlen_cons; lia). cbn [mbind result_bind PeekMut.heap PeekMut.sift].
  change (<[Z.to_nat 0 := f x]> (x :: l)) with (f x :: l).
  destruct (sift_down_spec (mk (f x :: l))) as (h' & -> & Hperm & Hheap); [unfold len; cbn [data]; rewrite vlen_cons; lia| |].
  - cbn [data]. rewrite E in Hh. apply (except_top (x :: l)); [done|by rewrite !vlen_cons|].
    intros i Hi. unfold elem. destruct (Z.to_nat i) eqn:Ei; [lia|done].
  - eexists. split; [done|]. by split.
Qed.

Lemma peek_pop_spec h : call h Peek_pop = call h Pop.
Proof using.
  cbn [call]. unfold PeekMut.peek_mut, is_empty, len. destruct (Z.eqb_spec (vlen (data h)) 0) as [E|E].
  - unfold pop. destruct (data h) as [|x l]; [done|]. rewrite vlen_cons in E. pose proof (vlen_nonneg l). lia.
  - unfold PeekMut.pop. cbn [PeekMut.heap]. destruct (pop le h) as [[[v|] h']|e| |] eqn:Hp; try done.
    exfalso. revert Hp. unfold pop. destruct (vec_pop (data h)) as [[y d]|] eqn:Ev.
    + destruct (vlen d =? 0); [done|]. destruct (vget d 0); cbn; try done. destruct (vset d 0 y); cbn; try done.
      by destruct (sift_down_to_bottom le _ 0).
    + destruct (data h) as [|x l] using rev_ind; [done|]. by rewrite vec_pop_snoc in Ev.
Qed.

Lemma call_spec h o b : heap_ordered (data h) → b ≡ₚ data h →
  ∃ r h' b', call h o = Ok (r, h') ∧ queue_step b o r b' ∧ b' ≡ₚ data h' ∧ heap_ordered (data h').
Proof using le_total le_trans.
  intros Hh Hb. assert (∃ r h' b', call h Pop = Ok (r, h') ∧ (∀ o, o = Pop ∨ o = Peek_pop → queue_step b o r b') ∧
      b' ≡ₚ data h' ∧ heap_ordered (data h')) as (rp & hp & bp & Ep & Hqp & Hbp & Hhp).
  { pose proof (pop_spec h Hh) as Hpop. cbn [call]. destruct (data h) as [|y l] eqn:E.
    - symmetry in Hb. apply Permutation_nil in Hb as ->. exists None, h, []. split; [done|]. rewrite E. split; [|by split].
      intros o' Ho. apply q_empty; destruct Ho as [-> | ->]; done.
    - destruct Hpop as (x & h' & -> & Hperm & Hmax & Hheap). exists (Some x), h', (data h'). split; [done|]. split; [|by split].
      intros o' Ho. by apply (q_pop b x); [|rewrite Hb|]. }
  destruct o as [x| | |f| |].
  - destruct (push_spec h x Hh) as (h' & Hrun & Hperm & Hheap). exists None, h', (x :: b). cbn [call]. rewrite Hrun.
    split; [done|]. split; [constructor|]. split; [by rewrite Hb, Hperm|done].
  - exists rp, hp, bp. auto.
  - destruct (data h) as [|y l] eqn:E.
    + symmetry in Hb. apply Permutation_nil in Hb as ->. exists None, h, []. cbn [call]. unfold peek. rewrite E. split_and!; try done.
      by apply q_empty.
    + exists (Some y), h, b. cbn [call]. unfold peek. rewrite E. split; [done|]. split; [|by split].
      apply (q_peek b y l Hb). change y with (elem (y :: l) 0). apply (top_largest (y :: l) l Hh); [|done].
      rewrite vlen_cons. pose proof (vlen_nonneg l). lia.
  - destruct (data h) as [|y l] eqn:E.
    + symmetry in Hb. apply Permutation_nil in Hb as ->. exists None, h, []. cbn [call]. unfold PeekMut.peek_mut, is_empty, len.
      rewrite E. split; [done|]. split; [by apply q_empty|by split].
    + destruct (update_spec h f y l) as (h' & -> & Hperm & Hheap); [by rewrite E|done|]. exists (Some y), h', (f y :: l).
      split; [done|]. split; [|by split]. apply (q_update b y l f Hb). change y with (elem (y :: l) 0).
      apply (top_largest (y :: l) l Hh); [|done]. rewrite vlen_cons. pose proof (vlen_nonneg l). lia.
  - exists rp, hp, bp. rewrite peek_pop_spec. auto.
  - exists None, (clear h), []. split; [done|]. split; [constructor|]. split; [done|]. apply heap_nil.
Qed.

(** C24. [BinaryHeapPub] refines a priority queue: starting from [new], any sequence of [push], [pop], [peek], changes of
    the top through [peek_mut], [PeekMut::pop] and [clear] succeeds (the hole never leaves the vector), and returns what
    the same calls return on a bag of elements, where a pop and a peek give a largest element; the vector of the heap is
    a rearrangement of the bag and keeps the heap order. *)
Theorem heap_refines_priority_queue os : ∃ rs h b,
  calls new os = Ok (rs, h) ∧ queue_run [] os rs b ∧ data h ≡ₚ b ∧ heap_ordered (data h).
Proof using HT le_total le_trans.
  enough (∀ h b, heap_ordered (data h) → b ≡ₚ data h → ∃ rs h' b',
    calls h os = Ok (rs, h') ∧ queue_run b os rs b' ∧ data h' ≡ₚ b' ∧ heap_ordered (data h')) as Hall
    by (apply Hall; [apply heap_nil|done]).
  induction os as [|o os IH]; intros h b Hh Hb; [exists [], h, b; split_and!; by try constructor|].
  destruct (call_spec h o b Hh Hb) as (r & h1 & b1 & E & Hstep & Hb1 & Hh1).
  destruct (IH h1 b1 Hh1 Hb1) as (rs & h2 & b2 & Erun & Hrun & Hb2 & Hh2).
  exists (r :: rs), h2, b2. cbn [calls]. rewrite E. cbn [mbind result_bind]. rewrite Erun.
  split; [done|]. split; [by econstructor|]. by split.
Qed.
End heap.

Lemma heap_refines_priority_queue_witness :
  ∃ rs h b, calls Z.leb BinaryHeapPub.new [Push 4; Push 9; Push 2; Update (fun x => x - 8); Pop; Peek_pop; Pop; Pop] = Ok (rs, h) ∧
    queue_run Z.leb [] [Push 4; Push 9; Push 2; Update (fun x => x - 8); Pop; Peek_pop; Pop; Pop] rs b ∧
    BinaryHeapPub.data h ≡ₚ b ∧ heap_ordered Z.leb (BinaryHeapPub.data h).
Proof.
  apply (heap_refines_priority_queue Z.leb).
  - intros a b. destruct (Z.le_ge_cases a b); [left|right]; by apply Z.leb_le.
  - intros a b c ?%Z.leb_le ?%Z.leb_le. apply Z.leb_le. lia.
Defined.
