(* ===== verification/Sorter.v ===== *)
(** Sorting and selection in place: src/core/util/sorter.rs and the
    [quick_select] of src/core/util/selector.rs.

    A sorter is a state behind the methods that compare and swap positions; the
    algorithms are default methods of the trait and see nothing else.  Positions
    are [i32]; the sums and shifts that can leave the range are written with
    their wrap-around. *)

From S2P Require Import Prelude.
Open Scope Z_scope.

Definition INSERTION_SORT_THRESHOLD : Z := 30.
Definition BINARY_SORT_THRESHOLD : Z := 20.
Definition LSB_HISTOGRAM_SIZE : Z := 256.

(** * The trait *)

Class Sorter (T : Type) : Type := {
  compare : T → Z → Z → result (comparison * T);
  swap : T → Z → Z → result T;
  set_pivot : T → Z → result T;
  compare_pivot : T → Z → result (comparison * T);
}.

(** [x.unsigned_shift(1)] of an [i32] *)
Definition half_of (x : Z) : Z := unsigned_shift 32 (as_i32 x) 1.

Definition heap_parent (from i : Z) : Z := half_of (i - 1 - from) + from.
Definition heap_child (from i : Z) : Z := as_i32 (as_i32 (shl_i 32 (i - from) 1 + 1) + from).

Definition check_range (from to : Z) : result unit := check (from <=? to).

Section sorter.
Context {T : Type} `{Sorter T}.

(** ** Rotation *)

Definition reverse (s : T) (from to : Z) : result T :=
  '(s, _, _) ← while_fuel (Z.to_nat (to - from)) (fun '(_, from, to) => from <? to)
    (fun '(s, from, to) => s ← swap s from to; Ok (s, from + 1, to - 1)) (s, from, to - 1);
  Ok s.

Definition rotate (s : T) (low mid high : Z) : result T :=
  if (low =? mid) || (mid =? high) then Ok s
  else if mid - low =? high - mid then
    '(s, _, _) ← while_fuel (Z.to_nat (high - mid)) (fun '(_, _, mid) => mid <? high)
      (fun '(s, low, mid) => s ← swap s low mid; Ok (s, low + 1, mid + 1)) (s, low, mid);
    Ok s
  else
    s ← reverse s low mid; s ← reverse s mid high; reverse s low high.

(** ** Binary search; the length at least halves. *)

Definition lower (s : T) (from to val : Z) : result (Z * T) :=
  '(s, from, _) ← while_fuel (Z.to_nat (to - from)) (fun '(_, _, len) => 0 <? len)
    (fun '(s, from, len) =>
      let half := half_of len in
      let mid := from + half in
      '(c, s) ← compare s mid val;
      match c with
      | Lt => Ok (s, mid + 1, len - half - 1)
      | _ => Ok (s, from, half)
      end) (s, from, to - from);
  Ok (from, s).

Definition upper (s : T) (from to val : Z) : result (Z * T) :=
  '(s, from, _) ← while_fuel (Z.to_nat (to - from)) (fun '(_, _, len) => 0 <? len)
    (fun '(s, from, len) =>
      let half := half_of len in
      let mid := from + half in
      '(c, s) ← compare s val mid;
      match c with
      | Lt => Ok (s, from, half)
      | _ => Ok (s, mid + 1, len - half - 1)
      end) (s, from, to - from);
  Ok (from, s).

(** The searches that gallop from an end of the range. *)
Fixpoint lower2_loop (fuel : nat) (s : T) (from f t val : Z) : result (Z * T) :=
  if from <? f then
    '(c, s) ← compare s f val;
    match c with
    | Lt => lower s f t val
    | _ =>
      match fuel with
      | O => Diverge
      | S fuel => lower2_loop fuel s from (as_i32 (f - shl_i 32 (t - f) 1)) f val
      end
    end
  else lower s from t val.
Definition lower2 (s : T) (from to val : Z) : result (Z * T) := lower2_loop (Z.to_nat (to - from)) s from (to - 1) to val.

Fixpoint upper2_loop (fuel : nat) (s : T) (f t to val : Z) : result (Z * T) :=
  if t <? to then
    '(c, s) ← compare s t val;
    match c with
    | Gt => upper s f t val
    | _ =>
      match fuel with
      | O => Diverge
      | S fuel => upper2_loop fuel s t (as_i32 (t + shl_i 32 (t - f) 1)) to val
      end
    end
  else upper s f to val.
Definition upper2 (s : T) (from to val : Z) : result (Z * T) := upper2_loop (Z.to_nat (to - from)) s from (from + 1) to val.

(** ** Merging in place *)

(** [while compare(from, mid) != Greater { from += 1 }] *)
Fixpoint trim_front (fuel : nat) (s : T) (from mid : Z) : result (Z * T) :=
  '(c, s) ← compare s from mid;
  match c with
  | Gt => Ok (from, s)
  | _ => match fuel with O => Diverge | S fuel => trim_front fuel s (from + 1) mid end
  end.
(** [while compare(mid - 1, to - 1) != Greater { to -= 1 }] *)
Fixpoint trim_back (fuel : nat) (s : T) (mid to : Z) : result (Z * T) :=
  '(c, s) ← compare s (mid - 1) (to - 1);
  match c with
  | Gt => Ok (to, s)
  | _ => match fuel with O => Diverge | S fuel => trim_back fuel s mid (to - 1) end
  end.

(** [first_cut], [second_cut] and [len22]: half of the longer run, and where it
    goes in the other. *)
Definition merge_cuts (s : T) (from mid to : Z) : result (Z * Z * Z * T) :=
  if to - mid <? mid - from then
    let len11 := half_of (mid - from) in
    let first_cut := from + len11 in
    '(second_cut, s) ← lower s mid to first_cut;
    Ok (first_cut, second_cut, second_cut - mid, s)
  else
    let len22 := half_of (to - mid) in
    let second_cut := mid + len22 in
    '(first_cut, s) ← upper s from mid second_cut;
    Ok (first_cut, second_cut, len22, s).

(** Both parts of a split are shorter than the range: [to - from] is enough fuel. *)
Fixpoint merge_in_place (fuel : nat) (s : T) (from mid to : Z) : result T :=
  '(c, s) ← (if (from =? mid) || (mid =? to) then Ok (Eq, s) else compare s (mid - 1) mid);
  match c with
  | Gt =>
    if to - from =? 2 then swap s (mid - 1) mid
    else
      match fuel with
      | O => Diverge
      | S fuel =>
        '(from, s) ← trim_front (Z.to_nat (mid - from)) s from mid;
        '(to, s) ← trim_back (Z.to_nat (to - mid)) s mid to;
        '(first_cut, second_cut, len22, s) ← merge_cuts s from mid to;
        s ← rotate s first_cut mid second_cut;
        let new_mid := first_cut + len22 in
        s ← merge_in_place fuel s from first_cut new_mid;
        merge_in_place fuel s new_mid second_cut to
      end
  | _ => Ok s
  end.

(** ** Binary insertion sort *)

Definition insert_position (s : T) (from i : Z) : result (Z * T) :=
  '(s, l, _) ← while_fuel (Z.to_nat (i - from)) (fun '(_, l, h) => l <=? h)
    (fun '(s, l, h) =>
      let mid := half_of (l + h) in
      '(cmp, s) ← compare_pivot s mid;
      match cmp with
      | Lt => Ok (s, l, mid - 1)
      | _ => Ok (s, mid + 1, h)
      end) (s, from, i - 1);
  Ok (l, s).

Definition sink (s : T) (i l : Z) : result T :=
  '(s, _) ← while_fuel (Z.to_nat (i - l)) (fun '(_, j) => l <? j)
    (fun '(s, j) => s ← swap s (j - 1) j; Ok (s, j - 1)) (s, i);
  Ok s.

Definition binary_sort (s : T) (from to : Z) : result T :=
  for_range (from + 1) to (fun i s =>
    s ← set_pivot s i;
    '(l, s) ← insert_position s from i;
    sink s i l) s.

(** ** Heap sort *)

(** The child that goes up, when one exceeds its parent. *)
Definition sift_child (s : T) (i left_child to : Z) : result (option Z * T) :=
  let right_child := left_child + 1 in
  '(c, s) ← compare s i left_child;
  match c with
  | Lt =>
    '(c, s) ← (if right_child <? to then compare s left_child right_child else Ok (Eq, s));
    match c with Lt => Ok (Some right_child, s) | _ => Ok (Some left_child, s) end
  | _ =>
    '(c, s) ← (if right_child <? to then compare s i right_child else Ok (Eq, s));
    match c with Lt => Ok (Some right_child, s) | _ => Ok (None, s) end
  end.

(** Positions grow: [to - from] is enough fuel. *)
Fixpoint sift_down (fuel : nat) (s : T) (i from to : Z) : result T :=
  let left_child := heap_child from i in
  if left_child <? to then
    '(next, s) ← sift_child s i left_child to;
    match next with
    | None => Ok s
    | Some child =>
      s ← swap s i child;
      match fuel with O => Diverge | S fuel => sift_down fuel s child from to end
    end
  else Ok s.

Definition heapify (s : T) (from to : Z) : result T :=
  '(s, _) ← while_fuel (Z.to_nat (to - from)) (fun '(_, i) => from <=? i)
    (fun '(s, i) => s ← sift_down (Z.to_nat (to - from)) s i from to; Ok (s, i - 1)) (s, heap_parent from (to - 1));
  Ok s.

Definition heap_sort (s : T) (from to : Z) : result T :=
  if to - from <=? 1 then Ok s
  else
    s ← heapify s from to;
    '(s, _) ← while_fuel (Z.to_nat (to - from)) (fun '(_, end_) => from <? end_)
      (fun '(s, end_) =>
        s ← swap s from end_; s ← sift_down (Z.to_nat (to - from)) s from from end_; Ok (s, end_ - 1)) (s, to - 1);
    Ok s.

(** ** Intro sort *)

(** [while compare_pivot(right) == Less { right -= 1 }] *)
Fixpoint scan_right (fuel : nat) (s : T) (rgt : Z) : result (Z * T) :=
  '(c, s) ← compare_pivot s rgt;
  match c with
  | Lt => match fuel with O => Diverge | S fuel => scan_right fuel s (rgt - 1) end
  | _ => Ok (rgt, s)
  end.
(** [while left < right && compare_pivot(left) != Less { left += 1 }] *)
Fixpoint scan_left (fuel : nat) (s : T) (lft rgt : Z) : result (Z * T) :=
  if lft <? rgt then
    '(c, s) ← compare_pivot s lft;
    match c with
    | Lt => Ok (lft, s)
    | _ => match fuel with O => Diverge | S fuel => scan_left fuel s (lft + 1) rgt end
    end
  else Ok (lft, s).

Fixpoint partition (fuel : nat) (s : T) (from lft rgt : Z) : result (Z * T) :=
  '(rgt, s) ← scan_right (Z.to_nat (rgt - from)) s rgt;
  '(lft, s) ← scan_left (Z.to_nat (rgt - from)) s lft rgt;
  if lft <? rgt then
    s ← swap s lft rgt;
    match fuel with O => Diverge | S fuel => partition fuel s from lft (rgt - 1) end
  else Ok (lft, s).

(** [if compare(i, j) == Greater { swap(i, j) }]; the flag tells whether. *)
Definition order_two (s : T) (i j : Z) : result (bool * T) :=
  '(c, s) ← compare s i j;
  match c with Gt => s ← swap s i j; Ok (true, s) | _ => Ok (false, s) end.

(** The exchanges that put the median of three in the middle. *)
Definition order_three (s : T) (i j k : Z) : result T :=
  '(_, s) ← order_two s i j;
  '(swapped, s) ← order_two s j k;
  '(_, s) ← (if (swapped : bool) then order_two s i j else Ok (false, s));
  Ok s.

(** The depth bounds the recursion: [max_depth] is enough fuel. *)
Fixpoint quick_sort (fuel : nat) (s : T) (from to max_depth : Z) : result T :=
  let max_depth := max_depth - 1 in
  if to - from <? BINARY_SORT_THRESHOLD then binary_sort s from to
  else if max_depth <? 0 then heap_sort s from to
  else
    match fuel with
    | O => Diverge
    | S fuel =>
      let mid := half_of (from + to) in
      s ← order_three s from mid (to - 1);
      s ← set_pivot s mid;
      '(lft, s) ← partition (Z.to_nat (to - from)) s from (from + 1) (to - 2);
      s ← quick_sort fuel s from (lft + 1) max_depth;
      quick_sort fuel s (lft + 1) to max_depth
    end.

(** ** The merge sort of the doc values updates (doc_values_writer.rs) *)
Fixpoint merge_sort (fuel : nat) (s : T) (from to : Z) : result T :=
  if to - from <? BINARY_SORT_THRESHOLD then binary_sort s from to
  else
    match fuel with
    | O => Diverge
    | S fuel =>
      let mid := Z.quot (as_i32 (from + to)) 2 in
      s ← merge_sort fuel s from mid;
      s ← merge_sort fuel s mid to;
      merge_in_place (Z.to_nat (to - from)) s from mid to
    end.

End sorter.

(** * Selection (selector.rs) *)

Class Selector (T : Type) : Type := {
  selector_swap : T → Z → Z → result T;
  selector_set_pivot : T → Z → result T;
  selector_compare_pivot : T → Z → result (comparison * T);
}.

(** [compare] goes through the pivot. *)
#[export] Instance selector_sorter {T} `{Selector T} : Sorter T := {
  compare s i j := s ← selector_set_pivot s i; selector_compare_pivot s j;
  swap := selector_swap;
  set_pivot := selector_set_pivot;
  compare_pivot := selector_compare_pivot;
}.

Section selector.
Context {T : Type} `{Selector T}.

(** [while compare_pivot(left) == Greater { left += 1 }] *)
Fixpoint select_left (fuel : nat) (s : T) (lft : Z) : result (Z * T) :=
  '(c, s) ← compare_pivot s lft;
  match c with
  | Gt => match fuel with O => Diverge | S fuel => select_left fuel s (lft + 1) end
  | _ => Ok (lft, s)
  end.
(** [while left < right && compare_pivot(right) != Greater { right -= 1 }] *)
Fixpoint select_right (fuel : nat) (s : T) (lft rgt : Z) : result (Z * T) :=
  if lft <? rgt then
    '(c, s) ← compare_pivot s rgt;
    match c with
    | Gt => Ok (rgt, s)
    | _ => match fuel with O => Diverge | S fuel => select_right fuel s lft (rgt - 1) end
    end
  else Ok (rgt, s).

Fixpoint select_partition (fuel : nat) (s : T) (to lft rgt : Z) : result (Z * T) :=
  '(lft, s) ← select_left (Z.to_nat (to - lft)) s lft;
  '(rgt, s) ← select_right (Z.to_nat (rgt - lft)) s lft rgt;
  if lft <? rgt then
    s ← swap s lft rgt;
    match fuel with O => Diverge | S fuel => select_partition fuel s to lft (rgt - 1) end
  else Ok (lft, s).

(** The pivot goes between what is below it and what is above. *)
Definition select_round (s : T) (from to : Z) : result (Z * T) :=
  let mid := half_of (from + to) in
  s ← order_three s from (to - 1) mid;
  s ← set_pivot s (to - 1);
  '(lft, s) ← select_partition (Z.to_nat (to - from)) s to (from + 1) (to - 2);
  s ← swap s lft (to - 1);
  Ok (lft, s).

(** Every round drops at least the pivot: [to - from] is enough fuel.  The depth
    is counted but not used. *)
Fixpoint quick_select (fuel : nat) (s : T) (from to k max_depth : Z) : result T :=
  if to - from =? 1 then Ok s
  else
    match fuel with
    | O => Diverge
    | S fuel =>
      let max_depth := max_depth - 1 in
      '(lft, s) ← select_round s from to;
      if lft =? k then Ok s
      else if lft <? k then quick_select fuel s (lft + 1) to k max_depth
      else quick_select fuel s from lft k max_depth
    end.
End selector.

(** * LSBRadixSorter *)

Module LSBRadixSorter.
Record t : Type := mk { histogram : list Z }.
Definition default : t := mk (replicate (Z.to_nat LSB_HISTOGRAM_SIZE) 0).

Definition build_histogram (array : list Z) (len : Z) (histogram : list Z) (shift : Z) : result (list Z) :=
  for_each (take (Z.to_nat len) array) (fun i histogram =>
    let b := as_u64 (Z.land (unsigned_shift 32 i shift) 255) in
    c ← vget histogram b; vset histogram b (as_i32 (c + 1))) histogram.

(** The running sums before each count. *)
Fixpoint sums (accum : Z) (histogram : list Z) : list Z :=
  match histogram with
  | [] => []
  | temp :: histogram => accum :: sums (as_i32 (accum + temp)) histogram
  end.
Definition sum_histogram (histogram : list Z) : list Z :=
  sums 0 (take (Z.to_nat LSB_HISTOGRAM_SIZE) histogram) ++ drop (Z.to_nat LSB_HISTOGRAM_SIZE) histogram.

Definition reorder (array : list Z) (len : Z) (histogram : list Z) (shift : Z) (dest : list Z) : result (list Z * list Z) :=
  for_each (take (Z.to_nat len) array) (fun v '(histogram, dest) =>
    let b := as_u64 (Z.land (shr_i v shift) 255) in
    h ← vget histogram b;
    dest ← vset dest (as_u64 h) v;
    histogram ← vset histogram b (as_i32 (h + 1));
    Ok (histogram, dest)) (histogram, dest).

Definition sort_histogram (array : list Z) (len : Z) (histogram : list Z) (shift : Z) (dest : list Z) : result (bool * list Z * list Z) :=
  let histogram := map (fun _ => 0) histogram in
  histogram ← build_histogram array len histogram shift;
  h0 ← vget histogram 0;
  if h0 =? as_i32 len then Ok (false, histogram, dest)
  else
    let histogram := sum_histogram histogram in
    '(histogram, dest) ← reorder array len histogram shift dest;
    Ok (true, histogram, dest).

(** [array[0..len].sort()] is the stable sort of the standard library. *)
Fixpoint insert_sorted (x : Z) (l : list Z) : list Z :=
  match l with
  | [] => [x]
  | y :: l' => if x <=? y then x :: l else y :: insert_sorted x l'
  end.
Definition std_sort (l : list Z) : list Z := foldr insert_sorted [] l.

(** A round of the loop: from the array to the buffer or back. *)
Definition pass (len : Z) (st : list Z * list Z * list Z * Z * bool) : result (list Z * list Z * list Z * Z * bool) :=
  let '(h, array, buffer, shift, origin) := st in
  if origin then
    '(moved, h, buffer) ← sort_histogram array len h shift buffer;
    Ok (h, array, buffer, shift + 8, if (moved : bool) then negb origin else origin)
  else
    '(moved, h, array) ← sort_histogram buffer len h shift array;
    Ok (h, array, buffer, shift + 8, if (moved : bool) then negb origin else origin).

Definition sort (r : t) (num_bits : Z) (array : list Z) (len : Z) : result (t * list Z) :=
  if len <? INSERTION_SORT_THRESHOLD then
    s ← vslice array 0 len;
    Ok (r, std_sort s ++ drop (Z.to_nat len) array)
  else
    let buffer := replicate (Z.to_nat len) 0 in
    '(h, array, buffer, _, origin) ←
      while_fuel (Z.to_nat num_bits) (fun '(_, _, _, shift, _) => shift <? num_bits)
        (pass len) (histogram r, array, buffer, 0, true);
    array ← (if (origin : bool) then Ok array
             else src ← vslice buffer 0 len; vblit array 0 src);
    Ok (mk h, array).
End LSBRadixSorter.
