(* ===== verification/SorterFacts.v ===== *)
(** The algorithms of sorter.rs and selector.rs sort and select.

    A sorter is lawful when its state shows a list on which [compare] is a total
    preorder and [swap] exchanges two elements.  Every algorithm is proved against
    these laws: it terminates, it only permutes its range, and the range ends up in
    order. *)

From S2P Require Import Prelude Sorter.
Open Scope Z_scope.
Set Default Proof Using "Type*".

(** * Lists, ranges and exchanges *)

Section ranges.
Context {A : Type} `{Inhabited A}.
Implicit Types (l : list A) (P : A → Prop).

Definition swapl l (i j : Z) : list A := <[Z.to_nat i := elem l j]> (<[Z.to_nat j := elem l i]> l).

Lemma vlen_swapl l i j : vlen (swapl l i j) = vlen l.
Proof. unfold swapl. by rewrite !vlen_insert. Qed.

Lemma elem_swapl l i j k : 0 ≤ i < vlen l → 0 ≤ j < vlen l → 0 ≤ k →
  elem (swapl l i j) k = if k =? i then elem l j else if k =? j then elem l i else elem l k.
Proof.
  intros Hi Hj Hk. unfold vlen in *. unfold elem at 1, swapl. split_cmp; subst.
  - rewrite list_lookup_total_insert_eq; [done|]. rewrite length_insert. lia.
  - rewrite list_lookup_total_insert_ne by lia. rewrite list_lookup_total_insert_eq by lia. done.
  - rewrite !list_lookup_total_insert_ne by lia. done.
Qed.

Lemma elem_ext l k : vlen l = vlen k → (∀ i, 0 ≤ i < vlen l → elem l i = elem k i) → l = k.
Proof.
  intros Hlen Hel. apply list_eq_same_length with (length l); unfold vlen in *; [lia|done|].
  intros i x y Hi Hx Hy. specialize (Hel (Z.of_nat i)). unfold elem in Hel. rewrite Nat2Z.id in Hel.
  rewrite (list_lookup_total_correct _ _ _ Hx), (list_lookup_total_correct _ _ _ Hy) in Hel. apply Hel. lia.
Qed.

Lemma swapl_perm l i j : 0 ≤ i < vlen l → 0 ≤ j < vlen l → swapl l i j ≡ₚ l.
Proof.
  intros Hi Hj. unfold swapl. pose proof (lookup_elem l i Hi) as Ei. pose proof (lookup_elem l j Hj) as Ej.
  pose proof (insert_bag l (Z.to_nat j) _ (elem l i) Ej) as P1. destruct (decide (i = j)) as [->|Hne].
  { rewrite list_insert_insert_eq. by rewrite list_insert_id. }
  assert (<[Z.to_nat j := elem l i]> l !! Z.to_nat i = Some (elem l i)) as E by (rewrite list_lookup_insert_ne by lia; done).
  pose proof (insert_bag _ (Z.to_nat i) _ (elem l j) E) as P2.
  apply (Permutation_cons_inv (a := elem l i)). rewrite P2, P1. done.
Qed.

(** [k] is [l] with the range from [from] to [to] permuted. *)
Definition conf (from to : Z) l k : Prop := k ≡ₚ l ∧ ∀ i, 0 ≤ i < vlen l → ¬ (from ≤ i < to) → elem k i = elem l i.

Lemma conf_vlen from to l k : conf from to l k → vlen k = vlen l.
Proof. intros [Hp _]. unfold vlen. by rewrite Hp. Qed.

Lemma conf_refl from to l : conf from to l l.
Proof. by split. Qed.

Lemma conf_trans from to l k j : conf from to l k → conf from to k j → conf from to l j.
Proof.
  intros C1 [P2 E2]. pose proof (conf_vlen _ _ _ _ C1) as Hl. destruct C1 as [P1 E1].
  split; [by rewrite P2|]. intros i Hi Ho. rewrite E2, E1 by (rewrite ?Hl; done). done.
Qed.

Lemma conf_wider from to from' to' l k : from' ≤ from → to ≤ to' → conf from to l k → conf from' to' l k.
Proof. intros H1 H2 [P E]. split; [done|]. intros i Hi Ho. apply E; [done|lia]. Qed.

Lemma conf_swap from to l i j : 0 ≤ from → to ≤ vlen l → from ≤ i < to → from ≤ j < to → conf from to l (swapl l i j).
Proof.
  intros H0 H1 Hi Hj. split; [apply swapl_perm; lia|]. intros k Hk Ho. rewrite elem_swapl by lia. split_cmp; subst; done || lia.
Qed.

Lemma conf_outside from to l k i : conf from to l k → 0 ≤ i < vlen l → i < from ∨ to ≤ i → elem k i = elem l i.
Proof. intros [_ E] Hi Ho. apply E; [done|lia]. Qed.

(** The elements from [lo] to [hi]. *)
Definition rng l (lo hi : Z) : list A := take (Z.to_nat (hi - lo)) (drop (Z.to_nat lo) l).

Lemma vlen_rng l lo hi : 0 ≤ lo → lo ≤ hi → hi ≤ vlen l → vlen (rng l lo hi) = hi - lo.
Proof. intros. unfold rng, vlen in *. rewrite length_take, length_drop. lia. Qed.

Lemma rng_lookup l lo hi i : 0 ≤ lo → lo ≤ i < hi → hi ≤ vlen l → rng l lo hi !! Z.to_nat (i - lo) = Some (elem l i).
Proof. intros. unfold rng. rewrite lookup_take_lt by lia. rewrite lookup_drop. rewrite <- lookup_elem by lia. f_equal. lia. Qed.

Lemma rng_app l lo mid hi : 0 ≤ lo → lo ≤ mid → mid ≤ hi → rng l lo hi = rng l lo mid ++ rng l mid hi.
Proof.
  intros. unfold rng. replace (Z.to_nat (hi - lo)) with (Z.to_nat (mid - lo) + Z.to_nat (hi - mid))%nat by lia. rewrite <- take_take_drop, drop_drop. do 3 f_equal. lia.
Qed.

Lemma rng_one l i : 0 ≤ i < vlen l → rng l i (i + 1) = [elem l i].
Proof. intros Hi. unfold rng. replace (Z.to_nat (i + 1 - i)) with 1%nat by lia. rewrite (drop_S _ (elem l i)) by (by apply lookup_elem). done. Qed.

Lemma rng_Forall P l lo hi : 0 ≤ lo → lo ≤ hi → hi ≤ vlen l → (∀ i, lo ≤ i < hi → P (elem l i)) ↔ Forall P (rng l lo hi).
Proof.
  intros H0 H1 H2. rewrite Forall_lookup. split.
  - intros HP j x Hx. pose proof (lookup_lt_Some _ _ _ Hx) as Hj. pose proof (vlen_rng l lo hi H0 H1 H2) as Hl. unfold vlen in Hl.
    pose proof (rng_lookup l lo hi (lo + Z.of_nat j) H0 ltac:(lia) H2) as E. replace (Z.to_nat (lo + Z.of_nat j - lo)) with j in E by lia. rewrite Hx in E. injection E as ->. apply HP. lia.
  - intros HF i Hi. apply (HF (Z.to_nat (i - lo))), rng_lookup; done.
Qed.

(** The elements of the range are the same before and after. *)
Lemma conf_rng from to l k : 0 ≤ from → from ≤ to → to ≤ vlen l → conf from to l k → rng k from to ≡ₚ rng l from to.
Proof.
  intros H0 H1 H2 C. pose proof (conf_vlen _ _ _ _ C) as Hv. destruct C as [Hp Ho].
  set (f := Z.to_nat from). set (n := Z.to_nat (to - from)).
  assert (take f k = take f l) as E1.
  { unfold f. apply elem_ext; rewrite !vlen_take by lia; [done|]. intros i Hi. specialize (Ho i). unfold elem in *.
    rewrite !lookup_total_take_lt by lia. apply Ho; lia. }
  assert (drop (f + n) k = drop (f + n) l) as E2.
  { assert (f + n = Z.to_nat to)%nat as -> by lia. apply elem_ext; rewrite !vlen_drop by lia; [lia|]. intros i Hi.
    specialize (Ho (to + i)). unfold elem in *. rewrite !lookup_total_drop.
    replace (Z.to_nat to + Z.to_nat i)%nat with (Z.to_nat (to + i)) by lia. apply Ho; lia. }
  unfold rng. fold f n. rewrite <- (take_drop f k), <- (take_drop f l), E1 in Hp. apply Permutation_app_inv_l in Hp.
  rewrite <- (take_drop n (drop f k)), <- (take_drop n (drop f l)), !drop_drop, E2 in Hp. by apply Permutation_app_inv_r in Hp.
Qed.

Lemma conf_all from to l k P : 0 ≤ from → from ≤ to → to ≤ vlen l → conf from to l k →
  (∀ i, from ≤ i < to → P (elem l i)) → ∀ i, from ≤ i < to → P (elem k i).
Proof.
  intros H0 H1 H2 C HP. pose proof (conf_vlen _ _ _ _ C) as Hv. apply rng_Forall; [lia..|]. rewrite (conf_rng from to l k) by done. by apply rng_Forall.
Qed.
End ranges.

Lemma half_of_div x : 0 ≤ x < 2 ^ 31 → half_of x = x / 2.
Proof.
  intros Hx. unfold half_of, unsigned_shift. rewrite (as_i_id 32 x) by (unfold is_i; lia). rewrite as_u_id by (unfold is_u; lia).
  rewrite Z.shiftr_div_pow2 by lia. apply as_i_id; [lia|]. unfold is_i. change (2 ^ 1) with 2. assert (0 ≤ x / 2 < 2 ^ 31) by (split; [apply Z.div_pos|apply Z.div_lt_upper_bound]; lia). lia.
Qed.

(** * The laws *)

Class TotalPreorder {A : Type} (cmp : A → A → comparison) : Prop := {
  cmp_opp : ∀ x y, cmp y x = CompOpp (cmp x y);
  cmp_trans : ∀ x y z, cmp x y ≠ Gt → cmp y z ≠ Gt → cmp x z ≠ Gt;
}.

(** The pivot may be kept as a position, so that only the comparisons with it are
    sure to leave it alone. *)
Class LawfulSorter (T A : Type) `{Sorter T} `{Inhabited A} (cmp : A → A → comparison) (base : Z) : Type := {
  arr : T → list A;
  pivot : T → A;
  compare_law s i j : base ≤ i < vlen (arr s) → base ≤ j < vlen (arr s) →
    ∃ s', compare s i j = Ok (cmp (elem (arr s) i) (elem (arr s) j), s') ∧ arr s' = arr s;
  swap_law s i j : base ≤ i < vlen (arr s) → base ≤ j < vlen (arr s) →
    ∃ s', swap s i j = Ok s' ∧ arr s' = swapl (arr s) i j;
  set_pivot_law s i : base ≤ i < vlen (arr s) →
    ∃ s', set_pivot s i = Ok s' ∧ arr s' = arr s ∧ cmp (pivot s') (elem (arr s) i) = Eq;
  compare_pivot_law s j : base ≤ j < vlen (arr s) →
    ∃ s', compare_pivot s j = Ok (cmp (pivot s) (elem (arr s) j), s') ∧ arr s' = arr s ∧ pivot s' = pivot s;
}.

(** The pivot is a copy of the element: exchanges leave it alone. *)
Class PivotCopied (T A : Type) {HS : Sorter T} {HI : Inhabited A} (cmp : A → A → comparison) {base : Z} {L : LawfulSorter T A cmp base} : Prop :=
  swap_pivot s s' i j : swap s i j = Ok s' → pivot s' = pivot s.

Section order.
Context {A : Type} `{Inhabited A} (cmp : A → A → comparison) `{!TotalPreorder cmp}.

Definition le (x y : A) : Prop := cmp x y ≠ Gt.
Definition sorted (l : list A) (from to : Z) : Prop := ∀ i j, from ≤ i → i ≤ j → j < to → le (elem l i) (elem l j).

Lemma le_refl x : le x x.
Proof. unfold le. pose proof (cmp_opp (cmp := cmp) x x). by destruct (cmp x x). Qed.
Lemma le_trans x y z : le x y → le y z → le x z.
Proof. apply cmp_trans. Qed.
Lemma lt_le x y : cmp x y = Lt → le x y.
Proof. unfold le. intros ->. done. Qed.
Lemma gt_le x y : cmp x y = Gt → le y x.
Proof. unfold le. rewrite (cmp_opp (cmp := cmp) x y). by intros ->. Qed.
Lemma ge_le x y : cmp x y ≠ Lt → le y x.
Proof. unfold le. rewrite (cmp_opp (cmp := cmp) x y). by destruct (cmp x y). Qed.
Lemma le_gt x y : le x y → cmp y x ≠ Lt.
Proof. unfold le. rewrite (cmp_opp (cmp := cmp) x y). by destruct (cmp x y). Qed.

Lemma eq_le x y : cmp x y = Eq → (∀ z, le z x → le z y) ∧ (∀ z, le x z → le y z).
Proof. intros E. assert (le x y ∧ le y x) as [H1 H2] by (unfold le; rewrite (cmp_opp (cmp := cmp) x y), E; done). split; intros z Hz; by eapply le_trans. Qed.

Lemma sorted_short l from to : to ≤ from + 1 → sorted l from to.
Proof. intros Hs i j Hi Hij Hj. replace j with i by lia. apply le_refl. Qed.

(** Two sorted parts make a sorted range when nothing of the first exceeds the bound
    and nothing of the second is below it. *)
Lemma sorted_join l from mid to x : sorted l from mid → sorted l mid to →
  (∀ i, from ≤ i < mid → le (elem l i) x) → (∀ i, mid ≤ i < to → le x (elem l i)) → sorted l from to.
Proof.
  intros H1 H2 Hx1 Hx2 i j Hi Hij Hj. destruct (decide (j < mid)); [by apply H1|]. destruct (decide (mid ≤ i)); [by apply H2|].
  apply le_trans with x; [apply Hx1|apply Hx2]; lia.
Qed.

Lemma sorted_same l k from to : (∀ i, from ≤ i < to → elem k i = elem l i) → sorted l from to → sorted k from to.
Proof. intros E Hs i j Hi Hij Hj. rewrite !E by lia. by apply Hs. Qed.

Lemma sorted_sub l from to from' to' : from ≤ from' → to' ≤ to → sorted l from to → sorted l from' to'.
Proof. intros H1 H2 Hs i j Hi Hij Hj. apply Hs; lia. Qed.
End order.
Create HintDb sorting.
#[export] Hint Resolve le_refl lt_le gt_le ge_le conf_refl : sorting.

(** * Rotation and binary search *)

Section sorter.
Context {T A : Type} {HS : Sorter T} {HI : Inhabited A} {cmp : A → A → comparison} {HO : TotalPreorder cmp} {base : Z} {L : LawfulSorter T A cmp base} (Hbase : 0 ≤ base).
Implicit Types s : T.
#[local] Notation "x ⊑ y" := (le cmp x y) (at level 70).
#[local] Abbreviation sorted := (sorted cmp).

(** Decide the positions and compare the places read. *)
Ltac places := split_cmp; cbn [andb orb negb]; try done; f_equal; lia.

Lemma reverse_spec s from to : base ≤ from → from ≤ to → to ≤ vlen (arr s) →
  ∃ s', reverse s from to = Ok s' ∧ conf from to (arr s) (arr s') ∧
    ∀ i, from ≤ i < to → elem (arr s') i = elem (arr s) (from + to - 1 - i).
Proof.
  intros H0 H1 H2. unfold reverse.
  loop_inv (fun '(t, f, e) => from ≤ f ≤ e + 2 ∧ f - from = to - 1 - e ∧ conf from to (arr s) (arr t) ∧
      ∀ i, from ≤ i < to → elem (arr t) i = elem (arr s) (if (f <=? i) && (i <=? e) then i else from + to - 1 - i))
    (fun '(_, f, e) => Z.to_nat (e - f + 1)).
  - intros [[t f] e] (Hf & Hfe & Hc & He) Hcond. pose proof (conf_vlen _ _ _ _ Hc) as Hv.
    destruct (swap_law t f e) as (t' & E & Ht); [lia..|]. rewrite E, bind_Ok_l. eexists; split; [done|]. split; [|lia].
    split; [lia|]. split; [lia|]. split; [rewrite Ht; eapply conf_trans; [exact Hc|]; apply conf_swap; lia|].
    intros i Hi. rewrite Ht, elem_swapl by lia. rewrite !He by lia. places.
  - split; [lia|]. split; [lia|]. split; [apply conf_refl|]. intros i Hi. places.
  - lia.
  - destruct Hloop as ([[s' f] e] & E & (Hf & Hfe & Hc & He) & Hcond). rewrite E, bind_Ok_l. exists s'. split; [done|]. split; [done|]. intros i Hi. rewrite He by done. places.
Qed.

Lemma rotate_spec s low mid high : base ≤ low → low ≤ mid → mid ≤ high → high ≤ vlen (arr s) →
  ∃ s', rotate s low mid high = Ok s' ∧ conf low high (arr s) (arr s') ∧
    ∀ i, low ≤ i < high → elem (arr s') i = elem (arr s) (if i <? low + (high - mid) then i + (mid - low) else i - (high - mid)).
Proof.
  intros H0 H1 H2 H3. unfold rotate.
  destruct (Z.eqb_spec low mid) as [->|Hlm]; [exists s; split; [done|]; split; [apply conf_refl|]; intros i Hi; places|].
  destruct (Z.eqb_spec mid high) as [->|Hmh]; [exists s; split; [done|]; split; [apply conf_refl|]; intros i Hi; places|]. cbn [orb].
  destruct (Z.eqb_spec (mid - low) (high - mid)) as [Heq|Hne].
  - loop_inv (fun '(t, l, m) => low ≤ l ∧ l - low = m - mid ∧ m ≤ high ∧ conf low high (arr s) (arr t) ∧
        ∀ i, low ≤ i < high → elem (arr t) i = elem (arr s)
          (if i <? l then i + (mid - low) else if (mid <=? i) && (i <? m) then i - (mid - low) else i))
    (fun '(_, _, m) => Z.to_nat (high - m)).
    + intros [[t l] m] (Hl & Hlm' & Hm & Hc & He) Hcond. pose proof (conf_vlen _ _ _ _ Hc) as Hv.
      destruct (swap_law t l m) as (t' & E & Ht); [lia..|]. rewrite E, bind_Ok_l. eexists; split; [done|]. split; [|lia].
      split; [lia|]. split; [lia|]. split; [lia|]. split; [rewrite Ht; eapply conf_trans; [exact Hc|]; apply conf_swap; lia|].
      intros i Hi. rewrite Ht, elem_swapl by lia. rewrite !He by lia. places.
    + split; [lia|]. split; [lia|]. split; [lia|]. split; [apply conf_refl|]. intros i Hi. places.
    + lia.
    + destruct Hloop as ([[s' l] m] & E & (Hl & Hlm' & Hm & Hc & He) & Hcond). rewrite E, bind_Ok_l. exists s'. split; [done|]. split; [done|]. intros i Hi. rewrite He by done. places.
  - destruct (reverse_spec s low mid) as (s1 & -> & C1 & R1); [lia..|]. rewrite bind_Ok_l. pose proof (conf_vlen _ _ _ _ C1) as V1.
    destruct (reverse_spec s1 mid high) as (s2 & -> & C2 & R2); [lia..|]. rewrite bind_Ok_l. pose proof (conf_vlen _ _ _ _ C2) as V2.
    destruct (reverse_spec s2 low high) as (s3 & -> & C3 & R3); [lia..|]. exists s3. split; [done|]. split.
    + eapply conf_trans; [eapply conf_wider; [| |exact C1]; lia|]. eapply conf_trans; [eapply conf_wider; [| |exact C2]; lia|done].
    + intros i Hi. rewrite R3 by lia. destruct (Z.ltb_spec i (low + (high - mid))).
      * rewrite R2 by lia. rewrite (conf_outside _ _ _ _ _ C1) by lia. f_equal. lia.
      * rewrite (conf_outside _ _ _ _ _ C2) by lia. rewrite R1 by lia. f_equal. lia.
Qed.

Lemma lower_spec s from to val : base ≤ from → from ≤ to → to ≤ vlen (arr s) → vlen (arr s) < 2 ^ 30 → base ≤ val < vlen (arr s) →
  sorted (arr s) from to →
  ∃ p s', lower s from to val = Ok (p, s') ∧ arr s' = arr s ∧ from ≤ p ≤ to ∧
    (∀ i, from ≤ i < p → elem (arr s) i ⊑ elem (arr s) val) ∧ (∀ i, p ≤ i < to → elem (arr s) val ⊑ elem (arr s) i).
Proof.
  intros H0 H1 H2 H3 Hval Hs. unfold lower.
  loop_inv (fun '(t, f, len) => arr t = arr s ∧ from ≤ f ∧ 0 ≤ len ∧ f + len ≤ to ∧
      (∀ i, from ≤ i < f → elem (arr s) i ⊑ elem (arr s) val) ∧ (∀ i, f + len ≤ i < to → elem (arr s) val ⊑ elem (arr s) i))
    (fun '(_, _, len) => Z.to_nat len).
  - intros [[t f] len] (Ht & Hf & Hl & Hfl & Hlo & Hhi) Hcond. cbv zeta. rewrite half_of_div by lia.
    assert (0 ≤ len / 2 < len) by (split; [apply Z.div_pos|apply Z.div_lt]; lia). set (h := len / 2) in *.
    destruct (compare_law t (f + h) val) as (t' & -> & Ht'); [rewrite Ht; lia..|]. rewrite bind_Ok_l. rewrite Ht in Ht' |- *.
    destruct (cmp _ _) eqn:Ec.
    1, 3: eexists; split; [done|]; split; [|lia]; split; [done|]; split; [lia|]; split; [lia|]; split; [lia|]; split; [done|];
      intros i Hi; apply (le_trans cmp) with (elem (arr s) (f + h)); [apply (ge_le cmp); by rewrite Ec|apply Hs; lia].
    eexists; split; [done|]. split; [|lia]. split; [done|]. split; [lia|]. split; [lia|]. split; [lia|]. split; [|intros; apply Hhi; lia].
    intros i Hi. apply (le_trans cmp) with (elem (arr s) (f + h)); [apply Hs; lia|by apply (lt_le cmp)].
  - split; [done|]. split; [lia|]. split; [lia|]. split; [lia|]. split; intros; lia.
  - lia.
  - destruct Hloop as ([[s' f] len] & E & (Ht & Hf & Hl & Hfl & Hlo & Hhi) & Hcond). rewrite E, bind_Ok_l. exists f, s'. split; [done|]. split; [done|]. split; [lia|]. split; [done|]. intros i Hi. apply Hhi. lia.
Qed.

Lemma upper_spec s from to val : base ≤ from → from ≤ to → to ≤ vlen (arr s) → vlen (arr s) < 2 ^ 30 → base ≤ val < vlen (arr s) →
  sorted (arr s) from to →
  ∃ p s', upper s from to val = Ok (p, s') ∧ arr s' = arr s ∧ from ≤ p ≤ to ∧
    (∀ i, from ≤ i < p → elem (arr s) i ⊑ elem (arr s) val) ∧ (∀ i, p ≤ i < to → elem (arr s) val ⊑ elem (arr s) i).
Proof.
  intros H0 H1 H2 H3 Hval Hs. unfold upper.
  loop_inv (fun '(t, f, len) => arr t = arr s ∧ from ≤ f ∧ 0 ≤ len ∧ f + len ≤ to ∧
      (∀ i, from ≤ i < f → elem (arr s) i ⊑ elem (arr s) val) ∧ (∀ i, f + len ≤ i < to → elem (arr s) val ⊑ elem (arr s) i))
    (fun '(_, _, len) => Z.to_nat len).
  - intros [[t f] len] (Ht & Hf & Hl & Hfl & Hlo & Hhi) Hcond. cbv zeta. rewrite half_of_div by lia.
    assert (0 ≤ len / 2 < len) by (split; [apply Z.div_pos|apply Z.div_lt]; lia). set (h := len / 2) in *.
    destruct (compare_law t val (f + h)) as (t' & -> & Ht'); [rewrite Ht; lia..|]. rewrite bind_Ok_l. rewrite Ht in Ht' |- *.
    destruct (cmp _ _) eqn:Ec.
    1, 3: eexists; split; [done|]; split; [|lia]; split; [done|]; split; [lia|]; split; [lia|]; split; [lia|]; split; [|intros; apply Hhi; lia];
      intros i Hi; apply (le_trans cmp) with (elem (arr s) (f + h)); [apply Hs; lia|apply (ge_le cmp); by rewrite Ec].
    eexists; split; [done|]. split; [|lia]. split; [done|]. split; [lia|]. split; [lia|]. split; [lia|]. split; [done|].
    intros i Hi. apply (le_trans cmp) with (elem (arr s) (f + h)); [by apply (lt_le cmp)|apply Hs; lia].
  - split; [done|]. split; [lia|]. split; [lia|]. split; [lia|]. split; intros; lia.
  - lia.
  - destruct Hloop as ([[s' f] len] & E & (Ht & Hf & Hl & Hfl & Hlo & Hhi) & Hcond). rewrite E, bind_Ok_l. exists f, s'. split; [done|]. split; [done|]. split; [lia|]. split; [done|]. intros i Hi. apply Hhi. lia.
Qed.

(** * Merging in place *)

Lemma trim_front_spec s from mid : base ≤ from → mid < vlen (arr s) → cmp (elem (arr s) (mid - 1)) (elem (arr s) mid) = Gt →
  ∀ fuel f t, from ≤ f < mid → (Z.to_nat (mid - f) ≤ fuel)%nat → arr t = arr s →
  (∀ i, from ≤ i < f → elem (arr s) i ⊑ elem (arr s) mid) →
  ∃ p t', trim_front fuel t f mid = Ok (p, t') ∧ arr t' = arr s ∧ from ≤ p < mid ∧
    ∀ i, from ≤ i < p → elem (arr s) i ⊑ elem (arr s) mid.
Proof.
  intros H0 Hv Hgt fuel. induction fuel as [|fuel IH]; intros f t Hf Hfu Ht Hlo; [lia|]. cbn [trim_front].
  destruct (compare_law t f mid) as (t' & -> & Ht'); [rewrite Ht; lia..|]. rewrite bind_Ok_l. rewrite Ht in Ht' |- *.
  destruct (decide (f = mid - 1)) as [->|Hne]; [rewrite Hgt; exists (mid - 1), t'; split; [done|]; split; [done|]; by split; [lia|]|].
  destruct (cmp (elem (arr s) f) _) eqn:Ec; [| |exists f, t'; split; [done|]; split; [done|]; by split; [lia|]].
  all: apply IH; [lia|lia|done|]; intros i Hi; destruct (decide (i = f)) as [->|]; [unfold le; by rewrite Ec|apply Hlo; lia].
Qed.

Lemma trim_back_spec s mid to : base < mid → to ≤ vlen (arr s) → cmp (elem (arr s) (mid - 1)) (elem (arr s) mid) = Gt →
  ∀ fuel e t, mid < e ≤ to → (Z.to_nat (e - mid) ≤ fuel)%nat → arr t = arr s →
  (∀ i, e ≤ i < to → elem (arr s) (mid - 1) ⊑ elem (arr s) i) →
  ∃ p t', trim_back fuel t mid e = Ok (p, t') ∧ arr t' = arr s ∧ mid < p ≤ to ∧
    ∀ i, p ≤ i < to → elem (arr s) (mid - 1) ⊑ elem (arr s) i.
Proof.
  intros H0 Hv Hgt fuel. induction fuel as [|fuel IH]; intros e t He Hfu Ht Hhi; [lia|]. cbn [trim_back].
  destruct (compare_law t (mid - 1) (e - 1)) as (t' & -> & Ht'); [rewrite Ht; lia..|]. rewrite bind_Ok_l. rewrite Ht in Ht' |- *.
  destruct (decide (e = mid + 1)) as [->|Hne].
  { replace (mid + 1 - 1) with mid by lia. rewrite Hgt. exists (mid + 1), t'. split; [done|]. split; [done|]. by split; [lia|]. }
  destruct (cmp _ (elem (arr s) (e - 1))) eqn:Ec; [| |exists e, t'; split; [done|]; split; [done|]; by split; [lia|]].
  all: apply IH; [lia|lia|done|]; intros i Hi; destruct (decide (i = e - 1)) as [->|]; [unfold le; by rewrite Ec|apply Hhi; lia].
Qed.

(** A way to cut the two runs at a value. *)
Definition cut_at (l : list A) (from fc mid sc to : Z) (v : A) : Prop :=
  (∀ i, from ≤ i < fc → elem l i ⊑ v) ∧ (∀ i, fc ≤ i < mid → v ⊑ elem l i) ∧
  (∀ i, mid ≤ i < sc → elem l i ⊑ v) ∧ (∀ i, sc ≤ i < to → v ⊑ elem l i).

Lemma cuts_spec s from mid to : base ≤ from → from < mid → mid < to → to ≤ vlen (arr s) → vlen (arr s) < 2 ^ 30 →
  sorted (arr s) from mid → sorted (arr s) mid to →
  ∃ fc sc s', merge_cuts s from mid to = Ok (fc, sc, sc - mid, s') ∧ arr s' = arr s ∧
    from ≤ fc ≤ mid ∧ mid ≤ sc ≤ to ∧ fc + (sc - mid) < to ∧ (from < fc + (sc - mid) ∨ to - from ≤ 2) ∧
    ∃ v, cut_at (arr s) from fc mid sc to v.
Proof.
  intros H0 H1 H2 H3 H4 Hs1 Hs2. unfold merge_cuts. destruct (Z.ltb_spec (to - mid) (mid - from)).
  - cbv zeta. rewrite half_of_div by lia. assert (1 ≤ (mid - from) / 2 < mid - from) by (split; [apply Z.div_le_lower_bound|apply Z.div_lt]; lia).
    set (h := (mid - from) / 2) in *. destruct (lower_spec s mid to (from + h)) as (p & s' & -> & Ha & Hp & Hlo & Hhi); [lia..|done|].
    rewrite bind_Ok_l. exists (from + h), p, s'. split; [done|]. split; [done|]. split; [lia|]. split; [lia|]. split; [lia|]. split; [lia|].
    exists (elem (arr s) (from + h)). split; [intros; apply Hs1; lia|]. split; [intros; apply Hs1; lia|]. by split.
  - cbv zeta. rewrite half_of_div by lia. assert (0 ≤ (to - mid) / 2 < to - mid) by (split; [apply Z.div_pos|apply Z.div_lt]; lia).
    assert (2 ≤ to - mid → 1 ≤ (to - mid) / 2) by (intros; apply Z.div_le_lower_bound; lia).
    set (h := (to - mid) / 2) in *. destruct (upper_spec s from mid (mid + h)) as (p & s' & -> & Ha & Hp & Hlo & Hhi); [lia..|done|].
    rewrite bind_Ok_l. exists p, (mid + h), s'. split; [do 3 f_equal; lia|]. split; [done|]. split; [lia|]. split; [lia|]. split; [lia|]. split; [lia|].
    exists (elem (arr s) (mid + h)). split; [done|]. split; [done|]. split; intros; apply Hs2; lia.
Qed.

Lemma rotated_runs (l k : list A) from fc mid sc to v : 0 ≤ from → to ≤ vlen l → from ≤ fc ≤ mid → mid ≤ sc ≤ to → conf fc sc l k →
  (∀ i, fc ≤ i < sc → elem k i = elem l (if i <? fc + (sc - mid) then i + (mid - fc) else i - (sc - mid))) →
  sorted l from mid → sorted l mid to → cut_at l from fc mid sc to v →
  let nm := fc + (sc - mid) in
  sorted k from fc ∧ sorted k fc nm ∧ sorted k nm sc ∧ sorted k sc to ∧
  (∀ i, from ≤ i < nm → elem k i ⊑ v) ∧ (∀ i, nm ≤ i < to → v ⊑ elem k i).
Proof.
  intros H0 H1 H2 H3 C R Hs1 Hs2 (V1 & V2 & V3 & V4) nm. subst nm.
  assert (∀ i, fc ≤ i < fc + (sc - mid) → elem k i = elem l (i + (mid - fc))) as R1 by (intros i Hi; rewrite R by lia; places).
  assert (∀ i, fc + (sc - mid) ≤ i < sc → elem k i = elem l (i - (sc - mid))) as R2 by (intros i Hi; rewrite R by lia; places).
  assert (∀ i, from ≤ i < to → i < fc ∨ sc ≤ i → elem k i = elem l i) as R3 by (intros i Hi Ho; apply (conf_outside _ _ _ _ _ C); lia).
  split; [intros i j Hi Hij Hj; rewrite !R3 by lia; apply Hs1; lia|].
  split; [intros i j Hi Hij Hj; rewrite !R1 by lia; apply Hs2; lia|].
  split; [intros i j Hi Hij Hj; rewrite !R2 by lia; apply Hs1; lia|].
  split; [intros i j Hi Hij Hj; rewrite !R3 by lia; apply Hs2; lia|].
  split; intros i Hi.
  - destruct (decide (i < fc)); [rewrite R3 by lia; apply V1; lia|rewrite R1 by lia; apply V3; lia].
  - destruct (decide (i < sc)); [rewrite R2 by lia; apply V2; lia|rewrite R3 by lia; apply V4; lia].
Qed.

Lemma sorted_trimmed (l k : list A) from f mid e to : 0 ≤ from → from ≤ f < mid → mid < e ≤ to → to ≤ vlen l → conf f e l k →
  sorted l from mid → sorted l mid to →
  (∀ i, from ≤ i < f → elem l i ⊑ elem l mid) → (∀ i, e ≤ i < to → elem l (mid - 1) ⊑ elem l i) →
  sorted k f e → sorted k from to.
Proof.
  intros H0 H1 H2 H3 C Hs1 Hs2 Hf He Hk.
  assert (∀ i, from ≤ i < to → i < f ∨ e ≤ i → elem k i = elem l i) as R by (intros i Hi Ho; apply (conf_outside _ _ _ _ _ C); lia).
  assert (sorted k f to) as Hk'.
  { destruct (decide (e = to)) as [->|Hne]; [done|]. apply (sorted_join cmp k f e to (elem l e)); [done| | |].
    - intros i j Hi Hij Hj. rewrite !R by lia. apply Hs2; lia.
    - apply (conf_all f e l k (fun x => x ⊑ elem l e)); [lia..|done|]. intros i Hi. destruct (decide (i < mid)); [|apply Hs2; lia].
      apply (le_trans cmp) with (elem l (mid - 1)); [apply Hs1|apply He]; lia.
    - intros i Hi. rewrite R by lia. apply Hs2; lia. }
  destruct (decide (f = from)) as [->|Hne]; [done|]. apply (sorted_join cmp k from f to (elem l (f - 1))); [|done| |].
  - intros i j Hi Hij Hj. rewrite !R by lia. apply Hs1; lia.
  - intros i Hi. rewrite R by lia. apply Hs1; lia.
  - assert (∀ i, f ≤ i < to → elem l (f - 1) ⊑ elem l i) as Hx.
    { intros i Hi. destruct (decide (i < mid)); [apply Hs1; lia|]. apply (le_trans cmp) with (elem l mid); [apply Hf|apply Hs2]; lia. }
    intros i Hi. destruct (decide (i < e)); [|rewrite R by lia; apply Hx; lia].
    apply (conf_all f e l k (fun x => elem l (f - 1) ⊑ x)); [lia..|done| |lia]. intros j Hj. apply Hx. lia.
Qed.

Lemma merge_in_place_spec : ∀ fuel s from mid to, base ≤ from → from ≤ mid → mid ≤ to → to ≤ vlen (arr s) → vlen (arr s) < 2 ^ 30 →
  (Z.to_nat (to - from) ≤ fuel)%nat → sorted (arr s) from mid → sorted (arr s) mid to →
  ∃ s', merge_in_place fuel s from mid to = Ok s' ∧ conf from to (arr s) (arr s') ∧ sorted (arr s') from to.
Proof.
  intros fuel. induction fuel as [|fuel IH]; intros s from mid to H0 H1 H2 H3 H4 Hfu Hs1 Hs2.
  { assert (from = mid) as <- by lia. assert (from = to) as <- by lia. exists s. simpl. rewrite Z.eqb_refl. simpl.
    split; [done|]. split; [apply conf_refl|apply (sorted_short cmp); lia]. }
  cbn [merge_in_place]. destruct (Z.eqb_spec from mid) as [->|Hfm]; [exists s; split; [done|]; split; [apply conf_refl|done]|].
  destruct (Z.eqb_spec mid to) as [->|Hmt]; [exists s; split; [done|]; split; [apply conf_refl|done]|]. cbn [orb].
  destruct (compare_law s (mid - 1) mid) as (s1 & -> & A1); [lia..|]. rewrite bind_Ok_l.
  destruct (cmp _ _) eqn:Ec.
  1, 2: exists s1; split; [done|]; rewrite A1; split; [apply conf_refl|];
    apply (sorted_join cmp _ from mid to (elem (arr s) mid)); [done|done| |intros; apply Hs2; lia];
    intros i Hi; apply (le_trans cmp) with (elem (arr s) (mid - 1)); [apply Hs1; lia|unfold le; by rewrite Ec].
  destruct (Z.eqb_spec (to - from) 2).
  { destruct (swap_law s1 (mid - 1) mid) as (s2 & -> & A2); [rewrite A1; lia..|]. exists s2. rewrite A2, A1. split; [done|].
    split; [apply conf_swap; lia|]. apply (sorted_join cmp _ from mid to (elem (arr s) mid)); [apply (sorted_short cmp); lia..| |];
    intros i Hi; rewrite elem_swapl by lia; split_cmp; [apply (le_refl cmp)|by apply (gt_le cmp)]. }
  destruct (trim_front_spec s from mid) with (fuel := Z.to_nat (mid - from)) (f := from) (t := s1) as (f & s2 & -> & A2 & Hf & F);
    [lia|lia|done|lia|lia|done|lia|]. rewrite bind_Ok_l.
  destruct (trim_back_spec s mid to) with (fuel := Z.to_nat (to - mid)) (e := to) (t := s2) as (e & s3 & -> & A3 & He & B);
    [lia|lia|done|lia|lia|done|lia|]. rewrite bind_Ok_l.
  destruct (cuts_spec s3 f mid e) as (fc & sc & s4 & -> & A4 & Hfc & Hsc & Hlt & Hgt & v & Hv); rewrite ?A3; [lia..| | |].
  { by apply (sorted_sub cmp _ from mid); [lia..|]. }
  { by apply (sorted_sub cmp _ mid to); [lia..|]. }
  rewrite bind_Ok_l. rewrite A3 in *. clear s1 s2 s3 A1 A2 A3.
  destruct (rotate_spec s4 fc mid sc) as (s5 & -> & C5 & R5); [rewrite ?A4; lia..|]. rewrite bind_Ok_l. cbv zeta. rewrite A4 in C5, R5.
  destruct (rotated_runs (arr s) (arr s5) f fc mid sc e v) as (S1 & S2 & S3 & S4 & V1 & V2); [lia..|done|done| | |done|].
  { by apply (sorted_sub cmp _ from mid); [lia..|]. }
  { by apply (sorted_sub cmp _ mid to); [lia..|]. }
  set (nm := fc + (sc - mid)) in *. pose proof (conf_vlen _ _ _ _ C5) as L5.
  destruct (IH s5 f fc nm) as (s6 & -> & C6 & S6); [lia..|done|done|]. rewrite bind_Ok_l. pose proof (conf_vlen _ _ _ _ C6) as L6.
  destruct (IH s6 nm sc e) as (s7 & -> & C7 & S7); [lia..| | |].
  { apply (sorted_same cmp (arr s5)); [|done]. intros i Hi. apply (conf_outside _ _ _ _ _ C6); lia. }
  { apply (sorted_same cmp (arr s5)); [|done]. intros i Hi. apply (conf_outside _ _ _ _ _ C6); lia. }
  exists s7. split; [done|]. assert (conf f e (arr s) (arr s7)) as C.
  { eapply conf_trans; [eapply conf_wider; [| |exact C5]; lia|]. eapply conf_trans; [eapply conf_wider; [| |exact C6]; lia|].
    eapply conf_wider; [| |exact C7]; lia. }
  split; [eapply conf_wider; [| |exact C]; lia|].
  apply (sorted_trimmed (arr s) (arr s7) from f mid e to); [lia..|done|done|done|done|done|].
  apply (sorted_join cmp _ f nm e v); [|done| |].
  - apply (sorted_same cmp (arr s6)); [|done]. intros i Hi. apply (conf_outside _ _ _ _ _ C7); lia.
  - intros i Hi. rewrite (conf_outside _ _ _ _ _ C7) by lia. revert i Hi.
    apply (conf_all f nm (arr s5) (arr s6) (fun x => x ⊑ v)); [lia..|done|done].
  - apply (conf_all nm e (arr s6) (arr s7) (fun x => v ⊑ x)); [lia..|done|]. intros i Hi.
    rewrite (conf_outside _ _ _ _ _ C6) by lia. apply V2. lia.
Qed.

(** * Binary insertion sort *)

Lemma insert_position_spec s from i : base ≤ from → from < i → i < vlen (arr s) → vlen (arr s) < 2 ^ 30 → sorted (arr s) from i →
  ∃ l s', insert_position s from i = Ok (l, s') ∧ arr s' = arr s ∧ from ≤ l ≤ i ∧
    (∀ j, from ≤ j < l → elem (arr s) j ⊑ pivot s) ∧ (∀ j, l ≤ j < i → pivot s ⊑ elem (arr s) j).
Proof.
  intros H0 H1 H2 H3 Hs. unfold insert_position.
  loop_inv (fun '(t, l, h) => arr t = arr s ∧ pivot t = pivot s ∧ from ≤ l ∧ l ≤ h + 1 ∧ h < i ∧
      (∀ j, from ≤ j < l → elem (arr s) j ⊑ pivot s) ∧ (∀ j, h < j < i → pivot s ⊑ elem (arr s) j))
    (fun '(_, l, h) => Z.to_nat (h - l + 1)).
  - intros [[t l] h] (Ht & Hp & Hl & Hlh & Hh & Hlo & Hhi) Hcond. cbv zeta. rewrite half_of_div by lia.
    assert (l ≤ (l + h) / 2 ≤ h) by (split; [apply Z.div_le_lower_bound|apply Z.lt_succ_r, Z.div_lt_upper_bound]; lia).
    set (m := (l + h) / 2) in *. destruct (compare_pivot_law t m) as (t' & -> & Ht' & Hp'); [rewrite Ht; lia|].
    rewrite bind_Ok_l. rewrite Ht, Hp in *. destruct (cmp _ _) eqn:Ec.
    1, 3: eexists; split; [done|]; split; [|lia]; split; [done|]; split; [done|]; split; [lia|]; split; [lia|]; split; [lia|]; split; [|done];
      intros j Hj; apply (le_trans cmp) with (elem (arr s) m); [apply Hs; lia|apply (ge_le cmp); by rewrite Ec].
    eexists; split; [done|]. split; [|lia]. split; [done|]. split; [done|]. split; [lia|]. split; [lia|]. split; [lia|]. split; [done|].
    intros j Hj. apply (le_trans cmp) with (elem (arr s) m); [by apply (lt_le cmp)|apply Hs; lia].
  - split; [done|]. split; [done|]. split; [lia|]. split; [lia|]. split; [lia|]. split; intros; lia.
  - lia.
  - destruct Hloop as ([[t l] h] & E & (Ht & Hp & Hl & Hlh & Hh & Hlo & Hhi) & Hcond). rewrite E, bind_Ok_l. exists l, t.
    split; [done|]. split; [done|]. split; [lia|]. split; [done|]. intros j Hj. apply Hhi. lia.
Qed.

Lemma sink_spec s i l : base ≤ l → l ≤ i → i < vlen (arr s) →
  ∃ s', sink s i l = Ok s' ∧ conf l (i + 1) (arr s) (arr s') ∧ elem (arr s') l = elem (arr s) i ∧
    ∀ k, l < k ≤ i → elem (arr s') k = elem (arr s) (k - 1).
Proof.
  intros H0 H1 H2. unfold sink.
  loop_inv (fun '(t, j) => l ≤ j ≤ i ∧ conf l (i + 1) (arr s) (arr t) ∧
      ∀ k, l ≤ k ≤ i → elem (arr t) k = elem (arr s) (if k <? j then k else if k =? j then i else k - 1))
    (fun '(_, j) => Z.to_nat (j - l)).
  - intros [t j] (Hj & Hc & He) Hcond. pose proof (conf_vlen _ _ _ _ Hc) as Hv.
    destruct (swap_law t (j - 1) j) as (t' & -> & Ht); [lia..|]. rewrite bind_Ok_l. eexists; split; [done|]. split; [|lia].
    split; [lia|]. split; [rewrite Ht; eapply conf_trans; [exact Hc|]; apply conf_swap; lia|].
    intros k Hk. rewrite Ht, elem_swapl by lia. rewrite !He by lia. places.
  - split; [lia|]. split; [apply conf_refl|]. intros k Hk. places.
  - lia.
  - destruct Hloop as ([t j] & E & (Hj & Hc & He) & Hcond). rewrite E, bind_Ok_l. exists t. split; [done|]. split; [done|].
    split; [rewrite He by lia; places|]. intros k Hk. rewrite He by lia. places.
Qed.

Lemma sorted_inserted (l k : list A) from p i : 0 ≤ from → from ≤ p ≤ i → i < vlen l → sorted l from i →
  (∀ j, from ≤ j < p → elem l j ⊑ elem l i) → (∀ j, p ≤ j < i → elem l i ⊑ elem l j) → conf p (i + 1) l k → elem k p = elem l i →
  (∀ j, p < j ≤ i → elem k j = elem l (j - 1)) → sorted k from (i + 1).
Proof.
  intros H0 H1 H2 Hs Hlo Hhi C Hp Hsh.
  assert (∀ j, from ≤ j < p → elem k j = elem l j) as R by (intros j Hj; apply (conf_outside _ _ _ _ _ C); lia).
  apply (sorted_join cmp _ from p (i + 1) (elem l i)).
  - apply (sorted_same cmp l); [done|]. apply (sorted_sub cmp l from i); [lia..|done].
  - intros a b Ha Hab Hb. destruct (decide (a = p)) as [->|].
    + rewrite Hp. destruct (decide (b = p)) as [->|]; [rewrite Hp; apply (le_refl cmp)|]. rewrite Hsh by lia. apply Hhi. lia.
    + rewrite !Hsh by lia. apply Hs; lia.
  - intros j Hj. rewrite R by done. by apply Hlo.
  - intros j Hj. destruct (decide (j = p)) as [->|]; [rewrite Hp; apply (le_refl cmp)|]. rewrite Hsh by lia. apply Hhi. lia.
Qed.

Lemma binary_sort_spec s from to : base ≤ from → from ≤ to → to ≤ vlen (arr s) → vlen (arr s) < 2 ^ 30 →
  ∃ s', binary_sort s from to = Ok s' ∧ conf from to (arr s) (arr s') ∧ sorted (arr s') from to.
Proof.
  intros H0 H1 H2 H3. unfold binary_sort. destruct (decide (to = from)) as [->|].
  { rewrite for_range_empty by lia. exists s. split; [done|]. split; [apply conf_refl|apply (sorted_short cmp); lia]. }
  apply (for_range_inv (fun i t => conf from to (arr s) (arr t) ∧ sorted (arr t) from i)); [lia| |].
  { split; [apply conf_refl|apply (sorted_short cmp); lia]. }
  intros i t Hi (C & Hs). pose proof (conf_vlen _ _ _ _ C) as Hv.
  destruct (set_pivot_law t i) as (t1 & -> & A1 & P1); [lia|]. rewrite bind_Ok_l.
  destruct (insert_position_spec t1 from i) as (l & t2 & -> & A2 & Hl & Hlo & Hhi); rewrite ?A1; [lia..|done|]. rewrite bind_Ok_l.
  rewrite A1 in *. destruct (eq_le cmp _ _ P1) as [Q1 Q2].
  destruct (sink_spec t2 i l) as (t3 & -> & C3 & Hp & Hsh); rewrite ?A2 in *; [lia..|]. exists t3. split; [done|]. split.
  - eapply conf_trans; [exact C|]. eapply conf_wider; [| |exact C3]; lia.
  - apply (sorted_inserted (arr t) (arr t3) from l i); try done; try lia; intros j Hj; [by apply Q1, Hlo|by apply Q2, Hhi].
Qed.

(** * Merge sort *)

(** The two halves of a range in order, then the merge: whatever sorts the halves. *)
Lemma merge_sort_spec : ∀ fuel s from to, base ≤ from → from ≤ to → to ≤ vlen (arr s) → vlen (arr s) < 2 ^ 30 →
  (Z.to_nat (to - from) ≤ fuel)%nat →
  ∃ s', merge_sort fuel s from to = Ok s' ∧ conf from to (arr s) (arr s') ∧ sorted (arr s') from to.
Proof.
  intros fuel. induction fuel as [|fuel IH]; intros s from to H0 H1 H2 H3 Hfu; cbn [merge_sort]; unfold BINARY_SORT_THRESHOLD;
    (destruct (Z.ltb_spec (to - from) 20); [by apply binary_sort_spec|]); [lia|].
  cbv zeta. rewrite (as_i_id 32) by (try lia; unfold is_i; lia). rewrite Z.quot_div_nonneg by lia.
  assert (from < (from + to) / 2 < to) by (split; [apply Z.lt_le_trans with (from + 1); [lia|apply Z.div_le_lower_bound]|apply Z.div_lt_upper_bound]; lia).
  set (mid := (from + to) / 2) in *.
  destruct (IH s from mid) as (s1 & -> & C1 & S1); [lia..|]. rewrite bind_Ok_l. pose proof (conf_vlen _ _ _ _ C1) as V1.
  destruct (IH s1 mid to) as (s2 & -> & C2 & S2); [lia..|]. rewrite bind_Ok_l. pose proof (conf_vlen _ _ _ _ C2) as V2.
  destruct (merge_in_place_spec (Z.to_nat (to - from)) s2 from mid to) as (s3 & -> & C3 & S3); [lia..| |done|].
  { apply (sorted_same cmp (arr s1)); [|done]. intros i Hi. apply (conf_outside _ _ _ _ _ C2); lia. }
  exists s3. split; [done|]. split; [|done]. eapply conf_trans; [eapply conf_wider; [| |exact C1]; lia|].
  eapply conf_trans; [eapply conf_wider; [| |exact C2]; lia|done].
Qed.

(** * Heap sort *)

Definition child (from i c : Z) : Prop := c = 2 * i - from + 1 ∨ c = 2 * i - from + 2.
(** Every position from [k] on exceeds its children below [to]. *)
Definition heap (l : list A) (from to k : Z) : Prop :=
  ∀ j c, k ≤ j → child from j c → c < to → elem l c ⊑ elem l j.
(** The same but for [i], whose children are still below its parent. *)
Definition heap_but (l : list A) (from to k i : Z) : Prop :=
  (∀ j c, k ≤ j → j ≠ i → child from j c → c < to → elem l c ⊑ elem l j) ∧
  (∀ p c, k ≤ p → child from p i → child from i c → c < to → elem l c ⊑ elem l p).

Lemma heap_child_value from i : 0 ≤ from → from ≤ i < 2 ^ 30 → heap_child from i = 2 * i - from + 1.
Proof.
  intros H0 H1. unfold heap_child, shl_i. rewrite Z.shiftl_mul_pow2 by lia. change (2 ^ 1) with 2.
  rewrite (as_i_id 32 ((i - from) * 2)) by (try lia; unfold is_i; lia). rewrite (as_i_id 32 ((i - from) * 2 + 1)) by (try lia; unfold is_i; lia).
  rewrite as_i_id by (try lia; unfold is_i; lia). lia.
Qed.

Lemma heap_but_swap (l : list A) from to k i m : 0 ≤ from → from ≤ k ≤ i → to ≤ vlen l → child from i m → m < to →
  heap_but l from to k i → elem l i ⊑ elem l m → (∀ c, child from i c → c < to → elem l c ⊑ elem l m) →
  heap_but (swapl l i m) from to k m.
Proof.
  unfold heap_but, child. intros H0 H1 H2 Hm Hmt [B1 B2] Him Hall. split.
  - intros j c Hj Hne Hc Hct. rewrite !elem_swapl by lia. destruct (Z.eqb_spec j i) as [->|]; [|rewrite (proj2 (Z.eqb_neq j m)) by lia].
    + rewrite (proj2 (Z.eqb_neq c i)) by lia. destruct (Z.eqb_spec c m) as [->|]; [done|]. by apply Hall.
    + destruct (Z.eqb_spec c i) as [->|]; [apply B2; lia|]. rewrite (proj2 (Z.eqb_neq c m)) by lia. by apply B1.
  - intros p c Hp Hpm Hc Hct. assert (p = i) as -> by lia. rewrite !elem_swapl by lia. rewrite Z.eqb_refl.
    rewrite (proj2 (Z.eqb_neq c i)), (proj2 (Z.eqb_neq c m)) by lia. apply B1; lia.
Qed.

Lemma sift_child_spec s from i to : base ≤ from → from ≤ i → 2 * i - from + 1 < to → to ≤ vlen (arr s) →
  ∃ n s', sift_child s i (2 * i - from + 1) to = Ok (n, s') ∧ arr s' = arr s ∧
    match n with
    | None => ∀ c, child from i c → c < to → elem (arr s) c ⊑ elem (arr s) i
    | Some m => child from i m ∧ m < to ∧ elem (arr s) i ⊑ elem (arr s) m ∧ ∀ c, child from i c → c < to → elem (arr s) c ⊑ elem (arr s) m
    end.
Proof.
  intros H0 H1 H2 H3. unfold sift_child, child. cbv zeta. set (lc := 2 * i - from + 1) in *.
  destruct (compare_law s i lc) as (s1 & -> & A1); [lia..|]. rewrite bind_Ok_l.
  assert (∀ c, c = lc ∨ c = 2 * i - from + 2 → c < to → c = lc ∨ c = lc + 1 ∧ lc + 1 < to) as Hcs by lia.
  destruct (Z.ltb_spec (lc + 1) to) as [Hr|Hr].
  - destruct (cmp (elem (arr s) i) (elem (arr s) lc)) eqn:Ec.
    2: destruct (compare_law s1 lc (lc + 1)) as (s2 & -> & A2); [rewrite A1; lia..|]; rewrite bind_Ok_l; rewrite A1 in *;
       destruct (cmp (elem (arr s) lc) (elem (arr s) (lc + 1))) eqn:Ed.
    1, 5: destruct (compare_law s1 i (lc + 1)) as (s2 & -> & A2); [rewrite A1; lia..|]; rewrite bind_Ok_l; rewrite A1 in *;
       destruct (cmp (elem (arr s) i) (elem (arr s) (lc + 1))) eqn:Ed.
    all: eexists _, s2; split; [done|]; split; [done|]; cbv beta iota.
    all: try (split; [lia|]; split; [lia|]; split).
    all: try (intros c Hc Hct; destruct (Hcs c Hc Hct) as [->|[-> _]]).
    all: try apply (le_refl cmp); try (by apply (lt_le cmp)); try (by apply (ge_le cmp); rewrite ?Ec, ?Ed).
    all: (apply (le_trans cmp) with (elem (arr s) lc); [by apply (lt_le cmp)|by apply (lt_le cmp)]) ||
         (apply (le_trans cmp) with (elem (arr s) i); [by apply (ge_le cmp); rewrite ?Ec|by apply (lt_le cmp)]).
  - rewrite !bind_Ok_l. destruct (cmp (elem (arr s) i) (elem (arr s) lc)) eqn:Ec; eexists _, s1; (split; [done|]); (split; [done|]); cbv beta iota.
    2: split; [lia|]; split; [lia|]; split; [by apply (lt_le cmp)|].
    all: intros c Hc Hct; destruct (Hcs c Hc Hct) as [->|[-> ?]]; [|lia]; (apply (le_refl cmp) || (by apply (ge_le cmp); rewrite Ec)).
Qed.

Lemma sifted_down : ∀ fuel s i k from to, base ≤ from → from ≤ k ≤ i → i < to → to ≤ vlen (arr s) → vlen (arr s) < 2 ^ 30 →
  (Z.to_nat (to - i) ≤ fuel)%nat → heap_but (arr s) from to k i →
  ∃ s', sift_down fuel s i from to = Ok s' ∧ conf from to (arr s) (arr s') ∧ heap (arr s') from to k.
Proof.
  intros fuel. induction fuel as [|fuel IH]; intros s i k from to H0 H1 Hit H2 H3 Hfu HB; [lia|]. cbn [sift_down]. cbv zeta.
  rewrite heap_child_value by lia. destruct (Z.ltb_spec (2 * i - from + 1) to) as [Hc|Hc].
  - destruct (sift_child_spec s from i to) as (n & s1 & -> & A1 & Hn); [lia..|]. rewrite bind_Ok_l. destruct n as [m|].
    + destruct Hn as (Hm & Hmt & Him & Hall). assert (i < m) by (unfold child in Hm; lia).
      destruct (swap_law s1 i m) as (s2 & -> & A2); [rewrite A1; lia..|]. rewrite bind_Ok_l. rewrite A1 in A2.
      destruct (IH s2 m k from to) as (s3 & -> & C3 & H'); [lia|lia|lia|rewrite A2, vlen_swapl; lia|rewrite A2, vlen_swapl; lia|lia|rewrite A2; by apply heap_but_swap; [lia|..]|].
      exists s3. split; [done|]. split; [|done]. rewrite A2 in C3. eapply conf_trans; [|exact C3]. apply conf_swap; lia.
    + exists s1. rewrite A1. split; [done|]. split; [apply conf_refl|]. intros j c Hj Hch Hct.
      destruct (decide (j = i)) as [->|]; [by apply Hn|]. by apply (proj1 HB).
  - exists s. split; [done|]. split; [apply conf_refl|]. intros j c Hj Hch Hct.
    destruct (decide (j = i)) as [->|]; [unfold child in Hch; lia|]. by apply (proj1 HB).
Qed.

Lemma heapify_spec s from to : base ≤ from → from + 2 ≤ to → to ≤ vlen (arr s) → vlen (arr s) < 2 ^ 30 →
  ∃ s', heapify s from to = Ok s' ∧ conf from to (arr s) (arr s') ∧ heap (arr s') from to from.
Proof.
  intros H0 H1 H2 H3. unfold heapify, heap_parent. rewrite half_of_div by lia.
  assert (to - from - 3 ≤ 2 * ((to - 1 - 1 - from) / 2) ≤ to - from - 2) as Hhalf.
  { pose proof (Z.div_mod (to - 1 - 1 - from) 2 ltac:(lia)). pose proof (Z.mod_pos_bound (to - 1 - 1 - from) 2 ltac:(lia)). lia. }
  set (p := (to - 1 - 1 - from) / 2 + from) in *.
  loop_inv (fun '(t, i) => from - 1 ≤ i ≤ p ∧ conf from to (arr s) (arr t) ∧ heap (arr t) from to (i + 1)) (fun '(_, i) => Z.to_nat (i - from + 1)).
  - intros [t i] (Hi & C & Hh) Hcond. pose proof (conf_vlen _ _ _ _ C) as Hv.
    destruct (sifted_down (Z.to_nat (to - from)) t i i from to) as (t' & -> & C' & Hh'); [lia..| |].
    { split; [intros j c Hj Hne; apply Hh; lia|unfold child; lia]. }
    rewrite bind_Ok_l. eexists; split; [done|]. split; [|lia]. split; [lia|]. split; [by eapply conf_trans|].
    by replace (i - 1 + 1) with i by lia.
  - split; [lia|]. split; [apply conf_refl|]. unfold heap, child. lia.
  - lia.
  - destruct Hloop as ([t i] & E & (Hi & C & Hh) & Hcond). rewrite E, bind_Ok_l. exists t. split; [done|]. split; [done|].
    by replace from with (i + 1) at 2 by lia.
Qed.

Lemma sort_heap_top (l : list A) from to : heap l from to from → ∀ i, from ≤ i < to → elem l i ⊑ elem l from.
Proof.
  intros Hh i Hi. assert (∃ n : nat, i = from + Z.of_nat n) as [n ->] by (exists (Z.to_nat (i - from)); lia).
  induction (lt_wf n) as [n _ IH]. destruct n as [|n]; [rewrite Z.add_0_r; apply (le_refl cmp)|].
  pose proof (Nat.div_mod_eq n 2). pose proof (Nat.mod_upper_bound n 2 ltac:(lia)). set (p := (n / 2)%nat) in *.
  apply (le_trans cmp) with (elem l (from + Z.of_nat p)); [apply Hh; unfold child; lia|]. apply IH; lia.
Qed.

Lemma heap_sort_spec s from to : base ≤ from → from ≤ to → to ≤ vlen (arr s) → vlen (arr s) < 2 ^ 30 →
  ∃ s', heap_sort s from to = Ok s' ∧ conf from to (arr s) (arr s') ∧ sorted (arr s') from to.
Proof.
  intros H0 H1 H2 H3. unfold heap_sort. destruct (Z.leb_spec (to - from) 1).
  { exists s. split; [done|]. split; [apply conf_refl|apply (sorted_short cmp); lia]. }
  destruct (heapify_spec s from to) as (s1 & -> & C1 & Hh1); [lia..|]. rewrite bind_Ok_l. pose proof (conf_vlen _ _ _ _ C1) as V1.
  loop_inv (fun '(t, e) => from ≤ e < to ∧ conf from to (arr s) (arr t) ∧ heap (arr t) from (e + 1) from ∧ sorted (arr t) (e + 1) to ∧
      ∀ i j, from ≤ i → i ≤ e → e < j → j < to → elem (arr t) i ⊑ elem (arr t) j) (fun '(_, e) => Z.to_nat (e - from)).
  - intros [t e] (He & C & Hh & Hs & Hle) Hcond. pose proof (conf_vlen _ _ _ _ C) as Hv. pose proof (sort_heap_top _ _ _ Hh) as Htop.
    destruct (swap_law t from e) as (t1 & -> & A1); [lia..|]. rewrite bind_Ok_l.
    destruct (sifted_down (Z.to_nat (to - from)) t1 from from from e) as (t2 & -> & C2 & Hh2); [lia|lia|lia|rewrite A1, vlen_swapl; lia|rewrite A1, vlen_swapl; lia|lia| |].
    { unfold heap_but, heap, child in *. split; [|lia]. intros j c Hj Hne Hc Hce. rewrite A1, !elem_swapl by lia. split_cmp. apply Hh; lia. }
    rewrite bind_Ok_l. eexists; split; [done|]. split; [|lia]. rewrite A1 in *.
    assert (∀ j, e ≤ j < to → elem (arr t2) j = if j =? e then elem (arr t) from else elem (arr t) j) as R.
    { intros j Hj. rewrite (conf_outside _ _ _ _ _ C2), elem_swapl by (rewrite ?vlen_swapl; lia). split_cmp; congruence. }
    split; [lia|]. split.
    { eapply conf_trans; [exact C|]. eapply conf_trans; [apply conf_swap|eapply conf_wider; [| |exact C2]]; lia. }
    replace (e - 1 + 1) with e by lia. split; [done|]. split.
    + intros i j Hi Hij Hj. rewrite !R by lia. split_cmp; [apply (le_refl cmp)|apply Hle; lia|apply Hs; lia].
    + intros i j Hi Hie Hj Hjt. rewrite (R j) by lia. revert i Hi Hie.
      assert (∀ i, from ≤ i < e → elem (arr t2) i ⊑ (if j =? e then elem (arr t) from else elem (arr t) j)) as Hb; [|intros; apply Hb; lia].
      apply (conf_all from e (swapl (arr t) from e) (arr t2) (fun x => x ⊑ (if j =? e then elem (arr t) from else elem (arr t) j)));
        [lia|lia|rewrite vlen_swapl; lia|done|]. intros i Hi. rewrite elem_swapl by lia.
      split_cmp; first [apply Htop; lia|apply Hle; lia].
  - split; [lia|]. split; [done|]. replace (to - 1 + 1) with to by lia. split; [done|]. split; [apply (sorted_short cmp); lia|lia].
  - lia.
  - destruct Hloop as ([t e] & E & (He & C & Hh & Hs & Hle) & Hcond). rewrite E, bind_Ok_l. exists t. split; [done|]. split; [done|].
    assert (e = from) as -> by lia. intros i j Hi Hij Hj. destruct (decide (i = j)) as [->|]; [apply (le_refl cmp)|].
    destruct (decide (i = from)) as [->|]; [apply Hle|apply Hs]; lia.
Qed.

(** * Quick sort *)

Lemma order_two_spec s i j : base ≤ i < vlen (arr s) → base ≤ j < vlen (arr s) →
  ∃ b s', order_two s i j = Ok (b, s') ∧
    if b : bool then cmp (elem (arr s) i) (elem (arr s) j) = Gt ∧ arr s' = swapl (arr s) i j
    else elem (arr s) i ⊑ elem (arr s) j ∧ arr s' = arr s.
Proof.
  intros Hi Hj. unfold order_two. destruct (compare_law s i j) as (s1 & -> & A1); [done..|]. rewrite bind_Ok_l.
  destruct (cmp _ _) eqn:Ec.
  1, 2: exists false, s1; split; [done|]; split; [unfold le; by rewrite Ec|done].
  destruct (swap_law s1 i j) as (s2 & -> & A2); [by rewrite A1..|]. rewrite bind_Ok_l. exists true, s2. rewrite A2, A1. by split.
Qed.

Lemma order_three_spec s from to i j k : base ≤ from → to ≤ vlen (arr s) → from ≤ i < to → from ≤ j < to → from ≤ k < to → i ≠ j → i ≠ k →
  ∃ s', order_three s i j k = Ok s' ∧ conf from to (arr s) (arr s') ∧
    elem (arr s') i ⊑ elem (arr s') j ∧ elem (arr s') j ⊑ elem (arr s') k.
Proof.
  intros H0 Hv Hi Hj Hk Hij Hik. unfold order_three.
  destruct (order_two_spec s i j) as (b1 & s1 & -> & O1); [lia..|]. rewrite bind_Ok_l.
  assert (conf from to (arr s) (arr s1) ∧ elem (arr s1) i ⊑ elem (arr s1) j) as [C1 Ho].
  { destruct b1, O1 as [Hc ->]; [|by split; [apply conf_refl|]]. split; [apply conf_swap; lia|].
    rewrite !elem_swapl by lia. split_cmp. by apply (gt_le cmp). }
  pose proof (conf_vlen _ _ _ _ C1) as V1. destruct (order_two_spec s1 j k) as (b2 & s2 & -> & O2); [lia..|]. rewrite bind_Ok_l.
  destruct b2, O2 as [Hc A2].
  2: { rewrite bind_Ok_l. exists s2. rewrite A2. by split. }
  assert (j ≠ k) as Hjk by (intros ->; exact (le_refl cmp _ Hc)).
  assert (conf from to (arr s) (arr s2)) as C2 by (rewrite A2; eapply conf_trans; [exact C1|apply conf_swap; lia]).
  destruct (order_two_spec s2 i j) as (b3 & s3 & -> & O3); [rewrite A2, vlen_swapl; lia..|]. rewrite bind_Ok_l. exists s3. split; [done|].
  destruct b3, O3 as [Hd ->]; rewrite A2 in Hd |- *; rewrite !elem_swapl in Hd by (rewrite ?vlen_swapl; lia); repeat rewrite elem_swapl by (rewrite ?vlen_swapl; lia).
  - split; [rewrite <- A2; eapply conf_trans; [exact C2|apply conf_swap; rewrite ?A2, ?vlen_swapl; lia]|].
    revert Hd. split_cmp. intros Hd. split; [by apply (gt_le cmp)|done].
  - split; [by rewrite <- A2|]. revert Hd. split_cmp. intros Hd. split; [done|by apply (gt_le cmp)].
Qed.

Lemma scan_right_spec s from w : base ≤ from ≤ w → elem (arr s) w ⊑ pivot s →
  ∀ fuel r t, w ≤ r < vlen (arr s) → (Z.to_nat (r - w) ≤ fuel)%nat → arr t = arr s → pivot t = pivot s →
  ∃ p t', scan_right fuel t r = Ok (p, t') ∧ arr t' = arr s ∧ pivot t' = pivot s ∧ w ≤ p ≤ r ∧ elem (arr s) p ⊑ pivot s ∧
    ∀ i, p < i ≤ r → pivot s ⊑ elem (arr s) i.
Proof.
  intros Hw Hle fuel. induction fuel as [|fuel IH]; intros r t Hr Hfu Ht Hp; cbn [scan_right];
    (destruct (compare_pivot_law t r) as (t' & -> & Ht' & Hp'); [rewrite Ht; lia|]); rewrite bind_Ok_l; rewrite Ht, Hp in *.
  - assert (r = w) as -> by lia. pose proof (le_gt cmp _ _ Hle) as Hne.
    destruct (cmp _ _) eqn:Ec; [|done|]; exists w, t'; (do 3 (split; [done|])); (split; [lia|]); (split; [done|]); intros; lia.
  - destruct (cmp (pivot s) (elem (arr s) r)) eqn:Ec.
    1, 3: exists r, t'; (do 3 (split; [done|])); (split; [lia|]); (split; [apply (ge_le cmp); by rewrite Ec|]); intros; lia.
    assert (r ≠ w) by (intros ->; by apply (le_gt cmp) in Hle).
    destruct (IH (r - 1) t') as (p & t2 & -> & H1 & H2 & H3 & H4 & H5); [lia..|done|done|]. exists p, t2. do 3 (split; [done|]).
    split; [lia|]. split; [done|]. intros i Hi. destruct (decide (i = r)) as [->|]; [by apply (lt_le cmp)|apply H5; lia].
Qed.

Lemma scan_left_spec s from r : base ≤ from → r < vlen (arr s) →
  ∀ fuel l t, from ≤ l ≤ r → (Z.to_nat (r - l) ≤ fuel)%nat → arr t = arr s → pivot t = pivot s →
  ∃ p t', scan_left fuel t l r = Ok (p, t') ∧ arr t' = arr s ∧ pivot t' = pivot s ∧ l ≤ p ≤ r ∧
    (∀ i, l ≤ i < p → elem (arr s) i ⊑ pivot s) ∧ (p < r → pivot s ⊑ elem (arr s) p).
Proof.
  intros H0 Hv fuel. induction fuel as [|fuel IH]; intros l t Hl Hfu Ht Hp; cbn [scan_left]; (destruct (Z.ltb_spec l r); [try lia|]).
  1, 3: exists l, t; (do 3 (split; [done|])); (split; [lia|]); split; intros; lia.
  destruct (compare_pivot_law t l) as (t' & -> & Ht' & Hp'); [rewrite Ht; lia|]. rewrite bind_Ok_l; rewrite Ht, Hp in *.
  destruct (cmp (pivot s) (elem (arr s) l)) eqn:Ec.
  2: { exists l, t'. do 3 (split; [done|]). split; [lia|]. split; [intros; lia|]. intros _. by apply (lt_le cmp). }
  all: destruct (IH (l + 1) t') as (p & t2 & -> & H1 & H2 & H3 & H4 & H5); [lia..|done|done|]; exists p, t2; (do 3 (split; [done|]));
    (split; [lia|]); (split; [|done]); intros i Hi; (destruct (decide (i = l)) as [->|]; [apply (ge_le cmp); by rewrite Ec|apply H4; lia]).
Qed.

Context {HP : PivotCopied T A cmp}.

(** The partition stops where nothing up to the position exceeds the pivot and
    nothing beyond is below it; a position that does not exceed the pivot keeps the
    scan from the right inside the range. *)
Lemma partition_spec : ∀ fuel s from l r w, base ≤ from ≤ l → l ≤ w ≤ r → r < vlen (arr s) → (Z.to_nat (r - l) ≤ fuel)%nat →
  elem (arr s) w ⊑ pivot s →
  ∃ p s', partition fuel s from l r = Ok (p, s') ∧ conf l (r + 1) (arr s) (arr s') ∧ l ≤ p ≤ r ∧
    (∀ i, l ≤ i ≤ p → elem (arr s') i ⊑ pivot s) ∧ (∀ i, p < i ≤ r → pivot s ⊑ elem (arr s') i).
Proof.
  intros fuel. induction fuel as [|fuel IH]; intros s from l r w H0 H1 H2 Hfu Hw; cbn [partition];
    (destruct (scan_right_spec s from w) with (fuel := Z.to_nat (r - from)) (r := r) (t := s) as (r1 & s1 & -> & A1 & P1 & Hr1 & Hle & Hhi);
      [lia|done|lia|lia|done|done|]); rewrite bind_Ok_l;
    (destruct (scan_left_spec s from r1) with (fuel := Z.to_nat (r1 - from)) (l := l) (t := s1) as (l1 & s2 & -> & A2 & P2 & Hl1 & Hlo & Hst);
      [lia|lia|lia|lia|done|done|]); rewrite bind_Ok_l; destruct (Z.ltb_spec l1 r1) as [Hlt|Hge]; [lia| | |].
  1, 3: assert (l1 = r1) as -> by lia; exists r1, s2; rewrite A2; (split; [done|]); (split; [apply conf_refl|]); (split; [lia|]); (split; [|done]);
    intros i Hi; (destruct (decide (i = r1)) as [->|]; [done|apply Hlo; lia]).
  destruct (swap_law s2 l1 r1) as (s3 & E3 & A3); [rewrite A2; lia..|]. rewrite E3, bind_Ok_l.
  pose proof (swap_pivot _ _ _ _ E3) as P3. rewrite P2 in P3. rewrite A2 in A3.
  destruct (IH s3 from l1 (r1 - 1) l1) as (p & s4 & -> & C4 & Hp & L4 & G4); [lia|lia|rewrite A3, vlen_swapl; lia|lia| |].
  { rewrite A3, P3, elem_swapl by lia. by rewrite Z.eqb_refl. }
  rewrite P3, A3 in *. assert (∀ i, l ≤ i ≤ r → i < l1 ∨ r1 ≤ i → elem (arr s4) i = if i =? r1 then elem (arr s) l1 else elem (arr s) i) as R.
  { intros i Hi Ho. rewrite (conf_outside _ _ _ _ _ C4), elem_swapl by (rewrite ?vlen_swapl; lia). by split_cmp. }
  exists p, s4. split; [done|]. split; [|split; [lia|split]].
  - eapply conf_trans; [apply (conf_swap l (r + 1) _ l1 r1); lia|]. eapply conf_wider; [| |exact C4]; lia.
  - intros i Hi. destruct (decide (i < l1)); [|apply L4; lia]. rewrite R by lia. split_cmp. apply Hlo. lia.
  - intros i Hi. destruct (decide (i < r1)); [apply G4; lia|]. rewrite R by lia. split_cmp; [by apply Hst|apply Hhi; lia].
Qed.

Lemma quick_sort_spec : ∀ fuel s from to max_depth, base ≤ from → from ≤ to → to ≤ vlen (arr s) → vlen (arr s) < 2 ^ 30 →
  (Z.to_nat max_depth ≤ fuel)%nat →
  ∃ s', quick_sort fuel s from to max_depth = Ok s' ∧ conf from to (arr s) (arr s') ∧ sorted (arr s') from to.
Proof.
  intros fuel. induction fuel as [|fuel IH]; intros s from to d H0 H1 H2 H3 Hfu; cbn [quick_sort]; unfold BINARY_SORT_THRESHOLD;
    (destruct (Z.ltb_spec (to - from) 20); [by apply binary_sort_spec|]);
    (destruct (Z.ltb_spec (d - 1) 0); [by apply heap_sort_spec|]); [lia|].
  rewrite half_of_div by lia.
  assert (from + 1 ≤ (from + to) / 2 ≤ to - 2) by (split; [apply Z.div_le_lower_bound|apply Z.lt_succ_r, Z.div_lt_upper_bound]; lia).
  set (mid := (from + to) / 2) in *.
  destruct (order_three_spec s from to from mid (to - 1)) as (s1 & -> & C1 & Hfm & Hmt); [lia..|]. rewrite bind_Ok_l.
  pose proof (conf_vlen _ _ _ _ C1) as V1. destruct (set_pivot_law s1 mid) as (s2 & -> & A2 & P2); [lia|]. rewrite bind_Ok_l. destruct (eq_le cmp _ _ P2) as [Q1 Q2].
  assert (∀ z, z ⊑ elem (arr s1) mid → z ⊑ pivot s2) as Q0 by (intros z Hz; apply (le_trans cmp) with (elem (arr s1) mid); [done|]; unfold le; by rewrite (cmp_opp (cmp := cmp) (pivot s2)), P2).
  destruct (partition_spec (Z.to_nat (to - from)) s2 from (from + 1) (to - 2) mid) as (p & s3 & -> & C3 & Hp & L3 & G3);
    [lia|lia|rewrite A2; lia|lia|rewrite A2; apply Q0, (le_refl cmp)|]. rewrite bind_Ok_l. rewrite A2 in *.
  set (x := elem (arr s1) mid) in *. pose proof (conf_vlen _ _ _ _ C3) as V3.
  assert (∀ i, from ≤ i < p + 1 → elem (arr s3) i ⊑ x) as Lo.
  { intros i Hi. destruct (decide (i = from)) as [->|]; [|apply Q1, L3; lia]. rewrite (conf_outside _ _ _ _ _ C3) by lia. done. }
  assert (∀ i, p + 1 ≤ i < to → x ⊑ elem (arr s3) i) as Hi.
  { intros i Hi. destruct (decide (i = to - 1)) as [->|]; [|apply Q2, G3; lia]. rewrite (conf_outside _ _ _ _ _ C3) by lia. done. }
  destruct (IH s3 from (p + 1) (d - 1)) as (s4 & -> & C4 & S4); [lia..|]. rewrite bind_Ok_l. pose proof (conf_vlen _ _ _ _ C4) as V4.
  destruct (IH s4 (p + 1) to (d - 1)) as (s5 & -> & C5 & S5); [lia..|]. exists s5. split; [done|]. split.
  { eapply conf_trans; [exact C1|]. eapply conf_trans; [eapply conf_wider; [| |exact C3]; lia|].
    eapply conf_trans; [eapply conf_wider; [| |exact C4]; lia|]. eapply conf_wider; [| |exact C5]; lia. }
  apply (sorted_join cmp _ from (p + 1) to x); [|done| |].
  - apply (sorted_same cmp (arr s4)); [|done]. intros i Hi'. apply (conf_outside _ _ _ _ _ C5); lia.
  - intros i Hi'. rewrite (conf_outside _ _ _ _ _ C5) by lia. revert i Hi'.
    apply (conf_all from (p + 1) (arr s3) (arr s4) (fun y => y ⊑ x)); [lia..|done|done].
  - apply (conf_all (p + 1) to (arr s4) (arr s5) (fun y => x ⊑ y)); [lia..|done|]. intros i Hi'.
    rewrite (conf_outside _ _ _ _ _ C4) by lia. by apply Hi.
Qed.
End sorter.
