(* ===== verification/SorterTheorems.v ===== *)
(** What the algorithms of sorter.rs and selector.rs promise: the selection by
    quick select, and the theorems about the sorts, with a sorter over a vector that
    satisfies the laws. *)

From S2P Require Import Prelude Sorter SorterFacts.
Open Scope Z_scope.
Set Default Proof Using "Type*".

(** * Quick select *)

Section selector.
Context {T A : Type} {HSel : Selector T} {HI : Inhabited A} {cmp : A → A → comparison} {HO : TotalPreorder cmp} {base : Z} {L : LawfulSorter T A cmp base} (Hbase : 0 ≤ base).
Implicit Types s : T.
#[local] Notation "x ⊑ y" := (le cmp x y) (at level 70).

Lemma select_left_spec s w : w < vlen (arr s) → pivot s ⊑ elem (arr s) w →
  ∀ fuel l t, base ≤ l ≤ w → (Z.to_nat (w - l) ≤ fuel)%nat → arr t = arr s → pivot t = pivot s →
  ∃ p t', select_left fuel t l = Ok (p, t') ∧ arr t' = arr s ∧ pivot t' = pivot s ∧ l ≤ p ≤ w ∧ pivot s ⊑ elem (arr s) p ∧
    ∀ i, l ≤ i < p → elem (arr s) i ⊑ pivot s.
Proof.
  intros Hw Hle fuel. induction fuel as [|fuel IH]; intros l t Hl Hfu Ht Hp; cbn [select_left];
    (destruct (compare_pivot_law t l) as (t' & E & Ht' & Hp'); [rewrite Ht; lia|]); rewrite E, bind_Ok_l;
    rewrite Ht, Hp in *.
  - assert (l = w) as -> by lia. destruct (cmp _ _) eqn:Ec; [| |done]; exists w, t'; (do 3 (split; [done|])); (split; [lia|]); (split; [done|]); intros; lia.
  - destruct (cmp (pivot s) (elem (arr s) l)) eqn:Ec.
    1, 2: exists l, t'; (do 3 (split; [done|])); (split; [lia|]); (split; [unfold le; by rewrite Ec|]); intros; lia.
    assert (l ≠ w) by (intros ->; done).
    destruct (IH (l + 1) t') as (p & t2 & -> & H1 & H2 & H3 & H4 & H5); [lia..|done|done|]. exists p, t2. do 3 (split; [done|]).
    split; [lia|]. split; [done|]. intros i Hi. destruct (decide (i = l)) as [->|]; [by apply (gt_le cmp)|apply H5; lia].
Qed.

Lemma select_right_spec s l : base ≤ l →
  ∀ fuel r t, l ≤ r < vlen (arr s) → (Z.to_nat (r - l) ≤ fuel)%nat → arr t = arr s → pivot t = pivot s →
  ∃ p t', select_right fuel t l r = Ok (p, t') ∧ arr t' = arr s ∧ pivot t' = pivot s ∧ l ≤ p ≤ r ∧
    (∀ i, p < i ≤ r → pivot s ⊑ elem (arr s) i) ∧ (l < p → elem (arr s) p ⊑ pivot s).
Proof.
  intros H0 fuel. induction fuel as [|fuel IH]; intros r t Hr Hfu Ht Hp; cbn [select_right]; (destruct (Z.ltb_spec l r); [try lia|]).
  1, 3: exists r, t; (do 3 (split; [done|])); (split; [lia|]); split; intros; lia.
  destruct (compare_pivot_law t r) as (t' & E & Ht' & Hp'); [rewrite Ht; lia|]. rewrite E, bind_Ok_l; rewrite Ht, Hp in *.
  destruct (cmp (pivot s) (elem (arr s) r)) eqn:Ec.
  3: { exists r, t'. do 3 (split; [done|]). split; [lia|]. split; [intros; lia|]. intros _. by apply (gt_le cmp). }
  all: destruct (IH (r - 1) t') as (p & t2 & -> & H1 & H2 & H3 & H4 & H5); [lia..|done|done|]; exists p, t2; (do 3 (split; [done|]));
    (split; [lia|]); (split; [|done]); intros i Hi; (destruct (decide (i = r)) as [->|]; [unfold le; by rewrite Ec|apply H4; lia]).
Qed.

Context {HP : PivotCopied T A cmp}.

(** Whatever is right of [r] is not below the pivot, which stops the scan from the left. *)
Lemma select_partition_spec : ∀ fuel s to l r, base ≤ l ≤ r + 1 → r + 1 < to → to ≤ vlen (arr s) → (Z.to_nat (r + 1 - l) ≤ fuel)%nat →
  pivot s ⊑ elem (arr s) (r + 1) →
  ∃ p s', select_partition fuel s to l r = Ok (p, s') ∧ conf l (r + 1) (arr s) (arr s') ∧ l ≤ p ≤ r + 1 ∧
    (∀ i, l ≤ i < p → elem (arr s') i ⊑ pivot s) ∧ (∀ i, p ≤ i ≤ r → pivot s ⊑ elem (arr s') i).
Proof.
  intros fuel. induction fuel as [|fuel IH]; intros s to l r H0 H1 H2 Hfu Hw; cbn [select_partition];
    (destruct (select_left_spec s (r + 1)) with (fuel := Z.to_nat (to - l)) (l := l) (t := s) as (l1 & s1 & -> & A1 & P1 & Hl1 & Hst & Hlo);
      [lia|done|lia|lia|done|done|]); rewrite bind_Ok_l.
  all: destruct (decide (l1 = r + 1)) as [->|Hne].
  1, 3: assert (∀ n, select_right n s1 (r + 1) r = Ok (r, s1)) as -> by (intros []; cbn [select_right]; by rewrite (proj2 (Z.ltb_ge (r + 1) r)) by lia);
    rewrite bind_Ok_l; rewrite (proj2 (Z.ltb_ge (r + 1) r)) by lia; exists (r + 1), s1; rewrite A1;
    (split; [done|]); (split; [apply conf_refl|]); (split; [lia|]); (split; [done|]); intros; lia.
  { lia. }
  destruct (select_right_spec s l1) with (fuel := Z.to_nat (r - l1)) (r := r) (t := s1) as (r1 & s2 & -> & A2 & P2 & Hr1 & Hhi & Hsw);
    [lia|lia|lia|done|done|]. rewrite bind_Ok_l. destruct (Z.ltb_spec l1 r1) as [Hlt|Hge].
  2: { exists l1, s2. rewrite A2. split; [done|]. split; [apply conf_refl|]. split; [lia|]. split; [done|].
       intros i Hi. destruct (decide (i = l1)) as [->|]; [done|apply Hhi; lia]. }
  destruct (swap_law s2 l1 r1) as (s3 & E3 & A3); [rewrite A2; lia..|]. rewrite E3, bind_Ok_l.
  pose proof (swap_pivot _ _ _ _ E3) as P3. rewrite P2 in P3. rewrite A2 in A3.
  destruct (IH s3 to l1 (r1 - 1)) as (p & s4 & -> & C4 & Hp & L4 & G4); [lia|lia|rewrite A3, vlen_swapl; lia|lia| |].
  { rewrite A3, P3, elem_swapl by lia. replace (r1 - 1 + 1) with r1 by lia. by split_cmp. }
  rewrite P3, A3 in *. assert (∀ i, l ≤ i ≤ r → i < l1 ∨ r1 ≤ i → elem (arr s4) i = if i =? r1 then elem (arr s) l1 else elem (arr s) i) as R.
  { intros i Hi Ho. rewrite (conf_outside _ _ _ _ _ C4), elem_swapl by (rewrite ?vlen_swapl; lia). by split_cmp. }
  exists p, s4. split; [done|]. split; [|split; [lia|split]].
  - eapply conf_trans; [apply (conf_swap l (r + 1) _ l1 r1); lia|]. eapply conf_wider; [| |exact C4]; lia.
  - intros i Hi. destruct (decide (i < l1)); [|apply L4; lia]. rewrite R by lia. split_cmp. apply Hlo. lia.
  - intros i Hi. destruct (decide (i < r1)); [apply G4; lia|]. rewrite R by lia. split_cmp; [done|apply Hhi; lia].
Qed.

(** The element at [k] splits the range. *)
Definition selected (l : list A) (from to k : Z) : Prop :=
  (∀ i, from ≤ i < k → elem l i ⊑ elem l k) ∧ (∀ i, k < i < to → elem l k ⊑ elem l i).

(** A round: the pivot ends up at [p], between what is below it and what is above. *)
Lemma select_round_spec s from to : base ≤ from → from + 2 ≤ to → to ≤ vlen (arr s) → vlen (arr s) < 2 ^ 30 →
  ∃ p s' x, select_round s from to = Ok (p, s') ∧ conf from to (arr s) (arr s') ∧ from ≤ p < to ∧ elem (arr s') p = x ∧
    (∀ i, from ≤ i < p → elem (arr s') i ⊑ x) ∧ (∀ i, p < i < to → x ⊑ elem (arr s') i).
Proof.
  intros H0 H1 H2 H3. unfold select_round. cbv zeta. rewrite half_of_div by lia.
  assert (from + 1 ≤ (from + to) / 2 ≤ to - 1) by (split; [apply Z.div_le_lower_bound|apply Z.lt_succ_r, Z.div_lt_upper_bound]; lia).
  set (mid := (from + to) / 2) in *.
  destruct (order_three_spec Hbase s from to from (to - 1) mid) as (s1 & -> & C1 & Hft & Htm); [lia..|]. rewrite bind_Ok_l.
  pose proof (conf_vlen _ _ _ _ C1) as V1. destruct (set_pivot_law s1 (to - 1)) as (s2 & -> & A2 & P2); [lia|]. rewrite bind_Ok_l.
  destruct (eq_le cmp _ _ P2) as [Q1 Q2].
  destruct (select_partition_spec (Z.to_nat (to - from)) s2 to (from + 1) (to - 2)) as (p & s3 & -> & C3 & Hp & L3 & G3);
    [lia|lia|rewrite A2; lia|lia|rewrite A2; replace (to - 2 + 1) with (to - 1) by lia; unfold le; by rewrite P2|]. rewrite bind_Ok_l.
  rewrite A2 in *. pose proof (conf_vlen _ _ _ _ C3) as V3. replace (to - 2 + 1) with (to - 1) in * by lia.
  destruct (swap_law s3 p (to - 1)) as (s4 & -> & A4); [lia..|]. rewrite bind_Ok_l. exists p, s4, (elem (arr s1) (to - 1)).
  assert (elem (arr s3) (to - 1) = elem (arr s1) (to - 1)) as Ex by (apply (conf_outside _ _ _ _ _ C3); lia).
  assert (elem (arr s3) from = elem (arr s1) from) as Ef by (apply (conf_outside _ _ _ _ _ C3); lia).
  split; [done|]. rewrite A4. split.
  { eapply conf_trans; [exact C1|]. eapply conf_trans; [eapply conf_wider; [| |exact C3]; lia|]. apply conf_swap; lia. }
  split; [lia|]. split; [rewrite elem_swapl by lia; by rewrite Z.eqb_refl|]. split; intros i Hi; rewrite elem_swapl by lia; split_cmp.
  - destruct (decide (i = from)) as [->|]; [by rewrite Ef|apply Q1, L3; lia].
  - destruct (decide (p = to - 1)); [lia|]. apply Q2, G3. lia.
  - apply Q2, G3. lia.
Qed.

Lemma quick_select_spec : ∀ fuel s from to k d, base ≤ from → from ≤ k < to → to ≤ vlen (arr s) → vlen (arr s) < 2 ^ 30 →
  (Z.to_nat (to - from) ≤ fuel)%nat →
  ∃ s', quick_select fuel s from to k d = Ok s' ∧ conf from to (arr s) (arr s') ∧ selected (arr s') from to k.
Proof.
  intros fuel. induction fuel as [|fuel IH]; intros s from to k d H0 H1 H2 H3 Hfu; [lia|]. cbn [quick_select].
  destruct (Z.eqb_spec (to - from) 1); [exists s; split; [done|]; split; [apply conf_refl|]; split; intros; lia|].
  destruct (select_round_spec s from to) as (p & s1 & x & -> & C1 & Hp & Hx & Lo & Hi); [lia..|]. rewrite bind_Ok_l.
  pose proof (conf_vlen _ _ _ _ C1) as V1. destruct (Z.eqb_spec p k) as [->|Hpk].
  { exists s1. split; [done|]. split; [done|]. rewrite <- Hx in *. by split. }
  destruct (Z.ltb_spec p k).
  - destruct (IH s1 (p + 1) to k (d - 1)) as (s2 & -> & C2 & S2 & G2); [lia..|]. exists s2. split; [done|].
    split; [eapply conf_trans; [exact C1|]; eapply conf_wider; [| |exact C2]; lia|]. split; [|done].
    intros i Hik. destruct (decide (p < i)); [apply S2; lia|]. apply (le_trans cmp) with x.
    + rewrite (conf_outside _ _ _ _ _ C2) by lia. destruct (decide (i = p)) as [->|]; [rewrite Hx; apply (le_refl cmp)|apply Lo; lia].
    + apply (conf_all (p + 1) to (arr s1) (arr s2) (fun y => x ⊑ y)); [lia..|done| |lia]. intros j Hj. apply Hi. lia.
  - destruct (IH s1 from p k (d - 1)) as (s2 & -> & C2 & S2 & G2); [lia..|]. exists s2. split; [done|].
    split; [eapply conf_trans; [exact C1|]; eapply conf_wider; [| |exact C2]; lia|]. split; [done|].
    intros i Hik. destruct (decide (i < p)); [apply G2; lia|]. apply (le_trans cmp) with x.
    + apply (conf_all from p (arr s1) (arr s2) (fun y => y ⊑ x)); [lia..|done| |lia]. done.
    + rewrite (conf_outside _ _ _ _ _ C2) by lia. destruct (decide (i = p)) as [->|]; [rewrite Hx; apply (le_refl cmp)|apply Hi; lia].
Qed.
End selector.

(** * The promises *)

(** C25. [merge_in_place] turns two neighbouring runs in order into one, and
    [merge_sort] puts a range in order, for every sorter that keeps the laws of
    [compare], [swap] and the pivot, also one that keeps the pivot as a position:
    both return, the range is only permuted, nothing outside it changes, and no
    element of it exceeds a later one. *)
Theorem merge_sort_sorts {T A : Type} {HS : Sorter T} {HI : Inhabited A} {cmp : A → A → comparison} {HO : TotalPreorder cmp}
    {base : Z} {L : LawfulSorter T A cmp base} (s : T) (from mid to : Z) :
  0 ≤ base → base ≤ from → from ≤ mid → mid ≤ to → to ≤ vlen (arr s) → vlen (arr s) < 2 ^ 30 →
  (sorted cmp (arr s) from mid → sorted cmp (arr s) mid to →
    ∃ s', merge_in_place (Z.to_nat (to - from)) s from mid to = Ok s' ∧ conf from to (arr s) (arr s') ∧ sorted cmp (arr s') from to) ∧
  ∃ s', merge_sort (Z.to_nat (to - from)) s from to = Ok s' ∧ conf from to (arr s) (arr s') ∧ sorted cmp (arr s') from to.
Proof.
  intros HB H0 H1 H2 H3 H4. split; [|apply merge_sort_spec; lia]. intros Hs1 Hs2. by apply merge_in_place_spec; [lia..| |].
Qed.

(** C26. [quick_sort] puts a range in order whatever the depth it may recurse to,
    falling back to [heap_sort] and [binary_sort], which do the same on their own:
    they return, permute the range only and leave no element above a later one. *)
Theorem quick_sort_sorts {T A : Type} {HS : Sorter T} {HI : Inhabited A} {cmp : A → A → comparison} {HO : TotalPreorder cmp}
    {base : Z} {L : LawfulSorter T A cmp base} {HP : PivotCopied T A cmp} (s : T) (from to max_depth : Z) :
  0 ≤ base → base ≤ from → from ≤ to → to ≤ vlen (arr s) → vlen (arr s) < 2 ^ 30 →
  Forall (fun sort : T → result T =>
      ∃ s', sort s = Ok s' ∧ conf from to (arr s) (arr s') ∧ sorted cmp (arr s') from to)
    [(fun s => quick_sort (Z.to_nat max_depth) s from to max_depth); (fun s => heap_sort s from to); (fun s => binary_sort s from to)].
Proof.
  intros HB H0 H1 H2 H3. repeat apply Forall_cons_2; [by apply quick_sort_spec|by apply heap_sort_spec|by apply binary_sort_spec|done].
Qed.

(** [quick_select] returns with an element at [k] that no element before it in
    the range exceeds and that exceeds no element after it; the range is only
    permuted. *)
Theorem quick_select_selects {T A : Type} {HS : Selector T} {HI : Inhabited A} {cmp : A → A → comparison} {HO : TotalPreorder cmp}
    {base : Z} {L : LawfulSorter T A cmp base} {HP : PivotCopied T A cmp} (s : T) (from to k max_depth : Z) :
  0 ≤ base → base ≤ from → from ≤ k < to → to ≤ vlen (arr s) → vlen (arr s) < 2 ^ 30 →
  ∃ s', quick_select (Z.to_nat (to - from)) s from to k max_depth = Ok s' ∧ conf from to (arr s) (arr s') ∧
    (∀ i, from ≤ i < k → le cmp (elem (arr s') i) (elem (arr s') k)) ∧
    (∀ i, k < i < to → le cmp (elem (arr s') k) (elem (arr s') i)).
Proof. intros HB H0 H1 H2 H3. apply (quick_select_spec HB); lia. Qed.

(** * A vector of integers as a sorter *)

Record VecSorter : Type := vec_sorter { items : list Z; pivot_item : Z }.

#[export] Instance vec_selector : Selector VecSorter := {
  selector_swap s i j :=
    x ← vget (items s) i; y ← vget (items s) j;
    l ← vset (items s) j x; l ← vset l i y; Ok (vec_sorter l (pivot_item s));
  selector_set_pivot s i := x ← vget (items s) i; Ok (vec_sorter (items s) x);
  selector_compare_pivot s j := y ← vget (items s) j; Ok (Z.compare (pivot_item s) y, s);
}.

#[export] Instance Z_preorder : TotalPreorder Z.compare.
Proof.
  split; [intros x y; apply Z.compare_antisym|]. intros x y z. rewrite !Z.compare_le_iff. apply Z.le_trans.
Qed.

#[export] Instance vec_lawful : LawfulSorter VecSorter Z Z.compare 0.
Proof.
  refine {| arr := items; pivot := pivot_item |}; intros [l p] i; cbn [items pivot_item];
    cbn [compare swap set_pivot compare_pivot selector_sorter selector_swap selector_set_pivot selector_compare_pivot vec_selector items pivot_item].
  - intros j Hi Hj. rewrite (vget_elem l i), bind_Ok_l by lia. rewrite bind_Ok_l. cbn [items pivot_item]. rewrite vget_elem, bind_Ok_l by lia. by eexists.
  - intros j Hi Hj. rewrite (vget_elem l i), bind_Ok_l by lia. rewrite vget_elem, bind_Ok_l by lia.
    rewrite vset_in, bind_Ok_l by lia. rewrite vset_in, bind_Ok_l by (rewrite vlen_insert; lia). by eexists.
  - intros Hi. rewrite vget_elem, bind_Ok_l by lia. eexists. split; [done|]. cbn [items pivot_item]. by rewrite Z.compare_refl.
  - intros Hi. rewrite vget_elem, bind_Ok_l by lia. by eexists.
Defined.

#[export] Instance vec_pivot_copied : PivotCopied VecSorter Z Z.compare.
Proof.
  intros [l p] s' i j. cbn [swap selector_sorter selector_swap vec_selector items pivot_item]. intros E.
  repeat (apply bind_Ok in E as (? & _ & E)). by simplify_eq.
Qed.

Definition shuffled : VecSorter := vec_sorter (map (fun i => (i * i * 7) `mod` 31) (seqZ 0 40)) 0.

Lemma merge_sort_sorts_witness :
  ∃ s, merge_sort 40 shuffled 0 40 = Ok s ∧ items s ≡ₚ items shuffled ∧ sorted Z.compare (items s) 0 40.
Proof.
  destruct (merge_sort_sorts shuffled 0 20 40) as [_ (s & E & C & Hs)]; [vm_compute; congruence..|].
  exists s. split; [exact E|]. split; [apply C|exact Hs].
Defined.

Lemma quick_sort_sorts_witness :
  ∃ s, quick_sort 3 shuffled 1 39 3 = Ok s ∧ items s ≡ₚ items shuffled ∧ sorted Z.compare (items s) 1 39.
Proof.
  pose proof (quick_sort_sorts (base := 0) shuffled 1 39 3 ltac:(vm_compute; congruence) ltac:(vm_compute; congruence) ltac:(vm_compute; congruence)
    ltac:(vm_compute; congruence) ltac:(vm_compute; congruence)) as HF.
  destruct (Forall_inv HF) as (s & E & C & Hs). exists s. split; [exact E|]. split; [apply C|exact Hs].
Defined.

Lemma quick_select_selects_witness :
  ∃ s, quick_select 40 shuffled 0 40 11 0 = Ok s ∧ (∀ i, 11 < i < 40 → le Z.compare (elem (items s) 11) (elem (items s) i)).
Proof.
  destruct (quick_select_selects shuffled 0 40 11 0) as (s & E & C & Lo & Hi); [vm_compute; congruence|vm_compute; congruence|lia|vm_compute; congruence..|].
  exists s. split; [exact E|exact Hi].
Defined.
