(* ===== verification/RadixSortFacts.v ===== *)
(** The least-significant-byte radix sort of sorter.rs sorts.

    A pass counts the values of a byte, turns the counts into starting positions and
    moves every value to the next position of its byte: the result is the buckets
    one after the other, each in the order it had.  A pass on a list in order by its
    low bits leaves it in order by eight bits more. *)

From stdpp Require Import sorting sets.
From S2P Require Import Prelude Sorter.
Open Scope Z_scope.
Import LSBRadixSorter.

(** * The buckets *)

Section buckets.
Variable shift : Z.
Implicit Types l : list Z.

Definition digit (v : Z) : nat := Z.to_nat ((v / 2 ^ shift) `mod` 256).
Definition bucket (b : nat) l : list Z := filter (fun v => digit v = b) l.
Definition cnt (b : nat) l : Z := vlen (bucket b l).
(** The buckets below [n], one after the other. *)
Fixpoint spread (n : nat) l : list Z := match n with O => [] | S n => spread n l ++ bucket n l end.

Lemma digit_lt v : (digit v < 256)%nat.
Proof. unfold digit. pose proof (Z.mod_pos_bound (v / 2 ^ shift) 256 ltac:(lia)). lia. Qed.

Lemma bucket_snoc b l x : bucket b (l ++ [x]) = bucket b l ++ (if decide (digit x = b) then [x] else []).
Proof. unfold bucket. rewrite list.filter_app. done. Qed.

Lemma cnt_snoc b l x : cnt b (l ++ [x]) = cnt b l + (if decide (digit x = b) then 1 else 0).
Proof. unfold cnt. rewrite bucket_snoc, vlen_app. by destruct (decide (digit x = b)). Qed.

Lemma bucket_full b l : cnt b l = vlen l → bucket b l = l.
Proof.
  unfold cnt, bucket, vlen. intros E. apply Nat2Z.inj in E. revert E. induction l as [|x l IH]; [done|]. rewrite filter_cons.
  pose proof (list.length_filter (fun v => digit v = b) l). destruct (decide (digit x = b)); cbn [length]; [|lia].
  intros E. f_equal. apply IH. lia.
Qed.

Lemma spread_cons_outside n x l : (n ≤ digit x)%nat → spread n (x :: l) = spread n l.
Proof.
  induction n as [|n IH]; intros Hn; [done|]. cbn [spread]. rewrite IH by lia. f_equal. unfold bucket. by rewrite filter_cons_False by lia.
Qed.

Lemma spread_cons n x l : (digit x < n)%nat → spread n (x :: l) ≡ₚ x :: spread n l.
Proof.
  induction n as [|n IH]; intros Hn; [lia|]. cbn [spread]. destruct (decide (digit x = n)) as [E|].
  - rewrite spread_cons_outside by lia. unfold bucket. rewrite filter_cons_True by done. by rewrite Permutation_middle.
  - rewrite IH by lia. unfold bucket. by rewrite filter_cons_False.
Qed.

Lemma spread_perm l : spread 256 l ≡ₚ l.
Proof.
  induction l as [|x l IH]; [|rewrite spread_cons by apply digit_lt; by constructor].
  generalize 256%nat as n. intros n. induction n as [|n IHn]; [done|]. cbn [spread]. by rewrite IHn.
Qed.

(** Where a bucket begins; buckets do not overlap. *)
Definition start (l : list Z) (b : nat) : Z := vlen (spread b l).

Lemma start_S l b : start l (S b) = start l b + cnt b l.
Proof. unfold start, cnt. cbn [spread]. by rewrite vlen_app. Qed.

Lemma start_mono l b c : (b ≤ c)%nat → start l b ≤ start l c.
Proof.
  intros Hbc. induction Hbc as [|c Hbc IH]; [done|]. rewrite start_S. pose proof (vlen_nonneg (bucket c l)). unfold cnt. lia.
Qed.

Lemma start_end l b : (b < 256)%nat → 0 ≤ start l b ∧ start l b + cnt b l ≤ vlen l.
Proof.
  intros Hb. split; [apply vlen_nonneg|]. rewrite <- start_S. assert (vlen l = start l 256) as ->; [|apply start_mono; lia].
  unfold start, vlen. by rewrite spread_perm.
Qed.

(** Every position of the result is in a bucket. *)
Lemma spread_lookup n l p x : spread n l !! p = Some x → ∃ b j, (b < n)%nat ∧ p = (Z.to_nat (start l b) + j)%nat ∧ bucket b l !! j = Some x.
Proof.
  revert p. induction n as [|n IH]; intros p; cbn [spread]; [by rewrite lookup_nil|]. intros Hx. apply lookup_app_Some in Hx as [Hx|[Hp Hx]].
  - destruct (IH p Hx) as (b & j & Hb & Hp & Hj). exists b, j. split; [lia|done].
  - exists n, (p - length (spread n l))%nat. split; [lia|]. split; [|done]. unfold start, vlen. lia.
Qed.
(** * A pass *)

Hypothesis Hshift : 0 ≤ shift ≤ 24.
#[local] Set Default Proof Using "Hshift".

Lemma digit_build v : 0 ≤ v < 2 ^ 31 → as_u64 (Z.land (unsigned_shift 32 v shift) 255) = Z.of_nat (digit v).
Proof.
  intros Hv. unfold unsigned_shift. rewrite (as_u_id 32) by (unfold is_u; lia). rewrite Z.shiftr_div_pow2 by lia.
  pose proof (pow2_pos shift ltac:(lia)). assert (0 ≤ v / 2 ^ shift < 2 ^ 31).
  { split; [apply Z.div_pos; lia|]. apply Z.le_lt_trans with v; [|lia]. apply Z.div_le_upper_bound; [lia|]. nia. }
  rewrite as_i_id by (try lia; unfold is_i; lia). change 255 with (Z.ones 8). rewrite Z.land_ones by lia. change (2 ^ 8) with 256.
  unfold digit. pose proof (Z.mod_pos_bound (v / 2 ^ shift) 256 ltac:(lia)). rewrite Z2Nat.id by lia. apply as_u_id. unfold is_u. lia.
Qed.

Lemma digit_reorder v : as_u64 (Z.land (shr_i v shift) 255) = Z.of_nat (digit v).
Proof.
  unfold shr_i. rewrite Z.shiftr_div_pow2 by lia. change 255 with (Z.ones 8). rewrite Z.land_ones by lia. change (2 ^ 8) with 256.
  unfold digit. pose proof (Z.mod_pos_bound (v / 2 ^ shift) 256 ltac:(lia)). rewrite Z2Nat.id by lia. apply as_u_id. unfold is_u. lia.
Qed.


(** * Order *)

(** [l] is in order by the low [n] bits. *)
Definition ordered (n : Z) (l : list Z) : Prop := StronglySorted (fun x y => x `mod` 2 ^ n ≤ y `mod` 2 ^ n) l.

Lemma low_bits_next v : v `mod` 2 ^ (shift + 8) = Z.of_nat (digit v) * 2 ^ shift + v `mod` 2 ^ shift.
Proof.
  pose proof (pow2_pos shift ltac:(lia)). rewrite Z.pow_add_r by lia. change (2 ^ 8) with 256. rewrite Z.rem_mul_r by lia. unfold digit.
  pose proof (Z.mod_pos_bound (v / 2 ^ shift) 256 ltac:(lia)). rewrite Z2Nat.id by lia. lia.
Qed.

Lemma ordered_bucket b l : ordered shift l → ordered (shift + 8) (bucket b l).
Proof.
  unfold ordered, bucket. induction 1 as [|x l Hs IH Hx]; [constructor|]. rewrite filter_cons. destruct (decide (digit x = b)) as [E|]; [|done].
  constructor; [done|]. apply list.Forall_forall. intros y Hy. apply list_elem_of_filter in Hy as [Hb Hy]. rewrite list.Forall_forall in Hx.
  specialize (Hx y Hy). rewrite !low_bits_next, E, Hb. lia.
Qed.

Lemma ordered_spread n l : ordered shift l → ordered (shift + 8) (spread n l) ∧ ∀ x, x ∈ spread n l → (digit x < n)%nat.
Proof.
  intros Hs. induction n as [|n [IH1 IH2]]; cbn [spread]; [split; [constructor|set_solver]|]. split.
  - apply StronglySorted_app_2; [|done|by apply ordered_bucket]. intros x y Hx Hy. apply IH2 in Hx. apply list_elem_of_filter in Hy as [Hy _].
    rewrite !low_bits_next, Hy. pose proof (Z.mod_pos_bound x (2 ^ shift) (pow2_pos shift ltac:(lia))).
    pose proof (Z.mod_pos_bound y (2 ^ shift) (pow2_pos shift ltac:(lia))). nia.
  - intros x Hx. apply elem_of_app in Hx as [Hx|Hx]; [apply IH2 in Hx; lia|]. apply list_elem_of_filter in Hx as [Hx _]. lia.
Qed.
(** * Histograms *)

(** A histogram as a table. *)
Definition table (f : nat → Z) : list Z := map f (seq 0 256).

Lemma vget_table f b : (b < 256)%nat → vget (table f) (Z.of_nat b) = Ok (f b).
Proof using.
  intros Hb. apply vget_lookup. unfold table. rewrite list_lookup_fmap, lookup_seq_lt by done. done.
Qed.

Lemma vset_table f b x : (b < 256)%nat → vset (table f) (Z.of_nat b) x = Ok (table (fun c => if decide (c = b) then x else f c)).
Proof using.
  intros Hb. rewrite vset_in by (unfold table, vlen; rewrite length_map, length_seq; lia). f_equal. rewrite Nat2Z.id.
  apply list_eq. intros i. unfold table. destruct (decide (i = b)) as [->|Hne].
  - rewrite list_lookup_insert_eq by (by rewrite length_map, length_seq). rewrite list_lookup_fmap, lookup_seq_lt by done. cbn. by rewrite decide_True.
  - rewrite list_lookup_insert_ne by done. rewrite !list_lookup_fmap. destruct (seq 0 256 !! i) as [c|] eqn:E; [|done].
    apply lookup_seq in E as [-> _]. cbn. by rewrite decide_False.
Qed.

Lemma table_ext f g : (∀ b, (b < 256)%nat → f b = g b) → table f = table g.
Proof using. intros E. apply map_ext_in. intros b Hb. apply E. apply in_seq in Hb. lia. Qed.

Lemma zero_table l : vlen l = 256 → map (fun _ => 0) l = table (fun _ => 0).
Proof using.
  intros Hl. unfold table. apply list_eq_same_length with 256%nat; [by rewrite length_map, length_seq|rewrite length_map; unfold vlen in Hl; lia|].
  intros i x y _ Hx Hy. apply list_lookup_fmap_Some in Hx as (? & -> & _). by apply list_lookup_fmap_Some in Hy as (? & -> & _).
Qed.

Context (src : list Z) (Hsrc : Forall (fun v => 0 ≤ v < 2 ^ 31) src) (Hlen : vlen src < 2 ^ 31).

Lemma taken_snoc (i : nat) x : src !! i = Some x → take (S i) src = take i src ++ [x].
Proof using. apply take_S_r. Qed.

Lemma cnt_take_le b i : 0 ≤ cnt b (take i src) ≤ vlen src.
Proof using.
  unfold cnt, bucket, vlen. pose proof (list.length_filter (fun v => digit v = b) (take i src)) as Hl. rewrite length_take in Hl. lia.
Qed.

Lemma build_spec array : take (Z.to_nat (vlen src)) array = src →
  build_histogram array (vlen src) (table (fun _ => 0)) shift = Ok (table (fun b => cnt b src)).
Proof using Hshift Hsrc Hlen.
  intros Ha. unfold build_histogram. rewrite Ha.
  each_inv (fun i h => h = table (fun b => cnt b (take (Z.to_nat i) src))).
  - done.
  - intros i x h Hi Hx ->. cbv zeta. rewrite Forall_lookup in Hsrc. rewrite digit_build by (by eapply Hsrc).
    rewrite vget_table by apply digit_lt. rewrite bind_Ok_l, vset_table by apply digit_lt. eexists. split; [done|].
    pose proof (cnt_take_le (digit x) (Z.to_nat i)) as Hc. apply table_ext. intros b Hb. replace (Z.to_nat (i + 1)) with (S (Z.to_nat i)) by lia.
    rewrite (taken_snoc _ _ Hx), cnt_snoc. destruct (decide (b = digit x)) as [->|].
    + rewrite decide_True by done. apply as_i_id; [lia|]. unfold is_i.
      assert (cnt (digit x) (take (Z.to_nat i) src) + 1 ≤ vlen src); [|lia].
      pose proof (cnt_take_le (digit x) (S (Z.to_nat i))) as Hc'. rewrite (taken_snoc _ _ Hx), cnt_snoc, decide_True in Hc' by done. lia.
    + rewrite decide_False by done. lia.
  - destruct Hloop as (h & -> & ->). f_equal. apply table_ext. intros b _. by rewrite to_nat_vlen, firstn_all.
Qed.

Lemma sums_spec n : ∀ k, (k + n ≤ 256)%nat → sums (start src k) (map (fun b => cnt b src) (seq k n)) = map (start src) (seq k n).
Proof using Hlen.
  induction n as [|n IH]; intros k Hk; [done|]. cbn [seq map sums]. f_equal. rewrite <- (IH (S k)) by lia. f_equal. rewrite start_S.
  destruct (start_end src k) as [H1 H2]; [lia|]. pose proof (vlen_nonneg (bucket k src)). unfold cnt in *. apply as_i_id; [lia|]. unfold is_i. lia.
Qed.

Lemma sum_spec : sum_histogram (table (fun b => cnt b src)) = table (start src).
Proof using Hlen.
  unfold sum_histogram, table. change (Z.to_nat LSB_HISTOGRAM_SIZE) with 256%nat.
  rewrite firstn_all2, skipn_all2 by (rewrite length_map, length_seq; lia). rewrite app_nil_r. apply (sums_spec 256 0). lia.
Qed.

Definition at_start (b : nat) : nat := Z.to_nat (start src b).

(** Where a value goes: within the list, and nowhere a value went before. *)
Lemma next_place i x : src !! i = Some x → let b := digit x in
  (at_start b + length (bucket b (take i src)) < length src)%nat ∧
  ∀ c j, (c < 256)%nat → (j < length (bucket c (take i src)))%nat → (at_start c + j ≠ at_start b + length (bucket b (take i src)))%nat.
Proof using.
  intros Hx b. assert (∀ c, length (bucket c (take i src)) + (if decide (digit x = c) then 1 else 0) ≤ length (bucket c src))%nat as Hle.
  { intros c. rewrite <- (take_drop_middle src i x Hx) at 2. rewrite cons_middle, app_assoc.
    unfold bucket at 2. rewrite list.filter_app. fold (bucket c (take i src ++ [x])). rewrite bucket_snoc, !length_app.
    destruct (decide (digit x = c)); cbn [length]; lia. }
  pose proof (digit_lt x) as Hb. pose proof (start_end src b Hb) as Hend. pose proof (Hle b) as Hb'. rewrite decide_True in Hb' by done.
  unfold at_start, cnt, vlen in *. split; [lia|]. intros c j Hc Hj.
  assert (∀ c d, (c < d)%nat → (d < 256)%nat → (Z.to_nat (start src c) + length (bucket c src) ≤ Z.to_nat (start src d))%nat) as Hsep.
  { intros c' d Hcd Hd. pose proof (start_mono src (S c') d Hcd) as Hm. rewrite start_S in Hm. unfold cnt, vlen in Hm.
    pose proof (start_end src c' ltac:(lia)). lia. }
  specialize (Hle c). destruct (decide (c = b)) as [->|Hne]; [lia|].
  destruct (decide (c < b)%nat); [pose proof (Hsep c b ltac:(lia) ltac:(lia))|pose proof (Hsep b c ltac:(lia) ltac:(lia))]; destruct (decide _); lia.
Qed.

Lemma reorder_spec array dest : take (Z.to_nat (vlen src)) array = src → vlen src ≤ vlen dest →
  ∃ h dest', reorder array (vlen src) (table (start src)) shift dest = Ok (h, dest') ∧ vlen h = 256 ∧ vlen dest' = vlen dest ∧
    take (length src) dest' = spread 256 src ∧ drop (length src) dest' = drop (length src) dest.
Proof using Hshift Hlen.
  intros Ha Hd. unfold reorder. rewrite Ha.
  each_inv (fun i '(h, d) => h = table (fun b => start src b + cnt b (take (Z.to_nat i) src)) ∧ vlen d = vlen dest ∧
    (∀ b j, (b < 256)%nat → (j < length (bucket b (take (Z.to_nat i) src)))%nat → d !! (at_start b + j)%nat = bucket b (take (Z.to_nat i) src) !! j) ∧
    drop (length src) d = drop (length src) dest).
  - split; [apply table_ext; intros b _; exact (eq_sym (Z.add_0_r _))|]. split; [done|]. split; [|done]. intros b j _ Hj. by apply Nat.nlt_0_r in Hj.
  - intros i x [h d] Hi Hx (-> & Hv & Hpl & Hdr). rewrite digit_reorder. pose proof (digit_lt x) as Hb.
    destruct (next_place _ _ Hx) as [Hin Hnew]. pose proof (start_end src (digit x) Hb) as [Hs0 _]. unfold at_start in Hin.
    assert (∀ z, z = start src (digit x) + cnt (digit x) (take (Z.to_nat i) src) → as_u64 z = z ∧ as_i32 (z + 1) = z + 1 ∧
      Z.to_nat z = (at_start (digit x) + length (bucket (digit x) (take (Z.to_nat i) src)))%nat ∧ 0 ≤ z < vlen d) as Hz.
    { intros z ->. unfold at_start, cnt, vlen in *. split; [apply as_u_id; unfold is_u; lia|]. split; [apply as_i_id; [lia|unfold is_i; lia]|]. lia. }
    rewrite vget_table by done. rewrite bind_Ok_l. destruct (Hz _ eq_refl) as (-> & -> & Hzn & Hzr). rewrite (vset_in d), bind_Ok_l by done.
    rewrite vset_table, bind_Ok_l by done. eexists. split; [done|]. replace (Z.to_nat (i + 1)) with (S (Z.to_nat i)) by lia. rewrite (taken_snoc _ _ Hx).
    split; [|split; [by rewrite vlen_insert|split]].
    + apply table_ext. intros b _. rewrite cnt_snoc. destruct (decide (b = digit x)) as [->|]; [rewrite decide_True by done; lia|rewrite decide_False by done; lia].
    + rewrite Hzn. intros b j Hb' Hj. rewrite bucket_snoc in Hj |- *.
      destruct (decide (j < length (bucket b (take (Z.to_nat i) src)))%nat) as [Hj'|Hj'].
      * rewrite lookup_app_l by done. rewrite list_lookup_insert_ne by (apply not_eq_sym; by apply Hnew). by apply Hpl.
      * rewrite length_app in Hj. destruct (decide (digit x = b)) as [<-|]; cbn [length] in Hj; [|lia].
        assert (j = length (bucket (digit x) (take (Z.to_nat i) src))) as -> by lia.
        rewrite list_lookup_insert_eq, list_lookup_middle by (unfold vlen in *; lia || done). done.
    + rewrite drop_insert_lt by (rewrite Hzn; exact Hin). done.
  - destruct Hloop as ([h d] & -> & Hh & Hv & Hpl & Hdr). rewrite to_nat_vlen, firstn_all in *. exists h, d. split; [done|].
    split; [subst h; unfold table, vlen; by rewrite length_map, length_seq|]. split; [done|]. split; [|done].
    assert (length (spread 256 src) = length src) as Hls by (by rewrite spread_perm).
    apply list_eq_same_length with (length src); [done|rewrite length_take; unfold vlen in *; lia|].
    intros p x y Hp Hx Hy. rewrite lookup_take_lt in Hx by lia. apply spread_lookup in Hy as (b & j & Hb & -> & Hj).
    fold (at_start b) in Hx. rewrite (Hpl b j) in Hx by (done || by eapply lookup_lt_Some). congruence.
Qed.

End buckets.

(** * The sort *)

(** What a pass leaves in [dest], or that it has nothing to do. *)
Lemma sort_histogram_spec shift (src array histogram dest : list Z) : 0 ≤ shift ≤ 24 →
  Forall (fun v => 0 ≤ v < 2 ^ 31) src → vlen src < 2 ^ 31 → take (Z.to_nat (vlen src)) array = src → vlen histogram = 256 →
  vlen src ≤ vlen dest → ordered shift src →
  ∃ moved h dest', sort_histogram array (vlen src) histogram shift dest = Ok (moved, h, dest') ∧ vlen h = 256 ∧ vlen dest' = vlen dest ∧
    drop (length src) dest' = drop (length src) dest ∧
    if moved : bool then take (length src) dest' ≡ₚ src ∧ ordered (shift + 8) (take (length src) dest') else dest' = dest ∧ ordered (shift + 8) src.
Proof.
  intros Hshift Hsrc Hlen Ha Hh Hd Ho. unfold sort_histogram. rewrite zero_table by done. rewrite build_spec by done.
  rewrite bind_Ok_l, (vget_table _ 0), bind_Ok_l by lia. rewrite (as_i_id 32) by (try lia; pose proof (vlen_nonneg src); unfold is_i; lia).
  destruct (Z.eqb_spec (cnt shift 0 src) (vlen src)) as [E|].
  - exists false. do 2 eexists. split; [done|]. split; [unfold table, vlen; by rewrite length_map, length_seq|]. do 3 (split; [done|]).
    assert (bucket shift 0 src = src) as <-; [|by apply ordered_bucket].
    by apply bucket_full.
  - rewrite sum_spec by done. destruct (reorder_spec shift Hshift src Hlen array dest Ha Hd) as (h & d & -> & H1 & H2 & H3 & H4).
    rewrite bind_Ok_l. exists true, h, d. split; [done|]. do 3 (split; [done|]). rewrite H3. split; [apply spread_perm|by apply ordered_spread].
Qed.

Lemma ordered_0 l : ordered 0 l.
Proof.
  unfold ordered. induction l as [|x l IH]; constructor; [done|]. apply list.Forall_forall. intros y _. change (2 ^ 0) with 1. by rewrite !Z.mod_1_r.
Qed.

Lemma ordered_all n l : Forall (fun v => 0 ≤ v < 2 ^ n) l → ordered n l → StronglySorted Z.le l.
Proof.
  intros Hl. unfold ordered. induction 1 as [|x l Hs IH Hx]; [constructor|]. apply Forall_cons_iff in Hl as [Hv Hl]. constructor; [by apply IH|].
  apply list.Forall_forall. intros y Hy. rewrite list.Forall_forall in Hx, Hl. specialize (Hx y Hy). specialize (Hl y Hy).
  rewrite !Z.mod_small in Hx by lia. done.
Qed.

Lemma std_sort_spec l : std_sort l ≡ₚ l ∧ StronglySorted Z.le (std_sort l).
Proof.
  assert (∀ x k, insert_sorted x k ≡ₚ x :: k) as Hp.
  { intros x k. induction k as [|y k IH]; [done|]. cbn [insert_sorted]. destruct (x <=? y); [done|]. rewrite IH. apply Permutation_swap. }
  induction l as [|x l [IH1 IH2]]; [split; [done|constructor]|]. cbn [std_sort foldr]. fold (std_sort l). split; [by rewrite Hp, IH1|].
  clear IH1. generalize dependent (std_sort l). intros k Hk. induction Hk as [|y k Hk IH Hy]; cbn [insert_sorted]; [repeat constructor|].
  destruct (Z.leb_spec x y).
  - constructor; [by constructor|]. constructor; [done|]. eapply Forall_impl; [|exact Hy]. cbn. lia.
  - constructor; [done|]. rewrite Hp. constructor; [lia|done].
Qed.

(** The state of the loop: the values in order by [shift] bits are in the array or in the buffer. *)
Definition in_order (array0 : list Z) (len : Z) (st : list Z * list Z * list Z * Z * bool) : Prop :=
  let '(h, array, buffer, shift, origin) := st in
  vlen h = 256 ∧ vlen array = vlen array0 ∧ vlen buffer = len ∧ drop (Z.to_nat len) array = drop (Z.to_nat len) array0 ∧ 0 ≤ shift ∧ (8 | shift) ∧
  let cur := take (Z.to_nat len) (if (origin : bool) then array else buffer) in
  cur ≡ₚ take (Z.to_nat len) array0 ∧ ordered shift cur.

Lemma pass_spec num_bits array0 len : 0 ≤ len ≤ vlen array0 → len < 2 ^ 31 → num_bits ≤ 31 →
  Forall (fun v => 0 ≤ v < 2 ^ 31) (take (Z.to_nat len) array0) →
  ∀ st, in_order array0 len st → st.1.2 < num_bits → ∃ st', pass len st = Ok st' ∧ in_order array0 len st' ∧ st'.1.2 = st.1.2 + 8.
Proof.
  intros Hlen Hmax Hbits Hv [[[[h array] buffer] shift] origin] (H1 & H2 & H3 & H4 & H5 & [q ->] & Hp & Ho) Hlt. cbn [fst snd] in Hlt.
  assert (0 ≤ q * 8 ≤ 24) as Hshift by lia. unfold pass. set (src := take (Z.to_nat len) _) in Hp, Ho.
  assert (vlen src = len) as Es by (unfold src; apply vlen_take; destruct origin; lia).
  assert (length src = Z.to_nat len) as El by (unfold vlen in Es; lia).
  assert (Forall (fun v => 0 ≤ v < 2 ^ 31) src) as Hs by (by rewrite Hp). destruct origin.
  - destruct (sort_histogram_spec (q * 8) src array h buffer) as (moved & h2 & d & E & G1 & G2 & G3 & G4); [done|done|lia|by rewrite Es|done|lia|done|].
    rewrite Es in E. rewrite E, bind_Ok_l. eexists; split; [done|]. split; [|done]. rewrite El in *. do 3 (split; [first [done|lia]|]).
    do 2 (split; [first [done|lia]|]). split; [exists (q + 1); lia|]. destruct moved; cbn [negb]; destruct G4 as [G4 G5].
    + split; [by rewrite G4, Hp|done].
    + by split.
  - destruct (sort_histogram_spec (q * 8) src buffer h array) as (moved & h2 & d & E & G1 & G2 & G3 & G4); [done|done|lia|by rewrite Es|done|lia|done|].
    rewrite Es in E. rewrite E, bind_Ok_l. eexists; split; [done|]. split; [|done]. rewrite El in *. do 3 (split; [first [done|lia]|]).
    split; [by rewrite G3|]. split; [lia|]. split; [exists (q + 1); lia|]. destruct moved; cbn [negb]; destruct G4 as [G4 G5].
    + split; [by rewrite G4, Hp|done].
    + by split.
Qed.

(** C27. [LSBRadixSorter::sort] puts the first [len] values of the array in order, for
    values of at most [num_bits] bits: they are a permutation of what they were,
    each at most the next, the rest of the array is as it was, and the histogram
    keeps its size, so that the sorter can be used again. *)
Theorem radix_sort_sorts (r : t) (num_bits : Z) (array : list Z) (len : Z) :
  vlen (histogram r) = 256 → 0 ≤ num_bits ≤ 31 → 0 ≤ len ≤ vlen array → len < 2 ^ 31 →
  Forall (fun v => 0 ≤ v < 2 ^ num_bits) (take (Z.to_nat len) array) →
  ∃ r' array', sort r num_bits array len = Ok (r', array') ∧ vlen (histogram r') = 256 ∧
    take (Z.to_nat len) array' ≡ₚ take (Z.to_nat len) array ∧ StronglySorted Z.le (take (Z.to_nat len) array') ∧
    drop (Z.to_nat len) array' = drop (Z.to_nat len) array.
Proof.
  intros Hh Hbits Hlen Hmax Hv. unfold sort.
  assert (∀ l k : list Z, length l = Z.to_nat len → take (Z.to_nat len) (l ++ k) = l ∧ drop (Z.to_nat len) (l ++ k) = k) as Hcut
    by (intros l k <-; by rewrite take_app_length, drop_app_length).
  destruct (len <? INSERTION_SORT_THRESHOLD).
  { rewrite vslice_0, bind_Ok_l by lia. destruct (std_sort_spec (take (Z.to_nat len) array)) as [Hp Hs].
    destruct (Hcut (std_sort (take (Z.to_nat len) array)) (drop (Z.to_nat len) array)) as [E1 E2].
    { rewrite Hp, length_take. unfold vlen in Hlen. lia. }
    exists r. eexists. split; [done|]. rewrite E1, E2. done. }
  cbv zeta. assert (2 ^ num_bits ≤ 2 ^ 31) as Hpow by (apply Z.pow_le_mono_r; lia).
  loop_inv (fun st => in_order array len st ∧ st.1.2 < num_bits + 8) (fun st => Z.to_nat (num_bits - st.1.2)).
  - intros st [HI Hsh] Hc. assert (st.1.2 < num_bits) by (destruct st as [[[[? ?] ?] ?] ?]; cbn in *; lia).
    destruct (pass_spec num_bits array len) with (st := st) as (st' & E & HI' & Hs'); [lia..| |done|done|].
    { eapply Forall_impl; [|exact Hv]. cbn. lia. }
    exists st'. split; [done|]. split; [split; [done|lia]|lia].
  - split; [|cbn; lia]. do 4 (split; [first [done|by apply vlen_replicate; lia]|]). split; [lia|]. split; [exists 0; lia|]. split; [done|].
    apply ordered_0.
  - cbn. lia.
  - destruct Hloop as ([[[[h a] b] sh] origin] & -> & [(H1 & H2 & H3 & H4 & H5 & _ & Hp & Ho) _] & Hc). rewrite bind_Ok_l.
    assert (StronglySorted Z.le (take (Z.to_nat len) (if origin then a else b))) as Hs.
    { apply (ordered_all sh); [|done]. rewrite Hp. eapply Forall_impl; [|exact Hv]. cbn. intros v Hvv.
      assert (2 ^ num_bits ≤ 2 ^ sh); [apply Z.pow_le_mono_r; lia|lia]. }
    destruct origin; [by exists (mk h); eexists|]. rewrite vslice_0, bind_Ok_l by lia.
    rewrite vblit_in by (rewrite ?vlen_take by lia; lia). exists (mk h). eexists. rewrite bind_Ok_l. split; [done|].
    assert (length (take (Z.to_nat len) b) = Z.to_nat len) as El by (rewrite length_take; unfold vlen in *; lia).
    destruct (Hcut (take (Z.to_nat len) b) (drop (Z.to_nat len) a)) as [E1 E2]; [done|]. rewrite El. change (take (Z.to_nat 0) a) with (@nil Z). change (Z.to_nat 0 + Z.to_nat len)%nat with (Z.to_nat len). rewrite app_nil_l.
    rewrite E1, E2. done.
Qed.

Lemma radix_sort_sorts_witness : ∃ r' array',
  sort default 10 (map (fun i => (i * 37) `mod` 1000) (seqZ 0 35)) 33 = Ok (r', array') ∧ StronglySorted Z.le (take 33 array').
Proof.
  destruct (radix_sort_sorts default 10 (map (fun i => (i * 37) `mod` 1000) (seqZ 0 35)) 33) as (r' & a' & E & _ & _ & Hs & _).
  - reflexivity.
  - lia.
  - vm_compute. split; congruence.
  - lia.
  - apply (bool_decide_eq_true_1 _). vm_compute. reflexivity.
  - exists r', a'. split; [exact E|exact Hs].
Defined.
