(* ===== verification/Lru.v ===== *)
(** The least-recently-used cache: src/core/search/cache/lru_cache.rs.

    The entries sit in a vector and are linked by their indexes; a hash map gives the
    index of a key, and the indexes of removed entries are kept on a stack for reuse
    (its head is the end of the vector). *)

From stdpp Require Import gmap.
From S2P Require Import Prelude.

Module LRUCache.
Section cache.
Context {K V : Type} `{Countable K}.

Record CacheEntry : Type := mk_entry {
  key : K;
  value : option V;
  next : option nat;
  prev : option nat;
}.

Record t : Type := mk {
  table : gmap K nat;
  entries : list CacheEntry;
  free_indexes : list nat;
  first : option nat;
  last : option nat;
  capacity : nat;
}.

Definition set_value (v : option V) (e : CacheEntry) : CacheEntry := mk_entry (key e) v (next e) (prev e).
Definition set_next (n : option nat) (e : CacheEntry) : CacheEntry := mk_entry (key e) (value e) n (prev e).
Definition set_prev (p : option nat) (e : CacheEntry) : CacheEntry := mk_entry (key e) (value e) (next e) p.

Definition with_table (tb : gmap K nat) (c : t) : t := mk tb (entries c) (free_indexes c) (first c) (last c) (capacity c).
Definition with_entries (es : list CacheEntry) (c : t) : t := mk (table c) es (free_indexes c) (first c) (last c) (capacity c).
Definition with_free (f : list nat) (c : t) : t := mk (table c) (entries c) f (first c) (last c) (capacity c).
Definition with_first (i : option nat) (c : t) : t := mk (table c) (entries c) (free_indexes c) i (last c) (capacity c).
Definition with_last (i : option nat) (c : t) : t := mk (table c) (entries c) (free_indexes c) (first c) i (capacity c).

(** [self.entries[i]], read and written in place *)
Definition entry (c : t) (i : nat) : result CacheEntry :=
  match entries c !! i with Some e => Ok e | None => Panic end.
Definition on_entry (i : nat) (f : CacheEntry → CacheEntry) (c : t) : result t :=
  e ← entry c i; Ok (with_entries (<[i := f e]> (entries c)) c).

Definition unwrap {A} (o : option A) : result A := match o with Some a => Ok a | None => Panic end.

Definition with_capacity (cap : nat) : t := mk ∅ [] [] None None cap.

Definition len (c : t) : nat := size (table c).
Definition is_empty (c : t) : bool := bool_decide (len c = 0%nat).
Definition is_full (c : t) : bool := bool_decide (len c = capacity c).
Definition contains_key (c : t) (k : K) : bool := bool_decide (is_Some (table c !! k)).

(** ** The list *)

Definition remove_from_list (i : nat) (c : t) : result t :=
  e ← entry c i;
  match prev e, next e with
  | Some j, Some k => c ← on_entry j (set_next (next e)) c; on_entry k (set_prev (prev e)) c
  | Some j, None => c ← on_entry j (set_next None) c; Ok (with_last (prev e) c)
  | None, Some k => c ← on_entry k (set_prev (prev e)) c; Ok (with_first (next e) c)
  | None, None => Ok (with_last None (with_first None c))
  end.

Definition add_head_idx (i : nat) (c : t) : result t :=
  c ← match first c with Some f => on_entry f (set_prev (Some i)) c | None => Ok c end;
  c ← on_entry i (set_prev None) c;
  c ← on_entry i (set_next (first c)) c;
  let c := with_first (Some i) c in
  Ok (with_last (match last c with Some l => Some l | None => first c end) c).

Definition access (k : K) (c : t) : result t :=
  i ← unwrap (table c !! k);
  c ← remove_from_list i c;
  add_head_idx i c.

(** ** Removal *)

Definition remove_last (c : t) : result (option K * t) :=
  '(k, c) ←
    match last c with
    | Some idx =>
      c ← remove_from_list idx c;
      e ← entry c idx;
      let c := with_free (idx :: free_indexes c) c in
      Ok (if decide (is_Some (table c !! key e)) then Some (key e) else None, with_table (delete (key e) (table c)) c)
    | None => Ok (None, c)
    end;
  Ok (k, match last c with None => with_first None c | Some _ => c end).

Definition ensure_room (c : t) : result t :=
  if decide (capacity c = len c) then '(_, c) ← remove_last c; Ok c else Ok c.

Definition remove (k : K) (c : t) : result (option V * t) :=
  match table c !! k with
  | None => Ok (None, c)
  | Some idx =>
    let c := with_table (delete k (table c)) c in
    c ← remove_from_list idx c;
    let c := with_free (idx :: free_indexes c) c in
    e ← entry c idx;
    v ← unwrap (value e);
    c ← on_entry idx (set_value None) c;
    Ok (Some v, c)
  end.

(** ** Lookup *)

Definition peek (k : K) (c : t) : result (option V) :=
  match table c !! k with
  | Some i => e ← entry c i; Ok (value e)
  | None => Ok None
  end.

Definition get (k : K) (c : t) : result (option V * t) :=
  c ← (if contains_key c k then access k c else Ok c);
  v ← peek k c;
  Ok (v, c).

(** [get_mut], with what the caller does to the value. *)
Definition get_mut (k : K) (f : V → V) (c : t) : result (bool * t) :=
  c ← (if contains_key c k then access k c else Ok c);
  match table c !! k with
  | Some i =>
    e ← entry c i;
    match value e with
    | Some v => c ← on_entry i (set_value (Some (f v))) c; Ok (true, c)
    | None => Ok (false, c)
    end
  | None => Ok (false, c)
  end.

(** ** Insertion *)

(** The old head is updated and the new one put in its place. *)
Definition add_entry (idx : nat) (k : K) (v : V) (c : t) : result t :=
  c ← match first c with Some f => on_entry f (set_prev (Some idx)) c | None => Ok c end;
  let ent := mk_entry k (Some v) (first c) None in
  c ← (if decide (idx = length (entries c)) then Ok (with_entries (entries c ++ [ent]) c)
       else on_entry idx (fun _ => ent) c);
  c ← add_head_idx idx c;
  Ok (with_table (<[k := idx]> (table c)) c).

Definition insert (k : K) (v : V) (c : t) : result (option V * t) :=
  if contains_key c k then
    c ← access k c;
    i ← unwrap (first c);
    e ← entry c i;
    c ← on_entry i (set_value (Some v)) c;
    Ok (value e, c)
  else
    c ← ensure_room c;
    let '(idx, c) :=
      match free_indexes c with
      | idx :: free => (idx, with_free free c)
      | [] => (length (entries c), c)
      end in
    c ← add_entry idx k v c;
    Ok (None, c).
End cache.
Arguments CacheEntry : clear implicits.
Arguments t K V {_ _}.
End LRUCache.

(** A run in which a lookup saves an entry from eviction. *)
Example lru_run :
  (c ← LRUCache.insert (K := Z) (V := Z) 1 10 (LRUCache.with_capacity 2);
   c ← LRUCache.insert 2 20 c.2;
   c ← LRUCache.get 1 c.2;
   c ← LRUCache.insert 3 30 c.2;
   a ← LRUCache.peek 1 c.2; b ← LRUCache.peek 2 c.2; d ← LRUCache.peek 3 c.2;
   Ok (a, b, d, length (LRUCache.entries c.2))) = Ok (Some 10, None, Some 30, 2%nat).
Proof. vm_compute. reflexivity. Qed.
