(* ===== verification/LruFacts.v ===== *)
(** The cache of lru_cache.rs refines a list in order of use.

    The entries that are linked, from the most to the least recently used one, are
    the [nodes]; the abstract cache is the list of their keys and values. *)

From S2P Require Import Prelude Lru.
From stdpp Require Import gmap.
Import LRUCache.

Section cache.
Context {K V : Type} `{Countable K}.
Implicit Types (c : t K V) (es : list (CacheEntry K V)) (k : K) (v : V).

(** A linked entry: its index, and its key and value. *)
Abbreviation node := (nat * (K * V))%type.
Implicit Types (ns a b : list node).

Definition hd_idx ns (n : option nat) : option nat := match ns with [] => n | x :: _ => Some x.1 end.
Definition last_idx ns (p : option nat) : option nat := match list.last ns with Some x => Some x.1 | None => p end.

(** The nodes are linked, between [p] and [n]. *)
Fixpoint chain es (p : option nat) ns (n : option nat) : Prop :=
  match ns with
  | [] => True
  | (i, (k, v)) :: ns => es !! i = Some (mk_entry k (Some v) (hd_idx ns n) p) ∧ chain es (Some i) ns n
  end.

Lemma last_idx_cons x ns p : last_idx (x :: ns) p = last_idx ns (Some x.1).
Proof. unfold last_idx. rewrite last_cons. by destruct (list.last ns). Qed.
Lemma last_idx_snoc ns x p : last_idx (ns ++ [x]) p = Some x.1.
Proof. unfold last_idx. by rewrite last_snoc. Qed.
Lemma hd_idx_app a b n : hd_idx (a ++ b) n = hd_idx a (hd_idx b n).
Proof. by destruct a. Qed.
Lemma last_idx_app a b p : last_idx (a ++ b) p = last_idx b (last_idx a p).
Proof. unfold last_idx. rewrite last_app. by destruct (list.last b). Qed.

Lemma chain_app es a : ∀ p b n, chain es p (a ++ b) n ↔ chain es p a (hd_idx b n) ∧ chain es (last_idx a p) b n.
Proof.
  induction a as [|[i [k v]] a IH]; intros p b n; [by split; [intros|intros [_ ?]]|]. cbn [app chain]. rewrite IH, hd_idx_app, last_idx_cons. tauto.
Qed.

Lemma chain_frame es i e ns : ∀ p n, i ∉ ns.*1 → chain es p ns n → chain (<[i := e]> es) p ns n.
Proof.
  induction ns as [|[j [k v]] ns IH]; intros p n Hi; [done|]. cbn in Hi. apply not_elem_of_cons in Hi as [Hij Hi]. cbn [chain].
  intros [E Hc]. rewrite list_lookup_insert_ne by done. split; [done|by apply IH].
Qed.

Lemma chain_extend es e ns : ∀ p n, chain es p ns n → chain (es ++ e) p ns n.
Proof.
  induction ns as [|[j [k v]] ns IH]; intros p n; [done|]. cbn [chain]. intros [E Hc]. split; [by apply lookup_app_l_Some|by apply IH].
Qed.

Lemma chain_lookup es ns : ∀ p n i k v, (i, (k, v)) ∈ ns → chain es p ns n → ∃ e, es !! i = Some e ∧ key e = k ∧ value e = Some v.
Proof.
  induction ns as [|[j [k' v']] ns IH]; intros p n i k v; [by intros ?%not_elem_of_nil|]. cbn [chain]. intros [E|Hin]%elem_of_cons [Ej Hc].
  - simplify_eq. eauto.
  - by eapply IH.
Qed.

(** Changing the link before or after a chain. *)
Lemma chain_set_prev es p p' x ns n e : NoDup (x :: ns).*1 → chain es p (x :: ns) n → es !! x.1 = Some e →
  chain (<[x.1 := set_prev p' e]> es) p' (x :: ns) n.
Proof.
  destruct x as [i [k v]]. cbn. intros [Hi _]%NoDup_cons [E Hc] E'. simplify_eq. split; [|by apply chain_frame].
  by rewrite list_lookup_insert_eq by (by eapply lookup_lt_Some).
Qed.

Lemma chain_set_next es p x ns n n' e : NoDup (ns ++ [x]).*1 → chain es p (ns ++ [x]) n → es !! x.1 = Some e →
  chain (<[x.1 := set_next n' e]> es) p (ns ++ [x]) n'.
Proof.
  rewrite fmap_app. intros (_ & Hd & _)%NoDup_app. rewrite !chain_app. destruct x as [i [k v]]. cbn. intros [Hc [E _]] E'. simplify_eq. split.
  - apply chain_frame; [|done]. set_solver.
  - split; [|done]. by rewrite list_lookup_insert_eq by (by eapply lookup_lt_Some).
Qed.

(** The state of the list: links, ends, and indexes in use at most once. *)
Definition linked c ns : Prop :=
  chain (entries c) None ns None ∧ first c = hd_idx ns None ∧ last c = last_idx ns None ∧ NoDup ns.*1.

Lemma on_entry_ok i f c e : entries c !! i = Some e → on_entry i f c = Ok (with_entries (<[i := f e]> (entries c)) c).
Proof. intros E. unfold on_entry, entry. by rewrite E. Qed.

(** Nothing but the list changed. *)
Definition list_only c c' : Prop :=
  table c' = table c ∧ free_indexes c' = free_indexes c ∧ capacity c' = capacity c ∧ length (entries c') = length (entries c).

Lemma chain_in es p ns n x : x ∈ ns → chain es p ns n → ∃ e, es !! x.1 = Some e.
Proof. destruct x as [i [k v]]. intros Hx Hc. destruct (chain_lookup _ _ _ _ _ _ _ Hx Hc) as (e & E & _). by exists e. Qed.

(** What the indexes before, at and after a node have in common: nothing. *)
Lemma split_indexes a i kv b : NoDup (a ++ (i, kv) :: b).*1 →
  (i ∉ a.*1) ∧ (i ∉ b.*1) ∧ NoDup a.*1 ∧ NoDup b.*1 ∧ NoDup (a ++ b).*1 ∧ (∀ j, j ∈ a.*1 → j ∉ b.*1).
Proof.
  rewrite !fmap_app, fmap_cons. cbn [fst]. intros (H1 & H2 & H3)%NoDup_app. apply NoDup_cons in H3 as [H3 H4]. rewrite NoDup_app.
  set_solver.
Qed.

(** Take a node out: its neighbours are linked to each other. *)
Lemma unlink_spec es a i kv b : chain es None (a ++ (i, kv) :: b) None → NoDup (a ++ (i, kv) :: b).*1 →
  ∃ es', match last_idx a None, hd_idx b None with
    | Some j, Some m => ∃ ej em, es !! j = Some ej ∧ <[j := set_next (Some m) ej]> es !! m = Some em ∧
        es' = <[m := set_prev (Some j) em]> (<[j := set_next (Some m) ej]> es)
    | Some j, None => ∃ ej, es !! j = Some ej ∧ es' = <[j := set_next None ej]> es
    | None, Some m => ∃ em, es !! m = Some em ∧ es' = <[m := set_prev None em]> es
    | None, None => es' = es
    end ∧ chain es' None (a ++ b) None ∧ es' !! i = es !! i ∧ length es' = length es.
Proof.
  intros Hc Hnd. apply split_indexes in Hnd as (Hia & Hib & Hna & Hnb & Hnab & Hdis). apply chain_app in Hc as [Ha Hb]. destruct kv as [k v].
  destruct Hb as [_ Hb]. cbn [hd_idx fst] in Ha. destruct a as [|x a _] using rev_ind.
  - destruct b as [|y b]; cbn [last_idx hd_idx list.last fst]; [by exists es|].
    destruct (chain_in es (Some i) (y :: b) None y ltac:(left) Hb) as [em Em]. eexists. split; [by exists em|].
    split; [by eapply chain_set_prev|]. split; [|by rewrite length_insert]. apply list_lookup_insert_ne. set_solver.
  - rewrite last_idx_snoc. destruct (chain_in es None (a ++ [x]) (Some i) x ltac:(set_solver) Ha) as [ej Ej].
    destruct b as [|y b]; cbn [hd_idx].
    + eexists. split; [by exists ej|]. rewrite app_nil_r. split; [by eapply chain_set_next|]. split; [|by rewrite length_insert].
      apply list_lookup_insert_ne. set_solver.
    + assert (y.1 ∉ (a ++ [x]).*1) as Hy by set_solver. assert (x.1 ∉ (y :: b).*1) as Hx by set_solver.
      apply (chain_frame _ x.1 (set_next (Some y.1) ej)) in Hb; [|done].
      destruct (chain_in _ (Some i) (y :: b) None y ltac:(left) Hb) as [em Em]. eexists. split; [by exists ej, em|].
      split; [|split; [rewrite !list_lookup_insert_ne by set_solver; done|by rewrite !length_insert]].
      apply chain_app. rewrite last_idx_snoc. split; [|by eapply chain_set_prev]. apply chain_frame; [done|]. by eapply chain_set_next.
Qed.

Lemma remove_from_list_spec c a i k v b : linked c (a ++ (i, (k, v)) :: b) →
  ∃ c' e, remove_from_list i c = Ok c' ∧ linked c' (a ++ b) ∧ list_only c c' ∧ entries c' !! i = Some e ∧ key e = k ∧ value e = Some v.
Proof.
  intros (Hc & Hf & Hl & Hnd). destruct (unlink_spec _ _ _ _ _ Hc Hnd) as (es & Hes & Hc' & Hi & Hlen).
  apply chain_app in Hc as [_ [E _]]. unfold remove_from_list, entry. rewrite E. rewrite bind_Ok_l. cbn [prev next].
  rewrite hd_idx_app in Hf. rewrite last_idx_app, last_idx_cons in Hl. cbn [hd_idx fst] in Hf, Hl.
  apply split_indexes in Hnd as (_ & _ & _ & _ & Hnab & _). rewrite E in Hi.
  destruct (last_idx a None) as [j|] eqn:Ea, (hd_idx b None) as [m|] eqn:Eb; [destruct Hes as (ej & em & E1 & E2 & ->)|destruct Hes as (ej & E1 & ->)|
    destruct Hes as (em & E1 & ->)|subst es].
  - rewrite (on_entry_ok _ _ _ _ E1), bind_Ok_l, (on_entry_ok _ _ _ em) by done. do 2 eexists. split; [done|]. split; [|by split_and!].
    split; [done|]. split; [|split; [|done]]; cbn [first last with_entries]; [rewrite Hf, hd_idx_app|rewrite Hl, last_idx_app].
    + by destruct a.
    + destruct b; [done|]. by rewrite !last_idx_cons.
  - rewrite (on_entry_ok _ _ _ _ E1), bind_Ok_l. do 2 eexists. split; [done|]. split; [|by split_and!].
    split; [done|]. split; [|split; [|done]]; cbn [first last with_entries with_last]; [rewrite Hf, hd_idx_app|rewrite last_idx_app].
    + by destruct a.
    + by destruct b; [rewrite Ea|].
  - rewrite (on_entry_ok _ _ _ _ E1), bind_Ok_l. do 2 eexists. split; [done|]. split; [|by split_and!].
    split; [done|]. split; [|split; [|done]]; cbn [first last with_entries with_first]; [rewrite hd_idx_app|rewrite Hl, last_idx_app].
    + rewrite <- Eb. destruct a; [done|]. cbn in Ea. unfold last_idx in Ea. by destruct (list.last (_ :: _)) eqn:El; [|apply last_None in El].
    + destruct b; [done|]. by rewrite !last_idx_cons.
  - do 2 eexists. split; [done|]. split; [|by split_and!]. unfold last_idx in Ea.
    assert (a = []) as -> by (apply last_None; by destruct (list.last a)). by destruct b.
Qed.

(** The old head is linked to the new one. *)
Lemma relink_first c p i ns : chain (entries c) p ns None → first c = hd_idx ns None → NoDup ns.*1 → i ∉ ns.*1 →
  ∃ es, match first c with Some f => on_entry f (set_prev (Some i)) c | None => Ok c end = Ok (with_entries es c) ∧
    chain es (Some i) ns None ∧ es !! i = entries c !! i ∧ length es = length (entries c).
Proof.
  intros Hc Hf Hnd Hi. rewrite Hf. destruct ns as [|x ns]; cbn [hd_idx]; [by exists (entries c); destruct c|].
  destruct (chain_in _ _ _ _ x ltac:(left) Hc) as [ex Ex]. rewrite (on_entry_ok _ _ _ _ Ex). eexists. split; [done|].
  split; [by eapply chain_set_prev|]. split; [|by rewrite length_insert]. rewrite list_lookup_insert_ne by set_solver. done.
Qed.

Lemma add_head_idx_spec c p i k v ns e : chain (entries c) p ns None → first c = hd_idx ns None → last c = last_idx ns None → NoDup (i :: ns.*1) →
  entries c !! i = Some e → key e = k → value e = Some v →
  ∃ c', add_head_idx i c = Ok c' ∧ linked c' ((i, (k, v)) :: ns) ∧ list_only c c'.
Proof.
  intros Hc Hf Hl Hnd E <- Ev. unfold add_head_idx. pose proof Hnd as Hnd0. apply NoDup_cons in Hnd as [Hi Hnd].
  destruct (relink_first _ _ i _ Hc Hf Hnd Hi) as (es & -> & Hc1 & E1 & Hlen). rewrite E in E1.
  rewrite bind_Ok_l. assert (i < length es)%nat as Hlt by (by eapply lookup_lt_Some).
  rewrite (on_entry_ok _ _ (with_entries es c) e) by done. rewrite bind_Ok_l.
  erewrite on_entry_ok by (cbn; by apply list_lookup_insert_eq). rewrite bind_Ok_l. cbv zeta. eexists. split; [done|].
  cbn. rewrite list_insert_insert_eq. split; [|unfold list_only; cbn; rewrite !length_insert; by split_and!].
  split; [split|split; [done|split; [|done]]].
  - cbn. rewrite list_lookup_insert_eq by done. rewrite Hf, <- Ev. by destruct e.
  - by apply chain_frame.
  - cbn. rewrite Hl, last_idx_cons. unfold last_idx. by destruct (list.last ns).
Qed.

(** * The whole state *)

Definition tab ns : list (K * nat) := (fun x : node => (x.2.1, x.1)) <$> ns.

(** Links, hash map and free indexes agree on the nodes. *)
Definition state c ns : Prop :=
  linked c ns ∧ table c = list_to_map (tab ns) ∧ NoDup (ns.*2).*1 ∧ NoDup (ns.*1 ++ free_indexes c) ∧
  Forall (fun i => (i < length (entries c))%nat) (ns.*1 ++ free_indexes c) ∧ length (entries c) = (length ns + length (free_indexes c))%nat.

Lemma tab_keys ns : (tab ns).*1 = (ns.*2).*1.
Proof. unfold tab. by rewrite <- !list_fmap_compose. Qed.

Lemma state_lookup c ns k i : state c ns → table c !! k = Some i → ∃ a v b, ns = a ++ (i, (k, v)) :: b.
Proof.
  intros (_ & Ht & Hk & _). rewrite Ht. intros E%elem_of_list_to_map_2. unfold tab in E.
  apply list_elem_of_fmap in E as ([j [k' v]] & E & Hin). cbn in E. simplify_eq. apply list_elem_of_split in Hin as (a & b & ->). by exists a, v, b.
Qed.

Lemma state_lookup_None c ns k : state c ns → table c !! k = None → k ∉ (ns.*2).*1.
Proof. intros (_ & Ht & _). rewrite Ht, <- tab_keys. apply not_elem_of_list_to_map_2. Qed.

Lemma state_key c a i k v b : state c (a ++ (i, (k, v)) :: b) → table c !! k = Some i ∧ (k ∉ (a.*2).*1) ∧ (k ∉ (b.*2).*1).
Proof.
  intros (_ & Ht & Hk & _). split.
  - rewrite Ht. apply elem_of_list_to_map_1; [by rewrite tab_keys|]. unfold tab. apply list_elem_of_fmap. eexists. split; [|apply elem_of_app; right; left]. done.
  - rewrite !fmap_app in Hk. cbn in Hk. apply NoDup_app in Hk as (_ & H1 & H2). apply NoDup_cons in H2 as [H2 _]. set_solver.
Qed.

Lemma state_size c ns : state c ns → len c = length ns.
Proof. intros (_ & Ht & Hk & _). unfold len. rewrite Ht, map_size_list_to_map by (by rewrite tab_keys). unfold tab. by rewrite length_fmap. Qed.

(** Reordering the list is all that a promotion does. *)
Lemma state_reorder c c' ns ns' : state c ns → list_only c c' → linked c' ns' → ns' ≡ₚ ns → state c' ns'.
Proof.
  intros (_ & Ht & Hk & Hi & Hlt & Hlen) (Et & Ef & _ & El) Hl Hp. split; [done|]. rewrite Et, Ef, El. rewrite <- Hp in Hk, Hi, Hlt, Hlen. split; [|done].
  rewrite Ht. apply list_to_map_proper; [rewrite tab_keys; by rewrite <- Hp|]. unfold tab. by rewrite Hp.
Qed.

Lemma access_spec c a i k v b : state c (a ++ (i, (k, v)) :: b) →
  ∃ c', access k c = Ok c' ∧ state c' ((i, (k, v)) :: a ++ b) ∧ list_only c c'.
Proof.
  intros Hs. destruct (state_key _ _ _ _ _ _ Hs) as (E & _). unfold access. rewrite E. cbn [unwrap]. rewrite bind_Ok_l. pose proof Hs as (Hl & _).
  destruct (remove_from_list_spec _ _ _ _ _ _ Hl) as (c1 & e & -> & Hl1 & Ho1 & E1 & Ek & Ev). rewrite bind_Ok_l.
  destruct Hl1 as (Hc1 & Hf1 & Hla1 & Hnd1). assert (NoDup (i :: (a ++ b).*1)) as Hnd.
  { destruct Hl as (_ & _ & _ & Hnd). apply split_indexes in Hnd as (H1 & H2 & _ & _ & H3 & _). apply NoDup_cons. rewrite fmap_app in *. set_solver. }
  destruct (add_head_idx_spec c1 None i k v (a ++ b) e) as (c2 & -> & Hl2 & Ho2); [done..|]. exists c2.
  assert (list_only c c2) as Ho by (unfold list_only in *; intuition congruence).
  split; [done|]. split; [|done]. apply (state_reorder _ _ _ _ Hs Ho Hl2). apply Permutation_middle.
Qed.

Lemma set_value_spec c i k v v' ns : state c ((i, (k, v)) :: ns) →
  ∃ c', on_entry i (set_value (Some v')) c = Ok c' ∧ state c' ((i, (k, v')) :: ns) ∧ list_only c c'.
Proof.
  intros ((Hc & Hf & Hl & Hnd) & Ht & Hk & Hi & Hlt & Hlen). destruct Hc as [E Hc]. pose proof (on_entry_ok i (set_value (Some v')) c _ E) as ->.
  eexists. split; [done|]. split; [|split_and!; cbn; rewrite ?length_insert; done].
  split; [|cbn; rewrite length_insert; by split_and!]. split; [|by rewrite last_idx_cons in *]. cbn in Hnd. apply NoDup_cons in Hnd as [Hin _]. split.
  - cbn. by rewrite list_lookup_insert_eq by (by eapply lookup_lt_Some).
  - by apply chain_frame.
Qed.

Lemma value_spec c i k v ns : state c ((i, (k, v)) :: ns) → ∃ e, entry c i = Ok e ∧ value e = Some v.
Proof. intros [[[E _] _] _]. unfold entry. rewrite E. by eexists. Qed.

Lemma delete_tab a i k v b : NoDup ((a ++ (i, (k, v)) :: b).*2).*1 →
  delete k (list_to_map (tab (a ++ (i, (k, v)) :: b)) : gmap K nat) = list_to_map (tab (a ++ b)) ∧ NoDup ((a ++ b).*2).*1.
Proof.
  rewrite <- tab_keys. intros Hk. assert (tab (a ++ (i, (k, v)) :: b) ≡ₚ (k, i) :: tab (a ++ b)) as Hp.
  { unfold tab. rewrite !fmap_app. cbn. symmetry. apply Permutation_middle. }
  rewrite (list_to_map_proper _ _ Hk Hp). rewrite Hp in Hk. cbn in Hk. apply NoDup_cons in Hk as [Hk1 Hk2]. rewrite tab_keys in Hk2. split; [|done].
  cbn. apply delete_insert_id. by apply not_elem_of_list_to_map_1.
Qed.

(** Take a node out and keep its index for reuse. *)
Lemma drop_node c c' a i k v b : state c (a ++ (i, (k, v)) :: b) → linked c' (a ++ b) →
  table c' = delete k (table c) → free_indexes c' = i :: free_indexes c → length (entries c') = length (entries c) → state c' (a ++ b).
Proof.
  intros (_ & Ht & Hk & Hi & Hlt & Hlen) Hl Et Ef El. destruct (delete_tab _ _ _ _ _ Hk) as [Hd Hk']. split; [done|]. rewrite Et, Ef, El, Ht.
  assert ((a ++ (i, (k, v)) :: b).*1 ++ free_indexes c ≡ₚ (a ++ b).*1 ++ i :: free_indexes c) as Hp.
  { rewrite !fmap_app. cbn. rewrite <- !app_assoc. apply Permutation_app_head. cbn. rewrite <- Permutation_middle. done. }
  rewrite Hp in Hi, Hlt. split_and!; [done..|]. rewrite Hlen, !length_app. cbn. lia.
Qed.

Lemma state_unused c ns i : state c ns → i ∈ free_indexes c → (i ∉ ns.*1) ∧ (i < length (entries c))%nat.
Proof.
  intros (_ & _ & _ & Hi & Hlt & _) Hin. apply NoDup_app in Hi as (_ & Hd & _). split; [intros Hin'; by apply (Hd i)|].
  rewrite Forall_forall in Hlt. apply Hlt. set_solver.
Qed.

(** * The abstract cache: a list of keys and values, the most recently used first *)

Fixpoint pull k (l : list (K * V)) : option (V * list (K * V)) :=
  match l with
  | [] => None
  | (k', v) :: l => if decide (k' = k) then Some (v, l) else match pull k l with Some (v', l') => Some (v', (k', v) :: l') | None => None end
  end.

Lemma pull_split k v la lb : k ∉ la.*1 → pull k (la ++ (k, v) :: lb) = Some (v, la ++ lb).
Proof.
  induction la as [|[k' v'] la IH]; cbn; intros Hk; [by rewrite decide_True|]. rewrite decide_False by set_solver. by rewrite IH by set_solver.
Qed.
Lemma pull_None k l : k ∉ l.*1 → pull k l = None.
Proof. induction l as [|[k' v'] l IH]; cbn; intros Hk; [done|]. rewrite decide_False by set_solver. by rewrite IH by set_solver. Qed.

Inductive op : Type := Insert k v | Remove k | Remove_last | Peek k | Get k | Get_mut k (f : V → V) | Contains k | Len.
Inductive reply : Type := Val (o : option V) | Key (o : option K) | Found (b : bool) | Count (n : nat).

Definition call c (o : op) : result (reply * t K V) :=
  match o with
  | Insert k v => '(r, c) ← insert k v c; Ok (Val r, c)
  | Remove k => '(r, c) ← remove k c; Ok (Val r, c)
  | Remove_last => '(r, c) ← remove_last c; Ok (Key r, c)
  | Peek k => r ← peek k c; Ok (Val r, c)
  | Get k => '(r, c) ← get k c; Ok (Val r, c)
  | Get_mut k f => '(r, c) ← get_mut k f c; Ok (Found r, c)
  | Contains k => Ok (Found (contains_key c k), c)
  | Len => Ok (Count (len c), c)
  end.

(** What a call does to the list. *)
Definition spec (cap : nat) (l : list (K * V)) (o : op) : reply * list (K * V) :=
  match o with
  | Insert k v =>
    match pull k l with
    | Some (v', l') => (Val (Some v'), (k, v) :: l')
    | None => (Val None, (k, v) :: (if decide (cap = length l) then removelast l else l))
    end
  | Remove k => match pull k l with Some (v, l') => (Val (Some v), l') | None => (Val None, l) end
  | Remove_last => (Key (fst <$> list.last l), removelast l)
  | Peek k => (Val (fst <$> pull k l), l)
  | Get k => match pull k l with Some (v, l') => (Val (Some v), (k, v) :: l') | None => (Val None, l) end
  | Get_mut k f => match pull k l with Some (v, l') => (Found true, (k, f v) :: l') | None => (Found false, l) end
  | Contains k => (Found (bool_decide (k ∈ l.*1)), l)
  | Len => (Count (length l), l)
  end.

Definition holds c (l : list (K * V)) : Prop := ∃ ns, state c ns ∧ l = ns.*2.

Lemma holds_cases c l k : holds c l →
  (∃ a i v b, state c (a ++ (i, (k, v)) :: b) ∧ l = (a ++ (i, (k, v)) :: b).*2 ∧ table c !! k = Some i ∧ pull k l = Some (v, (a ++ b).*2)) ∨
  (table c !! k = None ∧ pull k l = None ∧ k ∉ l.*1).
Proof.
  intros (ns & Hs & ->). destruct (table c !! k) as [i|] eqn:E.
  - left. destruct (state_lookup _ _ _ _ Hs E) as (a & v & b & ->). destruct (state_key _ _ _ _ _ _ Hs) as (_ & Hk & _).
    exists a, i, v, b. split_and!; try done. rewrite !fmap_app. cbn. by apply pull_split.
  - right. pose proof (state_lookup_None _ _ _ Hs E) as Hk. split_and!; try done. by apply pull_None.
Qed.

(** A call on a cache that holds [l] gives the reply and leaves the list of the
    specification; it takes a new entry only when no old one is free. *)
Definition serves c l (o : op) : Prop :=
  ∃ c', call c o = Ok ((spec (capacity c) l o).1, c') ∧ holds c' (spec (capacity c) l o).2 ∧ capacity c' = capacity c ∧
    (length (entries c') ≤ length (entries c) `max` length (spec (capacity c) l o).2)%nat.

Lemma contains_spec c k : contains_key c k = match table c !! k with Some _ => true | None => false end.
Proof. unfold contains_key. by destruct (table c !! k). Qed.

Lemma promoted c a i k v b : state c (a ++ (i, (k, v)) :: b) → ∃ c', access k c = Ok c' ∧ state c' ((i, (k, v)) :: a ++ b) ∧ list_only c c' ∧
  table c' !! k = Some i ∧ (∃ e, entry c' i = Ok e ∧ value e = Some v) ∧ first c' = Some i.
Proof.
  intros Hs. destruct (access_spec _ _ _ _ _ _ Hs) as (c' & E & Hs' & Ho). exists c'. split_and!; try done; [|by eapply value_spec|by destruct Hs' as ((_ & ? & _) & _)].
  apply (state_key c' [] i k v (a ++ b) Hs').
Qed.

Lemma serves_lookup c l o : holds c l →
  match o with Insert _ _ | Remove _ | Remove_last => True | _ => serves c l o end.
Proof.
  intros Hh. pose proof Hh as (ns & Hs & Hl). destruct o as [| | |k|k|k f|k|]; try done; unfold serves, call, spec, get, get_mut, peek; rewrite ?contains_spec.
  - exists c. destruct (holds_cases c l k Hh) as [(a & i & v & b & Hs' & -> & -> & ->)|(-> & -> & _)]; [|by split_and!; try lia].
    destruct Hs' as ((Hc & _) & _). apply chain_app in Hc as [_ [E _]]. unfold entry. rewrite E. cbn. split_and!; try done; lia.
  - destruct (holds_cases c l k Hh) as [(a & i & v & b & Hs' & -> & -> & ->)|(Et & -> & _)].
    + destruct (promoted _ _ _ _ _ _ Hs') as (c' & -> & Hs1 & (Ht & _ & Hcap & Hlen) & E1 & (e & Ee & Ev) & _). rewrite bind_Ok_l, E1, Ee. cbn. rewrite Ev.
      eexists. split; [done|]. split; [by eexists|]. split; [done|lia].
    + rewrite Et. cbn. rewrite Et. exists c. split_and!; try done; lia.
  - destruct (holds_cases c l k Hh) as [(a & i & v & b & Hs' & -> & -> & ->)|(Et & -> & _)].
    + destruct (promoted _ _ _ _ _ _ Hs') as (c' & -> & Hs1 & (Ht & _ & Hcap & Hlen) & E1 & (e & Ee & Ev) & _). rewrite bind_Ok_l, E1, Ee, bind_Ok_l, Ev.
      destruct (set_value_spec _ _ _ _ (f v) _ Hs1) as (c2 & -> & Hs2 & (_ & _ & Hcap2 & Hlen2)). rewrite !bind_Ok_l.
      eexists. split; [done|]. split; [by eexists|]. split; [congruence|lia].
    + rewrite Et. cbn. rewrite Et. exists c. split_and!; try done; lia.
  - exists c. destruct (holds_cases c l k Hh) as [(a & i & v & b & _ & -> & -> & _)|(-> & _ & Hk)].
    + rewrite bool_decide_true; [split_and!; try done; lia|]. rewrite !fmap_app. set_solver.
    + rewrite bool_decide_false by done. split_and!; try done; lia.
  - exists c. rewrite (state_size _ _ Hs), Hl, length_fmap. split_and!; try done; [by eexists|lia].
Qed.

Lemma serves_remove c l k : holds c l → serves c l (Remove k).
Proof.
  intros Hh. unfold serves, call, spec, remove. destruct (holds_cases c l k Hh) as [(a & i & v & b & Hs & -> & -> & ->)|(-> & -> & _)].
  - destruct (remove_from_list_spec (with_table (delete k (table c)) c) a i k v b) as (c1 & e & -> & Hl1 & (Et & Ef & Ecap & El) & E1 & Ek & Ev); [apply Hs|].
    rewrite bind_Ok_l. cbv zeta. unfold entry. cbn [entries with_free]. rewrite E1, bind_Ok_l, Ev. cbn [unwrap]. rewrite bind_Ok_l.
    erewrite on_entry_ok by done. rewrite !bind_Ok_l. eexists. split; [done|]. split; [|split; [done|cbn; rewrite length_insert, El; cbn; lia]].
    exists (a ++ b). split; [|done]. apply (drop_node c _ a i k v b Hs); cbn; [|by rewrite ?Et, ?Ef|by rewrite Ef|by rewrite length_insert].
    destruct Hl1 as (Hc1 & Hf1 & Hla1 & Hnd1). split; [|by split_and!]. cbn. apply chain_frame; [|done].
    destruct Hs as ((_ & _ & _ & Hnd) & _). apply split_indexes in Hnd as (H1 & H2 & _). rewrite fmap_app. set_solver.
  - exists c. split_and!; try done. lia.
Qed.

Lemma serves_remove_last c l : holds c l → serves c l Remove_last.
Proof.
  intros (ns & Hs & ->). unfold serves, call, spec, remove_last. pose proof Hs as ((_ & _ & Hl & _) & _).
  destruct ns as [|[i [k v]] a _] using rev_ind.
  - rewrite Hl. cbn. rewrite Hl. eexists. split; [done|]. split; [|split; [done|cbn; lia]]. exists []. split; [|done].
    destruct Hs as ((Hc & Hf & Hla & Hnd) & Hs). by split.
  - rewrite Hl, last_idx_snoc. cbn [fst].
    destruct (remove_from_list_spec c a i k v [] (proj1 Hs)) as (c1 & e & -> & Hl1 & (Et & Ef & Ecap & El) & E1 & Ek & Ev). rewrite bind_Ok_l.
    unfold entry. rewrite E1, bind_Ok_l. cbv zeta. rewrite bind_Ok_l. cbn [table with_free last with_table]. rewrite Ek, Et.
    destruct (state_key _ _ _ _ _ _ Hs) as (Hk & _). rewrite decide_True by (by rewrite Hk). rewrite !fmap_app. change ([(i, (k, v))].*2) with [(k, v)]. rewrite last_snoc, removelast_last. cbn.
    rewrite app_nil_r in Hl1. eexists. split; [done|].
    assert (state (with_table (delete k (table c)) (with_free (i :: free_indexes c1) c1)) a) as Hs'.
    { rewrite <- (app_nil_r a). apply (drop_node c _ a i k v [] Hs); cbn; [by rewrite app_nil_r|done|by rewrite Ef|done]. }
    destruct Hl1 as (Hc1 & Hf1 & Hla1 & Hnd1). rewrite Hla1. destruct (last_idx a None) as [j|] eqn:Ej.
    + split; [by exists a|]. split; [done|]. cbn. rewrite El. lia.
    + split; [|split; [done|cbn; rewrite El; lia]]. exists a. split; [|done].
      assert (a = []) as ->. { apply last_None. unfold last_idx in Ej. by destruct (list.last a). }
      destruct Hs' as ((Hc2 & Hf2 & Hla2 & Hnd2) & Hs'). by split.
Qed.

Lemma ensure_room_spec c l : holds c l → ∃ c', ensure_room c = Ok c' ∧ holds c' (if decide (capacity c = length l) then removelast l else l) ∧
  capacity c' = capacity c ∧ (length (entries c') ≤ length (entries c) `max` length l)%nat.
Proof.
  intros Hh. pose proof Hh as (ns & Hs & ->). unfold ensure_room. rewrite (state_size _ _ Hs), length_fmap.
  destruct (decide (capacity c = length ns)); [|exists c; split_and!; try done; lia].
  destruct (serves_remove_last _ _ Hh) as (c' & E & Hh' & Hcap & Hlen). unfold call in E.
  destruct (remove_last c) as [[r c1]| | |]; try done. cbn in E. simplify_eq. exists c'. split_and!; try done. cbn in *.
  assert (length (removelast ns.*2) ≤ length ns)%nat; [|lia].
  rewrite removelast_firstn_len, length_take, length_fmap. lia.
Qed.

(** A node for a new key in front, at an index that is free or new. *)
Lemma add_node c ns k v idx free : state c ns → k ∉ (ns.*2).*1 →
  free_indexes c = idx :: free ∨ (free_indexes c = [] ∧ free = [] ∧ idx = length (entries c)) →
  ∃ c2, add_entry idx k v (with_free free c) = Ok c2 ∧
    state c2 ((idx, (k, v)) :: ns) ∧ capacity c2 = capacity c ∧ (length (entries c2) ≤ length (entries c) `max` S (length ns))%nat.
Proof.
  intros Hs Hk Hidx. pose proof Hs as ((Hc & Hf & Hl & Hnd) & Ht & Hks & Hi & Hlt & Hlen).
  assert ((idx ∉ ns.*1) ∧ ((idx < length (entries c))%nat ∧ free_indexes c = idx :: free ∨ free_indexes c = [] ∧ free = [] ∧ idx = length (entries c)))
    as [Hni Hcase].
  { destruct Hidx as [Ef|(Ef & -> & ->)]; [split; [|left; split; [|done]]; apply (state_unused c ns idx Hs); rewrite Ef; left|].
    split; [|by right]. intros Hin. rewrite Forall_forall in Hlt. specialize (Hlt (length (entries c)) ltac:(set_solver)). lia. }
  unfold add_entry. destruct (relink_first (with_free free c) None idx ns Hc Hf Hnd Hni) as (es & -> & Hc1 & E1 & Hl1). rewrite bind_Ok_l. cbv zeta.
  set (ent := mk_entry k (Some v) _ None). set (c1 := with_entries es (with_free free c)).
  assert (∃ es2, (if decide (idx = length (entries c1)) then Ok (with_entries (entries c1 ++ [ent]) c1) else on_entry idx (fun _ => ent) c1) =
      Ok (with_entries es2 c1) ∧ chain es2 (Some idx) ns None ∧ es2 !! idx = Some ent ∧ (idx < length es2)%nat ∧ length es2 = (S (length ns) + length free)%nat ∧
      (length (entries c) ≤ length es2)%nat) as (es2 & -> & Hc2 & E2 & Hi2 & Hl2 & Hle).
  { cbn in Hl1, E1. destruct Hcase as [[Hlt' Ef]|(Ef & -> & ->)]; rewrite Ef in Hlen; cbn in Hlen.
    - rewrite decide_False by (cbn; lia). destruct (lookup_lt_is_Some_2 es idx) as [e Ee]; [lia|]. rewrite (on_entry_ok _ _ c1 e Ee). eexists.
      split; [done|]. change (entries c1) with es. rewrite length_insert. split; [by apply chain_frame|]. split; [apply list_lookup_insert_eq; lia|]. lia.
    - rewrite decide_True by (cbn; lia). eexists. split; [done|]. cbn. rewrite length_app. cbn. split; [|split; [|lia]].
      + by apply chain_extend.
      + rewrite lookup_app_r by lia. by rewrite Hl1, Nat.sub_diag. }
  rewrite bind_Ok_l. destruct (add_head_idx_spec (with_entries es2 c1) (Some idx) idx k v ns ent) as (c2 & -> & Hl3 & (Et & Ef' & Ecap & El)); try done.
  { by apply NoDup_cons. }
  rewrite bind_Ok_l. eexists. split; [done|]. cbn in *. split; [|split; [done|]].
  2: { destruct Hcase as [[_ Ef]|(Ef & -> & _)]; rewrite Ef in Hlen; cbn in *; lia. }
  split; [done|]. cbn. rewrite Et, Ht, Ef', El. split_and!.
  - done.
  - by apply NoDup_cons.
  - destruct Hcase as [[Hlt' Ef]|(Ef & -> & ->)]; rewrite Ef in Hi; [|rewrite app_nil_r in *; by apply NoDup_cons].
    by rewrite <- Permutation_middle in Hi.
  - apply (Forall_impl (fun i => i < length (entries c) ∨ i = idx)%nat); [|intros i [?| ->]; lia]. constructor; [by right|].
    rewrite Forall_app in Hlt |- *. destruct Hlt as [Hlt1 Hlt2]. split; [eapply Forall_impl; [exact Hlt1|by left]|].
    destruct Hcase as [[_ Ef]|(_ & -> & _)]; [|constructor]. rewrite Ef in Hlt2. apply Forall_cons in Hlt2 as [_ Hlt2].
    eapply Forall_impl; [exact Hlt2|by left].
  - cbn. lia.
Qed.

Lemma removelast_keys k (l : list (K * V)) : k ∉ l.*1 → k ∉ (removelast l).*1.
Proof.
  intros Hk Hin. apply Hk. destruct l as [|x l _] using rev_ind; [done|]. rewrite removelast_last in Hin. rewrite fmap_app. set_solver.
Qed.

Lemma serves_insert c l k v : holds c l → serves c l (Insert k v).
Proof.
  intros Hh. unfold serves, call, spec, insert. rewrite contains_spec.
  destruct (holds_cases c l k Hh) as [(a & i & v0 & b & Hs & -> & -> & ->)|(-> & -> & Hk)].
  - destruct (promoted _ _ _ _ _ _ Hs) as (c1 & -> & Hs1 & (_ & _ & Hcap & Hlen) & _ & (e & Ee & Ev) & Hf). rewrite bind_Ok_l, Hf. cbn [unwrap].
    rewrite bind_Ok_l, Ee, bind_Ok_l. destruct (set_value_spec _ _ _ _ v _ Hs1) as (c2 & -> & Hs2 & (_ & _ & Hcap2 & Hlen2)). rewrite !bind_Ok_l, Ev.
    eexists. split; [done|]. split; [by eexists|]. split; [congruence|lia].
  - destruct (ensure_room_spec _ _ Hh) as (c1 & -> & Hh1 & Hcap1 & Hlen1). rewrite bind_Ok_l.
    set (l1 := if decide (capacity c = length l) then removelast l else l) in *.
    assert (k ∉ l1.*1) as Hk1 by (unfold l1; destruct (decide _); [by apply removelast_keys|done]). destruct Hh1 as (ns & Hs & El). rewrite El in *.
    set (x := match free_indexes c1 with idx :: free => (idx, with_free free c1) | [] => (length (entries c1), c1) end).
    destruct (add_node c1 ns k v x.1 (free_indexes x.2)) as (c2 & E & Hs2 & Hcap2 & Hlen2); [done|done| |].
    { unfold x. destruct (free_indexes c1) as [|idx free] eqn:Ef; [right; cbn; by rewrite Ef|by left]. }
    assert (x = (x.1, with_free (free_indexes x.2) c1)) as Hx.
    { unfold x. destruct (free_indexes c1) eqn:Ef; cbn; [|done]. rewrite Ef. destruct c1; cbn in *; by rewrite Ef. }
    rewrite Hx. rewrite E, !bind_Ok_l. exists c2. cbn [fst snd]. split; [done|]. split; [by eexists|]. split; [congruence|].
    rewrite length_cons, length_fmap.
    assert (length l1 ≤ length l)%nat. { unfold l1. destruct (decide _); [rewrite removelast_firstn_len, length_take; lia|lia]. }
    destruct Hh as (ns0 & (_ & _ & _ & _ & _ & Hlen0) & ->). rewrite length_fmap in *. lia.
Qed.

Lemma call_serves c l o : holds c l → serves c l o.
Proof.
  intros Hh. pose proof (serves_lookup c l o Hh). destruct o; [by apply serves_insert|by apply serves_remove|by apply serves_remove_last|done..].
Qed.

(** * The theorem *)

Fixpoint calls c (os : list op) : result (list reply * t K V) :=
  match os with
  | [] => Ok ([], c)
  | o :: os => '(r, c) ← call c o; '(rs, c) ← calls c os; Ok (r :: rs, c)
  end.
Fixpoint specs (cap : nat) (l : list (K * V)) (os : list op) : list reply * list (K * V) :=
  match os with
  | [] => ([], l)
  | o :: os => let '(r, l) := spec cap l o in let '(rs, l) := specs cap l os in (r :: rs, l)
  end.

Lemma spec_bounded cap l o : (0 < cap)%nat → (length l ≤ cap)%nat → (length (spec cap l o).2 ≤ cap)%nat.
Proof.
  intros Hc Hl. assert (∀ k v l', pull k l = Some (v, l') → length l = S (length l')) as Hpull.
  { clear. induction l as [|[k' v'] l IH]; intros k v l'; cbn; [done|]. destruct (decide (k' = k)); [by intros [= _ <-]|].
    destruct (pull k l) as [[v0 l0]|] eqn:E; [|done]. intros [= _ <-]. cbn. f_equal. by eapply IH. }
  destruct o as [k v|k| |k|k|k f|k|]; cbn [spec]; try (destruct (pull k l) as [[v0 l0]|] eqn:E; [apply Hpull in E|]); cbn [snd length]; try lia.
  - destruct (decide (cap = length l)); [|lia]. rewrite removelast_firstn_len, length_take. lia.
  - rewrite removelast_firstn_len, length_take. lia.
Qed.

Lemma calls_serve os : ∀ c l, holds c l →
  ∃ c', calls c os = Ok ((specs (capacity c) l os).1, c') ∧ holds c' (specs (capacity c) l os).2 ∧ capacity c' = capacity c ∧
    ((0 < capacity c)%nat → (length l ≤ capacity c)%nat → (length (entries c) ≤ capacity c)%nat →
      (length (specs (capacity c) l os).2 ≤ capacity c)%nat ∧ (length (entries c') ≤ capacity c)%nat).
Proof.
  induction os as [|o os IH]; intros c l Hh; cbn [calls specs]; [exists c; by split_and!|].
  destruct (call_serves c l o Hh) as (c1 & -> & Hh1 & Hcap & Hlen). rewrite bind_Ok_l. pose proof (spec_bounded (capacity c) l o) as Hb.
  destruct (spec (capacity c) l o) as [r l1]. cbn [fst snd] in *. destruct (IH c1 l1 Hh1) as (c2 & -> & Hh2 & Hcap2 & Hbound). rewrite bind_Ok_l.
  rewrite Hcap in *. destruct (specs (capacity c) l1 os) as [rs l2]. cbn [fst snd] in *. exists c2. split; [done|]. split; [done|]. split; [done|].
  intros H0 H1 H2. apply Hbound; [done|by apply Hb|]. specialize (Hb H0 H1). lia.
Qed.

Lemma new_holds_nothing cap : holds (with_capacity cap) [].
Proof. exists []. split; [|done]. split; [by split_and!; try constructor|]. split_and!; try done; constructor. Qed.
End cache.

(** C28. An [LRUCache] behaves as a list of keys and values in order of use: from an
    empty cache, any sequence of insertions, removals, evictions and lookups runs
    without a panic, every reply is the one of the list, and the cache ends up
    holding the list, whose keys are distinct.  With a capacity of at least one the
    list and the vector of entries never exceed it. *)
Theorem lru_refines_recency_list {K V : Type} `{Countable K} (cap : nat) (os : list (op (K := K) (V := V))) :
  ∃ c, calls (with_capacity cap) os = Ok ((specs cap [] os).1, c) ∧ holds c (specs cap [] os).2 ∧
    NoDup (specs cap [] os).2.*1 ∧ len c = length (specs cap [] os).2 ∧
    ((0 < cap)%nat → (len c ≤ cap)%nat ∧ (length (entries c) ≤ cap)%nat).
Proof.
  destruct (calls_serve os (with_capacity cap) [] (new_holds_nothing cap)) as (c & E & Hh & _ & Hb). cbn [capacity with_capacity entries length] in *.
  exists c. split; [done|]. split; [done|]. destruct Hh as (ns & Hs & El). rewrite El, length_fmap, (state_size _ _ Hs) in *.
  split; [by destruct Hs as (_ & _ & ? & _)|]. split; [done|]. intros H0. apply Hb; lia.
Qed.
