(* ===== verification/FlushQueue.v ===== *)
(** The queue of flush tickets: src/core/index/writer/doc_writer_flush_queue.rs, and
    the part of [flush_dwpt] of doc_writer.rs that takes and settles a ticket.

    Every flush takes a ticket when it starts and settles it when it ends; a purge
    publishes settled tickets to the index writer from the front of the queue.  The
    operations hold the lock of the queue and are atomic steps.  What the tickets
    carry and the index writer are behind classes: a ticket only hands them on. *)

From S2P Require Import Prelude.
Open Scope Z_scope.

(** [FrozenBufferedUpdates::any] *)
Class FrozenUpdates (F : Type) : Type := any : F → bool.

(** What a ticket asks of the index writer; the writer is there also after an error. *)
Class IndexWriter (W F Seg : Type) : Type := {
  publish_flushed_segment : W → Seg → option F → W * result unit;
  publish_frozen_updates : W → F → W * result unit;
}.

(** * Tickets *)

Record GlobalDeletesTicket (F : Type) : Type := global_ticket {
  g_frozen_updates : option F;
  g_published : bool;
}.
Arguments global_ticket {F}.
Arguments g_frozen_updates {F}.
Arguments g_published {F}.

Record SegmentFlushTicket (F Seg : Type) : Type := segment_ticket {
  s_frozen_updates : option F;
  s_published : bool;
  segment : option Seg;
  failed : bool;
}.
Arguments segment_ticket {F Seg}.
Arguments s_frozen_updates {F Seg}.
Arguments s_published {F Seg}.
Arguments segment {F Seg}.
Arguments failed {F Seg}.

Inductive FlushTicket (F Seg : Type) : Type :=
  | Global (g : GlobalDeletesTicket F)
  | Segment (s : SegmentFlushTicket F Seg).
Arguments Global {F Seg}.
Arguments Segment {F Seg}.

Section tickets.
Context {F Seg W : Type} `{FrozenUpdates F} `{IndexWriter W F Seg}.

Definition new_global (frozen : F) : GlobalDeletesTicket F := global_ticket (Some frozen) false.
Definition new_segment (frozen : F) : SegmentFlushTicket F Seg := segment_ticket (Some frozen) false None false.

(** [IFlushTicket::finish_flush] *)
Definition finish_flush (w : W) (new_segment : option Seg) (buffered_update : option F) : W * result unit :=
  match new_segment with
  | Some segment => publish_flushed_segment w segment buffered_update
  | None =>
    match buffered_update with
    | Some update => if any update then publish_frozen_updates w update else (w, Ok tt)
    | None => (w, Panic)
    end
  end.

Definition can_publish (tk : FlushTicket F Seg) : bool :=
  match tk with
  | Global _ => true
  | Segment s => match segment s with Some _ => true | None => failed s end
  end.

(** The ticket is dropped afterwards, so only the writer and the answer are kept. *)
Definition publish (w : W) (tk : FlushTicket F Seg) : W * result unit :=
  match tk with
  | Global g => finish_flush w None (g_frozen_updates g)
  | Segment s => finish_flush w (segment s) (s_frozen_updates s)
  end.

Definition set_segment (seg : option Seg) (tk : FlushTicket F Seg) : result (FlushTicket F Seg) :=
  match tk with
  | Segment s => Ok (Segment (segment_ticket (s_frozen_updates s) (s_published s) seg (failed s)))
  | Global _ => Panic
  end.
Definition set_failed (tk : FlushTicket F Seg) : result (FlushTicket F Seg) :=
  match tk with
  | Segment s => Ok (Segment (segment_ticket (s_frozen_updates s) (s_published s) (segment s) true))
  | Global _ => Panic
  end.
End tickets.

(** * The queue *)

Module DocumentsWriterFlushQueue.
(** The tickets are numbered as they are pushed; the number stands for the address of
    a ticket in the deque.  The deque is built for [QUEUE_CAPACITY] tickets; a push
    beyond may move it, and [allocation] tells the addresses before from those after. *)
Definition QUEUE_CAPACITY : Z := 10000.

Record t (F Seg : Type) : Type := mk {
  queue : list (nat * FlushTicket F Seg);
  ticket_count : Z;
  pushed : nat;
  allocation : nat;
}.
Arguments mk {F Seg}.
Arguments queue {F Seg}.
Arguments ticket_count {F Seg}.
Arguments pushed {F Seg}.
Arguments allocation {F Seg}.

(** [*mut FlushTicket] *)
Definition pointer : Type := nat * nat.

Section queue.
Context {F Seg W : Type} `{FrozenUpdates F} `{IndexWriter W F Seg}.
Implicit Types (q : t F Seg) (w : W).

Definition new : t F Seg := mk [] 0 0 0.

Definition inc_tickets q : t F Seg := mk (queue q) (as_u32 (ticket_count q + 1)) (pushed q) (allocation q).
Definition dec_tickets q : t F Seg := mk (queue q) (as_u32 (ticket_count q - 1)) (pushed q) (allocation q).
Definition has_tickets q : bool := 0 <? ticket_count q.

Definition push_back (tk : FlushTicket F Seg) q : pointer * t F Seg :=
  let alloc := if decide (vlen (queue q) < QUEUE_CAPACITY) then allocation q else S (allocation q) in
  ((alloc, pushed q), mk (queue q ++ [(pushed q, tk)]) (ticket_count q) (S (pushed q)) alloc).

(** [frozen] is what [freeze_global_buffer] of the delete queue returns. *)
Definition add_deletes (frozen : F) q : t F Seg :=
  (push_back (Global (new_global frozen)) (inc_tickets q)).2.

(** [update] is what [prepare_flush] of the writer per thread returns. *)
Definition add_flush_ticket (update : result F) q : result pointer * t F Seg :=
  let q := inc_tickets q in
  match update with
  | Ok update => let '(p, q) := push_back (Segment (new_segment update)) q in (Ok p, q)
  | Err e => (Err e, dec_tickets q)
  | Panic => (Panic, q)
  | Diverge => (Diverge, q)
  end.

(** The ticket behind a pointer, changed in place. *)
Fixpoint at_number (n : nat) (f : FlushTicket F Seg → result (FlushTicket F Seg)) (l : list (nat * FlushTicket F Seg)) :
    result (list (nat * FlushTicket F Seg)) :=
  match l with
  | [] => Panic
  | (m, tk) :: l =>
    if decide (m = n) then tk ← f tk; Ok ((m, tk) :: l)
    else l ← at_number n f l; Ok ((m, tk) :: l)
  end.
Definition deref (p : pointer) (f : FlushTicket F Seg → result (FlushTicket F Seg)) q : result (t F Seg) :=
  if decide (p.1 = allocation q) then
    l ← at_number p.2 f (queue q); Ok (mk l (ticket_count q) (pushed q) (allocation q))
  else Panic.

(** The rest of [flush_dwpt]: [flushed] is what the flush of the segment returns. *)
Definition settle (p : pointer) (flushed : result (option Seg)) q : result (t F Seg) :=
  match flushed with
  | Ok seg => deref p (set_segment seg) q
  | Err _ => deref p set_failed q
  | Panic => Panic
  | Diverge => Diverge
  end.

Fixpoint purge_loop w (l : list (nat * FlushTicket F Seg)) (count num_purged : Z) : W * list (nat * FlushTicket F Seg) * Z * result Z :=
  match l with
  | [] => (w, [], count, Ok num_purged)
  | (n, head) :: rest =>
    if can_publish head then
      let num_purged := as_u32 (num_purged + 1) in
      let count := as_u32 (count - 1) in
      match publish w head with
      | (w, Ok _) => purge_loop w rest count num_purged
      | (w, Err e) => (w, rest, count, Err e)
      | (w, Panic) => (w, rest, count, Panic)
      | (w, Diverge) => (w, rest, count, Diverge)
      end
    else (w, l, count, Ok num_purged)
  end.
Definition inner_purge w q : W * t F Seg * result Z :=
  let '(w, l, count, r) := purge_loop w (queue q) (ticket_count q) 0 in
  (w, mk l count (pushed q) (allocation q), r).

(** [purge_lock] only keeps purges apart; [try_purge] does nothing when it is taken. *)
Definition force_purge w q : W * t F Seg * result Z := inner_purge w q.
Definition try_purge (locked : bool) w q : W * t F Seg * result Z := if locked then (w, q, Ok 0) else inner_purge w q.
End queue.
End DocumentsWriterFlushQueue.

(** * Several flushes at once *)

(** The queue, the writer, and the tickets of the flushes that are under way. *)
Record System (F Seg W : Type) : Type := system {
  tickets : DocumentsWriterFlushQueue.t F Seg;
  under_way : list DocumentsWriterFlushQueue.pointer;
  writer : W;
}.
Arguments system {F Seg W}.
Arguments tickets {F Seg W}.
Arguments under_way {F Seg W}.
Arguments writer {F Seg W}.

Section system.
Context {F Seg W : Type} `{FrozenUpdates F} `{IndexWriter W F Seg}.
Import DocumentsWriterFlushQueue.

Inductive event : Type :=
  | Deletes (frozen : F)
  | Start (update : result F)
  | Finish (p : pointer) (flushed : result (option Seg))
  | Purge.

(** What an event does; an event that ends a flush must name one under way. *)
Definition step (s : System F Seg W) (e : event) : result (System F Seg W) :=
  match e with
  | Deletes frozen => Ok (system (add_deletes frozen (tickets s)) (under_way s) (writer s))
  | Start update =>
    match add_flush_ticket update (tickets s) with
    | (Ok p, q) => Ok (system q (p :: under_way s) (writer s))
    | (Err _, q) => Ok (system q (under_way s) (writer s))
    | (Panic, _) => Panic
    | (Diverge, _) => Diverge
    end
  | Finish p flushed => q ← settle p flushed (tickets s); Ok (system q (list_difference (under_way s) [p]) (writer s))
  | Purge =>
    match force_purge (writer s) (tickets s) with
    | (w, q, Ok _) | (w, q, Err _) => Ok (system q (under_way s) w)
    | (_, _, Panic) => Panic
    | (_, _, Diverge) => Diverge
    end
  end.
End system.
