(* ===== verification/FlushQueueFacts.v ===== *)
(** The tickets of the flush queue are published in the order they were taken, none
    is lost, and the queue drains, unless a flush ends without a segment.  The
    reference is a ledger of the flushes and deletions, computed from the events alone. *)

From S2P Require Import Prelude FlushQueue.
From stdpp Require Import list sets.
Import DocumentsWriterFlushQueue.
Open Scope Z_scope.

Definition returns {A} (r : result A) : Prop := match r with Ok _ | Err _ => True | _ => False end.

Section queue.
Context {F Seg W : Type} `{HF : FrozenUpdates F} `{HW : IndexWriter W F Seg}.
Implicit Types (q : t F Seg) (w : W) (s : System F Seg W) (tk : FlushTicket F Seg) (l : list (nat * FlushTicket F Seg)) (e : event (F := F) (Seg := Seg)).

(** * What may happen *)

(** The flushes return, they settle tickets of their own, and the deque has room. *)
Definition enabled s e : Prop :=
  match e with
  | Deletes _ => vlen (queue (tickets s)) < QUEUE_CAPACITY
  | Start update => vlen (queue (tickets s)) < QUEUE_CAPACITY ∧ returns update
  | Finish p flushed => p ∈ under_way s ∧ returns flushed
  | Purge => True
  end.

Inductive run : System F Seg W → list event → System F Seg W → Prop :=
  | run_nil s : run s [] s
  | run_cons s e s1 es s2 : enabled s e → step s e = Ok s1 → run s1 es s2 → run s (e :: es) s2.

#[export] Instance returns_dec {A} (r : result A) : Decision (returns r).
Proof. destruct r; cbn [returns]; apply _. Defined.
#[export] Instance enabled_dec s e : Decision (enabled s e).
Proof. destruct e; cbn [enabled]; apply _. Defined.

(** Runs can be computed. *)
Fixpoint execute s (es : list event) : option (System F Seg W) :=
  match es with
  | [] => Some s
  | e :: es => if decide (enabled s e) then match step s e with Ok s' => execute s' es | _ => None end else None
  end.

Lemma execute_run es : ∀ s s', execute s es = Some s' → run s es s'.
Proof.
  induction es as [|e es IH]; intros s s' E; cbn in E; [simplify_eq; constructor|]. destruct (decide (enabled s e)); [|done].
  destruct (step s e) as [s1| | |] eqn:Es; try done. eapply run_cons; [done|exact Es|by apply IH].
Qed.

Lemma run_app s es s1 es' s2 : run s es s1 → run s1 es' s2 → run s (es ++ es') s2.
Proof. induction 1; [done|]. intros Hr. eapply run_cons; [done|done|by apply IHrun]. Qed.

Definition start (w : W) : System F Seg W := system new [] w.

(** The writer answers, with success or with an error. *)
Definition answers : Prop := ∀ w tk, match tk with Global g => is_Some (g_frozen_updates g) | Segment sg => is_Some (s_frozen_updates sg) end →
  returns (publish w tk).2.

(** * The ledger *)

(** What was asked of the queue, in the order it was asked: deletions, and flushes
    with their updates and, once they have ended, with their outcome. *)
Inductive entry : Type :=
  | Deleted (updates : F)
  | Flushed (updates : F) (outcome : option (result (option Seg))).

Definition conclude (r : result (option Seg)) (x : entry) : entry :=
  match x with Deleted u => Deleted u | Flushed u _ => Flushed u (Some r) end.
Definition note (led : list entry) e : list entry :=
  match e with
  | Deletes u => led ++ [Deleted u]
  | Start (Ok u) => led ++ [Flushed u None]
  | Start _ | Purge => led
  | Finish p r => alter (conclude r) p.2 led
  end.
Definition ledger (es : list event) : list entry := foldl note [] es.

(** Entries the writer may be told of, and what it is told. *)
Definition concluded (x : entry) : bool :=
  match x with Deleted _ | Flushed _ (Some (Ok (Some _))) | Flushed _ (Some (Err _)) => true | _ => false end.
Definition tell (w : W) (x : entry) : W :=
  match x with
  | Flushed u (Some (Ok (Some seg))) => (publish_flushed_segment w seg (Some u)).1
  | Deleted u | Flushed u _ => if any u then (publish_frozen_updates w u).1 else w
  end.

(** The ticket of an entry, as the queue keeps it. *)
Definition ticket_of (x : entry) : FlushTicket F Seg :=
  match x with
  | Deleted u => Global (new_global u)
  | Flushed u (Some (Ok seg)) => Segment (segment_ticket (Some u) false seg false)
  | Flushed u (Some (Err _)) => Segment (segment_ticket (Some u) false None true)
  | Flushed u _ => Segment (new_segment u)
  end.
Definition numbered (led : list entry) : list (nat * FlushTicket F Seg) := imap (fun n x => (n, ticket_of x)) led.

(** The tickets published so far and those in the queue are those of the ledger. *)
Definition accounts (led : list entry) s (hist : list (nat * FlushTicket F Seg)) : Prop :=
  hist ++ queue (tickets s) = numbered led ∧ pushed (tickets s) = length led.

Lemma numbered_snoc led x : numbered (led ++ [x]) = numbered led ++ [(length led, ticket_of x)].
Proof. unfold numbered. rewrite imap_app. cbn. by rewrite Nat.add_0_r. Qed.

Lemma drop_numbered led k n tk : (n, tk) ∈ drop k (numbered led) → (k ≤ n)%nat.
Proof.
  intros [i Hi]%list_elem_of_lookup. unfold numbered in Hi. rewrite lookup_drop, list_lookup_imap in Hi.
  destruct (led !! (k + i)%nat); cbn in Hi; [|done]. simplify_eq. lia.
Qed.

Lemma numbered_entry led n tk a b : numbered led = a ++ (n, tk) :: b → n = length a ∧ ∃ x, led !! n = Some x ∧ tk = ticket_of x.
Proof.
  intros E. assert (numbered led !! length a = Some (n, tk)) as El by (rewrite E; by apply list_lookup_middle).
  unfold numbered in El. rewrite list_lookup_imap in El. destruct (led !! length a) as [x|] eqn:Ex; cbn in El; [|done]. simplify_eq. split; [done|by exists x].
Qed.

Lemma numbered_alter led f n x tk a b : numbered led = a ++ (n, tk) :: b → led !! n = Some x →
  numbered (alter f n led) = a ++ (n, ticket_of (f x)) :: b.
Proof.
  intros E Ex. destruct (numbered_entry _ _ _ _ _ E) as [-> _]. apply list_eq. intros i. unfold numbered. rewrite list_lookup_imap.
  assert (∀ j, numbered led !! j = (fun x => (j, ticket_of x)) <$> led !! j) as En by (intros j; unfold numbered; by rewrite list_lookup_imap).
  destruct (decide (i = length a)) as [->|Hne].
  - rewrite list_lookup_alter_eq, Ex. cbn. symmetry. by apply list_lookup_middle.
  - rewrite list_lookup_alter_ne by done. rewrite <- En, E. destruct (decide (i < length a)%nat).
    + by rewrite !lookup_app_l.
    + rewrite !lookup_app_r by lia. by destruct (i - length a)%nat eqn:Ei; [lia|].
Qed.

Lemma can_publish_ticket x : can_publish (ticket_of x) = concluded x.
Proof. by destruct x as [u|u [[[seg|]|er| |]|]]. Qed.

Lemma publish_ticket w x : concluded x = true → (publish w (ticket_of x)).1 = tell w x.
Proof. destruct x as [u|u [[[seg|]|er| |]|]]; cbn; try done; by destruct (any u). Qed.

(** Telling the writer of the tickets is telling it of the entries. *)
Lemma publish_numbered w led hist l : numbered led = hist ++ l → Forall (fun x => can_publish x.2 = true) hist →
  foldl (fun w x => (publish w x.2).1) w hist = foldl tell w (take (length hist) led) ∧ Forall (fun x => concluded x = true) (take (length hist) led).
Proof.
  revert led l w. induction hist as [|[n tk] hist IH] using rev_ind; intros led l w E Hs; [done|].
  apply Forall_app in Hs as [Hs Hs1]. apply list.Forall_cons in Hs1 as [Hs1 _]. cbn [snd] in Hs1. rewrite <- app_assoc in E. cbn in E.
  destruct (numbered_entry _ _ _ _ _ E) as (-> & x & Ex & ->). rewrite can_publish_ticket in Hs1. destruct (IH _ _ w E Hs) as [IHw IHc].
  rewrite length_app, Nat.add_comm. cbn [length Nat.add]. rewrite (take_S_r _ _ _ Ex), !foldl_app, IHw. cbn. rewrite (publish_ticket _ _ Hs1).
  split; [done|]. apply Forall_app. split; [done|by constructor].
Qed.

(** * The invariant *)

(** A ticket that waits in the queue still has its updates. *)
Definition fresh tk : Prop :=
  match tk with Global g => is_Some (g_frozen_updates g) | Segment sg => is_Some (s_frozen_updates sg) end.
Definition unsettled tk : Prop := match tk with Global _ => False | Segment sg => segment sg = None ∧ failed sg = false end.

Record inv (w0 : W) s (hist : list (nat * FlushTicket F Seg)) : Prop := {
  inv_order : hist.*1 ++ (queue (tickets s)).*1 = seq 0 (pushed (tickets s));
  inv_count : ticket_count (tickets s) = vlen (queue (tickets s)) ∧ vlen (queue (tickets s)) ≤ QUEUE_CAPACITY;
  inv_fresh : Forall (fun x => fresh x.2) (queue (tickets s));
  inv_writer : writer s = foldl (fun w x => (publish w x.2).1) w0 hist;
  inv_settled : Forall (fun x => can_publish x.2 = true) hist;
  inv_under_way : ∀ p, p ∈ under_way s → p.1 = allocation (tickets s) ∧ ∃ tk, (p.2, tk) ∈ queue (tickets s) ∧ unsettled tk;
  inv_under_way_nodup : NoDup (under_way s);
}.

Lemma unsettled_publish tk : unsettled tk ↔ can_publish tk = false.
Proof. destruct tk as [g|sg]; cbn; [done|]. destruct (segment sg); naive_solver. Qed.

Lemma inv_numbers w0 s hist : inv w0 s hist → NoDup (queue (tickets s)).*1 ∧ ∀ x, x ∈ queue (tickets s) → (x.1 < pushed (tickets s))%nat.
Proof.
  intros Hi. pose proof (NoDup_seq 0 (pushed (tickets s))) as Hn. rewrite <- (inv_order _ _ _ Hi) in Hn. apply NoDup_app in Hn as (_ & _ & Hn).
  split; [done|]. intros x Hx. assert (x.1 ∈ seq 0 (pushed (tickets s))) as Hin; [|apply elem_of_seq in Hin; lia].
  rewrite <- (inv_order _ _ _ Hi). apply elem_of_app. right. by apply list_elem_of_fmap_2.
Qed.

Lemma inv_start w0 : inv w0 (start w0) [].
Proof. split; cbn; [done|done|constructor|done|constructor|intros p Hp; by apply not_elem_of_nil in Hp|constructor]. Qed.

(** ** Pushing *)

Lemma push_inv w0 s hist tk under : inv w0 s hist → vlen (queue (tickets s)) < QUEUE_CAPACITY → fresh tk →
  under = under_way s ∨ (under = (allocation (tickets s), pushed (tickets s)) :: under_way s ∧ unsettled tk) →
  inv w0 (system (push_back tk (inc_tickets (tickets s))).2 under (writer s)) hist ∧
  (push_back tk (inc_tickets (tickets s))).1 = (allocation (tickets s), pushed (tickets s)).
Proof.
  intros Hi Hroom Hf Hu. unfold push_back. cbn. rewrite decide_True by done. split; [|done].
  destruct (inv_numbers _ _ _ Hi) as [_ Hlt]. destruct Hi as [Ho [Hc _] Hfr Hw Hs Hp Hn]. split; cbn; try done.
  - rewrite fmap_app, app_assoc, Ho. symmetry. exact (seq_S (pushed (tickets s)) 0).
  - rewrite vlen_app. change (vlen [_]) with 1. split; [|lia]. rewrite as_u_id; [lia|]. unfold is_u, QUEUE_CAPACITY in *. pose proof (vlen_nonneg (queue (tickets s))). lia.
  - apply Forall_app. by split; [|constructor].
  - intros p Hin. assert (p ∈ under_way s ∨ p = (allocation (tickets s), pushed (tickets s)) ∧ unsettled tk) as [Hin'|[-> Hun]] by (destruct Hu as [->|[-> ?]]; set_solver).
    + destruct (Hp p Hin') as (Ha & tk' & Htk & Hun). split; [done|]. exists tk'. split; [apply elem_of_app; by left|done].
    + split; [done|]. exists tk. split; [apply elem_of_app; right; left|done].
  - destruct Hu as [->|[-> _]]; [done|]. apply NoDup_cons. split; [|done]. intros Hin. destruct (Hp _ Hin) as (_ & tk' & Htk & _).
    specialize (Hlt _ Htk). cbn in Hlt. lia.
Qed.

(** ** Settling *)

Lemma at_number_spec n tk tk' f a b : n ∉ a.*1 → f tk = Ok tk' → at_number n f (a ++ (n, tk) :: b) = Ok (a ++ (n, tk') :: b).
Proof.
  intros Hn Hf. induction a as [|[m tk0] a IH]; cbn in *.
  - rewrite decide_True by done. by rewrite Hf.
  - rewrite decide_False by set_solver. by rewrite IH by set_solver.
Qed.

(** The ticket a flush settles, and what it becomes. *)
Lemma settle_spec w0 s hist p flushed : inv w0 s hist → p ∈ under_way s → returns flushed →
  ∃ q a tk tk' b, settle p flushed (tickets s) = Ok q ∧ queue (tickets s) = a ++ (p.2, tk) :: b ∧ queue q = a ++ (p.2, tk') :: b ∧
    unsettled tk ∧ (unsettled tk' ↔ flushed = Ok None) ∧ (p.2 ∉ a.*1) ∧ (p.2 ∉ b.*1) ∧
    (∀ x, tk = ticket_of x → tk' = ticket_of (conclude flushed x)) ∧
    inv w0 (system q (list_difference (under_way s) [p]) (writer s)) hist.
Proof.
  intros Hi Hp Hret. destruct (inv_numbers _ _ _ Hi) as [Hnd _]. pose proof Hi as [Ho Hc Hfr Hw Hs Hu Hn]. destruct (Hu p Hp) as (Hal & tk & Htk & Hun).
  apply list_elem_of_split in Htk as (a & b & El). rewrite El in Hnd. rewrite fmap_app in Hnd. cbn in Hnd. apply NoDup_app in Hnd as (_ & Hd & Hnd).
  apply NoDup_cons in Hnd as [Hb _]. assert (p.2 ∉ a.*1) as Ha by (intros Hin; apply (Hd _ Hin); left). destruct tk as [g|sg]; [done|]. cbn in Hun.
  assert (∃ f tk', (settle p flushed (tickets s) = deref p f (tickets s)) ∧ f (Segment sg) = Ok tk' ∧ fresh tk' = is_Some (s_frozen_updates sg) ∧
    (∀ x, Segment sg = ticket_of x → tk' = ticket_of (conclude flushed x)) ∧ (unsettled tk' ↔ flushed = Ok None)) as (f & tk' & -> & Hf & Hfr' & Hx & Hun').
  { destruct flushed as [seg|er| |]; try done; cbn; eexists _, _; (split; [done|]); (split; [done|]); (split; [done|]); (split; [by intros [?|? [[[?|]|? | |]|]] ?; simplify_eq/=; destruct Hun|]); cbn.
    - destruct seg; naive_solver.
    - naive_solver. }
  unfold deref. rewrite decide_True by done. rewrite El, (at_number_spec _ _ _ _ _ _ Ha Hf). cbn. eexists _, a, _, tk', b.
  split; [done|]. split; [done|]. split; [done|]. split; [done|]. split; [done|]. split; [done|]. split; [done|]. split; [done|].
  assert (vlen (a ++ (p.2, tk') :: b) = vlen (queue (tickets s))) as Ev by (rewrite El, !vlen_app, !vlen_cons; done).
  split; cbn; try done.
  - by rewrite <- Ho, El, !fmap_app.
  - by rewrite Ev.
  - rewrite El in Hfr. rewrite Forall_app, Forall_cons in Hfr |- *. cbn [snd] in *. rewrite Hfr'. naive_solver.
  - intros p' [Hin Hne]%list_elem_of_difference. destruct (Hu p' Hin) as (Hal' & tk1 & Htk1 & Hun1). split; [done|]. exists tk1. split; [|done].
    rewrite El in Htk1. apply elem_of_app in Htk1 as [Htk1|Htk1]; [apply elem_of_app; by left|]. apply elem_of_cons in Htk1 as [E|Htk1]; [|apply elem_of_app; right; by right].
    exfalso. apply Hne. simplify_eq. destruct p as [p1 p2], p' as [p1' p2']. cbn in *. subst. left.
  - apply NoDup_list_difference. done.
Qed.

(** ** Purging *)

Lemma purge_loop_spec w l : answers → ∀ count n, Forall (fun x => fresh x.2) l → count = vlen l → vlen l ≤ QUEUE_CAPACITY → 0 ≤ n → n + vlen l ≤ QUEUE_CAPACITY →
  ∃ gone rest r, purge_loop w l count n = (foldl (fun w x => (publish w x.2).1) w gone, rest, vlen rest, r) ∧ l = gone ++ rest ∧
    Forall (fun x => can_publish x.2 = true) gone ∧ returns r ∧
    match r with Ok m => m = n + vlen gone ∧ (∀ x, head rest = Some x → can_publish x.2 = false) | _ => gone ≠ [] end.
Proof.
  intros Hans. revert w. induction l as [|[m tk] l IH]; intros w count n Hf Hc Hcap Hn Hnc; cbn [purge_loop].
  { exists [], [], (Ok n). split; [by rewrite Hc|]. split; [done|]. split; [constructor|]. split; [done|]. split; [change (vlen []) with 0; lia|done]. }
  apply Forall_cons in Hf as [Hf1 Hf]. rewrite vlen_cons in *. pose proof (vlen_nonneg l). destruct (can_publish tk) eqn:Ecp.
  - specialize (Hans w tk Hf1). destruct (publish w tk) as [w1 r1] eqn:Ep. cbn in Hans.
    rewrite Hc. assert (as_u32 (vlen l + 1 - 1) = vlen l) as -> by (unfold QUEUE_CAPACITY in *; rewrite as_u_id; [lia|unfold is_u; lia]).
    assert (as_u32 (n + 1) = n + 1) as -> by (unfold QUEUE_CAPACITY in *; rewrite as_u_id; [lia|unfold is_u; lia]).
    destruct r1 as [[]|er| |]; try done.
    + destruct (IH w1 (vlen l) (n + 1)) as (gone & rest & r & E & -> & Hg & Hr & Hm); [done|done|lia|lia|lia|]. exists ((m, tk) :: gone), rest, r.
      cbn [foldl snd]. rewrite Ep. split; [done|]. split; [done|]. split; [by constructor|]. split; [done|]. rewrite vlen_cons.
      destruct r; try done. destruct Hm as [-> Hm]. split; [lia|done].
    + exists [(m, tk)], l, (Err er). cbn. rewrite Ep. split; [done|]. split; [done|]. split; [by repeat constructor|]. by split.
  - exists [], ((m, tk) :: l), (Ok n). cbn [foldl]. rewrite vlen_cons, Hc. split; [done|]. split; [done|]. split; [constructor|]. split; [done|].
    split; [change (vlen []) with 0; lia|]. by intros x [= <-].
Qed.

(** A purge moves tickets from the front of the queue to the writer: at least one when
    the front is settled, and all up to the first unsettled one when the writer accepts them. *)
Lemma purge_spec w0 s hist : answers → inv w0 s hist →
  ∃ s' gone, step s Purge = Ok s' ∧ queue (tickets s) = gone ++ queue (tickets s') ∧ under_way s' = under_way s ∧
    inv w0 s' (hist ++ gone) ∧ (∀ x, head (queue (tickets s)) = Some x → can_publish x.2 = true → gone ≠ []).
Proof.
  intros Hans [Ho [Hc Hcap] Hfr Hw Hs Hu Hn]. unfold step, force_purge, inner_purge.
  destruct (purge_loop_spec (writer s) (queue (tickets s)) Hans (ticket_count (tickets s)) 0) as (gone & rest & r & -> & El & Hg & Hr & Hm); [done|done|done|lia|done|].
  exists (system (mk rest (vlen rest) (pushed (tickets s)) (allocation (tickets s))) (under_way s) (foldl (fun w x => (publish w x.2).1) (writer s) gone)), gone.
  split; [by destruct r|]. split; [done|]. split; [done|]. rewrite El in *. split.
  - split; cbn; try done.
    + by rewrite <- Ho, !fmap_app, app_assoc.
    + split; [done|]. rewrite vlen_app in Hcap. pose proof (vlen_nonneg gone). lia.
    + by apply Forall_app in Hfr as [_ ?].
    + by rewrite foldl_app, Hw.
    + by apply Forall_app.
    + intros p Hp. destruct (Hu p Hp) as (Hal & tk & Htk & Hun). split; [done|]. exists tk. split; [|done]. apply elem_of_app in Htk as [Htk|?]; [|done].
      rewrite Forall_forall in Hg. specialize (Hg _ Htk). apply unsettled_publish in Hun. cbn in Hg. congruence.
  - intros x Hx Hcp ->. destruct r; try done. destruct Hm as [_ Hm]. cbn in Hx. rewrite (Hm x Hx) in Hcp. done.
Qed.

(** ** Every step *)

(** What a step does to the queue: tickets leave at the front when they are settled,
    one may come in at the back, and the one a flush ends with may change. *)
Inductive moves s s' : event → Prop :=
  | m_push e tk : queue (tickets s') = queue (tickets s) ++ [(pushed (tickets s), tk)] →
      (under_way s' = under_way s ∧ ¬ unsettled tk ∨ under_way s' = (allocation (tickets s), pushed (tickets s)) :: under_way s) → moves s s' e
  | m_none e : queue (tickets s') = queue (tickets s) → under_way s' = under_way s → moves s s' e
  | m_settle p r a tk tk' b : p ∈ under_way s → queue (tickets s) = a ++ (p.2, tk) :: b → queue (tickets s') = a ++ (p.2, tk') :: b →
      p.2 ∉ a.*1 → p.2 ∉ b.*1 → (unsettled tk' ↔ r = Ok None) → under_way s' = list_difference (under_way s) [p] → moves s s' (Finish p r)
  | m_purge gone : queue (tickets s) = gone ++ queue (tickets s') → Forall (fun x => can_publish x.2 = true) gone → under_way s' = under_way s →
      moves s s' Purge.

Lemma push_accounts s x led hist under e : note led e = led ++ [x] → accounts led s hist →
  accounts (note led e) (system (push_back (ticket_of x) (inc_tickets (tickets s))).2 under (writer s)) hist.
Proof.
  intros -> [E Ep]. split; cbn; [|by rewrite Ep, length_app, Nat.add_comm]. by rewrite numbered_snoc, app_assoc, E, Ep.
Qed.

Lemma settle_accounts s q p r a tk tk' b under led hist : queue (tickets s) = a ++ (p.2, tk) :: b → queue q = a ++ (p.2, tk') :: b →
  pushed q = pushed (tickets s) → (∀ x, tk = ticket_of x → tk' = ticket_of (conclude r x)) → accounts led s hist →
  accounts (note led (Finish p r)) (system q under (writer s)) hist.
Proof.
  intros E1 E2 Eq Hx [E Ep]. rewrite E1, app_assoc in E. symmetry in E. destruct (numbered_entry _ _ _ _ _ E) as (_ & x & Ex & Etk).
  split; cbn; [|by rewrite length_alter, <- Ep, Eq]. by rewrite (numbered_alter _ _ _ _ _ _ _ E Ex), E2, (Hx _ Etk), app_assoc.
Qed.

Lemma settle_pushed p r q q' : settle p r q = Ok q' → pushed q' = pushed q.
Proof.
  unfold settle, deref. destruct r; try done; case_decide; try done; destruct (at_number _ _ _); cbn; intros; by simplify_eq.
Qed.

Lemma purge_pushed s s' : step s Purge = Ok s' → pushed (tickets s') = pushed (tickets s).
Proof.
  cbn. unfold force_purge, inner_purge. destruct (purge_loop _ _ _ _) as [[[w l] c] r]. by destruct r; intros; simplify_eq.
Qed.

Lemma step_inv w0 s hist e : answers → inv w0 s hist → enabled s e →
  ∃ s' gone, step s e = Ok s' ∧ inv w0 s' (hist ++ gone) ∧ moves s s' e ∧ ∀ led, accounts led s hist → accounts (note led e) s' (hist ++ gone).
Proof.
  intros Hans Hi He. destruct e as [fr|u|p r|]; cbn [enabled] in He.
  - destruct (push_inv w0 s hist (Global (new_global fr)) (under_way s) Hi He) as [Hi' _]; [by eexists|by left|]. eexists _, [].
    split; [done|]. rewrite app_nil_r. split; [done|]. split; [eapply m_push; [done|left; split; [done|intros []]]|]. intros led. by apply (push_accounts s (Deleted fr)).
  - destruct He as [Hroom Hret]. unfold step, add_flush_ticket. destruct u as [u|er| |]; try done.
    + destruct (push_inv w0 s hist (Segment (new_segment u)) ((allocation (tickets s), pushed (tickets s)) :: under_way s) Hi Hroom) as [Hi' Ep];
        [by eexists|by right|]. destruct (push_back _ _) as [p q] eqn:E. cbn in Ep, Hi'. rewrite Ep. eexists _, []. split; [done|]. rewrite app_nil_r. split; [done|].
      unfold push_back in E. simplify_eq. split; [by eapply m_push; [done|right]|]. intros led. by apply (push_accounts s (Flushed u None)).
    + eexists _, []. split; [done|]. rewrite app_nil_r. split; [|split; [by apply m_none|done]]. destruct Hi as [Ho [Hc Hcap] Hfr Hw Hs Hu Hn]. split; try done. split; [|done].
      cbn. unfold QUEUE_CAPACITY in *. pose proof (vlen_nonneg (queue (tickets s))). rewrite (as_u_id 32 (_ + 1)) by (unfold is_u; lia).
      rewrite as_u_id by (unfold is_u; lia). lia.
  - destruct He as [Hp Hret]. destruct (settle_spec w0 s hist p r Hi Hp Hret) as (q & a & tk & tk' & b & E & E1 & E2 & _ & Hun & Ha & Hb & Hx & Hi'). cbn [step]. rewrite E.
    eexists _, []. split; [done|]. rewrite app_nil_r. split; [done|]. split; [by eapply m_settle|]. intros led Hled.
    eapply settle_accounts; [exact E1|exact E2| |exact Hx|exact Hled]. exact (settle_pushed _ _ _ _ E).
  - destruct (purge_spec w0 s hist Hans Hi) as (s' & gone & E & Eq & Eu & Hi' & _). exists s', gone. split; [done|]. split; [done|].
    split; [|intros led [El Ep]; split; [by rewrite <- app_assoc, <- Eq|by rewrite (purge_pushed _ _ E)]]. eapply m_purge; [done| |done].
    pose proof (inv_settled _ _ _ Hi') as Hs. by apply Forall_app in Hs as [_ ?].
Qed.

Lemma run_accounts w0 s hist es s' led : answers → inv w0 s hist → accounts led s hist → run s es s' →
  ∃ hist', inv w0 s' hist' ∧ accounts (foldl note led es) s' hist'.
Proof.
  intros Hans Hi Ha Hr. revert led hist Hi Ha. induction Hr as [s|s e s1 es s2 He E Hr IH]; intros led hist Hi Ha; [by exists hist|].
  destruct (step_inv w0 s hist e Hans Hi He) as (s1' & gone & E' & Hi1 & _ & Ha1). rewrite E in E'. injection E' as <-. exact (IH _ _ Hi1 (Ha1 _ Ha)).
Qed.

Lemma run_inv w0 s hist es s' : answers → inv w0 s hist → run s es s' → ∃ hist', inv w0 s' hist'.
Proof.
  intros Hans Hi Hr. revert hist Hi. induction Hr as [s|s e s1 es s2 He E Hr IH]; intros hist Hi; [by exists hist|].
  destruct (step_inv w0 s hist e Hans Hi He) as (s1' & gone & E' & Hi1 & _). rewrite E in E'. injection E' as <-. exact (IH _ Hi1).
Qed.

(** From the start the writer has been told of a part of the ledger from its front,
    and the rest of the ledger is in the queue. *)
Lemma run_ledger w0 es s : answers → run (start w0) es s → ∃ n, inv w0 s (take n (numbered (ledger es))) ∧ (n ≤ length (ledger es))%nat ∧
  writer s = foldl tell w0 (take n (ledger es)) ∧ Forall (fun x => concluded x = true) (take n (ledger es)) ∧
  queue (tickets s) = drop n (numbered (ledger es)) ∧ pushed (tickets s) = length (ledger es).
Proof.
  intros Hans Hr. destruct (run_accounts w0 _ [] es s [] Hans (inv_start w0)) as (hist & Hi & E & Ep); [done|done|].
  change (foldl note [] es) with (ledger es) in *. destruct (publish_numbered w0 _ hist _ (eq_sym E) (inv_settled _ _ _ Hi)) as [Hw Hc].
  exists (length hist). rewrite <- E, take_app_length, drop_app_length. split; [done|]. split; [|split; [|done]].
  - apply (f_equal length) in E. unfold numbered in E. rewrite length_app, length_imap in E. lia.
  - by rewrite (inv_writer _ _ _ Hi).
Qed.

(** ** Tickets nobody will settle *)

(** No flush is under way for the ticket of that number, and it is not settled. *)
Definition abandoned (n : nat) s : Prop :=
  (∃ tk, (n, tk) ∈ queue (tickets s) ∧ unsettled tk) ∧ ∀ p, p ∈ under_way s → p.2 ≠ n.

Lemma abandoned_step w0 s hist e s' n : inv w0 s hist → moves s s' e → abandoned n s → abandoned n s'.
Proof.
  intros Hi Hm [(tk & Htk & Hun) Hp]. destruct (inv_numbers _ _ _ Hi) as [Hnd Hlt]. unfold abandoned.
  destruct Hm as [e tk0 E Hu|e E Hu|p r a tk1 tk' b Hin E E' Ha Hb Hr Hu|gone E Hg Hu].
  - split; [exists tk; split; [rewrite E; set_solver|done]|]. specialize (Hlt _ Htk). cbn in Hlt. destruct Hu as [[-> _]| ->]; [done|].
    intros p [->|Hin]%elem_of_cons; [cbn; lia|by apply Hp].
  - rewrite E, Hu. split; [by exists tk|done].
  - split; [|rewrite Hu; intros p' [Hin' _]%list_elem_of_difference; by apply Hp]. exists tk. split; [|done]. specialize (Hp p Hin).
    rewrite E in Htk. rewrite E'. set_solver.
  - rewrite Hu. split; [|done]. exists tk. split; [|done]. rewrite E in Htk. apply elem_of_app in Htk as [Htk|]; [|done].
    rewrite Forall_forall in Hg. specialize (Hg _ Htk). apply unsettled_publish in Hun. cbn in Hg. congruence.
Qed.

Lemma abandoned_run w0 s hist es s' n : answers → inv w0 s hist → run s es s' → abandoned n s → abandoned n s'.
Proof.
  intros Hans Hi Hr. revert hist Hi. induction Hr as [s|s e s1 es s2 He E Hr IH]; intros hist Hi Ha; [done|].
  destruct (step_inv w0 s hist e Hans Hi He) as (s1' & gone & E' & Hi1 & Hm & _). rewrite E in E'. injection E' as <-. exact (IH _ Hi1 (abandoned_step _ _ _ _ _ _ Hi Hm Ha)).
Qed.

Lemma abandons w0 s hist s1 p : inv w0 s hist → p ∈ under_way s → step s (Finish p (Ok None)) = Ok s1 → inv w0 s1 hist ∧ abandoned p.2 s1.
Proof.
  intros Hi Hp E. destruct (settle_spec w0 s hist p (Ok None) Hi Hp I) as (q & a & tk & tk' & b & E1 & Eq & Eq' & _ & Hun & Ha & Hb & _ & Hi1).
  cbn [step] in E. rewrite E1, bind_Ok_l in E. simplify_eq. split; [done|].
  split; [exists tk'; split; [cbn; rewrite Eq'; set_solver|by apply Hun]|]. intros p' [Hin Hne]%list_elem_of_difference E.
  destruct (inv_under_way _ _ _ Hi p Hp) as [H1 _], (inv_under_way _ _ _ Hi p' Hin) as [H2 _]. apply Hne, list_elem_of_singleton.
  destruct p, p'; cbn in *; congruence.
Qed.

(** ** Tickets that will be settled *)

Definition attended s : Prop := ∀ n tk, (n, tk) ∈ queue (tickets s) → unsettled tk → ∃ p, p ∈ under_way s ∧ p.2 = n.
Definition ends_with_segment e : Prop := match e with Finish _ (Ok None) => False | _ => True end.

Lemma attended_step w0 s hist e s' : inv w0 s hist → moves s s' e → ends_with_segment e → attended s → attended s'.
Proof.
  intros Hi Hm He Ha n tk. unfold attended in Ha. destruct Hm as [e tk0 E Hu|e E Hu|p r a tk1 tk' b Hin E E' Hna Hnb Hr Hu|gone E Hg Hu].
  - rewrite E. intros [Htk|Htk]%elem_of_app Hun.
    + destruct (Ha n tk Htk Hun) as (p & Hp & En). exists p. split; [|done]. destruct Hu as [[-> _]| ->]; set_solver.
    + apply list_elem_of_singleton in Htk. simplify_eq. destruct Hu as [[_ ?]| ->]; [done|]. eexists. split; [left|done].
  - rewrite E, Hu. apply Ha.
  - rewrite E'. intros Htk Hun. assert (n ≠ p.2) as Hne.
    { intros ->. apply elem_of_app in Htk as [Htk|Htk]; [apply Hna; by eapply list_elem_of_fmap_2'|].
      apply elem_of_cons in Htk as [Htk|Htk]; [|apply Hnb; by eapply list_elem_of_fmap_2']. simplify_eq. apply Hr in Hun as ->. done. }
    destruct (Ha n tk) as (p' & Hp' & En); [rewrite E; set_solver|done|]. exists p'. split; [|done]. rewrite Hu. apply list_elem_of_difference.
    split; [done|]. intros ->%list_elem_of_singleton. congruence.
  - rewrite Hu. intros Htk Hun. apply (Ha n tk); [|done]. rewrite E. set_solver.
Qed.

Lemma attended_run w0 s hist es s' : answers → inv w0 s hist → run s es s' → Forall ends_with_segment es → attended s → attended s'.
Proof.
  intros Hans Hi Hr. revert hist Hi. induction Hr as [s|s e s1 es s2 He E Hr IH]; intros hist Hi Hes Ha; [done|]. apply Forall_cons in Hes as [He' Hes].
  destruct (step_inv w0 s hist e Hans Hi He) as (s1' & gone & E' & Hi1 & Hm & _). rewrite E in E'. injection E' as <-. exact (IH _ Hi1 Hes (attended_step _ _ _ _ _ Hi Hm He' Ha)).
Qed.

(** A queue of settled tickets is empty after as many purges as it has tickets. *)
Lemma drains w0 n : answers → ∀ s hist, inv w0 s hist → Forall (fun x => can_publish x.2 = true) (queue (tickets s)) → (length (queue (tickets s)) ≤ n)%nat →
  ∃ s' hist', run s (replicate n Purge) s' ∧ queue (tickets s') = [] ∧ inv w0 s' hist'.
Proof.
  intros Hans. induction n as [|n IH]; intros s hist Hi Hs Hn; cbn [replicate].
  { exists s, hist. split; [constructor|]. split; [|done]. by destruct (queue (tickets s)); cbn in Hn; [|lia]. }
  destruct (purge_spec w0 s hist Hans Hi) as (s1 & gone & E & Eq & _ & Hi1 & Hgone). pose proof Hs as Hs0. rewrite Eq in Hs, Hn. apply Forall_app in Hs as [_ Hs].
  rewrite length_app in Hn. destruct (IH s1 (hist ++ gone)) as (s2 & hist' & Hr & Hq & Hi2); [done|done| |].
  { destruct (queue (tickets s)) as [|x l] eqn:El; [by destruct gone, (queue (tickets s1)); cbn in *; (lia || done)|].
    assert (gone ≠ []) by (apply (Hgone x); [done|]; by apply Forall_cons in Hs0 as [? _]).
    destruct gone; [done|]. cbn in Hn. lia. }
  exists s2, hist'. split; [|done]. by eapply run_cons; [|exact E|].
Qed.
End queue.

(** * The promises *)

(** C29. Whatever the interleaving of flushes, deletions and purges, as long as the
    deque has room for another ticket (10000 of them), the flushes return and the writer
    answers (with success or an error): no step panics or follows a dangling pointer,
    and the ticket count is the length of the queue.  Let the ledger be the list,
    computed from the events alone, of the deletions and started flushes in the order
    they were asked for, each flush with its updates and, once it has ended, with its
    segment or its error.  Then for some [n] the index writer is exactly as after being
    told, in that order and once each, of the first [n] entries of the ledger (the
    segment with its updates, or the updates alone for deletions and failed flushes,
    nothing where there are no updates), all of them ended with a segment or an error, and
    the queue holds the tickets of exactly the remaining entries, in that order. *)
Theorem flush_queue_publishes_in_order {F Seg W : Type} {HF : FrozenUpdates F} {HW : IndexWriter W F Seg} (w0 : W) (es : list event) (s : System F Seg W) :
  answers (HW := HW) → run (start w0) es s →
  (∀ e, enabled s e → ∃ s', step s e = Ok s') ∧ ticket_count (tickets s) = vlen (queue (tickets s)) ∧
  ∃ n, (n ≤ length (ledger es))%nat ∧ writer s = foldl tell w0 (take n (ledger es)) ∧
    Forall (fun x => concluded x = true) (take n (ledger es)) ∧ queue (tickets s) = drop n (numbered (ledger es)).
Proof.
  intros Hans Hr. destruct (run_ledger w0 es s Hans Hr) as (n & Hi & Hn & Hw & Hc & Hq & _). split; [|split].
  - intros e He. destruct (step_inv w0 s _ e Hans Hi He) as (s' & _ & E & _). by exists s'.
  - apply (inv_count _ _ _ Hi).
  - exists n. by split_and!.
Qed.

(** C30. The queue drains: when every flush that was started has ended, with a segment
    or with an error, as many purges as there are tickets empty the queue, whatever
    the writer answers, and no change is pending in it. *)
Theorem flush_queue_drains {F Seg W : Type} {HF : FrozenUpdates F} {HW : IndexWriter W F Seg} (w0 : W) (es : list event) (s : System F Seg W) :
  answers (HW := HW) → run (start w0) es s → Forall ends_with_segment es → under_way s = [] →
  ∃ s', run s (replicate (length (queue (tickets s))) Purge) s' ∧ queue (tickets s') = [] ∧ has_tickets (tickets s') = false.
Proof.
  intros Hans Hr Hes Hu. destruct (run_inv w0 _ [] es s Hans (inv_start w0) Hr) as [hist Hi].
  assert (attended s) as Ha. { apply (attended_run w0 _ [] es s Hans (inv_start w0) Hr Hes). intros n tk Hin. by apply not_elem_of_nil in Hin. }
  destruct (drains w0 (length (queue (tickets s))) Hans s hist Hi) as (s' & hist' & Hr' & Hq & Hi'); [|done|].
  { apply Forall_forall. intros [n tk] Hin. cbn. destruct (can_publish tk) eqn:E; [done|]. apply unsettled_publish in E.
    destruct (Ha n tk Hin E) as (p & Hp & _). rewrite Hu in Hp. by apply not_elem_of_nil in Hp. }
  exists s'. split; [done|]. split; [done|]. unfold has_tickets. destruct (inv_count _ _ _ Hi') as [-> _]. by rewrite Hq.
Qed.

(** C31. A flush that ends without a segment and without an error, as the flush of an
    aborted writer does, leaves its ticket in the queue for good (as long as the deque has room, the
    flushes return and the writer answers).  Whatever happens afterwards, the index writer has been told only
    of a part of the ledger that lies before the entry of this flush, so nothing
    behind it is ever published; its ticket and those of all the entries behind it are
    in the queue, and the queue reports pending tickets. *)
Theorem empty_flush_blocks_queue {F Seg W : Type} {HF : FrozenUpdates F} {HW : IndexWriter W F Seg} (w0 : W) (es es' : list event)
    (s s1 s2 : System F Seg W) (p : pointer) :
  answers (HW := HW) → run (start w0) es s → p ∈ under_way s → step s (Finish p (Ok None)) = Ok s1 → run s1 es' s2 →
  let led := ledger (es ++ Finish p (Ok None) :: es') in
  (∃ n, (n ≤ p.2 < length led)%nat ∧ writer s2 = foldl tell w0 (take n led) ∧ queue (tickets s2) = drop n (numbered led)) ∧
  has_tickets (tickets s2) = true.
Proof.
  intros Hans Hr Hp E Hr' led. destruct (run_inv w0 _ [] es s Hans (inv_start w0) Hr) as [hist Hi].
  pose proof (abandons w0 s hist s1 p Hi Hp E) as [Hi1 Hab]. destruct (abandoned_run w0 _ _ _ _ _ Hans Hi1 Hr' Hab) as [(tk2 & Hin & Hun) _].
  assert (run (start w0) (es ++ Finish p (Ok None) :: es') s2) as Hr2 by (eapply run_app; [exact Hr|]; by eapply run_cons).
  destruct (run_ledger w0 _ s2 Hans Hr2) as (n & Hi2 & Hn & Hw & Hc & Hq & Hpu). fold led in Hi2, Hn, Hw, Hc, Hq, Hpu. split.
  - exists n. split; [|done]. split; [|rewrite <- Hpu; by apply (proj2 (inv_numbers _ _ _ Hi2) _ Hin)]. rewrite Hq in Hin. by eapply drop_numbered.
  - unfold has_tickets. destruct (inv_count _ _ _ Hi2) as [-> _].
    destruct (queue (tickets s2)); [by apply not_elem_of_nil in Hin|]. rewrite vlen_cons. pose proof (vlen_nonneg l). apply Z.ltb_lt. lia.
Qed.

(** * A run *)

(** Updates are numbers, and a writer keeps the list of what it was told. *)
#[export] Instance Z_updates : FrozenUpdates Z := fun f => negb (f =? 0).
#[export] Instance log_writer : IndexWriter (list Z) Z Z := {
  publish_flushed_segment w seg f := (w ++ [seg; default 0 f], Ok tt);
  publish_frozen_updates w f := (w ++ [f], if f <? 0 then Err IOError else Ok tt);
}.

Lemma log_answers : answers (HW := log_writer).
Proof.
  intros w [g|sg] Hf; cbn in *; [destruct Hf as [f ->]|destruct Hf as [f ->]; destruct (segment sg)]; cbn; try done;
    destruct (any f); cbn; try done; by destruct (f <? 0).
Qed.

(** Two flushes, the second ending first, with deletes in between. *)
Definition two_flushes : list (event (F := Z) (Seg := Z)) :=
  [Start (Ok 5); Deletes (-3); Start (Ok 6); Finish (0, 2)%nat (Ok (Some 70)); Purge; Finish (0, 0)%nat (Err IOError)].

Lemma flush_queue_publishes_in_order_witness : ∃ s, run (start []) two_flushes s ∧ ticket_count (tickets s) = vlen (queue (tickets s)).
Proof.
  destruct (execute (start []) two_flushes) as [s|] eqn:E; [|vm_compute in E; discriminate E]. pose proof (execute_run _ _ _ E) as Hr.
  exists s. split; [exact Hr|]. exact (proj1 (proj2 (flush_queue_publishes_in_order [] two_flushes s log_answers Hr))).
Defined.

Lemma flush_queue_drains_witness : ∃ s s', run (start []) two_flushes s ∧ run s (replicate 3 Purge) s' ∧ queue (tickets s') = [].
Proof.
  destruct (execute (start []) two_flushes) as [s|] eqn:E; [|vm_compute in E; discriminate E]. pose proof (execute_run _ _ _ E) as Hr.
  destruct (flush_queue_drains [] two_flushes s log_answers Hr) as (s' & Hr' & Hq & _).
  - repeat constructor.
  - vm_compute in E. injection E as <-. reflexivity.
  - exists s, s'. split; [exact Hr|]. split; [|exact Hq]. vm_compute in E. injection E as <-. exact Hr'.
Defined.

Lemma empty_flush_blocks_queue_witness : ∃ s, run (start []) [Start (Ok 5); Finish (0, 0)%nat (Ok None); Deletes 4; Purge; Purge] s ∧ has_tickets (tickets s) = true.
Proof.
  destruct (execute (start []) [Start (Ok 5)]) as [s0|] eqn:E0; [|vm_compute in E0; discriminate E0].
  destruct (step s0 (Finish (0, 0)%nat (Ok None))) as [s1| | |] eqn:E1; [|vm_compute in E0; injection E0 as <-; vm_compute in E1; discriminate E1..].
  destruct (execute s1 [Deletes 4; Purge; Purge]) as [s2|] eqn:E2;
    [|vm_compute in E0; injection E0 as <-; vm_compute in E1; injection E1 as <-; vm_compute in E2; discriminate E2].
  assert ((0, 0)%nat ∈ under_way s0) as Hp by (vm_compute in E0; injection E0 as <-; left).
  exists s2. split.
  - pose proof (execute_run _ _ _ E0) as Hr0. inversion Hr0 as [|? ? ? ? ? He Es Hr0']; subst. inversion Hr0'; subst.
    eapply run_cons; [exact He|exact Es|]. eapply run_cons; [split; [exact Hp|exact I]|exact E1|]. exact (execute_run _ _ _ E2).
  - exact (proj2 (empty_flush_blocks_queue [] _ _ s0 s1 s2 _ log_answers (execute_run _ _ _ E0) Hp E1 (execute_run _ _ _ E2))).
Defined.
