(* ===== verification/Mmap.v ===== *)
(** Memory-mapped input: src/core/store/io/mmap_index_input.rs, and the trait
    [RandomAccessInput] of random_access_input.rs.

    The mapping of a file is its bytes; mapping it is left to the operating
    system.  A view of the mapping is an offset and a length, the slice it
    denotes is the list of its bytes. *)

From S2P Require Import Prelude DataIO DataIOFacts.
Open Scope Z_scope.

(** * RandomAccessInput *)

Class RandomAccessInput (R : Type) : Type := {
  read_byte_at : R → Z → result Z;
  read_short_at : R → Z → result Z;
  read_int_at : R → Z → result Z;
  read_long_at : R → Z → result Z;
}.

(** What it promises: [readable r l] says that [r] gives absolute access to the
    bytes [l], from which integers are read big-endian. *)
Class RandomReads (R : Type) `{RandomAccessInput R} : Type := {
  readable : R → list Z → Prop;
  readable_bytes : ∀ r l, readable r l → Forall (is_u 8) l;
  readable_len : ∀ r l, readable r l → vlen l < 2 ^ 63;
  read_byte_at_law : ∀ r l p, readable r l → 0 ≤ p → p + 1 ≤ vlen l →
    read_byte_at r p = Ok (be_value 8 (take 1 (drop (Z.to_nat p) l)));
  read_short_at_law : ∀ r l p, readable r l → 0 ≤ p → p + 2 ≤ vlen l →
    read_short_at r p = Ok (as_i16 (be_value 8 (take 2 (drop (Z.to_nat p) l))));
  read_int_at_law : ∀ r l p, readable r l → 0 ≤ p → p + 4 ≤ vlen l →
    read_int_at r p = Ok (as_i32 (be_value 8 (take 4 (drop (Z.to_nat p) l))));
  read_long_at_law : ∀ r l p, readable r l → 0 ≤ p → p + 8 ≤ vlen l →
    read_long_at r p = Ok (as_i64 (be_value 8 (take 8 (drop (Z.to_nat p) l))));
}.

(** * ReadOnlySource *)

Module ReadOnlySource.
Record t : Type := mk { map : list Z; offset : Z; len : Z }.

Definition from (mmap : list Z) : t := mk mmap 0 (vlen mmap).
Definition range (s : t) (off length : Z) : result t :=
  if len s <? as_u64 (off + length) then bail IllegalArgument
  else Ok (mk (map s) (as_u64 (offset s + off)) length).
Definition as_slice (s : t) : result (list Z) :=
  vslice (map s) (offset s) (as_u64 (offset s + len s)).
Definition slice (s : t) (from_offset to_offset : Z) : result t :=
  if to_offset <? from_offset then bail IllegalArgument
  else range s from_offset (to_offset - from_offset).
Definition slice_from (s : t) (from_offset : Z) : result t := slice s from_offset (len s).
Definition slice_to (s : t) (to_offset : Z) : result t := slice s 0 to_offset.
Definition split (s : t) (addr : Z) : result (t * t) :=
  left_ ← slice s 0 addr; right_ ← slice_from s addr; Ok (left_, right_).
End ReadOnlySource.

(** * MmapIndexInput *)

Module MmapIndexInput.
(** The description, for messages, is left out. *)
Record t : Type := mk { source : ReadOnlySource.t; position : Z; bytes : list Z }.

Definition from (source : ReadOnlySource.t) : result t :=
  s ← ReadOnlySource.as_slice source; Ok (mk source 0 s).
(** [new] of the mapping of a file; an empty file is not mapped. *)
Definition new (mmap : option (list Z)) : result t :=
  match mmap with
  | Some m => from (ReadOnlySource.from m)
  | None => bail IllegalState
  end.

Definition len (i : t) : Z := vlen (bytes i).
Definition file_pointer (i : t) : Z := as_i64 (position i).
Definition seek (i : t) (pos : Z) : t := mk (source i) (as_u64 pos) (bytes i).

Definition slice_impl (i : t) (offset length : Z) : result t :=
  let total_len := len i in
  if (offset <? 0) || (length <? 0) || (total_len <? as_i64 (offset + length)) then bail IllegalArgument
  else
    s ← vslice (bytes i) offset (as_u64 (as_i64 (offset + length)));
    Ok (mk (source i) 0 s).
Definition random_access_slice : t → Z → Z → result t := slice_impl.

Definition check_random_access (i : t) (from length : Z) : result unit :=
  if len i <? as_u64 (from + length) then bail IllegalArgument else Ok tt.

(** ** DataInput *)

Definition read_byte_impl (i : t) : result (Z * t) :=
  b ← vget (bytes i) (position i); Ok (b, mk (source i) (position i + 1) (bytes i)).
Definition skip_bytes_impl (i : t) (count : Z) : result t :=
  if len i <? as_u64 (position i + count) then bail IoError
  else Ok (mk (source i) (position i + count) (bytes i)).
Definition read_impl (i : t) (n : Z) : result (list Z * t) :=
  let count := Z.min n (as_u64 (len i - position i)) in
  s ← vslice (bytes i) (position i) (as_u64 (position i + count));
  Ok (s, mk (source i) (position i + count) (bytes i)).
#[global] Instance data_input : DataInput t := {|
  read := read_impl; read_byte := read_byte_impl;
  read_bytes := default_read_bytes read_impl; skip_bytes := skip_bytes_impl |}.

(** ** RandomAccessInput: a read of the slice from the position on. *)

Definition read_at (n : Z) (rd : list Z → result (Z * list Z)) (i : t) (pos : Z) : result Z :=
  _ ← check_random_access i pos n;
  s ← vslice (bytes i) pos (len i);
  '(v, _) ← rd s; Ok v.
#[global] Instance random_access : RandomAccessInput t := {|
  read_byte_at i pos := _ ← check_random_access i pos 1; vget (bytes i) pos;
  read_short_at := read_at 2 read_short;
  read_int_at := read_at 4 read_int;
  read_long_at := read_at 8 read_long |}.
End MmapIndexInput.

(** * The promises hold *)

Section lawful.
Import MmapIndexInput.

Lemma as_u64_id z : 0 ≤ z < 2 ^ 63 → as_u64 z = z.
Proof. intros. apply as_u_id. unfold is_u. lia. Qed.

(** A view of fewer than [2^63] bytes, as every slice of Rust has. *)
Definition view_wf (i : t) : Prop := len i < 2 ^ 63 ∧ 0 ≤ position i ≤ len i.

#[global, refine] Instance mmap_lawful : LawfulInput t := {|
  remains i l := view_wf i ∧ l = drop (Z.to_nat (position i)) (bytes i) |}.
Proof.
  - intros [src p bs] l n [[Hl Hp] ->] Hn. unfold len in *. cbn in *. rewrite vlen_drop in Hn by lia.
    unfold read_impl, len. cbn. rewrite as_u64_id, Z.min_l, as_u64_id, vslice_in by lia. cbn.
    replace (p + n - p) with n by lia. eexists. split; [done|]. cbn. split; [unfold view_wf, len; cbn; lia|].
    rewrite drop_drop. f_equal. lia.
  - intros [src p bs] b l [[Hl Hp] E]. unfold len in *. cbn in *. unfold read_byte_impl. cbn.
    assert (bs !! Z.to_nat p = Some b) as Hb by (rewrite <- (Nat.add_0_r (Z.to_nat p)), <- lookup_drop, <- E; done).
    assert (vget bs p = Ok b) as -> by (apply vget_Ok; split; [lia|done]). apply lookup_lt_Some in Hb. cbn.
    eexists. split; [done|]. cbn. unfold view_wf, len, vlen in *. cbn. split; [lia|].
    replace (Z.to_nat (p + 1)) with (Z.to_nat p + 1)%nat by lia. by rewrite <- drop_drop, <- E.
  - intros [src p bs] l buf off n [[Hl Hp] ->] Hoff Hn Hbuf. unfold len in *. cbn in *. rewrite vlen_drop in Hn by lia.
    unfold default_read_bytes, read_impl, len. cbn. rewrite (proj2 (Z.ltb_ge _ _)) by lia.
    rewrite as_u64_id, Z.min_l, as_u64_id, vslice_in by lia. cbn. replace (p + n - p) with n by lia.
    assert (vlen (take (Z.to_nat n) (drop (Z.to_nat p) bs)) = n) as Hlen by (apply vlen_take; rewrite vlen_drop; lia).
    rewrite Hlen, Z.eqb_refl. cbn. rewrite vblit_in by lia. rewrite <- to_nat_vlen, Hlen. cbn. eexists. split; [done|].
    cbn. split; [unfold view_wf, len; cbn; lia|]. rewrite drop_drop. f_equal. lia.
  - intros [src p bs] l n [[Hl Hp] ->] Hn. unfold len in *. cbn in *. rewrite vlen_drop in Hn by lia.
    unfold skip_bytes_impl, len. cbn. rewrite as_u64_id, (proj2 (Z.ltb_ge _ _)) by lia. eexists. split; [done|].
    cbn. split; [unfold view_wf, len; cbn; lia|]. rewrite drop_drop. f_equal. lia.
Defined.

(** The reads of the slice: a fixed number of bytes from its start. *)
Lemma read_at_spec (n : nat) (rd : list Z → result (Z * list Z)) (f : Z → Z) i p :
  (∀ s, Z.of_nat n ≤ vlen s → rd s = Ok (f (be_value 8 (take n s)), drop n s)) →
  len i < 2 ^ 63 → 0 ≤ p → p + Z.of_nat n ≤ len i →
  read_at (Z.of_nat n) rd i p = Ok (f (be_value 8 (take n (drop (Z.to_nat p) (bytes i))))).
Proof.
  intros Hrd Hl Hp Hn. unfold read_at, check_random_access. rewrite as_u64_id, (proj2 (Z.ltb_ge _ _)) by lia. cbn [mbind result_bind].
  unfold len in *. rewrite vslice_in by lia. cbn [mbind result_bind].
  rewrite (take_ge (drop _ _)) by (rewrite length_drop; unfold vlen in *; lia).
  rewrite Hrd by (rewrite vlen_drop; lia). done.
Qed.

Lemma slice_read_exact (n : nat) (s : list Z) : (0 < n)%nat → Z.of_nat n ≤ vlen s →
  read_exact s (Z.of_nat n) = Ok (take n s, drop n s).
Proof.
  intros Hn Hl. unfold read_exact. rewrite Nat2Z.id. destruct n as [|n]; [lia|]. cbn [read_exact_fuel].
  rewrite (proj2 (Z.leb_gt _ _)) by lia. cbn. unfold SliceInput.read_impl. cbn [mbind result_bind]. rewrite Nat2Z.id.
  destruct s as [|x s]; [unfold vlen in Hl; cbn in Hl; lia|]. cbn [take drop].
  assert (vlen (x :: take n s) = Z.of_nat (S n)) as ->.
  { unfold vlen in *. cbn in *. rewrite length_take. lia. }
  rewrite Z.sub_diag. destruct n; cbn; by rewrite ?app_nil_r.
Qed.

#[global, refine] Instance mmap_reads : RandomReads t := {|
  readable i l := bytes i = l ∧ Forall (is_u 8) l ∧ vlen l < 2 ^ 63 |}.
Proof.
  - by intros r l (_ & H & _).
  - by intros r l (_ & _ & H).
  - intros i l p (<- & Hb & Hl) Hp Hn. cbn. unfold check_random_access, len.
    rewrite as_u64_id, (proj2 (Z.ltb_ge _ _)) by lia. cbn [mbind result_bind].
    destruct (vget_in (bytes i) p) as (x & -> & Hx); [lia|]. f_equal.
    rewrite <- (take_drop_middle (bytes i) (Z.to_nat p) x Hx) at 1.
    rewrite drop_app_length' by (rewrite length_take; apply lookup_lt_Some in Hx; lia). done.
  - intros i l p (<- & Hb & Hl) Hp Hn. apply (read_at_spec 2); try done. intros s Hs.
    unfold read_short. by replace (read_exact s 2) with (Ok (take 2 s, drop 2 s) : result (list Z * list Z)) by (symmetry; apply (slice_read_exact 2); lia).
  - intros i l p (<- & Hb & Hl) Hp Hn. apply (read_at_spec 4); try done. intros s Hs.
    unfold read_int. by replace (read_exact s 4) with (Ok (take 4 s, drop 4 s) : result (list Z * list Z)) by (symmetry; apply (slice_read_exact 4); lia).
  - intros i l p (<- & Hb & Hl) Hp Hn. apply (read_at_spec 8); try done. intros s Hs.
    unfold read_long. by replace (read_exact s 8) with (Ok (take 8 s, drop 8 s) : result (list Z * list Z)) by (symmetry; apply (slice_read_exact 8); lia).
Defined.
End lawful.
