(* ===== verification/Direct.v ===== *)
(** Packed integers on a stream with random access: [DirectWriter] and
    [DirectReader] of src/core/util/packed, and the monotonic sequences built on
    them ([DirectMonotonicWriter], [DirectMonotonicReader]). *)

From S2P Require Import Prelude Float32 DataIO Numeric PackedBulk PackedMutable Mmap.
Open Scope Z_scope.

(** The [IndexOutput] of index_output.rs: a [DataOutput] that knows its position. *)
Class IndexOutput (Out : Type) `{Write Out} : Type := file_pointer : Out → Z.

(** [BulkOperation::compute_iterations]: the rounds of a buffer of [ram_budget]
    bytes, or as many as the values need. *)
Definition compute_iterations (op : BulkOperation.t) (value_count ram_budget : Z) : Z :=
  let bvc := BulkOperation.byte_value_count op in
  let bbc := BulkOperation.byte_block_count op in
  let iterations := ram_budget / (bbc + 8 * bvc) in
  if iterations =? 0 then 1
  else if as_u64 value_count <=? (iterations - 1) * bvc then
    f32_as_i32 (f32_ceil (f32_div (f32_of_Z value_count) (f32_of_Z bvc)))
  else as_i32 iterations.

(** * DirectWriter *)

Module DirectWriter.
Definition SUPPORTED_BITS_PER_VALUE : list Z := [1; 2; 4; 8; 12; 16; 20; 24; 28; 32; 40; 48; 56; 64].

(** Every round halves [high - low]. *)
Fixpoint search_loop (fuel : nat) (a : list Z) (low high key : Z) : result Z :=
  if low <=? high then
    match fuel with
    | O => Diverge
    | S f =>
      let mid := unsigned_shift 32 (as_i32 (low + high)) 1 in
      mid_val ← vget a (as_u64 mid);
      if mid_val <? key then search_loop f a (mid + 1) high key
      else if key <? mid_val then search_loop f a low (mid - 1) key
      else Ok mid
    end
  else Ok (- (low + 1)).
Definition binary_search0 (a : list Z) (from to key : Z) : result Z :=
  search_loop (Z.to_nat (to - from)) a from (to - 1) key.

Definition round_bits (bit_required : Z) : result Z :=
  index ← binary_search0 SUPPORTED_BITS_PER_VALUE 0 (vlen SUPPORTED_BITS_PER_VALUE) bit_required;
  if index <? 0 then vget SUPPORTED_BITS_PER_VALUE (as_u64 (- index - 1)) else Ok bit_required.
Definition bits_required (max_value : Z) : result Z := round_bits (as_i32 (Numeric.bits_required 64 max_value)).
Definition unsigned_bits_required (max_value : Z) : result Z := round_bits (as_i32 (Numeric.bits_required 64 max_value)).

Record t (Out : Type) : Type := mk {
  bits_per_value : Z;
  num_values : Z;
  output : Out;
  count : Z;
  off : Z;
  finished : bool;
  next_blocks : list Z;
  next_values : list Z;
  encoder : BulkOperation.t;
  iterations : Z;
}.
Arguments mk {Out}.
Arguments bits_per_value {Out}.
Arguments num_values {Out}.
Arguments output {Out}.
Arguments count {Out}.
Arguments off {Out}.
Arguments finished {Out}.
Arguments next_blocks {Out}.
Arguments next_values {Out}.
Arguments encoder {Out}.
Arguments iterations {Out}.

Section writer.
Context {Out : Type} `{Write Out}.

Definition new (output : Out) (num_values bits_per_value : Z) : result (t Out) :=
  encoder ← BulkOperation.bulk_operation_of Packed (as_u64 bits_per_value);
  let iterations := as_u64 (compute_iterations encoder (Z.min num_values (2 ^ 31 - 1)) DEFAULT_BUFFER_SIZE) in
  Ok (mk bits_per_value (as_u64 num_values) output 0 0 false
        (replicate (Z.to_nat (iterations * BulkOperation.byte_block_count encoder)) 0)
        (replicate (Z.to_nat (iterations * BulkOperation.byte_value_count encoder)) 0)
        encoder iterations).

Definition get_instance (output : Out) (num_values bits_per_value : Z) : result (t Out) :=
  found ← binary_search0 SUPPORTED_BITS_PER_VALUE 0 (vlen SUPPORTED_BITS_PER_VALUE) bits_per_value;
  if found <? 0 then bail RuntimeError else new output num_values bits_per_value.

Definition flush (w : t Out) : result (t Out) :=
  blocks ← BulkOperation.encode_long_to_byte (encoder w) (next_values w) (next_blocks w) (iterations w);
  let block_count := Formats.byte_count Packed (as_i32 (off w)) (bits_per_value w) in
  output ← write_bytes (output w) blocks 0 (as_u64 block_count);
  Ok (mk (bits_per_value w) (num_values w) output (count w) 0 (finished w) blocks
        (map (fun _ => 0) (next_values w)) (encoder w) (iterations w)).

Definition add (w : t Out) (l : Z) : result (t Out) :=
  if num_values w <=? count w then bail RuntimeError
  else
    vs ← vset (next_values w) (off w) l;
    let w := mk (bits_per_value w) (num_values w) (output w) (count w) (off w + 1) (finished w)
               (next_blocks w) vs (encoder w) (iterations w) in
    w ← (if off w =? vlen (next_values w) then flush w else Ok w);
    Ok (mk (bits_per_value w) (num_values w) (output w) (count w + 1) (off w) (finished w)
          (next_blocks w) (next_values w) (encoder w) (iterations w)).

Definition finish (w : t Out) : result (t Out) :=
  if negb (count w =? num_values w) then bail RuntimeError
  else
    w ← flush w;
    out ← for_range 0 3 (fun _ out => write_byte out 0) (output w);
    Ok (mk (bits_per_value w) (num_values w) out (count w) (off w) true
          (next_blocks w) (next_values w) (encoder w) (iterations w)).
End writer.
End DirectWriter.

(** * DirectReader *)

Module DirectReader.
(** [DirectPackedReaderEnum]: a reader per width, each with the input and the
    offset of the values in it. *)
Inductive width : Type :=
  | Bit1 | Bit2 | Bit4 | Bit8 | Bit12 | Bit16 | Bit20 | Bit24 | Bit28 | Bit32 | Bit40 | Bit48 | Bit56 | Bit64.
Record t (R : Type) : Type := mk { variant : width; random_access_input : R; offset : Z }.
Arguments mk {R}.
Arguments variant {R}.
Arguments random_access_input {R}.
Arguments offset {R}.

Section reader.
Context {R : Type} `{RandomAccessInput R}.

Definition get_instance (slice : R) (bits_per_value offset : Z) : result (t R) :=
  if bits_per_value =? 1 then Ok (mk Bit1 slice offset)
  else if bits_per_value =? 2 then Ok (mk Bit2 slice offset)
  else if bits_per_value =? 4 then Ok (mk Bit4 slice offset)
  else if bits_per_value =? 8 then Ok (mk Bit8 slice offset)
  else if bits_per_value =? 12 then Ok (mk Bit12 slice offset)
  else if bits_per_value =? 16 then Ok (mk Bit16 slice offset)
  else if bits_per_value =? 20 then Ok (mk Bit20 slice offset)
  else if bits_per_value =? 24 then Ok (mk Bit24 slice offset)
  else if bits_per_value =? 28 then Ok (mk Bit28 slice offset)
  else if bits_per_value =? 32 then Ok (mk Bit32 slice offset)
  else if bits_per_value =? 40 then Ok (mk Bit40 slice offset)
  else if bits_per_value =? 48 then Ok (mk Bit48 slice offset)
  else if bits_per_value =? 56 then Ok (mk Bit56 slice offset)
  else if bits_per_value =? 64 then Ok (mk Bit64 slice offset)
  else bail IllegalArgument.

Context (r : t R) (index : Z).

(** [(self.offset + delta) as u64] *)
Definition at_ (delta : Z) : Z := as_u64 (offset r + delta).

Definition get64_1 : result Z :=
  if index <? 0 then bail IllegalArgument
  else
    let shift := 7 - Z.land (as_i32 index) 7 in
    b ← read_byte_at (random_access_input r) (at_ (Z.shiftr index 3));
    Ok (Z.land (Z.shiftr b shift) 1).
Definition get64_2 : result Z :=
  if index <? 0 then bail IllegalArgument
  else
    let shift := Z.shiftl (3 - Z.land (as_i32 index) 3) 1 in
    b ← read_byte_at (random_access_input r) (at_ (Z.shiftr index 2));
    Ok (Z.land (Z.shiftr b shift) 3).
(** An error of the input becomes a [RuntimeError]. *)
Definition get64_4 : result Z :=
  if index <? 0 then bail IllegalArgument
  else
    let shift := Z.shiftl (Z.land (index + 1) 1) 2 in
    match read_byte_at (random_access_input r) (at_ (Z.shiftr index 1)) with
    | Ok b => Ok (Z.land (Z.shiftr b shift) 15)
    | Err _ => bail RuntimeError
    | x => x
    end.
Definition get64_8 : result Z := read_byte_at (random_access_input r) (at_ index).
Definition get64_12 : result Z :=
  let delta := Z.shiftr (as_i64 (index * 3)) 1 in
  let shift := Z.shiftl (Z.land (index + 1) 1) 2 in
  w ← read_short_at (random_access_input r) (at_ delta);
  Ok (Z.land (shr_i w shift) 0xFFF).
Definition get64_16 : result Z :=
  w ← read_short_at (random_access_input r) (at_ (shl_i 64 index 1)); Ok (as_u16 w).
Definition get64_20 : result Z :=
  let delta := Z.shiftr (as_i64 (index * 5)) 1 in
  let shift := Z.shiftl (Z.land (index + 1) 1) 2 + 8 in
  dw ← read_int_at (random_access_input r) (at_ delta);
  Ok (Z.land (Z.shiftr (as_u32 dw) shift) 0xFFFFF).
Definition get64_24 : result Z :=
  v ← read_int_at (random_access_input r) (at_ (3 * index)); Ok (Z.shiftr (as_u32 v) 8).
Definition get64_28 : result Z :=
  let delta := Z.shiftr (as_i64 (index * 7)) 1 in
  let shift := Z.shiftl (Z.land (index + 1) 1) 2 in
  v ← read_int_at (random_access_input r) (at_ delta);
  Ok (Z.land (Z.shiftr (as_u32 v) shift) 0xFFFFFFF).
Definition get64_32 : result Z :=
  v ← read_int_at (random_access_input r) (at_ (shl_i 64 index 2)); Ok (as_u32 v).
Definition get64_40 : result Z :=
  w ← read_long_at (random_access_input r) (at_ (index * 5)); Ok (unsigned_shift 64 w 24).
Definition get64_48 : result Z :=
  v ← read_long_at (random_access_input r) (at_ (index * 6)); Ok (unsigned_shift 64 v 16).
Definition get64_56 : result Z :=
  v ← read_long_at (random_access_input r) (at_ (7 * index)); Ok (unsigned_shift 64 v 8).
Definition get64_64 : result Z :=
  read_long_at (random_access_input r) (at_ (shl_i 64 index 3)).

Definition get64 : result Z :=
  match variant r with
  | Bit1 => get64_1 | Bit2 => get64_2 | Bit4 => get64_4 | Bit8 => get64_8
  | Bit12 => get64_12 | Bit16 => get64_16 | Bit20 => get64_20 | Bit24 => get64_24
  | Bit28 => get64_28 | Bit32 => get64_32 | Bit40 => get64_40 | Bit48 => get64_48
  | Bit56 => get64_56 | Bit64 => get64_64
  end.
End reader.
(** [NumericDocValues::get] *)
Definition get {R} `{RandomAccessInput R} (r : t R) (doc_id : Z) : result Z := get64 r doc_id.
End DirectReader.
