(* ===== verification/DirectFacts.v ===== *)
(** [DirectReader] reads what [DirectWriter] writes: the packed values are one
    stream of bits, cut into bytes by the writer and read by the reader from the
    byte a value starts in. *)

From S2P Require Import Prelude Float32 DataIO DataIOFacts Numeric PackedBulk PackedBulkFacts PackedSingleFacts PackedMutable PackedArrayFacts Packed64Facts GrowableFacts Mmap Direct.
Open Scope Z_scope.

(** * Streams of bits *)

(** The bit at [p] of a list of [w]-bit digits, the high bits first. *)
Definition bits (w : Z) (l : list Z) (p : Z) : bool := Z.testbit (nthz l (p / w)) (w - 1 - p mod w).

Lemma bits_at w l p q r : p = w * q + r → 0 ≤ r < w → bits w l p = Z.testbit (nthz l q) (w - 1 - r).
Proof.
  intros -> Hr. unfold bits. rewrite <- (Z.div_unique (w * q + r) w q r) by lia.
  by rewrite <- (Z.mod_unique (w * q + r) w q r) by lia.
Qed.

Lemma bits_be_value w l p : 0 < w → Forall (is_u w) l → 0 ≤ p < w * vlen l →
  Z.testbit (be_value w l) (w * vlen l - 1 - p) = bits w l p.
Proof.
  intros Hw Hl Hp. pose proof (Z.div_mod p w ltac:(lia)) as E. pose proof (Z.mod_pos_bound p w ltac:(lia)).
  pose proof (Z.div_lt_upper_bound p w (vlen l) ltac:(lia) ltac:(lia)). pose proof (Z.div_pos p w ltac:(lia) ltac:(lia)).
  unfold bits. rewrite <- be_value_testbit by (done || lia). f_equal. lia.
Qed.

(** Two lists of digits of the same number are the same stream. *)
Lemma bits_regrouped v w l k : 0 < v → 0 < w → Forall (is_u v) l → Forall (is_u w) k → v * vlen l = w * vlen k →
  be_value v l = be_value w k → ∀ p, 0 ≤ p < v * vlen l → bits v l p = bits w k p.
Proof.
  intros Hv Hw Hl Hk Hlen E p Hp. rewrite <- bits_be_value by done. rewrite <- (bits_be_value w k) by (done || lia).
  by rewrite E, Hlen.
Qed.

Lemma bits_app w l k p : 0 < w → 0 ≤ p →
  bits w (l ++ k) p = if p <? w * vlen l then bits w l p else bits w k (p - w * vlen l).
Proof.
  intros Hw Hp. pose proof (Z.div_mod p w ltac:(lia)). pose proof (Z.mod_pos_bound p w ltac:(lia)).
  pose proof (Z.div_pos p w ltac:(lia) ltac:(lia)). pose proof (vlen_nonneg l). unfold bits at 1. rewrite nthz_app by done.
  destruct (Z.ltb_spec (p / w) (vlen l)), (Z.ltb_spec p (w * vlen l)); try nia; [done|].
  symmetry. apply bits_at; nia.
Qed.

Lemma bits_take w l n p : 0 < w → 0 ≤ p < w * n → bits w (take (Z.to_nat n) l) p = bits w l p.
Proof.
  intros Hw Hp. unfold bits. rewrite nthz_take; [done|].
  split; [apply Z.div_pos; lia|apply Z.div_lt_upper_bound; lia].
Qed.

(** * Reading integers at a byte *)

Section read.
Context (bs : list Z) (Hbs : Forall (is_u 8) bs).

(** The number of [m] bytes at [q]. *)
Definition word (q m : Z) : Z := be_value 8 (take (Z.to_nat m) (drop (Z.to_nat q) bs)).

Lemma word_bits q m t : 0 ≤ q → 0 ≤ m → q + m ≤ vlen bs → 0 ≤ t < 8 * m →
  Z.testbit (word q m) t = bits 8 bs (8 * q + 8 * m - 1 - t).
Proof using Hbs.
  intros Hq Hm Hl Ht. unfold word.
  assert (vlen (take (Z.to_nat m) (drop (Z.to_nat q) bs)) = m) as El by (apply vlen_take; rewrite vlen_drop; lia).
  replace t with (8 * vlen (take (Z.to_nat m) (drop (Z.to_nat q) bs)) - 1 - (8 * m - 1 - t)) at 1 by lia.
  rewrite bits_be_value; [|lia|by apply Forall_take, Forall_drop|lia].
  rewrite bits_take by lia. set (p := 8 * m - 1 - t). pose proof (Z.div_mod p 8 ltac:(lia)). pose proof (Z.mod_pos_bound p 8 ltac:(lia)).
  rewrite (bits_at 8 bs _ (q + p / 8) (p mod 8)) by lia. unfold bits. rewrite nthz_drop; [done|lia|apply Z.div_pos; lia].
Qed.

Lemma word_range q m : 0 ≤ q → 0 ≤ m → q + m ≤ vlen bs → is_u (8 * m) (word q m).
Proof using Hbs.
  intros Hq Hm Hl. unfold word.
  assert (vlen (take (Z.to_nat m) (drop (Z.to_nat q) bs)) = m) as El by (apply vlen_take; rewrite vlen_drop; lia).
  rewrite <- El at 1. apply be_value_bound; [lia|]. by apply Forall_take, Forall_drop.
Qed.

(** A value of [B] bits inside a word of [m] bytes. *)
Lemma word_value B q m sh b v : 1 ≤ B ≤ 64 → 0 ≤ q → q + m ≤ vlen bs → 0 ≤ sh → sh + B ≤ 8 * m →
  8 * q + 8 * m - sh = b + B → (∀ j, 0 ≤ j < B → bits 8 bs (b + (B - 1 - j)) = Z.testbit v j) → fits B v →
  Z.land (Z.shiftr (word q m) sh) (Z.ones B) = as_u64 v.
Proof using Hbs.
  intros HB Hq Hm Hsh Hfit8 Hpos Hbits Hf. apply Z.bits_inj'. intros j Hj.
  rewrite Z.land_spec, tb_shiftr, tb_ones, tb_as_u by lia. destruct (Z.ltb_spec j B).
  - rewrite word_bits by lia. rewrite (proj2 (Z.ltb_lt j 64)) by lia. rewrite andb_true_r. cbn [andb].
    rewrite <- Hbits by lia. f_equal. lia.
  - rewrite andb_false_r. destruct (Z.ltb_spec j 64); [|done]. cbn [andb]. symmetry. apply (fits_testbit B); done || lia.
Qed.
End read.

(** * The readers *)

Section readers.
Context {R : Type} `{HR : RandomReads R}.
Context (input : R) (l : list Z) (off : Z) (i : Z) (v : Z) (B : Z).
Hypothesis opened : readable input l.
Hypothesis index : 0 ≤ i < 2 ^ 31.
Hypothesis starts : 0 ≤ off.
(** The bytes of the values and three more. *)
Hypothesis room : off + ((i + 1) * B + 7) / 8 + 3 ≤ vlen l.
Hypothesis value : ∀ j, 0 ≤ j < B → bits 8 l (8 * off + i * B + (B - 1 - j)) = Z.testbit v j.
Hypothesis fitting : fits B v.

Lemma at_off (w : DirectReader.width) d : 0 ≤ d → off + d ≤ vlen l → DirectReader.at_ (DirectReader.mk w input off) d = off + d.
Proof using opened starts.
  intros Hd Hl. unfold DirectReader.at_. cbn. apply as_u64_id. pose proof (readable_len _ _ opened). lia.
Qed.

Lemma small_value : 1 ≤ B < 64 → as_u64 v = v.
Proof using fitting.
  intros HB. pose proof (fits_nonneg B v ltac:(lia) fitting). pose proof (Z.pow_le_mono_r 2 B 63 ltac:(lia) ltac:(lia)).
  apply as_u_id. unfold is_u. lia.
Qed.

(** The value, when a word of [m] bytes at [q] has it above its [sh] low bits. *)
Lemma from_word q m sh : 1 ≤ B ≤ 64 → 0 ≤ q → off + q + m ≤ vlen l → 0 ≤ sh → sh + B ≤ 8 * m → 8 * q + 8 * m - sh = (i + 1) * B →
  Z.land (Z.shiftr (word l (off + q) m) sh) (Z.ones B) = as_u64 v.
Proof using opened starts value fitting.
  intros HB Hq Hm Hsh H8 Hpos. apply (word_value l (readable_bytes _ _ opened) B (off + q) m sh (8 * off + i * B)); try done; lia.
Qed.

(** The forms in which the readers take the value out of the word. *)
Lemma signed_word w W sh : 1 ≤ w → 0 ≤ sh → 0 ≤ B → sh + B ≤ w →
  Z.land (Z.shiftr (as_i w W) sh) (Z.ones B) = Z.land (Z.shiftr W sh) (Z.ones B).
Proof using.
  intros Hw Hsh HB Hle. apply Z.bits_inj'. intros j Hj. rewrite !Z.land_spec, !tb_shiftr, !tb_ones by lia.
  destruct (Z.ltb_spec j B); [|by rewrite !andb_false_r]. by rewrite tb_as_i, (proj2 (Z.ltb_lt (j + sh) w)) by lia.
Qed.
Lemma unsigned_word w W : 1 ≤ w → is_u w W → as_u w (as_i w W) = W.
Proof using. intros Hw HW. rewrite as_u_as_i by done. by apply as_u_id. Qed.
Lemma top_word W sh : 0 ≤ sh → 0 ≤ B → is_u (sh + B) W → Z.land (Z.shiftr W sh) (Z.ones B) = Z.shiftr W sh.
Proof using.
  intros Hsh HB [HW1 HW2]. rewrite Z.land_ones by done. rewrite Z.shiftr_div_pow2 by done. apply Z.mod_small.
  rewrite Z.pow_add_r in HW2 by done. pose proof (pow2_pos sh Hsh). split; [apply Z.div_pos; lia|]. apply Z.div_lt_upper_bound; lia.
Qed.
Lemma shifted_word W sh : 1 ≤ sh → 0 ≤ B → sh + B = 64 → is_u 64 W →
  unsigned_shift 64 (as_i 64 W) sh = Z.land (Z.shiftr W sh) (Z.ones B).
Proof using.
  intros Hsh HB E HW. rewrite top_word by (done || lia || by rewrite E). unfold unsigned_shift. rewrite unsigned_word by (done || lia).
  apply as_i_id; [lia|]. destruct HW as [HW1 HW2]. rewrite Z.shiftr_div_pow2 by lia. pose proof (pow2_pos sh ltac:(lia)).
  pose proof (Z.div_pos W (2 ^ sh) ltac:(lia) ltac:(lia)). pose proof (Z.pow_le_mono_r 2 1 sh ltac:(lia) ltac:(lia)).
  assert (W / 2 ^ sh < 2 ^ 63) by (apply Z.div_lt_upper_bound; lia || nia). unfold is_i. lia.
Qed.

Lemma low_bits n : 0 ≤ n → Z.land i (Z.ones n) = i mod 2 ^ n ∧ Z.shiftr i n = i / 2 ^ n.
Proof using. intros Hn. split; [by apply Z.land_ones|by apply Z.shiftr_div_pow2]. Qed.

(** [offset] and [shift] of the readers whose values are whole half bytes. *)
Lemma half_bytes K : 0 ≤ K → K <= 7 → Z.shiftr (as_i64 (i * K)) 1 = i * K / 2 ∧
  Z.shiftl (Z.land (i + 1) 1) 2 = 4 * ((i + 1) mod 2).
Proof using index.
  intros HK HK7. rewrite as_i_id by (unfold is_i; lia || nia). rewrite Z.shiftr_div_pow2, Z.shiftl_mul_pow2 by lia.
  change 1 with (Z.ones 1) at 3. rewrite Z.land_ones by lia. change (2 ^ 1) with 2. change (2 ^ 2) with 4. split; [done|lia].
Qed.

Ltac arith K :=
  pose proof (Z.div_mod ((i + 1) * K + 7) 8 ltac:(lia)); pose proof (Z.mod_pos_bound ((i + 1) * K + 7) 8 ltac:(lia));
  repeat match goal with
  | |- context [?a / ?b] => lazymatch goal with _ : a = b * (a / b) + a mod b |- _ => fail | _ => idtac end;
      pose proof (Z.div_mod a b ltac:(lia)); pose proof (Z.mod_pos_bound a b ltac:(lia))
  | |- context [?a mod ?b] => lazymatch goal with _ : a = b * (a / b) + a mod b |- _ => fail | _ => idtac end;
      pose proof (Z.div_mod a b ltac:(lia)); pose proof (Z.mod_pos_bound a b ltac:(lia))
  end.
Ltac fetch law := rewrite at_off by lia; cbn [DirectReader.random_access_input]; erewrite law by (done || lia); cbn [mbind result_bind].

Lemma get64_1_spec : B = 1 → DirectReader.get64_1 (DirectReader.mk DirectReader.Bit1 input off) i = Ok v.
Proof using All.
  intros EB. rewrite EB in room. unfold DirectReader.get64_1. rewrite (proj2 (Z.ltb_ge i 0)), (as_i_id 32 i) by (unfold is_i; lia).
  destruct (low_bits 3 ltac:(lia)) as [E1 E2]. change (Z.ones 3) with 7 in E1. change (2 ^ 3) with 8 in *. rewrite E1, E2. arith 1.
  fetch read_byte_at_law. rewrite <- small_value by lia. rewrite <- (from_word (i / 8) 1 (7 - i mod 8)) by lia. by rewrite EB.
Qed.

Lemma get64_2_spec : B = 2 → DirectReader.get64_2 (DirectReader.mk DirectReader.Bit2 input off) i = Ok v.
Proof using All.
  intros EB. rewrite EB in room. unfold DirectReader.get64_2. rewrite (proj2 (Z.ltb_ge i 0)), (as_i_id 32 i) by (unfold is_i; lia).
  destruct (low_bits 2 ltac:(lia)) as [E1 E2]. change (Z.ones 2) with 3 in E1. change (2 ^ 2) with 4 in *. rewrite E1, E2.
  rewrite Z.shiftl_mul_pow2 by lia. arith 2. fetch read_byte_at_law. rewrite <- small_value by lia.
  rewrite <- (from_word (i / 4) 1 ((3 - i mod 4) * 2 ^ 1)) by lia. by rewrite EB.
Qed.

Lemma get64_4_spec : B = 4 → DirectReader.get64_4 (DirectReader.mk DirectReader.Bit4 input off) i = Ok v.
Proof using All.
  intros EB. rewrite EB in room. unfold DirectReader.get64_4. rewrite (proj2 (Z.ltb_ge i 0)) by lia.
  destruct (half_bytes 0 ltac:(lia) ltac:(lia)) as [_ ->]. destruct (low_bits 1 ltac:(lia)) as [_ E2]. change (2 ^ 1) with 2 in *. rewrite E2.
  arith 4. fetch read_byte_at_law. rewrite <- small_value by lia.
  rewrite <- (from_word (i / 2) 1 (4 * ((i + 1) mod 2))) by lia. by rewrite EB.
Qed.

Lemma get64_8_spec : B = 8 → DirectReader.get64_8 (DirectReader.mk DirectReader.Bit8 input off) i = Ok v.
Proof using All.
  intros EB. rewrite EB in room. unfold DirectReader.get64_8. arith 8. fetch read_byte_at_law. f_equal. change (word l (off + i) 1 = v).
  rewrite <- small_value by lia. rewrite <- (from_word i 1 0) by lia.
  rewrite top_word by (lia || (rewrite EB; apply (word_range l (readable_bytes _ _ opened)); lia)). by rewrite Z.shiftr_0_r.
Qed.

Lemma word_is q m : 0 ≤ q → 0 ≤ m → off + q + m ≤ vlen l → is_u (8 * m) (word l (off + q) m).
Proof using opened starts. intros. apply (word_range l (readable_bytes _ _ opened)); lia. Qed.

Lemma get64_12_spec : B = 12 → DirectReader.get64_12 (DirectReader.mk DirectReader.Bit12 input off) i = Ok v.
Proof using All.
  intros EB. rewrite EB in room. unfold DirectReader.get64_12. destruct (half_bytes 3 ltac:(lia) ltac:(lia)) as [-> ->].
  arith 12. fetch read_short_at_law. rewrite <- small_value by lia. unfold shr_i.
  change 0xFFF with (Z.ones 12). rewrite <- EB. rewrite (signed_word 16) by lia. by rewrite <- (from_word (i * 3 / 2) 2 (4 * ((i + 1) mod 2))) by lia.
Qed.

Lemma shifted_index k : 0 ≤ k ≤ 3 → shl_i 64 i k = i * 2 ^ k.
Proof using index.
  intros Hk. unfold shl_i. rewrite Z.shiftl_mul_pow2 by lia. pose proof (Z.pow_le_mono_r 2 k 3 ltac:(lia) ltac:(lia)).
  pose proof (pow2_pos k ltac:(lia)). apply as_i_id; [lia|]. unfold is_i. nia.
Qed.

(** A value that is the whole word. *)
Lemma whole_word q m : 1 ≤ B ≤ 64 → 0 ≤ q → 0 ≤ m → off + q + m ≤ vlen l → B = 8 * m → 8 * q + 8 * m = (i + 1) * B →
  word l (off + q) m = as_u64 v.
Proof using opened starts value fitting.
  intros HB Hq Hm Hl E Hpos. rewrite <- (from_word q m 0) by lia. rewrite top_word; [by rewrite Z.shiftr_0_r|lia|lia|].
  rewrite E. by apply word_is.
Qed.

Lemma get64_16_spec : B = 16 → DirectReader.get64_16 (DirectReader.mk DirectReader.Bit16 input off) i = Ok v.
Proof using All.
  intros EB. rewrite EB in room. unfold DirectReader.get64_16. rewrite shifted_index by lia. arith 16. fetch read_short_at_law.
  change (Ok (as_u16 (as_i16 (word l (off + i * 2 ^ 1) 2))) = Ok v).
  rewrite unsigned_word by (lia || (apply (word_is (i * 2 ^ 1) 2); lia)). rewrite whole_word, small_value by lia. done.
Qed.

Lemma get64_20_spec : B = 20 → DirectReader.get64_20 (DirectReader.mk DirectReader.Bit20 input off) i = Ok v.
Proof using All.
  intros EB. rewrite EB in room. unfold DirectReader.get64_20. destruct (half_bytes 5 ltac:(lia) ltac:(lia)) as [-> ->].
  arith 20. fetch read_int_at_law. change (be_value 8 _) with (word l (off + i * 5 / 2) 4).
  rewrite unsigned_word by (lia || (apply (word_is (i * 5 / 2) 4); lia)). rewrite <- small_value by lia.
  rewrite <- (from_word (i * 5 / 2) 4 (4 * ((i + 1) mod 2) + 8)) by lia. by rewrite EB.
Qed.

Lemma get64_24_spec : B = 24 → DirectReader.get64_24 (DirectReader.mk DirectReader.Bit24 input off) i = Ok v.
Proof using All.
  intros EB. rewrite EB in room. unfold DirectReader.get64_24. arith 24. fetch read_int_at_law.
  change (be_value 8 _) with (word l (off + 3 * i) 4). pose proof (word_is (3 * i) 4 ltac:(lia) ltac:(lia) ltac:(lia)) as Hw.
  rewrite unsigned_word by (lia || exact Hw). rewrite <- small_value by lia.
  rewrite <- (from_word (3 * i) 4 8) by lia. rewrite top_word; [done|lia|lia|by rewrite EB].
Qed.

Lemma get64_28_spec : B = 28 → DirectReader.get64_28 (DirectReader.mk DirectReader.Bit28 input off) i = Ok v.
Proof using All.
  intros EB. rewrite EB in room. unfold DirectReader.get64_28. destruct (half_bytes 7 ltac:(lia) ltac:(lia)) as [-> ->].
  arith 28. fetch read_int_at_law. change (be_value 8 _) with (word l (off + i * 7 / 2) 4).
  rewrite unsigned_word by (lia || (apply (word_is (i * 7 / 2) 4); lia)). rewrite <- small_value by lia.
  rewrite <- (from_word (i * 7 / 2) 4 (4 * ((i + 1) mod 2))) by lia. by rewrite EB.
Qed.

Lemma get64_32_spec : B = 32 → DirectReader.get64_32 (DirectReader.mk DirectReader.Bit32 input off) i = Ok v.
Proof using All.
  intros EB. rewrite EB in room. unfold DirectReader.get64_32. rewrite shifted_index by lia. arith 32. fetch read_int_at_law.
  change (be_value 8 _) with (word l (off + i * 2 ^ 2) 4).
  rewrite unsigned_word by (lia || (apply (word_is (i * 2 ^ 2) 4); lia)). rewrite whole_word, small_value by lia. done.
Qed.

(** The three readers of a long that is shifted down. *)
Lemma from_long q sh : 1 ≤ sh → 0 ≤ q → off + q + 8 ≤ vlen l → sh + B = 64 → 1 ≤ B → 8 * q + 64 - sh = (i + 1) * B →
  unsigned_shift 64 (as_i64 (be_value 8 (take 8 (drop (Z.to_nat (off + q)) l)))) sh = v.
Proof using opened starts value fitting.
  intros Hsh Hq Hl E HB Hpos. change (be_value 8 _) with (word l (off + q) 8).
  rewrite shifted_word by (done || lia || (apply (word_is q 8); lia)). rewrite (from_word q 8 sh) by lia. apply small_value. lia.
Qed.

Lemma get64_40_spec : B = 40 → DirectReader.get64_40 (DirectReader.mk DirectReader.Bit40 input off) i = Ok v.
Proof using All.
  intros EB. rewrite EB in room. unfold DirectReader.get64_40. arith 40. fetch read_long_at_law. f_equal. apply from_long; lia.
Qed.
Lemma get64_48_spec : B = 48 → DirectReader.get64_48 (DirectReader.mk DirectReader.Bit48 input off) i = Ok v.
Proof using All.
  intros EB. rewrite EB in room. unfold DirectReader.get64_48. arith 48. fetch read_long_at_law. f_equal. apply from_long; lia.
Qed.
Lemma get64_56_spec : B = 56 → DirectReader.get64_56 (DirectReader.mk DirectReader.Bit56 input off) i = Ok v.
Proof using All.
  intros EB. rewrite EB in room. unfold DirectReader.get64_56. arith 56. fetch read_long_at_law. f_equal. apply from_long; lia.
Qed.
Lemma get64_64_spec : B = 64 → DirectReader.get64_64 (DirectReader.mk DirectReader.Bit64 input off) i = Ok v.
Proof using All.
  intros EB. rewrite EB in room. unfold DirectReader.get64_64. rewrite shifted_index by lia. arith 64. fetch read_long_at_law.
  change (be_value 8 _) with (word l (off + i * 2 ^ 3) 8). rewrite whole_word by lia. rewrite as_i_as_u by lia. f_equal.
  apply as_i_id; [lia|apply fitting].
Qed.

(** Every supported width has its reader. *)
Lemma reader_spec : In B DirectWriter.SUPPORTED_BITS_PER_VALUE →
  ∃ r, DirectReader.get_instance input B off = Ok r ∧ DirectReader.get64 r i = Ok v.
Proof using All.
  intros HB. pose proof (conj get64_1_spec (conj get64_2_spec (conj get64_4_spec (conj get64_8_spec (conj get64_12_spec
    (conj get64_16_spec (conj get64_20_spec (conj get64_24_spec (conj get64_28_spec (conj get64_32_spec (conj get64_40_spec
    (conj get64_48_spec (conj get64_56_spec get64_64_spec))))))))))))) as Hall. unfold DirectReader.get_instance.
  repeat (destruct HB as [<-|HB]; [eexists; split; [reflexivity|]; cbn [DirectReader.get64 DirectReader.variant]; by apply Hall|]). done.
Qed.
End readers.

(** * The writer *)

(** The rounds of the buffer, for every width and number of values. *)
Definition iterations_ok (B : Z) : bool :=
  match BulkOperation.bulk_operation_of Packed B with
  | Ok op =>
    let bvc := BulkOperation.byte_value_count op in
    let most := DEFAULT_BUFFER_SIZE / (BulkOperation.byte_block_count op + 8 * bvc) in
    (1 <=? most) && (most <=? 128) && ((most - 1) * bvc <? 128) && (bvc <=? 8) &&
    forallb (fun n => let it := compute_iterations op n DEFAULT_BUFFER_SIZE in
                      (0 <=? it) && (it <=? 128) && ((n =? 0) || (1 <=? it))) (seqZ 0 128)
  | _ => false
  end.

Lemma iterations_spec B op n : In B DirectWriter.SUPPORTED_BITS_PER_VALUE →
  BulkOperation.bulk_operation_of Packed B = Ok op → 0 ≤ n < 2 ^ 31 →
  0 ≤ compute_iterations op n DEFAULT_BUFFER_SIZE ≤ 128 ∧ (1 ≤ n → 1 ≤ compute_iterations op n DEFAULT_BUFFER_SIZE) ∧
  BulkOperation.byte_value_count op ≤ 8.
Proof.
  intros HB Hop Hn. assert (forallb iterations_ok DirectWriter.SUPPORTED_BITS_PER_VALUE = true) as Hall by (vm_compute; reflexivity).
  rewrite forallb_forall in Hall. specialize (Hall B HB). unfold iterations_ok in Hall. rewrite Hop in Hall. cbv zeta in Hall.
  rewrite !andb_true_iff, !Z.leb_le, Z.ltb_lt in Hall. destruct Hall as ((((H1 & H2) & H3) & Hb) & H4).
  split; [|split; [|done]]; unfold compute_iterations; cbv zeta; rewrite (proj2 (Z.eqb_neq _ 0)) by lia;
    rewrite as_u_id by (unfold is_u; lia).
  all: destruct (Z.leb_spec n ((DEFAULT_BUFFER_SIZE / (BulkOperation.byte_block_count op + 8 * BulkOperation.byte_value_count op) - 1) *
       BulkOperation.byte_value_count op)); [|rewrite as_i_id by (unfold is_i; lia); lia].
  all: rewrite forallb_forall in H4; specialize (H4 n ltac:(apply list_elem_of_In, elem_of_seqZ; lia)); unfold compute_iterations in H4;
    cbv zeta in H4; rewrite (proj2 (Z.eqb_neq _ 0)), as_u_id, (proj2 (Z.leb_le n _)) in H4 by (unfold is_u; lia);
    rewrite !andb_true_iff, orb_true_iff, !Z.leb_le, Z.eqb_eq in H4; lia.
Qed.

Section writer.
Context {Out : Type} `{HO : LawfulOutput Out}.
Context (B : Z) (op : BulkOperationPacked.t) (Hop : op_ok B op) (HB : 1 ≤ B ≤ 64).
Local Abbreviation bvc := (BulkOperationPacked.byte_value_count op).
Local Abbreviation bbc := (BulkOperationPacked.byte_block_count op).

(** The bytes [bs] start with the values [vals]. *)
Definition stream (bs vals : list Z) : Prop :=
  Forall (is_u 8) bs ∧ ∀ p, 0 ≤ p < B * vlen vals → bits 8 bs p = bits B (map as_u64 vals) p.

Lemma stream_app bs vals bs' vals' : stream bs vals → stream bs' vals' → 8 * vlen bs = B * vlen vals →
  stream (bs ++ bs') (vals ++ vals').
Proof using HB.
  intros [H1 H2] [H3 H4] E. split; [by apply Forall_app_2|]. intros p Hp. rewrite vlen_app in Hp. rewrite map_app, !bits_app by lia.
  rewrite vlen_map, E. destruct (Z.ltb_spec p (B * vlen vals)); [apply H2; lia|]. apply H4. lia.
Qed.

Lemma encode_stream vs blocks it : 0 ≤ it → vlen vs = it * bvc → vlen blocks = it * bbc → Forall (fits B) vs →
  ∃ W, BulkOperationPacked.encode_long_to_byte op vs blocks it = Ok W ∧ vlen W = it * bbc ∧ stream W vs.
Proof using Hop HB.
  intros Hit Hv Hb Hfit. pose proof Hop as [_ _ Hbyte (_ & _ & Hc1 & Hc2) _ _].
  assert (take (Z.to_nat (bvc * it)) vs = vs) as Ht by (apply take_ge; unfold vlen in Hv; lia).
  destruct (encode_long_to_byte_spec B op Hop HB vs blocks it) as (W & -> & HW & Hu & Hlen & Hval); [lia|lia|lia| |].
  { unfold inputs. rewrite Ht. eapply Forall_impl; [|exact Hfit]. intros x [Hx Hx']. split; [done|].
    split; [apply as_u_range; lia|done]. }
  rewrite Ht, map_id in Hval. rewrite map_id in Hu. exists W.
  rewrite filled_all, drop_ge, app_nil_r by (unfold vlen in *; lia). split; [done|]. split; [lia|].
  split; [done|]. intros p Hp. apply bits_regrouped; try done; try lia.
  - apply List.Forall_forall. intros x Hx. apply in_map_iff in Hx as (y & <- & Hy). rewrite List.Forall_forall in Hfit.
    destruct (Hfit y Hy) as [Hy1 Hy2]. split; [apply as_u_range; lia|done].
  - rewrite vlen_map. nia.
Qed.

Import DirectWriter.

(** A writer of [n] values, of which [vals] are added: the flushed ones are in
    the output, the others in the buffer, whose rest is zero. *)
Record writing (o0 : Out) (n extra : Z) (vals : list Z) (w : t Out) : Prop := {
  wr_config : bits_per_value w = B ∧ num_values w = n ∧ encoder w = BulkOperation.OpPacked op;
  wr_small : 0 ≤ n < 2 ^ 31 ∧ 0 ≤ extra ∧ 0 ≤ iterations w ≤ 128 ∧ bvc ≤ 8;
  wr_buffers : vlen (next_values w) = iterations w * bvc ∧ vlen (next_blocks w) = iterations w * bbc;
  wr_count : count w = vlen vals ∧ vlen vals ≤ n;
  wr_off : 0 ≤ off w ≤ vlen (next_values w);
  wr_zero : ∀ k, off w ≤ k < vlen (next_values w) → nthz (next_values w) k = 0;
  wr_fits : Forall (fits B) vals;
  wr_out : ∃ bs flushed, written (output w) = written o0 ++ bs ∧ stream bs flushed ∧ 8 * vlen bs = B * vlen flushed ∧
    vals = flushed ++ take (Z.to_nat (off w)) (next_values w) ∧
    accepts (output w) ((B * n + 7) / 8 + 3 + extra - vlen bs);
}.

Lemma byte_count_eq k : 0 ≤ k ≤ 1024 → as_u64 (Formats.byte_count Packed (as_i32 k) B) = (k * B + 7) / 8.
Proof using HB.
  intros Hk. unfold Formats.byte_count. assert (0 ≤ k * B ≤ 65536) by nia.
  rewrite (as_i_id 32 k), (as_i_id 32 (k * B)), as_i_id by (try lia; unfold is_i; lia).
  rewrite Z.quot_div_nonneg by lia. apply as_u_id. unfold is_u. split; [apply Z.div_pos; lia|]. apply Z.div_lt_upper_bound; lia.
Qed.

Lemma buffered_fits o0 n extra vals w : writing o0 n extra vals w → Forall (fits B) (next_values w).
Proof using HB.
  intros [_ _ _ _ Hoff Hz Hf (bs & fl & _ & _ & _ & E & _)]. apply Forall_nthz. intros k Hk.
  destruct (Z.lt_ge_cases k (off w)).
  - rewrite E in Hf. apply Forall_app in Hf as [_ Hf]. rewrite <- (nthz_take (next_values w) (off w)) by lia.
    apply nthz_Forall; [done|]. rewrite vlen_take; lia.
  - rewrite Hz by lia. apply fits_0. lia.
Qed.

(** What a flush leaves of the state. *)
Record flushed_to (w w' : t Out) : Prop := {
  fl_config : bits_per_value w' = bits_per_value w ∧ num_values w' = num_values w ∧ encoder w' = encoder w ∧
    iterations w' = iterations w ∧ count w' = count w;
  fl_off : off w' = 0;
  fl_buffers : vlen (next_values w') = vlen (next_values w) ∧ vlen (next_blocks w') = vlen (next_blocks w);
  fl_zero : ∀ k, 0 ≤ k < vlen (next_values w) → nthz (next_values w') k = 0;
}.

Lemma flush_run w blocks o' : BulkOperation.encode_long_to_byte (encoder w) (next_values w) (next_blocks w) (iterations w) = Ok blocks →
  write_bytes (output w) blocks 0 (as_u64 (Formats.byte_count Packed (as_i32 (off w)) (bits_per_value w))) = Ok o' →
  flush w = Ok (mk (bits_per_value w) (num_values w) o' (count w) 0 (finished w) blocks (map (fun _ => 0) (next_values w)) (encoder w) (iterations w)).
Proof using. intros E1 E2. unfold flush. rewrite E1, bind_Ok_l. cbv zeta. by rewrite E2. Qed.

(** A flush leaves the counter alone. *)
Lemma flush_count w :
  flush (mk (bits_per_value w) (num_values w) (output w) (count w + 1) (off w) (finished w) (next_blocks w) (next_values w) (encoder w) (iterations w)) =
  (w' ← flush w;
   Ok (mk (bits_per_value w') (num_values w') (output w') (count w' + 1) (off w') (finished w') (next_blocks w') (next_values w') (encoder w') (iterations w'))).
Proof using.
  unfold flush. cbn [bits_per_value num_values output count off finished next_blocks next_values encoder iterations].
  generalize (BulkOperation.encode_long_to_byte (encoder w) (next_values w) (next_blocks w) (iterations w)). intros [blocks| | |]; [|done..].
  rewrite !bind_Ok_l. cbv zeta. by destruct (write_bytes _ _ _ _).
Qed.

(** A flush writes the buffered values, padded to a whole byte. *)
Lemma flush_spec o0 n extra vals w m : writing o0 n extra vals w → 0 ≤ m → accepts (output w) ((off w * B + 7) / 8 + m) →
  ∃ w' chunk, flush w = Ok w' ∧ flushed_to w w' ∧ vlen chunk = (off w * B + 7) / 8 ∧
    stream chunk (take (Z.to_nat (off w)) (next_values w)) ∧
    written (output w') = written (output w) ++ chunk ∧ accepts (output w') m.
Proof using Hop HB HO.
  intros Hw Hm Hacc. pose proof (buffered_fits _ _ _ _ _ Hw) as Hfit. pose proof Hw as [(Ebpv & _ & Eenc) (_ & _ & Hit & Hb8) (Hnv & Hnb) _ Hoff _ _ _].
  pose proof Hop as [_ _ Hbyte (_ & _ & Hc1 & Hc2) _ _].
  destruct (encode_stream (next_values w) (next_blocks w) (iterations w)) as (W & Eenc' & HWl & HWs); [lia|done|done|done|].
  assert (0 ≤ off w ≤ 1024) as Hoff' by nia. set (c := (off w * B + 7) / 8) in *.
  assert (0 ≤ c ≤ vlen W) as Hc.
  { split; [apply Z.div_pos; lia|]. rewrite HWl. apply Z.lt_succ_r. apply Z.div_lt_upper_bound; nia. }
  assert (vlen (take (Z.to_nat c) W) = c) as Hcl by (apply vlen_take; lia).
  destruct (emits_write_all (take (Z.to_nat c) W) (output w) m) as (o' & Hwr & Hlog & Hacc'); [by rewrite Hcl|done|].
  assert (write_bytes (output w) W 0 (as_u64 (Formats.byte_count Packed (as_i32 (off w)) (bits_per_value w))) = Ok o') as Ewr.
  { rewrite Ebpv, byte_count_eq by done. unfold write_bytes. fold c. rewrite vslice_in, bind_Ok_l by lia.
    change (Z.to_nat 0) with 0%nat. by rewrite drop_0, Z.add_0_l, Z.sub_0_r. }
  assert (BulkOperation.encode_long_to_byte (encoder w) (next_values w) (next_blocks w) (iterations w) = Ok W) as Erun by (by rewrite Eenc).
  rewrite (flush_run w W o' Erun Ewr). eexists _, (take (Z.to_nat c) W). split; [done|]. split.
  { constructor; cbn; try done; [by rewrite vlen_map, HWl, Hnb|].
    intros k Hk. by rewrite (nthz_map (fun _ => 0)) by done. }
  split; [done|]. split; [|by split]. destruct HWs as [HW1 HW2]. split; [by apply Forall_take|]. intros p Hp.
  rewrite vlen_take in Hp by lia. pose proof (Z.div_mod (off w * B + 7) 8 ltac:(lia)). pose proof (Z.mod_pos_bound (off w * B + 7) 8 ltac:(lia)).
  rewrite bits_take by lia. rewrite HW2 by nia. rewrite <- firstn_map, bits_take by lia. done.
Qed.

(** A full buffer is flushed without padding. *)
Lemma flush_full o0 n extra vals w : writing o0 n extra vals w → off w = vlen (next_values w) →
  ∃ w', flush w = Ok w' ∧ writing o0 n extra vals w' ∧ off w' = 0 ∧ vlen (next_values w') = vlen (next_values w).
Proof using Hop HB HO.
  intros Hw Hfull. pose proof Hw as [(Ebpv & Enum & Eenc) Hsmall (Hnv & Hnb) (Ecnt & Hle) Hoff _ Hf (bs & fl & Hlog & Hst & E8 & Evals & Hacc)].
  pose proof Hop as [_ _ Hbyte (_ & _ & Hc1 & Hc2) _ _].
  assert ((off w * B + 7) / 8 = iterations w * bbc) as Ec.
  { symmetry. apply (Z.div_unique _ 8 _ 7); [lia|]. rewrite Hfull, Hnv. nia. }
  assert (vlen vals = vlen fl + off w) as Elen by (rewrite Evals, vlen_app, vlen_take; lia).
  assert (8 * (vlen bs + iterations w * bbc) = B * vlen vals) as E8' by (rewrite Elen, Hfull, Hnv; nia).
  pose proof (Z.div_mod (B * n + 7) 8 ltac:(lia)). pose proof (Z.mod_pos_bound (B * n + 7) 8 ltac:(lia)).
  destruct (flush_spec o0 n extra vals w ((B * n + 7) / 8 + 3 + extra - vlen bs - iterations w * bbc) Hw) as
    (w' & chunk & Hrun & [(F1 & F2 & F3 & F4 & F5) F6 (F7 & F8) F9] & Hcl & Hcs & Hlog' & Hacc'); [nia|rewrite Ec; by replace (_ + (_ - _)) with ((B * n + 7) / 8 + 3 + extra - vlen bs) by lia|].
  rewrite Ec in Hcl. exists w'. split; [done|]. split; [|by rewrite F7]. constructor; rewrite ?F4, ?F6, ?F7; try done; try congruence; try lia.
  - split_and!; congruence.
  - exists (bs ++ chunk), vals. rewrite Hlog', Hlog, app_assoc, vlen_app, Hcl. split; [done|]. split; [|split; [lia|]].
    + rewrite Evals. by apply stream_app.
    + change (Z.to_nat 0) with 0%nat. rewrite take_0, app_nil_r. split; [done|].
      by replace ((B * n + 7) / 8 + 3 + extra - (vlen bs + iterations w * bbc)) with ((B * n + 7) / 8 + 3 + extra - vlen bs - iterations w * bbc) by lia.
Qed.

Lemma add_spec o0 n extra vals w v : writing o0 n extra vals w → off w < vlen (next_values w) → vlen vals < n → fits B v →
  ∃ w', add w v = Ok w' ∧ writing o0 n extra (vals ++ [v]) w' ∧ off w' < vlen (next_values w').
Proof using Hop HB HO.
  intros Hw Hroom Hn Hv. pose proof Hw as [(Ebpv & Enum & Eenc) Hsmall (Hnv & Hnb) (Ecnt & _) Hoff Hz Hf (bs & fl & Hlog & Hst & E8 & Evals & Hacc)].
  unfold add. rewrite (proj2 (Z.leb_gt (num_values w) (count w))) by lia.
  destruct (vset_nthz (next_values w) (off w) v) as (vs & -> & Hvl & Hvn); [lia|]. cbn [mbind result_bind off next_values].
  assert (take (Z.to_nat (off w + 1)) vs = take (Z.to_nat (off w)) (next_values w) ++ [v]) as Etake.
  { apply nthz_ext; [rewrite vlen_app, vlen_take, vlen_take, vlen_cons, vlen_nil by lia; lia|]. intros k Hk. rewrite vlen_take in Hk by lia.
    rewrite nthz_take, Hvn, nthz_app, vlen_take by lia. destruct (Z.eqb_spec k (off w)) as [->|].
    - rewrite (proj2 (Z.ltb_ge _ _)), Z.sub_diag by lia. done.
    - rewrite (proj2 (Z.ltb_lt k (off w))), nthz_take by lia. done. }
  set (w1 := mk _ _ _ _ _ _ _ _ _ _).
  set (w2 := mk (bits_per_value w) (num_values w) (output w) (count w + 1) (off w + 1) (finished w) (next_blocks w) vs (encoder w) (iterations w)).
  assert (writing o0 n extra (vals ++ [v]) w2) as Hw2.
  { assert (vlen (vals ++ [v]) = vlen vals + 1) as Elen by (by rewrite vlen_app).
    constructor; cbn [bits_per_value num_values encoder iterations next_values next_blocks count off output w2]; try done; try lia.
    - intros k Hk. rewrite Hvn by lia. rewrite (proj2 (Z.eqb_neq k _)) by lia. apply Hz. lia.
    - apply Forall_app_2; [done|by constructor].
    - exists bs, fl. split_and!; try done. by rewrite Etake, app_assoc, <- Evals. }
  destruct (Z.eqb_spec (off w + 1) (vlen vs)) as [Efull|Hnot].
  - destruct (flush_full _ _ _ _ w2 Hw2 Efull) as (w' & Hrun & Hw' & Ho' & Hl').
    pose proof (flush_count w1) as Ecount. cbn [bits_per_value num_values output count off finished next_blocks next_values encoder iterations w1] in Ecount.
    fold w1 w2 in Ecount. rewrite <- Ecount, Hrun. exists w'. split; [done|]. split; [done|]. rewrite Ho', Hl'. cbn [next_values w2]. lia.
  - eexists. split; [done|]. split; [exact Hw2|]. cbn. lia.
Qed.

(** [finish] pads the last byte and adds three bytes. *)
Lemma finish_spec o0 n extra vals w : writing o0 n extra vals w → vlen vals = n →
  ∃ w' bs, finish w = Ok w' ∧ written (output w') = written o0 ++ bs ∧ vlen bs = (B * n + 7) / 8 + 3 ∧ stream bs vals ∧
    accepts (output w') extra.
Proof using Hop HB HO.
  intros Hw Hn. pose proof Hw as [(Ebpv & Enum & Eenc) Hsmall (Hnv & Hnb) (Ecnt & Hle) Hoff _ Hf (bs & fl & Hlog & Hst & E8 & Evals & Hacc)].
  assert (vlen vals = vlen fl + off w) as Elen by (rewrite Evals, vlen_app, vlen_take; lia).
  assert ((B * n + 7) / 8 = vlen bs + (off w * B + 7) / 8) as Etot.
  { rewrite <- Z.div_add_l by lia. f_equal. nia. }
  unfold finish. rewrite (proj2 (Z.eqb_eq (count w) (num_values w))) by lia. cbn [negb].
  destruct (flush_spec o0 n extra vals w (3 + extra) Hw) as (w' & chunk & -> & _ & Hcl & Hcs & Hlog' & Hacc'); [lia|
    by replace ((off w * B + 7) / 8 + (3 + extra)) with ((B * n + 7) / 8 + 3 + extra - vlen bs) by lia|].
  cbn [mbind result_bind].
  destruct (emits_write_all [0] (output w') (2 + extra)) as (o1 & E1 & L1 & A1); [by replace (vlen [0] + (2 + extra)) with (3 + extra) by (change (vlen [0]) with 1; lia)|lia|].
  destruct (emits_write_all [0] o1 (1 + extra)) as (o2 & E2 & L2 & A2); [by replace (vlen [0] + (1 + extra)) with (2 + extra) by (change (vlen [0]) with 1; lia)|lia|].
  destruct (emits_write_all [0] o2 extra) as (o3 & E3 & L3 & A3); [by replace (vlen [0] + extra) with (1 + extra) by (change (vlen [0]) with 1; lia)|lia|].
  unfold for_range. change (Z.to_nat (3 - 0)) with 3%nat. cbn [for_n]. unfold write_byte. rewrite E1. cbn [mbind result_bind].
  rewrite E2. cbn [mbind result_bind]. rewrite E3. cbn [mbind result_bind].
  eexists _, (bs ++ chunk ++ [0; 0; 0]). split; [done|]. cbn [output].
  split; [by rewrite L3, L2, L1, Hlog', Hlog, <- !app_assoc|]. split; [rewrite !vlen_app, Hcl, Etot; change (vlen [0; 0; 0]) with 3; lia|].
  split; [|done]. rewrite Evals. apply stream_app; [done| |done]. destruct Hcs as [Hc1 Hc2]. split.
  - apply Forall_app_2; [done|]. repeat constructor; done.
  - intros p Hp. rewrite bits_app by lia. rewrite vlen_take in Hp by lia.
    pose proof (Z.div_mod (off w * B + 7) 8 ltac:(lia)). pose proof (Z.mod_pos_bound (off w * B + 7) 8 ltac:(lia)).
    rewrite (proj2 (Z.ltb_lt p _)) by (rewrite Hcl; nia). apply Hc2. rewrite vlen_take; lia.
Qed.
End writer.

(** * The round trip *)

Lemma supported_range B : In B DirectWriter.SUPPORTED_BITS_PER_VALUE → 1 ≤ B ≤ 64.
Proof. intros HB. repeat (destruct HB as [<-|HB]; [lia|]). done. Qed.

Section write_all_values.
Context {Out : Type} `{HO : LawfulOutput Out}.
Import DirectWriter.

(** The calls of a client: all values are added and the writer is finished. *)
Definition write_values (o : Out) (B : Z) (vals : list Z) : result Out :=
  w ← get_instance o (vlen vals) B;
  w ← for_each vals (fun v w => add w v) w;
  w ← finish w;
  Ok (output w).

Lemma get_instance_spec o n B extra : In B SUPPORTED_BITS_PER_VALUE → 0 ≤ n < 2 ^ 31 → 0 ≤ extra →
  accepts o ((B * n + 7) / 8 + 3 + extra) →
  ∃ w op, get_instance o n B = Ok w ∧ op_ok B op ∧ writing B op o n extra [] w ∧ (1 ≤ n → off w < vlen (next_values w)).
Proof.
  intros HB Hn He Hacc. pose proof (supported_range B HB) as HBr.
  assert (∃ k, binary_search0 SUPPORTED_BITS_PER_VALUE 0 (vlen SUPPORTED_BITS_PER_VALUE) B = Ok k ∧ 0 ≤ k) as (k & Hk & Hk0).
  { assert (forallb (fun B => match binary_search0 SUPPORTED_BITS_PER_VALUE 0 (vlen SUPPORTED_BITS_PER_VALUE) B with
                             | Ok k => 0 <=? k | _ => false end) SUPPORTED_BITS_PER_VALUE = true) as Hall by (vm_compute; reflexivity).
    rewrite forallb_forall in Hall. specialize (Hall B HB). destruct (binary_search0 _ _ _ _) as [k| | |]; try done.
    exists k. split; [done|]. by apply Z.leb_le. }
  unfold get_instance. rewrite Hk. cbn [mbind result_bind]. rewrite (proj2 (Z.ltb_ge k 0)) by done.
  destruct (bulk_operation_packed B HBr) as (op & Hop & Hok). unfold new. rewrite (as_u_id 64 B) by (unfold is_u; lia).
  rewrite Hop. cbn [mbind result_bind]. rewrite Z.min_l by lia.
  destruct (iterations_spec B _ n HB Hop Hn) as (Hit & Hit1 & Hb8). pose proof Hok as [_ _ _ (_ & _ & Hc1 & Hc2) _ _].
  set (it := compute_iterations _ n _) in *. rewrite (as_u_id 64 it), (as_u_id 64 n) by (unfold is_u; lia).
  cbn [BulkOperation.byte_block_count BulkOperation.byte_value_count] in *.
  assert (vlen (replicate (Z.to_nat (it * BulkOperationPacked.byte_value_count op)) 0) = it * BulkOperationPacked.byte_value_count op) as Ev
    by (apply vlen_replicate; nia).
  assert (vlen (replicate (Z.to_nat (it * BulkOperationPacked.byte_block_count op)) 0) = it * BulkOperationPacked.byte_block_count op) as Eb
    by (apply vlen_replicate; nia).
  eexists _, op. split; [done|]. split; [done|]. split; [|cbn [off next_values]; intros; rewrite Ev; nia].
  constructor; cbn [bits_per_value num_values encoder iterations next_values next_blocks count off output]; rewrite ?Ev, ?Eb; try done; try lia.
  - change (0 = 0 ∧ 0 ≤ n). lia.
  - intros j Hj. apply nthz_replicate. lia.
  - exists [], []. rewrite app_nil_r. change (vlen []) with 0. rewrite Z.sub_0_r. split_and!; try done; try lia.
    split; [done|]. intros p Hp. change (0 ≤ p < B * 0) in Hp. lia.
Qed.

Lemma adds_spec o n B op extra (Hop : op_ok B op) (HB : 1 ≤ B ≤ 64) : ∀ vals done_ w,
  writing B op o n extra done_ w → (1 ≤ n → off w < vlen (next_values w)) → vlen done_ + vlen vals ≤ n → Forall (fits B) vals →
  ∃ w', for_each vals (fun v w => add w v) w = Ok w' ∧ writing B op o n extra (done_ ++ vals) w'.
Proof.
  induction vals as [|v vals IH]; intros done_ w Hw Hroom Hlen Hf; [exists w; by rewrite app_nil_r|].
  rewrite vlen_cons in Hlen. pose proof (vlen_nonneg vals). pose proof (vlen_nonneg done_). apply Forall_cons_iff in Hf as [Hv Hf].
  destruct (add_spec B op Hop HB o n extra done_ w v Hw) as (w1 & E & Hw1 & Hr1); [apply Hroom; lia|lia|done|].
  cbn [for_each]. rewrite E. cbn [mbind result_bind].
  destruct (IH (done_ ++ [v]) w1 Hw1) as (w' & -> & Hw'); [done|rewrite vlen_app, vlen_cons, vlen_nil; lia|done|].
  exists w'. split; [done|]. by rewrite <- app_assoc in Hw'.
Qed.

Lemma write_values_spec o B vals extra : In B SUPPORTED_BITS_PER_VALUE → vlen vals < 2 ^ 31 → Forall (fits B) vals → 0 ≤ extra →
  accepts o ((B * vlen vals + 7) / 8 + 3 + extra) →
  ∃ o' bs, write_values o B vals = Ok o' ∧ written o' = written o ++ bs ∧ vlen bs = (B * vlen vals + 7) / 8 + 3 ∧
    stream B bs vals ∧ accepts o' extra.
Proof.
  intros HB Hn Hf He Hacc. pose proof (supported_range B HB) as HBr. pose proof (vlen_nonneg vals).
  destruct (get_instance_spec o (vlen vals) B extra HB) as (w & op & E & Hop & Hw & Hroom); [lia|done|done|].
  unfold write_values. rewrite E. cbn [mbind result_bind].
  destruct (adds_spec o (vlen vals) B op extra Hop HBr vals [] w Hw Hroom) as (w1 & -> & Hw1); [rewrite vlen_nil; lia|done|].
  cbn [mbind result_bind].
  destruct (finish_spec B op Hop HBr o (vlen vals) extra vals w1 Hw1 eq_refl) as (w2 & bs & -> & Hlog & Hlen & Hst & Hacc').
  exists (output w2), bs. by split_and!.
Qed.
End write_all_values.

(** The values of a stream, read where the stream lies in the input. *)
Lemma stream_reader {R} `{RandomReads R} (input : R) B pre bs post vals i : In B DirectWriter.SUPPORTED_BITS_PER_VALUE →
  readable input (pre ++ bs ++ post) → stream B bs vals → Forall (fits B) vals → vlen bs = (B * vlen vals + 7) / 8 + 3 →
  vlen vals < 2 ^ 31 → 0 ≤ i < vlen vals →
  ∃ r, DirectReader.get_instance input B (vlen pre) = Ok r ∧ DirectReader.get64 r i = Ok (nthz vals i).
Proof.
  intros HB Hr [Hb Hs] Hf Hlen Hn Hi. pose proof (supported_range B HB) as HBr. pose proof (vlen_nonneg pre). pose proof (vlen_nonneg post).
  apply (reader_spec input (pre ++ bs ++ post) (vlen pre) i (nthz vals i) B); try done; try lia.
  - rewrite !vlen_app, Hlen. assert (((i + 1) * B + 7) / 8 ≤ (B * vlen vals + 7) / 8) by (apply Z.div_le_mono; nia). lia.
  - intros j Hj. pose proof (Z.div_mod (B * vlen vals + 7) 8 ltac:(lia)). pose proof (Z.mod_pos_bound (B * vlen vals + 7) 8 ltac:(lia)).
    rewrite bits_app, (proj2 (Z.ltb_ge _ _)) by nia. rewrite bits_app, (proj2 (Z.ltb_lt _ _)) by nia.
    rewrite Hs by nia. rewrite (bits_at B _ _ i (B - 1 - j)) by lia. rewrite nthz_map by lia.
    rewrite tb_as_u by lia. replace (B - 1 - (B - 1 - j)) with j by lia. rewrite (proj2 (Z.ltb_lt j 64)) by lia. done.
  - by apply nthz_Forall.
Qed.

(** C23. [DirectReader] reads back what [DirectWriter] wrote, at every index and for every supported width: the values,
    however many flushes of the buffer they took, follow what was in the output; the three bytes of padding are enough
    for the wide reads of the last value; and the values are found at any offset of the file. *)
Theorem direct_roundtrip {Out R} `{LawfulOutput Out} `{RandomReads R} (o : Out) (B : Z) (vals : list Z) :
  In B DirectWriter.SUPPORTED_BITS_PER_VALUE → vlen vals < 2 ^ 31 → Forall (fits B) vals →
  accepts o ((B * vlen vals + 7) / 8 + 3) →
  ∃ o' bs, write_values o B vals = Ok o' ∧ written o' = written o ++ bs ∧ vlen bs = (B * vlen vals + 7) / 8 + 3 ∧
    ∀ (input : R) pre post, readable input (pre ++ bs ++ post) → ∀ i, 0 ≤ i < vlen vals →
      ∃ r, DirectReader.get_instance input B (vlen pre) = Ok r ∧ DirectReader.get64 r i = Ok (nthz vals i).
Proof.
  intros HB Hn Hf Hacc. destruct (write_values_spec o B vals 0 HB Hn Hf) as (o' & bs & Hw & Hlog & Hlen & Hst & _);
    [lia|by rewrite Z.add_0_r|].
  exists o', bs. split_and!; try done. intros input pre post Hr i Hi. by apply (stream_reader input B pre bs post).
Qed.
Lemma direct_roundtrip_witness :
  ∃ o' bs, write_values [7; 7] 12 [4095; 0; 77; 1000; 5] = Ok o' ∧ o' = [7; 7] ++ bs ∧
    ∀ input : MmapIndexInput.t, readable input ([7; 7] ++ bs ++ []) →
      ∃ r, DirectReader.get_instance input 12 2 = Ok r ∧ DirectReader.get64 r 3 = Ok 1000.
Proof.
  destruct (direct_roundtrip (R := MmapIndexInput.t) [7; 7] 12 [4095; 0; 77; 1000; 5]) as (o' & bs & H1 & H2 & _ & H4).
  - right; right; right; right; left; reflexivity.
  - reflexivity.
  - apply List.Forall_forall. intros x Hx.
    repeat (destruct Hx as [<-|Hx]; [split; [split; [discriminate|reflexivity]|reflexivity]|]). destruct Hx.
  - exact I.
  - exists o', bs. split; [exact H1|]. split; [exact H2|]. intros input Hr. apply (H4 input [7; 7] []); [exact Hr|].
    split; [discriminate|reflexivity].
Defined.
