(* ===== verification/DirectMonotonic.v ===== *)
(** Monotonic sequences: src/core/util/packed/direct_monotonic_writer.rs and
    direct_monotonic_reader.rs.  A block of values is stored as the deviations
    from a line, packed by [DirectWriter].

    An [f32] that goes through a stream is its bit pattern. *)

From S2P Require Import Prelude Float32 DataIO Numeric PackedBulk PackedMutable Mmap Direct.
Open Scope Z_scope.

(** [(avg * i as f32) as i64], of the bit pattern of [avg]. *)
Definition expected_value (avg i : Z) : Z := f32_as_i64 (f32_mul (f32_from_bits avg) (f32_of_Z i)).

(** * DirectMonotonicWriter *)

Module DirectMonotonicWriter.
Definition MIN_BLOCK_SHIFT : Z := 3.
Definition MAX_BLOCK_SHIFT : Z := 30.

Record t (Out : Type) : Type := mk {
  meta : Out;
  data : Out;
  num_values : Z;
  base_data_pointer : Z;
  buffer : list Z;
  buffer_size : Z;
  count : Z;
  finished : bool;
  previous : Z;
}.
Arguments mk {Out}.
Arguments meta {Out}.
Arguments data {Out}.
Arguments num_values {Out}.
Arguments base_data_pointer {Out}.
Arguments buffer {Out}.
Arguments buffer_size {Out}.
Arguments count {Out}.
Arguments finished {Out}.
Arguments previous {Out}.

Section writer.
Context {Out : Type} `{IndexOutput Out}.

Definition new (meta data : Out) (num_values block_shift : Z) : result (t Out) :=
  if (block_shift <? MIN_BLOCK_SHIFT) || (MAX_BLOCK_SHIFT <? block_shift) then bail IllegalArgument
  else Ok (mk meta data (as_u64 num_values) (file_pointer data)
             (replicate (Z.to_nat (Z.shiftl 1 block_shift)) 0) 0 0 false (- 2 ^ 63)).
Definition get_instance := new.

(** The slope of the line through the first and the last value. *)
Definition avg_inc (buffer : list Z) (buffer_size : Z) : result Z :=
  last ← vget buffer (buffer_size - 1); first ← vget buffer 0;
  Ok (f32_to_bits (f64_as_f32 (f64_div (f64_of_Z (as_i64 (last - first))) (f64_of_Z (Z.max (buffer_size - 1) 1))))).

(** The three loops: subtract the line, find the least deviation, subtract it
    and collect the bits of what is left. *)
Definition subtract_line (avg : Z) (buffer : list Z) (n : Z) : result (list Z) :=
  for_range 0 n (fun i b => v ← vget b i; vset b i (as_i64 (v - expected_value avg i))) buffer.
Definition find_min (buffer : list Z) (n : Z) : result Z :=
  b0 ← vget buffer 0;
  for_range 1 n (fun i mn => v ← vget buffer i; Ok (Z.min mn v)) b0.
Definition subtract_min (mn : Z) (buffer : list Z) (n : Z) : result (Z * list Z) :=
  for_range 0 n (fun i '(mx, b) =>
    v ← vget b i; let v := as_i64 (v - mn) in
    b ← vset b i v; Ok (Z.lor mx v, b)) (0, buffer).

Definition flush (w : t Out) : result (t Out) :=
  let n := buffer_size w in
  avg ← avg_inc (buffer w) n;
  b ← subtract_line avg (buffer w) n;
  mn ← find_min b n;
  '(max_delta, b) ← subtract_min mn b n;
  meta ← write_long (meta w) mn;
  meta ← write_int meta (as_i32 avg);
  meta ← write_long meta (as_i64 (file_pointer (data w) - base_data_pointer w));
  '(meta, data) ←
    (if max_delta =? 0 then
       meta ← write_byte meta 0; Ok (meta, data w)
     else
       bits_required ← DirectWriter.unsigned_bits_required max_delta;
       writer ← DirectWriter.get_instance (data w) n bits_required;
       writer ← for_range 0 n (fun i writer => v ← vget b i; DirectWriter.add writer v) writer;
       writer ← DirectWriter.finish writer;
       meta ← write_byte meta (as_u8 bits_required);
       Ok (meta, DirectWriter.output writer));
  Ok (mk meta data (num_values w) (base_data_pointer w) b 0 (count w) (finished w) (previous w)).

Definition add (w : t Out) (v : Z) : result (t Out) :=
  if v <? previous w then bail IllegalArgument
  else
    w ← (if buffer_size w =? vlen (buffer w) then flush w else Ok w);
    b ← vset (buffer w) (buffer_size w) v;
    Ok (mk (meta w) (data w) (num_values w) (base_data_pointer w) b (buffer_size w + 1)
          (count w + 1) (finished w) v).

Definition finish (w : t Out) : result (t Out) :=
  if negb (count w =? num_values w) then bail IllegalState
  else if finished w then bail IllegalState
  else
    w ← (if 0 <? buffer_size w then flush w else Ok w);
    Ok (mk (meta w) (data w) (num_values w) (base_data_pointer w) (buffer w) (buffer_size w)
          (count w) true (previous w)).
End writer.
End DirectMonotonicWriter.

(** * DirectMonotonicReader *)

Module DirectMonotonicReader.
(** [DirectMonotonicMeta] *)
Record meta : Type := mk_meta {
  num_values : Z;
  block_shift : Z;
  num_blocks : Z;
  mins : list Z;
  avgs : list Z;
  bpvs : list Z;
  offsets : list Z;
}.

Definition load_meta {In} `{DataInput In} (meta_in : In) (num_values block_shift : Z) : result (meta * In) :=
  let nb := shr_i num_values block_shift in
  let nb := if shl_i 64 nb block_shift <? num_values then nb + 1 else nb in
  let nb := as_u64 nb in
  let zeros := replicate (Z.to_nat nb) 0 in
  '(mins, avgs, bpvs, offsets, meta_in) ←
    for_range 0 nb (fun i '(mins, avgs, bpvs, offsets, meta_in) =>
      '(v, meta_in) ← read_long meta_in; mins ← vset mins i v;
      '(v, meta_in) ← read_int meta_in; avgs ← vset avgs i (as_u32 v);
      '(v, meta_in) ← read_long meta_in; offsets ← vset offsets i v;
      '(v, meta_in) ← read_byte meta_in; bpvs ← vset bpvs i v;
      Ok (mins, avgs, bpvs, offsets, meta_in)) (zeros, zeros, zeros, zeros, meta_in);
  Ok (mk_meta num_values block_shift nb mins avgs bpvs offsets, meta_in).

(** [MixinMonotonicLongValues] *)
Record t (R : Type) : Type := mk {
  readers : list (option (DirectReader.t R));
  shift : Z;
  block_mins : list Z;
  block_avgs : list Z;
}.
Arguments mk {R}.
Arguments readers {R}.
Arguments shift {R}.
Arguments block_mins {R}.
Arguments block_avgs {R}.

Section reader.
Context {R : Type} `{RandomAccessInput R}.

Definition get_instance (m : meta) (data : R) : result (t R) :=
  readers ← for_range 0 (num_blocks m) (fun i readers =>
    bpv ← vget (bpvs m) i;
    reader ← (if bpv =? 0 then Ok None
              else
                off ← vget (offsets m) i;
                r ← DirectReader.get_instance data bpv off; Ok (Some r));
    Ok (readers ++ [reader])) [];
  Ok (mk readers (block_shift m) (mins m) (avgs m)).

Definition get64 (v : t R) (index : Z) : result Z :=
  let block := Z.shiftr (as_u64 index) (shift v) in
  let block_index := Z.land index (as_i64 (shl_i 64 1 (shift v) - 1)) in
  reader ← vget (readers v) block;
  delta ← match (reader : option (DirectReader.t R)) with
          | Some reader => DirectReader.get64 reader block_index
          | None => Ok 0
          end;
  mn ← vget (block_mins v) block;
  avg ← vget (block_avgs v) block;
  Ok (as_i64 (as_i64 (mn + expected_value avg block_index) + delta)).
Definition get (v : t R) (doc_id : Z) : result Z := get64 v doc_id.
End reader.
End DirectMonotonicReader.

(** Ten values in two blocks, written and read back. *)
#[global] Instance vec_index_output : IndexOutput (list Z) := fun o => vlen o.

Example monotonic_run :
  let vals := [-5; -5; 100; 1000; 1001; 70000; 70001; 70002; 70003; 2 ^ 40] in
  (w ← DirectMonotonicWriter.new [] [9; 9] 10 3;
   w ← for_each vals (fun v w => DirectMonotonicWriter.add w v) w;
   w ← DirectMonotonicWriter.finish w;
   '(m, _) ← DirectMonotonicReader.load_meta (DirectMonotonicWriter.meta w) 10 3;
   i ← MmapIndexInput.new (Some (DirectMonotonicWriter.data w));
   i ← MmapIndexInput.random_access_slice i 2 (MmapIndexInput.len i - 2);
   r ← DirectMonotonicReader.get_instance m i;
   mapM (DirectMonotonicReader.get64 r) [0; 1; 2; 3; 4; 5; 6; 7; 8; 9]) = Ok vals.
Proof. vm_compute. reflexivity. Qed.
