(* ===== verification/DirectMonotonicFacts.v ===== *)
(** [DirectMonotonicReader] reads what [DirectMonotonicWriter] writes.

    The round trip does not depend on the slope: the reader adds the same line
    the writer subtracted, in the same wrapping arithmetic, and the deviations are
    stored exactly. *)

From Stdlib Require Import Sorted.
From S2P Require Import Prelude Float32 DataIO DataIOFacts Numeric PackedBulk PackedBulkFacts PackedMutable PackedArrayFacts GrowableFacts Mmap Direct DirectFacts DirectMonotonic.
Open Scope Z_scope.

(** * Loops over the buffer *)

Lemma for_range_for_each {St} (l : list Z) (f : Z → St → result St) n s : 0 ≤ n ≤ vlen l →
  for_range 0 n (fun i s => v ← vget l i; f v s) s = for_each (take (Z.to_nat n) l) f s.
Proof.
  intros Hn. unfold for_range. rewrite Z.sub_0_r.
  assert (∀ c i s, (i + c ≤ length l)%nat →
    for_n c (Z.of_nat i) (fun i s => v ← vget l i; f v s) s = for_each (take c (drop i l)) f s) as Hall.
  { induction c as [|c IH]; intros i t Hi; [by rewrite take_0|].
    destruct (lookup_lt_is_Some_2 l i) as [x Hx]; [lia|]. cbn [for_n]. rewrite (vget_lookup l i x) by done. cbn [mbind result_bind].
    rewrite (drop_S l x i Hx). cbn [take for_each]. destruct (f x t); cbn [mbind result_bind]; [|done..].
    replace (Z.of_nat i + 1) with (Z.of_nat (S i)) by lia. apply IH. lia. }
  specialize (Hall (Z.to_nat n) 0%nat s ltac:(unfold vlen in Hn; lia)). by rewrite drop_0 in Hall.
Qed.

(** A loop that replaces every value by [g] of it and its index. *)
Definition replaced (g : Z → Z → Z) (n : Z) (b b' : list Z) : Prop :=
  vlen b' = vlen b ∧ ∀ k, 0 ≤ k < vlen b → nthz b' k = if k <? n then g k (nthz b k) else nthz b k.

Lemma replaced_next g i b b' b'' : 0 ≤ i < vlen b → replaced g i b b' → vlen b'' = vlen b' →
  (∀ j, 0 ≤ j → nthz b'' j = if j =? i then g i (nthz b i) else nthz b' j) → replaced g (i + 1) b b''.
Proof.
  intros Hi [Hl Hv] Hl' Hv'. split; [congruence|]. intros k Hk. rewrite Hv' by lia.
  destruct (Z.eqb_spec k i) as [->|]; [by rewrite (proj2 (Z.ltb_lt i (i + 1))) by lia|].
  rewrite Hv by lia. destruct (Z.ltb_spec k i), (Z.ltb_spec k (i + 1)); done || lia.
Qed.
Lemma replaced_0 g b : replaced g 0 b b.
Proof. split; [done|]. intros k Hk. by rewrite (proj2 (Z.ltb_ge k 0)) by lia. Qed.

Section loops.
Import DirectMonotonicWriter.

Lemma subtract_line_spec avg b n : 0 ≤ n ≤ vlen b →
  ∃ b', subtract_line avg b n = Ok b' ∧ replaced (fun i v => as_i64 (v - expected_value avg i)) n b b'.
Proof.
  intros Hn. apply (for_range_inv (fun i b' => replaced (fun i v => as_i64 (v - expected_value avg i)) i b b')); [lia|apply replaced_0|].
  intros i b' Hi Hr. pose proof Hr as [Hl Hv]. rewrite vget_nthz by lia. cbn [mbind result_bind].
  destruct (vset_nthz b' i (as_i64 (nthz b' i - expected_value avg i))) as (b'' & -> & Hl' & Hv'); [lia|]. exists b''. split; [done|].
  apply (replaced_next _ i b b'); try done; [lia|]. intros j Hj. rewrite Hv' by done.
  rewrite (Hv i) by lia. by rewrite (proj2 (Z.ltb_ge i i)) by lia.
Qed.

Lemma find_min_spec b n : 1 ≤ n ≤ vlen b → (∀ k, 0 ≤ k < n → is_i 64 (nthz b k)) → ∃ mn, find_min b n = Ok mn ∧ is_i 64 mn.
Proof.
  intros Hn Hb. unfold find_min. rewrite vget_nthz by lia. cbn [mbind result_bind].
  apply (for_range_inv (fun _ mn => is_i 64 mn)); [lia|apply Hb; lia|]. intros i mn Hi Hmn. rewrite vget_nthz by lia.
  eexists. split; [done|]. specialize (Hb i ltac:(lia)). unfold is_i in *. lia.
Qed.

Lemma subtract_min_spec mn b n : 0 ≤ n ≤ vlen b →
  ∃ mx b', subtract_min mn b n = Ok (mx, b') ∧ is_i 64 mx ∧ replaced (fun _ v => as_i64 (v - mn)) n b b' ∧
    (mx = 0 → ∀ k, 0 ≤ k < n → nthz b' k = 0) ∧ (∀ B, 0 ≤ B ≤ 64 → fits B mx → ∀ k, 0 ≤ k < n → fits B (nthz b' k)).
Proof.
  intros Hn. set (P := fun (i : Z) (x : Z * list Z) => is_i 64 x.1 ∧ replaced (fun _ v => as_i64 (v - mn)) i b x.2 ∧
      (x.1 = 0 → ∀ k, 0 ≤ k < i → nthz x.2 k = 0) ∧ (∀ B, 0 ≤ B ≤ 64 → fits B x.1 → ∀ k, 0 ≤ k < i → fits B (nthz x.2 k))).
  enough (∃ x, subtract_min mn b n = Ok x ∧ P n x) as ([mx b'] & -> & H1 & H2 & H3 & H4) by (by exists mx, b').
  apply for_range_inv; [lia| |].
  - unfold P. cbn [fst snd]. split_and!; try done; try lia; apply replaced_0.
  - intros i [mx b'] Hi (H1 & Hr & H3 & H4). cbn [fst snd] in *. pose proof Hr as [Hl Hv]. rewrite vget_nthz by lia. cbn [mbind result_bind].
    set (v := as_i64 (nthz b' i - mn)). assert (is_i 64 v) as Hvi by (apply as_i_range; lia).
    destruct (vset_nthz b' i v) as (b'' & -> & Hl' & Hv'); [lia|]. cbn [mbind result_bind]. eexists. split; [done|]. unfold P. cbn [fst snd].
    split; [by apply is_i_lor; [lia| |]|]. split; [|split].
    + apply (replaced_next _ i b b'); try done; [lia|]. intros j Hj. rewrite Hv' by done. unfold v. rewrite (Hv i) by lia.
      by rewrite (proj2 (Z.ltb_ge i i)) by lia.
    + intros [E1 E2]%Z.lor_eq_0_iff k Hk. rewrite Hv' by lia. destruct (Z.eqb_spec k i); [done|]. apply H3; [done|lia].
    + intros B HB [F1 F2]%fits_lor k Hk; [|done|done|done]. rewrite Hv' by lia. destruct (Z.eqb_spec k i); [done|]. apply (H4 B); done || lia.
Qed.
End loops.

(** * A block *)

(** What the metadata has of a block. *)
Record entry : Type := mk_entry { e_min : Z; e_avg : Z; e_off : Z; e_bpv : Z }.
Definition entry_bytes (e : entry) : list Z :=
  be_bytes 8 (e_min e) ++ be_bytes 4 (as_i32 (e_avg e)) ++ be_bytes 8 (e_off e) ++ [e_bpv e].

(** The bytes [ds] and the metadata determine the values [b]. *)
Definition block_ok (b : list Z) (e : entry) (ds : list Z) : Prop :=
  is_i 64 (e_min e) ∧ is_u 32 (e_avg e) ∧ is_i 64 (e_off e) ∧ vlen b < 2 ^ 31 ∧
  ∃ deltas, vlen deltas = vlen b ∧
    (∀ i, 0 ≤ i < vlen b → as_i64 (as_i64 (e_min e + expected_value (e_avg e) i) + nthz deltas i) = nthz b i) ∧
    ((e_bpv e = 0 ∧ ∀ i, 0 ≤ i < vlen b → nthz deltas i = 0) ∨
     (In (e_bpv e) DirectWriter.SUPPORTED_BITS_PER_VALUE ∧ stream (e_bpv e) ds deltas ∧ Forall (fits (e_bpv e)) deltas ∧
      vlen ds = (e_bpv e * vlen deltas + 7) / 8 + 3)).

Lemma unsigned_bits_spec mx : is_i 64 mx →
  ∃ B, DirectWriter.unsigned_bits_required mx = Ok B ∧ In B DirectWriter.SUPPORTED_BITS_PER_VALUE ∧ fits B mx.
Proof.
  intros Hmx. pose proof (bits_required_range mx Hmx) as Hr. unfold DirectWriter.unsigned_bits_required.
  rewrite as_i_id by (try lia; unfold is_i; lia).
  assert (forallb (fun b => match DirectWriter.round_bits b with
                            | Ok B => (b <=? B) && existsb (Z.eqb B) DirectWriter.SUPPORTED_BITS_PER_VALUE
                            | _ => false end) (seqZ 1 64) = true) as Hall by (vm_compute; reflexivity).
  rewrite forallb_forall in Hall. specialize (Hall (bits_required 64 mx) ltac:(apply list_elem_of_In, elem_of_seqZ; lia)).
  destruct (DirectWriter.round_bits _) as [B| | |]; try done. apply andb_true_iff in Hall as [Hle%Z.leb_le Hin].
  apply existsb_exists in Hin as (x & Hx & ->%Z.eqb_eq). exists x. split; [done|]. split; [done|]. apply fits_bits_required; [lia|done|lia].
Qed.

(** The deviation undoes the subtraction of the line and of the minimum. *)
Lemma line_back v e mn : is_i 64 v → as_i64 (as_i64 (mn + e) + as_i64 (as_i64 (v - e) - mn)) = v.
Proof.
  intros Hv. rewrite <- (as_i_id 64 v) at 2 by (done || lia). apply as_i_congr.
  assert (∀ a c, (as_i64 a + c) mod 2 ^ 64 = (a + c) mod 2 ^ 64) as Hl
    by (intros a c; rewrite <- Z.add_mod_idemp_l, as_i_mod, Z.add_mod_idemp_l by lia; done).
  assert (∀ a c, (c + as_i64 a) mod 2 ^ 64 = (c + a) mod 2 ^ 64) as Hr by (intros a c; rewrite Z.add_comm, Hl, Z.add_comm; done).
  rewrite Hl, Hr. replace (mn + e + (as_i64 (v - e) - mn)) with (as_i64 (v - e) + e) by lia. rewrite Hl. f_equal. lia.
Qed.

(** The law of [file_pointer]. *)
Class LawfulIndexOutput (Out : Type) `{LawfulOutput Out} `{!IndexOutput Out} : Prop :=
  file_pointer_law : ∀ o : Out, file_pointer o = vlen (written o).

Lemma roomy_values {Out} `{LawfulOutput Out} (o : Out) B vals : In B DirectWriter.SUPPORTED_BITS_PER_VALUE → vlen vals < 2 ^ 31 →
  Forall (fits B) vals → roomy o →
  ∃ o' bs, write_values o B vals = Ok o' ∧ written o' = written o ++ bs ∧ vlen bs = (B * vlen vals + 7) / 8 + 3 ∧ stream B bs vals ∧ roomy o'.
Proof.
  intros HB Hn Hf Ho. pose proof (supported_range B HB). pose proof (vlen_nonneg vals).
  assert (0 ≤ (B * vlen vals + 7) / 8) as Hc by (apply Z.div_pos; nia).
  destruct (write_values_spec o B vals 0 HB Hn Hf) as (o' & bs & E & Hlog & Hlen & Hst & _); [lia|apply Ho; lia|].
  exists o', bs. split_and!; try done. intros n Hn'.
  destruct (write_values_spec o B vals n HB Hn Hf Hn') as (o'' & bs' & E' & _ & _ & _ & Hacc); [apply Ho; lia|].
  rewrite E in E'. by injection E' as ->.
Qed.

(** * The writer *)

Section writer.
Context {Out : Type} `{HO : LawfulIndexOutput Out}.
Import DirectMonotonicWriter.

(** The part of [flush] that stores the deviations. *)
Definition store_deltas (meta data : Out) (mx : Z) (b : list Z) (n : Z) : result (Out * Out) :=
  if mx =? 0 then meta ← write_byte meta 0; Ok (meta, data)
  else
    bits_required ← DirectWriter.unsigned_bits_required mx;
    writer ← DirectWriter.get_instance data n bits_required;
    writer ← for_range 0 n (fun i writer => v ← vget b i; DirectWriter.add writer v) writer;
    writer ← DirectWriter.finish writer;
    meta ← write_byte meta (as_u8 bits_required);
    Ok (meta, DirectWriter.output writer).

Lemma store_deltas_spec meta data mx b n : roomy meta → roomy data → 1 ≤ n ≤ vlen b → vlen b < 2 ^ 31 → is_i 64 mx →
  (mx = 0 → ∀ k, 0 ≤ k < n → nthz b k = 0) → (∀ B, 0 ≤ B ≤ 64 → fits B mx → ∀ k, 0 ≤ k < n → fits B (nthz b k)) →
  ∃ meta' data' bpv ds, store_deltas meta data mx b n = Ok (meta', data') ∧
    written meta' = written meta ++ [bpv] ∧ written data' = written data ++ ds ∧ roomy meta' ∧ roomy data' ∧
    let deltas := take (Z.to_nat n) b in
    ((bpv = 0 ∧ ∀ i, 0 ≤ i < n → nthz deltas i = 0) ∨
     (In bpv DirectWriter.SUPPORTED_BITS_PER_VALUE ∧ stream bpv ds deltas ∧ Forall (fits bpv) deltas ∧
      vlen ds = (bpv * vlen deltas + 7) / 8 + 3)).
Proof using HO.
  intros Hrm Hrd Hn Hl Hmx Hz0 Hfit. unfold store_deltas. destruct (Z.eqb_spec mx 0) as [->|].
  - destruct (roomy_emits _ _ meta (emits_write_all [0]) Hrm) as (meta' & E & Hlog & Hrm'). unfold write_byte. rewrite E.
    eexists _, _, 0, []. rewrite app_nil_r. split; [done|]. split_and!; try done. left. split; [done|].
    intros i Hi. rewrite nthz_take by lia. by apply Hz0.
  - destruct (unsigned_bits_spec mx Hmx) as (B & -> & HB & HfB). pose proof (supported_range B HB). cbn [mbind result_bind].
    set (deltas := take (Z.to_nat n) b). assert (vlen deltas = n) as Hdl by (apply vlen_take; lia).
    assert (Forall (fits B) deltas) as Hfd.
    { apply Packed64Facts.Forall_nthz. intros k Hk. unfold deltas. rewrite nthz_take by lia. apply Hfit; done || lia. }
    destruct (roomy_values data B deltas HB) as (data' & ds & E & Hlog & Hlen & Hst & Hrd'); [lia|done|done|].
    unfold write_values in E. rewrite Hdl in E. destruct (DirectWriter.get_instance data n B) as [w0| | |]; try done. cbn [mbind result_bind] in E |- *.
    rewrite for_range_for_each by lia. fold deltas. destruct (for_each deltas _ w0) as [w1| | |]; try done. cbn [mbind result_bind] in E |- *.
    destruct (DirectWriter.finish w1) as [w2| | |]; try done. cbn [mbind result_bind] in E |- *. injection E as <-.
    destruct (roomy_emits _ _ meta (emits_write_all [as_u8 B]) Hrm) as (meta' & E' & Hlog' & Hrm'). unfold write_byte. rewrite E'.
    rewrite (as_u_id 8 B) in Hlog' by (unfold is_u; lia).
    eexists _, _, B, ds. split; [done|]. split_and!; try done. right. by split_and!.
Qed.

(** What a flush keeps. *)
Definition same_config (w w' : t Out) : Prop :=
  num_values w' = num_values w ∧ base_data_pointer w' = base_data_pointer w ∧ count w' = count w ∧ finished w' = finished w ∧
  previous w' = previous w ∧ vlen (buffer w') = vlen (buffer w).

Lemma flush_block w : 1 ≤ buffer_size w ≤ vlen (buffer w) → vlen (buffer w) < 2 ^ 31 →
  Forall (is_i 64) (take (Z.to_nat (buffer_size w)) (buffer w)) → roomy (meta w) → roomy (data w) →
  ∃ w' e ds, flush w = Ok w' ∧ written (meta w') = written (meta w) ++ entry_bytes e ∧ written (data w') = written (data w) ++ ds ∧
    roomy (meta w') ∧ roomy (data w') ∧ block_ok (take (Z.to_nat (buffer_size w)) (buffer w)) e ds ∧
    e_off e = as_i64 (vlen (written (data w)) - base_data_pointer w) ∧ buffer_size w' = 0 ∧ same_config w w'.
Proof using HO.
  intros Hn Hl Hcur Hrm Hrd. set (n := buffer_size w) in *. set (cur := take (Z.to_nat n) (buffer w)) in *.
  assert (vlen cur = n) as Hcl by (apply vlen_take; lia). unfold flush. fold n.
  assert (∃ avg, avg_inc (buffer w) n = Ok avg ∧ is_u 32 avg) as (avg & Eavg & Havg).
  { unfold avg_inc. rewrite !vget_nthz by lia. cbn [mbind result_bind]. eexists. split; [done|]. apply as_u_range. lia. }
  rewrite Eavg. cbn [mbind result_bind].
  destruct (subtract_line_spec avg (buffer w) n) as (b1 & -> & [Hl1 Hv1]); [lia|]. cbn [mbind result_bind].
  destruct (find_min_spec b1 n) as (mn & -> & Hmn); [lia| |].
  { intros k Hk. rewrite Hv1, (proj2 (Z.ltb_lt k n)) by lia. apply as_i_range. lia. }
  cbn [mbind result_bind]. destruct (subtract_min_spec mn b1 n) as (mx & b2 & -> & Hmx & [Hl2 Hv2] & Hz0 & Hfit); [lia|]. cbn [mbind result_bind].
  rewrite file_pointer_law. set (off := as_i64 (vlen (written (data w)) - base_data_pointer w)).
  destruct (roomy_emits _ _ (meta w) (emits_fixed 8 mn) Hrm) as (m1 & E1 & L1 & R1).
  destruct (roomy_emits _ _ m1 (emits_fixed 4 (as_i32 avg)) R1) as (m2 & E2 & L2 & R2).
  destruct (roomy_emits _ _ m2 (emits_fixed 8 off) R2) as (m3 & E3 & L3 & R3).
  unfold write_long, write_int. rewrite E1. cbn [mbind result_bind]. rewrite E2. cbn [mbind result_bind]. rewrite E3. cbn [mbind result_bind].
  destruct (store_deltas_spec m3 (data w) mx b2 n R3 Hrd) as (m4 & d' & bpv & ds & Estore & L4 & Ld & R4 & Rd & Hds); [lia|lia|done|done|done|].
  unfold store_deltas in Estore. rewrite Estore. cbn [mbind result_bind].
  eexists _, (mk_entry mn avg off bpv), ds. split; [done|]. cbn [meta data buffer_size]. unfold entry_bytes. cbn [e_min e_avg e_off e_bpv].
  split; [by rewrite L4, L3, L2, L1, <- !app_assoc|]. split; [done|]. split; [done|]. split; [done|].
  split; [|split; [done|split; [done|unfold same_config; cbn; split_and!; congruence]]].
  split; [done|]. split; [done|]. split; [apply as_i_range; lia|]. split; [lia|].
  exists (take (Z.to_nat n) b2). split; [rewrite vlen_take; lia|]. cbn [e_min e_avg e_off e_bpv]. rewrite Hcl. split; [|done].
  intros i Hi. rewrite nthz_take, Hv2, (proj2 (Z.ltb_lt i n)), Hv1, (proj2 (Z.ltb_lt i n)) by lia. unfold cur. rewrite nthz_take by lia.
  apply line_back. rewrite <- (nthz_take (buffer w) n) by lia. fold cur. apply nthz_Forall; [done|lia].
Qed.

(** The block lies in the data where its metadata says. *)
Definition placed (dbs : list Z) (b : list Z) (e : entry) : Prop :=
  ∃ pre ds post, dbs = pre ++ ds ++ post ∧ e_off e = as_i64 (vlen pre) ∧ block_ok b e ds.

Lemma placed_app dbs more b e : placed dbs b e → placed (dbs ++ more) b e.
Proof using. intros (pre & ds & post & -> & Ho & Hb). exists pre, ds, (post ++ more). by rewrite <- !app_assoc. Qed.

(** The writer has flushed [blocks] and holds [cur]. *)
Record collecting (m0 d0 : Out) (N bsz : Z) (blocks : list (list Z)) (cur : list Z) (w : t Out) : Prop := {
  c_config : num_values w = N ∧ base_data_pointer w = vlen (written d0) ∧ finished w = false ∧ vlen (buffer w) = bsz ∧ 0 < bsz < 2 ^ 31;
  c_cur : buffer_size w = vlen cur ∧ vlen cur ≤ bsz ∧ take (Z.to_nat (vlen cur)) (buffer w) = cur ∧ Forall (is_i 64) cur;
  c_count : count w = vlen (concat blocks ++ cur);
  c_roomy : roomy (meta w) ∧ roomy (data w);
  c_out : ∃ es dbs, written (meta w) = written m0 ++ concat (map entry_bytes es) ∧ written (data w) = written d0 ++ dbs ∧
    Forall2 (placed dbs) blocks es;
}.

Lemma flush_collecting m0 d0 N bsz blocks cur w : collecting m0 d0 N bsz blocks cur w → 1 ≤ vlen cur →
  ∃ w', flush w = Ok w' ∧ collecting m0 d0 N bsz (blocks ++ [cur]) [] w' ∧ previous w' = previous w.
Proof using HO.
  intros [(En & Eb & Ef & Ebl & Hbsz) (Es & Hle & Ecur & Hi) Ec [Rm Rd] (es & dbs & Lm & Ld & Hp)] H1.
  destruct (flush_block w) as (w' & e & ds & Hrun & Lm' & Ld' & Rm' & Rd' & Hok & Hoff & Es' & (C1 & C2 & C3 & C4 & C5 & C6));
    rewrite ?Es, ?Ecur; try done; try lia.
  rewrite Es, Ecur in Hok. exists w'. split; [done|]. split; [|done]. constructor.
  - rewrite C1, C2, C4, C6. done.
  - rewrite Es'. change (vlen []) with 0. split_and!; done || lia.
  - rewrite C3, Ec, concat_app. cbn [concat]. by rewrite !app_nil_r.
  - done.
  - exists (es ++ [e]), (dbs ++ ds). rewrite Lm', Ld', Lm, Ld, map_app, concat_app. cbn [map concat]. rewrite app_nil_r, <- !app_assoc.
    split; [done|]. split; [done|]. apply Forall2_app.
    + eapply Forall2_impl; [|exact Hp]. intros b e' Hbe. by apply placed_app.
    + constructor; [|constructor]. exists dbs, ds, []. rewrite app_nil_r. split; [done|]. split; [|done]. rewrite Hoff, Ld, Eb, vlen_app. f_equal. lia.
Qed.

Lemma push_collecting m0 d0 N bsz blocks cur w v : collecting m0 d0 N bsz blocks cur w → vlen cur < bsz → is_i 64 v →
  ∃ b, vset (buffer w) (buffer_size w) v = Ok b ∧
    collecting m0 d0 N bsz blocks (cur ++ [v])
      (mk (meta w) (data w) (num_values w) (base_data_pointer w) b (buffer_size w + 1) (count w + 1) (finished w) v).
Proof using.
  intros [(En & Eb & Ef & Ebl & Hbsz) (Es & Hle & Ecur & Hi) Ec Hr Ho] Hlt Hv. pose proof (vlen_nonneg cur).
  destruct (vset_nthz (buffer w) (buffer_size w) v) as (b & -> & Hl & Hn); [lia|]. exists b. split; [done|].
  assert (vlen (cur ++ [v]) = vlen cur + 1) as Elen by (by rewrite vlen_app).
  constructor; cbn [num_values base_data_pointer finished buffer buffer_size count meta data]; try done.
  - split_and!; try done; lia.
  - rewrite Elen. split; [lia|]. split; [lia|]. split; [|apply Forall_app_2; [done|by constructor]].
    apply nthz_ext; [rewrite vlen_take; lia|]. intros k Hk. rewrite vlen_take in Hk by lia. rewrite nthz_take, Hn, nthz_app by lia.
    destruct (Z.eqb_spec k (buffer_size w)) as [->|].
    + by rewrite Es, (proj2 (Z.ltb_ge _ _)), Z.sub_diag by lia.
    + rewrite (proj2 (Z.ltb_lt k (vlen cur))) by lia. rewrite <- (nthz_take (buffer w) (vlen cur)) by lia. by rewrite Ecur.
  - by rewrite Ec, app_assoc, (vlen_app _ [v]).
Qed.

(** All blocks are full but the last. *)
Definition full_blocks (bsz : Z) (blocks : list (list Z)) : Prop := Forall (fun b => vlen b = bsz) blocks.

Lemma add_collecting m0 d0 N bsz blocks cur w v : collecting m0 d0 N bsz blocks cur w → full_blocks bsz blocks → is_i 64 v →
  previous w ≤ v →
  ∃ w' blocks' cur', add w v = Ok w' ∧ collecting m0 d0 N bsz blocks' cur' w' ∧ full_blocks bsz blocks' ∧ 1 ≤ vlen cur' ∧
    concat blocks' ++ cur' = (concat blocks ++ cur) ++ [v] ∧ previous w' = v.
Proof using HO.
  intros Hw Hfull Hv Hprev. unfold add. rewrite (proj2 (Z.ltb_ge v (previous w))) by lia.
  pose proof Hw as [(_ & _ & _ & Ebl & Hbsz) (Es & Hle & _) _ _ _]. destruct (Z.eqb_spec (buffer_size w) (vlen (buffer w))) as [E|E].
  - destruct (flush_collecting _ _ _ _ _ _ w Hw) as (w1 & -> & Hw1 & Hp1); [lia|]. cbn [mbind result_bind].
    destruct (push_collecting _ _ _ _ _ _ w1 v Hw1) as (b & -> & Hw2); [change (vlen []) with 0; lia|done|].
    eexists _, (blocks ++ [cur]), [v]. split; [done|]. split; [exact Hw2|]. split; [apply Forall_app_2; [done|by constructor; [lia|]]|].
    split; [done|]. split; [|done]. rewrite concat_app. cbn. by rewrite app_nil_r.
  - cbn [mbind result_bind]. pose proof (vlen_nonneg cur). destruct (push_collecting _ _ _ _ _ _ w v Hw) as (b & -> & Hw2); [lia|done|].
    eexists _, blocks, (cur ++ [v]). split; [done|]. split; [exact Hw2|]. split; [done|]. split; [rewrite vlen_app; change (vlen [v]) with 1; lia|].
    split; [by rewrite app_assoc|done].
Qed.

Lemma adds_collecting m0 d0 N bsz : ∀ vals blocks cur w, collecting m0 d0 N bsz blocks cur w → full_blocks bsz blocks →
  Forall (is_i 64) vals → Sorted Z.le (previous w :: vals) →
  ∃ w' blocks' cur', for_each vals (fun v w => add w v) w = Ok w' ∧ collecting m0 d0 N bsz blocks' cur' w' ∧ full_blocks bsz blocks' ∧
    concat blocks' ++ cur' = (concat blocks ++ cur) ++ vals ∧ (vals ≠ [] ∨ 1 ≤ vlen cur → 1 ≤ vlen cur').
Proof using HO.
  induction vals as [|v vals IH]; intros blocks cur w Hw Hfull Hi Hs; [exists w, blocks, cur; rewrite app_nil_r; split_and!; try done; by intros [|]|].
  apply Forall_cons_iff in Hi as [Hv Hi]. apply Sorted_inv in Hs as [Hs Hhd]. apply HdRel_inv in Hhd.
  destruct (add_collecting _ _ _ _ _ _ w v Hw Hfull Hv Hhd) as (w1 & bl1 & cur1 & E & Hw1 & Hfull1 & H1 & Econc & Eprev).
  cbn [for_each]. rewrite E. cbn [mbind result_bind]. rewrite <- Eprev in Hs.
  destruct (IH bl1 cur1 w1 Hw1 Hfull1 Hi Hs) as (w2 & bl2 & cur2 & -> & Hw2 & Hfull2 & Econc2 & H2).
  exists w2, bl2, cur2. split; [done|]. split; [done|]. split; [done|]. split; [rewrite Econc2, Econc, <- app_assoc; done|].
  intros _. apply H2. by right.
Qed.

(** [finish] flushes what is left. *)
Lemma finish_collecting m0 d0 N bsz blocks cur w : collecting m0 d0 N bsz blocks cur w → N = vlen (concat blocks ++ cur) →
  ∃ w' blocks', finish w = Ok w' ∧ blocks' = (if decide (cur = []) then blocks else blocks ++ [cur]) ∧
    concat blocks' = concat blocks ++ cur ∧
    ∃ es dbs, written (meta w') = written m0 ++ concat (map entry_bytes es) ∧ written (data w') = written d0 ++ dbs ∧
      Forall2 (placed dbs) blocks' es.
Proof using HO.
  intros Hw HN. pose proof Hw as [(En & _ & Ef & _ & _) (Es & _) Ec _ Ho]. unfold finish.
  rewrite (proj2 (Z.eqb_eq (count w) (num_values w))), Ef by lia. cbn [negb]. destruct (decide (cur = [])) as [->|Hne].
  - rewrite (proj2 (Z.ltb_ge 0 _)) by (rewrite Es; done). cbn [mbind result_bind]. eexists _, blocks. rewrite app_nil_r. by split_and!.
  - assert (1 ≤ vlen cur) as H1 by (destruct cur as [|x c]; [done|rewrite vlen_cons; pose proof (vlen_nonneg c); lia]).
    rewrite (proj2 (Z.ltb_lt 0 _)) by lia. destruct (flush_collecting _ _ _ _ _ _ w Hw H1) as (w' & -> & [_ _ _ _ Ho'] & _). cbn [mbind result_bind].
    eexists _, (blocks ++ [cur]). split; [done|]. split; [done|]. split; [rewrite concat_app; cbn; by rewrite app_nil_r|]. done.
Qed.
End writer.

(** * The reader *)

Definition entry_wf (e : entry) : Prop := is_i 64 (e_min e) ∧ is_u 32 (e_avg e) ∧ is_i 64 (e_off e).

(** The columns of the metadata. *)
Definition columns (es : list entry) (mins avgs bpvs offsets : list Z) (n : Z) : Prop :=
  vlen mins = vlen es ∧ vlen avgs = vlen es ∧ vlen bpvs = vlen es ∧ vlen offsets = vlen es ∧
  ∀ k e, 0 ≤ k < n → es !! Z.to_nat k = Some e →
    nthz mins k = e_min e ∧ nthz avgs k = e_avg e ∧ nthz bpvs k = e_bpv e ∧ nthz offsets k = e_off e.

Section meta.
Context {In : Type} `{HI : LawfulInput In}.
Import DirectMonotonicReader.

Lemma parses_long v : is_i 64 v → parses read_long (be_bytes 8 v) v.
Proof. apply (parses_fixed 8 v). lia. Qed.
Lemma parses_int v : is_i 32 v → parses read_int (be_bytes 4 v) v.
Proof. apply (parses_fixed 4 v). lia. Qed.

Lemma load_loop es rest (i : In) : Forall entry_wf es → remains i (concat (map entry_bytes es) ++ rest) →
  let zeros := replicate (length es) 0 in
  ∃ mins avgs bpvs offsets i',
    for_range 0 (vlen es) (fun i '(mins, avgs, bpvs, offsets, meta_in) =>
      '(v, meta_in) ← read_long meta_in; mins ← vset mins i v;
      '(v, meta_in) ← read_int meta_in; avgs ← vset avgs i (as_u32 v);
      '(v, meta_in) ← read_long meta_in; offsets ← vset offsets i v;
      '(v, meta_in) ← read_byte meta_in; bpvs ← vset bpvs i v;
      Ok (mins, avgs, bpvs, offsets, meta_in)) (zeros, zeros, zeros, zeros, i) = Ok (mins, avgs, bpvs, offsets, i') ∧
    columns es mins avgs bpvs offsets (vlen es) ∧ remains i' rest.
Proof using HI.
  intros Hwf Hrem zeros. set (P := fun (k : Z) (x : list Z * list Z * list Z * list Z * In) =>
    let '(mins, avgs, bpvs, offsets, i) := x in columns es mins avgs bpvs offsets k ∧
      remains i (concat (map entry_bytes (drop (Z.to_nat k) es)) ++ rest)).
  match goal with |- ∃ a b c d e, ?run = _ ∧ _ => enough (∃ x, run = Ok x ∧ P (vlen es) x) as ([[[[mins avgs] bpvs] offsets] i'] & -> & Hc & Hr) end.
  { rewrite to_nat_vlen, drop_all in Hr. by exists mins, avgs, bpvs, offsets, i'. }
  pose proof (vlen_nonneg es). apply for_range_inv; [done| |].
  - split; [|done]. assert (vlen zeros = vlen es) as Ez by (unfold vlen, zeros; by rewrite length_replicate).
    split_and!; try done. intros k e Hk. lia.
  - intros k [[[[mins avgs] bpvs] offsets] i0] Hk ((L1 & L2 & L3 & L4 & Hv) & Hr). clear i Hrem.
    destruct (lookup_lt_is_Some_2 es (Z.to_nat k)) as [e He]; [unfold vlen in Hk; lia|].
    rewrite (drop_S es e (Z.to_nat k) He) in Hr. cbn [map concat] in Hr. unfold entry_bytes in Hr. rewrite <- !app_assoc in Hr.
    pose proof (Forall_lookup_1 _ _ _ _ Hwf He) as (W1 & W2 & W3).
    destruct (parses_long (e_min e) W1 i0 _ Hr) as (i1 & -> & R1). cbn [mbind result_bind].
    destruct (vset_nthz mins k (e_min e)) as (mins' & -> & M1 & M2); [lia|]. cbn [mbind result_bind].
    destruct (parses_int (as_i32 (e_avg e)) ltac:(apply as_i_range; lia) i1 _ R1) as (i2 & -> & R2). cbn [mbind result_bind].
    rewrite as_u_as_i, as_u_id by (lia || done).
    destruct (vset_nthz avgs k (e_avg e)) as (avgs' & -> & A1 & A2); [lia|]. cbn [mbind result_bind].
    destruct (parses_long (e_off e) W3 i2 _ R2) as (i3 & -> & R3). cbn [mbind result_bind].
    destruct (vset_nthz offsets k (e_off e)) as (offsets' & -> & O1 & O2); [lia|]. cbn [mbind result_bind].
    destruct (parses_byte (e_bpv e) i3 _ R3) as (i4 & -> & R4). cbn [mbind result_bind].
    destruct (vset_nthz bpvs k (e_bpv e)) as (bpvs' & -> & B1 & B2); [lia|]. cbn [mbind result_bind].
    eexists. split; [done|]. split; [|by replace (Z.to_nat (k + 1)) with (S (Z.to_nat k)) by lia].
    split_and!; try lia. intros j e' Hj He'. rewrite M2, A2, B2, O2 by lia. destruct (Z.eqb_spec j k) as [->|].
    + rewrite He in He'. by injection He' as <-.
    + apply Hv; [lia|done].
Qed.
End meta.

(** The number of blocks [load_meta] computes. *)
Lemma block_count N s L c : 3 ≤ s ≤ 30 → 0 ≤ L → (c = 0 ∨ 1 ≤ c ≤ 2 ^ s) → N = L * 2 ^ s + c → N < 2 ^ 62 →
  (let nb := shr_i N s in let nb := if shl_i 64 nb s <? N then nb + 1 else nb in as_u64 nb) = if c =? 0 then L else L + 1.
Proof.
  intros Hs HL Hc EN HN. unfold shr_i, shl_i. cbv zeta. pose proof (pow2_pos s ltac:(lia)) as Hp.
  pose proof (Z.div_mod N (2 ^ s) ltac:(lia)) as E. pose proof (Z.mod_pos_bound N (2 ^ s) ltac:(lia)) as Hm.
  rewrite Z.shiftr_div_pow2, Z.shiftl_mul_pow2 by lia. set (q := N / 2 ^ s) in *.
  assert (0 ≤ q ≤ N) as Hq by nia. rewrite as_i_id by (try lia; unfold is_i; nia).
  destruct (Z.eqb_spec c 0) as [->|]; destruct (Z.ltb_spec (q * 2 ^ s) N); rewrite as_u_id by (unfold is_u; lia); nia.
Qed.

Lemma concat_full bsz blocks : full_blocks bsz blocks → vlen (concat blocks) = vlen blocks * bsz.
Proof.
  induction 1 as [|b blocks Hb _ IH]; [done|]. cbn [concat]. rewrite vlen_app, vlen_cons, Hb, IH. lia.
Qed.

(** Where a value is. *)
Lemma nthz_concat bsz blocks cur i : 0 < bsz → full_blocks bsz blocks → vlen cur ≤ bsz → 0 ≤ i < vlen (concat blocks ++ cur) →
  ∃ b, (blocks ++ [cur]) !! Z.to_nat (i / bsz) = Some b ∧ 0 ≤ i mod bsz < vlen b ∧ nthz (concat blocks ++ cur) i = nthz b (i mod bsz).
Proof.
  intros Hb Hfull Hc. revert i. induction Hfull as [|x blocks Hx Hfull IH]; intros i Hi.
  - cbn [concat app] in *. exists cur. rewrite Z.div_small, Z.mod_small by lia. split; [done|]. split; [lia|done].
  - cbn [concat app]. rewrite <- app_assoc. cbn [concat] in Hi. rewrite <- app_assoc, vlen_app in Hi.
    rewrite nthz_app by lia. rewrite Hx in *. destruct (Z.ltb_spec i bsz).
    + exists x. rewrite Z.div_small, Z.mod_small by lia. split; [done|]. split; [lia|done].
    + destruct (IH (i - bsz)) as (b & Hbl & Hr & Hv); [lia|].
      assert (i = (i - bsz) + 1 * bsz) as Ei by lia.
      assert (i / bsz = (i - bsz) / bsz + 1) as Ed by (rewrite Ei at 1; apply Z.div_add; lia).
      assert (i mod bsz = (i - bsz) mod bsz) as Em by (rewrite Ei at 1; apply Z.mod_add; lia).
      exists b. rewrite Ed, Em, Hv. split; [|by split]. pose proof (Z.div_pos (i - bsz) bsz ltac:(lia) ltac:(lia)).
      replace (Z.to_nat ((i - bsz) / bsz + 1)) with (S (Z.to_nat ((i - bsz) / bsz))) by lia. done.
Qed.

Section values.
Context {R : Type} `{HR : RandomReads R}.
Import DirectMonotonicReader.

(** The reader of a block. *)
Definition reader_of (input : R) (e : entry) : result (option (DirectReader.t R)) :=
  if e_bpv e =? 0 then Ok None else r ← DirectReader.get_instance input (e_bpv e) (e_off e); Ok (Some r).

Definition delta_of (r : option (DirectReader.t R)) (i : Z) : result Z :=
  match r with Some reader => DirectReader.get64 reader i | None => Ok 0 end.

Lemma supported_instance (input : R) B off : List.In B DirectWriter.SUPPORTED_BITS_PER_VALUE → ∃ r, DirectReader.get_instance input B off = Ok r.
Proof using. intros HB. unfold DirectReader.get_instance. repeat (destruct HB as [<-|HB]; [by eexists|]). done. Qed.

Lemma block_reader input dbs post b e : readable input (dbs ++ post) → placed dbs b e →
  ∃ r, reader_of input e = Ok r ∧ ∀ i, 0 ≤ i < vlen b → ∃ d, delta_of r i = Ok d ∧
    as_i64 (as_i64 (e_min e + expected_value (e_avg e) i) + d) = nthz b i.
Proof using HR.
  intros Hr (pre & ds & more & -> & Eoff & (_ & _ & _ & Hlt & deltas & Hdl & Hv & Hd)). unfold reader_of.
  destruct Hd as [[E Hz]|(HB & Hst & Hf & Hlen)].
  - rewrite E. exists None. split; [done|]. intros i Hi. exists 0. split; [done|]. rewrite <- Hv by done. by rewrite Hz.
  - pose proof (supported_range _ HB). rewrite (proj2 (Z.eqb_neq _ 0)) by lia.
    rewrite <- !app_assoc in Hr. pose proof (readable_len _ _ Hr) as Hlong. rewrite vlen_app in Hlong.
    pose proof (vlen_nonneg pre). pose proof (vlen_nonneg (ds ++ more ++ post)). rewrite as_i_id in Eoff by (try lia; unfold is_i; lia).
    rewrite Eoff. destruct (supported_instance input _ (vlen pre) HB) as [r Er]. rewrite Er. exists (Some r). split; [done|].
    intros i Hi. destruct (stream_reader input (e_bpv e) pre ds (more ++ post) deltas i) as (r' & Er' & Hget); try done; try lia.
    rewrite Er in Er'. injection Er' as <-. exists (nthz deltas i). split; [done|]. by apply Hv.
Qed.

Lemma instance_spec (m : meta) input dbs post blocks es : readable input (dbs ++ post) → Forall2 (placed dbs) blocks es →
  num_blocks m = vlen es → columns es (mins m) (avgs m) (bpvs m) (offsets m) (vlen es) →
  ∃ rs, get_instance m input = Ok (mk rs (block_shift m) (mins m) (avgs m)) ∧ length rs = length es ∧
    ∀ k e, es !! k = Some e → ∃ r, rs !! k = Some r ∧ reader_of input e = Ok r.
Proof using HR.
  intros Hr Hp Enb (L1 & L2 & L3 & L4 & Hv). unfold get_instance. rewrite Enb.
  match goal with |- ∃ rs, (x ← ?run; _) = _ ∧ _ => enough (∃ rs, run = Ok rs ∧ vlen rs = vlen es ∧
    ∀ k e, es !! k = Some e → (Z.of_nat k < vlen es) → ∃ r, rs !! k = Some r ∧ reader_of input e = Ok r) as (rs & -> & Hl & Hrs) end.
  { exists rs. split; [done|]. split; [unfold vlen in Hl; lia|]. intros k e He. apply Hrs; [done|]. apply lookup_lt_Some in He. unfold vlen. lia. }
  pose proof (vlen_nonneg es). apply (for_range_inv (fun n rs => vlen rs = n ∧
    ∀ k e, es !! k = Some e → (Z.of_nat k < n) → ∃ r, rs !! k = Some r ∧ reader_of input e = Ok r)); [done| |].
  - split; [done|]. intros k e _ Hk. lia.
  - intros n rs Hn [Hl Hrs]. destruct (lookup_lt_is_Some_2 es (Z.to_nat n)) as [e He]; [unfold vlen in Hn; lia|].
    destruct (Hv n e ltac:(lia) He) as (_ & _ & V3 & V4). rewrite (vget_nthz (bpvs m) n) by lia. rewrite V3. cbn [mbind result_bind].
    destruct (lookup_lt_is_Some_2 blocks (Z.to_nat n)) as [b Hb]; [rewrite (Forall2_length Hp); unfold vlen in Hn; lia|].
    pose proof (Forall2_lookup_lr _ _ _ _ _ _ Hp Hb He) as Hpl. destruct (block_reader _ _ _ _ _ Hr Hpl) as (r & Er & _).
    assert ((if e_bpv e =? 0 then Ok None
             else off ← vget (offsets m) n; r ← DirectReader.get_instance input (e_bpv e) off; Ok (Some r)) = Ok r) as ->.
    { rewrite <- Er. unfold reader_of. destruct (e_bpv e =? 0); [done|]. rewrite (vget_nthz (offsets m) n) by lia. by rewrite V4. }
    cbn [mbind result_bind]. eexists. split; [done|]. split; [rewrite vlen_app; change (vlen [r]) with 1; lia|].
    intros k e' He' Hk. destruct (decide (Z.of_nat k = n)) as [E|].
    + exists r. assert (k = Z.to_nat n) as -> by lia. rewrite He in He'. injection He' as <-. split; [|done].
      apply list_lookup_middle. unfold vlen in Hl. lia.
    + destruct (Hrs k e' He') as (r' & Hr' & Er'); [lia|]. exists r'. split; [|done]. by apply lookup_app_l_Some.
Qed.

Lemma get64_block (v : t R) s b e r i : 3 ≤ s ≤ 30 → shift v = s → 0 ≤ i < 2 ^ 62 →
  vget (readers v) (i / 2 ^ s) = Ok r → vget (block_mins v) (i / 2 ^ s) = Ok (e_min e) → vget (block_avgs v) (i / 2 ^ s) = Ok (e_avg e) →
  (∃ d, delta_of r (i mod 2 ^ s) = Ok d ∧ as_i64 (as_i64 (e_min e + expected_value (e_avg e) (i mod 2 ^ s)) + d) = nthz b (i mod 2 ^ s)) →
  get64 v i = Ok (nthz b (i mod 2 ^ s)).
Proof using.
  intros Hs Es Hi Hr Hm Ha (d & Hd & Hv). unfold get64. rewrite Es, as_u_id by (unfold is_u; lia). rewrite Z.shiftr_div_pow2 by lia.
  assert (as_i64 (shl_i 64 1 s - 1) = Z.ones s) as ->.
  { unfold shl_i. rewrite Z.shiftl_1_l. pose proof (pow2_pos s ltac:(lia)). pose proof (Z.pow_le_mono_r 2 s 30 ltac:(lia) ltac:(lia)).
    rewrite !as_i_id by (try lia; unfold is_i; rewrite ?as_i_id; try lia; unfold is_i; lia). rewrite Z.ones_equiv. lia. }
  rewrite Z.land_ones by lia. rewrite Hr. cbn [mbind result_bind]. unfold delta_of in Hd. rewrite Hd. cbn [mbind result_bind].
  rewrite Hm. cbn [mbind result_bind]. rewrite Ha. cbn [mbind result_bind]. by rewrite Hv.
Qed.
End values.

(** * The round trip *)

Lemma placed_wf dbs b e : placed dbs b e → entry_wf e.
Proof. intros (pre & ds & post & _ & _ & H1 & H2 & H3 & _). by split. Qed.

Lemma sorted_from_least vals : Forall (is_i 64) vals → Sorted Z.le vals → Sorted Z.le (- 2 ^ 63 :: vals).
Proof.
  intros Hi Hs. constructor; [done|]. destruct vals as [|v vals]; constructor. apply Forall_cons_iff in Hi as [Hv _]. unfold is_i in Hv. lia.
Qed.

(** The blocks [finish] leaves: all full but possibly the last, none empty. *)
Definition blocks_of (bsz : Z) (vals : list Z) (blocks : list (list Z)) : Prop :=
  ∃ full last, full_blocks bsz full ∧ vlen last ≤ bsz ∧ concat full ++ last = vals ∧
    blocks = if decide (last = []) then full else full ++ [last].

Lemma blocks_count s vals blocks : 3 ≤ s ≤ 30 → vlen vals < 2 ^ 62 → blocks_of (2 ^ s) vals blocks →
  (let nb := shr_i (vlen vals) s in let nb := if shl_i 64 nb s <? vlen vals then nb + 1 else nb in as_u64 nb) = vlen blocks.
Proof.
  intros Hs HN (full & last & Hf & Hl & Ev & ->). pose proof (vlen_nonneg last). pose proof (vlen_nonneg full).
  rewrite (block_count _ s (vlen full) (vlen last)); try lia.
  - destruct (decide (last = [])) as [->|Hne]; [done|]. rewrite vlen_app. destruct last as [|x l]; [done|].
    pose proof (vlen_nonneg l). rewrite (proj2 (Z.eqb_neq (vlen (x :: l)) 0)); [done|]. rewrite vlen_cons. lia.
  - by rewrite <- Ev, vlen_app, (concat_full (2 ^ s)).
Qed.

Lemma blocks_lookup bsz vals blocks i : 0 < bsz → blocks_of bsz vals blocks → 0 ≤ i < vlen vals →
  ∃ b, blocks !! Z.to_nat (i / bsz) = Some b ∧ 0 ≤ i mod bsz < vlen b ∧ nthz vals i = nthz b (i mod bsz).
Proof.
  intros Hb (full & last & Hf & Hl & <- & ->) Hi. destruct (nthz_concat bsz full last i Hb Hf Hl Hi) as (b & Hlk & Hr & Hv).
  exists b. split; [|by split]. destruct (decide (last = [])) as [->|]; [|done].
  apply lookup_app_Some in Hlk as [|[_ Hlk]]; [done|]. apply list_lookup_singleton_Some in Hlk as [_ <-]. change (vlen []) with 0 in Hr. lia.
Qed.

Section written.
Context {Out : Type} `{HO : LawfulIndexOutput Out}.
Import DirectMonotonicWriter.

(** Opening the writer, adding the values and finishing it. *)
Definition write_monotonic (meta data : Out) (block_shift : Z) (vals : list Z) : result (t Out) :=
  w ← new meta data (vlen vals) block_shift; w ← for_each vals (fun v w => add w v) w; finish w.

Lemma write_monotonic_spec m0 d0 s vals : 3 ≤ s ≤ 30 → vlen vals < 2 ^ 62 → Forall (is_i 64) vals → Sorted Z.le vals →
  roomy m0 → roomy d0 →
  ∃ w blocks es dbs, write_monotonic m0 d0 s vals = Ok w ∧ blocks_of (2 ^ s) vals blocks ∧
    written (meta w) = written m0 ++ concat (map entry_bytes es) ∧ written (data w) = written d0 ++ dbs ∧ Forall2 (placed dbs) blocks es.
Proof using HO.
  intros Hs HN Hi Hsort Rm Rd. unfold write_monotonic, new, MIN_BLOCK_SHIFT, MAX_BLOCK_SHIFT.
  rewrite (proj2 (Z.ltb_ge s 3)), (proj2 (Z.ltb_ge 30 s)) by lia. cbn [orb]. cbn [mbind result_bind].
  rewrite (as_u_id 64 (vlen vals)), file_pointer_law, Z.shiftl_1_l by (pose proof (vlen_nonneg vals); unfold is_u; lia).
  pose proof (pow2_pos s ltac:(lia)). pose proof (Z.pow_le_mono_r 2 s 30 ltac:(lia) ltac:(lia)).
  match goal with |- context [for_each vals _ ?start] => set (w0 := start) end.
  assert (collecting m0 d0 (vlen vals) (2 ^ s) [] [] w0) as Hw0.
  { constructor; cbn [num_values base_data_pointer finished buffer buffer_size count meta data w0]; try done.
    - split_and!; try done; try lia; unfold vlen; rewrite ?length_replicate; lia.
    - split_and!; try done. change (vlen []) with 0. lia.
    - exists [], []. cbn. rewrite !app_nil_r. by split_and!. }
  destruct (adds_collecting _ _ _ _ vals [] [] w0 Hw0) as (w1 & full & last & -> & Hw1 & Hf & Econc & _);
    [constructor|done|by apply sorted_from_least|]. cbn [mbind result_bind]. cbn [concat app] in Econc.
  destruct (finish_collecting _ _ _ _ _ _ w1 Hw1) as (w2 & blocks & -> & Ebl & _ & es & dbs & Lm & Ld & Hp); [by rewrite Econc|].
  exists w2, blocks, es, dbs. split; [done|]. split; [|by split]. exists full, last. split; [done|]. split; [by destruct Hw1 as [_ (_ & Hle & _) _ _ _]|done].
Qed.
End written.

Section roundtrip.
Context {Out In R : Type} `{HO : LawfulIndexOutput Out} `{HI : LawfulInput In} `{HR : RandomReads R}.

Lemma load_meta_spec s vals blocks es dbs rest (i : In) : 3 ≤ s ≤ 30 → vlen vals < 2 ^ 62 → blocks_of (2 ^ s) vals blocks →
  Forall2 (placed dbs) blocks es → remains i (concat (map entry_bytes es) ++ rest) →
  ∃ m i', DirectMonotonicReader.load_meta i (vlen vals) s = Ok (m, i') ∧ remains i' rest ∧
    DirectMonotonicReader.block_shift m = s ∧ DirectMonotonicReader.num_blocks m = vlen es ∧
    columns es (DirectMonotonicReader.mins m) (DirectMonotonicReader.avgs m) (DirectMonotonicReader.bpvs m) (DirectMonotonicReader.offsets m) (vlen es).
Proof using HI.
  intros Hs HN Hbl Hp Hr. unfold DirectMonotonicReader.load_meta. pose proof (blocks_count s vals blocks Hs HN Hbl) as Enb. cbv zeta in Enb.
  assert (vlen blocks = vlen es) as El by (unfold vlen; by rewrite (Forall2_length Hp)). cbv zeta. rewrite Enb, El.
  assert (Forall entry_wf es) as Hwf.
  { apply Forall_lookup_2. intros k e He. destruct (Forall2_lookup_r _ _ _ _ _ Hp He) as (b & _ & Hb). by eapply placed_wf. }
  rewrite to_nat_vlen. destruct (load_loop es rest i Hwf Hr) as (mins & avgs & bpvs & offsets & i' & -> & Hc & Hr'). cbn [mbind result_bind].
  eexists _, i'. split; [done|]. by split.
Qed.

(** C22. What [DirectMonotonicWriter] writes, [DirectMonotonicReader] reads: for a
    block shift in the allowed range and non-decreasing 64-bit values, opening
    the writer on two outputs, adding the values and finishing succeeds and
    appends bytes to both; [load_meta] on an input that holds the first bytes
    consumes exactly those, [get_instance] on a random-access input that holds
    the second ones succeeds, and [get64] at every index returns the value added
    there, whatever the slopes of the blocks round to. *)
Theorem monotonic_roundtrip (m0 d0 : Out) s vals : 3 ≤ s ≤ 30 → vlen vals < 2 ^ 62 → Forall (is_i 64) vals → Sorted Z.le vals →
  roomy m0 → roomy d0 →
  ∃ w mbs dbs, write_monotonic m0 d0 s vals = Ok w ∧
    written (DirectMonotonicWriter.meta w) = written m0 ++ mbs ∧ written (DirectMonotonicWriter.data w) = written d0 ++ dbs ∧
    ∀ (i : In) rest (input : R) post, remains i (mbs ++ rest) → readable input (dbs ++ post) →
      ∃ m i' r, DirectMonotonicReader.load_meta i (vlen vals) s = Ok (m, i') ∧ remains i' rest ∧
        DirectMonotonicReader.get_instance m input = Ok r ∧
        ∀ k, 0 ≤ k < vlen vals → DirectMonotonicReader.get64 r k = Ok (nthz vals k).
Proof using HO HI HR.
  intros Hs HN Hi Hsort Rm Rd. destruct (write_monotonic_spec m0 d0 s vals) as (w & blocks & es & dbs & E & Hbl & Lm & Ld & Hp); try done.
  exists w, (concat (map entry_bytes es)), dbs. split; [done|]. split; [done|]. split; [done|]. intros i rest input post Hrem Hread.
  destruct (load_meta_spec s vals blocks es dbs rest i Hs HN Hbl Hp Hrem) as (m & i' & Em & Hrem' & Esh & Enb & Hc).
  destruct (instance_spec m input dbs post blocks es Hread Hp Enb Hc) as (rs & Er & Hlen & Hrs).
  eexists m, i', _. split; [done|]. split; [done|]. split; [exact Er|]. intros k Hk. pose proof (pow2_pos s ltac:(lia)).
  destruct (blocks_lookup (2 ^ s) vals blocks k ltac:(lia) Hbl Hk) as (b & Hb & Hmod & ->).
  destruct (Forall2_lookup_l _ _ _ _ _ Hp Hb) as (e & He & Hpl). destruct (block_reader input dbs post b e Hread Hpl) as (r & Hr & Hd).
  destruct (Hrs _ e He) as (r' & Hr' & Er'). rewrite Hr in Er'. injection Er' as <-. destruct Hc as (L1 & L2 & _ & _ & Hcols).
  pose proof (Z.div_pos k (2 ^ s) ltac:(lia) ltac:(lia)) as Hq. apply lookup_lt_Some in He as Hlt.
  assert (0 ≤ k / 2 ^ s < vlen es) as Hin by (unfold vlen; lia). destruct (Hcols _ e Hin He) as (V1 & V2 & _ & _).
  apply (get64_block _ s b e r); cbn [DirectMonotonicReader.shift DirectMonotonicReader.readers DirectMonotonicReader.block_mins DirectMonotonicReader.block_avgs]; try done; try lia.
  - replace (k / 2 ^ s) with (Z.of_nat (Z.to_nat (k / 2 ^ s))) by lia. by apply vget_lookup.
  - by rewrite vget_nthz, V1 by lia.
  - by rewrite vget_nthz, V2 by lia.
  - by apply Hd.
Qed.
End roundtrip.

#[global] Instance vec_lawful_index : LawfulIndexOutput (list Z).
Proof. intros o. reflexivity. Qed.

Lemma monotonic_roundtrip_witness :
  ∃ w mbs dbs, write_monotonic [] [9; 9] 3 [-5; 0; 1; 2; 3; 70; 70; 71; 2 ^ 40] = Ok w ∧
    DirectMonotonicWriter.meta w = mbs ∧ DirectMonotonicWriter.data w = [9; 9] ++ dbs ∧
    ∀ input : MmapIndexInput.t, readable input (dbs ++ []) →
      ∃ m i' r, DirectMonotonicReader.load_meta (mbs ++ [1; 2]) 9 3 = Ok (m, i') ∧ i' = [1; 2] ∧
        DirectMonotonicReader.get_instance m input = Ok r ∧ DirectMonotonicReader.get64 r 8 = Ok (2 ^ 40).
Proof.
  destruct (monotonic_roundtrip (In := list Z) (R := MmapIndexInput.t) [] [9; 9] 3 [-5; 0; 1; 2; 3; 70; 70; 71; 2 ^ 40])
    as (w & mbs & dbs & H1 & H2 & H3 & H4).
  - split; discriminate.
  - reflexivity.
  - apply List.Forall_forall. intros x Hx. repeat (destruct Hx as [<-|Hx]; [split; [discriminate|reflexivity]|]). destruct Hx.
  - repeat (constructor; try discriminate).
  - intros n Hn. exact I.
  - intros n Hn. exact I.
  - exists w, mbs, dbs. split; [exact H1|]. split; [exact H2|]. split; [exact H3|]. intros input Hr.
    destruct (H4 (mbs ++ [1; 2]) [1; 2] input [] eq_refl Hr) as (m & i' & r & E1 & E2 & E3 & E4).
    exists m, i', r. split; [exact E1|]. split; [exact E2|]. split; [exact E3|]. apply (E4 8). split; [discriminate|reflexivity].
Defined.
