(* ===== verification/Lz4.v ===== *)
(** LZ4: src/core/util/compression.rs.  The fast compressor with its hash table,
    the decompressor, and the byte ring the deflate compressor reads from.

    Deflate itself is the flate2 crate and is not modelled. *)

From S2P Require Import Prelude Float32 DataIO Numeric PackedBulk PackedMutable.
Open Scope Z_scope.

Definition MEMORY_USAGE : Z := 14.
Definition MIN_MATCH : Z := 4.
Definition MAX_DISTANCE : Z := 65536.
Definition LAST_LITERALS : Z := 5.
(** 0.25 *)
Definition DEFAULT_COMPRESSION_RATIO : f32 := f32_div f32_1 (f32_of_Z 4).

(** * LZ4HashTable *)

Module LZ4HashTable.
Record t : Type := mk { hash_log : Z; hash_table : option MutableEnum.t }.

Definition default : t := mk 0 None.

(** The table is made anew unless the one there has the entries and the width. *)
Definition reset (h : t) (len : Z) : result (t * MutableEnum.t) :=
  let bits_per_offset := as_i32 (bits_required 32 (as_i32 (len - LAST_LITERALS))) in
  let bits_per_offset_log := as_i32 (32 - leading_zeros 32 (bits_per_offset - 1)) in
  let hash_log := MEMORY_USAGE + 3 - bits_per_offset_log in
  table ←
    match hash_table h with
    | Some table =>
      if (size table <? as_u64 (shl_i 32 1 hash_log)) || (get_bits_per_value table <? bits_per_offset)
      then get_mutable_by_ratio (Z.shiftl 1 hash_log) bits_per_offset DEFAULT_COMPRESSION_RATIO
      else clear table
    | None => get_mutable_by_ratio (Z.shiftl 1 hash_log) bits_per_offset DEFAULT_COMPRESSION_RATIO
    end;
  Ok (mk hash_log (Some table), table).
End LZ4HashTable.

(** * LZ4 *)

Module LZ4.
Definition hash (i hash_bits : Z) : Z :=
  unsigned_shift 32 (as_i32 (as_i64 (i * -1640531535))) (32 - hash_bits).

Definition read_int (buf : list Z) (i : Z) : result Z :=
  a ← vget buf i; b ← vget buf (i + 1); c ← vget buf (i + 2); d ← vget buf (i + 3);
  Ok (Z.lor (Z.lor (Z.lor (shl_i 32 a 24) (shl_i 32 b 16)) (shl_i 32 c 8)) d).

(** The loop of [common_bytes]; [o2 + count] indexes [b], so its length is
    enough fuel. *)
Fixpoint common_loop (fuel : nat) (b : list Z) (o1 o2 limit count : Z) : result Z :=
  if count <? as_u64 (limit - o2) then
    x ← vget b (o1 + count); y ← vget b (o2 + count);
    if x =? y then
      match fuel with
      | O => Diverge
      | S f => common_loop f b o1 o2 limit (count + 1)
      end
    else Ok count
  else Ok count.
Definition common_bytes (b : list Z) (o1 o2 limit : Z) : result Z :=
  count ← common_loop (length b) b o1 o2 limit 0; Ok (as_i32 count).

(** ** Decompression *)

Section decompress.
Context {In : Type} `{DataInput In}.

(** A length continues in bytes of 255 and one below; [fuel] bounds them. *)
Fixpoint read_len (fuel : nat) (acc : Z) (i : In) : result (Z * In) :=
  '(len, i) ← read_byte i;
  if len =? 255 then
    match fuel with
    | O => Diverge
    | S f => read_len f (as_i32 (acc + 255)) i
    end
  else Ok (as_i32 (acc + Z.land len 255), i).

(** The token, the literals. *)
Definition literals (fuel : nat) (i : In) (dest : list Z) (dest_off : Z) : result (Z * In * list Z * Z) :=
  '(b, i) ← read_byte i;
  let token := Z.land b 255 in
  let literal_len := unsigned_shift 32 token 4 in
  if literal_len =? 0 then Ok (token, i, dest, dest_off)
  else
    '(literal_len, i) ← (if literal_len =? 15 then read_len fuel literal_len i else Ok (literal_len, i));
    '(dest, i) ← read_bytes i dest dest_off (as_u64 literal_len);
    Ok (token, i, dest, as_u64 (dest_off + as_u64 literal_len)).

(** The incremental copy, which may read what it has just written. *)
Definition overlap_copy (dest : list Z) (dest_off match_dec match_len : Z) : result (list Z * Z) :=
  let dest_cur := as_u64 (dest_off - as_u64 match_dec) in
  let end_ := as_u64 (dest_off + as_u64 match_len) in
  dest ← for_range dest_off end_ (fun k dest => v ← vget dest (k - dest_off + dest_cur); vset dest k v) dest;
  Ok (dest, Z.max dest_off end_).

Definition array_copy (dest : list Z) (dest_off match_dec match_len : Z) : result (list Z * Z) :=
  let ref_pos := as_u64 (dest_off - as_u64 match_dec) in
  let match_len := as_u64 match_len in
  _ ← check (dest_off <=? vlen dest);
  src ← vslice (take (Z.to_nat dest_off) dest) ref_pos (ref_pos + match_len);
  dest ← vblit dest dest_off src;
  Ok (dest, dest_off + match_len).

(** The rest of the sequence: the distance, the length, the copy. *)
Definition copy_match (fuel : nat) (token : Z) (i : In) (dest : list Z) (dest_off dest_end : Z) : result (In * list Z * Z) :=
  '(b0, i) ← read_byte i; '(b1, i) ← read_byte i;
  let match_dec := Z.lor (Z.land b0 255) (shl_i 32 (Z.land b1 255) 8) in
  let match_len := Z.land token 15 in
  '(match_len, i) ← (if match_len =? 15 then read_len fuel match_len i else Ok (match_len, i));
  let match_len := as_i32 (match_len + MIN_MATCH) in
  let fast_len := Z.land (as_u64 (as_i32 (match_len + 7))) 4294967288 in
  '(dest, dest_off) ←
    (if (match_dec <? match_len) || (dest_end <? dest_off + fast_len)
     then overlap_copy dest dest_off match_dec match_len
     else array_copy dest dest_off match_dec match_len);
  Ok (i, dest, dest_off).

(** A round that does not end the loop adds at least a byte: a fuel of
    [decompressed_len + 1] is enough for the rounds. *)
Fixpoint decompress_loop (rounds fuel : nat) (decompressed_len dest_end : Z) (i : In) (dest : list Z) (dest_off : Z) : result (Z * list Z * In) :=
  match rounds with
  | O => Diverge
  | S rounds =>
    '(token, i, dest, dest_off) ← literals fuel i dest dest_off;
    if decompressed_len <=? dest_off then Ok (dest_off, dest, i)
    else
      '(i, dest, dest_off) ← copy_match fuel token i dest dest_off dest_end;
      if decompressed_len <=? dest_off then Ok (dest_off, dest, i)
      else decompress_loop rounds fuel decompressed_len dest_end i dest dest_off
  end.

Definition decompress (fuel : nat) (compressed : In) (decompressed_len : Z) (dest : list Z) : result (Z * list Z * In) :=
  decompress_loop (S (Z.to_nat decompressed_len)) fuel decompressed_len (vlen dest) compressed dest 0.
End decompress.

(** ** Compression *)

Section compress.
Context {Out : Type} `{Write Out}.

(** The value loses 255 in every round: [l / 255] rounds. *)
Definition encode_len (l : Z) (out : Out) : result Out :=
  '(value, out) ← while_fuel (Z.to_nat l) (fun '(value, _) => 255 <=? value)
    (fun '(value, out) => out ← write_byte out 255; Ok (value - 255, out)) (l, out);
  write_byte out (as_u8 (Z.land value 255)).

Definition encode_literals (bytes : list Z) (token anchor literal_len : Z) (out : Out) : result Out :=
  out ← write_byte out (as_u8 token);
  out ← (if 15 <=? literal_len then encode_len (as_i32 (as_i32 literal_len - 15)) out else Ok out);
  write_bytes out bytes anchor literal_len.

Definition encode_last_literals (bytes : list Z) (anchor literal_len : Z) (out : Out) : result Out :=
  let token := shl_i 32 (Z.min (as_i32 literal_len) 15) 4 in
  encode_literals bytes token anchor literal_len out.

Definition encode_sequence (bytes : list Z) (anchor match_ref match_off match_len : Z) (out : Out) : result Out :=
  let literal_len := as_u64 (match_off - anchor) in
  let token := Z.lor (shl_i 32 (Z.min 15 (as_i32 literal_len)) 4) (Z.min 15 (as_i32 (as_i32 match_len - 4))) in
  out ← encode_literals bytes token anchor literal_len out;
  let match_dec := as_u64 (match_off - match_ref) in
  out ← write_byte out (as_u8 match_dec);
  out ← write_byte out (as_u8 (Z.shiftr match_dec 8));
  if MIN_MATCH + 15 <=? match_len then encode_len (as_i32 (as_i32 (as_i32 match_len - 15) - MIN_MATCH)) out else Ok out.

(** The inner loop: the next position whose four bytes are those of the
    position its hash was last seen at.  [None] leaves the outer loop. *)
Fixpoint find_match (fuel : nat) (bytes : list Z) (off match_limit hash_log : Z) (hash_table : MutableEnum.t) (off_cur : Z)
    : result (option Z * Z * MutableEnum.t) :=
  if match_limit <=? off_cur then Ok (None, off_cur, hash_table)
  else
    v ← read_int bytes off_cur;
    let h := as_u64 (hash v hash_log) in
    r ← get hash_table h;
    let refer := as_u64 (off + as_u64 r) in
    hash_table ← set hash_table h (as_i64 (off_cur - off));
    same ← (if as_u64 (off_cur - refer) <? MAX_DISTANCE then w ← read_int bytes refer; Ok (w =? v) else Ok false);
    if (same : bool) then Ok (Some refer, off_cur, hash_table)
    else
      match fuel with
      | O => Diverge
      | S f => find_match f bytes off match_limit hash_log hash_table (off_cur + 1)
      end.

(** The loop labelled ['main]; every round advances, so [len] is enough fuel. *)
Fixpoint main_loop (fuel : nat) (bytes : list Z) (off len limit match_limit hash_log : Z)
    (hash_table : MutableEnum.t) (off_cur anchor : Z) (out : Out) : result (Z * MutableEnum.t * Out) :=
  if off_cur <=? limit then
    '(found, off_cur, hash_table) ← find_match (Z.to_nat len) bytes off match_limit hash_log hash_table off_cur;
    match (found : option Z) with
    | None => Ok (anchor, hash_table, out)
    | Some refer =>
      common ← common_bytes bytes (refer + MIN_MATCH) (off_cur + MIN_MATCH) limit;
      let match_len := as_u64 (as_i32 (MIN_MATCH + common)) in
      out ← encode_sequence bytes anchor refer off_cur match_len out;
      match fuel with
      | O => Diverge
      | S f => main_loop f bytes off len limit match_limit hash_log hash_table (off_cur + match_len) (off_cur + match_len) out
      end
    end
  else Ok (anchor, hash_table, out).

Definition compress (bytes : list Z) (off len : Z) (out : Out) (ht : LZ4HashTable.t) : result (Out * LZ4HashTable.t) :=
  let end_ := off + len in
  '(anchor, out, ht) ←
    (if LAST_LITERALS + MIN_MATCH <? len then
       let limit := end_ - LAST_LITERALS in
       let match_limit := limit - MIN_MATCH in
       '(ht, hash_table) ← LZ4HashTable.reset ht (as_i32 len);
       '(anchor, hash_table, out) ← main_loop (Z.to_nat len) bytes off len limit match_limit (LZ4HashTable.hash_log ht) hash_table (off + 1) off out;
       Ok (anchor, out, LZ4HashTable.mk (LZ4HashTable.hash_log ht) (Some hash_table))
     else Ok (off, out, ht));
  out ← encode_last_literals bytes anchor (as_u64 (end_ - anchor)) out;
  Ok (out, ht).
End compress.
End LZ4.

(** * LZ4Decompressor

    [bytes] grows to the original length and seven bytes of padding; the result
    has the range of it that was asked for. *)
Definition lz4_decompress {In} `{DataInput In} (fuel : nat) (input : In) (original_length offset length : Z) (bytes : list Z)
    : result (list Z * (Z * Z) * In) :=
  let bytes := if vlen bytes <? original_length + 7
               then bytes ++ replicate (Z.to_nat (original_length + 7 - vlen bytes)) 0 else bytes in
  '(decompressed_len, bytes, input) ← LZ4.decompress fuel input (offset + length) bytes;
  if original_length <? decompressed_len then bail RuntimeError
  else Ok (bytes, (offset, length), input).

(** * VecReadWriteBuf

    The ring between the deflate compressor and its input; [capacity] is that of
    the vector. *)
Module VecReadWriteBuf.
Record t : Type := mk { buf : list Z; capacity : Z; offset : Z; length : Z }.

Definition new (size : Z) : t := mk [] size 0 0.

(** [read] into a buffer of [n] bytes. *)
Definition read (r : t) (n : Z) : result (list Z * t) :=
  let read_size := Z.min n (length r) in
  bs ← (if offset r + read_size <=? vlen (buf r) then vslice (buf r) (offset r) (offset r + read_size)
        else
          let ahead := as_u64 (vlen (buf r) - offset r) in
          a ← vslice (buf r) (offset r) (vlen (buf r));
          b ← vslice (buf r) 0 (as_u64 (read_size - ahead));
          Ok (a ++ b));
  _ ← check (negb (capacity r =? 0));
  Ok (bs, mk (buf r) (capacity r) ((offset r + read_size) mod capacity r) (length r - read_size)).

(** [dst[0..n].copy_from_slice(src)] panics when the lengths differ. *)
Definition copy_from_slice (dst : list Z) (off n : Z) (src : list Z) : result (list Z) :=
  _ ← vslice dst off (off + n); _ ← check (vlen src =? n); vblit dst off src.

Definition write (r : t) (bs : list Z) : result (Z * t) :=
  if vlen bs =? 0 then Ok (0, r)
  else
    let total_size := Z.min (capacity r - length r) (vlen bs) in
    '(b, written_size) ←
      (if offset r + length r <? vlen (buf r) then
         let write_len := Z.min (vlen (buf r) - offset r - length r) total_size in
         src ← vslice bs 0 write_len;
         b ← copy_from_slice (buf r) (offset r + length r) write_len src;
         Ok (b, write_len)
       else Ok (buf r, 0));
    '(b, written_size) ←
      (if (written_size <? total_size) && (vlen b <? capacity r) then
         let write_len := Z.min (capacity r - vlen b) (total_size - written_size) in
         src ← vslice bs written_size (written_size + write_len);
         Ok (b ++ src, written_size + write_len)
       else Ok (b, written_size));
    b ← (if written_size <? total_size then
           src ← vslice bs (total_size - written_size) total_size;
           copy_from_slice b 0 (total_size - written_size) src
         else Ok b);
    Ok (total_size, mk b (capacity r) (offset r) (length r + total_size)).
End VecReadWriteBuf.

Example lz4_run :
  let text := [9; 1; 2; 3; 4; 5; 1; 2; 3; 4; 5; 1; 2; 3; 4; 5; 1; 2; 3; 4; 5; 6; 7; 8; 9; 10; 11; 12; 13; 14] in
  (r ← LZ4.compress text 1 29 [] LZ4HashTable.default; Ok r.1) =
    Ok [91; 1; 2; 3; 4; 5; 5; 0; 144; 6; 7; 8; 9; 10; 11; 12; 13; 14] ∧
  ('(n, d, _) ← LZ4.decompress 9 [91; 1; 2; 3; 4; 5; 5; 0; 144; 6; 7; 8; 9; 10; 11; 12; 13; 14] 29 (replicate 40 0);
   Ok (n, take 29 d)) = Ok (29, drop 1 text).
Proof. vm_compute. done. Qed.
