(* ===== verification/Lz4Facts.v ===== *)
(** The decompressor undoes the compressor, in two halves that meet at the
    format: a stream of sequences (literals, then a copy of earlier bytes)
    that ends with literals. *)

From S2P Require Import Prelude Float32 DataIO DataIOFacts Numeric PackedBulk PackedBulkFacts PackedMutable PackedArrayFacts PackedCopyFacts GrowableFacts Lz4.
Open Scope Z_scope.

(** * The format *)

(** A length beyond what fits in the token. *)
Definition len_bytes (l : Z) : list Z := replicate (Z.to_nat (l / 255)) 255 ++ [l mod 255].

(** [src[p..p + l]] *)
Definition part (src : list Z) (p l : Z) : list Z := take (Z.to_nat l) (drop (Z.to_nat p) src).

(** The literals [src[p..p + l]] with the low half of their token. *)
Definition lit_bytes (src : list Z) (p l low : Z) : list Z :=
  (16 * Z.min l 15 + low) :: (if 15 <=? l then len_bytes (l - 15) else []) ++ part src p l.

Record seq : Type := mk_seq { sq_lit : Z; sq_ref : Z; sq_len : Z }.

Definition match_bytes (dec m : Z) : list Z :=
  dec mod 256 :: dec / 256 :: (if 19 <=? m then len_bytes (m - 19) else []).

(** The sequence [s] that starts at [p], and where it ends. *)
Definition seq_bytes (src : list Z) (p : Z) (s : seq) : list Z :=
  lit_bytes src p (sq_lit s) (Z.min (sq_len s - 4) 15) ++ match_bytes (p + sq_lit s - sq_ref s) (sq_len s).
Definition seq_end (p : Z) (s : seq) : Z := p + sq_lit s + sq_len s.

(** The copy of [m] bytes from [r] to [q] reproduces the text. *)
Definition copies (src : list Z) (r q m : Z) : Prop :=
  0 ≤ r < q ∧ q - r < 65536 ∧ ∀ k, 0 ≤ k < m → nthz src (r + k) = nthz src (q + k).

Definition seq_ok (src : list Z) (p : Z) (s : seq) : Prop :=
  0 ≤ sq_lit s ∧ 4 ≤ sq_len s ∧ seq_end p s < vlen src ∧ copies src (sq_ref s) (p + sq_lit s) (sq_len s).

(** Sequences from [p] to [q], and their bytes. *)
Fixpoint valid (src : list Z) (p : Z) (ss : list seq) (q : Z) : Prop :=
  match ss with
  | [] => p = q
  | s :: ss => seq_ok src p s ∧ valid src (seq_end p s) ss q
  end.
Fixpoint stream_bytes (src : list Z) (p : Z) (ss : list seq) : list Z :=
  match ss with
  | [] => lit_bytes src p (vlen src - p) 0
  | s :: ss => seq_bytes src p s ++ stream_bytes src (seq_end p s) ss
  end.

(** * Lengths *)

Section lengths.
Context {Out In : Type} `{HO : LawfulOutput Out} `{HI : LawfulInput In}.

Lemma emits_len_loop q r : 0 ≤ r < 255 → ∀ fuel, (q ≤ fuel)%nat →
  emits (fun out : Out => '(value, out) ← while_fuel fuel (fun '(value, _) => 255 <=? value)
      (fun '(value, out) => out ← write_byte out 255; Ok (value - 255, out)) (255 * Z.of_nat q + r, out);
    write_byte out (as_u8 (Z.land value 255))) (replicate q 255 ++ [r]).
Proof using HO.
  intros Hr. induction q as [|q IH]; intros fuel Hf.
  - intros o n Hacc Hn. assert (255 * Z.of_nat 0 + r = r) as -> by lia.
    assert (∀ out : Out, while_fuel fuel (fun '(value, _) => 255 <=? value)
      (fun '(value, out) => out ← write_byte out 255; Ok (value - 255, out)) (r, out) = Ok (r, out)) as E
      by (intros; destruct fuel; cbn [while_fuel]; by rewrite (proj2 (Z.leb_gt 255 r)) by lia).
    rewrite E. cbn [mbind result_bind]. rewrite land_255, as_u_id by (unfold is_u; lia).
    by apply (emits_write_all [r]).
  - destruct fuel as [|fuel]; [lia|]. cbn [while_fuel replicate app]. rewrite (proj2 (Z.leb_le 255 _)) by lia.
    intros o n Hacc Hn. destruct (emits_bind (fun o => write_byte o 255) _ [255] _ (emits_write_all [255]) (IH fuel ltac:(lia)) o n) as (o' & E & H1 & H2); [done..|].
    exists o'. split; [|done]. rewrite <- E. destruct (write_byte o 255); cbn [mbind result_bind]; [|done..].
    by replace (255 * Z.of_nat (S q) + r - 255) with (255 * Z.of_nat q + r) by lia.
Qed.

Lemma emits_encode_len l : 0 ≤ l → emits (LZ4.encode_len (Out := Out) l) (len_bytes l).
Proof using HO.
  intros Hl. unfold LZ4.encode_len, len_bytes. pose proof (Z.div_mod l 255 ltac:(lia)) as E. pose proof (Z.mod_pos_bound l 255 ltac:(lia)).
  pose proof (Z.div_pos l 255 ltac:(lia) ltac:(lia)). pose proof (Z.div_le_upper_bound l 255 l ltac:(lia) ltac:(lia)).
  pose proof (emits_len_loop (Z.to_nat (l / 255)) (l mod 255) ltac:(lia) (Z.to_nat l) ltac:(lia)) as Hem.
  by replace (255 * Z.of_nat (Z.to_nat (l / 255)) + l mod 255) with l in Hem by lia.
Qed.

Lemma parses_len_loop q r : 0 ≤ r < 255 → ∀ fuel acc, (q ≤ fuel)%nat → 0 ≤ acc → acc + 255 * Z.of_nat q + r < 2 ^ 31 →
  parses (LZ4.read_len (In := In) fuel acc) (replicate q 255 ++ [r]) (acc + 255 * Z.of_nat q + r).
Proof using HI.
  intros Hr. induction q as [|q IH]; intros fuel acc Hf Ha Hb i rest Hrem.
  - destruct (parses_byte r i rest Hrem) as (i' & E & Hrem'). exists i'. split; [|done]. destruct fuel; cbn [LZ4.read_len]; rewrite E; cbn [mbind result_bind];
      rewrite (proj2 (Z.eqb_neq r 255)), land_255, as_i_id by (try lia; unfold is_i, is_u; lia); do 2 f_equal; lia.
  - destruct fuel as [|fuel]; [lia|]. cbn [replicate app] in Hrem. destruct (parses_byte 255 i _ Hrem) as (i1 & E & Hrem1).
    cbn [LZ4.read_len]. rewrite E. cbn [mbind result_bind]. change (255 =? 255) with true. cbv iota.
    rewrite as_i_id by (try lia; unfold is_i; lia). replace (acc + 255 * Z.of_nat (S q) + r) with ((acc + 255) + 255 * Z.of_nat q + r) by lia.
    apply IH; try lia. done.
Qed.

Lemma parses_len fuel acc l : 0 ≤ l → 0 ≤ acc → acc + l < 2 ^ 31 → (Z.to_nat l ≤ fuel)%nat →
  parses (LZ4.read_len (In := In) fuel acc) (len_bytes l) (acc + l).
Proof using HI.
  intros Hl Ha Hb Hf. unfold len_bytes. pose proof (Z.div_mod l 255 ltac:(lia)) as E. pose proof (Z.mod_pos_bound l 255 ltac:(lia)).
  pose proof (Z.div_pos l 255 ltac:(lia) ltac:(lia)). pose proof (Z.div_le_upper_bound l 255 l ltac:(lia) ltac:(lia)).
  pose proof (parses_len_loop (Z.to_nat (l / 255)) (l mod 255) ltac:(lia) fuel acc ltac:(lia) Ha ltac:(lia)) as Hp.
  by replace (acc + 255 * Z.of_nat (Z.to_nat (l / 255)) + l mod 255) with (acc + l) in Hp by lia.
Qed.
End lengths.

(** * The decompressor *)

(** The first [q] bytes of [dest] are those of the text. *)
Definition agree (dest src : list Z) (q : Z) : Prop := ∀ k, 0 ≤ k < q → nthz dest k = nthz src k.

Lemma vlen_part src p l : 0 ≤ p → 0 ≤ l → p + l ≤ vlen src → vlen (part src p l) = l.
Proof. intros. unfold part. rewrite vlen_take; [done|]. rewrite vlen_drop; lia. Qed.
Lemma nthz_part src p l k : 0 ≤ p → 0 ≤ k < l → nthz (part src p l) k = nthz src (p + k).
Proof. intros. unfold part. rewrite nthz_take, nthz_drop by lia. done. Qed.

Section decompress.
Context {In : Type} `{HI : LawfulInput In}.

Lemma token_high a low : 0 ≤ a < 16 → 0 ≤ low < 16 → unsigned_shift 32 (16 * a + low) 4 = a.
Proof using.
  intros Ha Hl. unfold unsigned_shift. rewrite as_u_id by (unfold is_u; lia). rewrite Z.shiftr_div_pow2 by lia. change (2 ^ 4) with 16.
  rewrite (Z.mul_comm 16 a), Z.div_add_l, Z.div_small by lia. rewrite as_i_id by (try lia; unfold is_i; lia). lia.
Qed.
Lemma token_low a low : 0 ≤ a < 16 → 0 ≤ low < 16 → Z.land (16 * a + low) 15 = low.
Proof using.
  intros Ha Hl. change 15 with (Z.ones 4). rewrite Z.land_ones by lia. change (2 ^ 4) with 16.
  rewrite Z.add_comm, Z.mul_comm, Z.mod_add, Z.mod_small; lia.
Qed.

Lemma literals_spec fuel (i : In) rest src dest p l low : remains i (lit_bytes src p l low ++ rest) → agree dest src p →
  0 ≤ p → 0 ≤ l < 2 ^ 31 → 0 ≤ low < 16 → p + l ≤ vlen src → p + l ≤ vlen dest → p + l < 2 ^ 63 → (Z.to_nat l ≤ fuel)%nat →
  ∃ i' dest', LZ4.literals fuel i dest p = Ok (16 * Z.min l 15 + low, i', dest', p + l) ∧ remains i' rest ∧
    agree dest' src (p + l) ∧ vlen dest' = vlen dest.
Proof using HI.
  intros Hrem Hag Hp Hl Hlow Hs Hd Hpl Hf. unfold lit_bytes in Hrem. cbn [app] in Hrem.
  destruct (parses_byte _ i _ Hrem) as (i1 & E1 & R1). unfold LZ4.literals. rewrite E1, bind_Ok_l. rewrite land_255 by (unfold is_u; lia).
  rewrite token_high by lia. destruct (Z.eqb_spec (Z.min l 15) 0) as [E0|].
  { assert (l = 0) as -> by lia. exists i1, dest. rewrite (proj2 (Z.leb_gt 15 0)) in R1 by lia. rewrite Z.add_0_r. by split_and!. }
  assert (∃ i2, (if Z.min l 15 =? 15 then LZ4.read_len fuel (Z.min l 15) i1 else Ok (Z.min l 15, i1)) = Ok (l, i2) ∧
    remains i2 (part src p l ++ rest)) as (i2 & -> & R2).
  { rewrite <- app_assoc in R1. destruct (Z.leb_spec 15 l).
    - rewrite Z.min_r by lia. rewrite Z.eqb_refl. destruct (parses_len fuel 15 (l - 15) ltac:(lia) ltac:(lia) ltac:(lia) ltac:(lia) i1 _ R1) as (i2 & -> & R2).
      exists i2. split; [do 2 f_equal; lia|done].
    - rewrite Z.min_l, (proj2 (Z.eqb_neq l 15)) by lia. by exists i1. }
  rewrite bind_Ok_l. cbv beta iota. rewrite (as_u_id 64 l) by (unfold is_u; lia).
  pose proof (vlen_part src p l ltac:(lia) ltac:(lia) ltac:(lia)) as Hpart. pose proof (vlen_nonneg rest).
  destruct (read_bytes_law i2 _ dest p l R2) as (i3 & -> & R3); [lia|rewrite vlen_app; lia|lia|]. rewrite bind_Ok_l.
  eexists i3, _. rewrite (as_u_id 64 (p + l)) by (unfold is_u; lia). split; [done|].
  assert (Z.to_nat l = length (part src p l)) as El by (rewrite <- to_nat_vlen, Hpart; done).
  rewrite El, drop_app_length in R3. split; [done|]. rewrite El, take_app_length. split.
  - intros k Hk. rewrite nthz_app, vlen_take by lia. destruct (Z.ltb_spec k p).
    + rewrite nthz_take by lia. apply Hag. lia.
    + rewrite nthz_app, Hpart, (proj2 (Z.ltb_lt (k - p) l)), nthz_part by lia. f_equal. lia.
  - rewrite !vlen_app, vlen_take, Hpart by lia. rewrite <- El, <- Z2Nat.inj_add, vlen_drop by lia. lia.
Qed.

(** Both ways of copying reproduce the text. *)
Lemma overlap_copy_spec dest src r q m : agree dest src q → copies src r q m → 0 ≤ m → q + m ≤ vlen dest → q + m < 2 ^ 63 → m < 2 ^ 31 →
  ∃ dest', LZ4.overlap_copy dest q (q - r) m = Ok (dest', q + m) ∧ agree dest' src (q + m) ∧ vlen dest' = vlen dest.
Proof using.
  intros Hag (Hr & Hdist & Hcp) Hm Hd Hb Hm31. unfold LZ4.overlap_copy.
  rewrite (as_u_id 64 (q - r)), (as_u_id 64 (q - (q - r))), (as_u_id 64 m), (as_u_id 64 (q + m)) by (unfold is_u; lia).
  destruct (for_range_inv (fun k dest' => agree dest' src k ∧ vlen dest' = vlen dest)
    (fun k dest => v ← vget dest (k - q + (q - (q - r))); vset dest k v) q (q + m) dest) as (dest' & -> & Hag' & Hl'); [lia|done| |].
  - intros k d Hk [Ha Hl]. rewrite vget_nthz, bind_Ok_l by lia.
    destruct (vset_nthz d k (nthz d (k - q + (q - (q - r))))) as (d' & -> & Hl' & Hn); [lia|]. exists d'. split; [done|]. split; [|lia].
    intros j Hj. rewrite Hn by lia. destruct (Z.eqb_spec j k) as [->|]; [|apply Ha; lia].
    rewrite Ha by lia. replace (k - q + (q - (q - r))) with (r + (k - q)) by lia. rewrite Hcp by lia. f_equal. lia.
  - rewrite bind_Ok_l. exists dest'. rewrite Z.max_r by lia. by split_and!.
Qed.

Lemma array_copy_spec dest src r q m : agree dest src q → copies src r q m → 0 ≤ m → m ≤ q - r → q + m ≤ vlen dest → q + m < 2 ^ 63 → m < 2 ^ 31 →
  ∃ dest', LZ4.array_copy dest q (q - r) m = Ok (dest', q + m) ∧ agree dest' src (q + m) ∧ vlen dest' = vlen dest.
Proof using.
  intros Hag (Hr & Hdist & Hcp) Hm Hle Hd Hb Hm31. unfold LZ4.array_copy.
  rewrite (as_u_id 64 (q - r)), (as_u_id 64 (q - (q - r))), (as_u_id 64 m) by (unfold is_u; lia).
  replace (q - (q - r)) with r by lia. unfold check. rewrite (proj2 (Z.leb_le q (vlen dest))), bind_Ok_l by lia.
  rewrite vslice_in, bind_Ok_l by (rewrite ?vlen_take; lia). replace (r + m - r) with m by lia.
  fold (part (take (Z.to_nat q) dest) r m). set (s := part _ r m).
  assert (vlen s = m) as Hs by (apply vlen_part; rewrite ?vlen_take; lia).
  rewrite vblit_in, bind_Ok_l by lia. eexists. split; [done|]. split.
  - intros k Hk. rewrite nthz_app, vlen_take by lia. destruct (Z.ltb_spec k q); [rewrite nthz_take by lia; apply Hag; lia|].
    rewrite nthz_app, Hs, (proj2 (Z.ltb_lt (k - q) m)) by lia. unfold s. rewrite nthz_part, nthz_take, Hag, Hcp by lia. f_equal. lia.
  - rewrite !vlen_app, vlen_take, Hs by lia. rewrite <- to_nat_vlen, Hs, <- Z2Nat.inj_add, vlen_drop by lia. lia.
Qed.

Lemma dec_back dec : 0 ≤ dec < 65536 → Z.lor (Z.land (dec mod 256) 255) (shl_i 32 (Z.land (dec / 256) 255) 8) = dec.
Proof using.
  intros Hd. pose proof (Z.mod_pos_bound dec 256 ltac:(lia)). pose proof (Z.div_mod dec 256 ltac:(lia)).
  assert (0 ≤ dec / 256 < 256) by (split; [apply Z.div_pos; lia|apply Z.div_lt_upper_bound; lia]).
  rewrite !land_255 by (unfold is_u; lia). unfold shl_i. rewrite Z.shiftl_mul_pow2 by lia. rewrite as_i_id by (try lia; unfold is_i; lia).
  rewrite Z.lor_comm, (lor_add _ _ 8); [lia|lia|by eexists|unfold is_u; lia].
Qed.

Lemma copy_match_spec fuel (i : In) rest src dest r q m a : remains i (match_bytes (q - r) m ++ rest) → agree dest src q → copies src r q m →
  4 ≤ m < 2 ^ 31 - 7 → 0 ≤ a < 16 → q + m ≤ vlen dest → q + m < 2 ^ 63 → (Z.to_nat m ≤ fuel)%nat →
  ∃ i' dest', LZ4.copy_match fuel (16 * a + Z.min (m - 4) 15) i dest q (vlen dest) = Ok (i', dest', q + m) ∧ remains i' rest ∧
    agree dest' src (q + m) ∧ vlen dest' = vlen dest.
Proof using HI.
  intros Hrem Hag Hcp Hm Ha Hd Hb Hf. pose proof Hcp as (Hr & Hdist & _). unfold match_bytes in Hrem. cbn [app] in Hrem. unfold LZ4.copy_match.
  destruct (parses_byte _ i _ Hrem) as (i1 & -> & R1). rewrite bind_Ok_l. destruct (parses_byte _ i1 _ R1) as (i2 & -> & R2). rewrite bind_Ok_l.
  rewrite dec_back, token_low by lia.
  assert (∃ i3, (if Z.min (m - 4) 15 =? 15 then LZ4.read_len fuel (Z.min (m - 4) 15) i2 else Ok (Z.min (m - 4) 15, i2)) = Ok (m - 4, i3) ∧
    remains i3 rest) as (i3 & -> & R3).
  { destruct (Z.leb_spec 19 m).
    - rewrite Z.min_r by lia. rewrite Z.eqb_refl. destruct (parses_len fuel 15 (m - 19) ltac:(lia) ltac:(lia) ltac:(lia) ltac:(lia) i2 _ R2) as (i3 & -> & R3).
      exists i3. split; [do 2 f_equal; lia|done].
    - rewrite Z.min_l, (proj2 (Z.eqb_neq (m - 4) 15)) by lia. by exists i2. }
  rewrite bind_Ok_l. cbv beta iota. unfold MIN_MATCH. rewrite (as_i_id 32 (m - 4 + 4)) by (try lia; unfold is_i; lia).
  replace (m - 4 + 4) with m by lia. destruct (_ || _) eqn:Eov.
  - destruct (overlap_copy_spec dest src r q m) as (dest' & -> & Hag' & Hl'); try done; try lia. by exists i3, dest'.
  - apply orb_false_iff in Eov as [Hnov%Z.ltb_ge _].
    destruct (array_copy_spec dest src r q m) as (dest' & -> & Hag' & Hl'); try done; try lia. by exists i3, dest'.
Qed.

(** The rounds of the loop: the sequences are decoded until [n] bytes are there. *)
Lemma decompress_loop_spec src fuel n : 0 ≤ n ≤ vlen src → vlen src < 2 ^ 31 - 7 → (Z.to_nat (vlen src) ≤ fuel)%nat →
  ∀ ss p q rounds (i : In) rest dest, valid src p ss q → q ≤ vlen src → 0 ≤ p → remains i (stream_bytes src p ss ++ rest) → agree dest src p →
  vlen src ≤ vlen dest < 2 ^ 63 → (Z.to_nat (n - p) < rounds)%nat →
  ∃ k dest' i', LZ4.decompress_loop rounds fuel n (vlen dest) i dest p = Ok (k, dest', i') ∧ n ≤ k ≤ vlen src ∧
    agree dest' src k ∧ vlen dest' = vlen dest ∧ (n = vlen src → remains i' rest).
Proof using HI.
  intros Hn Hsrc Hf. induction ss as [|s ss IH]; intros p q rounds i rest dest Hv Hq Hp Hrem Hag Hd Hr; (destruct rounds as [|rounds]; [lia|]).
  - cbn [valid stream_bytes] in *. subst q. cbn [LZ4.decompress_loop].
    destruct (literals_spec fuel i rest src dest p (vlen src - p) 0) as (i' & dest' & -> & R' & Hag' & Hl'); try done; try lia.
    rewrite bind_Ok_l. cbv beta iota. replace (p + (vlen src - p)) with (vlen src) in * by lia. rewrite (proj2 (Z.leb_le n (vlen src))) by lia.
    exists (vlen src), dest', i'. split_and!; done || lia.
  - cbn [valid stream_bytes] in *. destruct Hv as [(Hl & Hm & Hend & Hcp) Hv]. unfold seq_end in *. rewrite <- app_assoc in Hrem.
    unfold seq_bytes in Hrem. rewrite <- app_assoc in Hrem. cbn [LZ4.decompress_loop].
    destruct (literals_spec fuel i _ src dest p (sq_lit s) (Z.min (sq_len s - 4) 15) Hrem) as (i1 & d1 & -> & R1 & Ha1 & Hl1); try done; try lia.
    rewrite bind_Ok_l. cbv beta iota. destruct (Z.leb_spec n (p + sq_lit s)).
    { exists (p + sq_lit s), d1, i1. split_and!; try done; try lia. }
    rewrite <- Hl1 in Hd |- *.
    destruct (copy_match_spec fuel i1 _ src d1 (sq_ref s) (p + sq_lit s) (sq_len s) (Z.min (sq_lit s) 15) R1) as (i2 & d2 & -> & R2 & Ha2 & Hl2); try done; try lia.
    rewrite bind_Ok_l. cbv beta iota. destruct (Z.leb_spec n (p + sq_lit s + sq_len s)).
    { exists (p + sq_lit s + sq_len s), d2, i2. split_and!; try done; try lia. }
    rewrite <- Hl2 in Hd |- *. apply (IH _ q); try done; lia.
Qed.
End decompress.

(** * The compressor *)

(** ** Four bytes *)

Lemma read_int_value bytes i : Forall (is_u 8) bytes → 0 ≤ i → i + 4 ≤ vlen bytes →
  LZ4.read_int bytes i = Ok (as_i32 (((nthz bytes i * 256 + nthz bytes (i + 1)) * 256 + nthz bytes (i + 2)) * 256 + nthz bytes (i + 3))).
Proof.
  intros Hb Hi Hl. unfold LZ4.read_int. rewrite !vget_nthz by lia. rewrite !bind_Ok_l. f_equal.
  pose proof (nthz_Forall _ bytes i Hb ltac:(lia)) as [Ha0 Ha1]. pose proof (nthz_Forall _ bytes (i + 1) Hb ltac:(lia)) as [Hb0 Hb1].
  pose proof (nthz_Forall _ bytes (i + 2) Hb ltac:(lia)) as [Hc0 Hc1]. pose proof (nthz_Forall _ bytes (i + 3) Hb ltac:(lia)) as [Hd0 Hd1].
  set (a := nthz bytes i) in *. set (b := nthz bytes (i + 1)) in *. set (c := nthz bytes (i + 2)) in *. set (d := nthz bytes (i + 3)) in *.
  unfold shl_i. rewrite <- (as_i_id 32 d) at 1 by (try lia; unfold is_i; lia). rewrite <- !as_i_lor by lia. f_equal.
  rewrite !Z.shiftl_mul_pow2 by lia. assert (Z.lor (a * 2 ^ 24) (b * 2 ^ 16) = (a * 256 + b) * 2 ^ 16) as ->
    by (rewrite (lor_add _ _ 24); [lia|lia|by eexists|unfold is_u; lia]).
  assert (Z.lor ((a * 256 + b) * 2 ^ 16) (c * 2 ^ 8) = ((a * 256 + b) * 256 + c) * 2 ^ 8) as ->
    by (rewrite (lor_add _ _ 16); [lia|lia|by eexists|unfold is_u; lia]).
  rewrite (lor_add _ _ 8); [lia|lia|by eexists|unfold is_u; lia].
Qed.

Lemma read_int_same bytes i j v : Forall (is_u 8) bytes → 0 ≤ i → i + 4 ≤ vlen bytes → 0 ≤ j → j + 4 ≤ vlen bytes →
  LZ4.read_int bytes i = Ok v → LZ4.read_int bytes j = Ok v → ∀ k, 0 ≤ k < 4 → nthz bytes (i + k) = nthz bytes (j + k).
Proof.
  intros Hb Hi Hil Hj Hjl Ei Ej. rewrite read_int_value in Ei, Ej by done. rewrite <- Ej in Ei. clear Ej.
  assert (∀ k, 0 ≤ k < vlen bytes → 0 ≤ nthz bytes k < 256) as Hr by (intros k Hk; by apply (nthz_Forall (is_u 8))).
  pose proof (Hr i ltac:(lia)). pose proof (Hr (i + 1) ltac:(lia)). pose proof (Hr (i + 2) ltac:(lia)). pose proof (Hr (i + 3) ltac:(lia)).
  pose proof (Hr j ltac:(lia)). pose proof (Hr (j + 1) ltac:(lia)). pose proof (Hr (j + 2) ltac:(lia)). pose proof (Hr (j + 3) ltac:(lia)).
  injection Ei as Ei. apply (f_equal as_u32) in Ei. rewrite !as_u_as_i, !as_u_id in Ei by (try lia; unfold is_u; lia). intros k Hk.
  assert (k = 0 ∨ k = 1 ∨ k = 2 ∨ k = 3) as [->|[->|[->| ->]]] by lia; rewrite ?Z.add_0_r; lia.
Qed.

(** ** The hash table *)

Lemma hash_range v hl : 1 ≤ hl ≤ 30 → 0 ≤ LZ4.hash v hl < 2 ^ hl.
Proof.
  intros Hh. unfold LZ4.hash, unsigned_shift. set (x := as_u 32 _). assert (is_u 32 x) as [H0 H1] by (apply as_u_range; lia).
  rewrite Z.shiftr_div_pow2 by lia. pose proof (pow2_pos (32 - hl) ltac:(lia)). pose proof (Z.pow_le_mono_r 2 hl 30 ltac:(lia) ltac:(lia)).
  assert (0 ≤ x / 2 ^ (32 - hl) < 2 ^ hl).
  { split; [apply Z.div_pos; lia|]. apply Z.div_lt_upper_bound; [lia|]. rewrite <- Z.pow_add_r by lia. by replace (32 - hl + hl) with 32 by lia. }
  rewrite as_i_id by (try lia; unfold is_i; lia). done.
Qed.

(** The table can hold the positions of a text of [len] bytes, and has only
    positions before [c]. *)
Record table_ok (m : MutableEnum.t) (hl len c : Z) : Prop := {
  tb_wf : wf m;
  tb_size : 2 ^ hl ≤ size m;
  tb_fits : ∀ x, 0 ≤ x ≤ len - 5 → fits (get_bits_per_value m) x;
  tb_vals : ∀ j, 0 ≤ j < size m → 0 ≤ val m j < c;
}.

(** What a table needs to be reused. *)
Definition reusable (h : LZ4HashTable.t) : Prop := match LZ4HashTable.hash_table h with Some m => wf m | None => True end.

Lemma log2_range x a b : 0 ≤ a → 2 ^ a ≤ x < 2 ^ b → a ≤ Z.log2 x < b.
Proof.
  intros Ha Hx. pose proof (pow2_pos a Ha). split.
  - rewrite <- (Z.log2_pow2 a) by lia. apply Z.log2_le_mono. lia.
  - apply Z.log2_lt_pow2; lia.
Qed.

Lemma reset_spec h len : reusable h → 9 < len < 2 ^ 31 →
  ∃ hl m, LZ4HashTable.reset h len = Ok (LZ4HashTable.mk hl (Some m), m) ∧ 12 ≤ hl ≤ 15 ∧ table_ok m hl len 1.
Proof.
  intros Hh Hlen. unfold LZ4HashTable.reset, LAST_LITERALS, MEMORY_USAGE. rewrite (as_i_id 32 (len - 5)) by (try lia; unfold is_i; lia).
  pose proof (log2_range (len - 5) 2 31 ltac:(lia) ltac:(lia)) as Hlog. unfold bits_required, leading_zeros.
  rewrite (as_u_id 32 (len - 5)) by (unfold is_u; lia). rewrite (proj2 (Z.eqb_neq (len - 5) 0)) by lia.
  set (B := as_i32 (Z.max 1 (32 - (32 - 1 - Z.log2 (len - 5))))). assert (B = 1 + Z.log2 (len - 5)) as EB by (unfold B; rewrite as_i_id; [lia|lia|unfold is_i; lia]).
  rewrite (as_u_id 32 (B - 1)) by (unfold is_u; lia). rewrite (proj2 (Z.eqb_neq (B - 1) 0)) by lia.
  pose proof (log2_range (B - 1) 1 5 ltac:(lia) ltac:(lia)) as Hlog2. rewrite (as_i_id 32 (32 - (32 - 1 - Z.log2 (B - 1)))) by (try lia; unfold is_i; lia).
  set (hl := 14 + 3 - (32 - (32 - 1 - Z.log2 (B - 1)))). assert (12 ≤ hl ≤ 15) as Hhl by (unfold hl; lia). cbv zeta.
  pose proof (Z.pow_le_mono_r 2 hl 15 ltac:(lia) ltac:(lia)). pose proof (pow2_pos hl ltac:(lia)).
  assert (∀ C x, B ≤ C → 0 ≤ x ≤ len - 5 → fits C x) as Hfits.
  { intros C x HC Hx. apply (fits_mono B); [lia|]. split; [unfold is_i; lia|]. rewrite as_u_id by (unfold is_u; lia). rewrite EB.
    destruct (Z.eq_dec x 0) as [->|]; [apply pow2_pos; lia|]. apply Z.log2_lt_pow2; [lia|]. pose proof (Z.log2_le_mono x (len - 5) ltac:(lia)). lia. }
  assert (∃ m, get_mutable_by_ratio (Z.shiftl 1 hl) B DEFAULT_COMPRESSION_RATIO = Ok m ∧ table_ok m hl len 1) as (m & Em & Hm).
  { rewrite Z.shiftl_1_l. destruct (by_ratio_fresh (2 ^ hl) B DEFAULT_COMPRESSION_RATIO) as (m & E & Hw & Hsz & HB & Hz); [lia|lia|lia|].
    exists m. split; [done|]. constructor; [done|lia|intros x Hx; by apply Hfits|]. intros j Hj. rewrite Hz by lia. lia. }
  unfold reusable in Hh. destruct (LZ4HashTable.hash_table h) as [m0|]; [|exists hl, m; rewrite Em; split; [done|by split]].
  destruct (_ || _) eqn:Ereuse; [exists hl, m; rewrite Em; split; [done|by split]|].
  apply orb_false_iff in Ereuse as [Hsz%Z.ltb_ge Hbits%Z.ltb_ge]. destruct (clear_law m0 Hh) as (m' & -> & [U1 U2 U3 U4]).
  exists hl, m'. split; [done|]. split; [done|]. unfold shl_i in Hsz. rewrite Z.shiftl_1_l, as_i_id, as_u_id in Hsz by (try lia; unfold is_i, is_u; lia).
  constructor; [done|lia|intros x Hx; apply Hfits; [lia|done]|]. intros j Hj. rewrite U4 by lia. lia.
Qed.

Lemma token_value a low : 0 ≤ a < 16 → 0 ≤ low < 16 → as_u8 (Z.lor (shl_i 32 a 4) low) = 16 * a + low.
Proof.
  intros Ha Hl. unfold shl_i. rewrite Z.shiftl_mul_pow2, as_i_id by (try lia; unfold is_i; lia).
  rewrite (lor_add _ _ 4); [|lia|by eexists|unfold is_u; lia]. rewrite as_u_id by (unfold is_u; lia). lia.
Qed.

(** ** Searching *)

Lemma common_loop_spec bytes o1 o2 limit : 0 ≤ o1 < o2 → o2 ≤ limit ≤ vlen bytes → vlen bytes < 2 ^ 63 → ∀ fuel count,
  0 ≤ count ≤ limit - o2 → (Z.to_nat (limit - o2 - count) ≤ fuel)%nat → (∀ k, 0 ≤ k < count → nthz bytes (o1 + k) = nthz bytes (o2 + k)) →
  ∃ c, LZ4.common_loop fuel bytes o1 o2 limit count = Ok c ∧ 0 ≤ c ≤ limit - o2 ∧ ∀ k, 0 ≤ k < c → nthz bytes (o1 + k) = nthz bytes (o2 + k).
Proof.
  intros Ho Hl Hb. induction fuel as [|fuel IH]; intros count Hc Hf Hsame; cbn [LZ4.common_loop]; rewrite as_u_id by (unfold is_u; lia);
    (destruct (Z.ltb_spec count (limit - o2)); [|by exists count]); [lia|].
  rewrite !vget_nthz by lia. rewrite !bind_Ok_l. destruct (Z.eqb_spec (nthz bytes (o1 + count)) (nthz bytes (o2 + count))) as [E|]; [|by exists count].
  apply IH; [lia|lia|]. intros k Hk. destruct (Z.eq_dec k count) as [->|]; [done|apply Hsame; lia].
Qed.

Section search.
Context (bytes : list Z) (off len hl : Z).
Hypothesis Hbytes : Forall (is_u 8) bytes.
Hypothesis Hoff : 0 ≤ off.
Hypothesis Hlen : 9 < len < 2 ^ 31 - 7.
Hypothesis Hend : off + len ≤ vlen bytes < 2 ^ 63.
Hypothesis Hhl : 12 ≤ hl ≤ 15.
Let limit := off + len - LAST_LITERALS.
Let match_limit := limit - MIN_MATCH.

Lemma find_match_spec : ∀ fuel m cur, off < cur → (Z.to_nat (match_limit - cur) ≤ fuel)%nat → table_ok m hl len (cur - off) →
  ∃ found cur' m', LZ4.find_match fuel bytes off match_limit hl m cur = Ok (found, cur', m') ∧ cur ≤ cur' ∧ table_ok m' hl len (cur' - off + 1) ∧
    ∀ r, found = Some r → cur' < match_limit ∧ off ≤ r < cur' ∧ cur' - r < 65536 ∧ ∀ k, 0 ≤ k < 4 → nthz bytes (r + k) = nthz bytes (cur' + k).
Proof using Hbytes Hoff Hlen Hend Hhl.
  assert (match_limit = off + len - 9) as Eml by (unfold match_limit, limit, LAST_LITERALS, MIN_MATCH; lia).
  induction fuel as [|fuel IH]; intros m cur Hcur Hf Hm; cbn [LZ4.find_match]; (destruct (Z.leb_spec match_limit cur) as [Hge|Hlt];
    [exists None, cur, m; split; [done|]; split; [lia|]; split; [destruct Hm as [T1 T2 T3 T4]; constructor; try done; intros j Hj; specialize (T4 j Hj); lia|done]|]); [lia|].
  destruct Hm as [Hwf Hsz Hfit Hvals]. pose proof (hash_range (as_i32 (((nthz bytes cur * 256 + nthz bytes (cur + 1)) * 256 + nthz bytes (cur + 2)) * 256 + nthz bytes (cur + 3))) hl ltac:(lia)) as Hh.
  pose proof (read_int_value bytes cur Hbytes ltac:(lia) ltac:(lia)) as Er. set (v := as_i32 _) in *. rewrite Er, bind_Ok_l.
  pose proof (Z.pow_le_mono_r 2 hl 15 ltac:(lia) ltac:(lia)). rewrite (as_u_id 64 (LZ4.hash v hl)) by (unfold is_u; lia). set (h := LZ4.hash v hl) in *.
  rewrite get_law, bind_Ok_l by (try done; lia). pose proof (Hvals h ltac:(lia)) as Hv.
  set (r0 := val m h) in *.
  rewrite (as_u_id 64 (r0)), (as_u_id 64 (off + r0)) by (unfold is_u; lia). rewrite as_i_id by (try lia; unfold is_i; lia).
  destruct (set_law m h (cur - off) Hwf ltac:(lia)) as (m' & -> & [U1 U2 U3 U4]); [apply Hfit; lia|]. rewrite bind_Ok_l.
  assert (table_ok m' hl len (cur + 1 - off)) as Hm'.
  { constructor; [done|lia|by rewrite U3|]. intros j Hj. rewrite U4 by lia. destruct (Z.eqb_spec j h); [lia|]. specialize (Hvals j ltac:(lia)). lia. }
  rewrite (as_u_id 64 (cur - (off + r0))) by (unfold is_u; lia).
  assert (∃ b, (if cur - (off + r0) <? MAX_DISTANCE then w ← LZ4.read_int bytes (off + r0); Ok (w =? v) else Ok false) = Ok b ∧
    (b = true → cur - (off + r0) < 65536 ∧ ∀ k, 0 ≤ k < 4 → nthz bytes (off + r0 + k) = nthz bytes (cur + k))) as (b & -> & Hb).
  { destruct (Z.ltb_spec (cur - (off + r0)) MAX_DISTANCE) as [Hd|]; [|by exists false].
    pose proof (read_int_value bytes (off + r0) Hbytes ltac:(lia) ltac:(lia)) as Er'. set (w := as_i32 _) in Er'. rewrite Er'. eexists. split; [done|].
    intros Eq%Z.eqb_eq. split; [done|]. rewrite Eq in Er'. apply (read_int_same bytes _ _ v); done || lia. }
  rewrite bind_Ok_l. destruct b.
  - exists (Some (off + r0)), cur, m'. split; [done|]. split; [lia|]. split; [by replace (cur - off + 1) with (cur + 1 - off) by lia|].
    intros r [= <-]. destruct (Hb eq_refl) as [Hd Hs]. split_and!; done || lia.
  - destruct (IH m' (cur + 1)) as (found & cur' & m'' & -> & Hle & Hm'' & Hr); [lia|lia|done|]. exists found, cur', m''. split; [done|]. split; [lia|by split].
Qed.
End search.

(** ** Writing *)

Section writing.
Context {Out : Type} `{HO : LawfulOutput Out}.

Lemma emits_ret (f : Out → result Out) : (∀ o, f o = Ok o) → emits f [].
Proof using. intros Hf o n Hacc Hn. exists o. rewrite Hf, app_nil_r. by rewrite vlen_nil, Z.add_0_l in Hacc. Qed.

Lemma emits_write_bytes bytes a l : 0 ≤ a → 0 ≤ l → a + l ≤ vlen bytes → emits (fun o : Out => write_bytes o bytes a l) (part bytes a l).
Proof using HO.
  intros Ha Hl Hb o n Hacc Hn. unfold write_bytes. rewrite vslice_in, bind_Ok_l by lia. replace (a + l - a) with l by lia.
  by apply emits_write_all.
Qed.

Lemma emits_literals bytes token a l : 0 ≤ a → 0 ≤ l < 2 ^ 31 → a + l ≤ vlen bytes →
  emits (LZ4.encode_literals (Out := Out) bytes token a l) (as_u8 token :: (if 15 <=? l then len_bytes (l - 15) else []) ++ part bytes a l).
Proof using HO.
  intros Ha Hl Hb. apply (emits_bind (fun o => write_byte o (as_u8 token)) _ [as_u8 token]); [apply emits_write_all|].
  apply (emits_bind (fun out => if 15 <=? l then _ else _) (fun out => write_bytes out bytes a l)); [|by apply emits_write_bytes; lia].
  destruct (Z.leb_spec 15 l); [|by apply emits_ret]. rewrite (as_i_id 32 l), as_i_id by (try lia; unfold is_i; lia). apply emits_encode_len. lia.
Qed.

Lemma emits_last_literals bytes a l : 0 ≤ a → 0 ≤ l < 2 ^ 31 → a + l ≤ vlen bytes →
  emits (LZ4.encode_last_literals (Out := Out) bytes a l) (lit_bytes bytes a l 0).
Proof using HO.
  intros Ha Hl Hb. unfold LZ4.encode_last_literals, lit_bytes. rewrite (as_i_id 32 l) by (try lia; unfold is_i; lia).
  rewrite <- (token_value (Z.min l 15) 0), Z.lor_0_r by lia. by apply emits_literals.
Qed.

Lemma emits_sequence bytes a r q m : 0 ≤ a ≤ q → q + m ≤ vlen bytes → 4 ≤ m < 2 ^ 31 → q - a < 2 ^ 31 → 0 ≤ r < q → q - r < 65536 → vlen bytes < 2 ^ 63 →
  emits (LZ4.encode_sequence (Out := Out) bytes a r q m) (seq_bytes bytes a (mk_seq (q - a) r m)).
Proof using HO.
  intros Ha Hq Hm Hl Hr Hd Hb. unfold LZ4.encode_sequence, seq_bytes, lit_bytes, match_bytes, MIN_MATCH. cbn [sq_lit sq_ref sq_len].
  rewrite (as_u_id 64 (q - a)), (as_u_id 64 (q - r)), (as_i_id 32 (q - a)), (as_i_id 32 m), (as_i_id 32 (m - 4)) by (try lia; unfold is_u, is_i; lia).
  replace (a + (q - a) - r) with (q - r) by lia. rewrite <- (token_value (Z.min (q - a) 15) (Z.min (m - 4) 15)) by lia.
  rewrite (Z.min_comm 15 (q - a)), (Z.min_comm 15 (m - 4)). apply emits_bind; [apply emits_literals; lia|].
  apply (emits_bind (fun o => write_byte o (as_u8 (q - r))) _ [(q - r) mod 256]); [apply emits_write_all|].
  assert (as_u8 (Z.shiftr (q - r) 8) = (q - r) / 256) as ->.
  { rewrite Z.shiftr_div_pow2 by lia. change (2 ^ 8) with 256. apply as_u_id. split; [apply Z.div_pos; lia|]. apply Z.div_lt_upper_bound; lia. }
  apply (emits_bind (fun o => write_byte o ((q - r) / 256)) _ [(q - r) / 256]); [apply emits_write_all|].
  change (4 + 15) with 19. destruct (Z.leb_spec 19 m); [|by apply emits_ret].
  rewrite (as_i_id 32 (m - 15)), as_i_id by (try lia; unfold is_i; lia). replace (m - 15 - 4) with (m - 19) by lia. apply emits_encode_len. lia.
Qed.
End writing.

(** ** The text inside the array *)

Lemma part_part bytes off len p l : 0 ≤ off → 0 ≤ p → 0 ≤ l → p + l ≤ len → part (part bytes off len) p l = part bytes (off + p) l.
Proof.
  intros. unfold part. rewrite skipn_firstn_comm, firstn_firstn, skipn_skipn. f_equal; [lia|]. f_equal. lia.
Qed.

Lemma seq_bytes_part bytes off len p s : 0 ≤ off → 0 ≤ p → 0 ≤ sq_lit s → p + sq_lit s ≤ len →
  seq_bytes (part bytes off len) p s = seq_bytes bytes (off + p) (mk_seq (sq_lit s) (off + sq_ref s) (sq_len s)).
Proof.
  intros. unfold seq_bytes, lit_bytes. cbn [sq_lit sq_ref sq_len]. rewrite part_part by lia.
  by replace (off + p + sq_lit s - (off + sq_ref s)) with (p + sq_lit s - sq_ref s) by lia.
Qed.

Fixpoint seqs_bytes (src : list Z) (p : Z) (ss : list seq) : list Z :=
  match ss with [] => [] | s :: ss => seq_bytes src p s ++ seqs_bytes src (seq_end p s) ss end.

Lemma stream_bytes_app src : ∀ ss p q, valid src p ss q → stream_bytes src p ss = seqs_bytes src p ss ++ lit_bytes src q (vlen src - q) 0.
Proof.
  induction ss as [|s ss IH]; intros p q Hv; cbn [valid stream_bytes seqs_bytes] in *; [by subst|]. destruct Hv as [_ Hv].
  by rewrite (IH _ q Hv), app_assoc.
Qed.

Section main.
Context {Out : Type} `{HO : LawfulOutput Out} (bytes : list Z) (off len hl : Z).
Hypothesis Hbytes : Forall (is_u 8) bytes.
Hypothesis Hoff : 0 ≤ off.
Hypothesis Hlen : 9 < len < 2 ^ 31 - 7.
Hypothesis Hend : off + len ≤ vlen bytes < 2 ^ 63.
Hypothesis Hhl : 12 ≤ hl ≤ 15.
Abbreviation limit := (off + len - LAST_LITERALS).
Abbreviation match_limit := (limit - MIN_MATCH).
Abbreviation text := (part bytes off len).

Lemma main_loop_spec : ∀ fuel m cur anchor (out : Out), off ≤ anchor ≤ cur → off < cur → anchor ≤ limit → (Z.to_nat (limit - cur) < fuel)%nat →
  table_ok m hl len (cur - off) → roomy out →
  ∃ ss anchor' m' out', LZ4.main_loop fuel bytes off len limit match_limit hl m cur anchor out = Ok (anchor', m', out') ∧
    valid text (anchor - off) ss (anchor' - off) ∧ anchor ≤ anchor' ≤ limit ∧ wf m' ∧ roomy out' ∧
    written out' = written out ++ seqs_bytes text (anchor - off) ss.
Proof using Hbytes Hoff Hlen Hend Hhl HO.
  unfold LAST_LITERALS. induction fuel as [|fuel IH]; intros m cur anchor out Ha Hcur Hal Hf Hm Hout; [lia|]. cbn [LZ4.main_loop].
  assert (∀ m : MutableEnum.t, wf m → ∃ ss anchor' (m' : MutableEnum.t) out', Ok (anchor, m, out) = Ok (anchor', m', out') ∧
    valid text (anchor - off) ss (anchor' - off) ∧ anchor ≤ anchor' ≤ off + len - 5 ∧ wf m' ∧ roomy out' ∧
    written out' = written out ++ seqs_bytes text (anchor - off) ss) as Hstop.
  { intros m0 Hm0. exists [], anchor, m0, out. split; [done|]. split; [done|]. split; [lia|]. split; [done|]. split; [done|]. by rewrite app_nil_r. }
  destruct (Z.leb_spec cur (off + len - 5)) as [Hle|]; [|apply Hstop; apply Hm].
  destruct (find_match_spec bytes off len hl Hbytes Hoff Hlen Hend Hhl (Z.to_nat len) m cur Hcur ltac:(unfold MIN_MATCH, LAST_LITERALS; lia) Hm)
    as (found & cur' & m' & E & Hcc & Hm' & Hfound). unfold LAST_LITERALS in E. rewrite E, bind_Ok_l. cbv beta iota.
  destruct found as [r|]; [|apply Hstop; apply Hm']. destruct (Hfound r eq_refl) as (Hlt & Hr & Hd & Hfour). unfold MIN_MATCH in *.
  unfold LZ4.common_bytes. destruct (common_loop_spec bytes (r + 4) (cur' + 4) (off + len - 5)) with (fuel := length bytes) (count := 0) as (c & -> & Hc & Hsame);
    [lia|unfold LAST_LITERALS in *; lia|lia|unfold LAST_LITERALS in *; lia|unfold LAST_LITERALS, vlen in *; lia|lia|]. rewrite !bind_Ok_l.
  unfold LAST_LITERALS in *. rewrite (as_i_id 32 c), (as_i_id 32 (4 + c)), (as_u_id 64 (4 + c)) by (try lia; unfold is_i, is_u; lia).
  set (s := mk_seq (cur' - anchor) (r - off) (4 + c)).
  assert (seq_ok text (anchor - off) s ∧ seq_end (anchor - off) s = cur' + (4 + c) - off) as [Hs Hse].
  { unfold seq_ok, seq_end, copies. cbn [sq_lit sq_ref sq_len s]. rewrite vlen_part by lia. split; [|lia]. split_and!; try lia.
    intros k Hk. rewrite !nthz_part by lia. replace (off + (r - off + k)) with (r + k) by lia.
    replace (off + (anchor - off + (cur' - anchor) + k)) with (cur' + k) by lia. destruct (Z.lt_ge_cases k 4); [by apply Hfour; lia|].
    replace (r + k) with (r + 4 + (k - 4)) by lia. replace (cur' + k) with (cur' + 4 + (k - 4)) by lia. apply Hsame. lia. }
  destruct (roomy_emits _ _ out (emits_sequence bytes anchor r cur' (4 + c) ltac:(lia) ltac:(lia) ltac:(lia) ltac:(lia) ltac:(lia) ltac:(lia) ltac:(lia)) Hout)
    as (out1 & -> & Hw1 & Hout1). rewrite bind_Ok_l.
  assert (table_ok m' hl len (cur' + (4 + c) - off)) as Hm1.
  { destruct Hm' as [T1 T2 T3 T4]. constructor; try done. intros j Hj. specialize (T4 j Hj). lia. }
  destruct (IH m' (cur' + (4 + c)) (cur' + (4 + c)) out1) as (ss & anchor' & m2 & out2 & -> & Hv & Ha' & Hm2 & Hout2 & Hw2); try done; try lia.
  exists (s :: ss), anchor', m2, out2. split; [done|]. cbn [valid seqs_bytes]. rewrite Hse. split; [done|]. split; [lia|]. split; [done|]. split; [done|].
  rewrite Hw2, Hw1, <- app_assoc. do 2 f_equal. rewrite seq_bytes_part by (cbn [sq_lit s]; lia). cbn [sq_lit sq_ref sq_len s].
  by replace (off + (anchor - off)) with anchor by lia; replace (off + (r - off)) with r by lia.
Qed.
End main.

(** * The round trip *)

Section roundtrip.
Context {Out In : Type} `{HO : LawfulOutput Out} `{HI : LawfulInput In}.

(** The output of the compressor is a stream of the text. *)
Lemma compress_spec bytes off len (out : Out) ht : Forall (is_u 8) bytes → 0 ≤ off → 0 ≤ len < 2 ^ 31 - 7 → off + len ≤ vlen bytes < 2 ^ 63 →
  reusable ht → roomy out →
  ∃ out' ht' ss q, LZ4.compress bytes off len out ht = Ok (out', ht') ∧ reusable ht' ∧ valid (part bytes off len) 0 ss q ∧ q ≤ len ∧
    written out' = written out ++ stream_bytes (part bytes off len) 0 ss.
Proof using HO.
  intros Hb Hoff Hlen Hend Hht Hout. unfold LZ4.compress, LAST_LITERALS, MIN_MATCH. change (5 + 4) with 9. cbv zeta.
  assert (∃ ss anchor out1 ht', (if 9 <? len then
       '(ht, hash_table) ← LZ4HashTable.reset ht (as_i32 len);
       '(anchor, hash_table, out) ← LZ4.main_loop (Z.to_nat len) bytes off len (off + len - 5) (off + len - 5 - 4) (LZ4HashTable.hash_log ht) hash_table (off + 1) off out;
       Ok (anchor, out, LZ4HashTable.mk (LZ4HashTable.hash_log ht) (Some hash_table))
     else Ok (off, out, ht)) = Ok (anchor, out1, ht') ∧ reusable ht' ∧ valid (part bytes off len) 0 ss (anchor - off) ∧ off ≤ anchor ≤ off + len ∧
     roomy out1 ∧ written out1 = written out ++ seqs_bytes (part bytes off len) 0 ss) as (ss & anchor & out1 & ht' & -> & Hr & Hv & Ha & Hout1 & Hw).
  { destruct (Z.ltb_spec 9 len) as [H9|].
    - rewrite (as_i_id 32 len) by (try lia; unfold is_i; lia). destruct (reset_spec ht len Hht ltac:(lia)) as (hl & m & -> & Hhl & Hm). rewrite bind_Ok_l. cbn [LZ4HashTable.hash_log].
      assert (table_ok m hl len (off + 1 - off)) as Hm' by (by replace (off + 1 - off) with 1 by lia).
      destruct (main_loop_spec bytes off len hl Hb Hoff ltac:(lia) Hend Hhl (Z.to_nat len) m (off + 1) off out) as (ss & anchor & m' & out1 & E & Hv & Ha & Hm1 & Hout1 & Hw1);
        unfold LAST_LITERALS, MIN_MATCH in *; try done; try lia. rewrite E, bind_Ok_l. rewrite Z.sub_diag in Hv, Hw1.
      eexists ss, anchor, out1, _. split; [done|]. split; [exact Hm1|]. split; [done|]. split; [lia|]. by split.
    - exists [], off, out, ht. split; [done|]. split; [done|]. split; [cbn; lia|]. split; [lia|]. split; [done|]. by rewrite app_nil_r. }
  rewrite bind_Ok_l. cbv beta iota. rewrite as_u_id by (unfold is_u; lia).
  destruct (roomy_emits _ _ out1 (emits_last_literals bytes anchor (off + len - anchor) ltac:(lia) ltac:(lia) ltac:(lia)) Hout1) as (out2 & -> & Hw2 & _).
  exists out2, ht', ss, (anchor - off). split; [done|]. split; [done|]. split; [done|]. split; [lia|].
  rewrite Hw2, Hw, <- app_assoc, (stream_bytes_app _ _ _ _ Hv). do 2 f_equal. rewrite vlen_part by lia. unfold lit_bytes.
  rewrite part_part by lia. replace (len - (anchor - off)) with (off + len - anchor) by lia. by replace (off + (anchor - off)) with anchor by lia.
Qed.

Lemma agree_part dest src p l : agree dest src (p + l) → 0 ≤ p → 0 ≤ l → p + l ≤ vlen dest → p + l ≤ vlen src → part dest p l = part src p l.
Proof using.
  intros Hag Hp Hl Hd Hs. apply nthz_ext; rewrite vlen_part by lia; [by rewrite vlen_part by lia|]. intros j Hj. rewrite !nthz_part by lia. apply Hag. lia.
Qed.

(** C13. What the LZ4 compressor writes, the LZ4 decompressor reads: compressing
    [len] bytes at [off] of an array of bytes, with a fresh hash table or one left
    by earlier compressions, succeeds and appends some bytes to the output, and
    leaves a table that can be used again.  From any input that holds those bytes
    the decompressor restores the range [o..o + l] of the text that is asked for,
    whatever buffer it is given, and when the range reaches the end of the text it
    consumes exactly those bytes. *)
Theorem lz4_roundtrip bytes off len (out : Out) ht : Forall (is_u 8) bytes → 0 ≤ off → 0 ≤ len < 2 ^ 31 - 7 → off + len ≤ vlen bytes < 2 ^ 63 →
  reusable ht → roomy out →
  ∃ out' ht' bs, LZ4.compress bytes off len out ht = Ok (out', ht') ∧ reusable ht' ∧ written out' = written out ++ bs ∧
    ∀ (i : In) rest buf o l fuel, remains i (bs ++ rest) → 0 ≤ o → 0 ≤ l → o + l ≤ len → vlen buf < 2 ^ 63 → (Z.to_nat len ≤ fuel)%nat →
      ∃ buf' i', lz4_decompress fuel i len o l buf = Ok (buf', (o, l), i') ∧ vslice buf' o (o + l) = Ok (part bytes (off + o) l) ∧
        (o + l = len → remains i' rest).
Proof using HO HI.
  intros Hb Hoff Hlen Hend Hht Hout. destruct (compress_spec bytes off len out ht) as (out' & ht' & ss & q & E & Hr & Hv & Hq & Hw); try done.
  exists out', ht', (stream_bytes (part bytes off len) 0 ss). split; [done|]. split; [done|]. split; [done|].
  intros i rest buf o l fuel Hrem Ho Hl Hol Hbuf Hf. unfold lz4_decompress. set (buf1 := if vlen buf <? len + 7 then _ else _).
  assert (len + 7 ≤ vlen buf1 < 2 ^ 63) as Hb1.
  { unfold buf1. destruct (Z.ltb_spec (vlen buf) (len + 7)); [|lia]. rewrite vlen_app, vlen_replicate; lia. }
  assert (vlen (part bytes off len) = len) as Hpl by (apply vlen_part; lia).
  destruct (decompress_loop_spec (part bytes off len) fuel (o + l)) with (ss := ss) (p := 0) (q := q) (rounds := S (Z.to_nat (o + l))) (i := i) (rest := rest) (dest := buf1)
    as (k & buf' & i' & Erun & Hk & Hag & Hbl & Hlast); rewrite ?Hpl in *; try done; try lia.
  { intros k Hk. lia. }
  unfold LZ4.decompress. rewrite Erun, bind_Ok_l. cbv beta iota. rewrite (proj2 (Z.ltb_ge len k)) by lia.
  exists buf', i'. split; [done|]. split; [|done]. rewrite vslice_in by lia. f_equal. replace (o + l - o) with l by lia.
  fold (part buf' o l). rewrite (agree_part buf' (part bytes off len)); [by apply part_part; lia| |lia..]. intros j Hj. apply Hag. lia.
Qed.
End roundtrip.

Lemma lz4_roundtrip_witness :
  let text := [9; 1; 2; 3; 4; 5; 1; 2; 3; 4; 5; 1; 2; 3; 4; 5; 1; 2; 3; 4; 5; 6; 7; 8; 9; 10; 11; 12; 13; 14] in
  ∃ out' ht' bs, LZ4.compress text 1 29 [0] LZ4HashTable.default = Ok (out', ht') ∧ out' = [0] ++ bs ∧
    ∃ buf' (i' : list Z), lz4_decompress 29 (bs ++ [77]) 29 4 10 [] = Ok (buf', (4, 10), i') ∧ vslice buf' 4 14 = Ok (part text 5 10).
Proof.
  destruct (lz4_roundtrip (In := list Z) [9; 1; 2; 3; 4; 5; 1; 2; 3; 4; 5; 1; 2; 3; 4; 5; 1; 2; 3; 4; 5; 6; 7; 8; 9; 10; 11; 12; 13; 14] 1 29 [0] LZ4HashTable.default)
    as (out' & ht' & bs & H1 & _ & H2 & H3).
  - apply List.Forall_forall. intros x Hx. repeat (destruct Hx as [<-|Hx]; [split; [discriminate|reflexivity]|]). destruct Hx.
  - discriminate.
  - split; [discriminate|reflexivity].
  - split; [discriminate|reflexivity].
  - exact I.
  - intros n Hn. exact I.
  - exists out', ht', bs. split; [exact H1|]. split; [exact H2|].
    destruct (H3 (bs ++ [77]) [77] [] 4 10 29%nat eq_refl) as (buf' & i' & E1 & E2 & _); [discriminate|discriminate|discriminate|reflexivity|reflexivity|].
    exists buf', i'. split; [exact E1|exact E2].
Defined.

(** * The ring *)

Ltac ring_step := cbn [andb negb]; cbv iota; rewrite ?bind_Ok_l; cbn [VecReadWriteBuf.buf VecReadWriteBuf.capacity VecReadWriteBuf.offset VecReadWriteBuf.length andb negb]; cbv beta iota zeta.

(** The ring does not wrap: once [n] bytes have been written and read, a write of
    a whole capacity panics, unless [n] is half of it, because the slice it takes
    for the bytes that are left has the length of those already written. *)
Lemma ring_wrap_panics bs cs c : 0 < vlen bs < c → 2 * vlen bs ≠ c → vlen cs = c →
  ∃ r r', VecReadWriteBuf.write (VecReadWriteBuf.new c) bs = Ok (vlen bs, r) ∧ VecReadWriteBuf.read r (vlen bs) = Ok (bs, r') ∧
    VecReadWriteBuf.write r' cs = Panic.
Proof.
  intros Hn Hhalf Hcs. exists (VecReadWriteBuf.mk bs c 0 (vlen bs)), (VecReadWriteBuf.mk bs c (vlen bs) 0).
  unfold VecReadWriteBuf.write, VecReadWriteBuf.read, VecReadWriteBuf.new, VecReadWriteBuf.copy_from_slice, check. split; [|split].
  - ring_step. rewrite (proj2 (Z.eqb_neq (vlen bs) 0)) by lia. rewrite Z.min_r by lia. change (vlen (@nil Z)) with 0. ring_step. change (0 + 0 <? 0) with false. ring_step.
    change (vlen (@nil Z)) with 0. rewrite (proj2 (Z.ltb_lt 0 (vlen bs))), (proj2 (Z.ltb_lt 0 c)) by lia. ring_step. rewrite !Z.sub_0_r, Z.min_r by lia.
    rewrite Z.add_0_l, vslice_full. ring_step. rewrite Z.ltb_irrefl. ring_step. done.
  - ring_step. rewrite Z.min_id, Z.add_0_l. rewrite (proj2 (Z.leb_le (vlen bs) (vlen bs))) by lia. rewrite vslice_full. ring_step.
    rewrite (proj2 (Z.eqb_neq c 0)) by lia. ring_step. by rewrite Z.mod_small, Z.sub_diag by lia.
  - ring_step. rewrite (proj2 (Z.eqb_neq (vlen cs) 0)) by lia. rewrite Z.sub_0_r, Z.min_l by lia. rewrite Z.add_0_r, Z.ltb_irrefl. ring_step.
    rewrite (proj2 (Z.ltb_lt 0 c)), (proj2 (Z.ltb_lt (vlen bs) c)) by lia. ring_step. rewrite Z.sub_0_r, Z.min_l, Z.add_0_l by lia.
    rewrite vslice_in by lia. ring_step. rewrite !Z.add_0_l, (proj2 (Z.ltb_lt (c - vlen bs) c)) by lia. rewrite (vslice_in cs) by lia. ring_step.
    rewrite vslice_in by (rewrite ?vlen_app, ?vlen_take by (rewrite ?vlen_drop; lia); lia). ring_step.
    rewrite (proj2 (Z.eqb_neq _ _)); [done|]. rewrite vlen_take; rewrite ?vlen_drop; lia.
Qed.
