(* ===== verification/ForUtil.v ===== *)
(** Blocks of postings: src/core/codec/postings/for_util.rs.  A block of 128
    integers is packed with the number of bits the largest of them needs, in a
    format and with a width chosen once, when the file is opened.

    Values, bytes and sizes are [Z]; an array that the source leaves
    uninitialized holds [option]s. *)

From S2P Require Import Prelude Float32 DataIO Numeric PackedBulk PackedMutable Mmap.
Open Scope Z_scope.

(** * Versions (packed_misc.rs) *)

Definition VERSION_MONOTONIC_WITHOUT_ZIGZAG : Z := 2.
Definition VERSION_START : Z := VERSION_MONOTONIC_WITHOUT_ZIGZAG.
Definition VERSION_CURRENT : Z := VERSION_MONOTONIC_WITHOUT_ZIGZAG.

Definition check_version (version : Z) : result unit :=
  if version <? VERSION_START then bail IllegalArgument
  else if VERSION_CURRENT <? version then bail IllegalArgument
  else Ok tt.

Definition get_encoder (format : Format) (version bits_per_value : Z) : result BulkOperation.t :=
  _ ← check_version version; BulkOperation.bulk_operation_of format (as_u64 bits_per_value).
Definition get_decoder (format : Format) (version bits_per_value : Z) : result BulkOperation.t :=
  _ ← check_version version; BulkOperation.bulk_operation_of format (as_u64 bits_per_value).

(** * Sizes *)

Definition BLOCK_SIZE : Z := 128.
Definition ALL_VALUES_EQUAL : Z := 0.
Definition MAX_ENCODED_SIZE : Z := BLOCK_SIZE * 4.
Definition MAX_DATA_SIZE : Z := 147.

Definition compute_iterations (decoder : BulkOperation.t) : Z :=
  f32_as_i32 (f32_ceil (f32_div (f32_of_Z BLOCK_SIZE) (f32_of_Z (BulkOperation.byte_value_count decoder)))).

(** The inner loops of [max_data_size]. *)
Definition max_for (version : Z) (format : Format) (mx : Z) : result Z :=
  for_range 1 33 (fun bpv mx =>
    match get_decoder format version bpv with
    | Ok decoder => Ok (Z.max mx (as_u64 (compute_iterations decoder) * BulkOperation.byte_value_count decoder))
    | Diverge => Diverge
    | _ => Panic
    end) mx.
Definition max_data_size : result Z :=
  for_range VERSION_START (VERSION_CURRENT + 1) (fun version mx =>
    mx ← max_for version Packed mx; max_for version PackedSingleBlock mx) 0.

Definition encoded_size (format : Format) (bits_per_value : Z) : Z :=
  as_i32 (Formats.byte_count format BLOCK_SIZE bits_per_value).

(** * ForUtilInstance *)

(** The methods of [IndexInput] the reader needs. *)
Class IndexInput (In : Type) `{DataInput In} : Type := {
  input_pointer : In → Z;
  seek : In → Z → result In;
}.

Module ForUtilInstance.
Record t : Type := mk {
  encoded_sizes : list Z;
  decoders : list (option BulkOperation.t);
  encoders : list (option BulkOperation.t);
  iterations : list Z;
}.

Definition uninit : t := mk (replicate 32 0) (replicate 32 None) (replicate 32 None) (replicate 32 0).

(** The assignments of one round of either loop. *)
Definition store (s : t) (k : Z) (format : Format) (version bits_per_value : Z) : result t :=
  sizes ← vset (encoded_sizes s) k (encoded_size format bits_per_value);
  decoder ← get_decoder format version bits_per_value; ds ← vset (decoders s) k (Some decoder);
  encoder ← get_encoder format version bits_per_value; es ← vset (encoders s) k (Some encoder);
  its ← vset (iterations s) k (compute_iterations decoder);
  Ok (mk sizes ds es its).

Definition with_input {In} `{DataInput In} (input : In) : result (t * In) :=
  '(packed_ints_version, input) ← read_vint input;
  _ ← check_version packed_ints_version;
  for_range 0 32 (fun bpv '(s, input) =>
    '(code, input) ← read_vint input;
    let format_id := as_i32 (Z.shiftr (as_u64 code) 5) in
    let bits_per_value := Z.land code 31 + 1 in
    format ← Formats.with_id format_id;
    s ← store s bpv format packed_ints_version bits_per_value;
    Ok (s, input)) (uninit, input).

Definition with_output {Out} `{Write Out} (acceptable_overhead_ratio : f32) (output : Out) : result (t * Out) :=
  output ← write_vint output VERSION_CURRENT;
  for_range 1 33 (fun bpv '(s, output) =>
    let '(format, bits_per_value) := Formats.fastest BLOCK_SIZE bpv acceptable_overhead_ratio in
    s ← store s (bpv - 1) format VERSION_CURRENT bits_per_value;
    output ← write_vint output (Z.lor (shl_i 32 (Formats.get_id format) 5) (bits_per_value - 1));
    Ok (s, output)) (uninit, output).

(** Reading an array element that may not have been initialized. *)
Definition slot (l : list (option BulkOperation.t)) (k : Z) : result BulkOperation.t :=
  o ← vget l k; match (o : option BulkOperation.t) with Some op => Ok op | None => Panic end.

(** The two buffers are returned as the call leaves them. *)
Definition read_block {In} `{DataInput In} (s : t) (input : In) (encoded decoded : list Z) : result (list Z * list Z * In) :=
  '(num_bits, input) ← read_byte input;
  if num_bits =? ALL_VALUES_EQUAL then
    '(value, input) ← read_vint input;
    decoded ← vblit decoded 0 (replicate (Z.to_nat BLOCK_SIZE) value);
    Ok (encoded, decoded, input)
  else
    encoded_size ← vget (encoded_sizes s) (num_bits - 1);
    _ ← vslice encoded 0 (as_u64 encoded_size);
    '(bs, input) ← read_exact input (as_u64 encoded_size);
    encoded ← vblit encoded 0 bs;
    decoder ← slot (decoders s) (num_bits - 1);
    iters ← vget (iterations s) (num_bits - 1);
    decoded ← BulkOperation.decode_byte_to_int decoder encoded decoded (as_u64 iters);
    Ok (encoded, decoded, input).

Definition skip_block {In} `{IndexInput In} (s : t) (input : In) : result In :=
  '(num_bits, input) ← read_byte input;
  if num_bits =? ALL_VALUES_EQUAL then '(_, input) ← read_vint input; Ok input
  else
    encoded_size ← vget (encoded_sizes s) (num_bits - 1);
    let fp := input_pointer input in
    seek input (as_i64 (fp + encoded_size)).
End ForUtilInstance.

(** * ForUtil *)

Definition is_all_equal (data : list Z) : result bool :=
  _ ← check (negb (vlen data =? 0));
  v ← vget data 0;
  rest ← vslice data 1 BLOCK_SIZE;
  Ok (forallb (fun i => i =? v) rest).

Definition bits_required (data : list Z) : result Z :=
  block ← vslice data 0 BLOCK_SIZE;
  Ok (as_i32 (Numeric.bits_required 32 (foldl Z.lor 0 block))).

Definition write_block {Out} `{Write Out} (s : ForUtilInstance.t) (data encoded : list Z) (out : Out) : result (list Z * Out) :=
  all_equal ← is_all_equal data;
  if (all_equal : bool) then
    out ← write_byte out 0;
    v ← vget data 0;
    out ← write_vint out v;
    Ok (encoded, out)
  else
    num_bits ← bits_required data;
    _ ← check ((0 <? as_u64 num_bits) && (as_u64 num_bits <=? 32));
    iters ← vget (ForUtilInstance.iterations s) (num_bits - 1);
    encoder ← ForUtilInstance.slot (ForUtilInstance.encoders s) (num_bits - 1);
    _ ← check (BLOCK_SIZE <=? as_i32 (iters * BulkOperation.byte_value_count encoder));
    encoded_size ← vget (ForUtilInstance.encoded_sizes s) (num_bits - 1);
    out ← write_byte out (as_u8 num_bits);
    encoded ← BulkOperation.encode_int_to_byte encoder data encoded (as_u64 iters);
    out ← write_bytes out encoded 0 (as_u64 encoded_size);
    Ok (encoded, out).

(** [test_max_data_size] *)
Example max_data_size_value : max_data_size = Ok MAX_DATA_SIZE.
Proof. vm_compute. reflexivity. Qed.
