(* ===== verification/ForUtilFacts.v ===== *)
(** Blocks of postings are read back as they were written, and skipped to their
    end, by an instance that the reader rebuilds from the header. *)

From S2P Require Import Prelude Float32 DataIO DataIOFacts Numeric PackedBulk PackedBulkFacts PackedSingleFacts PackedMutable PackedArrayFacts Packed64Facts PackedCopyFacts Mmap ForUtil.
Open Scope Z_scope.

(** * Shared lemmas *)

Lemma for_range_snoc {St} from to (body : Z → St → result St) s : from ≤ to →
  for_range from (to + 1) body s = (s ← for_range from to body s; body to s).
Proof.
  intros H. unfold for_range. remember (Z.to_nat (to - from)) as n eqn:En. replace (Z.to_nat (to + 1 - from)) with (S n) by lia.
  assert (to = from + Z.of_nat n) as -> by lia. clear En H. revert from s. induction n as [|n IH]; intros from s.
  - cbn [for_n]. rewrite bind_Ok_l. replace (from + Z.of_nat 0) with from by lia. by destruct (body from s).
  - change (for_n (S (S n)) from body s) with (body from s ≫= for_n (S n) (from + 1) body).
    change (for_n (S n) from body s) with (body from s ≫= for_n n (from + 1) body). rewrite bind_assoc.
    destruct (body from s) as [t| | |]; [|done..]. rewrite !bind_Ok_l. rewrite IH. do 2 f_equal. lia.
Qed.

Lemma vget_vset {A} (l l' : list A) k x j : vset l k x = Ok l' → vget l' j = if j =? k then Ok x else vget l j.
Proof.
  intros [Hk ->]%vset_Ok. unfold vlen in Hk. unfold vget. case_decide as Hj; [|by rewrite (proj2 (Z.eqb_neq j k)) by lia].
  destruct (Z.eqb_spec j k) as [->|]; [by rewrite list_lookup_insert_eq by lia|by rewrite list_lookup_insert_ne by lia].
Qed.

Lemma is_u_lor_l B a b : 0 ≤ B → 0 ≤ a → 0 ≤ b → is_u B (Z.lor a b) → is_u B a.
Proof.
  intros HB Ha Hb [_ Hl]. split; [done|]. destruct (Z.eq_dec a 0) as [->|]; [by apply pow2_pos|].
  assert (Z.lor a b ≠ 0) by (intros [-> _]%Z.lor_eq_0_iff; done). pose proof (proj2 (Z.lor_nonneg a b) (conj Ha Hb)).
  apply Z.log2_lt_pow2; [lia|]. apply Z.log2_lt_pow2 in Hl; [|lia]. rewrite Z.log2_lor in Hl by done. lia.
Qed.

(** The disjunction of a list needs the bits of each of its members. *)
Lemma is_u_foldl_lor B l : 0 ≤ B → ∀ acc, is_u B (as_u32 (foldl Z.lor acc l)) → is_u B (as_u32 acc) ∧ Forall (fun v => is_u B (as_u32 v)) l.
Proof.
  intros HB. induction l as [|v l IH]; intros acc H; [by split|]. cbn [foldl] in H. destruct (IH _ H) as [Ha Hl].
  rewrite as_u_lor in Ha by lia. pose proof (as_u_range 32 acc ltac:(lia)) as [? _]. pose proof (as_u_range 32 v ltac:(lia)) as [? _].
  split; [by apply (is_u_lor_l B _ (as_u32 v))|]. constructor; [|done]. rewrite Z.lor_comm in Ha. by apply (is_u_lor_l B _ (as_u32 acc)).
Qed.

Lemma bits_required_32 x : 1 ≤ Numeric.bits_required 32 x ≤ 32 ∧ is_u (Numeric.bits_required 32 x) (as_u32 x).
Proof.
  unfold Numeric.bits_required, leading_zeros. pose proof (as_u_range 32 x ltac:(lia)) as [H0 H1]. fold as_u32. destruct (Z.eqb_spec (as_u32 x) 0) as [->|].
  - split; [lia|]. by split.
  - pose proof (Z.log2_nonneg (as_u32 x)). assert (Z.log2 (as_u32 x) < 32) by (apply Z.log2_lt_pow2; lia). split; [lia|]. split; [done|].
    apply Z.log2_lt_pow2; lia.
Qed.

(** * The codec of a width *)

(** Encoding fills the same bytes into any buffer, and any buffer that starts
    with them is decoded to the values. *)
Lemma int_byte_codec f B : 1 ≤ B ≤ 32 → ∃ op, BulkOperation.bulk_operation_of f B = Ok op ∧
  ∀ it values, 0 ≤ it → BulkOperation.byte_value_count op * it ≤ vlen values →
    Forall (fun v => is_i 32 v ∧ is_u B (as_u32 v)) (take (Z.to_nat (BulkOperation.byte_value_count op * it)) values) →
    ∃ W, vlen W = BulkOperation.byte_block_count op * it ∧
      (∀ bytes, BulkOperation.byte_block_count op * it ≤ vlen bytes → BulkOperation.encode_int_to_byte op values bytes it = Ok (filled W bytes)) ∧
      (∀ bytes dst, BulkOperation.byte_block_count op * it ≤ vlen bytes → BulkOperation.byte_value_count op * it ≤ vlen dst →
         BulkOperation.decode_byte_to_int op (filled W bytes) dst it =
           Ok (take (Z.to_nat (BulkOperation.byte_value_count op * it)) values ++ drop (Z.to_nat (BulkOperation.byte_value_count op * it)) dst)).
Proof.
  intros HB. destruct f.
  - destruct (bulk_operation_packed B) as (b & E & Hok); [lia|]. exists (BulkOperation.OpPacked b). split; [done|]. intros it values Hit Hv Hin.
    cbn [BulkOperation.byte_value_count BulkOperation.byte_block_count BulkOperation.encode_int_to_byte BulkOperation.decode_byte_to_int] in *.
    pose proof (op_counts _ _ Hok) as (_ & _ & Hc3 & Hc4).
    destruct (encode_int_to_byte_spec B b Hok ltac:(lia) values (replicate (Z.to_nat (BulkOperationPacked.byte_block_count b * it)) 0) it) as (W & _ & Hg & _ & Hc & Hval);
      try done; try lia; [rewrite vlen_replicate; nia|]. exists W. split; [lia|]. split.
    + intros bytes Hb. destruct (encode_int_to_byte_spec B b Hok ltac:(lia) values bytes it) as (W' & -> & Hg' & _ & Hc' & Hval'); try done; try lia.
      do 2 f_equal. rewrite <- Hval in Hval'. rewrite !map_id in Hval'.
      apply (be_value_inj 8); try done; try lia. unfold vlen in *. lia.
    + intros bytes dst Hb Hd. apply (regroup_back B 32 8 _ (it * BulkOperationPacked.byte_block_count b) as_u32 W bytes); try done; try lia; try nia.
      * rewrite <- Hval. f_equal. apply map_ext_Forall. eapply Forall_impl; [|exact Hg]. intros x [? ?]. apply as_u_id. unfold is_u. lia.
      * apply decode_byte_to_int_spec; try done; try lia; [rewrite vlen_filled; lia|]. rewrite take_filled by lia. done.
  - eexists. split; [reflexivity|]. intros it values Hit Hv Hin.
    cbn [BulkOperation.byte_value_count BulkOperation.byte_block_count BulkOperation.SB.value_count BulkOperation.SB.new] in *.
    replace (64 / B * it) with (it * (64 / B)) in * by lia.
    assert (∀ v, is_i 32 v ∧ is_u B (as_u32 v) → is_i 64 (as_u32 v) ∧ as_u64 (as_u32 v) = as_u32 v ∧ is_u B (as_u32 v)) as Hwide.
    { intros v [H1 H2]. pose proof (as_u_range 32 v ltac:(lia)) as [? ?]. split_and!; [unfold is_i; lia|apply as_u_id; unfold is_u; lia|done]. }
    assert (∀ v, is_i 32 v ∧ is_u B (as_u32 v) → as_i32 (as_u32 v) = v) as Hcut by (intros v [H1 _]; rewrite as_i_as_u by lia; by apply as_i_id; [lia|]).
    assert (∀ bytes, 8 * it ≤ vlen bytes → ∃ W, BulkOperation.encode_int_to_byte (BulkOperation.OpPackedSB (BulkOperation.SB.new B)) values bytes it = Ok (filled (block_bytes W) bytes) ∧
       vlen W = it ∧ ∀ i b, 0 ≤ i → W !! Z.to_nat i = Some b → codes B as_u32 values i b) as Henc.
    { intros bytes Hb. by apply (encode_to_byte_single B HB (fun v => as_u32 v) as_u32 (fun v => is_i 32 v ∧ is_u B (as_u32 v))). }
    destruct (Henc (replicate (Z.to_nat (8 * it)) 0)) as (W & _ & HW & Hc); [rewrite vlen_replicate; lia|].
    exists (block_bytes W). split; [rewrite vlen_block_bytes; lia|]. split.
    + intros bytes Hb. destruct (Henc bytes Hb) as (W' & -> & HW' & Hc'). do 3 f_equal. apply list_eq. intros k.
      destruct (decide (Z.of_nat k < it)).
      * destruct (lookup_lt_is_Some_2 W k) as [b Hbk]; [unfold vlen in HW; lia|]. destruct (lookup_lt_is_Some_2 W' k) as [b' Hbk']; [unfold vlen in HW'; lia|].
        rewrite Hbk, Hbk'. f_equal. destruct (Hc (Z.of_nat k) b) as [I1 V1]; [lia|by rewrite Nat2Z.id|]. destruct (Hc' (Z.of_nat k) b') as [I2 V2]; [lia|by rewrite Nat2Z.id|].
        rewrite <- (as_i_id 64 b), <- (as_i_id 64 b') by (done || lia). rewrite <- (as_i_as_u 64 b), <- (as_i_as_u 64 b') by lia. congruence.
      * rewrite !lookup_ge_None_2; [done|unfold vlen in *; lia..].
    + intros bytes dst Hb Hd. unfold BulkOperation.decode_byte_to_int, BulkOperationPackedSingleBlock.decode_byte_to_int.
      cbn [BulkOperationPackedSingleBlock.bits_per_value BulkOperationPackedSingleBlock.new BulkOperation.SB.new BulkOperation.SB.bits_per_value].
      rewrite (proj2 (Z.ltb_ge 32 B)) by lia.
      etransitivity; [by apply (decode_bytes_spec B HB (fun v => as_u32 v) (fun v => as_i32 v) as_u32 (fun v => is_i 32 v ∧ is_u B (as_u32 v)) Hwide Hcut values bytes W dst it)|].
      unfold filled. do 3 f_equal. rewrite length_take. pose proof (vc_bounds B HB). unfold vlen in *. nia.
Qed.

(** The sizes of a width: the iterations cover a block, stay within the largest
    data size, and the bytes they use are those that are written. *)
Record sized (f : Format) (B : Z) (op : BulkOperation.t) : Prop := {
  sz_iters : 1 ≤ compute_iterations op ≤ 128;
  sz_values : 128 ≤ BulkOperation.byte_value_count op * compute_iterations op ≤ MAX_DATA_SIZE;
  sz_bytes : BulkOperation.byte_block_count op * compute_iterations op = encoded_size f B;
  sz_encoded : 0 < encoded_size f B ≤ MAX_ENCODED_SIZE;
}.

Definition sized_b (f : Format) (B : Z) : bool :=
  match BulkOperation.bulk_operation_of f B with
  | Ok op =>
    (1 <=? compute_iterations op) && (compute_iterations op <=? 128) &&
    (128 <=? BulkOperation.byte_value_count op * compute_iterations op) && (BulkOperation.byte_value_count op * compute_iterations op <=? MAX_DATA_SIZE) &&
    (BulkOperation.byte_block_count op * compute_iterations op =? encoded_size f B) && (0 <? encoded_size f B) && (encoded_size f B <=? MAX_ENCODED_SIZE)
  | _ => false
  end.

Lemma sizes_ok f B op : 1 ≤ B ≤ 32 → BulkOperation.bulk_operation_of f B = Ok op → sized f B op.
Proof.
  intros HB Hop. assert (forallb (fun B => sized_b Packed B && sized_b PackedSingleBlock B) (seqZ 1 32) = true) as Hall by (vm_compute; reflexivity).
  rewrite forallb_forall in Hall. specialize (Hall B ltac:(apply list_elem_of_In, elem_of_seqZ; lia)). apply andb_true_iff in Hall.
  assert (sized_b f B = true) as Hs by (destruct f; apply Hall). unfold sized_b in Hs. rewrite Hop in Hs.
  rewrite !andb_true_iff, !Z.leb_le, Z.ltb_lt, Z.eqb_eq in Hs. destruct Hs as ((((((H1 & H2) & H3) & H4) & H5) & H6) & H7). constructor; done.
Qed.

Lemma fastest_32 b r : 1 ≤ b ≤ 32 → let '(f, B) := Formats.fastest BLOCK_SIZE b r in b ≤ B ≤ 32.
Proof.
  intros Hb. unfold Formats.fastest. cbv zeta. set (mx := as_i32 _).
  pose proof (as_i_range 32 (b + f32_as_i32 (f32_mul (f32_min Formats.FASTEST (f32_max Formats.COMPACT r)) (f32_of_Z b))) ltac:(lia)) as [_ Hmx]. fold mx in Hmx.
  repeat match goal with |- context [if ?c then _ else _] =>
    lazymatch c with _ && _ => destruct c eqn:?; [cbn; rewrite !andb_true_iff, ?andb_false_iff, ?Z.leb_le, ?Z.leb_gt in *; lia|] end end.
  destruct (Formats.find_single_block _ _ _ _ _) as [B|] eqn:E; [|lia].
  apply find_single_block_spec in E as [HB Hs]. cbn [Formats.is_supported] in Hs. rewrite as_u_id in Hs by (unfold is_u; lia).
  split; [lia|]. unfold Formats.single_block_supported in Hs. apply existsb_exists in Hs as (x & Hx & ->%Z.eqb_eq).
  repeat (destruct Hx as [<-|Hx]; [lia|]). done.
Qed.

(** * The header *)

Section header.
Import ForUtilInstance.
Context (ratio : f32).

(** The format and the width chosen for values of [k + 1] bits. *)
Definition choice (k : Z) : Format * Z := Formats.fastest BLOCK_SIZE (k + 1) ratio.
Definition code (k : Z) : Z := 32 * Formats.get_id (choice k).1 + (choice k).2 - 1.

(** The loop that both constructors run. *)
Definition built (n : Z) : result t := for_range 0 n (fun k s => store s k (choice k).1 VERSION_CURRENT (choice k).2) uninit.

(** Entry [k] of the four arrays. *)
Definition entry_ok (s : t) (k : Z) : Prop :=
  ∃ op, BulkOperation.bulk_operation_of (choice k).1 (choice k).2 = Ok op ∧ vget (encoded_sizes s) k = Ok (encoded_size (choice k).1 (choice k).2) ∧
    slot (decoders s) k = Ok op ∧ slot (encoders s) k = Ok op ∧ vget (iterations s) k = Ok (compute_iterations op).

Definition lengths (s : t) : Prop := vlen (encoded_sizes s) = 32 ∧ vlen (decoders s) = 32 ∧ vlen (encoders s) = 32 ∧ vlen (iterations s) = 32.

Lemma choice_range k : 0 ≤ k < 32 → k + 1 ≤ (choice k).2 ≤ 32.
Proof using. intros Hk. unfold choice. pose proof (fastest_32 (k + 1) ratio ltac:(lia)) as H. by destruct (Formats.fastest _ _ _). Qed.

Lemma store_spec s k f B : lengths s → 0 ≤ k < 32 → 1 ≤ B ≤ 32 →
  ∃ s' op, store s k f VERSION_CURRENT B = Ok s' ∧ lengths s' ∧ BulkOperation.bulk_operation_of f B = Ok op ∧
    (∀ j, vget (encoded_sizes s') j = if j =? k then Ok (encoded_size f B) else vget (encoded_sizes s) j) ∧
    (∀ j, slot (decoders s') j = if j =? k then Ok op else slot (decoders s) j) ∧
    (∀ j, slot (encoders s') j = if j =? k then Ok op else slot (encoders s) j) ∧
    (∀ j, vget (iterations s') j = if j =? k then Ok (compute_iterations op) else vget (iterations s) j).
Proof using.
  intros (L1 & L2 & L3 & L4) Hk HB. destruct (int_byte_codec f B HB) as (op & Hop & _). unfold store, get_decoder, get_encoder.
  assert (check_version VERSION_CURRENT = Ok tt) as -> by done. rewrite !bind_Ok_l, (as_u_id 64 B), Hop by (unfold is_u; lia).
  assert (∀ (A : Type) (l : list A) x, vlen l = 32 → ∃ l', vset l k x = Ok l' ∧ vlen l' = 32 ∧ ∀ j, vget l' j = if j =? k then Ok x else vget l j) as Hset.
  { intros A l x Hl. pose proof (vset_in l k x ltac:(lia)) as E. eexists. split; [exact E|]. split; [by rewrite vlen_insert|]. intros j. by apply (vget_vset l). }
  destruct (Hset _ (encoded_sizes s) (encoded_size f B) L1) as (l1 & -> & M1 & V1). rewrite !bind_Ok_l.
  destruct (Hset _ (decoders s) (Some op) L2) as (l2 & -> & M2 & V2). rewrite !bind_Ok_l.
  destruct (Hset _ (encoders s) (Some op) L3) as (l3 & -> & M3 & V3). rewrite bind_Ok_l.
  destruct (Hset _ (iterations s) (compute_iterations op) L4) as (l4 & -> & M4 & V4). rewrite bind_Ok_l.
  eexists _, op. split; [done|]. cbn [encoded_sizes decoders encoders iterations]. split; [by split_and!|]. split; [done|].
  split; [done|]. unfold slot. split; [intros j; rewrite V2; by destruct (j =? k)|]. split; [intros j; rewrite V3; by destruct (j =? k)|done].
Qed.

Lemma uninit_lengths : lengths uninit.
Proof using. done. Qed.

Lemma store_entry s k : lengths s → 0 ≤ k < 32 → (∀ j, 0 ≤ j < k → entry_ok s j) →
  ∃ s', store s k (choice k).1 VERSION_CURRENT (choice k).2 = Ok s' ∧ lengths s' ∧ ∀ j, 0 ≤ j < k + 1 → entry_ok s' j.
Proof using.
  intros Hl Hk Hs. pose proof (choice_range k Hk). destruct (store_spec s k (choice k).1 (choice k).2 Hl Hk ltac:(lia)) as (s' & op & E & Hl' & Hop & V1 & V2 & V3 & V4).
  exists s'. split; [done|]. split; [done|]. intros j Hj. unfold entry_ok. rewrite V1, V2, V3, V4. destruct (Z.eqb_spec j k) as [->|]; [by exists op|].
  apply Hs. lia.
Qed.

Lemma code_split k : 0 ≤ k < 32 → is_i 32 (code k) ∧ Z.lor (shl_i 32 (Formats.get_id (choice k).1) 5) ((choice k).2 - 1) = code k ∧
  Formats.with_id (as_i32 (Z.shiftr (as_u64 (code k)) 5)) = Ok (choice k).1 ∧ Z.land (code k) 31 + 1 = (choice k).2.
Proof using.
  intros Hk. pose proof (choice_range k Hk) as HB. unfold code. destruct (choice k) as [f B]. cbn [fst snd] in *.
  assert (Formats.get_id f = 0 ∨ Formats.get_id f = 1) as Hid by (destruct f; [by left|by right]). set (id := Formats.get_id f) in *.
  assert (0 ≤ 32 * id + B - 1 < 64) by lia. split; [unfold is_i; lia|]. split; [|split].
  - unfold shl_i. rewrite Z.shiftl_mul_pow2, as_i_id by (try lia; unfold is_i; lia). rewrite (lor_add _ _ 5); [lia|lia|by eexists|unfold is_u; lia].
  - rewrite as_u_id, Z.shiftr_div_pow2 by (try lia; unfold is_u; lia). change (2 ^ 5) with 32. replace ((32 * id + B - 1) / 32) with id.
    + rewrite as_i_id by (try lia; unfold is_i; lia). unfold id. by destruct f.
    + apply (Z.div_unique _ _ _ (B - 1)); lia.
  - change 31 with (Z.ones 5). rewrite Z.land_ones by lia. change (2 ^ 5) with 32. rewrite <- (Z.mod_unique (32 * id + B - 1) 32 id (B - 1)); lia.
Qed.

Definition header_bytes (n : Z) : list Z := vbytes 4 (as_u32 VERSION_CURRENT) ++ concat (map (fun k => vbytes 4 (as_u32 (code k))) (seqZ 0 n)).

Lemma header_snoc n : 0 ≤ n → header_bytes (n + 1) = header_bytes n ++ vbytes 4 (as_u32 (code n)).
Proof using.
  intros Hn. unfold header_bytes. rewrite <- app_assoc. f_equal. rewrite seqZ_app, Z.add_0_l by lia.
  rewrite map_app, concat_app, (seqZ_cons n 1) by lia. change (seqZ (Z.succ n) (Z.pred 1)) with (@nil Z). cbn [map concat]. by rewrite app_nil_r.
Qed.

Lemma with_output_spec {Out} `{HO : LawfulOutput Out} (out : Out) : roomy out →
  ∃ s out', with_output ratio out = Ok (s, out') ∧ built 32 = Ok s ∧ (∀ k, 0 ≤ k < 32 → entry_ok s k) ∧ roomy out' ∧
    written out' = written out ++ header_bytes 32.
Proof using.
  intros Hout. unfold with_output. destruct (roomy_emits _ _ out (emits_vint VERSION_CURRENT) Hout) as (o1 & -> & Hw1 & Ho1). rewrite bind_Ok_l.
  match goal with |- ∃ s out', ?run = _ ∧ _ => enough (∃ x, run = Ok x ∧ (built (33 - 1) = Ok x.1 ∧ lengths x.1 ∧ (∀ k, 0 ≤ k < 33 - 1 → entry_ok x.1 k) ∧ roomy x.2 ∧
    written x.2 = written out ++ header_bytes (33 - 1))) as ([s o2] & -> & H1 & _ & H2 & H3 & H4) end.
  { exists s, o2. by split_and!. }
  apply (for_range_inv (fun n x => built (n - 1) = Ok x.1 ∧ lengths x.1 ∧ (∀ k, 0 ≤ k < n - 1 → entry_ok x.1 k) ∧ roomy x.2 ∧
    written x.2 = written out ++ header_bytes (n - 1))); [lia| |].
  - cbn [fst snd]. split; [done|]. split; [apply uninit_lengths|]. split; [lia|]. split; [done|]. rewrite Hw1. unfold header_bytes. change (seqZ 0 (1 - 1)) with (@nil Z).
    cbn [map concat]. by rewrite app_nil_r.
  - intros n [s o] Hn (Hb & Hl & He & Ho & Hw). cbn [fst snd] in *.
    destruct (store_entry s (n - 1) Hl ltac:(lia) He) as (s' & E & Hl' & He'). destruct (code_split (n - 1) ltac:(lia)) as (Hc & Ec & _ & _).
    assert (built (n - 1 + 1) = Ok s') as Hb' by (unfold built in *; rewrite for_range_snoc by lia; rewrite Hb, bind_Ok_l; done).
    assert (Formats.fastest BLOCK_SIZE n ratio = choice (n - 1)) as -> by (unfold choice; f_equal; lia).
    destruct (choice (n - 1)) as [f B] eqn:Ech. cbn [fst snd] in *. rewrite E, bind_Ok_l, Ec.
    destruct (roomy_emits _ _ o (emits_vint (code (n - 1))) Ho) as (o2 & -> & Hw2 & Ho2). eexists. split; [done|]. cbn [fst snd].
    replace (n + 1 - 1) with (n - 1 + 1) by lia. split; [done|]. split; [done|]. split; [done|]. split; [done|].
    by rewrite Hw2, Hw, header_snoc, <- app_assoc by lia.
Qed.

(** The reader builds the instance of the writer. *)
Lemma with_input_spec {In} `{HI : LawfulInput In} (i : In) rest s : built 32 = Ok s → remains i (header_bytes 32 ++ rest) →
  ∃ i', with_input i = Ok (s, i') ∧ remains i' rest.
Proof using.
  intros Hs Hrem. unfold header_bytes in Hrem. rewrite <- app_assoc in Hrem. unfold with_input.
  destruct (parses_vint_of VERSION_CURRENT ltac:(done) i _ Hrem) as (i1 & -> & R1). rewrite bind_Ok_l.
  assert (check_version VERSION_CURRENT = Ok tt) as -> by done. rewrite bind_Ok_l.
  match goal with |- ∃ i', ?run = _ ∧ _ => enough (∃ x, run = Ok x ∧ (built 32 = Ok x.1 ∧ lengths x.1 ∧ (∀ k, 0 ≤ k < 32 → entry_ok x.1 k) ∧
    remains x.2 (concat (map (fun k => vbytes 4 (as_u32 (code k))) (seqZ 32 (32 - 32))) ++ rest))) as ([s' i2] & -> & H1 & _ & _ & R2) end.
  { cbn [fst snd] in *. rewrite H1 in Hs. injection Hs as <-. by exists i2. }
  apply (for_range_inv (fun n x => built n = Ok x.1 ∧ lengths x.1 ∧ (∀ k, 0 ≤ k < n → entry_ok x.1 k) ∧
    remains x.2 (concat (map (fun k => vbytes 4 (as_u32 (code k))) (seqZ n (32 - n))) ++ rest))); [lia| |].
  - cbn [fst snd]. split; [done|]. split; [apply uninit_lengths|]. split; [lia|done].
  - intros n [s0 i0] Hn (Hb & Hl & He & R). cbn [fst snd] in *. rewrite (seqZ_cons n (32 - n)) in R by lia. cbn [map concat] in R. rewrite <- app_assoc in R.
    destruct (code_split n ltac:(lia)) as (Hc & _ & Hid & HB). destruct (parses_vint_of (code n) Hc i0 _ R) as (i2 & -> & R2). rewrite bind_Ok_l, Hid, bind_Ok_l, HB.
    destruct (store_entry s0 n Hl ltac:(lia) He) as (s' & E & Hl' & He'). rewrite E, bind_Ok_l. eexists. split; [done|]. cbn [fst snd].
    split; [unfold built in *; rewrite for_range_snoc by lia; by rewrite Hb, bind_Ok_l|]. split; [done|]. split; [done|].
    by replace (Z.succ n) with (n + 1) in R2 by lia; replace (Z.pred (32 - n)) with (32 - (n + 1)) in R2 by lia.
Qed.
End header.

(** * Blocks *)

(** The values of a block; what follows them in the buffer is zero. *)
Record block_data (data : list Z) : Prop := {
  bd_len : MAX_DATA_SIZE ≤ vlen data;
  bd_vals : Forall (is_i 32) data;
  bd_zero : Forall (eq 0) (drop 128 data);
}.

Lemma all_equal_spec data : MAX_DATA_SIZE ≤ vlen data →
  ∃ b, is_all_equal data = Ok b ∧ (b = true → take 128 data = replicate 128 (nthz data 0)).
Proof.
  unfold MAX_DATA_SIZE. intros Hl. unfold is_all_equal, BLOCK_SIZE, check. rewrite (proj2 (Z.eqb_neq (vlen data) 0)) by lia. cbn [negb]. rewrite bind_Ok_l.
  rewrite vget_nthz, bind_Ok_l, vslice_in, bind_Ok_l by lia. eexists. split; [done|]. intros Hall. rewrite forallb_forall in Hall.
  change 128%nat with (Z.to_nat 128). apply nthz_ext; [by rewrite vlen_take, vlen_replicate by lia|]. intros j Hj. rewrite vlen_take in Hj by lia.
  rewrite nthz_take, nthz_replicate by lia. destruct (Z.eq_dec j 0) as [->|]; [done|]. apply Z.eqb_eq, Hall.
  replace (nthz data j) with (nthz (take (Z.to_nat (128 - 1)) (drop (Z.to_nat 1) data)) (j - 1)) by (rewrite nthz_take, nthz_drop by lia; f_equal; lia).
  apply nthz_Forall; [|rewrite vlen_take; rewrite ?vlen_drop; lia]. apply List.Forall_forall. done.
Qed.

Lemma block_bits data : block_data data →
  ∃ B, bits_required data = Ok B ∧ 1 ≤ B ≤ 32 ∧ Forall (fun v => is_i 32 v ∧ is_u B (as_u32 v)) data.
Proof.
  intros [Hl Hv Hz]. unfold MAX_DATA_SIZE in Hl. unfold bits_required, BLOCK_SIZE. rewrite vslice_in, bind_Ok_l by lia. change (Z.to_nat (128 - 0)) with 128%nat.
  change (Z.to_nat 0) with 0%nat. rewrite drop_0. set (or := foldl _ _ _). destruct (bits_required_32 or) as [HB Hor].
  rewrite as_i_id by (try lia; unfold is_i; lia). eexists. split; [done|]. split; [done|].
  apply is_u_foldl_lor in Hor as [_ Hall]; [|lia]. rewrite <- (take_drop 128 data) in Hv |- *. apply Forall_app in Hv as [Hv1 Hv2]. apply Forall_app_2.
  - apply List.Forall_forall. intros x Hx. rewrite List.Forall_forall in Hv1, Hall. split; [by apply Hv1|by apply Hall].
  - eapply Forall_impl; [|exact Hz]. intros x <-. split; [done|]. split; [done|]. apply pow2_pos. lia.
Qed.

(** What [seek] owes to [skip_block]. *)
Class LawfulIndexInput (In : Type) `{LawfulInput In} `{!IndexInput In} : Prop :=
  seek_law : ∀ (i : In) l n, remains i l → 0 ≤ n ≤ vlen l →
    ∃ i', seek i (as_i64 (input_pointer i + n)) = Ok i' ∧ remains i' (drop (Z.to_nat n) l).

Section blocks.
Context {Out In : Type} `{HO : LawfulOutput Out} `{HI : LawfulIndexInput In} (ratio : f32) (s : ForUtilInstance.t).
Hypothesis Hs : ∀ k, 0 ≤ k < 32 → entry_ok ratio s k.

(** Writing a block. *)
Lemma write_block_spec data enc (o : Out) : block_data data → MAX_ENCODED_SIZE ≤ vlen enc → roomy o →
  ∃ enc' o' bs, write_block s data enc o = Ok (enc', o') ∧ vlen enc' = vlen enc ∧ roomy o' ∧ written o' = written o ++ bs ∧
    ((take 128 data = replicate 128 (nthz data 0) ∧ bs = 0 :: vbytes 4 (as_u32 (nthz data 0))) ∨
     ∃ B op W, 1 ≤ B ≤ 32 ∧ BulkOperation.bulk_operation_of (choice ratio (B - 1)).1 (choice ratio (B - 1)).2 = Ok op ∧ bs = B :: W ∧
       vlen W = encoded_size (choice ratio (B - 1)).1 (choice ratio (B - 1)).2 ∧
       ∀ bytes dst, vlen W ≤ vlen bytes → MAX_DATA_SIZE ≤ vlen dst → ∃ n, 128 ≤ n ≤ MAX_DATA_SIZE ∧
         BulkOperation.decode_byte_to_int op (filled W bytes) dst (compute_iterations op) = Ok (take (Z.to_nat n) data ++ drop (Z.to_nat n) dst)).
Proof using HO Hs.
  intros Hd He Ho. pose proof Hd as [Hl Hv _]. unfold write_block. destruct (all_equal_spec data Hl) as (b & -> & Hb). rewrite bind_Ok_l. unfold MAX_DATA_SIZE in Hl. destruct b.
  - destruct (roomy_emits _ _ o (emits_write_all [0]) Ho) as (o1 & E1 & Hw1 & Ho1). unfold write_byte. rewrite E1, bind_Ok_l, vget_nthz, bind_Ok_l by lia.
    destruct (roomy_emits _ _ o1 (emits_vint (nthz data 0)) Ho1) as (o2 & -> & Hw2 & Ho2). rewrite bind_Ok_l.
    exists enc, o2, (0 :: vbytes 4 (as_u32 (nthz data 0))). split; [done|]. split; [done|]. split; [done|]. split; [by rewrite Hw2, Hw1, <- app_assoc|].
    left. split; [by apply Hb|done].
  - destruct (block_bits data Hd) as (B & -> & HB & Hfit). rewrite bind_Ok_l. unfold check. rewrite (as_u_id 64 B) by (unfold is_u; lia).
    rewrite (proj2 (Z.ltb_lt 0 B)), (proj2 (Z.leb_le B 32)) by lia. cbn [andb]. rewrite bind_Ok_l.
    destruct (Hs (B - 1) ltac:(lia)) as (op & Hop & Esz & _ & Een & Eit). rewrite Eit, bind_Ok_l, Een, bind_Ok_l.
    pose proof (choice_range ratio (B - 1) ltac:(lia)) as Hch. destruct (sizes_ok (choice ratio (B - 1)).1 (choice ratio (B - 1)).2 op ltac:(lia) Hop) as [S1 S2 S3 S4]. unfold MAX_ENCODED_SIZE, MAX_DATA_SIZE, BLOCK_SIZE in *.
    rewrite (Z.mul_comm (compute_iterations op)), as_i_id, (proj2 (Z.leb_le 128 _)), bind_Ok_l, Esz, bind_Ok_l by (try lia; unfold is_i; lia).
    destruct (roomy_emits _ _ o (emits_write_all [as_u8 B]) Ho) as (o1 & E1 & Hw1 & Ho1). unfold write_byte. rewrite E1, bind_Ok_l.
    destruct (int_byte_codec (choice ratio (B - 1)).1 (choice ratio (B - 1)).2 ltac:(lia)) as (op' & Hop' & Hcodec). rewrite Hop in Hop'. injection Hop' as <-.
    rewrite (as_u_id 64 (compute_iterations op)) by (unfold is_u; lia).
    destruct (Hcodec (compute_iterations op) data) as (W & HW & Henc & Hdec); [lia|lia| |].
    { apply Forall_take. eapply Forall_impl; [|exact Hfit]. intros x [Hx1 [Hx2 Hx3]]. split; [done|]. split; [done|].
      pose proof (Z.pow_le_mono_r 2 B (choice ratio (B - 1)).2 ltac:(lia) ltac:(lia)). lia. }
    rewrite Henc, bind_Ok_l by lia. rewrite (as_u_id 64 (encoded_size _ _)) by (unfold is_u; lia). unfold write_bytes.
    rewrite vslice_in by (rewrite ?vlen_filled; lia). rewrite bind_Ok_l, Z.add_0_l, Z.sub_0_r. change (Z.to_nat 0) with 0%nat. rewrite drop_0, take_filled by lia.
    destruct (roomy_emits _ _ o1 (emits_write_all W) Ho1) as (o2 & -> & Hw2 & Ho2). rewrite bind_Ok_l.
    exists (filled W enc), o2, (B :: W). rewrite vlen_filled by lia. split; [done|]. split; [done|]. split; [done|].
    rewrite as_u_id in Hw1 by (unfold is_u; lia). split; [by rewrite Hw2, Hw1, <- app_assoc|]. right. exists B, op, W. split; [done|]. split; [done|]. split; [done|].
    split; [lia|]. intros bytes dst Hby Hdst. exists (BulkOperation.byte_value_count op * compute_iterations op). split; [lia|]. apply Hdec; lia.
Qed.

Lemma vblit_prefix (W l : list Z) : vlen W ≤ vlen l → vblit l 0 W = Ok (filled W l).
Proof using. intros Hle. rewrite vblit_in by lia. change (Z.to_nat 0) with 0%nat. by rewrite take_0. Qed.

(** Reading it back, and skipping it. *)
Lemma read_block_spec data bs (i : In) rest enc dec : block_data data →
  ((take 128 data = replicate 128 (nthz data 0) ∧ bs = 0 :: vbytes 4 (as_u32 (nthz data 0))) ∨
   ∃ B op W, 1 ≤ B ≤ 32 ∧ BulkOperation.bulk_operation_of (choice ratio (B - 1)).1 (choice ratio (B - 1)).2 = Ok op ∧ bs = B :: W ∧
     vlen W = encoded_size (choice ratio (B - 1)).1 (choice ratio (B - 1)).2 ∧
     ∀ bytes dst, vlen W ≤ vlen bytes → MAX_DATA_SIZE ≤ vlen dst → ∃ n, 128 ≤ n ≤ MAX_DATA_SIZE ∧
       BulkOperation.decode_byte_to_int op (filled W bytes) dst (compute_iterations op) = Ok (take (Z.to_nat n) data ++ drop (Z.to_nat n) dst)) →
  remains i (bs ++ rest) → MAX_ENCODED_SIZE ≤ vlen enc → MAX_DATA_SIZE ≤ vlen dec →
  (∃ enc' dec' i', ForUtilInstance.read_block s i enc dec = Ok (enc', dec', i') ∧ remains i' rest ∧ vlen dec' = vlen dec ∧ take 128 dec' = take 128 data) ∧
  (∃ i', ForUtilInstance.skip_block s i = Ok i' ∧ remains i' rest).
Proof using HI Hs.
  intros [Hl Hv _] Hbs Hrem He Hd. unfold MAX_DATA_SIZE, MAX_ENCODED_SIZE, BLOCK_SIZE in *.
  unfold ForUtilInstance.read_block, ForUtilInstance.skip_block, ALL_VALUES_EQUAL, BLOCK_SIZE. destruct Hbs as [[Hall ->]|(B & op & W & HB & Hop & -> & HW & Hdec)]; cbn [app] in Hrem;
    destruct (parses_byte _ i _ Hrem) as (i1 & -> & R1); rewrite !bind_Ok_l.
  - rewrite Z.eqb_refl. destruct (parses_vint_of (nthz data 0) ltac:(apply nthz_Forall; [done|lia]) i1 _ R1) as (i2 & -> & R2). rewrite !bind_Ok_l.
    split; [|by exists i2]. rewrite vblit_prefix, bind_Ok_l by (rewrite vlen_replicate; lia). eexists _, _, i2. split; [done|]. split; [done|].
    split; [by rewrite vlen_filled by (rewrite vlen_replicate; lia)|]. change (Z.to_nat 128) with 128%nat. unfold filled. rewrite Hall.
    rewrite take_app_le by (rewrite length_replicate; lia). by rewrite take_replicate.
  - rewrite (proj2 (Z.eqb_neq B 0)) by lia. destruct (Hs (B - 1) ltac:(lia)) as (op' & Hop' & Esz & Ede & _ & Eit). rewrite Hop in Hop'. injection Hop' as <-.
    pose proof (choice_range ratio (B - 1) ltac:(lia)) as Hch.
    destruct (sizes_ok (choice ratio (B - 1)).1 (choice ratio (B - 1)).2 op ltac:(lia) Hop) as [S1 S2 S3 S4]. unfold MAX_ENCODED_SIZE, MAX_DATA_SIZE, BLOCK_SIZE in *.
    rewrite Esz, !bind_Ok_l. split.
    + rewrite (as_u_id 64 (encoded_size _ _)) by (unfold is_u; lia). rewrite <- HW in *. rewrite vslice_in, bind_Ok_l by lia.
      destruct (parses_read_exact W i1 _ R1) as (i2 & -> & R2). rewrite bind_Ok_l, vblit_prefix, bind_Ok_l, Ede, bind_Ok_l, Eit, bind_Ok_l by lia.
      rewrite (as_u_id 64 (compute_iterations op)) by (unfold is_u; lia). destruct (Hdec enc dec) as (n & Hn & ->); [lia|done|]. rewrite bind_Ok_l.
      eexists _, _, i2. split; [done|]. split; [done|]. split; [rewrite vlen_app, vlen_take, vlen_drop; lia|].
      rewrite take_app_le by (rewrite length_take; unfold vlen in Hl; lia). rewrite take_take. f_equal. lia.
    + destruct (seek_law i1 _ (vlen W) R1) as (i2 & E2 & R2); [pose proof (vlen_nonneg rest); pose proof (vlen_nonneg W); rewrite vlen_app; lia|].
      rewrite <- HW. exists i2. split; [done|]. by rewrite to_nat_vlen, drop_app_length in R2.
Qed.

End blocks.

(** C14. Opening a postings file for writing records a format and a width for each
    number of bits, and opening it for reading rebuilds the same instance from the
    header, for any ratio of acceptable overhead.  With that instance a block of
    128 values of 32 bits (in a buffer of the size the code allocates, padded with
    zeros) is written, and whatever the buffers of the reader hold, [read_block]
    returns the 128 values and consumes exactly the bytes of the block, and
    [skip_block] ends at the same place. *)
Theorem for_util_roundtrip {Out In : Type} `{HO : LawfulOutput Out} `{HI : LawfulIndexInput In} ratio (out : Out) : roomy out →
  ∃ s out1 hb, ForUtilInstance.with_output ratio out = Ok (s, out1) ∧ roomy out1 ∧ written out1 = written out ++ hb ∧
    (∀ (i : In) rest, remains i (hb ++ rest) → ∃ i', ForUtilInstance.with_input i = Ok (s, i') ∧ remains i' rest) ∧
    ∀ data enc (o : Out), block_data data → MAX_ENCODED_SIZE ≤ vlen enc → roomy o →
      ∃ enc' o' bs, write_block s data enc o = Ok (enc', o') ∧ vlen enc' = vlen enc ∧ roomy o' ∧ written o' = written o ++ bs ∧
        ∀ (i : In) rest enc1 dec, remains i (bs ++ rest) → MAX_ENCODED_SIZE ≤ vlen enc1 → MAX_DATA_SIZE ≤ vlen dec →
          (∃ enc2 dec' i', ForUtilInstance.read_block s i enc1 dec = Ok (enc2, dec', i') ∧ remains i' rest ∧ vlen dec' = vlen dec ∧ take 128 dec' = take 128 data) ∧
          (∃ i', ForUtilInstance.skip_block s i = Ok i' ∧ remains i' rest).
Proof.
  intros Hout. destruct (with_output_spec ratio out Hout) as (s & out1 & E & Hb & Hs & Ho1 & Hw). exists s, out1, (header_bytes ratio 32).
  split; [done|]. split; [done|]. split; [done|]. split; [intros i rest; by apply with_input_spec|]. intros data enc o Hd He Ho.
  destruct (write_block_spec ratio s Hs data enc o Hd He Ho) as (enc' & o' & bs & E' & Hl & Ho' & Hw' & Hbs). exists enc', o', bs.
  split; [done|]. split; [done|]. split; [done|]. split; [done|]. intros i rest enc1 dec Hrem He1 Hdec. by apply (read_block_spec ratio s Hs data bs).
Qed.

(** The memory-mapped input can be skipped over. *)
#[global] Instance mmap_index_input : IndexInput MmapIndexInput.t :=
  {| input_pointer := MmapIndexInput.file_pointer; seek i pos := Ok (MmapIndexInput.seek i pos) |}.
#[global] Instance mmap_lawful_index : LawfulIndexInput MmapIndexInput.t.
Proof.
  intros [src p bs] l n [[Hl Hp] ->] Hn. unfold MmapIndexInput.len in *. cbn in *. rewrite vlen_drop in Hn by lia.
  eexists. split; [done|]. unfold MmapIndexInput.file_pointer, MmapIndexInput.seek. cbn. rewrite (as_i_id 64 p), as_i_id, as_u64_id by (try lia; unfold is_i; lia).
  split; [split; unfold MmapIndexInput.len; cbn; lia|]. rewrite drop_drop. f_equal. lia.
Qed.

Lemma for_util_roundtrip_witness :
  let data := replicate 100 3 ++ replicate 28 70000 ++ replicate 19 0 in
  ∃ s (out1 : list Z), ForUtilInstance.with_output f32_0 [] = Ok (s, out1) ∧
    ∃ enc' (o' : list Z) bs, write_block s data (replicate 512 0) out1 = Ok (enc', o') ∧ o' = out1 ++ bs ∧
      ∀ i : MmapIndexInput.t, remains i (bs ++ []) →
        ∃ enc2 dec' i', ForUtilInstance.read_block s i (replicate 512 9) (replicate 147 5) = Ok (enc2, dec', i') ∧ take 128 dec' = take 128 data.
Proof.
  destruct (for_util_roundtrip (In := MmapIndexInput.t) f32_0 []) as (s & out1 & hb & H1 & H2 & H3 & _ & H5).
  - intros n Hn. exact I.
  - exists s, out1. split; [exact H1|].
    destruct (H5 (replicate 100 3 ++ replicate 28 70000 ++ replicate 19 0) (replicate 512 0) out1) as (enc' & o' & bs & E1 & _ & _ & E2 & E3).
    + split; [discriminate| |].
      * apply Forall_app_2; [|apply Forall_app_2]; apply Forall_replicate; (split; [discriminate|reflexivity]).
      * change (drop 128 _) with (replicate 19 0). apply Forall_replicate. reflexivity.
    + discriminate.
    + exact H2.
    + exists enc', o', bs. split; [exact E1|]. split; [exact E2|]. intros i Hi.
      destruct (E3 i [] (replicate 512 9) (replicate 147 5) Hi) as [(enc2 & dec' & i' & R1 & _ & _ & R2) _]; [discriminate|discriminate|].
      exists enc2, dec', i'. split; [exact R1|exact R2].
Defined.
