(* ===== verification/DocIds.v ===== *)
(** The doc ids of a leaf of a points tree: src/core/util/bkd/doc_ids_writer.rs. *)

From S2P Require Import Prelude DataIO.
Open Scope Z_scope.

(** [IntersectVisitor::visit] *)
Class IntersectVisitor (Vis : Type) : Type := visit : Vis → Z → result Vis.

Module DocIdsWriter.

(** * Writing *)

Section writer.
Context {Out : Type} `{Write Out}.

(** No pair of neighbours is out of order; the loop stops at the first that is. *)
Fixpoint in_order (n : nat) (doc_ids : list Z) (start i : Z) : result bool :=
  match n with
  | O => Ok true
  | S n =>
    a ← vget doc_ids (start + i - 1);
    b ← vget doc_ids (start + i);
    if b <? a then Ok false else in_order n doc_ids start (i + 1)
  end.

Definition write_doc_ids (out : Out) (doc_ids : list Z) (start count : Z) : result Out :=
  sorted ← in_order (Z.to_nat (count - 1)) doc_ids start 1;
  if (sorted : bool) then
    out ← write_byte out 0;
    docs ← vslice doc_ids start (start + count);
    '(_, out) ← for_each docs (fun d '(previous, out) =>
      out ← write_vint out (as_i32 (d - previous)); Ok (d, out)) (0, out);
    Ok out
  else
    mx ← for_range 0 count (fun i mx => d ← vget doc_ids (start + i); Ok (Z.lor mx (as_u32 d))) 0;
    if mx <=? 0x00FFFFFF then
      out ← write_byte out 24;
      for_range 0 count (fun i out =>
        d ← vget doc_ids (start + i);
        out ← write_short out (as_i16 (unsigned_shift 32 d 8));
        write_byte out (as_u8 d)) out
    else
      out ← write_byte out 32;
      for_range 0 count (fun i out => d ← vget doc_ids (start + i); write_int out d) out.
End writer.

(** * Reading *)

Section reader.
Context {In : Type} `{DataInput In}.

(** The eight values of three [long]s. *)
Definition unpack24 (l1 l2 l3 : Z) : list Z :=
  [as_i32 (unsigned_shift 64 l1 40);
   as_i32 (Z.land (unsigned_shift 64 l1 16) 0xFFFFFF);
   as_i32 (Z.lor (shl_i 64 (Z.land l1 0xFFFF) 8) (unsigned_shift 64 l2 56));
   as_i32 (Z.land (unsigned_shift 64 l2 32) 0xFFFFFF);
   as_i32 (Z.land (unsigned_shift 64 l2 8) 0xFFFFFF);
   as_i32 (Z.lor (shl_i 64 (Z.land l2 0xFF) 16) (unsigned_shift 64 l3 48));
   as_i32 (Z.land (unsigned_shift 64 l3 24) 0xFFFFFF);
   as_i32 (Z.land l3 0xFFFFFF)].

(** The value of a [short] and a byte. *)
Definition read_24 (input : In) : result (Z * In) :=
  '(s, input) ← read_short input;
  '(b, input) ← read_byte input;
  let l1 := as_u16 s in
  Ok (as_i32 (Z.lor (as_u32 (Z.shiftl l1 8)) b), input).

(** [iter_mut().take(count)] stops at the end of the slice. *)
Definition taken (count : Z) (doc_ids : list Z) : Z := Z.min count (vlen doc_ids).

Definition read_delta_vints (input : In) (count : Z) (doc_ids : list Z) : result (list Z * In) :=
  '(_, doc_ids, input) ← for_range 0 (taken count doc_ids) (fun i '(doc, doc_ids, input) =>
    '(v, input) ← read_vint input;
    let doc := as_i32 (doc + v) in
    doc_ids ← vset doc_ids i doc;
    Ok (doc, doc_ids, input)) (0, doc_ids, input);
  Ok (doc_ids, input).

Definition read_ints32 (input : In) (count : Z) (doc_ids : list Z) : result (list Z * In) :=
  for_range 0 (taken count doc_ids) (fun i '(doc_ids, input) =>
    '(v, input) ← read_int input;
    doc_ids ← vset doc_ids i v;
    Ok (doc_ids, input)) (doc_ids, input).

(** The assignments [doc_ids[i + k] = ...] in their order. *)
Fixpoint put_at (doc_ids : list Z) (i : Z) (vs : list Z) : result (list Z) :=
  match vs with
  | [] => Ok doc_ids
  | v :: vs => doc_ids ← vset doc_ids i v; put_at doc_ids (i + 1) vs
  end.

Definition read_ints24 (input : In) (count : Z) (doc_ids : list Z) : result (list Z * In) :=
  '(i, doc_ids, input) ← while_fuel (Z.to_nat count) (fun '(i, _, _) => i + 7 <? count)
    (fun '(i, doc_ids, input) =>
      '(l1, input) ← read_long input;
      '(l2, input) ← read_long input;
      '(l3, input) ← read_long input;
      doc_ids ← put_at doc_ids i (unpack24 l1 l2 l3);
      Ok (i + 8, doc_ids, input)) (0, doc_ids, input);
  for_range i (taken count doc_ids) (fun i '(doc_ids, input) =>
    '(v, input) ← read_24 input;
    doc_ids ← vset doc_ids i v;
    Ok (doc_ids, input)) (doc_ids, input).

Definition read_ints (input : In) (count : Z) (doc_ids : list Z) : result (list Z * In) :=
  '(bpv, input) ← read_byte input;
  if bpv =? 0 then read_delta_vints input count doc_ids
  else if bpv =? 32 then read_ints32 input count doc_ids
  else if bpv =? 24 then read_ints24 input count doc_ids
  else bail UnsupportedOperation.

(** ** Reading into a visitor *)

Context {Vis : Type} `{IntersectVisitor Vis}.

Definition read_delta_vints_with_visitor (input : In) (count : Z) (visitor : Vis) : result (Vis * In) :=
  '(_, visitor, input) ← for_range 0 count (fun _ '(doc, visitor, input) =>
    '(v, input) ← read_vint input;
    let doc := as_i32 (doc + v) in
    visitor ← visit visitor doc;
    Ok (doc, visitor, input)) (0, visitor, input);
  Ok (visitor, input).

Definition read_ints32_with_visitor (input : In) (count : Z) (visitor : Vis) : result (Vis * In) :=
  for_range 0 count (fun _ '(visitor, input) =>
    '(v, input) ← read_vint input;
    visitor ← visit visitor v;
    Ok (visitor, input)) (visitor, input).

Definition visit_all (vs : list Z) (visitor : Vis) : result Vis := for_each vs (fun v visitor => visit visitor v) visitor.

Definition read_ints24_with_visitor (input : In) (count : Z) (visitor : Vis) : result (Vis * In) :=
  '(i, visitor, input) ← while_fuel (Z.to_nat count) (fun '(i, _, _) => i + 7 <? count)
    (fun '(i, visitor, input) =>
      '(l1, input) ← read_long input;
      '(l2, input) ← read_long input;
      '(l3, input) ← read_long input;
      visitor ← visit_all (unpack24 l1 l2 l3) visitor;
      Ok (i + 8, visitor, input)) (0, visitor, input);
  for_range i count (fun _ '(visitor, input) =>
    '(v, input) ← read_24 input;
    visitor ← visit visitor v;
    Ok (visitor, input)) (visitor, input).

Definition read_ints_with_visitor (input : In) (count : Z) (visitor : Vis) : result (Vis * In) :=
  '(bpv, input) ← read_byte input;
  if bpv =? 0 then read_delta_vints_with_visitor input count visitor
  else if bpv =? 32 then read_ints32_with_visitor input count visitor
  else if bpv =? 24 then read_ints24_with_visitor input count visitor
  else bail UnsupportedOperation.
End reader.
End DocIdsWriter.
