(* ===== verification/DocIdsFacts.v ===== *)
(** Doc ids are read back as they were written, in each of the three formats, except
    that a visitor is not shown those of 32 bits.

    The bytes of eight values of 24 bits are those of three [long]s. *)

From S2P Require Import Prelude DataIO DataIOFacts PackedBulkFacts PackedArrayFacts DirectMonotonicFacts ForUtilFacts DocIds.
Open Scope Z_scope.
Import DocIdsWriter.

(** * Eight values in three words *)

Lemma div_by a b q r : a = q * b + r → 0 ≤ r < b → a / b = q ∧ a mod b = r.
Proof. intros -> Hr. rewrite Z.add_comm, Z.div_add, Z.mod_add, Z.div_small, Z.mod_small by lia. lia. Qed.

Lemma three_bytes d : is_u 24 d → ∃ a b c, be_bytes 3 d = [a; b; c] ∧ is_u 8 a ∧ is_u 8 b ∧ is_u 8 c ∧ d = a * 65536 + b * 256 + c.
Proof.
  intros Hd. pose proof (be_value_digits 8 3 d ltac:(lia)) as E. rewrite (as_u_id (8 * Z.of_nat 3)) in E by done. unfold be_bytes.
  pose proof (be_digits_range 8 3 d ltac:(lia)) as Hr. pose proof (length_be_digits 8 3 d) as Hl. destruct (be_digits 8 3 d) as [|a [|b [|c [|? ?]]]]; try done.
  apply Forall_cons_iff in Hr as [Ha Hr]. apply Forall_cons_iff in Hr as [Hb Hr]. apply Forall_cons_iff in Hr as [Hc _]. exists a, b, c.
  split_and!; try done. cbn in E. lia.
Qed.

Lemma land_ones_of x n m : m = Z.ones n → 0 ≤ n → Z.land x m = x mod 2 ^ n.
Proof. intros -> Hn. by apply Z.land_ones. Qed.

Lemma ushift_word x n : is_u 64 x → 1 ≤ n ≤ 64 → unsigned_shift 64 (as_i64 x) n = x / 2 ^ n.
Proof.
  intros Hx Hn. unfold unsigned_shift. rewrite as_u_as_i, as_u_id by (done || lia). rewrite Z.shiftr_div_pow2 by lia. unfold is_u in Hx.
  apply as_i_id; [lia|]. pose proof (pow2_pos n ltac:(lia)). unfold is_i. split; [pose proof (Z.div_pos x (2 ^ n)); lia|]. apply Z.div_lt_upper_bound; [lia|].
  assert (2 ^ 1 ≤ 2 ^ n) by (apply Z.pow_le_mono_r; lia). change (2 ^ (64 - 1)) with 9223372036854775808. change (2 ^ 1) with 2 in *. nia.
Qed.

Lemma land_word x n m : is_u 64 x → m = Z.ones n → 0 ≤ n ≤ 63 → Z.land (as_i64 x) m = x mod 2 ^ n.
Proof.
  intros Hx -> Hn. rewrite Z.land_ones by lia.
  assert ((2 ^ n | 2 ^ 64)) as Hd by (exists (2 ^ (64 - n)); rewrite <- Z.pow_add_r by lia; f_equal; lia).
  rewrite <- (Z.mod_mod_divide (as_i64 x) (2 ^ 64)), <- (Z.mod_mod_divide x (2 ^ 64)) by done. by rewrite as_i_mod by lia.
Qed.

Lemma lor_shifted a n b : 0 ≤ n ≤ 16 → 0 ≤ a < 2 ^ 16 → 0 ≤ b < 2 ^ n → Z.lor (shl_i 64 a n) b = a * 2 ^ n + b.
Proof.
  intros Hn Ha Hb. unfold shl_i. rewrite Z.shiftl_mul_pow2 by lia. assert (2 ^ n ≤ 2 ^ 16) by (apply Z.pow_le_mono_r; lia).
  rewrite as_i_id by (try lia; unfold is_i; nia). rewrite <- (lor_add_disjoint a b n) by (done || lia). by rewrite Z.shiftl_mul_pow2 by lia.
Qed.

Lemma word_bytes bs : Forall (is_u 8) bs → length bs = 8%nat → be_bytes 8 (be_value 8 bs) = bs ∧ is_u 64 (be_value 8 bs).
Proof.
  intros Hb Hlen. pose proof (be_value_bound 8 bs ltac:(lia) Hb) as Hr. unfold vlen in Hr. rewrite Hlen in Hr. split; [|done].
  apply (be_value_inj 8); [lia|apply be_digits_range; lia|done|unfold be_bytes; by rewrite length_be_digits, Hlen|].
  unfold be_bytes. rewrite be_value_digits by lia. by apply as_u_id.
Qed.

(** Three big-endian words of the bytes of eight values give the values back. *)
Lemma unpack24_spec ds : length ds = 8%nat → Forall (is_u 24) ds →
  ∃ x1 x2 x3, concat (map (be_bytes 3) ds) = be_bytes 8 x1 ++ be_bytes 8 x2 ++ be_bytes 8 x3 ∧ is_u 64 x1 ∧ is_u 64 x2 ∧ is_u 64 x3 ∧
    unpack24 (as_i64 x1) (as_i64 x2) (as_i64 x3) = ds.
Proof.
  intros Hl Hd. destruct ds as [|d0 [|d1 [|d2 [|d3 [|d4 [|d5 [|d6 [|d7 [|? ?]]]]]]]]]; try done. repeat (apply Forall_cons_iff in Hd as [? Hd]).
  destruct (three_bytes d0) as (a0 & b0 & c0 & E0 & ? & ? & ? & V0); [done|]. destruct (three_bytes d1) as (a1 & b1 & c1 & E1 & ? & ? & ? & V1); [done|].
  destruct (three_bytes d2) as (a2 & b2 & c2 & E2 & ? & ? & ? & V2); [done|]. destruct (three_bytes d3) as (a3 & b3 & c3 & E3 & ? & ? & ? & V3); [done|].
  destruct (three_bytes d4) as (a4 & b4 & c4 & E4 & ? & ? & ? & V4); [done|]. destruct (three_bytes d5) as (a5 & b5 & c5 & E5 & ? & ? & ? & V5); [done|].
  destruct (three_bytes d6) as (a6 & b6 & c6 & E6 & ? & ? & ? & V6); [done|]. destruct (three_bytes d7) as (a7 & b7 & c7 & E7 & ? & ? & ? & V7); [done|].
  cbn [map concat]. rewrite E0, E1, E2, E3, E4, E5, E6, E7. cbn [app].
  destruct (word_bytes [a0; b0; c0; a1; b1; c1; a2; b2]) as [W1 R1]; [repeat first [apply List.Forall_nil|apply List.Forall_cons; [assumption|]]|done|].
  destruct (word_bytes [c2; a3; b3; c3; a4; b4; c4; a5]) as [W2 R2]; [repeat first [apply List.Forall_nil|apply List.Forall_cons; [assumption|]]|done|].
  destruct (word_bytes [b5; c5; a6; b6; c6; a7; b7; c7]) as [W3 R3]; [repeat first [apply List.Forall_nil|apply List.Forall_cons; [assumption|]]|done|].
  eexists _, _, _. rewrite W1, W2, W3. split; [done|]. do 3 (split; [done|]). unfold unpack24.
  assert (be_value 8 [a0; b0; c0; a1; b1; c1; a2; b2] = d0 * 2 ^ 40 + d1 * 2 ^ 16 + (a2 * 256 + b2)) as X1 by (cbn; lia).
  assert (be_value 8 [c2; a3; b3; c3; a4; b4; c4; a5] = c2 * 2 ^ 56 + d3 * 2 ^ 32 + d4 * 2 ^ 8 + a5) as X2 by (cbn; lia).
  assert (be_value 8 [b5; c5; a6; b6; c6; a7; b7; c7] = (b5 * 256 + c5) * 2 ^ 48 + d6 * 2 ^ 24 + d7) as X3 by (cbn; lia).
  set (x1 := be_value 8 _) in *. set (x2 := be_value 8 [c2; _; _; _; _; _; _; _]) in *. set (x3 := be_value 8 [b5; _; _; _; _; _; _; _]) in *.
  clearbody x1 x2 x3. clear W1 W2 W3 E0 E1 E2 E3 E4 E5 E6 E7. unfold is_u in *.
  rewrite !ushift_word by (unfold is_u; lia). rewrite !(land_word _ 16), !(land_word _ 8), !(land_word _ 24) by (unfold is_u; lia || done).
  rewrite !(land_ones_of _ 24) by (done || lia).
  destruct (div_by x1 (2 ^ 40) d0 (d1 * 2 ^ 16 + (a2 * 256 + b2))) as [-> _]; [lia..|].
  destruct (div_by x1 (2 ^ 16) (d0 * 2 ^ 24 + d1) (a2 * 256 + b2)) as [-> ->]; [lia..|]. destruct (div_by (d0 * 2 ^ 24 + d1) (2 ^ 24) d0 d1) as [_ ->]; [lia..|].
  destruct (div_by x2 (2 ^ 56) c2 (d3 * 2 ^ 32 + d4 * 2 ^ 8 + a5)) as [-> _]; [lia..|].
  destruct (div_by x2 (2 ^ 32) (c2 * 2 ^ 24 + d3) (d4 * 2 ^ 8 + a5)) as [-> _]; [lia..|]. destruct (div_by (c2 * 2 ^ 24 + d3) (2 ^ 24) c2 d3) as [_ ->]; [lia..|].
  destruct (div_by x2 (2 ^ 8) (c2 * 2 ^ 48 + d3 * 2 ^ 24 + d4) a5) as [-> ->]; [lia..|].
  destruct (div_by (c2 * 2 ^ 48 + d3 * 2 ^ 24 + d4) (2 ^ 24) (c2 * 2 ^ 24 + d3) d4) as [_ ->]; [lia..|].
  destruct (div_by x3 (2 ^ 48) (b5 * 256 + c5) (d6 * 2 ^ 24 + d7)) as [-> _]; [lia..|].
  destruct (div_by x3 (2 ^ 24) ((b5 * 256 + c5) * 2 ^ 24 + d6) d7) as [-> ->]; [lia..|].
  destruct (div_by ((b5 * 256 + c5) * 2 ^ 24 + d6) (2 ^ 24) (b5 * 256 + c5) d6) as [_ ->]; [lia..|].
  rewrite !lor_shifted by lia. rewrite !(as_i_id 32) by (try lia; unfold is_i; lia). repeat f_equal; lia.
Qed.

(** * The bytes of the docs *)

Fixpoint delta_bytes (previous : Z) (docs : list Z) : list Z :=
  match docs with
  | [] => []
  | d :: docs => vbytes 4 (as_u32 (as_i32 (d - previous))) ++ delta_bytes d docs
  end.

Fixpoint sortedb (docs : list Z) : bool :=
  match docs with
  | d :: ((e :: _) as docs) => (d <=? e) && sortedb docs
  | _ => true
  end.

Definition smallb (docs : list Z) : bool := foldl (fun mx d => Z.lor mx (as_u32 d)) 0 docs <=? 0x00FFFFFF.

Inductive format : Type := Deltas | Ints24 | Ints32.

Definition format_of (docs : list Z) : format :=
  if sortedb docs then Deltas else if smallb docs then Ints24 else Ints32.

Definition docs_bytes (docs : list Z) : list Z :=
  match format_of docs with
  | Deltas => 0 :: delta_bytes 0 docs
  | Ints24 => 24 :: concat (map (be_bytes 3) docs)
  | Ints32 => 32 :: concat (map (be_bytes 4) docs)
  end.

Lemma foldl_lor_u docs : ∀ acc, foldl (fun mx d => Z.lor mx (as_u32 d)) acc docs = foldl Z.lor acc (map as_u32 docs).
Proof. induction docs as [|d docs IH]; intros acc; [done|]. apply IH. Qed.

Lemma foldl_lor_nonneg l : ∀ acc, 0 ≤ acc → Forall (Z.le 0) l → 0 ≤ foldl Z.lor acc l.
Proof.
  induction l as [|x l IH]; intros acc Ha Hl; [done|]. apply Forall_cons_iff in Hl as [Hx Hl]. apply IH; [|done].
  by apply Z.lor_nonneg.
Qed.

Lemma foldl_lor_elem B l : 0 ≤ B → Forall (Z.le 0) l → ∀ acc, 0 ≤ acc → is_u B (foldl Z.lor acc l) → is_u B acc ∧ Forall (is_u B) l.
Proof.
  intros HB Hl. induction Hl as [|x l Hx Hl IH]; intros acc Ha H; [by split|]. cbn [foldl] in H.
  destruct (IH (Z.lor acc x)) as [Hax Hall]; [by apply Z.lor_nonneg|done|]. split; [by apply (is_u_lor_l B _ x)|].
  constructor; [|done]. rewrite Z.lor_comm in Hax. by apply (is_u_lor_l B _ acc).
Qed.

Lemma small_docs docs : Forall (is_i 32) docs → smallb docs = true → Forall (is_u 24) docs.
Proof.
  intros Hd Hs. unfold smallb in Hs. rewrite foldl_lor_u in Hs. apply Z.leb_le in Hs.
  assert (Forall (Z.le 0) (map as_u32 docs)) as Hn.
  { apply List.Forall_map. eapply List.Forall_impl; [|exact Hd]. intros x _. pose proof (as_u_range 32 x ltac:(lia)) as [? _]. done. }
  pose proof (foldl_lor_nonneg (map as_u32 docs) 0 ltac:(lia) Hn).
  destruct (foldl_lor_elem 24 (map as_u32 docs) ltac:(lia) Hn 0 ltac:(lia)) as [_ Hall]; [unfold is_u; lia|].
  rewrite List.Forall_map in Hall. rewrite List.Forall_forall in *. intros x Hx. specialize (Hd x Hx). specialize (Hall x Hx). cbv beta in Hall.
  replace x with (as_u32 x); [done|]. unfold is_u in Hall. rewrite <- (as_i_id 32 x) at 2 by (done || lia).
  rewrite <- as_i_as_u by lia. symmetry. apply as_i_id; [lia|unfold is_i; lia].
Qed.

Lemma short_and_byte d : is_u 24 d → be_bytes 2 (as_i16 (unsigned_shift 32 d 8)) ++ [as_u8 d] = be_bytes 3 d.
Proof.
  intros Hd. unfold is_u in Hd. unfold unsigned_shift. rewrite (as_u_id 32) by (unfold is_u; lia). rewrite Z.shiftr_div_pow2 by lia.
  pose proof (Z.div_pos d (2 ^ 8) ltac:(lia) ltac:(lia)). pose proof (Z.div_lt_upper_bound d (2 ^ 8) (2 ^ 16) ltac:(lia) ltac:(lia)).
  rewrite (as_i_id 32) by (try lia; unfold is_i; lia). apply (be_value_inj 8); [lia|..].
  - apply Forall_app. split; [apply be_digits_range; lia|]. constructor; [apply as_u_range; lia|done].
  - apply be_digits_range. lia.
  - unfold be_bytes. by rewrite length_app, !length_be_digits.
  - rewrite be_value_snoc. unfold be_bytes. rewrite !be_value_digits by lia. rewrite as_u_as_i by lia.
    rewrite (as_u_id (8 * Z.of_nat 2)), (as_u_id (8 * Z.of_nat 3)) by (unfold is_u; lia). unfold as_u. pose proof (Z.div_mod d (2 ^ 8) ltac:(lia)). lia.
Qed.

(** * Writing *)

Section writing.
Context {Out : Type} `{HO : LawfulOutput Out}.

Lemma slice_loop {St} (pre docs post : list Z) (f : Z → St → result St) s :
  for_range 0 (vlen docs) (fun i s => d ← vget (pre ++ docs ++ post) (vlen pre + i); f d s) s = for_each docs f s.
Proof.
  unfold for_range. rewrite Z.sub_0_r, to_nat_vlen.
  assert (∀ ds (seen : list Z) i s, i = vlen seen → for_n (length ds) i (fun i s => d ← vget (pre ++ (seen ++ ds) ++ post) (vlen pre + i); f d s) s = for_each ds f s) as Hall.
  { induction ds as [|d ds IH]; intros seen i t Hi; [done|]. cbn [length for_n for_each].
    assert (vget (pre ++ (seen ++ d :: ds) ++ post) (vlen pre + i) = Ok d) as ->.
    { rewrite app_assoc, app_assoc, <- app_assoc. cbn [app]. apply vget_app_here. rewrite vlen_app. lia. }
    cbn [mbind result_bind]. destruct (f d t) as [t'| | |]; try done. cbn [mbind result_bind].
    specialize (IH (seen ++ [d]) (i + 1) t'). rewrite <- (app_assoc seen) in IH. cbn [app] in IH. apply IH. rewrite vlen_snoc. lia. }
  apply (Hall docs [] 0 s). done.
Qed.

Lemma in_order_sorted pre d docs post : ∀ (seen : list Z) i, i = vlen seen + 1 →
  in_order (length docs) (pre ++ (seen ++ d :: docs) ++ post) (vlen pre) i = Ok (sortedb (d :: docs)).
Proof.
  revert d. induction docs as [|e docs IH]; intros d seen i Hi; [done|]. cbn [length in_order].
  assert (vget (pre ++ (seen ++ d :: e :: docs) ++ post) (vlen pre + i - 1) = Ok d) as ->.
  { rewrite app_assoc, app_assoc, <- app_assoc. cbn [app]. apply vget_app_here. rewrite vlen_app. lia. }
  assert (vget (pre ++ (seen ++ d :: e :: docs) ++ post) (vlen pre + i) = Ok e) as ->.
  { replace (pre ++ (seen ++ d :: e :: docs) ++ post) with ((pre ++ seen ++ [d]) ++ e :: docs ++ post) by by rewrite <- !app_assoc.
    apply vget_app_here. rewrite !vlen_app, vlen_cons, vlen_nil. lia. }
  cbn [mbind result_bind]. rewrite Z.ltb_antisym. cbn [sortedb]. destruct (d <=? e); [|done]. cbn [negb andb].
  specialize (IH e (seen ++ [d]) (i + 1)). rewrite <- (app_assoc seen) in IH. cbn [app] in IH. apply IH. rewrite vlen_snoc. lia.
Qed.

Lemma emits_deltas docs : ∀ previous, emits (fun o : Out => '(_, out) ← for_each docs (fun d '(previous, out) =>
  out ← write_vint out (as_i32 (d - previous)); Ok (d, out)) (previous, o); Ok out) (delta_bytes previous docs).
Proof.
  induction docs as [|d docs IH]; intros previous.
  - intros o n Ha Hn. exists o. cbn in *. by rewrite app_nil_r, <- (Z.add_0_l n).
  - intros o n Ha Hn. cbn [for_each delta_bytes] in *. destruct (emits_bind _ _ _ _ (emits_vint (as_i32 (d - previous))) (IH d) o n Ha Hn) as (o' & E & Hw & Ha').
    exists o'. split; [|done]. rewrite <- E. by destruct (write_vint o _).
Qed.

(** The docs of a slice are written in the format of their values. *)
Lemma emits_doc_ids pre docs post : Forall (is_i 32) docs →
  emits (fun o : Out => write_doc_ids o (pre ++ docs ++ post) (vlen pre) (vlen docs)) (docs_bytes docs).
Proof.
  intros Hd. unfold write_doc_ids, docs_bytes, format_of.
  assert (in_order (Z.to_nat (vlen docs - 1)) (pre ++ docs ++ post) (vlen pre) 1 = Ok (sortedb docs)) as ->.
  { destruct docs as [|d docs]; [done|]. replace (Z.to_nat _) with (length docs) by (rewrite vlen_cons; unfold vlen; lia).
    by apply (in_order_sorted pre d docs post []). }
  cbn [mbind result_bind]. destruct (sortedb docs).
  { pose proof (vlen_nonneg pre). pose proof (vlen_nonneg docs). pose proof (vlen_nonneg post).
    assert (vslice (pre ++ docs ++ post) (vlen pre) (vlen pre + vlen docs) = Ok docs) as Es.
    { rewrite vslice_in by (rewrite ?vlen_app; lia). replace (vlen pre + vlen docs - vlen pre) with (vlen docs) by lia.
      by rewrite !to_nat_vlen, drop_app_length, take_app_length. }
    rewrite Es. apply (emits_bind (fun o => write_byte o 0) _ [0]); [apply emits_write_all|]. apply emits_deltas. }
  rewrite (slice_loop pre docs post (fun d mx => Ok (Z.lor mx (as_u32 d)))).
  assert (∀ acc, for_each docs (fun d mx => Ok (Z.lor mx (as_u32 d))) acc = Ok (foldl (fun mx d => Z.lor mx (as_u32 d)) acc docs)) as ->.
  { clear. induction docs as [|d docs IH]; intros acc; [done|]. apply IH. }
  cbn [mbind result_bind]. change (foldl _ 0 docs <=? 0x00FFFFFF) with (smallb docs). destruct (smallb docs) eqn:Es.
  - pose proof (small_docs docs Hd Es) as H24. rewrite List.Forall_forall in H24. apply (emits_bind (fun o => write_byte o 24) _ [24]); [apply emits_write_all|].
    intros o n Ha Hn. rewrite (slice_loop pre docs post (fun d out => out ← write_short out (as_i16 (unsigned_shift 32 d 8)); write_byte out (as_u8 d))).
    apply (emits_for_each docs _ (be_bytes 3)); [|done..]. intros d Hx%list_elem_of_In. rewrite <- short_and_byte by by apply H24.
    apply (emits_bind (fun o => write_short o _) (fun o => write_byte o _)); apply emits_write_all.
  - apply (emits_bind (fun o => write_byte o 32) _ [32]); [apply emits_write_all|].
    intros o n Ha Hn. rewrite (slice_loop pre docs post (fun d out => write_int out d)).
    apply (emits_for_each docs _ (be_bytes 4)); [|done..]. intros d _. apply emits_write_all.
Qed.
End writing.

(** * Reading into a sink

    A buffer and a visitor both take the values one by one; [R W st] says that the
    sink [st] has taken the values of [W]. *)

Section sink.
Context {In St : Type} `{HI : LawfulInput In}.
Variables (docs : list Z) (put : Z → Z → St → result St) (R : list Z → St → Prop).

Definition takes_docs : Prop :=
  ∀ W v post st, docs = W ++ v :: post → R W st → ∃ st', put (vlen W) v st = Ok st' ∧ R (W ++ [v]) st'.

Hypothesis Hput : takes_docs.

Lemma read_each (rd : In → result (Z * In)) (enc : Z → list Z) ds : (∀ v, v ∈ ds → parses rd (enc v) v) →
  ∀ W st i r, docs = W ++ ds → R W st → remains i (concat (map enc ds) ++ r) →
  ∃ st' i', for_range (vlen W) (vlen docs) (fun k '(st, i) => '(v, i) ← rd i; st ← put k v st; Ok (st, i)) (st, i) = Ok (st', i') ∧
    R docs st' ∧ remains i' r.
Proof using Hput.
  induction ds as [|d ds IH]; intros Hrd W st i r E HR Hr.
  { rewrite app_nil_r in E. subst W. rewrite for_range_empty by lia. by exists st, i. }
  pose proof (vlen_nonneg ds). rewrite for_range_step by (rewrite E, vlen_app, vlen_cons; lia). cbn [map concat] in Hr. rewrite <- app_assoc in Hr.
  destruct (Hrd d ltac:(left) i _ Hr) as (i1 & -> & Hr1). cbn [mbind result_bind]. destruct (Hput W d ds st E HR) as (st1 & -> & HR1).
  cbn [mbind result_bind]. rewrite <- (vlen_snoc W d). apply IH; [|by rewrite <- app_assoc|done..]. intros v Hv. apply Hrd. by right.
Qed.

Lemma read_deltas ds : Forall (is_i 32) ds → ∀ W previous st i r, docs = W ++ ds → R W st → remains i (delta_bytes previous ds ++ r) →
  ∃ doc st' i', for_range (vlen W) (vlen docs) (fun k '(doc, st, i) =>
      '(v, i) ← read_vint i; let doc := as_i32 (doc + v) in st ← put k doc st; Ok (doc, st, i)) (previous, st, i) = Ok (doc, st', i') ∧
    R docs st' ∧ remains i' r.
Proof using Hput.
  induction ds as [|d ds IH]; intros Hd W previous st i r E HR Hr.
  { rewrite app_nil_r in E. subst W. rewrite for_range_empty by lia. by exists previous, st, i. }
  apply Forall_cons_iff in Hd as [Hd Hds]. pose proof (vlen_nonneg ds). rewrite for_range_step by (rewrite E, vlen_app, vlen_cons; lia).
  cbn [delta_bytes] in Hr. rewrite <- app_assoc in Hr.
  destruct (parses_vint_of (as_i32 (d - previous)) ltac:(apply as_i_range; lia) i _ Hr) as (i1 & -> & Hr1). cbn [mbind result_bind]. cbv zeta.
  assert (as_i32 (previous + as_i32 (d - previous)) = d) as ->.
  { rewrite <- (as_i_id 32 d) at 2 by (done || lia). apply as_i_congr. rewrite Z.add_mod, as_i_mod, <- Z.add_mod by lia. f_equal. lia. }
  destruct (Hput W d ds st E HR) as (st1 & -> & HR1). cbn [mbind result_bind]. rewrite <- (vlen_snoc W d).
  apply IH; [done|by rewrite <- app_assoc|done..].
Qed.

(** Several values at a time. *)
Fixpoint put_all (k : Z) (vs : list Z) (st : St) : result St :=
  match vs with
  | [] => Ok st
  | v :: vs => st ← put k v st; put_all (k + 1) vs st
  end.

Lemma put_all_spec vs : ∀ W post st, docs = W ++ vs ++ post → R W st → ∃ st', put_all (vlen W) vs st = Ok st' ∧ R (W ++ vs) st'.
Proof using Hput.
  induction vs as [|v vs IH]; intros W post st E HR; [exists st; by rewrite app_nil_r|]. cbn [put_all].
  destruct (Hput W v (vs ++ post) st E HR) as (st1 & -> & HR1). cbn [mbind result_bind]. rewrite <- (vlen_snoc W v).
  destruct (IH (W ++ [v]) post st1) as (st' & -> & HR'); [by rewrite <- app_assoc|done|]. exists st'. split; [done|]. by rewrite <- app_assoc in HR'.
Qed.

Lemma parses_short v : is_i 16 v → parses (read_short (I := In)) (be_bytes 2 v) v.
Proof. apply (parses_fixed 2 v). lia. Qed.

Lemma parses_24 d : is_u 24 d → parses (read_24 (In := In)) (be_bytes 3 d) d.
Proof.
  intros Hd i r Hr. unfold read_24. rewrite <- short_and_byte in Hr by done. rewrite <- app_assoc in Hr.
  destruct (parses_short (as_i16 (unsigned_shift 32 d 8)) ltac:(apply as_i_range; lia) i _ Hr) as (i1 & -> & Hr1). cbn [mbind result_bind]. destruct (parses_byte (as_u8 d) i1 r Hr1) as (i2 & -> & Hr2). cbn [mbind result_bind].
  exists i2. split; [|done]. do 2 f_equal. unfold is_u in Hd. unfold unsigned_shift. rewrite (as_u_id 32 d) by (unfold is_u; lia).
  rewrite Z.shiftr_div_pow2 by lia. pose proof (Z.div_pos d (2 ^ 8) ltac:(lia) ltac:(lia)). pose proof (Z.div_lt_upper_bound d (2 ^ 8) (2 ^ 16) ltac:(lia) ltac:(lia)).
  rewrite (as_i_id 32 (d / 2 ^ 8)) by (try lia; unfold is_i; lia). rewrite as_u_as_i, (as_u_id 16) by (lia || (unfold is_u; lia)).
  rewrite (as_u_id 32) by (unfold is_u; rewrite Z.shiftl_mul_pow2 by lia; lia). rewrite lor_add_disjoint by (try lia; apply as_u_range; lia).
  unfold as_u. pose proof (Z.div_mod d (2 ^ 8) ltac:(lia)). replace (_ + _) with d by lia. apply as_i_id; [lia|]. unfold is_i. lia.
Qed.

(** The loop over words of eight values, and then over single values. *)
Lemma read_words st i r : Forall (is_u 24) docs → R [] st → remains i (concat (map (be_bytes 3) docs) ++ r) →
  ∃ W ds st' i', docs = W ++ ds ∧ vlen ds < 8 ∧
    while_fuel (Z.to_nat (vlen docs)) (fun '(i, _, _) => i + 7 <? vlen docs) (fun '(i, st, input) =>
      '(l1, input) ← read_long input; '(l2, input) ← read_long input; '(l3, input) ← read_long input;
      st ← put_all i (unpack24 l1 l2 l3) st; Ok (i + 8, st, input)) (0, st, i) = Ok (vlen W, st', i') ∧
    R W st' ∧ remains i' (concat (map (be_bytes 3) ds) ++ r).
Proof using Hput.
  intros Hd HR Hr.
  pose (P := fun '(k, st, i) => ∃ W ds, docs = W ++ ds ∧ k = vlen W ∧ R W st ∧ remains i (concat (map (be_bytes 3) ds) ++ r)).
  loop_inv P (fun '(k, _, _) => Z.to_nat (vlen docs - k)).
  - intros [[k st0] i0] (W & ds & E & -> & HR0 & Hr0) Hc%Z.ltb_lt. pose proof (f_equal vlen E) as El. rewrite vlen_app in El.
    assert (E8 : ds = take 8 ds ++ drop 8 ds) by by rewrite take_drop. assert (length (take 8 ds) = 8%nat) as H8 by (rewrite length_take; unfold vlen in *; lia).
    assert (Forall (is_u 24) (take 8 ds)) as Hd8 by (rewrite E in Hd; apply Forall_app in Hd as [_ Hd]; by apply Forall_take).
    destruct (unpack24_spec (take 8 ds) H8 Hd8) as (x1 & x2 & x3 & Eb & R1 & R2 & R3 & Eu).
    rewrite E8, map_app, concat_app, Eb, <- !app_assoc in Hr0.
    assert (∀ x, be_bytes 8 (as_i64 x) = be_bytes 8 x) as Hby.
    { intros x. apply (be_value_inj 8); [lia|apply be_digits_range; lia..|unfold be_bytes; by rewrite !length_be_digits|].
      unfold be_bytes. rewrite !be_value_digits by lia. by apply as_u_as_i. }
    rewrite <- (Hby x1), <- (Hby x2), <- (Hby x3) in Hr0.
    destruct (parses_long (as_i64 x1) ltac:(apply as_i_range; lia) i0 _ Hr0) as (i1 & -> & Hr1). cbn [mbind result_bind].
    destruct (parses_long (as_i64 x2) ltac:(apply as_i_range; lia) i1 _ Hr1) as (i2 & -> & Hr2). cbn [mbind result_bind].
    destruct (parses_long (as_i64 x3) ltac:(apply as_i_range; lia) i2 _ Hr2) as (i3 & -> & Hr3). cbn [mbind result_bind]. rewrite Eu.
    destruct (put_all_spec (take 8 ds) W (drop 8 ds) st0) as (st1 & -> & HR1); [by rewrite <- E8|done|]. cbn [mbind result_bind].
    eexists. split; [done|]. split; [|lia]. exists (W ++ take 8 ds), (drop 8 ds). rewrite <- app_assoc, <- E8. split_and!; try done.
    rewrite vlen_app. unfold vlen. rewrite H8. lia.
  - by exists [], docs.
  - lia.
  - destruct Hloop as ([[k st'] i'] & -> & (W & ds & E & -> & HR' & Hr') & Hc%Z.ltb_ge). exists W, ds, st', i'. split_and!; try done.
    pose proof (f_equal vlen E) as El. rewrite vlen_app in El. lia.
Qed.
End sink.

(** * The readers *)

Section buffers.
Context {In : Type} `{HI : LawfulInput In}.

Lemma buffer_takes docs buf : vlen docs ≤ vlen buf → takes_docs docs (fun k v st => vset st k v) (fun W st => st = filled W buf).
Proof.
  intros Hl W v post st E ->. eexists. split; [|done]. apply vset_filled; [done|]. pose proof (f_equal vlen E) as El. pose proof (vlen_nonneg post).
  rewrite vlen_app, vlen_cons in El. lia.
Qed.

Lemma put_at_all vs : ∀ k st, put_at st k vs = put_all (fun k v st => vset st k v) k vs st.
Proof. induction vs as [|v vs IH]; intros k st; [done|]. cbn [put_at put_all]. destruct (vset st k v); [apply IH|done..]. Qed.

Lemma parses_doc_ids docs buf : Forall (is_i 32) docs → vlen docs ≤ vlen buf →
  parses (fun i : In => read_ints i (vlen docs) buf) (docs_bytes docs) (docs ++ drop (length docs) buf).
Proof.
  intros Hd Hl i r Hr. pose proof (buffer_takes docs buf Hl) as Hp. pose proof (eq_sym (filled_nil buf)) as H0. change (docs ++ _) with (filled docs buf).
  unfold read_ints, docs_bytes, format_of in *. destruct (sortedb docs); [|destruct (smallb docs) eqn:Es].
  - destruct (parses_byte 0 i _ Hr) as (i1 & -> & Hr1). cbn [mbind result_bind Z.eqb]. unfold read_delta_vints, taken. rewrite Z.min_l by done.
    destruct (read_deltas docs _ _ Hp docs Hd [] 0 buf i1 r) as (doc & st & i2 & E & -> & Hr2); [done..|]. rewrite vlen_nil in E. cbv zeta in E. rewrite E. by exists i2.
  - destruct (parses_byte 24 i _ Hr) as (i1 & -> & Hr1). cbn [mbind result_bind Z.eqb Pos.eqb]. unfold read_ints24.
    destruct (read_words docs _ _ Hp buf i1 r) as (W & ds & st & i2 & E & _ & EW & HR & Hr2); [by apply small_docs|done..|].
    pose proof (f_equal vlen E) as El. pose proof (vlen_nonneg ds). rewrite vlen_app in El.
    match goal with |- context [while_fuel ?n ?c ?b ?s] => assert (while_fuel n c b s = Ok (vlen W, st, i2)) as -> end.
    { rewrite <- EW. apply while_fuel_ext. intros [[k st'] i']. do 3 (destruct (read_long _) as [[? ?]| | |]; [|done..]; cbn [mbind result_bind]). by rewrite put_at_all. }
    cbn [mbind result_bind]. unfold taken. rewrite HR, vlen_filled, Z.min_l by lia.
    destruct (read_each docs _ _ Hp read_24 (be_bytes 3) ds) with (W := W) (st := filled W buf) (i := i2) (r := r) as (st' & i3 & -> & -> & Hr3); [|done..|by exists i3].
    intros v Hv%list_elem_of_In. apply parses_24. pose proof (small_docs docs Hd Es) as H24. rewrite List.Forall_forall in H24. apply H24. rewrite E. apply in_or_app. by right.
  - destruct (parses_byte 32 i _ Hr) as (i1 & -> & Hr1). cbn [mbind result_bind Z.eqb Pos.eqb]. unfold read_ints32, taken. rewrite Z.min_l by done.
    destruct (read_each docs _ _ Hp read_int (be_bytes 4) docs) with (W := @nil Z) (st := buf) (i := i1) (r := r) as (st' & i3 & E & -> & Hr3); [|done..|].
    + intros v Hv%list_elem_of_In. apply parses_int. rewrite List.Forall_forall in Hd. by apply Hd.
    + rewrite vlen_nil in E. rewrite E. by exists i3.
Qed.
End buffers.

Section visitors.
Context {In Vis : Type} `{HI : LawfulInput In} `{HV : IntersectVisitor Vis}.

Lemma visit_all_app (vs ws : list Z) : ∀ vis : Vis, visit_all (vs ++ ws) vis = (vis ← visit_all vs vis; visit_all ws vis).
Proof. induction vs as [|v vs IH]; intros vis; [done|]. unfold visit_all in *. cbn [app for_each]. destruct (visit vis v); [apply IH|done..]. Qed.

Lemma visitor_takes docs (vis vis' : Vis) : visit_all docs vis = Ok vis' →
  takes_docs docs (fun _ v st => visit st v) (fun W st => visit_all W vis = Ok st).
Proof.
  intros Hv W v post st -> HR. rewrite visit_all_app, HR in Hv. cbn [mbind result_bind] in Hv. unfold visit_all in Hv. cbn [for_each] in Hv.
  destruct (visit st v) as [st'| | |] eqn:E; try done. exists st'. split; [done|]. rewrite visit_all_app, HR. cbn. by rewrite E.
Qed.

Lemma visit_all_put vs : ∀ k (vis : Vis), visit_all vs vis = put_all (fun _ v st => visit st v) k vs vis.
Proof. induction vs as [|v vs IH]; intros k vis; [done|]. unfold visit_all in *. cbn [for_each put_all]. destruct (visit vis v); [apply IH|done..]. Qed.

Lemma parses_visited docs (vis vis' : Vis) : Forall (is_i 32) docs → format_of docs ≠ Ints32 → visit_all docs vis = Ok vis' →
  parses (fun i : In => read_ints_with_visitor i (vlen docs) vis) (docs_bytes docs) vis'.
Proof.
  intros Hd Hf Hv i r Hr. pose proof (visitor_takes docs vis vis' Hv) as Hp.
  unfold read_ints_with_visitor, docs_bytes, format_of in *. destruct (sortedb docs); [|destruct (smallb docs) eqn:Es; [|done]].
  - destruct (parses_byte 0 i _ Hr) as (i1 & -> & Hr1). cbn [mbind result_bind Z.eqb]. unfold read_delta_vints_with_visitor.
    destruct (read_deltas docs _ _ Hp docs Hd [] 0 vis i1 r) as (doc & st & i2 & E & HR & Hr2); [done..|]. rewrite vlen_nil in E. cbv zeta in E. rewrite E.
    cbn [mbind result_bind]. rewrite Hv in HR. injection HR as <-. by exists i2.
  - destruct (parses_byte 24 i _ Hr) as (i1 & -> & Hr1). cbn [mbind result_bind Z.eqb Pos.eqb]. unfold read_ints24_with_visitor.
    destruct (read_words docs _ _ Hp vis i1 r) as (W & ds & st & i2 & E & _ & EW & HR & Hr2); [by apply small_docs|done..|].
    match goal with |- context [while_fuel ?n ?c ?b ?s] => assert (while_fuel n c b s = Ok (vlen W, st, i2)) as -> end.
    { rewrite <- EW. apply while_fuel_ext. intros [[k st'] i']. do 3 (destruct (read_long _) as [[? ?]| | |]; [|done..]; cbn [mbind result_bind]). by rewrite (visit_all_put _ k). }
    cbn [mbind result_bind].
    destruct (read_each docs _ _ Hp read_24 (be_bytes 3) ds) with (W := W) (st := st) (i := i2) (r := r) as (st' & i3 & -> & HR' & Hr3);
      [|done..|rewrite Hv in HR'; injection HR' as <-; by exists i3].
    intros v Hx%list_elem_of_In. apply parses_24. pose proof (small_docs docs Hd Es) as H24. rewrite List.Forall_forall in H24. apply H24. rewrite E. apply in_or_app. by right.
Qed.
End visitors.

(** * The theorems *)

Section theorems.
Context {Out In Vis : Type} `{HO : LawfulOutput Out} `{HI : LawfulInput In} `{HV : IntersectVisitor Vis}.

(** C15. The doc ids of any part of an array, whatever the format [write_doc_ids]
    chooses for them, are read back by [read_ints] into the front of a buffer that
    has room, to the last byte and leaving the rest of the buffer alone. *)
Theorem doc_ids_roundtrip (pre docs post buf : list Z) : Forall (is_i 32) docs → vlen docs ≤ vlen buf →
  ∃ bs, emits (fun o : Out => write_doc_ids o (pre ++ docs ++ post) (vlen pre) (vlen docs)) bs ∧
        parses (fun i : In => read_ints i (vlen docs) buf) bs (docs ++ drop (length docs) buf).
Proof. intros Hd Hl. exists (docs_bytes docs). split; [by apply emits_doc_ids|by apply parses_doc_ids]. Qed.

(** A visitor that accepts the doc ids one by one is shown by
    [read_ints_with_visitor] exactly those that were written, in their order, when
    they are sorted or all fit in 24 bits. *)
Theorem doc_ids_visited (pre docs post : list Z) (vis vis' : Vis) : Forall (is_i 32) docs → format_of docs ≠ Ints32 →
  visit_all docs vis = Ok vis' →
  ∃ bs, emits (fun o : Out => write_doc_ids o (pre ++ docs ++ post) (vlen pre) (vlen docs)) bs ∧
        parses (fun i : In => read_ints_with_visitor i (vlen docs) vis) bs vis'.
Proof. intros Hd Hf Hv. exists (docs_bytes docs). split; [by apply emits_doc_ids|by apply parses_visited]. Qed.
End theorems.

(** A visitor that collects the documents. *)
#[local] Instance collecting : IntersectVisitor (list Z) := fun vs d => Ok (vs ++ [d]).

Lemma doc_ids_roundtrip_witness :
  Forall (is_i 32) [9; 3; 16777216] ∧ vlen [9; 3; 16777216] ≤ vlen [1; 1; 1; 1] ∧
  ∃ bs, emits (O := list Z) (fun o => write_doc_ids o ([7] ++ [9; 3; 16777216] ++ [8]) (vlen [7]) (vlen [9; 3; 16777216])) bs ∧
        parses (I := list Z) (fun i => read_ints i (vlen [9; 3; 16777216]) [1; 1; 1; 1]) bs ([9; 3; 16777216] ++ drop 3 [1; 1; 1; 1]).
Proof.
  assert (Forall (is_i 32) [9; 3; 16777216]) as H by (repeat first [apply List.Forall_nil|apply List.Forall_cons; [unfold is_i; lia|]]).
  split; [exact H|]. split; [done|]. exact (doc_ids_roundtrip (Out := list Z) (In := list Z) [7] [9; 3; 16777216] [8] [1; 1; 1; 1] H ltac:(done)).
Defined.

Lemma doc_ids_visited_witness :
  Forall (is_i 32) [9; 3; 4] ∧ format_of [9; 3; 4] ≠ Ints32 ∧ visit_all [9; 3; 4] [] = Ok [9; 3; 4] ∧
  ∃ bs, emits (O := list Z) (fun o => write_doc_ids o ([7] ++ [9; 3; 4] ++ [8]) (vlen [7]) (vlen [9; 3; 4])) bs ∧
        parses (I := list Z) (fun i => read_ints_with_visitor i (vlen [9; 3; 4]) []) bs [9; 3; 4].
Proof.
  assert (Forall (is_i 32) [9; 3; 4]) as H by (repeat first [apply List.Forall_nil|apply List.Forall_cons; [unfold is_i; lia|]]).
  split; [exact H|]. split; [done|]. split; [reflexivity|]. exact (doc_ids_visited (Out := list Z) (In := list Z) (Vis := list Z) [7] [9; 3; 4] [8] [] [9; 3; 4] H ltac:(done) eq_refl).
Defined.

(** Doc ids of 32 bits are written as four bytes each and shown to a visitor as
    variable-length integers: here it is shown 1 and 0 instead of the two written. *)
Lemma visitor_misreads_ints32 :
  write_doc_ids ([] : list Z) [16777216; 3] 0 2 = Ok [32; 1; 0; 0; 0; 0; 0; 0; 3] ∧
  read_ints ([32; 1; 0; 0; 0; 0; 0; 0; 3] : list Z) 2 [0; 0] = Ok ([16777216; 3], []) ∧
  read_ints_with_visitor ([32; 1; 0; 0; 0; 0; 0; 0; 3] : list Z) 2 ([] : list Z) = Ok ([1; 0], [0; 0; 0; 0; 0; 3]).
Proof. split_and!; vm_compute; reflexivity. Qed.
