(* ===== verification/BytePool.v ===== *)
(** The in-memory streams of an inverted segment: src/core/util/byte_block_pool.rs,
    int_block_pool.rs, byte_slice_reader.rs and the part of
    src/core/codec/postings/terms_hash_per_field.rs that writes to them.

    A pool is a vector of blocks; a position of a pool is the number of its block times
    the size of a block plus the offset.  A stream is a chain of slices of a pool, every
    full slice ending with the position of the next one. *)

From S2P Require Import Prelude DataIO.
Open Scope Z_scope.

(** [buffers[i][j]] and [buffers[i][j] = v] *)
Definition get2 (buffers : list (list Z)) (i j : Z) : result Z := b ← vget buffers i; vget b j.
Definition put2 (buffers : list (list Z)) (i j v : Z) : result (list (list Z)) :=
  b ← vget buffers i; b ← vset b j v; vset buffers i b.

(** [dst[from..to].copy_from_slice(src)] *)
Definition copy_from_slice (dst : list Z) (from to : Z) (src : list Z) : result (list Z) :=
  if vlen src =? to - from then vblit dst from src else Panic.

Definition fill_slice (array : list Z) (value : Z) : list Z := map (fun _ => value) array.

(** * ByteBlockPool *)

Module ByteBlockPool.

Definition BYTE_BLOCK_SHIFT : Z := 15.
Definition BYTE_BLOCK_SIZE : Z := 32768.
Definition BYTE_BLOCK_MASK : Z := 32767.
Definition NEXT_LEVEL_ARRAY : list Z := [1; 2; 3; 4; 5; 6; 7; 8; 9; 9].
Definition LEVEL_SIZE_ARRAY : list Z := [5; 14; 20; 30; 40; 40; 80; 80; 120; 120].
Definition FIRST_LEVEL_SIZE : Z := 5.

(** The implementations of [ByteBlockAllocator], with their [block_size]. *)
Inductive ByteBlockAllocator : Type :=
  | DirectAllocator (block_size : Z)
  | DirectTrackingAllocator (block_size : Z).

Definition block_size (a : ByteBlockAllocator) : Z :=
  match a with DirectAllocator n | DirectTrackingAllocator n => n end.
Definition byte_block (a : ByteBlockAllocator) : list Z := replicate (Z.to_nat (block_size a)) 0.
Definition recycle_byte_blocks (a : ByteBlockAllocator) (blocks : list (list Z)) (start end_ : Z) : result (list (list Z)) :=
  match a with
  | DirectAllocator _ => Ok blocks
  | DirectTrackingAllocator _ => for_range start end_ (fun i blocks => vset blocks i []) blocks
  end.

Record t : Type := mk {
  buffers : list (list Z);
  buffer_upto : Z;
  byte_upto : Z;
  byte_offset : Z;
  allocator : ByteBlockAllocator;
}.

Definition new (a : ByteBlockAllocator) : t := mk (replicate 10 []) (-1) BYTE_BLOCK_SIZE (- BYTE_BLOCK_SIZE) a.
Definition default : t := new (DirectAllocator BYTE_BLOCK_SIZE).

Definition with_buffers (bs : list (list Z)) (p : t) : t := mk bs (buffer_upto p) (byte_upto p) (byte_offset p) (allocator p).
Definition with_byte_upto (u : Z) (p : t) : t := mk (buffers p) (buffer_upto p) u (byte_offset p) (allocator p).

(** [self.buffers[i][j] = v] *)
Definition put (p : t) (i j v : Z) : result t := bs ← put2 (buffers p) i j v; Ok (with_buffers bs p).

Definition reset (p : t) (zero_fill_buffers reuse_first : bool) : result t :=
  if buffer_upto p >? -1 then
    bs ← (if zero_fill_buffers then
            bs ← for_range 0 (buffer_upto p) (fun i bs => b ← vget bs i; vset bs i (fill_slice b 0)) (buffers p);
            b ← vget bs (buffer_upto p);
            s ← vslice b 0 (byte_upto p);
            b ← vblit b 0 (fill_slice s 0);
            vset bs (buffer_upto p) b
          else Ok (buffers p));
    bs ← (if (buffer_upto p >? 0) || negb reuse_first then
            let offset := if reuse_first then 1 else 0 in
            bs ← recycle_byte_blocks (allocator p) bs offset (1 + buffer_upto p);
            for_range offset (1 + buffer_upto p) (fun i bs => vset bs i []) bs
          else Ok bs);
    if reuse_first then Ok (mk bs 0 0 0 (allocator p))
    else Ok (mk bs (-1) BYTE_BLOCK_SIZE (- BYTE_BLOCK_SIZE) (allocator p))
  else Ok p.

Definition next_buffer (p : t) : result t :=
  let idx := buffer_upto p + 1 in
  bs ← (if idx =? vlen (buffers p) then Ok (buffers p ++ [byte_block (allocator p)])
        else vset (buffers p) idx (byte_block (allocator p)));
  Ok (mk bs (buffer_upto p + 1) 0 (byte_offset p + BYTE_BLOCK_SIZE) (allocator p)).

(** Go to the next buffer when [size] bytes do not fit in the current one. *)
Definition make_room (p : t) (size : Z) : result t :=
  if byte_upto p >? as_u64 (BYTE_BLOCK_SIZE - size) then next_buffer p else Ok p.

Definition new_slice (p : t) (size : Z) : result (Z * t) :=
  p ← make_room p size;
  let upto := byte_upto p in
  let p := with_byte_upto (byte_upto p + size) p in
  p ← put p (buffer_upto p) (byte_upto p - 1) 16;
  Ok (upto, p).

Definition alloc_slice (p : t) (slice_index upto : Z) : result (Z * t) :=
  marker ← get2 (buffers p) slice_index upto;
  let level := Z.land marker 15 in
  new_level ← vget NEXT_LEVEL_ARRAY level;
  new_size ← vget LEVEL_SIZE_ARRAY new_level;
  p ← make_room p new_size;
  let new_upto := byte_upto p in
  let offset := as_u64 (new_upto + byte_offset p) in
  let p := with_byte_upto (byte_upto p + new_size) p in
  b ← get2 (buffers p) slice_index (upto - 3);
  p ← put p (buffer_upto p) new_upto b;
  b ← get2 (buffers p) slice_index (upto - 2);
  p ← put p (buffer_upto p) (new_upto + 1) b;
  b ← get2 (buffers p) slice_index (upto - 1);
  p ← put p (buffer_upto p) (new_upto + 2) b;
  p ← put p slice_index (upto - 3) (as_u8 (Z.shiftr offset 24));
  p ← put p slice_index (upto - 2) (as_u8 (Z.shiftr offset 16));
  p ← put p slice_index (upto - 1) (as_u8 (Z.shiftr offset 8));
  p ← put p slice_index upto (as_u8 offset);
  p ← put p (buffer_upto p) (byte_upto p - 1) (as_u8 (Z.lor 16 new_level));
  Ok (new_upto + 3, p).

(** The [BytesRef] of the result is the bytes it refers to. *)
Definition set_bytes_ref (p : t) (text_start : Z) : result (list Z) :=
  bytes ← vget (buffers p) (Z.shiftr text_start BYTE_BLOCK_SHIFT);
  let pos := Z.land text_start BYTE_BLOCK_MASK in
  b ← vget bytes pos;
  if Z.land b 0x80 =? 0 then vslice bytes (pos + 1) (pos + 1 + b)
  else
    b1 ← vget bytes (pos + 1);
    let length := Z.land b 0x7f + Z.shiftl b1 7 in
    vslice bytes (pos + 2) (pos + 2 + length).

(** A round of the loop of [read_bytes]; [overflow] is computed before the loop and
    stays what it is.  A round that does not return moves on in [bytes]. *)
Fixpoint read_bytes_loop (fuel : nat) (p : t) (bytes : list Z) (length overflow bytes_offset bytes_length buffer_index pos : Z) : result (list Z) :=
  match fuel with
  | O => Diverge
  | S fuel =>
    buffer ← vget (buffers p) buffer_index;
    if overflow <=? 0 then
      s ← vslice buffer pos (pos + bytes_length);
      copy_from_slice bytes bytes_offset (bytes_offset + bytes_length) s
    else
      let bytes_copy := as_u64 (length - overflow) in
      s ← vslice buffer pos (pos + bytes_copy);
      bytes ← copy_from_slice bytes bytes_offset (bytes_offset + bytes_copy) s;
      read_bytes_loop fuel p bytes length overflow (bytes_offset + bytes_copy) (as_u64 (bytes_length - bytes_copy)) (buffer_index + 1) 0
  end.

Definition read_bytes (p : t) (offset : Z) (bytes : list Z) (off length : Z) : result (list Z) :=
  if length =? 0 then Ok bytes
  else
    let pos := Z.land offset BYTE_BLOCK_MASK in
    read_bytes_loop (S (Datatypes.length bytes)) p bytes length (pos + length - BYTE_BLOCK_SIZE) off length (Z.shiftr offset BYTE_BLOCK_SHIFT) pos.

(** [self.current_buffer()[from..to].copy_from_slice(src)] *)
Definition copy_to_current (p : t) (from to : Z) (src : list Z) : result t :=
  b ← vget (buffers p) (buffer_upto p);
  b ← copy_from_slice b from to src;
  bs ← vset (buffers p) (buffer_upto p) b;
  Ok (with_buffers bs p).

Fixpoint append_loop (fuel : nat) (p : t) (bytes : list Z) (length offset : Z) : result t :=
  match fuel with
  | O => Diverge
  | S fuel =>
    let start := byte_upto p in
    if length + byte_upto p <=? BYTE_BLOCK_SIZE then
      s ← vslice bytes offset (offset + length);
      p ← copy_to_current p start (start + vlen bytes) s;
      Ok (with_byte_upto (byte_upto p + length) p)
    else
      let bytes_copy := as_u64 (BYTE_BLOCK_SIZE - byte_upto p) in
      '(p, length, offset) ← (if bytes_copy >? 0 then
                                p ← copy_to_current p start (start + bytes_copy) bytes;
                                Ok (p, length - bytes_copy, offset + bytes_copy)
                              else Ok (p, length, offset));
      p ← next_buffer p;
      append_loop fuel p bytes length offset
  end.

(** Every second round copies a block or returns. *)
Definition append (p : t) (bytes : list Z) : result t :=
  if vlen bytes =? 0 then Ok p else append_loop (2 + Datatypes.length bytes) p bytes (vlen bytes) 0.

Definition set_raw_bytes_ref (p : t) (bytes : list Z) (offset : Z) : result (list Z) := read_bytes p offset bytes 0 (vlen bytes).

Definition read_byte (p : t) (offset : Z) : result Z :=
  get2 (buffers p) (Z.shiftr offset BYTE_BLOCK_SHIFT) (Z.land offset BYTE_BLOCK_MASK).
End ByteBlockPool.

(** * IntBlockPool *)

Module IntBlockPool.

Definition INT_BLOCK_SHIFT : Z := 13.
Definition INT_BLOCK_SIZE : Z := 8192.
Definition INT_BLOCK_MASK : Z := 8191.
Definition NEXT_LEVEL_ARRAY : list Z := [1; 2; 3; 4; 5; 6; 7; 8; 9; 9].
Definition LEVEL_SIZE_ARRAY : list Z := [2; 4; 8; 16; 32; 64; 128; 256; 512; 1024].

(** The implementations of [IntAllocator]: both give fresh blocks and recycle nothing. *)
Inductive IntAllocator : Type :=
  | DirectIntAllocator (block_size : Z)
  | IntBlockAllocator (block_size : Z).

Definition block_size (a : IntAllocator) : Z := match a with DirectIntAllocator n | IntBlockAllocator n => n end.
Definition int_block (a : IntAllocator) : list Z := replicate (Z.to_nat (block_size a)) 0.
Definition recycle_int_blocks (a : IntAllocator) (blocks : list (list Z)) (start end_ : Z) : list (list Z) := blocks.

Record t : Type := mk {
  buffers : list (list Z);
  buffer_upto : Z;
  int_upto : Z;
  int_offset : Z;
  need_flush : bool;
  allocator : IntAllocator;
}.

Definition new (a : IntAllocator) : t := mk (replicate 10 []) (-1) INT_BLOCK_SIZE (- INT_BLOCK_SIZE) false a.
Definition default : t := mk [] (-1) INT_BLOCK_SIZE (- INT_BLOCK_SIZE) false (DirectIntAllocator INT_BLOCK_SIZE).

Definition with_buffers (bs : list (list Z)) (p : t) : t := mk bs (buffer_upto p) (int_upto p) (int_offset p) (need_flush p) (allocator p).
Definition with_int_upto (u : Z) (p : t) : t := mk (buffers p) (buffer_upto p) u (int_offset p) (need_flush p) (allocator p).
Definition set_need_flush (p : t) : t := mk (buffers p) (buffer_upto p) (int_upto p) (int_offset p) true (allocator p).

Definition put (p : t) (i j v : Z) : result t := bs ← put2 (buffers p) i j v; Ok (with_buffers bs p).

Definition reset (p : t) (zero_fill_buffers reuse_first : bool) : result t :=
  if buffer_upto p >? -1 then
    bs ← (if zero_fill_buffers then
            bs ← for_range 0 (buffer_upto p) (fun i bs => b ← vget bs i; vset bs i (fill_slice b 0)) (buffers p);
            b ← vget bs (buffer_upto p);
            s ← vslice b 0 (int_upto p);
            b ← vblit b 0 (fill_slice s 0);
            vset bs (buffer_upto p) b
          else Ok (buffers p));
    bs ← (if (buffer_upto p >? 0) || negb reuse_first then
            let offset := if reuse_first then 1 else 0 in
            let bs := recycle_int_blocks (allocator p) bs offset (1 + buffer_upto p) in
            for_range offset (1 + buffer_upto p) (fun i bs => vset bs i []) bs
          else Ok bs);
    if reuse_first then Ok (mk bs 0 0 0 (need_flush p) (allocator p))
    else Ok (mk bs (-1) INT_BLOCK_SIZE (- INT_BLOCK_SIZE) (need_flush p) (allocator p))
  else Ok p.

Definition next_buffer (p : t) : result t :=
  let idx := buffer_upto p + 1 in
  bs ← (if idx =? vlen (buffers p) then Ok (buffers p ++ [int_block (allocator p)])
        else vset (buffers p) idx (int_block (allocator p)));
  Ok (mk bs (buffer_upto p + 1) 0 (int_offset p + INT_BLOCK_SIZE) (need_flush p) (allocator p)).

Definition make_room (p : t) (size : Z) : result t :=
  if int_upto p >? as_u64 (INT_BLOCK_SIZE - size) then next_buffer p else Ok p.

Definition new_slice (p : t) (size : Z) : result (Z * t) :=
  p ← make_room p size;
  let upto := int_upto p in
  let p := with_int_upto (int_upto p + size) p in
  p ← put p (buffer_upto p) (int_upto p - 1) 1;
  Ok (upto, p).

(** The caller's [slice] is taken and returned. *)
Definition alloc_slice (p : t) (slice : list Z) (slice_offset : Z) : result (Z * list Z * t) :=
  level ← vget slice slice_offset;
  new_level ← vget NEXT_LEVEL_ARRAY (level - 1);
  new_size ← vget LEVEL_SIZE_ARRAY new_level;
  p ← make_room p new_size;
  let new_upto := int_upto p in
  let offset := as_u64 (new_upto + int_offset p) in
  let p := with_int_upto (int_upto p + new_size) p in
  slice ← vset slice slice_offset offset;
  p ← put p (buffer_upto p) (int_upto p - 1) (as_i32 new_level);
  Ok (new_upto, slice, p).
End IntBlockPool.

(** * ByteSliceReader *)

Module ByteSliceReader.
Import ByteBlockPool.

(** The pointer to the pool is the pool: it does not change while it is read. *)
Record t : Type := mk {
  pool : ByteBlockPool.t;
  buffer_upto : Z;
  upto : Z;
  limit : Z;
  level : Z;
  buffer_offset : Z;
  end_index : Z;
}.

Definition init (pool : ByteBlockPool.t) (start_index end_index : Z) : t :=
  let buffer_upto := start_index / BYTE_BLOCK_SIZE in
  let upto := Z.land start_index BYTE_BLOCK_MASK in
  let first_size := FIRST_LEVEL_SIZE in
  let limit := if start_index + first_size >=? end_index then Z.land end_index BYTE_BLOCK_MASK
               else upto + first_size - 4 in
  mk pool buffer_upto upto limit 0 (buffer_upto * BYTE_BLOCK_SIZE) end_index.

Definition eof (r : t) : bool := upto r + buffer_offset r =? end_index r.

Definition next_slice (r : t) : result t :=
  buffer ← vget (buffers (pool r)) (buffer_upto r);
  b0 ← vget buffer (limit r);
  b1 ← vget buffer (limit r + 1);
  b2 ← vget buffer (limit r + 2);
  b3 ← vget buffer (limit r + 3);
  let next_index := Z.shiftl b0 24 + Z.shiftl b1 16 + Z.shiftl b2 8 + b3 in
  level ← vget NEXT_LEVEL_ARRAY (level r);
  new_size ← vget LEVEL_SIZE_ARRAY level;
  let buffer_upto := next_index / BYTE_BLOCK_SIZE in
  let buffer_offset := buffer_upto * BYTE_BLOCK_SIZE in
  let upto := Z.land next_index BYTE_BLOCK_MASK in
  let limit := if next_index + new_size >=? end_index r then as_u64 (end_index r - buffer_offset)
               else upto + new_size - 4 in
  Ok (mk (pool r) buffer_upto upto limit level buffer_offset (end_index r)).

Definition advanced (r : t) (n : Z) : t := mk (pool r) (buffer_upto r) (upto r + n) (limit r) (level r) (buffer_offset r) (end_index r).

(** The bytes read are those the source copies to [buf[offset..]]. *)
Fixpoint read_loop (fuel : nat) (r : t) (len : Z) : result (list Z * t) :=
  if len <=? 0 then Ok ([], r)
  else
    match fuel with
    | O => Diverge
    | S fuel =>
      let num_left := as_u64 (limit r - upto r) in
      buffer ← vget (buffers (pool r)) (buffer_upto r);
      if num_left <? len then
        s ← vslice buffer (upto r) (upto r + num_left);
        r ← next_slice r;
        '(bs, r) ← read_loop fuel r (len - num_left);
        Ok (s ++ bs, r)
      else
        s ← vslice buffer (upto r) (upto r + len);
        Ok (s, advanced r len)
    end.

(** Every slice after the first has a byte to read. *)
Definition read_impl (r : t) (n : Z) : result (list Z * t) := read_loop (S (Z.to_nat n)) r n.

#[global] Instance data_input : DataInput t := {|
  read := read_impl;
  DataIO.read_byte := default_read_byte read_impl;
  DataIO.read_bytes := default_read_bytes read_impl;
  skip_bytes := default_skip_bytes (default_read_bytes read_impl) |}.
End ByteSliceReader.

(** * ParallelPostingsArray *)

Definition over_size (size : Z) : Z :=
  let extra := Z.shiftr size 3 in
  let extra := if extra <? 3 then 3 else extra in
  size + extra.

Module ParallelPostingsArray.
Record t : Type := mk { size : Z; text_starts : list Z; int_starts : list Z; byte_starts : list Z }.

Definition new (size : Z) : t := mk size (replicate (Z.to_nat size) 0) (replicate (Z.to_nat size) 0) (replicate (Z.to_nat size) 0).
Definition default : t := new 2.

(** [Vec::resize] *)
Definition resize (l : list Z) (n : Z) : list Z := take (Z.to_nat n) l ++ replicate (Z.to_nat (n - vlen l)) 0.

Definition grow (p : t) : t :=
  let new_size := over_size (size p + 1) in
  mk new_size (resize (text_starts p) new_size) (resize (int_starts p) new_size) (resize (byte_starts p) new_size).
Definition clear (p : t) : t := mk 0 [] [] [].
End ParallelPostingsArray.

(** * TermsHashPerFieldBase *)

Module TermsHashPerFieldBase.
Import ByteBlockPool IntBlockPool.

(** The pools of a [TermsHashBase], which all its fields point to. *)
Record pools : Type := Pools { int_pool : IntBlockPool.t; byte_pool : ByteBlockPool.t }.

Definition reset_pools (ps : pools) : result pools :=
  ip ← IntBlockPool.reset (int_pool ps) false false;
  bp ← ByteBlockPool.reset (byte_pool ps) false false;
  Ok (Pools ip bp).

(** The hash of the terms, the description of the field and the flags are left out. *)
Record t : Type := mk {
  stream_count : Z;
  num_posting_int : Z;
  postings_array : ParallelPostingsArray.t;
  int_upto_idx : Z;
  int_upto_start : Z;
}.

Definition new (stream_count : Z) (postings_array : ParallelPostingsArray.t) : t :=
  mk stream_count (2 * stream_count) postings_array 0 0.

Definition AUTO_FLUSH_BYTES_USED : Z := 1073741824.
Definition check_flush (bytes_used : Z) : bool := bytes_used >? AUTO_FLUSH_BYTES_USED.

Definition with_int_start (term_id v : Z) (p : ParallelPostingsArray.t) : result ParallelPostingsArray.t :=
  l ← vset (ParallelPostingsArray.int_starts p) term_id v;
  Ok (ParallelPostingsArray.mk (ParallelPostingsArray.size p) (ParallelPostingsArray.text_starts p) l (ParallelPostingsArray.byte_starts p)).
Definition with_byte_start (term_id v : Z) (p : ParallelPostingsArray.t) : result ParallelPostingsArray.t :=
  l ← vset (ParallelPostingsArray.byte_starts p) term_id v;
  Ok (ParallelPostingsArray.mk (ParallelPostingsArray.size p) (ParallelPostingsArray.text_starts p) (ParallelPostingsArray.int_starts p) l).

(** A first slice for the stream [i]. *)
Definition add_stream (idx start : Z) (i : Z) (ps : pools) : result pools :=
  '(upto, bp) ← ByteBlockPool.new_slice (byte_pool ps) FIRST_LEVEL_SIZE;
  ip ← IntBlockPool.put (int_pool ps) idx (start + i) (as_i32 (upto + byte_offset bp));
  Ok (Pools ip bp).

Definition add (f : t) (ps : pools) (term_id : Z) : result (t * pools) :=
  if 0 <=? term_id then
    ip ← (if num_posting_int f + int_upto (int_pool ps) >? INT_BLOCK_SIZE
          then IntBlockPool.next_buffer (int_pool ps) else Ok (int_pool ps));
    bp ← (if as_u64 (BYTE_BLOCK_SIZE - byte_upto (byte_pool ps)) <? num_posting_int f * FIRST_LEVEL_SIZE
          then ByteBlockPool.next_buffer (byte_pool ps) else Ok (byte_pool ps));
    let idx := IntBlockPool.buffer_upto ip in
    let start := int_upto ip in
    let ip := with_int_upto (int_upto ip + stream_count f) ip in
    pa ← with_int_start term_id (as_u32 (as_u64 (start + int_offset ip))) (postings_array f);
    ps ← for_range 0 (stream_count f) (add_stream idx start) (Pools ip bp);
    b ← get2 (IntBlockPool.buffers (int_pool ps)) idx start;
    pa ← with_byte_start term_id (as_u32 b) pa;
    Ok (mk (stream_count f) (num_posting_int f) pa idx start, ps)
  else
    let term_id := as_i32 (as_i32 (- term_id) - 1) in
    int_start ← vget (ParallelPostingsArray.int_starts (postings_array f)) term_id;
    Ok (mk (stream_count f) (num_posting_int f) (postings_array f) (Z.shiftr int_start INT_BLOCK_SHIFT) (Z.land int_start INT_BLOCK_MASK), ps).

Definition write_byte (f : t) (ps : pools) (stream b : Z) : result pools :=
  let slot := int_upto_start f + stream in
  v ← get2 (IntBlockPool.buffers (int_pool ps)) (int_upto_idx f) slot;
  let upto := as_u64 v in
  let ip := if check_flush upto then set_need_flush (int_pool ps) else int_pool ps in
  let byte_pool_idx := Z.shiftr upto BYTE_BLOCK_SHIFT in
  let offset := Z.land upto BYTE_BLOCK_MASK in
  c ← get2 (ByteBlockPool.buffers (byte_pool ps)) byte_pool_idx offset;
  '(byte_pool_idx, offset, ip, bp) ←
    (if negb (c =? 0) then
       '(offset, bp) ← ByteBlockPool.alloc_slice (byte_pool ps) byte_pool_idx offset;
       ip ← IntBlockPool.put ip (int_upto_idx f) slot (as_i32 (offset + byte_offset bp));
       Ok (ByteBlockPool.buffer_upto bp, offset, ip, bp)
     else Ok (byte_pool_idx, offset, ip, byte_pool ps));
  bp ← ByteBlockPool.put bp byte_pool_idx offset b;
  v ← get2 (IntBlockPool.buffers ip) (int_upto_idx f) slot;
  ip ← IntBlockPool.put ip (int_upto_idx f) slot (as_i32 (v + 1));
  Ok (Pools ip bp).

Definition write_bytes (f : t) (ps : pools) (stream : Z) (data : list Z) : result pools :=
  for_each data (fun b ps => write_byte f ps stream b) ps.

(** Five groups of seven bits at most. *)
Fixpoint write_vint_loop (fuel : nat) (f : t) (ps : pools) (stream v : Z) : result pools :=
  if Z.ldiff v 0x7f =? 0 then write_byte f ps stream (as_u8 (Z.land v 0x7f))
  else
    match fuel with
    | O => Diverge
    | S fuel =>
      ps ← write_byte f ps stream (as_u8 (Z.lor (Z.land v 0x7f) 0x80));
      write_vint_loop fuel f ps stream (unsigned_shift 32 v 7)
    end.
Definition write_vint (f : t) (ps : pools) (stream i : Z) : result pools := write_vint_loop 4 f ps stream i.

(** [TermsHashPerField::init_reader] *)
Definition init_reader (f : t) (ps : pools) (term_id stream : Z) : result ByteSliceReader.t :=
  int_start ← vget (ParallelPostingsArray.int_starts (postings_array f)) term_id;
  let ints_idx := Z.shiftr int_start INT_BLOCK_SHIFT in
  let upto := Z.land int_start INT_BLOCK_MASK in
  byte_start ← vget (ParallelPostingsArray.byte_starts (postings_array f)) term_id;
  let start_index := byte_start + stream * FIRST_LEVEL_SIZE in
  end_index ← get2 (IntBlockPool.buffers (int_pool ps)) ints_idx (upto + stream);
  Ok (ByteSliceReader.init (byte_pool ps) start_index (as_u64 end_index)).
End TermsHashPerFieldBase.
