(* ===== verification/BytePoolFacts.v ===== *)
(** The blocks of a pool as one memory, the chains of slices in it, and the reader of a
    chain, which is a lawful input.

    A chain is a predicate on the memory and on the set of positions it owns, so that
    what changes elsewhere leaves it alone. *)

From S2P Require Import Prelude DataIO DataIOFacts PackedBulkFacts PackedArrayFacts BytePool.
Open Scope Z_scope.

(** * Blocks *)

Section blocks.
Context (W : Z) (HW : 0 < W).

Definition cell (bufs : list (list Z)) (a : Z) : Z :=
  match bufs !! Z.to_nat (a / W) with Some b => nthz b (a mod W) | None => 0 end.

Definition blocks (bufs : list (list Z)) (N : Z) : Prop :=
  N ≤ vlen bufs ∧ ∀ k b, 0 ≤ k < N → bufs !! Z.to_nat k = Some b → vlen b = W.

Lemma div_at i j : 0 ≤ j < W → (i * W + j) / W = i.
Proof using HW. intros. rewrite Z.add_comm, Z.div_add, Z.div_small by lia. lia. Qed.
Lemma mod_at i j : 0 ≤ j < W → (i * W + j) mod W = j.
Proof using HW. intros. rewrite Z.add_comm, Z.mod_add, Z.mod_small by lia. lia. Qed.

Definition span (m : Z → Z) (a n : Z) : list Z := map (fun k => m (a + Z.of_nat k)) (seq 0 (Z.to_nat n)).

Lemma vlen_span m a n : 0 ≤ n → vlen (span m a n) = n.
Proof. intros. unfold span, vlen. rewrite length_map, length_seq. lia. Qed.
Lemma nthz_span m a n k : 0 ≤ k < n → nthz (span m a n) k = m (a + k).
Proof.
  intros. unfold nthz, span. rewrite list_lookup_fmap, lookup_seq_lt by lia. cbn. do 2 f_equal. lia.
Qed.
Lemma span_ext m m' a n : (∀ k, a ≤ k < a + n → m' k = m k) → span m' a n = span m a n.
Proof.
  intros H. destruct (Z.le_gt_cases 0 n) as [Hn|Hn].
  - apply nthz_ext; rewrite !vlen_span by lia; [done|]. intros j Hj. rewrite !nthz_span by lia. apply H. lia.
  - unfold span. by replace (Z.to_nat n) with O by lia.
Qed.
Lemma span_app m a n k : 0 ≤ n → 0 ≤ k → span m a (n + k) = span m a n ++ span m (a + n) k.
Proof.
  intros Hn Hk. apply nthz_ext; rewrite ?vlen_app, !vlen_span by lia; [done|]. intros j Hj.
  rewrite nthz_app, vlen_span, nthz_span by lia. destruct (Z.ltb_spec j n); rewrite nthz_span by lia; f_equal; lia.
Qed.
Lemma span_one m a : span m a 1 = [m a].
Proof. apply nthz_ext; [by rewrite vlen_span by lia|]. intros j Hj. rewrite vlen_span in Hj by lia. rewrite nthz_span by lia. by replace j with 0 by lia; rewrite Z.add_0_r. Qed.
Lemma span_0 m a : span m a 0 = [].
Proof. done. Qed.

Lemma block_of bufs N i : blocks bufs N → 0 ≤ i < N →
  ∃ b, vget bufs i = Ok b ∧ bufs !! Z.to_nat i = Some b ∧ vlen b = W ∧
    (∀ j, 0 ≤ j < W → vget b j = Ok (cell bufs (i * W + j))) ∧
    (∀ j k, 0 ≤ j → j ≤ k → k ≤ W → vslice b j k = Ok (span (cell bufs) (i * W + j) (k - j))).
Proof using HW.
  intros [HN Hb] Hi. destruct (vget_in bufs i ltac:(lia)) as (b & E & Hl). exists b. pose proof (Hb i b Hi Hl) as Hw.
  assert (∀ j, 0 ≤ j < W → cell bufs (i * W + j) = nthz b j) as Hc by (intros j Hj; unfold cell; by rewrite div_at, mod_at, Hl by done).
  split_and!; try done.
  - intros j Hj. rewrite Hc by done. apply vget_nthz. lia.
  - intros j k ? ? ?. rewrite vslice_in by lia. f_equal. apply nthz_ext; rewrite vlen_take, ?vlen_span by (rewrite ?vlen_drop; lia); [done|].
    intros q Hq. rewrite nthz_take, nthz_drop, nthz_span by lia. rewrite <- Hc by lia. f_equal. lia.
Qed.

Lemma get2_cell bufs N i j : blocks bufs N → 0 ≤ i < N → 0 ≤ j < W → get2 bufs i j = Ok (cell bufs (i * W + j)).
Proof using HW. intros Hb Hi Hj. destruct (block_of bufs N i Hb Hi) as (b & E & _ & _ & Hg & _). unfold get2. rewrite E. cbn. by apply Hg. Qed.

Lemma put2_cell bufs N i j v : blocks bufs N → 0 ≤ i < N → 0 ≤ j < W →
  ∃ bufs', put2 bufs i j v = Ok bufs' ∧ blocks bufs' N ∧ vlen bufs' = vlen bufs ∧
    ∀ a, 0 ≤ a → cell bufs' a = if a =? i * W + j then v else cell bufs a.
Proof using HW.
  intros Hb Hi Hj. destruct (block_of bufs N i Hb Hi) as (b & E & Hl & Hw & _). destruct (vset_nthz b j v) as (b' & E' & Hw' & Hn); [lia|].
  pose proof Hb as [HN Hbk]. unfold put2. rewrite E. cbn [mbind result_bind]. rewrite E'. cbn [mbind result_bind]. rewrite vset_in by lia.
  eexists. split; [done|]. split_and!.
  - split; [by rewrite vlen_insert|]. intros k c Hk Hc. destruct (decide (k = i)) as [->|].
    + rewrite list_lookup_insert_eq in Hc by (unfold vlen in *; lia). injection Hc as <-. congruence.
    + rewrite list_lookup_insert_ne in Hc by lia. by apply (Hbk k).
  - apply vlen_insert.
  - intros a Ha. unfold cell. pose proof (Z.div_mod a W ltac:(lia)) as Hdm. pose proof (Z.mod_pos_bound a W HW). pose proof (Z.div_pos a W Ha HW).
    destruct (decide (a / W = i)) as [Hd|Hd].
    + rewrite Hd, list_lookup_insert_eq, Hn, Hl by (unfold vlen in *; lia). destruct (Z.eqb_spec (a mod W) j), (Z.eqb_spec a (i * W + j)); done || nia.
    + rewrite list_lookup_insert_ne by lia. destruct (Z.eqb_spec a (i * W + j)) as [->|]; [|done]. by rewrite div_at in Hd.
Qed.

(** A fresh block in the place of the block [N]. *)
Lemma push_block bufs N : blocks bufs N → 0 ≤ N →
  ∃ bufs', (if N =? vlen bufs then Ok (bufs ++ [replicate (Z.to_nat W) 0]) else vset bufs N (replicate (Z.to_nat W) 0)) = Ok bufs' ∧
    blocks bufs' (N + 1) ∧ (∀ a, 0 ≤ a < N * W → cell bufs' a = cell bufs a) ∧ (∀ a, N * W ≤ a < (N + 1) * W → cell bufs' a = 0).
Proof using HW.
  intros [HN Hb] H0.
  assert (∀ bufs', bufs' !! Z.to_nat N = Some (replicate (Z.to_nat W) 0) → (∀ k, 0 ≤ k < N → bufs' !! Z.to_nat k = bufs !! Z.to_nat k) → N + 1 ≤ vlen bufs' →
    blocks bufs' (N + 1) ∧ (∀ a, 0 ≤ a < N * W → cell bufs' a = cell bufs a) ∧ (∀ a, N * W ≤ a < (N + 1) * W → cell bufs' a = 0)) as Hall.
  { intros bufs' Hl Ho Hlen. split_and!.
    - split; [done|]. intros k c Hk Hc. destruct (decide (k = N)) as [->|]; [rewrite Hl in Hc; injection Hc as <-; apply vlen_replicate; lia|].
      rewrite Ho in Hc by lia. apply (Hb k); [lia|done].
    - intros a Ha. unfold cell. rewrite Ho; [done|]. split; [apply Z.div_pos; lia|]. apply Z.div_lt_upper_bound; lia.
    - intros a Ha. unfold cell. replace (a / W) with N; [rewrite Hl; apply nthz_replicate, Z.mod_pos_bound; lia|].
      apply (Z.div_unique a W N (a - N * W)); lia. }
  destruct (Z.eqb_spec N (vlen bufs)) as [E|E].
  - eexists. split; [done|]. apply Hall.
    + rewrite lookup_app_r by (unfold vlen in *; lia). by replace (Z.to_nat N - length bufs)%nat with O by (unfold vlen in *; lia).
    + intros k Hk. apply lookup_app_l. unfold vlen in *. lia.
    + rewrite vlen_app, vlen_cons, vlen_nil. lia.
  - rewrite vset_in by lia. eexists. split; [done|]. apply Hall.
    + apply list_lookup_insert_eq. unfold vlen in *. lia.
    + intros k Hk. apply list_lookup_insert_ne. lia.
    + rewrite vlen_insert. lia.
Qed.
End blocks.

(** * Arrays that grow *)

Lemma resize_nthz l n j : 0 ≤ j < vlen l → vlen l ≤ n → nthz (ParallelPostingsArray.resize l n) j = nthz l j.
Proof. intros Hj Hn. unfold ParallelPostingsArray.resize. rewrite take_ge by (unfold vlen in *; lia). by rewrite nthz_app, (proj2 (Z.ltb_lt _ _)) by lia. Qed.
Lemma vlen_resize l n : vlen l ≤ n → vlen (ParallelPostingsArray.resize l n) = n.
Proof. intros Hn. pose proof (vlen_nonneg l). unfold ParallelPostingsArray.resize. rewrite vlen_app, vlen_replicate, take_ge by (unfold vlen in *; lia). lia. Qed.

Lemma over_size_grows n : n < over_size n.
Proof. unfold over_size. destruct (Z.ltb_spec (Z.shiftr n 3) 3); lia. Qed.

(** * Chains of slices *)

Import ByteBlockPool.
#[local] Abbreviation B := BYTE_BLOCK_SIZE.

Definition level_size (lv : Z) : Z := nthz LEVEL_SIZE_ARRAY lv.
Definition next_level (lv : Z) : Z := nthz NEXT_LEVEL_ARRAY lv.

Lemma level_facts lv : 0 ≤ lv ≤ 9 →
  5 ≤ level_size lv ≤ 120 ∧ 0 ≤ next_level lv ≤ 9 ∧ vget NEXT_LEVEL_ARRAY lv = Ok (next_level lv) ∧ vget LEVEL_SIZE_ARRAY lv = Ok (level_size lv) ∧
  Z.lor 16 lv ≠ 0 ∧ Z.land (Z.lor 16 lv) 15 = lv ∧ as_u8 (Z.lor 16 lv) = Z.lor 16 lv.
Proof.
  intros H. assert (lv = 0 ∨ lv = 1 ∨ lv = 2 ∨ lv = 3 ∨ lv = 4 ∨ lv = 5 ∨ lv = 6 ∨ lv = 7 ∨ lv = 8 ∨ lv = 9) as C by lia.
  repeat destruct C as [-> |C]; [..|subst lv]; by split_and!.
Qed.

(** A slice lies in one block and all of it is owned. *)
Definition slice_in (P : Z → Prop) (lv s : Z) : Prop :=
  0 ≤ lv ≤ 9 ∧ 0 ≤ s ∧ s mod B + level_size lv ≤ B ∧ ∀ a, s ≤ a < s + level_size lv → P a.

(** [chain m P lv s e bs]: from the slice of level [lv] at [s] on, the memory [m] holds the
    bytes [bs], and the next byte goes to the position [e] of the last slice. *)
Inductive chain (m : Z → Z) (P : Z → Prop) : Z → Z → Z → list Z → Prop :=
  | chain_last lv s e : slice_in P lv s → s ≤ e < s + level_size lv →
      (∀ a, e ≤ a < s + level_size lv - 1 → m a = 0) → m (s + level_size lv - 1) = Z.lor 16 lv →
      chain m P lv s e (span m s (e - s))
  | chain_link lv s s' e bs : slice_in P lv s → s + level_size lv ≤ s' < 2 ^ 31 → s' + 3 ≤ e →
      span m (s + level_size lv - 4) 4 = be_bytes 4 s' → chain m P (next_level lv) s' e bs →
      chain m P lv s e (span m s (level_size lv - 4) ++ bs).

Lemma chain_eq m P lv s e bs bs' : chain m P lv s e bs' → bs = bs' → chain m P lv s e bs.
Proof. by intros ? ->. Qed.

Lemma slice_in_weaken (P Q : Z → Prop) lv s : (∀ a, P a → Q a) → slice_in P lv s → slice_in Q lv s.
Proof. intros H (? & ? & ? & HP). split_and!; try done; try lia. auto. Qed.

Lemma slices_frame m m' (P Q : Z → Prop) lv s e bs : (∀ a, P a → m' a = m a) → (∀ a, P a → Q a) → chain m P lv s e bs → chain m' Q lv s e bs.
Proof.
  intros Hm HQ. induction 1 as [lv s e Hs He Hz Hk|lv s s' e bs Hs Hs' He Hf Hc IH]; pose proof Hs as (Hlv & H0 & Hb & HP);
    destruct (level_facts lv Hlv) as (Hsz & _).
  - eapply chain_eq; [apply chain_last|].
    + by apply (slice_in_weaken P).
    + done.
    + intros a Ha. rewrite Hm by (apply HP; lia). by apply Hz.
    + by rewrite Hm by (apply HP; lia).
    + symmetry. apply span_ext. intros k Hk'. apply Hm, HP. lia.
  - rewrite <- (span_ext m m') by (intros k Hk; apply Hm, HP; lia). apply (chain_link m' Q lv s s'); try done; [by apply (slice_in_weaken P)|].
    rewrite <- Hf. apply span_ext. intros k Hk. apply Hm, HP. lia.
Qed.

(** The last slice. *)
Lemma chain_end m P lv s e bs : chain m P lv s e bs →
  ∃ llv ls, slice_in P llv ls ∧ s ≤ ls ∧ ls ≤ e < ls + level_size llv ∧ 0 ≤ s ∧
    (m e = 0 ∧ e < ls + level_size llv - 1 ∨ m e = Z.lor 16 llv ∧ e = ls + level_size llv - 1).
Proof.
  induction 1 as [lv s e Hs He Hz Hk|lv s s' e bs Hs Hs' He Hf Hc IH]; pose proof Hs as (Hlv & H0 & Hb & HP).
  - exists lv, s. split_and!; try done; try lia. destruct (decide (e = s + level_size lv - 1)) as [->|]; [by right|]. left. split; [apply Hz; lia|lia].
  - destruct IH as (llv & ls & ? & ? & ? & ? & ?). destruct (level_facts lv Hlv) as (Hsz & _). exists llv, ls. split_and!; try done; lia.
Qed.

Lemma chain_nonempty m P lv s e bs : chain m P lv s e bs → s + 3 ≤ e → bs ≠ [].
Proof.
  intros Hc He E. apply (f_equal vlen) in E. destruct Hc as [lv s e Hs Hse _ _|lv s s' e bs Hs _ _ _ _].
  - rewrite vlen_nil, vlen_span in E by lia. lia.
  - destruct Hs as (Hlv & _). destruct (level_facts lv Hlv) as (Hsz & _). rewrite vlen_app, vlen_nil, vlen_span in E by lia. pose proof (vlen_nonneg bs). lia.
Qed.

Lemma chain_short m P lv s e bs : chain m P lv s e bs → e ≤ s + level_size lv → slice_in P lv s ∧ s ≤ e < s + level_size lv.
Proof. intros Hc He. destruct Hc; [done|lia]. Qed.

(** Writing at the end of a slice that has room. *)
Lemma chain_put m m' P lv s e bs b : (∀ a, 0 ≤ a → m' a = if a =? e then b else m a) → m e = 0 →
  chain m P lv s e bs → chain m' P lv s (e + 1) (bs ++ [b]).
Proof.
  intros Hm He0. induction 1 as [lv s e Hs He Hz Hk|lv s s' e bs Hs Hs' He Hf Hc IH]; pose proof Hs as (Hlv & H0 & Hb & HP);
    destruct (level_facts lv Hlv) as (Hsz & _ & _ & _ & Hne & _).
  - assert (e ≠ s + level_size lv - 1) as Hlt by (intros ->; congruence). eapply chain_eq; [apply chain_last|]; try done; try lia.
    + intros a Ha. rewrite Hm by lia. rewrite (proj2 (Z.eqb_neq _ _)) by lia. apply Hz. lia.
    + rewrite Hm by lia. by rewrite (proj2 (Z.eqb_neq _ _)) by lia.
    + replace (e + 1 - s) with (e - s + 1) by lia. rewrite span_app by lia. f_equal.
      * apply span_ext. intros k Hk'. rewrite Hm by lia. by rewrite (proj2 (Z.eqb_neq _ _)) by lia.
      * rewrite span_one. replace (s + (e - s)) with e by lia. rewrite Hm by lia. by rewrite Z.eqb_refl.
  - assert (∀ a, s ≤ a < s + level_size lv → m' a = m a) as Hold.
    { intros a Ha. rewrite Hm by lia. by rewrite (proj2 (Z.eqb_neq _ _)) by lia. }
    rewrite <- app_assoc, <- (span_ext m m') by (intros k Hk; apply Hold; lia). apply (chain_link m' P lv s s'); try done; try lia.
    + rewrite <- Hf. apply span_ext. intros k Hk. apply Hold. lia.
    + by apply IH.
Qed.

(** The last slice is full: its last three bytes move to a new slice at [n], whose
    position takes their place. *)
Lemma chain_grow m m' (P Q : Z → Prop) lv s e bs n : chain m P lv s e bs → m e ≠ 0 →
  let nlv := next_level (Z.land (m e) 15) in
  (∀ a, P a → Q a) → slice_in Q nlv n → e < n < 2 ^ 31 →
  (∀ a, P a → a < e - 3 → m' a = m a) → span m' (e - 3) 4 = be_bytes 4 n → span m' n 3 = span m (e - 3) 3 →
  (∀ a, n + 3 ≤ a < n + level_size nlv - 1 → m' a = 0) → m' (n + level_size nlv - 1) = Z.lor 16 nlv →
  chain m' Q lv s (n + 3) bs.
Proof.
  intros Hc Hne nlv HQ Hn Hen Hold Hfw Hcp Hz Hmk. induction Hc as [lv s e Hs He Hz' Hk|lv s s' e bs Hs Hs' He Hf Hc IH];
    pose proof Hs as (Hlv & H0 & Hb & HP); destruct (level_facts lv Hlv) as (Hsz & _ & _ & _ & _ & Hland & _).
  - assert (e = s + level_size lv - 1) as Ee by (destruct (decide (e = s + level_size lv - 1)); [done|]; destruct Hne; apply Hz'; lia).
    assert (nlv = next_level lv) as En by (unfold nlv; rewrite Ee, Hk, Hland; done).
    pose proof Hn as (Hnlv & _). destruct (level_facts nlv Hnlv) as (Hnsz & _).
    replace (e - s) with (level_size lv - 4 + 3) by lia. rewrite span_app by lia. replace (s + (level_size lv - 4)) with (e - 3) by lia.
    rewrite <- Hcp, <- (span_ext m m') by (intros k Hk'; apply Hold; [apply HP|]; lia).
    apply (chain_link m' Q lv s n); [by apply (slice_in_weaken P)|lia..| |].
    + rewrite <- Hfw. f_equal. lia.
    + rewrite <- En. eapply chain_eq; [apply chain_last|]; try done; try lia. f_equal. lia.
  - rewrite <- (span_ext m m') by (intros k Hk; apply Hold; [apply HP|]; lia). destruct (chain_end _ _ _ _ _ _ Hc) as (? & ? & _ & ? & ? & _).
    apply (chain_link m' Q lv s s'); [by apply (slice_in_weaken P)|lia..| |by apply IH].
    rewrite <- Hf. apply span_ext. intros k Hk. apply Hold; [apply HP|]; lia.
Qed.

(** * The default methods of an input *)

Section defaults.
Context {I : Type} (rd : I → Z → result (list Z * I)) (R : I → list Z → Prop).
Hypothesis Hrd : ∀ i l n, R i l → 0 ≤ n ≤ vlen l → ∃ i', rd i n = Ok (take (Z.to_nat n) l, i') ∧ R i' (drop (Z.to_nat n) l).

Lemma default_read_byte_law i b l : R i (b :: l) → ∃ i', default_read_byte rd i = Ok (b, i') ∧ R i' l.
Proof using Hrd.
  intros HR. destruct (Hrd i (b :: l) 1 HR) as (i' & E & HR'); [pose proof (vlen_nonneg l); rewrite vlen_cons; lia|].
  exists i'. unfold default_read_byte. rewrite E. by split.
Qed.

Lemma default_read_bytes_law i l buf off n : R i l → 0 ≤ off → 0 ≤ n ≤ vlen l → off + n ≤ vlen buf →
  ∃ i', default_read_bytes rd i buf off n =
          Ok (take (Z.to_nat off) buf ++ take (Z.to_nat n) l ++ drop (Z.to_nat off + Z.to_nat n) buf, i') ∧ R i' (drop (Z.to_nat n) l).
Proof using Hrd.
  intros HR Ho Hn Hb. destruct (Hrd i l n HR Hn) as (i' & E & HR'). exists i'. split; [|done]. unfold default_read_bytes.
  rewrite (proj2 (Z.ltb_ge _ _)) by lia. rewrite E. cbn [mbind result_bind]. rewrite vlen_take, Z.eqb_refl by done. cbn [negb].
  rewrite vblit_in by (rewrite ?vlen_take by done; lia). cbn [mbind result_bind]. do 4 f_equal. rewrite length_take. unfold vlen in *. f_equal. lia.
Qed.

Lemma default_skip_bytes_law i l n : R i l → 0 ≤ n ≤ vlen l →
  ∃ i', default_skip_bytes (default_read_bytes rd) i n = Ok i' ∧ R i' (drop (Z.to_nat n) l).
Proof using Hrd.
  intros HR Hn. unfold default_skip_bytes. loop_inv (fun '(k, j) => 0 ≤ k ≤ n ∧ R j (drop (Z.to_nat k) l)) (fun '(k, _) => Z.to_nat (n - k)).
  - intros [k j] [Hk HRj] Hc%Z.ltb_lt. cbv zeta. unfold SKIP_BUFFER_SIZE.
    destruct (default_read_bytes_law j _ (replicate (Z.to_nat 1024) 0) 0 (Z.min 1024 (n - k)) HRj) as (j' & -> & HR');
      [lia|rewrite vlen_drop by lia; lia|rewrite vlen_replicate; lia|].
    cbn [mbind result_bind]. eexists. split; [done|]. split; [|lia]. split; [lia|]. rewrite drop_drop in HR'.
    by replace (Z.to_nat (k + Z.min 1024 (n - k))) with (Z.to_nat k + Z.to_nat (Z.min 1024 (n - k)))%nat by lia.
  - by split; [lia|].
  - lia.
  - destruct Hloop as ([k j] & -> & [Hk HRj] & Hc%Z.ltb_ge). cbn [mbind result_bind]. exists j. split; [done|]. by replace n with k by lia.
Qed.
End defaults.

(** * The reader of a chain *)

Section reader.
Import ByteSliceReader.

Lemma shiftr_block a : 0 ≤ a → Z.shiftr a BYTE_BLOCK_SHIFT = a / B.
Proof. intros. by rewrite Z.shiftr_div_pow2. Qed.
Lemma land_block a : Z.land a BYTE_BLOCK_MASK = a mod B.
Proof. change BYTE_BLOCK_MASK with (Z.ones 15). by rewrite Z.land_ones. Qed.

Lemma same_block s lv a : s mod B + level_size lv ≤ B → s ≤ a < s + level_size lv → a / B = s / B ∧ a mod B = a - s / B * B.
Proof.
  unfold B. intros Hb Ha. pose proof (Z.div_mod s 32768 ltac:(lia)). pose proof (Z.mod_pos_bound s 32768 ltac:(lia)).
  assert (a / 32768 = s / 32768) as E by (symmetry; apply (Z.div_unique a 32768 _ (a - s / 32768 * 32768)); lia).
  split; [done|]. rewrite Z.mod_eq, E by lia. lia.
Qed.

(** The reader has [l] left: the rest of its slice, and the rest of the chain. *)
Definition reading (r : t) (l : list Z) : Prop :=
  ∃ N P, let m := cell B (buffers (pool r)) in
    blocks B (buffers (pool r)) N ∧ (∀ a, P a → 0 ≤ a < N * B) ∧
    buffer_offset r = ByteSliceReader.buffer_upto r * B ∧ 0 ≤ ByteSliceReader.buffer_upto r < N ∧ 0 ≤ upto r ≤ limit r ∧ limit r ≤ B ∧ 0 ≤ end_index r < 2 ^ 63 ∧
    (limit r + buffer_offset r = end_index r ∧ l = span m (buffer_offset r + upto r) (limit r - upto r) ∨
     limit r + 4 ≤ B ∧ 0 ≤ level r ≤ 9 ∧ ∃ s' l', (0 ≤ s' < 2 ^ 31 ∧ buffer_offset r + limit r + 4 ≤ s') ∧ s' + 3 ≤ end_index r ∧
       span m (buffer_offset r + limit r) 4 = be_bytes 4 s' ∧ chain m P (next_level (level r)) s' (end_index r) l' ∧
       l = span m (buffer_offset r + upto r) (limit r - upto r) ++ l').

(** A reader that enters a slice. *)
Lemma enter_slice p N (P : Z → Prop) lv s e l lim : let m := cell B (buffers p) in
  blocks B (buffers p) N → (∀ a, P a → 0 ≤ a < N * B) → chain m P lv s e l → 0 ≤ e < 2 ^ 63 →
  lim = (if s + level_size lv >=? e then e - s / B * B else s mod B + level_size lv - 4) →
  reading (mk p (s / B) (s mod B) lim lv (s / B * B) e) l ∧ (s + 3 ≤ e → s mod B < lim).
Proof.
  intros m Hb HP Hc He ->. pose proof (Z.div_mod s 32768 ltac:(lia)) as Hdm. pose proof (Z.mod_pos_bound s 32768 ltac:(lia)) as Hmb.
  assert (∃ lv0, slice_in P lv0 s) as [lv0 (Hlv0 & Hs0 & _ & HP0)] by (inversion Hc; eauto).
  destruct (level_facts lv0 Hlv0) as (Hsz0 & _). pose proof (HP _ (HP0 s ltac:(lia))) as HsN.
  assert (0 ≤ s / B < N) as HN by (split; [apply Z.div_pos; unfold B; lia|apply Z.div_lt_upper_bound; unfold B in *; lia]).
  destruct Hc as [lv s e Hs Hse Hz Hk|lv s s' e bs Hs Hs' Hse Hf Hc]; pose proof Hs as (Hlv & H0 & Hfit & HP1); destruct (level_facts lv Hlv) as (Hsz & _).
  - destruct (same_block s lv e Hfit Hse) as [Hd Hm]. rewrite Z.geb_leb, (proj2 (Z.leb_le _ _)) by lia. unfold B in *. split; [|lia].
    exists N, P. cbn [pool ByteSliceReader.buffer_upto upto limit level buffer_offset end_index]. unfold B. split_and!; try done; try lia. left. split; [lia|]. f_equal; lia.
  - rewrite Z.geb_leb, (proj2 (Z.leb_gt _ _)) by lia. unfold B in *. split; [|lia].
    exists N, P. cbn [pool ByteSliceReader.buffer_upto upto limit level buffer_offset end_index]. unfold B. split_and!; try done; try lia. right. split_and!; try lia.
    exists s', bs. split_and!; try done; try lia.
    + rewrite <- Hf. f_equal. lia.
    + f_equal. f_equal; lia.
Qed.

Lemma reading_len r l : reading r l → limit r - upto r ≤ vlen l.
Proof.
  intros (N & P & _ & _ & _ & _ & Hu & _ & _ & [[_ ->]|(_ & _ & s' & l' & _ & _ & _ & _ & ->)]); rewrite ?vlen_app, vlen_span by lia; [lia|].
  pose proof (vlen_nonneg l'). lia.
Qed.

Lemma be_4 s : be_bytes 4 s = [as_u8 (Z.shiftr s 24); as_u8 (Z.shiftr s 16); as_u8 (Z.shiftr s 8); as_u8 s].
Proof. unfold be_bytes. cbn [be_digits]. by rewrite Z.shiftr_0_r. Qed.

Lemma be_4_sum s b0 b1 b2 b3 : 0 ≤ s < 2 ^ 31 → [b0; b1; b2; b3] = be_bytes 4 s → Z.shiftl b0 24 + Z.shiftl b1 16 + Z.shiftl b2 8 + b3 = s.
Proof.
  intros Hs E. assert (be_value 8 [b0; b1; b2; b3] = s) as V.
  { rewrite E. unfold be_bytes. rewrite be_value_digits by lia. apply as_u_id. unfold is_u. lia. }
  rewrite !Z.shiftl_mul_pow2 by lia. cbn in V. lia.
Qed.

Lemma span_4 m a : span m a 4 = [m a; m (a + 1); m (a + 2); m (a + 3)].
Proof. change (span m a 4) with [m (a + 0); m (a + 1); m (a + 2); m (a + 3)]. by rewrite Z.add_0_r. Qed.

Lemma drop_span m a n l : 0 ≤ n → drop (Z.to_nat n) (span m a n ++ l) = l.
Proof. intros. apply drop_app_length'. unfold span. by rewrite length_map, length_seq. Qed.

Lemma next_slice_reading r l : reading r l → limit r - upto r < vlen l →
  ∃ r', next_slice r = Ok r' ∧ reading r' (drop (Z.to_nat (limit r - upto r)) l) ∧ upto r' < limit r'.
Proof.
  intros (N & P & Hb & HP & Ho & Hu & Hl & Hlb & He & [[_ ->]|(Hroom & Hlv & s' & l' & Hs' & Hse & Hf & Hc & ->)]) Hlt.
  { rewrite vlen_span in Hlt by lia. lia. }
  rewrite drop_span by lia.
  unfold next_slice. destruct (block_of B ltac:(done) _ N _ Hb Hu) as (b & E & _ & _ & Hg & _). rewrite E. cbn [mbind result_bind]. unfold B in *.
  rewrite !Hg by lia. cbn [mbind result_bind]. rewrite span_4 in Hf. rewrite <- Ho, !Z.add_assoc, (be_4_sum s' _ _ _ _ ltac:(lia) Hf).
  destruct (level_facts _ Hlv) as (_ & Hnl & -> & _). cbn [mbind result_bind]. destruct (level_facts _ Hnl) as (Hsz & _ & _ & -> & _). cbn [mbind result_bind].
  eexists. split; [done|]. rewrite land_block. unfold B.
  destruct (enter_slice (pool r) N P (next_level (level r)) s' (end_index r) l' _ Hb HP Hc He eq_refl) as [Hr Hlt'].
  assert ((if s' + level_size (next_level (level r)) >=? end_index r then as_u64 (end_index r - s' / 32768 * 32768) else s' mod 32768 + level_size (next_level (level r)) - 4)
    = (if s' + level_size (next_level (level r)) >=? end_index r then end_index r - s' / 32768 * 32768 else s' mod 32768 + level_size (next_level (level r)) - 4)) as ->.
  { destruct (_ >=? _); [|done]. apply as_u_id. unfold is_u. pose proof (Z.div_mod s' 32768 ltac:(lia)). pose proof (Z.mod_pos_bound s' 32768 ltac:(lia)).
    pose proof (Z.div_pos s' 32768). lia. }
  split; [exact Hr|]. cbn. by apply Hlt'.
Qed.

Lemma span_cut m a n k l : 0 ≤ k ≤ n → take (Z.to_nat k) (span m a n ++ l) = span m a k ∧ drop (Z.to_nat k) (span m a n ++ l) = span m (a + k) (n - k) ++ l.
Proof.
  intros Hk. replace n with (k + (n - k)) at 1 2 by lia. rewrite span_app, <- app_assoc by lia. split; [|apply drop_span; lia].
  apply take_app_length'. unfold span. by rewrite length_map, length_seq.
Qed.

Lemma reading_advance r l n : reading r l → 0 ≤ n ≤ limit r - upto r →
  ∃ b, vget (buffers (pool r)) (ByteSliceReader.buffer_upto r) = Ok b ∧ vslice b (upto r) (upto r + n) = Ok (take (Z.to_nat n) l) ∧
    reading (advanced r n) (drop (Z.to_nat n) l).
Proof.
  intros (N & P & Hb & HP & Ho & Hu & Hl & Hlb & He & Hrest) Hn. destruct (block_of B ltac:(done) _ N _ Hb Hu) as (b & E & _ & _ & _ & Hsl).
  exists b. split; [done|]. rewrite Hsl by lia. rewrite <- Ho. replace (upto r + n - upto r) with n by lia.
  set (m := cell B (buffers (pool r))) in *. pose proof (span_cut m (buffer_offset r + upto r) (limit r - upto r) n) as Hcut.
  assert (∀ l', span m (buffer_offset r + upto r + n) (limit r - upto r - n) ++ l' = span m (buffer_offset r + (upto r + n)) (limit r - (upto r + n)) ++ l') as Hsh
    by (intros l'; f_equal; f_equal; lia).
  destruct Hrest as [[Hend ->]|(Hroom & Hlv & s' & l' & Hs' & Hse & Hf & Hc & ->)].
  - destruct (Hcut [] Hn) as [Ht Hd]. rewrite Hsh, !app_nil_r in *. rewrite Ht, Hd. split; [done|]. exists N, P.
    cbn [advanced pool ByteSliceReader.buffer_upto upto limit level buffer_offset end_index]. split_and!; try done; try lia. by left.
  - destruct (Hcut l' Hn) as [Ht Hd]. rewrite Hsh in Hd. rewrite Ht, Hd. split; [done|]. exists N, P.
    cbn [advanced pool ByteSliceReader.buffer_upto upto limit level buffer_offset end_index]. split_and!; try done; try lia. right. split_and!; try done; try lia.
    exists s', l'. split_and!; done || lia.
Qed.

Lemma read_loop_spec fuel : ∀ r l n, reading r l → 0 ≤ n ≤ vlen l → (Z.to_nat n + (if (limit r =? upto r)%Z then 1 else 0) ≤ fuel)%nat →
  ∃ r', read_loop fuel r n = Ok (take (Z.to_nat n) l, r') ∧ reading r' (drop (Z.to_nat n) l).
Proof.
  induction fuel as [|fuel IH]; intros r l n Hr Hn Hfuel; cbn [read_loop]; destruct (Z.leb_spec n 0) as [Hz|Hz];
    [by replace n with 0 by lia; exists r|lia|by replace n with 0 by lia; exists r|].
  pose proof Hr as (_ & _ & _ & _ & _ & _ & Hu & Hlb & _). rewrite as_u_id by (unfold is_u, B in *; lia). destruct (Z.ltb_spec (limit r - upto r) n) as [Hlt|Hge].
  - destruct (reading_advance r l (limit r - upto r) Hr) as (b & -> & Hs & _); [lia|]. cbn [mbind result_bind]. rewrite Hs. cbn [mbind result_bind].
    destruct (next_slice_reading r l Hr) as (r1 & -> & Hr1 & Hlt1); [lia|]. cbn [mbind result_bind].
    destruct (IH r1 _ (n - (limit r - upto r)) Hr1) as (r2 & -> & Hr2).
    { rewrite vlen_drop by lia. lia. }
    { rewrite (proj2 (Z.eqb_neq _ _)) by lia. destruct (Z.eqb_spec (limit r) (upto r)); lia. }
    cbn [mbind result_bind]. exists r2. replace (Z.to_nat n) with (Z.to_nat (limit r - upto r) + Z.to_nat (n - (limit r - upto r)))%nat by lia.
    rewrite <- take_take_drop, <- drop_drop. done.
  - destruct (reading_advance r l n Hr) as (b & -> & Hs & Hr'); [lia|]. cbn [mbind result_bind]. rewrite Hs. by exists (advanced r n).
Qed.

Lemma read_impl_law r l n : reading r l → 0 ≤ n ≤ vlen l → ∃ r', read_impl r n = Ok (take (Z.to_nat n) l, r') ∧ reading r' (drop (Z.to_nat n) l).
Proof. intros Hr Hn. apply read_loop_spec; [done..|]. destruct (_ =? _); lia. Qed.

#[global, refine] Instance reader_lawful : LawfulInput t := {| remains := reading |}.
Proof.
  - apply read_impl_law.
  - apply (default_read_byte_law read_impl reading read_impl_law).
  - apply (default_read_bytes_law read_impl reading read_impl_law).
  - apply (default_skip_bytes_law read_impl reading read_impl_law).
Defined.

(** A reader is at the end of its stream when nothing is left. *)
Lemma reading_eof r : reading r [] → eof r = true.
Proof.
  intros (N & P & Hb & HP & Ho & Hu & Hl & Hlb & He & [[Hend E]|(Hroom & Hlv & s' & l' & Hs' & Hse & Hf & Hc & E)]).
  - pose proof (f_equal vlen E) as El. rewrite vlen_nil, vlen_span in El by lia. apply Z.eqb_eq. lia.
  - symmetry in E. apply app_nil in E as [_ ->]. by destruct (chain_nonempty _ _ _ _ _ _ Hc Hse).
Qed.

Lemma reading_more r l : reading r l → l ≠ [] → eof r = false.
Proof.
  intros (N & P & Hb & HP & Ho & Hu & Hl & Hlb & He & [[Hend ->]|(Hroom & Hlv & s' & l' & Hs' & Hse & Hf & Hc & E)]) Hne; apply Z.eqb_neq; [|lia].
  intros E. apply Hne. replace (limit r - upto r) with 0 by lia. done.
Qed.

Lemma init_reading p N (P : Z → Prop) s e l : blocks B (buffers p) N → (∀ a, P a → 0 ≤ a < N * B) → 0 ≤ e < 2 ^ 63 →
  chain (cell B (buffers p)) P 0 s e l → reading (init p s e) l.
Proof.
  intros Hb HP He Hc. unfold init. rewrite !land_block. apply (enter_slice p N P 0 s e l _ Hb HP Hc He). change (level_size 0) with 5. unfold FIRST_LEVEL_SIZE.
  destruct (s + 5 >=? e) eqn:E; [|done]. rewrite Z.geb_leb in E. apply Z.leb_le in E.
  destruct (chain_short _ _ _ _ _ _ Hc E) as [(_ & _ & Hfit & _) Hse]. by destruct (same_block s 0 e Hfit Hse) as [_ ->].
Qed.
End reader.
