(* ===== verification/PoolFacts.v ===== *)
(** The pools: the operations of ByteBlockPool and IntBlockPool as changes of one memory.

    [pool_wf] is the shape every operation keeps: blocks of the right size up to the
    current one, and zeros from the head on. *)

From S2P Require Import Prelude DataIO DataIOFacts PackedBulkFacts PackedArrayFacts BytePool BytePoolFacts.
Open Scope Z_scope.
#[local] Abbreviation B := ByteBlockPool.BYTE_BLOCK_SIZE.
#[local] Abbreviation IW := IntBlockPool.INT_BLOCK_SIZE.

(** * The byte pool

    [T] bounds the bytes handed out.  At most 10000 bytes of a block are left unused, so
    that it bounds the number of blocks too. *)

Section byte_pool.
Import ByteBlockPool.

Definition head (p : t) : Z := byte_offset p + byte_upto p.
Definition mem (p : t) : Z → Z := cell B (buffers p).

Record pool_wf (p : t) (T : Z) : Prop := {
  wf_upto : -1 ≤ buffer_upto p;
  wf_blocks : blocks B (buffers p) (buffer_upto p + 1);
  wf_offset : byte_offset p = buffer_upto p * B;
  wf_byte : 0 ≤ byte_upto p ≤ B;
  wf_start : buffer_upto p = -1 → byte_upto p = B;
  wf_fresh : ∀ a, head p ≤ a < (buffer_upto p + 1) * B → mem p a = 0;
  wf_alloc : block_size (allocator p) = B;
  wf_count : buffer_upto p * 22768 + byte_upto p ≤ 10000 + T;
}.

Lemma pool_new_wf a : block_size a = B → pool_wf (new a) 0.
Proof.
  intros Ha. split; cbn [new buffers buffer_upto byte_upto byte_offset allocator]; unfold B in *; try done; try lia.
  - split; [by unfold vlen|]. intros k b Hk. lia.
  - unfold head. cbn. lia.
Qed.

(** [next_buffer] is only called when less than 10000 bytes are left. *)
Lemma next_buffer_spec p T : pool_wf p T → B - byte_upto p < 10000 →
  ∃ p', next_buffer p = Ok p' ∧ pool_wf p' T ∧ byte_upto p' = 0 ∧ 0 ≤ buffer_upto p' ∧ head p ≤ head p' ∧ (∀ a, 0 ≤ a < head p → mem p' a = mem p a).
Proof.
  intros [H1 H2 H3 H4 H5 H6 H7 H8] Hlow. unfold next_buffer, byte_block. rewrite H7.
  destruct (push_block B ltac:(done) (buffers p) (buffer_upto p + 1) H2) as (bs & -> & Hb & Hold & Hz); [lia|]. cbn [mbind result_bind].
  eexists. split; [done|]. unfold head, mem in *. cbn [buffers buffer_upto byte_upto byte_offset allocator]. unfold B in *. split_and!; try lia.
  - split; unfold head, mem; cbn [buffers buffer_upto byte_upto byte_offset allocator]; unfold B; try done; try lia. intros a Ha. apply Hz. lia.
  - intros a Ha. apply Hold. lia.
Qed.

Lemma make_room_spec p T size : pool_wf p T → 1 ≤ size ≤ 10000 →
  ∃ p', make_room p size = Ok p' ∧ pool_wf p' T ∧ byte_upto p' + size ≤ B ∧ 0 ≤ buffer_upto p' ∧ head p ≤ head p' ∧
    (∀ a, 0 ≤ a < head p → mem p' a = mem p a) ∧ (size ≤ B - byte_upto p → p' = p).
Proof.
  intros Hwf Hs. unfold make_room. rewrite as_u_id by (unfold is_u, B; lia). rewrite Z.gtb_ltb. destruct (Z.ltb_spec (B - size) (byte_upto p)).
  - destruct (next_buffer_spec p T Hwf) as (p' & -> & Hwf' & Hu & Hb & Hh & Hm); [lia|]. exists p'. unfold B in *. split_and!; try done; lia.
  - exists p. pose proof (wf_upto p T Hwf). pose proof (wf_start p T Hwf). split_and!; try done; lia.
Qed.

Lemma make_room_upto p size p' : make_room p size = Ok p' → buffer_upto p ≤ buffer_upto p' ≤ buffer_upto p + 1.
Proof.
  unfold make_room, next_buffer. destruct (_ >? _); [|intros [= <-]; lia]. destruct (if _ =? _ then _ else _); try done. intros [= <-]. cbn. lia.
Qed.

Lemma bump_wf p T size : pool_wf p T → 0 ≤ size → byte_upto p + size ≤ B → 0 ≤ buffer_upto p → pool_wf (with_byte_upto (byte_upto p + size) p) (T + size).
Proof.
  intros [H1 H2 H3 H4 H5 H6 H7 H8] Hs Hb H0. split; unfold head, mem in *; cbn [with_byte_upto buffers buffer_upto byte_upto byte_offset allocator]; try done; try lia.
  intros a Ha. apply H6. lia.
Qed.

Lemma put_spec p T i j v : pool_wf p T → 0 ≤ i ≤ buffer_upto p → 0 ≤ j < B → i * B + j < head p →
  ∃ bs, put p i j v = Ok (with_buffers bs p) ∧ pool_wf (with_buffers bs p) T ∧
    ∀ a, 0 ≤ a → mem (with_buffers bs p) a = if a =? i * B + j then v else mem p a.
Proof.
  intros [H1 H2 H3 H4 H5 H6 H7 H8] Hi Hj Hlt. unfold put. destruct (put2_cell B ltac:(done) (buffers p) _ i j v H2) as (bs & -> & Hb & _ & Hc); [lia|done|].
  cbn [mbind result_bind]. exists bs. split; [done|]. split; [|done]. unfold mem, head in *.
  split; unfold head, mem; cbn [with_buffers buffers buffer_upto byte_upto byte_offset allocator]; try done; try lia.
  intros a Ha. rewrite Hc by (unfold B in *; lia). rewrite (proj2 (Z.eqb_neq _ _)) by lia. by apply H6.
Qed.

Lemma get2_mem p T i j : pool_wf p T → 0 ≤ i ≤ buffer_upto p → 0 ≤ j < B → get2 (buffers p) i j = Ok (mem p (i * B + j)).
Proof. intros Hwf Hi Hj. apply (get2_cell B ltac:(done) _ (buffer_upto p + 1)); [apply (wf_blocks p T Hwf)|lia|done]. Qed.

(** A first slice. *)
Lemma new_slice_spec p T : pool_wf p T →
  ∃ n p', new_slice p 5 = Ok (n - byte_offset p', p') ∧ pool_wf p' (T + 5) ∧ head p ≤ n ∧ n + 5 = head p' ∧ n mod B + 5 ≤ B ∧
    0 ≤ byte_offset p' ∧ (5 ≤ B - byte_upto p → n = head p ∧ byte_upto p' = byte_upto p + 5) ∧
    (∀ a, 0 ≤ a < head p → mem p' a = mem p a) ∧ (∀ a, n ≤ a < n + 4 → mem p' a = 0) ∧ mem p' (n + 4) = 16.
Proof.
  intros Hwf. unfold new_slice. destruct (make_room_spec p T 5 Hwf) as (p1 & -> & Hwf1 & Hroom & Hb & Hh & Hm & Hsame); [lia|]. cbn [mbind result_bind].
  pose proof (bump_wf p1 T 5 Hwf1 ltac:(lia) Hroom Hb) as Hwf2. pose proof (wf_offset p1 T Hwf1) as Ho. pose proof (wf_byte p1 T Hwf1) as Hby.
  set (p2 := with_byte_upto _ _) in *. destruct (put_spec p2 (T + 5) (buffer_upto p2) (byte_upto p2 - 1) 16 Hwf2) as (bs & -> & Hwf3 & Hc);
    try (unfold p2, head; cbn; unfold B in *; lia). cbn [mbind result_bind]. exists (head p1), (with_buffers bs p2).
  assert (∀ a, mem p2 a = mem p1 a) as H21 by done. split; [do 3 f_equal; unfold head, p2; cbn; lia|]. split; [done|]. unfold head in *. cbn in *.
  assert ((byte_offset p1 + byte_upto p1) mod B = byte_upto p1) as -> by (rewrite Ho; apply mod_at; [done|]; unfold B in *; lia). unfold B in *.
  pose proof (wf_fresh p1 T Hwf1) as Hf. unfold head, B in Hf. split_and!; try lia.
  - intros Hr. rewrite (Hsame ltac:(lia)). lia.
  - intros a Ha. rewrite Hc by lia. rewrite (proj2 (Z.eqb_neq _ _)) by lia. rewrite H21. apply Hm. lia.
  - intros a Ha. rewrite Hc by lia. rewrite (proj2 (Z.eqb_neq _ _)) by lia. rewrite H21. apply Hf. lia.
  - rewrite Hc by lia. by rewrite (proj2 (Z.eqb_eq _ _)) by lia.
Qed.

Lemma span_3 m a : span m a 3 = [m a; m (a + 1); m (a + 2)].
Proof. change (span m a 3) with [m (a + 0); m (a + 1); m (a + 2)]. by rewrite Z.add_0_r. Qed.

(** A pool known up to its memory; the positions do not change while bytes are stored. *)
Definition upd (m : Z → Z) (a v : Z) : Z → Z := fun x => if x =? a then v else m x.
Record shape (p : t) (T bu u off : Z) (m : Z → Z) : Prop := {
  sh_wf : pool_wf p T;
  sh_bu : buffer_upto p = bu;
  sh_u : byte_upto p = u;
  sh_off : byte_offset p = off;
  sh_mem : ∀ a, 0 ≤ a → mem p a = m a;
}.

Lemma put_shape p T bu u off m i j v : shape p T bu u off m → 0 ≤ i ≤ bu → 0 ≤ j < B → i * B + j < off + u →
  ∃ p', put p i j v = Ok p' ∧ shape p' T bu u off (upd m (i * B + j) v).
Proof.
  intros [Hwf <- <- <- Hm] Hi Hj Hlt. destruct (put_spec p T i j v Hwf Hi Hj Hlt) as (bs & E & Hwf' & Hc). eexists. split; [done|]. split; try done.
  intros a Ha. rewrite Hc by done. unfold upd. by rewrite Hm.
Qed.

Lemma get2_shape p T bu u off m i j : shape p T bu u off m → 0 ≤ i ≤ bu → 0 ≤ j < B → get2 (buffers p) i j = Ok (m (i * B + j)).
Proof. intros [Hwf <- _ _ Hm] Hi Hj. rewrite (get2_mem p T) by done. by rewrite Hm by (unfold B in *; lia). Qed.

Lemma upd_eq m a v x : x = a → upd m a v x = v.
Proof. intros ->. unfold upd. by rewrite Z.eqb_refl. Qed.
Lemma upd_ne m a v x : x ≠ a → upd m a v x = m x.
Proof. intros. unfold upd. by rewrite (proj2 (Z.eqb_neq _ _)). Qed.
Ltac upds := repeat first [rewrite upd_ne by lia|rewrite upd_eq by lia].

(** One load or store of a pool whose shape is known. *)
Ltac load_step := erewrite get2_shape by (eassumption || lia); cbn [mbind result_bind]; upds.
Ltac store_step :=
  repeat first [rewrite (sh_bu _ _ _ _ _ _ ltac:(eassumption))|rewrite (sh_u _ _ _ _ _ _ ltac:(eassumption))];
  match goal with
  | H : shape ?p ?T ?bu ?u ?off ?m |- context [put ?p ?i ?j ?v] =>
    let q := fresh "q" in let Hq := fresh "Hq" in
    destruct (put_shape p T bu u off m i j v H) as (q & -> & Hq); [lia..|]; cbn [mbind result_bind]; clear H
  end.

(** The stores of [alloc_slice]: three bytes are copied and replaced by a position. *)
Definition forwarded (m : Z → Z) (e n nlv : Z) : Z → Z :=
  let m := upd (upd (upd m n (m (e - 3))) (n + 1) (m (e - 2))) (n + 2) (m (e - 1)) in
  let m := upd (upd (upd (upd m (e - 3) (as_u8 (Z.shiftr n 24))) (e - 2) (as_u8 (Z.shiftr n 16))) (e - 1) (as_u8 (Z.shiftr n 8))) e (as_u8 n) in
  upd m (n + level_size nlv - 1) (Z.lor 16 nlv).

Lemma forwarded_facts m e n nlv : e < n → 5 ≤ level_size nlv →
  (∀ a, a < e - 3 ∨ e < a < n → forwarded m e n nlv a = m a) ∧ span (forwarded m e n nlv) (e - 3) 4 = be_bytes 4 n ∧
  span (forwarded m e n nlv) n 3 = span m (e - 3) 3 ∧ (∀ a, n + 3 ≤ a < n + level_size nlv - 1 → forwarded m e n nlv a = m a) ∧
  forwarded m e n nlv (n + level_size nlv - 1) = Z.lor 16 nlv.
Proof.
  intros He Hsz. unfold forwarded. split_and!.
  - intros a Ha. upds. done.
  - rewrite span_4, be_4. upds. done.
  - rewrite !span_3. upds. repeat f_equal; lia.
  - intros a Ha. upds. done.
  - upds. done.
Qed.

(** The stores as the source makes them. *)
Lemma store_forward p T bu u off m i j u0 nlv : let e := i * B + j in let n := off + u0 in let sz := level_size nlv in
  shape p T bu u off m → off = bu * B → u = u0 + sz → 5 ≤ sz → 0 ≤ u0 → u ≤ B → 0 ≤ i ≤ bu → 3 ≤ j < B → e < n → as_u8 (Z.lor 16 nlv) = Z.lor 16 nlv →
  ∃ p', (b ← get2 (buffers p) i (j - 3);
         p ← put p (buffer_upto p) u0 b;
         b ← get2 (buffers p) i (j - 2);
         p ← put p (buffer_upto p) (u0 + 1) b;
         b ← get2 (buffers p) i (j - 1);
         p ← put p (buffer_upto p) (u0 + 2) b;
         p ← put p i (j - 3) (as_u8 (Z.shiftr n 24));
         p ← put p i (j - 2) (as_u8 (Z.shiftr n 16));
         p ← put p i (j - 1) (as_u8 (Z.shiftr n 8));
         p ← put p i j (as_u8 n);
         p ← put p (buffer_upto p) (byte_upto p - 1) (as_u8 (Z.lor 16 nlv));
         Ok (u0 + 3, p)) = Ok (u0 + 3, p') ∧ shape p' T bu u off (forwarded m e n nlv).
Proof.
  intros e n sz Hs -> Hu Hsz Hu0 HuB Hi Hj He Hmk. assert (e - 3 = i * B + (j - 3) ∧ e - 2 = i * B + (j - 2) ∧ e - 1 = i * B + (j - 1)) as (E3 & E2 & E1) by (unfold e; lia).
  assert (n + 1 = bu * B + (u0 + 1) ∧ n + 2 = bu * B + (u0 + 2) ∧ n + sz - 1 = bu * B + (u - 1)) as (N1 & N2 & N3) by (unfold n; lia).
  unfold forwarded. fold sz. rewrite N3, E3, E2, E1, N2, N1. clearbody sz. fold e n. subst e n. clear E3 E2 E1 N1 N2 N3.
  repeat first [store_step|load_step]. eexists. split; [done|].
  match goal with H : shape _ _ _ _ _ _ |- _ => rewrite Hmk in H; exact H end.
Qed.

(** A slice of the next level for a stream whose last slice ends at [e]. *)
Lemma alloc_slice_spec p T i j lv : let e := i * B + j in let nlv := next_level lv in let sz := level_size nlv in
  pool_wf p T → 0 ≤ i ≤ buffer_upto p → 3 ≤ j < B → e < head p → 0 ≤ lv ≤ 9 → mem p e = Z.lor 16 lv → (buffer_upto p + 2) * B ≤ 2 ^ 31 →
  ∃ n p', alloc_slice p i j = Ok (n - byte_offset p' + 3, p') ∧ pool_wf p' (T + sz) ∧ head p ≤ n < 2 ^ 31 ∧ n + sz = head p' ∧ n mod B + sz ≤ B ∧
    byte_offset p' = buffer_upto p' * B ∧ 0 ≤ buffer_upto p' ∧ byte_offset p' ≤ n ∧
    (∀ a, 0 ≤ a < head p → a < e - 3 ∨ e < a → mem p' a = mem p a) ∧ span (mem p') (e - 3) 4 = be_bytes 4 n ∧ span (mem p') n 3 = span (mem p) (e - 3) 3 ∧
    (∀ a, n + 3 ≤ a < n + sz - 1 → mem p' a = 0) ∧ mem p' (n + sz - 1) = Z.lor 16 nlv.
Proof.
  intros e nlv sz Hwf Hi Hj He Hlv Hmk Hlim. unfold alloc_slice. rewrite (get2_mem p T) by (done || lia). fold e. rewrite Hmk. cbn [mbind result_bind].
  destruct (level_facts lv Hlv) as (_ & Hnlv & Hv1 & _ & _ & -> & _). rewrite Hv1. fold nlv in Hnlv |- *. cbn [mbind result_bind].
  destruct (level_facts nlv Hnlv) as (Hsz & _ & _ & -> & _ & _ & Hmk'). fold sz in Hsz |- *. cbn [mbind result_bind].
  destruct (make_room_spec p T sz Hwf) as (p1 & E1 & Hwf1 & Hroom & Hb & Hh & Hm & _); [lia|]. rewrite E1. cbn [mbind result_bind].
  pose proof (bump_wf p1 T sz Hwf1 ltac:(lia) Hroom Hb) as Hwf2. pose proof (wf_offset p1 T Hwf1) as Ho. pose proof (wf_byte p1 T Hwf1) as Hby.
  pose proof (wf_fresh p1 T Hwf1) as Hf. pose proof (make_room_upto p sz p1 E1) as Hbu.
  assert (as_u64 (byte_upto p1 + byte_offset p1) = byte_offset p1 + byte_upto p1) as -> by (rewrite as_u_id; [lia|]; unfold is_u, B in *; lia).
  assert (head p1 mod B = byte_upto p1) as Hmod by (unfold head; rewrite Ho; apply mod_at; [done|]; unfold B in *; lia).
  set (p2 := with_byte_upto (byte_upto p1 + sz) p1) in *. set (n := head p1) in *.
  destruct (store_forward p2 (T + sz) (buffer_upto p1) (byte_upto p1 + sz) (byte_offset p1) (mem p1) i j (byte_upto p1) nlv) as (p' & -> & [Hwf' Ebu Eu Eo Em']);
    try done; try lia; [unfold n, e, head in *; lia|]. fold e n in Em'. change (byte_offset p1 + byte_upto p1) with n in Em'.
  destruct (forwarded_facts (mem p1) e n nlv) as (F1 & F2 & F3 & F4 & F5); [lia|lia|]. fold sz in F4, F5.
  assert (0 ≤ e - 3) by (unfold e, B in *; lia).
  exists n, p'. split; [do 3 f_equal; rewrite Eo; unfold n, head; lia|]. split; [done|]. rewrite Hmod. unfold B in *.
  assert (head p' = n + sz) as -> by (unfold head; rewrite Eo, Eu; unfold n, head; lia). rewrite Ebu, Eo. split_and!; try done; try (unfold n, head in *; lia).
  - intros a Ha Hae. rewrite Em' by lia. rewrite F1 by lia. by apply Hm.
  - rewrite <- F2. apply span_ext. intros k Hk. apply Em'. lia.
  - rewrite (span_ext (forwarded (mem p1) e n nlv)) by (intros k Hk; apply Em'; lia). rewrite F3. apply span_ext. intros k Hk. apply Hm. lia.
  - intros a Ha. rewrite Em' by lia. rewrite F4 by lia. apply Hf. unfold n, head in *. lia.
  - rewrite Em' by lia. done.
Qed.
End byte_pool.

Lemma pool_wf_mono p T T' : pool_wf p T → T ≤ T' → pool_wf p T'.
Proof. intros [] ?. split; try done. lia. Qed.

Lemma head_nonneg p T : pool_wf p T → 0 ≤ head p.
Proof. intros []. unfold head, B in *. lia. Qed.

(** * The int pool *)

Section int_pool.
Import IntBlockPool.

Definition ihead (p : t) : Z := int_offset p + int_upto p.
Definition imem (p : t) : Z → Z := cell IW (buffers p).

Record ints_wf (p : t) (T : Z) : Prop := {
  iwf_upto : -1 ≤ buffer_upto p;
  iwf_blocks : blocks IW (buffers p) (buffer_upto p + 1);
  iwf_offset : int_offset p = buffer_upto p * IW;
  iwf_int : 0 ≤ int_upto p ≤ IW;
  iwf_start : buffer_upto p = -1 → int_upto p = IW;
  iwf_alloc : block_size (allocator p) = IW;
  iwf_count : buffer_upto p * 6192 + int_upto p ≤ 2000 + T;
}.

Lemma ints_wf_mono p T T' : ints_wf p T → T ≤ T' → ints_wf p T'.
Proof. intros [] ?. split; try done. lia. Qed.

Lemma ints_new_wf a : block_size a = IW → ints_wf (new a) 0.
Proof.
  intros Ha. split; cbn [new buffers buffer_upto int_upto int_offset allocator]; unfold IW in *; try done; try lia.
  split; [by unfold vlen|]. intros k b Hk. lia.
Qed.

Lemma ints_next_buffer p T : ints_wf p T → IW - int_upto p < 2000 →
  ∃ p', next_buffer p = Ok p' ∧ ints_wf p' T ∧ int_upto p' = 0 ∧ 0 ≤ buffer_upto p' ∧ ihead p ≤ ihead p' ∧ (∀ a, 0 ≤ a < ihead p → imem p' a = imem p a).
Proof.
  intros [H1 H2 H3 H4 H5 H7 H8] Hlow. unfold next_buffer, int_block. rewrite H7.
  destruct (push_block IW ltac:(done) (buffers p) (buffer_upto p + 1) H2) as (bs & -> & Hb & Hold & Hz); [lia|]. cbn [mbind result_bind].
  eexists. split; [done|]. unfold ihead, imem in *. cbn [buffers buffer_upto int_upto int_offset allocator]. unfold IW in *. split_and!; try lia.
  - split; cbn [buffers buffer_upto int_upto int_offset allocator]; unfold IW; try done; try lia.
  - intros a Ha. apply Hold. lia.
Qed.

Lemma ints_put p T i j v : ints_wf p T → 0 ≤ i ≤ buffer_upto p → 0 ≤ j < IW →
  ∃ bs, put p i j v = Ok (with_buffers bs p) ∧ ints_wf (with_buffers bs p) T ∧
    ∀ a, 0 ≤ a → imem (with_buffers bs p) a = if a =? i * IW + j then v else imem p a.
Proof.
  intros [H1 H2 H3 H4 H5 H7 H8] Hi Hj. unfold put. destruct (put2_cell IW ltac:(done) (buffers p) _ i j v H2) as (bs & -> & Hb & _ & Hc); [lia|done|].
  cbn [mbind result_bind]. exists bs. split; [done|]. split; [|done]. by split.
Qed.

Lemma get2_imem p T i j : ints_wf p T → 0 ≤ i ≤ buffer_upto p → 0 ≤ j < IW → get2 (buffers p) i j = Ok (imem p (i * IW + j)).
Proof. intros Hwf Hi Hj. apply (get2_cell IW ltac:(done) _ (buffer_upto p + 1)); [apply (iwf_blocks p T Hwf)|lia|done]. Qed.

(** A position below the head, as a block and an offset. *)
Lemma int_position p T q : ints_wf p T → 0 ≤ q < ihead p → 0 ≤ q / IW ≤ buffer_upto p ∧ 0 ≤ q mod IW < IW ∧ q / IW * IW + q mod IW = q.
Proof.
  intros [H1 _ H3 H4 _ _ _] Hq. unfold ihead in Hq. pose proof (Z.div_mod q IW ltac:(done)). pose proof (Z.mod_pos_bound q IW ltac:(done)).
  split_and!; try lia; [apply Z.div_pos; unfold IW; lia|]. enough (q / IW < buffer_upto p + 1) by lia. apply Z.div_lt_upper_bound; unfold IW in *; lia.
Qed.
End int_pool.

Lemma byte_position p T a : pool_wf p T → 0 ≤ a < head p → 0 ≤ a / B ≤ ByteBlockPool.buffer_upto p ∧ 0 ≤ a mod B < B ∧ a / B * B + a mod B = a.
Proof.
  intros [H1 _ H3 H4 _ _ _ _] Hq. unfold head in Hq. pose proof (Z.div_mod a B ltac:(done)). pose proof (Z.mod_pos_bound a B ltac:(done)).
  split_and!; try lia; [apply Z.div_pos; unfold B; lia|]. enough (a / B < ByteBlockPool.buffer_upto p + 1) by lia. apply Z.div_lt_upper_bound; unfold B in *; lia.
Qed.

(** * Dropping the blocks *)

Lemma drop_blocks (bufs : list (list Z)) from to : 0 ≤ from ≤ to → to ≤ vlen bufs →
  ∃ bufs', for_range from to (fun i bufs => vset bufs i []) bufs = Ok bufs' ∧ vlen bufs' = vlen bufs.
Proof.
  intros Hf Ht. destruct (for_range_inv (fun _ b => vlen b = vlen bufs) (fun i bufs => vset bufs i []) from to bufs) as (b & E & Hb); [lia|done| |by exists b].
  intros j b Hj Hb. rewrite vset_in by lia. eexists. split; [done|]. by rewrite vlen_insert.
Qed.

Lemma blocks_0 W bufs : blocks W bufs 0.
Proof. split; [apply vlen_nonneg|]. intros k b Hk. lia. Qed.

(** [reset(false, false)] gives an empty pool back. *)
Lemma pool_reset_spec p T : pool_wf p T → ∃ p', ByteBlockPool.reset p false false = Ok p' ∧ pool_wf p' 0 ∧ head p' = 0.
Proof.
  intros [H1 [H2 _] H3 H4 H5 H6 H7 H8]. unfold ByteBlockPool.reset. rewrite Z.gtb_ltb. destruct (Z.ltb_spec (-1) (ByteBlockPool.buffer_upto p)) as [Hb|Hb].
  - rewrite orb_true_r. cbn [mbind result_bind negb].
    assert (∃ bs, ByteBlockPool.recycle_byte_blocks (ByteBlockPool.allocator p) (ByteBlockPool.buffers p) 0 (1 + ByteBlockPool.buffer_upto p) = Ok bs ∧
      vlen bs = vlen (ByteBlockPool.buffers p)) as (bs & -> & Hbs).
    { destruct (ByteBlockPool.allocator p) as [n|n]; [by eexists|]. apply drop_blocks; lia. }
    cbn [mbind result_bind]. destruct (drop_blocks bs 0 (1 + ByteBlockPool.buffer_upto p)) as (bs' & -> & _); [lia..|]. cbn [mbind result_bind]. eexists. split; [done|]. split; [|done].
    split; unfold head; cbn; unfold B in *; try done; try lia. apply blocks_0.
  - exists p. split; [done|]. assert (ByteBlockPool.buffer_upto p = -1) as E by lia. specialize (H5 E). split; [|unfold head; rewrite H3, E, H5; done].
    split; unfold B in *; try done; try lia. rewrite E. apply blocks_0.
Qed.

Lemma ints_reset_spec p T : ints_wf p T → ∃ p', IntBlockPool.reset p false false = Ok p' ∧ ints_wf p' 0 ∧ ihead p' = 0.
Proof.
  intros [H1 [H2 _] H3 H4 H5 H7 H8]. unfold IntBlockPool.reset. rewrite Z.gtb_ltb. destruct (Z.ltb_spec (-1) (IntBlockPool.buffer_upto p)) as [Hb|Hb].
  - rewrite orb_true_r. cbn [mbind result_bind negb]. unfold IntBlockPool.recycle_int_blocks.
    destruct (drop_blocks (IntBlockPool.buffers p) 0 (1 + IntBlockPool.buffer_upto p)) as (bs' & -> & _); [lia..|]. cbn [mbind result_bind]. eexists. split; [done|]. split; [|done].
    split; cbn; unfold IW in *; try done; try lia. apply blocks_0.
  - exists p. split; [done|]. assert (IntBlockPool.buffer_upto p = -1) as E by lia. specialize (H5 E). split; [|unfold ihead; rewrite H3, E, H5; done].
    split; unfold IW in *; try done; try lia. rewrite E. apply blocks_0.
Qed.

(** * Values of any length *)

Section values.
Import ByteBlockPool.

Lemma copy_to_current_spec p T from src : pool_wf p T → 0 ≤ buffer_upto p → 0 ≤ from → from + vlen src ≤ B →
  let a0 := byte_offset p + from in
  ∃ bs, copy_to_current p from (from + vlen src) src = Ok (with_buffers bs p) ∧ blocks B bs (buffer_upto p + 1) ∧
    ∀ a, 0 ≤ a → cell B bs a = if decide (a0 ≤ a < a0 + vlen src) then nthz src (a - a0) else mem p a.
Proof.
  intros Hwf Hb Hf Hl a0. pose proof (wf_blocks p T Hwf) as [HN Hbk]. pose proof (wf_offset p T Hwf) as Ho.
  destruct (block_of B ltac:(done) _ _ (buffer_upto p) (wf_blocks p T Hwf) ltac:(lia)) as (b & E & Hlk & Hw & _). unfold copy_to_current, copy_from_slice. rewrite E. cbn [mbind result_bind].
  replace (vlen src =? from + vlen src - from) with true by (symmetry; apply Z.eqb_eq; lia). rewrite vblit_in by lia. cbn [mbind result_bind]. rewrite vset_in by lia. cbn [mbind result_bind].
  set (b' := take _ b ++ src ++ _). pose proof (vlen_nonneg src).
  assert (∀ j, 0 ≤ j → nthz b' j = if decide (from ≤ j < from + vlen src) then nthz src (j - from) else nthz b j) as Hn.
  { intros j Hj. unfold b'. rewrite !nthz_app, vlen_take by lia. destruct (Z.ltb_spec j from).
    - rewrite decide_False by lia. by rewrite nthz_take by lia.
    - rewrite nthz_app by lia. destruct (Z.ltb_spec (j - from) (vlen src)); [by rewrite decide_True by lia|]. rewrite decide_False by lia.
      replace (Z.to_nat from + length src)%nat with (Z.to_nat (from + vlen src)) by (unfold vlen; lia). rewrite nthz_drop by lia. f_equal. lia. }
  eexists. split; [done|]. split.
  - split; [by rewrite vlen_insert|]. intros k c Hk Hc. destruct (decide (k = buffer_upto p)) as [->|].
    + rewrite list_lookup_insert_eq in Hc by (unfold vlen in *; lia). injection Hc as <-. unfold b'. rewrite !vlen_app, vlen_take by lia. unfold vlen in *. rewrite length_drop. lia.
    + rewrite list_lookup_insert_ne in Hc by lia. by apply (Hbk k).
  - intros a Ha. unfold mem, cell. pose proof (Z.div_mod a B ltac:(done)) as Hdm. pose proof (Z.mod_pos_bound a B ltac:(done)). pose proof (Z.div_pos a B Ha ltac:(done)).
    destruct (decide (a / B = buffer_upto p)) as [Hd|Hd].
    + rewrite Hd, list_lookup_insert_eq, Hlk, Hn by (unfold vlen in *; lia). unfold a0. rewrite Ho. unfold B in *. repeat case_decide; try lia; try done. f_equal. lia.
    + rewrite list_lookup_insert_ne by lia. rewrite decide_False; [done|]. intros Hin. destruct Hd. symmetry. apply (Z.div_unique a B _ (a - byte_offset p)); unfold a0, B in *; lia.
Qed.

(** The bytes that fit are copied behind the head. *)
Lemma append_fits p T bytes fuel : pool_wf p T → 0 ≤ buffer_upto p → bytes ≠ [] → byte_upto p + vlen bytes ≤ B →
  ∃ p', append_loop (S fuel) p bytes (vlen bytes) 0 = Ok p' ∧ pool_wf p' (T + vlen bytes) ∧ head p' = head p + vlen bytes ∧ 0 ≤ buffer_upto p' ∧
    span (mem p') (head p) (vlen bytes) = bytes ∧ ∀ a, 0 ≤ a < head p → mem p' a = mem p a.
Proof.
  intros Hwf Hb Hne Hfit. pose proof Hwf as [H1 H2 H3 H4 H5 H6 H7 H8]. pose proof (vlen_nonneg bytes). cbn [append_loop]. rewrite (proj2 (Z.leb_le _ _)) by lia.
  rewrite Z.add_0_l, vslice_full. cbn [mbind result_bind]. destruct (copy_to_current_spec p T (byte_upto p) bytes Hwf Hb ltac:(lia) Hfit) as (bs & -> & Hbk & Hc). cbn [mbind result_bind].
  eexists. split; [done|]. fold (head p) in Hc. split_and!.
  - split; unfold head, mem in *; cbn [with_byte_upto with_buffers buffers buffer_upto byte_upto byte_offset allocator]; try done; try lia.
    intros a Ha. rewrite Hc by (unfold B in *; lia). rewrite decide_False by lia. apply H6. lia.
  - unfold head. cbn. lia.
  - done.
  - apply nthz_ext; rewrite vlen_span by lia; [done|]. intros j Hj. rewrite nthz_span by lia. pose proof (head_nonneg p T Hwf).
    unfold mem. cbn [with_byte_upto with_buffers buffers]. rewrite Hc, decide_True by lia. f_equal. lia.
  - intros a Ha. unfold mem at 1. cbn [with_byte_upto with_buffers buffers]. rewrite Hc by lia. by rewrite decide_False by lia.
Qed.

(** A pool whose current buffer has room for some of the bytes only. *)
Lemma append_panics p T bytes fuel : pool_wf p T → 0 ≤ buffer_upto p → byte_upto p < B → B < byte_upto p + vlen bytes →
  append_loop (S fuel) p bytes (vlen bytes) 0 = Panic.
Proof.
  intros Hwf Hb Hu Hover. pose proof (wf_byte p T Hwf). cbn [append_loop]. rewrite (proj2 (Z.leb_gt _ _)) by lia. rewrite as_u_id by (unfold is_u, B in *; lia).
  rewrite Z.gtb_ltb, (proj2 (Z.ltb_lt _ _)) by lia. unfold copy_to_current, copy_from_slice.
  destruct (block_of B ltac:(done) _ _ (buffer_upto p) (wf_blocks p T Hwf) ltac:(lia)) as (b & -> & _). cbn [mbind result_bind]. by rewrite (proj2 (Z.eqb_neq _ _)) by lia.
Qed.

(** [read_bytes] of bytes that lie in two buffers never leaves its loop. *)
Lemma read_bytes_panics fuel : ∀ p bytes length overflow bo bl bi pos, 0 < overflow → 1 ≤ length - overflow < 2 ^ 64 → 0 ≤ bo ≤ vlen bytes → (Z.to_nat (vlen bytes - bo) < fuel)%nat →
  read_bytes_loop fuel p bytes length overflow bo bl bi pos = Panic.
Proof.
  induction fuel as [|fuel IH]; intros p bytes length overflow bo bl bi pos Ho Hl Hbo Hf; [lia|]. cbn [read_bytes_loop]. destruct (vget (buffers p) bi) as [b| | |] eqn:E; try done.
  2: { unfold vget in E. case_decide; [destruct (_ !! _)|]; done. }
  2: { unfold vget in E. case_decide; [destruct (_ !! _)|]; done. }
  cbn [mbind result_bind]. rewrite (proj2 (Z.leb_gt _ _)), as_u_id by (unfold is_u; lia). unfold vslice. case_decide as Hs; [|done]. cbn [mbind result_bind]. unfold copy_from_slice.
  destruct (_ =? _) eqn:El; [|done]. unfold vblit. case_decide as Hd; [|done]. cbn [mbind result_bind]. apply Z.eqb_eq in El. apply IH; try lia.
  all: rewrite !vlen_app, vlen_take, El by lia; unfold vlen in *; rewrite length_drop; lia.
Qed.

Lemma read_bytes_one p T offset buf off len : pool_wf p T → 0 ≤ offset → offset < (buffer_upto p + 1) * B → 0 < len → 0 ≤ off → off + len ≤ vlen buf → offset mod B + len ≤ B →
  read_bytes p offset buf off len = Ok (take (Z.to_nat off) buf ++ span (mem p) offset len ++ drop (Z.to_nat (off + len)) buf).
Proof.
  intros Hwf H0 HN Hl Ho Hb Hfit. unfold read_bytes. rewrite (proj2 (Z.eqb_neq _ _)) by lia. cbn [read_bytes_loop]. rewrite shiftr_block, land_block by done.
  pose proof (Z.mod_pos_bound offset B ltac:(done)). pose proof (Z.div_mod offset B ltac:(done)).
  destruct (block_of B ltac:(done) _ _ (offset / B) (wf_blocks p T Hwf)) as (b & -> & _ & _ & _ & Hs); [split; [apply Z.div_pos; unfold B; lia|apply Z.div_lt_upper_bound; unfold B in *; lia]|].
  cbn [mbind result_bind]. rewrite (proj2 (Z.leb_le _ _)), Hs by lia. replace (offset mod B + len - offset mod B) with len by lia. replace (offset / B * B + offset mod B) with offset by lia.
  cbn [mbind result_bind]. unfold copy_from_slice. rewrite vlen_span by lia. replace (off + len - off) with len by lia. rewrite Z.eqb_refl. rewrite vblit_in by (rewrite ?vlen_span by lia; lia).
  do 4 f_equal. unfold span. rewrite length_map, length_seq. lia.
Qed.
Lemma append_full p T bytes fuel : pool_wf p T → byte_upto p = B → bytes ≠ [] → ∃ p1, next_buffer p = Ok p1 ∧ pool_wf p1 T ∧ byte_upto p1 = 0 ∧ 0 ≤ buffer_upto p1 ∧ head p1 = head p ∧
  (∀ a, 0 ≤ a < head p → mem p1 a = mem p a) ∧ append_loop (S fuel) p bytes (vlen bytes) 0 = append_loop fuel p1 bytes (vlen bytes) 0.
Proof.
  intros Hwf Hu Hne. destruct (next_buffer_spec p T Hwf) as (p1 & E & Hwf1 & Hu1 & Hb1 & _ & Hm1); [unfold B in *; lia|]. exists p1. split_and!; try done.
  - unfold next_buffer in E. destruct (if _ =? _ then _ else _); try done. injection E as <-. unfold head. cbn. unfold B in *. lia.
  - assert (0 < vlen bytes) by (destruct bytes; [done|]; rewrite vlen_cons; pose proof (vlen_nonneg bytes); lia).
    cbn [append_loop]. rewrite Hu, (proj2 (Z.leb_gt _ _)) by lia. rewrite Z.sub_diag, as_u_id by (unfold is_u; lia). cbn [Z.gtb Z.compare mbind result_bind]. by rewrite E.
Qed.

(** C21. The values of a [ByteBlockPool].  [append] of a value of at most a block stores
    it behind the head, where [set_raw_bytes_ref] reads it back, when it fits in the
    current buffer or that buffer is full; everything stored before stays.  When the
    current buffer has room for a part of the value only, [append] panics, and so does
    [read_bytes] of any bytes that lie in two buffers. *)
Theorem pool_values p T bytes : pool_wf p T → bytes ≠ [] → vlen bytes ≤ BYTE_BLOCK_SIZE →
  (byte_upto p + vlen bytes ≤ BYTE_BLOCK_SIZE ∨ byte_upto p = BYTE_BLOCK_SIZE →
    ∃ p', append p bytes = Ok p' ∧ pool_wf p' (T + vlen bytes) ∧ head p' = head p + vlen bytes ∧
      (∀ buf, vlen buf = vlen bytes → set_raw_bytes_ref p' buf (head p) = Ok bytes) ∧ (∀ a, 0 ≤ a < head p → mem p' a = mem p a)) ∧
  (byte_upto p < BYTE_BLOCK_SIZE < byte_upto p + vlen bytes → append p bytes = Panic) ∧
  (∀ offset buf off len, 0 ≤ offset → 0 ≤ len ≤ BYTE_BLOCK_SIZE → BYTE_BLOCK_SIZE < offset mod BYTE_BLOCK_SIZE + len → 0 ≤ off → off + len ≤ vlen buf →
    read_bytes p offset buf off len = Panic).
Proof.
  intros Hwf Hne Hlen. assert (0 < vlen bytes) as Hpos by (destruct bytes; [done|]; rewrite vlen_cons; pose proof (vlen_nonneg bytes); lia).
  pose proof (wf_upto p T Hwf) as Hup. pose proof (wf_start p T Hwf) as Hst. pose proof (wf_byte p T Hwf) as Hby. pose proof (head_nonneg p T Hwf) as Hh0.
  unfold append. rewrite (proj2 (Z.eqb_neq _ _)) by lia. split_and!.
  - intros Hcase. assert (∃ q fuel, pool_wf q T ∧ 0 ≤ buffer_upto q ∧ byte_upto q + vlen bytes ≤ B ∧ head q = head p ∧ (∀ a, 0 ≤ a < head p → mem q a = mem p a) ∧
      append_loop (2 + length bytes) p bytes (vlen bytes) 0 = append_loop (S fuel) q bytes (vlen bytes) 0) as (q & fuel & Hwq & Hbq & Hfq & Hhq & Hmq & ->).
    { destruct (decide (byte_upto p = B)) as [Hfull|Hpart].
      - destruct (append_full p T bytes (S (length bytes)) Hwf Hfull Hne) as (p1 & _ & W1 & W2 & W3 & W4 & W5 & W6). exists p1, (length bytes). split_and!; try done. rewrite W2. lia.
      - exists p, (S (length bytes)). split_and!; try done; lia. }
    destruct (append_fits q T bytes fuel Hwq Hbq Hne Hfq) as (p' & -> & W1 & W2 & W3 & W4 & W5). exists p'. rewrite Hhq in *. split_and!; try done.
    + intros buf Hbuf. unfold set_raw_bytes_ref. pose proof (wf_offset p' _ W1) as Ho'. pose proof (wf_byte p' _ W1). unfold head in W2 at 1. pose proof (wf_offset q _ Hwq) as Hoq. pose proof (wf_byte q _ Hwq).
      assert (head p mod B = byte_upto q) as Hmod by (rewrite <- Hhq; unfold head; rewrite Hoq; apply mod_at; [done|lia]).
      rewrite (read_bytes_one p' (T + vlen bytes)) by (done || rewrite ?Hmod; unfold B in *; lia). rewrite Hbuf, W4, Z.add_0_l. f_equal.
      rewrite drop_ge by (unfold vlen in *; lia). by rewrite app_nil_r.
    + intros a Ha. rewrite W5 by done. by apply Hmq.
  - intros Hover. apply (append_panics p T); try done; lia.
  - intros offset buf off len Ho Hl Hcross Hoff Hbuf. unfold read_bytes. pose proof (Z.mod_pos_bound offset B ltac:(done)). rewrite (proj2 (Z.eqb_neq _ _)) by lia. rewrite land_block.
    apply read_bytes_panics; unfold B, vlen in *; lia.
Qed.
End values.

Lemma pool_values_witness :
  let p := ByteBlockPool.new (ByteBlockPool.DirectAllocator 32768) in
  pool_wf p 0 ∧ (∃ p', ByteBlockPool.append p [1; 2; 3] = Ok p' ∧ ByteBlockPool.set_raw_bytes_ref p' [0; 0; 0] 0 = Ok [1; 2; 3]) ∧
  ByteBlockPool.read_bytes p 32767 [0; 0; 0] 0 3 = Panic.
Proof.
  intros p. assert (pool_wf p 0) as H by (apply pool_new_wf; reflexivity). split; [exact H|].
  destruct (pool_values p 0 [1; 2; 3] H) as (H1 & _ & H3); [discriminate|vm_compute; discriminate|]. split.
  - destruct (H1 (or_intror eq_refl)) as (p' & E & _ & _ & Hr & _). exists p'. split; [exact E|]. exact (Hr [0; 0; 0] eq_refl).
  - apply H3; vm_compute; intuition discriminate.
Defined.
