(* ===== verification/TermsHashFacts.v ===== *)
(** The streams of a [TermsHashPerFieldBase]: any number of fields, terms and streams
    share two pools, and every stream is read back as it was written.

    The invariant gives every position of the pools at most one owner, a field, a term
    and a stream; a stream is a chain over the positions it owns. *)

From stdpp Require Import gmap.
From S2P Require Import Prelude DataIO DataIOFacts PackedBulkFacts PackedArrayFacts BytePool BytePoolFacts PoolFacts.
Open Scope Z_scope.
#[local] Abbreviation B := ByteBlockPool.BYTE_BLOCK_SIZE.
#[local] Abbreviation IW := IntBlockPool.INT_BLOCK_SIZE.

(** * One stream *)

(** Up to this many bytes handed out every position is below [2^31]. *)
Definition LIMIT : Z := 1400000000.

Section stream.
Import ByteBlockPool.
Context {K : Type} (k : K).
Implicit Types own : Z → option K.

Definition owned own (p : t) : Prop := ∀ a k', own a = Some k' → 0 ≤ a < head p.
(** What the other streams own stays theirs and keeps its bytes. *)
Definition untouched own own' (m m' : Z → Z) : Prop := ∀ a k', k' ≠ k → own a = Some k' → own' a = Some k' ∧ m' a = m a.
Definition mine own (a : Z) : Prop := own a = Some k.

Lemma stream_put p T own lv s e bs b : pool_wf p T → owned own p → chain (mem p) (mine own) lv s e bs → mem p e = 0 →
  ∃ p', put p (e / B) (e mod B) b = Ok p' ∧ pool_wf p' T ∧ owned own p' ∧ chain (mem p') (mine own) lv s (e + 1) (bs ++ [b]) ∧ untouched own own (mem p) (mem p') ∧ head p' = head p.
Proof.
  intros Hwf Ho Hc He. destruct (chain_end _ _ _ _ _ _ Hc) as (llv & ls & (Hlv & _ & _ & HP) & _ & Hls & _ & _).
  pose proof (HP e ltac:(lia)) as Hme. destruct (byte_position p T e Hwf (Ho e k Hme)) as (Hd & Hm & Ee). pose proof (Ho e k Hme) as Hb.
  destruct (put_spec p T (e / B) (e mod B) b Hwf Hd Hm) as (bs' & -> & Hwf' & Hc'); [lia|]. rewrite Ee in Hc'. eexists. split; [done|]. split; [done|]. split; [done|]. split; [|split; [|done]].
  - by apply (chain_put (mem p)).
  - intros a k' Hk Ha. split; [done|]. rewrite Hc' by (apply (Ho a k' Ha)). rewrite (proj2 (Z.eqb_neq _ _)); [done|]. intros ->. unfold mine in Hme. congruence.
Qed.

Lemma next_size lv : 0 ≤ lv ≤ 9 → 14 ≤ level_size (next_level lv).
Proof.
  intros H. assert (lv = 0 ∨ lv = 1 ∨ lv = 2 ∨ lv = 3 ∨ lv = 4 ∨ lv = 5 ∨ lv = 6 ∨ lv = 7 ∨ lv = 8 ∨ lv = 9) as C by lia.
  repeat destruct C as [-> |C]; [..|subst lv]; done.
Qed.

Lemma stream_grow p T own s e bs : pool_wf p T → T ≤ LIMIT → owned own p → chain (mem p) (mine own) 0 s e bs → mem p e ≠ 0 →
  ∃ n p' own', alloc_slice p (e / B) (e mod B) = Ok (n - byte_offset p', p') ∧ pool_wf p' (T + 120) ∧ owned own' p' ∧ 0 ≤ n < 2 ^ 31 ∧
    n / B = buffer_upto p' ∧ n mod B = n - byte_offset p' ∧ mem p' n = 0 ∧
    chain (mem p') (mine own') 0 s n bs ∧ untouched own own' (mem p) (mem p') ∧ head p ≤ head p'.
Proof.
  intros Hwf HT Ho Hc Hne. destruct (chain_end _ _ _ _ _ _ Hc) as (llv & ls & (Hlv & Hls0 & Hfit & HP) & Hsl & Hls & Hs0 & [[He0 _]|[Hmk Ee]]); [done|].
  destruct (level_facts llv Hlv) as (Hsz & Hnlv & _ & _ & _ & Hland & _). destruct (level_facts _ Hnlv) as (Hnsz & _). pose proof (next_size llv Hlv) as Hbig.
  destruct (byte_position p T e Hwf (Ho e k (HP e ltac:(lia)))) as (Hd & Hm & Epos). pose proof (Ho e k (HP e ltac:(lia))) as He.
  destruct (same_block ls llv e Hfit Hls) as [Hd' Hm']. pose proof (Z.div_mod ls B ltac:(done)). pose proof (Z.mod_pos_bound ls B ltac:(done)).
  destruct (alloc_slice_spec p T (e / B) (e mod B) llv) as (n & p' & E & Hwf' & Hn & Hhead & Hnfit & Hoff & Hbu & Hon & M1 & M2 & M3 & M4 & M5);
    rewrite ?Epos in *; try done; try lia.
  { pose proof (wf_count p T Hwf). pose proof (wf_byte p T Hwf). unfold LIMIT, B in *. lia. }
  pose (own' := fun a => if decide (n ≤ a < n + level_size (next_level llv)) then Some k else own a).
  assert (∀ a k', own a = Some k' → own' a = Some k') as Hkeep.
  { intros a k' Ha. unfold own'. rewrite decide_False; [done|]. pose proof (Ho a k' Ha). lia. }
  exists (n + 3), p', own'. replace (n - byte_offset p' + 3) with (n + 3 - byte_offset p') in E by lia.
  pose proof (Z.div_mod n B ltac:(done)). pose proof (Z.mod_pos_bound n B ltac:(done)). unfold head in Hhead. pose proof (wf_byte p' _ Hwf') as Hby.
  assert (n / B = buffer_upto p') as Hnd by (symmetry; apply (Z.div_unique n B _ (n - byte_offset p')); unfold B in *; lia).
  split; [done|]. split; [apply (pool_wf_mono _ _ _ Hwf'); lia|]. split; [|split; [unfold head, B in *; lia|]].
  { intros a k'. unfold own'. case_decide; [intros _; unfold head in *; lia|]. intros Ha. pose proof (Ho a k' Ha). unfold head in *. lia. }
  destruct (same_block n (next_level llv) (n + 3) Hnfit ltac:(lia)) as [-> ->]. split_and!; [done|lia|apply M4; lia| | |unfold head in *; lia].
  - apply (chain_grow (mem p) (mem p') (mine own) (mine own') 0 s e); rewrite ?Hmk, ?Hland; try done; try lia.
    + intros a. apply Hkeep.
    + split_and!; try lia. intros a Ha. unfold mine, own'. by rewrite decide_True.
    + intros a Ha Hlt. apply M1; [by apply (Ho a k)|lia].
  - intros a k' Hk Ha. split; [by apply Hkeep|]. apply M1; [by apply (Ho a k')|]. destruct (decide (a < e - 3)); [by left|]. right.
    destruct (decide (e < a)); [done|]. unfold mine in HP. rewrite HP in Ha by lia. congruence.
Qed.
End stream.

(** * Fields, terms and streams *)

Import TermsHashPerFieldBase.
Definition key : Type := Z * Z * Z.

Definition int_start (fd : t) (term : Z) : Z := nthz (ParallelPostingsArray.int_starts (postings_array fd)) term.
Definition byte_start (fd : t) (term : Z) : Z := nthz (ParallelPostingsArray.byte_starts (postings_array fd)) term.

Record field_wf (fd : t) (sc cap : Z) : Prop := {
  fwf_count : stream_count fd = sc;
  fwf_ints : num_posting_int fd = 2 * sc;
  fwf_range : 1 ≤ sc ≤ 1000;
  fwf_size : ParallelPostingsArray.size (postings_array fd) = cap;
  fwf_starts : vlen (ParallelPostingsArray.int_starts (postings_array fd)) = cap;
  fwf_bytes : vlen (ParallelPostingsArray.byte_starts (postings_array fd)) = cap;
}.

Definition iowned (iown : Z → option key) (ip : IntBlockPool.t) : Prop := ∀ q k, iown q = Some k → 0 ≤ q < ihead ip.

(** The stream [k] of a term: its slot holds the end of a chain of its bytes. *)
Definition stream_ok (ps : pools) (own iown : Z → option key) (u v : Z) (k : key) (bs : list Z) : Prop :=
  let q := u + k.2 in
  iown q = Some k ∧ 0 ≤ imem (int_pool ps) q < 2 ^ 31 ∧
  chain (mem (byte_pool ps)) (mine k own) 0 (v + k.2 * 5) (imem (int_pool ps) q) bs.

Record term_ok (ps : pools) (own iown : Z → option key) (fd : t) (f term : Z) (ss : list (list Z)) : Prop := {
  tok_term : 0 ≤ term < vlen (ParallelPostingsArray.int_starts (postings_array fd));
  tok_count : vlen ss = stream_count fd;
  tok_slot : 0 ≤ int_start fd term ∧ int_start fd term mod IW + stream_count fd ≤ IW;
  tok_streams : ∀ i bs, 0 ≤ i → ss !! Z.to_nat i = Some bs → stream_ok ps own iown (int_start fd term) (byte_start fd term) (f, term, i) bs;
}.

(** A stream is where it was when its owner and its slot are. *)
Lemma stream_frame ps ps' own own' iown iown' u v k bs :
  (∀ a, own a = Some k → own' a = Some k ∧ mem (byte_pool ps') a = mem (byte_pool ps) a) →
  (∀ q, iown q = Some k → iown' q = Some k ∧ imem (int_pool ps') q = imem (int_pool ps) q) →
  stream_ok ps own iown u v k bs → stream_ok ps' own' iown' u v k bs.
Proof.
  intros Hm Hi (Hq & He & Hc). destruct (Hi _ Hq) as [Hq' Ei]. split; [done|]. rewrite Ei. split; [done|].
  apply (slices_frame (mem (byte_pool ps)) _ (mine k own)); [intros a Ha; by apply Hm..|done].
Qed.

Lemma set_flush_wf ip T (c : bool) : ints_wf ip T →
  ints_wf (if c then IntBlockPool.set_need_flush ip else ip) T ∧ (∀ q, imem (if c then IntBlockPool.set_need_flush ip else ip) q = imem ip q) ∧
  ihead (if c then IntBlockPool.set_need_flush ip else ip) = ihead ip ∧
  IntBlockPool.buffer_upto (if c then IntBlockPool.set_need_flush ip else ip) = IntBlockPool.buffer_upto ip.
Proof. intros [H1 H2 H3 H4 H5 H6 H7]. destruct c; split_and!; try done; by split. Qed.

Lemma head_bound p T : pool_wf p T → T ≤ LIMIT + 120 → head p < 2 ^ 31 - 1.
Proof. intros [] HT. unfold head, LIMIT, B in *. lia. Qed.

(** The slot [q] of a stream in the int pool. *)
Definition slot_at (fd : t) (st q : Z) : Prop := int_upto_idx fd = q / IW ∧ int_upto_start fd + st = q mod IW.

Lemma slot_get ip T fd st q : ints_wf ip T → slot_at fd st q → 0 ≤ q < ihead ip →
  get2 (IntBlockPool.buffers ip) (int_upto_idx fd) (int_upto_start fd + st) = Ok (imem ip q).
Proof. intros Hwf [-> ->] Hq. destruct (int_position ip T q Hwf Hq) as (Hd & Hm & E). rewrite (get2_imem ip T) by done. by rewrite E. Qed.

Lemma slot_put ip T fd st q v : ints_wf ip T → slot_at fd st q → 0 ≤ q < ihead ip →
  ∃ ip', IntBlockPool.put ip (int_upto_idx fd) (int_upto_start fd + st) v = Ok ip' ∧ ints_wf ip' T ∧ ihead ip' = ihead ip ∧ imem ip' q = v ∧
    ∀ x, 0 ≤ x → x ≠ q → imem ip' x = imem ip x.
Proof.
  intros Hwf [-> ->] Hq. destruct (int_position ip T q Hwf Hq) as (Hd & Hm & E). destruct (ints_put ip T (q / IW) (q mod IW) v Hwf Hd Hm) as (bs & -> & Hwf' & Hc).
  rewrite E in Hc. eexists. split; [done|]. split_and!; try done; [by rewrite Hc, Z.eqb_refl by lia|]. intros x Hx Hne. by rewrite Hc, (proj2 (Z.eqb_neq _ _)) by lia.
Qed.

(** The byte is stored at the end of a slice that has room, and the slot moves on. *)
Lemma store_byte bp ip T own iown fd u v k e bs b : let q := u + k.2 in
  pool_wf bp T → T ≤ LIMIT + 120 → owned own bp → ints_wf ip T → iowned iown ip → iown q = Some k → slot_at fd k.2 q → imem ip q = e → 0 ≤ e →
  chain (mem bp) (mine k own) 0 (v + k.2 * 5) e bs → mem bp e = 0 →
  ∃ ps, (bp ← ByteBlockPool.put bp (e / B) (e mod B) b;
         x ← get2 (IntBlockPool.buffers ip) (int_upto_idx fd) (int_upto_start fd + k.2);
         ip ← IntBlockPool.put ip (int_upto_idx fd) (int_upto_start fd + k.2) (as_i32 (x + 1));
         Ok (Pools ip bp)) = Ok ps ∧
    pool_wf (byte_pool ps) T ∧ ints_wf (int_pool ps) T ∧ owned own (byte_pool ps) ∧ iowned iown (int_pool ps) ∧
    stream_ok ps own iown u v k (bs ++ [b]) ∧ untouched k own own (mem bp) (mem (byte_pool ps)) ∧
    (∀ x, 0 ≤ x → x ≠ q → imem (int_pool ps) x = imem ip x) ∧ head (byte_pool ps) = head bp.
Proof.
  intros q Hwf HT Ho Hiw Hio Hq Hs He He0 Hc Hz. pose proof (Hio q k Hq) as Hqb.
  destruct (chain_end _ _ _ _ _ _ Hc) as (llv & ls & (_ & _ & _ & HP) & _ & Hls & _ & _). pose proof (Ho e k (HP e ltac:(lia))) as Heh. pose proof (head_bound bp T Hwf HT).
  destruct (stream_put k bp T own 0 _ e bs b Hwf Ho Hc Hz) as (bp' & -> & Hwf' & Ho' & Hc' & Hun & Hhd). cbn [mbind result_bind].
  rewrite (slot_get ip T fd k.2 q) by done. cbn [mbind result_bind]. rewrite He, as_i_id by (try lia; unfold is_i; lia).
  destruct (slot_put ip T fd k.2 q (e + 1) Hiw Hs Hqb) as (ip' & -> & Hiw' & Hih & Hiq & Hix). cbn [mbind result_bind].
  eexists. split; [done|]. cbn [byte_pool int_pool]. split_and!; try done.
  - intros x k' Hx. rewrite Hih. by apply (Hio x k').
  - split; [done|]. cbn [byte_pool int_pool]. fold q. rewrite Hiq. split; [lia|done].
Qed.

(** [write_byte] appends to the stream of the slot it is given. *)
Lemma write_byte_stream ps T own iown fd u v k bs b : let q := u + k.2 in
  pool_wf (byte_pool ps) T → ints_wf (int_pool ps) T → T ≤ LIMIT → owned own (byte_pool ps) → iowned iown (int_pool ps) → stream_ok ps own iown u v k bs → slot_at fd k.2 q →
  ∃ ps' own', write_byte fd ps k.2 b = Ok ps' ∧ pool_wf (byte_pool ps') (T + 120) ∧ ints_wf (int_pool ps') (T + 120) ∧ owned own' (byte_pool ps') ∧
    iowned iown (int_pool ps') ∧ stream_ok ps' own' iown u v k (bs ++ [b]) ∧
    untouched k own own' (mem (byte_pool ps)) (mem (byte_pool ps')) ∧ (∀ x, 0 ≤ x → x ≠ q → imem (int_pool ps') x = imem (int_pool ps) x) ∧
    head (byte_pool ps) ≤ head (byte_pool ps').
Proof.
  intros q Hwf Hiw HT Ho Hio (Hq & He & Hc) Hs. fold q in Hq, He, Hc. pose proof (Hio q k Hq) as Hqb. unfold write_byte.
  rewrite (slot_get _ T fd k.2 q) by done. cbn [mbind result_bind]. set (e := imem (int_pool ps) q) in *. rewrite (as_u_id 64 e) by (unfold is_u; lia).
  destruct (set_flush_wf (int_pool ps) (T + 120) (check_flush e)) as (Hiw1 & Him1 & Hih1 & _); [apply (ints_wf_mono _ _ _ Hiw); lia|].
  set (ip1 := if check_flush e then _ else _) in *. clearbody ip1. assert (iowned iown ip1) as Hio1 by (intros x k' Hx; rewrite Hih1; by apply (Hio x k')).
  rewrite shiftr_block, land_block by lia. destruct (chain_end _ _ _ _ _ _ Hc) as (llv & ls & (_ & _ & _ & HP) & _ & Hls & _ & _).
  pose proof (Ho e k (HP e ltac:(lia))) as Heh. destruct (byte_position _ T e Hwf Heh) as (Hed & Hem & Ee). rewrite (get2_mem _ T) by done. rewrite Ee. cbn [mbind result_bind].
  destruct (Z.eqb_spec (mem (byte_pool ps) e) 0) as [Hz|Hnz]; cbn [negb].
  - cbn [mbind result_bind]. destruct (store_byte (byte_pool ps) ip1 (T + 120) own iown fd u v k e bs b) as (ps' & E & H1 & H2 & H3 & H4 & H5 & H6 & H7 & H8);
      try done; try lia; try apply Him1; [apply (pool_wf_mono _ _ _ Hwf); lia|].
    exists ps', own. split_and!; try done; [|lia]. intros x Hx Hne. rewrite H7 by done. apply Him1.
  - destruct (stream_grow k _ T own _ e bs Hwf HT Ho Hc Hnz) as (n & p1 & own1 & -> & Hwf1 & Ho1 & Hn & Hnd & Hnm & Hn0 & Hc1 & Hun1 & Hhd1). cbn [mbind result_bind].
    replace (n - ByteBlockPool.byte_offset p1 + ByteBlockPool.byte_offset p1) with n by lia. rewrite as_i_id by (try lia; unfold is_i; lia).
    destruct (slot_put ip1 (T + 120) fd k.2 q n Hiw1 Hs ltac:(lia)) as (ip2 & -> & Hiw2 & Hih2 & Hiq2 & Hix2). cbn [mbind result_bind]. rewrite <- Hnd, <- Hnm.
    destruct (store_byte p1 ip2 (T + 120) own1 iown fd u v k n bs b) as (ps' & E & H1 & H2 & H3 & H4 & H5 & H6 & H7 & H8); try done; try lia.
    { intros x k' Hx. rewrite Hih2. by apply (Hio1 x k'). }
    exists ps', own1. split_and!; try done; try lia.
    + intros a k' Hk Ha. destruct (Hun1 a k' Hk Ha) as [Ha1 Em1]. destruct (H6 a k' Hk Ha1) as [_ Em2]. by rewrite Em2.
    + intros x Hx Hne. rewrite H7, Hix2 by done. apply Him1.
Qed.

(** ** The first slices of a term *)

(** [sc] empty slices of the first level from [h] on, whose positions are in the slots from [q0] on. *)
Definition first_slices (ps : pools) (h q0 sc : Z) : Prop :=
  ∀ i, 0 ≤ i < sc → imem (int_pool ps) (q0 + i) = h + 5 * i ∧
    (∀ a, h + 5 * i ≤ a < h + 5 * i + 4 → mem (byte_pool ps) a = 0) ∧ mem (byte_pool ps) (h + 5 * i + 4) = 16.

Lemma add_streams ip bp T T' idx start sc : let q0 := idx * IW + start in
  pool_wf bp T → ints_wf ip T' → T + 5 * sc ≤ LIMIT → 0 ≤ sc → 5 * sc ≤ B - ByteBlockPool.byte_upto bp → 0 ≤ idx ≤ IntBlockPool.buffer_upto ip → 0 ≤ start → start + sc ≤ IW →
  ∃ ps, for_range 0 sc (add_stream idx start) (Pools ip bp) = Ok ps ∧ pool_wf (byte_pool ps) (T + 5 * sc) ∧ ints_wf (int_pool ps) T' ∧
    head (byte_pool ps) = head bp + 5 * sc ∧ ihead (int_pool ps) = ihead ip ∧ IntBlockPool.buffer_upto (int_pool ps) = IntBlockPool.buffer_upto ip ∧
    first_slices ps (head bp) q0 sc ∧ (∀ a, 0 ≤ a < head bp → mem (byte_pool ps) a = mem bp a) ∧
    (∀ q, 0 ≤ q → q < q0 ∨ q0 + sc ≤ q → imem (int_pool ps) q = imem ip q).
Proof.
  intros q0 Hwf Hiw HT Hsc Hroom Hidx Hst Hend. pose proof (head_nonneg bp T Hwf).
  pose (P := fun j ps => pool_wf (byte_pool ps) (T + 5 * j) ∧ ints_wf (int_pool ps) T' ∧ head (byte_pool ps) = head bp + 5 * j ∧
    ByteBlockPool.byte_upto (byte_pool ps) = ByteBlockPool.byte_upto bp + 5 * j ∧ ihead (int_pool ps) = ihead ip ∧ IntBlockPool.buffer_upto (int_pool ps) = IntBlockPool.buffer_upto ip ∧
    first_slices ps (head bp) q0 j ∧ (∀ a, 0 ≤ a < head bp → mem (byte_pool ps) a = mem bp a) ∧
    (∀ q, 0 ≤ q → q < q0 ∨ q0 + j ≤ q → imem (int_pool ps) q = imem ip q)).
  destruct (for_range_inv P (add_stream idx start) 0 sc (Pools ip bp)) as (ps & E & HP); [done|..].
  - unfold P. cbn [byte_pool int_pool]. split_and!; rewrite ?Z.mul_0_r, ?Z.add_0_r; try done. intros i Hi. lia.
  - intros j ps Hj (H1 & H2 & H3 & H4 & H5 & H6 & H7 & H8 & H9). unfold add_stream. change ByteBlockPool.FIRST_LEVEL_SIZE with 5.
    destruct (new_slice_spec (byte_pool ps) (T + 5 * j) H1) as (n & bp' & -> & Hwf' & _ & Hhead & _ & _ & Hin & M1 & M2 & M3). cbn [mbind result_bind].
    destruct (Hin ltac:(lia)) as [En Hu']. replace (n - ByteBlockPool.byte_offset bp' + ByteBlockPool.byte_offset bp') with n by lia.
    pose proof (head_bound bp' _ Hwf' ltac:(lia)). pose proof (head_nonneg _ _ H1).
    destruct (ints_put (int_pool ps) T' idx (start + j) (as_i32 n) H2) as (ibs & -> & Hiw' & Him); [lia..|]. cbn [mbind result_bind].
    rewrite as_i_id, Z.add_assoc in Him by (try lia; unfold is_i; lia). fold q0 in Him. eexists. split; [done|]. unfold P. cbn [byte_pool int_pool].
    assert (0 ≤ q0) by (unfold q0, IW; lia). rewrite En in *. split_and!; try done; try lia.
    + replace (T + 5 * (j + 1)) with (T + 5 * j + 5) by lia. done.
    + intros i Hi. destruct (decide (i = j)) as [->|Hne].
      * cbn [byte_pool int_pool]. rewrite Him, Z.eqb_refl by lia. split_and!; [lia| |rewrite <- M3; f_equal; lia]. intros a Ha. apply M2. lia.
      * destruct (H7 i ltac:(lia)) as (S1 & S2 & S3). cbn [byte_pool int_pool]. rewrite Him, (proj2 (Z.eqb_neq _ _)) by lia.
        split_and!; [done| |rewrite M1 by lia; done]. intros a Ha. rewrite M1 by lia. by apply S2.
    + intros a Ha. rewrite M1 by lia. by apply H8.
    + intros q Hq Hout. rewrite Him, (proj2 (Z.eqb_neq _ _)) by lia. apply H9; lia.
  - destruct HP as (H1 & H2 & H3 & H4 & H5 & H6 & H7 & H8 & H9). exists ps. by split_and!.
Qed.

(** The streams of a new term are empty. *)
Lemma first_stream ps own iown h q0 sc f term i : first_slices ps h q0 sc → 0 ≤ i < sc → 0 ≤ h → h + 5 * sc < 2 ^ 31 → h mod B + 5 * sc ≤ B →
  (∀ a, h + 5 * i ≤ a < h + 5 * i + 5 → own a = Some (f, term, i)) → iown (q0 + i) = Some (f, term, i) →
  stream_ok ps own iown q0 h (f, term, i) [].
Proof.
  intros Hf Hi Hh Hlim Hfit Ho Hio. destruct (Hf i Hi) as (S1 & S2 & S3). split; [done|]. cbn [snd]. rewrite S1. split; [lia|].
  replace (h + i * 5) with (h + 5 * i) by lia. eapply chain_eq; [apply chain_last|].
  - split_and!; try lia; [|intros a Ha; apply Ho; change (level_size 0) with 5 in *; lia]. change (level_size 0) with 5.
    pose proof (Z.div_mod h B ltac:(done)). pose proof (Z.mod_pos_bound h B ltac:(done)).
    replace (h + 5 * i) with (h / B * B + (h mod B + 5 * i)) by lia. rewrite mod_at by (done || lia). lia.
  - change (level_size 0) with 5. lia.
  - change (level_size 0) with 5. intros a Ha. apply S2. lia.
  - change (level_size 0) with 5. change (Z.lor 16 0) with 16. rewrite <- S3. f_equal. lia.
  - by rewrite Z.sub_diag.
Qed.

(** ** [add] *)

Lemma ihead_bound p T : ints_wf p T → T ≤ LIMIT → ihead p < 2 ^ 31.
Proof. intros [] HT. unfold ihead, LIMIT, IW in *. lia. Qed.
Lemma ihead_nonneg p T : ints_wf p T → 0 ≤ ihead p.
Proof. intros []. unfold ihead, IW in *. lia. Qed.

(** Room for the slots of a term, in one block. *)
Lemma room_for_slots fd sc cap ip T : field_wf fd sc cap → ints_wf ip T →
  ∃ ip', (if num_posting_int fd + IntBlockPool.int_upto ip >? IW then IntBlockPool.next_buffer ip else Ok ip) = Ok ip' ∧ ints_wf ip' T ∧
    0 ≤ IntBlockPool.buffer_upto ip' ∧ IntBlockPool.int_upto ip' + sc ≤ IW ∧ ihead ip ≤ ihead ip' ∧ (∀ q, 0 ≤ q < ihead ip → imem ip' q = imem ip q).
Proof.
  intros [_ Hn Hsc _ _ _] Hwf. rewrite Z.gtb_ltb, Hn. pose proof (iwf_upto ip T Hwf). pose proof (iwf_start ip T Hwf). destruct (Z.ltb_spec IW (2 * sc + IntBlockPool.int_upto ip)).
  - destruct (ints_next_buffer ip T Hwf ltac:(lia)) as (ip' & -> & Hwf' & Hu & Hb & Hh & Hm). exists ip'. split_and!; try done. unfold IW. lia.
  - exists ip. split_and!; try done; lia.
Qed.

(** Room for the first slices of a term, in one block. *)
Lemma room_for_slices fd sc cap bp T : field_wf fd sc cap → pool_wf bp T →
  ∃ bp', (if as_u64 (B - ByteBlockPool.byte_upto bp) <? num_posting_int fd * ByteBlockPool.FIRST_LEVEL_SIZE then ByteBlockPool.next_buffer bp else Ok bp) = Ok bp' ∧
    pool_wf bp' T ∧ 0 ≤ ByteBlockPool.buffer_upto bp' ∧ 5 * sc ≤ B - ByteBlockPool.byte_upto bp' ∧ head bp ≤ head bp' ∧ (∀ a, 0 ≤ a < head bp → mem bp' a = mem bp a).
Proof.
  intros [_ Hn Hsc _ _ _] Hwf. pose proof (wf_byte bp T Hwf) as Hby. rewrite as_u_id by (unfold is_u, B in *; lia). rewrite Hn. change ByteBlockPool.FIRST_LEVEL_SIZE with 5.
  pose proof (wf_upto bp T Hwf). pose proof (wf_start bp T Hwf). destruct (Z.ltb_spec (B - ByteBlockPool.byte_upto bp) (2 * sc * 5)).
  - destruct (next_buffer_spec bp T Hwf ltac:(lia)) as (bp' & -> & Hwf' & Hu & Hb & Hh & Hm). exists bp'. split_and!; try done. unfold B. lia.
  - exists bp. split_and!; try done; lia.
Qed.

Lemma bump_ints ip T sc : ints_wf ip T → 0 ≤ sc → 0 ≤ IntBlockPool.buffer_upto ip → IntBlockPool.int_upto ip + sc ≤ IW →
  ints_wf (IntBlockPool.with_int_upto (IntBlockPool.int_upto ip + sc) ip) (T + sc).
Proof. intros [] ? ? ?. split; cbn [IntBlockPool.with_int_upto IntBlockPool.buffers IntBlockPool.buffer_upto IntBlockPool.int_upto IntBlockPool.int_offset IntBlockPool.allocator]; try done; lia. Qed.

Record term_added (fd fd' : t) (ps ps' : pools) (sc term h q0 : Z) : Prop := {
  ta_head : head (byte_pool ps) ≤ h ∧ h + 5 * sc = head (byte_pool ps') ∧ h mod B + 5 * sc ≤ B;
  ta_ihead : ihead (int_pool ps) ≤ q0 ∧ q0 + sc = ihead (int_pool ps') ∧ q0 mod IW + sc ≤ IW;
  ta_slices : first_slices ps' h q0 sc;
  ta_mem : ∀ a, 0 ≤ a < head (byte_pool ps) → mem (byte_pool ps') a = mem (byte_pool ps) a;
  ta_imem : ∀ q, 0 ≤ q < ihead (int_pool ps) → imem (int_pool ps') q = imem (int_pool ps) q;
  ta_int : ∀ t', 0 ≤ t' → int_start fd' t' = if t' =? term then q0 else int_start fd t';
  ta_byte : ∀ t', 0 ≤ t' → byte_start fd' t' = if t' =? term then h else byte_start fd t';
  ta_slot : int_upto_idx fd' = q0 / IW ∧ int_upto_start fd' = q0 mod IW;
}.

Lemma add_new_term fd ps T sc cap term : field_wf fd sc cap → pool_wf (byte_pool ps) T → ints_wf (int_pool ps) T → T + 5 * sc ≤ LIMIT → 0 ≤ term < cap →
  ∃ fd' ps' h q0, add fd ps term = Ok (fd', ps') ∧ field_wf fd' sc cap ∧ pool_wf (byte_pool ps') (T + 5 * sc) ∧ ints_wf (int_pool ps') (T + 5 * sc) ∧
    term_added fd fd' ps ps' sc term h q0.
Proof.
  intros Hf Hwf Hiw HT Hterm. pose proof Hf as [Hc Hn Hsc Hsz Hst Hbt]. unfold add. rewrite (proj2 (Z.leb_le _ _)) by lia.
  destruct (room_for_slots fd sc cap _ T Hf Hiw) as (ip & -> & Hiw1 & Hib & Hiu & Hih & Him). cbn [mbind result_bind].
  destruct (room_for_slices fd sc cap _ T Hf Hwf) as (bp & -> & Hwf1 & Hbb & Hbu & Hbh & Hbm). cbn [mbind result_bind]. rewrite Hc.
  pose proof (bump_ints ip T sc Hiw1 ltac:(lia) Hib Hiu) as Hiw2. set (ip2 := IntBlockPool.with_int_upto _ _) in *.
  pose proof (ihead_bound ip T Hiw1 ltac:(lia)) as Hq31. pose proof (ihead_nonneg ip T Hiw1) as Hq0. pose proof (iwf_offset ip T Hiw1) as Hoff. pose proof (iwf_int ip T Hiw1) as Hii.
  change (IntBlockPool.int_offset ip2) with (IntBlockPool.int_offset ip). set (q0 := ihead ip) in *.
  assert (Eq0 : IntBlockPool.buffer_upto ip * IW + IntBlockPool.int_upto ip = q0) by (unfold q0, ihead; lia).
  assert (as_u32 (as_u64 (IntBlockPool.int_upto ip + IntBlockPool.int_offset ip)) = q0) as ->
    by (replace (_ + _) with q0 by (unfold q0, ihead; lia); by rewrite (as_u_id 64 q0), (as_u_id 32 q0) by (unfold is_u; lia)).
  assert (q0 / IW = IntBlockPool.buffer_upto ip ∧ q0 mod IW = IntBlockPool.int_upto ip) as [Hqd Hqm].
  { rewrite <- Eq0. split; [apply div_at|apply mod_at]; try done; lia. }
  unfold with_int_start. destruct (vset_nthz (ParallelPostingsArray.int_starts (postings_array fd)) term q0) as (is' & -> & His & Hin); [lia|]. cbn [mbind result_bind].
  destruct (add_streams ip2 bp T (T + sc) (IntBlockPool.buffer_upto ip) (IntBlockPool.int_upto ip) sc) as (ps' & -> & W1 & W2 & W3 & W4 & W5 & W6 & W7 & W8);
    try done; try lia. cbn [mbind result_bind]. rewrite Eq0 in W6, W8.
  destruct (W6 0 ltac:(lia)) as (S1 & _ & _). rewrite Z.add_0_r, Z.mul_0_r, Z.add_0_r in S1.
  rewrite (get2_imem _ (T + sc)) by (done || lia || (rewrite W5; cbn; lia)). rewrite Eq0, S1. cbn [mbind result_bind].
  pose proof (head_bound bp T Hwf1 ltac:(lia)). pose proof (head_nonneg bp T Hwf1). rewrite as_u_id by (unfold is_u; lia).
  unfold with_byte_start. cbn [ParallelPostingsArray.byte_starts].
  destruct (vset_nthz (ParallelPostingsArray.byte_starts (postings_array fd)) term (head bp)) as (bs' & -> & Hbs & Hbn); [lia|]. cbn [mbind result_bind].
  eexists _, ps', (head bp), q0. split; [done|]. split_and!; try done; [by split; cbn; congruence|apply (ints_wf_mono _ _ _ W2); lia|].
  assert (head bp mod B = ByteBlockPool.byte_upto bp) as Hbmod.
  { unfold head. rewrite (wf_offset bp T Hwf1). apply mod_at; [done|]. pose proof (wf_byte bp T Hwf1). lia. }
  split; cbn [int_upto_idx int_upto_start]; try done.
  - rewrite Hbmod. lia.
  - rewrite Hqm, W4. unfold ip2, ihead, q0, ihead in *. cbn. lia.
  - intros a Ha. rewrite W7 by lia. by apply Hbm.
  - intros q Hq. rewrite W8 by lia. by apply Him.
Qed.

(** * Runs

    The operations of any number of fields on the pools they share, and what they mean:
    for every field and term a list of streams. *)

Record state : Type := State { fields : list t; shared : pools }.

Inductive op : Type :=
  | Add (f term : Z)
  | Select (f term : Z)
  | WriteBytes (f stream : Z) (data : list Z)
  | WriteVInt (f stream i : Z)
  | Grow (f : Z)
  | Reset.

Definition grown (fd : t) : t :=
  mk (stream_count fd) (num_posting_int fd) (ParallelPostingsArray.grow (postings_array fd)) (int_upto_idx fd) (int_upto_start fd).

Definition on_field (f : Z) (g : t → pools → result (t * pools)) (s : state) : result state :=
  fd ← vget (fields s) f;
  '(fd, ps) ← g fd (shared s);
  fs ← vset (fields s) f fd;
  Ok (State fs ps).

Definition exec (o : op) : state → result state :=
  match o with
  | Add f term => on_field f (fun fd ps => add fd ps term)
  | Select f term => on_field f (fun fd ps => add fd ps (- term - 1))
  | WriteBytes f stream data => on_field f (fun fd ps => ps ← write_bytes fd ps stream data; Ok (fd, ps))
  | WriteVInt f stream i => on_field f (fun fd ps => ps ← write_vint fd ps stream i; Ok (fd, ps))
  | Grow f => on_field f (fun fd ps => Ok (grown fd, ps))
  | Reset => fun s => ps ← reset_pools (shared s); Ok (State (fields s) ps)
  end.

Record spec : Type := Spec { caps : list Z; terms : gmap (Z * Z) (list (list Z)); current : gmap Z Z }.

Definition append_stream (s : spec) (f i : Z) (data : list Z) : option spec :=
  if decide (0 ≤ f ∧ 0 ≤ i) then
    match current s !! f with
    | Some term =>
      match terms s !! (f, term) with
      | Some ss =>
        match ss !! Z.to_nat i with
        | Some bs => Some (Spec (caps s) (<[(f, term) := <[Z.to_nat i := bs ++ data]> ss]> (terms s)) (current s))
        | None => None
        end
      | None => None
      end
    | None => None
    end
  else None.

Definition spec_step (scs : list Z) (o : op) (s : spec) : option spec :=
  match o with
  | Add f term =>
    match scs !! Z.to_nat f, caps s !! Z.to_nat f, terms s !! (f, term) with
    | Some sc, Some cap, None =>
      if decide (0 ≤ f ∧ 0 ≤ term < cap)
      then Some (Spec (caps s) (<[(f, term) := replicate (Z.to_nat sc) []]> (terms s)) (<[f := term]> (current s))) else None
    | _, _, _ => None
    end
  | Select f term =>
    match terms s !! (f, term) with
    | Some _ => if decide (term < 2 ^ 31 - 1) then Some (Spec (caps s) (terms s) (<[f := term]> (current s))) else None
    | None => None
    end
  | WriteBytes f i data => append_stream s f i data
  | WriteVInt f i v => if decide (is_i 32 v) then append_stream s f i (vbytes 4 (as_u32 v)) else None
  | Grow f =>
    match scs !! Z.to_nat f, caps s !! Z.to_nat f with
    | Some _, Some cap => if decide (0 ≤ f) then Some (Spec (<[Z.to_nat f := over_size (cap + 1)]> (caps s)) (terms s) (current s)) else None
    | _, _ => None
    end
  | Reset => Some (Spec (caps s) ∅ ∅)
  end.

(** A bound on the bytes an operation takes from the pools. *)
Definition cost (o : op) : Z :=
  match o with
  | Add _ _ => 5000
  | WriteBytes _ _ data => 120 * vlen data
  | WriteVInt _ _ _ => 600
  | _ => 0
  end.

Record inv (scs : list Z) (st : state) (s : spec) (T : Z) (own iown : Z → option key) : Prop := {
  inv_pool : pool_wf (byte_pool (shared st)) T;
  inv_ints : ints_wf (int_pool (shared st)) T;
  inv_own : owned own (byte_pool (shared st));
  inv_iown : iowned iown (int_pool (shared st));
  inv_len : length (fields st) = length scs;
  inv_fields : ∀ f fd, fields st !! f = Some fd → ∃ sc cap, scs !! f = Some sc ∧ caps s !! f = Some cap ∧ field_wf fd sc cap;
  inv_terms : ∀ f term ss, terms s !! (f, term) = Some ss → 0 ≤ f ∧
    ∃ fd, fields st !! Z.to_nat f = Some fd ∧ term_ok (shared st) own iown fd f term ss;
  inv_current : ∀ f term, current s !! f = Some term →
    ∃ fd, fields st !! Z.to_nat f = Some fd ∧ is_Some (terms s !! (f, term)) ∧
      int_upto_idx fd = int_start fd term / IW ∧ int_upto_start fd = int_start fd term mod IW;
}.

(** A term is where it was when its starts and its streams are. *)
Lemma term_frame ps ps' own own' iown iown' fd fd' f term ss : term_ok ps own iown fd f term ss →
  stream_count fd' = stream_count fd → term < vlen (ParallelPostingsArray.int_starts (postings_array fd')) →
  int_start fd' term = int_start fd term → byte_start fd' term = byte_start fd term →
  (∀ i a, own a = Some (f, term, i) → own' a = Some (f, term, i) ∧ mem (byte_pool ps') a = mem (byte_pool ps) a) →
  (∀ i q, iown q = Some (f, term, i) → iown' q = Some (f, term, i) ∧ imem (int_pool ps') q = imem (int_pool ps) q) →
  term_ok ps' own' iown' fd' f term ss.
Proof.
  intros [H1 H2 H3 H4] Hsc Hlen Hi Hb Hm Him. split; rewrite ?Hsc, ?Hi, ?Hb; try done; [lia|]. intros i bs Hi0 Hbs.
  apply (stream_frame ps ps' own own' iown iown'); [intros a; apply Hm|intros q; apply Him|by apply H4].
Qed.

(** What is owned by no field stays where it is, whatever the fields do. *)
Definition keeps (own own' : Z → option key) (ps ps' : pools) : Prop :=
  head (byte_pool ps) ≤ head (byte_pool ps') ∧ ∀ a (k : key), k.1.1 < 0 → own a = Some k → own' a = Some k ∧ mem (byte_pool ps') a = mem (byte_pool ps) a.

Lemma keeps_refl own ps : keeps own own ps ps.
Proof. done. Qed.
Lemma keeps_trans own1 own2 own3 ps1 ps2 ps3 : keeps own1 own2 ps1 ps2 → keeps own2 own3 ps2 ps3 → keeps own1 own3 ps1 ps3.
Proof. intros [H1 K1] [H2 K2]. split; [lia|]. intros a k Hk Ha. destruct (K1 a k Hk Ha) as [Ha2 E2]. destruct (K2 a k Hk Ha2) as [Ha3 E3]. split; [done|congruence]. Qed.

(** Writing one byte. *)
Lemma write_byte_inv scs st s T own iown f fd i b s' : inv scs st s T own iown → T ≤ LIMIT → fields st !! Z.to_nat f = Some fd → append_stream s f i [b] = Some s' →
  ∃ ps' own', write_byte fd (shared st) i b = Ok ps' ∧ inv scs (State (fields st) ps') s' (T + 120) own' iown ∧ keeps own own' (shared st) ps'.
Proof.
  intros [I1 I2 I3 I4 I5 I6 I7 I8] HT Hfd. unfold append_stream. case_decide as Hfi; [|done]. destruct (current s !! f) as [term|] eqn:Ec; [|done].
  destruct (terms s !! (f, term)) as [ss|] eqn:Et; [|done]. destruct (ss !! Z.to_nat i) as [bs|] eqn:Eb; [|done]. intros [= <-].
  destruct (I7 f term ss Et) as (_ & fd' & Hfd' & Ht). rewrite Hfd in Hfd'. injection Hfd' as <-. destruct (I8 f term Ec) as (fd' & Hfd' & _ & Hidx & Hst).
  rewrite Hfd in Hfd'. injection Hfd' as <-. pose proof Ht as [T1 T2 [T3 T3'] T4]. pose proof (lookup_lt_Some _ _ _ Eb) as Hilt. unfold vlen in T2.
  destruct (write_byte_stream (shared st) T own iown fd (int_start fd term) (byte_start fd term) (f, term, i) bs b) as (ps' & own' & E & W1 & W2 & W3 & W4 & W5 & W6 & W7 & W8);
    try done; [apply T4; [lia|done]| |].
  { cbn [snd]. unfold slot_at. rewrite Hidx, Hst. pose proof (Z.div_mod (int_start fd term) IW ltac:(done)). pose proof (Z.mod_pos_bound (int_start fd term) IW ltac:(done)).
    replace (int_start fd term + i) with (int_start fd term / IW * IW + (int_start fd term mod IW + i)) by lia. rewrite div_at, mod_at by (done || lia). done. }
  cbn [snd] in *. exists ps', own'. split; [done|]. split; [|split; [done|]; intros a k Hk; apply W6; intros ->; cbn in Hk; lia]. split; try done; cbn [shared fields caps terms current].
  - intros f' term' ss'. destruct (decide ((f', term') = (f, term))) as [[= -> ->]|Hne].
    + rewrite lookup_insert_eq. intros [= <-]. split; [lia|]. exists fd. split; [done|]. split; try done; [by rewrite vlen_insert|].
      intros i' bs' Hi' Hl. destruct (decide (i' = i)) as [->|Hni].
      * rewrite list_lookup_insert_eq in Hl by done. by injection Hl as <-.
      * rewrite list_lookup_insert_ne in Hl by lia. apply (stream_frame (shared st) ps' own own' iown iown); [|intros q Hq; split; [done|]|by apply T4].
        { intros a. apply W6. congruence. }
        apply W7; [by apply (I4 q _ Hq)|]. intros ->. destruct (T4 i bs ltac:(lia) Eb) as (Hq' & _). cbn [snd] in Hq'. rewrite Hq in Hq'. congruence.
    + rewrite lookup_insert_ne by congruence. intros Hs'. destruct (I7 f' term' ss' Hs') as (Hf' & fd' & Hfd' & Ht'). split; [done|]. exists fd'. split; [done|].
      apply (term_frame (shared st) ps' own own' iown iown fd' fd' f' term' ss'); try done; [apply Ht'|intros j a; apply W6; congruence|].
      intros j q Hq. split; [done|]. apply W7; [by apply (I4 q _ Hq)|]. intros ->. destruct (T4 i bs ltac:(lia) Eb) as (Hq' & _). cbn [snd] in Hq'. rewrite Hq in Hq'. congruence.
  - intros f' term' Hc'. destruct (I8 f' term' Hc') as (fd' & Hfd' & Hterm' & Hslot). exists fd'. split; [done|]. split; [|done].
    destruct (decide ((f', term') = (f, term))) as [[= -> ->]|Hne]; [rewrite lookup_insert_eq; by eexists|by rewrite lookup_insert_ne by congruence].
Qed.

Lemma append_nil s f i s' : append_stream s f i [] = Some s' → s' = s.
Proof.
  unfold append_stream. case_decide; [|done]. destruct (current s !! f) as [term|]; [|done]. destruct (terms s !! (f, term)) as [ss|] eqn:Et; [|done].
  destruct (ss !! Z.to_nat i) as [bs|] eqn:Eb; [|done]. intros [= <-]. rewrite app_nil_r, list_insert_id, insert_id by done. by destruct s.
Qed.

Lemma append_app s f i d1 d2 s' : append_stream s f i (d1 ++ d2) = Some s' → ∃ s1, append_stream s f i d1 = Some s1 ∧ append_stream s1 f i d2 = Some s'.
Proof.
  unfold append_stream. case_decide; [|done]. destruct (current s !! f) as [term|] eqn:Ec; [|done]. destruct (terms s !! (f, term)) as [ss|] eqn:Et; [|done].
  destruct (ss !! Z.to_nat i) as [bs|] eqn:Eb; [|done]. intros [= <-]. eexists. split; [done|]. cbn [current terms caps]. rewrite Ec, lookup_insert_eq.
  rewrite list_lookup_insert_eq by (by eapply lookup_lt_Some). rewrite insert_insert_eq, list_insert_insert_eq. by rewrite <- app_assoc.
Qed.

Lemma write_bytes_inv scs f fd i data : ∀ st s T own iown s', inv scs st s T own iown → T + 120 * vlen data ≤ LIMIT → fields st !! Z.to_nat f = Some fd →
  append_stream s f i data = Some s' →
  ∃ ps' own', write_bytes fd (shared st) i data = Ok ps' ∧ inv scs (State (fields st) ps') s' (T + 120 * vlen data) own' iown ∧ keeps own own' (shared st) ps'.
Proof.
  induction data as [|b data IH]; intros st s T own iown s' Hinv HT Hfd Ha.
  - apply append_nil in Ha as ->. exists (shared st), own. split; [done|]. rewrite (vlen_nil (A := Z)), Z.mul_0_r, Z.add_0_r. split; [by destruct st|apply keeps_refl].
  - apply (append_app s f i [b] data) in Ha as (s1 & Ha1 & Ha2). rewrite vlen_cons in *. pose proof (vlen_nonneg data).
    destruct (write_byte_inv scs st s T own iown f fd i b s1 Hinv ltac:(lia) Hfd Ha1) as (ps1 & own1 & E1 & Hinv1 & K1).
    destruct (IH _ _ _ _ _ _ Hinv1 ltac:(lia) Hfd Ha2) as (ps' & own' & E' & Hinv' & K'). exists ps', own'. unfold write_bytes in *. cbn [for_each]. rewrite E1. split; [done|].
    split; [by replace (T + 120 * (vlen data + 1)) with (T + 120 + 120 * vlen data) by lia|by apply (keeps_trans _ own1 _ _ ps1)].
Qed.

(** [write_vint] writes the groups of seven bits that [read_vint] reads. *)
Lemma write_vint_loop_bytes fd i fuel : ∀ ps v, is_i 32 v → as_u32 v < 2 ^ (7 * Z.of_nat (S fuel)) →
  write_vint_loop fuel fd ps i v = write_bytes fd ps i (vbytes fuel (as_u32 v)).
Proof.
  induction fuel as [|fuel IH]; intros ps v Hv Hlt; cbn [write_vint_loop vbytes]; pose proof (as_u_range 32 v ltac:(lia)) as Hu; unfold is_u in Hu.
  all: assert ((Z.ldiff v 127 =? 0) = (as_u32 v <? 128)) as -> by
    (destruct (Z.le_gt_cases 0 v) as [Hp|Hn]; [rewrite (as_u_id 32 v) by (unfold is_i, is_u in *; lia); by apply ldiff_127|];
     rewrite (proj2 (Z.ltb_ge (as_u32 v) 128)) by (unfold is_i, as_u in *; rewrite <- (Z.mod_unique_pos v (2 ^ 32) (-1) (v + 2 ^ 32)) by lia; lia);
     apply Z.eqb_neq; intros E; pose proof (proj2 (Z.ldiff_neg v 127) ltac:(lia)); lia).
  all: assert (v mod 128 = as_u32 v mod 128) as Hmod by (unfold as_u; rewrite Z.mod_mod_divide; [done|by exists (2 ^ 25)]).
  all: destruct (Z.ltb_spec (as_u32 v) 128) as [Hs|Hs].
  - unfold write_bytes. cbn [for_each]. rewrite land_127, Hmod, Z.mod_small, as_u_id by (unfold is_u; lia). by destruct (write_byte fd ps i (as_u32 v)).
  - change (2 ^ (7 * Z.of_nat 1)) with 128 in Hlt. lia.
  - unfold write_bytes. cbn [for_each]. rewrite land_127, Hmod, Z.mod_small, as_u_id by (unfold is_u; lia). by destruct (write_byte fd ps i (as_u32 v)).
  - rewrite cont_byte, Hmod. unfold write_bytes. cbn [for_each]. destruct (write_byte fd ps i _) as [ps1| | |]; try done. cbn [mbind result_bind].
    pose proof (Z.div_pos (as_u32 v) 128 ltac:(lia) ltac:(lia)). pose proof (Z.div_lt_upper_bound (as_u32 v) 128 (2 ^ 25) ltac:(lia) ltac:(lia)).
    assert (unsigned_shift 32 v 7 = as_u32 v / 128) as ->.
    { unfold unsigned_shift. rewrite Z.shiftr_div_pow2 by lia. apply as_i_id; [lia|]. unfold is_i. change (2 ^ 7) with 128. lia. }
    rewrite IH; rewrite ?(as_u_id 32 (as_u32 v / 128)) by (unfold is_u; lia); [done|unfold is_i; lia|].
    apply Z.div_lt_upper_bound; [lia|]. change 128 with (2 ^ 7). rewrite <- Z.pow_add_r by lia. by replace (7 + 7 * Z.of_nat (S fuel)) with (7 * Z.of_nat (S (S fuel))) by lia.
Qed.

Lemma write_vint_bytes fd ps i v : is_i 32 v → write_vint fd ps i v = write_bytes fd ps i (vbytes 4 (as_u32 v)).
Proof. intros Hv. apply write_vint_loop_bytes; [done|]. pose proof (as_u_range 32 v ltac:(lia)) as Hu. unfold is_u in Hu. change (2 ^ (7 * Z.of_nat 5)) with (2 ^ 35). lia. Qed.

(** Running an operation on one field. *)
Lemma on_field_ok f g st fd fd' ps' : 0 ≤ f → fields st !! Z.to_nat f = Some fd → g fd (shared st) = Ok (fd', ps') →
  on_field f g st = Ok (State (<[Z.to_nat f := fd']> (fields st)) ps').
Proof.
  intros Hf Hfd Hg. unfold on_field. rewrite (proj2 (vget_Ok (fields st) f fd)) by done. cbn [mbind result_bind]. rewrite Hg. cbn [mbind result_bind].
  rewrite vset_in; [done|]. apply lookup_lt_Some in Hfd. unfold vlen. lia.
Qed.

Lemma field_lookup (l : list t) f fd fd' g : l !! f = Some fd → <[f := fd']> l !! g = if decide (g = f) then Some fd' else l !! g.
Proof. intros Hl. case_decide as E; [subst g; apply list_lookup_insert_eq; by eapply lookup_lt_Some|by apply list_lookup_insert_ne]. Qed.

(** The owners after a term was added: its first slices and its slots. *)
Definition own_slices (own : Z → option key) (h sc f term a : Z) : option key :=
  if decide (h ≤ a < h + 5 * sc) then Some (f, term, (a - h) / 5) else own a.
Definition own_slots (iown : Z → option key) (q0 sc f term q : Z) : option key :=
  if decide (q0 ≤ q < q0 + sc) then Some (f, term, q - q0) else iown q.

Lemma new_term_ok fd fd' ps ps' own iown sc cap T f term h q0 : term_added fd fd' ps ps' sc term h q0 → field_wf fd' sc cap → 0 ≤ term < cap →
  pool_wf (byte_pool ps') T → T ≤ LIMIT → 0 ≤ h → 0 ≤ q0 →
  term_ok ps' (own_slices own h sc f term) (own_slots iown q0 sc f term) fd' f term (replicate (Z.to_nat sc) []).
Proof.
  intros [(Hh & Hh' & Hhm) (Hq & Hq' & Hqm) Hsl _ _ Hint Hbyte _] [F1 F2 F3 F4 F5 F6] Hterm Hwf HT H0 Hq0.
  pose proof (Hint term ltac:(lia)) as Ei. pose proof (Hbyte term ltac:(lia)) as Eb. rewrite Z.eqb_refl in Ei, Eb.
  split; rewrite ?Ei, ?Eb, ?F1; [lia|rewrite vlen_replicate; lia|lia|]. intros i bs Hi0 [-> Hi]%lookup_replicate.
  apply (first_stream ps' _ _ h q0 sc); try done; try lia; [pose proof (head_bound _ _ Hwf ltac:(lia)); lia| |].
  - intros a Ha. unfold own_slices. rewrite decide_True by lia. do 2 f_equal. symmetry. apply (Z.div_unique _ 5 _ (a - h - 5 * i)); lia.
  - unfold own_slots. rewrite decide_True by lia. do 2 f_equal. lia.
Qed.

Lemma added_keeps fd fd' ps ps' own iown sc f term h q0 : term_added fd fd' ps ps' sc term h q0 → owned own (byte_pool ps) → iowned iown (int_pool ps) →
  (∀ a k, own a = Some k → own_slices own h sc f term a = Some k ∧ mem (byte_pool ps') a = mem (byte_pool ps) a) ∧
  (∀ q k, iown q = Some k → own_slots iown q0 sc f term q = Some k ∧ imem (int_pool ps') q = imem (int_pool ps) q).
Proof.
  intros [(Hh & _) (Hq & _) _ Hm Him _ _ _] Ho Hio. split.
  - intros a k Ha. pose proof (Ho a k Ha). unfold own_slices. rewrite decide_False by lia. split; [done|]. by apply Hm.
  - intros q k Ha. pose proof (Hio q k Ha). unfold own_slots. rewrite decide_False by lia. split; [done|]. by apply Him.
Qed.

(** A new term takes fresh positions of both pools. *)
Lemma add_inv scs st s T own iown f term s' : inv scs st s T own iown → T + 5000 ≤ LIMIT → spec_step scs (Add f term) s = Some s' →
  ∃ st' own' iown', exec (Add f term) st = Ok st' ∧ inv scs st' s' (T + 5000) own' iown' ∧ keeps own own' (shared st) (shared st').
Proof.
  intros [I1 I2 I3 I4 I5 I6 I7 I8] HT. cbn [spec_step exec]. destruct (scs !! Z.to_nat f) as [sc|] eqn:Esc; [|done].
  destruct (caps s !! Z.to_nat f) as [cap|] eqn:Ecap; [|done]. destruct (terms s !! (f, term)) eqn:Et; [done|]. case_decide as Hft; [|done]. intros [= <-].
  destruct (lookup_lt_is_Some_2 (fields st) (Z.to_nat f)) as [fd Hfd]; [rewrite I5; by eapply lookup_lt_Some|].
  destruct (I6 _ fd Hfd) as (sc' & cap' & Esc' & Ecap' & Hwf). rewrite Esc in Esc'. rewrite Ecap in Ecap'. injection Esc' as <-. injection Ecap' as <-. pose proof (fwf_range fd sc cap Hwf) as Hr.
  destruct (add_new_term fd (shared st) T sc cap term Hwf I1 I2 ltac:(lia) ltac:(lia)) as (fd' & ps' & h & q0 & E & Hwf' & Hb' & Hi' & Hadd).
  pose proof (head_nonneg _ _ I1). pose proof (ihead_nonneg _ _ I2). destruct (added_keeps fd fd' (shared st) ps' own iown sc f term h q0 Hadd I3 I4) as [Hkeep Hikeep].
  pose proof Hadd as [(Hh & Hh' & _) (Hq & Hq' & _) _ _ _ Hint Hbyte Hslot]. pose proof (fun g => field_lookup (fields st) _ fd fd' g Hfd) as Hlook.
  exists (State (<[Z.to_nat f := fd']> (fields st)) ps'), (own_slices own h sc f term), (own_slots iown q0 sc f term).
  split; [apply on_field_ok with fd; done || lia|]. split; [|split; [cbn [shared]; lia|intros a k _; apply Hkeep]]. split; cbn [shared fields caps terms current].
  - apply (pool_wf_mono _ _ _ Hb'). lia.
  - apply (ints_wf_mono _ _ _ Hi'). lia.
  - intros a k. unfold own_slices. case_decide; [lia|]. intros Ha. pose proof (I3 a k Ha). lia.
  - intros q k. unfold own_slots. case_decide; [lia|]. intros Ha. pose proof (I4 q k Ha). lia.
  - by rewrite length_insert.
  - intros g fd0. rewrite Hlook. case_decide; [intros [= <-]; subst g; by exists sc, cap|]. apply I6.
  - intros f' term' ss'. destruct (decide ((f', term') = (f, term))) as [[= -> ->]|Hne].
    { rewrite lookup_insert_eq. intros [= <-]. split; [lia|]. exists fd'. rewrite Hlook, decide_True by done. split; [done|].
      apply (new_term_ok fd fd' (shared st) ps' own iown sc cap (T + 5 * sc)); done || lia. }
    rewrite lookup_insert_ne by congruence. intros Hs'. destruct (I7 f' term' ss' Hs') as (Hf' & fd0 & Hfd0 & Ht'). split; [done|]. rewrite Hlook. pose proof (tok_term _ _ _ _ _ _ _ Ht') as Htt.
    case_decide as Ef; [|exists fd0; split; [done|]; apply (term_frame (shared st) ps' own _ iown _ fd0 fd0); try done; try apply Ht'; intros; [by apply Hkeep|by apply Hikeep]].
    exists fd'. split; [done|]. assert (f' = f) as -> by lia. rewrite Hfd in Hfd0. injection Hfd0 as <-. assert (term' ≠ term) as Hnt by congruence.
    apply (term_frame (shared st) ps' own _ iown _ fd fd'); try done.
    + by rewrite (fwf_count _ _ _ Hwf), (fwf_count _ _ _ Hwf').
    + rewrite (fwf_starts _ _ _ Hwf'). rewrite (fwf_starts _ _ _ Hwf) in Htt. lia.
    + by rewrite Hint, (proj2 (Z.eqb_neq _ _)) by lia.
    + by rewrite Hbyte, (proj2 (Z.eqb_neq _ _)) by lia.
    + intros i a. apply Hkeep.
    + intros i q. apply Hikeep.
  - intros f' term'. destruct (decide (f' = f)) as [->|Hne].
    + rewrite lookup_insert_eq. intros [= <-]. exists fd'. rewrite Hlook, decide_True, lookup_insert_eq by done. rewrite Hint, Z.eqb_refl by lia. split_and!; try done; by apply Hslot.
    + rewrite lookup_insert_ne by done. intros Hc'. destruct (I8 f' term' Hc') as (fd0 & Hfd0 & [ss0 Hss0] & Hs1). exists fd0. pose proof (proj1 (I7 f' term' ss0 Hss0)).
      rewrite Hlook, decide_False by lia. split; [done|]. rewrite lookup_insert_ne by congruence. split; [by eexists|done].
Qed.

(** An operation that only changes the record of one field, and leaves the starts of its terms. *)
Lemma field_inv scs st s s' T own iown f fd fd' sc cap : inv scs st s T own iown → 0 ≤ f → fields st !! Z.to_nat f = Some fd → scs !! Z.to_nat f = Some sc → field_wf fd' sc cap →
  terms s' = terms s → (∀ g, caps s' !! g = if decide (g = Z.to_nat f) then Some cap else caps s !! g) →
  (∀ term, 0 ≤ term < vlen (ParallelPostingsArray.int_starts (postings_array fd)) →
    term < vlen (ParallelPostingsArray.int_starts (postings_array fd')) ∧ int_start fd' term = int_start fd term ∧ byte_start fd' term = byte_start fd term) →
  (∀ g term, current s' !! g = Some term → is_Some (terms s !! (g, term)) ∧ 0 ≤ g ∧
     (g ≠ f → current s !! g = Some term) ∧ (g = f → int_upto_idx fd' = int_start fd term / IW ∧ int_upto_start fd' = int_start fd term mod IW)) →
  inv scs (State (<[Z.to_nat f := fd']> (fields st)) (shared st)) s' T own iown.
Proof.
  intros [I1 I2 I3 I4 I5 I6 I7 I8] Hf0 Hfd Esc Hwf' Et Ec Hstarts Hcur. pose proof (fun g => field_lookup (fields st) _ fd fd' g Hfd) as Hlook.
  destruct (I6 _ fd Hfd) as (sc0 & cap0 & Esc0 & _ & Hwf). rewrite Esc in Esc0. injection Esc0 as <-.
  assert (∀ g term ss, terms s !! (g, term) = Some ss → 0 ≤ g → Z.to_nat g = Z.to_nat f → 0 ≤ term < vlen (ParallelPostingsArray.int_starts (postings_array fd))) as Hterm.
  { intros g term ss Hs Hg Ef. destruct (I7 g term ss Hs) as (_ & fd0 & Hfd0 & Ht). rewrite Ef, Hfd in Hfd0. injection Hfd0 as <-. apply Ht. }
  split; cbn [shared fields]; try done.
  - by rewrite length_insert.
  - intros g fd0. rewrite Hlook, Ec. case_decide; [intros [= <-]; subst g; by exists sc, cap|]. apply I6.
  - intros g term ss. rewrite Et. intros Hs. destruct (I7 g term ss Hs) as (Hg & fd0 & Hfd0 & Ht). split; [done|]. rewrite Hlook. case_decide as Ef; [|by exists fd0].
    exists fd'. split; [done|]. rewrite Ef, Hfd in Hfd0. injection Hfd0 as <-. destruct (Hstarts term) as (H1 & H2 & H3); [apply Ht|].
    apply (term_frame (shared st) (shared st) own own iown iown fd fd'); try done. by rewrite (fwf_count _ _ _ Hwf), (fwf_count _ _ _ Hwf').
  - intros g term Hc. destruct (Hcur g term Hc) as ([ss Hs] & Hg & Hne & Heq). rewrite Et. destruct (decide (g = f)) as [->|Hd].
    + exists fd'. rewrite Hlook, decide_True by done. split; [done|]. split; [by eexists|]. destruct (Hstarts term) as (_ & -> & _); [by apply (Hterm f term ss)|]. by apply Heq.
    + destruct (I8 g term (Hne Hd)) as (fd0 & Hfd0 & Hrest). exists fd0. rewrite Hlook, decide_False; [done|]. lia.
Qed.

Lemma select_inv scs st s T own iown f term s' : inv scs st s T own iown → T ≤ LIMIT → spec_step scs (Select f term) s = Some s' →
  ∃ st', exec (Select f term) st = Ok st' ∧ inv scs st' s' T own iown.
Proof.
  intros Hinv HT. pose proof Hinv as [I1 I2 I3 I4 I5 I6 I7 I8]. cbn [spec_step exec]. destruct (terms s !! (f, term)) as [ss|] eqn:Et; [|done]. case_decide as Hlt; [|done]. intros [= <-].
  destruct (I7 f term ss Et) as (Hf & fd & Hfd & Ht). destruct (I6 _ fd Hfd) as (sc & cap & Esc & Ecap & Hwf). pose proof (tok_term _ _ _ _ _ _ _ Ht) as Hterm. pose proof (proj1 (tok_slot _ _ _ _ _ _ _ Ht)) as Hq.
  assert (add fd (shared st) (- term - 1) = Ok (mk (stream_count fd) (num_posting_int fd) (postings_array fd) (int_start fd term / IW) (int_start fd term mod IW), shared st)) as E.
  { unfold add. rewrite (proj2 (Z.leb_gt _ _)) by lia. rewrite (as_i_id 32 (- (- term - 1))), as_i_id by (try lia; unfold is_i; lia). replace (- (- term - 1) - 1) with term by lia.
    rewrite vget_nthz by done. cbn [mbind result_bind]. do 3 f_equal.
    - unfold IntBlockPool.INT_BLOCK_SHIFT. by rewrite Z.shiftr_div_pow2.
    - change IntBlockPool.INT_BLOCK_MASK with (Z.ones 13). by rewrite Z.land_ones. }
  eexists. split; [by apply on_field_ok with fd|]. apply (field_inv scs st s _ T own iown f fd _ sc cap); try done; cbn [caps terms current].
  - by destruct Hwf.
  - intros g. case_decide; [by subst g|done].
  - intros t' Ht'. split; [apply Ht'|done].
  - intros g t'. destruct (decide (g = f)) as [->|Hne].
    + rewrite lookup_insert_eq. intros [= <-]. by split_and!; [eexists|..].
    + rewrite lookup_insert_ne by done. intros Hc. destruct (I8 g t' Hc) as (fd0 & _ & [ss0 Hs0] & _). pose proof (proj1 (I7 _ _ _ Hs0)). by split_and!; [eexists|..].
Qed.

Lemma grow_inv scs st s T own iown f s' : inv scs st s T own iown → spec_step scs (Grow f) s = Some s' →
  ∃ st', exec (Grow f) st = Ok st' ∧ inv scs st' s' T own iown.
Proof.
  intros Hinv. pose proof Hinv as [I1 I2 I3 I4 I5 I6 I7 I8]. cbn [spec_step exec]. destruct (scs !! Z.to_nat f) as [sc|] eqn:Esc; [|done].
  destruct (caps s !! Z.to_nat f) as [cap|] eqn:Ecap; [|done]. case_decide as Hf; [|done]. intros [= <-].
  destruct (lookup_lt_is_Some_2 (fields st) (Z.to_nat f)) as [fd Hfd]; [rewrite I5; by eapply lookup_lt_Some|].
  destruct (I6 _ fd Hfd) as (sc' & cap' & Esc' & Ecap' & Hwf). rewrite Esc in Esc'. rewrite Ecap in Ecap'. injection Esc' as <-. injection Ecap' as <-.
  pose proof Hwf as [F1 F2 F3 F4 F5 F6]. pose proof (over_size_grows (cap + 1)) as Hgrow. eexists. split; [by apply on_field_ok with fd|].
  apply (field_inv scs st s _ T own iown f fd _ sc (over_size (cap + 1))); try done; cbn [caps terms current].
  - split; cbn [grown stream_count num_posting_int postings_array ParallelPostingsArray.grow ParallelPostingsArray.size ParallelPostingsArray.int_starts ParallelPostingsArray.byte_starts];
      try done; rewrite F4; [done|apply vlen_resize; lia..].
  - intros g. case_decide as E; [subst g; apply list_lookup_insert_eq; by eapply lookup_lt_Some|by apply list_lookup_insert_ne].
  - intros term Hterm. unfold int_start, byte_start. cbn [grown postings_array ParallelPostingsArray.grow ParallelPostingsArray.int_starts ParallelPostingsArray.byte_starts].
    rewrite F4, vlen_resize, !resize_nthz by lia. split; [lia|done].
  - intros g term Hc. destruct (I8 g term Hc) as (fd0 & Hfd0 & [ss Hs] & Hslot). pose proof (proj1 (I7 _ _ _ Hs)). split; [by eexists|]. split; [done|]. split; [done|].
    intros ->. rewrite Hfd in Hfd0. by injection Hfd0 as <-.
Qed.

(** After [reset] nothing is owned. *)
Lemma reset_inv scs st s T own iown : inv scs st s T own iown → 0 ≤ T →
  ∃ st', exec Reset st = Ok st' ∧ inv scs st' (Spec (caps s) ∅ ∅) T (fun _ => None) (fun _ => None).
Proof.
  intros [I1 I2 _ _ I5 I6 _ _] HT. cbn [exec]. unfold reset_pools. destruct (ints_reset_spec _ _ I2) as (ip & -> & Wi & _). destruct (pool_reset_spec _ _ I1) as (bp & -> & Wb & _). cbn [mbind result_bind].
  eexists. split; [done|]. split; try done; cbn [shared fields byte_pool int_pool].
  - by apply (pool_wf_mono _ 0).
  - by apply (ints_wf_mono _ 0).
Qed.

(** ** Every operation keeps the invariant *)

Lemma cost_nonneg o : 0 ≤ cost o.
Proof. destruct o; cbn [cost]; try lia. pose proof (vlen_nonneg data). lia. Qed.

Lemma inv_mono scs st s T T' own iown : inv scs st s T own iown → T ≤ T' → inv scs st s T' own iown.
Proof. intros [] HT. split; try done; [by apply (pool_wf_mono _ T)|by apply (ints_wf_mono _ T)]. Qed.

Lemma write_inv scs st s T own iown f i data s' (g : t → pools → result (t * pools)) : inv scs st s T own iown → T + 120 * vlen data ≤ LIMIT → append_stream s f i data = Some s' →
  (∀ fd ps, g fd ps = (ps ← write_bytes fd ps i data; Ok (fd, ps))) →
  ∃ st' own', on_field f g st = Ok st' ∧ inv scs st' s' (T + 120 * vlen data) own' iown.
Proof.
  intros Hinv HT Ha Hg. assert (∃ fd, 0 ≤ f ∧ fields st !! Z.to_nat f = Some fd) as (fd & Hf & Hfd).
  { unfold append_stream in Ha. case_decide; [|done]. destruct (current s !! f) as [term|] eqn:Ec; [|done]. destruct (inv_current _ _ _ _ _ _ Hinv f term Ec) as (fd & Hfd & _). exists fd. by split; [lia|]. }
  destruct (write_bytes_inv scs f fd i data st s T own iown s' Hinv HT Hfd Ha) as (ps' & own' & E & Hinv' & _). eexists _, own'. split.
  - apply (on_field_ok f g st fd fd ps'); try done. by rewrite Hg, E.
  - by rewrite list_insert_id by done.
Qed.

Lemma exec_inv scs st s T own iown o s' : inv scs st s T own iown → 0 ≤ T → T + cost o ≤ LIMIT → spec_step scs o s = Some s' →
  ∃ st' own' iown', exec o st = Ok st' ∧ inv scs st' s' (T + cost o) own' iown'.
Proof.
  intros Hinv HT0 HT Hs. destruct o as [f term|f term|f i data|f i v|f|]; cbn [cost] in *.
  - destruct (add_inv scs st s T own iown f term s' Hinv HT Hs) as (st' & own' & iown' & E & Hinv' & _). by exists st', own', iown'.
  - destruct (select_inv scs st s T own iown f term s' Hinv ltac:(lia) Hs) as (st' & E & Hinv'). exists st', own, iown. by rewrite Z.add_0_r.
  - destruct (write_inv scs st s T own iown f i data s' _ Hinv HT Hs (fun _ _ => eq_refl)) as (st' & own' & E & Hinv'). by exists st', own', iown.
  - cbn [spec_step] in Hs. case_decide as Hv; [|done]. pose proof (vbytes_length 4 (as_u32 v)) as Hl.
    destruct (write_inv scs st s T own iown f i (vbytes 4 (as_u32 v)) s' (fun fd ps => ps ← write_vint fd ps i v; Ok (fd, ps)) Hinv ltac:(unfold vlen; lia) Hs) as (st' & own' & E & Hinv').
    { intros fd ps. by rewrite write_vint_bytes. }
    exists st', own', iown. split; [done|]. apply (inv_mono _ _ _ _ _ _ _ Hinv'). unfold vlen. lia.
  - destruct (grow_inv scs st s T own iown f s' Hinv Hs) as (st' & E & Hinv'). exists st', own, iown. by rewrite Z.add_0_r.
  - cbn [spec_step] in Hs. injection Hs as <-. destruct (reset_inv scs st s T own iown Hinv HT0) as (st' & E & Hinv'). eexists _, _, _. rewrite Z.add_0_r. by split.
Qed.

Definition exec_all (ops : list op) (st : state) : result state := for_each ops exec st.

Fixpoint spec_all (scs : list Z) (ops : list op) (s : spec) : option spec :=
  match ops with
  | [] => Some s
  | o :: ops => match spec_step scs o s with Some s => spec_all scs ops s | None => None end
  end.

Definition total_cost (ops : list op) : Z := foldr (fun o c => cost o + c) 0 ops.

Lemma total_cost_nonneg ops : 0 ≤ total_cost ops.
Proof. induction ops as [|o ops IH]; [done|]. cbn. pose proof (cost_nonneg o). unfold total_cost in IH. lia. Qed.

Lemma exec_all_inv scs ops : ∀ st s T own iown s', inv scs st s T own iown → 0 ≤ T → T + total_cost ops ≤ LIMIT → spec_all scs ops s = Some s' →
  ∃ st' own' iown', exec_all ops st = Ok st' ∧ inv scs st' s' (T + total_cost ops) own' iown'.
Proof.
  induction ops as [|o ops IH]; intros st s T own iown s' Hinv HT0 HT Hs.
  - cbn in Hs. injection Hs as <-. exists st, own, iown. split; [done|]. by rewrite Z.add_0_r.
  - cbn [spec_all] in Hs. destruct (spec_step scs o s) as [s1|] eqn:E1; [|done]. change (total_cost (o :: ops)) with (cost o + total_cost ops) in *.
    pose proof (total_cost_nonneg ops). pose proof (cost_nonneg o). destruct (exec_inv scs st s T own iown o s1 Hinv HT0 ltac:(lia) E1) as (st1 & own1 & iown1 & Ex & Hinv1).
    destruct (IH st1 s1 _ own1 iown1 s' Hinv1 ltac:(lia) ltac:(lia) Hs) as (st' & own' & iown' & Ex' & Hinv'). exists st', own', iown'. unfold exec_all in *. cbn [for_each]. rewrite Ex.
    split; [done|]. by rewrite Z.add_assoc.
Qed.

(** Fresh pools, and the arrays of the fields with their sizes. *)
Definition init_state (ia : IntBlockPool.IntAllocator) (ba : ByteBlockPool.ByteBlockAllocator) (scs sizes : list Z) : state :=
  State (zip_with (fun sc n => new sc (ParallelPostingsArray.new n)) scs sizes) (Pools (IntBlockPool.new ia) (ByteBlockPool.new ba)).
Definition init_spec (sizes : list Z) : spec := Spec sizes ∅ ∅.

Lemma init_inv ia ba scs sizes : IntBlockPool.block_size ia = IW → ByteBlockPool.block_size ba = B → length scs = length sizes →
  Forall (fun sc => 1 ≤ sc ≤ 1000) scs → Forall (fun n => 0 ≤ n) sizes →
  inv scs (init_state ia ba scs sizes) (init_spec sizes) 0 (fun _ => None) (fun _ => None).
Proof.
  intros Hia Hba Hlen Hsc Hn. split; cbn [init_state init_spec shared fields caps terms current byte_pool int_pool]; try done.
  - by apply pool_new_wf.
  - by apply ints_new_wf.
  - rewrite length_zip_with. lia.
  - intros f fd Hfd. apply lookup_zip_with_Some in Hfd as (sc & n & -> & Esc & En). exists sc, n. split_and!; try done.
    rewrite List.Forall_forall in Hsc, Hn. pose proof (Hsc sc ltac:(by apply list_elem_of_In, list_elem_of_lookup_2 with f)).
    pose proof (Hn n ltac:(by apply list_elem_of_In, list_elem_of_lookup_2 with f)). split; cbn; try done; by rewrite vlen_replicate.
Qed.

(** The reader of a stream has its bytes before it. *)
Lemma init_reader_ok scs st s T own iown f term ss i bs : inv scs st s T own iown → T ≤ LIMIT → terms s !! (f, term) = Some ss → 0 ≤ i → ss !! Z.to_nat i = Some bs →
  ∃ fd r, vget (fields st) f = Ok fd ∧ init_reader fd (shared st) term i = Ok r ∧ remains r bs.
Proof.
  intros [I1 I2 I3 I4 I5 I6 I7 I8] HT Hs Hi Hb. destruct (I7 f term ss Hs) as (Hf & fd & Hfd & [T1 T2 [T3 T3'] T4]). destruct (I6 _ fd Hfd) as (sc & cap & _ & _ & [F1 F2 F3 F4 F5 F6]).
  destruct (T4 i bs Hi Hb) as (Hq & He & Hc). cbn [snd] in *. pose proof (lookup_lt_Some _ _ _ Hb) as Hilt. unfold vlen in T2. exists fd. set (u := int_start fd term) in *.
  pose proof (Z.mod_pos_bound u IW ltac:(done)). pose proof (Z.div_mod u IW ltac:(done)). destruct (int_position _ T (u + i) I2 (I4 _ _ Hq)) as (Hd & Hm & E).
  assert ((u + i) / IW = u / IW ∧ (u + i) mod IW = u mod IW + i) as [Ed Em].
  { replace (u + i) with (u / IW * IW + (u mod IW + i)) by lia. rewrite div_at, mod_at by (done || lia). done. }
  eexists. split; [by apply vget_Ok|]. unfold init_reader. rewrite !vget_nthz by lia. cbn [mbind result_bind].
  change (nthz (ParallelPostingsArray.int_starts (postings_array fd)) term) with u. fold (byte_start fd term). change IntBlockPool.INT_BLOCK_MASK with (Z.ones 13). unfold IntBlockPool.INT_BLOCK_SHIFT. rewrite Z.shiftr_div_pow2, Z.land_ones by lia.
  change (2 ^ 13) with IW. rewrite <- Em, <- Ed, (get2_imem _ T) by done. rewrite E. cbn [mbind result_bind]. rewrite as_u_id by (unfold is_u; lia).
  split; [done|]. apply (init_reading _ _ (mine (f, term, i) own) _ _ _ (wf_blocks _ _ I1)); [|lia|done].
  intros a Ha. pose proof (I3 a _ Ha). pose proof (wf_offset _ _ I1). pose proof (wf_byte _ _ I1). unfold head, B in *. lia.
Qed.

(** C16. Any number of fields, with any number of terms and from 1 to 1000 streams per term, write to
    the two pools they share, in any order: adding terms, going back to earlier ones, growing
    their arrays, writing bytes and variable-length integers, resetting the pools.  Every
    such run succeeds whose total charge is at most 1.4 billion, where a term is charged 5000, a written byte 120
    and a variable-length integer 600, more than they can take from the pools (so some 11 million written bytes in all); and
    for every stream of every term [init_reader] then gives a lawful input over exactly the
    bytes written to that stream: reading as many returns them, and leaves the reader at its
    end. *)
Theorem terms_hash_streams ia ba (scs sizes : list Z) (ops : list op) (s : spec) :
  IntBlockPool.block_size ia = IntBlockPool.INT_BLOCK_SIZE → ByteBlockPool.block_size ba = ByteBlockPool.BYTE_BLOCK_SIZE →
  length scs = length sizes → Forall (fun sc => 1 ≤ sc ≤ 1000) scs → Forall (fun n => 0 ≤ n) sizes →
  spec_all scs ops (init_spec sizes) = Some s → total_cost ops ≤ LIMIT →
  ∃ st, exec_all ops (init_state ia ba scs sizes) = Ok st ∧
    ∀ f term ss i bs, terms s !! (f, term) = Some ss → 0 ≤ i → ss !! Z.to_nat i = Some bs →
    ∃ fd r r', vget (fields st) f = Ok fd ∧ init_reader fd (shared st) term i = Ok r ∧ remains r bs ∧
      read r (vlen bs) = Ok (bs, r') ∧ ByteSliceReader.eof r' = true.
Proof.
  intros Hia Hba Hlen Hsc Hn Hs HT. pose proof (init_inv ia ba scs sizes Hia Hba Hlen Hsc Hn) as Hinv.
  destruct (exec_all_inv scs ops _ _ 0 _ _ s Hinv ltac:(lia) HT Hs) as (st & own & iown & E & Hinv'). exists st. split; [done|]. intros f term ss i bs Hss Hi Hbs.
  destruct (init_reader_ok scs st s _ own iown f term ss i bs Hinv' HT Hss Hi Hbs) as (fd & r & Hfd & Hr & Hrem).
  destruct (read_law r bs (vlen bs) Hrem) as (r' & Hread & Hrem'); [pose proof (vlen_nonneg bs); lia|]. rewrite to_nat_vlen, take_ge in Hread by lia. rewrite to_nat_vlen, drop_all in Hrem'.
  exists fd, r, r'. split_and!; try done. by apply reading_eof.
Qed.

Lemma terms_hash_streams_witness :
  ∃ st, exec_all [Add 0 0; Add 1 0; WriteBytes 0 0 [1; 2; 3; 4; 5; 6]; WriteVInt 1 1 300; Select 0 0; WriteBytes 0 0 [7]]
          (init_state (IntBlockPool.IntBlockAllocator 8192) (ByteBlockPool.DirectTrackingAllocator 32768) [1; 2] [4; 4]) = Ok st ∧
    ∃ fd r r', vget (fields st) 0 = Ok fd ∧ init_reader fd (shared st) 0 0 = Ok r ∧ remains r [1; 2; 3; 4; 5; 6; 7] ∧
      read r 7 = Ok ([1; 2; 3; 4; 5; 6; 7], r') ∧ ByteSliceReader.eof r' = true.
Proof.
  destruct (terms_hash_streams (IntBlockPool.IntBlockAllocator 8192) (ByteBlockPool.DirectTrackingAllocator 32768) [1; 2] [4; 4]
    [Add 0 0; Add 1 0; WriteBytes 0 0 [1; 2; 3; 4; 5; 6]; WriteVInt 1 1 300; Select 0 0; WriteBytes 0 0 [7]]
    (Spec [4; 4] (<[(0, 0) := [[1; 2; 3; 4; 5; 6; 7]]]> (<[(1, 0) := [[]; [172; 2]]]> ∅)) (<[0 := 0]> (<[1 := 0]> ∅)))) as (st & E & H);
    [reflexivity|reflexivity|reflexivity|repeat constructor; lia|repeat constructor; lia|vm_compute; reflexivity|vm_compute; discriminate|].
  exists st. split; [exact E|]. exact (H 0 0 [[1; 2; 3; 4; 5; 6; 7]] 0 [1; 2; 3; 4; 5; 6; 7] eq_refl ltac:(lia) eq_refl).
Defined.
