(* ===== verification/MsbSorter.v ===== *)
(** The most-significant-byte radix sort of src/core/util/sorter.rs.

    The trait [MSBSorter] shows the bytes of the string at a position; the fallback sorter
    it gives works on the same object, for the bytes from an offset on. *)

From S2P Require Import Prelude Sorter BytePool.
Open Scope Z_scope.

Definition LEVEL_THRESHOLD : Z := 8.
Definition MSB_HISTOGRAM_SIZE : Z := 257.
Definition LENGTH_THRESHOLD : Z := 100.

(** The order of byte slices. *)
Fixpoint lex (a b : list Z) : comparison :=
  match a, b with
  | [], [] => Eq
  | [], _ => Lt
  | _, [] => Gt
  | x :: a, y :: b => match Z.compare x y with Eq => lex a b | c => c end
  end.

(** [shared f] is the sorter a fallback points to, [fallback_sort] its [Sorter::sort]. *)
Class MSBSorter (S F : Type) : Type := {
  byte_at : S → Z → Z → result (option Z);
  msb_swap : S → Z → Z → result S;
  fallback_sorter : S → Z → F;
  fallback_sort : F → Z → Z → result F;
  shared : F → S;
}.

Module MSBRadixSorter.
Section msb.
Context {S F : Type} `{MSBSorter S F}.

Record t : Type := mk {
  histograms : list (list Z);
  end_offsets : list Z;
  common_prefix : list Z;
  max_length : Z;
  msb_sorter : S;
}.

Definition empty_histogram : list Z := replicate (Z.to_nat MSB_HISTOGRAM_SIZE) 0.
Definition new (max_length : Z) (msb_sorter : S) : t :=
  mk (replicate (Z.to_nat LEVEL_THRESHOLD) empty_histogram) empty_histogram (replicate (Z.to_nat (Z.min max_length 24)) 0) max_length msb_sorter.

Definition with_histograms (h : list (list Z)) (m : t) : t := mk h (end_offsets m) (common_prefix m) (max_length m) (msb_sorter m).
Definition with_end_offsets (e : list Z) (m : t) : t := mk (histograms m) e (common_prefix m) (max_length m) (msb_sorter m).
Definition with_common_prefix (c : list Z) (m : t) : t := mk (histograms m) (end_offsets m) c (max_length m) (msb_sorter m).
Definition with_sorter (s : S) (m : t) : t := mk (histograms m) (end_offsets m) (common_prefix m) (max_length m) s.

(** [self.histograms[l][b] = v] *)
Definition put_count (m : t) (l b v : Z) : result t := h ← put2 (histograms m) l b v; Ok (with_histograms h m).

Definition get_bucket (s : S) (i k : Z) : result Z :=
  byte ← byte_at s i k;
  Ok (match byte with Some b => b + 1 | None => -1 + 1 end).

Definition build_histogram (m : t) (from to k l : Z) : result t :=
  for_range from to (fun i m =>
    bucket ← get_bucket (msb_sorter m) i k;
    c ← get2 (histograms m) l bucket;
    put_count m l bucket (c + 1)) m.

(** The bytes of the first string, up to the place where it ends. *)
Fixpoint first_prefix (fuel : nat) (s : S) (cp : list Z) (from k j common_prefix_length : Z) : result (list Z * Z) :=
  match fuel with
  | O => Ok (cp, common_prefix_length)
  | Datatypes.S fuel =>
    b ← byte_at s from (k + j);
    match b with
    | Some v => cp ← vset cp j v; first_prefix fuel s cp from k (j + 1) common_prefix_length
    | None => cp ← vset cp j (-1); Ok (cp, j + 1)
    end
  end.

(** The first place where the string at [index] differs, with its byte there. *)
Fixpoint mismatch (fuel : nat) (s : S) (cp : list Z) (index k j : Z) : result (option (Z * Z)) :=
  match fuel with
  | O => Ok None
  | Datatypes.S fuel =>
    byte ← byte_at s index (k + j);
    let b := match byte with Some v => v | None => -1 end in
    c ← vget cp j;
    if negb (b =? c) then Ok (Some (j, b)) else mismatch fuel s cp index k (j + 1)
  end.

(** The loop over the strings; it ends before [to] at the first string without a common
    first byte. *)
Fixpoint scan_prefix (fuel : nat) (m : t) (from to k l index common_prefix_length : Z) : result (Z * Z * t) :=
  match fuel with
  | O => Ok (index, common_prefix_length, m)
  | Datatypes.S fuel =>
    d ← mismatch (Z.to_nat common_prefix_length) (msb_sorter m) (common_prefix m) index k 0;
    match d with
    | Some (j, b) =>
      if j =? 0 then
        c ← vget (common_prefix m) 0;
        m ← put_count m l (c + 1) (index - from);
        m ← put_count m l (b + 1) 1;
        Ok (index, 0, m)
      else scan_prefix fuel m from to k l (index + 1) j
    | None => scan_prefix fuel m from to k l (index + 1) common_prefix_length
    end
  end.

Definition compute_common_prefix_length_and_build_histogram (m : t) (from to k l : Z) : result (Z * t) :=
  let n := Z.min (vlen (common_prefix m)) (as_u64 (max_length m - k)) in
  '(cp, common_prefix_length) ← first_prefix (Z.to_nat n) (msb_sorter m) (common_prefix m) from k 0 n;
  let m := with_common_prefix cp m in
  '(index, common_prefix_length, m) ← scan_prefix (Z.to_nat (to - (from + 1))) m from to k l (from + 1) common_prefix_length;
  m ← (if index <? to then build_histogram m (index + 1) to k l
       else c ← vget (common_prefix m) 0; put_count m l (c + 1) (to - from));
  Ok (common_prefix_length, m).

Definition sum_histogram (m : t) (l : Z) : result t :=
  '(_, m) ← for_range 0 MSB_HISTOGRAM_SIZE (fun i '(accum, m) =>
    count ← get2 (histograms m) l i;
    m ← put_count m l i accum;
    e ← vset (end_offsets m) i (accum + count);
    Ok (accum + count, with_end_offsets e m)) (0, m);
  Ok m.

(** Every round of the inner loop puts one string at its place. *)
Definition reorder (m : t) (from to k l : Z) : result t :=
  for_range 0 MSB_HISTOGRAM_SIZE (fun i m =>
    limit ← vget (end_offsets m) i;
    h1 ← get2 (histograms m) l i;
    '(_, m) ← while_fuel (Z.to_nat (to - from)) (fun '(h1, _) => h1 <? limit) (fun '(h1, m) =>
      b ← get_bucket (msb_sorter m) (from + h1) k;
      h2 ← get2 (histograms m) l b;
      m ← put_count m l b (h2 + 1);
      s ← msb_swap (msb_sorter m) (from + h1) (from + h2);
      h1 ← get2 (histograms m) l i;
      Ok (h1, with_sorter s m)) (h1, m);
    Ok m) m.

Definition sort_inner (radix_sort : t → Z → Z → Z → Z → result t) (m : t) (from to k l : Z) : result t :=
  if (to - from <=? LENGTH_THRESHOLD) || (l >=? LEVEL_THRESHOLD) then
    intro_sorter ← fallback_sort (fallback_sorter (msb_sorter m) k) from to;
    Ok (with_sorter (shared intro_sorter) m)
  else radix_sort m from to k l.

(** Every call is for strings with more bytes in common, so that the length of the longest
    string bounds the depth. *)
Fixpoint radix_sort (fuel : nat) (m : t) (from to k l : Z) : result t :=
  match fuel with
  | O => Diverge
  | Datatypes.S fuel =>
    h ← vset (histograms m) l empty_histogram;
    '(common_prefix_length, m) ← compute_common_prefix_length_and_build_histogram (with_histograms h m) from to k l;
    if 0 <? common_prefix_length then
      c ← get2 (histograms m) l 0;
      if (k + common_prefix_length <? max_length m) && (c <? to - from) then radix_sort fuel m from to (k + common_prefix_length) l
      else Ok m
    else
      m ← sum_histogram m l;
      m ← reorder m from to k l;
      end_offsets ← vget (histograms m) l;
      if k + 1 <? max_length m then
        prev ← vget end_offsets 0;
        '(_, m) ← for_range 1 MSB_HISTOGRAM_SIZE (fun i '(prev, m) =>
          h ← vget end_offsets i;
          m ← (if h - prev >? 1 then sort_inner (radix_sort fuel) m (from + prev) (from + h) (k + 1) (l + 1) else Ok m);
          Ok (h, m)) (prev, m);
        Ok m
      else Ok m
  end.

Definition sort (fuel : nat) (m : t) (from to : Z) : result t :=
  _ ← check_range from to; sort_inner (radix_sort fuel) m from to 0 0.
End msb.
Arguments t : clear implicits.
End MSBRadixSorter.
