(* ===== verification/BytesRefHash.v ===== *)
(** The hash of byte strings: src/core/util/bytes_ref_hash.rs.

    The strings lie in a [ByteBlockPool], each behind its length; the table holds ids, and
    a [BytesStartArray] the position of the string of every id.  The hash function is
    murmur3 of the crate fasthash: a parameter. *)

From S2P Require Import Prelude DataIO Numeric Sorter BytePool MsbSorter.
Open Scope Z_scope.

(** The trait [BytesStartArray]: the positions of the strings, by id. *)
Class BytesStartArray (A : Type) : Type := {
  bs_bytes : A → list Z;
  bs_put : A → list Z → A;
  bs_init : A → A;
  bs_grow : A → A;
  bs_clear : A → A;
}.

Module DirectByteStartArray.
Record t : Type := mk { init_size : Z; bytes_start : list Z }.

Definition new (init_size : Z) : t := mk init_size [].
Definition with_size (init_size : Z) : t := new init_size.
Definition init (a : t) : t := mk (init_size a) (replicate (Z.to_nat (init_size a)) 0).
Definition grow (a : t) : t :=
  mk (init_size a) (ParallelPostingsArray.resize (bytes_start a) (over_size (vlen (bytes_start a) + 1))).
Definition clear (a : t) : t := mk (init_size a) [].

#[global] Instance start_array : BytesStartArray t := {|
  bs_bytes := bytes_start; bs_put a l := mk (init_size a) l; bs_init := init; bs_grow := grow; bs_clear := clear |}.
End DirectByteStartArray.

Module BytesRefHash.
Section hash.
Import ByteBlockPool.
Context {A : Type} `{BytesStartArray A} (hash32 : list Z → Z).

Definition DEFAULT_CAPACITY : Z := 16.

(** The pool is not part of the record: the source keeps a pointer to it. *)
Record t : Type := mk {
  hash_size : Z;
  hash_half_size : Z;
  hash_mask : Z;
  count : Z;
  last_count : Z;
  ids : list Z;
  bytes_start_array : A;
}.

Definition new (capacity : Z) (a : A) : t :=
  mk capacity (Z.shiftr capacity 1) (capacity - 1) 0 (-1) (replicate (Z.to_nat capacity) (-1)) a.

Definition len (h : t) : Z := count h.
Definition is_empty (h : t) : bool := len h =? 0.
Definition byte_start (h : t) (id : Z) : result Z := vget (bs_bytes (bytes_start_array h)) id.

Definition get (h : t) (pool : ByteBlockPool.t) (bytes_id : Z) : result (list Z) :=
  if bytes_id <? vlen (bs_bytes (bytes_start_array h)) then
    id ← byte_start h bytes_id;
    set_bytes_ref pool id
  else Panic.

Definition with_ids (l : list Z) (h : t) : t := mk (hash_size h) (hash_half_size h) (hash_mask h) (count h) (last_count h) l (bytes_start_array h).
Definition with_start_array (a : A) (h : t) : t := mk (hash_size h) (hash_half_size h) (hash_mask h) (count h) (last_count h) (ids h) a.
Definition with_count (c : Z) (h : t) : t := mk (hash_size h) (hash_half_size h) (hash_mask h) c (last_count h) (ids h) (bytes_start_array h).
Definition with_last_count (c : Z) (h : t) : t := mk (hash_size h) (hash_half_size h) (hash_mask h) (count h) c (ids h) (bytes_start_array h).

Definition compact (h : t) : result t :=
  '(upto, l) ← for_range 0 (hash_size h) (fun i '(upto, l) =>
    e ← vget l i;
    if negb (e =? -1) then
      l ← (if upto <? i then l ← vset l upto e; vset l i (-1) else Ok l);
      Ok (upto + 1, l)
    else Ok (upto, l)) (0, ids h);
  if upto =? count h then Ok (with_last_count (count h) (with_ids l h)) else Panic.

Definition equals (h : t) (pool : ByteBlockPool.t) (id : Z) (b : list Z) : result bool :=
  text_start ← byte_start h id;
  bytes ← set_bytes_ref pool text_start;
  Ok (bool_decide (bytes = b)).

(** The sizes [shrink] tries. *)
Definition shrunk_size (h : t) (target_size : Z) : result Z :=
  while_fuel (Z.to_nat (hash_size h)) (fun n => negb ((n <? 8) || (Z.shiftr n 2 <=? target_size))) (fun n => Ok (Z.shiftr n 1)) (hash_size h).

Definition shrink (h : t) (target_size : Z) : result (bool * t) :=
  new_size ← shrunk_size h target_size;
  if negb (new_size =? hash_size h) then
    let l := fill_slice (take (Z.to_nat new_size) (ids h)) (-1) in
    Ok (true, mk new_size (Z.shiftr new_size 1) (new_size - 1) (count h) (last_count h) l (bytes_start_array h))
  else Ok (false, h).

Definition clear (h : t) (pool : ByteBlockPool.t) (reset_pool : bool) : result (t * ByteBlockPool.t) :=
  let h := with_count 0 (with_last_count (count h) h) in
  pool ← (if reset_pool then reset pool false false else Ok pool);
  let h := with_start_array (bs_clear (bytes_start_array h)) h in
  let last_count := last_count h in
  '(shrunk, h) ← (if negb (last_count =? -1) then shrink h last_count else Ok (false, h));
  if (shrunk : bool) then Ok (h, pool) else Ok (with_ids (fill_slice (ids h) (-1)) h, pool).

Definition close (h : t) (pool : ByteBlockPool.t) : result (t * ByteBlockPool.t) :=
  '(h, pool) ← clear h pool true; Ok (with_ids [] h, pool).

(** ** Probing

    A probe looks at the slots from [code] on; [stop e] says when to stop at the id [e].
    The table has a free slot, so a round of all slots is enough. *)
Fixpoint probe (fuel : nat) (l : list Z) (mask code : Z) (stop : Z → result bool) : result Z :=
  match fuel with
  | O => Diverge
  | S fuel =>
    let hash_pos := Z.land code mask in
    e ← vget l hash_pos;
    if e =? -1 then Ok hash_pos
    else
      found ← stop e;
      if (found : bool) then Ok hash_pos else probe fuel l mask (code + 1) stop
  end.

Definition find_hash (h : t) (pool : ByteBlockPool.t) (bytes : list Z) : result Z :=
  probe (length (ids h)) (ids h) (hash_mask h) (hash32 bytes) (fun e => equals h pool e bytes).

(** The bytes of the string at [off], as [rehash] reads them. *)
Definition text_at (pool : ByteBlockPool.t) (off : Z) : result (list Z) :=
  let start := Z.land off BYTE_BLOCK_MASK in
  let bytes_idx := Z.shiftr off BYTE_BLOCK_SHIFT in
  b ← get2 (buffers pool) bytes_idx start;
  '(len, pos) ← (if Z.land b 0x80 =? 0 then Ok (b, start + 1)
                 else b1 ← get2 (buffers pool) bytes_idx (start + 1); Ok (Z.lor (Z.land b 0x7f) (Z.shiftl b1 7), start + 2));
  buffer ← vget (buffers pool) bytes_idx;
  vslice buffer pos (pos + len).

Definition rehash (h : t) (pool : ByteBlockPool.t) (new_size : Z) (hash_on_data : bool) : result t :=
  let new_mask := new_size - 1 in
  new_hash ← for_range 0 (hash_size h) (fun i new_hash =>
    e0 ← vget (ids h) i;
    if negb (e0 =? -1) then
      off ← byte_start h e0;
      code ← (if hash_on_data then text ← text_at pool off; Ok (hash32 text) else Ok off);
      hash_pos ← probe (Z.to_nat new_size) new_hash new_mask code (fun _ => Ok false);
      vset new_hash hash_pos e0
    else Ok new_hash) (replicate (Z.to_nat new_size) (-1));
  Ok (mk new_size (Z.shiftr new_size 1) new_mask (count h) (last_count h) new_hash (bytes_start_array h)).

(** The start of the next string, in a table of starts that has room for it. *)
Definition add_start (h : t) (start : Z) : result t :=
  let h := if count h >=? vlen (bs_bytes (bytes_start_array h)) then with_start_array (bs_grow (bytes_start_array h)) h else h in
  l ← vset (bs_bytes (bytes_start_array h)) (count h) start;
  Ok (with_start_array (bs_put (bytes_start_array h) l) (with_count (count h + 1) h)).

(** The length and the bytes of a string, behind the head of the pool. *)
Definition store_text (pool : ByteBlockPool.t) (bytes : list Z) : result ByteBlockPool.t :=
  let length := vlen bytes in
  let buffer_upto := byte_upto pool in
  '(start, pool) ←
    (if length <? 128 then
       pool ← put pool (ByteBlockPool.buffer_upto pool) buffer_upto (as_u8 length);
       Ok (buffer_upto + 1, with_byte_upto (byte_upto pool + (length + 1)) pool)
     else
       pool ← put pool (ByteBlockPool.buffer_upto pool) buffer_upto (as_u8 (Z.lor 0x80 (Z.land length 0x7f)));
       pool ← put pool (ByteBlockPool.buffer_upto pool) (buffer_upto + 1) (as_u8 (Z.land (Z.shiftr length 7) 0xff));
       Ok (buffer_upto + 2, with_byte_upto (byte_upto pool + (length + 2)) pool));
  copy_to_current pool start (start + length) bytes.

(** The end of [add] and [add_by_pool_offset]: the slot gets the id, and the table grows. *)
Definition fill_slot (h : t) (pool : ByteBlockPool.t) (hash_pos : Z) (hash_on_data : bool) : result (Z * t) :=
  let e := as_i32 (count h - 1) in
  old ← vget (ids h) hash_pos;
  if negb (old =? -1) then Panic
  else
    l ← vset (ids h) hash_pos e;
    let h := with_ids l h in
    h ← (if count h =? hash_half_size h then rehash h pool (hash_size h * 2) hash_on_data else Ok h);
    Ok (e, h).

Definition add (h : t) (pool : ByteBlockPool.t) (bytes : list Z) : result (Z * t * ByteBlockPool.t) :=
  hash_pos ← find_hash h pool bytes;
  e ← vget (ids h) hash_pos;
  if e =? -1 then
    let len2 := 2 + vlen bytes in
    pool ← (if len2 + byte_upto pool >? BYTE_BLOCK_SIZE then
              if len2 <? BYTE_BLOCK_SIZE then next_buffer pool else Panic
            else Ok pool);
    h ← add_start h (as_u32 (byte_upto pool + byte_offset pool));
    pool ← store_text pool bytes;
    '(e, h) ← fill_slot h pool hash_pos true;
    Ok (e, h, pool)
  else Ok (- (e + 1), h, pool).

Definition add_by_pool_offset (h : t) (pool : ByteBlockPool.t) (offset : Z) : result (Z * t) :=
  hash_pos ← probe (length (ids h)) (ids h) (hash_mask h) offset (fun e => s ← byte_start h e; Ok (s =? offset));
  e ← vget (ids h) hash_pos;
  if e =? -1 then
    h ← add_start h (as_u32 offset);
    fill_slot h pool hash_pos false
  else Ok (- (e + 1), h).

Definition reinit (h : t) : t :=
  let h := if vlen (bs_bytes (bytes_start_array h)) =? 0 then with_start_array (bs_init (bytes_start_array h)) h else h in
  if vlen (ids h) =? 0 then with_ids (replicate (Z.to_nat (hash_size h)) 0) h else h.
End hash.
Arguments t : clear implicits.

Definition with_pool : t DirectByteStartArray.t := new DEFAULT_CAPACITY (DirectByteStartArray.with_size DEFAULT_CAPACITY).

(** ** Sorting

    Both sorters point to the hash; its pool is not touched.  The offsets [k] are not
    negative. *)

Record BytesRefStringMSBSorter (A : Type) : Type := string_sorter { bytes_hash : t A; string_pool : ByteBlockPool.t }.
Record BytesRefStringMSBFallbackSorter (A : Type) : Type := fallback { sorter : BytesRefStringMSBSorter A; pivot : list Z; offset : Z }.
#[global] Arguments string_sorter {A} _ _.
#[global] Arguments bytes_hash {A} _.
#[global] Arguments string_pool {A} _.
#[global] Arguments fallback {A} _ _ _.
#[global] Arguments sorter {A} _.
#[global] Arguments pivot {A} _.
#[global] Arguments offset {A} _.

Section sorting.
Context {A : Type} `{BytesStartArray A}.

Definition new_string_sorter (h : t A) (pool : ByteBlockPool.t) : result (BytesRefStringMSBSorter A) :=
  h ← compact h; Ok (string_sorter h pool).

Definition string_get (s : BytesRefStringMSBSorter A) (i : Z) : result (list Z) :=
  id ← vget (ids (bytes_hash s)) i;
  start ← byte_start (bytes_hash s) (as_u64 id);
  ByteBlockPool.set_bytes_ref (string_pool s) start.

Definition string_byte_at (s : BytesRefStringMSBSorter A) (i k : Z) : result (option Z) :=
  bytes ← string_get s i;
  if vlen bytes <=? k then Ok None else b ← vget bytes k; Ok (Some b).

Definition string_swap (s : BytesRefStringMSBSorter A) (i j : Z) : result (BytesRefStringMSBSorter A) :=
  let l := ids (bytes_hash s) in
  x ← vget l i; y ← vget l j;
  l ← vset l j x; l ← vset l i y;
  Ok (string_sorter (with_ids l (bytes_hash s)) (string_pool s)).

Definition fallback_get (f : BytesRefStringMSBFallbackSorter A) (i k : Z) : result (list Z) :=
  bytes ← string_get (sorter f) i;
  vslice bytes k (vlen bytes).

#[global] Instance fallback_is_sorter : Sorter (BytesRefStringMSBFallbackSorter A) := {|
  Sorter.compare f i j :=
    scratch1 ← fallback_get f i (offset f);
    scratch2 ← fallback_get f j (offset f);
    Ok (lex scratch1 scratch2, f);
  swap f i j := s ← string_swap (sorter f) i j; Ok (fallback s (pivot f) (offset f));
  set_pivot f i := bytes ← fallback_get f i (offset f); Ok (fallback (sorter f) bytes (offset f));
  compare_pivot f j := bytes ← fallback_get f j (offset f); Ok (lex (pivot f) bytes, f);
|}.

Definition fallback_sort (f : BytesRefStringMSBFallbackSorter A) (from to : Z) : result (BytesRefStringMSBFallbackSorter A) :=
  if from <=? to then
    n ← log (to - from) 2;
    quick_sort (Z.to_nat (2 * n)) f from to (2 * n)
  else Panic.

#[global] Instance string_msb_sorter : MSBSorter (BytesRefStringMSBSorter A) (BytesRefStringMSBFallbackSorter A) := {|
  byte_at := string_byte_at;
  msb_swap := string_swap;
  fallback_sorter s k := fallback s [0] k;
  MsbSorter.fallback_sort := fallback_sort;
  shared := sorter;
|}.

(** The strings of a hash are shorter than a block. *)
Definition sort (h : t A) (pool : ByteBlockPool.t) : result (t A) :=
  h ← compact h;
  s ← new_string_sorter h pool;
  m ← MSBRadixSorter.sort (Z.to_nat ByteBlockPool.BYTE_BLOCK_SIZE) (MSBRadixSorter.new 2147483647 s) 0 (as_i32 (count h));
  Ok (bytes_hash (MSBRadixSorter.msb_sorter m)).
End sorting.
End BytesRefHash.

(** * BytesRefBuilder: src/core/util/bytes_ref.rs *)

Module BytesRefBuilder.
Record t : Type := mk { buffer : list Z; offset : Z; length : Z }.

Definition new : t := mk [] 0 0.
Definition grow (b : t) (size : Z) : t := mk (ParallelPostingsArray.resize (buffer b) size) (offset b) (length b).
Definition append (b : t) (x : Z) : result t :=
  let pos := offset b + length b in
  let buf := if pos >=? vlen (buffer b) then ParallelPostingsArray.resize (buffer b) (pos + 1) else buffer b in
  buf ← vset buf pos x;
  Ok (mk buf (offset b) (length b + 1)).
Definition appends (b : t) (bytes : list Z) : result t :=
  let start := offset b + length b in
  let end_ := start + vlen bytes in
  let buf := if end_ >=? vlen (buffer b) then ParallelPostingsArray.resize (buffer b) end_ else buffer b in
  buf ← copy_from_slice buf start end_ bytes;
  Ok (mk buf (offset b) (length b + vlen bytes)).
Definition get (b : t) : result (list Z) := vslice (buffer b) (offset b) (length b).
Definition copy_from (b : t) (bytes : list Z) : result t :=
  let buf := if vlen (buffer b) <? vlen bytes then ParallelPostingsArray.resize (buffer b) (vlen bytes) else buffer b in
  buf ← copy_from_slice buf 0 (vlen bytes) bytes;
  Ok (mk buf 0 (vlen bytes)).
End BytesRefBuilder.
