(* ===== verification/HashTableFacts.v ===== *)
(** Open addressing with linear probing, as BytesRefHash uses it: what a probe finds, and
    that filling a slot and rehashing keep every id where a probe finds it. *)

From S2P Require Import Prelude DataIO PackedBulkFacts PackedArrayFacts BytePool BytesRefHash.
Open Scope Z_scope.
Import BytesRefHash.

(** The ids in a table. *)
Definition present (l : list Z) : list Z := filter (λ e, e ≠ -1) l.

Lemma present_fill l i e : l !! i = Some (-1) → e ≠ -1 → present (<[i := e]> l) ≡ₚ e :: present l.
Proof.
  revert i. induction l as [|x l IH]; intros i Hl He; [done|]. unfold present in *. destruct i as [|i]; cbn [insert list_insert].
  - injection Hl as ->. rewrite filter_cons_True by done. by rewrite filter_cons_False by (by intros []).
  - rewrite !filter_cons. pose proof (IH i Hl He) as IHi. case_decide; rewrite IHi; [|done]. by rewrite Permutation_swap.
Qed.

Lemma present_free l : (length (present l) < length l)%nat → ∃ i, l !! i = Some (-1).
Proof.
  induction l as [|x l IH]; [cbn; lia|]. intros Hl. destruct (decide (x = -1)) as [->|Hx]; [by exists 0%nat|].
  unfold present in Hl. rewrite filter_cons_True in Hl by done. cbn in Hl. destruct IH as (i & Hi); [unfold present; lia|]. by exists (S i).
Qed.

Lemma elem_of_present l e : e ∈ present l ↔ e ≠ -1 ∧ e ∈ l.
Proof. unfold present. by rewrite list_elem_of_filter. Qed.

Lemma nthz_elem l i : 0 ≤ i < vlen l → nthz l i ∈ l.
Proof.
  intros Hi. destruct (lookup_lt_is_Some_2 l (Z.to_nat i)) as [x Hx]; [unfold vlen in *; lia|]. unfold nthz. rewrite Hx. by apply list_elem_of_lookup_2 with (Z.to_nat i).
Qed.
Lemma nthz_insert l i x k : 0 ≤ i < vlen l → 0 ≤ k → nthz (<[Z.to_nat i := x]> l) k = if k =? i then x else nthz l k.
Proof.
  intros Hi Hk. destruct (vset_nthz l i x Hi) as (l' & E & _ & Hn). rewrite vset_in in E by done. injection E as <-. by apply Hn.
Qed.

Section table.
Context (n : Z) (Hn : 0 < n).

(** [slot c d]: the slot a probe for the code [c] looks at after [d] others. *)
Definition slot (c d : Z) : Z := (c + d) mod n.
Lemma slot_range c d : 0 ≤ slot c d < n.
Proof using Hn. apply Z.mod_pos_bound, Hn. Qed.

(** A probe for the code [c] comes to the slot [j] through slots that are taken. *)
Definition reaches (l : list Z) (c j : Z) : Prop :=
  ∃ d, 0 ≤ d < n ∧ j = slot c d ∧ ∀ d', 0 ≤ d' < d → nthz l (slot c d') ≠ -1.

(** Every id is reached from its code, and lies in one slot. *)
Record placed (l : list Z) (code : Z → Z) : Prop := {
  pl_len : vlen l = n;
  pl_nodup : NoDup (present l);
  pl_reach : ∀ j, 0 ≤ j < n → nthz l j ≠ -1 → reaches l (code (nthz l j)) j;
}.

Lemma placed_empty code : placed (replicate (Z.to_nat n) (-1)) code.
Proof using Hn.
  split.
  - apply vlen_replicate. lia.
  - assert (present (replicate (Z.to_nat n) (-1)) = []) as ->; [|constructor]. clear. induction (Z.to_nat n) as [|k IH]; [done|]. cbn [replicate]. unfold present in *.
    by rewrite filter_cons_False by (by intros []).
  - intros j Hj Hne. by rewrite nthz_replicate in Hne by lia.
Qed.

Lemma placed_ext l code code' : placed l code → (∀ e, e ∈ present l → code' e = code e) → placed l code'.
Proof using Hn.
  intros [H1 H2 H3] He. split; try done. intros j Hj Hne. rewrite He; [by apply H3|]. apply elem_of_present. split; [done|].
  apply nthz_elem. lia.
Qed.

(** ** What a probe finds *)

Lemma probe_finds l k (f : Z → bool) stop : vlen l = n → n = 2 ^ k → 0 ≤ k → (∀ e, e ∈ present l → stop e = Ok (f e)) →
  ∀ fuel c, (∃ d, 0 ≤ d < Z.of_nat fuel ∧ nthz l (slot c d) = -1) →
  ∃ d, 0 ≤ d < Z.of_nat fuel ∧ probe fuel l (n - 1) c stop = Ok (slot c d) ∧ (nthz l (slot c d) = -1 ∨ f (nthz l (slot c d)) = true) ∧
    ∀ d', 0 ≤ d' < d → nthz l (slot c d') ≠ -1 ∧ f (nthz l (slot c d')) = false.
Proof using Hn.
  intros Hl Hk Hk0 Hstop. induction fuel as [|fuel IH]; intros c (d & Hd & Hfree); [lia|]. cbn [probe].
  assert (Z.land c (n - 1) = slot c 0) as -> by (unfold slot; rewrite Hk, Z.add_0_r, <- Z.land_ones, Z.ones_equiv, Z.sub_1_r by done; done).
  pose proof (slot_range c 0) as Hs. rewrite vget_nthz by lia. cbn [mbind result_bind]. destruct (Z.eqb_spec (nthz l (slot c 0)) (-1)) as [E|E].
  - exists 0. split_and!; try done; try lia; by left.
  - assert (nthz l (slot c 0) ∈ present l) as Hin by (apply elem_of_present; split; [done|]; apply nthz_elem; lia).
    rewrite (Hstop _ Hin). cbn [mbind result_bind]. destruct (f (nthz l (slot c 0))) eqn:Ef.
    + exists 0. split_and!; try done; try lia; by right.
    + assert (∀ d, slot (c + 1) d = slot c (d + 1)) as Hs1 by (intros; unfold slot; f_equal; lia).
      destruct (IH (c + 1)) as (d1 & Hd1 & E1 & Hst & Hbef).
      { exists (d - 1). rewrite Hs1. assert (d ≠ 0) by (intros ->; done). split; [lia|]. by replace (d - 1 + 1) with d by lia. }
      exists (d1 + 1). rewrite <- Hs1. split_and!; try lia; try done. intros d' Hd'. destruct (decide (d' = 0)) as [->|]; [done|].
      replace d' with ((d' - 1) + 1) by lia. rewrite <- Hs1. apply Hbef. lia.
Qed.

Lemma free_slot l c : vlen l = n → (length (present l) < length l)%nat → ∃ d, 0 ≤ d < n ∧ nthz l (slot c d) = -1.
Proof using Hn.
  intros Hl Hp. destruct (present_free l Hp) as (i & Hi). pose proof (lookup_lt_Some _ _ _ Hi). set (j := Z.of_nat i). exists ((j - c) mod n).
  split; [apply Z.mod_pos_bound, Hn|]. unfold slot. rewrite Zplus_mod_idemp_r. replace (c + (j - c)) with j by lia. rewrite Z.mod_small by (unfold vlen in *; lia).
  unfold nthz, j. by rewrite Nat2Z.id, Hi.
Qed.

(** A probe that asks for one id. *)
Lemma probe_placed l code k c (f : Z → bool) stop : placed l code → n = 2 ^ k → 0 ≤ k → (length (present l) < length l)%nat → (∀ e, e ∈ present l → stop e = Ok (f e)) →
  (∀ e, e ∈ present l → f e = true → code e = c) →
  ∃ j, 0 ≤ j < n ∧ probe (length l) l (n - 1) c stop = Ok j ∧ reaches l c j ∧
    ((nthz l j = -1 ∧ ∀ e, e ∈ present l → f e = false) ∨ (nthz l j ≠ -1 ∧ f (nthz l j) = true)).
Proof using Hn.
  intros [H1 H2 H3] Hk Hk0 Hp Hstop Hcode. destruct (free_slot l c H1 Hp) as (d0 & Hd0).
  destruct (probe_finds l k f stop H1 Hk Hk0 Hstop (length l) c) as (d & Hd & E & Hst & Hbef); [exists d0; unfold vlen in H1; by rewrite H1|].
  unfold vlen in H1. rewrite H1 in Hd. exists (slot c d). split; [apply slot_range|]. split; [done|]. split; [exists d; split_and!; try done; try lia; intros d' Hd'; by apply Hbef|].
  destruct (decide (nthz l (slot c d) = -1)) as [Hf|Hf]; [left; split; [done|]|right; split; [done|]; destruct Hst; done].
  intros e Hin. destruct (f e) eqn:Ef; [|done]. exfalso. apply elem_of_present in Hin as Hin'. destruct Hin' as [Hne Hl].
  apply list_elem_of_lookup in Hl as (i & Hi). pose proof (lookup_lt_Some _ _ _ Hi). assert (nthz l (Z.of_nat i) = e) as Hnt by (unfold nthz; by rewrite Nat2Z.id, Hi).
  destruct (H3 (Z.of_nat i)) as (d1 & Hd1 & Hj & Hpath); [lia|by rewrite Hnt|]. rewrite Hnt, (Hcode e Hin Ef) in Hj, Hpath. rewrite Hj in Hnt.
  destruct (Z.lt_trichotomy d d1) as [Hlt|[->|Hgt]].
  - apply (Hpath d); [lia|done].
  - by rewrite Hnt in Hf.
  - destruct (Hbef d1) as [_ Hb]; [lia|]. by rewrite Hnt, Ef in Hb.
Qed.

(** ** Filling a slot *)

Lemma placed_fill l code j e : placed l code → 0 ≤ j < n → nthz l j = -1 → e ≠ -1 → e ∉ present l → reaches l (code e) j →
  placed (<[Z.to_nat j := e]> l) code ∧ present (<[Z.to_nat j := e]> l) ≡ₚ e :: present l.
Proof using Hn.
  intros [H1 H2 H3] Hj Hfree He Hnew (d & Hd & Hjd & Hpath).
  assert (l !! Z.to_nat j = Some (-1)) as Hl.
  { destruct (lookup_lt_is_Some_2 l (Z.to_nat j)) as [x Hx]; [unfold vlen in *; lia|]. unfold nthz in Hfree. rewrite Hx in Hfree |- *. cbn in Hfree. by subst. }
  pose proof (present_fill l (Z.to_nat j) e Hl He) as Hperm.
  assert (∀ i, 0 ≤ i → nthz (<[Z.to_nat j := e]> l) i = if i =? j then e else nthz l i) as Hnth by (intros i Hi; apply nthz_insert; lia).
  assert (∀ c d', nthz l (slot c d') ≠ -1 → nthz (<[Z.to_nat j := e]> l) (slot c d') ≠ -1) as Hkeep.
  { intros c d' Ht. rewrite Hnth by apply slot_range. by destruct (_ =? _). }
  split; [|done]. split.
  - by rewrite vlen_insert.
  - rewrite Hperm. by constructor.
  - intros i Hi. rewrite Hnth by lia. destruct (Z.eqb_spec i j) as [->|Hij]; intros Hne.
    + exists d. split_and!; try done; try lia. intros d' Hd'. apply Hkeep, Hpath, Hd'.
    + destruct (H3 i Hi Hne) as (d1 & Hd1 & Hi1 & Hp1). exists d1. split_and!; try done; try lia. intros d' Hd'. by apply Hkeep, Hp1.
Qed.
End table.

(** ** Compacting *)

Section compacting.
Context {A : Type} `{BytesStartArray A}.

Lemma present_take_step l i : 0 ≤ i < vlen l →
  present (take (Z.to_nat (i + 1)) l) = present (take (Z.to_nat i) l) ++ (if decide (nthz l i = -1) then [] else [nthz l i]).
Proof.
  intros Hi. destruct (lookup_lt_is_Some_2 l (Z.to_nat i)) as [x Hx]; [unfold vlen in *; lia|]. replace (Z.to_nat (i + 1)) with (S (Z.to_nat i)) by lia.
  rewrite (take_S_r _ _ x Hx). unfold present. rewrite list.filter_app. f_equal. unfold nthz. rewrite Hx. cbn [default from_option id]. rewrite filter_cons. by repeat case_decide.
Qed.

Lemma present_bound l i : 0 ≤ i ≤ vlen l → vlen (present (take (Z.to_nat i) l)) ≤ i.
Proof. intros Hi. unfold present, vlen in *. pose proof (length_filter (λ e, e ≠ -1) (take (Z.to_nat i) l)) as Hf. rewrite length_take in Hf. lia. Qed.

(** The ids of the first [i] slots, moved to the front. *)
Definition compacted (o l : list Z) (i : Z) : Prop := let pr := present (take (Z.to_nat i) o) in
  vlen l = vlen o ∧ ∀ j, 0 ≤ j < vlen o → nthz l j = if j <? vlen pr then nthz pr j else if j <? i then -1 else nthz o j.

(** Moving the id of the slot [i]. *)
Lemma compacted_step o l i : 0 ≤ i < vlen o → compacted o l i → nthz o i ≠ -1 → let upto := vlen (present (take (Z.to_nat i) o)) in
  ∃ l', (if upto <? i then l ← vset l upto (nthz o i); vset l i (-1) else Ok l) = Ok l' ∧ compacted o l' (i + 1).
Proof.
  intros Hi [Hl Hn] He upto. pose proof (present_bound o i ltac:(lia)) as Hup. fold upto in Hup, Hn. pose proof (vlen_nonneg (present (take (Z.to_nat i) o))) as Hup0. fold upto in Hup0.
  assert (∀ l', vlen l' = vlen o → (∀ j, 0 ≤ j < vlen o → nthz l' j = if j =? upto then nthz o i else if j =? i then -1 else nthz l j) → compacted o l' (i + 1)) as Hfin.
  { intros l' Hl' Hn'. split; [done|]. intros j Hj. rewrite present_take_step, decide_False, vlen_app by done. change (vlen [nthz o i]) with 1. fold upto. rewrite Hn', Hn, nthz_app by lia. fold upto.
    destruct (Z.eqb_spec j upto) as [->|]; [rewrite (proj2 (Z.ltb_lt _ _)), Z.ltb_irrefl, Z.sub_diag by lia; done|].
    destruct (Z.eqb_spec j i) as [->|]; [rewrite (proj2 (Z.ltb_ge _ _)), (proj2 (Z.ltb_lt i (i + 1))) by lia; done|]. split_cmp; try done; lia. }
  destruct (Z.ltb_spec upto i) as [Hlt|Hge].
  - destruct (vset_nthz l upto (nthz o i)) as (l1 & -> & Hl1 & Hn1); [lia|]. cbn [mbind result_bind]. destruct (vset_nthz l1 i (-1)) as (l2 & -> & Hl2 & Hn2); [lia|]. exists l2. split; [done|]. apply Hfin; [lia|].
    intros j Hj. rewrite Hn2, Hn1 by lia. split_cmp; try done; lia.
  - exists l. split; [done|]. apply Hfin; [done|]. intros j Hj. destruct (Z.eqb_spec j upto) as [->|]; [|destruct (Z.eqb_spec j i); [lia|done]]. rewrite Hn by lia.
    rewrite Z.ltb_irrefl, (proj2 (Z.ltb_ge _ _)) by lia. f_equal. lia.
Qed.

(** [compact] moves the ids to the front, in the order of their slots. *)
Lemma compact_spec (h : t A) : vlen (ids h) = hash_size h → count h = vlen (present (ids h)) →
  compact h = Ok (with_last_count (count h) (with_ids (present (ids h) ++ replicate (length (ids h) - length (present (ids h))) (-1)) h)).
Proof.
  intros Hl Hc. unfold compact. match goal with |- context [for_range 0 _ ?body ?st] => destruct (for_range_inv (fun i '(u, l) => u = vlen (present (take (Z.to_nat i) (ids h))) ∧ compacted (ids h) l i) body 0 (hash_size h) st) as ([u l] & -> & Hu & Hcm) end.
  - rewrite <- Hl. apply vlen_nonneg.
  - split; [done|]. split; [done|]. intros j Hj. replace (vlen (present (take (Z.to_nat 0) (ids h)))) with 0 by done. by rewrite !(proj2 (Z.ltb_ge j 0)) by lia.
  - intros i [u l] Hi [-> Hcm]. pose proof Hcm as [Hll Hn]. rewrite vget_nthz by lia. cbn [mbind result_bind]. pose proof (present_bound (ids h) i ltac:(lia)).
    assert (nthz l i = nthz (ids h) i) as -> by (rewrite Hn by lia; rewrite !(proj2 (Z.ltb_ge _ _)) by lia; done). rewrite present_take_step by lia.
    destruct (Z.eqb_spec (nthz (ids h) i) (-1)) as [E|E]; cbn [negb].
    + eexists. split; [done|]. cbn beta iota. rewrite decide_True, app_nil_r by done. split; [done|]. split; [done|]. intros j Hj. rewrite present_take_step, decide_True, app_nil_r by (done || lia). rewrite Hn by lia. split_cmp; try done; try lia; by replace j with i by lia.
    + destruct (compacted_step (ids h) l i ltac:(lia) Hcm E) as (l' & -> & Hcm'). cbn [mbind result_bind]. eexists. split; [done|]. cbn beta iota. rewrite decide_False, vlen_app by done. done.
  - cbn [mbind result_bind]. rewrite take_ge in Hu by (unfold vlen in *; lia). rewrite Hu, <- Hc, Z.eqb_refl. do 3 f_equal. destruct Hcm as [Hll Hn]. rewrite take_ge in Hn by (unfold vlen in *; lia).
    pose proof (length_filter (λ e, e ≠ -1) (ids h)) as Hlf. fold (present (ids h)) in Hlf. apply nthz_ext; [rewrite vlen_app; unfold vlen in *; rewrite length_replicate; lia|].
    intros j Hj. rewrite Hn by lia. rewrite nthz_app by lia. destruct (Z.ltb_spec j (vlen (present (ids h)))); [done|]. rewrite (proj2 (Z.ltb_lt _ _)) by lia. symmetry.
    replace (length (ids h) - length (present (ids h)))%nat with (Z.to_nat (vlen (ids h) - vlen (present (ids h)))) by (unfold vlen in *; lia). apply nthz_replicate. lia.
Qed.
End compacting.

(** ** Rehashing *)

Section rehashing.
Context {A : Type} `{BytesStartArray A} (hash32 : list Z → Z).

Lemma rehash_placed h pool k (code : Z → Z) hash_on_data : placed (2 ^ k) (ids h) code → 0 ≤ k → hash_size h = 2 ^ k →
  (∀ e, e ∈ present (ids h) → (off ← byte_start h e; if (hash_on_data : bool) then text ← text_at pool off; Ok (hash32 text) else Ok off) = Ok (code e)) →
  ∃ l, rehash hash32 h pool (hash_size h * 2) hash_on_data = Ok (mk (2 ^ (k + 1)) (2 ^ k) (2 ^ (k + 1) - 1) (count h) (last_count h) l (bytes_start_array h)) ∧
    placed (2 ^ (k + 1)) l code ∧ present l ≡ₚ present (ids h).
Proof.
  intros [H1 H2 H3] Hk Hsz Hcode. assert (2 ^ k * 2 = 2 ^ (k + 1)) as E2 by (rewrite Z.pow_add_r by lia; lia). pose proof (pow2_pos k Hk) as Hp. unfold rehash. rewrite Hsz, E2.
  match goal with |- context [for_range 0 _ ?b ?s] => destruct (for_range_inv (fun i l => placed (2 ^ (k + 1)) l code ∧ present l ≡ₚ present (take (Z.to_nat i) (ids h))) b 0 (2 ^ k) s) as (l & -> & Hl & Hpr) end.
  - lia.
  - split; [apply placed_empty; lia|]. cbn [take]. clear. induction (Z.to_nat _) as [|m IH]; [done|]. cbn [replicate]. unfold present in *. by rewrite filter_cons_False by (by intros []).
  - intros i l Hi [Hl Hpr]. rewrite vget_nthz by lia. cbn [mbind result_bind]. rewrite present_take_step by lia. destruct (Z.eqb_spec (nthz (ids h) i) (-1)) as [E|E]; cbn [negb].
    { exists l. rewrite decide_True, app_nil_r by done. done. }
    rewrite decide_False by done. set (e := nthz (ids h) i) in *.
    assert (e ∈ present (ids h)) as Hin by (apply elem_of_present; split; [done|]; apply nthz_elem; lia).
    assert (e ∉ present (take (Z.to_nat i) (ids h))) as Hnew.
    { rewrite <- (take_drop (Z.to_nat (i + 1)) (ids h)) in H2. unfold present in H2. rewrite list.filter_app in H2. apply list.NoDup_app in H2 as [H2 _].
      fold (present (take (Z.to_nat (i + 1)) (ids h))) in H2. rewrite present_take_step in H2 by lia. fold e in H2. rewrite decide_False in H2 by done. rewrite Permutation_app_comm in H2. cbn in H2.
      by apply list.NoDup_cons in H2 as [H2 _]. }
    assert ((length (present l) < length l)%nat) as Hroom.
    { pose proof (pl_len _ _ _ Hl) as Hlen. rewrite Hpr. unfold present. pose proof (length_filter (λ e, e ≠ -1) (take (Z.to_nat i) (ids h))) as Hf. rewrite length_take in Hf. unfold vlen in *. lia. }
    destruct (probe_placed (2 ^ (k + 1)) ltac:(lia) l code (k + 1) (code e) (fun _ => false) (fun _ => Ok false)) as (j & Hj & Epr & Hre & Hres); try done; [lia|].
    specialize (Hcode e Hin). destruct (byte_start h e) as [off| | |] eqn:Eb; try done. cbn [mbind result_bind] in Hcode |- *.
    replace (code ← (if hash_on_data then _ else _); _) with (hash_pos ← probe (Z.to_nat (2 ^ (k + 1))) l (2 ^ (k + 1) - 1) (code e) (fun _ => Ok false); vset l hash_pos e)
      by (destruct hash_on_data; [destruct (text_at pool off) as [text| | |]; try done; cbn [mbind result_bind] in Hcode |- *|]; injection Hcode as ->; done).
    pose proof (pl_len _ _ _ Hl) as Hlen. replace (Z.to_nat (2 ^ (k + 1))) with (length l) by (unfold vlen in Hlen; lia). rewrite Epr. cbn [mbind result_bind]. rewrite vset_in by lia.
    destruct Hres as [[Hfree _]|[_ ?]]; [|done]. destruct (placed_fill (2 ^ (k + 1)) ltac:(lia) l code j e Hl Hj Hfree E) as [Hpl Hpm]; [by rewrite Hpr|done|].
    eexists. split; [done|]. split; [done|]. rewrite Hpm, Hpr. by rewrite Permutation_app_comm.
  - cbn [mbind result_bind]. exists l. split; [|split; [done|]].
    + do 2 f_equal. rewrite <- E2, Z.shiftr_div_pow2 by lia. change (2 ^ 1) with 2. by rewrite Z.div_mul.
    + rewrite Hpr. rewrite take_ge; [done|]. unfold vlen in *. lia.
Qed.
End rehashing.
