(* ===== verification/MsbSorterFacts.v ===== *)
(** The most-significant-byte radix sort puts strings in lexicographic order. *)

From S2P Require Import Prelude PackedBulkFacts PackedArrayFacts BytePool BytePoolFacts Sorter SorterFacts MsbSorter HashTableFacts.
Open Scope Z_scope.
Set Default Proof Using "Type*".

(** * Lexicographic order *)

Lemma lex_opp a : ∀ b, lex b a = CompOpp (lex a b).
Proof. induction a as [|x a IH]; intros [|y b]; try done. cbn. rewrite (Z.compare_antisym x y). destruct (Z.compare x y); cbn; [apply IH|done..]. Qed.

Lemma lex_refl a : lex a a = Eq.
Proof. induction a as [|x a IH]; [done|]. cbn. by rewrite Z.compare_refl. Qed.

Lemma lex_eq a : ∀ b, lex a b = Eq → a = b.
Proof. induction a as [|x a IH]; intros [|y b]; try done. cbn. destruct (Z.compare_spec x y) as [->|?|?]; try done. intros E. f_equal. by apply IH. Qed.

Lemma lex_trans a : ∀ b c, lex a b ≠ Gt → lex b c ≠ Gt → lex a c ≠ Gt.
Proof.
  induction a as [|x a IH]; intros [|y b] [|z c]; try done. cbn. destruct (Z.compare_spec x y) as [->|?|?], (Z.compare_spec y z) as [->|?|?]; try done.
  all: intros; rewrite ?Z.compare_refl; repeat match goal with |- context [?u ?= ?v] => rewrite (proj2 (Z.compare_lt_iff u v)) by lia end; by eauto.
Qed.

Section keys.
Context {A : Type} `{Inhabited A} (key : A → list Z).

(** The order by the bytes from [k] on. *)
Definition lexk (k : Z) (x y : A) : comparison := lex (drop (Z.to_nat k) (key x)) (drop (Z.to_nat k) (key y)).

#[global] Instance lexk_preorder k : TotalPreorder (lexk k).
Proof. split; intros; [apply lex_opp|by eapply lex_trans]. Qed.

(** The bucket of a string: 0 when it has no byte at [k]. *)
Definition bk (k : Z) (x : A) : Z := match key x !! Z.to_nat k with Some b => b + 1 | None => 0 end.

Lemma drop_next (l : list Z) k : 0 ≤ k → drop (Z.to_nat k) l = match l !! Z.to_nat k with Some b => b :: drop (Z.to_nat (k + 1)) l | None => [] end.
Proof.
  intros Hk. replace (Z.to_nat (k + 1)) with (S (Z.to_nat k)) by lia. destruct (l !! Z.to_nat k) as [b|] eqn:E; [by apply drop_S|]. apply drop_ge. by apply lookup_ge_None.
Qed.

(** The next byte decides, or the rest does. *)
Lemma lexk_next k x y : 0 ≤ k → key x !! Z.to_nat k = key y !! Z.to_nat k → lexk k x y = lexk (k + 1) x y.
Proof.
  intros Hk E. unfold lexk. rewrite !(drop_next _ k) by done. rewrite E. destruct (key y !! Z.to_nat k) as [b|] eqn:Ey; cbn [lex]; [by rewrite Z.compare_refl|].
  rewrite !(drop_ge _ (Z.to_nat (k + 1))); [done|..]; apply lookup_ge_None in Ey; apply lookup_ge_None in E; lia.
Qed.

Lemma lexk_skip c k x y : 0 ≤ k → (∀ j, 0 ≤ j < Z.of_nat c → key x !! Z.to_nat (k + j) = key y !! Z.to_nat (k + j)) → lexk k x y = lexk (k + Z.of_nat c) x y.
Proof.
  revert k. induction c as [|c IH]; intros k Hk Hj; [by rewrite Z.add_0_r|]. rewrite lexk_next; [|done|by rewrite <- (Z.add_0_r k); apply Hj; lia].
  rewrite IH; [f_equal; lia|lia|]. intros j Hj'. replace (k + 1 + j) with (k + (j + 1)) by lia. apply Hj. lia.
Qed.

Lemma lexk_bucket k x y : 0 ≤ k → Forall (is_u 8) (key x) → bk k x < bk k y → lexk k x y = Lt.
Proof.
  intros Hk Hx. unfold bk, lexk. rewrite !(drop_next _ k) by done. destruct (key x !! Z.to_nat k) as [b|] eqn:Ex, (key y !! Z.to_nat k) as [c|] eqn:Ey; cbn [lex]; try lia; try done.
  - intros Hlt. by rewrite (proj2 (Z.compare_lt_iff b c)) by lia.
  - intros Hlt. apply (Forall_lookup_1 _ _ _ _ Hx) in Ex. unfold is_u in Ex. lia.
Qed.

Lemma bk_range k x : Forall (is_u 8) (key x) → 0 ≤ bk k x < 257.
Proof. intros Hx. unfold bk. destruct (key x !! Z.to_nat k) as [b|] eqn:Ex; [|lia]. apply (Forall_lookup_1 _ _ _ _ Hx) in Ex. unfold is_u in Ex. lia. Qed.

(** * Counting *)

Definition cnt (k b : Z) (l : list A) (lo hi : Z) : Z := vlen (filter (λ x, bk k x = b) (rng l lo hi)).

Lemma bcnt_app k b l lo mid hi : 0 ≤ lo → lo ≤ mid → mid ≤ hi → cnt k b l lo hi = cnt k b l lo mid + cnt k b l mid hi.
Proof. intros. unfold cnt. rewrite (rng_app l lo mid hi) by done. by rewrite list.filter_app, vlen_app. Qed.
Lemma cnt_nonneg k b l lo hi : 0 ≤ cnt k b l lo hi.
Proof. apply vlen_nonneg. Qed.
Lemma cnt_one k b l i : 0 ≤ i < vlen l → cnt k b l i (i + 1) = if decide (bk k (elem l i) = b) then 1 else 0.
Proof. intros Hi. unfold cnt. rewrite rng_one by done. rewrite filter_cons. by case_decide. Qed.
Lemma cnt_empty k b l lo : cnt k b l lo lo = 0.
Proof. unfold cnt, rng. by rewrite Z.sub_diag. Qed.
Lemma cnt_all k b l lo hi : 0 ≤ lo → lo ≤ hi → hi ≤ vlen l → (∀ i, lo ≤ i < hi → bk k (elem l i) = b) → cnt k b l lo hi = hi - lo.
Proof.
  intros H0 H1 H2 Hb. rewrite <- (vlen_rng l lo hi) by done. unfold cnt. f_equal. apply (rng_Forall (λ x, bk k x = b)) in Hb; [|done..]. induction Hb as [|x m Hx Hm IH]; [done|]. by rewrite filter_cons_True, IH.
Qed.
Lemma cnt_none k b l lo hi : 0 ≤ lo → lo ≤ hi → hi ≤ vlen l → (∀ i, lo ≤ i < hi → bk k (elem l i) ≠ b) → cnt k b l lo hi = 0.
Proof.
  intros H0 H1 H2 Hb. unfold cnt. apply (rng_Forall (λ x, bk k x ≠ b)) in Hb; [|done..]. induction Hb as [|x m Hx Hm IH]; [done|]. by rewrite filter_cons_False.
Qed.
Lemma cnt_conf k b l l' lo hi : 0 ≤ lo → lo ≤ hi → hi ≤ vlen l → conf lo hi l l' → cnt k b l' lo hi = cnt k b l lo hi.
Proof. intros H0 H1 H2 C. unfold cnt, vlen. by rewrite (conf_rng lo hi l l' H0 H1 H2 C). Qed.

(** Where the bucket [b] begins, behind the smaller ones. *)
Fixpoint start (k : Z) (l : list A) (lo hi : Z) (b : nat) : Z :=
  match b with O => 0 | S b => start k l lo hi b + cnt k (Z.of_nat b) l lo hi end.

Lemma bstart_mono k l lo hi b c : (b ≤ c)%nat → start k l lo hi b ≤ start k l lo hi c.
Proof. intros Hbc. induction Hbc as [|c Hbc IH]; [done|]. cbn. pose proof (cnt_nonneg k (Z.of_nat c) l lo hi). lia. Qed.
Lemma start_nonneg k l lo hi b : 0 ≤ start k l lo hi b.
Proof. apply (bstart_mono k l lo hi 0). lia. Qed.

(** Every string is in one bucket. *)
Lemma start_total k l lo hi : 0 ≤ lo → lo ≤ hi → hi ≤ vlen l → (∀ i, lo ≤ i < hi → Forall (is_u 8) (key (elem l i))) → start k l lo hi 257 = hi - lo.
Proof.
  intros H0 H1 H2 Hk. rewrite <- (vlen_rng l lo hi) by done. apply (rng_Forall (λ x, Forall (is_u 8) (key x))) in Hk; [|done..].
  assert (∀ n m, Forall (λ x, Forall (is_u 8) (key x)) m →
    foldr (λ b s, s + vlen (filter (λ x, bk k x = Z.of_nat b) m)) 0 (rev (seq 0 n)) = vlen (filter (λ x, bk k x < Z.of_nat n) m)) as Hsum.
  { intros n m Hm. induction n as [|n IH].
    - cbn. induction Hm as [|x m Hx Hm IHm]; [done|]. pose proof (bk_range k x Hx). by rewrite filter_cons_False by lia.
    - rewrite seq_S, rev_app_distr. cbn [rev app foldr]. rewrite IH. clear IH. induction Hm as [|x m Hx Hm IHm]; [done|]. rewrite !filter_cons.
      repeat case_decide; rewrite ?vlen_cons; try lia. }
  assert (∀ n, start k l lo hi n = foldr (λ b s, s + vlen (filter (λ x, bk k x = Z.of_nat b) (rng l lo hi))) 0 (rev (seq 0 n))) as E.
  { induction n as [|n IH]; [done|]. rewrite seq_S, rev_app_distr. cbn [rev app foldr start]. by rewrite <- IH. }
  rewrite E, Hsum by done. f_equal. clear Hsum E. induction Hk as [|x m Hx Hm IH]; [done|]. pose proof (bk_range k x Hx). rewrite filter_cons_True by lia. by rewrite IH.
Qed.
End keys.

(** Sums over the buckets. *)
Fixpoint sumf (f : Z → Z) (n : nat) : Z := match n with O => 0 | S n => sumf f n + f (Z.of_nat n) end.

Lemma sumf_ext f g n : (∀ b, 0 ≤ b < Z.of_nat n → f b = g b) → sumf f n = sumf g n.
Proof. induction n as [|n IH]; intros E; [done|]. cbn. rewrite IH by (intros; apply E; lia). by rewrite E by lia. Qed.
Lemma sumf_nonneg f n : (∀ b, 0 ≤ b < Z.of_nat n → 0 ≤ f b) → 0 ≤ sumf f n.
Proof. induction n as [|n IH]; intros Hf; [done|]. cbn. specialize (Hf (Z.of_nat n) ltac:(lia)) as Hn. assert (0 ≤ sumf f n) by (apply IH; intros; apply Hf; lia). lia. Qed.
Lemma sumf_less f g n c : 0 ≤ c < Z.of_nat n → g c = f c - 1 → (∀ b, 0 ≤ b < Z.of_nat n → b ≠ c → g b = f b) → sumf g n = sumf f n - 1.
Proof.
  induction n as [|n IH]; intros Hc Hg Ho; [lia|]. cbn. destruct (decide (c = Z.of_nat n)) as [->|Hne].
  - rewrite (sumf_ext g f) by (intros; apply Ho; lia). lia.
  - rewrite IH, (Ho (Z.of_nat n)) by (try done; try lia; intros; apply Ho; lia). lia.
Qed.

Lemma sumf_le f g n : (∀ b, 0 ≤ b < Z.of_nat n → f b ≤ g b) → sumf f n ≤ sumf g n.
Proof. induction n as [|n IH]; intros Hfg; [done|]. cbn. specialize (Hfg (Z.of_nat n) ltac:(lia)) as Hn. assert (sumf f n ≤ sumf g n) by (apply IH; intros; apply Hfg; lia). lia. Qed.

(** * The laws of a sorter of strings *)

Class LawfulMSB (S F A : Type) `{MSBSorter S F} `{Inhabited A} (key : A → list Z) : Type := {
  marr : S → list A;
  byte_at_law s i k : 0 ≤ i < vlen (marr s) → 0 ≤ k → byte_at s i k = Ok (key (elem (marr s) i) !! Z.to_nat k);
  msb_swap_law s i j : 0 ≤ i < vlen (marr s) → 0 ≤ j < vlen (marr s) → ∃ s', msb_swap s i j = Ok s' ∧ marr s' = swapl (marr s) i j;
  fallback_law s k from to : 0 ≤ from → from ≤ to → to ≤ vlen (marr s) → vlen (marr s) < 2 ^ 30 → 0 ≤ k →
    (∀ i, from ≤ i < to → k ≤ vlen (key (elem (marr s) i))) →
    ∃ f, fallback_sort (fallback_sorter s k) from to = Ok f ∧ conf from to (marr s) (marr (shared f)) ∧ sorted (lexk key k) (marr (shared f)) from to;
}.

Import MSBRadixSorter.
#[local] Abbreviation W := MSB_HISTOGRAM_SIZE.

Section msb.
Context {S F A : Type} {HM : MSBSorter S F} {HI : Inhabited A} {key : A → list Z} {L : LawfulMSB S F A key} (Hkey : ∀ x, Forall (is_u 8) (key x)).
Implicit Types (m : t S) (s : S).

(** The counts of a level. *)
Definition hist m (l b : Z) : Z := cell W (histograms m) (l * W + b).
Record wf m : Prop := {
  wf_hist : blocks W (histograms m) LEVEL_THRESHOLD;
  wf_ends : vlen (end_offsets m) = W;
  wf_prefix : 1 ≤ vlen (common_prefix m);
}.

Lemma get_hist m l b : wf m → 0 ≤ l < 8 → 0 ≤ b < W → get2 (histograms m) l b = Ok (hist m l b).
Proof. intros [H1 _ _] Hl Hb. by apply (get2_cell W ltac:(done) _ LEVEL_THRESHOLD). Qed.

Lemma put_count_spec m l b v : wf m → 0 ≤ l < 8 → 0 ≤ b < W →
  ∃ H, put_count m l b v = Ok (with_histograms H m) ∧ wf (with_histograms H m) ∧ ∀ c, 0 ≤ c < W → hist (with_histograms H m) l c = if c =? b then v else hist m l c.
Proof.
  intros [H1 H2 H3] Hl Hb. unfold put_count. destruct (put2_cell W ltac:(done) (histograms m) LEVEL_THRESHOLD l b v H1 Hl Hb) as (H & -> & Hbk & _ & Hc). cbn [mbind result_bind]. exists H.
  split; [done|]. split; [done|]. intros c Hcw. unfold hist. cbn [with_histograms histograms]. rewrite Hc by (unfold W in *; lia). destruct (Z.eqb_spec c b) as [->|Hne]; [by rewrite Z.eqb_refl|].
  by rewrite (proj2 (Z.eqb_neq _ _)) by lia.
Qed.

(** A byte or the end of a string, as [common_prefix] keeps it. *)
Definition enc (o : option Z) : Z := match o with Some b => b | None => -1 end.
Lemma enc_inj x y i j : enc (key x !! i) = enc (key y !! j) → key x !! i = key y !! j.
Proof.
  destruct (key x !! i) as [b|] eqn:Ex, (key y !! j) as [c|] eqn:Ey; cbn; intros E; subst; try done.
  - apply (Forall_lookup_1 _ _ _ _ (Hkey x)) in Ex. unfold is_u in Ex. lia.
  - apply (Forall_lookup_1 _ _ _ _ (Hkey y)) in Ey. unfold is_u in Ey. lia.
Qed.
Lemma bk_enc k x : bk key k x = enc (key x !! Z.to_nat k) + 1.
Proof. unfold bk. by destruct (key x !! Z.to_nat k). Qed.

(** ** The common prefix *)

Lemma first_prefix_spec s from k : 0 ≤ from < vlen (marr s) → 0 ≤ k → let x := elem (marr s) from in
  ∀ n cp j, 0 ≤ j → j + Z.of_nat n ≤ vlen cp → (∀ i, 0 ≤ i < j → nthz cp i = enc (key x !! Z.to_nat (k + i))) →
  ∃ cp' c, first_prefix n s cp from k j (j + Z.of_nat n) = Ok (cp', c) ∧ vlen cp' = vlen cp ∧ j ≤ c ≤ j + Z.of_nat n ∧ (0 < j + Z.of_nat n → 0 < c) ∧
    ∀ i, 0 ≤ i < c → nthz cp' i = enc (key x !! Z.to_nat (k + i)).
Proof.
  intros Hf Hk x n. induction n as [|n IH]; intros cp j Hj Hl Hcp; cbn [first_prefix].
  - exists cp, j. rewrite Z.add_0_r. split_and!; try done; lia.
  - rewrite byte_at_law by lia. cbn [mbind result_bind]. fold x. destruct (vset_nthz cp j (enc (key x !! Z.to_nat (k + j)))) as (cp1 & E1 & Hl1 & Hn1); [lia|].
    assert (∀ i, 0 ≤ i < j + 1 → nthz cp1 i = enc (key x !! Z.to_nat (k + i))) as Hcp1.
    { intros i Hi. rewrite Hn1 by lia. destruct (Z.eqb_spec i j) as [->|]; [done|]. apply Hcp. lia. }
    destruct (key x !! Z.to_nat (k + j)) as [b|] eqn:Eb; cbn [enc] in E1; rewrite E1; cbn [mbind result_bind].
    + destruct (IH cp1 (j + 1)) as (cp' & c & E & H1 & H2 & H3 & H4); [lia|lia|done|]. replace (j + 1 + Z.of_nat n) with (j + Z.of_nat (Datatypes.S n)) in * by lia.
      exists cp', c. split_and!; try done; try lia.
    + exists cp1, (j + 1). split_and!; try done; lia.
Qed.

(** The strings at [i] and [from] agree for [c] bytes from [k] on. *)
Definition agree s k from i c : Prop := ∀ j, 0 ≤ j < c → key (elem (marr s) i) !! Z.to_nat (k + j) = key (elem (marr s) from) !! Z.to_nat (k + j).

Lemma mismatch_spec s from index k cp c : 0 ≤ from < vlen (marr s) → 0 ≤ index < vlen (marr s) → 0 ≤ k → c ≤ vlen cp →
  (∀ i, 0 ≤ i < c → nthz cp i = enc (key (elem (marr s) from) !! Z.to_nat (k + i))) →
  ∀ n j, 0 ≤ j → j + Z.of_nat n = c → agree s k from index j →
  (mismatch n s cp index k j = Ok None ∧ agree s k from index c) ∨
  ∃ j', j ≤ j' < c ∧ mismatch n s cp index k j = Ok (Some (j', enc (key (elem (marr s) index) !! Z.to_nat (k + j')))) ∧ agree s k from index j' ∧
    key (elem (marr s) index) !! Z.to_nat (k + j') ≠ key (elem (marr s) from) !! Z.to_nat (k + j').
Proof.
  intros Hf Hi Hk Hc Hcp n. induction n as [|n IH]; intros j Hj Hn Ha; cbn [mismatch].
  - left. split; [done|]. by replace c with j by lia.
  - rewrite byte_at_law by lia. cbn [mbind result_bind]. rewrite vget_nthz, Hcp by lia. cbn [mbind result_bind].
    change (match ?o with Some v => v | None => -1 end) with (enc o). destruct (Z.eqb_spec (enc (key (elem (marr s) index) !! Z.to_nat (k + j))) (enc (key (elem (marr s) from) !! Z.to_nat (k + j)))) as [E|E]; cbn [negb].
    + apply enc_inj in E. destruct (IH (j + 1)) as [?|(j' & Hj' & ?)]; [lia|lia| |by left|right; exists j'; split; [lia|done]].
      intros i Hi'. destruct (decide (i = j)) as [->|]; [done|]. apply Ha. lia.
    + right. exists j. split_and!; try done; try lia. intros Ee. apply E. by rewrite Ee.
Qed.

Lemma cnt_agree s k from i b : 0 ≤ from → from ≤ i → i ≤ vlen (marr s) → (∀ p, from ≤ p < i → agree s k from p 1) → 0 ≤ k →
  cnt key k b (marr s) from i = if decide (b = bk key k (elem (marr s) from)) then i - from else 0.
Proof.
  intros H0 H1 H2 Ha Hk. assert (∀ p, from ≤ p < i → bk key k (elem (marr s) p) = bk key k (elem (marr s) from)) as Hb.
  { intros p Hp. rewrite !bk_enc. do 2 f_equal. specialize (Ha p Hp 0 ltac:(lia)). by rewrite Z.add_0_r in Ha. }
  case_decide as E; [apply cnt_all; try done; intros p Hp; by rewrite Hb, E by done|]. apply cnt_none; try done. intros p Hp. rewrite Hb by done. congruence.
Qed.

Lemma scan_prefix_spec from to k l : 0 ≤ k → 0 ≤ l < 8 → ∀ n m index c, wf m → 0 ≤ from < index → index + Z.of_nat n = to → to ≤ vlen (marr (msb_sorter m)) →
  (∀ b, 0 ≤ b < W → hist m l b = 0) → 1 ≤ c ≤ vlen (common_prefix m) →
  (∀ i, 0 ≤ i < c → nthz (common_prefix m) i = enc (key (elem (marr (msb_sorter m)) from) !! Z.to_nat (k + i))) →
  (∀ p, from ≤ p < index → agree (msb_sorter m) k from p c) →
  (∃ c', scan_prefix n m from to k l index c = Ok (to, c', m) ∧ 1 ≤ c' ≤ c ∧ ∀ p, from ≤ p < to → agree (msb_sorter m) k from p c') ∨
  ∃ i H, scan_prefix n m from to k l index c = Ok (i, 0, with_histograms H m) ∧ from < i < to ∧ wf (with_histograms H m) ∧
    ∀ b, 0 ≤ b < W → hist (with_histograms H m) l b = cnt key k b (marr (msb_sorter m)) from (i + 1).
Proof.
  intros Hk Hl n. induction n as [|n IH]; intros m index c Hwf Hf Hn Hto Hz Hc Hcp Ha; cbn [scan_prefix].
  - left. exists c. rewrite Z.add_0_r in Hn. subst. split_and!; try done; lia.
  - destruct (mismatch_spec (msb_sorter m) from index k (common_prefix m) c) with (n := Z.to_nat c) (j := 0) as [[-> Hag]|(j & Hj & -> & Hag & Hne)]; try done; try lia; [intros i Hi; lia|..]; cbn [mbind result_bind].
    + destruct (IH m (index + 1) c) as [?|?]; try done; try lia; [|by left|by right]. intros p Hp. destruct (decide (p = index)) as [->|]; [done|]. apply Ha. lia.
    + destruct (Z.eqb_spec j 0) as [->|Hj0].
      * right. rewrite vget_nthz, Hcp by lia. cbn [mbind result_bind]. rewrite !Z.add_0_r in *. rewrite <- !bk_enc.
        pose proof (bk_range key k (elem (marr (msb_sorter m)) from) (Hkey _)) as Hr1. pose proof (bk_range key k (elem (marr (msb_sorter m)) index) (Hkey _)) as Hr2.
        destruct (put_count_spec m l _ (index - from) Hwf Hl Hr1) as (H1 & -> & Hw1 & Hh1). cbn [mbind result_bind].
        destruct (put_count_spec _ l _ 1 Hw1 Hl Hr2) as (H2 & -> & Hw2 & Hh2). cbn [mbind result_bind]. exists index, H2. split; [done|]. split; [lia|]. split; [done|].
        intros b Hb. change (with_histograms H2 (with_histograms H1 m)) with (with_histograms H2 m) in Hh2. rewrite Hh2, Hh1, Hz by done. rewrite (bcnt_app key k b _ from index (index + 1)), cnt_one by lia.
        rewrite (cnt_agree _ k from index b) by (try done; try lia; intros p Hp q Hq; apply (Ha p Hp); lia).
        assert (bk key k (elem (marr (msb_sorter m)) index) ≠ bk key k (elem (marr (msb_sorter m)) from)) as Hd by (rewrite !bk_enc; intros E; apply Hne, enc_inj; lia).
        repeat case_decide; destruct (Z.eqb_spec b (bk key k (elem (marr (msb_sorter m)) index))), (Z.eqb_spec b (bk key k (elem (marr (msb_sorter m)) from))); congruence || lia.
      * destruct (IH m (index + 1) j) as [(c' & E & Hc' & Hall)|?]; try done; try lia; [..|left; exists c'; split_and!; try done; lia|by right].
        -- intros i Hi. apply Hcp. lia.
        -- intros p Hp q Hq. destruct (decide (p = index)) as [->|]; [by apply Hag|]. apply (Ha p ltac:(lia)). lia.
Qed.

Lemma bucket_of s i k : 0 ≤ i < vlen (marr s) → 0 ≤ k → get_bucket s i k = Ok (bk key k (elem (marr s) i)).
Proof. intros Hi Hk. unfold get_bucket. rewrite byte_at_law by done. cbn [mbind result_bind]. unfold bk. by destruct (key _ !! _). Qed.

(** ** The histogram *)

Lemma build_histogram_spec m from lo to k l : wf m → 0 ≤ k → 0 ≤ l < 8 → 0 ≤ from ≤ lo → lo ≤ to → to ≤ vlen (marr (msb_sorter m)) →
  (∀ b, 0 ≤ b < W → hist m l b = cnt key k b (marr (msb_sorter m)) from lo) →
  ∃ H, build_histogram m lo to k l = Ok (with_histograms H m) ∧ wf (with_histograms H m) ∧
    ∀ b, 0 ≤ b < W → hist (with_histograms H m) l b = cnt key k b (marr (msb_sorter m)) from to.
Proof.
  intros Hwf Hk Hl Hlo Hto Hv Hh. unfold build_histogram.
  match goal with |- context [for_range lo to ?body m] => destruct (for_range_inv (fun i m' => ∃ H, m' = with_histograms H m ∧ wf m' ∧ ∀ b, 0 ≤ b < W → hist m' l b = cnt key k b (marr (msb_sorter m)) from i) body lo to m)
    as (m' & -> & H & -> & Hw & Hc) end; [lia|exists (histograms m); by destruct m| |by exists H].
  intros i m' Hi (H & -> & Hw & Hc). cbn [with_histograms msb_sorter]. rewrite bucket_of by lia. cbn [mbind result_bind].
  pose proof (bk_range key k (elem (marr (msb_sorter m)) i) (Hkey _)) as Hr. rewrite get_hist, Hc by (done || lia). cbn [mbind result_bind].
  destruct (put_count_spec (with_histograms H m) l _ (cnt key k (bk key k (elem (marr (msb_sorter m)) i)) (marr (msb_sorter m)) from i + 1) Hw Hl Hr) as (H2 & -> & Hw2 & Hc2).
  eexists. split; [done|]. exists H2. split; [done|]. split; [done|]. intros b Hb. rewrite Hc2, (bcnt_app key k b _ from i (i + 1)), cnt_one by lia.
  destruct (Z.eqb_spec b (bk key k (elem (marr (msb_sorter m)) i))) as [->|]; [by rewrite decide_True|]. rewrite decide_False, Hc by done. lia.
Qed.

(** What [radix_sort] knows of the strings before it moves them. *)
Lemma compute_spec m from to k l : wf m → 0 ≤ k < max_length m → max_length m < 2 ^ 31 → 0 ≤ l < 8 → 0 ≤ from < to → to ≤ vlen (marr (msb_sorter m)) → (∀ b, 0 ≤ b < W → hist m l b = 0) →
  ∃ c m', compute_common_prefix_length_and_build_histogram m from to k l = Ok (c, m') ∧ wf m' ∧ msb_sorter m' = msb_sorter m ∧ max_length m' = max_length m ∧
    0 ≤ c ≤ max_length m - k ∧ (∀ b, 0 ≤ b < W → hist m' l b = cnt key k b (marr (msb_sorter m)) from to) ∧ (0 < c → ∀ p, from ≤ p < to → agree (msb_sorter m) k from p c).
Proof.
  intros Hwf Hk Hmax Hl Hf Hto Hz. pose proof (wf_prefix m Hwf) as Hpre. unfold compute_common_prefix_length_and_build_histogram. rewrite as_u_id by (unfold is_u; lia).
  set (n := Z.min _ _). assert (1 ≤ n) as Hn by lia.
  destruct (first_prefix_spec (msb_sorter m) from k) with (n := Z.to_nat n) (cp := common_prefix m) (j := 0) as (cp & c & E & Hl1 & Hc & Hpos & Hcp); try lia.
  rewrite Z2Nat.id in * by lia. rewrite Z.add_0_l in *. rewrite E. cbn [mbind result_bind]. set (m1 := with_common_prefix cp m).
  assert (wf m1) as Hw1 by (destruct Hwf; split; try done; cbn; lia).
  destruct (scan_prefix_spec from to k l ltac:(lia) Hl (Z.to_nat (to - (from + 1))) m1 (from + 1) c) as [(c' & -> & Hc' & Hag)|(i & H & -> & Hi & Hw2 & Hh)]; try done; try (cbn; lia).
  - intros p Hp. replace p with from by lia. by intros j Hj.
  - cbn [mbind result_bind]. rewrite Z.ltb_irrefl. cbn [m1 with_common_prefix common_prefix]. rewrite vget_nthz, Hcp by lia. cbn [mbind result_bind]. rewrite Z.add_0_r, <- bk_enc.
    destruct (put_count_spec m1 l _ (to - from) Hw1 Hl (bk_range key k (elem (marr (msb_sorter m)) from) (Hkey _))) as (H & -> & Hw2 & Hh2). cbn [mbind result_bind]. eexists _, _. split; [done|].
    split_and!; try done; try lia. intros b Hb. rewrite Hh2 by done. rewrite (cnt_agree (msb_sorter m) k from to b) by (try done; try lia; intros p Hp q Hq; apply (Hag p Hp); lia).
    destruct (Z.eqb_spec b (bk key k (elem (marr (msb_sorter m)) from))) as [->|]; [by rewrite decide_True|]. rewrite decide_False by done. by apply Hz.
  - cbn [mbind result_bind]. rewrite (proj2 (Z.ltb_lt _ _)) by lia.
    destruct (build_histogram_spec (with_histograms H m1) from (i + 1) to k l) as (H2 & -> & Hw3 & Hh3); try done; try (cbn; lia). cbn [mbind result_bind]. eexists _, _. split; [done|].
    split_and!; try done; lia.
Qed.

Lemma sum_histogram_spec m l (f : Z → Z) (sums : nat → Z) : wf m → 0 ≤ l < 8 → (∀ b, 0 ≤ b < W → hist m l b = f b) → sums O = 0 → (∀ n, sums (Datatypes.S n) = sums n + f (Z.of_nat n)) →
  ∃ m', sum_histogram m l = Ok m' ∧ wf m' ∧ msb_sorter m' = msb_sorter m ∧ max_length m' = max_length m ∧
    ∀ b, 0 ≤ b < W → hist m' l b = sums (Z.to_nat b) ∧ nthz (end_offsets m') b = sums (Datatypes.S (Z.to_nat b)).
Proof.
  intros Hwf Hl Hh H0 HS. unfold sum_histogram.
  match goal with |- context [for_range 0 W ?body ?st] => destruct (for_range_inv (fun i '(a, m') => a = sums (Z.to_nat i) ∧ wf m' ∧ msb_sorter m' = msb_sorter m ∧ max_length m' = max_length m ∧
    (∀ b, 0 ≤ b < i → hist m' l b = sums (Z.to_nat b) ∧ nthz (end_offsets m') b = sums (Datatypes.S (Z.to_nat b))) ∧ ∀ b, i ≤ b < W → hist m' l b = f b) body 0 W st)
    as ([a m'] & -> & _ & Hw & H2 & H3 & H4 & _) end; [done|..].
  - split; [by symmetry|]. split_and!; try done; intros b Hb; lia.
  - intros i [a m'] Hi (-> & Hw & H2 & H3 & H4 & H5). rewrite get_hist, H5 by (done || lia). cbn [mbind result_bind].
    destruct (put_count_spec m' l i (sums (Z.to_nat i)) Hw Hl Hi) as (H & -> & Hw2 & Hh2). cbn [mbind result_bind]. cbn [with_histograms end_offsets].
    destruct (vset_nthz (end_offsets m') i (sums (Z.to_nat i) + f i)) as (e & -> & He & Hn); [rewrite (wf_ends _ Hw); lia|]. cbn [mbind result_bind]. eexists. split; [done|].
    assert (sums (Datatypes.S (Z.to_nat i)) = sums (Z.to_nat i) + f i) as Es by (rewrite HS; do 2 f_equal; lia).
    cbn beta iota. split_and!; try done.
    + by replace (Z.to_nat (i + 1)) with (Datatypes.S (Z.to_nat i)) by lia.
    + destruct Hw2. split; try done. cbn. rewrite He. by apply (wf_ends _ Hw).
    + intros b Hb. change (hist (with_end_offsets e (with_histograms H m')) l b) with (hist (with_histograms H m') l b). cbn [with_end_offsets end_offsets]. rewrite Hh2, Hn by lia.
      destruct (Z.eqb_spec b i) as [->|]; [done|]. apply H4. lia.
    + intros b Hb. change (hist (with_end_offsets e (with_histograms H m')) l b) with (hist (with_histograms H m') l b). rewrite Hh2 by lia. rewrite (proj2 (Z.eqb_neq _ _)) by lia. apply H5. lia.
  - cbn [mbind result_bind]. exists m'. split_and!; try done.
Qed.

(** ** Moving the strings to their buckets *)

Section reordering.
Context (l0 : list A) (from to k l ml : Z) (Hk : 0 ≤ k) (Hl : 0 ≤ l < 8) (Hf : 0 ≤ from ≤ to) (Hto : to ≤ vlen l0).
#[local] Abbreviation st := (start key k l0 from to).

(** Below the count of a bucket all strings are the bucket's. *)
Record rinv m : Prop := {
  ri_wf : wf m;
  ri_max : max_length m = ml;
  ri_conf : conf from to l0 (marr (msb_sorter m));
  ri_ends : ∀ b, 0 ≤ b < W → nthz (end_offsets m) b = st (Datatypes.S (Z.to_nat b));
  ri_hist : ∀ b, 0 ≤ b < W → st (Z.to_nat b) ≤ hist m l b ≤ st (Datatypes.S (Z.to_nat b));
  ri_done : ∀ b p, 0 ≤ b < W → st (Z.to_nat b) ≤ p < hist m l b → bk key k (elem (marr (msb_sorter m)) (from + p)) = b;
}.

Definition unplaced m : Z := sumf (fun b => st (Datatypes.S (Z.to_nat b)) - hist m l b) 257.

Lemma st_top b : 0 ≤ b < W → 0 ≤ st (Z.to_nat b) ∧ st (Datatypes.S (Z.to_nat b)) = st (Z.to_nat b) + cnt key k b l0 from to ∧ st (Datatypes.S (Z.to_nat b)) ≤ to - from.
Proof.
  intros Hb. split; [apply start_nonneg|]. split; [cbn; by rewrite Z2Nat.id by lia|]. rewrite <- (start_total key k l0 from to) by (done || lia). apply bstart_mono. unfold W in *. lia.
Qed.

Lemma st_disjoint b c : 0 ≤ b < W → 0 ≤ c < W → b < c → st (Datatypes.S (Z.to_nat b)) ≤ st (Z.to_nat c).
Proof. intros Hb Hc Hlt. apply bstart_mono. lia. Qed.

(** There is room in the bucket of a string that is not at its place. *)
Lemma bucket_room m i : rinv m → 0 ≤ i < W → hist m l i < st (Datatypes.S (Z.to_nat i)) → let b := bk key k (elem (marr (msb_sorter m)) (from + hist m l i)) in
  0 ≤ b < W ∧ hist m l b < st (Datatypes.S (Z.to_nat b)).
Proof.
  intros Hr Hi Hlt b. pose proof Hr as [R1 R2 R3 R4 R5 R6]. assert (0 ≤ b < W) as Hb by (apply bk_range, Hkey). split; [done|]. destruct (decide (b = i)) as [->|Hne]; [done|].
  destruct (Z.lt_ge_cases (hist m l b) (st (Datatypes.S (Z.to_nat b)))) as [?|Hge]; [done|exfalso].
  pose proof (R5 b Hb) as Hrb. pose proof (R5 i Hi) as Hri. destruct (st_top b Hb) as (S1 & S2 & S3). destruct (st_top i Hi) as (S4 & S5 & S6). pose proof (conf_vlen _ _ _ _ R3) as Hv.
  set (a := marr (msb_sorter m)) in *. set (h := hist m l i) in *. pose proof (cnt_conf key k b l0 a from to ltac:(lia) ltac:(lia) Hto R3) as Hcnt.
  assert (cnt key k b a (from + st (Z.to_nat b)) (from + st (Datatypes.S (Z.to_nat b))) = cnt key k b l0 from to) as Hfull.
  { rewrite cnt_all; [lia|lia|lia|lia|]. intros p Hp. replace p with (from + (p - from)) by lia. apply R6; [done|lia]. }
  assert (cnt key k b a (from + h) (from + h + 1) = 1) as Hone by (rewrite cnt_one by lia; by rewrite decide_True).
  destruct (Z.lt_total b i) as [Hbi|[?|Hbi]]; [|done|].
  - pose proof (st_disjoint b i Hb Hi Hbi). rewrite (bcnt_app key k b a from (from + st (Z.to_nat b)) to) in Hcnt by lia.
    rewrite (bcnt_app key k b a (from + st (Z.to_nat b)) (from + st (Datatypes.S (Z.to_nat b))) to) in Hcnt by lia.
    rewrite (bcnt_app key k b a (from + st (Datatypes.S (Z.to_nat b))) (from + h) to), (bcnt_app key k b a (from + h) (from + h + 1) to) in Hcnt by lia.
    pose proof (cnt_nonneg key k b a from (from + st (Z.to_nat b))). pose proof (cnt_nonneg key k b a (from + st (Datatypes.S (Z.to_nat b))) (from + h)). pose proof (cnt_nonneg key k b a (from + h + 1) to). lia.
  - pose proof (st_disjoint i b Hi Hb Hbi). rewrite (bcnt_app key k b a from (from + h) to), (bcnt_app key k b a (from + h) (from + h + 1) to) in Hcnt by lia.
    rewrite (bcnt_app key k b a (from + h + 1) (from + st (Z.to_nat b)) to), (bcnt_app key k b a (from + st (Z.to_nat b)) (from + st (Datatypes.S (Z.to_nat b))) to) in Hcnt by lia.
    pose proof (cnt_nonneg key k b a from (from + h)). pose proof (cnt_nonneg key k b a (from + h + 1) (from + st (Z.to_nat b))). pose proof (cnt_nonneg key k b a (from + st (Datatypes.S (Z.to_nat b))) to). lia.
Qed.

(** A string at its place is not at the next free place of a bucket. *)
Lemma placed_apart m c d p : rinv m → 0 ≤ c < W → 0 ≤ d < W → st (Z.to_nat c) ≤ p < hist m l c → hist m l d < st (Datatypes.S (Z.to_nat d)) → p ≠ hist m l d.
Proof.
  intros Hr Hc Hd Hp Hlt ->. pose proof (ri_hist m Hr c Hc). pose proof (ri_hist m Hr d Hd).
  destruct (Z.lt_total c d) as [Hy|[->|Hy]]; [pose proof (st_disjoint c d Hc Hd Hy)| |pose proof (st_disjoint d c Hd Hc Hy)]; lia.
Qed.

(** One exchange. *)
Lemma reorder_step m i : rinv m → 0 ≤ i < W → hist m l i < st (Datatypes.S (Z.to_nat i)) →
  ∃ m', (b ← get_bucket (msb_sorter m) (from + hist m l i) k;
         h2 ← get2 (histograms m) l b;
         m1 ← put_count m l b (h2 + 1);
         s ← msb_swap (msb_sorter m1) (from + hist m l i) (from + h2);
         h1 ← get2 (histograms m1) l i;
         Ok (h1, with_sorter s m1)) = Ok (hist m' l i, m') ∧ rinv m' ∧ unplaced m' = unplaced m - 1 ∧ ∀ b, 0 ≤ b < W → hist m l b ≤ hist m' l b.
Proof.
  intros Hr Hi Hlt. destruct (bucket_room m i Hr Hi Hlt) as [Hb Hroom]. pose proof Hr as [R1 R2 R3 R4 R5 R6]. pose proof (conf_vlen _ _ _ _ R3) as Hv. destruct (st_top i Hi) as (S4 & S5 & S6).
  set (b := bk key k _) in *. destruct (st_top b Hb) as (S1 & S2 & S3). pose proof (R5 b Hb) as Hrb. pose proof (R5 i Hi) as Hri.
  rewrite bucket_of by lia. fold b. cbn [mbind result_bind]. rewrite get_hist by done. cbn [mbind result_bind]. destruct (put_count_spec m l b (hist m l b + 1) R1 Hl Hb) as (H & -> & Hw & Hh). cbn [mbind result_bind].
  destruct (msb_swap_law (msb_sorter m) (from + hist m l i) (from + hist m l b)) as (s & Es & Hs); [lia..|]. cbn [with_histograms msb_sorter]. rewrite Es. cbn [mbind result_bind].
  change (histograms (with_histograms H m)) with (histograms (with_histograms H m)). rewrite get_hist by done. cbn [mbind result_bind]. exists (with_sorter s (with_histograms H m)).
  assert (∀ c, hist (with_sorter s (with_histograms H m)) l c = hist (with_histograms H m) l c) as Ehs by done. split; [done|]. split; [|split].
  - split; try done.
    + destruct Hw. by split.
    + cbn. rewrite Hs. eapply conf_trans; [exact R3|]. apply conf_swap; lia.
    + intros c Hc. rewrite Ehs, Hh by done. pose proof (R5 c Hc). destruct (Z.eqb_spec c b) as [->|]; lia.
    + intros c p Hc. rewrite Ehs, Hh by done. cbn [with_sorter msb_sorter]. rewrite Hs. intros Hp. destruct (st_top c Hc) as (S7 & S8 & S9).
      assert (hist m l c ≤ st (Datatypes.S (Z.to_nat c))) as Htop by (apply R5, Hc).
      assert (c = b ∧ p = hist m l b ∨ p < hist m l c) as [[-> ->]|Hp1] by (destruct (Z.eqb_spec c b) as [->|]; lia).
      * rewrite elem_swapl by lia. destruct (Z.eqb_spec (from + hist m l b) (from + hist m l i)) as [E|E]; [rewrite E; reflexivity|]. by rewrite Z.eqb_refl.
      * pose proof (placed_apart m c i p Hr Hc Hi ltac:(lia) Hlt). pose proof (placed_apart m c b p Hr Hc Hb ltac:(lia) Hroom). rewrite elem_swapl by lia. rewrite !(proj2 (Z.eqb_neq _ _)) by lia. apply R6; [done|lia].
  - unfold unplaced. apply (sumf_less _ _ _ b); [unfold W in *; lia|rewrite Ehs, Hh, Z.eqb_refl by done; lia|]. intros c Hc Hne. rewrite Ehs, Hh by (unfold W; lia). by rewrite (proj2 (Z.eqb_neq _ _)).
  - intros c Hc. rewrite Ehs, Hh by done. destruct (Z.eqb_spec c b) as [->|]; lia.
Qed.

Lemma unplaced_bound m : rinv m → 0 ≤ unplaced m ≤ to - from.
Proof.
  intros [R1 R2 R3 R4 R5 R6]. unfold unplaced. split; [apply sumf_nonneg; intros b Hb; specialize (R5 b Hb); lia|].
  apply Z.le_trans with (sumf (fun b => cnt key k b l0 from to) 257).
  - apply sumf_le. intros b Hb. specialize (R5 b Hb). destruct (st_top b Hb) as (_ & S2 & _). lia.
  - rewrite <- (start_total key k l0 from to) by (done || lia). generalize 257%nat. intros n. induction n as [|n IH]; [done|]. cbn. lia.
Qed.

(** At the end of [reorder] the counts are where the next buckets begin. *)
Lemma msb_reorder_spec m : rinv m → ∃ m', reorder m from to k l = Ok m' ∧ rinv m' ∧ ∀ b, 0 ≤ b < W → hist m' l b = st (Datatypes.S (Z.to_nat b)).
Proof.
  intros Hr. unfold reorder.
  match goal with |- context [for_range 0 W ?body m] => destruct (for_range_inv (fun i m' => rinv m' ∧ ∀ b, 0 ≤ b < i → hist m' l b = st (Datatypes.S (Z.to_nat b))) body 0 W m) as (m' & -> & Hr' & Hd) end;
    [done|split; [done|]; intros; lia| |by exists m'].
  intros i m1 Hi [Hr1 Hd1]. rewrite vget_nthz by (rewrite (wf_ends _ (ri_wf _ Hr1)); lia). cbn [mbind result_bind]. rewrite (ri_ends _ Hr1) by done. rewrite get_hist by (done || apply (ri_wf _ Hr1)). cbn [mbind result_bind].
  match goal with |- context [while_fuel ?n ?cond ?bd ?st0] => destruct (while_fuel_inv (fun '(h1, m2) => h1 = hist m2 l i ∧ rinv m2 ∧ ∀ b, 0 ≤ b < i → hist m2 l b = st (Datatypes.S (Z.to_nat b)))
    (fun '(_, m2) => Z.to_nat (unplaced m2)) cond bd) with (fuel := n) (s := st0) as ([h2 m2] & -> & (-> & Hr2 & Hd2) & Hc) end.
  - intros [h2 m2] (-> & Hr2 & Hd2) Hc. apply Z.ltb_lt in Hc. destruct (reorder_step m2 i Hr2 Hi Hc) as (m3 & -> & Hr3 & Hu & Hm). eexists. split; [done|]. cbn beta iota. pose proof (unplaced_bound m3 Hr3). split_and!; try done; [|lia].
    intros b Hb. specialize (Hd2 b Hb). specialize (Hm b ltac:(lia)). pose proof (ri_hist _ Hr3 b ltac:(lia)). lia.
  - done.
  - pose proof (unplaced_bound m1 Hr1). lia.
  - apply Z.ltb_ge in Hc. cbn [mbind result_bind]. exists m2. split; [done|]. split; [done|]. intros b Hb. destruct (decide (b = i)) as [->|]; [|apply Hd2; lia]. pose proof (ri_hist _ Hr2 i Hi). lia.
Qed.

(** ** Buckets in order *)

Definition in_buckets (a : list A) : Prop := ∀ b p, 0 ≤ b < W → st (Z.to_nat b) ≤ p < st (Datatypes.S (Z.to_nat b)) → bk key k (elem a (from + p)) = b.

Lemma region n p : 0 ≤ p < st n → ∃ b, (b < n)%nat ∧ st b ≤ p < st (Datatypes.S b).
Proof.
  induction n as [|n IH]; intros Hp; [cbn in Hp; lia|]. destruct (Z.lt_ge_cases p (st n)) as [Hlt|Hge]; [destruct IH as (b & Hb & ?); [lia|]; exists b; split; [lia|done]|]. exists n. lia.
Qed.

Lemma sorted_bucket a b : in_buckets a → 0 ≤ b < W → 0 ≤ from → sorted (lexk key k) a from (from + st (Z.to_nat b)) → sorted (lexk key k) a (from + st (Z.to_nat b)) (from + st (Datatypes.S (Z.to_nat b))) →
  sorted (lexk key k) a from (from + st (Datatypes.S (Z.to_nat b))).
Proof.
  intros Hb0 Hb Hfr Hs1 Hs2 i j Hi Hij Hj. destruct (Z.lt_ge_cases j (from + st (Z.to_nat b))) as [?|Hge]; [by apply Hs1|]. destruct (Z.lt_ge_cases i (from + st (Z.to_nat b))) as [Hlt|?]; [|by apply Hs2].
  destruct (region (Z.to_nat b) (i - from)) as (c & Hc & Hp); [lia|]. unfold le. rewrite lexk_bucket; [done|done|apply Hkey|].
  replace i with (from + (i - from)) by lia. replace j with (from + (j - from)) by lia. rewrite (Hb0 (Z.of_nat c)), (Hb0 b) by (rewrite ?Nat2Z.id; unfold W in *; lia). lia.
Qed.

Lemma same_bucket x y : bk key k x = bk key k y → key x !! Z.to_nat k = key y !! Z.to_nat k.
Proof. rewrite !bk_enc. intros E. apply enc_inj. lia. Qed.

(** A bucket in order by the bytes behind [k] is in order. *)
Lemma bucket_next a b : in_buckets a → 0 ≤ b < W → sorted (lexk key (k + 1)) a (from + st (Z.to_nat b)) (from + st (Datatypes.S (Z.to_nat b))) →
  sorted (lexk key k) a (from + st (Z.to_nat b)) (from + st (Datatypes.S (Z.to_nat b))).
Proof.
  intros Hb0 Hb Hs i j Hi Hij Hj. unfold le. rewrite lexk_next; [by apply Hs|done|]. apply same_bucket.
  replace i with (from + (i - from)) by lia. replace j with (from + (j - from)) by lia. by rewrite !(Hb0 b) by lia.
Qed.

(** Sorting a bucket leaves the buckets as they are. *)
Lemma in_buckets_conf a a' b : in_buckets a → 0 ≤ b < W → vlen a = vlen l0 → conf (from + st (Z.to_nat b)) (from + st (Datatypes.S (Z.to_nat b))) a a' → in_buckets a'.
Proof.
  intros Hb0 Hb Hv C c p Hc Hp. destruct (st_top b Hb) as (S1 & S2 & S3). destruct (st_top c Hc) as (S4 & S5 & S6). pose proof (cnt_nonneg key k b l0 from to). destruct (decide (c = b)) as [->|Hne].
  - apply (conf_all (from + st (Z.to_nat b)) (from + st (Datatypes.S (Z.to_nat b))) a a' (fun x => bk key k x = b)); [lia..|done| |lia]. intros i Hi. replace i with (from + (i - from)) by lia. apply Hb0; [done|lia].
  - rewrite (conf_outside _ _ _ _ _ C); [by apply Hb0|lia|]. destruct (Z.lt_total b c) as [Hy|[?|Hy]]; [pose proof (st_disjoint b c Hb Hc Hy)|done|pose proof (st_disjoint c b Hc Hb Hy)]; lia.
Qed.
End reordering.

(** ** The recursion *)

Context (M ml : Z) (HM0 : 0 ≤ M) (Hlen : ∀ x, vlen (key x) ≤ M) (HMl : M < ml) (Hml : ml < 2 ^ 31).

(** What a sort of a range by the bytes from [k] on promises. *)
Definition sorts (run : result (t S)) m (from to k : Z) : Prop :=
  ∃ m', run = Ok m' ∧ wf m' ∧ max_length m' = ml ∧ conf from to (marr (msb_sorter m)) (marr (msb_sorter m')) ∧ sorted (lexk key k) (marr (msb_sorter m')) from to.

Lemma past_end k x y : M ≤ k → lexk key k x y = Eq.
Proof. intros Hk. unfold lexk. rewrite !drop_ge; [done|..]; [pose proof (Hlen y)|pose proof (Hlen x)]; unfold vlen in *; lia. Qed.

Lemma byte_below k x b : 0 ≤ k → bk key k x = b → 1 ≤ b → k + 1 ≤ vlen (key x).
Proof. unfold bk. destruct (key x !! Z.to_nat k) eqn:E; [|lia]. apply lookup_lt_Some in E. unfold vlen. lia. Qed.

(** The strings have [c] bytes in common. *)
Lemma sorts_skip m from to k c m' : 0 ≤ from < to → to ≤ vlen (marr (msb_sorter m)) → 0 ≤ k → 0 ≤ c → (∀ p, from ≤ p < to → agree (msb_sorter m) k from p c) →
  conf from to (marr (msb_sorter m)) (marr (msb_sorter m')) → sorted (lexk key (k + c)) (marr (msb_sorter m')) from to → sorted (lexk key k) (marr (msb_sorter m')) from to.
Proof.
  intros Hf Hto Hk Hc Hag C Hs. set (x0 := elem (marr (msb_sorter m)) from).
  pose proof (conf_all from to _ _ (fun x => ∀ j, 0 ≤ j < c → key x !! Z.to_nat (k + j) = key x0 !! Z.to_nat (k + j)) ltac:(lia) ltac:(lia) Hto C Hag) as Hag'.
  intros i j Hi Hij Hj. unfold le. rewrite (lexk_skip key (Z.to_nat c)) by (try done; rewrite Z2Nat.id by lia; intros q Hq; rewrite !Hag' by lia; done). rewrite Z2Nat.id by lia. by apply Hs.
Qed.

Lemma sort_inner_spec rec m from to k l : wf m → max_length m = ml → 0 ≤ from < to → to ≤ vlen (marr (msb_sorter m)) → vlen (marr (msb_sorter m)) < 2 ^ 30 → 0 ≤ k → 0 ≤ l →
  (∀ i, from ≤ i < to → k ≤ vlen (key (elem (marr (msb_sorter m)) i))) → (l < 8 → sorts (rec m from to k l) m from to k) →
  sorts (sort_inner rec m from to k l) m from to k.
Proof.
  intros Hwf Hmx Hf Hto Hv Hk Hl Hkl Hrec. unfold sort_inner. destruct (_ || _) eqn:E.
  - destruct (fallback_law (msb_sorter m) k from to) as (f & -> & C & Hs); try done; try lia. cbn [mbind result_bind]. eexists. split; [done|]. split; [destruct Hwf; by split|]. done.
  - apply orb_false_iff in E as [_ E]. rewrite Z.geb_leb in E. apply Z.leb_gt in E. by apply Hrec.
Qed.

(** The loop over the buckets. *)
Lemma buckets_sorted rec (l0 : list A) from to k l eo m : 0 ≤ k → 0 ≤ l < 8 → 0 ≤ from < to → to ≤ vlen l0 → vlen l0 < 2 ^ 30 →
  wf m → max_length m = ml → conf from to l0 (marr (msb_sorter m)) → in_buckets l0 from to k (marr (msb_sorter m)) → vlen eo = W →
  (∀ b, 0 ≤ b < W → nthz eo b = start key k l0 from to (Datatypes.S (Z.to_nat b))) →
  (∀ m f e, wf m → max_length m = ml → 0 ≤ f < e → e ≤ vlen (marr (msb_sorter m)) → vlen (marr (msb_sorter m)) < 2 ^ 30 → k + 1 ≤ M → l + 1 < 8 → sorts (rec m f e (k + 1) (l + 1)) m f e (k + 1)) →
  ∃ p m', for_range 1 W (fun i '(prev, m) =>
      h ← vget eo i;
      m ← (if h - prev >? 1 then sort_inner rec m (from + prev) (from + h) (k + 1) (l + 1) else Ok m);
      Ok (h, m)) (start key k l0 from to 1, m) = Ok (p, m') ∧ wf m' ∧ max_length m' = ml ∧ conf from to l0 (marr (msb_sorter m')) ∧ sorted (lexk key k) (marr (msb_sorter m')) from to.
Proof.
  intros Hk Hl Hf Hto Hv Hwf Hmx Hc Hib Heo Hst Hrec. set (st := start key k l0 from to) in *.
  match goal with |- context [for_range 1 W ?body ?st0] => destruct (for_range_inv (fun i '(prev, m) => prev = st (Z.to_nat i) ∧ wf m ∧ max_length m = ml ∧ conf from to l0 (marr (msb_sorter m)) ∧
    in_buckets l0 from to k (marr (msb_sorter m)) ∧ sorted (lexk key k) (marr (msb_sorter m)) from (from + st (Z.to_nat i))) body 1 W st0) as ([p m'] & -> & -> & Hw' & Hx' & Hc' & _ & Hs') end; [done|..].
  - split_and!; try done. apply (sorted_bucket l0 from to k Hk ltac:(lia) Hto _ 0); try done; try lia; [intros i j ? ? Hj; change (start _ _ _ _ _ (Z.to_nat 0)) with 0 in Hj; lia|]. intros i j Hi Hij Hj. unfold le, lexk. change (start _ _ _ _ _ (Z.to_nat 0)) with 0 in Hi. change (start _ _ _ _ _ (Datatypes.S (Z.to_nat 0))) with (st 1%nat) in Hj.
    enough (∀ q, from ≤ q < from + st 1%nat → drop (Z.to_nat k) (key (elem (marr (msb_sorter m)) q)) = []) as E by (rewrite !E by lia; done).
    intros q Hq. rewrite drop_next by done. specialize (Hib 0 (q - from) ltac:(done)). change (start _ _ _ _ _ (Z.to_nat 0)) with 0 in Hib. change (start _ _ _ _ _ (Datatypes.S (Z.to_nat 0))) with (st 1%nat) in Hib. specialize (Hib ltac:(lia)). replace (from + (q - from)) with q in Hib by lia. unfold bk in Hib.
    destruct (key (elem (marr (msb_sorter m)) q) !! Z.to_nat k) eqn:Eq; [|done]. apply (Forall_lookup_1 _ _ _ _ (Hkey _)) in Eq. unfold is_u in Eq. lia.
  - intros i [prev m1] Hi (-> & Hw1 & Hx1 & Hc1 & Hib1 & Hs1). rewrite vget_nthz, Hst by lia. cbn [mbind result_bind]. replace (Z.to_nat (i + 1)) with (Datatypes.S (Z.to_nat i)) by lia.
    destruct (st_top l0 from to k Hk ltac:(lia) Hto i ltac:(lia)) as (S1 & S2 & S3). fold st in S1, S2, S3. pose proof (cnt_nonneg key k i l0 from to). pose proof (conf_vlen _ _ _ _ Hc1) as Hv1.
    set (f := from + st (Z.to_nat i)) in *. set (e := from + st (Datatypes.S (Z.to_nat i))) in *.
    assert (∃ m2, (if st (Datatypes.S (Z.to_nat i)) - st (Z.to_nat i) >? 1 then sort_inner rec m1 f e (k + 1) (l + 1) else Ok m1) = Ok m2 ∧ wf m2 ∧ max_length m2 = ml ∧
      conf f e (marr (msb_sorter m1)) (marr (msb_sorter m2)) ∧ sorted (lexk key (k + 1)) (marr (msb_sorter m2)) f e) as (m2 & -> & Hw2 & Hx2 & Hc2 & Hs2).
    { rewrite Z.gtb_ltb. destruct (Z.ltb_spec 1 (st (Datatypes.S (Z.to_nat i)) - st (Z.to_nat i))); [|exists m1; split_and!; try done; apply (sorted_short _); lia].
      assert (∀ q, f ≤ q < e → k + 1 ≤ vlen (key (elem (marr (msb_sorter m1)) q))) as Hkl.
      { intros q Hq. apply (byte_below k _ i); [done| |lia]. replace q with (from + (q - from)) by lia. apply Hib1; [lia|unfold f, e in Hq; fold st; lia]. }
      apply sort_inner_spec; try done; try lia. intros Hl8. apply Hrec; try done; try lia. pose proof (Hkl f ltac:(lia)). pose proof (Hlen (elem (marr (msb_sorter m1)) f)). lia. }
    cbn [mbind result_bind]. eexists. split; [done|]. cbn beta iota. assert (in_buckets l0 from to k (marr (msb_sorter m2))) as Hib2 by (apply (in_buckets_conf l0 from to k Hk ltac:(lia) Hto (marr (msb_sorter m1)) _ i); done || lia).
    split_and!; try done.
    + eapply conf_trans; [exact Hc1|]. eapply conf_wider; [| |exact Hc2]; unfold f, e; lia.
    + apply (sorted_bucket l0 from to k Hk ltac:(lia) Hto _ i); try done; try lia.
      * apply (sorted_same _ (marr (msb_sorter m1))); [|exact Hs1]. intros q Hq. apply (conf_outside _ _ _ _ _ Hc2); fold st f in Hq; lia.
      * apply (bucket_next l0 from to k Hk ltac:(lia) Hto _ i); try done; lia.
  - eexists _, m'. split; [done|]. split_and!; try done. replace to with (from + st (Z.to_nat W)); [done|]. unfold st. change (Z.to_nat W) with 257%nat. rewrite start_total by (done || lia). lia.
Qed.

(** A level that starts again. *)
Lemma fresh_level m l : wf m → 0 ≤ l < 8 → ∃ h, vset (histograms m) l empty_histogram = Ok h ∧ wf (with_histograms h m) ∧ ∀ b, 0 ≤ b < W → hist (with_histograms h m) l b = 0.
Proof.
  intros [[H1 H2] H3 H4] Hl. unfold LEVEL_THRESHOLD in H1. rewrite vset_in by lia. eexists. split; [done|]. split.
  - split; try done. split; cbn [with_histograms histograms]; [by rewrite vlen_insert|]. intros q b Hq Hb. destruct (decide (q = l)) as [->|].
    + rewrite list_lookup_insert_eq in Hb by (unfold vlen in *; lia). by injection Hb as <-.
    + rewrite list_lookup_insert_ne in Hb by lia. by apply (H2 q).
  - intros b Hb. unfold hist, cell. cbn [with_histograms histograms]. rewrite div_at, mod_at by done. rewrite list_lookup_insert_eq by (unfold vlen in *; lia). by apply nthz_replicate.
Qed.

(** The strings have bytes in common, and no more bytes. *)
Lemma common_done m from to k c : 0 ≤ from < to → to ≤ vlen (marr (msb_sorter m)) → 0 ≤ k → 0 < c → (∀ p, from ≤ p < to → agree (msb_sorter m) k from p c) →
  ml ≤ k + c ∨ to - from ≤ cnt key k 0 (marr (msb_sorter m)) from to → sorted (lexk key k) (marr (msb_sorter m)) from to.
Proof.
  intros Hf Hto Hk Hc Hag Hor. destruct Hor as [Hm|Hcnt].
  - apply (sorts_skip m from to k c m); try done; try lia. intros i j _ _ _. unfold le. by rewrite past_end by lia.
  - rewrite (cnt_agree (msb_sorter m) k from to 0) in Hcnt by (try done; try lia; intros p Hp q Hq; apply (Hag p Hp); lia). case_decide as E0; [|lia].
    apply (sorts_skip m from to k 1 m); try done; try lia; [intros p Hp q Hq; apply (Hag p Hp); lia|]. intros i j Hi Hij Hj.
    assert (∀ q, from ≤ q < to → drop (Z.to_nat (k + 1)) (key (elem (marr (msb_sorter m)) q)) = []) as E.
    { intros q Hq. apply drop_ge. pose proof (Hag q Hq 0 ltac:(lia)) as Hq0. rewrite Z.add_0_r in Hq0. rewrite bk_enc in E0. assert (key (elem (marr (msb_sorter m)) q) !! Z.to_nat k = None) as Hn.
      { rewrite Hq0. destruct (key (elem (marr (msb_sorter m)) from) !! Z.to_nat k) eqn:Ek; [|done]. apply (Forall_lookup_1 _ _ _ _ (Hkey _)) in Ek. cbn in E0. unfold is_u in Ek. lia. }
      apply lookup_ge_None in Hn. lia. }
    unfold le, lexk. rewrite !E by lia. done.
Qed.

(** The strings are in their buckets, and no string has a byte behind [k]. *)
Lemma last_byte_done (l0 a : list A) from to k : 0 ≤ k → 0 ≤ from ≤ to → to ≤ vlen l0 → ml ≤ k + 1 → in_buckets l0 from to k a → sorted (lexk key k) a from to.
Proof.
  intros Hk Hf Hto Hml1 Hib. assert (∀ n, (n ≤ 257)%nat → sorted (lexk key k) a from (from + start key k l0 from to n)) as Hall.
  { induction n as [|n IHn]; intros Hn; [intros i j ? ? Hj; cbn in Hj; lia|]. replace n with (Z.to_nat (Z.of_nat n)) by lia.
    apply (sorted_bucket l0 from to k Hk Hf Hto _ (Z.of_nat n)); try done; try (unfold W; lia); [rewrite Nat2Z.id; apply IHn; lia|].
    apply (bucket_next l0 from to k Hk Hf Hto _ (Z.of_nat n)); try done; try (unfold W; lia). intros i j _ _ _. unfold le. by rewrite past_end by lia. }
  specialize (Hall 257%nat ltac:(lia)). rewrite start_total in Hall by (done || lia). by replace (from + (to - from)) with to in Hall by lia.
Qed.

Lemma radix_sort_spec : ∀ fuel m from to k l, wf m → max_length m = ml → 0 ≤ k < ml → 0 ≤ l < 8 → 0 ≤ from < to → to ≤ vlen (marr (msb_sorter m)) → vlen (marr (msb_sorter m)) < 2 ^ 30 →
  (0 < fuel)%nat → (Z.to_nat (M + 1 - k) ≤ fuel)%nat → sorts (radix_sort fuel m from to k l) m from to k.
Proof.
  intros fuel. induction fuel as [|fuel IH]; intros m from to k l Hwf Hmx Hk Hl Hf Hto Hv Hpos Hfu; [lia|]. cbn [radix_sort].
  destruct (fresh_level m l Hwf Hl) as (h & -> & Hw0 & Hz). cbn [mbind result_bind].
  destruct (compute_spec (with_histograms h m) from to k l) as (c & m1 & -> & Hw1 & Es1 & Em1 & Hc & Hh1 & Hag); try done; try (cbn; lia). cbn [mbind result_bind].
  cbn [with_histograms msb_sorter max_length] in *. rewrite Hmx in *. destruct (Z.ltb_spec 0 c) as [Hc0|Hc0].
  - rewrite get_hist, Hh1 by done. cbn [mbind result_bind]. specialize (Hag Hc0). rewrite Em1. destruct (_ && _) eqn:Econd.
    + apply andb_true_iff in Econd as [E1 E2]. apply Z.ltb_lt in E1, E2. rewrite (cnt_agree (msb_sorter m) k from to 0) in E2 by (try done; try lia; intros p Hp q Hq; apply (Hag p Hp); lia).
      assert (k + 1 ≤ M) as HkM.
      { case_decide as E0; [lia|]. pose proof (bk_range key k (elem (marr (msb_sorter m)) from) (Hkey _)). assert (k + 1 ≤ vlen (key (elem (marr (msb_sorter m)) from))) by (eapply byte_below; [lia|done|lia]). pose proof (Hlen (elem (marr (msb_sorter m)) from)). lia. }
      destruct (IH m1 from to (k + c) l) as (m2 & E & Hw2 & Hx2 & C2 & Hs2); try done; try lia; try (rewrite Es1; done). exists m2. rewrite Es1 in C2. split_and!; try done. apply (sorts_skip m from to k c m2); done || lia.
    + exists m1. rewrite Es1. split_and!; try done. apply (common_done m from to k c); try done; try lia.
  - destruct (sum_histogram_spec m1 l (fun b => cnt key k b (marr (msb_sorter m)) from to) (start key k (marr (msb_sorter m)) from to) Hw1 Hl Hh1 eq_refl) as (m2 & -> & Hw2 & Es2 & Em2 & Hh2); [done|]. cbn [mbind result_bind].
    destruct (msb_reorder_spec (marr (msb_sorter m)) from to k l ml) with (m := m2) as (m3 & -> & Hr3 & Hd3); try done; try lia.
    { split; try done; try congruence.
      - rewrite Es2, Es1. apply conf_refl.
      - intros b Hb. by apply Hh2.
      - intros b Hb. destruct (Hh2 b Hb) as [-> _]. split; [lia|]. apply bstart_mono. lia.
      - intros b p Hb. destruct (Hh2 b Hb) as [-> _]. lia. }
    cbn [mbind result_bind]. pose proof Hr3 as [R1 R2 R3 R4 R5 R6].
    destruct (block_of W ltac:(done) (histograms m3) LEVEL_THRESHOLD l (wf_hist _ R1) Hl) as (eo & -> & _ & Heo & Hget & _). cbn [mbind result_bind]. rewrite R2.
    assert (∀ b, 0 ≤ b < W → nthz eo b = start key k (marr (msb_sorter m)) from to (Datatypes.S (Z.to_nat b))) as Heb.
    { intros b Hb. specialize (Hget b Hb). rewrite vget_nthz in Hget by lia. injection Hget as ->. by apply Hd3. }
    destruct (Z.ltb_spec (k + 1) ml) as [Hk1|Hk1].
    + rewrite (vget_nthz eo 0), Heb by (rewrite ?Heo; done). cbn [mbind result_bind]. change (Datatypes.S (Z.to_nat 0)) with 1%nat.
      destruct (buckets_sorted (radix_sort fuel) (marr (msb_sorter m)) from to k l eo m3) as (p & m4 & -> & ? & ? & ? & ?); try done; try lia.
      * intros b p Hb Hp. apply R6; [done|]. by rewrite Hd3.
      * intros m' f e Hw' Hx' Hfe He Hv' HkM Hl'. apply IH; done || lia.
      * cbn [mbind result_bind]. exists m4. split_and!; done.
    + exists m3. split_and!; try done.
      apply (last_byte_done (marr (msb_sorter m))); try done; try lia. intros b p Hb Hp. apply R6; [done|]. by rewrite Hd3.
Qed.

Lemma msb_new_wf s : wf (new ml s).
Proof.
  split; cbn [new histograms end_offsets common_prefix]; [|done|rewrite vlen_replicate; lia].
  split; [done|]. intros q b Hq Hb. apply lookup_replicate in Hb as [-> _]. done.
Qed.

(** The sort of a whole range. *)
Lemma msb_sort_spec fuel s from to : 0 ≤ from → from ≤ to → to ≤ vlen (marr s) → vlen (marr s) < 2 ^ 30 → M + 1 ≤ Z.of_nat fuel →
  ∃ m, sort fuel (new ml s) from to = Ok m ∧ conf from to (marr s) (marr (msb_sorter m)) ∧ sorted (lexk key 0) (marr (msb_sorter m)) from to.
Proof.
  intros H0 H1 H2 H3 Hfu. unfold sort, check_range. rewrite (proj2 (Z.leb_le _ _)) by lia. cbn [check mbind result_bind]. destruct (decide (from = to)) as [<-|Hne].
  - unfold sort_inner. rewrite Z.sub_diag. cbn [Z.leb Z.compare orb LENGTH_THRESHOLD]. destruct (fallback_law s 0 from from) as (f & E & C & Hs); try done; try lia. cbn [new msb_sorter]. rewrite E. cbn [mbind result_bind]. by eexists.
  - destruct (sort_inner_spec (radix_sort fuel) (new ml s) from to 0 0) as (m & -> & _ & _ & C & Hs); try done; try lia.
    + apply msb_new_wf.
    + intros i Hi. apply vlen_nonneg.
    + intros _. apply radix_sort_spec; try done; try lia. apply msb_new_wf.
    + by exists m.
Qed.
End msb.
