(* ===== verification/BytesRefHashFacts.v ===== *)
(** BytesRefHash gives every byte string an id, and the string of every id back: it
    refines the list of the distinct strings in the order of their first addition. *)

From S2P Require Import Prelude DataIO DataIOFacts PackedBulkFacts PackedArrayFacts BytePool BytePoolFacts PoolFacts BytesRefHash HashTableFacts.
Open Scope Z_scope.
#[local] Abbreviation B := ByteBlockPool.BYTE_BLOCK_SIZE.

(** * Strings in a pool *)

(** The length of a string takes one or two bytes. *)
Definition length_bytes (n : Z) : list Z := if n <? 128 then [n] else [Z.lor 0x80 (Z.land n 0x7f); Z.shiftr n 7].
Definition text_bytes (b : list Z) : list Z := length_bytes (vlen b) ++ b.

(** The memory [m] holds the string [b] at [a], in one block. *)
Record text_in (m : Z → Z) (top a : Z) (b : list Z) : Prop := {
  ti_start : 0 ≤ a;
  ti_block : a mod B + vlen (text_bytes b) ≤ B;
  ti_top : a + vlen (text_bytes b) ≤ top;
  ti_bytes : span m a (vlen (text_bytes b)) = text_bytes b;
}.

Lemma text_in_mono m m' top top' a b : text_in m top a b → top ≤ top' → (∀ x, 0 ≤ x < top → m' x = m x) → text_in m' top' a b.
Proof. intros [H1 H2 H3 H4] Ht Hm. split; try done; try lia. rewrite <- H4 at 2. apply span_ext. intros k Hk. apply Hm. lia. Qed.

Lemma length_bytes_len n : vlen (length_bytes n) = if n <? 128 then 1 else 2.
Proof. unfold length_bytes. by destruct (n <? 128). Qed.

(** The length read back. *)
Lemma length_bytes_decode n : 128 ≤ n < 2 ^ 15 → let b := Z.lor 0x80 (Z.land n 0x7f) in let b1 := Z.shiftr n 7 in
  is_u 8 b ∧ is_u 8 b1 ∧ Z.land b 0x80 ≠ 0 ∧ Z.land b 0x7f + Z.shiftl b1 7 = n ∧ Z.lor (Z.land b 0x7f) (Z.shiftl b1 7) = n.
Proof.
  intros Hn b b1. assert (is_u 7 (Z.land n 127)) as Hl by (apply is_u_land; unfold is_u; lia).
  assert (Z.land b 0x7f = Z.land n 0x7f) as Eb.
  { unfold b. rewrite Z.land_lor_distr_l. change (Z.land 128 127) with 0. rewrite Z.lor_0_l, <- Z.land_assoc. done. }
  assert (Z.lor (Z.land n 127) (Z.shiftl b1 7) = n) as En.
  { unfold b1. apply Z.bits_inj'. intros i Hi. rewrite Z.lor_spec, Z.land_spec, tb_shiftl by done. change 127 with (Z.ones 7). rewrite tb_ones by done.
    destruct (Z.ltb_spec i 7); [rewrite (tb_neg _ (i - 7)), andb_true_r, orb_false_r by lia; done|]. rewrite andb_false_r, tb_shiftr by lia. cbn [orb]. f_equal. lia. }
  split_and!.
  - apply is_u_lor; [lia|unfold is_u; lia|]. unfold is_u in *. lia.
  - unfold b1, is_u. rewrite Z.shiftr_div_pow2 by lia. split; [apply Z.div_pos; lia|apply Z.div_lt_upper_bound; lia].
  - unfold b. rewrite Z.land_lor_distr_l. change (Z.land 128 128) with 128. intros E. apply Z.lor_eq_0_iff in E. lia.
  - rewrite Eb. rewrite <- En at 2. rewrite Z.lor_comm, lor_add_disjoint, Z.shiftl_mul_pow2 by (done || lia). lia.
  - by rewrite Eb.
Qed.

Section texts.
Import ByteBlockPool.

Lemma span_split m a (l k : list Z) : span m a (vlen (l ++ k)) = l ++ k → span m a (vlen l) = l ∧ span m (a + vlen l) (vlen k) = k.
Proof.
  rewrite vlen_app, span_app by apply vlen_nonneg. intros E. apply app_inj_1 in E; [done|]. pose proof (vlen_span m a (vlen l) (vlen_nonneg l)). unfold vlen in *. lia.
Qed.

(** Both readers of a string give it back. *)
Lemma text_reads p T a b : pool_wf p T → text_in (mem p) (head p) a b → set_bytes_ref p a = Ok b ∧ BytesRefHash.text_at p a = Ok b.
Proof.
  intros Hwf [Ha Hblk Htop Hbytes]. unfold text_bytes in *. destruct (span_split _ _ _ _ Hbytes) as [Hlen Htext]. rewrite vlen_app, length_bytes_len in Hblk, Htop. rewrite length_bytes_len in Htext.
  pose proof (vlen_nonneg b) as Hb0. assert (0 ≤ a < head p) as Hin by (destruct (vlen b <? 128); lia).
  destruct (byte_position p T a Hwf Hin) as (Hi & Hj & Ea). set (i := a / B) in *. set (j := a mod B) in *.
  destruct (block_of B ltac:(done) (buffers p) _ i (wf_blocks p T Hwf)) as (blk & Eblk & _ & _ & Hg & Hs); [lia|]. fold (mem p) in Hg, Hs.
  unfold set_bytes_ref, BytesRefHash.text_at, get2. rewrite shiftr_block, land_block by done. fold i j. rewrite Eblk. cbn [mbind result_bind]. rewrite (Hg j) by lia. cbn [mbind result_bind]. rewrite Ea.
  unfold length_bytes in Hlen. destruct (Z.ltb_spec (vlen b) 128) as [Hs1|Hl2].
  - change (vlen [vlen b]) with 1 in Hlen. rewrite span_one in Hlen. injection Hlen as Hm. rewrite Hm.
    assert (Z.land (vlen b) 128 = 0) as -> by (apply Z.bits_inj'; intros q Hq; rewrite Z.land_spec, Z.bits_0; change 128 with (2 ^ 7); rewrite tb_pow2 by lia;
      destruct (Z.eqb_spec q 7) as [->|]; [rewrite (tb_high (vlen b) 7) by (unfold is_u; lia)|rewrite andb_false_r]; done).
    cbn [Z.eqb mbind result_bind]. rewrite Hs by lia.
    replace (i * B + (j + 1)) with (a + 1) by lia. replace (j + 1 + vlen b - (j + 1)) with (vlen b) by lia. by rewrite Htext.
  - destruct (length_bytes_decode (vlen b)) as (_ & _ & Hc & Hd1 & Hd2); [unfold B in *; lia|]. change (vlen [_; _]) with 2 in Hlen.
    replace 2 with (1 + 1) in Hlen by done. rewrite span_app, !span_one in Hlen by lia. injection Hlen as Hm0 Hm1. rewrite Hm0, (proj2 (Z.eqb_neq _ _) Hc).
    rewrite (Hg (j + 1)) by lia. cbn [mbind result_bind]. replace (i * B + (j + 1)) with (a + 1) by lia. rewrite Hm1, Hd1, Hd2. cbn [mbind result_bind]. rewrite Hs by lia.
    replace (i * B + (j + 2)) with (a + 2) by lia. replace (j + 2 + vlen b - (j + 2)) with (vlen b) by lia. by rewrite Htext.
Qed.

(** [next_buffer] at any time; the bytes left in the current buffer are not used. *)
Lemma next_buffer_any p T : pool_wf p T →
  ∃ p', next_buffer p = Ok p' ∧ pool_wf p' (T + (B - byte_upto p)) ∧ byte_upto p' = 0 ∧ 0 ≤ buffer_upto p' ∧ head p' = head p + (B - byte_upto p) ∧ (∀ a, 0 ≤ a < head p → mem p' a = mem p a).
Proof.
  intros [H1 H2 H3 H4 H5 H6 H7 H8]. unfold next_buffer, byte_block. rewrite H7.
  destruct (push_block B ltac:(done) (buffers p) (buffer_upto p + 1) H2) as (bs & -> & Hb & Hold & Hz); [lia|]. cbn [mbind result_bind].
  eexists. split; [done|]. unfold head, mem in *. cbn [buffers buffer_upto byte_upto byte_offset allocator]. unfold B in *. split_and!; try lia.
  - split; unfold head, mem; cbn [buffers buffer_upto byte_upto byte_offset allocator]; unfold B; try done; try lia. intros a Ha. apply Hz. lia.
  - intros a Ha. apply Hold. lia.
Qed.

(** Storing below the head. *)
Lemma copy_below p T from src : pool_wf p T → 0 ≤ buffer_upto p → 0 ≤ from → from + vlen src ≤ byte_upto p → let a0 := byte_offset p + from in
  ∃ bs, copy_to_current p from (from + vlen src) src = Ok (with_buffers bs p) ∧ pool_wf (with_buffers bs p) T ∧
    ∀ a, 0 ≤ a → mem (with_buffers bs p) a = if decide (a0 ≤ a < a0 + vlen src) then nthz src (a - a0) else mem p a.
Proof.
  intros Hwf Hb Hf Hl a0. pose proof Hwf as [H1 H2 H3 H4 H5 H6 H7 H8]. destruct (copy_to_current_spec p T from src Hwf Hb Hf ltac:(lia)) as (bs & E & Hbk & Hc).
  exists bs. split; [done|]. split; [|done]. split; unfold head, mem in *; cbn [with_buffers buffers buffer_upto byte_upto byte_offset allocator]; try done; try lia.
  intros a Ha. rewrite Hc by (unfold B in *; lia). rewrite decide_False by (unfold a0; lia). by apply H6.
Qed.

(** [put] and [copy_to_current] do not look at the head. *)
Lemma put_any_head p u i j v bs : put (with_byte_upto u p) i j v = Ok (with_buffers bs (with_byte_upto u p)) → put p i j v = Ok (with_buffers bs p).
Proof. unfold put. cbn [with_byte_upto buffers]. destruct (put2 _ _ _ _); try done. cbn. by intros [= ->]. Qed.

(** The bytes of the length. *)
Lemma store_length p T (b : list Z) : let n := vlen (length_bytes (vlen b)) in pool_wf p T → 0 ≤ buffer_upto p → byte_upto p + 2 + vlen b ≤ B →
  let q := with_byte_upto (byte_upto p + (vlen b + n)) p in
  ∃ bs, (if vlen b <? 128 then
       p' ← put p (buffer_upto p) (byte_upto p) (as_u8 (vlen b)); Ok (byte_upto p + 1, with_byte_upto (byte_upto p' + (vlen b + 1)) p')
     else
       p' ← put p (buffer_upto p) (byte_upto p) (as_u8 (Z.lor 0x80 (Z.land (vlen b) 0x7f)));
       p' ← put p' (buffer_upto p') (byte_upto p + 1) (as_u8 (Z.land (Z.shiftr (vlen b) 7) 0xff));
       Ok (byte_upto p + 2, with_byte_upto (byte_upto p' + (vlen b + 2)) p')) = Ok (byte_upto p + n, with_buffers bs q) ∧
    pool_wf (with_buffers bs q) (T + (vlen b + n)) ∧ ∀ a, 0 ≤ a → mem (with_buffers bs q) a = if decide (head p ≤ a < head p + n) then nthz (length_bytes (vlen b)) (a - head p) else mem p a.
Proof.
  intros n Hwf Hb Hroom q. pose proof (vlen_nonneg b). pose proof (length_bytes_len (vlen b)) as En. fold n in En. assert (1 ≤ n ≤ 2) as Hn by (destruct (vlen b <? 128); lia).
  clearbody n. pose proof (bump_wf p T (vlen b + n) Hwf ltac:(lia) ltac:(lia) Hb) as Hwq. fold q in Hwq. pose proof (wf_offset p T Hwf) as Ho. pose proof (wf_byte p T Hwf).
  assert (buffer_upto p * B + byte_upto p = head p) as Eh by (unfold head; lia). assert (head q = head p + (vlen b + n)) as Ehq by (unfold head, q; cbn; lia).
  pose proof (head_nonneg p T Hwf). unfold length_bytes. destruct (Z.ltb_spec (vlen b) 128) as [Hs|Hl].
  - rewrite as_u_id by (unfold is_u; lia). destruct (put_spec q _ (buffer_upto p) (byte_upto p) (vlen b) Hwq) as (bs & E & Hw & Hm); [cbn; lia|lia|lia|].
    apply put_any_head in E. rewrite E. cbn [mbind result_bind]. exists bs. subst n. split; [done|]. split; [done|]. intros a Ha. rewrite Hm by done. rewrite Eh.
    destruct (Z.eqb_spec a (head p)) as [->|]; [rewrite decide_True by lia; by rewrite Z.sub_diag|by rewrite decide_False by lia].
  - destruct (length_bytes_decode (vlen b)) as (U1 & U2 & _); [unfold B in *; lia|]. rewrite land_255 by done. rewrite !as_u_id by done.
    destruct (put_spec q _ (buffer_upto p) (byte_upto p) (Z.lor 128 (Z.land (vlen b) 127)) Hwq) as (bs & E & Hw & Hm); [cbn; lia|lia|lia|].
    apply put_any_head in E. rewrite E. cbn [mbind result_bind]. set (p1 := with_buffers bs p).
    destruct (put_spec (with_buffers bs q) _ (buffer_upto p) (byte_upto p + 1) (Z.shiftr (vlen b) 7) Hw) as (bs2 & E2 & Hw2 & Hm2); [cbn; lia|lia|cbn; unfold head, q; cbn; lia|].
    apply (put_any_head p1 (byte_upto p + (vlen b + n))) in E2. change (buffer_upto p1) with (buffer_upto p). rewrite E2. cbn [mbind result_bind]. exists bs2. subst n. split; [done|]. split; [done|].
    intros a Ha. change (with_buffers bs2 (with_buffers bs q)) with (with_buffers bs2 q) in Hm2. rewrite Hm2, Hm by done. rewrite Z.add_assoc, Eh.
    destruct (Z.eqb_spec a (head p + 1)) as [->|]; [rewrite decide_True by lia; by replace (head p + 1 - head p) with 1 by lia|].
    destruct (Z.eqb_spec a (head p)) as [->|]; [rewrite decide_True by lia; by rewrite Z.sub_diag|by rewrite decide_False by lia].
Qed.

Lemma store_text_spec p T (b : list Z) : pool_wf p T → 0 ≤ buffer_upto p → byte_upto p + 2 + vlen b ≤ B →
  ∃ p', BytesRefHash.store_text p b = Ok p' ∧ pool_wf p' (T + vlen (text_bytes b)) ∧ head p' = head p + vlen (text_bytes b) ∧ text_in (mem p') (head p') (head p) b ∧
    ∀ a, 0 ≤ a < head p → mem p' a = mem p a.
Proof.
  intros Hwf Hb Hroom. destruct (store_length p T b Hwf Hb Hroom) as (bs & E & Hw & Hm). unfold BytesRefHash.store_text. cbv zeta in E |- *. rewrite E. cbn [mbind result_bind]. clear E.
  set (n := vlen (length_bytes (vlen b))) in *. set (q := with_byte_upto _ p) in *. pose proof (vlen_nonneg b). pose proof (length_bytes_len (vlen b)) as En. fold n in En.
  assert (1 ≤ n ≤ 2) as Hn by (destruct (vlen b <? 128); lia). pose proof (wf_byte p T Hwf). pose proof (wf_offset p T Hwf) as Ho. pose proof (head_nonneg p T Hwf).
  destruct (copy_below (with_buffers bs q) _ (byte_upto p + n) b Hw) as (bs2 & E2 & Hw2 & Hm2); [done|lia|cbn; lia|]. rewrite E2.
  change (with_buffers bs2 (with_buffers bs q)) with (with_buffers bs2 q) in *. cbn [with_buffers byte_offset q with_byte_upto] in Hm2. replace (byte_offset p + (byte_upto p + n)) with (head p + n) in Hm2 by (unfold head; lia).
  assert (vlen (text_bytes b) = n + vlen b) as Et by (unfold text_bytes; by rewrite vlen_app). rewrite Et. assert (head (with_buffers bs2 q) = head p + (n + vlen b)) as Eh by (unfold head, q; cbn; lia).
  exists (with_buffers bs2 q). rewrite Eh. split; [done|]. split; [by rewrite (Z.add_comm n)|]. split; [done|]. split.
  - split; try lia.
    + rewrite Et. replace (head p mod B) with (byte_upto p); [lia|]. unfold head. rewrite Ho. symmetry. apply mod_at; [done|]. unfold B in *. lia.
    + apply nthz_ext; rewrite vlen_span by lia; [done|]. intros j Hj. rewrite nthz_span by lia. unfold text_bytes at 1. rewrite nthz_app by lia. fold n. rewrite Hm2 by lia. rewrite Et in Hj.
      destruct (Z.ltb_spec j n); [rewrite decide_False, Hm, decide_True by lia; f_equal; lia|rewrite decide_True by lia; f_equal; lia].
  - intros a Ha. rewrite Hm2, decide_False, Hm, decide_False by lia. done.
Qed.
End texts.

(** * The table of ids *)

(** What a [BytesStartArray] promises of the arrays that are well-formed. *)
Class StartArrayLaws (A : Type) `{BytesStartArray A} : Type := {
  array_wf : A → Prop;
  put_bytes (a : A) l : bs_bytes (bs_put a l) = l;
  put_wf (a : A) l : array_wf a → vlen l = vlen (bs_bytes a) → array_wf (bs_put a l);
  grow_wf (a : A) : array_wf a → array_wf (bs_grow a);
  grow_len (a : A) : array_wf a → vlen (bs_bytes a) < vlen (bs_bytes (bs_grow a));
  grow_keep (a : A) i : array_wf a → 0 ≤ i < vlen (bs_bytes a) → nthz (bs_bytes (bs_grow a)) i = nthz (bs_bytes a) i;
  clear_wf (a : A) : array_wf a → array_wf (bs_clear a);
}.

#[global, refine] Instance direct_start_array_laws : StartArrayLaws DirectByteStartArray.t := {| array_wf a := True |}.
Proof.
  1, 2, 3, 6: done.
  - intros [n l] _. cbn. pose proof (over_size_grows (vlen l + 1)). rewrite vlen_resize; lia.
  - intros [n l] i _ Hi. cbn in *. pose proof (over_size_grows (vlen l + 1)). apply resize_nthz; lia.
Defined.

Section hash_facts.
Context {A : Type} `{StartArrayLaws A} (hash32 : list Z → Z).
Import BytesRefHash.

Record sized (h : t A) (k : Z) : Prop := {
  sz_k : 1 ≤ k;
  sz_size : hash_size h = 2 ^ k;
  sz_half : hash_half_size h = 2 ^ (k - 1);
  sz_mask : hash_mask h = 2 ^ k - 1;
  sz_ids : vlen (ids h) = 2 ^ k;
}.

Definition first_ids (n : nat) : list Z := map Z.of_nat (seq 0 n).

(** The ids below [n] are in the table, each reached from its code. *)
Record table (h : t A) (n : nat) (code : Z → Z) : Prop := {
  tb_sized : ∃ k, sized h k;
  tb_placed : placed (hash_size h) (ids h) code;
  tb_present : present (ids h) ≡ₚ first_ids n;
  tb_room : Z.of_nat n < hash_half_size h;
  tb_count : count h = Z.of_nat n;
}.

Lemma elem_of_first_ids n e : e ∈ first_ids n ↔ 0 ≤ e < Z.of_nat n.
Proof.
  unfold first_ids. rewrite list_elem_of_fmap. setoid_rewrite elem_of_seq. split; [intros (i & -> & Hi); lia|]. intros He. exists (Z.to_nat e). lia.
Qed.
Lemma first_ids_S n : Z.of_nat n :: first_ids n ≡ₚ first_ids (S n).
Proof. unfold first_ids. rewrite seq_S, map_app. cbn. by rewrite Permutation_app_comm. Qed.

Lemma table_roomy h n code : table h n code → (length (present (ids h)) < length (ids h))%nat.
Proof using Type*.
  intros [(k & [S1 S2 S3 S4 S5]) T2 T3 T4 T5]. rewrite T3. unfold first_ids. rewrite length_map, length_seq. rewrite S3 in T4. unfold vlen in S5.
  assert (2 ^ (k - 1) < 2 ^ k) by (apply Z.pow_lt_mono_r; lia). lia.
Qed.

(** The slot of the next id. *)
Lemma fill_slot_spec h pool j hash_on_data n code k : sized h k → placed (2 ^ k) (ids h) code → present (ids h) ≡ₚ first_ids n → Z.of_nat n < hash_half_size h → count h = Z.of_nat n + 1 →
  count h < 2 ^ 31 → 0 ≤ j < 2 ^ k → nthz (ids h) j = -1 → reaches (2 ^ k) (ids h) (code (Z.of_nat n)) j →
  (∀ e, 0 ≤ e < Z.of_nat n + 1 → (off ← byte_start h e; if (hash_on_data : bool) then text ← text_at pool off; Ok (hash32 text) else Ok off) = Ok (code e)) →
  ∃ h', fill_slot hash32 h pool j hash_on_data = Ok (Z.of_nat n, h') ∧ table h' (S n) code ∧ bytes_start_array h' = bytes_start_array h.
Proof using Type*.
  intros [S1 S2 S3 S4 S5] Hpl Hpr Hhalf Hc Hlim Hj Hfree Hre Hcode. pose proof (pow2_pos k ltac:(lia)) as Hp. unfold fill_slot. rewrite Hc, as_i_id by (unfold is_i; lia). rewrite vget_nthz, Hfree by lia. cbn [mbind result_bind Z.eqb negb].
  replace (Z.of_nat n + 1 - 1) with (Z.of_nat n) by lia. rewrite vset_in by lia. cbn [mbind result_bind].
  destruct (placed_fill (2 ^ k) Hp (ids h) code j (Z.of_nat n) Hpl Hj Hfree ltac:(lia)) as [Hpl' Hpr']; [rewrite Hpr, elem_of_first_ids; lia|done|]. rewrite Hpr, first_ids_S in Hpr'.
  set (l := <[_ := _]> (ids h)) in *. change (count (with_ids l h)) with (count h). change (hash_half_size (with_ids l h)) with (hash_half_size h).
  assert (2 * 2 ^ (k - 1) = 2 ^ k) as E2 by (rewrite <- Z.pow_succ_r by lia; f_equal; lia). destruct (Z.eqb_spec (count h) (hash_half_size h)) as [Eh|Eh].
  - destruct (rehash_placed hash32 (with_ids l h) pool k code hash_on_data Hpl' ltac:(lia) S2) as (l2 & -> & Hpl2 & Hpr2).
    { intros e He. cbn in He. rewrite Hpr', elem_of_first_ids in He. apply Hcode. lia. }
    cbn [mbind result_bind]. eexists. split; [done|]. cbn. split; [|done]. split; cbn.
    + exists (k + 1). split; cbn; try done; try lia; [f_equal; lia|]. apply (pl_len _ _ _ Hpl2).
    + done.
    + by rewrite Hpr2.
    + lia.
    + lia.
  - cbn [mbind result_bind]. eexists. split; [done|]. cbn. split; [|done]. split; cbn; try done; try lia.
    + exists k. split; cbn; try done. unfold l. by rewrite vlen_insert.
    + by rewrite S2.
Qed.

(** ** The strings *)

Definition text (ts : list (list Z)) (e : Z) : list Z := default [] (ts !! Z.to_nat e).

(** The hash [h] with the pool [p] represents the strings [ts], the string of the id [i] at
    the index [i]. *)
Record repr (h : t A) (p : ByteBlockPool.t) (ts : list (list Z)) : Prop := {
  re_table : table h (length ts) (fun e => hash32 (text ts e));
  re_nodup : NoDup ts;
  re_len : vlen ts ≤ vlen (bs_bytes (bytes_start_array h));
  re_texts : ∀ i b, ts !! i = Some b → text_in (mem p) (head p) (nthz (bs_bytes (bytes_start_array h)) (Z.of_nat i)) b;
  re_pool : ∃ T, pool_wf p T;
  re_small : vlen ts ≤ head p;
  re_wf : array_wf (bytes_start_array h);
}.

Lemma repr_lookup h p ts i b : repr h p ts → ts !! i = Some b →
  ∃ a, byte_start h (Z.of_nat i) = Ok a ∧ ByteBlockPool.set_bytes_ref p a = Ok b ∧ text_at p a = Ok b.
Proof using Type*.
  intros [R1 R2 R3 R4 (T & R5) R6 R7] Hb. pose proof (lookup_lt_Some _ _ _ Hb). unfold byte_start. rewrite vget_nthz by (unfold vlen in *; lia).
  eexists. split; [done|]. by apply text_reads with T, R4.
Qed.

Lemma text_lookup ts e : 0 ≤ e < vlen ts → ts !! Z.to_nat e = Some (text ts e).
Proof. intros He. unfold text. destruct (lookup_lt_is_Some_2 ts (Z.to_nat e)) as [x Hx]; [unfold vlen in *; lia|]. by rewrite Hx. Qed.
Lemma text_app ts b e : 0 ≤ e < vlen ts → text (ts ++ [b]) e = text ts e.
Proof. intros He. unfold text. by rewrite lookup_app_l by (unfold vlen in *; lia). Qed.
Lemma text_new ts b : text (ts ++ [b]) (vlen ts) = b.
Proof. unfold text. rewrite to_nat_vlen, lookup_app_r, Nat.sub_diag by lia. done. Qed.

Lemma find_hash_spec h p ts b : repr h p ts →
  ∃ j, find_hash hash32 h p b = Ok j ∧ 0 ≤ j < hash_size h ∧ reaches (hash_size h) (ids h) (hash32 b) j ∧
    (nthz (ids h) j = -1 ∧ b ∉ ts ∨ ∃ i, nthz (ids h) j = Z.of_nat i ∧ ts !! i = Some b).
Proof using Type*.
  intros Hr. pose proof Hr as [R1 R2 R3 R4 R5 R6 R7]. pose proof (table_roomy _ _ _ R1) as Hroom. pose proof R1 as [(k & [S1 S2 S3 S4 S5]) T2 T3 T4 T5].
  assert (∀ e, e ∈ present (ids h) → 0 ≤ e < vlen ts) as Hin by (intros e; rewrite T3, elem_of_first_ids; done).
  unfold find_hash. rewrite S4, <- S2. destruct (probe_placed (hash_size h) ltac:(rewrite S2; apply pow2_pos; lia) (ids h) _ k (hash32 b) (fun e => bool_decide (text ts e = b)) (fun e => equals h p e b) T2)
    as (j & Hj & E & Hre & Hres); try done; try lia.
  - intros e He. apply Hin in He as He'. destruct (repr_lookup h p ts (Z.to_nat e) (text ts e) Hr (text_lookup ts e He')) as (a & E1 & E2 & _).
    unfold equals. rewrite Z2Nat.id in E1 by lia. rewrite E1. cbn [mbind result_bind]. by rewrite E2.
  - intros e He Hf. by apply bool_decide_eq_true in Hf as ->.
  - exists j. split_and!; try done; try lia. destruct Hres as [[Hfree Hnone]|[Hne Hf]]; [left|right].
    + split; [done|]. intros Hb. apply list_elem_of_lookup in Hb as (i & Hi). pose proof (lookup_lt_Some _ _ _ Hi).
      assert (Z.of_nat i ∈ present (ids h)) as Hi' by (rewrite T3, elem_of_first_ids; lia). specialize (Hnone _ Hi'). apply bool_decide_eq_false in Hnone. apply Hnone. unfold text. by rewrite Nat2Z.id, Hi.
    + apply bool_decide_eq_true in Hf. assert (nthz (ids h) j ∈ present (ids h)) as Hp by (apply elem_of_present; split; [done|]; apply nthz_elem; lia). apply Hin in Hp.
      exists (Z.to_nat (nthz (ids h) j)). split; [lia|]. rewrite text_lookup by done. by rewrite Hf.
Qed.

(** A new start behind the others. *)
Definition roomy_array (h : t A) : A := if count h >=? vlen (bs_bytes (bytes_start_array h)) then bs_grow (bytes_start_array h) else bytes_start_array h.
Definition started (h : t A) (start : Z) : A := bs_put (roomy_array h) (<[Z.to_nat (count h) := start]> (bs_bytes (roomy_array h))).

Lemma add_start_spec h start : array_wf (bytes_start_array h) → 0 ≤ count h ≤ vlen (bs_bytes (bytes_start_array h)) → let a := started h start in
  add_start h start = Ok (mk (hash_size h) (hash_half_size h) (hash_mask h) (count h + 1) (last_count h) (ids h) a) ∧ count h < vlen (bs_bytes a) ∧
    nthz (bs_bytes a) (count h) = start ∧ (∀ i, 0 ≤ i < count h → nthz (bs_bytes a) i = nthz (bs_bytes (bytes_start_array h)) i) ∧ array_wf a.
Proof using Type*.
  intros Hwf Hc a. assert (count h < vlen (bs_bytes (roomy_array h)) ∧ (∀ i, 0 ≤ i < count h → nthz (bs_bytes (roomy_array h)) i = nthz (bs_bytes (bytes_start_array h)) i) ∧ array_wf (roomy_array h)) as (Hl & Hk & Hwr).
  { unfold roomy_array. rewrite Z.geb_leb. destruct (Z.leb_spec (vlen (bs_bytes (bytes_start_array h))) (count h)); [|split; [lia|done]].
    pose proof (grow_len (bytes_start_array h) Hwf). split; [lia|]. split; [|by apply grow_wf]. intros i Hi. apply grow_keep; [done|lia]. }
  destruct (vset_nthz (bs_bytes (roomy_array h)) (count h) start) as (l & El & Hll & Hn); [lia|]. pose proof El as El2. rewrite vset_in in El2 by lia. injection El2 as El2.
  unfold a, started. rewrite put_bytes, El2. split_and!.
  - unfold add_start. set (h1 := if count h >=? _ then _ else h). assert (h1 = with_start_array (roomy_array h) h) as -> by (unfold h1, roomy_array; destruct (_ >=? _); by destruct h). cbn. by rewrite El.
  - lia.
  - rewrite Hn by lia. by rewrite Z.eqb_refl.
  - intros i Hi. rewrite Hn by lia. rewrite (proj2 (Z.eqb_neq _ _)) by lia. by apply Hk.
  - by apply put_wf.
Qed.

(** A buffer with room for a string. *)
Lemma text_room p T (b : list Z) : pool_wf p T → vlen b < B - 2 ∨ ByteBlockPool.byte_upto p + 2 + vlen b ≤ B →
  ∃ p', (if 2 + vlen b + ByteBlockPool.byte_upto p >? B then if 2 + vlen b <? B then ByteBlockPool.next_buffer p else Panic else Ok p) = Ok p' ∧ pool_wf p' (T + (2 + vlen b)) ∧
    0 ≤ ByteBlockPool.buffer_upto p' ∧ ByteBlockPool.byte_upto p' + 2 + vlen b ≤ B ∧ head p ≤ head p' ≤ head p + (2 + vlen b) ∧ ∀ a, 0 ≤ a < head p → mem p' a = mem p a.
Proof.
  intros Hwf Hfit. pose proof (vlen_nonneg b). pose proof (wf_byte p T Hwf). rewrite Z.gtb_ltb. destruct (Z.ltb_spec B (2 + vlen b + ByteBlockPool.byte_upto p)).
  - rewrite (proj2 (Z.ltb_lt _ _)) by lia. destruct (next_buffer_any p T Hwf) as (p' & -> & Hw & Hu & Hb & Hh & Hm). exists p'. rewrite Hu. split_and!; try done; try lia. apply (pool_wf_mono _ _ _ Hw). lia.
  - exists p. pose proof (wf_upto p T Hwf). pose proof (wf_start p T Hwf). split_and!; try done; try lia. apply (pool_wf_mono _ _ _ Hwf). lia.
Qed.

(** [add] of a string that is there. *)
Lemma add_old h p ts b i : repr h p ts → ts !! i = Some b → add hash32 h p b = Ok (- (Z.of_nat i + 1), h, p).
Proof using Type*.
  intros Hr Hi. destruct (find_hash_spec h p ts b Hr) as (j & E & Hj & _ & [[_ Hn]|(i' & Hid & Hi')]); [destruct Hn; by apply list_elem_of_lookup_2 with i|].
  pose proof Hr as [[(k & [S1 S2 S3 S4 S5]) _ _ _ _] R2 _ _ _ _ _]. rewrite (NoDup_lookup _ _ _ _ R2 Hi Hi'). unfold add. rewrite E. cbn [mbind result_bind].
  rewrite vget_nthz, Hid by lia. cbn [mbind result_bind]. by rewrite (proj2 (Z.eqb_neq _ _)) by lia.
Qed.

(** [add] of a new string. *)
Lemma add_new h p ts b T : repr h p ts → pool_wf p T → b ∉ ts → vlen b < B - 2 ∨ ByteBlockPool.byte_upto p + 2 + vlen b ≤ B → head p + 2 * (2 + vlen b) < 2 ^ 31 →
  ∃ h' p' start, add hash32 h p b = Ok (vlen ts, h', p') ∧ repr h' p' (ts ++ [b]) ∧ head p < head p' ≤ head p + 2 * (2 + vlen b) ∧ (∀ a, 0 ≤ a < head p → mem p' a = mem p a) ∧
    pool_wf p' (T + 2 * (2 + vlen b)) ∧ head p ≤ start ∧ bytes_start_array h' = started h start.
Proof using Type*.
  intros Hr R5 Hb Hfit Hlim. destruct (find_hash_spec h p ts b Hr) as (j & E & Hj & Hre & [[Hfree _]|(i' & _ & Hi')]); [|destruct Hb; by apply list_elem_of_lookup_2 with i'].
  pose proof Hr as [[(k & Hsz) T2 T3 T4 T5] R2 R3 R4 _ R6 R7]. pose proof Hsz as [S1 S2 S3 S4 S5]. pose proof (vlen_nonneg b) as Hb0. pose proof (vlen_nonneg ts) as Hts0.
  unfold add. rewrite E. cbn [mbind result_bind]. rewrite vget_nthz, Hfree by lia. cbn [mbind result_bind Z.eqb].
  destruct (text_room p T b R5 Hfit) as (p1 & -> & W1 & W2 & W3 & W4 & W5). cbn [mbind result_bind]. pose proof (head_nonneg p T R5).
  replace (ByteBlockPool.byte_upto p1 + ByteBlockPool.byte_offset p1) with (head p1) by (unfold head; lia). rewrite as_u_id by (unfold is_u; lia).
  destruct (add_start_spec h (head p1)) as (-> & A1 & A2 & A3 & A4); [done|unfold vlen in *; lia|]. cbn [mbind result_bind]. set (a := started h (head p1)) in *.
  destruct (store_text_spec p1 _ b W1 W2 W3) as (p2 & -> & W6 & W7 & W8 & W9). cbn [mbind result_bind]. assert (1 ≤ vlen (text_bytes b) ≤ 2 + vlen b) as Htl.
  { unfold text_bytes. rewrite vlen_app, length_bytes_len. destruct (vlen b <? 128); lia. }
  set (h1 := mk _ _ _ _ _ _ a).
  assert (∀ i c, (ts ++ [b]) !! i = Some c → text_in (mem p2) (head p2) (nthz (bs_bytes a) (Z.of_nat i)) c) as Htx.
  { intros i c Hc. apply lookup_snoc_Some in Hc as [[Hi Hc]|[-> <-]].
    - rewrite A3 by lia. apply (text_in_mono (mem p) _ (head p)); [by apply R4|lia|]. intros x Hx. rewrite W9, W5 by lia. done.
    - rewrite <- T5, A2. done. }
  destruct (fill_slot_spec h1 p2 j true (length ts) (fun e => hash32 (text (ts ++ [b]) e)) k) as (h2 & -> & H2 & Ha2); cbn [h1 ids hash_half_size count bytes_start_array]; try done; try (unfold vlen in *; lia).
  - rewrite <- S2. apply (placed_ext (hash_size h) ltac:(lia) _ (fun e => hash32 (text ts e))); [done|]. intros e He. rewrite T3, elem_of_first_ids in He. by rewrite text_app.
  - rewrite <- S2. change (Z.of_nat (length ts)) with (vlen ts). by rewrite text_new.
  - intros e He. unfold byte_start. cbn [h1 bytes_start_array]. rewrite vget_nthz by (unfold vlen in *; lia). cbn [mbind result_bind].
    destruct (text_reads p2 _ (nthz (bs_bytes a) e) (text (ts ++ [b]) e) W6) as [_ ->]; [|done]. rewrite <- (Z2Nat.id e) at 1 by lia. apply Htx, text_lookup. rewrite vlen_app. unfold vlen in *. cbn. lia.
  - cbn [mbind result_bind]. exists h2, p2, (head p1). split; [done|]. split; [|split; [lia|split; [|split_and!; [|lia|done]]]].
    + split; rewrite ?Ha2; cbn [h1 bytes_start_array].
      * rewrite length_app. cbn. by rewrite Nat.add_1_r.
      * rewrite Permutation_app_comm. by apply NoDup_cons_2.
      * rewrite vlen_app. unfold vlen in *. cbn. lia.
      * done.
      * by eexists.
      * rewrite vlen_app. change (vlen [b]) with 1. lia.
      * done.
    + intros x Hx. rewrite W9, W5 by lia. done.
    + apply (pool_wf_mono _ _ _ W6). lia.
Qed.

(** ** Reading, clearing and compacting *)

Lemma get_text h p ts i b : repr h p ts → ts !! i = Some b → get h p (Z.of_nat i) = Ok b.
Proof using Type*.
  intros Hr Hb. destruct (repr_lookup h p ts i b Hr Hb) as (a & E & Hs & _). unfold get. pose proof (re_len _ _ _ Hr). pose proof (lookup_lt_Some _ _ _ Hb).
  rewrite (proj2 (Z.ltb_lt _ _)) by (unfold vlen in *; lia). rewrite E. done.
Qed.

(** A string of [BYTE_BLOCK_SIZE - 2] bytes fits in an empty buffer only. *)
Lemma add_too_long h p ts b : repr h p ts → b ∉ ts → B - 2 ≤ vlen b → B < ByteBlockPool.byte_upto p + 2 + vlen b → add hash32 h p b = Panic.
Proof using Type*.
  intros Hr Hb Hl Hfit. destruct (find_hash_spec h p ts b Hr) as (j & E & Hj & Hre & [[Hfree _]|(i' & _ & Hi')]); [|destruct Hb; by apply list_elem_of_lookup_2 with i'].
  pose proof Hr as [[(k & [S1 S2 S3 S4 S5]) _ _ _ _] _ _ _ _ _ _]. unfold add. rewrite E. cbn [mbind result_bind]. rewrite vget_nthz, Hfree by lia. cbn [mbind result_bind Z.eqb].
  rewrite Z.gtb_ltb, (proj2 (Z.ltb_lt _ _)) by lia. by rewrite (proj2 (Z.ltb_ge _ _)) by lia.
Qed.

(** A table without ids. *)
Lemma repr_empty h p k T : sized h k → ids h = replicate (Z.to_nat (2 ^ k)) (-1) → count h = 0 → pool_wf p T → array_wf (bytes_start_array h) → repr h p [].
Proof using Type*.
  intros Hs Hids Hc Hw Hwf. pose proof Hs as [S1 S2 S3 S4 S5]. pose proof (pow2_pos k ltac:(lia)). split; try done.
  - split; [by exists k|..].
    + rewrite S2, Hids. by apply placed_empty.
    + rewrite Hids. clear. induction (Z.to_nat (2 ^ k)) as [|m IH]; [done|]. cbn [replicate]. unfold present in *. by rewrite filter_cons_False by (by intros []).
    + rewrite S3. cbn. apply pow2_pos. lia.
    + done.
  - constructor.
  - apply vlen_nonneg.
  - by exists T.
  - by eapply head_nonneg.
Qed.

Lemma new_repr k a p T : 1 ≤ k → pool_wf p T → array_wf a → repr (new (2 ^ k) a) p [].
Proof using Type*.
  intros Hk Hw Hwf. pose proof (pow2_pos k ltac:(lia)). apply (repr_empty _ p k T); try done. split; cbn; try done.
  - rewrite Z.shiftr_div_pow2 by lia. rewrite Z.pow_sub_r by lia. done.
  - apply vlen_replicate. lia.
Qed.

Lemma shrunk_size_spec h k target : sized h k → ∃ k', shrunk_size h target = Ok (2 ^ k') ∧ 1 ≤ k' ≤ k.
Proof using Type*.
  intros [S1 S2 S3 S4 S5]. unfold shrunk_size. rewrite S2.
  destruct (while_fuel_inv (fun n => ∃ j, n = 2 ^ j ∧ 1 ≤ j ≤ k) Z.to_nat (fun n => negb ((n <? 8) || (Z.shiftr n 2 <=? target))) (fun n => Ok (Z.shiftr n 1))) with (fuel := Z.to_nat (2 ^ k)) (s := 2 ^ k)
    as (n & -> & (j & -> & Hj) & _); [|by exists k|lia|by exists j].
  intros n (j & -> & Hj) Hc. apply negb_true_iff, orb_false_iff in Hc as [Hc _]. apply Z.ltb_ge in Hc. assert (3 ≤ j) by (apply (Z.pow_le_mono_r_iff 2); lia).
  assert (Z.shiftr (2 ^ j) 1 = 2 ^ (j - 1)) as -> by (rewrite Z.shiftr_div_pow2, Z.pow_sub_r by lia; done). eexists. split; [done|]. split; [exists (j - 1); lia|].
  assert (2 ^ (j - 1) < 2 ^ j) by (apply Z.pow_lt_mono_r; lia). pose proof (pow2_pos (j - 1) ltac:(lia)). lia.
Qed.

Lemma fill_slice_replicate l v : fill_slice l v = replicate (length l) v.
Proof. unfold fill_slice. induction l as [|x l IH]; [done|]. cbn. by f_equal. Qed.

(** [clear] needs the size of the table only; what [compact] and the sorter leave is enough. *)
Lemma clear_spec h p k T reset_pool : sized h k → pool_wf p T → array_wf (bytes_start_array h) → ∃ h' p', clear h p reset_pool = Ok (h', p') ∧ repr h' p' [] ∧ head p' ≤ head p.
Proof using Type*.
  intros Hs Hw Hwf. pose proof Hs as [S1 S2 S3 S4 S5]. unfold clear. pose proof (head_nonneg p T Hw) as Hh.
  assert (∃ p' T', (if reset_pool then ByteBlockPool.reset p false false else Ok p) = Ok p' ∧ pool_wf p' T' ∧ head p' ≤ head p) as (p' & T' & -> & Hw' & Hh').
  { destruct reset_pool; [|by exists p, T]. destruct (pool_reset_spec p T Hw) as (p' & -> & Hw' & E). exists p', 0. split_and!; try done. lia. }
  cbn [mbind result_bind]. set (h1 := with_start_array _ _). change (last_count h1) with (count h).
  assert (sized h1 k) as Hs1 by (split; done). assert (∀ k' l, 1 ≤ k' → vlen l = 2 ^ k' → let h2 := mk (2 ^ k') (2 ^ (k' - 1)) (2 ^ k' - 1) 0 (count h) (fill_slice l (-1)) (bytes_start_array h1) in repr h2 p' []) as Hall.
  { intros k' l Hk' Hl. rewrite fill_slice_replicate. intros h2. apply (repr_empty h2 p' k' T'); try done; [|cbn; unfold vlen in Hl; by rewrite <- Hl, Nat2Z.id|by apply clear_wf].
    split; try done. cbn. unfold vlen in *. by rewrite length_replicate. }
  destruct (negb (count h =? -1)); cbn [mbind result_bind].
  - unfold shrink. destruct (shrunk_size_spec h1 k (count h) Hs1) as (k' & -> & Hk'). cbn [mbind result_bind]. change (hash_size h1) with (hash_size h). rewrite S2.
    destruct (Z.eqb_spec (2 ^ k') (2 ^ k)) as [Ek|Ek]; cbn [negb mbind result_bind].
    + eexists _, p'. split; [done|]. split; [|done]. pose proof (Hall k (ids h) S1 S5) as Hk. unfold with_ids. cbn. rewrite S2, S3, S4. done.
    + eexists _, p'. split; [done|]. split; [|done]. assert (Z.shiftr (2 ^ k') 1 = 2 ^ (k' - 1)) as -> by (rewrite Z.shiftr_div_pow2, Z.pow_sub_r by lia; done).
      apply Hall; [lia|]. rewrite vlen_take; [done|]. cbn. rewrite S5. split; [apply Z.pow_nonneg; lia|apply Z.pow_le_mono_r; lia].
  - eexists _, p'. split; [done|]. split; [|done]. pose proof (Hall k (ids h) S1 S5) as Hk. unfold with_ids. cbn. rewrite S2, S3, S4. done.
Qed.

(** ** Ids of offsets

    Term vectors hash the position of a string that is stored already. *)

Record repr_offsets (h : t A) (os : list Z) : Prop := {
  ro_table : table h (length os) (nthz os);
  ro_nodup : NoDup os;
  ro_len : vlen os ≤ vlen (bs_bytes (bytes_start_array h));
  ro_starts : ∀ i, 0 ≤ i < vlen os → nthz (bs_bytes (bytes_start_array h)) i = nthz os i;
  ro_wf : array_wf (bytes_start_array h);
}.

Lemma nthz_lookup (os : list Z) i o : os !! i = Some o → nthz os (Z.of_nat i) = o.
Proof. intros E. unfold nthz. by rewrite Nat2Z.id, E. Qed.

Lemma probe_offset h os offset : repr_offsets h os →
  ∃ j, probe (length (ids h)) (ids h) (hash_mask h) offset (fun e => s ← byte_start h e; Ok (s =? offset)) = Ok j ∧ 0 ≤ j < hash_size h ∧ reaches (hash_size h) (ids h) offset j ∧
    (nthz (ids h) j = -1 ∧ offset ∉ os ∨ ∃ i, nthz (ids h) j = Z.of_nat i ∧ os !! i = Some offset).
Proof using Type*.
  intros [R1 R2 R3 R4 R5]. pose proof (table_roomy _ _ _ R1) as Hroom. pose proof R1 as [(k & [S1 S2 S3 S4 S5]) T2 T3 T4 T5].
  assert (∀ e, e ∈ present (ids h) → 0 ≤ e < vlen os) as Hin by (intros e; rewrite T3, elem_of_first_ids; done).
  rewrite S4, <- S2. destruct (probe_placed (hash_size h) ltac:(rewrite S2; apply pow2_pos; lia) (ids h) _ k offset (fun e => nthz os e =? offset) (fun e => s ← byte_start h e; Ok (s =? offset)) T2)
    as (j & Hj & E & Hre & Hres); try done; try lia.
  - intros e He. apply Hin in He. unfold byte_start. rewrite vget_nthz, R4 by lia. done.
  - exists j. split_and!; try done; try lia. destruct Hres as [[Hfree Hnone]|[Hne Hf]]; [left|right].
    + split; [done|]. intros Hb. apply list_elem_of_lookup in Hb as (i & Hi). pose proof (lookup_lt_Some _ _ _ Hi).
      assert (Z.of_nat i ∈ present (ids h)) as Hi' by (rewrite T3, elem_of_first_ids; lia). specialize (Hnone _ Hi'). apply Z.eqb_neq in Hnone. apply Hnone. by apply nthz_lookup.
    + apply Z.eqb_eq in Hf. assert (nthz (ids h) j ∈ present (ids h)) as Hp by (apply elem_of_present; split; [done|]; apply nthz_elem; lia). apply Hin in Hp.
      exists (Z.to_nat (nthz (ids h) j)). split; [lia|]. destruct (lookup_lt_is_Some_2 os (Z.to_nat (nthz (ids h) j))) as [x Hx]; [unfold vlen in *; lia|]. rewrite Hx. apply nthz_lookup in Hx. rewrite Z2Nat.id in Hx by lia. congruence.
Qed.

Lemma add_offset_old h p os offset i : repr_offsets h os → os !! i = Some offset → add_by_pool_offset hash32 h p offset = Ok (- (Z.of_nat i + 1), h).
Proof using Type*.
  intros Hr Hi. destruct (probe_offset h os offset Hr) as (j & E & Hj & _ & [[_ Hn]|(i' & Hid & Hi')]); [destruct Hn; by apply list_elem_of_lookup_2 with i|].
  pose proof Hr as [[(k & [S1 S2 S3 S4 S5]) _ _ _ _] R2 _ _ _]. rewrite (NoDup_lookup _ _ _ _ R2 Hi Hi'). unfold add_by_pool_offset. rewrite E. cbn [mbind result_bind].
  rewrite vget_nthz, Hid by lia. cbn [mbind result_bind]. by rewrite (proj2 (Z.eqb_neq _ _)) by lia.
Qed.

Lemma add_offset_new h p os offset : repr_offsets h os → offset ∉ os → is_u 32 offset → vlen os + 1 < 2 ^ 31 →
  ∃ h', add_by_pool_offset hash32 h p offset = Ok (vlen os, h') ∧ repr_offsets h' (os ++ [offset]).
Proof using Type*.
  intros Hr Ho Hu Hlim. destruct (probe_offset h os offset Hr) as (j & E & Hj & Hre & [[Hfree _]|(i' & _ & Hi')]); [|destruct Ho; by apply list_elem_of_lookup_2 with i'].
  pose proof Hr as [[(k & Hsz) T2 T3 T4 T5] R2 R3 R4 R5]. pose proof Hsz as [S1 S2 S3 S4 S5]. pose proof (vlen_nonneg os). unfold add_by_pool_offset. rewrite E. cbn [mbind result_bind]. rewrite vget_nthz, Hfree by lia. cbn [mbind result_bind Z.eqb].
  rewrite as_u_id by done. destruct (add_start_spec h offset) as (-> & A1 & A2 & A3 & A4); [done|unfold vlen in *; lia|]. cbn [mbind result_bind]. set (a := started h offset) in *. set (h1 := mk _ _ _ _ _ _ a).
  assert (∀ i, 0 ≤ i < vlen os + 1 → nthz (bs_bytes a) i = nthz (os ++ [offset]) i) as Hst.
  { intros i Hi. rewrite nthz_app by lia. destruct (Z.ltb_spec i (vlen os)); [rewrite A3 by (unfold vlen in *; lia); apply R4; lia|]. replace i with (vlen os) by lia. rewrite Z.sub_diag. unfold vlen. rewrite <- T5, A2. done. }
  destruct (fill_slot_spec h1 p j false (length os) (nthz (os ++ [offset])) k) as (h2 & -> & H2 & Ha2); cbn [h1 ids hash_half_size count bytes_start_array]; try done; try (unfold vlen in *; lia).
  - rewrite <- S2. apply (placed_ext (hash_size h) ltac:(lia) _ (nthz os)); [done|]. intros e He. rewrite T3, elem_of_first_ids in He. rewrite nthz_app by lia. by rewrite (proj2 (Z.ltb_lt _ _)) by (unfold vlen; lia).
  - rewrite <- S2. rewrite nthz_app by lia. change (Z.of_nat (length os)) with (vlen os). by rewrite Z.ltb_irrefl, Z.sub_diag.
  - intros e He. unfold byte_start. cbn [h1 bytes_start_array]. rewrite vget_nthz, Hst by (unfold vlen in *; lia). done.
  - exists h2. split; [done|]. split; rewrite ?Ha2; cbn [h1 bytes_start_array].
    + rewrite length_app. cbn. by rewrite Nat.add_1_r.
    + rewrite Permutation_app_comm. by apply NoDup_cons_2.
    + rewrite vlen_app. unfold vlen in *. cbn. lia.
    + intros i Hi. rewrite vlen_app in Hi. change (vlen [offset]) with 1 in Hi. by apply Hst.
    + done.
Qed.
End hash_facts.

(** * BytesRefBuilder *)

Section builder.
Import BytesRefBuilder.

(** A builder whose offset is 0 holds its first bytes. *)
Definition holds (b : t) (l : list Z) : Prop := offset b = 0 ∧ length b = vlen l ∧ vlen l ≤ vlen (buffer b) ∧ take (List.length l) (buffer b) = l.

Lemma holds_get b l : holds b l → get b = Ok l.
Proof. intros (E1 & E2 & E3 & E4). unfold get. pose proof (vlen_nonneg l). rewrite E1, E2, vslice_in by lia. f_equal. unfold vlen. by rewrite drop_0, Z.sub_0_r, Nat2Z.id. Qed.

(** Bytes behind those a buffer holds. *)
Lemma blit_holds buf l bytes : take (List.length l) buf = l → vlen l + vlen bytes ≤ vlen buf →
  ∃ buf', copy_from_slice buf (vlen l) (vlen l + vlen bytes) bytes = Ok buf' ∧ holds (mk buf' 0 (vlen l + vlen bytes)) (l ++ bytes).
Proof.
  intros Ht Hl. unfold copy_from_slice. pose proof (vlen_nonneg l). pose proof (vlen_nonneg bytes).
  replace (vlen bytes =? vlen l + vlen bytes - vlen l) with true by (symmetry; apply Z.eqb_eq; lia). rewrite vblit_in by lia. eexists. split; [done|].
  rewrite to_nat_vlen, Ht. split; [done|]. cbn [length buffer]. rewrite vlen_app. split; [done|]. rewrite app_assoc. split.
  - rewrite !vlen_app. pose proof (vlen_nonneg (drop (List.length l + List.length bytes) buf)). lia.
  - by rewrite take_app_length.
Qed.

Lemma builder_resize buf (l : list Z) n : take (List.length l) buf = l → vlen l ≤ n → vlen buf ≤ n → take (List.length l) (ParallelPostingsArray.resize buf n) = l ∧ vlen (ParallelPostingsArray.resize buf n) = n.
Proof.
  intros Ht Hl Hn. split; [|by apply vlen_resize]. unfold ParallelPostingsArray.resize. rewrite (take_ge buf) by (unfold vlen in *; lia).
  pose proof (f_equal List.length Ht) as Hlen. rewrite length_take in Hlen. rewrite take_app_le by lia. done.
Qed.

Lemma builder_new : holds new [].
Proof. done. Qed.

Lemma builder_appends b l bytes : holds b l → ∃ b', appends b bytes = Ok b' ∧ holds b' (l ++ bytes).
Proof.
  intros (E1 & E2 & E3 & E4). unfold appends. rewrite E1, E2, Z.add_0_l. set (buf := if vlen l + vlen bytes >=? vlen (buffer b) then _ else buffer b). pose proof (vlen_nonneg bytes).
  assert (take (List.length l) buf = l ∧ vlen l + vlen bytes ≤ vlen buf) as [Ht Hl].
  { unfold buf. rewrite Z.geb_leb. destruct (Z.leb_spec (vlen (buffer b)) (vlen l + vlen bytes)); [|split; [done|lia]].
    destruct (builder_resize (buffer b) l (vlen l + vlen bytes)) as [Hr Hv]; [done|lia|lia|]. rewrite Hv. by split. }
  destruct (blit_holds buf l bytes Ht Hl) as (buf' & -> & Hh). cbn [mbind result_bind]. by eexists.
Qed.

Lemma builder_copy_from b bytes : ∃ b', copy_from b bytes = Ok b' ∧ holds b' bytes.
Proof.
  unfold copy_from. set (buf := if vlen (buffer b) <? vlen bytes then _ else buffer b). assert (vlen bytes ≤ vlen buf) as Hl.
  { unfold buf. destruct (Z.ltb_spec (vlen (buffer b)) (vlen bytes)); [rewrite vlen_resize; lia|done]. }
  destruct (blit_holds buf [] bytes) as (buf' & E & Hh); [done|rewrite vlen_nil; lia|]. rewrite vlen_nil, Z.add_0_l in *. rewrite E. cbn [mbind result_bind]. by eexists.
Qed.

Lemma builder_append b l x : holds b l → ∃ b', append b x = Ok b' ∧ holds b' (l ++ [x]).
Proof.
  intros (E1 & E2 & E3 & E4). unfold append. rewrite E1, E2, Z.add_0_l. set (buf := if vlen l >=? vlen (buffer b) then _ else buffer b). pose proof (vlen_nonneg l).
  assert (take (List.length l) buf = l ∧ vlen l + 1 ≤ vlen buf) as [Ht Hl].
  { unfold buf. rewrite Z.geb_leb. destruct (Z.leb_spec (vlen (buffer b)) (vlen l)); [|split; [done|lia]].
    destruct (builder_resize (buffer b) l (vlen l + 1)) as [Hr Hv]; [done|lia|lia|]. rewrite Hv. by split. }
  rewrite vset_in by lia. cbn [mbind result_bind]. eexists. split; [done|]. split; [done|]. cbn [length buffer]. rewrite vlen_app, vlen_insert. change (vlen [x]) with 1. split; [done|]. split; [done|].
  rewrite length_app, to_nat_vlen. cbn [List.length]. rewrite Nat.add_1_r, (take_S_r _ _ x) by (apply list_lookup_insert_eq; unfold vlen in Hl; lia). by rewrite take_insert_ge, Ht by lia.
Qed.
End builder.
