(* ===== verification/BytesRefSortFacts.v ===== *)
(** BytesRefHash::sort puts the ids in the order of their strings. *)

From Stdlib Require Import Sorted.
From S2P Require Import Prelude DataIO PackedBulkFacts PackedArrayFacts Numeric Sorter SorterFacts BytePool BytePoolFacts PoolFacts MsbSorter BytesRefHash HashTableFacts MsbSorterFacts BytesRefHashFacts.
Open Scope Z_scope.
Import BytesRefHash.

Lemma log_ok x : 0 ≤ x < 2 ^ 63 → ∃ n, log x 2 = Ok n ∧ 0 ≤ n.
Proof.
  intros Hx. unfold log. destruct (while_fuel_inv (fun '(y, n) => 0 ≤ y < 2 ^ 63 ∧ 0 ≤ n) (fun '(y, _) => Z.to_nat (Z.log2 y)) (fun '(x, _) => 2 <=? x)
    (fun '(x, ret) => if 2 =? 0 then Panic else Ok (Z.quot x 2, ret + 1))) with (fuel := 63%nat) (s := (x, 0)) as ([y n] & -> & [_ Hn] & _); [|lia| |by exists n].
  - intros [y n] [Hy Hn] Hc. apply Z.leb_le in Hc. eexists. split; [done|]. rewrite Z.quot_div_nonneg by lia. assert (0 ≤ y / 2 < y) by (split; [apply Z.div_pos|apply Z.div_lt]; lia). split; [lia|].
    replace (y / 2) with (Z.shiftr y 1) by (rewrite Z.shiftr_div_pow2 by lia; done). rewrite Z.log2_shiftr by lia. assert (1 ≤ Z.log2 y) by (apply (Z.log2_le_mono 2); lia). lia.
  - cbn beta iota. destruct (decide (x = 0)) as [->|]; [cbn; lia|]. assert (Z.log2 x < 63) by (apply Z.log2_lt_pow2; lia). lia.
Qed.

Section string_sorters.
Context {A : Type} `{BytesStartArray A} (ts : list (list Z)).
#[local] Abbreviation St := (BytesRefStringMSBSorter A).
#[local] Abbreviation Fb := (BytesRefStringMSBFallbackSorter A).
#[local] Abbreviation key := (text ts).
Implicit Types (s : St) (f : Fb).

Definition sids s : list Z := ids (bytes_hash s).

(** The string of an id, as the sorter reads it. *)
Definition reads s (e : Z) : result (list Z) :=
  start ← byte_start (bytes_hash s) (as_u64 e); ByteBlockPool.set_bytes_ref (string_pool s) start.

Definition good s (k e : Z) : bool := match reads s e with Ok b => bool_decide (b = key e) && (k <=? vlen b) | _ => false end.

(** The strings from [lo] to [hi] can be read, and have [k] bytes. *)
Definition valid s (lo hi k : Z) : bool := (hi <=? vlen (sids s)) && forallb (good s k) (rng (sids s) lo hi).

Lemma valid_read s lo hi k i : valid s lo hi k = true → 0 ≤ lo → lo ≤ i < hi → string_get s i = Ok (key (elem (sids s) i)) ∧ k ≤ vlen (key (elem (sids s) i)) ∧ hi ≤ vlen (sids s).
Proof.
  unfold valid. intros [Hhi Hall]%andb_true_iff Hlo Hi. apply Z.leb_le in Hhi. rewrite forallb_forall in Hall. pose proof (rng_lookup (sids s) lo hi i Hlo Hi Hhi) as E.
  apply list_elem_of_lookup_2, list_elem_of_In in E. specialize (Hall _ E). unfold good in Hall. unfold string_get. fold (sids s). rewrite vget_elem by lia. cbn [mbind result_bind].
  change (start ← byte_start (bytes_hash s) (as_u64 ?e); _) with (reads s e). destruct (reads s (elem (sids s) i)) as [b| | |]; try done.
  apply andb_true_iff in Hall as [Hb Hk]. apply bool_decide_eq_true in Hb as ->. apply Z.leb_le in Hk. done.
Qed.

Lemma valid_weaken s lo hi k lo' hi' k' : valid s lo hi k = true → 0 ≤ lo ≤ lo' → lo' ≤ hi' → hi' ≤ hi → (∀ i, lo' ≤ i < hi' → k' ≤ vlen (key (elem (sids s) i))) → valid s lo' hi' k' = true.
Proof.
  unfold valid. intros [Hhi Hall]%andb_true_iff Hlo Hle Hle2 Hk. apply Z.leb_le in Hhi. apply andb_true_iff. split; [apply Z.leb_le; lia|]. rewrite forallb_forall in *. intros e He.
  apply list_elem_of_In, list_elem_of_lookup in He as (j & Hj). pose proof (lookup_lt_Some _ _ _ Hj) as Hjl. pose proof (vlen_rng (sids s) lo' hi' ltac:(lia) Hle ltac:(lia)) as Hv. unfold vlen in Hv.
  pose proof (rng_lookup (sids s) lo' hi' (lo' + Z.of_nat j) ltac:(lia) ltac:(lia) ltac:(lia)) as E. replace (Z.to_nat (lo' + Z.of_nat j - lo')) with j in E by lia. rewrite Hj in E. injection E as ->.
  pose proof (rng_lookup (sids s) lo hi (lo' + Z.of_nat j) ltac:(lia) ltac:(lia) ltac:(lia)) as E. apply list_elem_of_lookup_2, list_elem_of_In in E. specialize (Hall _ E). unfold good in *.
  destruct (reads s _); try done. apply andb_true_iff in Hall as [Hb _]. apply bool_decide_eq_true in Hb as ->. apply andb_true_iff. split; [by apply bool_decide_eq_true|]. apply Z.leb_le, Hk. lia.
Qed.

(** An exchange. *)
Lemma string_swap_spec s lo hi k i j : valid s lo hi k = true → 0 ≤ lo → lo ≤ i < hi → lo ≤ j < hi →
  ∃ s', string_swap s i j = Ok s' ∧ s' = string_sorter (with_ids (swapl (sids s) i j) (bytes_hash s)) (string_pool s) ∧ valid s' lo hi k = true.
Proof.
  intros Hv Hlo Hi Hj. destruct (valid_read s lo hi k i Hv Hlo Hi) as (_ & _ & Hhi). unfold string_swap. fold (sids s). rewrite (vget_elem _ i) by lia. cbn [mbind result_bind]. rewrite (vget_elem _ j) by lia. cbn [mbind result_bind].
  rewrite vset_in by lia. cbn [mbind result_bind]. rewrite vset_in by (rewrite vlen_insert; lia). cbn [mbind result_bind]. eexists. split; [done|]. split; [done|].
  unfold valid in *. cbn [sids bytes_hash ids with_ids] in *. fold (swapl (sids s) i j). apply andb_true_iff in Hv as [H1 H2]. apply andb_true_iff. split; [by rewrite vlen_swapl|].
  rewrite forallb_forall in *. intros e He. apply (H2 e). apply list_elem_of_In. apply list_elem_of_In in He. change (ids (bytes_hash s)) with (sids s) in *.
  rewrite <- (conf_rng lo hi (sids s) (swapl (sids s) i j)); [done|lia..|]. apply conf_swap; lia.
Qed.

(** ** The fallback sorter *)

Lemma elem_map_take {X : Type} `{Inhabited X} (g : Z → X) (l : list Z) n i : 0 ≤ i < n → n ≤ vlen l → elem (map g (take (Z.to_nat n) l)) i = g (elem l i).
Proof.
  intros Hi Hn. unfold elem. rewrite list_lookup_total_alt, list_lookup_fmap, lookup_take_lt by lia. rewrite list_lookup_total_alt. unfold vlen in Hn.
  destruct (lookup_lt_is_Some_2 l (Z.to_nat i)) as [x Hx]; [lia|]. by rewrite Hx.
Qed.
Lemma vlen_map_take {X : Type} (g : Z → X) (l : list Z) n : 0 ≤ n ≤ vlen l → vlen (map g (take (Z.to_nat n) l)) = n.
Proof. intros Hn. unfold vlen in *. rewrite length_map, length_take. lia. Qed.

Section fallback_sorting.
Context (from to k : Z) (Hf : 0 ≤ from) (Hft : from ≤ to) (Hk : 0 ≤ k) (s0 : St).

(** What sorting from [from] to [to] leaves alone. *)
Definition frame s : list Z * t A * ByteBlockPool.t := (drop (Z.to_nat to) (sids s), with_ids [] (bytes_hash s), string_pool s).
Definition item : Type := Z * list Z * (list Z * t A * ByteBlockPool.t).
Definition item_of s (e : Z) : item := (e, key e, frame s).
#[local] Instance item_inhabited : Inhabited item := populate (item_of s0 0).
Definition item_cmp (x y : item) : comparison := lex (drop (Z.to_nat k) x.1.2) (drop (Z.to_nat k) y.1.2).

#[local] Instance item_preorder : TotalPreorder item_cmp.
Proof. split; intros; [apply lex_opp|by eapply lex_trans]. Qed.

Definition items f : list item := if (offset f =? k) && valid (sorter f) from to k then map (item_of (sorter f)) (take (Z.to_nat to) (sids (sorter f))) else [].

Lemma items_some f i : from ≤ i < vlen (items f) → offset f = k ∧ valid (sorter f) from to k = true ∧ i < to ∧ to ≤ vlen (sids (sorter f)) ∧
  items f = map (item_of (sorter f)) (take (Z.to_nat to) (sids (sorter f))) ∧ elem (items f) i = item_of (sorter f) (elem (sids (sorter f)) i).
Proof using Type*.
  unfold items. destruct (_ && _) eqn:E; [|intros Hi; rewrite vlen_nil in Hi; lia]. apply andb_true_iff in E as [E1 E2]. apply Z.eqb_eq in E1. pose proof E2 as E3. apply andb_true_iff in E3 as [E3 _]. apply Z.leb_le in E3.
  intros Hi. unfold vlen in Hi, E3. rewrite length_map, length_take in Hi. split_and!; try done; try (unfold vlen; lia).
  apply elem_map_take; unfold vlen; lia.
Qed.

Lemma fallback_get_spec f i : from ≤ i < vlen (items f) → fallback_get f i (offset f) = Ok (drop (Z.to_nat k) (elem (items f) i).1.2).
Proof using Type*.
  intros Hi. destruct (items_some f i Hi) as (Eo & Hv & Hit & _ & _ & ->). destruct (valid_read _ _ _ _ i Hv Hf ltac:(lia)) as (Hg & Hkl & _). unfold fallback_get. rewrite Hg, Eo. cbn [mbind result_bind].
  rewrite vslice_in by lia. cbn [item_of fst snd]. f_equal. apply take_ge. rewrite length_drop. unfold vlen. lia.
Qed.

Lemma items_valid f : offset f = k → valid (sorter f) from to k = true → items f = map (item_of (sorter f)) (take (Z.to_nat to) (sids (sorter f))).
Proof. intros E Hv. unfold items. by rewrite E, Z.eqb_refl, Hv. Qed.

#[local] Instance fallback_lawful : LawfulSorter Fb item item_cmp from.
Proof using Hf Hft Hk.
  refine {| arr := items; SorterFacts.pivot f := (-1, replicate (Z.to_nat k) 0 ++ pivot f, frame s0) |}; cbn [Sorter.compare swap set_pivot compare_pivot fallback_is_sorter].
  - intros f i j Hi Hj. rewrite !fallback_get_spec by done. cbn [mbind result_bind]. by eexists.
  - intros f i j Hi Hj. destruct (items_some f i Hi) as (Eo & Hv & Hit & Htl & Ei & _). destruct (items_some f j Hj) as (_ & _ & Hjt & _).
    destruct (string_swap_spec (sorter f) from to k i j Hv Hf ltac:(lia) ltac:(lia)) as (s' & -> & Es & Hv'). cbn [mbind result_bind]. eexists. split; [done|].
    rewrite items_valid by done. rewrite Ei. cbn [sorter]. rewrite Es. set (s1 := string_sorter _ _).
    assert (∀ e, item_of s1 e = item_of (sorter f) e) as Eit by (intros e; unfold item_of, frame, s1, sids, swapl; cbn [bytes_hash ids with_ids string_pool]; by rewrite !drop_insert_lt by lia).
    assert (vlen (sids s1) = vlen (sids (sorter f))) as El by apply vlen_swapl. apply elem_ext; rewrite ?vlen_swapl, !vlen_map_take by (rewrite ?El; lia); [done|].
    intros q Hq. rewrite elem_map_take, Eit by (rewrite ?El; lia). rewrite elem_swapl by (rewrite ?vlen_map_take; lia). change (sids s1) with (swapl (sids (sorter f)) i j). rewrite elem_swapl by lia.
    split_cmp; by rewrite elem_map_take by lia.
  - intros f i Hi. rewrite fallback_get_spec by done. cbn [mbind result_bind]. eexists. split; [done|]. split; [done|]. unfold item_cmp. cbn [pivot fst snd].
    rewrite drop_app_length' by (by rewrite length_replicate). apply lex_refl.
  - intros f j Hj. rewrite fallback_get_spec by done. cbn [mbind result_bind]. eexists. split; [|done]. do 2 f_equal. unfold item_cmp. cbn [fst snd]. by rewrite drop_app_length' by (by rewrite length_replicate).
Defined.
#[local] Instance fallback_pivot : PivotCopied Fb item item_cmp.
Proof using Type*.
  intros f f' i j. cbn [swap fallback_is_sorter]. intros E. apply bind_Ok in E as (s' & _ & E). injection E as <-. done.
Qed.

(** [s'] is [s] with ids that differ from [from] to [to] only. *)
Definition resorted s s' : Prop := s' = string_sorter (with_ids (sids s') (bytes_hash s)) (string_pool s) ∧ conf from to (sids s) (sids s') ∧ sorted (lexk key k) (sids s') from to.

Lemma items_resorted f f' : from < to → valid (sorter f) from to k = true → offset f = k → conf from to (items f) (items f') → sorted item_cmp (items f') from to → resorted (sorter f) (sorter f').
Proof using Type*.
  intros Hlt Hv Ho C Hs. pose proof (conf_vlen _ _ _ _ C) as Hl. destruct (valid_read _ _ _ _ from Hv Hf ltac:(lia)) as (_ & _ & Hto). pose proof (items_valid f Ho Hv) as Ei. rewrite Ei, vlen_map_take in Hl by lia.
  destruct (items_some f' from ltac:(lia)) as (Ho' & Hv' & _ & Hto' & Ei' & Ee).
  assert (frame (sorter f') = frame (sorter f)) as Hfr.
  { change (frame (sorter f')) with ((item_of (sorter f') (elem (sids (sorter f')) from)).2). rewrite <- Ee. apply (conf_all from to (items f) (items f') (fun x => x.2 = frame (sorter f))); try done; try lia.
    - rewrite Ei, vlen_map_take; lia.
    - intros i Hi. rewrite Ei, elem_map_take by lia. done. }
  injection Hfr as Hdrop Hh Hp. split; [|split].
  - destruct f' as [[[? ? ? ? ? ? ?] ?] ? ?], f as [[[? ? ? ? ? ? ?] ?] ? ?]. unfold sids in *. cbn in *. unfold with_ids in *. cbn in *. congruence.
  - destruct C as [Hperm Hout]. rewrite Ei, Ei' in Hperm. apply (fmap_Permutation (fun x : item => x.1.1)) in Hperm. rewrite <- !list_fmap_compose in Hperm.
    assert (∀ s (l : list Z), (fun x : item => x.1.1) ∘ item_of s <$> l = l) as Eid by (intros s l; rewrite <- (list_fmap_id l) at 2; by apply list_fmap_ext). rewrite !Eid in Hperm. split.
    + rewrite <- (take_drop (Z.to_nat to) (sids (sorter f'))), <- (take_drop (Z.to_nat to) (sids (sorter f))), Hdrop. by rewrite Hperm.
    + intros i Hi Ho2. destruct (Z.lt_ge_cases i to) as [Hit|Hit].
      * specialize (Hout i). rewrite Ei, Ei', !elem_map_take, vlen_map_take in Hout by lia. specialize (Hout ltac:(lia) Ho2). by injection Hout.
      * enough (sids (sorter f') !! Z.to_nat i = sids (sorter f) !! Z.to_nat i) as E by (unfold elem; by rewrite !list_lookup_total_alt, E).
        replace (Z.to_nat i) with (Z.to_nat to + Z.to_nat (i - to))%nat by lia. by rewrite <- !lookup_drop, Hdrop.
  - intros i j Hi Hij Hj. specialize (Hs i j Hi Hij Hj). rewrite Ei', !elem_map_take in Hs by lia. done.
Qed.

Lemma binary_sort_nothing f : binary_sort f from from = Ok f.
Proof. unfold binary_sort. by rewrite for_range_empty by lia. Qed.

Lemma fallback_sort_nothing s : fallback_sort (fallback s [0] k) from from = Ok (fallback s [0] k).
Proof.
  unfold fallback_sort. rewrite Z.leb_refl, Z.sub_diag. destruct (log_ok 0) as (n & -> & Hn); [lia|]. cbn [mbind result_bind]. destruct (Z.to_nat (2 * n)); cbn [quick_sort]; rewrite Z.sub_diag; apply binary_sort_nothing.
Qed.

Lemma fallback_sort_spec s : valid s from to k = true → from < to < 2 ^ 30 → ∃ f, fallback_sort (fallback s [0] k) from to = Ok f ∧ resorted s (sorter f).
Proof using Type*.
  intros Hv Hto. unfold fallback_sort. rewrite (proj2 (Z.leb_le _ _)) by lia. destruct (log_ok (to - from)) as (n & -> & Hn); [lia|]. cbn [mbind result_bind].
  set (f0 := fallback s [0] k). assert (items f0 = map (item_of s) (take (Z.to_nat to) (sids s))) as Ei by (by apply items_valid).
    destruct (valid_read s from to k from Hv Hf ltac:(lia)) as (_ & _ & Hl). destruct (quick_sort_spec (L := fallback_lawful) Hf (Z.to_nat (2 * n)) f0 from to (2 * n)) as (f & -> & C & Hs); try lia; try (cbn [arr fallback_lawful]; rewrite Ei, vlen_map_take; lia).
    exists f. split; [done|]. apply (items_resorted f0 f); try done. lia.
Qed.
End fallback_sorting.

(** ** The sorter of the hash *)

Section hash_sorting.
Context (n : Z) (Hn : 0 ≤ n) (s0 : St).

Definition entry : Type := Z * (list Z * t A * ByteBlockPool.t).
Definition entry_of s (e : Z) : entry := (e, frame n s).
#[local] Instance entry_inhabited : Inhabited entry := populate (entry_of s0 0).
Definition entry_key (x : entry) : list Z := key x.1.

Definition entries s : list entry := if valid s 0 n 0 then map (entry_of s) (take (Z.to_nat n) (sids s)) else [].

Lemma entries_some s i : 0 ≤ i < vlen (entries s) → valid s 0 n 0 = true ∧ i < n ∧ n ≤ vlen (sids s) ∧ entries s = map (entry_of s) (take (Z.to_nat n) (sids s)) ∧
  elem (entries s) i = entry_of s (elem (sids s) i).
Proof using Type*.
  unfold entries. destruct (valid s 0 n 0) eqn:E; [|intros Hi; unfold vlen in Hi; cbn in Hi; lia]. pose proof E as E2. apply andb_true_iff in E2 as [E2 _]. apply Z.leb_le in E2. intros Hi. rewrite vlen_map_take in Hi by lia.
  split_and!; try done; try lia. apply elem_map_take; lia.
Qed.

(** A sorter with other ids below [n]. *)
Lemma entries_conf s s' from to : valid s 0 n 0 = true → s' = string_sorter (with_ids (sids s') (bytes_hash s)) (string_pool s) → 0 ≤ from → from ≤ to → to ≤ n → conf from to (sids s) (sids s') →
  conf from to (entries s) (entries s') ∧ entries s' = map (entry_of s) (take (Z.to_nat n) (sids s')) ∧ n ≤ vlen (sids s').
Proof using Type*.
  intros Hv Es Hf Hft Hto C. pose proof Hv as Hv2. apply andb_true_iff in Hv2 as [Hl Hall]. apply Z.leb_le in Hl. pose proof (conf_vlen _ _ _ _ C) as Hvl.
  pose proof (f_equal bytes_hash Es) as Eh. pose proof (f_equal string_pool Es) as Ep. cbn in Eh, Ep.
  assert (∀ e, reads s' e = reads s e) as Hr by (intros e; unfold reads, byte_start; rewrite Ep; by replace (bytes_start_array (bytes_hash s')) with (bytes_start_array (bytes_hash s)) by (by rewrite Eh)). assert (conf 0 n (sids s) (sids s')) as C0 by (eapply conf_wider; [| |exact C]; lia).
  pose proof (conf_rng 0 n (sids s) (sids s') ltac:(lia) Hn Hl C0) as Hp.
  assert (valid s' 0 n 0 = true) as Hv'.
  { unfold valid. apply andb_true_iff. split; [apply Z.leb_le; lia|]. rewrite forallb_forall in *. intros e He. unfold good. rewrite Hr. apply Hall. apply list_elem_of_In. apply list_elem_of_In in He. by rewrite <- Hp. }
  assert (drop (Z.to_nat n) (sids s') = drop (Z.to_nat n) (sids s)) as Hd.
  { apply nthz_ext; rewrite !vlen_drop by lia; [lia|]. intros j Hj. rewrite !nthz_drop by lia. destruct C as [_ Ho]. specialize (Ho (n + j) ltac:(lia) ltac:(lia)). unfold nthz.
    rewrite !lookup_elem by lia. by rewrite Ho. }
  assert (frame n s' = frame n s) as Hfr by (unfold frame; rewrite Hd, Ep; by replace (with_ids [] (bytes_hash s')) with (with_ids [] (bytes_hash s)) by (by rewrite Eh)).
  assert (entries s' = map (entry_of s) (take (Z.to_nat n) (sids s'))) as Ee by (unfold entries; rewrite Hv'; unfold entry_of; by rewrite Hfr). split; [|split; [done|lia]].
  rewrite Ee. unfold entries. rewrite Hv. split.
  - apply fmap_Permutation. unfold rng in Hp. by rewrite Z.sub_0_r, !drop_0 in Hp.
  - intros i Hi Ho. rewrite vlen_map_take in Hi by lia. rewrite !elem_map_take by lia. f_equal. by apply C; [lia|].
Qed.

#[local] Instance string_lawful : LawfulMSB St Fb entry entry_key.
Proof using Hn.
  refine {| marr := entries |}; cbn [byte_at msb_swap fallback_sorter MsbSorter.fallback_sort shared string_msb_sorter].
  - intros s i k Hi Hk. destruct (entries_some s i Hi) as (Hv & Hin & _ & _ & ->). destruct (valid_read s 0 n 0 i Hv ltac:(lia) ltac:(lia)) as (E & _). unfold string_byte_at. rewrite E. cbn [mbind result_bind].
    unfold entry_key. cbn [entry_of fst]. set (x := key _). destruct (Z.leb_spec (vlen x) k).
    + rewrite lookup_ge_None_2 by (unfold vlen in *; lia). done.
    + destruct (vget_in x k ltac:(lia)) as (b & -> & ->). done.
  - intros s i j Hi Hj. destruct (entries_some s i Hi) as (Hv & Hin & Hl & Ei & _). destruct (entries_some s j Hj) as (_ & Hjn & _).
    destruct (string_swap_spec s 0 n 0 i j Hv ltac:(lia) ltac:(lia) ltac:(lia)) as (s' & -> & Es & Hv'). exists s'. split; [done|].
    assert (sids s' = swapl (sids s) i j) as Esi by (by rewrite Es). destruct (entries_conf s s' 0 n Hv) as (_ & -> & Hl'); try done; try lia; [by rewrite Es|rewrite Esi; apply conf_swap; lia|].
    rewrite Ei. apply elem_ext; rewrite ?vlen_swapl, !vlen_map_take by lia; [done|]. intros q Hq. rewrite elem_map_take by lia. rewrite elem_swapl by (rewrite ?vlen_map_take; lia). rewrite Esi, elem_swapl by lia.
    split_cmp; by rewrite elem_map_take by lia.
  - intros s k from to H0 H1 H2 H3 Hk Hkl. destruct (decide (from = to)) as [<-|Hne].
    + exists (fallback s [0] k). split; [by apply fallback_sort_nothing|]. split; [apply conf_refl|]. intros i j ? ? ?. lia.
    + destruct (entries_some s from ltac:(lia)) as (Hv & _ & Hl & Ei & _). rewrite Ei, vlen_map_take in H2, H3 by lia.
      destruct (fallback_sort_spec from to k H0 H1 Hk s s) as (f & E & Es & C & Hs); [|lia|].
      { apply (valid_weaken s 0 n 0); try done; try lia. intros i Hi. specialize (Hkl i Hi). by rewrite Ei, elem_map_take in Hkl by lia. }
      exists f. split; [done|]. destruct (entries_conf s (sorter f) from to Hv Es H0 H1 ltac:(lia) C) as (C' & Ei' & Hl'). split; [done|].
      intros i j Hi Hij Hj. rewrite Ei', !elem_map_take by lia. by apply Hs.
Defined.
End hash_sorting.

(** ** Sorting the hash *)

Lemma resorted_hash n s s' : 0 < n → valid s 0 n 0 = true → let E := entries n in @conf entry (entry_inhabited n s) 0 n (E s) (E s') → @sorted entry (entry_inhabited n s) (lexk entry_key 0) (E s') 0 n →
  s' = string_sorter (with_ids (sids s') (bytes_hash s)) (string_pool s) ∧ vlen (sids s') = vlen (sids s) ∧ take (Z.to_nat n) (sids s') ≡ₚ take (Z.to_nat n) (sids s) ∧ sorted (lexk key 0) (sids s') 0 n.
Proof.
  intros Hn Hv E C Hs. pose proof (entry_inhabited n s) as HI. assert (E s = map (entry_of n s) (take (Z.to_nat n) (sids s))) as Ei by (unfold E, entries; by rewrite Hv).
  pose proof Hv as Hv2. apply andb_true_iff in Hv2 as [Hl _]. apply Z.leb_le in Hl. pose proof (conf_vlen _ _ _ _ C) as Hvl. rewrite Ei, vlen_map_take in Hvl by lia.
  destruct (entries_some n ltac:(lia) s s' 0 ltac:(fold E; lia)) as (_ & _ & Hl' & Ei' & E0). fold E in Ei', E0.
  assert (frame n s' = frame n s) as Hfr.
  { change (frame n s') with ((entry_of n s' (elem (sids s') 0)).2). rewrite <- E0. apply (conf_all 0 n (E s) (E s') (fun x => x.2 = frame n s)); try done; try lia; [rewrite Ei, vlen_map_take; lia|].
    intros i Hi. rewrite Ei, elem_map_take by lia. done. }
  injection Hfr as Hdrop Hh Hp. split_and!.
  - destruct s' as [[? ? ? ? ? ? ?] ?], s as [[? ? ? ? ? ? ?] ?]. unfold sids in *. cbn in *. unfold with_ids in *. cbn in *. congruence.
  - pose proof (f_equal vlen Hdrop) as Hd. rewrite !vlen_drop in Hd by lia. lia.
  - destruct C as [Hperm _]. rewrite Ei, Ei' in Hperm. apply (fmap_Permutation (fun x : entry => x.1)) in Hperm. rewrite <- !list_fmap_compose in Hperm.
    assert (∀ s (l : list Z), (fun x : entry => x.1) ∘ entry_of n s <$> l = l) as Eid by (intros ? l; rewrite <- (list_fmap_id l) at 2; by apply list_fmap_ext). by rewrite !Eid in Hperm.
  - intros i j Hi Hij Hj. specialize (Hs i j Hi Hij Hj). rewrite Ei', !elem_map_take in Hs by lia. done.
Qed.
End string_sorters.

Lemma StronglySorted_lookup {X : Type} (R : X → X → Prop) (l : list X) : (∀ i j x y, (i < j)%nat → l !! i = Some x → l !! j = Some y → R x y) → StronglySorted R l.
Proof.
  induction l as [|x l IH]; intros HR; constructor.
  - apply IH. intros i j y z Hij Hy Hz. by apply (HR (S i) (S j)); [lia|..].
  - apply list.Forall_forall. intros y Hy. apply list_elem_of_lookup in Hy as (j & Hj). by apply (HR 0%nat (S j)); [lia|..].
Qed.

Section hash_sort.
#[local] Set Default Proof Using "Type*".
Context {A : Type} `{StartArrayLaws A} (hash32 : list Z → Z).

Lemma text_length h p ts b : repr hash32 h p ts → b ∈ ts → vlen b < ByteBlockPool.BYTE_BLOCK_SIZE.
Proof.
  intros Hr Hb. apply list_elem_of_lookup in Hb as (i & Hi). pose proof (re_texts _ _ _ _ Hr i b Hi) as [H1 H2 _ _]. unfold text_bytes in H2. rewrite vlen_app, length_bytes_len in H2.
  pose proof (Z.mod_pos_bound (nthz (bs_bytes (bytes_start_array h)) (Z.of_nat i)) ByteBlockPool.BYTE_BLOCK_SIZE ltac:(done)). destruct (_ <? _); lia.
Qed.

Lemma present_compacted l n : present (present l ++ replicate n (-1)) = present l.
Proof.
  unfold present. rewrite list.filter_app. replace (filter (λ e, e ≠ -1) (replicate n (-1))) with (@nil Z).
  - rewrite app_nil_r. induction l as [|x l IH]; [done|]. rewrite filter_cons. case_decide; [rewrite filter_cons_True by done; by f_equal|done].
  - induction n as [|n IH]; [done|]. cbn [replicate]. by rewrite filter_cons_False by (by intros []).
Qed.

(** The sorter of a hash that was compacted. *)
Lemma string_sorter_spec h p ts : repr hash32 h p ts → vlen ts < 2 ^ 30 →
  ∃ l, let h1 := with_last_count (count h) (with_ids l h) in compact h = Ok h1 ∧ new_string_sorter h1 p = Ok (string_sorter h1 p) ∧
    vlen l = hash_size h ∧ take (length ts) l ≡ₚ first_ids (length ts) ∧ valid ts (string_sorter h1 p) 0 (vlen ts) 0 = true.
Proof.
  intros Hr Hlim. pose proof Hr as [[(k & [S1 S2 S3 S4 S5]) T2 T3 T4 T5] R2 R3 R4 R5 R6 R7]. set (l := present (ids h) ++ replicate (length (ids h) - length (present (ids h))) (-1)). exists l. intros h1.
  assert (length (present (ids h)) = length ts) as Hlp by (rewrite T3; unfold first_ids; by rewrite length_map, length_seq).
  pose proof (length_filter (λ e, e ≠ -1) (ids h)) as Hlf. fold (present (ids h)) in Hlf. assert (length l = length (ids h)) as Hll by (unfold l; rewrite length_app, length_replicate; lia).
  assert (take (length ts) l = present (ids h)) as Ht by (unfold l; rewrite <- Hlp; by rewrite take_app_length).
  assert (compact h = Ok h1) as E1 by (apply compact_spec; [lia|unfold vlen; lia]). split_and!; try done.
  - unfold new_string_sorter. rewrite compact_spec; cbn [h1 with_last_count with_ids ids hash_size count]; [|unfold vlen in *; lia|unfold vlen, l; rewrite present_compacted; lia]. cbn [mbind result_bind]. do 2 f_equal.
    unfold l. rewrite present_compacted. fold l. rewrite Hll. done.
  - unfold vlen in *. lia.
  - by rewrite Ht.
  - unfold valid. cbn [sids bytes_hash h1 with_last_count with_ids ids]. apply andb_true_iff. split; [apply Z.leb_le; unfold vlen in *; lia|]. unfold rng. rewrite Z.sub_0_r, to_nat_vlen. cbn [drop Z.to_nat]. rewrite drop_0, Ht.
    apply forallb_forall. intros e He. apply list_elem_of_In in He. rewrite T3, elem_of_first_ids in He. unfold good, reads. cbn [bytes_hash string_pool]. rewrite as_u_id by (unfold is_u, vlen in *; lia).
    destruct (repr_lookup hash32 h p ts (Z.to_nat e) (text ts e) Hr (text_lookup ts e He)) as (a & Ea & Es & _). rewrite Z2Nat.id in Ea by lia. change (byte_start h1 e) with (byte_start h e). rewrite Ea. cbn [mbind result_bind]. rewrite Es.
    apply andb_true_iff. split; [by apply bool_decide_eq_true|]. apply Z.leb_le, vlen_nonneg.
Qed.

(** Ids in the order of their strings are strictly so: the strings are distinct. *)
Lemma strictly_sorted ts l : NoDup ts → take (length ts) l ≡ₚ first_ids (length ts) → vlen ts ≤ vlen l → sorted (lexk (text ts) 0) l 0 (vlen ts) →
  StronglySorted (λ a b, lex a b = Lt) (map (text ts) (take (length ts) l)).
Proof.
  intros Hnd Hp Hl Hs. apply StronglySorted_lookup. intros i j x y Hij Hx Hy. apply list_lookup_fmap_Some in Hx as (a & -> & Ha), Hy as (b & -> & Hb).
  assert (NoDup (take (length ts) l)) as Hnd2 by (rewrite Hp; unfold first_ids; apply NoDup_fmap_2; [intros x y; apply Nat2Z.inj|apply NoDup_seq]).
  assert (∀ q e, take (length ts) l !! q = Some e → 0 ≤ e < vlen ts ∧ elem l (Z.of_nat q) = e ∧ Z.of_nat q < vlen ts) as Hq.
  { intros q e He. pose proof (lookup_lt_Some _ _ _ He) as Hlt. rewrite length_take in Hlt. split; [apply elem_of_first_ids; rewrite <- Hp; by apply list_elem_of_lookup_2 with q|].
    rewrite lookup_take_lt in He by lia. split; [apply elem_lookup; by rewrite Nat2Z.id|unfold vlen; lia]. }
  destruct (Hq i a Ha) as (Ha1 & Ea & Hai), (Hq j b Hb) as (Hb1 & Eb & Hbj). specialize (Hs (Z.of_nat i) (Z.of_nat j) ltac:(lia) ltac:(lia) ltac:(lia)). unfold le, lexk in Hs. rewrite Ea, Eb, !drop_0 in Hs.
  destruct (lex (text ts a) (text ts b)) eqn:E; try done. apply lex_eq in E. pose proof (text_lookup ts a Ha1) as La. pose proof (text_lookup ts b Hb1) as Lb. rewrite E in La.
  pose proof (NoDup_lookup _ _ _ _ Hnd La Lb). assert (a = b) as -> by lia. pose proof (NoDup_lookup _ _ _ _ Hnd2 Ha Hb). lia.
Qed.

Lemma sort_spec h p ts : repr hash32 h p ts → Forall (Forall (is_u 8)) ts → vlen ts < 2 ^ 30 →
  ∃ l, sort h p = Ok (with_last_count (count h) (with_ids l h)) ∧ vlen l = hash_size h ∧ take (length ts) l ≡ₚ first_ids (length ts) ∧
    StronglySorted (λ a b, lex a b = Lt) (map (text ts) (take (length ts) l)).
Proof.
  intros Hr Hb Hlim. destruct (string_sorter_spec h p ts Hr Hlim) as (l & E1 & E2 & Hl & Hp & Hv). pose proof Hr as [[(k & [S1 S2 S3 S4 S5]) T2 T3 T4 T5] R2 R3 R4 R5 R6 R7]. set (h1 := with_last_count _ _) in *. set (s := string_sorter h1 p) in *.
  unfold sort. rewrite E1. cbn [mbind result_bind]. rewrite E2. cbn [mbind result_bind]. change (count h1) with (count h). rewrite T5. change (Z.of_nat (length ts)) with (vlen ts). pose proof (vlen_nonneg ts). rewrite as_i_id by (unfold is_i; lia).
  assert (vlen ts ≤ vlen l) as Hle by (pose proof Hv as Hv2; apply andb_true_iff in Hv2 as [Hv2 _]; by apply Z.leb_le in Hv2).
  assert (∀ e, Forall (is_u 8) (text ts e)) as Hkey.
  { intros e. unfold text. destruct (ts !! Z.to_nat e) as [b|] eqn:E; [|constructor]. by apply (Forall_lookup_1 _ _ _ _ Hb) in E. }
  assert (∀ e, vlen (text ts e) ≤ 32767) as Hlen.
  { intros e. unfold text. destruct (ts !! Z.to_nat e) as [b|] eqn:E; [|done]. apply list_elem_of_lookup_2 in E. pose proof (text_length h p ts b Hr E) as Ht. unfold ByteBlockPool.BYTE_BLOCK_SIZE in Ht. cbn. lia. }
  destruct (decide (ts = [])) as [->|Hne].
  - unfold MSBRadixSorter.sort, MSBRadixSorter.sort_inner. cbn [check_range check mbind result_bind Z.leb Z.compare Z.sub Z.opp Z.add vlen length Z.of_nat orb LENGTH_THRESHOLD MSBRadixSorter.new MSBRadixSorter.msb_sorter].
    cbn [fallback_sorter MsbSorter.fallback_sort string_msb_sorter]. rewrite fallback_sort_nothing. cbn [mbind result_bind]. exists l. split; [unfold s, h1; cbn; by rewrite T5|]. split_and!; try done. constructor.
  - assert (0 < vlen ts) by (destruct ts; [done|]; rewrite vlen_cons; pose proof (vlen_nonneg ts); lia). assert (vlen (entries ts (vlen ts) s) = vlen ts) as Hve by (unfold entries; rewrite Hv, vlen_map_take; [done|cbn; lia]).
    destruct (msb_sort_spec (L := string_lawful ts (vlen ts) ltac:(lia) s) (fun x => Hkey x.1) 32767 2147483647 ltac:(lia) (fun x => Hlen x.1) ltac:(lia) ltac:(lia) (Z.to_nat ByteBlockPool.BYTE_BLOCK_SIZE) s 0 (vlen ts))
      as (m & -> & C & Hs); try (cbn [marr string_lawful]; lia); [rewrite Z2Nat.id; done|]. cbn [mbind result_bind].
    destruct (resorted_hash ts (vlen ts) s (MSBRadixSorter.msb_sorter m)) as (Es & Hvl & Hp2 & Hs2); try done; try lia. set (l2 := sids (MSBRadixSorter.msb_sorter m)) in *. exists l2. rewrite Es. split; [unfold s, h1; cbn; by rewrite T5|].
    rewrite to_nat_vlen in Hp2. change (sids s) with l in Hp2, Hvl. split_and!; try lia; [by rewrite Hp2|]. apply strictly_sorted; try done; try lia. by rewrite Hp2.
Qed.
End hash_sort.
