(* ===== verification/BytesRefHashTheorems.v ===== *)
(** What BytesRefHash promises: ids in the order of first addition, the string of every
    id, and the ids in the order of their strings. *)

From Stdlib Require Import Sorted.
From S2P Require Import Prelude DataIO PackedBulkFacts PackedArrayFacts BytePool BytePoolFacts PoolFacts MsbSorter BytesRefHash HashTableFacts BytesRefHashFacts BytesRefSortFacts.
Open Scope Z_scope.
Import BytesRefHash.
#[local] Abbreviation B := ByteBlockPool.BYTE_BLOCK_SIZE.

(** * Histories of a hash

    A history adds strings and clears the hash, with the pool or without it.  A flush
    sorts the hash before it clears it. *)

Inductive op : Type :=
  | Add (b : list Z)
  | Clear (reset_pool : bool)
  | Flush (reset_pool : bool).

Section histories.
Context {A : Type} `{StartArrayLaws A} (hash32 : list Z → Z).
#[local] Set Default Proof Using "Type*".

Definition state : Type := t A * ByteBlockPool.t.

(** The results of [add], and the strings after the last clear. *)
Definition exec (o : op) (st : list Z * state) : result (list Z * state) :=
  let '(outs, (h, p)) := st in
  match o with
  | Add b => '(e, h, p) ← add hash32 h p b; Ok (outs ++ [e], (h, p))
  | Clear reset_pool => st ← clear h p reset_pool; Ok (outs, st)
  | Flush reset_pool => h ← sort h p; st ← clear h p reset_pool; Ok (outs, st)
  end.
Definition exec_all (ops : list op) (st : state) : result (list Z * state) := for_each ops exec ([], st).

(** ** The specification *)

Definition index_of (b : list Z) (ts : list (list Z)) : option nat := fst <$> list_find (b =.) ts.

Definition spec_exec (o : op) (st : list Z * list (list Z)) : list Z * list (list Z) :=
  let '(outs, ts) := st in
  match o with
  | Add b => match index_of b ts with Some i => (outs ++ [- (Z.of_nat i + 1)], ts) | None => (outs ++ [vlen ts], ts ++ [b]) end
  | Clear _ | Flush _ => (outs, [])
  end.
Definition spec_all (ops : list op) : list Z * list (list Z) := foldl (fun st o => spec_exec o st) ([], []) ops.

(** The bytes a history needs at most. *)
Definition cost (o : op) : Z := match o with Add b => 2 * (2 + vlen b) | _ => 0 end.
Definition costs (ops : list op) : Z := foldr (fun o c => cost o + c) 0 ops.
Definition storable (o : op) : Prop := match o with Add b => Forall (is_u 8) b ∧ vlen b < B - 2 | _ => True end.

Lemma index_of_Some b ts i : index_of b ts = Some i → ts !! i = Some b.
Proof. unfold index_of. intros E. apply fmap_Some in E as ([j x] & E & ->). apply list_find_Some in E as (Hx & <- & _). done. Qed.
Lemma index_of_None b ts : index_of b ts = None → b ∉ ts.
Proof. unfold index_of. intros E Hb. apply fmap_None, list_find_None in E. rewrite list.Forall_forall in E. by apply (E b). Qed.

Lemma op_cost_nonneg o : 0 ≤ cost o.
Proof. unfold cost. destruct o; [pose proof (vlen_nonneg b)|..]; lia. Qed.
Lemma costs_nonneg ops : 0 ≤ costs ops.
Proof. induction ops as [|o ops IH]; [done|]. cbn [costs foldr]. fold (costs ops). pose proof (op_cost_nonneg o). lia. Qed.

(** The invariant of a history; [c] bytes of the limit are left. *)
Record inv (st : state) (ts : list (list Z)) (c : Z) : Prop := {
  inv_repr : repr hash32 st.1 st.2 ts;
  inv_bytes : Forall (Forall (is_u 8)) ts;
  inv_room : head st.2 + c < 2 ^ 30;
}.

Lemma repr_sized h p ts : repr hash32 h p ts → ∃ k, sized h k.
Proof. intros [[Hs _ _ _ _] _ _ _ _ _ _]. done. Qed.

Lemma history_inv o st ts outs c : inv st ts (cost o + c) → storable o → 0 ≤ c →
  ∃ st', exec o (outs, st) = Ok ((spec_exec o (outs, ts)).1, st') ∧ inv st' (spec_exec o (outs, ts)).2 c.
Proof.
  intros [Hr Hb Hc] Hs Hc0. destruct st as [h p]. cbn [fst snd] in *. pose proof Hr as [_ _ _ _ (T & Hw) Hsm Hwf]. pose proof (op_cost_nonneg o) as Hco. destruct o as [b|rp|rp]; cbn [exec spec_exec cost] in *.
  - destruct Hs as [Hb8 Hlen]. destruct (index_of b ts) as [i|] eqn:Ei.
    + apply index_of_Some in Ei. rewrite (add_old hash32 h p ts b i Hr Ei). cbn [mbind result_bind]. eexists. split; [done|]. split; try done. cbn [fst snd]. pose proof (vlen_nonneg b). lia.
    + apply index_of_None in Ei. destruct (add_new hash32 h p ts b T Hr Hw Ei (or_introl Hlen)) as (h' & p' & st & -> & Hr' & Hh & _); [lia|]. cbn [mbind result_bind]. eexists. split; [done|]. split; try done; [|cbn [fst snd]; lia].
      apply Forall_app. split; [done|]. by constructor.
  - destruct (repr_sized h p ts Hr) as (k & Hsz). destruct (clear_spec hash32 h p k T rp Hsz Hw Hwf) as (h' & p' & -> & Hr' & Hh). cbn [mbind result_bind]. eexists. split; [done|]. split; try done. cbn [fst snd]. lia.
  - destruct (sort_spec hash32 h p ts Hr Hb) as (l & -> & Hl & _); [lia|]. cbn [mbind result_bind]. destruct (repr_sized h p ts Hr) as (k & [S1 S2 S3 S4 S5]).
    destruct (clear_spec hash32 (with_last_count (count h) (with_ids l h)) p k T rp) as (h' & p' & -> & Hr' & Hh); [split; cbn; try done; lia|done|done|]. cbn [mbind result_bind]. eexists. split; [done|]. split; try done. cbn [fst snd]. lia.
Qed.

Lemma history_all_inv ops : ∀ st ts outs, inv st ts (costs ops) → Forall storable ops →
  ∃ st', for_each ops exec (outs, st) = Ok ((foldl (fun s o => spec_exec o s) (outs, ts) ops).1, st') ∧ inv st' (foldl (fun s o => spec_exec o s) (outs, ts) ops).2 0.
Proof.
  induction ops as [|o ops IH]; intros st ts outs Hi Hs; [by exists st|]. apply List.Forall_cons_iff in Hs as [Ho Hs]. cbn [costs foldr] in Hi. destruct (history_inv o st ts outs (costs ops) Hi Ho (costs_nonneg ops)) as (st1 & E & Hi1).
  cbn [for_each foldl]. rewrite E. cbn [mbind result_bind]. destruct (spec_exec o (outs, ts)) as [outs1 ts1]. by apply IH.
Qed.

Lemma history k a ops : array_wf a → 1 ≤ k → Forall storable ops → costs ops < 2 ^ 30 →
  ∃ st, exec_all ops (new (2 ^ k) a, ByteBlockPool.default) = Ok ((spec_all ops).1, st) ∧ inv st (spec_all ops).2 0.
Proof.
  intros Ha Hk Hs Hc. pose proof (pool_new_wf (ByteBlockPool.DirectAllocator B) eq_refl) as Hw. apply history_all_inv; [|done]. split; [|constructor|].
  - cbn [fst snd]. by apply (new_repr hash32 k a _ 0).
  - cbn [snd]. change (head ByteBlockPool.default) with 0. lia.
Qed.

(** C17. A history of [add], [clear], and [sort] followed at once by [clear], on a hash of any capacity [2 ^ k]
    and for any hash function: [add] gives a new string the number of the strings before it
    and an old one [-(id + 1)]; afterwards [len] is the number of strings, [get] reads the
    string of every id, and [add] of a string that is there changes nothing.  (A [sort] alone
    reorders the table and is documented to destroy it, so strings added after it without a [clear] are not
    part of a history; the strings are shorter than the size of a block less 2, 32766 bytes, and twice their
    lengths with 2 bytes more each sum up to less than 2^30.) *)
Theorem bytes_ref_hash_refines (k : Z) (a : A) (ops : list op) : array_wf a → 1 ≤ k → Forall storable ops → costs ops < 2 ^ 30 →
  ∃ h p, exec_all ops (new (2 ^ k) a, ByteBlockPool.default) = Ok ((spec_all ops).1, (h, p)) ∧ len h = vlen (spec_all ops).2 ∧
    ∀ i b, (spec_all ops).2 !! i = Some b → get h p (Z.of_nat i) = Ok b ∧ add hash32 h p b = Ok (- (Z.of_nat i + 1), h, p).
Proof.
  intros Ha Hk Hs Hc. destruct (history k a ops Ha Hk Hs Hc) as ([h p] & E & [Hr _ _]). exists h, p. cbn in Hr. split; [done|]. split; [by apply (tb_count _ _ _ (re_table _ _ _ _ Hr))|].
  intros i b Hb. split; [by eapply get_text|by eapply add_old].
Qed.

(** C19. The table of a hash after a history: its size is a power of two with the sizes
    that belong to it, less than half of it is used, every id below [len] lies in one
    slot, and the probe for its string comes to that slot through slots that are used. *)
Theorem hash_table_well_formed (k : Z) (a : A) (ops : list op) : array_wf a → 1 ≤ k → Forall storable ops → costs ops < 2 ^ 30 →
  ∃ outs h p ts, exec_all ops (new (2 ^ k) a, ByteBlockPool.default) = Ok (outs, (h, p)) ∧
    (∃ j, 1 ≤ j ∧ hash_size h = 2 ^ j ∧ hash_half_size h = 2 ^ (j - 1) ∧ hash_mask h = 2 ^ j - 1 ∧ vlen (ids h) = 2 ^ j) ∧
    0 ≤ len h < hash_half_size h ∧ present (ids h) ≡ₚ first_ids (Z.to_nat (len h)) ∧
    (∀ e, 0 ≤ e < len h → get h p e = Ok (text ts e)) ∧
    ∀ j, 0 ≤ j < hash_size h → nthz (ids h) j ≠ -1 → reaches (hash_size h) (ids h) (hash32 (text ts (nthz (ids h) j))) j.
Proof.
  intros Ha Hk Hs Hc. destruct (history k a ops Ha Hk Hs Hc) as ([h p] & E & [Hr _ _]). eexists _, h, p, (spec_all ops).2. split; [done|]. pose proof Hr as [[(j & [S1 S2 S3 S4 S5]) T2 T3 T4 T5] R2 R3 R4 R5 R6 R7].
  cbn [fst snd] in *. unfold len. rewrite T5, Nat2Z.id. split_and!; try lia; try done.
  - exists j. done.
  - intros e He. rewrite <- (Z2Nat.id e) at 1 by lia. eapply get_text; [done|]. by apply text_lookup.
  - by destruct T2.
Qed.

(** C18. [sort] puts the ids of all strings to the front of the table, in the order of
    their strings, which is strict: no string is there twice. *)
Theorem bytes_ref_hash_sorts (k : Z) (a : A) (ops : list op) : array_wf a → 1 ≤ k → Forall storable ops → costs ops < 2 ^ 30 →
  ∃ h p h', exec_all ops (new (2 ^ k) a, ByteBlockPool.default) = Ok ((spec_all ops).1, (h, p)) ∧ sort h p = Ok h' ∧
    let sorted_ids := take (length (spec_all ops).2) (ids h') in
    sorted_ids ≡ₚ first_ids (length (spec_all ops).2) ∧ StronglySorted (λ a b, lex a b = Lt) (map (text (spec_all ops).2) sorted_ids) ∧
    ∀ i b, (spec_all ops).2 !! i = Some b → get h' p (Z.of_nat i) = Ok b.
Proof.
  intros Ha Hk Hs Hc. destruct (history k a ops Ha Hk Hs Hc) as ([h p] & E & [Hr Hb Hroom]). cbn [fst snd] in *. pose proof (re_small _ _ _ _ Hr). destruct (sort_spec hash32 h p _ Hr Hb) as (l & Es & _ & Hp & Hst); [lia|].
  exists h, p, (with_last_count (count h) (with_ids l h)). split_and!; try done. intros i b Hi. change (get (with_last_count (count h) (with_ids l h)) p (Z.of_nat i)) with (get h p (Z.of_nat i)). by eapply get_text.
Qed.

(** C20. A new string of [BYTE_BLOCK_SIZE - 2] bytes, which is the documented maximum,
    makes [add] panic unless the current buffer is empty. *)
Theorem add_longest_string (k : Z) (a : A) (ops : list op) (b : list Z) : array_wf a → 1 ≤ k → Forall storable ops → costs ops < 2 ^ 30 → b ∉ (spec_all ops).2 → vlen b = B - 2 →
  ∃ h p, exec_all ops (new (2 ^ k) a, ByteBlockPool.default) = Ok ((spec_all ops).1, (h, p)) ∧
    (0 < ByteBlockPool.byte_upto p → add hash32 h p b = Panic) ∧ (ByteBlockPool.byte_upto p = 0 → is_ok (add hash32 h p b) = true).
Proof.
  intros Ha Hk Hs Hc Hb Hl. destruct (history k a ops Ha Hk Hs Hc) as ([h p] & E & [Hr Hb8 Hroom]). exists h, p. cbn [fst snd] in *. split; [done|]. split; intros Hu.
  - apply (add_too_long hash32 h p (spec_all ops).2); try done; lia.
  - destruct (re_pool _ _ _ _ Hr) as (T & Hw). destruct (add_new hash32 h p (spec_all ops).2 b T Hr Hw Hb) as (h' & p' & st & -> & _); [right; lia|unfold B in *; lia|done].
Qed.
End histories.

(** * A hash at work *)

(** A hash function that makes everything collide. *)
Definition worst_hash (b : list Z) : Z := 0.
Definition sample : list op := [Add [98; 99]; Add [97]; Add [98; 99]; Add []; Add [97; 0]; Add [98]].

Example sample_sorted :
  (st ← exec_all worst_hash sample (new (2 ^ 1) (DirectByteStartArray.new 4), ByteBlockPool.default); h ← sort st.2.1 st.2.2; Ok (take 6 (ids h))) = Ok [2; 1; 3; 4; 0; -1].
Proof. vm_compute. reflexivity. Qed.

(** [reinit] after [close] fills the table with the id 0 where a free slot is -1: the next
    [add] looks for a string that is not there. *)
Example reinit_after_close :
  (st ← close with_pool ByteBlockPool.default; add worst_hash (reinit st.1) st.2 [98]) = Panic.
Proof. vm_compute. reflexivity. Qed.

Lemma bytes_ref_hash_refines_witness :
  ∃ h p, exec_all worst_hash sample (new (2 ^ 1) (DirectByteStartArray.new 4), ByteBlockPool.default) = Ok ([0; 1; -1; 2; 3; 4], (h, p)) ∧ len h = 5 ∧ get h p 3 = Ok [97; 0].
Proof.
  destruct (bytes_ref_hash_refines worst_hash 1 (DirectByteStartArray.new 4) sample) as (h & p & E & El & Hg); [exact I|lia|repeat constructor; vm_compute; intuition discriminate|vm_compute; reflexivity|].
  exists h, p. split; [exact E|]. split; [exact El|]. apply (Hg 3%nat [97; 0]). reflexivity.
Defined.

Lemma hash_table_well_formed_witness :
  ∃ outs h p, exec_all worst_hash sample (new (2 ^ 1) (DirectByteStartArray.new 4), ByteBlockPool.default) = Ok (outs, (h, p)) ∧ 0 ≤ len h < hash_half_size h.
Proof.
  destruct (hash_table_well_formed worst_hash 1 (DirectByteStartArray.new 4) sample) as (outs & h & p & ts & E & _ & Hl & _); [exact I|lia|repeat constructor; vm_compute; intuition discriminate|vm_compute; reflexivity|].
  exists outs, h, p. split; [exact E|exact Hl].
Defined.

Lemma bytes_ref_hash_sorts_witness :
  ∃ h p h', exec_all worst_hash sample (new (2 ^ 1) (DirectByteStartArray.new 4), ByteBlockPool.default) = Ok ([0; 1; -1; 2; 3; 4], (h, p)) ∧ sort h p = Ok h' ∧ get h' p 0 = Ok [98; 99] ∧
    take 5 (ids h') ≡ₚ [0; 1; 2; 3; 4].
Proof.
  destruct (bytes_ref_hash_sorts worst_hash 1 (DirectByteStartArray.new 4) sample) as (h & p & h' & E & Es & Hp & _ & Hg); [exact I|lia|repeat constructor; vm_compute; intuition discriminate|vm_compute; reflexivity|].
  exists h, p, h'. split; [exact E|]. split; [exact Es|]. split; [exact (Hg 0%nat [98; 99] eq_refl)|exact Hp].
Defined.

Lemma add_longest_string_witness :
  let b := replicate (Z.to_nat 32766) 7 in
  ∃ h p, exec_all worst_hash [Add [98]] (new (2 ^ 4) (DirectByteStartArray.new 4), ByteBlockPool.default) = Ok ([0], (h, p)) ∧ (0 < ByteBlockPool.byte_upto p → add worst_hash h p b = Panic).
Proof.
  intros b. destruct (add_longest_string worst_hash 4 (DirectByteStartArray.new 4) [Add [98]] b) as (h & p & E & H1 & _); [exact I|lia|repeat constructor; vm_compute; intuition discriminate|vm_compute; reflexivity| |unfold b, vlen; rewrite length_replicate; reflexivity|].
  - change ((spec_all [Add [98]]).2) with [[98]]. intros Hin. apply list_elem_of_In in Hin. destruct Hin as [E|[]]. apply (f_equal vlen) in E. unfold b, vlen in E. rewrite length_replicate, Z2Nat.id in E by lia. cbn in E. lia.
  - exists h, p. split; [exact E|exact H1].
Defined.
