(* ===== verification/FreqProx.v ===== *)
(** The in-memory inverted index: src/core/codec/postings/terms_hash_per_field.rs and
    terms_hash.rs, and the part of src/core/index/writer/doc_consumer.rs that feeds it.

    A field hashes the terms of its tokens to ids and writes two streams per id, one with
    documents and frequencies and one with positions, payloads and offsets; iterators over
    the streams give the postings back when a segment is flushed.

    Left out are the term vectors, to which a field may hand every token on, norms and
    boosts, stored fields, doc values and points, and the descriptions of the fields.  An
    error ends the run: the source marks the document deleted and goes on. *)

From S2P Require Import Prelude DataIO DocIter BytePool MsbSorter BytesRefHash.
Open Scope Z_scope.
Import TermsHashPerFieldBase.

(** src/core/doc/index_options.rs *)
Module IndexOptions.
Inductive t : Type := Null | Docs | DocsAndFreqs | DocsAndFreqsAndPositions | DocsAndFreqsAndPositionsAndOffsets.

#[global] Instance t_eq_dec : EqDecision t.
Proof. solve_decision. Defined.

Definition value (o : t) : Z :=
  match o with
  | Null => 0
  | Docs => 1
  | DocsAndFreqs => 2
  | DocsAndFreqsAndPositions => 3
  | DocsAndFreqsAndPositionsAndOffsets => 4
  end.
(** [self >= other], by [value] *)
Definition geb (o o' : t) : bool := value o' <=? value o.

Definition has_freqs (o : t) : bool :=
  match o with DocsAndFreqs | DocsAndFreqsAndPositions | DocsAndFreqsAndPositionsAndOffsets => true | _ => false end.
Definition has_positions (o : t) : bool :=
  match o with DocsAndFreqsAndPositions | DocsAndFreqsAndPositionsAndOffsets => true | _ => false end.
Definition has_offsets (o : t) : bool :=
  match o with DocsAndFreqsAndPositionsAndOffsets => true | _ => false end.
End IndexOptions.

(** src/core/codec/posting_iterator.rs *)
Module PostingIteratorFlags.
Definition NONE : Z := 0.
Definition FREQS : Z := 8.
Definition POSITIONS : Z := 24.
Definition OFFSETS : Z := 56.
Definition PAYLOADS : Z := 88.
Definition ALL : Z := 120.
Definition feature_requested (flags feature : Z) : bool := Z.land flags feature =? feature.
End PostingIteratorFlags.

(** What the attributes of a token stream say of a token. *)
Record token : Type := Token {
  term_bytes : list Z;
  pos_incr : Z;
  start_offset : Z;
  end_offset : Z;
  payload : option (list Z);
}.

(** src/core/codec/field_infos/mod.rs; the name and the boost are left out. *)
Module FieldInvertState.
Record t : Type := mk {
  position : Z;
  length : Z;
  num_overlap : Z;
  offset : Z;
  max_term_frequency : Z;
  unique_term_count : Z;
  last_start_offset : Z;
  last_position : Z;
}.

Definition with_name : t := mk 0 0 0 0 0 0 0 0.
Definition reset (s : t) : t := mk (-1) 0 0 0 0 0 0 0.

Definition with_max_term_frequency (m : Z) (s : t) : t :=
  mk (position s) (length s) (num_overlap s) (offset s) m (unique_term_count s) (last_start_offset s) (last_position s).
Definition with_unique_term_count (n : Z) (s : t) : t :=
  mk (position s) (length s) (num_overlap s) (offset s) (max_term_frequency s) n (last_start_offset s) (last_position s).
End FieldInvertState.

(** * The arrays of a field, indexed by term id *)

Module FreqProxPostingsArray.
Record t : Type := mk {
  base : ParallelPostingsArray.t;
  term_freqs : list Z;
  last_doc_ids : list Z;
  last_doc_codes : list Z;
  last_positions : list Z;
  last_offsets : list Z;
}.

Definition zeros (n : Z) : list Z := replicate (Z.to_nat n) 0.

Definition default : t :=
  mk ParallelPostingsArray.default (zeros 1024) (zeros 1024) (zeros 1024) (zeros 1024) (zeros 1024).

Definition new (size : Z) (write_freqs write_pos write_offsets : bool) : result t :=
  if negb write_pos && write_offsets then Panic
  else Ok (mk (ParallelPostingsArray.new size) (if write_freqs then zeros size else []) (zeros size) (zeros size)
             (if write_pos then zeros size else []) (if write_pos && write_offsets then zeros size else [])).

Definition is_empty (l : list Z) : bool := vlen l =? 0.
Definition resize_used (l : list Z) (n : Z) : list Z := if negb (is_empty l) then ParallelPostingsArray.resize l n else l.

Definition bytes_per_posting (a : t) : Z :=
  let bytes := 3 * 4 + 2 * 4 in
  let bytes := if negb (is_empty (last_positions a)) then bytes + 4 else bytes in
  let bytes := if negb (is_empty (last_offsets a)) then bytes + 4 else bytes in
  if negb (is_empty (term_freqs a)) then bytes + 4 else bytes.

Definition grow (a : t) : t :=
  let base := ParallelPostingsArray.grow (base a) in
  let new_size := ParallelPostingsArray.size base in
  mk base (resize_used (term_freqs a) new_size) (ParallelPostingsArray.resize (last_doc_ids a) new_size)
    (ParallelPostingsArray.resize (last_doc_codes a) new_size) (resize_used (last_positions a) new_size)
    (resize_used (last_offsets a) new_size).

Definition clear (a : t) : t := mk (ParallelPostingsArray.clear (base a)) [] [] [] [] [].

(** Stores at one index. *)
Definition set_base (b : ParallelPostingsArray.t) (a : t) : t :=
  mk b (term_freqs a) (last_doc_ids a) (last_doc_codes a) (last_positions a) (last_offsets a).
Definition set_term_freq (i v : Z) (a : t) : result t :=
  l ← vset (term_freqs a) i v; Ok (mk (base a) l (last_doc_ids a) (last_doc_codes a) (last_positions a) (last_offsets a)).
Definition set_last_doc_id (i v : Z) (a : t) : result t :=
  l ← vset (last_doc_ids a) i v; Ok (mk (base a) (term_freqs a) l (last_doc_codes a) (last_positions a) (last_offsets a)).
Definition set_last_doc_code (i v : Z) (a : t) : result t :=
  l ← vset (last_doc_codes a) i v; Ok (mk (base a) (term_freqs a) (last_doc_ids a) l (last_positions a) (last_offsets a)).
Definition set_last_position (i v : Z) (a : t) : result t :=
  l ← vset (last_positions a) i v; Ok (mk (base a) (term_freqs a) (last_doc_ids a) (last_doc_codes a) l (last_offsets a)).
Definition set_last_offset (i v : Z) (a : t) : result t :=
  l ← vset (last_offsets a) i v; Ok (mk (base a) (term_freqs a) (last_doc_ids a) (last_doc_codes a) (last_positions a) l).

(** [PostingsBytesStartArray]: the hash keeps the starts of the strings in the array of
    its field. *)
Definition with_text_starts (l : list Z) (a : t) : t :=
  set_base (ParallelPostingsArray.mk (ParallelPostingsArray.size (base a)) l (ParallelPostingsArray.int_starts (base a)) (ParallelPostingsArray.byte_starts (base a))) a.
#[global] Instance postings_bytes_start_array : BytesStartArray t := {|
  bs_bytes a := ParallelPostingsArray.text_starts (base a);
  bs_put a l := with_text_starts l a;
  bs_init a := a;
  bs_grow := grow;
  bs_clear := clear;
|}.
End FreqProxPostingsArray.

(** * Writing *)

Module FreqProxTermsWriterPerField.
Definition HASH_INIT_SIZE : Z := 4.

(** The fields of [TermsHashPerFieldBase] are inlined.  The postings array is the start
    array of the hash: the source keeps it in the base, and the hash a pointer to it. *)
Record t : Type := mk {
  stream_count : Z;
  num_posting_int : Z;
  index_options : IndexOptions.t;
  has_store_payloads : bool;
  bytes_hash : BytesRefHash.t FreqProxPostingsArray.t;
  int_upto_idx : Z;
  int_upto_start : Z;
  has_freq : bool;
  has_prox : bool;
  has_offsets : bool;
  sum_total_term_freq : Z;
  sum_doc_freq : Z;
  doc_count : Z;
  saw_payloads : bool;
}.

(** [new], then [init]. *)
Definition new (index_options : IndexOptions.t) : result t :=
  let stream_count := if IndexOptions.geb index_options IndexOptions.DocsAndFreqsAndPositions then 2 else 1 in
  a ← FreqProxPostingsArray.new 2 (IndexOptions.has_freqs index_options) (IndexOptions.has_positions index_options) (IndexOptions.has_offsets index_options);
  Ok (mk stream_count (2 * stream_count) index_options false (BytesRefHash.new HASH_INIT_SIZE a) 0 0
        (IndexOptions.geb index_options IndexOptions.DocsAndFreqs)
        (IndexOptions.geb index_options IndexOptions.DocsAndFreqsAndPositions)
        (IndexOptions.geb index_options IndexOptions.DocsAndFreqsAndPositionsAndOffsets) 0 0 0 false).

Definition with_hash (h : BytesRefHash.t FreqProxPostingsArray.t) (w : t) : t :=
  mk (stream_count w) (num_posting_int w) (index_options w) (has_store_payloads w) h (int_upto_idx w) (int_upto_start w) (has_freq w) (has_prox w) (has_offsets w)
    (sum_total_term_freq w) (sum_doc_freq w) (doc_count w) (saw_payloads w).
Definition postings_array (w : t) : FreqProxPostingsArray.t := BytesRefHash.bytes_start_array (bytes_hash w).
Definition with_postings_array (a : FreqProxPostingsArray.t) (w : t) : t := with_hash (BytesRefHash.with_start_array a (bytes_hash w)) w.
Definition with_saw_payloads (w : t) : t :=
  mk (stream_count w) (num_posting_int w) (index_options w) (has_store_payloads w) (bytes_hash w) (int_upto_idx w) (int_upto_start w) (has_freq w) (has_prox w) (has_offsets w)
    (sum_total_term_freq w) (sum_doc_freq w) (doc_count w) true.

(** [self.base], as far as the streams go. *)
Definition base (w : t) : TermsHashPerFieldBase.t :=
  TermsHashPerFieldBase.mk (stream_count w) (num_posting_int w) (FreqProxPostingsArray.base (postings_array w)) (int_upto_idx w) (int_upto_start w).
Definition with_base (b : TermsHashPerFieldBase.t) (w : t) : t :=
  mk (TermsHashPerFieldBase.stream_count b) (TermsHashPerFieldBase.num_posting_int b) (index_options w) (has_store_payloads w)
    (BytesRefHash.with_start_array (FreqProxPostingsArray.set_base (TermsHashPerFieldBase.postings_array b) (postings_array w)) (bytes_hash w))
    (TermsHashPerFieldBase.int_upto_idx b) (TermsHashPerFieldBase.int_upto_start b) (has_freq w) (has_prox w) (has_offsets w)
    (sum_total_term_freq w) (sum_doc_freq w) (doc_count w) (saw_payloads w).

Definition write_prox (w : t) (ps : pools) (term_id prox_code : Z) (field_state : FieldInvertState.t) (tok : token) : result (t * pools) :=
  '(w, ps) ←
    match payload tok with
    | Some payload =>
      if negb (vlen payload =? 0) then
        ps ← write_vint (base w) ps 1 (as_i32 (Z.lor (as_u32 (Z.shiftl prox_code 1)) 1));
        ps ← write_vint (base w) ps 1 (as_i32 (vlen payload));
        ps ← write_bytes (base w) ps 1 payload;
        Ok (with_saw_payloads w, ps)
      else ps ← write_vint (base w) ps 1 (as_i32 (as_u32 (Z.shiftl prox_code 1))); Ok (w, ps)
    | None => ps ← write_vint (base w) ps 1 (as_i32 (as_u32 (Z.shiftl prox_code 1))); Ok (w, ps)
    end;
  a ← FreqProxPostingsArray.set_last_position term_id (as_u32 (FieldInvertState.position field_state)) (postings_array w);
  Ok (with_postings_array a w, ps).

Definition write_offsets (w : t) (ps : pools) (term_id offset_accum : Z) (tok : token) : result (t * pools) :=
  let start_offset := as_u32 (offset_accum + start_offset tok) in
  let end_offset := as_u32 (offset_accum + end_offset tok) in
  last ← vget (FreqProxPostingsArray.last_offsets (postings_array w)) term_id;
  let value := as_i32 (as_u32 (start_offset - last)) in
  ps ← write_vint (base w) ps 1 value;
  ps ← write_vint (base w) ps 1 (as_i32 (as_u32 (end_offset - start_offset)));
  a ← FreqProxPostingsArray.set_last_offset term_id start_offset (postings_array w);
  Ok (with_postings_array a w, ps).

(** The position and, when they are indexed, the offsets of a token; the offsets of its
    first occurrence in a document are [absolute]. *)
Definition write_occurrence (w : t) (ps : pools) (term_id code : Z) (absolute : bool) (field_state : FieldInvertState.t) (tok : token) : result (t * pools) :=
  '(w, ps) ← write_prox w ps term_id code field_state tok;
  if has_offsets w then
    a ← (if absolute then FreqProxPostingsArray.set_last_offset term_id 0 (postings_array w) else Ok (postings_array w));
    write_offsets (with_postings_array a w) ps term_id (FieldInvertState.offset field_state) tok
  else Ok (w, ps).

Definition new_term (w : t) (ps : pools) (term_id : Z) (field_state : FieldInvertState.t) (tok : token) (doc_id : Z) : result (t * pools * FieldInvertState.t) :=
  a ← FreqProxPostingsArray.set_last_doc_id term_id doc_id (postings_array w);
  '(w, ps) ←
    (if negb (has_freq w) then
       a ← FreqProxPostingsArray.set_last_doc_code term_id (as_u32 doc_id) a;
       Ok (with_postings_array a w, ps)
     else
       a ← FreqProxPostingsArray.set_last_doc_code term_id (as_u32 (as_i32 (Z.shiftl doc_id 1))) a;
       a ← FreqProxPostingsArray.set_term_freq term_id 1 a;
       let w := with_postings_array a w in
       if has_prox w then write_occurrence w ps term_id (as_u32 (FieldInvertState.position field_state)) false field_state tok
       else if has_offsets w then Panic else Ok (w, ps));
  let field_state := FieldInvertState.with_max_term_frequency (Z.max 1 (FieldInvertState.max_term_frequency field_state)) field_state in
  Ok (w, ps, FieldInvertState.with_unique_term_count (as_u32 (FieldInvertState.unique_term_count field_state + 1)) field_state).

(** The document before the current one, now that its frequency is known. *)
Definition write_doc (w : t) (ps : pools) (term_id : Z) : result pools :=
  freq ← vget (FreqProxPostingsArray.term_freqs (postings_array w)) term_id;
  code ← vget (FreqProxPostingsArray.last_doc_codes (postings_array w)) term_id;
  if freq =? 1 then write_vint (base w) ps 0 (as_i32 (Z.lor code 1))
  else
    ps ← write_vint (base w) ps 0 (as_i32 code);
    write_vint (base w) ps 0 (as_i32 freq).

Definition add_term (w : t) (ps : pools) (term_id : Z) (field_state : FieldInvertState.t) (tok : token) (doc_id : Z) : result (t * pools * FieldInvertState.t) :=
  last_doc ← vget (FreqProxPostingsArray.last_doc_ids (postings_array w)) term_id;
  if negb (has_freq w) then
    if negb (doc_id =? last_doc) then
      v ← vget (FreqProxPostingsArray.last_doc_codes (postings_array w)) term_id;
      ps ← write_vint (base w) ps 0 (as_i32 v);
      a ← FreqProxPostingsArray.set_last_doc_code term_id (as_u32 (as_i32 (doc_id - last_doc))) (postings_array w);
      a ← FreqProxPostingsArray.set_last_doc_id term_id doc_id a;
      Ok (with_postings_array a w, ps, FieldInvertState.with_unique_term_count (as_u32 (FieldInvertState.unique_term_count field_state + 1)) field_state)
    else Ok (w, ps, field_state)
  else if negb (doc_id =? last_doc) then
    ps ← write_doc w ps term_id;
    a ← FreqProxPostingsArray.set_term_freq term_id 1 (postings_array w);
    let field_state := FieldInvertState.with_max_term_frequency (Z.max 1 (FieldInvertState.max_term_frequency field_state)) field_state in
    a ← FreqProxPostingsArray.set_last_doc_code term_id (as_u32 (as_i32 (Z.shiftl (as_i32 (doc_id - last_doc)) 1))) a;
    a ← FreqProxPostingsArray.set_last_doc_id term_id doc_id a;
    let w := with_postings_array a w in
    '(w, ps) ←
      (if has_prox w then write_occurrence w ps term_id (as_u32 (FieldInvertState.position field_state)) true field_state tok
       else Ok (w, ps));
    Ok (w, ps, FieldInvertState.with_unique_term_count (as_u32 (FieldInvertState.unique_term_count field_state + 1)) field_state)
  else
    freq ← vget (FreqProxPostingsArray.term_freqs (postings_array w)) term_id;
    let freq := as_u32 (freq + 1) in
    a ← FreqProxPostingsArray.set_term_freq term_id freq (postings_array w);
    let w := with_postings_array a w in
    let field_state := FieldInvertState.with_max_term_frequency (Z.max (FieldInvertState.max_term_frequency field_state) freq) field_state in
    '(w, ps) ←
      (if has_prox w then
         last ← vget (FreqProxPostingsArray.last_positions (postings_array w)) term_id;
         write_occurrence w ps term_id (as_u32 (as_u32 (FieldInvertState.position field_state) - last)) false field_state tok
       else Ok (w, ps));
    Ok (w, ps, field_state).

Section hash.
Context (hash32 : list Z → Z).

(** [TermsHashPerField::add]; the strings go to the pool of the streams. *)
Definition add (w : t) (ps : pools) (field_state : FieldInvertState.t) (tok : token) (doc_id : Z) : result (t * pools * FieldInvertState.t) :=
  '(term_id, h, bp) ← BytesRefHash.add hash32 (bytes_hash w) (byte_pool ps) (term_bytes tok);
  let w := with_hash h w in
  let ps := Pools (int_pool ps) bp in
  _ ← (if 0 <=? term_id then BytesRefHash.byte_start (bytes_hash w) term_id else Ok 0);
  '(b, ps) ← TermsHashPerFieldBase.add (base w) ps term_id;
  let w := with_base b w in
  if 0 <=? term_id then new_term w ps term_id field_state tok doc_id
  else add_term w ps (- (term_id + 1)) field_state tok doc_id.
End hash.

Definition finish (w : t) (field_state : FieldInvertState.t) : t :=
  mk (stream_count w) (num_posting_int w) (index_options w) (if saw_payloads w then true else has_store_payloads w) (bytes_hash w) (int_upto_idx w) (int_upto_start w)
    (has_freq w) (has_prox w) (has_offsets w) (as_i64 (sum_total_term_freq w + FieldInvertState.length field_state))
    (as_i64 (sum_doc_freq w + FieldInvertState.unique_term_count field_state))
    (if FieldInvertState.length field_state >? 0 then as_u32 (doc_count w + 1) else doc_count w) (saw_payloads w).

Definition sort_postings (w : t) (ps : pools) : result t :=
  h ← BytesRefHash.sort (bytes_hash w) (byte_pool ps); Ok (with_hash h w).

(** [TermsHashPerField::reset] *)
Definition reset (w : t) (ps : pools) : result (t * pools) :=
  '(h, bp) ← BytesRefHash.clear (bytes_hash w) (byte_pool ps) false; Ok (with_hash h w, Pools (int_pool ps) bp).
End FreqProxTermsWriterPerField.

(** * Reading *)

(** Before [reset] the reader points nowhere. *)
Definition no_reader : ByteSliceReader.t := ByteSliceReader.mk ByteBlockPool.default 0 0 0 0 0 0.

(** The writer and its pools are not changed while they are read. *)
Module FreqProxDocsIterator.
Import FreqProxTermsWriterPerField.
Record t : Type := mk {
  reader : ByteSliceReader.t;
  read_term_freq : bool;
  doc_id : Z;
  freq : Z;
  ended : bool;
  term_id : Z;
}.

Definition new (w : FreqProxTermsWriterPerField.t) : t := mk no_reader (has_freq w) (-1) 0 false 0.
Definition reset (w : FreqProxTermsWriterPerField.t) (ps : pools) (term_id : Z) (it : t) : result t :=
  r ← init_reader (base w) ps term_id 0;
  Ok (mk r (read_term_freq it) (-1) (freq it) false term_id).

Definition get_freq (it : t) : result Z := if negb (read_term_freq it) then bail IllegalState else Ok (as_i32 (freq it)).

Definition next (w : FreqProxTermsWriterPerField.t) (it : t) : result (Z * t) :=
  let doc := if doc_id it =? -1 then 0 else doc_id it in
  if ByteSliceReader.eof (reader it) then
    if ended it then Ok (NO_MORE_DOCS, mk (reader it) (read_term_freq it) doc (freq it) (ended it) (term_id it))
    else
      doc ← vget (FreqProxPostingsArray.last_doc_ids (postings_array w)) (term_id it);
      freq ← (if read_term_freq it then vget (FreqProxPostingsArray.term_freqs (postings_array w)) (term_id it) else Ok (freq it));
      Ok (doc, mk (reader it) (read_term_freq it) doc freq true (term_id it))
  else
    '(code, r) ← read_vint (reader it);
    '(doc, freq, r) ←
      (if negb (read_term_freq it) then Ok (as_i32 (doc + code), freq it, r)
       else
         let doc := as_i32 (doc + Z.shiftr code 1) in
         if negb (Z.land code 1 =? 0) then Ok (doc, 1, r)
         else '(f, r) ← read_vint r; Ok (doc, as_u32 f, r));
    Ok (doc, mk r (read_term_freq it) doc freq (ended it) (term_id it)).
End FreqProxDocsIterator.

Module FreqProxPostingsIterator.
Import FreqProxTermsWriterPerField.
Record t : Type := mk {
  reader : ByteSliceReader.t;
  pos_reader : ByteSliceReader.t;
  read_offsets : bool;
  doc_id : Z;
  freq : Z;
  pos : Z;
  start_offset : Z;
  end_offset : Z;
  pos_left : Z;
  term_id : Z;
  ended : bool;
  has_payload : bool;
  payload : list Z;
}.

Definition new (w : FreqProxTermsWriterPerField.t) : t := mk no_reader no_reader (has_offsets w) (-1) 0 0 0 0 0 0 false false [].
Definition reset (w : FreqProxTermsWriterPerField.t) (ps : pools) (term_id : Z) (it : t) : result t :=
  r ← init_reader (base w) ps term_id 0;
  pr ← init_reader (base w) ps term_id 1;
  Ok (mk r pr (read_offsets it) (-1) (freq it) (pos it) (start_offset it) (end_offset it) 0 term_id false (has_payload it) (payload it)).

Definition get_freq (it : t) : result Z := Ok (as_i32 (freq it)).
Definition get_start_offset (it : t) : result Z := if negb (read_offsets it) then bail IllegalState else Ok (start_offset it).
Definition get_end_offset (it : t) : result Z := if negb (read_offsets it) then bail IllegalState else Ok (end_offset it).
Definition get_payload (it : t) : result (list Z) := Ok (payload it).

Definition next_position (it : t) : result (Z * t) :=
  '(code, r) ← read_vint (pos_reader it);
  let p := as_i32 (pos it + Z.shiftr code 1) in
  '(has_payload, payload, r) ←
    (if negb (Z.land code 1 =? 0) then
       '(n, r) ← read_vint r;
       '(bytes, r) ← read_exact r (as_u64 n);
       Ok (true, bytes, r)
     else Ok (false, payload it, r));
  '(start, end_, r) ←
    (if read_offsets it then
       '(v, r) ← read_vint r;
       let start := as_i32 (start_offset it + v) in
       '(v, r) ← read_vint r;
       Ok (start, as_i32 (start + v), r)
     else Ok (start_offset it, end_offset it, r));
  Ok (p, mk (reader it) r (read_offsets it) (doc_id it) (freq it) p start end_ (as_i32 (pos_left it - 1)) (term_id it) (ended it) has_payload payload).

(** The positions of the document that were not read. *)
Definition skip_positions (it : t) : result t :=
  while_fuel (Z.to_nat (pos_left it)) (fun it => negb (pos_left it =? 0)) (fun it => '(_, it) ← next_position it; Ok it) it.

Definition at_doc (it : t) (r : ByteSliceReader.t) (doc freq : Z) (ended : bool) : t :=
  mk r (pos_reader it) (read_offsets it) doc freq 0 0 (end_offset it) (as_i32 freq) (term_id it) ended (has_payload it) (payload it).

Definition next (w : FreqProxTermsWriterPerField.t) (it : t) : result (Z * t) :=
  let doc := if doc_id it =? -1 then 0 else doc_id it in
  it ← skip_positions it;
  if ByteSliceReader.eof (reader it) then
    if ended it then
      Ok (NO_MORE_DOCS, mk (reader it) (pos_reader it) (read_offsets it) doc (freq it) (pos it) (start_offset it) (end_offset it) (pos_left it) (term_id it) (ended it) (has_payload it) (payload it))
    else
      doc ← vget (FreqProxPostingsArray.last_doc_ids (postings_array w)) (term_id it);
      freq ← vget (FreqProxPostingsArray.term_freqs (postings_array w)) (term_id it);
      Ok (doc, at_doc it (reader it) doc freq true)
  else
    '(code, r) ← read_vint (reader it);
    let doc := as_i32 (doc + Z.shiftr code 1) in
    '(freq, r) ← (if negb (Z.land code 1 =? 0) then Ok (1, r) else '(f, r) ← read_vint r; Ok (as_u32 f, r));
    Ok (doc, at_doc it r doc freq (ended it)).
End FreqProxPostingsIterator.

(** [SeekStatus] of src/core/codec/terms.rs *)
Inductive SeekStatus : Type := End_ | Found | NotFound.

Module FreqProxTermsIterator.
Import FreqProxTermsWriterPerField.
Record t : Type := mk { num_terms : Z; ord : Z; scratch : list Z }.

Inductive FreqProxPostingIterEnum : Type :=
  | Postings (it : FreqProxPostingsIterator.t)
  | Docs (it : FreqProxDocsIterator.t).

Section reading.
Context (w : FreqProxTermsWriterPerField.t) (ps : pools).

Definition new : t := mk (BytesRefHash.len (bytes_hash w)) (-1) [].
Definition reset (it : t) : t := mk (num_terms it) (-1) (scratch it).
(** [FreqProxTerms::iterator] *)
Definition iterator : t := reset new.

(** The bytes [set_bytes] stores in the scratch. *)
Definition set_bytes (term_id : Z) : result (list Z) :=
  idx ← vget (BytesRefHash.ids (bytes_hash w)) term_id;
  text_start ← vget (ParallelPostingsArray.text_starts (FreqProxPostingsArray.base (postings_array w))) (as_u64 idx);
  ByteBlockPool.set_bytes_ref (byte_pool ps) text_start.

Definition next (it : t) : result (option (list Z) * t) :=
  let ord := ord it + 1 in
  if ord >=? num_terms it then Ok (None, mk (num_terms it) ord (scratch it))
  else bytes ← set_bytes ord; Ok (Some bytes, mk (num_terms it) ord bytes).

(** The binary search; every round halves [hi - lo]. *)
Fixpoint seek_loop (fuel : nat) (text : list Z) (lo hi : Z) (scratch : list Z) : result (option Z * Z * list Z) :=
  if lo <=? hi then
    match fuel with
    | O => Diverge
    | S fuel =>
      let mid := Z.shiftr (as_i32 (lo + hi)) 1 in
      bytes ← set_bytes (as_u64 mid);
      match lex bytes text with
      | Lt => seek_loop fuel text (as_i32 (mid + 1)) hi bytes
      | Gt => seek_loop fuel text lo (as_i32 (mid - 1)) bytes
      | Eq => Ok (Some mid, lo, bytes)
      end
    end
  else Ok (None, lo, scratch).

Definition seek_ceil (it : t) (text : list Z) : result (SeekStatus * t) :=
  '(found, lo, scratch) ← seek_loop (Z.to_nat (num_terms it)) text 0 (as_i32 (as_i32 (num_terms it) - 1)) (scratch it);
  match found with
  | Some mid => Ok (Found, mk (num_terms it) mid scratch)
  | None =>
    if lo >=? num_terms it then Ok (End_, mk (num_terms it) lo scratch)
    else bytes ← set_bytes lo; Ok (NotFound, mk (num_terms it) lo bytes)
  end.

(** The default of the trait. *)
Definition seek_exact (it : t) (text : list Z) : result (bool * t) :=
  '(status, it) ← seek_ceil it text;
  Ok (match status with Found => true | _ => false end, it).

Definition seek_exact_ord (it : t) (ord : Z) : result t :=
  bytes ← set_bytes ord; Ok (mk (num_terms it) ord bytes).

Definition term (it : t) : list Z := scratch it.

(** The id of the current term. *)
Definition term_id (it : t) : result Z := id ← vget (BytesRefHash.ids (bytes_hash w)) (as_u64 (ord it)); Ok (as_u64 id).

Definition postings_with_flags (it : t) (flags : Z) : result FreqProxPostingIterEnum :=
  if PostingIteratorFlags.feature_requested flags PostingIteratorFlags.POSITIONS then
    if negb (has_prox w) then bail IllegalArgument
    else if negb (has_offsets w) && PostingIteratorFlags.feature_requested flags PostingIteratorFlags.OFFSETS then bail IllegalArgument
    else
      id ← term_id it;
      it ← FreqProxPostingsIterator.reset w ps id (FreqProxPostingsIterator.new w);
      Ok (Postings it)
  else if negb (has_freq w) && PostingIteratorFlags.feature_requested flags PostingIteratorFlags.FREQS then bail IllegalArgument
  else
    id ← term_id it;
    it ← FreqProxDocsIterator.reset w ps id (FreqProxDocsIterator.new w);
    Ok (Docs it).
End reading.

(** [DocIterator::next] of [FreqProxPostingIterEnum] *)
Definition enum_next (w : FreqProxTermsWriterPerField.t) (it : FreqProxPostingIterEnum) : result (Z * FreqProxPostingIterEnum) :=
  match it with
  | Postings it => '(doc, it) ← FreqProxPostingsIterator.next w it; Ok (doc, Postings it)
  | Docs it => '(doc, it) ← FreqProxDocsIterator.next w it; Ok (doc, Docs it)
  end.
End FreqProxTermsIterator.

(** * Documents: src/core/index/writer/doc_consumer.rs *)

(** The tokens of a stream, and what its attributes say after [end]. *)
Record token_stream : Type := TokenStream { tokens : list token; end_position : Z; final_offset : Z }.

Module PerField.
Import FieldInvertState.
Definition INDEX_MAX_POSITION : Z := 2147483519.

Record t : Type := mk { invert_state : FieldInvertState.t; term_hash_per_field : FreqProxTermsWriterPerField.t; field_gen : Z }.

Definition new (index_options : IndexOptions.t) : result t :=
  w ← FreqProxTermsWriterPerField.new index_options; Ok (mk FieldInvertState.with_name w (-1)).

(** The checks of a token, and the state of the field before its term is added. *)
Definition check_token (check_offset : bool) (tok : token) (s : FieldInvertState.t) : result FieldInvertState.t :=
  let pos := as_i32 (position s + as_i32 (pos_incr tok)) in
  if pos <? last_position s then bail IllegalArgument
  else if pos >? INDEX_MAX_POSITION then bail IllegalArgument
  else
    let num_overlap := if pos_incr tok =? 0 then as_i32 (num_overlap s + 1) else num_overlap s in
    last_start ←
      (if (check_offset : bool) then
         let start := as_u64 (offset s + start_offset tok) in
         let end_ := as_u64 (offset s + end_offset tok) in
         if (as_i32 start <? last_start_offset s) || (end_ <? start) then bail IllegalArgument else Ok (as_i32 start)
       else Ok (last_start_offset s));
    let length := as_i32 (length s + 1) in
    if length <? 0 then bail IllegalArgument
    else Ok (FieldInvertState.mk pos length num_overlap (offset s) (max_term_frequency s) (unique_term_count s) last_start pos).

Section hash.
Context (hash32 : list Z → Z).

(** The descriptions of the field that [invert] updates are left out. *)
Definition invert (pf : t) (ps : pools) (index_options : IndexOptions.t) (stream : token_stream) (doc_id : Z) (first : bool) : result (t * pools) :=
  let s := if first then reset (invert_state pf) else invert_state pf in
  let check_offset := match index_options with IndexOptions.DocsAndFreqsAndPositionsAndOffsets => true | _ => false end in
  '(w, ps, s) ← for_each (tokens stream) (fun tok '(w, ps, s) =>
    s ← check_token check_offset tok s;
    FreqProxTermsWriterPerField.add hash32 w ps s tok doc_id) (term_hash_per_field pf, ps, s);
  let s := FieldInvertState.mk (as_i32 (position s + as_i32 (end_position stream))) (length s) (num_overlap s) (as_u64 (offset s + final_offset stream))
             (max_term_frequency s) (unique_term_count s) (last_start_offset s) (last_position s) in
  Ok (mk s w (field_gen pf), ps).
End hash.

(** The norms are left out. *)
Definition finish (pf : t) : t := mk (invert_state pf) (FreqProxTermsWriterPerField.finish (term_hash_per_field pf) (invert_state pf)) (field_gen pf).
Definition with_field_gen (gen : Z) (pf : t) : t := mk (invert_state pf) (term_hash_per_field pf) gen.
End PerField.

(** The fields of a segment, as far as they are inverted.  A field of a document names the
    [PerField] it belongs to, which [get_or_add_field] finds by its name. *)
Record doc_field : Type := DocField { field_idx : Z; field_options : IndexOptions.t; field_tokens : token_stream }.

Module DocConsumer.
Record t : Type := mk { field_hash : list PerField.t; fields : list Z; next_field_gen : Z; terms_hash : pools }.

Definition new (field_hash : list PerField.t) (ps : pools) : t := mk field_hash [] 0 ps.

Section hash.
Context (hash32 : list Z → Z).

Definition process_field (c : t) (field : doc_field) (doc_id field_gen field_count : Z) : result (t * Z) :=
  match field_options field with
  | IndexOptions.Null => Ok (c, field_count)
  | options =>
    let idx := field_idx field in
    pf ← vget (field_hash c) idx;
    let first := negb (PerField.field_gen pf =? field_gen) in
    '(pf, ps) ← PerField.invert hash32 pf (terms_hash c) options (field_tokens field) doc_id first;
    h ← vset (field_hash c) idx (if first then PerField.with_field_gen field_gen pf else pf);
    Ok (mk h (if first then fields c ++ [idx] else fields c) (next_field_gen c) ps, if first then field_count + 1 else field_count)
  end.

Definition finish_field (i : Z) (c : t) : result t :=
  idx ← vget (fields c) i;
  pf ← vget (field_hash c) idx;
  h ← vset (field_hash c) idx (PerField.finish pf);
  Ok (mk h (fields c) (next_field_gen c) (terms_hash c)).

(** Stored fields, doc values and points are left out. *)
Definition process_document (c : t) (doc_id : Z) (doc : list doc_field) : result t :=
  let field_gen := next_field_gen c in
  let c := mk (field_hash c) [] (as_i64 (field_gen + 1)) (terms_hash c) in
  '(c, field_count) ← for_each doc (fun field '(c, field_count) => process_field c field doc_id field_gen field_count) (c, 0);
  for_range 0 field_count finish_field c.
End hash.
End DocConsumer.
