(* ===== verification/PostingsSpec.v ===== *)
(** The postings of a term, and the two streams that hold them.

    The postings are the documents with the term, in order, each with its occurrences.
    All documents but the last are in the first stream, as gaps with frequencies; the
    occurrences of all documents are in the second one, as gaps within a document. *)

From S2P Require Import Prelude DataIO DataIOFacts BytePool PackedArrayFacts FreqProx.
Open Scope Z_scope.

(** One occurrence; no payload is an empty one. *)
Record occ : Type := Occ { o_pos : Z; o_payload : list Z; o_start : Z; o_end : Z }.

(** The earlier documents and the last one. *)
Definition postings : Type := list (Z * list occ) * (Z * list occ).
Definition all_docs (p : postings) : list (Z * list occ) := p.1 ++ [p.2].

Definition first_posting (doc : Z) (o : occ) : postings := ([], (doc, [o])).
Definition add_posting (doc : Z) (o : occ) (p : postings) : postings :=
  if doc =? p.2.1 then (p.1, (doc, p.2.2 ++ [o])) else (p.1 ++ [p.2], (doc, [o])).

(** * The bytes *)

Definition vi (v : Z) : list Z := vbytes 4 v.

Definition last_pos (d : Z) (os : list occ) : Z := match list.last os with Some o => o_pos o | None => d end.
Definition last_start (d : Z) (os : list occ) : Z := match list.last os with Some o => o_start o | None => d end.
Definition last_doc (d : Z) (l : list (Z * list occ)) : Z := match list.last l with Some x => x.1 | None => d end.

Definition prox_bytes (lp : Z) (o : occ) : list Z :=
  match o_payload o with
  | [] => vi (2 * (o_pos o - lp))
  | _ => vi (2 * (o_pos o - lp) + 1) ++ vi (vlen (o_payload o)) ++ o_payload o
  end.
Definition offset_bytes (ls : Z) (o : occ) : list Z := vi (o_start o - ls) ++ vi (o_end o - o_start o).
Definition occ_bytes (off : bool) (lp ls : Z) (o : occ) : list Z := prox_bytes lp o ++ if off then offset_bytes ls o else [].

Fixpoint occs_bytes (off : bool) (lp ls : Z) (os : list occ) : list Z :=
  match os with
  | [] => []
  | o :: os => occ_bytes off lp ls o ++ occs_bytes off (o_pos o) (o_start o) os
  end.
Fixpoint all_occs_bytes (off : bool) (l : list (Z * list occ)) : list Z :=
  match l with
  | [] => []
  | (_, os) :: l => occs_bytes off 0 0 os ++ all_occs_bytes off l
  end.

Definition doc_bytes (fr : bool) (gap n : Z) : list Z :=
  if fr then if n =? 1 then vi (2 * gap + 1) else vi (2 * gap) ++ vi n else vi gap.
Fixpoint docs_bytes (fr : bool) (base : Z) (l : list (Z * list occ)) : list Z :=
  match l with
  | [] => []
  | (d, os) :: l => doc_bytes fr (d - base) (vlen os) ++ docs_bytes fr d l
  end.

Section options.
Context (o : IndexOptions.t).
Definition fr : bool := IndexOptions.has_freqs o.
Definition pr : bool := IndexOptions.has_positions o.
Definition off : bool := IndexOptions.has_offsets o.

Definition streams (p : postings) : list (list Z) :=
  docs_bytes fr 0 p.1 :: if pr then [all_occs_bytes off (all_docs p)] else [].
End options.

(** ** Appending *)

Lemma last_pos_snoc d os o : last_pos d (os ++ [o]) = o_pos o.
Proof. unfold last_pos. by rewrite last_snoc. Qed.
Lemma last_start_snoc d os o : last_start d (os ++ [o]) = o_start o.
Proof. unfold last_start. by rewrite last_snoc. Qed.
Lemma last_doc_snoc d l x : last_doc d (l ++ [x]) = x.1.
Proof. unfold last_doc. by rewrite last_snoc. Qed.

Lemma last_pos_cons d o os : last_pos d (o :: os) = last_pos (o_pos o) os.
Proof. unfold last_pos. rewrite last_cons. by destruct (list.last os). Qed.
Lemma last_start_cons d o os : last_start d (o :: os) = last_start (o_start o) os.
Proof. unfold last_start. rewrite last_cons. by destruct (list.last os). Qed.
Lemma last_doc_cons d x l : last_doc d (x :: l) = last_doc x.1 l.
Proof. unfold last_doc. rewrite last_cons. by destruct (list.last l). Qed.

Lemma occs_bytes_snoc off os o : ∀ lp ls, occs_bytes off lp ls (os ++ [o]) = occs_bytes off lp ls os ++ occ_bytes off (last_pos lp os) (last_start ls os) o.
Proof.
  induction os as [|o0 os IH]; intros lp ls; cbn [app occs_bytes]; [by rewrite app_nil_r|]. rewrite IH, last_pos_cons, last_start_cons. by rewrite app_assoc.
Qed.

Lemma docs_bytes_snoc fr d os l : ∀ base, docs_bytes fr base (l ++ [(d, os)]) = docs_bytes fr base l ++ doc_bytes fr (d - last_doc base l) (vlen os).
Proof.
  induction l as [|[d0 os0] l IH]; intros base; cbn [app docs_bytes]; [by rewrite app_nil_r|]. rewrite IH, last_doc_cons. by rewrite app_assoc.
Qed.

Lemma all_occs_app off l k : all_occs_bytes off (l ++ k) = all_occs_bytes off l ++ all_occs_bytes off k.
Proof. induction l as [|[d os] l IH]; [done|]. cbn [app all_occs_bytes]. rewrite IH. by rewrite app_assoc. Qed.

(** What an occurrence adds to the streams. *)
Lemma streams_same_doc opt prev d os o : streams opt (prev, (d, os ++ [o])) =
  docs_bytes (fr opt) 0 prev :: if pr opt then [all_occs_bytes (off opt) (all_docs (prev, (d, os))) ++ occ_bytes (off opt) (last_pos 0 os) (last_start 0 os) o] else [].
Proof.
  unfold streams, all_docs. cbn [fst snd]. do 2 f_equal. rewrite !all_occs_app. cbn [all_occs_bytes]. rewrite !app_nil_r, occs_bytes_snoc. by rewrite app_assoc.
Qed.

Lemma streams_new_doc opt prev d os doc o : streams opt (prev ++ [(d, os)], (doc, [o])) =
  (docs_bytes (fr opt) 0 prev ++ doc_bytes (fr opt) (d - last_doc 0 prev) (vlen os)) ::
  if pr opt then [all_occs_bytes (off opt) (all_docs (prev, (d, os))) ++ occ_bytes (off opt) 0 0 o] else [].
Proof.
  unfold streams, all_docs. cbn [fst snd]. rewrite docs_bytes_snoc. do 2 f_equal. rewrite (all_occs_app _ (prev ++ [(d, os)])). cbn [all_occs_bytes occs_bytes]. by rewrite !app_nil_r.
Qed.

(** * Well-formed postings *)

Fixpoint occs_ok (off : bool) (lp ls : Z) (os : list occ) : Prop :=
  match os with
  | [] => True
  | o :: os => lp ≤ o_pos o < 2 ^ 30 ∧ vlen (o_payload o) < 2 ^ 30 ∧ (off = true → ls ≤ o_start o ≤ o_end o ∧ o_end o < 2 ^ 31) ∧ occs_ok off (o_pos o) (o_start o) os
  end.

(** An occurrence that may follow those with the last position [lp] and offset [ls]. *)
Definition occ_follows (off : bool) (lp ls : Z) (o : occ) : Prop := occs_ok off lp ls [o].

Lemma occs_ok_snoc off os o : ∀ lp ls, occs_ok off lp ls os → occ_follows off (last_pos lp os) (last_start ls os) o → occs_ok off lp ls (os ++ [o]).
Proof.
  induction os as [|o0 os IH]; intros lp ls; cbn [app occs_ok]; [done|]. rewrite last_pos_cons, last_start_cons. intros (H1 & H2 & H3 & H4) Ho. split_and!; try done; try lia. by apply IH.
Qed.

Definition doc_ok (opt : IndexOptions.t) (x : Z * list occ) : Prop :=
  x.2 ≠ [] ∧ vlen x.2 < 2 ^ 31 ∧ (pr opt = true → occs_ok (off opt) 0 0 x.2).

Fixpoint docs_ok (opt : IndexOptions.t) (base : Z) (l : list (Z * list occ)) : Prop :=
  match l with
  | [] => True
  | x :: l => base ≤ x.1 < 2 ^ 30 ∧ doc_ok opt x ∧ docs_ok opt (x.1 + 1) l
  end.

Definition postings_ok (opt : IndexOptions.t) (p : postings) : Prop := docs_ok opt 0 (all_docs p).

Lemma docs_ok_snoc opt x l : ∀ base, docs_ok opt base (l ++ [x]) ↔ docs_ok opt base l ∧ docs_ok opt (last_doc (base - 1) l + 1) [x].
Proof.
  induction l as [|y l IH]; intros base; cbn [app docs_ok].
  - unfold last_doc. cbn. replace (base - 1 + 1) with base by lia. tauto.
  - rewrite IH, last_doc_cons. replace (y.1 + 1 - 1) with y.1 by lia. cbn [docs_ok]. tauto.
Qed.

Lemma docs_ok_mono opt l b b' : docs_ok opt b l → b' ≤ b → docs_ok opt b' l.
Proof. destruct l as [|x l]; [done|]. intros (H1 & H2) Hb. split; [lia|done]. Qed.
