(* ===== verification/FreqProxFacts.v ===== *)
(** What the writer of a field does to its streams and arrays: every token appends the
    bytes of its occurrence, and every new document those of the one before it. *)

From stdpp Require Import gmap.
From S2P Require Import Prelude DataIO DataIOFacts PackedBulkFacts PackedArrayFacts BytePool BytePoolFacts PoolFacts TermsHashFacts BytesRefHash FreqProx PostingsSpec.
Open Scope Z_scope.
Import TermsHashPerFieldBase FreqProxTermsWriterPerField.
Module A := FreqProxPostingsArray.

(** The occurrence a token stands for. *)
Definition occ_of (st : FieldInvertState.t) (tok : token) : occ :=
  Occ (FieldInvertState.position st) (default [] (payload tok)) (FieldInvertState.offset st + start_offset tok) (FieldInvertState.offset st + end_offset tok).

(** * Codes *)

Lemma twice_code x : 0 ≤ x < 2 ^ 30 →
  as_i32 (as_u32 (Z.shiftl x 1)) = 2 * x ∧ as_i32 (Z.lor (as_u32 (Z.shiftl x 1)) 1) = 2 * x + 1 ∧ as_u32 (as_i32 (Z.shiftl x 1)) = 2 * x.
Proof.
  intros Hx. assert (Z.shiftl x 1 = 2 * x) as E by (rewrite Z.shiftl_mul_pow2 by lia; lia).
  assert (Z.lor (Z.shiftl x 1) 1 = 2 * x + 1) as E1 by (rewrite lor_add_disjoint by (try lia; unfold is_u; lia); lia).
  rewrite (as_u_id 32 (Z.shiftl x 1)) by (unfold is_u; lia). rewrite E1, E, !as_i_id by (try lia; unfold is_i; lia). by rewrite as_u_id by (unfold is_u; lia).
Qed.

Lemma odd_code x : 0 ≤ x < 2 ^ 30 → as_i32 (Z.lor (2 * x) 1) = 2 * x + 1.
Proof.
  intros Hx. assert (Z.lor (2 * x) 1 = 2 * x + 1) as ->; [|by apply as_i_id; [|unfold is_i; lia]].
  assert (2 * x = Z.shiftl x 1) as E by (rewrite Z.shiftl_mul_pow2 by lia; lia). rewrite E at 1. rewrite lor_add_disjoint by (try lia; unfold is_u; lia). lia.
Qed.

(** * The arrays *)

(** The sizes of the arrays: those that are not used are empty. *)
Record sized_array (opt : IndexOptions.t) (a : A.t) (cap : Z) : Prop := {
  sa_docs : vlen (A.last_doc_ids a) = cap;
  sa_codes : vlen (A.last_doc_codes a) = cap;
  sa_freqs : vlen (A.term_freqs a) = if fr opt then cap else 0;
  sa_positions : vlen (A.last_positions a) = if pr opt then cap else 0;
  sa_offsets : vlen (A.last_offsets a) = if off opt then cap else 0;
}.

(** The cells of a term that has the postings [p]. *)
Record cell (opt : IndexOptions.t) (a : A.t) (i : Z) (p : postings) : Prop := {
  ce_doc : nthz (A.last_doc_ids a) i = p.2.1;
  ce_code : nthz (A.last_doc_codes a) i = (if fr opt then 2 else 1) * (p.2.1 - last_doc 0 p.1);
  ce_freq : fr opt = true → nthz (A.term_freqs a) i = vlen p.2.2;
  ce_pos : pr opt = true → nthz (A.last_positions a) i = last_pos 0 p.2.2;
  ce_off : off opt = true → nthz (A.last_offsets a) i = last_start 0 p.2.2;
}.

(** Only the cells of one term differ. *)
Record touched (i : Z) (a a' : A.t) : Prop := {
  to_base : A.base a' = A.base a;
  to_docs : ∀ j, 0 ≤ j → j ≠ i → nthz (A.last_doc_ids a') j = nthz (A.last_doc_ids a) j;
  to_codes : ∀ j, 0 ≤ j → j ≠ i → nthz (A.last_doc_codes a') j = nthz (A.last_doc_codes a) j;
  to_freqs : ∀ j, 0 ≤ j → j ≠ i → nthz (A.term_freqs a') j = nthz (A.term_freqs a) j;
  to_positions : ∀ j, 0 ≤ j → j ≠ i → nthz (A.last_positions a') j = nthz (A.last_positions a) j;
  to_offsets : ∀ j, 0 ≤ j → j ≠ i → nthz (A.last_offsets a') j = nthz (A.last_offsets a) j;
}.

Lemma touched_cell opt i a a' j p : touched i a a' → 0 ≤ j → j ≠ i → cell opt a j p → cell opt a' j p.
Proof. intros [T0 T1 T2 T3 T4 T5] Hj Hne [C1 C2 C3 C4 C5]. split; [rewrite T1|rewrite T2|rewrite T3|rewrite T4|rewrite T5]; done. Qed.

Lemma nthz_insert_any (l : list Z) (i j v : Z) : 0 ≤ i → 0 ≤ j → nthz (<[Z.to_nat i := v]> l) j = if decide (j = i ∧ i < vlen l) then v else nthz l j.
Proof.
  intros Hi Hj. unfold nthz. case_decide as E.
  - destruct E as [-> E]. rewrite list_lookup_insert_eq; [done|]. unfold vlen in E. lia.
  - destruct (decide (j = i)) as [->|Hne]; [|by rewrite list_lookup_insert_ne by lia]. rewrite list_insert_ge; [done|]. unfold vlen in E. lia.
Qed.
Lemma nthz_insert_eq (l : list Z) (i v : Z) : 0 ≤ i < vlen l → nthz (<[Z.to_nat i := v]> l) i = v.
Proof. intros Hi. rewrite nthz_insert_any by lia. by rewrite decide_True by lia. Qed.
Lemma nthz_insert_ne (l : list Z) (i j v : Z) : 0 ≤ i → 0 ≤ j → j ≠ i → nthz (<[Z.to_nat i := v]> l) j = nthz l j.
Proof. intros Hi Hj Hne. rewrite nthz_insert_any by lia. by rewrite decide_False by lia. Qed.

(** What the options of a field say of its writer. *)
Record options_ok (opt : IndexOptions.t) (w : t) : Prop := {
  oo_freq : has_freq w = fr opt;
  oo_prox : has_prox w = pr opt;
  oo_offsets : has_offsets w = off opt;
}.
Lemma prox_has_freqs opt : pr opt = true → fr opt = true.
Proof. by destruct opt. Qed.
Lemma offsets_have_prox opt : off opt = true → pr opt = true.
Proof. by destruct opt. Qed.

(** A writer that differs in the cells of one term, and in that it saw a payload. *)
Definition rewrites (i : Z) (w w' : t) : Prop :=
  ∃ a' (saw : bool), w' = with_postings_array a' (if saw then with_saw_payloads w else w) ∧ touched i (postings_array w) a'.

(** The state of the field, but for its statistics. *)
Definition same_place (st st' : FieldInvertState.t) : Prop :=
  FieldInvertState.position st' = FieldInvertState.position st ∧ FieldInvertState.length st' = FieldInvertState.length st ∧
  FieldInvertState.offset st' = FieldInvertState.offset st ∧ FieldInvertState.last_start_offset st' = FieldInvertState.last_start_offset st ∧
  FieldInvertState.last_position st' = FieldInvertState.last_position st.

(** The last position and offset of a document. *)
Lemma occs_ok_last ofs os : ∀ lp ls, occs_ok ofs lp ls os → 0 ≤ lp → 0 ≤ last_pos lp os ∧ (ofs = true → 0 ≤ ls → 0 ≤ last_start ls os).
Proof.
  induction os as [|o os IH]; intros lp ls; [done|]. intros (H1 & _ & H3 & H4) Hlp. rewrite last_pos_cons, last_start_cons. destruct (IH _ _ H4) as [I1 I2]; [lia|]. split; [done|].
  intros E Hls. specialize (H3 E). apply I2; [done|lia].
Qed.

Lemma docs_ok_last opt l : ∀ base, docs_ok opt base l → ∀ x, list.last l = Some x → base ≤ x.1.
Proof.
  induction l as [|y l IH]; intros base; [done|]. intros (H1 & _ & H3) x. rewrite last_cons. destruct (list.last l) as [z|] eqn:E; [|intros [= ->]; lia]. intros [= <-]. pose proof (IH _ H3 z eq_refl). lia.
Qed.

(** * Writing to the streams of one term *)

Section writing.
Context (scs : list Z) (fds : list TermsHashPerFieldBase.t) (f term : Z) (b : TermsHashPerFieldBase.t) (s0 : spec) (iown : Z → option key).
Context (Hf : 0 ≤ f) (Hb : fds !! Z.to_nat f = Some b) (Hcur : current s0 !! f = Some term).
#[local] Set Default Proof Using "Type*".

(** The term has the streams [ss], and it is the current one. *)
Definition with_streams (ss : list (list Z)) : spec := Spec (caps s0) (<[(f, term) := ss]> (terms s0)) (current s0).
Definition writing (ps : pools) (ss : list (list Z)) (T : Z) (own : Z → option key) : Prop := inv scs (State fds ps) (with_streams ss) T own iown.

Lemma bytes_step ps ss T own i bs data : writing ps ss T own → T + 120 * vlen data ≤ LIMIT → 0 ≤ i → ss !! Z.to_nat i = Some bs →
  ∃ ps' own', write_bytes b ps i data = Ok ps' ∧ writing ps' (<[Z.to_nat i := bs ++ data]> ss) (T + 120 * vlen data) own' ∧ keeps own own' ps ps'.
Proof.
  intros Hw HT Hi Hs. apply (write_bytes_inv scs f b i data (State fds ps) (with_streams ss) T own iown); try done.
  unfold append_stream. rewrite decide_True by done. cbn [with_streams current terms caps]. rewrite Hcur, lookup_insert_eq, Hs, insert_insert_eq. done.
Qed.

Lemma vint_step ps ss T own i bs v : writing ps ss T own → T + 600 ≤ LIMIT → 0 ≤ i → ss !! Z.to_nat i = Some bs → 0 ≤ v < 2 ^ 31 →
  ∃ ps' own', write_vint b ps i v = Ok ps' ∧ writing ps' (<[Z.to_nat i := bs ++ vi v]> ss) (T + 600) own' ∧ keeps own own' ps ps'.
Proof.
  intros Hw HT Hi Hs Hv. rewrite write_vint_bytes by (unfold is_i; lia). rewrite as_u_id by (unfold is_u; lia). pose proof (vbytes_length 4 v) as Hl.
  destruct (bytes_step ps ss T own i bs (vi v) Hw) as (ps' & own' & E & Hw' & K); try done; [unfold vi, vlen; lia|]. exists ps', own'. split_and!; try done.
  apply (inv_mono _ _ _ _ _ _ _ Hw'). unfold vi, vlen. lia.
Qed.

(** The first stream, and the second one. *)
Lemma vint_step0 ps b0 rest T own v : writing ps (b0 :: rest) T own → T + 600 ≤ LIMIT → 0 ≤ v < 2 ^ 31 →
  ∃ ps' own', write_vint b ps 0 v = Ok ps' ∧ writing ps' ((b0 ++ vi v) :: rest) (T + 600) own' ∧ keeps own own' ps ps'.
Proof. intros Hw HT Hv. by apply (vint_step ps (b0 :: rest) T own 0 b0). Qed.
Lemma vint_step1 ps b0 b1 T own v : writing ps [b0; b1] T own → T + 600 ≤ LIMIT → 0 ≤ v < 2 ^ 31 →
  ∃ ps' own', write_vint b ps 1 v = Ok ps' ∧ writing ps' [b0; b1 ++ vi v] (T + 600) own' ∧ keeps own own' ps ps'.
Proof. intros Hw HT Hv. by apply (vint_step ps [b0; b1] T own 1 b1). Qed.
Lemma bytes_step1 ps b0 b1 T own data : writing ps [b0; b1] T own → T + 120 * vlen data ≤ LIMIT →
  ∃ ps' own', write_bytes b ps 1 data = Ok ps' ∧ writing ps' [b0; b1 ++ data] (T + 120 * vlen data) own' ∧ keeps own own' ps ps'.
Proof. intros Hw HT. by apply (bytes_step ps [b0; b1] T own 1 b1). Qed.

(** ** Positions and offsets *)

Definition set_position (i : Z) (v : Z) (a : A.t) : A.t :=
  A.mk (A.base a) (A.term_freqs a) (A.last_doc_ids a) (A.last_doc_codes a) (<[Z.to_nat i := v]> (A.last_positions a)) (A.last_offsets a).
Definition set_offset (i : Z) (v : Z) (a : A.t) : A.t :=
  A.mk (A.base a) (A.term_freqs a) (A.last_doc_ids a) (A.last_doc_codes a) (A.last_positions a) (<[Z.to_nat i := v]> (A.last_offsets a)).
Definition mark_payload (o : occ) (w : t) : t := if vlen (o_payload o) =? 0 then w else with_saw_payloads w.

Lemma write_prox_spec w ps b0 b1 T own i lp code st tok : let o := occ_of st tok in
  base w = b → writing ps [b0; b1] T own → 0 ≤ i < vlen (A.last_positions (postings_array w)) → 0 ≤ lp ≤ o_pos o → o_pos o < 2 ^ 30 → vlen (o_payload o) < 2 ^ 30 → code = o_pos o - lp →
  T + 1200 + 120 * vlen (o_payload o) ≤ LIMIT →
  ∃ ps' own', write_prox w ps i code st tok = Ok (with_postings_array (set_position i (o_pos o) (postings_array w)) (mark_payload o w), ps') ∧
    writing ps' [b0; b1 ++ prox_bytes lp o] (T + 1200 + 120 * vlen (o_payload o)) own' ∧ keeps own own' ps ps'.
Proof.
  intros o Hbase Hw Hi Hlp Hpos Hpay -> HT. pose proof (vlen_nonneg (o_payload o)) as Hp0. destruct (twice_code (o_pos o - lp)) as (C1 & C2 & _); [lia|]. unfold write_prox. rewrite Hbase.
  assert (∀ w', postings_array w' = postings_array w → A.set_last_position i (as_u32 (FieldInvertState.position st)) (postings_array w') = Ok (set_position i (o_pos o) (postings_array w))) as Hset.
  { intros w' ->. unfold A.set_last_position. change (FieldInvertState.position st) with (o_pos o). rewrite (as_u_id 32 (o_pos o)) by (unfold is_u; lia). by rewrite vset_in. }
  destruct (decide (o_payload o = [])) as [En|En].
  - assert (vlen (o_payload o) = 0) as En0 by (by rewrite En). destruct (vint_step1 ps b0 b1 T own (2 * (o_pos o - lp)) Hw) as (ps' & own' & E & Hw' & K); try done; try lia.
    rewrite C1, E. exists ps', own'. unfold mark_payload, prox_bytes. rewrite En. change (vlen (@nil Z)) with 0. cbn [Z.eqb]. split.
    + unfold o, occ_of in En. cbn [o_payload] in En. destruct (payload tok) as [pl|]; [cbn in En; subst pl; change (vlen (@nil Z)) with 0; cbn [Z.eqb negb]|]; cbn [mbind result_bind]; by rewrite Hset.
    + split; [|done]. apply (inv_mono _ _ _ _ _ _ _ Hw'). lia.
  - assert (vlen (o_payload o) ≠ 0) as En0 by (destruct (o_payload o); [done|]; rewrite vlen_cons; pose proof (vlen_nonneg l); lia).
    assert (payload tok = Some (o_payload o)) as -> by (unfold o, occ_of in *; cbn [o_payload] in *; by destruct (payload tok)). rewrite (proj2 (Z.eqb_neq _ _) En0). cbn [negb]. rewrite C2.
    destruct (vint_step1 ps b0 b1 T own (2 * (o_pos o - lp) + 1) Hw) as (ps1 & own1 & -> & Hw1 & K1); try done; try lia. cbn [mbind result_bind]. rewrite as_i_id by (try lia; unfold is_i; lia).
    destruct (vint_step1 ps1 _ _ _ own1 (vlen (o_payload o)) Hw1) as (ps2 & own2 & -> & Hw2 & K2); try done; try lia. cbn [mbind result_bind].
    destruct (bytes_step1 ps2 _ _ _ own2 (o_payload o) Hw2) as (ps3 & own3 & -> & Hw3 & K3); try done; try lia. cbn [mbind result_bind]. rewrite Hset by done. cbn [mbind result_bind].
    exists ps3, own3. unfold mark_payload. rewrite (proj2 (Z.eqb_neq _ _) En0). split; [done|]. split; [|by apply (keeps_trans _ own1 _ _ ps1); [|apply (keeps_trans _ own2 _ _ ps2)]].
    apply (inv_mono _ _ _ _ (T + 1200 + 120 * vlen (o_payload o))) in Hw3; [|lia]. unfold prox_bytes. destruct (o_payload o) as [|x l] eqn:Eo; [done|]. by rewrite <- !app_assoc in Hw3.
Qed.
Lemma write_offsets_spec w ps b0 b1 T own i ls st tok : let o := occ_of st tok in
  base w = b → writing ps [b0; b1] T own → 0 ≤ i < vlen (A.last_offsets (postings_array w)) → nthz (A.last_offsets (postings_array w)) i = ls → 0 ≤ ls ≤ o_start o → o_start o ≤ o_end o < 2 ^ 31 →
  T + 1200 ≤ LIMIT →
  ∃ ps' own', write_offsets w ps i (FieldInvertState.offset st) tok = Ok (with_postings_array (set_offset i (o_start o) (postings_array w)) w, ps') ∧
    writing ps' [b0; b1 ++ offset_bytes ls o] (T + 1200) own' ∧ keeps own own' ps ps'.
Proof.
  intros o Hbase Hw Hi Hls Hs He HT. unfold write_offsets. rewrite Hbase, vget_nthz, Hls by done. cbn [mbind result_bind].
  change (FieldInvertState.offset st + start_offset tok) with (o_start o). change (FieldInvertState.offset st + end_offset tok) with (o_end o).
  rewrite (as_u_id 32 (o_start o)), (as_u_id 32 (o_end o)), (as_u_id 32 (o_start o - ls)), (as_u_id 32 (o_end o - o_start o)) by (unfold is_u; lia). rewrite !as_i_id by (try lia; unfold is_i; lia).
  destruct (vint_step1 ps b0 b1 T own (o_start o - ls) Hw) as (ps1 & own1 & -> & Hw1 & K1); [lia..|]. cbn [mbind result_bind].
  destruct (vint_step1 ps1 b0 _ _ own1 (o_end o - o_start o) Hw1) as (ps2 & own2 & -> & Hw2 & K2); [lia..|]. cbn [mbind result_bind]. unfold A.set_last_offset. rewrite vset_in by done. cbn [mbind result_bind].
  exists ps2, own2. split; [done|]. split; [|by apply (keeps_trans _ own1 _ _ ps1)]. unfold offset_bytes. rewrite app_assoc. apply (inv_mono _ _ _ _ _ _ _ Hw2). lia.
Qed.

(** The arrays after an occurrence. *)
Definition occ_array (ofs : bool) (i : Z) (o : occ) (a : A.t) : A.t :=
  let a := set_position i (o_pos o) a in if ofs then set_offset i (o_start o) a else a.

Lemma with_arrays a a' w : with_postings_array a' (with_postings_array a w) = with_postings_array a' w.
Proof. done. Qed.

Lemma write_occurrence_spec w ps b0 b1 T own i lp ls code absolute st tok : let o := occ_of st tok in
  base w = b → writing ps [b0; b1] T own → 0 ≤ i < vlen (A.last_positions (postings_array w)) → code = o_pos o - lp → 0 ≤ lp → occ_follows (has_offsets w) lp ls o →
  (has_offsets w = true → 0 ≤ ls ∧ 0 ≤ i < vlen (A.last_offsets (postings_array w)) ∧ ls = if (absolute : bool) then 0 else nthz (A.last_offsets (postings_array w)) i) →
  T + 2400 + 120 * vlen (o_payload o) ≤ LIMIT →
  ∃ ps' own', write_occurrence w ps i code absolute st tok = Ok (with_postings_array (occ_array (has_offsets w) i o (postings_array w)) (mark_payload o w), ps') ∧
    writing ps' [b0; b1 ++ occ_bytes (has_offsets w) lp ls o] (T + 2400 + 120 * vlen (o_payload o)) own' ∧ keeps own own' ps ps'.
Proof.
  intros o Hbase Hw Hi Hcode Hlp (Hp & Hpl & Ho & _) Hoff HT. unfold write_occurrence.
  destruct (write_prox_spec w ps b0 b1 T own i lp code st tok Hbase Hw Hi) as (ps1 & own1 & -> & Hw1 & K1); fold o; try done; try lia. fold o in Hw1. cbn [mbind result_bind].
  assert (has_offsets (with_postings_array (set_position i (o_pos o) (postings_array w)) (mark_payload o w)) = has_offsets w) as -> by (unfold mark_payload; by destruct (_ =? 0)).
  unfold occ_array, occ_bytes. set (w1 := with_postings_array _ _). assert (postings_array w1 = set_position i (o_pos o) (postings_array w)) as Ea1 by done. assert (base w1 = b) as Hb1 by (unfold w1, mark_payload; by destruct (_ =? 0)).
  destruct (has_offsets w) eqn:Eo; cbn [mbind result_bind].
  - destruct (Hoff eq_refl) as (Hls & Hir & Els). destruct (Ho eq_refl) as [Ho1 Ho2].
    set (a2 := if absolute then set_offset i 0 (postings_array w1) else postings_array w1).
    assert ((if absolute then A.set_last_offset i 0 (postings_array w1) else Ok (postings_array w1)) = Ok a2) as -> by (unfold a2; destruct absolute; [|done]; unfold A.set_last_offset; by rewrite vset_in by done).
    cbn [mbind result_bind]. assert (vlen (A.last_offsets a2) = vlen (A.last_offsets (postings_array w)) ∧ nthz (A.last_offsets a2) i = ls ∧ set_offset i (o_start o) a2 = set_offset i (o_start o) (postings_array w1) ∧ A.base a2 = A.base (postings_array w)) as (L2 & N2 & S2 & B2).
    { unfold a2. destruct absolute; [|by rewrite Els]. unfold set_offset. cbn. rewrite vlen_insert, list_insert_insert_eq, Els. split_and!; try done. unfold nthz. rewrite list_lookup_insert_eq; [done|]. unfold vlen in Hir. lia. }
    destruct (write_offsets_spec (with_postings_array a2 w1) ps1 b0 (b1 ++ prox_bytes lp o) (T + 1200 + 120 * vlen (o_payload o)) own1 i ls st tok) as (ps2 & own2 & -> & Hw2 & K2); fold o; try done; try lia.
    { rewrite <- Hb1. unfold base. change (postings_array (with_postings_array a2 w1)) with a2. rewrite B2. done. }
    { change (postings_array (with_postings_array a2 w1)) with a2. lia. }
    exists ps2, own2. rewrite with_arrays. change (postings_array (with_postings_array a2 w1)) with a2. rewrite S2. split; [done|]. rewrite app_assoc. split; [|by apply (keeps_trans _ own1 _ _ ps1)].
    fold o in Hw2. apply (inv_mono _ _ _ _ _ _ _ Hw2). lia.
  - exists ps1, own1. rewrite app_nil_r. split; [done|]. split; [|done]. apply (inv_mono _ _ _ _ _ _ _ Hw1). lia.
Qed.

(** ** The document before *)

Lemma write_doc_spec w ps b0 rest T own i gap : let n := nthz (A.term_freqs (postings_array w)) i in
  base w = b → writing ps (b0 :: rest) T own → 0 ≤ i < vlen (A.term_freqs (postings_array w)) → 0 ≤ i < vlen (A.last_doc_codes (postings_array w)) →
  nthz (A.last_doc_codes (postings_array w)) i = 2 * gap → 0 ≤ gap < 2 ^ 30 → 0 ≤ n < 2 ^ 31 → T + 1200 ≤ LIMIT →
  ∃ ps' own', write_doc w ps i = Ok ps' ∧ writing ps' ((b0 ++ doc_bytes true gap n) :: rest) (T + 1200) own' ∧ keeps own own' ps ps'.
Proof.
  intros n Hbase Hw Hi Hi2 Hcode Hg Hn HT. unfold write_doc. rewrite !vget_nthz by done. cbn [mbind result_bind]. fold n. rewrite Hcode, Hbase. unfold doc_bytes. destruct (n =? 1).
  - rewrite odd_code by done. destruct (vint_step0 ps b0 rest T own (2 * gap + 1) Hw) as (ps1 & own1 & -> & Hw1 & K1); [lia..|]. exists ps1, own1. split_and!; try done. apply (inv_mono _ _ _ _ _ _ _ Hw1). lia.
  - rewrite !as_i_id by (try lia; unfold is_i; lia). destruct (vint_step0 ps b0 rest T own (2 * gap) Hw) as (ps1 & own1 & -> & Hw1 & K1); [lia..|]. cbn [mbind result_bind].
    destruct (vint_step0 ps1 _ rest _ own1 n Hw1) as (ps2 & own2 & -> & Hw2 & K2); [lia..|]. exists ps2, own2. split; [done|]. rewrite app_assoc. split; [|by apply (keeps_trans _ own1 _ _ ps1)].
    apply (inv_mono _ _ _ _ _ _ _ Hw2). lia.
Qed.
(** ** A token *)

Lemma set_last_doc_id_in i v a : 0 ≤ i < vlen (A.last_doc_ids a) →
  A.set_last_doc_id i v a = Ok (A.mk (A.base a) (A.term_freqs a) (<[Z.to_nat i := v]> (A.last_doc_ids a)) (A.last_doc_codes a) (A.last_positions a) (A.last_offsets a)).
Proof. intros Hi. unfold A.set_last_doc_id. by rewrite vset_in. Qed.
Lemma set_last_doc_code_in i v a : 0 ≤ i < vlen (A.last_doc_codes a) →
  A.set_last_doc_code i v a = Ok (A.mk (A.base a) (A.term_freqs a) (A.last_doc_ids a) (<[Z.to_nat i := v]> (A.last_doc_codes a)) (A.last_positions a) (A.last_offsets a)).
Proof. intros Hi. unfold A.set_last_doc_code. by rewrite vset_in. Qed.
Lemma set_term_freq_in i v a : 0 ≤ i < vlen (A.term_freqs a) →
  A.set_term_freq i v a = Ok (A.mk (A.base a) (<[Z.to_nat i := v]> (A.term_freqs a)) (A.last_doc_ids a) (A.last_doc_codes a) (A.last_positions a) (A.last_offsets a)).
Proof. intros Hi. unfold A.set_term_freq. by rewrite vset_in. Qed.

(** [last_doc_ids], [last_doc_codes] and [term_freqs] at the start of a document. *)
Definition doc_array (has_freq : bool) (i doc code : Z) (a : A.t) : A.t :=
  A.mk (A.base a) (if has_freq then <[Z.to_nat i := 1]> (A.term_freqs a) else A.term_freqs a) (<[Z.to_nat i := doc]> (A.last_doc_ids a))
    (<[Z.to_nat i := code]> (A.last_doc_codes a)) (A.last_positions a) (A.last_offsets a).

Lemma doc_array_sized opt a cap i doc code : sized_array opt a cap → sized_array opt (doc_array (fr opt) i doc code a) cap.
Proof. intros [? ? ? ? ?]. split; cbn; rewrite ?vlen_insert; try done. destruct (fr opt); by rewrite ?vlen_insert. Qed.
Lemma occ_array_sized opt a cap i o : sized_array opt a cap → sized_array opt (occ_array (off opt) i o a) cap.
Proof. intros [? ? ? ? ?]. unfold occ_array. destruct (off opt) eqn:E; split; cbn; rewrite ?vlen_insert, ?E; done. Qed.

Lemma doc_array_touched fq a i doc code : 0 ≤ i → touched i a (doc_array fq i doc code a).
Proof. intros Hi. split; cbn; intros; rewrite ?nthz_insert_ne by done; try done. destruct fq; by rewrite ?nthz_insert_ne by done. Qed.
Lemma occ_array_touched ofs a i o : 0 ≤ i → touched i a (occ_array ofs i o a).
Proof. intros Hi. unfold occ_array. destruct ofs; split; cbn; intros; by rewrite ?nthz_insert_ne by done. Qed.
Lemma touched_refl i a : touched i a a.
Proof. by split. Qed.
Lemma touched_trans i a1 a2 a3 : touched i a1 a2 → touched i a2 a3 → touched i a1 a3.
Proof. intros [P0 P1 P2 P3 P4 P5] [Q0 Q1 Q2 Q3 Q4 Q5]. split; intros; rewrite ?Q0, ?Q1, ?Q2, ?Q3, ?Q4, ?Q5 by done; auto. Qed.

(** The first occurrence of a document. *)
Lemma doc_cell opt a cap i prev doc gap o : sized_array opt a cap → 0 ≤ i < cap → gap = (if fr opt then 2 else 1) * (doc - last_doc 0 prev) →
  let a1 := doc_array (fr opt) i doc gap a in cell opt (if pr opt then occ_array (off opt) i o a1 else a1) i (prev, (doc, [o])).
Proof.
  intros [S1 S2 S3 S4 S5] Hi -> a1. split; cbn [fst snd].
  - unfold a1, occ_array. destruct (pr opt), (off opt); cbn; by rewrite nthz_insert_eq by lia.
  - unfold a1, occ_array. destruct (pr opt), (off opt); cbn [A.last_doc_codes set_offset set_position doc_array]; by rewrite nthz_insert_eq by lia.
  - intros E. unfold a1, occ_array. rewrite E in *. destruct (pr opt), (off opt); cbn; by rewrite nthz_insert_eq by lia.
  - intros E. unfold a1, occ_array. rewrite E in *. destruct (off opt); cbn; by rewrite nthz_insert_eq by lia.
  - intros E. unfold a1, occ_array. rewrite (offsets_have_prox opt E), E in *. cbn. by rewrite nthz_insert_eq by lia.
Qed.

Lemma new_term_spec opt cap w ps T own i st tok doc : let o := occ_of st tok in
  options_ok opt w → base w = b → sized_array opt (postings_array w) cap → 0 ≤ i < cap → nthz (A.last_offsets (postings_array w)) i = 0 →
  writing ps ([] :: if pr opt then [[]] else []) T own → 0 ≤ doc < 2 ^ 30 → (pr opt = true → occ_follows (off opt) 0 0 o) → T + 2400 + 120 * vlen (o_payload o) ≤ LIMIT →
  ∃ w' ps' st' own', new_term w ps i st tok doc = Ok (w', ps', st') ∧ writing ps' (streams opt (first_posting doc o)) (T + 2400 + 120 * vlen (o_payload o)) own' ∧ keeps own own' ps ps' ∧
    rewrites i w w' ∧ sized_array opt (postings_array w') cap ∧ cell opt (postings_array w') i (first_posting doc o) ∧ same_place st st'.
Proof.
  intros o [O1 O2 O3] Hbase Hsz Hi Hoff Hw Hdoc Hocc HT. pose proof Hsz as [S1 S2 S3 S4 S5]. pose proof (vlen_nonneg (o_payload o)) as Hpl. destruct (twice_code doc Hdoc) as (_ & _ & C3).
  set (gap := if fr opt then 2 * doc else doc). set (a1 := doc_array (fr opt) i doc gap (postings_array w)).
  pose proof (doc_array_sized opt _ cap i doc gap Hsz) as Hsz1. fold a1 in Hsz1. pose proof (doc_array_touched (fr opt) (postings_array w) i doc gap (proj1 Hi)) as Ht1. fold a1 in Ht1.
  pose proof (doc_cell opt (postings_array w) cap i [] doc gap o Hsz Hi) as Hcell. cbn [last_doc list.last] in Hcell. rewrite Z.sub_0_r in Hcell. specialize (Hcell ltac:(unfold gap; destruct (fr opt); lia)). cbv zeta in Hcell. fold a1 in Hcell.
  unfold new_term. rewrite set_last_doc_id_in by lia. cbn [mbind result_bind]. rewrite O1.
  destruct (fr opt) eqn:Efr; cbn [negb].
  - rewrite C3, set_last_doc_code_in by (cbn; lia). cbn [mbind result_bind]. rewrite set_term_freq_in by (cbn; lia). cbn [mbind result_bind]. change (A.mk _ _ _ _ _ _) with a1. set (w1 := with_postings_array a1 w).
    change (has_prox w1) with (has_prox w). rewrite O2. unfold streams. destruct (pr opt) eqn:Epr.
    + destruct (Hocc eq_refl) as (Hpos & _). change (FieldInvertState.position st) with (o_pos o). rewrite (as_u_id 32 (o_pos o)) by (unfold is_u; lia).
      pose proof (sa_positions _ _ _ Hsz1) as P1. pose proof (sa_offsets _ _ _ Hsz1) as P2. rewrite Epr in P1.
      destruct (write_occurrence_spec w1 ps [] [] T own i 0 0 (o_pos o) false st tok) as (ps' & own' & -> & Hw' & K); fold o; try done; try lia; try (change (postings_array w1) with a1; lia).
      { change (has_offsets w1) with (has_offsets w). rewrite O3. by apply Hocc. }
      { change (has_offsets w1) with (has_offsets w). rewrite O3. intros E. change (postings_array w1) with a1. rewrite E in P2. split_and!; done || lia. }
      cbn [mbind result_bind]. eexists _, ps', _, own'. split; [done|]. split; [|split; [done|]].
      * fold o in Hw'. change (has_offsets w1) with (has_offsets w) in Hw'. rewrite O3 in Hw'. cbn. by rewrite !app_nil_r.
      * change (has_offsets w1) with (has_offsets w). rewrite O3. change (postings_array w1) with a1. split; [|split; [|split; [|done]]].
        -- exists (occ_array (off opt) i o a1), (negb (vlen (o_payload o) =? 0)). split; [unfold mark_payload; by destruct (_ =? 0)|]. apply (touched_trans i _ a1); [done|]. apply occ_array_touched. lia.
        -- by apply occ_array_sized.
        -- done.
    + change (has_offsets w1) with (has_offsets w). rewrite O3. assert (off opt = false) as -> by (destruct (off opt) eqn:E; [|done]; apply offsets_have_prox in E; congruence). cbn [mbind result_bind]. eexists _, ps, _, own. split; [done|].
      split; [apply (inv_mono _ _ _ _ _ _ _ Hw); lia|]. split; [apply keeps_refl|]. split; [|done]. by exists a1, false.
  - assert (pr opt = false) as Epr by (destruct (pr opt) eqn:E; [|done]; apply prox_has_freqs in E; congruence). rewrite Epr in *. rewrite (as_u_id 32 doc) by (unfold is_u; lia). rewrite set_last_doc_code_in by (cbn; lia). cbn [mbind result_bind].
    change (A.mk _ _ _ _ _ _) with a1. eexists _, ps, _, own. split; [done|]. unfold streams. rewrite Epr. split; [apply (inv_mono _ _ _ _ _ _ _ Hw); lia|]. split; [apply keeps_refl|]. split; [|done]. by exists a1, false.
Qed.
(** One more occurrence of a document. *)
Lemma occ_cell opt a cap i prev d os o : sized_array opt a cap → 0 ≤ i < cap → pr opt = true → nthz (A.last_doc_ids a) i = d →
  nthz (A.last_doc_codes a) i = (if fr opt then 2 else 1) * (d - last_doc 0 prev) → nthz (A.term_freqs a) i = vlen (os ++ [o]) →
  cell opt (occ_array (off opt) i o a) i (prev, (d, os ++ [o])).
Proof.
  intros [S1 S2 S3 S4 S5] Hi E H1 H2 H3. rewrite E in S4. unfold occ_array. destruct (off opt) eqn:Eo; (split; [done|done|done|..]; intros E'; cbn [fst snd]; rewrite ?last_pos_snoc, ?last_start_snoc; try congruence; apply nthz_insert_eq; cbn; lia).
Qed.

(** A term that occurs again in its last document. *)
Lemma add_same_doc opt cap w ps T own i prev d os st tok : let o := occ_of st tok in
  options_ok opt w → base w = b → sized_array opt (postings_array w) cap → 0 ≤ i < cap → cell opt (postings_array w) i (prev, (d, os)) →
  writing ps (streams opt (prev, (d, os))) T own → vlen os + 1 < 2 ^ 31 →
  (pr opt = true → occs_ok (off opt) 0 0 os ∧ occ_follows (off opt) (last_pos 0 os) (last_start 0 os) o) → T + 2400 + 120 * vlen (o_payload o) ≤ LIMIT →
  ∃ w' ps' st' own', add_term w ps i st tok d = Ok (w', ps', st') ∧ writing ps' (streams opt (prev, (d, os ++ [o]))) (T + 2400 + 120 * vlen (o_payload o)) own' ∧ keeps own own' ps ps' ∧
    rewrites i w w' ∧ sized_array opt (postings_array w') cap ∧ cell opt (postings_array w') i (prev, (d, os ++ [o])) ∧ same_place st st'.
Proof.
  intros o [O1 O2 O3] Hbase Hsz Hi [C1 C2 C3 C4 C5] Hw Hn Hocc HT. pose proof Hsz as [S1 S2 S3 S4 S5]. pose proof (vlen_nonneg (o_payload o)). pose proof (vlen_nonneg os). cbn [fst snd] in *.
  unfold add_term. rewrite (vget_nthz (A.last_doc_ids (postings_array w))), C1 by lia. cbn [mbind result_bind]. rewrite Z.eqb_refl, O1. cbn [negb]. rewrite streams_same_doc. destruct (fr opt) eqn:Efr; cbn [negb].
  - specialize (C3 eq_refl). rewrite (vget_nthz (A.term_freqs (postings_array w))), C3 by lia. cbn [mbind result_bind]. rewrite (as_u_id 32 (vlen os + 1)) by (unfold is_u; lia). cbn [mbind result_bind]. rewrite set_term_freq_in by lia. cbn [mbind result_bind].
    set (a1 := A.mk _ _ _ _ _ _). set (w1 := with_postings_array a1 w). change (has_prox w1) with (has_prox w). rewrite O2.
    assert (sized_array opt a1 cap) as Hsz1 by (split; cbn; rewrite ?vlen_insert, ?Efr; done). assert (touched i (postings_array w) a1) as Ht1 by (split; cbn; intros; by rewrite ?nthz_insert_ne by lia).
    assert (nthz (A.term_freqs a1) i = vlen (os ++ [o])) as Hf1 by (cbn; rewrite nthz_insert_eq, vlen_app by lia; done).
    destruct (pr opt) eqn:Epr; cbn [mbind result_bind].
    + destruct (Hocc eq_refl) as [Hos Ho]. specialize (C4 eq_refl). destruct (occs_ok_last (off opt) os 0 0 Hos ltac:(lia)) as [Hlp Hls]. destruct Ho as (Hpos & Ho).
      change (A.last_positions (postings_array w1)) with (A.last_positions (postings_array w)). rewrite vget_nthz, C4 by lia. cbn [mbind result_bind FieldInvertState.with_max_term_frequency FieldInvertState.position].
      change (FieldInvertState.position st) with (o_pos o). rewrite (as_u_id 32 (o_pos o)), as_u_id by (unfold is_u; lia). unfold streams in Hw. rewrite Epr, Efr in Hw. cbn [fst] in Hw.
      destruct (write_occurrence_spec w1 ps (docs_bytes true 0 prev) (all_occs_bytes (off opt) (all_docs (prev, (d, os)))) T own i (last_pos 0 os) (last_start 0 os) (o_pos o - last_pos 0 os) false
        (FieldInvertState.with_max_term_frequency (Z.max (FieldInvertState.max_term_frequency st) (vlen os + 1)) st) tok) as (ps' & own' & E & Hw' & K); try done; try lia.
      { change (A.last_positions (postings_array w1)) with (A.last_positions (postings_array w)). lia. }
      { change (has_offsets w1) with (has_offsets w). rewrite O3. by split. }
      { change (has_offsets w1) with (has_offsets w). rewrite O3. intros Eo. change (A.last_offsets (postings_array w1)) with (A.last_offsets (postings_array w)). rewrite Eo in S5. rewrite C5 by done.
        split; [apply Hls; [done|lia]|]. split; [lia|done]. }
      rewrite E. cbn [mbind result_bind]. change (occ_of _ tok) with o in Hw' |- *. change (has_offsets w1) with (has_offsets w) in Hw' |- *. rewrite O3 in Hw' |- *. change (postings_array w1) with a1.
      eexists _, ps', _, own'. split; [done|].
      split; [done|]. split; [done|]. split; [|split; [by apply occ_array_sized|split; [|done]]].
      * exists (occ_array (off opt) i o a1), (negb (vlen (o_payload o) =? 0)). split; [unfold mark_payload; by destruct (_ =? 0)|]. apply (touched_trans i _ a1); [done|]. apply occ_array_touched. lia.
      * apply (occ_cell opt a1 cap); try done. by rewrite Efr.
    + eexists _, ps, _, own. split; [done|]. split; [|split; [apply keeps_refl|]].
      * unfold streams in Hw. rewrite Epr, Efr in Hw. apply (inv_mono _ _ _ _ _ _ _ Hw). lia.
      * split; [by exists a1, false|]. split; [done|]. split; [|done]. assert (off opt = false) as Eo by (destruct (off opt) eqn:E; [apply offsets_have_prox in E; congruence|done]).
        split; cbn [fst snd]; try done; [by rewrite Efr|congruence..].
  - assert (pr opt = false) as Epr by (destruct (pr opt) eqn:E; [|done]; apply prox_has_freqs in E; congruence). assert (off opt = false) as Eo by (destruct (off opt) eqn:E; [apply offsets_have_prox in E; congruence|done]).
    eexists _, ps, _, own. split; [done|]. unfold streams in Hw. rewrite Epr, Efr in *. split; [apply (inv_mono _ _ _ _ _ _ _ Hw); lia|]. split; [apply keeps_refl|]. split; [exists (postings_array w), false; split; [by destruct w as [? ? ? ? [] ? ? ? ? ? ? ? ? ?]|apply touched_refl]|].
    split; [done|]. split; [|done]. split; cbn [fst snd]; rewrite ?Efr; done || congruence.
Qed.
(** A term that comes back in a later document. *)
Lemma add_new_doc opt cap w ps T own i prev d os st tok doc : let o := occ_of st tok in
  options_ok opt w → base w = b → sized_array opt (postings_array w) cap → 0 ≤ i < cap → cell opt (postings_array w) i (prev, (d, os)) →
  writing ps (streams opt (prev, (d, os))) T own → vlen os < 2 ^ 31 → 0 ≤ last_doc 0 prev ≤ d → d < doc < 2 ^ 30 →
  (pr opt = true → occ_follows (off opt) 0 0 o) → T + 3600 + 120 * vlen (o_payload o) ≤ LIMIT →
  ∃ w' ps' st' own', add_term w ps i st tok doc = Ok (w', ps', st') ∧ writing ps' (streams opt (prev ++ [(d, os)], (doc, [o]))) (T + 3600 + 120 * vlen (o_payload o)) own' ∧ keeps own own' ps ps' ∧
    rewrites i w w' ∧ sized_array opt (postings_array w') cap ∧ cell opt (postings_array w') i (prev ++ [(d, os)], (doc, [o])) ∧ same_place st st'.
Proof.
  intros o [O1 O2 O3] Hbase Hsz Hi [C1 C2 C3 C4 C5] Hw Hn Hlast Hdoc Hocc HT. pose proof Hsz as [S1 S2 S3 S4 S5]. pose proof (vlen_nonneg (o_payload o)). pose proof (vlen_nonneg os). cbn [fst snd] in *.
  set (gap := if fr opt then 2 * (doc - d) else doc - d). set (a1 := doc_array (fr opt) i doc gap (postings_array w)).
  pose proof (doc_array_sized opt _ cap i doc gap Hsz) as Hsz1. fold a1 in Hsz1. pose proof (doc_array_touched (fr opt) (postings_array w) i doc gap (proj1 Hi)) as Ht1. fold a1 in Ht1.
  pose proof (doc_cell opt (postings_array w) cap i (prev ++ [(d, os)]) doc gap o Hsz Hi) as Hcell. rewrite last_doc_snoc in Hcell. specialize (Hcell ltac:(unfold gap; cbn [fst]; destruct (fr opt); lia)). cbv zeta in Hcell. fold a1 in Hcell.
  unfold add_term. rewrite (vget_nthz (A.last_doc_ids (postings_array w))), C1 by lia. cbn [mbind result_bind]. rewrite (proj2 (Z.eqb_neq doc d)) by lia. rewrite O1. cbn [negb]. rewrite streams_new_doc.
  unfold streams in Hw. cbn [fst] in Hw. destruct (fr opt) eqn:Efr; cbn [negb].
  - specialize (C3 eq_refl). destruct (write_doc_spec w ps _ _ T own i (d - last_doc 0 prev) Hbase Hw) as (ps1 & own1 & -> & Hw1 & K1); rewrite ?C3; try done; try lia. rewrite C3 in Hw1. cbn [mbind result_bind].
    rewrite set_term_freq_in by lia. cbn [mbind result_bind]. rewrite (as_i_id 32 (doc - d)) by (try lia; unfold is_i; lia). destruct (twice_code (doc - d)) as (_ & _ & ->); [lia|].
    rewrite set_last_doc_code_in by (cbn; lia). cbn [mbind result_bind]. rewrite set_last_doc_id_in by (cbn; lia). cbn [mbind result_bind].
    change (A.mk _ _ _ _ _ _) with a1. set (w1 := with_postings_array a1 w). change (has_prox w1) with (has_prox w). rewrite O2. destruct (pr opt) eqn:Epr; cbn [mbind result_bind].
    + destruct (Hocc eq_refl) as (Hpos & Ho). pose proof (sa_positions _ _ _ Hsz1) as P1. pose proof (sa_offsets _ _ _ Hsz1) as P2. rewrite Epr in P1.
      cbn [FieldInvertState.with_max_term_frequency FieldInvertState.position]. change (FieldInvertState.position st) with (o_pos o). rewrite (as_u_id 32 (o_pos o)) by (unfold is_u; lia).
      destruct (write_occurrence_spec w1 ps1 (docs_bytes true 0 prev ++ doc_bytes true (d - last_doc 0 prev) (vlen os)) (all_occs_bytes (off opt) (all_docs (prev, (d, os)))) (T + 1200) own1 i 0 0 (o_pos o) true
        (FieldInvertState.with_max_term_frequency (Z.max 1 (FieldInvertState.max_term_frequency st)) st) tok) as (ps' & own' & E & Hw' & K); try done; try (change (occ_of _ tok) with o; lia).
      { change (postings_array w1) with a1. lia. }
      { change (has_offsets w1) with (has_offsets w). rewrite O3. by split. }
      { change (has_offsets w1) with (has_offsets w). rewrite O3. intros Eo. change (postings_array w1) with a1. rewrite Eo in P2. split_and!; done || lia. }
      rewrite E. cbn [mbind result_bind]. change (occ_of _ tok) with o in Hw' |- *. change (has_offsets w1) with (has_offsets w) in Hw' |- *. rewrite O3 in Hw' |- *. change (postings_array w1) with a1.
      eexists _, ps', _, own'. split; [done|]. split; [apply (inv_mono _ _ _ _ _ _ _ Hw'); lia|]. split; [by apply (keeps_trans _ own1 _ _ ps1)|]. split; [|split; [by apply occ_array_sized|split; done]].
      exists (occ_array (off opt) i o a1), (negb (vlen (o_payload o) =? 0)). split; [unfold mark_payload; by destruct (_ =? 0)|]. apply (touched_trans i _ a1); [done|]. apply occ_array_touched. lia.
    + eexists _, ps1, _, own1. split; [done|]. split; [apply (inv_mono _ _ _ _ _ _ _ Hw1); lia|]. split; [done|]. split; [by exists a1, false|done].
  - assert (pr opt = false) as Epr by (destruct (pr opt) eqn:E; [|done]; apply prox_has_freqs in E; congruence). rewrite Epr in *.
    rewrite (vget_nthz (A.last_doc_codes (postings_array w))), C2 by lia. cbn [mbind result_bind]. rewrite Z.mul_1_l, (as_i_id 32 (d - last_doc 0 prev)) by (try lia; unfold is_i; lia). rewrite Hbase.
    destruct (vint_step0 ps _ _ T own (d - last_doc 0 prev) Hw) as (ps1 & own1 & -> & Hw1 & K1); [lia..|]. cbn [mbind result_bind]. rewrite (as_i_id 32 (doc - d)), (as_u_id 32 (doc - d)) by (try lia; unfold is_i, is_u; lia).
    rewrite set_last_doc_code_in by lia. cbn [mbind result_bind]. rewrite set_last_doc_id_in by (cbn; lia). cbn [mbind result_bind]. change (A.mk _ _ _ _ _ _) with a1.
    eexists _, ps1, _, own1. split; [done|]. split; [apply (inv_mono _ _ _ _ _ _ _ Hw1); lia|]. split; [done|]. split; [by exists a1, false|done].
Qed.

(** What [add_term] needs of the token. *)
Definition may_follow (opt : IndexOptions.t) (doc : Z) (o : occ) (p : postings) : Prop :=
  p.2.1 ≤ doc < 2 ^ 30 ∧ vlen p.2.2 + 1 < 2 ^ 31 ∧
  (pr opt = true → if doc =? p.2.1 then occ_follows (off opt) (last_pos 0 p.2.2) (last_start 0 p.2.2) o else occ_follows (off opt) 0 0 o).

Lemma add_term_spec opt cap w ps T own i p st tok doc : let o := occ_of st tok in
  options_ok opt w → base w = b → sized_array opt (postings_array w) cap → 0 ≤ i < cap → cell opt (postings_array w) i p → postings_ok opt p →
  writing ps (streams opt p) T own → may_follow opt doc o p → T + 3600 + 120 * vlen (o_payload o) ≤ LIMIT →
  ∃ w' ps' st' own', add_term w ps i st tok doc = Ok (w', ps', st') ∧ writing ps' (streams opt (add_posting doc o p)) (T + 3600 + 120 * vlen (o_payload o)) own' ∧ keeps own own' ps ps' ∧
    rewrites i w w' ∧ sized_array opt (postings_array w') cap ∧ cell opt (postings_array w') i (add_posting doc o p) ∧ same_place st st'.
Proof.
  intros o Hopt Hbase Hsz Hi Hc Hp Hw (Hdoc & Hn & Hocc) HT. destruct p as [prev [d os]]. unfold postings_ok, all_docs in Hp. cbn [fst snd] in *. apply docs_ok_snoc in Hp as [Hprev Hd].
  destruct Hd as (Hd & (_ & _ & Hos) & _). cbn [fst snd] in *. unfold add_posting. cbn [fst snd]. destruct (Z.eqb_spec doc d) as [->|Hne].
  - destruct (add_same_doc opt cap w ps T own i prev d os st tok) as (w' & ps' & st' & own' & E & Hw' & Hrest); try done; [|fold o; lia|].
    { intros E. split; [by apply Hos|by apply Hocc]. }
    exists w', ps', st', own'. split; [done|]. split; [|done]. apply (inv_mono _ _ _ _ _ _ _ Hw'). fold o. lia.
  - apply (add_new_doc opt cap w ps T own i prev d os st tok doc); try done; try lia. pose proof (docs_ok_last opt prev 0 Hprev). unfold last_doc in *. destruct (list.last prev) as [x|] eqn:E; [|lia].
    specialize (H x eq_refl). lia.
Qed.
End writing.
