(* ===== verification/FreqProxIndex.v ===== *)
(** The invariant of the in-memory index: any number of fields share the pools, and every
    field holds the postings of its terms. *)

From stdpp Require Import gmap.
From S2P Require Import Prelude DataIO DataIOFacts PackedBulkFacts PackedArrayFacts BytePool BytePoolFacts PoolFacts TermsHashFacts BytesRefHash HashTableFacts BytesRefHashFacts FreqProx PostingsSpec FreqProxFacts.
Open Scope Z_scope.
Import TermsHashPerFieldBase FreqProxTermsWriterPerField.
#[local] Abbreviation B := ByteBlockPool.BYTE_BLOCK_SIZE.

(** * The index of a field *)

(** The terms in the order of their ids, each with its postings. *)
Abbreviation field_index := (list (list Z * postings)).

Fixpoint add_occurrence (t : list Z) (doc : Z) (o : occ) (l : field_index) : field_index :=
  match l with
  | [] => [(t, first_posting doc o)]
  | (t', p) :: l => if decide (t' = t) then (t', add_posting doc o p) :: l else (t', p) :: add_occurrence t doc o l
  end.

Lemma add_occurrence_new t doc o (l : field_index) : t ∉ l.*1 → add_occurrence t doc o l = l ++ [(t, first_posting doc o)].
Proof.
  induction l as [|[t' p] l IH]; [done|]. rewrite fmap_cons. intros [Hne Hn]%not_elem_of_cons. cbn in Hne |- *. rewrite decide_False by congruence. by rewrite IH.
Qed.
Lemma add_occurrence_old t doc o (l : field_index) i p : NoDup l.*1 → l !! i = Some (t, p) → add_occurrence t doc o l = <[i := (t, add_posting doc o p)]> l.
Proof.
  revert i. induction l as [|[t' p'] l IH]; intros i; [done|]. rewrite fmap_cons. intros [Hn Hd]%list.NoDup_cons Hi. cbn [fst] in Hn. destruct i as [|i]; cbn in Hi |- *.
  - injection Hi as -> ->. by rewrite decide_True.
  - rewrite decide_False; [by rewrite (IH i)|]. intros ->. apply Hn. apply list_elem_of_fmap. exists (t, p). split; [done|]. by apply list_elem_of_lookup_2 with i.
Qed.

(** The postings of a term. *)
Fixpoint postings_of (t : list Z) (l : field_index) : option postings :=
  match l with
  | [] => None
  | (t', p) :: l => if decide (t' = t) then Some p else postings_of t l
  end.

Lemma postings_of_new t (l : field_index) : t ∉ l.*1 → postings_of t l = None.
Proof. induction l as [|[t' p] l IH]; [done|]. rewrite fmap_cons. intros [Hne Hn]%not_elem_of_cons. cbn in Hne |- *. rewrite decide_False by congruence. by apply IH. Qed.
Lemma postings_of_old t (l : field_index) i p : NoDup l.*1 → l !! i = Some (t, p) → postings_of t l = Some p.
Proof.
  revert i. induction l as [|[t' p'] l IH]; intros i; [done|]. rewrite fmap_cons. intros [Hn Hd]%list.NoDup_cons Hi. cbn [fst] in Hn. destruct i as [|i]; cbn in Hi |- *.
  - injection Hi as -> ->. by rewrite decide_True.
  - rewrite decide_False; [by apply (IH i)|]. intros ->. apply Hn. apply list_elem_of_fmap. exists (t, p). split; [done|]. by apply list_elem_of_lookup_2 with i.
Qed.

Lemma add_posting_ok opt doc o p : postings_ok opt p → may_follow opt doc o p → postings_ok opt (add_posting doc o p).
Proof.
  destruct p as [prev [d os]]. unfold postings_ok, all_docs, add_posting. cbn [fst snd]. intros Hp (Hdoc & Hn & Ho). cbn [fst snd] in *. apply docs_ok_snoc in Hp as [Hprev Hd].
  pose proof Hd as (Hd1 & (Hne & Hlen & Hos) & _). cbn [fst snd] in *. destruct (Z.eqb_spec doc d) as [->|Hne']; cbn [fst snd].
  - apply docs_ok_snoc. split; [done|]. split; [done|]. split; [|done]. split; [by destruct os|]. cbn [snd]. split; [rewrite vlen_app; change (vlen [o]) with 1; lia|]. intros E. apply occs_ok_snoc; auto.
  - apply docs_ok_snoc. split; [by apply docs_ok_snoc|]. rewrite last_doc_snoc. split; [cbn [fst]; lia|]. split; [|done]. split; [done|]. split; [done|]. intros E. by apply Ho.
Qed.

(** The array of a field is what the hash expects. *)
#[global, refine] Instance postings_start_array_laws : StartArrayLaws A.t := {|
  array_wf a := vlen (ParallelPostingsArray.text_starts (A.base a)) = ParallelPostingsArray.size (A.base a) |}.
Proof.
  - done.
  - intros a l Ha Hl. cbn in *. congruence.
  - intros a Ha. cbn in *. pose proof (over_size_grows (ParallelPostingsArray.size (A.base a) + 1)). apply vlen_resize. lia.
  - intros a Ha. cbn in *. pose proof (over_size_grows (ParallelPostingsArray.size (A.base a) + 1)). rewrite vlen_resize; lia.
  - intros a i Ha Hi. cbn in *. pose proof (over_size_grows (ParallelPostingsArray.size (A.base a) + 1)). apply resize_nthz; lia.
  - done.
Defined.

(** * The invariant *)

(** The owner of the strings of the terms. *)
Definition TEXT : key := (-1, 0, 0).

Section index.
Context (hash32 : list Z → Z).
#[local] Set Default Proof Using "Type".

Definition array_size (w : t) : Z := ParallelPostingsArray.size (A.base (postings_array w)).
Definition text_starts (w : t) : list Z := ParallelPostingsArray.text_starts (A.base (postings_array w)).
Definition text_start (w : t) (i : nat) : Z := nthz (text_starts w) (Z.of_nat i).

(** The strings of a field are in the pool, which no stream touches. *)
Record texts_ok (w : t) (ps : pools) (own : Z → option key) (ts : list (list Z)) : Prop := {
  tx_repr : repr hash32 (bytes_hash w) (byte_pool ps) ts;
  tx_own : ∀ i b, ts !! i = Some b → ∀ x, text_start w i ≤ x < text_start w i + vlen (text_bytes b) → own x = Some TEXT;
  tx_size : 1 ≤ array_size w;
  tx_starts : vlen (text_starts w) = array_size w;
}.

(** The arrays of a field are those of its postings. *)
Record cells_ok (opt : IndexOptions.t) (w : t) (l : list postings) : Prop := {
  cl_opt : options_ok opt w;
  cl_sized : sized_array opt (postings_array w) (array_size w);
  cl_cells : ∀ i p, l !! i = Some p → cell opt (postings_array w) (Z.of_nat i) p ∧ postings_ok opt p;
  cl_fresh : ∀ i, vlen l ≤ i → nthz (A.last_offsets (postings_array w)) i = 0;
}.

Definition field_ok (opt : IndexOptions.t) (w : t) (ps : pools) (own : Z → option key) (l : field_index) : Prop := texts_ok w ps own l.*1 ∧ cells_ok opt w l.*2.

Definition stream_counts (opts : list IndexOptions.t) : list Z := map (fun opt => if pr opt then 2 else 1) opts.

Record index_ok (opts : list IndexOptions.t) (ws : list t) (ps : pools) (ix : list field_index) (s : spec) (T : Z) (own iown : Z → option key) : Prop := {
  io_streams : inv (stream_counts opts) (State (map base ws) ps) s T own iown;
  io_len : length ix = length ws;
  io_fields : ∀ f w, ws !! f = Some w → ∃ opt l, opts !! f = Some opt ∧ ix !! f = Some l ∧ field_ok opt w ps own l;
  io_terms : ∀ f opt l i b p, opts !! f = Some opt → ix !! f = Some l → l !! i = Some (b, p) → terms s !! (Z.of_nat f, Z.of_nat i) = Some (streams opt p);
  io_known : ∀ f term, is_Some (terms s !! (f, term)) → ∃ l, 0 ≤ f ∧ ix !! Z.to_nat f = Some l ∧ 0 ≤ term < vlen l;
}.

(** ** Frames *)

Lemma texts_frame w ps ps' own own' ts T : texts_ok w ps own ts → keeps own own' ps ps' → pool_wf (byte_pool ps') T → texts_ok w ps' own' ts.
Proof.
  intros [[R1 R2 R3 R4 R5 R6 R7] F3 F4 F5] [Kh Km] Hwf. split; try done.
  - split; try done; [|by exists T|lia]. intros i b Hi. destruct (R4 i b Hi) as [X1 X2 X3 X4]. split; try done; [lia|]. rewrite <- X4 at 2. apply span_ext. intros k Hk.
    apply (Km _ TEXT); [done|]. apply (F3 i b Hi). change (nthz (bs_bytes (BytesRefHash.bytes_start_array (bytes_hash w))) (Z.of_nat i)) with (text_start w i) in *. lia.
  - intros i b Hi x Hx. apply (Km x TEXT); [done|]. by apply (F3 i b Hi).
Qed.

(** Other arrays with the same starts. *)
Lemma texts_array w w' ps own ts a' : texts_ok w ps own ts → bytes_hash w' = BytesRefHash.with_start_array a' (bytes_hash w) →
  ParallelPostingsArray.text_starts (A.base a') = text_starts w → ParallelPostingsArray.size (A.base a') = array_size w → texts_ok w' ps own ts.
Proof.
  intros [[R1 R2 R3 R4 R5 R6 R7] F3 F4 F5] Eh Et Es. assert (text_starts w' = text_starts w) as Et' by (unfold text_starts at 1, postings_array; rewrite Eh; done).
  assert (array_size w' = array_size w) as Es' by (unfold array_size at 1, postings_array; rewrite Eh; done).
  split; unfold text_start; rewrite ?Et', ?Es'; try done. rewrite Eh. split; try done.
  - destruct R1 as [(k & Hk) T2 T3 T4 T5]. split; try done. exists k. by destruct Hk; split.
  - cbn. rewrite Et. done.
  - cbn. rewrite Et. done.
  - cbn. rewrite Et, Es. done.
Qed.

Lemma rewrites_hash i w w' : rewrites i w w' → ∃ a', bytes_hash w' = BytesRefHash.with_start_array a' (bytes_hash w) ∧ postings_array w' = a' ∧ touched i (postings_array w) a'.
Proof. intros (a' & saw & -> & Ht). exists a'. by destruct saw. Qed.
Lemma rewrites_base i w w' : rewrites i w w' → base w' = base w.
Proof. intros (a' & saw & -> & Ht). unfold base, postings_array. destruct saw; cbn; by rewrite (to_base _ _ _ Ht). Qed.
Lemma rewrites_options i w w' opt : rewrites i w w' → options_ok opt w → options_ok opt w'.
Proof. intros (a' & saw & -> & _) [? ? ?]. by destruct saw; split. Qed.

Lemma texts_rewrite i w w' ps own ts : texts_ok w ps own ts → rewrites i w w' → texts_ok w' ps own ts.
Proof. intros Ht Hr. destruct (rewrites_hash i w w' Hr) as (a' & Eh & _ & Hto). apply (texts_array w w' ps own ts a'); try done; by rewrite (to_base _ _ _ Hto). Qed.
Lemma rewrites_size i w w' : rewrites i w w' → array_size w' = array_size w.
Proof. intros Hr. destruct (rewrites_hash i w w' Hr) as (a' & _ & Ea & Hto). unfold array_size. by rewrite Ea, (to_base _ _ _ Hto). Qed.

(** The cells of one term, old or new. *)
Lemma cells_rewrite opt w w' l (i : nat) p : cells_ok opt w l → rewrites (Z.of_nat i) w w' → sized_array opt (postings_array w') (array_size w) → cell opt (postings_array w') (Z.of_nat i) p → postings_ok opt p →
  (i < length l)%nat → cells_ok opt w' (<[i := p]> l).
Proof.
  intros [C1 C2 C3 C4] Hr Hs Hc Hp Hi. destruct (rewrites_hash _ w w' Hr) as (a' & _ & Ea & Hto). split; rewrite ?(rewrites_size _ _ _ Hr); try done.
  - by apply (rewrites_options (Z.of_nat i) w).
  - intros j q Hj. destruct (decide (j = i)) as [->|Hne]; [rewrite list_lookup_insert_eq in Hj by done; by injection Hj as <-|]. rewrite list_lookup_insert_ne in Hj by done. destruct (C3 j q Hj) as [Hcj Hpj]. split; [|done].
    rewrite Ea. apply (touched_cell opt (Z.of_nat i) (postings_array w)); done || lia.
  - intros j Hj. rewrite vlen_insert in Hj. unfold vlen in Hj. rewrite Ea, (to_offsets _ _ _ Hto) by lia. apply C4. unfold vlen. lia.
Qed.
Lemma cells_append opt w w' l p : cells_ok opt w l → rewrites (vlen l) w w' → sized_array opt (postings_array w') (array_size w) → cell opt (postings_array w') (vlen l) p → postings_ok opt p → cells_ok opt w' (l ++ [p]).
Proof.
  intros [C1 C2 C3 C4] Hr Hs Hc Hp. destruct (rewrites_hash _ w w' Hr) as (a' & _ & Ea & Hto). pose proof (vlen_nonneg l). split; rewrite ?(rewrites_size _ _ _ Hr); try done.
  - by apply (rewrites_options (vlen l) w).
  - intros j q Hj. apply lookup_snoc_Some in Hj as [[Hlt Hj]|[-> <-]]; [|done]. destruct (C3 j q Hj) as [Hcj Hpj]. split; [|done].
    rewrite Ea. apply (touched_cell opt (vlen l) (postings_array w)); try done; unfold vlen; lia.
  - intros j Hj. rewrite vlen_app in Hj. change (vlen [p]) with 1 in Hj. rewrite Ea, (to_offsets _ _ _ Hto) by lia. apply C4. lia.
Qed.

(** A new base, with the same starts of strings. *)
Lemma base_with_base b w : base (with_base b w) = b.
Proof. by destruct b. Qed.
Lemma with_base_ok opt b w ps own ts l : ParallelPostingsArray.text_starts (TermsHashPerFieldBase.postings_array b) = text_starts w → ParallelPostingsArray.size (TermsHashPerFieldBase.postings_array b) = array_size w →
  texts_ok w ps own ts → cells_ok opt w l → texts_ok (with_base b w) ps own ts ∧ cells_ok opt (with_base b w) l ∧ array_size (with_base b w) = array_size w.
Proof.
  intros Et Es Ht [C1 C2 C3 C4]. assert (array_size (with_base b w) = array_size w) as Ea by done. split_and!; try done.
  - by apply (texts_array w _ ps own ts (FreqProxPostingsArray.set_base (TermsHashPerFieldBase.postings_array b) (postings_array w))).
  - split; rewrite ?Ea; try done; [by destruct C1; split|by destruct C2; split|]. intros i p Hi. destruct (C3 i p Hi) as [[? ? ? ? ?] Hp]. split; [by split|done].
Qed.
(** ** One term of one field *)

Lemma index_update opts ws ps ix s T own iown (f i : nat) w w' opt l l' b p' s0 T' own' iown' ps' : index_ok opts ws ps ix s T own iown →
  ws !! f = Some w → opts !! f = Some opt → ix !! f = Some l →
  writing (stream_counts opts) (<[f := base w']> (map base ws)) (Z.of_nat f) (Z.of_nat i) s0 iown' ps' (streams opt p') T' own' →
  (∀ k, k ≠ (Z.of_nat f, Z.of_nat i) → terms s0 !! k = terms s !! k) → keeps own own' ps ps' →
  field_ok opt w' ps' own' l' → l' !! i = Some (b, p') → (∀ j, j ≠ i → l' !! j = l !! j) → (length l ≤ length l')%nat →
  index_ok opts (<[f := w']> ws) ps' (<[f := l']> ix) (with_streams (Z.of_nat f) (Z.of_nat i) s0 (streams opt p')) T' own' iown'.
Proof.
  intros [I1 I2 I3 I4 I5] Hw Hopt Hl Hwr Hs0 Hk Hf' Hli Hlj Hlen. pose proof (lookup_lt_Some _ _ _ Hw) as Hfw. pose proof (lookup_lt_Some _ _ _ Hl) as Hfl. pose proof (lookup_lt_Some _ _ _ Hli) as Hil. split.
  - replace (map base (<[f := w']> ws)) with (<[f := base w']> (map base ws)); [done|]. symmetry. apply list_fmap_insert.
  - by rewrite !length_insert.
  - intros g v Hv. destruct (decide (g = f)) as [->|Hne].
    + rewrite list_lookup_insert_eq in Hv by done. injection Hv as <-. exists opt, l'. by rewrite list_lookup_insert_eq.
    + rewrite list_lookup_insert_ne in Hv by done. destruct (I3 g v Hv) as (og & lg & E1 & E2 & [Ht Hc]). exists og, lg. rewrite list_lookup_insert_ne by done. split_and!; try done. split; [|done].
      apply (texts_frame v ps ps' own own' _ T'); try done. apply (inv_pool _ _ _ _ _ _ Hwr).
  - intros g og lg j bj pj Hog Hlg Hj. cbn [with_streams terms]. destruct (decide ((g, j) = (f, i))) as [[= -> ->]|Hne].
    + rewrite list_lookup_insert_eq in Hlg by done. injection Hlg as <-. rewrite Hli in Hj. injection Hj as <- <-. rewrite Hopt in Hog. injection Hog as <-. by rewrite lookup_insert_eq.
    + rewrite lookup_insert_ne by (intros [= E1 E2]; apply Hne; f_equal; lia). rewrite Hs0 by (intros [= E1 E2]; apply Hne; f_equal; lia). destruct (decide (g = f)) as [->|Hg].
      * rewrite list_lookup_insert_eq in Hlg by done. injection Hlg as <-. apply (I4 f og l j bj pj); try done. rewrite <- Hlj; [done|]. congruence.
      * rewrite list_lookup_insert_ne in Hlg by done. by apply (I4 g og lg j bj pj).
  - intros g term. cbn [with_streams terms]. destruct (decide ((g, term) = (Z.of_nat f, Z.of_nat i))) as [[= -> ->]|Hne].
    + intros _. exists l'. rewrite Nat2Z.id, list_lookup_insert_eq by done. unfold vlen. split_and!; done || lia.
    + rewrite lookup_insert_ne by done. rewrite Hs0 by done. intros Hsome. destruct (I5 g term Hsome) as (lg & Hg0 & Hlg & Hterm). destruct (decide (Z.to_nat g = f)) as [Eg|Hg].
      * exists l'. rewrite Eg, list_lookup_insert_eq by done. rewrite Eg, Hl in Hlg. injection Hlg as <-. unfold vlen in *. split_and!; done || lia.
      * exists lg. by rewrite list_lookup_insert_ne.
Qed.

(** What [TermsHashPerFieldBase.add] leaves of the base. *)
Lemma add_base b ps term b' ps' : TermsHashPerFieldBase.add b ps term = Ok (b', ps') → let pa := TermsHashPerFieldBase.postings_array in
  ParallelPostingsArray.text_starts (pa b') = ParallelPostingsArray.text_starts (pa b) ∧ ParallelPostingsArray.size (pa b') = ParallelPostingsArray.size (pa b).
Proof.
  unfold TermsHashPerFieldBase.add, with_int_start, with_byte_start. destruct (0 <=? term).
  - intros E. repeat (apply bind_Ok in E as (? & ? & E)). injection E as <- <-. repeat match goal with H : _ ≫= _ = Ok _ |- _ => apply bind_Ok in H as (? & ? & H) end. simplify_eq. done.
  - intros E. apply bind_Ok in E as (? & _ & E). by injection E as <- <-.
Qed.

Lemma on_field_inv f g st st' : 0 ≤ f → on_field f g st = Ok st' →
  ∃ fd fd' ps', fields st !! Z.to_nat f = Some fd ∧ g fd (shared st) = Ok (fd', ps') ∧ st' = State (<[Z.to_nat f := fd']> (fields st)) ps'.
Proof.
  intros Hf. unfold on_field. intros E. apply bind_Ok in E as (fd & Hfd & E). apply vget_Ok in Hfd as [_ Hfd]. apply bind_Ok in E as ([fd' ps'] & Hg & E).
  apply bind_Ok in E as (fs & Hfs & E). apply vset_Ok in Hfs as [_ ->]. injection E as <-. by exists fd, fd', ps'.
Qed.

(** What a token costs at most. *)
Definition token_cost (tok : token) : Z := 9000 + 2 * vlen (term_bytes tok) + 120 * vlen (default [] (payload tok)).
(** What a token must satisfy where the term has the postings [p], if it has any. *)
Definition token_fits (opt : IndexOptions.t) (doc : Z) (o : occ) (p : option postings) : Prop :=
  match p with
  | Some p => may_follow opt doc o p
  | None => 0 ≤ doc < 2 ^ 30 ∧ (pr opt = true → occ_follows (off opt) 0 0 o)
  end.

(** A term the field has. *)
Lemma add_known_term opts ws ps ix s T own iown (f i : nat) w opt l p st tok doc : let o := occ_of st tok in
  index_ok opts ws ps ix s T own iown → ws !! f = Some w → opts !! f = Some opt → ix !! f = Some l → l !! i = Some (term_bytes tok, p) → may_follow opt doc o p → Z.of_nat i < 2 ^ 31 - 1 →
  T + 3600 + 120 * vlen (o_payload o) ≤ LIMIT →
  ∃ w' ps' st' s' own', FreqProxTermsWriterPerField.add hash32 w ps st tok doc = Ok (w', ps', st') ∧ same_place st st' ∧
    index_ok opts (<[f := w']> ws) ps' (<[f := <[i := (term_bytes tok, add_posting doc o p)]> l]> ix) s' (T + 3600 + 120 * vlen (o_payload o)) own' iown.
Proof.
  intros o Hix Hw Hopt Hl Hli Hfol Hi31 HT. pose proof Hix as [I1 I2 I3 I4 I5]. destruct (I3 f w Hw) as (opt' & l' & E1 & E2 & [Ht Hc]). rewrite Hopt in E1. rewrite Hl in E2. injection E1 as <-. injection E2 as <-.
  pose proof (I4 f opt l i _ p Hopt Hl Hli) as Hterm. pose proof (lookup_lt_Some _ _ _ Hw) as Hfw. pose proof (vlen_nonneg (o_payload o)).
  assert (l.*1 !! i = Some (term_bytes tok)) as Hti by (by rewrite list_lookup_fmap, Hli). assert (l.*2 !! i = Some p) as Hpi by (by rewrite list_lookup_fmap, Hli).
  unfold FreqProxTermsWriterPerField.add. rewrite (add_old hash32 _ _ _ _ i (tx_repr _ _ _ _ Ht) Hti). cbn [mbind result_bind]. rewrite (proj2 (Z.leb_gt 0 _)) by lia. cbn [mbind result_bind].
  replace (with_hash (bytes_hash w) w) with w by (by destruct w). replace (Pools (int_pool ps) (byte_pool ps)) with ps by (by destruct ps).
  destruct (select_inv _ _ s T own iown (Z.of_nat f) (Z.of_nat i) (Spec (caps s) (terms s) (<[Z.of_nat f := Z.of_nat i]> (current s))) I1 ltac:(lia)) as (st1 & Ex & Hinv1).
  { cbn [spec_step]. rewrite Hterm. by rewrite decide_True. }
  apply on_field_inv in Ex as (b0 & b1 & ps1 & Hb0 & Ha & ->); [|lia]. cbn [fields shared] in *. rewrite Nat2Z.id in *. assert (b0 = base w) as ->.
  { pose proof (list_lookup_fmap base ws f) as E. rewrite Hw in E. change (base <$> ws) with (map base ws) in E. cbn [fmap option_fmap option_map] in E. congruence. }
  replace (- (Z.of_nat i + 1)) with (- Z.of_nat i - 1) by lia. rewrite Ha. cbn [mbind result_bind]. replace (- (- Z.of_nat i - 1 + 1)) with (Z.of_nat i) by lia.
  assert (ps1 = ps) as ->. { unfold TermsHashPerFieldBase.add in Ha. rewrite (proj2 (Z.leb_gt 0 _)) in Ha by lia. apply bind_Ok in Ha as (? & _ & Ha). by injection Ha as _ <-. }
  destruct (add_base _ _ _ _ _ Ha) as [Et Es]. destruct (with_base_ok opt b1 w ps own l.*1 l.*2 Et Es Ht Hc) as (Ht1 & Hc1 & Ea1). set (w1 := with_base b1 w) in *.
  pose proof Hc1 as [O1 O2 O3 O4]. destruct (O3 i p Hpi) as [Hcell Hpok]. set (s1 := Spec _ _ _) in Hinv1.
  assert (length l ≤ Z.to_nat (array_size w1))%nat as Hcap.
  { pose proof (re_len _ _ _ _ (tx_repr _ _ _ _ Ht1)) as Hrl. change (bs_bytes _) with (text_starts w1) in Hrl. rewrite (tx_starts _ _ _ _ Ht1) in Hrl. unfold vlen in Hrl. rewrite length_fmap in Hrl. lia. }
  pose proof (lookup_lt_Some _ _ _ Hli) as Hil.
  destruct (add_term_spec (stream_counts opts) (<[f := b1]> (map base ws)) (Z.of_nat f) (Z.of_nat i) b1 s1 iown) with (opt := opt) (cap := array_size w1) (w := w1) (ps := ps) (T := T) (own := own) (i := Z.of_nat i) (p := p) (st := st) (tok := tok) (doc := doc)
    as (w' & ps' & st' & own' & E & Hwr & Hk & Hre & Hsz & Hcell' & Hsame); try done; try lia.
  - rewrite Nat2Z.id. apply list_lookup_insert_eq. by rewrite length_map.
  - cbn. by rewrite lookup_insert_eq.
  - apply base_with_base.
  - unfold writing, with_streams. cbn [s1 caps terms current]. by rewrite (insert_id (terms s)).
  - exists w', ps', st', (with_streams (Z.of_nat f) (Z.of_nat i) s1 (streams opt (add_posting doc o p))), own'. split; [done|]. split; [done|].
    apply (index_update opts ws ps ix s T own iown f i w w' opt l _ (term_bytes tok)); try done.
    + rewrite (rewrites_base _ _ _ Hre). unfold w1. by rewrite base_with_base.
    + split; [|].
      * rewrite list_fmap_insert. cbn [fst]. rewrite list_insert_id by done. apply (texts_rewrite (Z.of_nat i) w1); [|done]. apply (texts_frame w1 ps ps' own own' _ (T + 3600 + 120 * vlen (o_payload o))); try done. apply (inv_pool _ _ _ _ _ _ Hwr).
      * rewrite list_fmap_insert. cbn [snd]. apply (cells_rewrite opt w1); try done; [by apply add_posting_ok|by rewrite length_fmap].
    + by apply list_lookup_insert_eq.
    + intros j Hj. by apply list_lookup_insert_ne.
    + by rewrite length_insert.
Qed.
(** ** A new string *)

Lemma resize_nthz_any l n j : vlen l ≤ n → 0 ≤ j → nthz (ParallelPostingsArray.resize l n) j = nthz l j.
Proof.
  intros Hn Hj. destruct (decide (j < vlen l)); [by apply resize_nthz|]. unfold ParallelPostingsArray.resize, nthz. rewrite take_ge by (unfold vlen in *; lia). rewrite lookup_app_r by (unfold vlen in *; lia).
  rewrite (lookup_ge_None_2 l) by (unfold vlen in *; lia). destruct (replicate _ 0 !! _) as [x|] eqn:E; [|done]. by apply lookup_replicate in E as [-> _].
Qed.
Lemma resize_used_nthz l n j : vlen l ≤ n → 0 ≤ j → nthz (A.resize_used l n) j = nthz l j.
Proof. intros Hn Hj. unfold A.resize_used. destruct (A.is_empty l); [done|]. by apply resize_nthz_any. Qed.
Lemma vlen_resize_used l n (used : bool) cap : vlen l = (if used then cap else 0) → 1 ≤ cap ≤ n → vlen (A.resize_used l n) = if used then n else 0.
Proof.
  intros Hl Hc. unfold A.resize_used, A.is_empty. rewrite Hl. destruct used.
  - rewrite (proj2 (Z.eqb_neq cap 0)) by lia. cbn [negb]. apply vlen_resize. lia.
  - cbn. done.
Qed.

(** The array with room for one more string. *)
Definition roomy (w : t) : A.t := roomy_array (bytes_hash w).

Lemma roomy_cells opt w l : cells_ok opt w l → 1 ≤ array_size w → let n := ParallelPostingsArray.size (A.base (roomy w)) in
  array_size w ≤ n ∧ sized_array opt (roomy w) n ∧ (∀ i p, l !! i = Some p → cell opt (roomy w) (Z.of_nat i) p) ∧ (∀ i, vlen l ≤ i → nthz (A.last_offsets (roomy w)) i = 0).
Proof.
  intros [C1 C2 C3 C4] Hsz n. unfold n, roomy, roomy_array. change (BytesRefHash.bytes_start_array (bytes_hash w)) with (postings_array w). destruct (_ >=? _); [|split_and!; try done; intros i p Hi; by apply (C3 i p Hi)].
  pose proof (over_size_grows (array_size w + 1)) as Hg. destruct C2 as [S1 S2 S3 S4 S5]. cbn [bs_grow FreqProxPostingsArray.postings_bytes_start_array]. unfold A.grow. cbn [A.base ParallelPostingsArray.grow ParallelPostingsArray.size].
  fold (array_size w). set (m := over_size (array_size w + 1)) in *. split_and!; [lia|..].
  - split; cbn; rewrite ?vlen_resize by lia; try done; by apply (vlen_resize_used _ _ _ (array_size w)); [|lia].
  - intros i p Hi. destruct (C3 i p Hi) as [[D1 D2 D3 D4 D5] _]. split; cbn; rewrite ?resize_nthz_any by lia; try done; intros E; rewrite resize_used_nthz; try lia; auto; rewrite ?S3, ?S4, ?S5, E; lia.
  - intros i Hi. cbn. pose proof (vlen_nonneg l). rewrite resize_used_nthz; [by apply C4|rewrite S5; destruct (off opt); lia|lia].
Qed.

(** The owners once a string was stored between [lo] and [hi]. *)
Definition own_text (own : Z → option key) (lo hi : Z) (a : Z) : option key := if decide (lo ≤ a < hi) then Some TEXT else own a.

Lemma text_inv scs st s T own iown bp' T' : inv scs st s T own iown → pool_wf bp' T' → T ≤ T' → let bp := byte_pool (shared st) in head bp ≤ head bp' → (∀ a, 0 ≤ a < head bp → mem bp' a = mem bp a) →
  inv scs (State (fields st) (Pools (int_pool (shared st)) bp')) s T' (own_text own (head bp) (head bp')) iown ∧ keeps own (own_text own (head bp) (head bp')) (shared st) (Pools (int_pool (shared st)) bp').
Proof.
  intros [I1 I2 I3 I4 I5 I6 I7 I8] Hwf HT bp Hh Hm. assert (∀ a k, own a = Some k → own_text own (head bp) (head bp') a = Some k ∧ mem bp' a = mem bp a) as Hkeep.
  { intros a k Ha. pose proof (I3 a k Ha) as Hb. unfold own_text. rewrite decide_False by (fold bp in Hb; lia). split; [done|]. by apply Hm. }
  split; [|split; [done|]; intros a k _; apply Hkeep]. split; cbn [shared fields byte_pool int_pool]; try done.
  - by apply (ints_wf_mono _ T).
  - intros a k. unfold own_text, bp in *. case_decide; [pose proof (head_nonneg _ _ I1); lia|]. intros Ha. pose proof (I3 a k Ha). lia.
  - intros f term ss Hs. destruct (I7 f term ss Hs) as (Hf & fd & Hfd & Ht). split; [done|]. exists fd. split; [done|]. apply (term_frame (shared st) _ own _ iown iown fd fd); try done; [apply Ht|]. intros i a. apply Hkeep.
Qed.

(** The base after its array was given room. *)
Lemma started_inv opts ws ps s T own iown (f : nat) w w1 opt start : inv (stream_counts opts) (State (map base ws) ps) s T own iown → ws !! f = Some w → opts !! f = Some opt →
  base w1 = TermsHashPerFieldBase.mk (stream_count w) (num_posting_int w) (A.base (started (bytes_hash w) start)) (int_upto_idx w) (int_upto_start w) →
  inv (stream_counts opts) (State (<[f := base w1]> (map base ws)) ps) (Spec (<[f := array_size w1]> (caps s)) (terms s) (current s)) T own iown.
Proof.
  intros Hinv Hw Hopt Hb1. pose proof Hinv as [I1 I2 I3 I4 I5 I6 I7 I8]. cbn [fields shared] in *. assert (map base ws !! f = Some (base w)) as Hfd by (change (map base ws) with (base <$> ws); by rewrite list_lookup_fmap, Hw).
  destruct (I6 f _ Hfd) as (sc & cap & Esc & Ecap & Hfw). pose proof Hfw as [F1 F2 F3 F4 F5 F6]. cbn [base TermsHashPerFieldBase.postings_array TermsHashPerFieldBase.stream_count TermsHashPerFieldBase.num_posting_int] in *.
  assert (let r := A.base (roomy w) in cap ≤ ParallelPostingsArray.size r ∧ vlen (ParallelPostingsArray.int_starts r) = ParallelPostingsArray.size r ∧ vlen (ParallelPostingsArray.byte_starts r) = ParallelPostingsArray.size r ∧
    ∀ j, 0 ≤ j → nthz (ParallelPostingsArray.int_starts r) j = nthz (ParallelPostingsArray.int_starts (A.base (postings_array w))) j ∧ nthz (ParallelPostingsArray.byte_starts r) j = nthz (ParallelPostingsArray.byte_starts (A.base (postings_array w))) j) as (R1 & R2 & R3 & R4).
  { unfold roomy, roomy_array. change (BytesRefHash.bytes_start_array (bytes_hash w)) with (postings_array w). destruct (_ >=? _); [|split_and!; try done; lia]. cbn. rewrite F4. pose proof (over_size_grows (cap + 1)).
    split_and!; [lia|apply vlen_resize; lia|apply vlen_resize; lia|]. intros j Hj. by rewrite !resize_nthz_any by lia. }
  assert (array_size w1 = ParallelPostingsArray.size (A.base (roomy w))) as Es by (unfold array_size; change (A.base (postings_array w1)) with (TermsHashPerFieldBase.postings_array (base w1)); by rewrite Hb1).
  rewrite <- (Nat2Z.id f) at 1 2. apply (field_inv _ (State (map base ws) ps) s _ T own iown (Z.of_nat f) (base w) (base w1) sc (array_size w1)); rewrite ?Nat2Z.id; try done; try lia.
  - rewrite Hb1, Es. split; cbn; done.
  - intros g. cbn [caps]. case_decide as E; [subst g; apply list_lookup_insert_eq; by eapply lookup_lt_Some|by apply list_lookup_insert_ne].
  - intros term Hterm. unfold int_start, byte_start. rewrite Hb1. cbn. change (ParallelPostingsArray.int_starts _) with (ParallelPostingsArray.int_starts (A.base (roomy w))) at 1 2.
    cbn [base TermsHashPerFieldBase.postings_array] in Hterm. destruct (R4 term ltac:(lia)) as [-> R4b]. split; [lia|]. split; done.
  - intros g term Hc. destruct (I8 g term Hc) as (fd0 & Hfd0 & [ss Hss] & Hslot). pose proof (proj1 (I7 _ _ _ Hss)). split; [by eexists|]. split; [done|]. split; [done|].
    intros ->. rewrite Nat2Z.id, Hfd in Hfd0. injection Hfd0 as <-. by rewrite Hb1.
Qed.
(** The field once the hash has the string [b]. *)
Lemma started_field opt w w1 ps ps1 own l b h' start : texts_ok w ps own l.*1 → cells_ok opt w l.*2 → w1 = with_hash h' w → BytesRefHash.bytes_start_array h' = started (bytes_hash w) start →
  repr hash32 h' (byte_pool ps1) (l.*1 ++ [b]) → head (byte_pool ps) ≤ start →
  texts_ok w1 ps1 (own_text own (head (byte_pool ps)) (head (byte_pool ps1))) (l.*1 ++ [b]) ∧ cells_ok opt w1 l.*2.
Proof.
  intros [Hr Ho Hsz Hst] Hc -> Ea Hr' Hs. destruct (roomy_cells opt w l.*2 Hc Hsz) as (R1 & R2 & R3 & R4). set (w1 := with_hash h' w).
  assert (postings_array w1 = A.with_text_starts (<[Z.to_nat (vlen l) := start]> (ParallelPostingsArray.text_starts (A.base (roomy w)))) (roomy w)) as Ea1.
  { unfold postings_array. change (bytes_hash w1) with h'. rewrite Ea. unfold started. rewrite (tb_count _ _ _ (re_table _ _ _ _ Hr)). unfold vlen. by rewrite length_fmap. }
  assert (array_size w1 = ParallelPostingsArray.size (A.base (roomy w))) as Es1 by (unfold array_size; by rewrite Ea1).
  destruct (add_start_spec (bytes_hash w) start (re_wf _ _ _ _ Hr)) as (_ & _ & A2 & A3 & _).
  { rewrite (tb_count _ _ _ (re_table _ _ _ _ Hr)). pose proof (re_len _ _ _ _ Hr). unfold vlen in *. lia. }
  rewrite (tb_count _ _ _ (re_table _ _ _ _ Hr)), length_fmap in A2, A3. rewrite <- Ea in A2, A3. change (bs_bytes (BytesRefHash.bytes_start_array h')) with (text_starts w1) in A2, A3.
  split; [split|split].
  - done.
  - intros i c Hi x Hx. unfold own_text. case_decide; [done|]. apply lookup_snoc_Some in Hi as [[Hlt Hi]|[-> <-]].
    + rewrite length_fmap in Hlt. apply (Ho i c Hi). unfold text_start in *. rewrite A3 in Hx by lia. done.
    + rewrite length_fmap in Hx. unfold text_start in Hx. rewrite A2 in Hx. destruct (re_texts _ _ _ _ Hr' (length l) b) as [X1 X2 X3 X4]; [by rewrite lookup_app_r, length_fmap, Nat.sub_diag by (rewrite length_fmap; lia)|].
      change (bs_bytes (BytesRefHash.bytes_start_array h')) with (text_starts w1) in X3. rewrite A2 in X3. lia.
  - lia.
  - pose proof (re_wf _ _ _ _ Hr') as Hwf. done.
  - destruct Hc as [[? ? ?] _ _ _]. by split.
  - rewrite Es1, Ea1. destruct R2. by split.
  - intros i p Hi. rewrite Ea1. destruct (cl_cells _ _ _ Hc i p Hi) as [_ Hp]. split; [|done]. destruct (R3 i p Hi). by split.
  - intros i Hi. rewrite Ea1. by apply R4.
Qed.

(** The streams of a new term. *)
Lemma fresh_streams opt : replicate (Z.to_nat (if pr opt then 2 else 1)) (@nil Z) = [] :: if pr opt then [[]] else [].
Proof. by destruct (pr opt). Qed.

(** A term the field does not have. *)
Lemma add_fresh_term opts ws ps ix s T own iown (f : nat) w opt l st tok doc : let o := occ_of st tok in let b := term_bytes tok in
  index_ok opts ws ps ix s T own iown → ws !! f = Some w → opts !! f = Some opt → ix !! f = Some l → b ∉ l.*1 → vlen b < B - 2 → 0 ≤ doc < 2 ^ 30 → (pr opt = true → occ_follows (off opt) 0 0 o) → vlen l < 2 ^ 31 - 2 →
  T + token_cost tok ≤ LIMIT →
  ∃ w' ps' st' s' own' iown', FreqProxTermsWriterPerField.add hash32 w ps st tok doc = Ok (w', ps', st') ∧ same_place st st' ∧
    index_ok opts (<[f := w']> ws) ps' (<[f := l ++ [(b, first_posting doc o)]]> ix) s' (T + token_cost tok) own' iown'.
Proof.
  intros o b Hix Hw Hopt Hl Hb Hlen Hdoc Hocc Hl31 HT. pose proof Hix as [I1 I2 I3 I4 I5]. destruct (I3 f w Hw) as (opt' & l' & E1 & E2 & [Ht Hc]). rewrite Hopt in E1. rewrite Hl in E2. injection E1 as <-. injection E2 as <-.
  pose proof (lookup_lt_Some _ _ _ Hw) as Hfw. unfold token_cost in *. change (default [] (payload tok)) with (o_payload o) in *. fold b in HT |- *. pose proof (vlen_nonneg (o_payload o)). pose proof (vlen_nonneg b). pose proof (vlen_nonneg l) as Hl0.
  assert (vlen l.*1 = vlen l) as Hvl by (unfold vlen; by rewrite length_fmap). pose proof (inv_pool _ _ _ _ _ _ I1) as Hwf0. cbn [shared] in Hwf0.
  destruct (add_new hash32 (bytes_hash w) (byte_pool ps) l.*1 b T (tx_repr _ _ _ _ Ht) Hwf0 Hb (or_introl Hlen)) as (h1 & bp1 & start & Eh & Hr1 & Hhead & Hmem & Hwf1 & Hstart & Ea1).
  { pose proof Hwf0 as []. unfold head, LIMIT, B in *. lia. }
  set (w1 := with_hash h1 w). set (ps1 := Pools (int_pool ps) bp1). destruct (started_field opt w w1 ps ps1 own l b h1 start Ht Hc eq_refl Ea1 Hr1 Hstart) as [Ht1 Hc1]. set (own1 := own_text own (head (byte_pool ps)) (head (byte_pool ps1))) in *.
  pose proof (started_inv opts ws ps s T own iown f w w1 opt start I1 Hw Hopt) as Hi1. specialize (Hi1 ltac:(unfold base, postings_array; cbn; by rewrite Ea1)). set (s1 := Spec (<[f := array_size w1]> (caps s)) _ _) in Hi1.
  destruct (text_inv _ _ s1 T own iown bp1 (T + 2 * (2 + vlen b)) Hi1 Hwf1 ltac:(lia)) as [Hi2 K2]; cbn [shared]; [lia|done|]. cbn [fields shared] in Hi2, K2. change (Pools (int_pool ps) bp1) with ps1 in Hi2, K2. change (own_text own _ _) with own1 in Hi2, K2.
  assert (vlen l < array_size w1) as Hcap. { pose proof (re_len _ _ _ _ (tx_repr _ _ _ _ Ht1)) as Hrl. change (bs_bytes _) with (text_starts w1) in Hrl. rewrite (tx_starts _ _ _ _ Ht1), vlen_app, Hvl in Hrl. change (vlen [b]) with 1 in Hrl. lia. }
  assert (opts !! f = Some opt → stream_counts opts !! f = Some (if pr opt then 2 else 1)) as Hscs by (intros E; unfold stream_counts; change (map _ opts) with ((fun opt => if pr opt then 2 else 1) <$> opts); by rewrite list_lookup_fmap, E).
  specialize (Hscs Hopt). assert (f < length (caps s))%nat as Hfc.
  { destruct (inv_fields _ _ _ _ _ _ I1 f (base w)) as (? & cap & _ & E & _); [cbn; change (map base ws) with (base <$> ws); by rewrite list_lookup_fmap, Hw|]. by eapply lookup_lt_Some. }
  set (s2 := Spec (caps s1) (<[(Z.of_nat f, vlen l) := [] :: if pr opt then [[]] else []]> (terms s)) (<[Z.of_nat f := vlen l]> (current s))).
  destruct (add_inv (stream_counts opts) _ s1 (T + 2 * (2 + vlen b)) own1 iown (Z.of_nat f) (vlen l) s2 Hi2 ltac:(lia)) as (st2 & own2 & iown2 & Ex & Hi3 & K3).
  { cbn [spec_step]. rewrite Nat2Z.id, Hscs. cbn [s1 caps terms]. rewrite list_lookup_insert_eq by done. destruct (terms s !! (Z.of_nat f, vlen l)) as [ss|] eqn:Et.
    - exfalso. destruct (I5 (Z.of_nat f) (vlen l)) as (l0 & _ & E0 & Hlt); [by eexists|]. rewrite Nat2Z.id, Hl in E0. injection E0 as <-. lia.
    - rewrite decide_True by lia. by rewrite fresh_streams. }
  apply on_field_inv in Ex as (b0 & b1 & ps2 & Hb0 & Ha & ->); [|lia]. cbn [fields shared] in *. rewrite Nat2Z.id in *. assert (b0 = base w1) as ->.
  { rewrite list_lookup_insert_eq in Hb0 by (by rewrite length_map). congruence. }
  rewrite list_insert_insert_eq in Hi3. destruct (add_base _ _ _ _ _ Ha) as [Et Es]. destruct (with_base_ok opt b1 w1 ps1 own1 _ _ Et Es Ht1 Hc1) as (Ht2 & Hc2 & Ea2). set (w2 := with_base b1 w1) in *.
  destruct (new_term_spec (stream_counts opts) (<[f := b1]> (map base ws)) (Z.of_nat f) (vlen l) b1 s2 iown2) with (opt := opt) (cap := array_size w2) (w := w2) (ps := ps2) (T := T + 2 * (2 + vlen b) + 5000) (own := own2) (i := vlen l) (st := st) (tok := tok) (doc := doc)
    as (w' & ps' & st' & own' & E & Hwr & Hk & Hre & Hsz & Hcell' & Hsame); try done; try lia.
  - rewrite Nat2Z.id. apply list_lookup_insert_eq. by rewrite length_map.
  - cbn. by rewrite lookup_insert_eq.
  - apply Hc2.
  - apply base_with_base.
  - apply Hc2.
  - apply Hc2. unfold vlen. rewrite length_fmap. lia.
  - unfold writing, with_streams. cbn [s2 caps terms current]. by rewrite insert_insert_eq.
  - fold o. lia.
  - fold o in Hwr, Hcell'. exists w', ps', st', (with_streams (Z.of_nat f) (vlen l) s2 (streams opt (first_posting doc o))), own', iown2. split; [|split; [done|]].
    + unfold FreqProxTermsWriterPerField.add. fold b. rewrite Eh. cbn [mbind result_bind]. rewrite Hvl. change (with_hash h1 w) with w1. change (Pools (int_pool ps) bp1) with ps1. rewrite (proj2 (Z.leb_le 0 _)) by lia.
      change (bytes_hash w1) with h1. unfold BytesRefHash.byte_start. rewrite vget_nthz by (change (bs_bytes _) with (text_starts w1); rewrite (tx_starts _ _ _ _ Ht1); lia). cbn [mbind result_bind]. rewrite Ha. cbn [mbind result_bind]. done.
    + pose proof (vlen_nonneg (term_bytes tok)). assert (keeps own own' ps ps') as Hkeep by (apply (keeps_trans _ own1 _ _ ps1); [done|]; apply (keeps_trans _ own2 _ _ ps2); done).
      apply (index_update opts ws ps ix s T own iown f (length l) w w' opt l _ b (first_posting doc o)); try done.
      * rewrite (rewrites_base _ _ _ Hre). unfold w2. rewrite base_with_base. apply (inv_mono _ _ _ _ _ _ _ Hwr). lia.
      * intros k Hk'. cbn [s2 terms]. by rewrite lookup_insert_ne.
      * split.
        -- rewrite fmap_app. cbn. apply (texts_rewrite (vlen l) w2); [|done]. apply (texts_frame w2 ps1 ps' own1 own' _ (T + 2 * (2 + vlen b) + 5000 + 2400 + 120 * vlen (o_payload o))); try done; [by apply (keeps_trans _ own2 _ _ ps2)|apply (inv_pool _ _ _ _ _ _ Hwr)].
        -- rewrite fmap_app. cbn. assert (vlen l.*2 = vlen l) as Hv2 by (unfold vlen; by rewrite length_fmap). apply (cells_append opt w2); rewrite ?Hv2; try done.
      * by rewrite lookup_app_r, Nat.sub_diag by lia.
      * intros j Hj. destruct (decide (j < length l)%nat); [by rewrite lookup_app_l|]. rewrite !lookup_ge_None_2; [done|lia|]. rewrite length_app. cbn. lia.
      * rewrite length_app. lia.
Qed.
(** ** Any token *)

Lemma add_token opts ws ps ix s T own iown (f : nat) w opt l st tok doc : let o := occ_of st tok in let b := term_bytes tok in
  index_ok opts ws ps ix s T own iown → ws !! f = Some w → opts !! f = Some opt → ix !! f = Some l → vlen b < B - 2 → token_fits opt doc o (postings_of b l) → T + token_cost tok ≤ LIMIT →
  ∃ w' ps' st' s' own' iown', FreqProxTermsWriterPerField.add hash32 w ps st tok doc = Ok (w', ps', st') ∧ same_place st st' ∧
    index_ok opts (<[f := w']> ws) ps' (<[f := add_occurrence b doc o l]> ix) s' (T + token_cost tok) own' iown'.
Proof.
  intros o b Hix Hw Hopt Hl Hlen Hfit HT. pose proof Hix as [I1 I2 I3 I4 I5]. destruct (I3 f w Hw) as (opt' & l' & E1 & E2 & [Ht Hc]). rewrite Hopt in E1. rewrite Hl in E2. injection E1 as <-. injection E2 as <-.
  pose proof (tx_repr _ _ _ _ Ht) as Hr. pose proof (re_nodup _ _ _ _ Hr) as Hnd. pose proof (re_small _ _ _ _ Hr) as Hsm. pose proof (inv_pool _ _ _ _ _ _ I1) as Hwf0. cbn [shared] in Hwf0.
  assert (vlen l.*1 = vlen l) as Hvl by (unfold vlen; by rewrite length_fmap). rewrite Hvl in Hsm. pose proof (vlen_nonneg b). pose proof (vlen_nonneg (o_payload o)).
  assert (vlen l < 2 ^ 31 - 2) as Hl31. { pose proof Hwf0 as []. unfold token_cost, head, LIMIT, B in *. change (default [] (payload tok)) with (o_payload o) in HT. fold b in HT. lia. }
  destruct (decide (b ∈ l.*1)) as [Hin|Hnin].
  - apply list_elem_of_fmap in Hin as ([b' p] & Eb & Hin). cbn in Eb. subst b'. apply list_elem_of_lookup in Hin as (i & Hi). pose proof (lookup_lt_Some _ _ _ Hi). unfold vlen in Hl31. rewrite (postings_of_old b l i p Hnd Hi) in Hfit.
    destruct (add_known_term opts ws ps ix s T own iown f i w opt l p st tok doc Hix Hw Hopt Hl Hi Hfit) as (w' & ps' & st' & s' & own' & E & Hs & Hix'); [lia|unfold token_cost in HT; change (default [] (payload tok)) with (o_payload o) in HT; fold b o in HT |- *; lia|].
    exists w', ps', st', s', own', iown. split; [done|]. split; [done|]. rewrite (add_occurrence_old b doc o l i p Hnd Hi). destruct Hix' as [J1 J2 J3 J4 J5]. split; try done.
    apply (inv_mono _ _ _ _ _ _ _ J1). unfold token_cost. change (default [] (payload tok)) with (o_payload o). fold b o. lia.
  - rewrite (postings_of_new b l Hnin) in Hfit. destruct Hfit as [Hdoc Hocc]. destruct (add_fresh_term opts ws ps ix s T own iown f w opt l st tok doc) as (w' & ps' & st' & s' & own' & iown' & E & Hs & Hix'); try done.
    exists w', ps', st', s', own', iown'. split; [done|]. split; [done|]. by rewrite (add_occurrence_new b doc o l Hnin).
Qed.
End index.
