(* ===== verification/FreqProxReadFacts.v ===== *)
(** The iterators over the streams of a term give its postings back. *)

From S2P Require Import Prelude DataIO DataIOFacts DocIter PackedBulkFacts PackedArrayFacts BytePool BytePoolFacts BytesRefHash FreqProx PostingsSpec FreqProxFacts.
Open Scope Z_scope.
Import TermsHashPerFieldBase.

Lemma parses_vi v : 0 ≤ v < 2 ^ 31 → parses (I := ByteSliceReader.t) read_vint (vi v) v.
Proof. intros Hv. rewrite <- (as_i_id 32 v) at 2 by (try lia; unfold is_i; lia). apply parses_vint. unfold is_u. lia. Qed.

Lemma shiftr_code g (b : Z) : 0 ≤ b < 2 → Z.shiftr (2 * g + b) 1 = g ∧ (Z.land (2 * g + b) 1 =? 0) = (b =? 0).
Proof.
  intros Hb. rewrite Z.shiftr_div_pow2 by lia. change (Z.land (2 * g + b) 1) with (Z.land (2 * g + b) (Z.ones 1)). rewrite Z.land_ones by lia. change (2 ^ 1) with 2.
  replace (2 * g + b) with (b + g * 2) by lia. rewrite Z.div_add, Z.mod_add, Z.div_small, Z.mod_small by lia. split; [lia|done].
Qed.
Lemma shiftr_even g : Z.shiftr (2 * g) 1 = g ∧ (Z.land (2 * g) 1 =? 0) = true.
Proof. replace (2 * g) with (2 * g + 0) by lia. by apply (shiftr_code g 0). Qed.
Lemma shiftr_odd g : Z.shiftr (2 * g + 1) 1 = g ∧ (Z.land (2 * g + 1) 1 =? 0) = false.
Proof. by apply (shiftr_code g 1). Qed.

Lemma vi_not_nil v : vi v ≠ [].
Proof. unfold vi. pose proof (vbytes_length 4 v) as H. destruct (vbytes 4 v); [cbn in H; lia|done]. Qed.
Lemma doc_bytes_not_nil fr g n l : doc_bytes fr g n ++ l ≠ [].
Proof. unfold doc_bytes. destruct fr; [destruct (n =? 1)|]; intros [E _]%app_nil; try apply app_nil in E as [E _]; by apply vi_not_nil in E. Qed.

(** A code and a frequency. *)
Lemma doc_code_read r g n l : 0 ≤ g < 2 ^ 30 → 0 ≤ n < 2 ^ 31 → remains r (doc_bytes true g n ++ l) →
  ∃ code r1, read_vint r = Ok (code, r1) ∧ Z.shiftr code 1 = g ∧
    ∃ r2, (if negb (Z.land code 1 =? 0) then Ok (1, r1) else '(f, r) ← read_vint r1; Ok (as_u32 f, r)) = Ok (n, r2) ∧ remains r2 l.
Proof.
  intros Hg Hn Hr. unfold doc_bytes in Hr. destruct (Z.eqb_spec n 1) as [->|Hne].
  - destruct (parses_vi (2 * g + 1) ltac:(lia) r l Hr) as (r1 & -> & Hr1). destruct (shiftr_odd g) as [E1 E2]. eexists _, r1. split; [done|]. split; [done|]. exists r1. by rewrite E2.
  - rewrite <- app_assoc in Hr. destruct (parses_vi (2 * g) ltac:(lia) r _ Hr) as (r1 & -> & Hr1). destruct (shiftr_even g) as [E1 E2]. eexists _, r1. split; [done|]. split; [done|].
    destruct (parses_vi n Hn r1 l Hr1) as (r2 & E & Hr2). exists r2. rewrite E2. cbn [negb]. rewrite E. cbn [mbind result_bind]. by rewrite as_u_id by (unfold is_u; lia).
Qed.

Section term.
Context (w : FreqProxTermsWriterPerField.t) (opt : IndexOptions.t) (i cap : Z) (p : postings).
Context (Hsz : sized_array opt (FreqProxTermsWriterPerField.postings_array w) cap) (Hi : 0 ≤ i < cap) (Hc : cell opt (FreqProxTermsWriterPerField.postings_array w) i p) (Hp : postings_ok opt p).
#[local] Set Default Proof Using "Type*".

(** * Documents *)

Section docs.
Import FreqProxDocsIterator.

Record docs_state (it : t) (base : Z) (rest : list (Z * list occ)) : Prop := {
  ds_reader : remains (reader it) (docs_bytes (fr opt) base rest);
  ds_base : (if doc_id it =? -1 then 0 else doc_id it) = base;
  ds_freq : read_term_freq it = fr opt;
  ds_term : term_id it = i;
}.

Definition docs_freq (os : list occ) : result Z := if fr opt then Ok (vlen os) else Err IllegalState.

Lemma next_doc it base d os rest : docs_state it base ((d, os) :: rest) → 0 ≤ base ≤ d → d < 2 ^ 30 → vlen os < 2 ^ 31 →
  ∃ it', next w it = Ok (d, it') ∧ docs_state it' d rest ∧ ended it' = ended it ∧ get_freq it' = docs_freq os.
Proof.
  intros [D1 D2 D3 D4] Hb Hd Hos. pose proof (vlen_nonneg os). unfold next. cbn [docs_bytes] in D1. rewrite D2. rewrite (reading_more _ _ D1) by apply doc_bytes_not_nil. unfold docs_freq. destruct (fr opt) eqn:Efr.
  - destruct (doc_code_read (reader it) (d - base) (vlen os) _ ltac:(lia) ltac:(lia) D1) as (code & r1 & -> & Ec & r2 & E & Hr2). cbn [mbind result_bind]. rewrite D3. cbn [negb]. rewrite Ec, (as_i_id 32 (base + (d - base))) by (try lia; unfold is_i; lia).
    replace (base + (d - base)) with d by lia.
    assert ((if negb (Z.land code 1 =? 0) then Ok (d, 1, r1) else '(f, r) ← read_vint r1; Ok (d, as_u32 f, r)) = Ok (d, vlen os, r2)) as ->.
    { destruct (negb _); [by injection E as -> ->|]. destruct (read_vint r1) as [[f r3]| | |]; try done. cbn [mbind result_bind] in *. by injection E as -> ->. }
    cbn [mbind result_bind]. eexists. split; [done|]. split; [split; cbn; rewrite ?Efr; try done; by rewrite (proj2 (Z.eqb_neq d (-1))) by lia|]. split; [done|]. unfold get_freq. cbn. by rewrite as_i_id by (try lia; unfold is_i; lia).
  - cbn [doc_bytes] in D1. destruct (parses_vi (d - base) ltac:(lia) (reader it) _ D1) as (r1 & -> & Hr1). cbn [mbind result_bind]. rewrite D3. cbn [negb mbind result_bind]. replace (base + (d - base)) with d by lia. rewrite as_i_id by (try lia; unfold is_i; lia).
    eexists. split; [done|]. split; [split; cbn; rewrite ?Efr; try done; by rewrite (proj2 (Z.eqb_neq d (-1))) by lia|]. done.
Qed.

Lemma next_last it base : docs_state it base [] → ended it = false → ∃ it', next w it = Ok (p.2.1, it') ∧ remains (reader it') [] ∧ ended it' = true ∧ get_freq it' = docs_freq p.2.2.
Proof.
  intros [D1 D2 D3 D4] He. pose proof Hsz as [S1 S2 S3 S4 S5]. destruct Hc as [C1 C2 C3 C4 C5]. unfold next. rewrite (reading_eof _ D1), He, D4, (vget_nthz (A.last_doc_ids (FreqProxTermsWriterPerField.postings_array w))), C1, D3 by lia. cbn [mbind result_bind]. unfold docs_freq, get_freq. destruct (fr opt) eqn:Efr.
  - rewrite vget_nthz, C3 by (done || lia). cbn [mbind result_bind]. eexists. split; [done|]. split_and!; try done. cbn. rewrite as_i_id; [done|lia|]. unfold postings_ok, all_docs in Hp. apply docs_ok_snoc in Hp as [_ Hlast].
    destruct Hlast as (_ & (_ & Hn & _) & _). pose proof (vlen_nonneg p.2.2). unfold is_i. lia.
  - cbn [mbind result_bind]. eexists. split; [done|]. split_and!; done.
Qed.

Lemma next_end it : remains (reader it) [] → ended it = true → ∃ it', next w it = Ok (NO_MORE_DOCS, it') ∧ reader it' = reader it ∧ ended it' = true.
Proof. intros Hr He. unfold next. rewrite (reading_eof _ Hr), He. by eexists. Qed.

(** All documents, with their frequencies. *)
Fixpoint drain_docs (fuel : nat) (it : t) : result (list (Z * result Z)) :=
  match fuel with
  | O => Diverge
  | S fuel =>
    '(doc, it) ← next w it;
    if doc =? NO_MORE_DOCS then Ok []
    else l ← drain_docs fuel it; Ok ((doc, get_freq it) :: l)
  end.

Lemma drain_rest rest : ∀ it base fuel, docs_state it base rest → ended it = false → 0 ≤ base → docs_ok opt base (rest ++ [p.2]) → (length rest + 2 ≤ fuel)%nat →
  drain_docs fuel it = Ok (map (fun x => (x.1, docs_freq x.2)) (rest ++ [p.2])).
Proof.
  induction rest as [|[d os] rest IH]; intros it base fuel Hds He Hb Hok Hfuel; (destruct fuel as [|fuel]; [cbn in Hfuel; lia|]); cbn [drain_docs app].
  - destruct (next_last it base Hds He) as (it' & -> & Hr & He' & Hf). cbn [mbind result_bind]. destruct Hok as (Hd & _). rewrite (proj2 (Z.eqb_neq _ _)) by (unfold NO_MORE_DOCS; lia).
    destruct fuel as [|fuel]; [cbn in Hfuel; lia|]. cbn [drain_docs]. destruct (next_end it' Hr He') as (it2 & -> & _). cbn [mbind result_bind Z.eqb]. rewrite Z.eqb_refl. cbn [mbind result_bind map]. by rewrite Hf.
  - destruct Hok as (Hd & (_ & Hn & _) & Hok). cbn [fst snd] in *. destruct (next_doc it base d os rest Hds) as (it' & -> & Hds' & He' & Hf); [lia..|]. cbn [mbind result_bind]. rewrite (proj2 (Z.eqb_neq _ _)) by (unfold NO_MORE_DOCS; lia).
    rewrite (IH it' d fuel); [cbn [mbind result_bind map fst snd]; by rewrite Hf|done|congruence|lia| |cbn in Hfuel; lia]. by apply (docs_ok_mono opt _ (d + 1)); [|lia].
Qed.
End docs.
(** * Positions, payloads and offsets *)

Section positions.
Import FreqProxPostingsIterator.
Context (Hpr : pr opt = true).

(** What is left: the occurrences of the current document, and the later documents. *)
Record positions_state (it : t) (left : list occ) (later : list (Z * list occ)) (pay : list Z) : Prop := {
  po_reader : remains (pos_reader it) (occs_bytes (off opt) (pos it) (start_offset it) left ++ all_occs_bytes (off opt) later);
  po_ok : occs_ok (off opt) (pos it) (start_offset it) left;
  po_pos : 0 ≤ pos it;
  po_start : 0 ≤ start_offset it;
  po_left : pos_left it = vlen left;
  po_few : vlen left < 2 ^ 31;
  po_pay : payload it = pay;
  po_offsets : read_offsets it = off opt;
}.

(** The payload the iterator shows: one that is missing leaves the one before. *)
Definition shown (pay : list Z) (o : occ) : list Z := match o_payload o with [] => pay | l => l end.
(** The state that [next_position] does not change. *)
Definition same_doc (it it' : t) : Prop := reader it' = reader it ∧ doc_id it' = doc_id it ∧ freq it' = freq it ∧ term_id it' = term_id it ∧ ended it' = ended it.

(** Position, payload, and the offsets where they are indexed. *)
Definition occ_seen : Type := Z * list Z * result Z * result Z.
Definition see (it : t) (position : Z) : occ_seen := (position, payload it, get_start_offset it, get_end_offset it).
Definition seen_of (pay : list Z) (o : occ) : occ_seen :=
  (o_pos o, shown pay o, (if off opt then Ok (o_start o) else Err IllegalState), (if off opt then Ok (o_end o) else Err IllegalState)).

(** Without offsets the last one does not matter. *)
Lemma occs_bytes_any lp ls ls' os : occs_bytes false lp ls os = occs_bytes false lp ls' os.
Proof. by destruct os. Qed.
Lemma occs_ok_any lp ls ls' os : occs_ok false lp ls os → occs_ok false lp ls' os.
Proof. destruct os as [|o os]; [done|]. by intros (H1 & H2 & H3 & H4). Qed.

(** The payload of a position. *)
Lemma prox_read r lp o l pay : 0 ≤ lp ≤ o_pos o → o_pos o < 2 ^ 30 → vlen (o_payload o) < 2 ^ 30 → remains r (prox_bytes lp o ++ l) →
  ∃ code r1, read_vint r = Ok (code, r1) ∧ Z.shiftr code 1 = o_pos o - lp ∧
    ∃ r2, (if negb (Z.land code 1 =? 0) then '(n, r) ← read_vint r1; '(bytes, r) ← read_exact r (as_u64 n); Ok (true, bytes, r) else Ok (false, pay, r1)) = Ok (negb (vlen (o_payload o) =? 0), shown pay o, r2) ∧ remains r2 l.
Proof.
  intros Hlp Hpos Hpl Hr. unfold prox_bytes, shown in *. destruct (o_payload o) as [|x pl] eqn:Eo.
  - destruct (parses_vi (2 * (o_pos o - lp)) ltac:(lia) r l Hr) as (r1 & -> & Hr1). destruct (shiftr_even (o_pos o - lp)) as [E1 E2]. eexists _, r1. split; [done|]. split; [done|]. exists r1. by rewrite E2.
  - rewrite <- Eo in *. assert (vlen (o_payload o) ≠ 0) as Hn by (rewrite Eo, vlen_cons; pose proof (vlen_nonneg pl); lia). pose proof (vlen_nonneg (o_payload o)).
    rewrite <- !app_assoc in Hr. destruct (parses_vi (2 * (o_pos o - lp) + 1) ltac:(lia) r _ Hr) as (r1 & -> & Hr1). destruct (shiftr_odd (o_pos o - lp)) as [E1 E2]. eexists _, r1. split; [done|]. split; [done|].
    destruct (parses_vi (vlen (o_payload o)) ltac:(lia) r1 _ Hr1) as (r2 & E & Hr2). destruct (parses_read_exact (o_payload o) r2 l Hr2) as (r3 & E3 & Hr3). exists r3. rewrite E2. cbn [negb]. rewrite E. cbn [mbind result_bind].
    rewrite as_u_id by (unfold is_u; lia). rewrite E3. cbn [mbind result_bind]. by rewrite (proj2 (Z.eqb_neq _ _) Hn).
Qed.

Lemma next_position_spec it o left later pay : positions_state it (o :: left) later pay →
  ∃ it', next_position it = Ok (o_pos o, it') ∧ positions_state it' left later (shown pay o) ∧ same_doc it it' ∧ see it' (o_pos o) = seen_of pay o.
Proof.
  intros [P1 (H1 & H2 & H3 & H4) P3 P4 P5 P6 P7 P8]. unfold next_position. cbn [occs_bytes] in P1. unfold occ_bytes in P1. rewrite <- !app_assoc in P1. rewrite vlen_cons in *. pose proof (vlen_nonneg left).
  destruct (prox_read (pos_reader it) (pos it) o _ (payload it) ltac:(lia) ltac:(lia) H2 P1) as (code & r1 & -> & Ec & r2 & E & Hr2). cbn [mbind result_bind]. rewrite E. cbn [mbind result_bind]. clear E.
  rewrite Ec. replace (pos it + (o_pos o - pos it)) with (o_pos o) by lia. rewrite (as_i_id 32 (o_pos o)) by (try lia; unfold is_i; lia). rewrite P5. replace (vlen left + 1 - 1) with (vlen left) by lia. rewrite (as_i_id 32 (vlen left)) by (try lia; unfold is_i; lia).
  rewrite P8, P7. unfold see, seen_of, get_start_offset, get_end_offset. destruct (off opt) eqn:Eo.
  - destruct (H3 eq_refl) as [Hs1 Hs2]. unfold offset_bytes in Hr2. rewrite <- app_assoc in Hr2. destruct (parses_vi (o_start o - start_offset it) ltac:(lia) r2 _ Hr2) as (r3 & -> & Hr3). cbn [mbind result_bind].
    replace (start_offset it + (o_start o - start_offset it)) with (o_start o) by lia. rewrite (as_i_id 32 (o_start o)) by (try lia; unfold is_i; lia).
    destruct (parses_vi (o_end o - o_start o) ltac:(lia) r3 _ Hr3) as (r4 & -> & Hr4). cbn [mbind result_bind]. replace (o_start o + (o_end o - o_start o)) with (o_end o) by lia. rewrite (as_i_id 32 (o_end o)) by (try lia; unfold is_i; lia).
    eexists. split; [done|]. split; [split; cbn; rewrite ?Eo; done || lia|done].
  - cbn [app] in Hr2. cbn [mbind result_bind]. eexists. split; [done|]. split; [|done]. split; cbn; rewrite ?Eo; try done; try lia; [by rewrite (occs_bytes_any _ _ (o_start o))|by apply (occs_ok_any _ (o_start o))].
Qed.

Lemma same_doc_trans it1 it2 it3 : same_doc it1 it2 → same_doc it2 it3 → same_doc it1 it3.
Proof. intros (? & ? & ? & ? & ?) (? & ? & ? & ? & ?). split_and!; congruence. Qed.

(** Reading positions. *)
Fixpoint read_positions (n : nat) (it : t) : result (list occ_seen * t) :=
  match n with
  | O => Ok ([], it)
  | S n =>
    '(position, it) ← next_position it;
    let x := see it position in
    '(l, it) ← read_positions n it;
    Ok (x :: l, it)
  end.

Fixpoint seen (pay : list Z) (os : list occ) : list occ_seen :=
  match os with
  | [] => []
  | o :: os => seen_of pay o :: seen (shown pay o) os
  end.
Definition shown_last (pay : list Z) (os : list occ) : list Z := foldl shown pay os.

Lemma read_positions_spec os : ∀ it left later pay, positions_state it (os ++ left) later pay →
  ∃ it', read_positions (length os) it = Ok (seen pay os, it') ∧ positions_state it' left later (shown_last pay os) ∧ same_doc it it'.
Proof.
  induction os as [|o os IH]; intros it left later pay Hst; [by exists it|]. cbn [length read_positions app] in *. destruct (next_position_spec it o (os ++ left) later pay Hst) as (it1 & -> & Hst1 & Hs1 & Hsee). cbn [mbind result_bind].
  destruct (IH it1 left later _ Hst1) as (it2 & -> & Hst2 & Hs2). cbn [mbind result_bind]. rewrite Hsee. exists it2. split; [done|]. split; [done|]. by apply (same_doc_trans _ it1).
Qed.

Lemma skip_positions_spec it left later pay : positions_state it left later pay → ∃ it', skip_positions it = Ok it' ∧ positions_state it' [] later (shown_last pay left) ∧ same_doc it it'.
Proof.
  intros Hst. unfold skip_positions. rewrite (po_left _ _ _ _ Hst), to_nat_vlen. revert it pay Hst. induction left as [|o left IH]; intros it pay Hst; cbn [length while_fuel]; rewrite (po_left _ _ _ _ Hst).
  - exists it. done.
  - rewrite vlen_cons, (proj2 (Z.eqb_neq _ _)) by (pose proof (vlen_nonneg left); lia). cbn [negb]. destruct (next_position_spec it o left later pay Hst) as (it1 & -> & Hst1 & Hs1 & _). cbn [mbind result_bind].
    destruct (IH it1 _ Hst1) as (it2 & -> & Hst2 & Hs2). exists it2. split; [done|]. split; [done|]. by apply (same_doc_trans _ it1).
Qed.

(** ** Documents *)

Record postings_state (it : t) (base : Z) (rest : list (Z * list occ)) (left : list occ) (pay : list Z) : Prop := {
  ps_reader : remains (reader it) (docs_bytes true base rest);
  ps_base : (if doc_id it =? -1 then 0 else doc_id it) = base;
  ps_term : term_id it = i;
  ps_positions : positions_state it left (rest ++ if ended it then [] else [p.2]) pay;
}.

(** The first position of a document. *)
Lemma at_doc_positions it r doc fq e d os later pay : positions_state it [] ((d, os) :: later) pay → occs_ok (off opt) 0 0 os → fq = vlen os → vlen os < 2 ^ 31 → positions_state (at_doc it r doc fq e) os later pay.
Proof.
  intros [P1 P2 P3 P4 P5 P6 P7 P8] Hos -> Hn. pose proof (vlen_nonneg os). split; cbn; try done. by rewrite as_i_id by (try lia; unfold is_i; lia).
Qed.

Lemma next_posting it base d os rest left pay : postings_state it base ((d, os) :: rest) left pay → 0 ≤ base ≤ d → d < 2 ^ 30 → doc_ok opt (d, os) →
  ∃ it', next w it = Ok (d, it') ∧ postings_state it' d rest os (shown_last pay left) ∧ ended it' = ended it ∧ freq it' = vlen os.
Proof.
  intros [S1 S2 S3 S4] Hb Hd (_ & Hn & Hos). cbn [snd] in *. pose proof (vlen_nonneg os). unfold next. destruct (skip_positions_spec it left _ pay S4) as (it1 & -> & Hst & (R1 & R2 & R3 & R4 & R5)). cbn [mbind result_bind].
  rewrite R1. cbn [docs_bytes] in S1. rewrite (reading_more _ _ S1) by apply doc_bytes_not_nil.
  destruct (doc_code_read (reader it) (d - base) (vlen os) _ ltac:(lia) ltac:(lia) S1) as (code & r1 & -> & Ec & r2 & E & Hr2). cbn [mbind result_bind]. rewrite E. cbn [mbind result_bind]. rewrite S2, Ec. replace (base + (d - base)) with d by lia.
  rewrite as_i_id by (try lia; unfold is_i; lia). eexists. split; [done|]. split; [|by rewrite <- R5]. split; try done.
  - cbn. by rewrite (proj2 (Z.eqb_neq d (-1))) by lia.
  - cbn. congruence.
  - cbn [at_doc ended]. rewrite R5. apply (at_doc_positions it1 r2 d (vlen os) (ended it) d os); try done. by apply Hos.
Qed.

Lemma next_last_posting it base left pay : postings_state it base [] left pay → ended it = false → ∃ it', next w it = Ok (p.2.1, it') ∧ postings_state it' p.2.1 [] p.2.2 (shown_last pay left) ∧ ended it' = true ∧ freq it' = vlen p.2.2.
Proof.
  intros [S1 S2 S3 S4] He. pose proof Hp as Hp'. unfold postings_ok, all_docs in Hp'. apply docs_ok_snoc in Hp' as [Hprev Hlast]. destruct Hlast as (Hd & (_ & Hn & Hos) & _). rewrite He in S4. cbn [app] in S4. unfold next. destruct (skip_positions_spec it left _ pay S4) as (it1 & -> & Hst & (R1 & R2 & R3 & R4 & R5)). cbn [mbind result_bind].
  pose proof Hsz as [Z1 _ Z3 _ _]. pose proof Hc as [C1 _ C3 _ _]. pose proof (prox_has_freqs opt Hpr) as Hfr. rewrite Hfr in Z3.
  rewrite R1, (reading_eof _ S1), R5, He, R4, S3, (vget_nthz (A.last_doc_ids (FreqProxTermsWriterPerField.postings_array w))), C1 by lia. cbn [mbind result_bind]. rewrite vget_nthz, C3 by (done || lia). cbn [mbind result_bind].
  eexists. split; [done|]. split; [|done]. assert (-1 < p.2.1) as Hd0. { unfold last_doc in Hd. destruct (list.last p.1) as [x|] eqn:El; [|lia]. assert (0 ≤ x.1) by (by apply (docs_ok_last opt p.1 0)). lia. }
  split; try done.
  - cbn. by rewrite (proj2 (Z.eqb_neq _ (-1))) by lia.
  - cbn. congruence.
  - cbn [at_doc ended app]. destruct (p.2) as [d os] eqn:Ep. apply (at_doc_positions it1 _ d (vlen os) true d os); try done. by apply Hos.
Qed.

Lemma next_end_posting it base left pay : postings_state it base [] left pay → ended it = true → ∃ it', next w it = Ok (NO_MORE_DOCS, it').
Proof.
  intros [S1 S2 S3 S4] He. unfold next. destruct (skip_positions_spec it left _ pay S4) as (it1 & -> & Hst & (R1 & R2 & R3 & R4 & R5)). cbn [mbind result_bind]. rewrite R1, (reading_eof _ S1), R5, He. by eexists.
Qed.

(** All documents; of the document [d] the first [want d] positions are read. *)
Fixpoint drain_postings (want : Z → nat) (fuel : nat) (it : t) : result (list (Z * Z * list occ_seen)) :=
  match fuel with
  | O => Diverge
  | S fuel =>
    '(doc, it) ← next w it;
    if doc =? NO_MORE_DOCS then Ok []
    else
      freq ← get_freq it;
      '(l, it) ← read_positions (Nat.min (want doc) (Z.to_nat freq)) it;
      rest ← drain_postings want fuel it;
      Ok ((doc, freq, l) :: rest)
  end.

Fixpoint seen_docs (want : Z → nat) (pay : list Z) (l : list (Z * list occ)) : list (Z * Z * list occ_seen) :=
  match l with
  | [] => []
  | (d, os) :: l => (d, vlen os, seen pay (take (want d) os)) :: seen_docs want (shown_last pay os) l
  end.

(** Reading some positions of a document. *)
Lemma some_positions it base rest os pay n : postings_state it base rest os pay → freq it = vlen os → vlen os < 2 ^ 31 →
  ∃ it', get_freq it = Ok (vlen os) ∧ read_positions (Nat.min n (Z.to_nat (vlen os))) it = Ok (seen pay (take n os), it') ∧ postings_state it' base rest (drop n os) (shown_last pay (take n os)) ∧ ended it' = ended it.
Proof.
  intros [S1 S2 S3 S4] Hf Hn. pose proof (vlen_nonneg os). rewrite <- (take_drop n os) in S4. destruct (read_positions_spec (take n os) it (drop n os) _ pay S4) as (it' & E & Hst & (R1 & R2 & R3 & R4 & R5)). exists it'.
  split; [unfold get_freq; by rewrite Hf, as_i_id by (try lia; unfold is_i; lia)|]. rewrite to_nat_vlen, <- length_take. split; [done|]. split; [|done]. split; rewrite ?R1, ?R2, ?R4; try done. by rewrite R5.
Qed.

Lemma shown_last_app pay l k : shown_last (shown_last pay l) k = shown_last pay (l ++ k).
Proof. unfold shown_last. by rewrite foldl_app. Qed.

Lemma drain_postings_spec want rest : ∀ it base left pay fuel, postings_state it base rest left pay → ended it = false → 0 ≤ base → docs_ok opt base (rest ++ [p.2]) → (length rest + 2 ≤ fuel)%nat →
  drain_postings want fuel it = Ok (seen_docs want (shown_last pay left) (rest ++ [p.2])).
Proof.
  induction rest as [|[d os] rest IH]; intros it base left pay fuel Hst He Hb Hok Hfuel; (destruct fuel as [|fuel]; [cbn in Hfuel; lia|]); cbn [drain_postings app seen_docs].
  - destruct (next_last_posting it base left pay Hst He) as (it1 & -> & Hst1 & He1 & Hf). cbn [mbind result_bind]. destruct Hok as (Hd & (_ & Hn & _) & _). rewrite (proj2 (Z.eqb_neq _ _)) by (unfold NO_MORE_DOCS; lia).
    destruct (some_positions it1 _ _ _ _ (want p.2.1) Hst1 Hf Hn) as (it2 & -> & E2 & Hst2 & He2). cbn [mbind result_bind]. rewrite E2. cbn [mbind result_bind]. destruct fuel as [|fuel]; [cbn in Hfuel; lia|]. cbn [drain_postings].
    destruct (next_end_posting it2 _ _ _ Hst2) as (it3 & ->); [congruence|]. cbn [mbind result_bind]. rewrite Z.eqb_refl. cbn [mbind result_bind]. by destruct (p.2).
  - destruct Hok as (Hd & Hdo & Hok). cbn [fst snd] in *. destruct (next_posting it base d os rest left pay Hst) as (it1 & -> & Hst1 & He1 & Hf); [lia|lia|done|]. cbn [mbind result_bind]. rewrite (proj2 (Z.eqb_neq _ _)) by (unfold NO_MORE_DOCS; lia).
    destruct Hdo as (_ & Hn & _). destruct (some_positions it1 _ _ _ _ (want d) Hst1 Hf Hn) as (it2 & -> & E2 & Hst2 & He2). cbn [mbind result_bind]. rewrite E2. cbn [mbind result_bind].
    rewrite (IH it2 d _ _ fuel Hst2); [|congruence|lia|by apply (docs_ok_mono opt _ (d + 1)); [|lia]|cbn in Hfuel; lia]. cbn [mbind result_bind]. by rewrite shown_last_app, take_drop.
Qed.
End positions.
End term.
