(* ===== verification/InvertedIndex.v ===== *)
(** Inverting documents refines an abstract index.

    The abstract index is, for every field, the list of its terms with their postings; it
    has no pools, no streams and no hash.  A document is accepted by both or rejected by
    both with the same error. *)

From stdpp Require Import gmap.
From S2P Require Import Prelude DataIO PackedBulkFacts PackedArrayFacts BytePool BytePoolFacts PoolFacts TermsHashFacts BytesRefHash BytesRefHashFacts FreqProx PostingsSpec FreqProxFacts FreqProxIndex.
Open Scope Z_scope.
Import TermsHashPerFieldBase.
#[local] Abbreviation B := ByteBlockPool.BYTE_BLOCK_SIZE.

(** * The abstract index *)

(** What the streams can hold: terms that fit in a block, and positions below [2 ^ 30]. *)
Definition storable (opt : IndexOptions.t) (tok : token) (o : occ) : bool :=
  (vlen (term_bytes tok) <? B - 2) && forallb (fun x => (0 <=? x) && (x <? 256)) (term_bytes tok) && (vlen (o_payload o) <? 2 ^ 30) &&
  (negb (pr opt) || (o_pos o <? 2 ^ 30)) && (negb (off opt) || ((0 <=? o_start o) && (o_start o <? 2 ^ 31) && (0 <=? o_end o) && (o_end o <? 2 ^ 31))).

(** The numbers of a token that the machine integers hold. *)
Definition in_range (co : bool) (tok : token) (st : FieldInvertState.t) : bool :=
  (-1 <=? FieldInvertState.position st) && (FieldInvertState.position st <=? PerField.INDEX_MAX_POSITION) && (0 <=? pos_incr tok) && (pos_incr tok <? 2 ^ 31) &&
  (0 <=? FieldInvertState.length st) && (FieldInvertState.length st <? 2 ^ 31) && (0 <=? FieldInvertState.last_position st) &&
  (negb co || ((0 <=? FieldInvertState.offset st + start_offset tok) && (FieldInvertState.offset st + start_offset tok <? 2 ^ 31) &&
               (0 <=? FieldInvertState.offset st + end_offset tok) && (FieldInvertState.offset st + end_offset tok <? 2 ^ 31))).

(** Positions do not go backwards and do not pass the last one that is allowed; when they
    are indexed, offsets do not go backwards and a token does not end before it starts; and
    a field has fewer than [2 ^ 31] tokens. *)
Definition accepted (co : bool) (tok : token) (st : FieldInvertState.t) : bool :=
  (FieldInvertState.last_position st <=? FieldInvertState.position st + pos_incr tok) && (FieldInvertState.position st + pos_incr tok <=? PerField.INDEX_MAX_POSITION) &&
  (negb co || ((FieldInvertState.last_start_offset st <=? FieldInvertState.offset st + start_offset tok) && (start_offset tok <=? end_offset tok))) &&
  (FieldInvertState.length st + 1 <? 2 ^ 31).

(** The place of a token in its field; the statistics are left alone. *)
Definition advance (co : bool) (tok : token) (st : FieldInvertState.t) : FieldInvertState.t :=
  FieldInvertState.mk (FieldInvertState.position st + pos_incr tok) (FieldInvertState.length st + 1) (FieldInvertState.num_overlap st) (FieldInvertState.offset st)
    (FieldInvertState.max_term_frequency st) (FieldInvertState.unique_term_count st)
    (if co then FieldInvertState.offset st + start_offset tok else FieldInvertState.last_start_offset st) (FieldInvertState.position st + pos_incr tok).

Definition spec_token (opt : IndexOptions.t) (doc : Z) (tok : token) (x : FieldInvertState.t * field_index) : result (FieldInvertState.t * field_index) :=
  _ ← check (in_range (off opt) tok x.1);
  if accepted (off opt) tok x.1 then
    let st := advance (off opt) tok x.1 in
    _ ← check (storable opt tok (occ_of st tok));
    Ok (st, add_occurrence (term_bytes tok) doc (occ_of st tok) x.2)
  else bail IllegalArgument.

Record abstract_field : Type := AbstractField { af_state : FieldInvertState.t; af_gen : Z; af_index : field_index }.

(** The end of a stream. *)
Definition end_stream (stream : token_stream) (s : FieldInvertState.t) : FieldInvertState.t :=
  FieldInvertState.mk (as_i32 (FieldInvertState.position s + as_i32 (end_position stream))) (FieldInvertState.length s) (FieldInvertState.num_overlap s)
    (as_u64 (FieldInvertState.offset s + final_offset stream)) (FieldInvertState.max_term_frequency s) (FieldInvertState.unique_term_count s)
    (FieldInvertState.last_start_offset s) (FieldInvertState.last_position s).

Definition spec_field (field : doc_field) (doc gen : Z) (afs : list abstract_field) : result (list abstract_field) :=
  match field_options field with
  | IndexOptions.Null => Ok afs
  | opt =>
    af ← vget afs (field_idx field);
    let st := if negb (af_gen af =? gen) then FieldInvertState.reset (af_state af) else af_state af in
    '(st, l) ← for_each (tokens (field_tokens field)) (spec_token opt doc) (st, af_index af);
    vset afs (field_idx field) (AbstractField (end_stream (field_tokens field) st) gen l)
  end.

Definition spec_document (doc : Z) (fields : list doc_field) (x : list abstract_field * Z) : result (list abstract_field * Z) :=
  afs ← for_each fields (fun field afs => spec_field field doc x.2 afs) x.1;
  Ok (afs, as_i64 (x.2 + 1)).

(** * Tokens *)

Lemma same_place_refl st : same_place st st.
Proof. done. Qed.
Lemma same_place_trans s1 s2 s3 : same_place s1 s2 → same_place s2 s3 → same_place s1 s3.
Proof. intros (? & ? & ? & ? & ?) (? & ? & ? & ? & ?). split_and!; congruence. Qed.
Lemma occ_of_place s1 s2 tok : same_place s1 s2 → occ_of s2 tok = occ_of s1 tok.
Proof. intros (E1 & _ & E3 & _ & _). unfold occ_of. by rewrite E1, E3. Qed.

Lemma as_i_wrap_down z : 2 ^ 31 ≤ z < 2 ^ 32 → as_i32 z = z - 2 ^ 32.
Proof.
  intros Hz. rewrite (as_i_congr 32 z (z - 2 ^ 32)); [apply as_i_id; unfold is_i; lia|]. rewrite <- (Z.mod_add (z - 2 ^ 32) 1 (2 ^ 32)) by lia. f_equal. lia.
Qed.

(** The checks of the code are those of the abstract index, where no number wraps. *)
Lemma check_token_spec co tok sa st : same_place sa st → in_range co tok sa = true →
  if accepted co tok sa then ∃ st1, PerField.check_token co tok st = Ok st1 ∧ same_place (advance co tok sa) st1 else PerField.check_token co tok st = Err IllegalArgument.
Proof.
  intros (E1 & E2 & E3 & E4 & E5) Hr. unfold in_range, PerField.INDEX_MAX_POSITION in Hr. repeat match type of Hr with _ && _ = true => apply andb_true_iff in Hr as [Hr ?] end.
  unfold PerField.check_token, accepted. rewrite E1, E2, E3, E4, E5. rewrite (as_i_id 32 (pos_incr tok)) by (try lia; unfold is_i; lia). unfold PerField.INDEX_MAX_POSITION.
  destruct (decide (FieldInvertState.position sa + pos_incr tok < 2 ^ 31)) as [Hp|Hp].
  2: { rewrite (as_i_wrap_down (FieldInvertState.position sa + pos_incr tok)) by lia. rewrite (proj2 (Z.ltb_lt (FieldInvertState.position sa + pos_incr tok - 2 ^ 32) (FieldInvertState.last_position sa))) by lia. rewrite (proj2 (Z.leb_gt (FieldInvertState.position sa + pos_incr tok) 2147483519)) by lia. by rewrite andb_false_r. }
  rewrite (as_i_id 32 (FieldInvertState.position sa + pos_incr tok)) by (try lia; unfold is_i; lia). rewrite (Z.ltb_antisym (FieldInvertState.last_position sa)), Z.gtb_ltb, (Z.ltb_antisym (FieldInvertState.position sa + pos_incr tok)).
  destruct (FieldInvertState.last_position sa <=? FieldInvertState.position sa + pos_incr tok) eqn:C1; [|done]. cbn [negb andb]. destruct (FieldInvertState.position sa + pos_incr tok <=? 2147483519) eqn:C2; [|done]. cbn [negb andb].
  assert (∀ l, if FieldInvertState.length sa + 1 <? 2 ^ 31 then ∃ st1, (if as_i32 (FieldInvertState.length sa + 1) <? 0 then Err IllegalArgument else Ok (FieldInvertState.mk (FieldInvertState.position sa + pos_incr tok) (as_i32 (FieldInvertState.length sa + 1))
      (if pos_incr tok =? 0 then as_i32 (FieldInvertState.num_overlap st + 1) else FieldInvertState.num_overlap st) (FieldInvertState.offset sa) (FieldInvertState.max_term_frequency st) (FieldInvertState.unique_term_count st) l (FieldInvertState.position sa + pos_incr tok))) = Ok st1 ∧
      (l = (if co then FieldInvertState.offset sa + start_offset tok else FieldInvertState.last_start_offset sa) → same_place (advance co tok sa) st1)
    else (as_i32 (FieldInvertState.length sa + 1) <? 0) = true) as Hlen.
  { intros l. destruct (Z.ltb_spec (FieldInvertState.length sa + 1) (2 ^ 31)) as [Hl|Hl].
    - rewrite (as_i_id 32 (FieldInvertState.length sa + 1)) by (try lia; unfold is_i; lia). rewrite (proj2 (Z.ltb_ge _ _)) by lia. eexists. split; [done|]. intros ->. by split_and!.
    - assert (FieldInvertState.length sa + 1 = 2 ^ 31) as -> by lia. done. }
  destruct co; cbn [negb orb mbind result_bind].
  - cbn [negb orb] in *. repeat match goal with H : _ && _ = true |- _ => apply andb_true_iff in H as [H ?] end. rewrite !(as_u_id 64) by (unfold is_u; lia). rewrite (as_i_id 32 (FieldInvertState.offset sa + start_offset tok)) by (try lia; unfold is_i; lia).
    rewrite (Z.ltb_antisym (FieldInvertState.last_start_offset sa)). destruct (FieldInvertState.last_start_offset sa <=? FieldInvertState.offset sa + start_offset tok); [|done]. cbn [negb orb andb].
    destruct (Z.ltb_spec (FieldInvertState.offset sa + end_offset tok) (FieldInvertState.offset sa + start_offset tok)), (Z.leb_spec (start_offset tok) (end_offset tok)); try lia; [done|]. cbn [mbind result_bind andb].
    specialize (Hlen (FieldInvertState.offset sa + start_offset tok)). destruct (FieldInvertState.length sa + 1 <? 2 ^ 31); [destruct Hlen as (st1 & E & Hs); exists st1; split; [done|by apply Hs]|by rewrite Hlen].
  - cbn [andb]. specialize (Hlen (FieldInvertState.last_start_offset sa)). destruct (FieldInvertState.length sa + 1 <? 2 ^ 31); [destruct Hlen as (st1 & E & Hs); exists st1; split; [done|by apply Hs]|by rewrite Hlen].
Qed.

(** The bounds of an index that holds documents up to [doc] and cost [T] to build. *)
Record fits (doc : Z) (l : field_index) (T : Z) : Prop := {
  ft_cost : 0 ≤ T;
  ft_terms : 9000 * vlen l ≤ T;
  ft_bytes : Forall (Forall (is_u 8)) l.*1;
  ft_docs : ∀ b p, postings_of b l = Some p → p.2.1 ≤ doc ∧ 9000 * vlen p.2.2 ≤ T;
}.

(** The tokens of a field come in order. *)
Record place (opt : IndexOptions.t) (st : FieldInvertState.t) (doc : Z) (l : field_index) (T : Z) : Prop := {
  pl_fits : fits doc l T;
  pl_pos : 0 ≤ FieldInvertState.last_position st;
  pl_start : 0 ≤ FieldInvertState.last_start_offset st;
  pl_last : ∀ b p, postings_of b l = Some p → p.2.1 = doc → pr opt = true →
    last_pos 0 p.2.2 ≤ FieldInvertState.last_position st ∧ (off opt = true → last_start 0 p.2.2 ≤ FieldInvertState.last_start_offset st);
}.

Lemma bounds_mono doc doc' l T T' : fits doc l T → doc ≤ doc' → T ≤ T' → fits doc' l T'.
Proof. intros [F1 F2 F3 F4] Hd HT. split; try done; try lia. intros b p E. destruct (F4 b p E). lia. Qed.
Lemma place_mono opt st doc l T T' : place opt st doc l T → T ≤ T' → place opt st doc l T'.
Proof. intros [P1 P2 P3 P4] HT. split; try done. by apply (bounds_mono doc doc l T T' P1). Qed.

(** The first token of a document. *)
Lemma place_first opt st doc l T : fits (doc - 1) l T → place opt (FieldInvertState.reset st) doc l T.
Proof. intros Hf. split; [apply (bounds_mono (doc - 1) doc l T T Hf); lia|done|done|]. intros b p E Ed. destruct (ft_docs _ _ _ Hf b p E). lia. Qed.

Lemma postings_of_add t t' doc o l : postings_of t' (add_occurrence t doc o l) = if decide (t = t') then Some (match postings_of t l with Some p => add_posting doc o p | None => first_posting doc o end) else postings_of t' l.
Proof.
  induction l as [|[t0 p] l IH]; cbn [add_occurrence postings_of].
  - case_decide; done.
  - destruct (decide (t0 = t)) as [->|Hne]; cbn [postings_of].
    + by destruct (decide (t = t')).
    + rewrite IH. destruct (decide (t0 = t')) as [->|]; [by rewrite decide_False by congruence|done].
Qed.

Lemma last_of_add doc o p : let q := match p with Some p => add_posting doc o p | None => first_posting doc o end in
  q.2.1 = doc ∧ last_pos 0 q.2.2 = o_pos o ∧ last_start 0 q.2.2 = o_start o ∧ vlen q.2.2 ≤ match p with Some p => vlen p.2.2 | None => 0 end + 1.
Proof.
  destruct p as [[prev [d os]]|]; [|done]. unfold add_posting. cbn [fst snd]. pose proof (vlen_nonneg os). destruct (doc =? d); cbn [fst snd].
  - rewrite last_pos_snoc, last_start_snoc, vlen_app. change (vlen [o]) with 1. split_and!; done || lia.
  - change (vlen [o]) with 1. split_and!; done || lia.
Qed.

Lemma storable_spec opt tok o : storable opt tok o = true →
  vlen (term_bytes tok) < B - 2 ∧ Forall (is_u 8) (term_bytes tok) ∧ vlen (o_payload o) < 2 ^ 30 ∧ (pr opt = true → o_pos o < 2 ^ 30) ∧ (off opt = true → 0 ≤ o_start o < 2 ^ 31 ∧ 0 ≤ o_end o < 2 ^ 31).
Proof.
  unfold storable. intros E. apply andb_true_iff in E as [E E5]. apply andb_true_iff in E as [E E4]. apply andb_true_iff in E as [E E3]. apply andb_true_iff in E as [E1 E2].
  apply Z.ltb_lt in E1, E3. split; [done|]. split; [|split; [done|split]].
  - apply list.Forall_forall. intros x Hx. rewrite forallb_forall in E2. apply list_elem_of_In in Hx. specialize (E2 x Hx). unfold is_u. lia.
  - intros Ep. rewrite Ep in E4. cbn in E4. lia.
  - intros Eo. rewrite Eo in E5. cbn [negb orb] in E5. lia.
Qed.

Lemma vlen_add_occurrence t doc o (l : field_index) : vlen (add_occurrence t doc o l) ≤ vlen l + 1.
Proof. induction l as [|[t' p] l IH]; [done|]. cbn [add_occurrence]. case_decide; rewrite !vlen_cons; lia. Qed.
Lemma keys_add_occurrence (P : list Z → Prop) t doc o (l : field_index) : Forall P l.*1 → P t → Forall P (add_occurrence t doc o l).*1.
Proof.
  intros Hl Ht. induction l as [|[t' p] l IH]; [by repeat constructor|]. rewrite fmap_cons in Hl. apply List.Forall_cons_iff in Hl as [H1 H2]. cbn [add_occurrence]. case_decide; rewrite fmap_cons; constructor; auto.
Qed.

(** What the checks make sure of. *)
Lemma accepted_fits opt st doc tok l T : place opt st doc l T → accepted (off opt) tok st = true → let st1 := advance (off opt) tok st in let o := occ_of st1 tok in storable opt tok o = true → 0 ≤ doc < 2 ^ 30 → T + token_cost tok ≤ LIMIT →
  token_fits opt doc o (postings_of (term_bytes tok) l) ∧ place opt st1 doc (add_occurrence (term_bytes tok) doc o l) (T + token_cost tok).
Proof.
  intros [[P0 Pt Pb Pd] P1 P2 P3] Hck st1 o Hst Hdoc HT. unfold accepted in Hck. apply andb_true_iff in Hck as [Hck _]. apply andb_true_iff in Hck as [Hck Hco]. apply andb_true_iff in Hck as [F1 _]. apply Z.leb_le in F1. destruct (storable_spec opt tok o Hst) as (S1 & S2 & S3 & S4 & S5).
  assert (o_pos o = FieldInvertState.position st + pos_incr tok) as Eo by done. assert (FieldInvertState.last_position st1 = FieldInvertState.position st + pos_incr tok) as F2 by done. pose proof (vlen_nonneg (term_bytes tok)). pose proof (vlen_nonneg (default [] (payload tok))). unfold token_cost, LIMIT in *.
  assert (off opt = true → FieldInvertState.last_start_offset st ≤ o_start o ∧ o_start o ≤ o_end o ∧ FieldInvertState.last_start_offset st1 = o_start o) as Hoff.
  { intros E. rewrite E in Hco. cbn [negb orb] in Hco. change (o_start o) with (FieldInvertState.offset st + start_offset tok). change (o_end o) with (FieldInvertState.offset st + end_offset tok). unfold st1, advance. rewrite E. cbn. lia. }
  assert (∀ lp ls, lp ≤ FieldInvertState.last_position st → (off opt = true → ls ≤ FieldInvertState.last_start_offset st) → pr opt = true → occ_follows (off opt) lp ls o) as Hfol.
  { intros lp ls Hlp Hls Epr. split; [specialize (S4 Epr); lia|]. split; [done|]. split; [|done]. intros E. destruct (Hoff E) as (O1 & O2 & _). specialize (Hls E). destruct (S5 E). lia. }
  split.
  - unfold token_fits. destruct (postings_of (term_bytes tok) l) as [q|] eqn:Eq; [|split; [done|]; apply Hfol; [lia|intros _; lia]]. destruct (Pd _ q Eq) as (D1 & D2). split; [lia|]. split; [lia|]. intros Epr.
    destruct (Z.eqb_spec doc (q.2.1)) as [Ed|Ed]; [|apply Hfol; [lia|intros _; lia|done]]. destruct (P3 _ q Eq (eq_sym Ed) Epr) as [D4 D5]. by apply Hfol.
  - pose proof (vlen_add_occurrence (term_bytes tok) doc o l). split; [split|lia| |].
    + lia.
    + lia.
    + by apply keys_add_occurrence.
    + intros b q. rewrite postings_of_add. destruct (decide (term_bytes tok = b)) as [Eb|Eb]; [|intros Eq; destruct (Pd b q Eq); lia]. intros [= Eq].
      destruct (last_of_add doc o (postings_of (term_bytes tok) l)) as (L1 & L2 & L3 & L4). rewrite Eq in L1, L2, L3, L4. split; [lia|].
      destruct (postings_of (term_bytes tok) l) as [q0|] eqn:Eq0; [destruct (Pd _ q0 Eq0) as (_ & D2); lia|lia].
    + destruct (off opt) eqn:E; [destruct (Hoff eq_refl) as (_ & _ & ->); destruct (S5 eq_refl); lia|done].
    + intros b q. rewrite postings_of_add. destruct (decide (term_bytes tok = b)) as [Eb|Eb].
      * intros [= Eq] _ Epr. destruct (last_of_add doc o (postings_of (term_bytes tok) l)) as (L1 & L2 & L3 & L4). rewrite Eq in L2, L3. rewrite L2, L3. split; [lia|]. intros E. by destruct (Hoff E) as (_ & _ & ->).
      * intros Eq Ed Epr. destruct (P3 b q Eq Ed Epr) as [D4 D5]. split; [lia|]. intros E. specialize (D5 E). destruct (Hoff E) as (O1 & O2 & ->). lia.
Qed.

(** * Fields *)

Definition tokens_cost (toks : list token) : Z := foldr (fun tok n => token_cost tok + n) 0 toks.

Lemma tokens_cost_nonneg toks : 0 ≤ tokens_cost toks.
Proof. induction toks as [|tok toks IH]; [done|]. cbn [tokens_cost foldr]. fold (tokens_cost toks). unfold token_cost. pose proof (vlen_nonneg (term_bytes tok)). pose proof (vlen_nonneg (default [] (payload tok))). lia. Qed.

Section refinement.
Context (hash32 : list Z → Z) (opts : list IndexOptions.t).
#[local] Set Default Proof Using "Type".

(** The tokens of a stream. *)
Definition add_checked (opt : IndexOptions.t) (doc : Z) (tok : token) (x : FreqProxTermsWriterPerField.t * pools * FieldInvertState.t) : result (FreqProxTermsWriterPerField.t * pools * FieldInvertState.t) :=
  let '(w, ps, s) := x in
  s ← PerField.check_token (off opt) tok s;
  FreqProxTermsWriterPerField.add hash32 w ps s tok doc.

Lemma tokens_sim (f : nat) opt doc toks : 0 ≤ doc < 2 ^ 30 → opts !! f = Some opt → ∀ ws ps ix s T own iown w l sa st,
  index_ok hash32 opts ws ps ix s T own iown → ws !! f = Some w → ix !! f = Some l → place opt sa doc l T → same_place sa st → T + tokens_cost toks ≤ LIMIT →
  match for_each toks (spec_token opt doc) (sa, l) with
  | Ok (sa', l') => ∃ w' ps' st' s' own' iown', for_each toks (add_checked opt doc) (w, ps, st) = Ok (w', ps', st') ∧ same_place sa' st' ∧ place opt sa' doc l' (T + tokens_cost toks) ∧
      index_ok hash32 opts (<[f := w']> ws) ps' (<[f := l']> ix) s' (T + tokens_cost toks) own' iown'
  | Err e => for_each toks (add_checked opt doc) (w, ps, st) = Err e
  | _ => True
  end.
Proof.
  intros Hdoc Hopt. induction toks as [|tok toks IH]; intros ws ps ix s T own iown w l sa st Hix Hw Hl Hpl Hsame HT.
  - cbn [for_each tokens_cost foldr]. rewrite Z.add_0_r. exists w, ps, st, s, own, iown. split; [done|]. split; [done|]. split; [done|]. by rewrite !list_insert_id.
  - cbn [tokens_cost foldr] in HT |- *. fold (tokens_cost toks) in HT |- *. pose proof (tokens_cost_nonneg toks). cbn [for_each add_checked].
    assert (spec_token opt doc tok (sa, l) = (_ ← check (in_range (off opt) tok sa); if accepted (off opt) tok sa then let sa1 := advance (off opt) tok sa in _ ← check (storable opt tok (occ_of sa1 tok)); Ok (sa1, add_occurrence (term_bytes tok) doc (occ_of sa1 tok) l) else Err IllegalArgument)) as -> by done.
    destruct (in_range (off opt) tok sa) eqn:Er; [|done]. pose proof (check_token_spec (off opt) tok sa st Hsame Er) as Hck. cbn [check mbind result_bind].
    destruct (accepted (off opt) tok sa) eqn:Ea; [|by rewrite Hck]. destruct Hck as (st1 & -> & Hsame1). set (sa1 := advance (off opt) tok sa) in *. cbn [mbind result_bind].
    destruct (storable opt tok (occ_of sa1 tok)) eqn:Est; [|done]. cbn [check mbind result_bind]. destruct (accepted_fits opt sa doc tok l T Hpl Ea Est Hdoc ltac:(lia)) as [Hfit Hpl1]. fold sa1 in Hfit, Hpl1. rewrite <- (occ_of_place sa1 st1 tok Hsame1) in *.
    destruct (add_token hash32 opts ws ps ix s T own iown f w opt l st1 tok doc Hix Hw Hopt Hl) as (w1 & ps1 & st2 & s1 & own1 & iown1 & -> & Hsame2 & Hix1); [by apply (storable_spec opt tok _ Est)|done|lia|]. cbn [mbind result_bind].
    specialize (IH _ _ _ _ _ _ _ w1 _ sa1 st2 Hix1 (list_lookup_insert_eq _ _ _ (lookup_lt_Some _ _ _ Hw)) (list_lookup_insert_eq _ _ _ (lookup_lt_Some _ _ _ Hl)) Hpl1 (same_place_trans _ _ _ Hsame1 Hsame2) ltac:(lia)).
    destruct (for_each toks _ _) as [[sa' l']|e| |]; [|done|done|done]. destruct IH as (w' & ps' & st' & s' & own' & iown' & -> & Hs' & Hp' & Hix'). exists w', ps', st', s', own', iown'.
    rewrite !list_insert_insert_eq in Hix'. rewrite Z.add_assoc. done.
Qed.
(** ** The fields of a document *)

(** The statistics of a field at the end of a document do not touch its postings. *)
Lemma index_finish ws ps ix s T own iown (f : nat) w st : index_ok hash32 opts ws ps ix s T own iown → ws !! f = Some w →
  index_ok hash32 opts (<[f := FreqProxTermsWriterPerField.finish w st]> ws) ps ix s T own iown.
Proof.
  intros [I1 I2 I3 I4 I5] Hw. split; [|by rewrite length_insert| |done|done].
  - change (map FreqProxTermsWriterPerField.base (<[f := FreqProxTermsWriterPerField.finish w st]> ws)) with (FreqProxTermsWriterPerField.base <$> <[f := FreqProxTermsWriterPerField.finish w st]> ws).
    rewrite list_fmap_insert. change (FreqProxTermsWriterPerField.base (FreqProxTermsWriterPerField.finish w st)) with (FreqProxTermsWriterPerField.base w). rewrite list_insert_id; [done|]. by rewrite list_lookup_fmap, Hw.
  - intros g w' Hg. destruct (decide (f = g)) as [<-|Hne]; [|rewrite list_lookup_insert_ne in Hg by done; by apply I3]. rewrite list_lookup_insert_eq in Hg by (by eapply lookup_lt_Some). injection Hg as <-.
    destruct (I3 f w Hw) as (opt & l & E1 & E2 & [[X1 X2 X3 X4] [[Y1 Y2 Y3] Y4 Y5 Y6]]). exists opt, l. by split_and!.
Qed.

(** A field in the document [doc], with the generation [gen]. *)
Definition ready (opt : IndexOptions.t) (af : abstract_field) (doc gen T : Z) : Prop :=
  if decide (af_gen af = gen) then place opt (af_state af) doc (af_index af) T else fits (doc - 1) (af_index af) T.

Lemma ready_mono opt af doc gen T T' : ready opt af doc gen T → T ≤ T' → ready opt af doc gen T'.
Proof. unfold ready. case_decide; intros H1 H2; [by apply (place_mono opt _ doc _ T)|by apply (bounds_mono (doc - 1) (doc - 1) _ T T' H1)]. Qed.
Lemma ready_fits opt af doc gen T : ready opt af doc gen T → fits doc (af_index af) T.
Proof. unfold ready. case_decide; intros H1; [apply H1|apply (bounds_mono (doc - 1) doc _ T T H1); lia]. Qed.

Record consumer_ok (c : DocConsumer.t) (afs : list abstract_field) (doc gen : Z) (s : spec) (T : Z) (own iown : Z → option key) : Prop := {
  co_index : index_ok hash32 opts (map PerField.term_hash_per_field (DocConsumer.field_hash c)) (DocConsumer.terms_hash c) (map af_index afs) s T own iown;
  co_fields : ∀ f pf, DocConsumer.field_hash c !! f = Some pf → ∃ opt af, opts !! f = Some opt ∧ afs !! f = Some af ∧
    same_place (af_state af) (PerField.invert_state pf) ∧ PerField.field_gen pf = af_gen af ∧ af_gen af ≤ gen ∧ ready opt af doc gen T;
  co_len : length afs = length (DocConsumer.field_hash c);
  co_opts : length opts = length (DocConsumer.field_hash c);
}.

(** A field of a document is declared with the options of its postings. *)
Definition declared (field : doc_field) : bool :=
  match field_options field with
  | IndexOptions.Null => true
  | opt => (0 <=? field_idx field) && bool_decide (opts !! Z.to_nat (field_idx field) = Some opt)
  end.
Definition field_cost (field : doc_field) : Z := tokens_cost (tokens (field_tokens field)).

Lemma invert_eq pf ps opt stream doc first : PerField.invert hash32 pf ps opt stream doc first =
  ('(w, ps, s) ← for_each (tokens stream) (add_checked opt doc) (PerField.term_hash_per_field pf, ps, if first then FieldInvertState.reset (PerField.invert_state pf) else PerField.invert_state pf);
   Ok (PerField.mk (end_stream stream s) w (PerField.field_gen pf), ps)).
Proof. by destruct opt. Qed.

Lemma process_field_eq c field doc gen n : field_options field ≠ IndexOptions.Null → DocConsumer.process_field hash32 c field doc gen n =
  (pf ← vget (DocConsumer.field_hash c) (field_idx field);
   let first := negb (PerField.field_gen pf =? gen) in
   '(pf, ps) ← PerField.invert hash32 pf (DocConsumer.terms_hash c) (field_options field) (field_tokens field) doc first;
   h ← vset (DocConsumer.field_hash c) (field_idx field) (if first then PerField.with_field_gen gen pf else pf);
   Ok (DocConsumer.mk h (if first then DocConsumer.fields c ++ [field_idx field] else DocConsumer.fields c) (DocConsumer.next_field_gen c) ps, if first then n + 1 else n)).
Proof. intros Hn. unfold DocConsumer.process_field. by destruct (field_options field). Qed.
Lemma spec_field_eq field doc gen afs : field_options field ≠ IndexOptions.Null → spec_field field doc gen afs =
  (af ← vget afs (field_idx field);
   '(st, l) ← for_each (tokens (field_tokens field)) (spec_token (field_options field) doc) (if negb (af_gen af =? gen) then FieldInvertState.reset (af_state af) else af_state af, af_index af);
   vset afs (field_idx field) (AbstractField (end_stream (field_tokens field) st) gen l)).
Proof. intros Hn. unfold spec_field. by destruct (field_options field). Qed.

Lemma reset_place sa st : same_place (FieldInvertState.reset sa) (FieldInvertState.reset st).
Proof. done. Qed.
Lemma end_place stream sa st : same_place sa st → same_place (end_stream stream sa) (end_stream stream st).
Proof. intros (E1 & E2 & E3 & E4 & E5). unfold end_stream. rewrite E1, E2, E3, E4, E5. done. Qed.
Lemma place_end opt stream st doc l T : place opt st doc l T → place opt (end_stream stream st) doc l T.
Proof. intros [P1 P2 P3 P4]. by split. Qed.

(** The other fields of the document. *)
Lemma consumer_update c afs doc gen s T own iown T' (f : nat) pf' af' opt fs n ps' s' own' iown' : consumer_ok c afs doc gen s T own iown → T ≤ T' → (f < length (DocConsumer.field_hash c))%nat → opts !! f = Some opt →
  same_place (af_state af') (PerField.invert_state pf') → PerField.field_gen pf' = af_gen af' → af_gen af' = gen → place opt (af_state af') doc (af_index af') T' →
  index_ok hash32 opts (<[f := PerField.term_hash_per_field pf']> (map PerField.term_hash_per_field (DocConsumer.field_hash c))) ps' (<[f := af_index af']> (map af_index afs)) s' T' own' iown' →
  consumer_ok (DocConsumer.mk (<[f := pf']> (DocConsumer.field_hash c)) fs n ps') (<[f := af']> afs) doc gen s' T' own' iown'.
Proof.
  intros [C1 C2 C3 C4] HT Hf Hopt Hs Hg Hag Hpl Hix. split; cbn [DocConsumer.field_hash DocConsumer.terms_hash].
  - change (map PerField.term_hash_per_field (<[f := pf']> (DocConsumer.field_hash c))) with (PerField.term_hash_per_field <$> <[f := pf']> (DocConsumer.field_hash c)). change (map af_index (<[f := af']> afs)) with (af_index <$> <[f := af']> afs). by rewrite !list_fmap_insert.
  - intros g pf Hpf. destruct (decide (f = g)) as [<-|Hne].
    + rewrite list_lookup_insert_eq in Hpf by done. injection Hpf as <-. exists opt, af'. rewrite list_lookup_insert_eq by lia. split_and!; try done; [lia|]. unfold ready. by rewrite decide_True.
    + rewrite list_lookup_insert_ne in Hpf by done. destruct (C2 g pf Hpf) as (opt' & af & E1 & E2 & E3 & E4 & E5 & E6). exists opt', af. rewrite list_lookup_insert_ne by done. split_and!; try done. by apply (ready_mono _ _ _ _ T).
  - by rewrite !length_insert.
  - by rewrite length_insert.
Qed.

(** One field of a document. *)
Lemma field_sim c afs doc gen s T own iown field n : consumer_ok c afs doc gen s T own iown → 0 ≤ doc < 2 ^ 30 → declared field = true → T + field_cost field ≤ LIMIT →
  match spec_field field doc gen afs with
  | Ok afs' => ∃ h fs ps n' s' own' iown', DocConsumer.process_field hash32 c field doc gen n = Ok (DocConsumer.mk h fs (DocConsumer.next_field_gen c) ps, n') ∧
      consumer_ok (DocConsumer.mk h fs (DocConsumer.next_field_gen c) ps) afs' doc gen s' (T + field_cost field) own' iown' ∧
      n' - vlen fs = n - vlen (DocConsumer.fields c) ∧ (Forall (fun i => 0 ≤ i < vlen opts) (DocConsumer.fields c) → Forall (fun i => 0 ≤ i < vlen opts) fs)
  | Err e => DocConsumer.process_field hash32 c field doc gen n = Err e
  | _ => True
  end.
Proof.
  intros Hok Hdoc Hdec HT. pose proof (tokens_cost_nonneg (tokens (field_tokens field))) as Hcost. fold (field_cost field) in Hcost. destruct (decide (field_options field = IndexOptions.Null)) as [E|Hn].
  { unfold spec_field, DocConsumer.process_field. rewrite E. destruct c as [h fs g ps]. exists h, fs, ps, n, s, own, iown. split; [done|]. split; [|done]. destruct Hok as [C1 C2 C3 C4]. split; try done.
    - destruct C1 as [I1 I2 I3 I4 I5]. split; try done. apply (inv_mono _ _ _ _ _ _ _ I1). lia.
    - intros f pf Hf. destruct (C2 f pf Hf) as (opt & af & E1 & E2 & E3 & E4 & E5 & E6). exists opt, af. split_and!; try done. apply (ready_mono _ _ _ _ T); [done|lia]. }
  rewrite spec_field_eq, process_field_eq by done. pose proof Hok as [C1 C2 C3 C4]. set (i := field_idx field) in *. set (opt := field_options field) in *.
  assert (0 ≤ i ∧ opts !! Z.to_nat i = Some opt) as [Hi Hopt].
  { unfold declared in Hdec. fold opt i in Hdec. destruct opt; try done; apply andb_true_iff in Hdec as [D1 D2]; apply Z.leb_le in D1; by apply bool_decide_eq_true in D2. }
  pose proof (lookup_lt_Some _ _ _ Hopt) as Hlt. destruct (lookup_lt_is_Some_2 (DocConsumer.field_hash c) (Z.to_nat i) ltac:(lia)) as [pf Hpf]. destruct (C2 _ pf Hpf) as (opt' & af & E1 & E2 & Hs & Hg & Hle & Hr).
  rewrite Hopt in E1. injection E1 as <-. assert (vget afs i = Ok af) as -> by (by apply vget_Ok). assert (vget (DocConsumer.field_hash c) i = Ok pf) as -> by (by apply vget_Ok). cbn [mbind result_bind]. rewrite Hg. set (first := negb (af_gen af =? gen)). rewrite invert_eq.
  set (sa := if first then FieldInvertState.reset (af_state af) else af_state af). set (st := if first then FieldInvertState.reset (PerField.invert_state pf) else PerField.invert_state pf).
  assert (same_place sa st) as Hsame by (unfold sa, st; destruct first; [apply reset_place|done]).
  assert (place opt sa doc (af_index af) T) as Hpl.
  { unfold sa, first, ready in *. destruct (decide (af_gen af = gen)) as [Eg|Eg]; [by rewrite Eg, Z.eqb_refl|rewrite (proj2 (Z.eqb_neq _ _)) by done; by apply place_first]. }
  assert (map PerField.term_hash_per_field (DocConsumer.field_hash c) !! Z.to_nat i = Some (PerField.term_hash_per_field pf)) as Hw by (change (map _ (DocConsumer.field_hash c)) with (PerField.term_hash_per_field <$> DocConsumer.field_hash c); by rewrite list_lookup_fmap, Hpf).
  assert (map af_index afs !! Z.to_nat i = Some (af_index af)) as Hl by (change (map af_index afs) with (af_index <$> afs); by rewrite list_lookup_fmap, E2).
  pose proof (tokens_sim (Z.to_nat i) opt doc (tokens (field_tokens field)) Hdoc Hopt _ _ _ _ _ _ _ _ _ sa st C1 Hw Hl Hpl Hsame HT) as Hsim. fold (field_cost field) in Hsim.
  destruct (for_each _ (spec_token opt doc) _) as [[sa' l']|e| |]; cbn [mbind result_bind]; [|by rewrite Hsim|done|done]. destruct Hsim as (w' & ps' & st' & s' & own' & iown' & -> & Hs' & Hpl' & Hix'). cbn [mbind result_bind].
  unfold vset. rewrite !decide_True by lia. cbn [mbind result_bind].
  set (pf' := if first then _ else _). assert (PerField.invert_state pf' = end_stream (field_tokens field) st' ∧ PerField.term_hash_per_field pf' = w' ∧ PerField.field_gen pf' = gen) as (X1 & X2 & X3).
  { unfold pf', first. destruct (Z.eqb_spec (af_gen af) gen); cbn; by rewrite ?Hg. }
  eexists _, _, ps', _, s', own', iown'. split; [done|]. split; [|split].
  - apply (consumer_update c afs doc gen s T own iown _ _ _ _ opt); cbn [af_state af_gen af_index]; try done; try lia; [rewrite X1; by apply end_place|by apply place_end|by rewrite X2].
  - destruct first; rewrite ?vlen_app; change (vlen [i]) with 1; lia.
  - intros Hall. destruct first; [|done]. apply Forall_app. split; [done|]. repeat constructor; unfold vlen; lia.
Qed.
(** ** Documents *)

Definition fields_cost (fs : list doc_field) : Z := foldr (fun field n => field_cost field + n) 0 fs.

Lemma fields_cost_nonneg fs : 0 ≤ fields_cost fs.
Proof. induction fs as [|field fs IH]; [done|]. cbn [fields_cost foldr]. fold (fields_cost fs). pose proof (tokens_cost_nonneg (tokens (field_tokens field))). unfold field_cost. lia. Qed.

Definition process_one (doc gen : Z) (field : doc_field) (x : DocConsumer.t * Z) : result (DocConsumer.t * Z) :=
  let '(c, n) := x in DocConsumer.process_field hash32 c field doc gen n.

Lemma fields_sim doc gen fs : 0 ≤ doc < 2 ^ 30 → forallb declared fs = true → ∀ c afs s T own iown n, consumer_ok c afs doc gen s T own iown → T + fields_cost fs ≤ LIMIT →
  n = vlen (DocConsumer.fields c) → Forall (fun i => 0 ≤ i < vlen opts) (DocConsumer.fields c) →
  match for_each fs (fun field afs => spec_field field doc gen afs) afs with
  | Ok afs' => ∃ c' s' own' iown', for_each fs (process_one doc gen) (c, n) = Ok (c', vlen (DocConsumer.fields c')) ∧ consumer_ok c' afs' doc gen s' (T + fields_cost fs) own' iown' ∧
      DocConsumer.next_field_gen c' = DocConsumer.next_field_gen c ∧ Forall (fun i => 0 ≤ i < vlen opts) (DocConsumer.fields c')
  | Err e => for_each fs (process_one doc gen) (c, n) = Err e
  | _ => True
  end.
Proof.
  intros Hdoc. induction fs as [|field fs IH]; intros Hdec c afs s T own iown n Hok HT -> Hall.
  - cbn [for_each fields_cost foldr]. rewrite Z.add_0_r. by exists c, s, own, iown.
  - cbn [forallb] in Hdec. apply andb_true_iff in Hdec as [Hd Hdec]. cbn [fields_cost foldr] in HT |- *. fold (fields_cost fs) in HT |- *. pose proof (fields_cost_nonneg fs). cbn [for_each process_one].
    pose proof (field_sim c afs doc gen s T own iown field (vlen (DocConsumer.fields c)) Hok Hdoc Hd ltac:(lia)) as Hsim.
    destruct (spec_field field doc gen afs) as [afs1|e| |]; cbn [mbind result_bind]; [|by rewrite Hsim|done|done]. destruct Hsim as (h & fs1 & ps & n' & s1 & own1 & iown1 & -> & Hok1 & Hn & Hall1). cbn [mbind result_bind].
    specialize (IH Hdec _ afs1 s1 _ own1 iown1 n' Hok1 ltac:(lia) ltac:(cbn [DocConsumer.fields]; lia) (Hall1 Hall)). cbn [DocConsumer.next_field_gen] in IH. rewrite Z.add_assoc. done.
Qed.

Lemma finish_fields c afs doc gen s T own iown : consumer_ok c afs doc gen s T own iown → Forall (fun i => 0 ≤ i < vlen opts) (DocConsumer.fields c) →
  ∃ c', for_range 0 (vlen (DocConsumer.fields c)) DocConsumer.finish_field c = Ok c' ∧ consumer_ok c' afs doc gen s T own iown ∧ DocConsumer.next_field_gen c' = DocConsumer.next_field_gen c.
Proof.
  intros Hok Hall. destruct (for_range_inv (fun _ d => consumer_ok d afs doc gen s T own iown ∧ DocConsumer.fields d = DocConsumer.fields c ∧ DocConsumer.next_field_gen d = DocConsumer.next_field_gen c) DocConsumer.finish_field 0 (vlen (DocConsumer.fields c)) c (vlen_nonneg _)) as (c' & E & H1 & H2 & H3); [done| |by exists c'].
  clear Hok. intros j d Hj (Hok & Ef & Eg). pose proof Hok as [C1 C2 C3 C4]. unfold DocConsumer.finish_field. rewrite Ef. rewrite vget_nthz by done. cbn [mbind result_bind]. set (i := nthz _ j).
  assert (0 ≤ i < vlen opts) as Hi. { unfold i, nthz. unfold vlen in Hj. destruct (lookup_lt_is_Some_2 (DocConsumer.fields c) (Z.to_nat j) ltac:(lia)) as [x Hx]. rewrite Hx. apply (Forall_lookup_1 _ _ _ _ Hall Hx). }
  unfold vlen in Hi. destruct (lookup_lt_is_Some_2 (DocConsumer.field_hash d) (Z.to_nat i) ltac:(lia)) as [pf Hpf]. assert (vget (DocConsumer.field_hash d) i = Ok pf) as -> by (apply vget_Ok; split; [lia|done]). cbn [mbind result_bind].
  unfold vset. rewrite decide_True by lia. cbn [mbind result_bind]. eexists. split; [done|]. split; [|done]. split; cbn [DocConsumer.field_hash DocConsumer.terms_hash]; rewrite ?length_insert; try done.
  - change (map PerField.term_hash_per_field ?l) with (PerField.term_hash_per_field <$> l). rewrite list_fmap_insert. apply index_finish; [done|]. by rewrite list_lookup_fmap, Hpf.
  - intros f pf' Hf. destruct (decide (Z.to_nat i = f)) as [<-|Hne]; [|rewrite list_lookup_insert_ne in Hf by done; by apply C2]. rewrite list_lookup_insert_eq in Hf by lia. injection Hf as <-. exact (C2 _ pf Hpf).
Qed.

(** The next document. *)
Lemma next_document c afs doc gen s T own iown doc' c' : consumer_ok c afs doc gen s T own iown → doc < doc' → DocConsumer.field_hash c' = DocConsumer.field_hash c → DocConsumer.terms_hash c' = DocConsumer.terms_hash c →
  consumer_ok c' afs doc' (gen + 1) s T own iown.
Proof.
  intros [C1 C2 C3 C4] Hd Eh Et. split; rewrite ?Eh, ?Et; try done. intros f pf Hf. destruct (C2 f pf Hf) as (opt & af & E1 & E2 & E3 & E4 & E5 & E6). exists opt, af. split_and!; try done; [lia|].
  unfold ready. rewrite decide_False by lia. apply (bounds_mono doc (doc' - 1) _ T T); [by apply (ready_fits opt _ _ gen)|lia|lia].
Qed.

(** Between documents: the documents so far have ids up to [doc], and [gen] was the last generation. *)
Definition rests (c : DocConsumer.t) (afs : list abstract_field) (doc gen T : Z) : Prop :=
  (∃ s own iown, consumer_ok c afs doc gen s T own iown) ∧ DocConsumer.next_field_gen c = gen + 1 ∧ -1 ≤ gen ≤ doc.

Lemma document_sim c afs doc gen T doc' fs : rests c afs doc gen T → doc < doc' < 2 ^ 30 → forallb declared fs = true → T + fields_cost fs ≤ LIMIT →
  match spec_document doc' fs (afs, gen + 1) with
  | Ok (afs', gen') => ∃ c', DocConsumer.process_document hash32 c doc' fs = Ok c' ∧ gen' = gen + 2 ∧ rests c' afs' doc' (gen + 1) (T + fields_cost fs)
  | Err e => DocConsumer.process_document hash32 c doc' fs = Err e
  | _ => True
  end.
Proof.
  intros [(s & own & iown & Hok) [Hg Hgen]] Hd Hdec HT. unfold spec_document, DocConsumer.process_document. cbn [fst snd]. rewrite Hg. rewrite (as_i_id 64 (gen + 1 + 1)) by (try lia; unfold is_i; lia).
  set (c1 := DocConsumer.mk _ _ _ _). pose proof (next_document c afs doc gen s T own iown doc' c1 Hok ltac:(lia) eq_refl eq_refl) as Hok1.
  pose proof (fields_sim doc' (gen + 1) fs ltac:(lia) Hdec c1 afs s T own iown 0 Hok1 HT eq_refl ltac:(constructor)) as Hsim. change (for_each fs (process_one doc' (gen + 1)) (c1, 0)) with (for_each fs (fun field '(c, n) => DocConsumer.process_field hash32 c field doc' (gen + 1) n) (c1, 0)) in Hsim.
  destruct (for_each fs (fun field afs => spec_field field doc' (gen + 1) afs) afs) as [afs'|e| |]; cbn [mbind result_bind]; [|by rewrite Hsim|done|done]. destruct Hsim as (c2 & s2 & own2 & iown2 & -> & Hok2 & Hg2 & Hall). cbn [mbind result_bind].
  destruct (finish_fields c2 afs' doc' (gen + 1) s2 _ own2 iown2 Hok2 Hall) as (c3 & -> & Hok3 & Hg3). exists c3. split; [done|]. split; [lia|]. split; [by exists s2, own2, iown2|]. split; [|lia]. rewrite Hg3, Hg2. cbn. lia.
Qed.

(** Any number of documents. *)
Definition docs_cost (docs : list (Z * list doc_field)) : Z := foldr (fun d n => fields_cost d.2 + n) 0 docs.
Definition process_documents (docs : list (Z * list doc_field)) (c : DocConsumer.t) : result DocConsumer.t :=
  for_each docs (fun d c => DocConsumer.process_document hash32 c d.1 d.2) c.
Definition spec_documents (docs : list (Z * list doc_field)) (x : list abstract_field * Z) : result (list abstract_field * Z) :=
  for_each docs (fun d x => spec_document d.1 d.2 x) x.
(** Ids that increase. *)
Fixpoint ascending (lo : Z) (docs : list (Z * list doc_field)) : bool :=
  match docs with
  | [] => true
  | d :: docs => (lo <? d.1) && (d.1 <? 2 ^ 30) && ascending d.1 docs
  end.

(** The id of the last document. *)
Definition last_id (doc : Z) (docs : list (Z * list doc_field)) : Z := fold_left (fun _ d => d.1) docs doc.

Lemma docs_cost_nonneg docs : 0 ≤ docs_cost docs.
Proof. induction docs as [|d docs IH]; [done|]. cbn [docs_cost foldr]. fold (docs_cost docs). pose proof (fields_cost_nonneg d.2). lia. Qed.

Lemma documents_sim docs : ∀ c afs doc gen T, rests c afs doc gen T → ascending doc docs = true → forallb (fun d => forallb declared d.2) docs = true → T + docs_cost docs ≤ LIMIT →
  match spec_documents docs (afs, gen + 1) with
  | Ok (afs', _) => ∃ c' gen', process_documents docs c = Ok c' ∧ rests c' afs' (last_id doc docs) gen' (T + docs_cost docs)
  | Err e => process_documents docs c = Err e
  | _ => True
  end.
Proof.
  induction docs as [|d docs IH]; intros c afs doc gen T Hr Ha Hdec HT; unfold spec_documents, process_documents in *; cbn [for_each docs_cost foldr] in *.
  - exists c, gen. by rewrite Z.add_0_r.
  - cbn [ascending] in Ha. apply andb_true_iff in Ha as [Ha1 Ha2]. cbn [forallb] in Hdec. apply andb_true_iff in Hdec as [Hd1 Hd2]. fold (docs_cost docs) in *. pose proof (docs_cost_nonneg docs).
    pose proof (document_sim c afs doc gen T d.1 d.2 Hr ltac:(lia) Hd1 ltac:(lia)) as Hsim. destruct (spec_document d.1 d.2 (afs, gen + 1)) as [[afs1 gen1]|e| |]; cbn [mbind result_bind]; [|by rewrite Hsim|done|done].
    destruct Hsim as (c1 & -> & -> & Hr1). cbn [mbind result_bind]. specialize (IH c1 afs1 d.1 (gen + 1) _ Hr1 Ha2 Hd2 ltac:(lia)). replace (gen + 2) with (gen + 1 + 1) by lia. rewrite Z.add_assoc. done.
Qed.
End refinement.
