(* ===== verification/InvertedIndexRead.v ===== *)
(** Reading a field of the in-memory index: its terms in order, and the postings of each. *)

From Stdlib Require Import Sorted.
From stdpp Require Import gmap.
From S2P Require Import Prelude DataIO PackedBulkFacts PackedArrayFacts DocIter BytePool BytePoolFacts PoolFacts TermsHashFacts MsbSorter MsbSorterFacts BytesRefHash HashTableFacts BytesRefHashFacts BytesRefSortFacts FreqProx PostingsSpec FreqProxFacts FreqProxIndex FreqProxReadFacts.
Open Scope Z_scope.
Import TermsHashPerFieldBase FreqProxTermsWriterPerField.

(** What a field promises to its readers: the terms [sl], in order, with their postings. *)
Record serves (opt : IndexOptions.t) (w : t) (ps : pools) (sl : field_index) : Prop := {
  sv_count : BytesRefHash.len (bytes_hash w) = vlen sl;
  sv_small : vlen sl < 2 ^ 30;
  sv_sorted : StronglySorted (λ a b, lex a b = Lt) sl.*1;
  sv_options : options_ok opt w;
  sv_text : ∀ k x, sl !! k = Some x → FreqProxTermsIterator.set_bytes w ps (Z.of_nat k) = Ok x.1;
  sv_sized : sized_array opt (postings_array w) (array_size w);
  sv_posting : ∀ k x, sl !! k = Some x → ∃ i, vget (BytesRefHash.ids (bytes_hash w)) (Z.of_nat k) = Ok i ∧ 0 ≤ i < array_size w ∧ i < 2 ^ 31 ∧
    cell opt (postings_array w) i x.2 ∧ postings_ok opt x.2 ∧ (∃ r, init_reader (base w) ps i 0 = Ok r ∧ remains r (docs_bytes (fr opt) 0 x.2.1)) ∧
    (pr opt = true → ∃ r, init_reader (base w) ps i 1 = Ok r ∧ remains r (all_occs_bytes (off opt) (all_docs x.2)));
}.

(** * Sorting *)

(** The entry of an id. *)
Definition entry (l : field_index) (e : Z) : list Z * postings := match l !! Z.to_nat e with Some x => x | None => ([], ([], (0, []))) end.

Lemma entry_lookup (l : field_index) i x : l !! i = Some x → entry l (Z.of_nat i) = x.
Proof. intros E. unfold entry. by rewrite Nat2Z.id, E. Qed.
Lemma entries_first (l : field_index) : map (entry l) (first_ids (length l)) = l.
Proof.
  apply list_eq. intros i. unfold first_ids. rewrite map_map. change (map ?g ?k) with (g <$> k). rewrite list_lookup_fmap. destruct (decide (i < length l)%nat) as [Hi|Hi].
  - rewrite lookup_seq_lt by done. cbn. destruct (lookup_lt_is_Some_2 l i Hi) as [x Hx]. rewrite Hx. f_equal. by apply entry_lookup.
  - rewrite lookup_seq_ge, lookup_ge_None_2 by lia. done.
Qed.
Lemma entries_text (l : field_index) ids : (map (entry l) ids).*1 = map (text l.*1) ids.
Proof.
  change (map ?g ?k) with (g <$> k). rewrite <- list_fmap_compose. apply list_fmap_ext. intros _ e _. cbn. unfold entry, text. rewrite list_lookup_fmap. by destruct (l !! Z.to_nat e).
Qed.

Section index.
Context (hash32 : list Z → Z) (opts : list IndexOptions.t).

(** The readers of the streams of a term. *)
Lemma stream_readers ws ps ix s T own iown (f i : nat) w opt l b p : index_ok hash32 opts ws ps ix s T own iown → T ≤ LIMIT → ws !! f = Some w → opts !! f = Some opt → ix !! f = Some l → l !! i = Some (b, p) →
  (∃ r, init_reader (base w) ps (Z.of_nat i) 0 = Ok r ∧ remains r (docs_bytes (fr opt) 0 p.1)) ∧
  (pr opt = true → ∃ r, init_reader (base w) ps (Z.of_nat i) 1 = Ok r ∧ remains r (all_occs_bytes (off opt) (all_docs p))).
Proof.
  intros [I1 I2 I3 I4 I5] HT Hw Hopt Hl Hi. pose proof (I4 f opt l i b p Hopt Hl Hi) as Hs. assert (vget (map base ws) (Z.of_nat f) = Ok (base w)) as Hv.
  { apply vget_lookup. change (map base ws) with (base <$> ws). by rewrite list_lookup_fmap, Hw. }
  split.
  - destruct (init_reader_ok _ _ _ _ _ _ _ _ _ 0 (docs_bytes (fr opt) 0 p.1) I1 HT Hs ltac:(lia) eq_refl) as (fd & r & Ef & Er & Hr). cbn [fields shared] in *. rewrite Hv in Ef. injection Ef as <-. by exists r.
  - intros Epr. destruct (init_reader_ok _ _ _ _ _ _ _ _ _ 1 (all_occs_bytes (off opt) (all_docs p)) I1 HT Hs ltac:(lia)) as (fd & r & Ef & Er & Hr); [unfold streams; by rewrite Epr|]. cbn [fields shared] in *. rewrite Hv in Ef. injection Ef as <-. by exists r.
Qed.

(** [sort_postings] makes a field ready to be read. *)
Lemma sort_serves ws ps ix s T own iown (f : nat) w opt l : index_ok hash32 opts ws ps ix s T own iown → T ≤ LIMIT → ws !! f = Some w → opts !! f = Some opt → ix !! f = Some l → Forall (Forall (is_u 8)) l.*1 → vlen l < 2 ^ 30 →
  ∃ w' sl, sort_postings w ps = Ok w' ∧ BytesRefHash.len (bytes_hash w) = vlen l ∧ sl ≡ₚ l ∧ serves opt w' ps sl.
Proof.
  intros Hix HT Hw Hopt Hl Hb Hn. pose proof Hix as [I1 I2 I3 I4 I5]. destruct (I3 f w Hw) as (opt' & l' & E1 & E2 & [Ht Hc]). rewrite Hopt in E1. rewrite Hl in E2. injection E1 as <-. injection E2 as <-.
  assert (length l.*1 = length l) as Hlen by apply length_fmap. assert (vlen l.*1 = vlen l) as Hvl by (unfold vlen; by rewrite Hlen). pose proof (tx_repr _ _ _ _ _ Ht) as Hr.
  destruct (sort_spec hash32 (bytes_hash w) (byte_pool ps) l.*1 Hr Hb ltac:(lia)) as (ids & Es & Hids & Hp & Hs). rewrite Hlen in Hp, Hs. unfold sort_postings. rewrite Es. cbn [mbind result_bind]. set (h' := BytesRefHash.with_last_count _ _).
  exists (with_hash h' w), (map (entry l) (take (length l) ids)). split; [done|].
  assert (BytesRefHash.len (bytes_hash w) = vlen l) as Hcount by (unfold BytesRefHash.len; rewrite (tb_count _ _ _ (re_table _ _ _ _ Hr)), Hlen; done). split; [done|]. split; [etrans; [by apply Permutation_map|]; by rewrite entries_first|].
  assert (length (take (length l) ids) = length l) as Htk by (rewrite (Permutation_length Hp); unfold first_ids; by rewrite length_map, length_seq).
  assert (∀ k x, map (entry l) (take (length l) ids) !! k = Some x → ∃ i : nat, ids !! k = Some (Z.of_nat i) ∧ l !! i = Some x) as Hat.
  { intros k x Hk. change (map ?g ?k) with (g <$> k) in Hk. apply list_lookup_fmap_Some in Hk as (e & -> & He). assert (e ∈ first_ids (length l)) as Hel by (rewrite <- Hp; by apply list_elem_of_lookup_2 with k). apply elem_of_first_ids in Hel.
    apply lookup_take_Some in He as [He _]. exists (Z.to_nat e). rewrite Z2Nat.id by lia. split; [done|]. unfold entry. destruct (lookup_lt_is_Some_2 l (Z.to_nat e) ltac:(lia)) as [x ->]. done. }
  assert (vlen l ≤ array_size w) as Hcap. { pose proof (re_len _ _ _ _ Hr) as Hrl. rewrite Hvl in Hrl. etrans; [exact Hrl|]. by rewrite <- (tx_starts _ _ _ _ _ Ht). }
  split.
  - change (BytesRefHash.len (bytes_hash (with_hash h' w))) with (BytesRefHash.len (bytes_hash w)). rewrite Hcount. unfold vlen. by rewrite length_map, Htk.
  - unfold vlen in *. rewrite length_map, Htk. lia.
  - by rewrite entries_text.
  - destruct (cl_opt _ _ _ Hc). by split.
  - intros k x Hk. destruct (Hat k x Hk) as (i & Hi & Hx). unfold FreqProxTermsIterator.set_bytes. change (BytesRefHash.ids (bytes_hash (with_hash h' w))) with ids. rewrite (vget_lookup ids k _ Hi). cbn [mbind result_bind].
    destruct (repr_lookup hash32 (bytes_hash w) (byte_pool ps) l.*1 i x.1 Hr) as (a & Ea & Et & _); [by rewrite list_lookup_fmap, Hx|]. pose proof (lookup_lt_Some _ _ _ Hx). unfold vlen in Hn. rewrite as_u_id by (unfold is_u; lia).
    unfold BytesRefHash.byte_start in Ea. change (ParallelPostingsArray.text_starts _) with (bs_bytes (BytesRefHash.bytes_start_array (bytes_hash w))). by rewrite Ea.
  - apply Hc.
  - intros k x Hk. destruct (Hat k x Hk) as (i & Hi & Hx). exists (Z.of_nat i). pose proof (lookup_lt_Some _ _ _ Hx). unfold vlen in *. destruct x as [b p]. destruct (cl_cells _ _ _ Hc i p) as [Hcell Hpok]; [by rewrite list_lookup_fmap, Hx|].
    destruct (stream_readers ws ps ix s T own iown f i w opt l b p Hix HT Hw Hopt Hl Hx) as [R1 R2]. split; [by apply vget_lookup|]. split; [change (array_size (with_hash h' w)) with (array_size w); lia|]. split; [lia|]. done.
Qed.
End index.

(** * The postings of the current term *)

Section serving.
Context (opt : IndexOptions.t) (w : t) (ps : pools) (sl : field_index) (Hsv : serves opt w ps sl).
#[local] Set Default Proof Using "Type*".
Import FreqProxTermsIterator.

Lemma term_id_at it k x : ord it = Z.of_nat k → sl !! k = Some x → ∃ i, FreqProxTermsIterator.term_id w it = Ok i ∧ 0 ≤ i < array_size w ∧ cell opt (postings_array w) i x.2 ∧ postings_ok opt x.2 ∧
  (∃ r, init_reader (base w) ps i 0 = Ok r ∧ remains r (docs_bytes (fr opt) 0 x.2.1)) ∧ (pr opt = true → ∃ r, init_reader (base w) ps i 1 = Ok r ∧ remains r (all_occs_bytes (off opt) (all_docs x.2))).
Proof.
  intros Ek Hx. destruct (sv_posting _ _ _ _ Hsv k x Hx) as (i & Ei & Hi & Hi31 & Hc & Hp & R1 & R2). exists i. pose proof (lookup_lt_Some _ _ _ Hx). pose proof (sv_small _ _ _ _ Hsv) as Hsm. unfold vlen in Hsm.
  unfold FreqProxTermsIterator.term_id. rewrite Ek, (as_u_id 64 (Z.of_nat k)), Ei by (unfold is_u; lia). cbn [mbind result_bind]. rewrite as_u_id by (unfold is_u; lia). done.
Qed.

(** The flags the field has no answer for are refused. *)
Definition wants_positions (flags : Z) : bool := PostingIteratorFlags.feature_requested flags PostingIteratorFlags.POSITIONS.
Definition answers (flags : Z) : bool :=
  if wants_positions flags then pr opt && (off opt || negb (PostingIteratorFlags.feature_requested flags PostingIteratorFlags.OFFSETS))
  else fr opt || negb (PostingIteratorFlags.feature_requested flags PostingIteratorFlags.FREQS).

Lemma refused it flags : answers flags = false → postings_with_flags w ps it flags = Err IllegalArgument.
Proof.
  destruct (sv_options _ _ _ _ Hsv) as [O1 O2 O3]. unfold answers, postings_with_flags. fold (wants_positions flags). rewrite O1, O2, O3. destruct (wants_positions flags).
  - destruct (pr opt); [|done]. cbn [andb negb]. destruct (off opt); [done|]. cbn [orb negb andb]. by destruct (PostingIteratorFlags.feature_requested flags PostingIteratorFlags.OFFSETS).
  - destruct (fr opt); [done|]. cbn [orb negb andb]. by destruct (PostingIteratorFlags.feature_requested flags PostingIteratorFlags.FREQS).
Qed.

(** The iterator of the documents of a term. *)
Record docs_open (e : FreqProxDocsIterator.t) (i : Z) (p : postings) : Prop := {
  dn_id : 0 ≤ i < array_size w;
  dn_cell : cell opt (postings_array w) i p;
  dn_ok : postings_ok opt p;
  dn_state : docs_state opt i e 0 p.1;
  dn_more : FreqProxDocsIterator.ended e = false;
}.

Lemma docs_opened it k x flags : ord it = Z.of_nat k → sl !! k = Some x → wants_positions flags = false → answers flags = true →
  ∃ e i, postings_with_flags w ps it flags = Ok (Docs e) ∧ docs_open e i x.2.
Proof.
  intros Ek Hx Hw Ha. destruct (term_id_at it k x Ek Hx) as (i & Ei & Hi & Hc & Hp & (r & Er & Hr) & _). destruct (sv_options _ _ _ _ Hsv) as [O1 O2 O3]. unfold answers in Ha. rewrite Hw in Ha.
  unfold postings_with_flags. fold (wants_positions flags). rewrite Hw, O1, Ei. assert (negb (fr opt) && PostingIteratorFlags.feature_requested flags PostingIteratorFlags.FREQS = false) as -> by (destruct (fr opt); [done|by apply negb_true_iff in Ha]).
  cbn [mbind result_bind]. unfold FreqProxDocsIterator.reset. rewrite Er. cbn [mbind result_bind]. eexists _, i. split; [done|]. by split.
Qed.

Lemma docs_at it k x flags : ord it = Z.of_nat k → sl !! k = Some x → wants_positions flags = false → answers flags = true →
  ∃ e, postings_with_flags w ps it flags = Ok (Docs e) ∧ ∀ fuel, (length (all_docs x.2) < fuel)%nat → drain_docs w fuel e = Ok (map (fun y => (y.1, docs_freq opt y.2)) (all_docs x.2)).
Proof.
  intros Ek Hx Hw Ha. destruct (docs_opened it k x flags Ek Hx Hw Ha) as (e & i & E & [D1 D2 D3 D4 D5]). exists e. split; [done|]. intros fuel Hf. unfold all_docs in Hf |- *. rewrite length_app in Hf. cbn in Hf.
  apply (drain_rest w opt i (array_size w) x.2 (sv_sized _ _ _ _ Hsv) D1 D2 D3 x.2.1 _ 0); try done; lia.
Qed.

Lemma postings_at it k x flags : ord it = Z.of_nat k → sl !! k = Some x → wants_positions flags = true → answers flags = true →
  ∃ e, postings_with_flags w ps it flags = Ok (Postings e) ∧ ∀ want fuel, (length (all_docs x.2) < fuel)%nat → drain_postings w want fuel e = Ok (seen_docs opt want [] (all_docs x.2)).
Proof.
  intros Ek Hx Hw Ha. destruct (term_id_at it k x Ek Hx) as (i & Ei & Hi & Hc & Hp & (r & Er & Hr) & R2). destruct (sv_options _ _ _ _ Hsv) as [O1 O2 O3]. unfold answers in Ha. rewrite Hw in Ha. apply andb_true_iff in Ha as [Hpr Ho].
  destruct (R2 Hpr) as (r1 & Er1 & Hr1). unfold postings_with_flags. fold (wants_positions flags). rewrite Hw, O2, O3, Hpr, Ei.
  assert (negb (off opt) && PostingIteratorFlags.feature_requested flags PostingIteratorFlags.OFFSETS = false) as -> by (destruct (off opt); [done|by apply negb_true_iff in Ho]).
  cbn [mbind result_bind negb]. unfold FreqProxPostingsIterator.reset. rewrite Er. cbn [mbind result_bind]. rewrite Er1. cbn [mbind result_bind]. eexists. split; [done|]. intros want fuel Hf. unfold all_docs in Hf. rewrite length_app in Hf. cbn in Hf.
  apply (drain_postings_spec w opt i (array_size w) x.2 (sv_sized _ _ _ _ Hsv) Hi Hc Hp Hpr want x.2.1 _ 0 [] []); try done; [|lia].
  rewrite (prox_has_freqs _ Hpr) in Hr. split; try done.
Qed.

(** * The terms *)

(** All terms from the current one on, each with what [read] makes of its postings. *)
Fixpoint read_terms {R} (read : FreqProxPostingIterEnum → result R) (flags : Z) (fuel : nat) (it : FreqProxTermsIterator.t) : result (list (list Z * R)) :=
  match fuel with
  | O => Diverge
  | S fuel =>
    '(term, it) ← FreqProxTermsIterator.next w ps it;
    match term with
    | None => Ok []
    | Some b =>
      e ← postings_with_flags w ps it flags;
      x ← read e;
      l ← read_terms read flags fuel it;
      Ok ((b, x) :: l)
    end
  end.

Lemma read_terms_spec {R} (read : FreqProxPostingIterEnum → result R) (view : postings → R) flags :
  (∀ it k x, ord it = Z.of_nat k → sl !! k = Some x → ∃ e, postings_with_flags w ps it flags = Ok e ∧ read e = Ok (view x.2)) →
  ∀ n k it fuel, ord it = Z.of_nat k - 1 → num_terms it = vlen sl → (k + n = length sl)%nat → (n < fuel)%nat → read_terms read flags fuel it = Ok (map (fun x => (x.1, view x.2)) (drop k sl)).
Proof.
  intros Hread. induction n as [|n IH]; intros k it fuel Eo En Hk Hf; (destruct fuel as [|fuel]; [lia|]); cbn [read_terms]; unfold FreqProxTermsIterator.next; rewrite Eo, En; replace (Z.of_nat k - 1 + 1) with (Z.of_nat k) by lia.
  - assert ((Z.of_nat k >=? vlen sl) = true) as -> by (unfold vlen; lia). cbn [mbind result_bind]. by rewrite drop_ge by lia.
  - assert ((Z.of_nat k >=? vlen sl) = false) as -> by (unfold vlen; lia). destruct (lookup_lt_is_Some_2 sl k ltac:(lia)) as [x Hx]. rewrite (sv_text _ _ _ _ Hsv k x Hx). cbn [mbind result_bind].
    destruct (Hread (FreqProxTermsIterator.mk (vlen sl) (Z.of_nat k) x.1) k x eq_refl Hx) as (e & -> & He). cbn [mbind result_bind]. rewrite He. cbn [mbind result_bind].
    rewrite (IH (S k) _ fuel) by (cbn; done || lia). cbn [mbind result_bind]. by rewrite (drop_S sl x k Hx).
Qed.

(** ** Seeking *)

Definition below (text : list Z) (j : nat) : Prop := ∀ b, sl.*1 !! j = Some b → lex b text = Lt.
Definition above (text : list Z) (j : nat) : Prop := ∀ b, sl.*1 !! j = Some b → lex b text = Gt.

Lemma sorted_lt (ts : list (list Z)) i j a b : StronglySorted (λ a b, lex a b = Lt) ts → (i < j)%nat → ts !! i = Some a → ts !! j = Some b → lex a b = Lt.
Proof using.
  intros Hs. revert i j. induction Hs as [|c ts Hs IH Hc]; intros i j Hij Ha Hb; [done|]. destruct i as [|i], j as [|j]; try lia; cbn in *.
  - injection Ha as ->. rewrite list.Forall_forall in Hc. apply Hc. by apply list_elem_of_lookup_2 with j.
  - apply (IH i j); [lia|done|done].
Qed.
Lemma lex_lt_trans a b c : lex a b = Lt → lex b c = Lt → lex a c = Lt.
Proof using.
  revert b c. induction a as [|x a IH]; intros [|y b] [|z c]; cbn; try done. destruct (Z.compare_spec x y), (Z.compare_spec y z), (Z.compare_spec x z); try done; try lia. apply IH.
Qed.

Lemma seek_loop_spec text : ∀ fuel lo hi scratch, 0 ≤ lo → -1 ≤ hi < vlen sl → lo ≤ hi + 1 → hi - lo < Z.of_nat fuel → (∀ j, Z.of_nat j < lo → below text j) → (∀ j, hi < Z.of_nat j → above text j) →
  ∃ found lo' scratch', seek_loop w ps fuel text lo hi scratch = Ok (found, lo', scratch') ∧
    match found with
    | Some mid => ∃ k, mid = Z.of_nat k ∧ sl.*1 !! k = Some text ∧ scratch' = text
    | None => 0 ≤ lo' ≤ vlen sl ∧ (∀ j, Z.of_nat j < lo' → below text j) ∧ (∀ j, lo' ≤ Z.of_nat j → above text j)
    end.
Proof.
  pose proof (sv_small _ _ _ _ Hsv) as Hsm. induction fuel as [|fuel IH]; intros lo hi scratch Hlo Hhi Hlh Hf Hbel Hab; cbn [seek_loop].
  - rewrite (proj2 (Z.leb_gt _ _)) by lia. eexists _, _, _. split; [done|]. split_and!; try done; try lia. intros j Hj. apply Hab. lia.
  - destruct (Z.leb_spec lo hi); [|eexists _, _, _; split; [done|]; split_and!; try done; try lia; intros j Hj; apply Hab; lia].
    rewrite (as_i_id 32 (lo + hi)) by (try lia; unfold is_i; lia). rewrite Z.shiftr_div_pow2 by lia. change (2 ^ 1) with 2. set (mid := (lo + hi) / 2). assert (lo ≤ mid ≤ hi) as Hmid by (unfold mid; split; [apply Z.div_le_lower_bound|apply Z.div_le_upper_bound]; lia).
    destruct (lookup_lt_is_Some_2 sl (Z.to_nat mid) ltac:(unfold vlen in *; lia)) as [x Hx]. assert (set_bytes w ps (as_u64 mid) = Ok x.1) as ->.
    { rewrite (as_u_id 64) by (unfold is_u; lia). rewrite <- (sv_text _ _ _ _ Hsv _ x Hx). f_equal. lia. }
    cbn [mbind result_bind].
    assert (sl.*1 !! Z.to_nat mid = Some x.1) as Hx1 by (by rewrite list_lookup_fmap, Hx). pose proof (sorted_lt sl.*1) as Hlt. specialize (Hlt) with (1 := sv_sorted _ _ _ _ Hsv).
    destruct (lex x.1 text) eqn:El.
    + apply lex_eq in El. eexists _, _, _. split; [done|]. exists (Z.to_nat mid). rewrite Z2Nat.id, <- El by lia. done.
    + rewrite (as_i_id 32 (mid + 1)) by (try lia; unfold is_i; lia). apply IH; try lia; [|done]. intros j Hj b Hb. destruct (decide (j = Z.to_nat mid)) as [->|Hne]; [congruence|]. apply (lex_lt_trans _ x.1); [|done]. apply (Hlt j (Z.to_nat mid)); [lia|done|done].
    + rewrite (as_i_id 32 (mid - 1)) by (try lia; unfold is_i; lia). apply IH; try lia; [done|]. intros j Hj b Hb. destruct (decide (j = Z.to_nat mid)) as [->|Hne]; [congruence|]. pose proof (lex_opp x.1 text) as Hop. rewrite El in Hop. cbn in Hop.
      rewrite (lex_opp text b). rewrite (lex_lt_trans text x.1 b); [done|done|]. apply (Hlt (Z.to_nat mid) j); [lia|done|done].
Qed.
End serving.

(** The result of a seek for [text] among the sorted terms [ts]. *)
Definition ceil_of (ts : list (list Z)) (text : list Z) (status : SeekStatus) (it : FreqProxTermsIterator.t) : Prop :=
  ∃ k : nat, FreqProxTermsIterator.ord it = Z.of_nat k ∧ (k ≤ length ts)%nat ∧ (∀ j b, ts !! j = Some b → (j < k)%nat → lex b text = Lt) ∧ (∀ j b, ts !! j = Some b → (k < j)%nat → lex b text = Gt) ∧
    match status with
    | Found => ts !! k = Some text ∧ FreqProxTermsIterator.term it = text
    | NotFound => ∃ b, ts !! k = Some b ∧ lex b text = Gt ∧ FreqProxTermsIterator.term it = b
    | End_ => k = length ts
    end.

Lemma seek_ceil_ok opt w ps sl it text : serves opt w ps sl → FreqProxTermsIterator.num_terms it = vlen sl →
  ∃ status it', FreqProxTermsIterator.seek_ceil w ps it text = Ok (status, it') ∧ FreqProxTermsIterator.num_terms it' = vlen sl ∧ ceil_of sl.*1 text status it'.
Proof.
  intros Hsv En. pose proof (sv_small _ _ _ _ Hsv) as Hsm. pose proof (vlen_nonneg sl). assert (length sl.*1 = length sl) as Hlen by apply length_fmap. unfold FreqProxTermsIterator.seek_ceil. rewrite En, (as_i_id 32 (vlen sl)), (as_i_id 32 (vlen sl - 1)) by (try lia; unfold is_i; lia).
  destruct (seek_loop_spec opt w ps sl Hsv text (Z.to_nat (vlen sl)) 0 (vlen sl - 1) (FreqProxTermsIterator.scratch it)) as (found & lo & sc & -> & Hres); try lia.
  { intros j Hj b Hb. apply lookup_lt_Some in Hb. unfold vlen in Hj. lia. }
  cbn [mbind result_bind]. destruct found as [mid|].
  - destruct Hres as (k & -> & Hk & ->). eexists _, _. split; [done|]. split; [done|]. exists k. pose proof (sv_sorted _ _ _ _ Hsv) as Hs. split; [done|]. split; [apply lookup_lt_Some in Hk; lia|]. split; [|split; [|done]].
    + intros j b Hb Hj. by apply (sorted_lt sl.*1 j k).
    + intros j b Hb Hj. rewrite lex_opp. by rewrite (sorted_lt sl.*1 k j text b).
  - destruct Hres as (Hlo & Hb & Ha). destruct (Z.geb_spec lo (vlen sl)).
    + eexists _, _. split; [done|]. split; [done|]. exists (length sl). unfold vlen in *. split; [cbn; lia|]. split; [lia|]. split; [|split; [|done]].
      * intros j b Hj Hlt. apply (Hb j); [lia|done].
      * intros j b Hj Hlt. apply lookup_lt_Some in Hj. lia.
    + destruct (lookup_lt_is_Some_2 sl (Z.to_nat lo) ltac:(unfold vlen in *; lia)) as [x Hx]. pose proof (sv_text _ _ _ _ Hsv _ x Hx) as Ht. rewrite Z2Nat.id in Ht by lia. rewrite Ht. cbn [mbind result_bind]. eexists _, _. split; [done|]. split; [done|].
      exists (Z.to_nat lo). unfold vlen in *. split; [cbn; lia|]. split; [lia|]. split; [|split].
      * intros j b Hj Hlt. apply (Hb j); [lia|done].
      * intros j b Hj Hlt. apply (Ha j); [lia|done].
      * exists x.1. assert (sl.*1 !! Z.to_nat lo = Some x.1) as Hx1 by (by rewrite list_lookup_fmap, Hx). split; [done|]. split; [by apply (Ha (Z.to_nat lo)); [lia|]|done].
Qed.
