(* ===== verification/InvertedIndexTheorems.v ===== *)
(** The in-memory index gives back what the documents held. *)

From Stdlib Require Import Sorted.
From stdpp Require Import gmap.
From S2P Require Import Prelude DataIO PackedBulkFacts PackedArrayFacts DocIter BytePool BytePoolFacts PoolFacts TermsHashFacts MsbSorter MsbSorterFacts BytesRefHash HashTableFacts BytesRefHashFacts BytesRefSortFacts FreqProx PostingsSpec FreqProxFacts FreqProxIndex FreqProxReadFacts InvertedIndex InvertedIndexRead.
Open Scope Z_scope.
Import TermsHashPerFieldBase.

(** * The empty index *)

(** A consumer whose fields have the options [opts]. *)
Definition start (opts : list IndexOptions.t) (ia : IntBlockPool.IntAllocator) (ba : ByteBlockPool.ByteBlockAllocator) : result DocConsumer.t :=
  pfs ← for_each opts (fun opt pfs => pf ← PerField.new opt; Ok (pfs ++ [pf])) [];
  Ok (DocConsumer.new pfs (Pools (IntBlockPool.new ia) (ByteBlockPool.new ba))).

Definition fresh_writer (opt : IndexOptions.t) : FreqProxTermsWriterPerField.t :=
  FreqProxTermsWriterPerField.mk (if pr opt then 2 else 1) (2 * (if pr opt then 2 else 1)) opt false
    (BytesRefHash.new (2 ^ 2) (A.mk (ParallelPostingsArray.new 2) (if fr opt then A.zeros 2 else []) (A.zeros 2) (A.zeros 2) (if pr opt then A.zeros 2 else []) (if off opt then A.zeros 2 else [])))
    0 0 (fr opt) (pr opt) (off opt) 0 0 0 false.
Definition fresh_field (opt : IndexOptions.t) : PerField.t := PerField.mk FieldInvertState.with_name (fresh_writer opt) (-1).
Definition empty_field (_ : IndexOptions.t) : abstract_field := AbstractField FieldInvertState.with_name (-1) [].

Lemma start_fields opts : ∀ pfs, for_each opts (fun opt pfs => pf ← PerField.new opt; Ok (pfs ++ [pf])) pfs = Ok (pfs ++ map fresh_field opts).
Proof.
  induction opts as [|opt opts IH]; intros pfs; cbn [for_each map]; [by rewrite app_nil_r|]. assert (PerField.new opt = Ok (fresh_field opt)) as -> by (by destruct opt). cbn [mbind result_bind]. by rewrite IH, <- app_assoc.
Qed.

Section built.
Context (hash32 : list Z → Z) (opts : list IndexOptions.t) (ia : IntBlockPool.IntAllocator) (ba : ByteBlockPool.ByteBlockAllocator).
Context (Hia : IntBlockPool.block_size ia = IntBlockPool.INT_BLOCK_SIZE) (Hba : ByteBlockPool.block_size ba = ByteBlockPool.BYTE_BLOCK_SIZE).
#[local] Set Default Proof Using "Type*".
#[local] Abbreviation ps0 := (Pools (IntBlockPool.new ia) (ByteBlockPool.new ba)).

Lemma fresh_field_ok opt own : field_ok hash32 opt (fresh_writer opt) ps0 own [].
Proof.
  split; [split|split].
  - apply (new_repr hash32 2 _ _ 0); [lia|by apply pool_new_wf|done].
  - done.
  - done.
  - done.
  - by split.
  - by destruct opt; split.
  - done.
  - intros i Hi. destruct opt; try done. cbn. unfold nthz. destruct (Z.to_nat i) as [|[|n]]; done.
Qed.

Lemma fresh_index : index_ok hash32 opts (map fresh_writer opts) ps0 (map (fun _ => []) opts) (init_spec (replicate (length opts) 2)) 0 (fun _ => None) (fun _ => None).
Proof.
  assert (map FreqProxTermsWriterPerField.base (map fresh_writer opts) = zip_with (fun sc n => TermsHashPerFieldBase.new sc (ParallelPostingsArray.new n)) (stream_counts opts) (replicate (length opts) 2)) as Eb.
  { unfold stream_counts. induction opts as [|opt l IH]; [done|]. cbn [map length replicate zip_with]. by rewrite <- IH. }
  split; rewrite ?Eb.
  - apply (init_inv ia ba); try done; [unfold stream_counts; by rewrite length_map, length_replicate| |by apply list.Forall_replicate].
    unfold stream_counts. apply list.Forall_fmap, list.Forall_true. intros opt. cbn. destruct (pr opt); lia.
  - by rewrite !length_map.
  - intros f w Hf. change (map fresh_writer opts) with (fresh_writer <$> opts) in Hf. apply list_lookup_fmap_Some in Hf as (opt & -> & Hopt). exists opt, []. split; [done|]. split; [change (map ?g opts) with (g <$> opts); by rewrite list_lookup_fmap, Hopt|apply fresh_field_ok].
  - intros f opt l i b p Hopt Hl Hi. change (map ?g opts) with (g <$> opts) in Hl. apply list_lookup_fmap_Some in Hl as (? & -> & _). done.
  - intros f term [ss Hss]. done.
Qed.

Lemma start_rests : ∃ c0, start opts ia ba = Ok c0 ∧ rests hash32 opts c0 (map empty_field opts) (-1) (-1) 0.
Proof.
  unfold start. rewrite start_fields. cbn [mbind result_bind app]. eexists. split; [done|]. split; [|done]. eexists _, _, _. split; cbn [DocConsumer.new DocConsumer.field_hash DocConsumer.terms_hash].
  - rewrite !map_map. apply fresh_index.
  - intros f pf Hf. change (map fresh_field opts) with (fresh_field <$> opts) in Hf. apply list_lookup_fmap_Some in Hf as (opt & -> & Hopt). exists opt, (empty_field opt). split; [done|].
    split; [change (map ?g opts) with (g <$> opts); by rewrite list_lookup_fmap, Hopt|]. split_and!; try done.
  - by rewrite !length_map.
  - by rewrite length_map.
Qed.

(** The index of accepted documents serves its readers. *)
Lemma built_serves docs afs gen : ascending (-1) docs = true → forallb (fun d => forallb (declared opts) d.2) docs = true → docs_cost docs ≤ LIMIT → spec_documents docs (map empty_field opts, 0) = Ok (afs, gen) →
  ∃ c0 c, start opts ia ba = Ok c0 ∧ process_documents hash32 docs c0 = Ok c ∧ length (DocConsumer.field_hash c) = length opts ∧ length afs = length opts ∧
    ∀ f opt af, opts !! f = Some opt → afs !! f = Some af → ∃ pf w sl, DocConsumer.field_hash c !! f = Some pf ∧
      FreqProxTermsWriterPerField.sort_postings (PerField.term_hash_per_field pf) (DocConsumer.terms_hash c) = Ok w ∧
      BytesRefHash.len (FreqProxTermsWriterPerField.bytes_hash (PerField.term_hash_per_field pf)) = vlen (af_index af) ∧ sl ≡ₚ af_index af ∧ serves opt w (DocConsumer.terms_hash c) sl ∧
      (∀ b p, postings_of b (af_index af) = Some p → p.2.1 ≤ last_id (-1) docs).
Proof.
  intros Ha Hd HT Hspec. destruct start_rests as (c0 & E0 & Hr). pose proof (documents_sim hash32 opts docs c0 _ _ _ 0 Hr Ha Hd HT) as Hsim. change (-1 + 1) with 0 in Hsim. rewrite Hspec in Hsim. destruct Hsim as (c & gen' & E & [(s & own & iown & Hok) _]).
  exists c0, c. split; [done|]. split; [done|]. pose proof Hok as [C1 C2 C3 C4]. split; [done|]. split; [lia|]. intros f opt af Hopt Haf. pose proof (lookup_lt_Some _ _ _ Hopt). destruct (lookup_lt_is_Some_2 (DocConsumer.field_hash c) f ltac:(lia)) as [pf Hpf].
  destruct (C2 f pf Hpf) as (opt' & af' & E1 & E2 & _ & _ & _ & Hready). rewrite Hopt in E1. rewrite Haf in E2. injection E1 as <-. injection E2 as <-. destruct (ready_fits opt af _ gen' _ Hready) as [F1 F2 F3 F4]. exists pf. rewrite Z.add_0_l in *.
  destruct (sort_serves hash32 opts _ _ _ _ _ _ _ f (PerField.term_hash_per_field pf) opt (af_index af) C1 HT) as (w & sl & Es & Hcount & Hp & Hs); try done.
  - change (map ?g (DocConsumer.field_hash c)) with (g <$> DocConsumer.field_hash c). by rewrite list_lookup_fmap, Hpf.
  - change (map ?g afs) with (g <$> afs). by rewrite list_lookup_fmap, Haf.
  - unfold LIMIT in HT. lia.
  - exists w, sl. split_and!; try done; try lia. intros b p Hbp. by apply (F4 b p).
Qed.
End built.

(** * What the documents held *)

(** The two ways to read the postings of a term: documents with frequencies, and documents
    with some of their positions. *)
Definition read_docs (w : FreqProxTermsWriterPerField.t) (fuel : nat) (e : FreqProxTermsIterator.FreqProxPostingIterEnum) : result (list (Z * result Z)) :=
  match e with FreqProxTermsIterator.Docs it => drain_docs w fuel it | FreqProxTermsIterator.Postings _ => Panic end.
Definition read_positions_of (w : FreqProxTermsWriterPerField.t) (want : Z → nat) (fuel : nat) (e : FreqProxTermsIterator.FreqProxPostingIterEnum) : result (list (Z * Z * list occ_seen)) :=
  match e with FreqProxTermsIterator.Postings it => drain_postings w want fuel it | FreqProxTermsIterator.Docs _ => Panic end.

Definition long_enough (fuel : nat) (sl : field_index) : Prop := ∀ x, x ∈ sl → (length (all_docs x.2) < fuel)%nat.

Lemma serves_docs opt w ps sl flags fuel : serves opt w ps sl → wants_positions flags = false → answers opt flags = true → long_enough fuel sl →
  read_terms w ps (read_docs w fuel) flags (S (length sl)) (FreqProxTermsIterator.iterator w) = Ok (map (fun x => (x.1, map (fun y => (y.1, docs_freq opt y.2)) (all_docs x.2))) sl).
Proof.
  intros Hsv Hw Ha Hf. rewrite <- (drop_0 sl) at 2. apply (read_terms_spec opt w ps sl Hsv _ (fun p => map (fun y => (y.1, docs_freq opt y.2)) (all_docs p)) flags) with (n := length sl); try done; [|apply Hsv|lia].
  intros it k x Ek Hx. destruct (docs_at opt w ps sl Hsv it k x flags Ek Hx Hw Ha) as (e & -> & He). exists (FreqProxTermsIterator.Docs e). split; [done|]. apply He, Hf. by apply list_elem_of_lookup_2 with k.
Qed.

Lemma serves_positions opt w ps sl flags want fuel : serves opt w ps sl → wants_positions flags = true → answers opt flags = true → long_enough fuel sl →
  read_terms w ps (read_positions_of w want fuel) flags (S (length sl)) (FreqProxTermsIterator.iterator w) = Ok (map (fun x => (x.1, seen_docs opt want [] (all_docs x.2))) sl).
Proof.
  intros Hsv Hw Ha Hf. rewrite <- (drop_0 sl) at 2. apply (read_terms_spec opt w ps sl Hsv _ (fun p => seen_docs opt want [] (all_docs p)) flags) with (n := length sl); try done; [|apply Hsv|lia].
  intros it k x Ek Hx. destruct (postings_at opt w ps sl Hsv it k x flags Ek Hx Hw Ha) as (e & -> & He). exists (FreqProxTermsIterator.Postings e). split; [done|]. apply He, Hf. by apply list_elem_of_lookup_2 with k.
Qed.

(** C1. Indexing documents refines the abstract index.  Any number of fields with any index
    options share two pools; documents with increasing ids below 2^30, whose fields have the
    options they were declared with, are inverted token by token, through the hash of the
    terms, the parallel arrays and the byte slices.  When the abstract index accepts the
    documents and their total charge (per token 9000, twice the length of its text and 120 per byte of its
    payload) is at most 1.4 billion, which is some 150 thousand tokens, the code accepts them,
    and for every field sorting succeeds and the terms iterator then gives exactly the
    terms of the field in strictly increasing order, each with its documents and
    frequencies, or with its documents, frequencies, positions and offsets, whatever number
    of positions of each document is read.  The payload shown at an occurrence that has
    one is its own; at an occurrence without (or with an empty) payload it is not empty, as a comment says, but the
    one shown at the occurrence of the term read before, in an earlier document even; at
    first it is empty.  Flags the field has no answer for are refused.  (The abstract index
    accepts tokens of fewer than 32766 bytes, with positions below 2^30 where they are
    indexed, offsets of an [i32] where they are, and payloads below 2^30 bytes.) *)
Theorem inverted_index_read_back hash32 opts ia ba docs afs gen :
  IntBlockPool.block_size ia = IntBlockPool.INT_BLOCK_SIZE → ByteBlockPool.block_size ba = ByteBlockPool.BYTE_BLOCK_SIZE →
  ascending (-1) docs = true → forallb (fun d => forallb (declared opts) d.2) docs = true → docs_cost docs ≤ LIMIT →
  spec_documents docs (map empty_field opts, 0) = Ok (afs, gen) →
  ∃ c0 c, start opts ia ba = Ok c0 ∧ process_documents hash32 docs c0 = Ok c ∧
    ∀ f opt af, opts !! f = Some opt → afs !! f = Some af → ∃ pf w sl, DocConsumer.field_hash c !! f = Some pf ∧
      let ps := DocConsumer.terms_hash c in
      FreqProxTermsWriterPerField.sort_postings (PerField.term_hash_per_field pf) ps = Ok w ∧ sl ≡ₚ af_index af ∧ StronglySorted (λ a b, lex a b = Lt) sl.*1 ∧
      (∀ flags fuel, wants_positions flags = false → answers opt flags = true → long_enough fuel sl →
        read_terms w ps (read_docs w fuel) flags (S (length sl)) (FreqProxTermsIterator.iterator w) = Ok (map (fun x => (x.1, map (fun y => (y.1, docs_freq opt y.2)) (all_docs x.2))) sl)) ∧
      (∀ flags want fuel, wants_positions flags = true → answers opt flags = true → long_enough fuel sl →
        read_terms w ps (read_positions_of w want fuel) flags (S (length sl)) (FreqProxTermsIterator.iterator w) = Ok (map (fun x => (x.1, seen_docs opt want [] (all_docs x.2))) sl)) ∧
      (∀ flags it, answers opt flags = false → FreqProxTermsIterator.postings_with_flags w ps it flags = Err IllegalArgument).
Proof.
  intros Hia Hba Ha Hd HT Hspec. destruct (built_serves hash32 opts ia ba Hia Hba docs afs gen Ha Hd HT Hspec) as (c0 & c & E0 & E & _ & _ & Hall). exists c0, c. split; [done|]. split; [done|].
  intros f opt af Hopt Haf. destruct (Hall f opt af Hopt Haf) as (pf & w & sl & Hpf & Es & _ & Hp & Hsv & _). exists pf, w, sl. split; [done|]. cbv zeta. split_and!; try done; [apply Hsv| | |].
  - intros flags fuel H1 H2 H3. by apply serves_docs.
  - intros flags want fuel H1 H2 H3. by apply serves_positions.
  - intros flags it. by apply (refused opt w _ sl Hsv).
Qed.

(** C2. Documents the abstract index rejects are rejected by the code as an illegal argument.
    It rejects a token that goes back to a position before the last one or passes the last position allowed, and,
    only in a field that indexes offsets, a token whose start offset goes backwards or that
    ends before it starts (elsewhere such offsets are accepted); the token may be anywhere
    in the documents.  The conditions are those of an index that is read back: document ids
    increase and are below 2^30, fields have the options they were declared with, the
    charge of all the tokens (9000, twice the text and 120 per byte of payload each) is at most 1.4
    billion, and the tokens before the rejected one are ones the abstract index stores (text below 32766
    bytes, positions below 2^30 where indexed, numbers that fit the machine integers). *)
Theorem rejected_documents hash32 opts ia ba docs e :
  IntBlockPool.block_size ia = IntBlockPool.INT_BLOCK_SIZE → ByteBlockPool.block_size ba = ByteBlockPool.BYTE_BLOCK_SIZE →
  ascending (-1) docs = true → forallb (fun d => forallb (declared opts) d.2) docs = true → docs_cost docs ≤ LIMIT →
  spec_documents docs (map empty_field opts, 0) = Err e →
  ∃ c0, start opts ia ba = Ok c0 ∧ process_documents hash32 docs c0 = Err e.
Proof.
  intros Hia Hba Ha Hd HT Hspec. destruct (start_rests hash32 opts ia ba Hia Hba) as (c0 & E0 & Hr). exists c0. split; [done|]. pose proof (documents_sim hash32 opts docs c0 _ _ _ 0 Hr Ha Hd HT) as Hsim. change (-1 + 1) with 0 in Hsim. by rewrite Hspec in Hsim.
Qed.

(** C3. Over the index of accepted documents, [seek_ceil] with any text, from any earlier
    seek, ends at the first term that is not smaller: it says whether that is the text or a
    greater term, or that there is none, and the postings of the term it found are then the
    postings of the field. *)
Theorem inverted_index_seek hash32 opts ia ba docs afs gen :
  IntBlockPool.block_size ia = IntBlockPool.INT_BLOCK_SIZE → ByteBlockPool.block_size ba = ByteBlockPool.BYTE_BLOCK_SIZE →
  ascending (-1) docs = true → forallb (fun d => forallb (declared opts) d.2) docs = true → docs_cost docs ≤ LIMIT →
  spec_documents docs (map empty_field opts, 0) = Ok (afs, gen) →
  ∃ c0 c, start opts ia ba = Ok c0 ∧ process_documents hash32 docs c0 = Ok c ∧
    ∀ f opt af, opts !! f = Some opt → afs !! f = Some af → ∃ pf w sl, DocConsumer.field_hash c !! f = Some pf ∧
      let ps := DocConsumer.terms_hash c in
      FreqProxTermsWriterPerField.sort_postings (PerField.term_hash_per_field pf) ps = Ok w ∧ sl ≡ₚ af_index af ∧
      FreqProxTermsIterator.num_terms (FreqProxTermsIterator.iterator w) = vlen sl ∧
      ∀ it text, FreqProxTermsIterator.num_terms it = vlen sl → ∃ status it', FreqProxTermsIterator.seek_ceil w ps it text = Ok (status, it') ∧
        FreqProxTermsIterator.num_terms it' = vlen sl ∧ ceil_of sl.*1 text status it' ∧
        (status = Found → ∃ p, (text, p) ∈ af_index af ∧ ∀ fuel, (length (all_docs p) < fuel)%nat →
          (e ← FreqProxTermsIterator.postings_with_flags w ps it' PostingIteratorFlags.NONE; read_docs w fuel e) = Ok (map (fun y => (y.1, docs_freq opt y.2)) (all_docs p))).
Proof.
  intros Hia Hba Ha Hd HT Hspec. destruct (built_serves hash32 opts ia ba Hia Hba docs afs gen Ha Hd HT Hspec) as (c0 & c & E0 & E & _ & _ & Hall). exists c0, c. split; [done|]. split; [done|].
  intros f opt af Hopt Haf. destruct (Hall f opt af Hopt Haf) as (pf & w & sl & Hpf & Es & _ & Hp & Hsv & _). exists pf, w, sl. split; [done|]. cbv zeta. split; [done|]. split; [done|]. split; [apply Hsv|].
  intros it text En. destruct (seek_ceil_ok opt w _ sl it text Hsv En) as (status & it' & Eq & En' & Hceil). exists status, it'. split; [done|]. split; [done|]. split; [done|]. intros ->. destruct Hceil as (k & Ek & _ & _ & _ & Hk & _).
  apply list_lookup_fmap_Some in Hk as ([b p] & Eb & Hk). cbn in Eb. subst b. exists p. split; [rewrite <- Hp; by apply list_elem_of_lookup_2 with k|]. intros fuel Hf.
  destruct (docs_at opt w _ sl Hsv it' k (text, p) PostingIteratorFlags.NONE Ek Hk eq_refl) as (e & -> & He); [by unfold answers; destruct (fr opt)|]. cbn [mbind result_bind read_docs]. by apply He.
Qed.

(** ** An index of two documents *)

Module Sample.
Definition hash32 (b : list Z) : Z := fold_left Z.add b 0.
Definition opts : list IndexOptions.t := [IndexOptions.DocsAndFreqsAndPositionsAndOffsets; IndexOptions.Docs].
Definition ia : IntBlockPool.IntAllocator := IntBlockPool.IntBlockAllocator 8192.
Definition ba : ByteBlockPool.ByteBlockAllocator := ByteBlockPool.DirectTrackingAllocator 32768.

(** [b a(pay) b] and then, in a second value of the same field, [a]; in the next document [a c], and a field without positions. *)
Definition body1 : token_stream := TokenStream [Token [98] 1 0 1 None; Token [97] 1 2 3 (Some [7; 7]); Token [98] 2 4 5 None] 0 6.
Definition body2 : token_stream := TokenStream [Token [97] 1 0 1 None] 0 1.
Definition body3 : token_stream := TokenStream [Token [97] 1 0 1 None; Token [99] 0 0 1 (Some [5])] 0 1.
Definition tags : token_stream := TokenStream [Token [120; 121] 1 0 2 None; Token [120] 1 3 4 None; Token [120] 1 5 6 None] 0 6.
Definition docs : list (Z * list doc_field) :=
  [(0, [DocField 0 IndexOptions.DocsAndFreqsAndPositionsAndOffsets body1; DocField 1 IndexOptions.Docs tags; DocField 0 IndexOptions.DocsAndFreqsAndPositionsAndOffsets body2]);
   (3, [DocField 0 IndexOptions.DocsAndFreqsAndPositionsAndOffsets body3; DocField 5 IndexOptions.Null tags])].
(** A token that does not move from the start of its document. *)
Definition bad_docs : list (Z * list doc_field) := docs ++ [(4, [DocField 0 IndexOptions.DocsAndFreqsAndPositionsAndOffsets (TokenStream [Token [97] 0 0 1 None] 0 1)])].

Definition field0 : field_index :=
  [([98], ([], (0, [Occ 0 [] 0 1; Occ 3 [] 4 5]))); ([97], ([(0, [Occ 1 [7; 7] 2 3; Occ 4 [] 6 7])], (3, [Occ 0 [] 0 1]))); ([99], ([], (3, [Occ 0 [5] 0 1])))].
Definition field1 : field_index := [([120; 121], ([], (0, [Occ 0 [] 0 2]))); ([120], ([], (0, [Occ 1 [] 3 4; Occ 2 [] 5 6])))].
Definition state0 : FieldInvertState.t := FieldInvertState.mk 0 2 0 1 0 0 0 0.
Definition state1 : FieldInvertState.t := FieldInvertState.mk 2 3 0 6 0 0 0 2.
Definition index : list abstract_field := [AbstractField state0 1 field0; AbstractField state1 0 field1].
End Sample.

Lemma inverted_index_read_back_witness :
  ∃ c0 c pf w sl, start Sample.opts Sample.ia Sample.ba = Ok c0 ∧ process_documents Sample.hash32 Sample.docs c0 = Ok c ∧ DocConsumer.field_hash c !! 0%nat = Some pf ∧
    FreqProxTermsWriterPerField.sort_postings (PerField.term_hash_per_field pf) (DocConsumer.terms_hash c) = Ok w ∧ sl ≡ₚ Sample.field0 ∧ StronglySorted (λ a b, lex a b = Lt) sl.*1.
Proof.
  destruct (inverted_index_read_back Sample.hash32 Sample.opts Sample.ia Sample.ba Sample.docs Sample.index 2) as (c0 & c & E0 & E & H);
    [reflexivity|reflexivity|vm_compute; reflexivity|vm_compute; reflexivity|vm_compute; discriminate|vm_compute; reflexivity|].
  destruct (H 0%nat _ _ eq_refl eq_refl) as (pf & w & sl & Hpf & Es & Hp & Hs & _). exists c0, c, pf, w, sl. split; [exact E0|]. split; [exact E|]. split; [exact Hpf|]. split; [exact Es|]. split; [exact Hp|exact Hs].
Defined.

Lemma rejected_documents_witness : ∃ c0, start Sample.opts Sample.ia Sample.ba = Ok c0 ∧ process_documents Sample.hash32 Sample.bad_docs c0 = Err IllegalArgument.
Proof. apply rejected_documents; [reflexivity|reflexivity|vm_compute; reflexivity|vm_compute; reflexivity|vm_compute; discriminate|vm_compute; reflexivity]. Defined.

Lemma inverted_index_seek_witness :
  ∃ c0 c pf w sl it, start Sample.opts Sample.ia Sample.ba = Ok c0 ∧ process_documents Sample.hash32 Sample.docs c0 = Ok c ∧ DocConsumer.field_hash c !! 1%nat = Some pf ∧
    FreqProxTermsWriterPerField.sort_postings (PerField.term_hash_per_field pf) (DocConsumer.terms_hash c) = Ok w ∧ sl ≡ₚ Sample.field1 ∧
    ∃ status, FreqProxTermsIterator.seek_ceil w (DocConsumer.terms_hash c) (FreqProxTermsIterator.iterator w) [120; 0] = Ok (status, it) ∧ ceil_of sl.*1 [120; 0] status it.
Proof.
  destruct (inverted_index_seek Sample.hash32 Sample.opts Sample.ia Sample.ba Sample.docs Sample.index 2) as (c0 & c & E0 & E & H);
    [reflexivity|reflexivity|vm_compute; reflexivity|vm_compute; reflexivity|vm_compute; discriminate|vm_compute; reflexivity|].
  destruct (H 1%nat _ _ eq_refl eq_refl) as (pf & w & sl & Hpf & Es & Hp & Hn & Hseek). destruct (Hseek (FreqProxTermsIterator.iterator w) [120; 0] Hn) as (status & it & Eq & _ & Hc & _).
  exists c0, c, pf, w, sl, it. split; [exact E0|]. split; [exact E|]. split; [exact Hpf|]. split; [exact Es|]. split; [exact Hp|]. exists status. split; [exact Eq|exact Hc].
Defined.

(** The code on the two documents, from the tokens to what the iterators show.  The
    occurrences of [a] without a payload show the payload of an earlier one. *)
Example sample_read_back :
  (c0 ← start Sample.opts Sample.ia Sample.ba;
   c ← process_documents Sample.hash32 Sample.docs c0;
   pf ← vget (DocConsumer.field_hash c) 0;
   let ps := DocConsumer.terms_hash c in
   w ← FreqProxTermsWriterPerField.sort_postings (PerField.term_hash_per_field pf) ps;
   read_terms w ps (read_positions_of w (fun _ => 10%nat) 10) PostingIteratorFlags.ALL 4 (FreqProxTermsIterator.iterator w)) =
  Ok [([97], [(0, 2, [(1, [7; 7], Ok 2, Ok 3); (4, [7; 7], Ok 6, Ok 7)]); (3, 1, [(0, [7; 7], Ok 0, Ok 1)])]);
      ([98], [(0, 2, [(0, [], Ok 0, Ok 1); (3, [], Ok 4, Ok 5)])]);
      ([99], [(3, 1, [(0, [5], Ok 0, Ok 1)])])].
Proof. vm_compute. reflexivity. Qed.

(** Positions are doubled before they are written and halved with an arithmetic shift when
    they are read: a position from [2 ^ 30] on, which the checks accept, is read back
    negative. *)
Example far_position_misread :
  (c0 ← start [IndexOptions.DocsAndFreqsAndPositions] Sample.ia Sample.ba;
   c ← process_documents Sample.hash32 [(0, [DocField 0 IndexOptions.DocsAndFreqsAndPositions (TokenStream [Token [97] (2 ^ 30 + 1) 0 1 None] 0 1)])] c0;
   pf ← vget (DocConsumer.field_hash c) 0;
   let ps := DocConsumer.terms_hash c in
   w ← FreqProxTermsWriterPerField.sort_postings (PerField.term_hash_per_field pf) ps;
   read_terms w ps (read_positions_of w (fun _ => 10%nat) 10) PostingIteratorFlags.POSITIONS 2 (FreqProxTermsIterator.iterator w)) =
  Ok [([97], [(0, 1, [(- 2 ^ 30, [], Err IllegalState, Err IllegalState)])])].
Proof. vm_compute. reflexivity. Qed.
