(* ===== verification/ApplyDeletes.v ===== *)
(** Deletions while a segment is flushed: [FreqProxTermsWriter::flush] of
    src/core/codec/postings/terms_hash.rs up to the point where the postings are written.

    The fields are sorted, and the documents with a deleted term are cleared from the live
    documents, each up to the document the deletion was buffered at. *)

From stdpp Require Import gmap sorting.
From S2P Require Import Prelude DocIter BitSets BytePool MsbSorter BytesRefHash FreqProx.
Open Scope Z_scope.
Import TermsHashPerFieldBase.

(** A term of [deleted_terms] with its limit. *)
Record deleted_term : Type := DeletedTerm { dt_field : list Z; dt_bytes : list Z; dt_limit : Z }.

(** [Ord] of [Term] *)
Definition term_cmp (a b : deleted_term) : comparison :=
  match lex (dt_field a) (dt_field b) with Eq => lex (dt_bytes a) (dt_bytes b) | c => c end.
Definition term_le (a b : deleted_term) : Prop := term_cmp a b ≠ Gt.
#[global] Instance term_le_dec : RelDecision term_le.
Proof. unfold term_le. intros a b. apply not_dec. unfold Decision. decide equality. Defined.

(** What [SegmentWriteState] holds of the deletions. *)
Module SegmentWriteState.
Record t : Type := mk { live_docs : FixedBitSet.t; del_count_on_flush : Z }.
Definition new : t := mk (FixedBitSet.mk [] 0 0) 0.
End SegmentWriteState.

Module FreqProxFields.
(** A field by its name. *)
Abbreviation t := (gmap (list Z) FreqProxTermsWriterPerField.t).
Definition new (field_list : list (list Z * FreqProxTermsWriterPerField.t)) : t :=
  fold_left (fun m f => <[f.1 := f.2]> m) field_list ∅.
End FreqProxFields.

Section deletes.
Context (max_doc : Z) (ps : pools).
Import SegmentWriteState FreqProxTermsIterator.

Definition delete_doc (doc : Z) (st : SegmentWriteState.t) : result SegmentWriteState.t :=
  let size := as_u64 max_doc in
  live ← (if FixedBitSet.len (live_docs st) =? 0 then FixedBitSet.batch_set (FixedBitSet.new size) 0 size else Ok (live_docs st));
  b ← FixedBitSet.get live (as_u64 doc);
  if (b : bool) then
    live ← FixedBitSet.clear live (as_u64 doc);
    Ok (SegmentWriteState.mk live (as_u32 (del_count_on_flush st + 1)))
  else Ok (SegmentWriteState.mk live (del_count_on_flush st)).

(** The documents of a term, in order; there are fewer than [max_doc]. *)
Fixpoint delete_loop (fuel : nat) (w : FreqProxTermsWriterPerField.t) (del_doc_limit : Z) (postings_iter : FreqProxPostingIterEnum) (st : SegmentWriteState.t) : result SegmentWriteState.t :=
  match fuel with
  | O => Diverge
  | S fuel =>
    '(doc, postings_iter) ← enum_next w postings_iter;
    if doc <? del_doc_limit then
      st ← delete_doc doc st;
      delete_loop fuel w del_doc_limit postings_iter st
    else Ok st
  end.

(** The iterator of the field before is kept when the field is the same. *)
Definition delete_term (fields : FreqProxFields.t) (t : deleted_term)
    (x : list Z * option (FreqProxTermsWriterPerField.t * FreqProxTermsIterator.t) * SegmentWriteState.t) :
    result (list Z * option (FreqProxTermsWriterPerField.t * FreqProxTermsIterator.t) * SegmentWriteState.t) :=
  let '(last_field, terms_iter, st) := x in
  let terms_iter := if decide (dt_field t ≠ last_field) then (fun w => (w, iterator w)) <$> fields !! dt_field t else terms_iter in
  match terms_iter with
  | Some (w, it) =>
    '(found, it) ← seek_exact w ps it (dt_bytes t);
    if (found : bool) then
      e ← postings_with_flags w ps it 0;
      st ← delete_loop (S (S (Z.to_nat max_doc))) w (dt_limit t) e st;
      Ok (dt_field t, Some (w, it), st)
    else Ok (dt_field t, Some (w, it), st)
  | None => Ok (dt_field t, None, st)
  end.

Definition apply_deletes (fields : FreqProxFields.t) (deleted_terms : list deleted_term) (st : SegmentWriteState.t) : result SegmentWriteState.t :=
  '(_, _, st) ← for_each (merge_sort term_le deleted_terms) (delete_term fields) ([], None, st);
  Ok st.

(** The fields with terms, in the order of their names. *)
Definition gather (field_to_flush : list (list Z * FreqProxTermsWriterPerField.t)) : result (list (list Z * FreqProxTermsWriterPerField.t)) :=
  for_each field_to_flush (fun f all_fields =>
    if negb (BytesRefHash.is_empty (FreqProxTermsWriterPerField.bytes_hash f.2)) then
      w ← FreqProxTermsWriterPerField.sort_postings f.2 ps;
      Ok (all_fields ++ [(f.1, w)])
    else Ok all_fields) [].

(** Term vectors before it, and the codec after it, are left out. *)
Definition flush (field_to_flush : list (list Z * FreqProxTermsWriterPerField.t)) (deleted_terms : list deleted_term) (st : SegmentWriteState.t) : result (FreqProxFields.t * SegmentWriteState.t) :=
  all_fields ← gather field_to_flush;
  let fields := FreqProxFields.new all_fields in
  if negb (vlen all_fields =? 0) then
    st ← apply_deletes fields deleted_terms st;
    Ok (fields, st)
  else Ok (fields, st).
End deletes.
