(* ===== verification/ApplyDeletesFacts.v ===== *)
(** The documents that deletions by term clear are exactly those the index has for the
    deleted terms, below their limits. *)

From Stdlib Require Import Sorted.
From stdpp Require Import gmap sorting.
From S2P Require Import Prelude DataIO PackedBulkFacts PackedArrayFacts DocIter BitSets BitSetsFacts BytePool BytePoolFacts PoolFacts TermsHashFacts MsbSorter MsbSorterFacts BytesRefHash BytesRefHashFacts BytesRefSortFacts FreqProx PostingsSpec FreqProxFacts FreqProxIndex FreqProxReadFacts InvertedIndex InvertedIndexRead InvertedIndexTheorems ApplyDeletes.
Open Scope Z_scope.
Import TermsHashPerFieldBase SegmentWriteState.

(** * Counting *)

Fixpoint count_if (P : Z → bool) (l : list Z) : Z :=
  match l with
  | [] => 0
  | x :: l => (if P x then 1 else 0) + count_if P l
  end.

Lemma count_if_ext P Q l : (∀ x, x ∈ l → P x = Q x) → count_if P l = count_if Q l.
Proof. induction l as [|x l IH]; intros H; [done|]. cbn. rewrite (H x), IH; [done| |by apply list_elem_of_here]. intros y Hy. apply H. by apply list_elem_of_further. Qed.
Lemma count_if_bound P l : 0 ≤ count_if P l ≤ vlen l.
Proof. induction l as [|x l IH]; [done|]. cbn. rewrite vlen_cons. destruct (P x); lia. Qed.
(** One element less. *)
Lemma count_if_remove P x l : NoDup l → x ∈ l → count_if (fun y => P y && negb (x =? y)) l + (if P x then 1 else 0) = count_if P l.
Proof.
  induction l as [|y l IH]; intros Hnd Hx; [by apply not_elem_of_nil in Hx|]. apply list.NoDup_cons in Hnd as [Hy Hnd]. cbn. apply elem_of_cons in Hx as [->|Hx].
  - rewrite Z.eqb_refl, andb_false_r. rewrite (count_if_ext _ P); [lia|]. intros z Hz. rewrite (proj2 (Z.eqb_neq y z)); [by rewrite andb_true_r|]. by intros ->.
  - rewrite (proj2 (Z.eqb_neq x y)) by (by intros ->). rewrite andb_true_r. specialize (IH Hnd Hx). lia.
Qed.

(** * Live documents *)

Section deletes.
Context (max_doc : Z) (Hmax : 0 < max_doc ≤ 2 ^ 30).
#[local] Set Default Proof Using "Type*".

(** Without live documents every document is alive. *)
Definition alive (st : SegmentWriteState.t) (d : Z) : bool := if FixedBitSet.len (live_docs st) =? 0 then true else member (live_docs st) d.
Definition alive_count (st : SegmentWriteState.t) : Z := count_if (alive st) (seqZ 0 max_doc).

Record live_ok (st : SegmentWriteState.t) : Prop := {
  lo_wf : BitSetsFacts.wf (live_docs st);
  lo_len : FixedBitSet.len (live_docs st) = 0 ∨ FixedBitSet.len (live_docs st) = max_doc;
  lo_count : 0 ≤ del_count_on_flush st ∧ del_count_on_flush st + alive_count st < 2 ^ 32;
}.

(** The documents [P] are no longer alive, and those that were are counted. *)
Record deletes (st st' : SegmentWriteState.t) (P : Z → bool) : Prop := {
  de_ok : live_ok st';
  de_alive : ∀ d, 0 ≤ d < max_doc → alive st' d = alive st d && negb (P d);
  de_count : del_count_on_flush st' + alive_count st' = del_count_on_flush st + alive_count st;
}.

Lemma deletes_none st : live_ok st → deletes st st (fun _ => false).
Proof. intros Hok. split; [done| |done]. intros d _. by rewrite andb_true_r. Qed.
Lemma deletes_trans s1 s2 s3 P Q : deletes s1 s2 P → deletes s2 s3 Q → deletes s1 s3 (fun d => P d || Q d).
Proof. intros [A1 A2 A3] [B1 B2 B3]. split; [done| |lia]. intros d Hd. rewrite B2, A2 by done. by rewrite negb_orb, andb_assoc. Qed.
Lemma deletes_ext s s' P Q : deletes s s' P → (∀ d, 0 ≤ d < max_doc → P d = Q d) → deletes s s' Q.
Proof. intros [A1 A2 A3] H. split; try done. intros d Hd. rewrite A2 by done. by rewrite H. Qed.

(** The live documents are made when the first one dies. *)
Lemma live_docs_made st : live_ok st → ∃ live, (if FixedBitSet.len (live_docs st) =? 0 then FixedBitSet.batch_set (FixedBitSet.new (as_u64 max_doc)) 0 (as_u64 max_doc) else Ok (live_docs st)) = Ok live ∧
  BitSetsFacts.wf live ∧ FixedBitSet.len live = max_doc ∧ ∀ d, 0 ≤ d < max_doc → member live d = alive st d.
Proof.
  intros [L1 L2 L3]. unfold alive. rewrite (as_u_id 64 max_doc) by (unfold is_u; lia). destruct (Z.eqb_spec (FixedBitSet.len (live_docs st)) 0) as [E|E].
  - destruct (new_wf max_doc ltac:(lia)) as [Hwf Hm]. destruct (batch_set_becomes (FixedBitSet.new max_doc) 0 max_doc Hwf ltac:(lia)) as (s' & -> & B1 & B2 & B3 & B4); [cbn; lia|]. exists s'. split; [done|]. split; [done|]. split; [done|].
    intros d Hd. rewrite B4 by lia. rewrite (proj2 (Z.leb_le 0 d)), (proj2 (Z.ltb_lt d max_doc)) by lia. done.
  - destruct L2 as [?|L2]; [done|]. by exists (live_docs st).
Qed.

Lemma delete_doc_spec doc st : live_ok st → 0 ≤ doc < max_doc → ∃ st', delete_doc max_doc doc st = Ok st' ∧ deletes st st' (Z.eqb doc).
Proof.
  intros Hok Hd. destruct (live_docs_made st Hok) as (live & E & Hwf & Hlen & Hm). unfold delete_doc. cbv zeta. rewrite E. cbn [mbind result_bind]. rewrite (as_u_id 64 doc) by (unfold is_u; lia). unfold FixedBitSet.len in Hlen.
  rewrite (get_member live doc Hwf) by lia. cbn [mbind result_bind]. rewrite (Hm doc Hd). pose proof Hok as [_ _ L3].
  assert (count_if (fun y => alive st y && negb (doc =? y)) (seqZ 0 max_doc) + (if alive st doc then 1 else 0) = alive_count st) as Hcnt.
  { apply count_if_remove; [apply NoDup_seqZ|]. apply elem_of_seqZ. lia. }
  assert (∀ st', FixedBitSet.len (live_docs st') = max_doc → (∀ d, 0 ≤ d < max_doc → member (live_docs st') d = alive st d && negb (doc =? d)) →
    (∀ d, 0 ≤ d < max_doc → alive st' d = alive st d && negb (doc =? d)) ∧ alive_count st' + (if alive st doc then 1 else 0) = alive_count st) as Hfin.
  { intros st' El Hmem. assert (∀ d, 0 ≤ d < max_doc → alive st' d = alive st d && negb (doc =? d)) as Ha by (intros d Hd'; unfold alive at 1; rewrite El, (proj2 (Z.eqb_neq max_doc 0)) by lia; by apply Hmem).
    split; [done|]. rewrite <- Hcnt. f_equal. apply count_if_ext. intros x Hx. apply elem_of_seqZ in Hx. apply Ha. lia. }
  destruct (alive st doc) eqn:Ea.
  - destruct (clear_becomes live doc Hwf) as (live' & -> & B1 & B2 & B3 & B4); [lia|]. cbn [mbind result_bind]. eexists. split; [done|]. set (st' := SegmentWriteState.mk _ _).
    destruct (Hfin st') as [F1 F2]; [cbn; unfold FixedBitSet.len; lia| |].
    { intros d Hd'. cbn. rewrite B4, Hm by lia. rewrite Z.eqb_sym. apply andb_comm. }
    assert (0 ≤ alive_count st') as H0 by apply count_if_bound. assert (del_count_on_flush st' = del_count_on_flush st + 1) as Ec by (cbn; apply as_u_id; unfold is_u; lia).
    split; [|done|lia]. split; [done|right; cbn; unfold FixedBitSet.len; lia|]. lia.
  - eexists. split; [done|]. set (st' := SegmentWriteState.mk _ _). destruct (Hfin st') as [F1 F2]; [done| |].
    { intros d Hd'. cbn. rewrite Hm by done. destruct (Z.eqb_spec doc d) as [<-|]; [by rewrite Ea|by rewrite andb_true_r]. }
    split; [|done|cbn; lia]. split; [done|by right|]. cbn. lia.
Qed.

(** * The documents of a term *)

Lemma docs_ok_ge opt l : ∀ base d, docs_ok opt base l → d ∈ l.*1 → base ≤ d.
Proof using.
  induction l as [|x l IH]; intros base d Hok Hd; [by apply not_elem_of_nil in Hd|]. destruct Hok as (H1 & _ & H2). rewrite fmap_cons in Hd. apply elem_of_cons in Hd as [->|Hd]; [lia|]. specialize (IH _ _ H2 Hd). lia.
Qed.
Lemma docs_ok_length opt l : ∀ base, docs_ok opt base l → (∀ d, d ∈ l.*1 → d < max_doc) → base ≤ max_doc → vlen l ≤ max_doc - base.
Proof using.
  induction l as [|x l IH]; intros base Hok Hlt Hb; [unfold vlen; cbn; lia|]. destruct Hok as (H1 & _ & H2). rewrite vlen_cons. rewrite fmap_cons in Hlt. pose proof (Hlt x.1 ltac:(by apply list_elem_of_here)).
  specialize (IH _ H2 (fun d Hd => Hlt d (list_elem_of_further _ _ _ Hd)) ltac:(lia)). lia.
Qed.

Section term.
Context (w : FreqProxTermsWriterPerField.t) (opt : IndexOptions.t) (i : Z) (p : postings) (limit : Z).
Context (Hsz : sized_array opt (FreqProxTermsWriterPerField.postings_array w) (array_size w)) (Hi : 0 ≤ i < array_size w) (Hc : cell opt (FreqProxTermsWriterPerField.postings_array w) i p) (Hp : postings_ok opt p).
Context (Hlim : limit ≤ NO_MORE_DOCS) (Hdocs : ∀ d, d ∈ (all_docs p).*1 → d < max_doc).

Definition doomed (l : list (Z * list occ)) (d : Z) : bool := (d <? limit) && bool_decide (d ∈ l.*1).

(** One document of the term. *)
Lemma doomed_cons x l st st1 st2 : deletes st st1 (Z.eqb x.1) → x.1 < limit → deletes st1 st2 (doomed l) → deletes st st2 (doomed (x :: l)).
Proof.
  intros H1 Hx H2. apply (deletes_ext _ _ _ _ (deletes_trans _ _ _ _ _ H1 H2)). intros d _. unfold doomed. rewrite fmap_cons. destruct (Z.eqb_spec x.1 d) as [<-|Hne]; cbn [orb].
  - rewrite (proj2 (Z.ltb_lt _ _)) by done. symmetry. apply bool_decide_eq_true. by apply list_elem_of_here.
  - f_equal. apply bool_decide_ext. rewrite elem_of_cons. split; [by right|]. intros [->|?]; [done|done].
Qed.
Lemma doomed_none opt' base l st : docs_ok opt' base l → limit ≤ base → live_ok st → deletes st st (doomed l).
Proof.
  intros Hok Hb Hst. apply (deletes_ext _ _ _ _ (deletes_none st Hst)). intros d Hd. unfold doomed. destruct (Z.ltb_spec d limit); [|done]. cbn. symmetry. apply bool_decide_eq_false. intros Hin. pose proof (docs_ok_ge _ _ _ _ Hok Hin). lia.
Qed.

Lemma delete_rest rest : ∀ it base fuel st, docs_state opt i it base rest → FreqProxDocsIterator.ended it = false → 0 ≤ base → docs_ok opt base (rest ++ [p.2]) → (∀ d, d ∈ (rest ++ [p.2]).*1 → d < max_doc) → (length rest + 2 ≤ fuel)%nat → live_ok st →
  ∃ st', delete_loop max_doc fuel w limit (FreqProxTermsIterator.Docs it) st = Ok st' ∧ deletes st st' (doomed (rest ++ [p.2])).
Proof.
  induction rest as [|[d os] rest IH]; intros it base fuel st Hds He Hb Hok Hlt Hfuel Hst; (destruct fuel as [|fuel]; [cbn in Hfuel; lia|]); cbn [delete_loop FreqProxTermsIterator.enum_next app] in *.
  - destruct (next_last w opt i (array_size w) p Hsz Hi Hc Hp it base Hds He) as (it' & -> & Hr & He' & _). cbn [mbind result_bind]. destruct Hok as (Hd & Hok). destruct (Z.ltb_spec p.2.1 limit).
    + destruct (delete_doc_spec p.2.1 st Hst) as (st1 & -> & Hdel); [split; [lia|]; apply Hlt; rewrite fmap_cons; by apply list_elem_of_here|]. cbn [mbind result_bind]. destruct fuel as [|fuel]; [cbn in Hfuel; lia|]. cbn [delete_loop FreqProxTermsIterator.enum_next].
      destruct (next_end w opt i (array_size w) p Hsz Hi Hc Hp it' Hr He') as (it2 & -> & _). cbn [mbind result_bind]. rewrite (proj2 (Z.ltb_ge _ _)) by done. exists st1. split; [done|]. apply (doomed_cons _ _ st st1 st1); [done|done|]. apply (doomed_none opt limit); [done|lia|apply Hdel].
    + exists st. split; [done|]. apply (doomed_none opt p.2.1); [|lia|done]. split; [lia|]. by destruct Hok.
  - pose proof Hok as (Hd & Hdk & Hok'). cbn [fst snd] in *. destruct (next_doc w opt i (array_size w) p Hsz Hi Hc Hp it base d os rest Hds) as (it' & -> & Hds' & He' & _); [lia|lia|by destruct Hdk as (_ & ? & _)|]. cbn [mbind result_bind]. destruct (Z.ltb_spec d limit).
    + destruct (delete_doc_spec d st Hst) as (st1 & -> & Hdel); [split; [lia|]; apply Hlt; rewrite fmap_cons; by apply list_elem_of_here|]. cbn [mbind result_bind].
      destruct (IH it' d fuel st1) as (st2 & -> & Hdel2); [done|congruence|lia|by apply (docs_ok_mono opt _ (d + 1)); [|lia]| |cbn in Hfuel; lia|apply Hdel|].
      { intros d' Hd'. apply Hlt. rewrite fmap_cons. by apply list_elem_of_further. }
      exists st2. split; [done|]. by apply (doomed_cons _ _ st st1 st2).
    + exists st. split; [done|]. apply (doomed_none opt d); [|lia|done]. split; [cbn; lia|done].
Qed.
End term.

(** * The fields *)

Lemma postings_of_elem b (l : field_index) p : NoDup l.*1 → postings_of b l = Some p ↔ (b, p) ∈ l.
Proof using.
  intros Hnd. split.
  - clear Hnd. induction l as [|[t q] l IH]; [done|]. cbn. destruct (decide (t = b)) as [->|]; [intros [= ->]; by apply list_elem_of_here|]. intros H. by apply list_elem_of_further, IH.
  - intros Hin. apply list_elem_of_lookup in Hin as (k & Hk). by apply (postings_of_old b l k).
Qed.
Lemma postings_of_perm b (l k : field_index) : NoDup l.*1 → l ≡ₚ k → postings_of b l = postings_of b k.
Proof using.
  intros Hnd Hp. assert (NoDup k.*1) as Hnd' by (by rewrite <- Hp). apply option_eq. intros p. rewrite !postings_of_elem by done. by rewrite Hp.
Qed.
Lemma sorted_nodup (ts : list (list Z)) : StronglySorted (λ a b, lex a b = Lt) ts → NoDup ts.
Proof using.
  intros Hs. apply NoDup_alt. intros i j x Hi Hj. destruct (decide (i < j)%nat) as [Hlt|]; [pose proof (sorted_lt ts i j x x Hs Hlt Hi Hj) as E; by rewrite lex_refl in E|].
  destruct (decide (j < i)%nat) as [Hlt|]; [pose proof (sorted_lt ts j i x x Hs Hlt Hj Hi) as E; by rewrite lex_refl in E|lia].
Qed.

Lemma seek_exact_ok opt w ps sl it text : serves opt w ps sl → FreqProxTermsIterator.num_terms it = vlen sl →
  ∃ found it', FreqProxTermsIterator.seek_exact w ps it text = Ok (found, it') ∧ FreqProxTermsIterator.num_terms it' = vlen sl ∧
    if (found : bool) then ∃ k p, FreqProxTermsIterator.ord it' = Z.of_nat k ∧ sl !! k = Some (text, p) else postings_of text sl = None.
Proof using.
  intros Hsv En. destruct (seek_ceil_ok opt w ps sl it text Hsv En) as (status & it' & E & En' & k & Ek & Hk & Hlt & Hgt & Hst). unfold FreqProxTermsIterator.seek_exact. rewrite E. cbn [mbind result_bind].
  eexists _, it'. split; [done|]. split; [done|]. assert ((∀ b, sl.*1 !! k = Some b → lex b text = Gt) → text ∉ sl.*1) as Hno.
  { intros Hat Hin. apply list_elem_of_lookup in Hin as (j & Hj). pose proof (lex_refl text) as Hre. destruct (decide (j < k)%nat); [by rewrite (Hlt j text) in Hre|]. destruct (decide (k < j)%nat); [by rewrite (Hgt j text) in Hre|]. assert (j = k) as -> by lia. by rewrite (Hat text Hj) in Hre. }
  destruct status.
  - apply postings_of_new, Hno. intros b Hb. apply lookup_lt_Some in Hb. lia.
  - destruct Hst as [Hb _]. apply list_lookup_fmap_Some in Hb as ([b p] & Eb & Hb). cbn in Eb. subst b. by exists k, p.
  - destruct Hst as (b & Hb & Hgt' & _). apply postings_of_new, Hno. intros b' Hb'. rewrite Hb in Hb'. by injection Hb' as <-.
Qed.

Section fields.
Context (ps : pools) (fields : FreqProxFields.t) (ix : list Z → field_index).

Record fields_ok : Prop := {
  fo_some : ∀ name w, fields !! name = Some w → ∃ opt sl, serves opt w ps sl ∧ ∀ b, postings_of b sl = postings_of b (ix name);
  fo_none : ∀ name, fields !! name = None → ix name = [];
  fo_unnamed : fields !! [] = None;
  fo_docs : ∀ name b p d, postings_of b (ix name) = Some p → d ∈ (all_docs p).*1 → d < max_doc;
}.

(** The documents a deletion is about. *)
Definition hits (t : deleted_term) (d : Z) : bool :=
  match postings_of (dt_bytes t) (ix (dt_field t)) with Some p => doomed (dt_limit t) (all_docs p) d | None => false end.

(** The iterator that is kept. *)
Definition kept (last_field : list Z) (terms_iter : option (FreqProxTermsWriterPerField.t * FreqProxTermsIterator.t)) : Prop :=
  match fields !! last_field with
  | Some w => ∃ it, terms_iter = Some (w, it) ∧ FreqProxTermsIterator.num_terms it = BytesRefHash.len (FreqProxTermsWriterPerField.bytes_hash w)
  | None => terms_iter = None
  end.

Lemma delete_found w opt sl it k t p st : fields_ok → serves opt w ps sl → FreqProxTermsIterator.ord it = Z.of_nat k → sl !! k = Some (dt_bytes t, p) → postings_of (dt_bytes t) (ix (dt_field t)) = Some p → dt_limit t ≤ NO_MORE_DOCS → live_ok st →
  ∃ e st', FreqProxTermsIterator.postings_with_flags w ps it 0 = Ok e ∧ delete_loop max_doc (S (S (Z.to_nat max_doc))) w (dt_limit t) e st = Ok st' ∧ deletes st st' (hits t).
Proof.
  intros Hf Hsv Ek Hk Hpo Hlim Hst. destruct (docs_opened opt w ps sl Hsv it k (dt_bytes t, p) 0 Ek Hk eq_refl) as (e & i & E & [D1 D2 D3 D4 D5]); [by unfold answers; destruct (fr opt)|]. cbn [snd] in *.
  assert (∀ d, d ∈ (all_docs p).*1 → d < max_doc) as Hlt by (intros d; by apply (fo_docs Hf (dt_field t) (dt_bytes t) p d)). assert (vlen (all_docs p) ≤ max_doc) as Hlen by (pose proof (docs_ok_length opt (all_docs p) 0 D3 Hlt); lia). unfold all_docs in Hlen. rewrite vlen_app in Hlen. change (vlen [p.2]) with 1 in Hlen. unfold vlen in Hlen.
  destruct (delete_rest w opt i p (dt_limit t) (sv_sized _ _ _ _ Hsv) D1 D2 D3 Hlim Hlt p.1 e 0 (S (S (Z.to_nat max_doc))) st D4 D5 ltac:(lia) D3 Hlt ltac:(lia) Hst) as (st' & Ed & Hdel). exists (FreqProxTermsIterator.Docs e), st'. split; [done|]. split; [done|].
  apply (deletes_ext _ _ _ _ Hdel). intros d _. unfold hits. by rewrite Hpo.
Qed.

Lemma delete_term_spec t last_field terms_iter st : fields_ok → kept last_field terms_iter → live_ok st → dt_limit t ≤ NO_MORE_DOCS →
  ∃ terms_iter' st', delete_term max_doc ps fields t (last_field, terms_iter, st) = Ok (dt_field t, terms_iter', st') ∧ kept (dt_field t) terms_iter' ∧ deletes st st' (hits t).
Proof.
  intros Hf Hk Hst Hlim. unfold delete_term. set (ti := if decide _ then _ else _).
  assert (kept (dt_field t) ti) as Hti.
  { unfold ti. case_decide as Hd; [|by rewrite Hd]. unfold kept. destruct (fields !! dt_field t) as [w|]; [|done]. by eexists. }
  unfold kept in Hti. destruct (fields !! dt_field t) as [w|] eqn:Ew.
  - destruct Hti as (it & Ei & En). destruct (fo_some Hf _ w Ew) as (opt & sl & Hsv & Heq). rewrite (sv_count _ _ _ _ Hsv) in En. destruct (seek_exact_ok opt w ps sl it (dt_bytes t) Hsv En) as (found & it' & Es & En' & Hfound). clearbody ti. subst ti. rewrite Es. cbn [mbind result_bind].
    assert (kept (dt_field t) (Some (w, it'))) as Hk' by (unfold kept; rewrite Ew; exists it'; by rewrite (sv_count _ _ _ _ Hsv)). destruct found.
    + destruct Hfound as (k & p & Ek & Hp). assert (postings_of (dt_bytes t) (ix (dt_field t)) = Some p) as Hpo by (rewrite <- Heq; apply (postings_of_old _ sl k); [apply sorted_nodup, Hsv|done]).
      destruct (delete_found w opt sl it' k t p st Hf Hsv Ek Hp Hpo Hlim Hst) as (e & st' & -> & Ed & Hdel). cbn [mbind result_bind]. rewrite Ed. cbn [mbind result_bind]. by exists (Some (w, it')), st'.
    + exists (Some (w, it')), st. split; [done|]. split; [done|]. apply (deletes_ext _ _ _ _ (deletes_none st Hst)). intros d _. unfold hits. by rewrite <- Heq, Hfound.
  - clearbody ti. subst ti. exists None, st. split; [done|]. split; [unfold kept; by rewrite Ew|]. apply (deletes_ext _ _ _ _ (deletes_none st Hst)). intros d _. unfold hits. by rewrite (fo_none Hf _ Ew).
Qed.

Lemma delete_terms ts : ∀ last_field terms_iter st, fields_ok → kept last_field terms_iter → live_ok st → Forall (fun t => dt_limit t ≤ NO_MORE_DOCS) ts →
  ∃ lf ti st', for_each ts (delete_term max_doc ps fields) (last_field, terms_iter, st) = Ok (lf, ti, st') ∧ deletes st st' (fun d => existsb (fun t => hits t d) ts).
Proof.
  induction ts as [|t ts IH]; intros lf ti st Hf Hk Hst Hlim; [exists lf, ti, st; split; [done|by apply deletes_none]|]. apply List.Forall_cons_iff in Hlim as [Ht Hlim].
  destruct (delete_term_spec t lf ti st Hf Hk Hst Ht) as (ti1 & st1 & E1 & Hk1 & D1). destruct (IH (dt_field t) ti1 st1 Hf Hk1 (de_ok _ _ _ D1) Hlim) as (lf2 & ti2 & st2 & E2 & D2). exists lf2, ti2, st2. cbn [for_each]. rewrite E1. cbn [mbind result_bind]. split; [done|].
  apply (deletes_trans _ _ _ _ _ D1 D2).
Qed.

Lemma existsb_perm {X} (P : X → bool) (l k : list X) : l ≡ₚ k → existsb P l = existsb P k.
Proof using. induction 1 as [|x l k _ IH|x y l|l k m _ IH1 _ IH2]; cbn; [done|by rewrite IH|by rewrite !orb_assoc, (orb_comm (P x))|congruence]. Qed.

Lemma apply_deletes_spec ts st : fields_ok → live_ok st → Forall (fun t => dt_limit t ≤ NO_MORE_DOCS) ts →
  ∃ st', apply_deletes max_doc ps fields ts st = Ok st' ∧ deletes st st' (fun d => existsb (fun t => hits t d) ts).
Proof.
  intros Hf Hst Hlim. pose proof (merge_sort_Permutation term_le ts) as Hperm. destruct (delete_terms (merge_sort term_le ts) [] None st) as (lf & ti & st' & E & D); [done|unfold kept; by rewrite (fo_unnamed Hf)|done|by rewrite Hperm|].
  unfold apply_deletes. rewrite E. cbn [mbind result_bind]. exists st'. split; [done|]. apply (deletes_ext _ _ _ _ D). intros d _. by apply existsb_perm.
Qed.
End fields.
End deletes.

(** * Flushing *)

Section flushing.
Context (ps : pools).

Lemma gather_spec (l : list (list Z * FreqProxTermsWriterPerField.t)) : (∀ f, f ∈ l → ∃ w', FreqProxTermsWriterPerField.sort_postings f.2 ps = Ok w') →
  ∃ out, gather ps l = Ok out ∧ out.*1 `sublist_of` l.*1 ∧ ∀ name w', (name, w') ∈ out ↔ ∃ w, (name, w) ∈ l ∧ BytesRefHash.is_empty (FreqProxTermsWriterPerField.bytes_hash w) = false ∧ FreqProxTermsWriterPerField.sort_postings w ps = Ok w'.
Proof.
  unfold gather. intros Hl. set (body := fun f all_fields => _). cut (∀ acc, ∃ out, for_each l body acc = Ok (acc ++ out) ∧ out.*1 `sublist_of` l.*1 ∧
    ∀ name w', (name, w') ∈ out ↔ ∃ w, (name, w) ∈ l ∧ BytesRefHash.is_empty (FreqProxTermsWriterPerField.bytes_hash w) = false ∧ FreqProxTermsWriterPerField.sort_postings w ps = Ok w'); [intros H; apply (H [])|].
  induction l as [|[n w] l IH]; intros acc.
  { exists []. split; [cbn; by rewrite app_nil_r|]. split; [constructor|]. intros name w'. split; [intros H; by apply not_elem_of_nil in H|]. intros (w & H & _). by apply not_elem_of_nil in H. }
  destruct (Hl (n, w) ltac:(by apply list_elem_of_here)) as (w1 & Es). specialize (IH (fun f Hf => Hl f (list_elem_of_further _ _ _ Hf))). cbn [for_each]. assert (body (n, w) acc = (if negb (BytesRefHash.is_empty (FreqProxTermsWriterPerField.bytes_hash w)) then w' ← FreqProxTermsWriterPerField.sort_postings w ps; Ok (acc ++ [(n, w')]) else Ok acc)) as -> by done. cbn [fst snd] in *.
  destruct (BytesRefHash.is_empty (FreqProxTermsWriterPerField.bytes_hash w)) eqn:Ee; cbn [negb mbind result_bind].
  - destruct (IH acc) as (out & E & Hs & Hin). exists out. split; [done|]. split; [rewrite fmap_cons; by apply sublist_cons|]. intros name w'. rewrite Hin. setoid_rewrite elem_of_cons. split; [intros (v & ? & ? & ?); exists v; tauto|].
    intros (v & [[= -> ->]|?] & ? & ?); [congruence|]. by exists v.
  - rewrite Es. cbn [mbind result_bind]. destruct (IH (acc ++ [(n, w1)])) as (out & E & Hs & Hin). exists ((n, w1) :: out). split; [by rewrite E, <- app_assoc|]. split; [rewrite !fmap_cons; by apply sublist_skip|]. intros name w'. rewrite elem_of_cons, Hin. setoid_rewrite elem_of_cons. split.
    + intros [[= -> ->]|(v & ? & ? & ?)]; [exists w; tauto|exists v; tauto].
    + intros (v & [[= -> ->]|?] & ? & ?); [left; congruence|right; by exists v].
Qed.

Lemma fields_lookup (l : list (list Z * FreqProxTermsWriterPerField.t)) name w : NoDup l.*1 → FreqProxFields.new l !! name = Some w ↔ (name, w) ∈ l.
Proof.
  intros Hnd. unfold FreqProxFields.new. assert (∀ m : gmap (list Z) FreqProxTermsWriterPerField.t, (∀ n, n ∈ l.*1 → m !! n = None) → fold_left (fun m f => <[f.1 := f.2]> m) l m !! name = Some w ↔ (name, w) ∈ l ∨ m !! name = Some w) as H.
  { induction l as [|[n v] l IH]; intros m Hm; [cbn; rewrite elem_of_nil; tauto|]. apply list.NoDup_cons in Hnd as [Hn Hnd]. cbn [fold_left fst snd]. rewrite IH; [|done|].
    - rewrite elem_of_cons, lookup_insert_Some. split; [intros [?|[[<- <-]|[? ?]]]; tauto|]. intros [[[= -> ->]|?]|Hm']; [tauto|tauto|]. right. right. split; [|done]. intros ->. rewrite Hm in Hm'; [done|]. cbn. by apply list_elem_of_here.
    - intros n' Hn'. rewrite lookup_insert_ne; [apply Hm; by apply list_elem_of_further|]. by intros ->. }
  rewrite H; [|by intros; apply lookup_empty]. rewrite lookup_empty. split; [by intros [?|?]|tauto].
Qed.
End flushing.

(** The index of a field by its name. *)
Fixpoint index_named (l : list (list Z * field_index)) (name : list Z) : field_index :=
  match l with
  | [] => []
  | (n, i) :: l => if decide (n = name) then i else index_named l name
  end.

Lemma index_named_in l name i : NoDup l.*1 → (name, i) ∈ l → index_named l name = i.
Proof.
  intros Hnd Hin. induction l as [|[n j] l IH]; [by apply not_elem_of_nil in Hin|]. apply list.NoDup_cons in Hnd as [Hn Hnd]. cbn. apply elem_of_cons in Hin as [[= <- <-]|Hin]; [by rewrite decide_True|]. rewrite decide_False; [by apply IH|].
  intros ->. apply Hn. apply list_elem_of_fmap. by exists (name, i).
Qed.
Lemma index_named_some l name : index_named l name ≠ [] → ∃ i, (name, i) ∈ l ∧ index_named l name = i.
Proof.
  induction l as [|[n j] l IH]; cbn; [done|]. destruct (decide (n = name)) as [->|]; [intros _; exists j; split; [by apply list_elem_of_here|done]|]. intros H. destruct (IH H) as (i & Hi & E). exists i. split; [by apply list_elem_of_further|done].
Qed.

(** ** The index of accepted documents *)

Lemma docs_ok_le opt x l : ∀ base d, docs_ok opt base (l ++ [x]) → d ∈ (l ++ [x]).*1 → d ≤ x.1.
Proof.
  induction l as [|y l IH]; intros base d Hok Hd; cbn [app] in *; rewrite fmap_cons in Hd; destruct Hok as (H1 & _ & H2); apply elem_of_cons in Hd as [->|Hd].
  - lia.
  - by apply not_elem_of_nil in Hd.
  - assert (x.1 ∈ (l ++ [x]).*1) as Hx by (rewrite fmap_app; apply elem_of_app; right; by apply list_elem_of_here). pose proof (docs_ok_ge _ _ _ _ H2 Hx). lia.
  - by apply (IH _ d H2).
Qed.

Section built.
Context (max_doc last : Z) (names : list (list Z)) (opts : list IndexOptions.t) (afs : list abstract_field) (pfs : list PerField.t) (ps : pools).
Context (Hnames : length names = length opts) (Hafs : length afs = length opts) (Hpfs : length pfs = length opts) (Hnd : NoDup names) (Hne : [] ∉ names) (Hlast : last < max_doc).
Context (Hbuilt : ∀ f opt af, opts !! f = Some opt → afs !! f = Some af → ∃ pf w sl, pfs !! f = Some pf ∧
  FreqProxTermsWriterPerField.sort_postings (PerField.term_hash_per_field pf) ps = Ok w ∧
  BytesRefHash.len (FreqProxTermsWriterPerField.bytes_hash (PerField.term_hash_per_field pf)) = vlen (af_index af) ∧ sl ≡ₚ af_index af ∧ serves opt w ps sl ∧
  (∀ b p, postings_of b (af_index af) = Some p → p.2.1 ≤ last)).
#[local] Set Default Proof Using "Type*".

Definition to_flush : list (list Z * FreqProxTermsWriterPerField.t) := zip names (map PerField.term_hash_per_field pfs).
Definition named : list (list Z * field_index) := zip names (map af_index afs).

Lemma named_keys : named.*1 = names.
Proof. unfold named. apply fst_zip. rewrite length_map. lia. Qed.
Lemma to_flush_keys : to_flush.*1 = names.
Proof. unfold to_flush. apply fst_zip. rewrite length_map. lia. Qed.

(** A field by its name. *)
Lemma field_of name w0 : (name, w0) ∈ to_flush → ∃ opt l w sl, index_named named name = l ∧ FreqProxTermsWriterPerField.sort_postings w0 ps = Ok w ∧
  BytesRefHash.len (FreqProxTermsWriterPerField.bytes_hash w0) = vlen l ∧ sl ≡ₚ l ∧ serves opt w ps sl ∧ (∀ b p, postings_of b l = Some p → p.2.1 ≤ last).
Proof.
  intros Hin. apply list_elem_of_lookup in Hin as (f & Hf). unfold to_flush in Hf. apply lookup_zip_Some in Hf as [Hn Hw]. pose proof (lookup_lt_Some _ _ _ Hn). change (map ?g pfs) with (g <$> pfs) in Hw. apply list_lookup_fmap_Some in Hw as (pf & -> & Hpf).
  destruct (lookup_lt_is_Some_2 opts f ltac:(lia)) as [opt Hopt]. destruct (lookup_lt_is_Some_2 afs f ltac:(lia)) as [af Haf]. destruct (Hbuilt f opt af Hopt Haf) as (pf' & w & sl & E1 & E2 & E3 & E4 & E5 & E6). rewrite Hpf in E1. injection E1 as <-.
  exists opt, (af_index af), w, sl. split; [|done]. apply index_named_in; [by rewrite named_keys|]. apply list_elem_of_lookup. exists f. unfold named. apply lookup_zip_Some. split; [done|]. change (map ?g afs) with (g <$> afs). by rewrite list_lookup_fmap, Haf.
Qed.
Lemma flushed_name name : index_named named name ≠ [] → ∃ w0, (name, w0) ∈ to_flush.
Proof.
  intros H. destruct (index_named_some named name H) as (i & Hi & _). apply list_elem_of_lookup in Hi as (f & Hf). unfold named in Hf. apply lookup_zip_Some in Hf as [Hn Hi]. pose proof (lookup_lt_Some _ _ _ Hn).
  destruct (lookup_lt_is_Some_2 pfs f ltac:(lia)) as [pf Hpf]. exists (PerField.term_hash_per_field pf). apply list_elem_of_lookup. exists f. unfold to_flush. apply lookup_zip_Some. split; [done|]. change (map ?g pfs) with (g <$> pfs). by rewrite list_lookup_fmap, Hpf.
Qed.

Lemma flushed_fields out : gather ps to_flush = Ok out → out.*1 `sublist_of` to_flush.*1 →
  (∀ name w', (name, w') ∈ out ↔ ∃ w, (name, w) ∈ to_flush ∧ BytesRefHash.is_empty (FreqProxTermsWriterPerField.bytes_hash w) = false ∧ FreqProxTermsWriterPerField.sort_postings w ps = Ok w') →
  fields_ok max_doc ps (FreqProxFields.new out) (index_named named).
Proof.
  intros _ Hsub Hin. rewrite to_flush_keys in Hsub. assert (NoDup out.*1) as Hnd' by (by apply (sublist_NoDup _ names)). split.
  - intros name w Hw. apply fields_lookup in Hw; [|done]. apply Hin in Hw as (w0 & Hw0 & _ & Es). destruct (field_of name w0 Hw0) as (opt & l & w' & sl & E1 & E2 & E3 & E4 & E5 & _). rewrite Es in E2. injection E2 as <-.
    exists opt, sl. split; [done|]. intros b. rewrite E1. apply postings_of_perm; [apply sorted_nodup, E5|done].
  - intros name Hno. destruct (index_named named name) as [|x l] eqn:El; [done|]. exfalso. destruct (flushed_name name ltac:(by rewrite El)) as (w0 & Hw0). destruct (field_of name w0 Hw0) as (opt & l' & w' & sl & E1 & E2 & E3 & E4 & E5 & _).
    assert ((name, w') ∈ out) as Ho. { apply Hin. exists w0. split; [done|]. split; [|done]. unfold BytesRefHash.is_empty. rewrite E3, <- E1, El, vlen_cons. pose proof (vlen_nonneg l). lia. }
    apply fields_lookup in Ho; [|done]. by rewrite Hno in Ho.
  - destruct (FreqProxFields.new out !! []) as [w|] eqn:E; [|done]. apply fields_lookup in E; [|done]. apply Hin in E as (w0 & Hw0 & _). exfalso. apply Hne. rewrite <- to_flush_keys. apply list_elem_of_fmap. by exists ([], w0).
  - intros name b p d Hp Hd. destruct (flushed_name name ltac:(intros E; by rewrite E in Hp)) as (w0 & Hw0). destruct (field_of name w0 Hw0) as (opt & l & w' & sl & E1 & E2 & E3 & E4 & E5 & E6). rewrite E1 in Hp. pose proof (E6 b p Hp) as Hle.
    assert (NoDup sl.*1) as Hs by (apply sorted_nodup, E5). rewrite <- (postings_of_perm b sl l Hs E4) in Hp. apply postings_of_elem in Hp; [|done]. apply list_elem_of_lookup in Hp as (k & Hk). destruct (sv_posting _ _ _ _ E5 k (b, p) Hk) as (i & _ & _ & _ & _ & Hok & _).
    pose proof (docs_ok_le opt p.2 p.1 0 d Hok Hd). lia.
Qed.
End built.

(** C4. Flushing applies the buffered deletions to exactly the right documents.  Over the
    index of any accepted documents, within the bounds under which they are read back, with the fields under distinct names none of
    which is empty, and any deleted terms in any order with limits of at most [NO_MORE_DOCS], [flush] succeeds
    for any [max_doc] above the document ids and up to 2^30; a document is then alive if it was before and
    no deleted term with a greater limit occurs in it, and the count of deletions has grown
    by the number of documents that died.  The iterator of a field is kept from one deleted
    term to the next; since the code starts with the empty string for the name of that field,
    deletions of a field with the empty name would be passed over, which the condition on names excludes. *)
Theorem flush_applies_deletes hash32 opts ia ba docs afs gen names max_doc deleted st :
  IntBlockPool.block_size ia = IntBlockPool.INT_BLOCK_SIZE → ByteBlockPool.block_size ba = ByteBlockPool.BYTE_BLOCK_SIZE →
  ascending (-1) docs = true → forallb (fun d => forallb (declared opts) d.2) docs = true → docs_cost docs ≤ LIMIT →
  spec_documents docs (map empty_field opts, 0) = Ok (afs, gen) →
  length names = length opts → NoDup names → [] ∉ names → last_id (-1) docs < max_doc → 0 < max_doc ≤ 2 ^ 30 →
  Forall (fun t => dt_limit t ≤ NO_MORE_DOCS) deleted → live_ok max_doc st →
  ∃ c0 c fields st', start opts ia ba = Ok c0 ∧ process_documents hash32 docs c0 = Ok c ∧
    flush max_doc (DocConsumer.terms_hash c) (zip names (map PerField.term_hash_per_field (DocConsumer.field_hash c))) deleted st = Ok (fields, st') ∧ live_ok max_doc st' ∧
    (∀ d, 0 ≤ d < max_doc → alive st' d = alive st d && negb (existsb (fun t => hits (index_named (zip names (map af_index afs))) t d) deleted)) ∧
    del_count_on_flush st' - del_count_on_flush st = alive_count max_doc st - alive_count max_doc st'.
Proof.
  intros Hia Hba Ha Hd HT Hspec Hn Hnd Hne Hlast Hmax Hlim Hst. destruct (built_serves hash32 opts ia ba Hia Hba docs afs gen Ha Hd HT Hspec) as (c0 & c & E0 & E & L1 & L2 & Hall). set (pfs := DocConsumer.field_hash c) in *. set (ps := DocConsumer.terms_hash c) in *.
  destruct (gather_spec ps (to_flush names pfs)) as (out & Eg & Hsub & Hin).
  { intros [name w0] Hf. destruct (field_of (last_id (-1) docs + 1) (last_id (-1) docs) names opts afs pfs ps Hn L2 L1 Hnd Hne ltac:(lia) Hall name w0 Hf) as (_ & _ & w & _ & _ & Es & _). by exists w. }
  pose proof (flushed_fields max_doc _ names opts afs pfs ps Hn L2 L1 Hnd Hne Hlast Hall out Eg Hsub Hin) as Hok. destruct (apply_deletes_spec max_doc Hmax ps _ _ deleted st Hok Hst Hlim) as (st' & Ed & [D1 D2 D3]).
  assert (flush max_doc ps (to_flush names pfs) deleted st = if negb (vlen out =? 0) then Ok (FreqProxFields.new out, st') else Ok (FreqProxFields.new out, st)) as Ef by (unfold flush; rewrite Eg; cbn [mbind result_bind]; rewrite Ed; by destruct (vlen out =? 0)).
  destruct (Z.eqb_spec (vlen out) 0) as [Ev|Ev]; cbn [negb] in Ef.
  - exists c0, c, (FreqProxFields.new out), st. split; [done|]. split; [done|]. split; [done|]. split; [done|]. split; [|lia]. intros d Hd'. assert (out = []) as -> by (destruct out; [done|]; rewrite vlen_cons in Ev; pose proof (vlen_nonneg out); lia).
    assert (existsb (fun t => hits (index_named (zip names (map af_index afs))) t d) deleted = false) as ->; [|by rewrite andb_true_r]. apply not_true_iff_false. rewrite existsb_exists. intros (t & _ & Ht). unfold hits in Ht. change (zip names (map af_index afs)) with (named names afs) in Ht. by rewrite (fo_none _ _ _ _ Hok (dt_field t) (lookup_empty _)) in Ht.
  - exists c0, c, (FreqProxFields.new out), st'. split_and!; try done. lia.
Qed.

(** [b] is deleted everywhere, [a] in the documents below 3, and a term of a field that does
    not exist. *)
Definition sample_deletes : list deleted_term := [DeletedTerm [116] [97] 9; DeletedTerm [98; 111] [98] 100; DeletedTerm [98; 111] [97] 3].

Lemma new_live max_doc : 0 < max_doc ≤ 2 ^ 30 → live_ok max_doc SegmentWriteState.new.
Proof.
  intros Hm. split; [apply (new_wf 0); lia|by left|]. pose proof (count_if_bound (alive SegmentWriteState.new) (seqZ 0 max_doc)) as H. unfold alive_count, vlen in *. rewrite length_seqZ in H. cbn [del_count_on_flush SegmentWriteState.new]. lia.
Qed.

Lemma flush_applies_deletes_witness :
  ∃ c0 c fields st', start Sample.opts Sample.ia Sample.ba = Ok c0 ∧ process_documents Sample.hash32 Sample.docs c0 = Ok c ∧
    flush 4 (DocConsumer.terms_hash c) (zip [[98; 111]; [116; 97]] (map PerField.term_hash_per_field (DocConsumer.field_hash c))) sample_deletes SegmentWriteState.new = Ok (fields, st') ∧
    alive st' 0 = false ∧ alive st' 3 = true.
Proof.
  destruct (flush_applies_deletes Sample.hash32 Sample.opts Sample.ia Sample.ba Sample.docs Sample.index 2 [[98; 111]; [116; 97]] 4 sample_deletes SegmentWriteState.new) as (c0 & c & fields & st' & E0 & E & Ef & _ & Ha & _);
    [reflexivity|reflexivity|vm_compute; reflexivity|vm_compute; reflexivity|vm_compute; discriminate|vm_compute; reflexivity|reflexivity|apply (bool_decide_unpack _); vm_compute; exact I|apply (bool_decide_unpack _); vm_compute; exact I|vm_compute; reflexivity|lia|repeat constructor; vm_compute; discriminate|apply new_live; lia|].
  exists c0, c, fields, st'. split; [exact E0|]. split; [exact E|]. split; [exact Ef|]. split; [rewrite (Ha 0) by lia; vm_compute; reflexivity|rewrite (Ha 3) by lia; vm_compute; reflexivity].
Defined.

Example sample_flush :
  (c0 ← start Sample.opts Sample.ia Sample.ba;
   c ← process_documents Sample.hash32 Sample.docs c0;
   '(_, st) ← flush 4 (DocConsumer.terms_hash c) (zip [[98; 111]; [116; 97]] (map PerField.term_hash_per_field (DocConsumer.field_hash c))) sample_deletes SegmentWriteState.new;
   Ok (del_count_on_flush st, map (alive st) [0; 1; 2; 3])) = Ok (1, [false; true; true; true]).
Proof. vm_compute. reflexivity. Qed.
