(* ===== verification/Search.v ===== *)
(** Scorers: the parts of src/core/search/scorer and of the filter query that
    combine document iterators.

    [match_cost] and the feature methods of [Scorer] are left out. *)

From S2P Require Import Prelude Float32 DocIter.

(** * The trait [Scorer] *)

Class Scorer (Sc : Type) `{DocIterator Sc} : Type := {
  score : Sc → result (f32 * Sc);
}.
#[global] Hint Mode Scorer ! - : typeclass_instances.

Section two_phase.
Context {Sc : Type} `{Scorer Sc}.

Fixpoint two_phase_loop (fuel : nat) (doc : Z) (s : Sc) : result (Z * Sc) :=
  match fuel with
  | O => Diverge
  | S f =>
    if doc =? NO_MORE_DOCS then Ok (NO_MORE_DOCS, s)
    else
      '(m, s) ← matches s;
      if (m : bool) then Ok (doc, s)
      else '(doc, s) ← approximate_next s; two_phase_loop f doc s
  end.
Definition two_phase_next (fuel : nat) (s : Sc) : result (Z * Sc) := two_phase_loop fuel (doc_id s) s.
End two_phase.

(** * ConjunctionScorer *)

(** [Vec::sort_by] on the costs: a stable sort. *)
Section sort_by.
Context {A : Type} (key : A → Z).
Fixpoint insert_by (x : A) (l : list A) : list A :=
  match l with
  | [] => [x]
  | y :: l' => if key y <=? key x then y :: insert_by x l' else x :: l
  end.
Definition sort_by (l : list A) : list A := foldl (fun acc x => insert_by x acc) [] l.
End sort_by.

Module ConjunctionScorer.
Section conjunction.
Context {T : Type} `{Scorer T}.

Record t : Type := mk { lead1 : T; lead2 : T; others : list T }.

Definition new (children : list T) : result t :=
  _ ← check (2 <=? vlen children);
  match sort_by cost children with
  | lead1 :: lead2 :: others => Ok (mk lead1 lead2 others)
  | _ => Panic
  end.

(** The loop over [others] in [skip_to_approx]: the document a scorer went
    beyond [doc] to, if one did, and the scorers. *)
Fixpoint advance_others (doc : Z) (l : list T) : result (option Z * list T) :=
  match l with
  | [] => Ok (None, [])
  | other :: l' =>
    '(beyond, other) ←
      (if doc_id other <? doc then
         '(nx, other) ← approximate_advance other doc;
         Ok (if doc <? nx then Some nx else None, other)
       else Ok (None, other));
    match (beyond : option Z) with
    | Some nx => Ok (Some nx, other :: l')
    | None => '(r, l'') ← advance_others doc l'; Ok (r, other :: l'')
    end
  end.

Fixpoint skip_to_approx (fuel : nat) (doc : Z) (s : t) : result (Z * t) :=
  match fuel with
  | O => Diverge
  | S f =>
    let '(mk lead1 lead2 others) := s in
    '(next2, lead2) ← approximate_advance lead2 doc;
    '(agreed, doc, lead1) ←
      (if negb (next2 =? doc) then
         '(doc, lead1) ← approximate_advance lead1 next2;
         Ok (next2 =? doc, doc, lead1)
       else Ok (true, doc, lead1));
    if negb agreed then skip_to_approx f doc (mk lead1 lead2 others)
    else if doc =? NO_MORE_DOCS then Ok (doc, mk lead1 lead2 others)
    else
      '(beyond, others) ← advance_others doc others;
      match (beyond : option Z) with
      | Some nx =>
        '(doc, lead1) ← approximate_advance lead1 nx;
        skip_to_approx f doc (mk lead1 lead2 others)
      | None => Ok (doc, mk lead1 lead2 others)
      end
  end.

(** The fuel a run needs: the lead has a document for every round. *)
Context (fuel_of : t → nat).

Definition approximate_next_impl (s : t) : result (Z * t) :=
  '(doc, lead1) ← approximate_next (lead1 s);
  skip_to_approx (fuel_of s) doc (mk lead1 (lead2 s) (others s)).

Definition approximate_advance_impl (s : t) (target : Z) : result (Z * t) :=
  '(doc, lead1) ← approximate_advance (lead1 s) target;
  skip_to_approx (fuel_of s) doc (mk lead1 (lead2 s) (others s)).

Definition score_impl (s : t) : result (f32 * t) :=
  '(s1, l1) ← score (lead1 s);
  '(s2, l2) ← score (lead2 s);
  '(sum, others) ← for_each (others s) (fun o '(acc, done) =>
      '(x, o) ← score o; Ok (f32_add acc x, done ++ [o])) (f32_add s1 s2, []);
  Ok (sum, mk l1 l2 others).

Definition iterator : DocIterator t := {|
  doc_id s := doc_id (lead1 s);
  next := approximate_next_impl;
  advance := approximate_advance_impl;
  cost s := cost (lead1 s);
  matches s := Ok (true, s);
  support_two_phase _ := false;
  approximate_next := approximate_next_impl;
  approximate_advance := approximate_advance_impl;
|}.
End conjunction.
Arguments t : clear implicits.
End ConjunctionScorer.

(** * DisjunctionSumScorer and DisjunctionMaxScorer *)

Module DisjunctionScorer.
Section disjunction.
Context {T : Type} `{Scorer T}.

(** [tie_breaker_multiplier] is only used by [DisjunctionMaxScorer]. *)
Record t : Type := mk {
  sub_scorers : list T;
  curr_doc : Z;
  total_cost : Z;
  tie_breaker_multiplier : f32;
}.

Definition min_doc (l : list T) : Z := foldl (fun m s => Z.min m (doc_id s)) NO_MORE_DOCS l.

Definition new (children : list T) (tie : f32) : result t :=
  _ ← check (1 <? vlen children);
  Ok (mk children (min_doc children) (foldl (fun c s => c + cost s) 0 children) tie).

(** The body of both loops: the scorers that satisfy [due] are moved by
    [step], and the smallest document is found. *)
Definition move_scorers (due : T → bool) (step : T → result (Z * T)) (l : list T)
  : result (Z * list T) :=
  for_each l (fun s '(min_doc, done) =>
    s ← (if due s then '(_, s) ← step s; Ok s else Ok s);
    Ok (Z.min min_doc (doc_id s), done ++ [s])) (NO_MORE_DOCS, []).

Definition approximate_next_impl (s : t) : result (Z * t) :=
  let curr := curr_doc s in
  '(m, l) ← move_scorers (fun x => doc_id x =? curr) approximate_next (sub_scorers s);
  Ok (m, mk l m (total_cost s) (tie_breaker_multiplier s)).

Definition approximate_advance_impl (s : t) (target : Z) : result (Z * t) :=
  '(m, l) ← move_scorers (fun x => doc_id x <? target) (fun x => approximate_advance x target)
              (sub_scorers s);
  Ok (m, mk l m (total_cost s) (tie_breaker_multiplier s)).

Definition with_subs (s : t) (l : list T) : t :=
  mk l (curr_doc s) (total_cost s) (tie_breaker_multiplier s).

(** [DisjunctionSumScorer::score] *)
Definition score_sum (s : t) : result (f32 * t) :=
  '(sum, l) ← for_each (sub_scorers s) (fun x '(acc, done) =>
      if doc_id x =? curr_doc s then '(v, x) ← score x; Ok (f32_add acc v, done ++ [x])
      else Ok (acc, done ++ [x])) (f32_0, []);
  Ok (sum, with_subs s l).

(** [DisjunctionMaxScorer::score] *)
Definition score_max (s : t) : result (f32 * t) :=
  '(sum, mx, l) ← for_each (sub_scorers s) (fun x '(sum, mx, done) =>
      if doc_id x =? curr_doc s then
        '(v, x) ← score x; Ok (f32_add sum v, f32_max mx v, done ++ [x])
      else Ok (sum, mx, done ++ [x])) (f32_0, f32_neg_infinity, []);
  Ok (f32_add mx (f32_mul (f32_sub sum mx) (tie_breaker_multiplier s)), with_subs s l).

#[global] Instance iterator : DocIterator t := {|
  doc_id := curr_doc;
  next := approximate_next_impl;
  advance := approximate_advance_impl;
  cost := total_cost;
  matches s := Ok (true, s);
  support_two_phase _ := false;
  approximate_next := approximate_next_impl;
  approximate_advance := approximate_advance_impl;
|}.
End disjunction.
Arguments t : clear implicits.
End DisjunctionScorer.

(** * ReqOptScorer *)

Module ReqOptScorer.
Section req_opt.
Context {R O' : Type} `{Scorer R} `{Scorer O'}.

Definition OPT_SCORE_THRESHOLD : Z := 100.

Record t : Type := mk {
  req_scorer : R;
  opt_scorer : O';
  scores_sum : f32;
  scores_num : Z;
}.

Definition new (req : R) (opt : O') : t := mk req opt f32_0 0.

Definition score_impl (s : t) : result (f32 * t) :=
  let current_doc := doc_id (req_scorer s) in
  '(sc, req) ← score (req_scorer s);
  if (OPT_SCORE_THRESHOLD <? scores_num s)
     && f32_lt sc (f32_div (scores_sum s) (f32_of_Z (scores_num s)))
  then Ok (sc, mk req (opt_scorer s) (scores_sum s) (scores_num s))
  else
    let sum := f32_add (scores_sum s) sc in
    let num := scores_num s + 1 in
    '(opt_doc, opt) ←
      (if doc_id (opt_scorer s) <? current_doc then advance (opt_scorer s) current_doc
       else Ok (doc_id (opt_scorer s), opt_scorer s));
    if opt_doc =? current_doc then
      '(o, opt) ← score opt; Ok (f32_add sc o, mk req opt sum num)
    else Ok (sc, mk req opt sum num).

(** The iterator methods go to the required scorer. *)
Definition on_req {A} (f : R → result (A * R)) (s : t) : result (A * t) :=
  '(a, r) ← f (req_scorer s); Ok (a, mk r (opt_scorer s) (scores_sum s) (scores_num s)).

#[global] Instance iterator : DocIterator t := {|
  doc_id s := doc_id (req_scorer s);
  next := on_req next;
  advance s target := on_req (fun r => advance r target) s;
  cost s := cost (req_scorer s);
  matches := on_req matches;
  support_two_phase _ := false;
  approximate_next := on_req approximate_next;
  approximate_advance s target := on_req (fun r => approximate_advance r target) s;
|}.
End req_opt.
Arguments t : clear implicits.
End ReqOptScorer.

(** * MinScoreScorer *)

Module MinScoreScorer.
Section min_score.
Context {T : Type} `{Scorer T}.

Record t : Type := mk { origin : T; min_score : f32; cur_doc : Z; cur_score : f32 }.

Definition new (origin : T) (min_score : f32) : t := mk origin min_score (-1) f32_0.

Definition score_impl (s : t) : result (f32 * t) :=
  let doc := doc_id (origin s) in
  if negb (doc =? cur_doc s) then
    '(sc, o) ← score (origin s); Ok (sc, mk o (min_score s) doc sc)
  else Ok (cur_score s, s).

Definition on_origin {A} (f : T → result (A * T)) (s : t) : result (A * t) :=
  '(a, o) ← f (origin s); Ok (a, mk o (min_score s) (cur_doc s) (cur_score s)).

Definition matches_impl (s : t) : result (bool * t) :=
  '(m, s) ← on_origin matches s;
  if negb m then Ok (false, s)
  else '(sc, s) ← score_impl s; Ok (f32_lt (min_score s) sc, s).

#[global] Instance iterator : DocIterator t := {|
  doc_id s := doc_id (origin s);
  next := on_origin approximate_next;
  advance s target := on_origin (fun o => approximate_advance o target) s;
  cost s := cost (origin s);
  matches := matches_impl;
  support_two_phase _ := false;
  approximate_next := on_origin approximate_next;
  approximate_advance s target := on_origin (fun o => approximate_advance o target) s;
|}.
End min_score.
Arguments t : clear implicits.
End MinScoreScorer.

(** * ConstantScoreScorer *)

Module ConstantScoreScorer.
Section constant.
Context {T : Type} `{DocIterator T}.

Record t : Type := mk { score_value : f32; iter : T; the_cost : Z }.

Definition on_iter {A} (f : T → result (A * T)) (s : t) : result (A * t) :=
  '(a, i) ← f (iter s); Ok (a, mk (score_value s) i (the_cost s)).

#[global] Instance iterator : DocIterator t := {|
  doc_id s := doc_id (iter s);
  next := on_iter next;
  advance s target := on_iter (fun i => advance i target) s;
  cost := the_cost;
  matches := default_matches;
  support_two_phase _ := false;
  approximate_next := on_iter approximate_next;
  approximate_advance s target := on_iter (fun i => approximate_advance i target) s;
|}.

#[global] Instance scorer : Scorer t := {| score s := Ok (score_value s, s) |}.
End constant.
Arguments t : clear implicits.
End ConstantScoreScorer.

(** * FilterScorer (query/filter_query.rs)

    A filter function is a state with a test of a document. *)

Module FilterScorer.
Section filter.
Context {T : Type} `{Scorer T} {Fl : Type} (filter_matches : Fl → Z → result (bool * Fl)).

Record t : Type := mk { scorer : T; filters : list Fl }.

(** The filters are asked in order until one refuses. *)
Fixpoint ask_filters (doc : Z) (l : list Fl) : result (bool * list Fl) :=
  match l with
  | [] => Ok (true, [])
  | f :: l' =>
    '(ok, f) ← filter_matches f doc;
    if negb ok then Ok (false, f :: l')
    else '(r, l'') ← ask_filters doc l'; Ok (r, f :: l'')
  end.

Definition matches_impl (s : t) : result (bool * t) :=
  '(ok, l) ← ask_filters (doc_id (scorer s)) (filters s);
  if negb ok then Ok (false, mk (scorer s) l)
  else '(m, sc) ← matches (scorer s); Ok (m, mk sc l).

Definition on_scorer {A} (f : T → result (A * T)) (s : t) : result (A * t) :=
  '(a, x) ← f (scorer s); Ok (a, mk x (filters s)).

(** [two_phase_next] on this scorer. *)
Fixpoint two_phase (fuel : nat) (doc : Z) (s : t) : result (Z * t) :=
  match fuel with
  | O => Diverge
  | S f =>
    if doc =? NO_MORE_DOCS then Ok (NO_MORE_DOCS, s)
    else
      '(m, s) ← matches_impl s;
      if (m : bool) then Ok (doc, s)
      else '(doc, s) ← on_scorer approximate_next s; two_phase f doc s
  end.

Context (fuel_of : t → nat).

Definition next_impl (s : t) : result (Z * t) :=
  '(_, s) ← on_scorer approximate_next s; two_phase (fuel_of s) (doc_id (scorer s)) s.
Definition advance_impl (s : t) (target : Z) : result (Z * t) :=
  '(_, s) ← on_scorer (fun x => approximate_advance x target) s;
  two_phase (fuel_of s) (doc_id (scorer s)) s.

Definition iterator : DocIterator t := {|
  doc_id s := doc_id (scorer s);
  next := next_impl;
  advance := advance_impl;
  cost s := cost (scorer s);
  matches := matches_impl;
  support_two_phase _ := true;
  approximate_next := on_scorer approximate_next;
  approximate_advance s target := on_scorer (fun x => approximate_advance x target) s;
|}.
End filter.
Arguments t : clear implicits.
End FilterScorer.

(** * DocIteratorAsBits *)

Module DocIteratorAsBits.
Section as_bits.
Context {T : Type} `{DocIterator T}.

Record t : Type := mk { iter : T; previous : Z; previous_matched : bool; max_doc : Z }.

Definition new (max_doc : Z) (scorer : T) : t := mk scorer (-1) false max_doc.

Definition get (s : t) (i : Z) : result (bool * t) :=
  let index := as_i32 i in
  if (index <? 0) || (max_doc s <=? index) then bail IllegalArgument
  else if index <? previous s then bail IllegalArgument
  else if index =? previous s then Ok (previous_matched s, s)
  else
    let doc := doc_id (iter s) in
    '(doc, it) ← (if doc <? index then advance (iter s) index else Ok (doc, iter s));
    let m := index =? doc in
    Ok (m, mk it index m (max_doc s)).
End as_bits.
Arguments t : clear implicits.
End DocIteratorAsBits.

(** * BulkScorer

    The collector and the set of accepted documents are what the search passes
    in: [collect] may fail or stop the collection with an error. *)

Module BulkScorer.
Section bulk.
Context {Sc : Type} `{DocIterator Sc} {K : Type} (collect : K → Z → Sc → result (K * Sc)).
(** [accept_docs], when there is one. *)
Context (accept : option (Z → result bool)).

Definition accepts (doc : Z) : result bool :=
  match accept with Some get => get (as_u64 doc) | None => Ok true end.

(** The loop for two-phase scorers: [score_range_in_docs_set] and
    [score_range_all] are the cases with and without accepted documents. *)
Fixpoint two_phase_range (fuel : nat) (mx next_limit : Z) (current_doc nexts collected : Z)
    (k : K) (s : Sc) : result (Z * K * Sc) :=
  if current_doc <? mx then
    match fuel with
    | O => Diverge
    | S f =>
      a ← accepts current_doc;
      '(hit, s) ← (if (a : bool) then matches s else Ok (false, s));
      '(k, s, collected) ←
        (if (hit : bool) then '(k, s) ← collect k current_doc s; Ok (k, s, collected + 1)
         else Ok (k, s, collected));
      '(current_doc, s) ← approximate_next s;
      let nexts := nexts + 1 in
      if (collected =? 0) && (next_limit <? nexts) then Ok (current_doc, k, s)
      else two_phase_range f mx next_limit current_doc nexts collected k s
    end
  else Ok (current_doc, k, s).

(** The loop for the other scorers. *)
Fixpoint exact_range (fuel : nat) (mx : Z) (current_doc : Z) (k : K) (s : Sc)
  : result (Z * K * Sc) :=
  if current_doc <? mx then
    match fuel with
    | O => Diverge
    | S f =>
      a ← accepts current_doc;
      '(k, s) ← (if (a : bool) then collect k current_doc s else Ok (k, s));
      '(current_doc, s) ← next s;
      exact_range f mx current_doc k s
    end
  else Ok (current_doc, k, s).

Definition score_range (fuel : nat) (mn mx next_limit : Z) (k : K) (s : Sc) : result (Z * K * Sc) :=
  if support_two_phase s then two_phase_range fuel mx next_limit mn 0 0 k s
  else exact_range fuel mx mn k s.

Definition score (fuel : nat) (mn mx next_limit : Z) (k : K) (s : Sc) : result (Z * K * Sc) :=
  '(current_doc, s) ←
    (if (mn =? 0) && (mx =? NO_MORE_DOCS) then approximate_next s else approximate_advance s mn);
  score_range fuel current_doc mx next_limit k s.
End bulk.
End BulkScorer.
