(* ===== verification/SearchFacts.v ===== *)
(** Correctness of the combining scorers of Search.v, proved against the
    contract of the iterators they combine. *)

From S2P Require Import Prelude Float32 DocIter Search.
From Stdlib Require Import Sorting.Sorted.
From stdpp Require Import sets.
Open Scope Z_scope.

(** * Lists of documents *)

Lemma filter_skip (P Q : Z → Prop) `{∀ x, Decision (P x)} `{∀ x, Decision (Q x)} t (l : list Z) :
  (∀ d, d ∈ l → d < t → ¬ P d) → (∀ d, d ∈ l → t ≤ d → (P d ↔ Q d)) →
  filter P l = filter Q (docs_from t l).
Proof.
  intros Hlow Hhigh. induction l as [|x l IH]; [done|].
  unfold docs_from in *. rewrite (filter_cons (fun d => t ≤ d)), filter_cons.
  assert (filter P l = filter Q (filter (fun d => t ≤ d) l)) as IH'.
  { apply IH; intros d Hd; [apply Hlow|apply Hhigh]; by apply list_elem_of_further. }
  pose proof (list_elem_of_here x l) as Hx. destruct (decide (t ≤ x)) as [Hle|Hlt].
  - rewrite filter_cons. specialize (Hhigh x Hx Hle).
    destruct (decide (P x)), (decide (Q x)); try tauto. by rewrite IH'.
  - rewrite decide_False by (apply Hlow; [done|lia]). done.
Qed.

Lemma filter_same (P Q : Z → Prop) `{∀ x, Decision (P x)} `{∀ x, Decision (Q x)} (l : list Z) :
  (∀ d, d ∈ l → (P d ↔ Q d)) → filter P l = filter Q l.
Proof.
  intros HPQ. induction l as [|x l IH]; [done|]. rewrite !filter_cons.
  rewrite IH by (intros d Hd; apply HPQ; by apply list_elem_of_further).
  pose proof (HPQ x (list_elem_of_here x l)).
  destruct (decide (P x)), (decide (Q x)); tauto || done.
Qed.

Lemma filter_none_lt (P : Z → Prop) `{∀ x, Decision (P x)} (l : list Z) :
  (∀ d, d ∈ l → ¬ P d) → filter P l = [].
Proof.
  intros Hno. induction l as [|x l IH]; [done|]. rewrite filter_cons, decide_False by (apply Hno; set_solver).
  apply IH. set_solver.
Qed.

Lemma sorted_filter (P : Z → Prop) `{∀ x, Decision (P x)} x (l : list Z) :
  StronglySorted Z.lt (x :: l) → StronglySorted Z.lt (x :: filter P l).
Proof.
  intros [Hl Hx]%StronglySorted_inv. constructor.
  - induction Hl as [|y l Hl IH Hy]; [constructor|]. apply Forall_cons_iff in Hx as [_ Hx].
    rewrite filter_cons. case_decide; [|by apply IH]. constructor; [by apply IH|].
    apply List.Forall_forall. intros z Hz. apply list_elem_of_In, list_elem_of_filter in Hz as [_ Hz].
    rewrite List.Forall_forall in Hy. by apply Hy, list_elem_of_In.
  - apply List.Forall_forall. intros z Hz. apply list_elem_of_In, list_elem_of_filter in Hz as [_ Hz].
    rewrite List.Forall_forall in Hx. by apply Hx, list_elem_of_In.
Qed.

Lemma sorted_elem x (l : list Z) d : StronglySorted Z.lt (x :: l) → d ∈ l → x < d.
Proof.
  intros [_ Hx]%StronglySorted_inv Hd. rewrite List.Forall_forall in Hx. by apply Hx, list_elem_of_In.
Qed.

Lemma range_filter (P : Z → Prop) `{∀ x, Decision (P x)} (l : list Z) :
  Forall (fun d => d < NO_MORE_DOCS) l → Forall (fun d => d < NO_MORE_DOCS) (filter P l).
Proof. rewrite !Forall_forall. intros Hr d Hd. apply Hr. by apply list_elem_of_filter in Hd as [_ Hd]. Qed.

(** * Moving one iterator *)

Section moving.
Context {T : Type} `{HT : DocIterator T} {nxt : T → result (Z * T)} {adv : T → Z → result (Z * T)}.
Context `{HD : !Steps doc_id nxt adv}.

(** [o] is on [d] or will come to it. *)
Definition has (o : T) (d : Z) : Prop := doc_id o = d ∨ d ∈ remaining o.

#[global] Instance has_dec o d : Decision (has o d).
Proof using. unfold has. apply _. Defined.

(** [o'] is [o] moved to its first document from [t] on. *)
Record moved (o o' : T) (t : Z) : Prop := {
  mv_sound : sound o';
  mv_from : t ≤ doc_id o' ≤ NO_MORE_DOCS;
  mv_has : ∀ d, t ≤ d < NO_MORE_DOCS → has o' d ↔ has o d;
  mv_first : ∀ d, t ≤ d < doc_id o' → ¬ has o d;
  mv_rest : ∀ (P : Z → Prop) `{∀ d, Decision (P d)}, (∀ d, P d → d < NO_MORE_DOCS) →
    filter P (doc_id o' :: remaining o') = filter P (docs_from t (remaining o));
  mv_length : doc_id o' = NO_MORE_DOCS ∨ (length (remaining o') < length (remaining o))%nat;
}.

Lemma moved_intro o o' t : sound o → sound o' → doc_id o < t ≤ NO_MORE_DOCS →
  doc_id o' = hd_doc (docs_from t (remaining o)) → remaining o' = tail (docs_from t (remaining o)) →
  moved o o' t.
Proof using.
  intros Hs Hs' Ht Hd Hr. pose proof (sound_sorted o Hs) as Hsort.
  pose proof (sound_range o Hs) as Hrange.
  assert (Hin : ∀ d, d ∈ docs_from t (remaining o) ↔ t ≤ d ∧ d ∈ remaining o).
  { intros d. unfold docs_from. apply list_elem_of_filter. }
  assert (Hlen : (length (docs_from t (remaining o)) ≤ length (remaining o))%nat)
    by apply length_filter.
  pose proof (sorted_docs_from t _ _ Hsort) as Hsf.
  destruct (docs_from t (remaining o)) as [|x l] eqn:E; cbn [hd_doc tail] in *.
  - constructor; rewrite ?Hd; try done; try lia; unfold has; rewrite ?Hd, ?Hr.
    + intros d Hlt. split; intros [Hq|Hi]; try lia; [set_solver|].
      right. apply Hin. split; [lia|done].
    + intros d Hlt [Hq|Hi]; [lia|]. assert (d ∈ []) by (apply Hin; split; [lia|done]). set_solver.
    + intros P ? HP. rewrite E, filter_cons, decide_False; [done|]. intros HPn. apply HP in HPn. lia.
  - assert (t ≤ x ∧ x ∈ remaining o) as [Hx1 Hx2] by (apply Hin; set_solver).
    assert (x < NO_MORE_DOCS) by (rewrite List.Forall_forall in Hrange; by apply Hrange, list_elem_of_In).
    apply StronglySorted_inv in Hsf as [Hsf _].
    constructor; rewrite ?Hd; try done; try lia; unfold has; rewrite ?Hd, ?Hr.
    + intros d Hlt. transitivity (d ∈ x :: l); [set_solver|]. rewrite Hin.
      split; [tauto|]. intros [Hq|Hi]; [lia|]. split; [lia|done].
    + intros d Hlt [Hq|Hi]; [lia|]. assert (d ∈ x :: l) as Hdl by (apply Hin; split; [lia|done]).
      assert (d = x ∨ d ∈ l) as [Hq|Hdl2] by set_solver; [lia|]. pose proof (sorted_elem _ _ _ Hsf Hdl2). lia.
    + intros P ? HP. by rewrite E.
    + right. simpl in Hlen. lia.
Qed.

Lemma adv_moved o t : sound o → doc_id o < t ≤ NO_MORE_DOCS →
  ∃ o', adv o t = Ok (doc_id o', o') ∧ moved o o' t.
Proof using.
  intros Hs Ht. destruct (step_advance o t Hs Ht) as (o' & Ha & Hs' & Hd & Hr).
  exists o'. rewrite Hd. split; [done|]. by apply moved_intro.
Qed.

Lemma nxt_moved o : sound o → doc_id o ≠ NO_MORE_DOCS → doc_id o < NO_MORE_DOCS →
  ∃ o', nxt o = Ok (doc_id o', o') ∧ moved o o' (doc_id o + 1).
Proof using.
  intros Hs Hne Hlt. destruct (step_next o Hs Hne) as (o' & Ha & Hs' & Hd & Hr).
  exists o'. rewrite Hd. split; [done|].
  assert (docs_from (doc_id o + 1) (remaining o) = remaining o) as E
    by (apply docs_from_all; apply sorted_tail_gt; by apply sound_sorted).
  apply moved_intro; rewrite ?E; done || lia.
Qed.
End moving.

(** * ConjunctionScorer: the intersection *)

Section conjunction.
Import ConjunctionScorer.
Context {T : Type} `{HT : DocIterator T} `{HS : !Scorer T} `{HD : !ApproxDocs T}.

(** [d] is a document every scorer but the lead is on or will come to. *)
Definition common (s : t T) (d : Z) : Prop :=
  d < NO_MORE_DOCS ∧ has (lead2 s) d ∧ Forall (fun o => has o d) (others s).

#[global] Instance common_dec s d : Decision (common s d).
Proof using. unfold common. apply _. Defined.

Definition conj_remaining (s : t T) : list Z := filter (common s) (remaining (lead1 s)).

(** No scorer is ahead of the lead. *)
Record conj_sound (s : t T) : Prop := {
  cs_lead1 : sound (lead1 s);
  cs_lead2 : sound (lead2 s);
  cs_others : Forall sound (others s);
  cs_behind2 : doc_id (lead2 s) ≤ doc_id (lead1 s);
  cs_behind : Forall (fun o => doc_id o ≤ doc_id (lead1 s)) (others s);
  cs_end : doc_id (lead1 s) ≤ NO_MORE_DOCS;
}.

(** The documents [skip_to_approx] may stop on: the lead's own and the next. *)
Definition candidates (s : t T) : list Z := filter (common s) (doc_id (lead1 s) :: remaining (lead1 s)).

(** Moving the lead over documents that are not common loses nothing. *)
Lemma candidates_moved s l1 l2 os t' : sound (lead1 s) → doc_id (lead1 s) < t' → moved (lead1 s) l1 t' →
  (∀ d, doc_id (lead1 s) ≤ d < t' → ¬ common s d) →
  (∀ d, t' ≤ d → common s d ↔ common (mk l1 l2 os) d) →
  candidates s = candidates (mk l1 l2 os).
Proof using.
  intros Hs Hlt Hmv Hno Hsame. unfold candidates. cbn [lead1].
  rewrite (mv_rest _ _ _ Hmv (common (mk l1 l2 os))) by (intros d [? _]; done).
  rewrite (filter_skip (common s) (common (mk l1 l2 os)) t').
  - by rewrite docs_from_cons_lt.
  - intros d Hd Hdt. apply Hno. split; [|done].
    assert (d = doc_id (lead1 s) ∨ d ∈ remaining (lead1 s)) as [->|Hr] by set_solver; [lia|].
    pose proof (sorted_elem _ _ _ (sound_sorted _ Hs) Hr). lia.
  - intros d _ Hd. by apply Hsame.
Qed.

(** The loop over the others: either all are on [doc], or one is beyond it. *)
Lemma advance_others_spec doc l : doc < NO_MORE_DOCS →
  Forall sound l → Forall (fun o => doc_id o ≤ doc) l →
  ∃ r l', advance_others doc l = Ok (r, l') ∧ Forall sound l' ∧
    (∀ d, doc ≤ d < NO_MORE_DOCS → Forall (fun o => has o d) l' ↔ Forall (fun o => has o d) l) ∧
    match r with
    | None => Forall (fun o => doc_id o = doc) l'
    | Some nx => doc < nx ≤ NO_MORE_DOCS ∧ Forall (fun o => doc_id o ≤ nx) l' ∧
                 ∀ d, doc ≤ d < nx → ¬ Forall (fun o => has o d) l
    end.
Proof using.
  intros Hdoc. induction l as [|o l IH]; intros Hs Hb.
  { exists None, []. split_and!; try done. }
  apply Forall_cons_iff in Hs as [Ho Hs], Hb as [Hbo Hb]. cbn [advance_others].
  destruct (IH Hs Hb) as (r & l' & Hrun & Hs' & Hhas & Hr). clear IH.
  destruct (Z.ltb_spec (doc_id o) doc) as [Hlt|Hge].
  - destruct (adv_moved o doc Ho) as (o' & -> & Hmv); [lia|]. cbn [mbind result_bind].
    pose proof (mv_from _ _ _ Hmv). destruct (Z.ltb_spec doc (doc_id o')) as [Hgt|Hle].
    + exists (Some (doc_id o')), (o' :: l). split; [done|]. split; [constructor; [apply Hmv|done]|].
      split; [|split_and!; [lia|lia| |]].
      * intros d Hd. rewrite !Forall_cons_iff, (mv_has _ _ _ Hmv) by done. done.
      * constructor; [lia|]. eapply Forall_impl; [exact Hb|]. simpl. intros. lia.
      * intros d Hd [Hd' _]%Forall_cons_iff. by apply (mv_first _ _ _ Hmv d).
    + rewrite Hrun. cbn [mbind result_bind]. exists r, (o' :: l').
      split; [done|]. split; [constructor; [apply Hmv|done]|]. split.
      { intros d Hd. rewrite !Forall_cons_iff, (mv_has _ _ _ Hmv), Hhas by done. done. }
      destruct r as [nx|]; [|constructor; [lia|done]]. destruct Hr as (H1 & H2 & H3).
      split_and!; [lia|lia|constructor; [lia|done]|]. intros d Hd [_ Hd']%Forall_cons_iff. by apply (H3 d).
  - cbn [mbind result_bind]. rewrite Hrun. cbn [mbind result_bind]. exists r, (o :: l').
    split; [done|]. split; [by constructor|]. split.
    { intros d Hd. rewrite !Forall_cons_iff, Hhas by done. done. }
    destruct r as [nx|]; [|constructor; [lia|done]]. destruct Hr as (H1 & H2 & H3).
    split_and!; [lia|lia|constructor; [lia|done]|]. intros d Hd [_ Hd']%Forall_cons_iff. by apply (H3 d).
Qed.

(** The fuel a position of the lead needs. *)
Definition need (o : T) : nat :=
  if decide (doc_id o = NO_MORE_DOCS) then 1%nat else S (S (length (remaining o))).

Lemma need_moved o o' t' : doc_id o < t' → doc_id o ≠ NO_MORE_DOCS → moved o o' t' → (need o' < need o)%nat.
Proof using.
  intros Hlt Hne Hmv. unfold need. rewrite (decide_False (P := doc_id o = NO_MORE_DOCS)) by done.
  case_decide; [lia|]. destruct (mv_length _ _ _ Hmv); [done|lia].
Qed.

(** What a run from the state [s] must achieve. *)
Definition skipped (s : t T) (r : result (Z * t T)) : Prop :=
  ∃ s', r = Ok (hd_doc (candidates s), s') ∧ conj_sound s' ∧
        doc_id (lead1 s') = hd_doc (candidates s) ∧ conj_remaining s' = tail (candidates s).

Definition skip_ready (s : t T) : Prop :=
  sound (lead1 s) ∧ sound (lead2 s) ∧ Forall sound (others s) ∧
  Forall (fun o => doc_id o ≤ doc_id (lead1 s)) (others s) ∧ doc_id (lead1 s) ≤ NO_MORE_DOCS.

Lemma not_past_end (o : T) d : sound o → doc_id o = NO_MORE_DOCS → d ∈ remaining o → d < NO_MORE_DOCS → False.
Proof using. intros Hs E Hd Hlt. pose proof (sorted_elem _ _ _ (sound_sorted _ Hs) Hd). lia. Qed.

(** The part of a round after the two leads agree. *)
Lemma agree_spec f l1 l2 os :
  (∀ s, skip_ready s → doc_id (lead2 s) < doc_id (lead1 s) → (need (lead1 s) ≤ f)%nat →
     skipped s (skip_to_approx f (doc_id (lead1 s)) s)) →
  skip_ready (mk l1 l2 os) → doc_id l2 = doc_id l1 → (need l1 ≤ S f)%nat →
  skipped (mk l1 l2 os)
    (if doc_id l1 =? NO_MORE_DOCS then Ok (doc_id l1, mk l1 l2 os)
     else '(beyond, os) ← advance_others (doc_id l1) os;
          match beyond with
          | Some nx => '(doc, l1) ← approximate_advance l1 nx; skip_to_approx f doc (mk l1 l2 os)
          | None => Ok (doc_id l1, mk l1 l2 os)
          end).
Proof using.
  intros IH (Hs1 & Hs2 & Hso & Hb & Hle) E2 Hfuel. cbn [lead1 lead2 others] in *.
  destruct (Z.eqb_spec (doc_id l1) NO_MORE_DOCS) as [Eend|Hend].
  { assert (Hcand : candidates (mk l1 l2 os) = []).
    { apply filter_none_lt. cbn [lead1]. intros d Hd [Hd2 _].
      assert (d = doc_id l1 ∨ d ∈ remaining l1) as [->|Hr] by set_solver; [lia|]. exact (not_past_end l1 d Hs1 Eend Hr Hd2). }
    exists (mk l1 l2 os). rewrite Hcand, Eend. split; [done|]. split; [constructor; cbn; done || lia|].
    split; [done|]. apply filter_none_lt. cbn [lead1]. intros d Hd [Hd2 _]. exact (not_past_end l1 d Hs1 Eend Hd Hd2). }
  destruct (advance_others_spec (doc_id l1) os) as (r & os' & -> & Hso' & Hhas & Hr); [lia|done|done|].
  cbn [mbind result_bind].
  assert (Hcommon : ∀ l d, doc_id l1 ≤ d → common (mk l1 l2 os) d ↔ common (mk l l2 os') d).
  { intros l d Hd. unfold common. cbn [lead2 others]. split; intros (H1 & H2 & H3);
      (split; [done|split; [done|]]); apply Hhas; done || lia. }
  destruct r as [nx|].
  - destruct Hr as (Hnx & Hb' & Hno). destruct (adv_moved l1 nx Hs1) as (l1' & -> & Hm1); [lia|].
    cbn [mbind result_bind]. pose proof (mv_from _ _ _ Hm1).
    assert (Hc : candidates (mk l1 l2 os) = candidates (mk l1' l2 os')).
    { apply (candidates_moved _ l1' l2 os' nx); cbn [lead1]; try done; try lia.
      - intros d Hd (_ & _ & Hall). by apply (Hno d).
      - intros d Hd. apply Hcommon. lia. }
    unfold skipped. rewrite Hc. apply (IH (mk l1' l2 os')); cbn [lead1 lead2].
    + split_and!; cbn; try done; [apply Hm1| |lia].
      eapply Forall_impl; [exact Hb'|]. simpl. intros. lia.
    + lia.
    + pose proof (need_moved l1 l1' nx ltac:(lia) Hend Hm1). lia.
  - exists (mk l1 l2 os').
    assert (Hc : candidates (mk l1 l2 os) = doc_id l1 :: filter (common (mk l1 l2 os)) (remaining l1)).
    { unfold candidates. cbn [lead1]. rewrite filter_cons, decide_True; [done|].
      split; [lia|]. cbn [lead2 others]. split; [by left|]. apply Hhas; [lia|].
      eapply Forall_impl; [exact Hr|]. simpl. intros. by left. }
    rewrite Hc. cbn [hd_doc tail]. split; [done|].
    split; [constructor; cbn; try done; try lia; eapply Forall_impl; [exact Hr|]; simpl; lia|].
    split; [done|]. unfold conj_remaining. cbn [lead1]. apply filter_same. intros d Hd.
    symmetry. apply Hcommon. pose proof (sorted_elem _ _ _ (sound_sorted _ Hs1) Hd). lia.
Qed.

Lemma skip_spec fuel : ∀ s, skip_ready s → doc_id (lead2 s) < doc_id (lead1 s) →
  (need (lead1 s) ≤ fuel)%nat → skipped s (skip_to_approx fuel (doc_id (lead1 s)) s).
Proof using.
  induction fuel as [|f IH]; intros [l1 l2 os] Hready Hlt Hfuel; cbn [lead1 lead2 others] in *;
    [unfold need in Hfuel; case_decide; lia|].
  pose proof Hready as (Hs1 & Hs2 & Hso & Hb & Hle). cbn [lead1 lead2 others] in *.
  cbn [skip_to_approx]. destruct (adv_moved l2 (doc_id l1) Hs2) as (l2' & -> & Hm2); [lia|].
  cbn [mbind result_bind]. pose proof (mv_from _ _ _ Hm2) as Hf2. pose proof (mv_sound _ _ _ Hm2) as Hs2'.
  assert (Hcommon : ∀ l d, doc_id l1 ≤ d → common (mk l1 l2 os) d ↔ common (mk l l2' os) d).
  { intros l d Hd. unfold common. cbn [lead2 others]. split; intros (H1 & H2 & H3);
      (split; [done|split; [|done]]); apply (mv_has _ _ _ Hm2); done || lia. }
  destruct (Z.eqb_spec (doc_id l2') (doc_id l1)) as [E2|E2]; cbn [negb mbind result_bind].
  - assert (Hc : candidates (mk l1 l2 os) = candidates (mk l1 l2' os)).
    { unfold candidates. cbn [lead1]. apply filter_same. intros d Hd. apply Hcommon.
      assert (d = doc_id l1 ∨ d ∈ remaining l1) as [->|Hr] by set_solver; [lia|].
      pose proof (sorted_elem _ _ _ (sound_sorted _ Hs1) Hr). lia. }
    unfold skipped. rewrite Hc. by apply (agree_spec f l1 l2' os IH).
  - assert (Hend : doc_id l1 ≠ NO_MORE_DOCS) by lia. assert (Hlt2 : doc_id l1 < doc_id l2') by lia.
    destruct (adv_moved l1 (doc_id l2') Hs1) as (l1' & -> & Hm1); [lia|].
    cbn [mbind result_bind]. pose proof (mv_from _ _ _ Hm1) as Hf1.
    pose proof (need_moved l1 l1' (doc_id l2') Hlt2 Hend Hm1) as Hneed.
    assert (Hc : candidates (mk l1 l2 os) = candidates (mk l1' l2' os)).
    { apply (candidates_moved _ l1' l2' os (doc_id l2')); cbn [lead1]; try done; try lia.
      - intros d Hd (_ & Hh & _). by apply (mv_first _ _ _ Hm2 d).
      - intros d Hd. apply Hcommon. lia. }
    assert (Hready' : skip_ready (mk l1' l2' os)).
    { split_and!; cbn; try done; [apply Hm1| |lia]. eapply Forall_impl; [exact Hb|]. simpl. intros. lia. }
    unfold skipped. rewrite Hc. destruct (Z.eqb_spec (doc_id l2') (doc_id l1')) as [E1|E1]; cbn [negb].
    + apply (agree_spec f l1' l2' os IH); done || lia.
    + apply (IH (mk l1' l2' os)); cbn [lead1 lead2]; done || lia.
Qed.

Lemma conj_run s l1' t' fuel : conj_sound s → doc_id (lead1 s) < t' → moved (lead1 s) l1' t' →
  doc_id (lead1 s) ≠ NO_MORE_DOCS → (need (lead1 s) ≤ fuel)%nat →
  let rest := docs_from t' (conj_remaining s) in
  ∃ s', skip_to_approx fuel (doc_id l1') (mk l1' (lead2 s) (others s)) = Ok (hd_doc rest, s') ∧
        conj_sound s' ∧ doc_id (lead1 s') = hd_doc rest ∧ conj_remaining s' = tail rest.
Proof using.
  intros [] Hlt Hmv Hne Hf rest. pose proof (mv_from _ _ _ Hmv).
  pose proof (need_moved _ _ _ Hlt Hne Hmv).
  assert (rest = candidates (mk l1' (lead2 s) (others s))) as ->.
  { unfold candidates. cbn [lead1]. rewrite (mv_rest _ _ _ Hmv) by (intros d [? _]; done).
    unfold rest, conj_remaining, docs_from. rewrite !list_filter_filter. apply filter_same. naive_solver. }
  apply (skip_spec fuel (mk l1' (lead2 s) (others s))); cbn [lead1 lead2]; try lia.
  split_and!; cbn; try done; [apply Hmv| |lia]. eapply Forall_impl; [done|]. simpl. lia.
Qed.

Context (fuel_of : t T → nat) (enough : ∀ s, (S (S (length (remaining (lead1 s)))) ≤ fuel_of s)%nat).

Lemma fuel_need s : (need (lead1 s) ≤ fuel_of s)%nat.
Proof using enough. unfold need. pose proof (enough s). case_decide; lia. Qed.

(** The conjunction keeps the contract of an iterator over the common documents. *)
#[global] Program Instance conj_steps :
  Steps (fun s => doc_id (lead1 s)) (approximate_next_impl fuel_of) (approximate_advance_impl fuel_of) :=
  {| remaining := conj_remaining; sound := conj_sound |}.
Next Obligation. intros s []. by apply sorted_filter, sound_sorted. Qed.
Next Obligation.
  intros s []. apply List.Forall_forall. intros d Hd.
  apply list_elem_of_In, list_elem_of_filter in Hd as [[Hd _] _]. done.
Qed.
Next Obligation.
  cbv beta. intros s Hs Hne. pose proof Hs as []. destruct (nxt_moved (lead1 s)) as (l1' & Hn & Hmv); [done|done|lia|].
  unfold approximate_next_impl. rewrite Hn. cbn [mbind result_bind].
  pose proof (conj_run s l1' _ (fuel_of s) Hs (Z.lt_succ_diag_r _) Hmv Hne (fuel_need s)) as Hrun.
  unfold Z.succ in Hrun. rewrite docs_from_all in Hrun; [done|].
  apply sorted_tail_gt. by apply sorted_filter, sound_sorted.
Qed.
Next Obligation.
  cbv beta. intros s t' Hs Ht. pose proof Hs as []. destruct (adv_moved (lead1 s) t') as (l1' & Hn & Hmv); [done|done|].
  unfold approximate_advance_impl. rewrite Hn. cbn [mbind result_bind].
  apply conj_run; try done; try lia. apply fuel_need.
Qed.

Lemma insert_by_perm {A} (key : A → Z) x l : insert_by key x l ≡ₚ x :: l.
Proof using.
  induction l as [|y l IH]; [done|]. cbn [insert_by]. case_match; [|done]. rewrite IH. apply Permutation_swap.
Qed.
Lemma sort_by_perm {A} (key : A → Z) l : sort_by key l ≡ₚ l.
Proof using.
  unfold sort_by. assert (∀ acc, foldl (fun acc x => insert_by key x acc) acc l ≡ₚ acc ++ l) as H.
  { induction l as [|x l IH]; intros acc; [by rewrite app_nil_r|]. cbn [foldl]. rewrite IH, insert_by_perm.
    simpl. apply Permutation_middle. }
  apply (H []).
Qed.
End conjunction.

(** * DisjunctionSumScorer and DisjunctionMaxScorer: the union *)

Lemma sorted_ext (l k : list Z) x y : StronglySorted Z.lt (x :: l) → StronglySorted Z.lt (y :: k) →
  (∀ d, d ∈ l ↔ d ∈ k) → l = k.
Proof.
  intros [Hl _]%StronglySorted_inv [Hk _]%StronglySorted_inv Hlk. clear x y. revert k Hk Hlk.
  induction l as [|x l IH]; intros k Hk Hlk.
  { destruct k as [|y k]; [done|]. set_solver. }
  destruct k as [|y k]; [set_solver|].
  assert (Hxl : ∀ d, d ∈ l → x < d) by (intros d; by apply sorted_elem).
  assert (Hyk : ∀ d, d ∈ k → y < d) by (intros d; by apply sorted_elem).
  assert (x = y) as <-.
  { assert (x = y ∨ x ∈ k) as [Hx|Hx] by set_solver; [done|]. apply Hyk in Hx.
    assert (y = x ∨ y ∈ l) as [Hy|Hy] by set_solver; [done|]. apply Hxl in Hy. lia. }
  f_equal. apply StronglySorted_inv in Hl as [Hl _], Hk as [Hk _]. apply IH; [done|done|].
  intros d. specialize (Hlk d). split; intros Hd.
  - pose proof (Hxl d Hd). assert (d = x ∨ d ∈ k) as [?|?] by set_solver; [lia|done].
  - pose proof (Hyk d Hd). assert (d = x ∨ d ∈ l) as [?|?] by set_solver; [lia|done].
Qed.

(** The sorted list of the members of [l] in a range. *)
Fixpoint sorted_insert (x : Z) (l : list Z) : list Z :=
  match l with
  | [] => [x]
  | y :: k => if x <? y then x :: l else if x =? y then l else y :: sorted_insert x k
  end.
Definition sorted_set (l : list Z) : list Z := foldr sorted_insert [] l.

Lemma elem_of_sorted_insert d x l : d ∈ sorted_insert x l ↔ d = x ∨ d ∈ l.
Proof.
  induction l as [|y l IH]; cbn [sorted_insert]; [set_solver|].
  repeat case_match; [set_solver| |set_solver]. apply Z.eqb_eq in H0. set_solver.
Qed.
Lemma elem_of_sorted_set d l : d ∈ sorted_set l ↔ d ∈ l.
Proof. induction l as [|x l IH]; [done|]. cbn [sorted_set foldr]. rewrite elem_of_sorted_insert. set_solver. Qed.
Lemma sorted_sorted_set l : StronglySorted Z.lt (sorted_set l).
Proof.
  induction l as [|x l IH]; [constructor|]. cbn [sorted_set foldr]. fold (sorted_set l).
  induction IH as [|y k Hk IH Hy]; cbn [sorted_insert]; [by repeat constructor|].
  destruct (Z.ltb_spec x y).
  { constructor; [by constructor|]. constructor; [done|]. eapply Forall_impl; [exact Hy|]. simpl. lia. }
  destruct (Z.eqb_spec x y); [by constructor|]. constructor; [done|].
  apply List.Forall_forall. intros d Hd. apply list_elem_of_In, elem_of_sorted_insert in Hd as [->|Hd]; [lia|].
  rewrite List.Forall_forall in Hy. by apply Hy, list_elem_of_In.
Qed.

Section disjunction.
Import DisjunctionScorer.
Context {T : Type} `{HT : DocIterator T} `{HS : !Scorer T} `{HD : !ApproxDocs T}.

(** Some scorer is on [d] or will come to it. *)
Definition some_has (l : list T) (d : Z) : Prop := Exists (fun o => has o d) l.

Definition disj_remaining (s : t T) : list Z :=
  filter (fun d => curr_doc s < d < NO_MORE_DOCS)
    (sorted_set (mbind (fun o => doc_id o :: remaining o) (sub_scorers s))).

Definition disj_sound (s : t T) : Prop :=
  Forall (fun o => sound o ∧ curr_doc s ≤ doc_id o ≤ NO_MORE_DOCS) (sub_scorers s).

Lemma elem_of_disj_remaining s d :
  d ∈ disj_remaining s ↔ curr_doc s < d < NO_MORE_DOCS ∧ some_has (sub_scorers s) d.
Proof using.
  unfold disj_remaining, some_has. rewrite list_elem_of_filter, elem_of_sorted_set, list_elem_of_bind, Exists_exists.
  unfold has. set_solver.
Qed.

Lemma disj_sorted s : StronglySorted Z.lt (curr_doc s :: disj_remaining s).
Proof using.
  constructor.
  - unfold disj_remaining. pose proof (sorted_sorted_set (mbind (fun o => doc_id o :: remaining o) (sub_scorers s))) as H.
    induction H as [|x l Hl IH Hx]; [constructor|]. rewrite filter_cons. case_decide; [|done]. constructor; [done|].
    apply List.Forall_forall. intros d Hd. apply list_elem_of_In, list_elem_of_filter in Hd as [_ Hd].
    rewrite List.Forall_forall in Hx. by apply Hx, list_elem_of_In.
  - apply List.Forall_forall. intros d Hd. apply list_elem_of_In, elem_of_disj_remaining in Hd. lia.
Qed.

(** One pass over the scorers brings each to its first document from [t'] on. *)
Lemma move_scorers_spec due step t' l :
  (∀ o, o ∈ l → sound o ∧ doc_id o ≤ NO_MORE_DOCS) →
  (∀ o, o ∈ l → due o = true → ∃ d o', step o = Ok (d, o') ∧ moved o o' t') →
  (∀ o, o ∈ l → due o = false → t' ≤ doc_id o) →
  ∃ l', move_scorers due step l = Ok (min_doc l', l') ∧
        Forall (fun o => sound o ∧ t' ≤ doc_id o ≤ NO_MORE_DOCS) l' ∧
        ∀ d, t' ≤ d < NO_MORE_DOCS → some_has l' d ↔ some_has l d.
Proof using.
  intros Hl Hdue Hnot. unfold move_scorers.
  match goal with |- context [for_each _ ?body _] => set (b := body) end.
  assert (∀ done, ∃ l', for_each l b (min_doc done, done) = Ok (min_doc (done ++ l'), done ++ l') ∧
        Forall (fun o => sound o ∧ t' ≤ doc_id o ≤ NO_MORE_DOCS) l' ∧
        ∀ d, t' ≤ d < NO_MORE_DOCS → some_has l' d ↔ some_has l d) as H; [|destruct (H []) as (l' & H'); by exists l'].
  induction l as [|o l IH]; intros dn.
  { exists []. rewrite app_nil_r. split_and!; done. }
  destruct (Hl o) as [Hso Hole]; [set_solver|].
  assert (∃ o', b o (min_doc dn, dn) = Ok (min_doc (dn ++ [o']), dn ++ [o']) ∧ sound o' ∧
     t' ≤ doc_id o' ≤ NO_MORE_DOCS ∧ ∀ d, t' ≤ d < NO_MORE_DOCS → has o' d ↔ has o d)
    as (o' & Hb & Hs' & Ht' & Hh).
  { unfold b. destruct (due o) eqn:E.
    - destruct (Hdue o) as (d & o' & -> & Hmv); [set_solver|done|]. exists o'. cbn [mbind result_bind].
      split; [unfold min_doc; by rewrite foldl_app|]. split; [apply Hmv|]. split; apply Hmv.
    - exists o. cbn [mbind result_bind]. split; [unfold min_doc; by rewrite foldl_app|].
      split; [done|]. split; [|done]. specialize (Hnot o ltac:(set_solver) E). lia. }
  cbn [for_each]. rewrite Hb. cbn [mbind result_bind].
  destruct (IH ltac:(set_solver) ltac:(set_solver) ltac:(set_solver) (dn ++ [o'])) as (l' & -> & HF & Hd).
  exists (o' :: l'). rewrite <- !app_assoc. split; [done|]. split; [by constructor|].
  intros d Hd'. unfold some_has in *. by rewrite !Exists_cons, Hh, Hd.
Qed.

Lemma min_doc_spec (l : list T) : Forall (fun o => doc_id o ≤ NO_MORE_DOCS) l →
  min_doc l ≤ NO_MORE_DOCS ∧ Forall (fun o => min_doc l ≤ doc_id o) l ∧
  (min_doc l < NO_MORE_DOCS → Exists (fun o => doc_id o = min_doc l) l).
Proof using.
  unfold min_doc. intros _. induction l as [|o l (IH1 & IH2 & IH3)] using rev_ind; [split_and!; simpl; lia || constructor|].
  rewrite foldl_app. cbn [foldl]. split_and!; [lia| |].
  - apply Forall_app. split; [|constructor; [lia|constructor]]. eapply Forall_impl; [exact IH2|]. simpl. lia.
  - intros Hlt. apply Exists_app.
    destruct (decide (doc_id o ≤ foldl (λ m s, m `min` doc_id s) NO_MORE_DOCS l)).
    + right. constructor. lia.
    + left. rewrite Z.min_l by lia. apply IH3. lia.
Qed.

Lemma min_doc_from (l : list T) t' : Forall (fun o => sound o ∧ t' ≤ doc_id o ≤ NO_MORE_DOCS) l →
  min_doc l < NO_MORE_DOCS → t' ≤ min_doc l.
Proof using.
  intros HF Hm. destruct (min_doc_spec l) as (_ & _ & Hm3); [eapply Forall_impl; [exact HF|]; simpl; lia|].
  apply Hm3, Exists_exists in Hm as (o & Ho & <-). rewrite Forall_forall in HF. by apply HF.
Qed.

(** The smallest current document heads the list of what the scorers have. *)
Lemma min_doc_hd (l : list T) t' x rest : Forall (fun o => sound o ∧ t' ≤ doc_id o ≤ NO_MORE_DOCS) l →
  StronglySorted Z.lt (x :: rest) → (∀ d, d ∈ rest ↔ t' ≤ d < NO_MORE_DOCS ∧ some_has l d) →
  min_doc l = hd_doc rest.
Proof using.
  intros HF [Hsort _]%StronglySorted_inv Hin.
  destruct (min_doc_spec l) as (Hm1 & Hm2 & Hm3); [eapply Forall_impl; [exact HF|]; simpl; lia|].
  assert (Hmr : min_doc l < NO_MORE_DOCS → min_doc l ∈ rest).
  { intros Hm. apply Hin. split; [split; [by eapply min_doc_from|done]|].
    unfold some_has. eapply Exists_impl; [by apply Hm3|]. intros o Ho. by left. }
  destruct rest as [|y r]; cbn [hd_doc].
  - destruct (decide (min_doc l < NO_MORE_DOCS)); [|lia]. set_solver.
  - assert (y ∈ y :: r) as Hy by set_solver. apply Hin in Hy as [Hy1 Hy2].
    apply Exists_exists in Hy2 as (o & Ho & Hoy). rewrite Forall_forall in Hm2, HF.
    specialize (Hm2 o Ho). destruct (HF o Ho) as [Hso _].
    assert (doc_id o ≤ y).
    { destruct Hoy as [<-|Hoy]; [lia|]. pose proof (sorted_elem _ _ _ (sound_sorted o Hso) Hoy). lia. }
    assert (min_doc l = y ∨ min_doc l ∈ r) as [?|Hr] by (specialize (Hmr ltac:(lia)); set_solver); [done|].
    pose proof (sorted_elem _ _ _ Hsort Hr). lia.
Qed.

(** The state after a pass is the cursor on the documents from [t'] on. *)
Lemma disj_after s l' t' c tb : disj_sound s → curr_doc s < t' →
  Forall (fun o => sound o ∧ t' ≤ doc_id o ≤ NO_MORE_DOCS) l' →
  (∀ d, t' ≤ d < NO_MORE_DOCS → some_has l' d ↔ some_has (sub_scorers s) d) →
  let s' := mk l' (min_doc l') c tb in let rest := docs_from t' (disj_remaining s) in
  disj_sound s' ∧ min_doc l' = hd_doc rest ∧ disj_remaining s' = tail rest.
Proof using.
  intros Hs Hlt HF Hh s' rest.
  destruct (min_doc_spec l') as (Hm1 & Hm2 & Hm3).
  { eapply Forall_impl; [exact HF|]. simpl. lia. }
  assert (Hin : ∀ d, d ∈ rest ↔ t' ≤ d < NO_MORE_DOCS ∧ some_has l' d).
  { intros d. unfold rest, docs_from. rewrite list_elem_of_filter, elem_of_disj_remaining.
    split; [intros (? & ? & ?); rewrite Hh by lia; split; [lia|done]|].
    intros [? H]. rewrite Hh in H by lia. split_and!; done || lia. }
  assert (Hsort : StronglySorted Z.lt (curr_doc s :: rest)) by (apply sorted_docs_from, disj_sorted).
  assert (Hge : min_doc l' < NO_MORE_DOCS → t' ≤ min_doc l') by (by apply min_doc_from).
  assert (Hmin : min_doc l' = hd_doc rest) by (by eapply min_doc_hd).
  split_and!; [|done|].
  - apply Forall_forall. rewrite Forall_forall in HF, Hm2. intros o Ho. cbn. destruct (HF o Ho). split; [done|]. split; [by apply Hm2|lia].
  - pose proof (disj_sorted s') as Hs'. cbn [curr_doc s'] in Hs'.
    destruct rest as [|x r] eqn:Er; cbn [hd_doc tail] in *.
    + apply (sorted_ext _ _ _ (curr_doc s) Hs' Hsort). intros d. rewrite elem_of_disj_remaining. cbn. set_unfold. lia.
    + apply StronglySorted_inv in Hsort as [Hsort _]. apply (sorted_ext _ _ _ x Hs' Hsort). intros d.
      rewrite elem_of_disj_remaining. cbn. rewrite Hmin. split.
      * intros [? ?]. assert (d ∈ x :: r) as Hd; [|apply elem_of_cons in Hd as [->|Hd]; [lia|done]].
        apply Hin. split; [|done]. rewrite <- Hmin in *. assert (min_doc l' < NO_MORE_DOCS) by lia.
        specialize (Hge ltac:(done)). lia.
      * intros Hd. pose proof (sorted_elem _ _ _ Hsort Hd). assert (d ∈ x :: r) as Hd' by set_solver.
        apply Hin in Hd' as [? ?]. split; [lia|done].
Qed.

(** The disjunction keeps the contract of an iterator over the union. *)
#[global] Program Instance disj_steps :
  Steps (It := t T) curr_doc approximate_next_impl approximate_advance_impl :=
  {| remaining := disj_remaining; sound := disj_sound |}.
Next Obligation. intros s _. apply disj_sorted. Qed.
Next Obligation.
  intros s _. apply List.Forall_forall. intros d Hd. apply list_elem_of_In, elem_of_disj_remaining in Hd. lia.
Qed.
Next Obligation.
  intros s Hs Hne. assert (HF := proj1 (Forall_forall _ _) Hs). cbn beta in HF.
  destruct (move_scorers_spec (fun x => doc_id x =? curr_doc s) approximate_next (curr_doc s + 1) (sub_scorers s))
    as (l' & Hrun & HF' & Hh).
  - intros o Ho. destruct (HF o Ho). split; [done|lia].
  - intros o Ho E%Z.eqb_eq. destruct (HF o Ho). destruct (nxt_moved o) as (o' & Hn & Hmv); [done|lia|lia|].
    rewrite E in Hmv. eauto.
  - intros o Ho E%Z.eqb_neq. destruct (HF o Ho). lia.
  - unfold approximate_next_impl. rewrite Hrun. cbn [mbind result_bind].
    destruct (disj_after s l' _ (total_cost s) (tie_breaker_multiplier s) Hs (Z.lt_succ_diag_r _) HF' Hh) as (H1 & H2 & H3).
    unfold Z.succ in *. rewrite docs_from_all in H2, H3 by apply sorted_tail_gt, disj_sorted.
    eexists. rewrite <- H2. split; [reflexivity|]. done.
Qed.
Next Obligation.
  intros s t' Hs Ht. assert (HF := proj1 (Forall_forall _ _) Hs). cbn beta in HF.
  destruct (move_scorers_spec (fun x => doc_id x <? t') (fun x => approximate_advance x t') t' (sub_scorers s))
    as (l' & Hrun & HF' & Hh).
  - intros o Ho. destruct (HF o Ho). split; [done|lia].
  - intros o Ho E%Z.ltb_lt. destruct (HF o Ho). destruct (adv_moved o t') as (o' & Hn & Hmv); [done|lia|]. eauto.
  - intros o Ho E%Z.ltb_ge. done.
  - unfold approximate_advance_impl. rewrite Hrun. cbn [mbind result_bind].
    destruct (disj_after s l' t' (total_cost s) (tie_breaker_multiplier s) Hs (proj1 Ht) HF' Hh) as (H1 & H2 & H3).
    eexists. rewrite <- H2. split; [reflexivity|]. done.
Qed.
End disjunction.

(** * BulkScorer *)

Section bulk.
Import BulkScorer.
Context {Sc : Type} `{HSc : DocIterator Sc} {K : Type} (collect : K → Z → Sc → result (K * Sc)) (put : K → Z → K).
Context (accept : option (Z → result bool)) (acc : Z → bool).
Context {nxt : Sc → result (Z * Sc)} {adv : Sc → Z → result (Z * Sc)} `{HD : !Steps doc_id nxt adv}.

(** [s'] is at the same place as [s]. *)
Definition same_place (s s' : Sc) : Prop :=
  sound s' ∧ doc_id s' = doc_id s ∧ remaining s' = remaining s.

(** The documents a pass up to [mx] visits, the scorer being on the first. *)
Definition visited (mx : Z) (s : Sc) : list Z := filter (fun d => d < mx) (doc_id s :: remaining s).
Definition collected_docs (hit : Z → bool) (k : K) (l : list Z) : K := foldl put k (filter (fun d => hit d = true) l).

Lemma collected_cons hit k d l :
  collected_docs hit k (d :: l) = collected_docs hit (if hit d then put k d else k) l.
Proof using. unfold collected_docs. rewrite filter_cons. case_decide as H; [by rewrite H|]. by destruct (hit d). Qed.

Lemma visited_step mx s s' : sound s → doc_id s < mx → mx ≤ NO_MORE_DOCS →
  doc_id s' = hd_doc (remaining s) → remaining s' = tail (remaining s) →
  visited mx s = doc_id s :: visited mx s'.
Proof using.
  intros Hs Hlt Hmx Hd Hr. unfold visited. rewrite filter_cons, decide_True, Hd, Hr by done. f_equal.
  destruct (remaining s); [|done]. simpl. rewrite filter_cons, decide_False by lia. done.
Qed.

Lemma visited_end mx s : sound s → mx ≤ doc_id s → visited mx s = [].
Proof using.
  intros Hs Hge. apply filter_none_lt. intros d Hd.
  assert (d = doc_id s ∨ d ∈ remaining s) as [->|Hr] by set_solver; [lia|].
  pose proof (sorted_elem _ _ _ (sound_sorted _ Hs) Hr). lia.
Qed.

(** The scorer moved past what it visited. *)
Definition past (mx : Z) (s s' : Sc) : Prop :=
  sound s' ∧ mx ≤ doc_id s' ∧
  filter (fun d => mx ≤ d < NO_MORE_DOCS) (doc_id s :: remaining s)
    = filter (fun d => mx ≤ d < NO_MORE_DOCS) (doc_id s' :: remaining s').

Lemma past_step mx s s' s'' : doc_id s < mx → 
  doc_id s' = hd_doc (remaining s) → remaining s' = tail (remaining s) → past mx s' s'' → past mx s s''.
Proof using.
  intros Hlt Hd Hr (H1 & H2 & H3). split_and!; [done|done|]. rewrite <- H3, Hd, Hr.
  rewrite filter_cons, decide_False by lia. destruct (remaining s); [|done].
  simpl. rewrite filter_cons, decide_False by lia. done.
Qed.

(** The collector records documents and leaves the scorer where it is. *)
Hypothesis collects : ∀ k s, sound s →
  ∃ s', collect k (doc_id s) s = Ok (put k (doc_id s), s') ∧ same_place s s'.
(** The accepted documents are given by [acc]. *)
Hypothesis accepted : ∀ d, 0 ≤ d < NO_MORE_DOCS → accepts accept d = Ok (acc d).

Lemma exact_range_end fuel mx cur k s : mx ≤ cur → exact_range collect accept fuel mx cur k s = Ok (cur, k, s).
Proof using. intros H%Z.ltb_ge. destruct fuel; cbn [exact_range]; by rewrite H. Qed.

Lemma visited_length mx s : (length (visited mx s) ≤ S (length (remaining s)))%nat.
Proof using. unfold visited. etransitivity; [apply length_filter|done]. Qed.

(** The pass for scorers whose [next] is exact. *)
Lemma exact_range_spec (Hnext : ∀ s, next s = nxt s) fuel mx : mx ≤ NO_MORE_DOCS → ∀ k s,
  sound s → 0 ≤ doc_id s → (length (visited mx s) ≤ fuel)%nat →
  ∃ s', exact_range collect accept fuel mx (doc_id s) k s
          = Ok (doc_id s', collected_docs acc k (visited mx s), s') ∧ past mx s s'.
Proof using collects accepted.
  intros Hmx. induction fuel as [|f IH]; intros k s Hs H0 Hf.
  all: destruct (Z.le_gt_cases mx (doc_id s)) as [Hge|Hlt];
    [exists s; rewrite exact_range_end, visited_end by done; split; [done|]; by split_and!|].
  { unfold visited in Hf. rewrite filter_cons, decide_True in Hf by done. simpl in Hf. lia. }
  cbn [exact_range]. rewrite (proj2 (Z.ltb_lt _ _) Hlt), accepted by lia. cbn [mbind result_bind].
  assert (∃ s1, (if acc (doc_id s) then collect k (doc_id s) s else Ok (k, s))
      = Ok ((if acc (doc_id s) then put k (doc_id s) else k), s1) ∧ same_place s s1) as (s1 & -> & Hs1 & Hd1 & Hr1).
  { destruct (acc (doc_id s)); [by apply collects|]. exists s. by split_and!. }
  cbn [mbind result_bind]. rewrite Hnext. destruct (step_next s1 Hs1) as (s2 & -> & Hs2 & Hd2 & Hr2); [lia|].
  rewrite Hr1 in *. cbn [mbind result_bind]. rewrite (visited_step mx s s2) in * by done. rewrite collected_cons.
  destruct (hd_doc_sorted _ _ (sound_sorted s Hs)) as [Hgt _]; [lia|].
  destruct (IH (if acc (doc_id s) then put k (doc_id s) else k) s2) as (s' & Hrun & Hp);
    [done|lia|simpl in Hf; lia|].
  rewrite <- Hd2, Hrun. exists s'. split; [done|]. by apply (past_step mx s s2).
Qed.

(** The verification of a candidate answers [m] of its document. *)
Context (m : Z → bool) (limit : Z).
Hypothesis matched : ∀ s, sound s → 0 ≤ doc_id s < NO_MORE_DOCS →
  ∃ s', matches s = Ok (m (doc_id s), s') ∧ same_place s s'.

Definition hit (d : Z) : bool := acc d && m d.

Lemma visit_two_phase {R} (cont : K → Sc → Z → result R) k s n : sound s → 0 ≤ doc_id s < NO_MORE_DOCS →
  ∃ s', (a ← accepts accept (doc_id s);
         '(h, s1) ← (if (a : bool) then matches s else Ok (false, s));
         '(k, s2, n) ← (if (h : bool) then '(k, s2) ← collect k (doc_id s) s1; Ok (k, s2, n + 1) else Ok (k, s1, n));
         cont k s2 n)
        = cont (if hit (doc_id s) then put k (doc_id s) else k) s' (if hit (doc_id s) then n + 1 else n) ∧
        same_place s s'.
Proof using collects accepted matched.
  intros Hs Hr. rewrite accepted by done. unfold hit. cbn [mbind result_bind].
  destruct (acc (doc_id s)); cbn [andb mbind result_bind]; [|by exists s].
  destruct (matched s Hs Hr) as (s1 & -> & Hs1 & Hd1 & Hr1). cbn [mbind result_bind].
  destruct (m (doc_id s)); cbn [mbind result_bind]; [|by exists s1].
  destruct (collects k s1 Hs1) as (s2 & Hc & Hs2 & Hd2 & Hr2). rewrite Hd1 in *. rewrite Hc. cbn [mbind result_bind].
  exists s2. split; [done|]. split_and!; congruence.
Qed.

(** Whether the pass gives up: nothing was collected among the first [n] of
    the candidates [l], and there are that many. *)
Definition gives_up (n : nat) (l : list Z) : bool :=
  (n <=? length l)%nat && forallb (fun d => negb (hit d)) (take n l).

(** Where the pass leaves the scorer when it gives up after [n] candidates. *)
Definition stopped (n : nat) (s s' : Sc) : Prop :=
  sound s' ∧ doc_id s' = hd_doc (drop n (doc_id s :: remaining s)) ∧
  remaining s' = tail (drop n (doc_id s :: remaining s)).

Lemma two_phase_range_end fuel mx cur nexts coll k s : mx ≤ cur →
  two_phase_range collect accept fuel mx limit cur nexts coll k s = Ok (cur, k, s).
Proof using. intros H%Z.ltb_ge. destruct fuel; cbn [two_phase_range]; by rewrite H. Qed.

Lemma stopped_step n s s2 s' : doc_id s2 = hd_doc (remaining s) → remaining s2 = tail (remaining s) →
  (n ≤ length (remaining s))%nat → stopped n s2 s' → stopped (S n) s s'.
Proof using.
  intros Hd Hr Hn (H1 & H2 & H3). unfold stopped. rewrite Hd, Hr in H2, H3. cbn [drop].
  destruct (remaining s); [|done]. simpl in Hn. assert (n = 0%nat) as -> by lia.
  cbn in H2, H3. by split_and!.
Qed.

(** The pass for two-phase scorers, before and after the first hit. *)
Lemma two_phase_range_spec (Hnext : ∀ s, approximate_next s = nxt s) fuel mx : mx ≤ NO_MORE_DOCS →
  ∀ k s nexts coll, sound s → 0 ≤ doc_id s → (length (visited mx s) ≤ fuel)%nat → 0 ≤ coll →
  (coll = 0 → nexts ≤ limit) →
  let n := Z.to_nat (limit + 1 - nexts) in
  let up := (coll =? 0) && gives_up n (visited mx s) in
  ∃ s', two_phase_range collect accept fuel mx limit (doc_id s) nexts coll k s
          = Ok (doc_id s', (if up then k else collected_docs hit k (visited mx s)), s') ∧
        (if up then stopped n s s' else past mx s s').
Proof using collects accepted matched.
  intros Hmx. induction fuel as [|f IH]; intros k s nexts coll Hs H0 Hf Hc Hlim n up.
  all: destruct (Z.le_gt_cases mx (doc_id s)) as [Hge|Hlt];
    [exists s; unfold up; rewrite two_phase_range_end, visited_end by done;
     assert ((coll =? 0) && gives_up n [] = false) as ->
       by (destruct (Z.eqb_spec coll 0); [|done]; unfold gives_up; rewrite (proj2 (Nat.leb_gt _ _)) by (simpl; lia); done);
     split; [done|]; by split_and!|].
  { unfold visited in Hf. rewrite filter_cons, decide_True in Hf by done. simpl in Hf. lia. }
  cbn [two_phase_range]. rewrite (proj2 (Z.ltb_lt _ _) Hlt).
  destruct (visit_two_phase (fun k s2 n0 => '(cd, s3) ← approximate_next s2;
      if (n0 =? 0) && (limit <? nexts + 1) then Ok (cd, k, s3)
      else two_phase_range collect accept f mx limit cd (nexts + 1) n0 k s3) k s coll Hs) as (s1 & -> & Hs1 & Hd1 & Hr1); [lia|].
  rewrite Hnext. destruct (step_next s1 Hs1) as (s2 & -> & Hs2 & Hd2 & Hr2); [lia|].
  rewrite Hr1 in *. cbn [mbind result_bind]. unfold up. rewrite (visited_step mx s s2) in * by done. rewrite collected_cons.
  destruct (hd_doc_sorted _ _ (sound_sorted s Hs)) as [Hgt _]; [lia|].
  set (c' := if hit (doc_id s) then coll + 1 else coll). set (k' := if hit (doc_id s) then put k (doc_id s) else k).
  destruct ((c' =? 0) && (limit <? nexts + 1)) eqn:Estop.
  - apply andb_true_iff in Estop as [E1%Z.eqb_eq E2%Z.ltb_lt]. unfold c', k' in *.
    destruct (hit (doc_id s)) eqn:Eh; [lia|]. subst coll. specialize (Hlim eq_refl).
    assert (n = 1%nat) as -> by lia. unfold gives_up. cbn [length Nat.leb take forallb andb]. rewrite Eh. cbn.
    exists s2. rewrite Hd2. split; [done|]. split; [done|]. cbn [drop]. by rewrite drop_0.
  - destruct (IH k' s2 (nexts + 1) c') as (s' & Hrun & Hp); [done|lia|simpl in Hf; lia|unfold c'; case_match; lia| |].
    { intros E. rewrite E in Estop. cbn [Z.eqb andb] in Estop. apply Z.ltb_ge in Estop. lia. }
    rewrite <- Hd2, Hrun. exists s'. unfold c', k' in *.
    assert (Hup : (coll =? 0) && gives_up n (doc_id s :: visited mx s2)
       = ((if hit (doc_id s) then coll + 1 else coll) =? 0) && gives_up (Z.to_nat (limit + 1 - (nexts + 1))) (visited mx s2)).
    { destruct (Z.eqb_spec coll 0) as [->|Hnz].
      2:{ destruct (hit (doc_id s)); rewrite (proj2 (Z.eqb_neq _ 0)) by lia; done. }
      specialize (Hlim eq_refl). unfold gives_up. replace n with (S (Z.to_nat (limit + 1 - (nexts + 1)))) by lia.
      cbn [length Nat.leb take forallb]. destruct (hit (doc_id s)); cbn; [apply andb_false_r|done]. }
    rewrite Hup. clear Hup.
    match goal with |- context [if ?b then _ else _] => destruct b eqn:Eup end.
    + apply andb_true_iff in Eup as [E1%Z.eqb_eq E2]. destruct (hit (doc_id s)); [lia|]. subst coll.
      specialize (Hlim eq_refl). split; [done|]. unfold gives_up in E2. apply andb_true_iff in E2 as [E2%Nat.leb_le _].
      replace n with (S (Z.to_nat (limit + 1 - (nexts + 1)))) by lia. apply (stopped_step _ s s2); try done.
      pose proof (visited_length mx s2). rewrite Hr2 in *. destruct (remaining s); simpl in *; [|lia].
      unfold visited in E2. rewrite filter_cons, decide_False in E2 by lia. rewrite Hr2 in E2. done.
    + split; [done|]. by apply (past_step mx s s2).
Qed.
End bulk.

(** * FilterScorer *)

Section filter_scorer.
Import FilterScorer.
Context {T : Type} `{HT : DocIterator T} `{HS : !Scorer T} `{HD : !ApproxDocs T}.
Context {Fl : Type} (filter_matches : Fl → Z → result (bool * Fl)) (ok : Fl → Z → bool) (m : Z → bool).

(** A filter answers [ok] of the document and goes on answering so. *)
Hypothesis filtered : ∀ f d, ∃ f', filter_matches f d = Ok (ok f d, f') ∧ ∀ d', ok f' d' = ok f d'.
(** The scorer's own verification answers [m] of its document. *)
Hypothesis matched : ∀ s : T, sound s → doc_id s < NO_MORE_DOCS →
  ∃ s', matches s = Ok (m (doc_id s), s') ∧ same_place s s'.

Definition passes (l : list Fl) (d : Z) : bool := forallb (fun f => ok f d) l && m d.

Lemma ask_filters_spec d l : ∃ l', ask_filters filter_matches d l = Ok (forallb (fun f => ok f d) l, l') ∧
  ∀ d', passes l' d' = passes l d'.
Proof using filtered.
  unfold passes. induction l as [|f l (l' & IH & Hsame)]; [by exists []|]. cbn [ask_filters forallb].
  destruct (filtered f d) as (f' & -> & Hf). cbn [mbind result_bind]. destruct (ok f d); cbn [negb andb].
  - rewrite IH. cbn [mbind result_bind]. exists (f' :: l'). split; [done|]. intros d'. cbn [forallb].
    specialize (Hsame d'). rewrite Hf. destruct (ok f d'); done.
  - exists (f' :: l). split; [done|]. intros d'. cbn [forallb]. by rewrite Hf.
Qed.

Lemma filter_matches_impl s : sound (scorer s) → doc_id (scorer s) < NO_MORE_DOCS →
  ∃ s', matches_impl filter_matches s = Ok (passes (filters s) (doc_id (scorer s)), s') ∧
        same_place (scorer s) (scorer s') ∧ ∀ d', passes (filters s') d' = passes (filters s) d'.
Proof using filtered matched.
  intros Hs Hlt. unfold matches_impl. destruct (ask_filters_spec (doc_id (scorer s)) (filters s)) as (l' & -> & Hsame).
  cbn [mbind result_bind]. unfold passes at 1. destruct (forallb _ (filters s)); cbn [negb andb].
  - destruct (matched (scorer s) Hs Hlt) as (sc & -> & Hp). cbn [mbind result_bind]. by exists (mk sc l').
  - exists (mk (scorer s) l'). by split_and!.
Qed.

Definition filt_remaining (s : t T Fl) : list Z := filter (fun d => passes (filters s) d = true) (remaining (scorer s)).

(** The loop stops on the first candidate that passes. *)
Lemma filter_two_phase fuel : ∀ s, sound (scorer s) → doc_id (scorer s) ≤ NO_MORE_DOCS →
  (S (S (length (remaining (scorer s)))) ≤ fuel)%nat →
  let rest := filter (fun d => d < NO_MORE_DOCS ∧ passes (filters s) d = true) (doc_id (scorer s) :: remaining (scorer s)) in
  ∃ s', two_phase filter_matches fuel (doc_id (scorer s)) s = Ok (hd_doc rest, s') ∧ sound (scorer s') ∧
        doc_id (scorer s') = hd_doc rest ∧ filt_remaining s' = tail rest ∧
        ∀ d', passes (filters s') d' = passes (filters s) d'.
Proof using filtered matched.
  induction fuel as [|f IH]; intros s Hs Hle Hf rest; [lia|]. cbn [two_phase]. pose proof (sound_sorted _ Hs) as Hsort.
  pose proof (sound_range _ Hs) as Hrange.
  destruct (Z.eqb_spec (doc_id (scorer s)) NO_MORE_DOCS) as [E|Hne].
  { assert (remaining (scorer s) = []) as Er.
    { destruct (remaining (scorer s)) as [|x l]; [done|]. apply Forall_cons_iff in Hrange as [Hx _].
      apply StronglySorted_inv in Hsort as [_ [? _]%Forall_cons_iff]. lia. }
    exists s. unfold rest, filt_remaining. rewrite E, Er, filter_cons, decide_False by lia. by split_and!. }
  assert (Hlt : doc_id (scorer s) < NO_MORE_DOCS) by lia.
  assert (Hrest : filter (fun d => d < NO_MORE_DOCS ∧ passes (filters s) d = true) (remaining (scorer s)) = filt_remaining s).
  { apply filter_same. intros d Hd. rewrite Forall_forall in Hrange. specialize (Hrange d Hd). naive_solver. }
  destruct (filter_matches_impl s Hs Hlt) as (s1 & -> & (Hs1 & Hd1 & Hr1) & Hp1). cbn [mbind result_bind].
  unfold rest. rewrite filter_cons. destruct (passes (filters s) (doc_id (scorer s))) eqn:Ep.
  - exists s1. rewrite decide_True, Hrest by done. split; [done|]. split_and!; try done.
    unfold filt_remaining. rewrite Hr1. apply filter_same. intros d _. by rewrite Hp1.
  - rewrite decide_False by naive_solver. unfold on_scorer.
    destruct (step_next (scorer s1) Hs1) as (sc & -> & Hs2 & Hd2 & Hr2); [lia|]. cbn [mbind result_bind].
    pose proof (hd_doc_le (remaining (scorer s)) Hrange). rewrite Hr1 in *.
    destruct (decide (remaining (scorer s) = [])) as [Enil|Hnil].
    + rewrite Enil in *. cbn [hd_doc tail] in *. destruct f as [|f]; [simpl in Hf; lia|]. cbn.
      exists (mk sc (filters s1)). unfold filt_remaining. cbn [scorer filters]. rewrite Hr2. by split_and!.
    + destruct (IH (mk sc (filters s1))) as (s' & Hrun & Hs' & Hd' & Hr' & Hp'); cbn [scorer filters] in *; [done|lia| |].
      { rewrite Hr2. destruct (remaining (scorer s)); [done|]. simpl in *. lia. }
      assert (Hq : filter (λ d, d < NO_MORE_DOCS ∧ passes (filters s1) d = true) (doc_id sc :: remaining sc)
         = filter (λ d, d < NO_MORE_DOCS ∧ passes (filters s) d = true) (remaining (scorer s))).
      { rewrite Hd2, Hr2. destruct (remaining (scorer s)); [done|]. cbn [hd_doc tail]. apply filter_same.
        intros d _. by rewrite Hp1. }
      rewrite Hq in *. rewrite <- Hd2. exists s'. split_and!; try done. intros d'. by rewrite Hp', Hp1.
Qed.

Context (fuel_of : t T Fl → nat) (enough : ∀ s, (S (S (length (remaining (scorer s)))) ≤ fuel_of s)%nat).

Lemma filter_after (s : t T Fl) sc rest : doc_id sc = hd_doc rest → remaining sc = tail rest →
  Forall (fun d => d < NO_MORE_DOCS) rest →
  filter (fun d => d < NO_MORE_DOCS ∧ passes (filters s) d = true) (doc_id sc :: remaining sc)
    = filter (fun d => passes (filters s) d = true) rest.
Proof using.
  intros -> -> Hr. destruct rest as [|x l].
  - simpl. rewrite filter_cons, decide_False by lia. done.
  - cbn [hd_doc tail]. apply filter_same. intros d Hd. rewrite Forall_forall in Hr. specialize (Hr d Hd). naive_solver.
Qed.

(** The filter scorer keeps the contract of an iterator over the documents that pass. *)
#[global] Program Instance filter_steps :
  Steps (fun s : t T Fl => doc_id (scorer s)) (next_impl filter_matches fuel_of) (advance_impl filter_matches fuel_of) :=
  {| remaining := filt_remaining; sound s := sound (scorer s) ∧ doc_id (scorer s) ≤ NO_MORE_DOCS |}.
Next Obligation. intros s [Hs _]. by apply sorted_filter, sound_sorted. Qed.
Next Obligation.
  intros s [Hs _]. by apply range_filter, sound_range.
Qed.
Next Obligation.
  cbv beta. intros s [Hs Hle] Hne. unfold next_impl, on_scorer. pose proof (sound_range _ Hs) as Hr.
  destruct (step_next (scorer s) Hs Hne) as (sc & -> & Hs2 & Hd2 & Hr2). cbn [mbind result_bind].
  pose proof (hd_doc_le _ Hr). destruct (filter_two_phase (fuel_of (mk sc (filters s))) (mk sc (filters s)))
    as (s' & Hrun & Hs' & Hd' & Hr' & _); cbn [scorer filters] in *; [done|lia|apply (enough (mk sc (filters s)))|].
  rewrite (filter_after s sc _ Hd2 Hr2 Hr) in *. exists s'. fold (filt_remaining s) in *. split_and!; try done.
  rewrite Hd'. by apply hd_doc_le, range_filter.
Qed.
Next Obligation.
  cbv beta. intros s t' [Hs Hle] Ht. unfold advance_impl, on_scorer.
  assert (Hr : Forall (fun d => d < NO_MORE_DOCS) (docs_from t' (remaining (scorer s))))
    by (by apply range_filter, sound_range).
  destruct (step_advance (scorer s) t' Hs Ht) as (sc & -> & Hs2 & Hd2 & Hr2). cbn [mbind result_bind].
  pose proof (hd_doc_le _ Hr). destruct (filter_two_phase (fuel_of (mk sc (filters s))) (mk sc (filters s)))
    as (s' & Hrun & Hs' & Hd' & Hr' & _); cbn [scorer filters] in *; [done|lia|apply (enough (mk sc (filters s)))|].
  rewrite (filter_after s sc _ Hd2 Hr2 Hr) in *.
  assert (Hq : filter (λ d, passes (filters s) d = true) (docs_from t' (remaining (scorer s))) = docs_from t' (filt_remaining s)).
  { unfold filt_remaining, docs_from. rewrite !list_filter_filter. apply filter_same. naive_solver. }
  rewrite Hq in *. exists s'. split_and!; try done.
  rewrite Hd', <- Hq. by apply hd_doc_le, range_filter.
Qed.
End filter_scorer.
