(* ===== verification/SearchTheorems.v ===== *)
(** What the scorers of Search.v enumerate and collect: the theorems, put
    together from the contracts proved in SearchFacts.v. *)

From S2P Require Import Prelude Float32 DocIter Search SearchFacts.
From Stdlib Require Import Sorting.Sorted.
From stdpp Require Import sets.
Open Scope Z_scope.

(** * The scorer of the tests of search/scorer: a vector of documents, with the
    document as its score *)

Definition mock_score (it : VecDocIterator.t) : result (f32 * VecDocIterator.t) :=
  Ok (f32_of_Z (doc_id it), it).
#[global] Instance mock_scorer : Scorer VecDocIterator.t := {| score := mock_score |}.
#[global] Instance vec_approx_lawful : ApproxDocs VecDocIterator.t := vec_docs_lawful.

(** * Conjunction and disjunction *)

(** A new conjunction is before the first of the documents all the children have. *)
Lemma conj_new {T : Type} `{HT : DocIterator T} `{HD : !ApproxDocs T} (fuel_of : ConjunctionScorer.t T → nat) (children : list T) :
  (∀ s, (S (S (length (remaining (ConjunctionScorer.lead1 s)))) ≤ fuel_of s)%nat) →
  2 ≤ vlen children → Forall (fun c => sound c ∧ doc_id c = -1) children →
  ∃ s, ConjunctionScorer.new children = Ok s ∧ conj_sound s ∧ doc_id (ConjunctionScorer.lead1 s) = -1 ∧
    StronglySorted Z.lt (conj_remaining s) ∧ ∀ d, d ∈ conj_remaining s ↔ Forall (fun c => d ∈ remaining c) children.
Proof.
  intros Hfuel Hlen Hch. unfold ConjunctionScorer.new. rewrite (proj2 (Z.leb_le _ _) Hlen). cbn [check mbind result_bind].
  pose proof (sort_by_perm cost children) as Hperm. rewrite <- Hperm in Hch.
  assert (Hlen' : vlen (sort_by cost children) = vlen children) by (unfold vlen; by rewrite Hperm).
  destruct (sort_by cost children) as [|l1 [|l2 os]]; [unfold vlen in *; simpl in *; lia..|].
  apply Forall_cons_iff in Hch as [[Hs1 Hd1] Hch]. apply Forall_cons_iff in Hch as [[Hs2 Hd2] Hch].
  assert (Hsound : conj_sound (ConjunctionScorer.mk l1 l2 os)).
  { constructor; cbn; try done; try (unfold NO_MORE_DOCS; lia); eapply Forall_impl; try exact Hch; naive_solver lia. }
  exists (ConjunctionScorer.mk l1 l2 os).
  pose proof (sound_sorted (Steps := conj_steps fuel_of Hfuel) _ Hsound) as Hsort.
  split; [done|]. split; [done|]. split; [done|]. split; [by apply StronglySorted_inv in Hsort as [? _]|].
  intros d. rewrite <- Hperm, !Forall_cons_iff. unfold conj_remaining. rewrite list_elem_of_filter. cbn.
  assert (Hhas : ∀ o, doc_id o = -1 → d ∈ remaining l1 → has o d ↔ d ∈ remaining o).
  { intros o Ho Hd. unfold has. pose proof (sorted_elem _ _ _ (sound_sorted _ Hs1) Hd). intuition lia. }
  split.
  + intros [(Hlt & H2 & Ho) H1]. split_and!; [done|by apply Hhas|]. rewrite Forall_forall in Hch, Ho. apply Forall_forall.
    intros o Hin. apply Hhas; [by apply Hch|done|by apply Ho].
  + intros (H1 & H2 & Ho). split; [|done]. pose proof (sound_range _ Hs1) as Hr. rewrite Forall_forall in Hr. rewrite Forall_forall in Hch, Ho.
    split_and!; [by apply Hr|by apply Hhas|]. apply Forall_forall. intros o Hin. apply Hhas; [by apply Hch|done|by apply Ho].
Qed.

(** C34. A [ConjunctionScorer] over at least two scorers, none of them started,
    is an iterator over the intersection of their approximations: any legal
    sequence of [next] and [advance] calls answers as a cursor on the sorted list
    of the documents that are in every one of them, whatever the order of the
    children and their costs, and every call returns. *)
Theorem conjunction_is_intersection {T : Type} `{HT : DocIterator T} `{HS : !Scorer T} `{HD : !ApproxDocs T}
    (fuel_of : ConjunctionScorer.t T → nat) (children : list T) :
  (∀ s, (S (S (length (remaining (ConjunctionScorer.lead1 s)))) ≤ fuel_of s)%nat) →
  2 ≤ vlen children → Forall (fun c => sound c ∧ doc_id c = -1) children →
  ∃ s docs, ConjunctionScorer.new children = Ok s ∧ StronglySorted Z.lt docs ∧
    (∀ d, d ∈ docs ↔ Forall (fun c => d ∈ remaining c) children) ∧
    ∀ calls ds, replay calls (-1) docs = Some ds →
      perform (@next _ (ConjunctionScorer.iterator fuel_of)) (@advance _ (ConjunctionScorer.iterator fuel_of))
        calls s = Ok ds.
Proof.
  intros Hfuel Hlen Hch. destruct (conj_new fuel_of children Hfuel Hlen Hch) as (s & Hnew & Hsound & Hd & Hsort & Hdocs).
  exists s, (conj_remaining s). split_and!; try done.
  intros calls ds Hrep. apply (steps_simulate (HS := conj_steps fuel_of Hfuel)); [done|]. by rewrite Hd.
Qed.

Lemma conjunction_witness :
  let children := [VecDocIterator.new [1; 3; 5; 8; 9]; VecDocIterator.new [3; 8; 9]; VecDocIterator.new [2; 3; 9; 11]] in
  let fuel_of s := S (S (length (remaining (ConjunctionScorer.lead1 s)))) in
  ∃ s docs, ConjunctionScorer.new children = Ok s ∧ StronglySorted Z.lt docs ∧
    (∀ d, d ∈ docs ↔ Forall (fun c => d ∈ remaining c) children) ∧
    ∀ calls ds, replay calls (-1) docs = Some ds →
      perform (@next _ (ConjunctionScorer.iterator fuel_of)) (@advance _ (ConjunctionScorer.iterator fuel_of))
        calls s = Ok ds.
Proof.
  apply conjunction_is_intersection; [lia|vm_compute; discriminate|].
  repeat constructor; try reflexivity; try discriminate; try lia.
Defined.

(** C35. A [DisjunctionSumScorer] or [DisjunctionMaxScorer] over at least two
    scorers, none of them started, is an iterator over the union of their
    approximations: any legal sequence of [next] and [advance] calls answers as a
    cursor on the sorted list of the documents that are in one of them. *)
Theorem disjunction_is_union {T : Type} `{HT : DocIterator T} `{HS : !Scorer T} `{HD : !ApproxDocs T}
    (tie : f32) (children : list T) :
  2 ≤ vlen children → Forall (fun c => sound c ∧ doc_id c = -1) children →
  ∃ s docs, DisjunctionScorer.new children tie = Ok s ∧ StronglySorted Z.lt docs ∧
    (∀ d, d ∈ docs ↔ Exists (fun c => d ∈ remaining c) children) ∧
    ∀ calls ds, replay calls (-1) docs = Some ds →
      perform (next (It := DisjunctionScorer.t T)) (advance (It := DisjunctionScorer.t T)) calls s = Ok ds.
Proof.
  intros Hlen Hch. unfold DisjunctionScorer.new. rewrite (proj2 (Z.ltb_lt 1 _)) by lia. cbn [check mbind result_bind].
  set (s := DisjunctionScorer.mk _ _ _ _).
  assert (Hm : DisjunctionScorer.min_doc children = -1).
  { destruct (min_doc_spec children) as (Hm1 & Hm2 & Hm3).
    - eapply Forall_impl; [exact Hch|]. simpl. unfold NO_MORE_DOCS. lia.
    - destruct children as [|c l]; [unfold vlen in *; simpl in *; lia|]. apply Forall_cons_iff in Hm2 as [Hm2 _].
      apply Forall_cons_iff in Hch as [[Hc1 Hc2] Hch]. rewrite Hc2 in Hm2.
      assert (Hlt : DisjunctionScorer.min_doc (c :: l) < NO_MORE_DOCS) by (unfold NO_MORE_DOCS in *; lia).
      apply Hm3, Exists_exists in Hlt as (o & Ho & <-). apply elem_of_cons in Ho as [->|Ho]; [done|].
      rewrite Forall_forall in Hch. by apply Hch. }
  assert (Hsound : disj_sound s).
  { unfold disj_sound. cbn. rewrite Hm. eapply Forall_impl; [exact Hch|]. simpl. unfold NO_MORE_DOCS. intuition lia. }
  exists s, (disj_remaining s). split; [done|].
  pose proof (disj_sorted s) as Hsort. split; [by apply StronglySorted_inv in Hsort as [? _]|]. split.
  - intros d. rewrite elem_of_disj_remaining. cbn. rewrite Hm. unfold some_has. rewrite !Exists_exists.
    rewrite Forall_forall in Hch. split.
    + intros (Hd & o & Ho & [E|Hin]); [|eauto]. destruct (Hch o Ho). lia.
    + intros (o & Ho & Hin). destruct (Hch o Ho) as [Hso Hdo]. split; [|exists o; split; [done|by right]].
      pose proof (sorted_elem _ _ _ (sound_sorted _ Hso) Hin). pose proof (sound_range _ Hso) as Hr.
      rewrite Forall_forall in Hr. specialize (Hr d Hin). simpl in Hr. lia.
  - intros calls ds Hrep. apply (steps_simulate (HS := disj_steps)); [done|].
    change (DisjunctionScorer.curr_doc s) with (DisjunctionScorer.min_doc children). by rewrite Hm.
Qed.

Lemma disjunction_witness :
  let children := [VecDocIterator.new [1; 3; 9]; VecDocIterator.new [3; 8]] in
  ∃ s docs, DisjunctionScorer.new children f32_1 = Ok s ∧ StronglySorted Z.lt docs ∧
    (∀ d, d ∈ docs ↔ Exists (fun c => d ∈ remaining c) children) ∧
    ∀ calls ds, replay calls (-1) docs = Some ds →
      perform (next (It := DisjunctionScorer.t _)) (advance (It := DisjunctionScorer.t _)) calls s = Ok ds.
Proof.
  apply disjunction_is_union; [vm_compute; discriminate|].
  repeat constructor; try reflexivity; try discriminate; try lia.
Defined.

(** * BulkScorer *)

Section bulk_start.
Context {Sc : Type} `{HSc : DocIterator Sc} `{HD : !ApproxDocs Sc}.

(** The documents of a window. *)
Definition window (mn mx : Z) (s : Sc) : list Z := filter (fun d => mn ≤ d < mx) (remaining s).

(** The first call of [score] positions the scorer at the start of the window. *)
Lemma bulk_start mn mx s : sound s → -1 ≤ doc_id s < mn → mn ≤ NO_MORE_DOCS → mx ≤ NO_MORE_DOCS →
  ∃ s1, (if (mn =? 0) && (mx =? NO_MORE_DOCS) then approximate_next s else approximate_advance s mn)
          = Ok (doc_id s1, s1) ∧ sound s1 ∧ 0 ≤ doc_id s1 ∧
        visited mx s1 = window mn mx s ∧
        filter (fun d => mx ≤ d < NO_MORE_DOCS) (doc_id s1 :: remaining s1)
          = filter (fun d => mn ≤ d ∧ mx ≤ d) (remaining s).
Proof using.
  intros Hs Hd Hmn Hmx. pose proof (sound_range s Hs) as Hrange.
  assert (∃ s1, (if (mn =? 0) && (mx =? NO_MORE_DOCS) then approximate_next s else approximate_advance s mn)
     = Ok (hd_doc (docs_from mn (remaining s)), s1) ∧ sound s1 ∧
     doc_id s1 = hd_doc (docs_from mn (remaining s)) ∧ remaining s1 = tail (docs_from mn (remaining s)))
    as (s1 & -> & Hs1 & Hd1 & Hr1).
  { destruct ((mn =? 0) && (mx =? NO_MORE_DOCS)) eqn:E; [|apply step_advance; [done|lia]].
    apply andb_true_iff in E as [->%Z.eqb_eq _].
    destruct (step_next s Hs) as (s1 & H1 & H2); [unfold NO_MORE_DOCS in *; lia|].
    rewrite docs_from_all; [by exists s1|]. replace 0 with (doc_id s + 1) by lia. by apply sorted_tail_gt, sound_sorted. }
  exists s1. rewrite Hd1. split; [done|]. split; [done|].
  assert (Hin : ∀ d, d ∈ docs_from mn (remaining s) → mn ≤ d < NO_MORE_DOCS).
  { intros d [? Hin]%list_elem_of_filter. rewrite Forall_forall in Hrange. specialize (Hrange d Hin). simpl in *. lia. }
  unfold visited, window. rewrite Hd1, Hr1. split.
  { destruct (docs_from mn (remaining s)) as [|x l]; simpl; [done|]. specialize (Hin x ltac:(set_solver)). lia. }
  assert (Hsplit : ∀ (P Q : Z → Prop) `{∀ d, Decision (P d)} `{∀ d, Decision (Q d)},
    ¬ P NO_MORE_DOCS → (∀ d, d < NO_MORE_DOCS → Q d ↔ mn ≤ d ∧ P d) →
    filter P (hd_doc (docs_from mn (remaining s)) :: tail (docs_from mn (remaining s))) = filter Q (remaining s)).
  { intros P Q HdP HdQ HP HQ. transitivity (filter P (docs_from mn (remaining s))).
    - destruct (docs_from mn (remaining s)); simpl; [|done]. by rewrite filter_cons, decide_False.
    - unfold docs_from. rewrite list_filter_filter. apply filter_same. intros d Hd'.
      rewrite Forall_forall in Hrange. rewrite HQ by by apply Hrange. naive_solver. }
  split; apply Hsplit; intros; lia.
Qed.

Lemma window_length mn mx s : (length (window mn mx s) ≤ length (remaining s))%nat.
Proof using. apply length_filter. Qed.
End bulk_start.

(** C36. [BulkScorer::score] over a scorer without a second phase (its exact and
    approximate steps are the same) hands to the collector, in increasing order
    and once each, exactly the accepted documents of the scorer in the window
    [min, max), and leaves the scorer on its first document from [max] on with the
    later ones still to come. *)
Theorem bulk_scorer_collects_exact {Sc : Type} `{HSc : DocIterator Sc} `{HD : !ApproxDocs Sc} {K : Type}
    (collect : K → Z → Sc → result (K * Sc)) (put : K → Z → K)
    (accept : option (Z → result bool)) (acc : Z → bool) (fuel : nat) (mn mx limit : Z) (k : K) (s : Sc) :
  (∀ k (s : Sc), sound s → ∃ s', collect k (doc_id s) s = Ok (put k (doc_id s), s') ∧ same_place s s') →
  (∀ d, 0 ≤ d < NO_MORE_DOCS → BulkScorer.accepts accept d = Ok (acc d)) →
  (∀ s : Sc, next s = approximate_next s) → (∀ s : Sc, support_two_phase s = false) →
  sound s → -1 ≤ doc_id s < mn → mn ≤ NO_MORE_DOCS → mx ≤ NO_MORE_DOCS → (length (remaining s) ≤ fuel)%nat →
  ∃ s', BulkScorer.score collect accept fuel mn mx limit k s
          = Ok (doc_id s', foldl put k (filter (fun d => acc d = true) (window mn mx s)), s') ∧
        sound s' ∧ mx ≤ doc_id s' ∧
        filter (fun d => mx ≤ d < NO_MORE_DOCS) (doc_id s' :: remaining s')
          = filter (fun d => mn ≤ d ∧ mx ≤ d) (remaining s).
Proof.
  intros Hcol Hacc Hnext Htp Hs Hd Hmn Hmx Hf. unfold BulkScorer.score.
  destruct (bulk_start mn mx s Hs Hd Hmn Hmx) as (s1 & -> & Hs1 & H0 & Hv & Hrest). cbn [mbind result_bind].
  unfold BulkScorer.score_range. rewrite Htp.
  destruct (exact_range_spec collect put accept acc Hcol Hacc Hnext fuel mx Hmx k s1 Hs1 H0) as (s' & Hrun & Hp & Hq & Hr).
  - rewrite Hv. pose proof (window_length mn mx s). lia.
  - exists s'. rewrite Hrun, Hv. split; [done|]. split; [done|]. split; [done|]. by rewrite <- Hr.
Qed.

(** [BulkScorer::score] over a two-phase scorer hands to the collector, in
    order, exactly the documents of the window that are accepted and pass the
    verification; the one exception is the early exit: when none of the first
    [next_limit + 1] candidates (and there are as many) was collected it stops
    right behind them, with the collector untouched. *)
Theorem bulk_scorer_collects_two_phase {Sc : Type} `{HSc : DocIterator Sc} `{HD : !ApproxDocs Sc} {K : Type}
    (collect : K → Z → Sc → result (K * Sc)) (put : K → Z → K)
    (accept : option (Z → result bool)) (acc m : Z → bool) (fuel : nat) (mn mx limit : Z) (k : K) (s : Sc) :
  (∀ k (s : Sc), sound s → ∃ s', collect k (doc_id s) s = Ok (put k (doc_id s), s') ∧ same_place s s') →
  (∀ d, 0 ≤ d < NO_MORE_DOCS → BulkScorer.accepts accept d = Ok (acc d)) →
  (∀ s : Sc, sound s → 0 ≤ doc_id s < NO_MORE_DOCS → ∃ s', matches s = Ok (m (doc_id s), s') ∧ same_place s s') →
  (∀ s : Sc, support_two_phase s = true) → 0 ≤ limit →
  sound s → -1 ≤ doc_id s < mn → mn ≤ NO_MORE_DOCS → mx ≤ NO_MORE_DOCS → (length (remaining s) ≤ fuel)%nat →
  let candidates := window mn mx s in
  let early := (limit <? vlen candidates) && forallb (fun d => negb (acc d && m d)) (take (Z.to_nat (limit + 1)) candidates) in
  ∃ s', BulkScorer.score collect accept fuel mn mx limit k s
          = Ok (doc_id s', (if early then k else foldl put k (filter (fun d => acc d && m d = true) candidates)), s') ∧
        sound s' ∧
        (early = false → mx ≤ doc_id s' ∧
           filter (fun d => mx ≤ d < NO_MORE_DOCS) (doc_id s' :: remaining s')
             = filter (fun d => mn ≤ d ∧ mx ≤ d) (remaining s)).
Proof.
  intros Hcol Hacc Hm Htp Hlim Hs Hd Hmn Hmx Hf candidates early. unfold BulkScorer.score.
  destruct (bulk_start mn mx s Hs Hd Hmn Hmx) as (s1 & -> & Hs1 & H0 & Hv & Hrest). cbn [mbind result_bind].
  unfold BulkScorer.score_range. rewrite Htp.
  destruct (two_phase_range_spec collect put accept acc Hcol Hacc m limit Hm (fun _ => eq_refl) fuel mx Hmx k s1 0 0 Hs1 H0)
    as (s' & Hrun & Hp); [|lia|lia|].
  - rewrite Hv. pose proof (window_length mn mx s). lia.
  - rewrite Hv, Z.sub_0_r in *. cbn [Z.eqb andb] in *. fold candidates in Hrun, Hp.
    assert (He : gives_up acc m (Z.to_nat (limit + 1)) candidates = early).
    { unfold gives_up, early, vlen. f_equal.
      destruct (Nat.leb_spec (Z.to_nat (limit + 1)) (length candidates)), (Z.ltb_spec limit (Z.of_nat (length candidates))); lia || done. }
    rewrite He in *. exists s'. split; [exact Hrun|]. destruct early.
    + split; [apply Hp|done].
    + destruct Hp as (Hp & Hq & Hr). split; [done|]. intros _. split; [done|]. by rewrite <- Hr.
Qed.

(** * FilterScorer *)

(** The approximations of a filter scorer are its scorer's. *)
#[global] Program Instance filter_approx_steps {T} `{HT : DocIterator T} `{HS : !Scorer T} `{HD : !ApproxDocs T} {Fl} :
  Steps (fun s : FilterScorer.t T Fl => doc_id (FilterScorer.scorer s)) (FilterScorer.on_scorer approximate_next)
    (fun s target => FilterScorer.on_scorer (fun x => approximate_advance x target) s) :=
  {| remaining s := remaining (FilterScorer.scorer s); sound s := sound (FilterScorer.scorer s) |}.
Next Obligation. intros T HT HS HD Fl s Hs. exact (sound_sorted (FilterScorer.scorer s) Hs). Qed.
Next Obligation. intros T HT HS HD Fl s Hs. exact (sound_range (FilterScorer.scorer s) Hs). Qed.
Next Obligation.
  cbv beta. intros T HT HS HD Fl s Hs Hne. unfold FilterScorer.on_scorer.
  destruct (step_next (FilterScorer.scorer s) Hs Hne) as (x & -> & H). by exists (FilterScorer.mk x (FilterScorer.filters s)).
Qed.
Next Obligation.
  cbv beta. intros T HT HS HD Fl s target Hs Ht. unfold FilterScorer.on_scorer.
  destruct (step_advance (FilterScorer.scorer s) target Hs Ht) as (x & -> & H). by exists (FilterScorer.mk x (FilterScorer.filters s)).
Qed.

(** C37. A [FilterScorer] whose filters always give the same answer for a document
    is an iterator over exactly the candidates of its scorer that every filter
    accepts and the scorer's own verification confirms: any legal sequence of
    [next] and [advance] calls answers as a cursor on the sorted list of those. *)
Theorem filter_scorer_filters {T : Type} `{HT : DocIterator T} `{HS : !Scorer T} `{HD : !ApproxDocs T} {Fl : Type}
    (filter_matches : Fl → Z → result (bool * Fl)) (ok : Fl → Z → bool) (m : Z → bool)
    (fuel_of : FilterScorer.t T Fl → nat) (s : FilterScorer.t T Fl) calls ds :
  (∀ f d, ∃ f', filter_matches f d = Ok (ok f d, f') ∧ ∀ d', ok f' d' = ok f d') →
  (∀ x : T, sound x → doc_id x < NO_MORE_DOCS → ∃ x', matches x = Ok (m (doc_id x), x') ∧ same_place x x') →
  (∀ s, (S (S (length (remaining (FilterScorer.scorer s)))) ≤ fuel_of s)%nat) →
  sound (FilterScorer.scorer s) → doc_id (FilterScorer.scorer s) ≤ NO_MORE_DOCS →
  replay calls (doc_id (FilterScorer.scorer s))
    (filter (fun d => forallb (fun f => ok f d) (FilterScorer.filters s) && m d = true) (remaining (FilterScorer.scorer s)))
    = Some ds →
  perform (@next _ (FilterScorer.iterator filter_matches fuel_of)) (@advance _ (FilterScorer.iterator filter_matches fuel_of))
    calls s = Ok ds.
Proof.
  intros Hfil Hm Hfuel Hs Hle Hrep.
  by apply (steps_simulate (HS := filter_steps filter_matches ok m Hfil Hm fuel_of Hfuel)).
Qed.

(** A filter that keeps the multiples of a number. *)
Definition multiples (f d : Z) : result (bool * Z) := Ok (d mod f =? 0, f).

Lemma vec_matched (x : VecDocIterator.t) : sound x → ∃ x', matches x = Ok (true, x') ∧ same_place x x'.
Proof. intros Hs. by exists x. Qed.

Lemma filter_scorer_witness :
  let s := FilterScorer.mk (VecDocIterator.new [1; 4; 6; 9; 12]) [2; 3] in
  let fuel_of s := S (S (length (remaining (FilterScorer.scorer s)))) in
  perform (@next _ (FilterScorer.iterator multiples fuel_of)) (@advance _ (FilterScorer.iterator multiples fuel_of))
    [Next; Advance 7; Next] s = Ok [6; 12; NO_MORE_DOCS].
Proof.
  apply (filter_scorer_filters multiples (fun f d => d mod f =? 0) (fun _ => true)).
  - intros f d. by exists f.
  - intros x Hs _. by apply vec_matched.
  - lia.
  - repeat constructor; try discriminate; lia.
  - vm_compute. discriminate.
  - vm_compute. reflexivity.
Defined.

Lemma bulk_exact_witness :
  let s := VecDocIterator.new [1; 3; 5; 8; 9] in
  ∃ s', BulkScorer.score (fun k d s => Ok (k ++ [d], s)) (Some (fun i => Ok (negb (i =? 5)))) 5 2 9 100 [] s
          = Ok (doc_id s', [3; 8], s') ∧ 9 ≤ doc_id s'.
Proof.
  destruct (bulk_scorer_collects_exact (fun k d (s : VecDocIterator.t) => Ok (k ++ [d], s)) (fun k d => k ++ [d])
    (Some (fun i => Ok (negb (i =? 5)))) (fun d => negb (d =? 5)) 5 2 9 100 [] (VecDocIterator.new [1; 3; 5; 8; 9]))
    as (s' & Hrun & _ & Hd & _).
  - intros k s Hs. by exists s.
  - intros d Hd. unfold BulkScorer.accepts. unfold NO_MORE_DOCS in Hd. rewrite as_u_id by (unfold is_u; lia). done.
  - done.
  - done.
  - repeat constructor; try discriminate; lia.
  - split; [vm_compute; discriminate|reflexivity].
  - vm_compute. discriminate.
  - vm_compute. discriminate.
  - vm_compute. lia.
  - exists s'. split; [exact Hrun|exact Hd].
Defined.

(** A two-phase iterator: a vector of candidates of which the even ones match. *)
Definition even_docs : DocIterator VecDocIterator.t := {|
  doc_id := VecDocIterator.current_doc_id; next := VecDocIterator.next_impl; advance := VecDocIterator.advance_impl;
  cost it := vlen (VecDocIterator.doc_ids it);
  matches it := Ok (Z.even (VecDocIterator.current_doc_id it), it); support_two_phase _ := true;
  approximate_next := VecDocIterator.next_impl; approximate_advance := VecDocIterator.advance_impl;
|}.

Lemma bulk_two_phase_witness :
  ∃ s', @BulkScorer.score _ even_docs _ (fun k d s => Ok (k ++ [d], s)) None
          5 0 NO_MORE_DOCS 1 [] (VecDocIterator.new [1; 4; 6; 9; 12]) = Ok (@doc_id _ even_docs s', [4; 6; 12], s').
Proof.
  destruct (@bulk_scorer_collects_two_phase _ even_docs vec_docs_lawful _
    (fun k d s => Ok (k ++ [d], s)) (fun k d => k ++ [d]) None (fun _ => true) Z.even
    5 0 NO_MORE_DOCS 1 [] (VecDocIterator.new [1; 4; 6; 9; 12])) as (s' & Hrun & _).
  - intros k s Hs. by exists s.
  - done.
  - intros s Hs _. by exists s.
  - done.
  - done.
  - repeat constructor; try discriminate; lia.
  - split; [vm_compute; discriminate|reflexivity].
  - vm_compute. discriminate.
  - vm_compute. discriminate.
  - vm_compute. lia.
  - exists s'. exact Hrun.
Defined.

(** * DocIteratorAsBits *)

Section as_bits.
Import DocIteratorAsBits.
Context {T : Type} `{HT : DocIterator T} `{HD : !Docs T}.

(** [s] answers for the documents [docs] of the iterator it started with. *)
Record bits_ok (docs : list Z) (s : t T) : Prop := {
  bo_sound : sound (iter s);
  bo_max : max_doc s ≤ NO_MORE_DOCS;
  bo_previous : -1 ≤ previous s;
  bo_matched : 0 ≤ previous s → previous_matched s = bool_decide (previous s ∈ docs);
  bo_later : ∀ d, previous s < d < NO_MORE_DOCS → has (iter s) d ↔ d ∈ docs;
}.

Lemma get_spec docs s i : bits_ok docs s → previous s ≤ i < max_doc s → 0 ≤ i →
  ∃ s', get s i = Ok (bool_decide (i ∈ docs), s') ∧ bits_ok docs s' ∧ previous s' = i ∧ max_doc s' = max_doc s.
Proof using.
  intros [Hs Hmax Hp Hm Hl] Hi H0. unfold get. unfold NO_MORE_DOCS in Hmax.
  rewrite as_i_id by (unfold is_i; lia). rewrite (proj2 (Z.ltb_ge i 0)), (proj2 (Z.leb_gt (max_doc s) i)) by lia. cbn [orb].
  rewrite (proj2 (Z.ltb_ge i (previous s))) by lia.
  destruct (Z.eqb_spec i (previous s)) as [->|Hne]; [exists s; rewrite Hm by done; by split_and!|].
  assert (∃ o, (if doc_id (iter s) <? i then advance (iter s) i else Ok (doc_id (iter s), iter s)) = Ok (doc_id o, o) ∧
      sound o ∧ i ≤ doc_id o ∧ ∀ d, i ≤ d < NO_MORE_DOCS → has o d ↔ d ∈ docs) as (o & -> & Hso & Hio & Hho).
  { destruct (Z.ltb_spec (doc_id (iter s)) i) as [Hlt|Hge].
    - destruct (adv_moved (iter s) i Hs) as (o & -> & Hmv); [unfold NO_MORE_DOCS; lia|]. exists o.
      split; [done|]. split; [apply Hmv|]. split; [apply Hmv|]. intros d Hd. rewrite (mv_has _ _ _ Hmv) by done. apply Hl. lia.
    - exists (iter s). split_and!; try done. intros d Hd. apply Hl. lia. }
  cbn [mbind result_bind].
  assert (Heq : (i =? doc_id o) = bool_decide (i ∈ docs)).
  { pose proof (Hho i) as Hi'. unfold has in Hi'. unfold NO_MORE_DOCS in Hi'. destruct (Z.eqb_spec i (doc_id o)) as [E|E].
    - symmetry. apply bool_decide_eq_true. apply Hi'; [lia|]. by left.
    - symmetry. apply bool_decide_eq_false. intros Hin. apply Hi' in Hin as [?|Hin]; [lia| |lia].
      pose proof (sorted_elem _ _ _ (sound_sorted _ Hso) Hin). lia. }
  eexists. rewrite Heq. split; [reflexivity|]. cbn. split; [|done].
  constructor; cbn; try done; try (unfold NO_MORE_DOCS; lia). intros d Hd. apply Hho. lia.
Qed.

(** A sequence of questions. *)
Fixpoint ask (idx : list Z) (s : t T) : result (list bool * t T) :=
  match idx with
  | [] => Ok ([], s)
  | i :: idx => '(b, s) ← get s i; '(bs, s) ← ask idx s; Ok (b :: bs, s)
  end.

Lemma ask_spec docs idx : ∀ s, bits_ok docs s → StronglySorted Z.le (previous s :: idx) →
  Forall (fun i => 0 ≤ i < max_doc s) idx →
  ∃ s', ask idx s = Ok (map (fun i => bool_decide (i ∈ docs)) idx, s') ∧ bits_ok docs s' ∧
        previous s' = default (previous s) (last idx) ∧ max_doc s' = max_doc s.
Proof using.
  induction idx as [|i idx IH]; intros s Hok [Hsort Hle]%StronglySorted_inv Hin; cbn [ask map]; [by exists s|].
  apply Forall_cons_iff in Hin as [Hi Hin], Hle as [Hpi _].
  destruct (get_spec docs s i Hok) as (s1 & -> & Hok1 & Hp1 & Hm1); [lia|lia|]. cbn [mbind result_bind].
  destruct (IH s1) as (s2 & -> & Hok2 & Hp2 & Hm2); [done|by rewrite Hp1|by rewrite Hm1|]. cbn [mbind result_bind].
  exists s2. split; [done|]. split; [done|]. split; [|congruence]. rewrite Hp2, Hp1, last_cons.
  by destruct (last idx).
Qed.
End as_bits.

(** [DocIteratorAsBits] over a scorer that has not started answers any
    non-decreasing sequence of indexes below [max_doc] with the scorer's
    membership, repeated indexes included; an index below the last one asked, or
    one outside [0, max_doc), is refused with [IllegalArgument]. *)
Theorem doc_iterator_as_bits {T : Type} `{HT : DocIterator T} `{HD : !Docs T} (it : T) (max_doc : Z) (idx : list Z) :
  sound it → doc_id it = -1 → 0 ≤ max_doc ≤ NO_MORE_DOCS →
  StronglySorted Z.le idx → Forall (fun i => 0 ≤ i < max_doc) idx →
  ∃ s, ask idx (DocIteratorAsBits.new max_doc it) = Ok (map (fun i => bool_decide (i ∈ remaining it)) idx, s) ∧
       (∀ i, 0 ≤ i < default 0 (last idx) → DocIteratorAsBits.get s i = Err IllegalArgument) ∧
       (∀ i, max_doc ≤ i < 2 ^ 32 → DocIteratorAsBits.get s i = Err IllegalArgument).
Proof.
  intros Hs Hd Hmax Hsort Hin.
  assert (Hok : bits_ok (remaining it) (DocIteratorAsBits.new max_doc it)).
  { constructor; cbn; try done; try lia. intros d Hdd. unfold has. rewrite Hd. intuition lia. }
  destruct (ask_spec (remaining it) idx (DocIteratorAsBits.new max_doc it) Hok) as (s & Hrun & Hok' & Hp & Hm).
  - cbn. constructor; [done|]. eapply Forall_impl; [exact Hin|]. simpl. lia.
  - done.
  - exists s. split; [done|]. cbn in Hp, Hm. unfold NO_MORE_DOCS in *. unfold DocIteratorAsBits.get. rewrite Hm, Hp. split.
    + intros i Hi. assert (Hle : ∀ x, last idx = Some x → 0 ≤ x < max_doc).
      { intros x Hx. rewrite Forall_forall in Hin. apply Hin. by apply last_Some_elem_of. }
      destruct (last idx) as [x|]; simpl in *; [|lia]. specialize (Hle x eq_refl).
      rewrite as_i_id by (unfold is_i; lia). rewrite (proj2 (Z.ltb_ge i 0)), (proj2 (Z.leb_gt max_doc i)) by lia.
      cbn [orb]. by rewrite (proj2 (Z.ltb_lt i x)) by lia.
    + intros i Hi. assert (as_i32 i < 0 ∨ max_doc ≤ as_i32 i) as Hor.
      { destruct (decide (i < 2 ^ 31)); [right; rewrite as_i_id by (unfold is_i; lia); lia|].
        left. unfold as_i. rewrite <- (Z.mod_unique (i + 2 ^ (32 - 1)) (2 ^ 32) 1 (i - 2 ^ 31)); lia. }
      destruct (Z.ltb_spec (as_i32 i) 0); [done|]. rewrite (proj2 (Z.leb_le _ _)) by lia. done.
Qed.

Lemma doc_iterator_as_bits_witness :
  let it := VecDocIterator.new [2; 5] in
  ∃ s, ask [1; 2; 2; 5; 6] (DocIteratorAsBits.new 7 it) = Ok ([false; true; true; true; false], s) ∧
       (∀ i, 0 ≤ i < 6 → DocIteratorAsBits.get s i = Err IllegalArgument) ∧
       (∀ i, 7 ≤ i < 2 ^ 32 → DocIteratorAsBits.get s i = Err IllegalArgument).
Proof.
  destruct (doc_iterator_as_bits (VecDocIterator.new [2; 5]) 7 [1; 2; 2; 5; 6]) as (s & Hask & Hrest).
  - repeat constructor; try discriminate; lia.
  - reflexivity.
  - split; discriminate.
  - repeat constructor; lia.
  - repeat constructor; lia.
  - exists s. split; [|exact Hrest]. rewrite Hask. vm_compute. reflexivity.
Defined.

(** * Second phases that are never asked *)

Lemma filter_every (P : Z → Prop) `{∀ x, Decision (P x)} (l : list Z) : (∀ d, d ∈ l → P d) → filter P l = l.
Proof.
  intros Hall. induction l as [|x l IH]; [done|]. rewrite filter_cons, decide_True by (apply Hall; left). f_equal. apply IH. intros d Hd. apply Hall. by right.
Qed.
Lemma foldl_snoc (l acc : list Z) : foldl (fun ds d => ds ++ [d]) acc l = acc ++ l.
Proof. revert acc. induction l as [|x l IH]; intros acc; cbn; [by rewrite app_nil_r|]. by rewrite IH, <- app_assoc. Qed.

Lemma conj_collects {T : Type} `{HT : DocIterator T} `{HD : !ApproxDocs T} (fuel_of : ConjunctionScorer.t T → nat)
    (Hfuel : ∀ s, (S (S (length (remaining (ConjunctionScorer.lead1 s)))) ≤ fuel_of s)%nat) (s : ConjunctionScorer.t T) :
  conj_sound s → doc_id (ConjunctionScorer.lead1 s) = -1 → ∀ fuel limit, (length (conj_remaining s) ≤ fuel)%nat →
  ∃ last s', @BulkScorer.score _ (ConjunctionScorer.iterator fuel_of) _ (fun ds d s => Ok (ds ++ [d], s)) None fuel 0 NO_MORE_DOCS limit [] s
    = Ok (last, conj_remaining s, s') ∧ NO_MORE_DOCS ≤ last.
Proof.
  intros Hs Hd fuel limit Hf. set (HI := ConjunctionScorer.iterator fuel_of). set (HA := conj_steps fuel_of Hfuel : @Steps _ (@doc_id _ HI) (@approximate_next _ HI) (@approximate_advance _ HI)).
  destruct (@bulk_start _ HI HA 0 NO_MORE_DOCS s) as (s1 & Hstart & Hs1 & H0 & Hv & _); [done|cbn; rewrite Hd; unfold NO_MORE_DOCS; lia|done|done|].
  assert (@window _ HI HA 0 NO_MORE_DOCS s = conj_remaining s) as Hw.
  { unfold window. change (@remaining _ _ _ _ HA s) with (conj_remaining s). apply filter_every. intros d Hin.
    pose proof (sound_range (Steps := HA) s Hs) as Hr. rewrite Forall_forall in Hr.
    pose proof (sorted_elem _ _ _ (sound_sorted (Steps := HA) s Hs) Hin) as Hlt. cbn in Hlt. split; [lia|by apply Hr]. }
  unfold BulkScorer.score. rewrite Hstart. cbn [mbind result_bind]. unfold BulkScorer.score_range. cbn [support_two_phase HI ConjunctionScorer.iterator].
  destruct (@exact_range_spec _ HI _ (fun ds d s => Ok (ds ++ [d], s)) (fun ds d => ds ++ [d]) None (fun _ => true) _ _ HA) with (fuel := fuel) (mx := NO_MORE_DOCS) (k := @nil Z) (s := s1)
    as (s' & Hrun & Hp & Hlast & _); try done.
  - intros k x Hx. by exists x.
  - by rewrite Hv, Hw.
  - exists (@doc_id _ HI s'), s'. split; [|done]. rewrite Hrun, Hv, Hw. unfold collected_docs. by rewrite filter_every, foldl_snoc.
Qed.

(** The same iterator with another second phase. *)
Definition with_second_phase {T : Type} (it : DocIterator T) (verify : T → result (bool * T)) (two_phase : T → bool) : DocIterator T := {|
  doc_id := doc_id; next := next; advance := advance; cost := cost; matches := verify; support_two_phase := two_phase;
  approximate_next := approximate_next; approximate_advance := approximate_advance;
|}.

(** C38. A [ConjunctionScorer] never asks its children to verify a candidate.  Whatever the second phase of the children
    is (any [matches] and any [support_two_phase], so also one that refuses every document, or fails), [BulkScorer::score]
    over the conjunction of at least two children, none of them started, collects every document that is in the
    approximations of all of them, in order, and says so with success. *)
Theorem conjunction_never_verifies {T : Type} `{HT : DocIterator T} `{HD : !ApproxDocs T} (fuel_of : ConjunctionScorer.t T → nat)
    (verify : T → result (bool * T)) (two_phase : T → bool) (children : list T) :
  let phased := with_second_phase HT verify two_phase in
  (∀ s, (S (S (length (remaining (ConjunctionScorer.lead1 s)))) ≤ fuel_of s)%nat) →
  2 ≤ vlen children → Forall (fun c => sound c ∧ doc_id c = -1) children →
  ∃ s docs, @ConjunctionScorer.new _ phased children = Ok s ∧ StronglySorted Z.lt docs ∧
    (∀ d, d ∈ docs ↔ Forall (fun c => d ∈ remaining c) children) ∧
    ∀ fuel limit, (length docs ≤ fuel)%nat →
      ∃ last s', @BulkScorer.score _ (@ConjunctionScorer.iterator _ phased fuel_of) _ (fun ds d s => Ok (ds ++ [d], s)) None
        fuel 0 NO_MORE_DOCS limit [] s = Ok (last, docs, s') ∧ NO_MORE_DOCS ≤ last.
Proof.
  intros phased Hfuel Hlen Hch. set (HD' := HD : @Steps T (@doc_id _ phased) (@approximate_next _ phased) (@approximate_advance _ phased)).
  destruct (@conj_new T phased HD' fuel_of children Hfuel Hlen Hch) as (s & Hnew & Hsound & Hd & Hsort & Hdocs).
  exists s, (@conj_remaining T phased HD' s). split_and!; try done. intros fuel limit Hf.
  destruct (@conj_collects T phased HD' fuel_of Hfuel s Hsound Hd fuel limit Hf) as (last & s' & Hrun & Hlast). by exists last, s'.
Qed.
(** Both children refuse every document. *)
Lemma conjunction_never_verifies_witness :
  let refused := with_second_phase VecDocIterator.iterator (fun it => Ok (false, it)) (fun _ => true) in
  let children := [VecDocIterator.new [3; 4; 7]; VecDocIterator.new [3; 7]] in
  let fuel_of s := S (S (length (remaining (ConjunctionScorer.lead1 s)))) in
  ∃ s docs last s', @ConjunctionScorer.new _ refused children = Ok s ∧ 3 ∈ docs ∧
    @BulkScorer.score _ (@ConjunctionScorer.iterator _ refused fuel_of) _ (fun ds d s => Ok (ds ++ [d], s)) None
      (length docs) 0 NO_MORE_DOCS 100 [] s = Ok (last, docs, s').
Proof.
  intros refused children fuel_of.
  destruct (conjunction_never_verifies fuel_of (fun it => Ok (false, it)) (fun _ => true) children) as (s & docs & Hnew & _ & Hdocs & Hrun).
  - intros s; unfold fuel_of; reflexivity.
  - vm_compute. discriminate.
  - repeat constructor; try reflexivity; try discriminate; try lia.
  - destruct (Hrun (length docs) 100 ltac:(lia)) as (last & s' & E & _). exists s, docs, last, s'. split; [exact Hnew|]. split; [|exact E].
    apply Hdocs. repeat constructor.
Defined.
